(* ===== verification/_CoqProject ===== *)
-Q . S2P
Prelude.v
Text.v
Crypto.v
BTree.v
Envelope.v
HistoryCodec.v
Event.v
Authority.v
Revision.v
RevisionGraph.v
Signing.v
BridgeProof.v
Policy.v
Container.v
ContainerCodec.v
FileOps.v
Trust.v
Diff.v
Merge.v
AutoMerge.v
Expiry.v
Resolve.v
Sync.v
Snapshot.v
Lifecycle.v
Pss.v
Visibility.v
OrgTree.v
Tables.v
KeyStore.v
KeyTree.v
Combinations.v
Reconstruct.v
SplitTree.v
BridgePackage.v
PrivateBridge.v
BridgeRoster.v
BridgeLaws.v
BridgeRotation.v
BridgeSafety.v
BridgeInvariant.v
BridgeDemo.v
TreeOps.v
TreeLaws.v
TreeSync.v
TreeSyncLaws.v
TreeView.v
TreeDemo.v
OrgLetters.v
OrgUpdate.v
OrgUpdateLaws.v
OrgLog.v
OrgDelivery.v
OrgDemo.v
Access.v
Aead.v
Clock.v
Pin.v
World.v
Sharing.v
Quorum.v
QuorumLaws.v
ProtectedDemo.v
Ring.v
RingHistory.v
Exchange.v
Outbox.v
OutboxLaws.v
OutboxMachine.v
OutboxClaims.v
Inbox.v
RingDemo.v
Device.v
DeviceLaws.v
TransferPackage.v
Transfer.v
TransferLaws.v
TransferSafety.v
Delivery.v
TransferDemo.v
