(* ===== verification/Prelude.v ===== *)
(** * KeyQuorum: a verification of its files, split keys, bridges and updates

    KeyQuorum (Rust) keeps documents and secrets under hierarchical control.
    Members carry labels such as [M.S.2]; a file travels as a [KQTF] container that
    holds its revisions, the proofs on them and a hash-chained event history, and
    every holder judges trust against keys of their own; a secret is split over a
    tree of hardware keys and comes back from a quorum of them; a private bridge is
    a signing secret shared by members of different branches, each with a database
    of their own. This library models these parts from the sources and proves what
    makes them correct.

    ** The parts and how they meet

    Formats and signatures, used by everything else:
    - [src/src/envelope.rs]: length-prefixed fields and sealed envelopes. [Envelope].
    - [src/src/authority.rs]: labels as a hierarchy. [Authority].
    - [src/src/signing.rs]: every signed preimage, the bridge artifact. [Signing].

    Tracked files, [src/src/file_history/]:
    - [codec.rs]: the field codec. [HistoryCodec].
    - [event.rs]: events and their hash chain. [Event].
    - [revision.rs]: revisions and the revision graph. [Revision], [RevisionGraph].
    - [policy.rs]: the policy of a file, trust, delivery. [Policy] (with the proofs of
      [proof.rs]), [Trust].
    - [proof.rs]: signatures on revisions and events. [Policy], [FileOps].
    - [container.rs], [verify.rs]: the container, check-in, append, encoding and the
      structural verifier, also as a declarative predicate. [Container],
      [ContainerCodec].
    - [merge.rs]: line diff, three-way merge, automatic merge of two heads. [Diff],
      [Merge], [AutoMerge].
    - [resolve.rs]: who settles a conflict and how. [Resolve].
    - [expiry.rs]: scheduled destruction. [Expiry].
    - [sync.rs], [snapshot.rs]: copies and portable histories. [Sync], [Snapshot].
    - [Lifecycle] puts every operation into one step relation.

    Split keys:
    - [src/src/pss.rs]: proactive refresh of Shamir shares. [Pss].
    - [src/src/keys.rs] (registry), [src/src/device.rs] (custody): [KeyStore], with
      the tables of [src/src/db/schema.sql] as the record [Store] and computations on
      a connection as [dbM], and what a computation leaves alone ([respects]).
    - [src/src/key_tree.rs]: [KeyTree] (specifications, splitting, loading),
      [Combinations] and [Reconstruct] (recovery under a custody policy), [SplitTree]
      (what a split writes and that it comes back), [TreeOps] (pairings, rebinding,
      adding a leaf, eviction), [TreeLaws] (their laws),
      [TreeSync] (exporting and applying published trees), [TreeSyncLaws] and
      [TreeView] (their laws), [TreeDemo] (concrete runs).
    - the public tree of [key_tree.rs] and [src/src/relay/org_tree.rs]: [Visibility]
      (who sees what), [OrgTree] (validation, slices, merging).

    Private bridges:
    - [src/src/bridge_proof.rs]: [BridgeProof].
    - [src/src/private_bridge.rs]: [Tables] (the tables), [BTree] (ordered
      maps), [BridgePackage] (packages and their codec), [PrivateBridge] (the
      operations), and their laws in [BridgeRoster], [BridgeLaws], [BridgeRotation],
      [BridgeSafety] and [BridgeInvariant]; [BridgeDemo] runs a
      bridge through two stores.

    Organization updates, [src/src/org_update.rs]: [Tables] (the log and the
    pending proposals), [OrgLetters] (letters, their codecs and digests), [OrgUpdate]
    (plans, commits, imports), and their laws in [OrgUpdateLaws] (what is accepted),
    [OrgLog] (the log over any run) and [OrgDelivery] (what a reissue leaves in the
    registry, and that planned letters arrive); [OrgDemo] runs a small
    organization.

    Protected files and access:
    - [src/src/access.rs]: what a switch of account demands. [Access].
    - [src/src/crypto.rs], [src/src/slot_token.rs]: [Aead].
    - [src/src/storage.rs]: paths, the storage trait and files in memory. [World],
      which adds the disk to the database ([ioM]) and holds [src/src/vault.rs].
    - [src/src/pin.rs]: [Clock] (time as SQLite tells it, expiry dates), [Pin].
    - [src/src/locked_files.rs], [src/src/sharing.rs]: [Sharing].
    - [src/src/quorum.rs] and the approvals and evidence of [authority.rs]: [Quorum],
      [QuorumLaws]. [Tables] holds the tables of them all and [ProtectedDemo] runs
      them.

    Letters on their way:
    - [src/src/ring.rs], [src/src/ring/history.rs]: rings of slots in the database and
      their hash-chained timelines. [Ring], [RingHistory].
    - [src/src/file_delivery/exchange.rs]: the order of the letters about one tracked
      file. [Exchange].
    - [src/src/outbox.rs]: queueing, claiming, sending and dropping. [Outbox], its laws in
      [OutboxLaws], [OutboxMachine] (every interleaving of senders) and [OutboxClaims].
    - [src/src/db/inbox.rs]: letters held until they are opened. [Inbox]. [RingDemo]
      runs them.

    Devices and transfers:
    - [src/src/device.rs]: containers of slots on a disk under a signed descriptor.
      [Device], its laws in [DeviceLaws]; custody is in [KeyStore].
    - [src/src/transfer.rs]: [TransferPackage] (the signed package and its codec),
      [Transfer] (identities, authorisation, every phase of a transfer; a [Site] is one
      device with its database, a [Duo] the two of a transfer, which may share either),
      [TransferLaws] (each statement and phase) and [TransferSafety] (the two sides under
      any interleaving). [Tables] holds their tables, [TransferDemo] runs a transfer.
    - [src/src/device_relay.rs] (letters that relocate a slot through the relay),
      [src/src/enrollment.rs] (requests of new clients), [src/src/provider.rs]
      (certificates, challenges, revocation lists), [src/src/package.rs] (signed packages)
      and [src/src/setup_manifest.rs] (the plan that installs one): [Delivery], a module
      for each with its laws; [TransferDemo] runs them too.


    [Prelude] (this file) and [Text] hold what they share: the result and parser
    monads with their inversion tactics, lawful codecs ([codec_ok]), order-dependent
    checks ([each_after]), UTF-8 and the string functions of the standard library.

    ** How the code is read

    - [u8], arrays, slices and strings are lists of [byte]; a string is its UTF-8
      bytes. Machine integers are [N] with the range checks and wrap-arounds written
      out ([try_u32], [be_bytes], [as_u8], [u32_succ]); a length, an index or a row
      id is a [nat].
    - [Result] is [result] with the error variants the code returns. A decoder is a
      [parser]: the bytes still to read are its state, as in the source's
      [&mut &[u8]].
    - A method on [&mut TrackedFile] is a computation in [fileM], a function of a
      [Connection] one in [dbM]: both give back the [Result] together with the state
      as they leave it, on error too, so that "nothing changes on error" is a
      statement and not an assumption. A transaction that is dropped restores the
      store. A statement that breaks a constraint of the schema is the error [Db].
    - [BTreeMap] and [BTreeSet] are [gmap] and [gset], or the sorted lists of [BTree]
      where the order of iteration is written out; a [Vec] is a list.
    - Third-party code is a parameter: SHA-256, Ed25519 and sealed boxes are the
      class [Crypto] with the laws [CryptoLaws], Shamir's scheme is [Shamir] with
      [ShamirLaws]; no law says that a hash is injective, a theorem that would need
      it gives the colliding inputs back. [Unicode] stands for the two character
      classes labels use, [Hex] and [HexDecode] for [hex::encode] and [hex::decode],
      [TreeJson] for [serde_json] on a published tree, [Aead] for Argon2id and AES-GCM,
      [Clock] for SQLite's [datetime], [Base64] and [ErrorText] for what their names
      say, [Storage] for a file system that
      may refuse any call, a deletion too,
      [TrustContext] for the caller's key store (a trait in the source). Randomness
      is an argument. [Crypto.Toy], [Pss.ToyShamir] and the [Demo] modules
      instantiate them all, so every theorem is exercised on concrete input.

    ** Loops and fuel

    Loops over a list are structural. The depth-first walks of [RevisionGraph] take
    one unit of fuel per stored parent link and two more ([walk_fuel]), which
    [ancestor_set_agrees] shows to be enough for every graph, cyclic input included.
    [Diff.walk] advances in one of the two texts each round and gets the sum of their
    lengths. [FileOps.make_room] removes a proof each round and gets their number.
    The loops of [Visibility] get the number of labels or links
    ([visible_labels_exact]). [Reconstruct.search] counts what it examines, as the
    source does ([MAX_EXAMINED]); recursion in a loaded tree is never deeper than its
    number of nodes ([node_fuel]). [TreeSync.apply_passes] applies a node each round
    and gets the number of published nodes; [TreeSync.doomed] follows parents and
    gets the number of rows.

    ** What the theorems show

    - Codecs: every format decodes what it encodes, and what decodes is the encoding
      of its value ([file_roundtrip], [file_decode_canonical]).
    - Binding: a history root and the bytes a proof signs determine their content up
      to an exhibited hash collision ([chain_root_binds], [proof_message_binds]).
    - Graph: merge base and ancestor sets against reachability
      ([merge_base_correct], [ancestor_set_agrees]).
    - Trust: [trust_characterised] says exactly when a revision is trusted;
      [shareable_revision_trusted] is what delivery relies on.
    - Merging: the matcher is a longest common subsequence ([matches_longest]), a diff
      applies back ([diff_apply]), the three-way merge is exact ([merge_text_spec])
      and its recording atomic ([auto_merge_atomic]).
    - Conflicts: neither conflicting author is ever chosen or let through
      ([resolver_justified], [resolve_conflict_sound]).
    - Expiry: destruction is all or nothing and final ([destroy_content_atomic],
      [destroyed_is_final]).
    - Copies: extraction is total and exact, import is an atomic union
      ([extract_revision_complete], [merge_history_union], [merge_history_accepts]).
    - Life: every reachable file verifies, unless a caller appended the destruction of
      content that is there, and the record is append-only
      ([reachable_verifies], [record_append_only]).
    - Split keys: a split secret comes back from exactly the quorums of its
      specification ([split_reconstruct_roundtrip]), a value that comes back is never
      another one ([reconstruct_never_wrong]), and only within the custody policy
      ([reconstruct_presented_custody], [select_child_subset_best],
      [enforce_devices_exact], [next_combination_enumerates]). Eviction and adding a
      leaf keep the secret ([evict_keeps_secret], [add_leaf_keeps_secret]) over a
      refresh that is all or nothing ([refresh_all_or_nothing]) and deals every survivor
      a share blinded by a sharing of zero from each of them ([Pss.blind]).
    - Published trees: the view of a label is what the rule says, on the relay and in
      a store alike ([visible_labels_exact], [visible_labels_agree]); slices of valid
      trees are valid and merge back ([slice_for_fingerprint_valid],
      [merge_slice_identity]); applying a published tree makes the local tree that
      tree ([apply_public_tree_replaces]) and cutting down keeps the rows and shares
      that stay ([project_local_exact]).
    - Bridges: creation and removal keep the stores of all parties in step
      ([creation_in_step], [removal_in_step]), no import changes a bridge without a
      signature of a member ([import_authorised]), members sign and verify
      ([sign_verify_in_step]) and the tables stay sound over any run,
      plans committed late or twice included ([bridge_tables_sound]).
    - Organization updates: an import writes only what a registered authority
      signed for this store, in order ([import_update_authorised]), and once
      ([replay_refused]); the log has no gap ([update_log_sound]) and its numbers never
      wrap ([reissue_sequence_bounded]); a digest binds its whole letter
      ([letter_digest_binds]); planned letters are accepted by stores in step
      ([planned_reissue_accepted], [planned_restructure_delivered]) with exactly the
      announced effect ([apply_reissue_effect]).
    - Protected files: a quorum file opens for exactly the quorums of its tree, when its
      keys are on devices of their own, and never to other bytes
      ([quorum_roundtrip]), only with the approvals asked for ([unlock_authorised]),
      never after its expiry ([quorum_expiry]), and a failed lock leaves nothing
      behind that the storage lets it delete ([quorum_lock_atomic], [lock_file_atomic]); the same for a password
      ([locked_file_roundtrip]). A PIN is guessed at most eight times ([pin_lockout]),
      a share redeemed at most as often as it says ([share_uses_bounded]), a slot
      token opens to what was sealed ([slot_token_roundtrip]), a credential reads back
      ([credential_roundtrip]), evidence of keys is exact ([historical_exact]), and a
      switch of account demands what its rule says ([requirement_exact]).
    - Letters: a letter leaves only in its place in the exchange ([exchange_order]), is
      queued exactly when it may be ([push_exact]), goes out oldest first and only while
      its receiver is trusted ([send_delivers_oldest]), is delivered and counted at most
      once however senders interleave ([outbox_exactly_once]); timelines only grow
      ([timeline_append_only]), refusals are kept ([refusal_recorded]) and the inbox
      holds every letter it took until it is opened ([inbox_keeps_letters]).
    - Devices and transfers: a container is a map from labels to secrets
      ([container_refines_map]) and relocating a slot never loses it
      ([relocate_never_loses]); a package is read exactly as written ([package_exact]),
      what is exported is the active keys below the root ([descendants_exact],
      [select_export_Ok]), and no order of steps, failures or recoveries loses a key or
      retires it before the other side holds it ([transfer_crash_safe]). The loop of
      [descendants_of] has one round of fuel per identity, enough for every tree by
      [descendants_exact]; on a cycle of parents, where the source never ends, the
      answer is [NoEnd].
    - Delivery: a slot sent through the relay arrives whole and its receipt comes back
      ([relayed_relocation]); a package is trusted only as its issuer signed it and only
      under the pinned root ([package_trusted]), a manifest accepted for it installs
      every part once and in an order that can be run ([manifest_runs]), and an
      enrollment request is accepted exactly as its key signed it ([enrollment_exact]).
    - Divergences found: [bridge_sign_message_shift], [second_encoding],
      [without_bridges_forgets_keys], [slice_depends_on_node_order],
      [destroy_notice_transferable], [active_rosters_lists_supervisors],
      [apply_orphan_drops_published], [root_switch_skips_grant],
      [moves_in_one_store], [knot_never_ends], [ciphertext_left] and
      [denied_reachable].

    ** Not modelled

    The SQLite index of files, the command line, the relay service around the public
    trees, key generation, the JSON text of a manifest and the collection of files into a package, the clock, other
    input/output; password hashing and the cryptography itself. Next in order:
    [bridge_command.rs], [file_delivery.rs], [export.rs] and the store of the relay. *)

From Stdlib Require Import Lia.
From Stdlib Require Export Strings.Byte.
From stdpp Require Export base tactics option numbers sets sorting countable list_numbers list.

(** ** Bytes

    The source works on [u8], [[u8; N]], [&[u8]] and [String]. All four are
    lists of [Byte.byte] here; an array's width and a string's UTF-8 validity
    are well-formedness predicates that the decoders establish. *)

Abbreviation bytes := (list byte).

#[global] Instance byte_eq_dec : EqDecision byte := Byte.byte_eq_dec.

#[global] Program Instance byte_countable : Countable byte :=
  inj_countable Byte.to_N Byte.of_N _.
Next Obligation. intros b. apply Byte.of_to_N. Qed.

(** ** Errors

    The variants of [src/src/error.rs] that the modelled code returns. *)

(** The kinds of [std::io::Error] the code tells apart. *)
Inductive io_kind := IoNotFound | IoAlreadyExists | IoOther.
#[global] Instance io_kind_eq_dec : EqDecision io_kind.
Proof. solve_decision. Defined.

Inductive error :=
| InvalidTrackedFile
| InvalidBridgePackage
| InvalidExportBundle
| BundleFieldTooLarge
| FileExpired
| InvalidPublicKey
| SignatureVerificationFailed
| IntegrityCheckFailed
| ShareShapeMismatch
| QuorumNotMet
| GhostDenied
| CustodyViolation
| NodeNotFound
| TreeNotFound
| DuplicateNodeLabel
| InvalidQuorumThreshold
| InvalidTreeSpec
| InvalidBridge
| BridgeNotWhitelisted
| BridgeNotFound
| CannotEvict
| CannotAddLeaf
| StalePublicTree
| WrongKeyType
| KeyRevoked
| KeyNotFound
| UnlockApprovalRequired
| PhysicalDevicesNotMet
| BridgeDestroyed
| BridgeGenerationMismatch
| NotBridgeMember
| SealedKeyNotHeld
| TooFewBridgeMembers
| InvalidDevice
| InvalidSlot
| InvalidPassword
| InvalidPath
| Io (kind : io_kind)
| InvalidUpdatePackage
| UpdateRecipientMismatch
| UpdateNotAuthorized
| StaleUpdate
| PublicKeyLabelMismatch
| ProposalNotFound
| InvalidShareToken
| ShareExpired
| ShareRevoked
| ShareExhausted
| InvalidExpiresAt
| ExpiresAtInPast
| KeyDerivationFailed
| TransferDenied
| IdentityConflict
| TransferReplay
| TransferIncomplete
| OutboxFull
| UntrustedRecipient
| OutboxItemRefused
| OutboxNotEmpty
| InvalidSetupManifest
| PinMismatch
| PinLocked
| PinNotSet
| InvalidPin
| DeviceNotFound
| InvalidKqpkg
| KqpkgComponentRejected
| KqpkgExpired
| KqpkgIssuerUntrusted
| InvalidProviderCertificate
| ProviderCertificateRevoked
| ProviderCertificateExpired
| ProviderCapabilityDenied
| RelayIdentityMismatch
| InvalidProviderChallenge
| UntrustedRelay
| InvalidEnrollment
| EnrollmentFingerprintMismatch
| ExchangeOutOfOrder (missing : bytes)
| Usage
| OrganizationDatabase
| InvalidApiKey
| InvalidInboxPage
| Db
(** Not an error of the source: it stands for a loop that does not end. *)
| NoEnd.

#[global] Instance error_eq_dec : EqDecision error.
Proof. solve_decision. Defined.

(** [Result<T>], with [?] as the monadic bind. *)
Inductive result (A : Type) :=
| Ok (a : A)
| Err (e : error).
Arguments Ok {A} a.
Arguments Err {A} e.

#[global] Instance result_eq_dec `{EqDecision A} : EqDecision (result A).
Proof. solve_decision. Defined.

#[global] Instance result_ret : MRet result := fun _ a => Ok a.
#[global] Instance result_bind : MBind result := fun _ _ f r =>
  match r with Ok a => f a | Err e => Err e end.
#[global] Instance result_fmap : FMap result := fun _ _ f r =>
  match r with Ok a => Ok (f a) | Err e => Err e end.

(** [Option::ok_or]. *)
Definition ok_or {A} (o : option A) (e : error) : result A :=
  match o with Some a => Ok a | None => Err e end.

(** [Result::map_err(|_| e)]. *)
Definition map_err {A} (e : error) (r : result A) : result A :=
  match r with Ok a => Ok a | Err _ => Err e end.

Definition is_ok {A} (r : result A) : bool :=
  match r with Ok _ => true | Err _ => false end.

(** A decoder over a [&mut &[u8]] cursor: it returns the value and what is left. *)
Definition parser (A : Type) : Type := bytes -> result (A * bytes).
#[global] Instance parser_ret : MRet parser := fun _ a data => Ok (a, data).
#[global] Instance parser_bind : MBind parser := fun _ _ f p data =>
  match p data with Ok (a, rest) => f a rest | Err e => Err e end.

Definition fail {A} (e : error) : parser A := fun _ => Err e.

(** A fallible step that reads nothing. *)
Definition lift {A} (r : result A) : parser A := fun data =>
  match r with Ok a => Ok (a, data) | Err e => Err e end.

(** [for _ in 0..n { out.push(p(data)?) }] *)
Fixpoint repeat_parser {A} (n : nat) (p : parser A) : parser (list A) :=
  match n with
  | O => mret []
  | S n => x ← p; xs ← repeat_parser n p; mret (x :: xs)
  end.

(** A fallible encoder applied to every element, the outputs concatenated. *)
Fixpoint encode_all {A} (enc : A -> result bytes) (l : list A) : result bytes :=
  match l with
  | [] => Ok []
  | x :: l => b ← enc x; bs ← encode_all enc l; Ok (b ++ bs)
  end.

(** ** Fixed-width big-endian integers

    [to_be_bytes]/[from_be_bytes]. A [uN] is an [N] below [2^N]; [byte_of_N]
    is the truncating cast [as u8]. *)

Definition byte_of_N (n : N) : byte :=
  match Byte.of_N (n mod 256)%N with Some b => b | None => x00 end.

Fixpoint be_bytes (w : nat) (v : N) : bytes :=
  match w with
  | O => []
  | S w => be_bytes w (v / 256)%N ++ [byte_of_N v]
  end.

#[global] Arguments be_bytes : simpl never.

Definition of_be (l : bytes) : N :=
  foldl (fun acc b => acc * 256 + Byte.to_N b)%N 0%N l.

#[global] Arguments of_be : simpl never.

Definition u16_max : N := 65536.
Definition u32_max : N := 4294967296.
Definition u64_max : N := 18446744073709551616.

#[global] Arguments u16_max : simpl never.
#[global] Arguments u32_max : simpl never.
#[global] Arguments u64_max : simpl never.

(** [u16::try_from] / [u32::try_from] on a length. *)
Definition try_u16 (n : nat) : result N :=
  if (N.of_nat n <? u16_max)%N then Ok (N.of_nat n) else Err BundleFieldTooLarge.
Definition try_u32 (n : nat) : result N :=
  if (N.of_nat n <? u32_max)%N then Ok (N.of_nat n) else Err BundleFieldTooLarge.

Lemma to_N_byte_of_N n : Byte.to_N (byte_of_N n) = (n mod 256)%N.
Proof.
  unfold byte_of_N. destruct (Byte.of_N (n mod 256)) as [b|] eqn:E.
  - by apply Byte.to_of_N in E.
  - apply Byte.of_N_None_iff in E. pose proof (N.mod_lt n 256). lia.
Qed.

Lemma byte_of_to_N b : byte_of_N (Byte.to_N b) = b.
Proof.
  unfold byte_of_N. rewrite N.mod_small.
  - by rewrite Byte.of_to_N.
  - pose proof (Byte.to_N_bounded b). lia.
Qed.

Lemma byte_to_N_inj b c : Byte.to_N b = Byte.to_N c -> b = c.
Proof. intros E. by rewrite <- (byte_of_to_N b), E, byte_of_to_N. Qed.

Lemma be_bytes_S w v : be_bytes (S w) v = be_bytes w (v / 256)%N ++ [byte_of_N v].
Proof. reflexivity. Qed.

Lemma length_be_bytes w v : length (be_bytes w v) = w.
Proof.
  revert v; induction w as [|w IH]; intros v; [done|].
  rewrite be_bytes_S, length_app, IH. simpl; lia.
Qed.

Lemma of_be_snoc l b : of_be (l ++ [b]) = (of_be l * 256 + Byte.to_N b)%N.
Proof. unfold of_be. by rewrite foldl_app. Qed.

Lemma of_be_bytes w v : (v < 256 ^ N.of_nat w)%N -> of_be (be_bytes w v) = v.
Proof.
  revert v; induction w as [|w IH]; intros v Hv; [simpl in *; unfold of_be; simpl; lia|].
  rewrite be_bytes_S, of_be_snoc, to_N_byte_of_N, IH.
  - pose proof (N.div_mod v 256). lia.
  - apply N.Div0.div_lt_upper_bound.
    replace (256 * 256 ^ N.of_nat w)%N with (256 ^ N.of_nat (S w))%N; [done|].
    rewrite Nat2N.inj_succ, N.pow_succ_r'. lia.
Qed.

Lemma be_bytes_of_be l : be_bytes (length l) (of_be l) = l.
Proof.
  induction l as [|b l IH] using rev_ind; [done|].
  rewrite length_app, Nat.add_comm. cbn [length Nat.add].
  rewrite be_bytes_S, of_be_snoc. pose proof (Byte.to_N_bounded b) as Hb.
  assert ((of_be l * 256 + Byte.to_N b) / 256 = of_be l)%N as ->.
  { rewrite N.div_add_l by lia. rewrite N.div_small by lia. lia. }
  rewrite IH. do 2 f_equal. apply byte_to_N_inj. rewrite to_N_byte_of_N.
  rewrite N.Div0.add_mod, N.Div0.mod_mul, N.add_0_l, N.Div0.mod_mod.
  apply N.mod_small. lia.
Qed.

Lemma be_bytes_of_be_n n l : length l = n -> be_bytes n (of_be l) = l.
Proof. intros <-. apply be_bytes_of_be. Qed.

Lemma of_be_bound l : (of_be l < 256 ^ N.of_nat (length l))%N.
Proof.
  induction l as [|b l IH] using rev_ind; [unfold of_be; simpl; lia|].
  rewrite of_be_snoc, length_app. cbn [length]. rewrite Nat.add_1_r, Nat2N.inj_succ, N.pow_succ_r'.
  pose proof (Byte.to_N_bounded b). lia.
Qed.

Lemma be_bytes_inj w v v' :
  (v < 256 ^ N.of_nat w)%N -> (v' < 256 ^ N.of_nat w)%N ->
  be_bytes w v = be_bytes w v' -> v = v'.
Proof. intros Hv Hv' E. by rewrite <- (of_be_bytes w v), E, of_be_bytes. Qed.

#[global] Opaque be_bytes of_be byte_of_N.

(** ** Result reasoning *)

Lemma bind_Ok {A B} (r : result A) (f : A -> result B) b :
  (r ≫= f) = Ok b <-> exists a, r = Ok a /\ f a = Ok b.
Proof. destruct r as [a|e]; simpl; split; naive_solver. Qed.

Lemma fmap_Ok {A B} (f : A -> B) (r : result A) b :
  (f <$> r) = Ok b <-> exists a, r = Ok a /\ b = f a.
Proof. destruct r as [a|e]; simpl; split; naive_solver. Qed.

Lemma ok_or_Ok {A} (o : option A) e a : ok_or o e = Ok a <-> o = Some a.
Proof. destruct o; simpl; split; naive_solver. Qed.

Lemma map_err_Ok {A} e (r : result A) a : map_err e r = Ok a <-> r = Ok a.
Proof. destruct r; simpl; split; naive_solver. Qed.

Lemma try_u16_Ok n v : try_u16 n = Ok v <-> v = N.of_nat n /\ (N.of_nat n < u16_max)%N.
Proof. unfold try_u16. destruct (N.ltb_spec (N.of_nat n) u16_max); naive_solver lia. Qed.

Lemma try_u32_Ok n v : try_u32 n = Ok v <-> v = N.of_nat n /\ (N.of_nat n < u32_max)%N.
Proof. unfold try_u32. destruct (N.ltb_spec (N.of_nat n) u32_max); naive_solver lia. Qed.

Lemma Ok_inj {A} (a b : A) : Ok a = Ok b -> a = b.
Proof. congruence. Qed.

(** Split a monadic success into the successes of its steps. *)
Ltac inv_ok :=
  repeat match goal with
  | H : (_ ≫= _) = Ok _ |- _ => apply bind_Ok in H; destruct H as (? & ? & H)
  | H : (_ <$> _) = Ok _ |- _ => apply fmap_Ok in H; destruct H as (? & ? & H)
  | H : ok_or _ _ = Ok _ |- _ => apply ok_or_Ok in H
  | H : map_err _ _ = Ok _ |- _ => apply map_err_Ok in H
  | H : mret _ = Ok _ |- _ => unfold mret, result_ret in H
  | H : Ok _ = Ok _ |- _ => apply Ok_inj in H
  | H : Err _ = Ok _ |- _ => discriminate H
  | H : try_u16 _ = Ok _ |- _ => apply try_u16_Ok in H; destruct H as [? ?]
  | H : try_u32 _ = Ok _ |- _ => apply try_u32_Ok in H; destruct H as [? ?]
  | H : (_, _) = (_, _) |- _ => apply pair_equal_spec in H; destruct H as [? ?]
  end.

(** ** Booleans *)

Lemma bool_eq_iff (a b : bool) : (a = true <-> b = true) -> a = b.
Proof. destruct a, b; naive_solver. Qed.

Ltac bool_hyps :=
  repeat match goal with
  | H : (_ && _) = true |- _ => apply andb_true_iff in H; destruct H
  | H : (_ || _) = false |- _ => apply orb_false_iff in H; destruct H
  | H : negb _ = true |- _ => apply negb_true_iff in H
  | H : negb _ = false |- _ => apply negb_false_iff in H
  | H : bool_decide _ = true |- _ => apply bool_decide_eq_true in H
  | H : bool_decide _ = false |- _ => apply bool_decide_eq_false in H
  end.

(** ** Parser reasoning *)

Lemma parser_bind_eq {A B} (p : parser A) (f : A -> parser B) data a rest :
  p data = Ok (a, rest) -> (p ≫= f) data = f a rest.
Proof. intros E. unfold mbind, parser_bind. by rewrite E. Qed.

Lemma parser_bind_inv {A B} (p : parser A) (f : A -> parser B) data b rest :
  (p ≫= f) data = Ok (b, rest) ->
  exists a mid, p data = Ok (a, mid) /\ f a mid = Ok (b, rest).
Proof. unfold mbind, parser_bind. destruct (p data) as [[a mid]|e]; naive_solver. Qed.

Lemma lift_Ok {A} (r : result A) data a rest :
  lift r data = Ok (a, rest) <-> r = Ok a /\ data = rest.
Proof. unfold lift. destruct r; naive_solver. Qed.

(** What a pair of an encoder and a decoder promises: decoding an encoding
    gives the value back and leaves the rest of the input alone, and a
    successful decode consumed exactly the encoding of a well-formed value, so
    no value has two encodings. *)
Record codec_ok {A} (wf : A -> Prop) (enc : A -> result bytes) (dec : parser A) : Prop := {
  codec_roundtrip a b rest : wf a -> enc a = Ok b -> dec (b ++ rest) = Ok (a, rest);
  codec_canonical data a rest :
    dec data = Ok (a, rest) -> wf a /\ exists b, enc a = Ok b /\ data = b ++ rest }.

Section codec.
Context {A : Type} {wf : A -> Prop} {enc : A -> result bytes} {dec : parser A}.
Hypothesis C : codec_ok wf enc dec.

(** Encodings are self-delimiting: a byte string has at most one prefix that
    is an encoding, and it determines the value. *)
Lemma codec_prefix_free a a' b b' r r' :
  wf a -> wf a' -> enc a = Ok b -> enc a' = Ok b' -> b ++ r = b' ++ r' -> a = a' /\ r = r'.
Proof.
  intros Wa Wa' Ea Ea' E.
  pose proof (codec_roundtrip _ _ _ C a b r Wa Ea) as D.
  rewrite E, (codec_roundtrip _ _ _ C a' b' r' Wa' Ea') in D. naive_solver.
Qed.

Lemma codec_repeat_roundtrip l b rest :
  Forall wf l -> encode_all enc l = Ok b ->
  repeat_parser (length l) dec (b ++ rest) = Ok (l, rest).
Proof.
  intros W; revert b; induction W as [|a l Wa W IH]; intros b E; simpl in *.
  - by inv_ok; subst.
  - inv_ok; subst. rewrite <- app_assoc.
    rewrite (parser_bind_eq _ _ _ a (x0 ++ rest)) by (by eapply codec_roundtrip).
    erewrite parser_bind_eq by (by apply IH). done.
Qed.

Lemma codec_repeat_canonical n data l rest :
  repeat_parser n dec data = Ok (l, rest) ->
  length l = n /\ Forall wf l /\ exists b, encode_all enc l = Ok b /\ data = b ++ rest.
Proof.
  revert data l; induction n as [|n IH]; intros data l E; simpl in E.
  - unfold mret, parser_ret in E. injection E as <- <-. repeat split; [constructor|]. by exists [].
  - apply parser_bind_inv in E as (a & mid & Ea & E).
    apply parser_bind_inv in E as (l' & mid' & El & E).
    unfold mret, parser_ret in E. injection E as <- <-.
    apply (codec_canonical _ _ _ C) in Ea as (Wa & b & Eb & ->).
    apply IH in El as (<- & Wl & b' & Eb' & ->).
    repeat split; [by constructor|]. exists (b ++ b'). simpl. rewrite Eb; simpl. rewrite Eb'; simpl.
    by rewrite app_assoc.
Qed.
End codec.

(** Break a successful parse into its steps. *)
Ltac inv_parser :=
  repeat match goal with
  | H : (_ ≫= _) _ = Ok (_, _) |- _ =>
      let a := fresh "v" in let m := fresh "mid" in
      apply parser_bind_inv in H; destruct H as (a & m & ? & H)
  | H : mret _ _ = Ok _ |- _ => unfold mret, parser_ret in H
  | H : fail _ _ = Ok _ |- _ => discriminate H
  | H : Ok _ = Ok _ |- _ => apply Ok_inj in H
  | H : (_, _) = (_, _) |- _ => apply pair_equal_spec in H; destruct H as [? ?]
  end.

Create HintDb kq.

(** ** Properties of an element relative to what precedes it

    The verifiers of the source fold over a list with an accumulator; what
    they check of an element depends only on the elements before it. *)

Fixpoint each_after {A} (P : list A -> A -> Prop) (before l : list A) : Prop :=
  match l with
  | [] => True
  | x :: l => P before x /\ each_after P (before ++ [x]) l
  end.

Section each_after.
Context {A : Type}.
Implicit Types (P Q : list A -> A -> Prop) (l before : list A).

Lemma each_after_app P before l l' :
  each_after P before (l ++ l') <-> each_after P before l /\ each_after P (before ++ l) l'.
Proof.
  revert before; induction l as [|x l IH]; intros before; simpl; [rewrite app_nil_r; tauto|].
  rewrite IH, <- app_assoc. simpl. tauto.
Qed.

Lemma each_after_snoc P l x : each_after P [] (l ++ [x]) <-> each_after P [] l /\ P l x.
Proof. rewrite each_after_app. simpl. tauto. Qed.

Lemma each_after_impl P Q before l :
  (forall b x, x ∈ l -> P b x -> Q b x) -> each_after P before l -> each_after Q before l.
Proof.
  revert before; induction l as [|x l IH]; intros before H; simpl; [done|]. intros [Hx Hl].
  split; [apply H; [left|done]|]. apply IH; [|done]. intros b y Hy. apply H. by right.
Qed.

(** A property that only gets easier when fewer elements precede survives
    dropping elements. *)
Lemma each_after_sublist P before before' l l' :
  (forall b b' x, b' `sublist_of` b -> x ∈ l' -> P b x -> P b' x) ->
  l' `sublist_of` l -> before' `sublist_of` before -> each_after P before l -> each_after P before' l'.
Proof.
  intros HM Hl. revert before before'.
  induction Hl as [|x l' l Hl IH|x l' l Hl IH]; intros before before' Hb; simpl; [done|..].
  - intros [Hx H]. split; [eapply HM; [done|by left|done]|].
    eapply IH; [|by apply sublist_app|done]. intros b b' y ? Hy. apply HM; [done|by right].
  - intros [_ H]. eapply IH; [done| |done]. by apply sublist_inserts_r.
Qed.

Lemma each_after_lookup P l i x : each_after P [] l -> l !! i = Some x -> P (take i l) x.
Proof.
  intros H Hi. rewrite <- (take_drop_middle l i x Hi) in H.
  apply each_after_app in H as [_ [H _]]. done.
Qed.
Lemma each_after_elem P l x : each_after P [] l -> x ∈ l -> exists before, P before x.
Proof. intros H [i Hi]%list_elem_of_lookup. exists (take i l). by apply each_after_lookup. Qed.
End each_after.

(** ** Lists *)

Lemma list_nil_no_elem {A} (l : list A) : (forall x, x ∈ l -> False) -> l = [].
Proof. destruct l as [|x l]; [done|]. intros H. destruct (H x). left. Qed.

Lemma list_eq_nil_elem {A} (l : list A) : l <> [] -> exists x, x ∈ l.
Proof. destruct l as [|x l]; [done|]. exists x. left. Qed.

Lemma list_filter_iff_in {A} (P Q : A -> Prop) `{!forall x, Decision (P x), !forall x, Decision (Q x)} (l : list A) :
  (forall x, x ∈ l -> P x <-> Q x) -> filter P l = filter Q l.
Proof.
  induction l as [|x l IH]; intros HPQ; [done|]. rewrite !filter_cons, IH by set_solver.
  apply decide_ext. apply HPQ. left.
Qed.

Lemma existsb_false {A} (f : A -> bool) l : existsb f l = false <-> forall x, x ∈ l -> f x = false.
Proof.
  induction l as [|x l IH]; simpl; [set_solver|]. rewrite orb_false_iff, IH. setoid_rewrite elem_of_cons. naive_solver.
Qed.

(** The elements at the places [idx]. *)
Definition picks {A} (l : list A) (idx : list nat) : list A := omap (fun i => l !! i) idx.

Lemma picks_zip_with {A B D} (f : A -> B -> D) l k idx :
  length l = length k -> picks (zip_with f l k) idx = zip_with f (picks l idx) (picks k idx).
Proof.
  intros Hl. induction idx as [|i idx IH]; [done|]. unfold picks in *. simpl. rewrite lookup_zip_with.
  destruct (l !! i) as [a|] eqn:Ea; simpl.
  - destruct (lookup_lt_is_Some_2 k i) as [b Eb]; [rewrite <- Hl; by eapply lookup_lt_Some|]. rewrite Eb. simpl. by f_equal.
  - destruct (k !! i) as [b|] eqn:Eb; simpl; [|done]. apply lookup_lt_Some in Eb. apply lookup_ge_None in Ea. lia.
Qed.

Lemma picks_Forall2 {A B} (R : A -> B -> Prop) l k idx : Forall2 R l k -> Forall2 R (picks l idx) (picks k idx).
Proof.
  intros HF. induction idx as [|i idx IH]; [constructor|]. unfold picks in *. simpl.
  pose proof (proj1 (Forall2_lookup R l k) HF i) as Hi. destruct Hi; simpl; [by constructor|done].
Qed.

Lemma picks_elem {A} (l : list A) idx x : x ∈ picks l idx -> exists i, i ∈ idx /\ l !! i = Some x.
Proof. intros (i & Hi & E)%list_elem_of_omap. eauto. Qed.

Lemma picks_NoDup {A} (l : list A) idx : NoDup l -> NoDup idx -> NoDup (picks l idx).
Proof.
  intros HN HI. induction HI as [|i idx Hi HI IH]; [constructor|]. unfold picks in *. simpl. destruct (l !! i) as [x|] eqn:E; [|done].
  constructor; [|done]. intros (j & Hj & Ej)%picks_elem. rewrite (NoDup_lookup l i j x) in Hi; done.
Qed.

Lemma picks_length {A} (l : list A) idx : Forall (fun i => i < length l) idx -> length (picks l idx) = length idx.
Proof. induction 1 as [|i idx Hi HF IH]; [done|]. unfold picks in *. simpl. apply lookup_lt_is_Some_2 in Hi as [x ->]. simpl. by f_equal. Qed.
