(* ===== verification/Text.v ===== *)
(** * Rust strings

    The parts of [core::str] the modelled code calls, on the UTF-8 bytes of
    the string: [from_utf8], [chars], [split], [split_once], [rsplit_once],
    [strip_prefix], [strip_suffix], [split_inclusive], [find], [rfind] and
    [join]. Separators in the source are ASCII, and an ASCII byte never occurs
    inside a multi-byte character, so working on bytes is what [str] does. *)

From S2P Require Import Prelude.
From Stdlib Require Strings.String.
Export Strings.String.StringSyntax.
Delimit Scope string_scope with string.

(** A string literal of the source. *)
Definition str (s : String.string) : bytes := String.list_byte_of_string s.
#[global] Arguments str s%_string_scope.

Definition dot : byte := x2e.
Definition hyphen : byte := x2d.
Definition newline : byte := x0a.

(** ** UTF-8 (RFC 3629, as [core::str::from_utf8] checks it) *)

Definition in_range (lo hi : N) (b : byte) : bool :=
  (lo <=? Byte.to_N b)%N && (Byte.to_N b <=? hi)%N.
Definition is_ascii (b : byte) : bool := (Byte.to_N b <? 128)%N.
Definition is_cont : byte -> bool := in_range 128 191.

(** Width of the character a lead byte starts, and the range its second byte must be in. *)
Definition lead (b : byte) : option (nat * (byte -> bool)) :=
  let n := Byte.to_N b in
  if (n <? 128)%N then Some (1, fun _ => true)
  else if in_range 194 223 b then Some (2, is_cont)
  else if (n =? 224)%N then Some (3, in_range 160 191)
  else if in_range 225 236 b || in_range 238 239 b then Some (3, is_cont)
  else if (n =? 237)%N then Some (3, in_range 128 159)
  else if (n =? 240)%N then Some (4, in_range 144 191)
  else if in_range 241 243 b then Some (4, is_cont)
  else if (n =? 244)%N then Some (4, in_range 128 143)
  else None.

(** The characters of a byte string, each as its own bytes; [None] when it is not UTF-8. *)
Fixpoint chars (l : bytes) : option (list bytes) :=
  match l with
  | [] => Some []
  | b :: r =>
      match lead b with
      | Some (1, _) => cs ← chars r; Some ([b] :: cs)
      | Some (2, ok) =>
          match r with
          | c :: r => if ok c then cs ← chars r; Some ([b; c] :: cs) else None
          | _ => None
          end
      | Some (3, ok) =>
          match r with
          | c :: d :: r =>
              if ok c && is_cont d then cs ← chars r; Some ([b; c; d] :: cs) else None
          | _ => None
          end
      | Some (4, ok) =>
          match r with
          | c :: d :: e :: r =>
              if ok c && is_cont d && is_cont e
              then cs ← chars r; Some ([b; c; d; e] :: cs) else None
          | _ => None
          end
      | _ => None
      end
  end.

Definition is_utf8 (l : bytes) : bool := match chars l with Some _ => true | None => false end.

(** [chars()] of a [&str]. *)
Definition chars_of (l : bytes) : list bytes := default [] (chars l).

(** One well-formed character. *)
Definition utf8_char (c : bytes) : Prop := chars c = Some [c].

(** ** Searching and splitting *)

(** [find]/[rfind] of one byte. *)
Definition find_byte (c : byte) (l : bytes) : option nat :=
  fst <$> list_find (fun b => b = c) l.

Fixpoint split_once (c : byte) (l : bytes) : option (bytes * bytes) :=
  match l with
  | [] => None
  | b :: r =>
      if decide (b = c) then Some ([], r)
      else match split_once c r with Some (p, s) => Some (b :: p, s) | None => None end
  end.

Fixpoint rsplit_once (c : byte) (l : bytes) : option (bytes * bytes) :=
  match l with
  | [] => None
  | b :: r =>
      match rsplit_once c r with
      | Some (p, s) => Some (b :: p, s)
      | None => if decide (b = c) then Some ([], r) else None
      end
  end.

(** [split(c)]: always at least one piece. *)
Fixpoint split (c : byte) (l : bytes) : list bytes :=
  match l with
  | [] => [[]]
  | b :: r =>
      if decide (b = c) then [] :: split c r
      else match split c r with
           | p :: ps => (b :: p) :: ps
           | [] => [[b]]
           end
  end.

(** [join(c)] *)
Fixpoint join (c : byte) (ps : list bytes) : bytes :=
  match ps with
  | [] => []
  | [p] => p
  | p :: ps => p ++ c :: join c ps
  end.

Fixpoint strip_prefix (p l : bytes) : option bytes :=
  match p, l with
  | [], _ => Some l
  | x :: p, y :: l => if decide (x = y) then strip_prefix p l else None
  | _ :: _, [] => None
  end.

Definition strip_suffix (s l : bytes) : option bytes :=
  reverse <$> strip_prefix (reverse s) (reverse l).

Definition starts_with (c : byte) (l : bytes) : bool :=
  match l with b :: _ => bool_decide (b = c) | [] => false end.

(** [split_inclusive('\n')]: every piece but possibly the last ends with the
    terminator; the empty string has no pieces. *)
Fixpoint split_inclusive (c : byte) (l : bytes) : list bytes :=
  match l with
  | [] => []
  | b :: r =>
      if decide (b = c) then [b] :: split_inclusive c r
      else match split_inclusive c r with
           | p :: ps => (b :: p) :: ps
           | [] => [[b]]
           end
  end.

(** [is_ascii_digit] and [parse::<u32>] of a string of ASCII digits. *)
Definition is_digit : byte -> bool := in_range 48 57.
Definition digit_val (b : byte) : N := (Byte.to_N b - 48)%N.
Definition parse_u32 (l : bytes) : N := foldl (fun acc b => acc * 10 + digit_val b)%N 0%N l.

(** ** Lemmas: UTF-8 *)

Lemma chars_cons_inv l cs :
  chars l = Some cs -> l = [] /\ cs = [] \/
  exists c l' cs', l = c ++ l' /\ cs = c :: cs' /\ chars l' = Some cs' /\ utf8_char c /\ c <> [].
Proof.
  destruct l as [|b r]; [naive_solver|]. intros E; right. unfold utf8_char. cbn [chars] in E.
  destruct (lead b) as [[[|[|[|[|[|w]]]]] ok]|] eqn:L; try done.
  - destruct (chars r) as [cs'|] eqn:E'; [|done]; simplify_option_eq.
    exists [b], r, cs'. cbn [chars]. rewrite L. naive_solver.
  - destruct r as [|c r]; [done|]. destruct (ok c) eqn:Ok; [|done].
    destruct (chars r) as [cs'|] eqn:E'; [|done]; simplify_option_eq.
    exists [b; c], r, cs'. cbn [chars]. rewrite L, Ok. naive_solver.
  - destruct r as [|c [|d r]]; [done..|]. destruct (ok c && is_cont d) eqn:Ok; [|done].
    destruct (chars r) as [cs'|] eqn:E'; [|done]; simplify_option_eq.
    exists [b; c; d], r, cs'. cbn [chars]. rewrite L, Ok. naive_solver.
  - destruct r as [|c [|d [|e r]]]; [done..|]. destruct (ok c && is_cont d && is_cont e) eqn:Ok; [|done].
    destruct (chars r) as [cs'|] eqn:E'; [|done]; simplify_option_eq.
    exists [b; c; d; e], r, cs'. cbn [chars]. rewrite L, Ok. naive_solver.
Qed.

Lemma utf8_char_app c l : utf8_char c -> c <> [] -> chars (c ++ l) = (cons c) <$> chars l.
Proof.
  unfold utf8_char. intros E Hc. destruct c as [|b r]; [done|]. cbn [chars] in E. cbn [app chars].
  destruct (lead b) as [[[|[|[|[|[|w]]]]] ok]|] eqn:L; try done.
  - destruct (chars r) as [cs|] eqn:E'; simplify_option_eq; rewrite ?Ok; by destruct (chars l).
  - destruct r as [|c r]; [done|]. destruct (ok c) eqn:Ok; [|done].
    destruct (chars r) as [cs|] eqn:E'; simplify_option_eq; rewrite ?Ok; by destruct (chars l).
  - destruct r as [|c [|d r]]; [done..|]. destruct (ok c && is_cont d) eqn:Ok; [|done].
    destruct (chars r) as [cs|] eqn:E'; simplify_option_eq; rewrite ?Ok; by destruct (chars l).
  - destruct r as [|c [|d [|e r]]]; [done..|]. destruct (ok c && is_cont d && is_cont e) eqn:Ok; [|done].
    destruct (chars r) as [cs|] eqn:E'; simplify_option_eq; rewrite ?Ok; by destruct (chars l).
Qed.

Lemma chars_spec l cs :
  chars l = Some cs -> l = mjoin cs /\ Forall (fun c => utf8_char c /\ c <> []) cs.
Proof.
  revert l; induction cs as [|c cs IH]; intros l E.
  - apply chars_cons_inv in E as [[-> _]|(?&?&?&_&?&_)]; [by split|done].
  - apply chars_cons_inv in E as [[_ ?]|(c'&l'&cs'&->&[= -> ->]&E&Hc&Hne)]; [done|].
    apply IH in E as [-> HF]. by split; [|constructor].
Qed.

Lemma chars_concat cs : Forall (fun c => utf8_char c /\ c <> []) cs -> chars (mjoin cs) = Some cs.
Proof.
  induction 1 as [|c cs [Hc Hne] _ IH]; [done|].
  change (mjoin (c :: cs)) with (c ++ mjoin cs).
  rewrite utf8_char_app, IH by done. done.
Qed.

Lemma chars_of_utf8 l : is_utf8 l = true -> chars l = Some (chars_of l).
Proof. unfold is_utf8, chars_of. by destruct (chars l). Qed.

Lemma is_utf8_mjoin cs : Forall (fun c => utf8_char c /\ c <> []) cs -> is_utf8 (mjoin cs) = true.
Proof. intros H. unfold is_utf8. by rewrite chars_concat. Qed.

Lemma is_utf8_app a b : is_utf8 a = true -> is_utf8 b = true -> is_utf8 (a ++ b) = true.
Proof.
  unfold is_utf8 at 1 2. intros Ha Hb.
  destruct (chars a) as [ca|] eqn:Ea; [|done]. destruct (chars b) as [cb|] eqn:Eb; [|done].
  apply chars_spec in Ea as [-> Fa]. apply chars_spec in Eb as [-> Fb].
  rewrite <- join_app. apply is_utf8_mjoin. by apply Forall_app.
Qed.

Lemma utf8_char_ascii b : is_ascii b = true -> utf8_char [b].
Proof. unfold is_ascii, utf8_char. intros H. cbn [chars]. unfold lead. by rewrite H. Qed.

Lemma is_utf8_ascii l : forallb is_ascii l = true -> is_utf8 l = true.
Proof.
  induction l as [|b l IH]; [done|]. cbn [forallb]. intros [Hb Hl]%andb_true_iff.
  apply (is_utf8_app [b] l); [|auto]. unfold is_utf8. by rewrite (utf8_char_ascii b Hb).
Qed.

(** ** Lemmas: splitting *)

Lemma split_ne c l : split c l <> [].
Proof. destruct l as [|b l]; simpl; [done|]. case_decide; [done|]. by destruct (split c l). Qed.

Lemma join_cons c p ps : ps <> [] -> join c (p :: ps) = p ++ c :: join c ps.
Proof. by destruct ps. Qed.

Lemma join_split c l : join c (split c l) = l.
Proof.
  induction l as [|b l IH]; [done|]. simpl. pose proof (split_ne c l) as Hne. case_decide as E.
  - rewrite join_cons by done. simpl. by rewrite IH, E.
  - destruct (split c l) as [|p ps]; [done|]. destruct ps; simpl in *; by rewrite IH.
Qed.

Lemma split_no_sep c l p : p ∈ split c l -> c ∉ p.
Proof.
  revert p; induction l as [|b l IH]; intros p; simpl.
  - intros ->%list_elem_of_singleton. apply not_elem_of_nil.
  - case_decide as E.
    + intros [->|Hp]%elem_of_cons; [apply not_elem_of_nil|auto].
    + destruct (split c l) as [|q qs] eqn:S; [by apply split_ne in S|].
      intros [->|Hp]%elem_of_cons.
      * intros [->|Hc]%elem_of_cons; [done|]. eapply IH; [|done]. by left.
      * apply IH. by right.
Qed.

Lemma split_no_sep_single c p : c ∉ p -> split c p = [p].
Proof.
  induction p as [|b p IH]; [done|]. intros H. apply not_elem_of_cons in H as [Hb Hp]. simpl.
  rewrite decide_False by done. by rewrite IH.
Qed.

Lemma split_app_sep c p l : c ∉ p -> split c (p ++ c :: l) = p :: split c l.
Proof.
  induction p as [|b p IH]; intros H; simpl; [by rewrite decide_True|].
  apply not_elem_of_cons in H as [Hb Hp]. rewrite decide_False by done. by rewrite IH.
Qed.

Lemma split_join c ps : ps <> [] -> Forall (fun p => c ∉ p) ps -> split c (join c ps) = ps.
Proof.
  intros Hne HF. induction HF as [|p ps Hp HF IH]; [done|].
  destruct ps as [|q ps]; [by apply split_no_sep_single|].
  rewrite join_cons, split_app_sep by done. by rewrite IH.
Qed.

Lemma split_inj c l l' : split c l = split c l' -> l = l'.
Proof. intros E. by rewrite <- (join_split c l), E, join_split. Qed.

Lemma rsplit_once_None c l : rsplit_once c l = None <-> c ∉ l.
Proof.
  induction l as [|b l IH]; simpl; [split; [intros _; apply not_elem_of_nil|done]|].
  rewrite not_elem_of_cons. destruct (rsplit_once c l) as [[p s]|]; [naive_solver|].
  case_decide; naive_solver.
Qed.

Lemma rsplit_once_sound c l p s : rsplit_once c l = Some (p, s) -> l = p ++ c :: s /\ c ∉ s.
Proof.
  revert p; induction l as [|b l IH]; intros p E; simpl in E; [done|].
  destruct (rsplit_once c l) as [[p' s']|] eqn:E'.
  - injection E as <- ->. destruct (IH p' eq_refl) as [-> ?]. done.
  - apply rsplit_once_None in E'. case_decide; [|done]. by simplify_eq.
Qed.

Lemma rsplit_once_app c p s : c ∉ s -> rsplit_once c (p ++ c :: s) = Some (p, s).
Proof.
  intros Hs. induction p as [|b p IH]; simpl.
  - apply rsplit_once_None in Hs as ->. by rewrite decide_True.
  - by rewrite IH.
Qed.

Lemma rsplit_once_Some c l p s : rsplit_once c l = Some (p, s) <-> l = p ++ c :: s /\ c ∉ s.
Proof. split; [apply rsplit_once_sound|]. intros [-> H]. by apply rsplit_once_app. Qed.

Lemma strip_prefix_Some p l r : strip_prefix p l = Some r <-> l = p ++ r.
Proof.
  revert l; induction p as [|x p IH]; intros l; simpl; [naive_solver|].
  destruct l as [|y l]; [naive_solver|]. case_decide; [rewrite IH|]; naive_solver.
Qed.

Lemma strip_suffix_Some s l r : strip_suffix s l = Some r <-> l = r ++ s.
Proof.
  unfold strip_suffix. rewrite fmap_Some. split.
  - intros (x & E & ->). apply strip_prefix_Some in E. apply (f_equal reverse) in E.
    by rewrite reverse_app, !reverse_involutive in E.
  - intros ->. exists (reverse r). rewrite reverse_involutive. split; [|done].
    apply strip_prefix_Some. by rewrite reverse_app.
Qed.

Lemma mjoin_split_inclusive c l : mjoin (split_inclusive c l) = l.
Proof.
  induction l as [|b l IH]; [done|]. simpl. case_decide as E.
  - change (mjoin ([b] :: split_inclusive c l)) with (b :: mjoin (split_inclusive c l)). by rewrite IH.
  - destruct (split_inclusive c l) as [|p ps]; simpl in *; by rewrite <- IH.
Qed.

(** An ASCII byte is never part of a longer character. *)
Lemma lead_spec b w ok :
  lead b = Some (w, ok) ->
  w = 1 /\ is_ascii b = true \/
  1 < w /\ is_ascii b = false /\ (forall c, ok c = true -> is_ascii c = false).
Proof.
  unfold lead, is_ascii, is_cont, in_range. intros E. cbv zeta in E.
  repeat match type of E with (if ?c then _ else _) = _ => destruct c eqn:? end;
    try discriminate; injection E as <- <-;
    try (left; split; reflexivity);
    right; (split; [lia|]); (split; [reflexivity|]);
    intros c Hc; apply andb_true_iff in Hc as [Hc _];
    apply N.leb_le in Hc; apply N.ltb_ge; lia.
Qed.

Lemma is_cont_not_ascii c : is_cont c = true -> is_ascii c = false.
Proof.
  unfold is_cont, in_range, is_ascii. intros [H _]%andb_true_iff.
  apply N.leb_le in H. apply N.ltb_ge. lia.
Qed.

Lemma utf8_char_ascii_inv c b : utf8_char c -> b ∈ c -> is_ascii b = true -> c = [b].
Proof.
  unfold utf8_char. intros E Hb Ha. destruct c as [|x r]; [by apply not_elem_of_nil in Hb|].
  cbn [chars] in E. destruct (lead x) as [[w ok]|] eqn:L; [|done].
  destruct (lead_spec _ _ _ L) as [[-> Hx]|(Hw & Hx & Hok)].
  - destruct (chars r); simplify_option_eq. by apply list_elem_of_singleton in Hb as ->.
  - exfalso. assert (x <> b) as Hxb by congruence. apply elem_of_cons in Hb as [->|Hb]; [done|].
    destruct w as [|[|[|[|[|w]]]]]; try done; try lia.
    + destruct r as [|c r]; [done|]. destruct (ok c) eqn:O; [|done].
      destruct (chars r); simplify_option_eq. apply list_elem_of_singleton in Hb as ->.
      apply Hok in O. congruence.
    + destruct r as [|c [|d r]]; [done..|]. destruct (ok c && is_cont d) eqn:O; [|done]. bool_hyps.
      destruct (chars r); simplify_option_eq.
      apply Hok in H. apply is_cont_not_ascii in H0.
      repeat (apply elem_of_cons in Hb as [->|Hb]; [congruence|]). by apply not_elem_of_nil in Hb.
    + destruct r as [|c [|d [|e r]]]; [done..|]. destruct (ok c && is_cont d && is_cont e) eqn:O; [|done]. bool_hyps.
      destruct (chars r); simplify_option_eq.
      apply Hok in H. apply is_cont_not_ascii in H0, H1.
      repeat (apply elem_of_cons in Hb as [->|Hb]; [congruence|]). by apply not_elem_of_nil in Hb.
Qed.
