(* ===== verification/Crypto.v ===== *)
(** * The cryptographic primitives the program calls

    SHA-256 ([sha2]), Ed25519 ([ed25519_dalek]), X25519 sealed boxes
    ([crypto_box]) and the X25519 function ([x25519_dalek]) are third-party
    crates, so they are operations of a class and what the program relies on
    is a second class of laws. No law says a hash is injective: a theorem that
    would need it gives back the colliding inputs instead. Randomness is an
    explicit argument. *)

From S2P Require Import Prelude.

Class Crypto := {
  (** [Sha256::new().chain_update(..).finalize()] of the concatenated updates. *)
  sha256 : bytes -> bytes;
  (** [VerifyingKey::from_bytes(pk).is_ok()] *)
  ed25519_key_ok : bytes -> bool;
  (** [verify_strict] on a parsed key. *)
  ed25519_verify_strict : bytes -> bytes -> bytes -> bool;
  (** [SigningKey::from_bytes(sk).sign(m).to_bytes()] *)
  ed25519_sign : bytes -> bytes -> bytes;
  (** [SigningKey::from_bytes(sk).verifying_key().to_bytes()] *)
  ed25519_public : bytes -> bytes;
  (** [PublicKey::from_bytes(pk).seal(rng, m)], the randomness first. *)
  box_seal : bytes -> bytes -> bytes -> bytes;
  (** [SecretKey::from(sk).unseal(c).ok()] *)
  box_unseal : bytes -> bytes -> option bytes;
  (** [SecretKey::from(sk).public_key().as_bytes()] *)
  box_public : bytes -> bytes;
  (** [x25519_dalek::x25519] *)
  x25519 : bytes -> bytes -> bytes }.

(** [crypto_box::SEALBYTES]: the ephemeral public key and the tag. *)
Definition SEALBYTES : nat := 48.

Class CryptoLaws (C : Crypto) : Prop := {
  sha256_length m : length (sha256 m) = 32;
  ed25519_sign_length sk m : length (ed25519_sign sk m) = 64;
  ed25519_public_ok sk : ed25519_key_ok (ed25519_public sk) = true;
  ed25519_verify_sign sk m :
    ed25519_verify_strict (ed25519_public sk) m (ed25519_sign sk m) = true;
  box_unseal_seal rnd sk m : box_unseal sk (box_seal rnd (box_public sk) m) = Some m;
  box_seal_length rnd pk m : length (box_seal rnd pk m) = length m + SEALBYTES }.

(** [hex::encode] and [hex::decode], third-party functions: only their types are used. *)
Class Hex := hex_encode : bytes -> bytes.
Class HexDecode := hex_decode : bytes -> option bytes.

(** Two inputs with one digest. *)
Definition collision `{Crypto} : Prop := exists m m' : bytes, m <> m' /\ sha256 m = sha256 m'.

Lemma sha256_inj_or_collision `{Crypto} m m' : sha256 m = sha256 m' -> m = m' \/ collision.
Proof. intros E. destruct (decide (m = m')); [by left|]. right. by exists m, m'. Qed.

(** A concrete instance that satisfies the laws: a 32-byte additive checksum, a
    keyed copy of it as a signature, and a box that only adds its overhead. It shows the laws can be
    met; nothing else depends on it. *)
Module Toy.
Definition fold_sum (m : bytes) : N := foldl (fun acc b => (acc * 257 + Byte.to_N b + 1) mod 4294967291)%N 7%N m.
Definition digest (m : bytes) : bytes := replicate 28 x00 ++ be_bytes 4 (fold_sum m).
Definition toy_sign (pk m : bytes) : bytes := digest pk ++ digest (digest pk ++ m).

#[export] Instance toy : Crypto := {|
  sha256 := digest;
  ed25519_key_ok _ := true;
  ed25519_verify_strict pk m s := bool_decide (s = toy_sign pk m);
  ed25519_sign := toy_sign;
  ed25519_public sk := sk;
  box_seal _ _ m := replicate SEALBYTES x00 ++ m;
  box_unseal _ c := if length c <? SEALBYTES then None else Some (drop SEALBYTES c);
  box_public sk := sk;
  x25519 _ pk := pk |}.

Lemma length_digest m : length (digest m) = 32.
Proof. unfold digest. by rewrite length_app, length_replicate, length_be_bytes. Qed.

#[export] Instance toy_laws : CryptoLaws toy.
Proof.
  split.
  - apply length_digest.
  - intros sk m. cbn [ed25519_sign toy]. unfold toy_sign. by rewrite length_app, !length_digest.
  - intros sk. reflexivity.
  - intros sk m. apply bool_decide_eq_true. reflexivity.
  - intros rnd sk m. reflexivity.
  - intros rnd pk m. cbn [box_seal toy]. rewrite length_app, length_replicate. lia.
Qed.
End Toy.
