(* ===== verification/BTree.v ===== *)
(** * Ordered maps keyed by strings

    [BTreeMap<String, V>] where its iteration order is part of the behaviour:
    an association list with strictly increasing keys. [String] compares as its
    bytes. *)

From S2P Require Import Prelude.

(** [<] on [str]: lexicographic order of the bytes. *)
Fixpoint str_lt (a b : bytes) : bool :=
  match a, b with
  | _, [] => false
  | [], _ :: _ => true
  | x :: a, y :: b => (Byte.to_N x <? Byte.to_N y)%N || ((Byte.to_N x =? Byte.to_N y)%N && str_lt a b)
  end.

Lemma str_lt_irrefl a : str_lt a a = false.
Proof. induction a as [|x a IH]; [done|]. simpl. by rewrite N.ltb_irrefl, N.eqb_refl, IH. Qed.

Lemma str_lt_trans a b c : str_lt a b = true -> str_lt b c = true -> str_lt a c = true.
Proof.
  revert b c; induction a as [|x a IH]; intros [|y b] [|z c]; simpl; try done.
  rewrite !orb_true_iff, !andb_true_iff, !N.ltb_lt, !N.eqb_eq. intros [H1|[H1 H1']] [H2|[H2 H2']]; try (left; lia).
  right. split; [congruence|]. by eapply IH.
Qed.

Lemma str_lt_total a b : a = b \/ str_lt a b = true \/ str_lt b a = true.
Proof.
  revert b; induction a as [|x a IH]; intros [|y b]; simpl; [by left|by right; left|by right; right|].
  rewrite !orb_true_iff, !andb_true_iff, !N.ltb_lt, !N.eqb_eq.
  destruct (N.lt_trichotomy (Byte.to_N x) (Byte.to_N y)) as [H|[H|H]]; [tauto| |tauto].
  apply byte_to_N_inj in H as ->. destruct (IH b) as [->|[?|?]]; [by left|tauto|tauto].
Qed.

Lemma str_lt_ne a b : str_lt a b = true -> a <> b.
Proof. intros H ->. by rewrite str_lt_irrefl in H. Qed.

Lemma str_lt_asym a b : str_lt a b = true -> str_lt b a = false.
Proof. intros H. destruct (str_lt b a) eqn:E; [|done]. pose proof (str_lt_trans _ _ _ H E) as F. by rewrite str_lt_irrefl in F. Qed.

(** [<=] on [str], by which lists of strings are sorted. *)
Definition str_order (a b : bytes) : Prop := str_lt b a = false.
#[export] Instance str_order_dec a b : Decision (str_order a b).
Proof. unfold str_order. apply _. Defined.

Abbreviation btree V := (list (bytes * V)).

Fixpoint bt_get {V} (k : bytes) (m : btree V) : option V :=
  match m with [] => None | (k', v) :: m => if decide (k = k') then Some v else bt_get k m end.

Definition bt_contains {V} (k : bytes) (m : btree V) : bool := bool_decide (is_Some (bt_get k m)).

(** [map.insert(k, v)]: an equal key keeps its place. *)
Fixpoint bt_insert {V} (k : bytes) (v : V) (m : btree V) : btree V :=
  match m with
  | [] => [(k, v)]
  | (k', v') :: m' => if decide (k = k') then (k, v) :: m' else if str_lt k k' then (k, v) :: m else (k', v') :: bt_insert k v m'
  end.

(** [map.keys()] *)
Definition bt_keys {V} (m : btree V) : list bytes := map fst m.

(** Inserting one pair after the other, as a decoder does. *)
Definition bt_of_list {V} (l : list (bytes * V)) (m : btree V) : btree V := foldl (fun m kv => bt_insert kv.1 kv.2 m) m l.

Definition key_lt {V} (a b : bytes * V) : Prop := str_lt a.1 b.1 = true.
Definition bt_sorted {V} (m : btree V) : Prop := StronglySorted key_lt m.

Section laws.
Context {V : Type}.
Implicit Types (m : btree V) (k : bytes) (v : V).

Lemma bt_get_insert k k' v m : bt_get k' (bt_insert k v m) = if decide (k' = k) then Some v else bt_get k' m.
Proof.
  induction m as [|[x y] m IH]; simpl; [by case_decide|].
  destruct (decide (k = x)) as [->|Hx]; simpl; [by case_decide|].
  destruct (str_lt k x); simpl; [done|]. rewrite IH. repeat case_decide; congruence.
Qed.

Lemma bt_get_elem k v m : bt_get k m = Some v -> (k, v) ∈ m.
Proof. induction m as [|[x y] m IH]; simpl; [done|]. case_decide; [intros [= <-]; subst; left|right; auto]. Qed.

Lemma bt_get_keys k m : is_Some (bt_get k m) <-> k ∈ bt_keys m.
Proof.
  induction m as [|[x y] m IH]; simpl.
  - rewrite elem_of_nil. by split; [intros [? ?]|].
  - rewrite elem_of_cons, <- IH. case_decide; naive_solver.
Qed.

Lemma bt_sorted_get k v m : bt_sorted m -> (k, v) ∈ m -> bt_get k m = Some v.
Proof.
  induction 1 as [|[x y] m HS IH HF]; simpl; [set_solver|]. intros [[= <- <-]|Hin]%elem_of_cons; [by rewrite decide_True|].
  rewrite decide_False; [auto|]. intros ->. rewrite Forall_forall in HF. apply HF, str_lt_ne in Hin. done.
Qed.

Lemma bt_insert_elem k v m p : p ∈ bt_insert k v m -> p = (k, v) \/ p ∈ m.
Proof.
  induction m as [|[x y] m IH]; simpl; [set_solver|]. case_decide; [set_solver|]. destruct (str_lt k x); [set_solver|].
  intros [->|Hp]%elem_of_cons; [right; left|]. destruct (IH Hp); [by left|right; by right].
Qed.

Lemma bt_insert_sorted k v m : bt_sorted m -> bt_sorted (bt_insert k v m).
Proof.
  induction 1 as [|[x y] m HS IH HF]; simpl; [repeat constructor|]. case_decide as E; [subst; by constructor|].
  destruct (str_lt k x) eqn:Ex.
  - constructor; [by constructor|]. constructor; [done|]. eapply Forall_impl; [exact HF|]. intros p Hp. by eapply str_lt_trans.
  - constructor; [done|]. rewrite Forall_forall in *. intros p [->|Hp]%bt_insert_elem; [|by apply HF].
    destruct (str_lt_total k x) as [?|[?|?]]; [done|congruence|done].
Qed.

Lemma bt_of_list_sorted l m : bt_sorted m -> bt_sorted (bt_of_list l m).
Proof. revert m; induction l as [|[k v] l IH]; intros m Hm; [done|]. apply IH. by apply bt_insert_sorted. Qed.

(** The largest key goes to the end. *)
Lemma bt_insert_last k v m : Forall (fun p => str_lt p.1 k = true) m -> bt_insert k v m = m ++ [(k, v)].
Proof.
  induction 1 as [|[x y] m Hx HF IH]; [done|]. simpl in *. rewrite decide_False by (intros ->; by apply str_lt_ne in Hx).
  rewrite (str_lt_asym _ _ Hx). by rewrite IH.
Qed.

Lemma bt_of_list_app m (l : list (bytes * V)) : bt_sorted (m ++ l) -> bt_of_list l m = m ++ l.
Proof.
  revert m; induction l as [|[k v] l IH]; intros m HS; [by rewrite app_nil_r|]. unfold bt_of_list in *. cbn [foldl fst snd].
  rewrite bt_insert_last.
  - rewrite IH; by rewrite <- app_assoc.
  - apply StronglySorted_app in HS as (HS & _ & _). apply Forall_forall. intros p Hp. apply (HS p (k, v) Hp). left.
Qed.

(** A decoder that inserts the pairs of an ordered map gets the map back. *)
Lemma bt_of_list_id (l : btree V) : bt_sorted l -> bt_of_list l [] = l.
Proof. apply (bt_of_list_app []). Qed.

Lemma bt_sorted_keys m : bt_sorted m -> NoDup (bt_keys m).
Proof.
  induction 1 as [|[x y] m HS IH HF]; constructor; [|done]. intros ([k v] & E & Hp)%list_elem_of_fmap. simpl in E. subst.
  rewrite Forall_forall in HF. apply HF, str_lt_ne in Hp. done.
Qed.

Lemma bt_filter_sorted (P : bytes * V -> Prop) `{!forall x, Decision (P x)} m : bt_sorted m -> bt_sorted (filter P m).
Proof.
  induction 1 as [|p m HS IH HF]; [constructor|]. rewrite filter_cons. case_decide; [|done]. constructor; [done|].
  rewrite Forall_forall in *. intros q [_ Hq]%list_elem_of_filter. by apply HF.
Qed.

(** Ordered maps are equal when they have the same entries. *)
Lemma bt_ext m m' : bt_sorted m -> bt_sorted m' -> (forall k, bt_get k m = bt_get k m') -> m = m'.
Proof.
  intros HS HS' HE. revert m' HS' HE; induction HS as [|[k v] m HS IH HF]; intros [|[k' v'] m'] HS' HE; [done|..].
  - specialize (HE k'). simpl in HE. by rewrite decide_True in HE.
  - specialize (HE k). simpl in HE. by rewrite decide_True in HE.
  - apply StronglySorted_inv in HS' as [HS' HF']. rewrite Forall_forall in HF, HF'. assert (k = k') as ->.
    { destruct (str_lt_total k k') as [?|[Hlt|Hlt]]; [done|..].
      - pose proof (HE k) as E. simpl in E. rewrite decide_True, decide_False in E by (done || by apply str_lt_ne).
        symmetry in E. apply bt_get_elem, HF' in E. unfold key_lt in E. simpl in E. by rewrite (str_lt_asym _ _ Hlt) in E.
      - pose proof (HE k') as E. simpl in E. rewrite (decide_True (P := k' = k')), decide_False in E by (done || by apply str_lt_ne).
        apply bt_get_elem, HF in E. unfold key_lt in E. simpl in E. by rewrite (str_lt_asym _ _ Hlt) in E. }
    pose proof (HE k') as E. simpl in E. rewrite !decide_True in E by done. injection E as ->. f_equal. apply IH; [done|].
    intros k. specialize (HE k). simpl in HE. case_decide as Ek; [|done]. subst.
    assert (forall n : btree V, (forall x, x ∈ n -> key_lt (k', v') x) -> bt_get k' n = None) as Hno.
    { intros n Hn. destruct (bt_get k' n) as [z|] eqn:Ez; [|done]. apply bt_get_elem, Hn, str_lt_ne in Ez. done. }
    rewrite !Hno; [done|intros x Hx; apply (HF' x Hx)|intros x Hx; apply (HF x Hx)].
Qed.
End laws.
