(* ===== verification/Envelope.v ===== *)
(** * [src/src/envelope.rs]: the letter codec and the sealed outer envelope

    The cursor primitives ([take_*], [push_*]), the [KQPB]/[KQXB] framing and
    sealing. [push_x(out, v)] appends to a buffer; here it returns the bytes it
    appends. A hasher is the bytes fed to it so far. *)

From S2P Require Import Prelude Text Crypto.

(** ** The byte codec *)

Definition push_len_prefixed (b : bytes) : result bytes :=
  len ← try_u16 (length b); Ok (be_bytes 2 len ++ b).

Definition push_len_prefixed_u32 (b : bytes) : result bytes :=
  len ← try_u32 (length b); Ok (be_bytes 4 len ++ b).

(** What [hash_len_prefixed] feeds the hasher. *)
Definition hash_len_prefixed (b : bytes) : result bytes :=
  len ← try_u16 (length b); Ok (be_bytes 2 len ++ b).

Definition take_u8 : parser byte := fun data =>
  match data with
  | b :: rest => Ok (b, rest)
  | [] => Err InvalidBridgePackage
  end.

Definition take_n (n : nat) : parser bytes := fun data =>
  if length data <? n then Err InvalidBridgePackage else Ok (take n data, drop n data).

(** [take_array::<N>]; the conversion to an array of the length just taken cannot fail. *)
Definition take_array (n : nat) : parser bytes := take_n n.

Definition take_u32 : parser N := b ← take_array 4; mret (of_be b).

Definition take_len_prefixed : parser bytes :=
  len ← take_array 2; take_n (N.to_nat (of_be len)).

Definition take_len_prefixed_u32 : parser bytes :=
  len ← take_u32; take_n (N.to_nat len).

Definition utf8 (b : bytes) : result bytes :=
  if is_utf8 b then Ok b else Err InvalidBridgePackage.

(** ** The outer envelope *)

Record Format := { magic : bytes; version : byte }.
#[global] Instance Format_eq_dec : EqDecision Format.
Proof. solve_decision. Defined.

Definition PACKAGE : Format := {| magic := str "KQPB"; version := x02 |}.
Definition EXPORT_BUNDLE : Format := {| magic := str "KQXB"; version := x01 |}.

Definition KIND_DEVICE_TRANSFER : byte := x09.
Definition KIND_DEVICE_TRANSFER_ACK : byte := x0a.
Definition KIND_DEVICE_RELOCATE : byte := x0b.
Definition KIND_DEVICE_RELOCATE_ACK : byte := x0c.

Definition is_device_workflow_kind (kind : byte) : bool :=
  bool_decide (kind = KIND_DEVICE_TRANSFER \/ kind = KIND_DEVICE_TRANSFER_ACK \/
               kind = KIND_DEVICE_RELOCATE \/ kind = KIND_DEVICE_RELOCATE_ACK).

Definition framing_error (format : Format) : error :=
  if decide (format = EXPORT_BUNDLE) then InvalidExportBundle else InvalidBridgePackage.

(** A step of the outer parse: every failure is the format's own framing error. *)
Definition framed {A} (format : Format) (p : parser A) : parser A :=
  fun data => map_err (framing_error format) (p data).

Definition parse_outer_as (format : Format) (data : bytes) : result (byte * bytes * bytes) :=
  '(m, data) ← framed format (take_n 4) data;
  if negb (bool_decide (m = magic format)) then Err (framing_error format) else
  '(v, data) ← framed format take_u8 data;
  if negb (bool_decide (v = version format)) then Err (framing_error format) else
  '(kind, data) ← framed format take_u8 data;
  '(pk, data) ← framed format (take_array 32) data;
  '(len, data) ← framed format (take_array 4) data;
  '(sealed, data) ← framed format (take_n (N.to_nat (of_be len))) data;
  if negb (bool_decide (data = [])) then Err (framing_error format)
  else Ok (kind, pk, sealed).

Definition parse_outer (data : bytes) := parse_outer_as PACKAGE data.

Definition routing_public_key (data : bytes) : result bytes :=
  '(_, pk, _) ← parse_outer data; Ok pk.
Definition kind (data : bytes) : result byte :=
  '(k, _, _) ← parse_outer data; Ok k.

Definition format_of (data : bytes) : option Format :=
  if length data <? 4 then None
  else let m := take 4 data in
       snd <$> list_find (fun f => m = magic f) [PACKAGE; EXPORT_BUNDLE].

Definition kind_of_prefix (prefix : bytes) : option byte :=
  if length prefix <? 4 then None
  else if negb (bool_decide (take 4 prefix = magic PACKAGE)) then None
  else v ← prefix !! 4; if negb (bool_decide (v = version PACKAGE)) then None else prefix !! 5.

Section sealing.
Context `{C : Crypto}.

Definition is_weak_x25519_public_key (pk : bytes) : bool :=
  bool_decide (x25519 (replicate 32 x01) pk = replicate 32 x00).

Definition seal (rnd : bytes) (format : Format) (kind : byte) (pk payload : bytes) : result bytes :=
  if is_weak_x25519_public_key pk then Err InvalidPublicKey else
  let sealed := box_seal rnd pk payload in
  payload_len ← try_u32 (length sealed);
  Ok (magic format ++ [version format] ++ [kind] ++ pk ++ be_bytes 4 payload_len ++ sealed).

Definition open_as (format : Format) (data sk : bytes) : result (byte * bytes * bytes) :=
  '(kind, pk, sealed) ← parse_outer_as format data;
  payload ← ok_or (box_unseal sk sealed) (framing_error format);
  Ok (kind, pk, payload).
End sealing.

(** ** Laws of the cursor primitives *)

Lemma u16_width : u16_max = (256 ^ N.of_nat 2)%N. Proof. done. Qed.
Lemma u32_width : u32_max = (256 ^ N.of_nat 4)%N. Proof. done. Qed.
Lemma u64_width : u64_max = (256 ^ N.of_nat 8)%N. Proof. done. Qed.

Lemma take_n_app n b rest : length b = n -> take_n n (b ++ rest) = Ok (b, rest).
Proof.
  intros <-. unfold take_n. rewrite length_app.
  destruct (Nat.ltb_spec (length b + length rest) (length b)); [lia|].
  by rewrite take_app_length, drop_app_length.
Qed.

Lemma take_n_Ok n data b rest : take_n n data = Ok (b, rest) <-> data = b ++ rest /\ length b = n.
Proof.
  split.
  - unfold take_n. destruct (Nat.ltb_spec (length data) n); [done|].
    intros [= <- <-]. rewrite take_drop, length_take. split; [done|lia].
  - intros [-> H]. by apply take_n_app.
Qed.

Lemma take_u8_Ok data b rest : take_u8 data = Ok (b, rest) <-> data = b :: rest.
Proof. destruct data; simpl; split; naive_solver. Qed.

Lemma take_len_prefixed_push b e rest :
  push_len_prefixed b = Ok e -> take_len_prefixed (e ++ rest) = Ok (b, rest).
Proof.
  unfold push_len_prefixed, take_len_prefixed. intros E. inv_ok; subst.
  rewrite <- app_assoc.
  erewrite parser_bind_eq by (apply take_n_app, length_be_bytes).
  rewrite of_be_bytes, Nat2N.id by (by rewrite <- u16_width). by apply take_n_app.
Qed.

Lemma take_len_prefixed_canonical data b rest :
  take_len_prefixed data = Ok (b, rest) ->
  exists e, push_len_prefixed b = Ok e /\ data = e ++ rest.
Proof.
  unfold take_len_prefixed. intros E. inv_parser.
  apply take_n_Ok in H as [-> Hl]. apply take_n_Ok in E as [-> Hb].
  exists (v ++ b). split; [|by rewrite app_assoc]. unfold push_len_prefixed, try_u16.
  pose proof (of_be_bound v) as Hbd. rewrite Hl, <- u16_width in Hbd. rewrite Hb, N2Nat.id.
  destruct (N.ltb_spec (of_be v) u16_max); [|lia]. simpl.
  by rewrite be_bytes_of_be_n.
Qed.

Lemma take_u32_bytes v rest : (v < u32_max)%N -> take_u32 (be_bytes 4 v ++ rest) = Ok (v, rest).
Proof.
  intros Hv. unfold take_u32. erewrite parser_bind_eq by (apply take_n_app, length_be_bytes).
  rewrite of_be_bytes by (by rewrite <- u32_width). done.
Qed.

Lemma take_u32_Ok data v rest :
  take_u32 data = Ok (v, rest) -> (v < u32_max)%N /\ data = be_bytes 4 v ++ rest.
Proof.
  unfold take_u32. intros E. inv_parser. apply take_n_Ok in H as [-> Hl]. subst.
  pose proof (of_be_bound v0) as B. rewrite Hl, <- u32_width in B. split; [done|].
  by rewrite be_bytes_of_be_n.
Qed.

Lemma take_len_prefixed_u32_push b e rest :
  push_len_prefixed_u32 b = Ok e -> take_len_prefixed_u32 (e ++ rest) = Ok (b, rest).
Proof.
  unfold push_len_prefixed_u32, take_len_prefixed_u32. intros E. inv_ok; subst.
  rewrite <- app_assoc. erewrite parser_bind_eq by (by apply take_u32_bytes).
  rewrite Nat2N.id. by apply take_n_app.
Qed.

Lemma take_len_prefixed_u32_canonical data b rest :
  take_len_prefixed_u32 data = Ok (b, rest) ->
  exists e, push_len_prefixed_u32 b = Ok e /\ data = e ++ rest.
Proof.
  unfold take_len_prefixed_u32. intros E. inv_parser.
  apply take_u32_Ok in H as [Hv ->]. apply take_n_Ok in E as [-> Hb].
  exists (be_bytes 4 v ++ b). split; [|by rewrite app_assoc].
  unfold push_len_prefixed_u32, try_u32. rewrite Hb, N2Nat.id.
  destruct (N.ltb_spec v u32_max); [done|lia].
Qed.

(** What is sealed to a key is opened with its secret. *)
Lemma open_seal `{C : Crypto} `{!CryptoLaws C} rnd format k sk payload data :
  length (magic format) = 4 -> length (box_public sk) = 32 ->
  seal rnd format k (box_public sk) payload = Ok data -> open_as format data sk = Ok (k, box_public sk, payload).
Proof.
  intros Hm Hp. unfold seal. destruct (is_weak_x25519_public_key _); [done|]. intros (len & (-> & Hlen)%try_u32_Ok & [= <-])%bind_Ok.
  unfold open_as, parse_outer_as, framed. rewrite take_n_app by done. cbn [map_err mbind result_bind]. rewrite bool_decide_true by done.
  cbn [negb app take_u8 map_err mbind result_bind]. rewrite bool_decide_true by done. cbn [negb app take_u8 map_err mbind result_bind].
  unfold take_array. rewrite take_n_app by done. cbn [map_err mbind result_bind]. rewrite take_n_app by apply length_be_bytes.
  cbn [map_err mbind result_bind]. rewrite of_be_bytes, Nat2N.id by (by rewrite <- u32_width).
  set (sealed := box_seal _ _ _). pose proof (take_n_app (length sealed) sealed [] eq_refl) as Et. rewrite app_nil_r in Et. rewrite Et.
  cbn [map_err mbind result_bind]. rewrite bool_decide_true by done. cbn [negb mbind result_bind]. unfold sealed. by rewrite box_unseal_seal.
Qed.
