(* ===== verification/HistoryCodec.v ===== *)
(** * [src/src/file_history/codec.rs]: field encoders of events and containers

    Built on the envelope primitives; every decode failure surfaces as
    [InvalidTrackedFile]. Each pair is shown to be a lawful codec. *)

From S2P Require Import Prelude Text Envelope.

(** [bad]: any error becomes [InvalidTrackedFile]. *)
Definition bad {A} (p : parser A) : parser A := fun data => map_err InvalidTrackedFile (p data).

Definition push_str (value : bytes) : result bytes := push_len_prefixed value.

(** [take_len_prefixed(data).and_then(utf8)] *)
Definition take_str : parser bytes :=
  bad (fun data => '(b, rest) ← take_len_prefixed data; s ← utf8 b; Ok (s, rest)).

Definition push_u64 (value : N) : bytes := be_bytes 8 value.
Definition take_fixed (n : nat) : parser bytes := bad (take_array n).
Definition take_u64 : parser N := b ← take_fixed 8; mret (of_be b).
Definition take_byte : parser byte := bad take_u8.

Definition push_opt_array (value : option bytes) : bytes :=
  match value with Some b => x01 :: b | None => [x00] end.

Definition take_opt_array (n : nat) : parser (option bytes) :=
  tag ← take_byte;
  match tag with
  | x00 => mret None
  | x01 => b ← take_fixed n; mret (Some b)
  | _ => fail InvalidTrackedFile
  end.

Definition push_opt_str (value : option bytes) : result bytes :=
  match value with
  | Some text => s ← push_str text; Ok (x01 :: s)
  | None => Ok [x00]
  end.

Definition take_opt_str : parser (option bytes) :=
  tag ← take_byte;
  match tag with
  | x00 => mret None
  | x01 => s ← take_str; mret (Some s)
  | _ => fail InvalidTrackedFile
  end.

Definition push_opt_u64 (value : option N) : bytes :=
  match value with Some n => x01 :: push_u64 n | None => [x00] end.

Definition take_opt_u64 : parser (option N) :=
  tag ← take_byte;
  match tag with
  | x00 => mret None
  | x01 => n ← take_u64; mret (Some n)
  | _ => fail InvalidTrackedFile
  end.

(** ** The values each field can hold *)

Definition fixed (n : nat) (b : bytes) : Prop := length b = n.
Definition text (b : bytes) : Prop := is_utf8 b = true.
Definition u64 (v : N) : Prop := (v < u64_max)%N.
Definition opt {A} (P : A -> Prop) (o : option A) : Prop :=
  match o with Some a => P a | None => True end.
#[global] Arguments fixed n b /.
#[global] Arguments opt {A} P o /.

#[global] Instance opt_dec {A} (P : A -> Prop) `{!forall a, Decision (P a)} (o : option A) :
  Decision (opt P o).
Proof. destruct o; apply _. Defined.
#[global] Instance fixed_dec n b : Decision (fixed n b).
Proof. unfold fixed. apply _. Defined.
#[global] Instance text_dec b : Decision (text b).
Proof. unfold text. apply _. Defined.
#[global] Instance u64_dec v : Decision (u64 v).
Proof. unfold u64. apply _. Defined.

(** ** Laws *)

Lemma bad_Ok {A} (p : parser A) data r : bad p data = Ok r <-> p data = Ok r.
Proof. apply map_err_Ok. Qed.

Lemma take_fixed_Ok n data b rest : take_fixed n data = Ok (b, rest) <-> data = b ++ rest /\ fixed n b.
Proof. unfold take_fixed. rewrite bad_Ok. apply take_n_Ok. Qed.

Lemma take_byte_Ok data b rest : take_byte data = Ok (b, rest) <-> data = b :: rest.
Proof. unfold take_byte. rewrite bad_Ok. apply take_u8_Ok. Qed.

Lemma fixed_codec n : codec_ok (fixed n) Ok (take_fixed n).
Proof.
  split.
  - intros a b rest Ha [= <-]. by apply take_fixed_Ok.
  - intros data a rest [-> Ha]%take_fixed_Ok. eauto.
Qed.

Lemma str_codec : codec_ok text push_str take_str.
Proof.
  split.
  - intros s e rest Hs E. unfold take_str. apply bad_Ok.
    rewrite (take_len_prefixed_push s e rest E). simpl. unfold utf8. by rewrite Hs.
  - intros data s rest E. unfold take_str in E. rewrite bad_Ok in E.
    apply bind_Ok in E as ([b r] & Eb & E). unfold utf8 in E.
    destruct (is_utf8 b) eqn:U; simpl in E; [|done]. inv_ok; subst.
    split; [done|]. by apply take_len_prefixed_canonical.
Qed.

Lemma u64_codec : codec_ok u64 (fun v => Ok (push_u64 v)) take_u64.
Proof.
  split.
  - intros v e rest Hv [= <-]. unfold take_u64, push_u64.
    erewrite parser_bind_eq by (apply take_fixed_Ok; split; [done|apply length_be_bytes]).
    rewrite of_be_bytes by (by rewrite <- u64_width). done.
  - intros data v rest E. unfold take_u64 in E. inv_parser. subst.
    apply take_fixed_Ok in H as [-> Hl]. pose proof (of_be_bound v0) as B. simpl in Hl.
    unfold u64. rewrite Hl, <- u64_width in B. split; [done|]. eexists; split; [done|].
    unfold push_u64. by rewrite be_bytes_of_be_n.
Qed.

Lemma opt_array_codec n :
  codec_ok (opt (fixed n)) (fun o => Ok (push_opt_array o)) (take_opt_array n).
Proof.
  split.
  - intros [b|] e rest H [= <-]; unfold take_opt_array, push_opt_array; [|done].
    erewrite parser_bind_eq by done. cbn.
    erewrite parser_bind_eq by (by apply take_fixed_Ok). done.
  - intros data o rest E. unfold take_opt_array in E. inv_parser.
    apply take_byte_Ok in H as ->. destruct v; inv_parser; subst; [by split; [|eexists; split]|].
    apply take_fixed_Ok in H as [-> H]. eauto.
Qed.

Lemma opt_str_codec : codec_ok (opt text) push_opt_str take_opt_str.
Proof.
  split.
  - intros [s|] e rest H E; unfold take_opt_str, push_opt_str in *; inv_ok; subst; [|done].
    erewrite parser_bind_eq by done. cbn.
    erewrite parser_bind_eq by (by eapply (codec_roundtrip _ _ _ str_codec)). done.
  - intros data o rest E. unfold take_opt_str in E. inv_parser.
    apply take_byte_Ok in H as ->. destruct v; inv_parser; subst; [by split; [|eexists; split]|].
    apply (codec_canonical _ _ _ str_codec) in H as (H & e & He & ->).
    split; [done|]. exists (x01 :: e). simpl. by rewrite He.
Qed.

Lemma opt_u64_codec : codec_ok (opt u64) (fun o => Ok (push_opt_u64 o)) take_opt_u64.
Proof.
  split.
  - intros [v|] e rest H [= <-]; unfold take_opt_u64, push_opt_u64; [|done].
    erewrite parser_bind_eq by done. cbn.
    erewrite parser_bind_eq by (by eapply (codec_roundtrip _ _ _ u64_codec)). done.
  - intros data o rest E. unfold take_opt_u64 in E. inv_parser.
    apply take_byte_Ok in H as ->. destruct v; inv_parser; subst; [by split; [|eexists; split]|].
    apply (codec_canonical _ _ _ u64_codec) in H as (H & e & [= <-] & ->). eauto.
Qed.

(** ** Automation for composite decoders

    [enc_dec] pushes a decoder through an encoding field by field; [dec_enc]
    reads a successful decode backwards into the encodings it consumed. *)

Lemma rt_fixed n b rest : fixed n b -> take_fixed n (b ++ rest) = Ok (b, rest).
Proof. intros. by apply take_fixed_Ok. Qed.
Lemma rt_byte b rest : take_byte (b :: rest) = Ok (b, rest).
Proof. done. Qed.
Lemma rt_str s e rest : text s -> push_str s = Ok e -> take_str (e ++ rest) = Ok (s, rest).
Proof. apply (codec_roundtrip _ _ _ str_codec). Qed.
Lemma rt_u64 v rest : u64 v -> take_u64 (push_u64 v ++ rest) = Ok (v, rest).
Proof. intros. by eapply (codec_roundtrip _ _ _ u64_codec). Qed.
Lemma rt_opt_array n o rest :
  opt (fixed n) o -> take_opt_array n (push_opt_array o ++ rest) = Ok (o, rest).
Proof. intros. by eapply (codec_roundtrip _ _ _ (opt_array_codec n)). Qed.
Lemma rt_opt_str o e rest :
  opt text o -> push_opt_str o = Ok e -> take_opt_str (e ++ rest) = Ok (o, rest).
Proof. apply (codec_roundtrip _ _ _ opt_str_codec). Qed.
Lemma rt_opt_u64 o rest : opt u64 o -> take_opt_u64 (push_opt_u64 o ++ rest) = Ok (o, rest).
Proof. intros. by eapply (codec_roundtrip _ _ _ opt_u64_codec). Qed.
Lemma rt_u32 v rest : (v < u32_max)%N -> bad take_u32 (be_bytes 4 v ++ rest) = Ok (v, rest).
Proof. intros. apply bad_Ok. by apply take_u32_bytes. Qed.
Lemma rt_u16 v rest : take_fixed 2 (be_bytes 2 v ++ rest) = Ok (be_bytes 2 v, rest).
Proof. apply rt_fixed, length_be_bytes. Qed.

#[export] Hint Resolve rt_fixed rt_byte rt_str rt_u64 rt_opt_array rt_opt_str rt_opt_u64 rt_u32 rt_u16 : kq.

(** The rules read from the source order of a decoder: each [?] in turn. *)
Ltac enc_dec :=
  repeat first
    [ erewrite parser_bind_eq by (solve [eauto 2 with nocore kq]); cbv beta
    | rewrite <- app_assoc | rewrite <- app_comm_cons | progress cbn [app] ].

Ltac canon H L := apply (codec_canonical _ _ _ L) in H; destruct H as (? & ? & ? & ->).

Ltac dec_enc_step :=
  match goal with
  | H : take_fixed _ _ = Ok _ |- _ => apply take_fixed_Ok in H; destruct H as [-> ?]
  | H : take_byte _ = Ok _ |- _ => apply take_byte_Ok in H; subst
  | H : take_str _ = Ok _ |- _ => canon H str_codec
  | H : take_u64 _ = Ok _ |- _ => canon H u64_codec
  | H : take_opt_array ?n _ = Ok _ |- _ => canon H (opt_array_codec n)
  | H : take_opt_str _ = Ok _ |- _ => canon H opt_str_codec
  | H : take_opt_u64 _ = Ok _ |- _ => canon H opt_u64_codec
  | H : bad take_u32 _ = Ok _ |- _ => rewrite bad_Ok in H; apply take_u32_Ok in H; destruct H as [? ->]
  | H : Ok _ = Ok _ |- _ => apply Ok_inj in H; subst
  end.
Ltac dec_enc := repeat dec_enc_step.

(** A count field that was read back is the count the encoder writes. *)
Lemma u16_count_back n : (N.of_nat n < u16_max)%N -> N.to_nat (of_be (be_bytes 2 (N.of_nat n))) = n.
Proof. intros H. rewrite of_be_bytes by (by rewrite <- u16_width). apply Nat2N.id. Qed.

Lemma u16_count_forth c n : fixed 2 c -> n = N.to_nat (of_be c) ->
  try_u16 n = Ok (of_be c) /\ be_bytes 2 (of_be c) = c.
Proof.
  intros Hc ->. split; [|by apply be_bytes_of_be_n]. pose proof (of_be_bound c) as B.
  simpl in Hc. rewrite Hc, <- u16_width in B. unfold try_u16. rewrite N2Nat.id.
  destruct (N.ltb_spec (of_be c) u16_max); [done|lia].
Qed.

(** Run an encoder on fields whose encodings are hypotheses. *)
Ltac run_enc :=
  repeat first
    [ match goal with H : ?f = Ok _ |- context [?f ≫= _] => rewrite H end
    | progress cbn [mbind result_bind] ].

(** Close [exists b, Ok (..) = Ok b /\ .. ++ rest = b ++ rest]. *)
Ltac close_enc :=
  eexists; split; [reflexivity|]; repeat (rewrite <- app_assoc || cbn [app]); reflexivity.
