(* ===== verification/Event.v ===== *)
(** * [src/src/file_history/event.rs]: history events and their hash chain

    The event type and outcome codes, the event record with its canonical
    encoding, the chain check and the step that seals one more event. The
    random event id is an argument. *)

From S2P Require Import Prelude Text Crypto Envelope HistoryCodec.

(** ** Event types and outcomes *)

Module E.
Inductive HistoryEventType :=
| TrackingStarted | EditCheckedIn | RevisionSigned | CountersignatureAdded | PolicyDecision
| ShareAttempted | ShareDelivered | FileExpired | ContentDestroyed | TamperDetected
| AutoMergeAttempted | AutoMergeFastForward | AutoMergeEquivalent | AutoMergeClean
| AutoMergeBlocked | AutoMergeRequiresHuman | HistoryForkDetected | ContentConflictDetected
| ConflictReviewAssigned | ConflictReviewEscalated | BridgeUsed | ConflictUnresolved
| HistoryImported | QuorumUnlockAttempted | PasswordUnlockAttempted | ExpiredAccessAttempt
| GateLinked | ShareLinkCreated | ShareLinkRedeemed | ShareLinkRevoked | ExpiryScheduled
| FileRenamed | RevisionFinalized | ConflictResolved | MergeRejected | RevisionCheckedOut
| VerificationRun | HistoryExported | FileRequested | ChangeRequested | RequestAnswered
| LetterQueued | LetterSent | LetterDropped | LetterRefused | LetterReceived | LetterOpened
| ErrorReported.

#[global] Instance HistoryEventType_eq_dec : EqDecision HistoryEventType.
Proof. solve_decision. Defined.

(** [self as u8] *)
Definition event_type_code (t : HistoryEventType) : byte :=
match t with
| TrackingStarted => x01 | EditCheckedIn => x02 | RevisionSigned => x03
| CountersignatureAdded => x04 | PolicyDecision => x05 | ShareAttempted => x06
| ShareDelivered => x07 | FileExpired => x08 | ContentDestroyed => x09
| TamperDetected => x0a | AutoMergeAttempted => x0b | AutoMergeFastForward => x0c
| AutoMergeEquivalent => x0d | AutoMergeClean => x0e | AutoMergeBlocked => x0f
| AutoMergeRequiresHuman => x10 | HistoryForkDetected => x11
| ContentConflictDetected => x12 | ConflictReviewAssigned => x13
| ConflictReviewEscalated => x14 | BridgeUsed => x15 | ConflictUnresolved => x16
| HistoryImported => x17 | QuorumUnlockAttempted => x18 | PasswordUnlockAttempted => x19
| ExpiredAccessAttempt => x1a | GateLinked => x1b | ShareLinkCreated => x1c
| ShareLinkRedeemed => x1d | ShareLinkRevoked => x1e | ExpiryScheduled => x1f
| FileRenamed => x20 | RevisionFinalized => x21 | ConflictResolved => x22
| MergeRejected => x23 | RevisionCheckedOut => x24 | VerificationRun => x25
| HistoryExported => x26 | FileRequested => x27 | ChangeRequested => x28
| RequestAnswered => x29 | LetterQueued => x2a | LetterSent => x2b | LetterDropped => x2c
| LetterRefused => x2d | LetterReceived => x2e | LetterOpened => x2f | ErrorReported => x30
end.

(** [HistoryEventType::from_u8] *)
Definition event_type_from_u8 (value : byte) : result HistoryEventType :=
match value with
| x01 => Ok TrackingStarted | x02 => Ok EditCheckedIn | x03 => Ok RevisionSigned
| x04 => Ok CountersignatureAdded | x05 => Ok PolicyDecision | x06 => Ok ShareAttempted
| x07 => Ok ShareDelivered | x08 => Ok FileExpired | x09 => Ok ContentDestroyed
| x0a => Ok TamperDetected | x0b => Ok AutoMergeAttempted | x0c => Ok AutoMergeFastForward
| x0d => Ok AutoMergeEquivalent | x0e => Ok AutoMergeClean | x0f => Ok AutoMergeBlocked
| x10 => Ok AutoMergeRequiresHuman | x11 => Ok HistoryForkDetected
| x12 => Ok ContentConflictDetected | x13 => Ok ConflictReviewAssigned
| x14 => Ok ConflictReviewEscalated | x15 => Ok BridgeUsed | x16 => Ok ConflictUnresolved
| x17 => Ok HistoryImported | x18 => Ok QuorumUnlockAttempted
| x19 => Ok PasswordUnlockAttempted | x1a => Ok ExpiredAccessAttempt | x1b => Ok GateLinked
| x1c => Ok ShareLinkCreated | x1d => Ok ShareLinkRedeemed | x1e => Ok ShareLinkRevoked
| x1f => Ok ExpiryScheduled | x20 => Ok FileRenamed | x21 => Ok RevisionFinalized
| x22 => Ok ConflictResolved | x23 => Ok MergeRejected | x24 => Ok RevisionCheckedOut
| x25 => Ok VerificationRun | x26 => Ok HistoryExported | x27 => Ok FileRequested
| x28 => Ok ChangeRequested | x29 => Ok RequestAnswered | x2a => Ok LetterQueued
| x2b => Ok LetterSent | x2c => Ok LetterDropped | x2d => Ok LetterRefused
| x2e => Ok LetterReceived | x2f => Ok LetterOpened | x30 => Ok ErrorReported
| _ => Err InvalidTrackedFile
end.

(** [HistoryEventType::category] *)
Definition category (t : HistoryEventType) : bytes :=
match t with
| TrackingStarted | HistoryImported | GateLinked | FileRenamed | RevisionCheckedOut
| HistoryExported
    => str "file"
| EditCheckedIn | RevisionFinalized | RevisionSigned | CountersignatureAdded
| PolicyDecision | AutoMergeAttempted | AutoMergeFastForward | AutoMergeEquivalent
| AutoMergeClean | ChangeRequested
    => str "revision"
| QuorumUnlockAttempted | PasswordUnlockAttempted | FileExpired | ContentDestroyed
| ExpiredAccessAttempt | ExpiryScheduled | TamperDetected | VerificationRun
    => str "security"
| ShareAttempted | ShareDelivered | ShareLinkCreated | ShareLinkRedeemed | ShareLinkRevoked
| FileRequested | RequestAnswered | LetterQueued | LetterSent | LetterDropped
| LetterRefused | LetterReceived | LetterOpened | ErrorReported
    => str "sharing"
| AutoMergeBlocked | AutoMergeRequiresHuman | HistoryForkDetected | ContentConflictDetected
| ConflictReviewAssigned | ConflictResolved | MergeRejected | ConflictReviewEscalated
| BridgeUsed | ConflictUnresolved
    => str "conflict"
end.

(** [HistoryEventType::name_c], without the trailing NUL. *)
Definition event_type_name (t : HistoryEventType) : bytes :=
match t with
| TrackingStarted => str "TrackingStarted" | EditCheckedIn => str "EditCheckedIn"
| RevisionSigned => str "RevisionSigned"
| CountersignatureAdded => str "CountersignatureAdded"
| PolicyDecision => str "PolicyDecision" | ShareAttempted => str "ShareAttempted"
| ShareDelivered => str "ShareDelivered" | FileExpired => str "FileExpired"
| ContentDestroyed => str "ContentDestroyed" | TamperDetected => str "TamperDetected"
| AutoMergeAttempted => str "AutoMergeAttempted"
| AutoMergeFastForward => str "AutoMergeFastForward"
| AutoMergeEquivalent => str "AutoMergeEquivalent" | AutoMergeClean => str "AutoMergeClean"
| AutoMergeBlocked => str "AutoMergeBlocked"
| AutoMergeRequiresHuman => str "AutoMergeRequiresHuman"
| HistoryForkDetected => str "HistoryForkDetected"
| ContentConflictDetected => str "ContentConflictDetected"
| ConflictReviewAssigned => str "ConflictReviewAssigned"
| ConflictReviewEscalated => str "ConflictReviewEscalated" | BridgeUsed => str "BridgeUsed"
| ConflictUnresolved => str "ConflictUnresolved" | HistoryImported => str "HistoryImported"
| QuorumUnlockAttempted => str "QuorumUnlockAttempted"
| PasswordUnlockAttempted => str "PasswordUnlockAttempted"
| ExpiredAccessAttempt => str "ExpiredAccessAttempt" | GateLinked => str "GateLinked"
| ShareLinkCreated => str "ShareLinkCreated" | ShareLinkRedeemed => str "ShareLinkRedeemed"
| ShareLinkRevoked => str "ShareLinkRevoked" | ExpiryScheduled => str "ExpiryScheduled"
| FileRenamed => str "FileRenamed" | RevisionFinalized => str "RevisionFinalized"
| ConflictResolved => str "ConflictResolved" | MergeRejected => str "MergeRejected"
| RevisionCheckedOut => str "RevisionCheckedOut" | VerificationRun => str "VerificationRun"
| HistoryExported => str "HistoryExported" | FileRequested => str "FileRequested"
| ChangeRequested => str "ChangeRequested" | RequestAnswered => str "RequestAnswered"
| LetterQueued => str "LetterQueued" | LetterSent => str "LetterSent"
| LetterDropped => str "LetterDropped" | LetterRefused => str "LetterRefused"
| LetterReceived => str "LetterReceived" | LetterOpened => str "LetterOpened"
| ErrorReported => str "ErrorReported"
end.

(** [HistoryEventType::name_of] *)
Definition event_type_name_of (code : byte) : option bytes :=
match event_type_from_u8 code with Ok t => Some (event_type_name t) | Err _ => None end.

Definition SAFE_DETAIL_KEYS : list bytes := map str
["action"; "answers"; "approval"; "approvals"; "base"; "base_revision"; "by"; "bundle_type";
 "candidate"; "container_commitment"; "container_hash"; "custody"; "denied"; "decision";
 "delivery_id"; "devices"; "error_class"; "error_code"; "error_ref"; "expires_at";
 "fallback_reason"; "for_actor"; "freshness"; "from"; "from_history_root"; "gate";
 "gate_file"; "kind"; "left"; "letter_id"; "minimum_devices"; "operation"; "pending"; "pin";
 "presented"; "proofs_added"; "reason"; "redeemer"; "relation"; "relationship"; "result";
 "request_id"; "request_kind"; "reviewer"; "revision_a"; "revision_b"; "revisions";
 "revisions_added"; "revisions_destroyed"; "resolution"; "right"; "scope"; "selection_rule";
 "satisfied_by"; "share"; "shareable"; "shares"; "signing_mode"; "slot"; "state";
 "threshold"; "to"; "trust_state"; "trusted"]%string.
End E.

Inductive HistoryOutcome := Success | Failure | Denied | Info.
#[global] Instance HistoryOutcome_eq_dec : EqDecision HistoryOutcome.
Proof. solve_decision. Defined.

Definition outcome_code (o : HistoryOutcome) : byte :=
  match o with Success => x01 | Failure => x02 | Denied => x03 | Info => x04 end.

(** [HistoryOutcome::from_u8] *)
Definition outcome_from_u8 (value : byte) : result HistoryOutcome :=
  match value with
  | x01 => Ok Success | x02 => Ok Failure | x03 => Ok Denied | x04 => Ok Info
  | _ => Err InvalidTrackedFile
  end.

(** [HistoryOutcome::name_c], without the trailing NUL. *)
Definition outcome_name (o : HistoryOutcome) : bytes :=
  match o with
  | Success => str "Success" | Failure => str "Failure"
  | Denied => str "Denied" | Info => str "Info"
  end.

(** ** Details *)

(** [EventDetails(Vec<(String, String)>)]: ordered key/value facts. *)
Abbreviation EventDetails := (list (bytes * bytes)).

(** [EventDetails::with] *)
Definition with_detail (d : EventDetails) (key value : bytes) : EventDetails := d ++ [(key, value)].

(** [EventDetails::get]: the first entry named [key]. *)
Definition details_get (d : EventDetails) (key : bytes) : option bytes :=
  (fun p => snd (snd p)) <$> list_find (fun kv => kv.1 = key) d.

(** [EventDetails::unsafe_key]: the first key that is not allowed. *)
Definition unsafe_key (d : EventDetails) : option bytes :=
  snd <$> list_find (fun k => k ∉ E.SAFE_DETAIL_KEYS) (map fst d).

(** ** Events *)

Record NewEvent := {
  ne_revision_id : option bytes;
  ne_occurred_at : bytes;
  ne_actor_identity : option bytes;
  ne_actor_label : option bytes;
  ne_topology_generation : option N;
  ne_event_type : E.HistoryEventType;
  ne_outcome : HistoryOutcome;
  ne_details : EventDetails }.

Record HistoryEvent := {
  ev_event_id : bytes;
  ev_sequence : N;
  ev_file_id : bytes;
  ev_revision_id : option bytes;
  ev_previous_event_hash : bytes;
  ev_event_hash : bytes;
  ev_occurred_at : bytes;
  ev_actor_identity : option bytes;
  ev_actor_label : option bytes;
  ev_topology_generation : option N;
  ev_event_type : E.HistoryEventType;
  ev_outcome : HistoryOutcome;
  ev_details : EventDetails }.

#[global] Instance HistoryEvent_eq_dec : EqDecision HistoryEvent.
Proof. solve_decision. Defined.

Definition HISTORY_DOMAIN : bytes := str "KQ-FILE-HISTORY-v1".
Definition GENESIS_DOMAIN : bytes := str "KQ-FILE-HISTORY-GENESIS-v1".

Definition push_detail (kv : bytes * bytes) : result bytes :=
  k ← push_len_prefixed kv.1; v ← push_len_prefixed kv.2; Ok (k ++ v).

Definition take_detail : parser (bytes * bytes) :=
  k ← take_str; v ← take_str; mret (k, v).

(** [HistoryEvent::body]: every field except the event hash. *)
Definition event_body (e : HistoryEvent) : result bytes :=
  at_ ← push_str (ev_occurred_at e);
  label ← push_opt_str (ev_actor_label e);
  count ← try_u16 (length (ev_details e));
  details ← encode_all push_detail (ev_details e);
  Ok (ev_event_id e ++ push_u64 (ev_sequence e) ++ ev_file_id e
      ++ push_opt_array (ev_revision_id e) ++ ev_previous_event_hash e
      ++ at_ ++ push_opt_array (ev_actor_identity e) ++ label
      ++ push_opt_u64 (ev_topology_generation e)
      ++ [E.event_type_code (ev_event_type e)] ++ [outcome_code (ev_outcome e)]
      ++ be_bytes 2 count ++ details).

Definition event_encode (e : HistoryEvent) : result bytes :=
  b ← event_body e; Ok (b ++ ev_event_hash e).

(** [from_u8(take_byte(data)?)?] *)
Definition take_code {A} (from_u8 : byte -> result A) : parser A :=
  b ← take_byte; lift (from_u8 b).

Definition event_decode : parser HistoryEvent :=
  event_id ← take_fixed 16;
  sequence ← take_u64;
  file_id ← take_fixed 16;
  revision_id ← take_opt_array 32;
  previous_event_hash ← take_fixed 32;
  occurred_at ← take_str;
  actor_identity ← take_opt_array 16;
  actor_label ← take_opt_str;
  topology_generation ← take_opt_u64;
  event_type ← take_code E.event_type_from_u8;
  outcome ← take_code outcome_from_u8;
  count ← take_fixed 2;
  details ← repeat_parser (N.to_nat (of_be count)) take_detail;
  event_hash ← take_fixed 32;
  mret {| ev_event_id := event_id; ev_sequence := sequence; ev_file_id := file_id;
          ev_revision_id := revision_id; ev_previous_event_hash := previous_event_hash;
          ev_event_hash := event_hash; ev_occurred_at := occurred_at;
          ev_actor_identity := actor_identity; ev_actor_label := actor_label;
          ev_topology_generation := topology_generation; ev_event_type := event_type;
          ev_outcome := outcome; ev_details := details |}.

(** [HistoryEvent::from_bytes]: one event, no trailing bytes. *)
Definition event_from_bytes (data : bytes) : result HistoryEvent :=
  '(event, rest) ← event_decode data;
  if negb (bool_decide (rest = [])) then Err InvalidTrackedFile else Ok event.

Section chain.
Context `{C : Crypto}.

Definition genesis_hash (file_id : bytes) : bytes := sha256 (GENESIS_DOMAIN ++ file_id).

Definition compute_hash (e : HistoryEvent) : result bytes :=
  b ← event_body e; Ok (sha256 (HISTORY_DOMAIN ++ b)).

Definition set_event_hash (h : bytes) (e : HistoryEvent) : HistoryEvent :=
  {| ev_event_id := ev_event_id e; ev_sequence := ev_sequence e; ev_file_id := ev_file_id e;
     ev_revision_id := ev_revision_id e; ev_previous_event_hash := ev_previous_event_hash e;
     ev_event_hash := h; ev_occurred_at := ev_occurred_at e;
     ev_actor_identity := ev_actor_identity e; ev_actor_label := ev_actor_label e;
     ev_topology_generation := ev_topology_generation e; ev_event_type := ev_event_type e;
     ev_outcome := ev_outcome e; ev_details := ev_details e |}.

(** [HistoryEvent::seal] *)
Definition event_seal (event_id : bytes) (sequence : N) (file_id previous : bytes)
    (new : NewEvent) : result HistoryEvent :=
  let event :=
    {| ev_event_id := event_id; ev_sequence := sequence; ev_file_id := file_id;
       ev_revision_id := ne_revision_id new; ev_previous_event_hash := previous;
       ev_event_hash := replicate 32 x00; ev_occurred_at := ne_occurred_at new;
       ev_actor_identity := ne_actor_identity new; ev_actor_label := ne_actor_label new;
       ev_topology_generation := ne_topology_generation new;
       ev_event_type := ne_event_type new; ev_outcome := ne_outcome new;
       ev_details := ne_details new |} in
  h ← compute_hash event; Ok (set_event_hash h event).

(** [HistoryEvent::chained]: the next event of a history kept outside a file. *)
Definition event_chained (event_id history_id : bytes) (sequence : N) (previous : bytes)
    (new : NewEvent) : result HistoryEvent :=
  if bool_decide (is_Some (unsafe_key (ne_details new))) || bool_decide (is_Some (ne_revision_id new))
  then Err InvalidTrackedFile
  else event_seal event_id sequence history_id previous new.

(** The loop of [verify_chain] from position [index] and hash [previous] on. *)
Fixpoint verify_chain_from (file_id : bytes) (index : nat) (previous : bytes)
    (events : list HistoryEvent) : result bytes :=
  match events with
  | [] => Ok previous
  | event :: events =>
      if negb (bool_decide (ev_sequence event = N.of_nat index))
         || negb (bool_decide (ev_file_id event = file_id))
         || negb (bool_decide (ev_previous_event_hash event = previous))
      then Err InvalidTrackedFile else
      h ← compute_hash event;
      if negb (bool_decide (h = ev_event_hash event)) then Err InvalidTrackedFile
      else verify_chain_from file_id (S index) (ev_event_hash event) events
  end.

Definition verify_chain (file_id : bytes) (events : list HistoryEvent) : result bytes :=
  verify_chain_from file_id 0 (genesis_hash file_id) events.
End chain.

(** ** What the Rust types guarantee of an event *)

Definition detail_wf (kv : bytes * bytes) : Prop := text kv.1 /\ text kv.2.

Record event_wf (e : HistoryEvent) : Prop := {
  ewf_id : fixed 16 (ev_event_id e);
  ewf_sequence : u64 (ev_sequence e);
  ewf_file : fixed 16 (ev_file_id e);
  ewf_revision : opt (fixed 32) (ev_revision_id e);
  ewf_previous : fixed 32 (ev_previous_event_hash e);
  ewf_hash : fixed 32 (ev_event_hash e);
  ewf_at : text (ev_occurred_at e);
  ewf_actor : opt (fixed 16) (ev_actor_identity e);
  ewf_label : opt text (ev_actor_label e);
  ewf_generation : opt u64 (ev_topology_generation e);
  ewf_details : Forall detail_wf (ev_details e) }.

Record new_event_wf (n : NewEvent) : Prop := {
  nwf_revision : opt (fixed 32) (ne_revision_id n);
  nwf_at : text (ne_occurred_at n);
  nwf_actor : opt (fixed 16) (ne_actor_identity n);
  nwf_label : opt text (ne_actor_label n);
  nwf_generation : opt u64 (ne_topology_generation n);
  nwf_details : Forall detail_wf (ne_details n) }.

(** ** Codec laws *)

Lemma event_type_roundtrip t : E.event_type_from_u8 (E.event_type_code t) = Ok t.
Proof. by destruct t. Qed.
Lemma event_type_canonical b t : E.event_type_from_u8 b = Ok t -> E.event_type_code t = b.
Proof. by destruct b; intros [= <-]. Qed.
Lemma outcome_roundtrip o : outcome_from_u8 (outcome_code o) = Ok o.
Proof. by destruct o. Qed.
Lemma outcome_canonical b o : outcome_from_u8 b = Ok o -> outcome_code o = b.
Proof. by destruct b; intros [= <-]. Qed.

Lemma take_code_roundtrip {A} (from_u8 : byte -> result A) code a rest :
  from_u8 (code a) = Ok a -> take_code from_u8 (code a :: rest) = Ok (a, rest).
Proof. intros H. unfold take_code. erewrite parser_bind_eq by apply rt_byte. by apply lift_Ok. Qed.

Lemma take_code_Ok {A} (from_u8 : byte -> result A) data a rest :
  take_code from_u8 data = Ok (a, rest) -> exists b, data = b :: rest /\ from_u8 b = Ok a.
Proof.
  unfold take_code. intros E. inv_parser. apply take_byte_Ok in H as ->.
  apply lift_Ok in E as [? ->]. eauto.
Qed.

Lemma rt_event_type t rest :
  take_code E.event_type_from_u8 (E.event_type_code t :: rest) = Ok (t, rest).
Proof. apply take_code_roundtrip, event_type_roundtrip. Qed.
Lemma rt_outcome o rest : take_code outcome_from_u8 (outcome_code o :: rest) = Ok (o, rest).
Proof. apply take_code_roundtrip, outcome_roundtrip. Qed.
#[export] Hint Resolve rt_event_type rt_outcome : kq.

Lemma detail_codec : codec_ok detail_wf push_detail take_detail.
Proof.
  split.
  - intros [k v] e rest [Hk Hv] E. unfold push_detail in E; simpl in *. inv_ok; subst.
    unfold take_detail. enc_dec. done.
  - intros data [k v] rest E. unfold take_detail in E. inv_parser; subst. dec_enc.
    split; [by split|]. unfold push_detail; simpl.
    match goal with H : push_str k = Ok ?a, H' : push_str v = Ok ?b |- _ =>
      exists (a ++ b); unfold push_str in *; rewrite H; simpl; rewrite H' end.
    by rewrite app_assoc.
Qed.

Lemma rt_details l e rest :
  Forall detail_wf l -> encode_all push_detail l = Ok e ->
  repeat_parser (length l) take_detail (e ++ rest) = Ok (l, rest).
Proof. apply (codec_repeat_roundtrip detail_codec). Qed.

(** [event_encode] and [event_decode] are inverse, on well-formed events, and
    the decoder accepts only canonical encodings of well-formed events. *)
Lemma event_codec : codec_ok event_wf event_encode event_decode.
Proof.
  split.
  - intros e b rest [] E. unfold event_encode, event_body in E. inv_ok; subst.
    unfold event_decode. enc_dec.
    rewrite u16_count_back by done.
    erewrite parser_bind_eq by (by apply rt_details). enc_dec. by destruct e.
  - intros data e rest E. unfold event_decode in E. inv_parser.
    repeat match goal with H : take_code _ _ = Ok _ |- _ =>
      apply take_code_Ok in H; destruct H as (? & -> & H) end.
    dec_enc. subst.
    match goal with H : repeat_parser _ take_detail _ = Ok _ |- _ =>
      apply (codec_repeat_canonical detail_codec) in H; destruct H as (Hl & Hd & ? & ? & ->) end.
    dec_enc. split; [by split|]. unfold event_encode, event_body; simpl.
    match goal with H : E.event_type_from_u8 _ = Ok _ |- _ => apply event_type_canonical in H as <- end.
    match goal with H : outcome_from_u8 _ = Ok _ |- _ => apply outcome_canonical in H as <- end.
    match goal with H : fixed 2 _ |- _ => destruct (u16_count_forth _ _ H Hl) as [Hc Hb] end.
    run_enc. rewrite Hb. close_enc.
Qed.

Lemma event_body_inj e e' b :
  event_wf e -> event_wf e' -> event_body e = Ok b -> event_body e' = Ok b ->
  ev_event_hash e = ev_event_hash e' -> e = e'.
Proof.
  intros W W' B B' H.
  assert (event_encode e = Ok (b ++ ev_event_hash e)) as E by (unfold event_encode; by rewrite B).
  assert (event_encode e' = Ok (b ++ ev_event_hash e')) as E' by (unfold event_encode; by rewrite B').
  rewrite <- H in E'. by destruct (codec_prefix_free event_codec _ _ _ _ [] [] W W' E E').
Qed.

Lemma unsafe_key_None d : unsafe_key d = None <-> Forall (fun kv => kv.1 ∈ E.SAFE_DETAIL_KEYS) d.
Proof.
  unfold unsafe_key. rewrite fmap_None, list_find_None, Forall_map.
  apply Forall_iff. intros kv. simpl. split; [apply dec_stable|tauto].
Qed.

(** ** The chain *)

Section chain_facts.
Context `{C : Crypto}.

Lemma verify_chain_from_app f i p es es' :
  verify_chain_from f i p (es ++ es') =
  (q ← verify_chain_from f i p es; verify_chain_from f (i + length es) q es').
Proof.
  revert i p; induction es as [|e es IH]; intros i p; simpl.
  - by rewrite Nat.add_0_r.
  - destruct (_ || _); [done|]. destruct (compute_hash e) as [h|]; simpl; [|done].
    destruct (negb _); [done|]. rewrite IH. by rewrite <- Nat.add_succ_comm.
Qed.

(** One link: what the loop checks of the event at position [i] after hash [p]. *)
Definition link_ok (f : bytes) (i : nat) (p : bytes) (e : HistoryEvent) : Prop :=
  ev_sequence e = N.of_nat i /\ ev_file_id e = f /\
  ev_previous_event_hash e = p /\ compute_hash e = Ok (ev_event_hash e).

Lemma verify_chain_from_cons f i p e es r :
  verify_chain_from f i p (e :: es) = Ok r <->
  link_ok f i p e /\ verify_chain_from f (S i) (ev_event_hash e) es = Ok r.
Proof.
  simpl. unfold link_ok. split.
  - intros E. destruct (_ || _) eqn:B; [done|]. bool_hyps. inv_ok.
    destruct (negb _) eqn:B'; [done|]. bool_hyps. naive_solver.
  - intros ((-> & -> & -> & ->) & E). rewrite !bool_decide_true by done. simpl.
    by rewrite bool_decide_true.
Qed.

Lemma verify_chain_snoc f es e r :
  verify_chain f (es ++ [e]) = Ok r <->
  exists p, verify_chain f es = Ok p /\ link_ok f (length es) p e /\ r = ev_event_hash e.
Proof.
  unfold verify_chain. rewrite verify_chain_from_app, bind_Ok. split.
  - intros (p & E & H). apply verify_chain_from_cons in H as [L H]. simpl in *.
    inv_ok. naive_solver.
  - intros (p & E & L & ->). exists p. split; [done|]. by apply verify_chain_from_cons.
Qed.

Lemma verify_chain_prefix f es es' r :
  verify_chain f (es ++ es') = Ok r -> exists p, verify_chain f es = Ok p.
Proof. unfold verify_chain. rewrite verify_chain_from_app, bind_Ok. naive_solver. Qed.

(** The root is the last event's hash, or the genesis hash. *)
Lemma verify_chain_root f es r :
  verify_chain f es = Ok r -> r = from_option ev_event_hash (genesis_hash f) (last es).
Proof.
  destruct es as [|es e] using rev_ind; intros E.
  - unfold verify_chain in E. simpl in E. by inv_ok.
  - apply verify_chain_snoc in E as (p & _ & _ & ->). by rewrite last_snoc.
Qed.

Lemma event_body_set_hash h e : event_body (set_event_hash h e) = event_body e.
Proof. done. Qed.

Lemma event_seal_link id i f p n e : event_seal id (N.of_nat i) f p n = Ok e -> link_ok f i p e.
Proof.
  unfold event_seal, link_ok. intros E. inv_ok. subst e. simpl. repeat split; done.
Qed.

Lemma event_seal_fields id i f p n e : event_seal id i f p n = Ok e ->
  ev_revision_id e = ne_revision_id n /\ ev_event_type e = ne_event_type n /\
  ev_outcome e = ne_outcome n /\ ev_details e = ne_details n /\
  ev_actor_label e = ne_actor_label n /\ ev_actor_identity e = ne_actor_identity n /\
  ev_occurred_at e = ne_occurred_at n /\ ev_event_id e = id.
Proof. unfold event_seal. intros E. inv_ok. by subst e. Qed.

Lemma event_seal_wf `{!CryptoLaws C} id i f p n e :
  fixed 16 id -> u64 i -> fixed 16 f -> fixed 32 p -> new_event_wf n ->
  event_seal id i f p n = Ok e -> event_wf e.
Proof.
  intros ? ? ? ? [] E. unfold event_seal in E. inv_ok. subst e.
  unfold compute_hash in *. inv_ok. subst. split; simpl; try done. apply sha256_length.
Qed.

Lemma genesis_hash_length `{!CryptoLaws C} f : fixed 32 (genesis_hash f).
Proof. apply sha256_length. Qed.

(** ** The root commits to the whole history *)

Definition chain_preimages (f : bytes) (es : list HistoryEvent) : list bytes :=
  (GENESIS_DOMAIN ++ f) ::
  omap (fun e => match event_body e with Ok b => Some (HISTORY_DOMAIN ++ b) | Err _ => None end) es.

Definition collision_between (ms ms' : list bytes) : Prop :=
  exists m m', m ∈ ms /\ m' ∈ ms' /\ m <> m' /\ sha256 m = sha256 m'.

Lemma collision_between_mono ms ms' ns ns' :
  ms ⊆ ns -> ms' ⊆ ns' -> collision_between ms ms' -> collision_between ns ns'.
Proof. intros H H' (m & m' & Hm & Hm' & Hne & E). exists m, m'. set_solver. Qed.

Lemma chain_preimages_app f es es' : chain_preimages f es ⊆ chain_preimages f (es ++ es').
Proof. unfold chain_preimages. rewrite omap_app. set_solver. Qed.

Lemma chain_preimages_in f es e b :
  e ∈ es -> event_body e = Ok b -> HISTORY_DOMAIN ++ b ∈ chain_preimages f es.
Proof. intros He Hb. right. apply list_elem_of_omap. exists e. by rewrite Hb. Qed.

Lemma domains_differ f b : GENESIS_DOMAIN ++ f <> HISTORY_DOMAIN ++ b.
Proof. done. Qed.

Lemma link_ok_body f i p e :
  link_ok f i p e -> exists b, event_body e = Ok b /\ ev_event_hash e = sha256 (HISTORY_DOMAIN ++ b).
Proof. intros (_ & _ & _ & E). unfold compute_hash in E. inv_ok. eauto. Qed.

(** A chain with an event and an empty one only share a root through a collision. *)
Lemma genesis_vs_event f f' es e i p :
  link_ok f i p e -> ev_event_hash e = genesis_hash f' ->
  collision_between (chain_preimages f (es ++ [e])) (chain_preimages f' []).
Proof.
  intros L H. apply link_ok_body in L as (b & Hb & Hh).
  exists (HISTORY_DOMAIN ++ b), (GENESIS_DOMAIN ++ f'). repeat split.
  - apply (chain_preimages_in _ _ e); [set_solver|done].
  - by left.
  - intros E. by apply (domains_differ f' b).
  - unfold genesis_hash in H. congruence.
Qed.

(** Two events with one hash are one event, unless their preimages collide. *)
Lemma event_hash_binds f f' es es' e e' i i' p p' :
  event_wf e -> event_wf e' -> link_ok f i p e -> link_ok f' i' p' e' ->
  ev_event_hash e = ev_event_hash e' -> e ∈ es -> e' ∈ es' ->
  e = e' \/ collision_between (chain_preimages f es) (chain_preimages f' es').
Proof.
  intros W W' L L' H He He'.
  apply link_ok_body in L as (b & Hb & Hh). apply link_ok_body in L' as (b' & Hb' & Hh').
  destruct (decide (b = b')) as [<-|Hne].
  - left. by eapply event_body_inj.
  - right. exists (HISTORY_DOMAIN ++ b), (HISTORY_DOMAIN ++ b'). repeat split.
    + by eapply chain_preimages_in.
    + by eapply chain_preimages_in.
    + intros E. by apply app_inv_head in E.
    + congruence.
Qed.
End chain_facts.

(** C35: a verified history root commits to the file id and to every event of
    the history. Two well-formed event lists that both verify to the same root
    are the same events of the same file, or the hash function collides on two
    of the byte strings these two histories actually hashed. *)
Theorem chain_root_binds `{C : Crypto} f f' es es' r :
  fixed 16 f -> fixed 16 f' -> Forall event_wf es -> Forall event_wf es' ->
  verify_chain f es = Ok r -> verify_chain f' es' = Ok r ->
  (f = f' /\ es = es') \/ collision_between (chain_preimages f es) (chain_preimages f' es').
Proof.
  intros Hf Hf' W. revert es' r. induction es as [|e es IH] using rev_ind; intros es' r W' V V'.
  - pose proof (verify_chain_root _ _ _ V) as R. simpl in R. subst r.
    destruct es' as [|e' es' _] using rev_ind.
    + pose proof (verify_chain_root _ _ _ V') as R'. simpl in R'.
      destruct (decide (f = f')) as [->|Hne]; [by left; split|right].
      exists (GENESIS_DOMAIN ++ f), (GENESIS_DOMAIN ++ f').
      repeat split; [by left..| |done]. intros E. by apply app_inv_head in E.
    + apply verify_chain_snoc in V' as (p & _ & L & R). right.
      destruct (genesis_vs_event f' f es' e' _ _ L (eq_sym R)) as (m & m' & ? & ? & ? & ?).
      exists m', m. naive_solver.
  - apply verify_chain_snoc in V as (p & V & L & ->). apply Forall_app in W as [W We].
    destruct es' as [|e' es' _] using rev_ind.
    + pose proof (verify_chain_root _ _ _ V') as R. simpl in R. right. by eapply genesis_vs_event.
    + apply verify_chain_snoc in V' as (p' & V' & L' & R). apply Forall_app in W' as [W' We'].
      rewrite Forall_singleton in We, We'.
      destruct (event_hash_binds f f' (es ++ [e]) (es' ++ [e']) e e' _ _ _ _ We We' L L' R)
        as [<-|HC]; [set_solver..| |by right].
      assert (p = p') as <- by (destruct L as (_&_&<-&_), L' as (_&_&<-&_); done).
      destruct (IH W es' p W' V V') as [[-> ->]|HC]; [by left|right].
      eapply collision_between_mono; [..|done]; apply chain_preimages_app.
Qed.

(** ** A one-event history *)

Module EventDemo.
Import Toy.
Definition file : bytes := replicate 16 x01.
Definition new : NewEvent :=
  {| ne_revision_id := None; ne_occurred_at := str "2026-10-02T14:32:05Z";
     ne_actor_identity := Some (replicate 16 x07); ne_actor_label := Some (str "M.S");
     ne_topology_generation := Some 3%N; ne_event_type := E.TrackingStarted;
     ne_outcome := Success; ne_details := [(str "action", str "start")] |}.
Definition chain : list HistoryEvent :=
  match event_seal (replicate 16 x02) 0 file (genesis_hash file) new with
  | Ok e => [e] | Err _ => [] end.
Definition root : bytes := from_option ev_event_hash (genesis_hash file) (last chain).

Lemma file_ok : fixed 16 file. Proof. vm_compute. reflexivity. Defined.
Lemma chain_wf : Forall event_wf chain.
Proof.
  vm_compute. constructor; [|constructor].
  split; repeat constructor; vm_compute; reflexivity.
Defined.
Lemma chain_ok : verify_chain file chain = Ok root.
Proof. vm_compute. reflexivity. Defined.
End EventDemo.

Lemma chain_root_binds_witness :
  verify_chain (C := Toy.toy) EventDemo.file EventDemo.chain = Ok EventDemo.root /\
  ((EventDemo.file = EventDemo.file /\ EventDemo.chain = EventDemo.chain) \/
   collision_between (C := Toy.toy) (chain_preimages EventDemo.file EventDemo.chain)
     (chain_preimages EventDemo.file EventDemo.chain)).
Proof.
  split; [exact EventDemo.chain_ok|].
  exact (chain_root_binds (C := Toy.toy) _ _ _ _ _ EventDemo.file_ok EventDemo.file_ok
    EventDemo.chain_wf EventDemo.chain_wf EventDemo.chain_ok EventDemo.chain_ok).
Defined.
