(* ===== verification/Authority.v ===== *)
(** * [src/src/authority.rs]: the dotted-label hierarchy

    A label such as [M.S.2] is a path of segments. The functions below work on
    the string, as the source does; the theorems say what they mean on the
    segments: ancestry is the prefix order, the common ancestor is its meet, and
    [relationship] is a complete, exclusive classification. *)

From S2P Require Import Prelude Text Crypto Envelope.

Definition segments (label : bytes) : list bytes := split dot label.

Definition is_well_formed (label : bytes) : bool :=
  negb (bool_decide (label = [])) && forallb (fun s => negb (bool_decide (s = []))) (segments label).

Definition segment_count (label : bytes) : nat :=
  if decide (label = []) then 0 else length (segments label).

Definition parent_node_label (label : bytes) : option bytes := fst <$> rsplit_once dot label.

Definition is_ancestor_or_self (authorizer subject : bytes) : bool :=
  if negb (is_well_formed authorizer) || negb (is_well_formed subject) then false
  else if decide (authorizer = subject) then true
  else match strip_prefix authorizer subject with
       | Some rest => starts_with dot rest
       | None => false
       end.

Definition are_siblings (a b : bytes) : bool :=
  negb (bool_decide (a = b)) && is_well_formed a && is_well_formed b
  && bool_decide (is_Some (parent_node_label a))
  && bool_decide (parent_node_label a = parent_node_label b).

Definition is_ancestor (ancestor descendant : bytes) : bool :=
  negb (bool_decide (ancestor = descendant)) && is_ancestor_or_self ancestor descendant.

Definition is_descendant (descendant ancestor : bytes) : bool := is_ancestor ancestor descendant.

Definition direct_parent (parent child : bytes) : bool :=
  bool_decide (parent_node_label child = Some parent).

Definition ancestry_distance (ancestor descendant : bytes) : option nat :=
  if is_well_formed ancestor && is_well_formed descendant && is_ancestor_or_self ancestor descendant
  then Some (segment_count descendant - segment_count ancestor) else None.

(** [zip] then [take_while] equal and non-empty. *)
Fixpoint common_segments (l r : list bytes) : list bytes :=
  match l, r with
  | x :: l, y :: r => if bool_decide (x = y) && negb (bool_decide (x = [])) then x :: common_segments l r else []
  | _, _ => []
  end.

Definition lowest_common_ancestor (left right : bytes) : option bytes :=
  if bool_decide (left = []) || bool_decide (right = []) then None else
  let common := common_segments (segments left) (segments right) in
  if negb (bool_decide (common = [])) then Some (join dot common) else None.

Definition bridge_connects (end_a end_b actor scope : bytes) : bool :=
  let covers e := is_ancestor_or_self e actor in
  let on_scope_line e := is_ancestor_or_self e scope || is_ancestor_or_self scope e in
  negb (bool_decide (end_a = end_b))
  && ((covers end_a && on_scope_line end_b) || (covers end_b && on_scope_line end_a)).

Inductive RevisionAuthority :=
| ScopeOwner
| Descendant (ancestor : bytes) (depth : nat)
| Ancestor (depth : nat)
| CrossBranch (common_ancestor : option bytes)
| Unrelated.

Definition relationship (scope_root actor : bytes) : RevisionAuthority :=
  if negb (is_well_formed scope_root) || negb (is_well_formed actor) then Unrelated
  else if decide (scope_root = actor) then ScopeOwner
  else match ancestry_distance scope_root actor with
       | Some depth => Descendant scope_root depth
       | None =>
           match ancestry_distance actor scope_root with
           | Some depth => Ancestor depth
           | None => CrossBranch (lowest_common_ancestor scope_root actor)
           end
       end.

Definition restructure_countersigner (authorizer_label : bytes) : option bytes :=
  parent_node_label authorizer_label.

Definition is_routine_employee_reissue (authorizer_label subject_label : bytes) : bool :=
  direct_parent authorizer_label subject_label && (3 <=? segment_count subject_label).

Definition UNLOCK_DOMAIN : bytes := str "KQ-UNLOCK-APPROVAL-v1".

(** [i64::to_be_bytes]: two's complement. *)
Definition i64_be (v : Z) : bytes := be_bytes 8 (Z.to_N (v mod 18446744073709551616)).

Definition unlock_approval_preimage `{Crypto} (file_id key_id : Z)
    (leaf_label countersigner_label : bytes) (device_ids : list bytes) : result bytes :=
  leaf ← hash_len_prefixed leaf_label;
  by_ ← hash_len_prefixed countersigner_label;
  count ← try_u16 (length device_ids);
  Ok (sha256 (UNLOCK_DOMAIN ++ i64_be file_id ++ i64_be key_id ++ leaf ++ by_
              ++ be_bytes 2 count ++ mjoin device_ids)).

(** ** Labels as paths *)

Lemma split_app c p l : split c (p ++ c :: l) = split c p ++ split c l.
Proof.
  induction p as [|b p IH]; simpl; [by rewrite decide_True|].
  case_decide; [by rewrite IH|]. rewrite IH. pose proof (split_ne c p).
  by destruct (split c p).
Qed.

Lemma join_app c ps qs : ps <> [] -> qs <> [] -> join c (ps ++ qs) = join c ps ++ c :: join c qs.
Proof.
  intros Hp Hq. induction ps as [|p ps IH]; [done|]. destruct ps as [|p' ps].
  - cbn [app]. by rewrite join_cons.
  - change ((p :: p' :: ps) ++ qs) with (p :: ((p' :: ps) ++ qs)).
    rewrite !join_cons by done. rewrite IH by done. by rewrite <- app_assoc.
Qed.

Lemma is_well_formed_spec l : is_well_formed l = true <-> l <> [] /\ Forall (fun s => s <> []) (segments l).
Proof.
  unfold is_well_formed. rewrite andb_true_iff, negb_true_iff, bool_decide_eq_false.
  f_equiv. rewrite forallb_forall, Forall_forall. setoid_rewrite list_elem_of_In.
  setoid_rewrite negb_true_iff. setoid_rewrite bool_decide_eq_false. done.
Qed.

Lemma segments_ne l : segments l <> [].
Proof. apply split_ne. Qed.

Lemma segments_app a l : segments (a ++ dot :: l) = segments a ++ segments l.
Proof. apply split_app. Qed.

Lemma segments_single s : dot ∉ s -> segments s = [s].
Proof. apply split_no_sep_single. Qed.

Lemma segments_inj l l' : segments l = segments l' -> l = l'.
Proof. apply split_inj. Qed.

Lemma segments_join ps : ps <> [] -> Forall (fun s => dot ∉ s) ps -> segments (join dot ps) = ps.
Proof. apply split_join. Qed.

Lemma segments_no_dot l : Forall (fun s => dot ∉ s) (segments l).
Proof. apply Forall_forall. intros s. apply split_no_sep. Qed.

(** A well-formed label is the join of a non-empty list of non-empty segments. *)
Lemma well_formed_join ps :
  ps <> [] -> Forall (fun s => dot ∉ s /\ s <> []) ps -> is_well_formed (join dot ps) = true.
Proof.
  intros Hne HF. apply Forall_and in HF as [Hd Hs]. apply is_well_formed_spec.
  rewrite segments_join by done. split; [|done]. intros E.
  destruct ps as [|p [|q ps]]; [done|..]; simpl in E; inversion Hs; subst; [done|].
  by destruct p.
Qed.

Lemma segment_count_wf l : is_well_formed l = true -> segment_count l = length (segments l).
Proof. intros [H _]%is_well_formed_spec. unfold segment_count. by rewrite decide_False. Qed.

(** ** Ancestry is the prefix order on segments *)

Lemma strip_dot_prefix a b :
  (exists rest, strip_prefix a b = Some rest /\ starts_with dot rest = true) <->
  exists ss, ss <> [] /\ segments b = segments a ++ ss.
Proof.
  split.
  - intros (rest & E%strip_prefix_Some & H). subst b. destruct rest as [|d rest]; [done|].
    simpl in H. apply bool_decide_eq_true in H as ->. exists (segments rest).
    split; [apply segments_ne|]. apply split_app.
  - intros (ss & Hne & E). assert (b = a ++ dot :: join dot ss) as ->.
    { apply segments_inj. rewrite E, segments_app. f_equal.
      symmetry. apply segments_join; [done|].
      pose proof (segments_no_dot b) as H. rewrite E in H. by apply Forall_app in H as [_ H]. }
    exists (dot :: join dot ss). split; [by apply strip_prefix_Some|]. by apply bool_decide_eq_true.
Qed.

Lemma is_ancestor_or_self_spec a b :
  is_ancestor_or_self a b = true <->
  is_well_formed a = true /\ is_well_formed b = true /\ segments a `prefix_of` segments b.
Proof.
  unfold is_ancestor_or_self.
  destruct (is_well_formed a) eqn:Wa, (is_well_formed b) eqn:Wb; cbn [negb orb]; try naive_solver.
  case_decide as E; [subst; split; [by repeat split|done]|].
  assert (segments a `prefix_of` segments b <-> exists ss, ss <> [] /\ segments b = segments a ++ ss) as ->.
  { split; [|intros (ss & _ & ->); by eexists]. intros [ss Hs]. exists ss. split; [|done].
    intros ->. apply E. rewrite app_nil_r in Hs. by apply segments_inj. }
  rewrite <- strip_dot_prefix. destruct (strip_prefix a b); naive_solver.
Qed.

Lemma ancestor_or_self_refl a : is_well_formed a = true -> is_ancestor_or_self a a = true.
Proof. intros. by apply is_ancestor_or_self_spec. Qed.

Lemma ancestor_or_self_trans a b c :
  is_ancestor_or_self a b = true -> is_ancestor_or_self b c = true -> is_ancestor_or_self a c = true.
Proof.
  rewrite !is_ancestor_or_self_spec. intros (? & ? & P) (? & ? & Q). repeat split; try done.
  by etrans.
Qed.

Lemma ancestor_or_self_antisym a b :
  is_ancestor_or_self a b = true -> is_ancestor_or_self b a = true -> a = b.
Proof.
  rewrite !is_ancestor_or_self_spec. intros (_ & _ & P) (_ & _ & Q).
  apply segments_inj. by apply (anti_symm prefix).
Qed.

Lemma ancestor_is_well_formed a b :
  is_ancestor_or_self a b = true -> is_well_formed a = true /\ is_well_formed b = true.
Proof. rewrite is_ancestor_or_self_spec. tauto. Qed.

(** ** The parent step *)

Lemma parent_node_label_Some l p :
  parent_node_label l = Some p <-> exists s, segments l = segments p ++ [s].
Proof.
  unfold parent_node_label. rewrite fmap_Some. split.
  - intros ([p' s] & E & ->). apply rsplit_once_Some in E as [-> Hs]. exists s. simpl.
    by rewrite segments_app, (segments_single s).
  - intros (s & E). exists (p, s). split; [|done]. apply rsplit_once_Some.
    assert (dot ∉ s) as Hs.
    { pose proof (segments_no_dot l) as H. rewrite E in H. apply Forall_app in H as [_ H].
      by rewrite Forall_singleton in H. }
    split; [|done]. apply segments_inj. by rewrite E, segments_app, (segments_single s).
Qed.

Lemma direct_parent_distance p c :
  is_well_formed c = true -> direct_parent p c = true -> ancestry_distance p c = Some 1.
Proof.
  unfold direct_parent. intros Wc H. bool_hyps. apply parent_node_label_Some in H as (s & E).
  assert (is_well_formed p = true) as Wp.
  { apply is_well_formed_spec. apply is_well_formed_spec in Wc as [Hc HF]. rewrite E in HF.
    apply Forall_app in HF as [HF _]. split; [|done]. intros ->. by inversion HF. }
  unfold ancestry_distance. rewrite Wp, Wc. cbn [andb].
  assert (is_ancestor_or_self p c = true) as ->.
  { apply is_ancestor_or_self_spec. repeat split; [done..|]. rewrite E. by exists [s]. }
  rewrite !segment_count_wf, E, length_app by done. simpl. f_equal. lia.
Qed.

(** ** Common ancestors *)

Lemma common_segments_prefix l r :
  common_segments l r `prefix_of` l /\ common_segments l r `prefix_of` r /\
  Forall (fun s => s <> []) (common_segments l r).
Proof.
  revert r; induction l as [|x l IH]; intros [|y r]; simpl;
    try (repeat split; [apply prefix_nil..|constructor]).
  destruct (_ && _) eqn:B; [|repeat split; [apply prefix_nil..|constructor]]. bool_hyps. subst.
  destruct (IH r) as (? & ? & ?). repeat split; [by apply prefix_cons..|by constructor].
Qed.

Lemma common_segments_greatest p l r :
  p `prefix_of` l -> p `prefix_of` r -> Forall (fun s => s <> []) p -> p `prefix_of` common_segments l r.
Proof.
  revert l r; induction p as [|x p IH]; intros l r Hl Hr HF; [apply prefix_nil|].
  destruct l as [|y l]; [by apply prefix_nil_inv in Hl|].
  destruct r as [|z r]; [by apply prefix_nil_inv in Hr|].
  pose proof (prefix_cons_inv_1 _ _ _ _ Hl) as ->. pose proof (prefix_cons_inv_1 _ _ _ _ Hr) as ->.
  inversion HF; subst. simpl. rewrite bool_decide_true by done. rewrite bool_decide_false by done.
  apply prefix_cons, IH; [by eapply prefix_cons_inv_2..|done].
Qed.

Lemma lca_common c l r :
  is_well_formed l = true -> is_well_formed r = true -> lowest_common_ancestor l r = Some c ->
  segments c = common_segments (segments l) (segments r) /\ is_well_formed c = true.
Proof.
  intros Wl Wr. unfold lowest_common_ancestor. destruct (_ || _); [done|].
  destruct (negb _) eqn:B; [|done]. bool_hyps. intros [= <-].
  destruct (common_segments_prefix (segments l) (segments r)) as ([k Hk] & _ & HF).
  pose proof (segments_no_dot l) as Hd. rewrite Hk in Hd. apply Forall_app in Hd as [Hd _].
  split; [by apply segments_join|]. apply well_formed_join; [done|]. apply Forall_and. by split.
Qed.

Lemma lca_None l r :
  is_well_formed l = true -> is_well_formed r = true -> lowest_common_ancestor l r = None ->
  common_segments (segments l) (segments r) = [].
Proof.
  intros [Hl _]%is_well_formed_spec [Hr _]%is_well_formed_spec. unfold lowest_common_ancestor.
  rewrite !bool_decide_false by done. cbn [orb]. destruct (negb _) eqn:B; [done|]. by bool_hyps.
Qed.

(** [lowest_common_ancestor] is the meet of the hierarchy. On well-formed
    labels the label it returns is an ancestor-or-self of both arguments and
    every common ancestor is an ancestor-or-self of it; it returns nothing
    exactly when the two labels have no common ancestor. *)
Theorem lowest_common_ancestor_meet left right :
  is_well_formed left = true -> is_well_formed right = true ->
  match lowest_common_ancestor left right with
  | Some c =>
      is_ancestor_or_self c left = true /\ is_ancestor_or_self c right = true /\
      forall d, is_ancestor_or_self d left = true -> is_ancestor_or_self d right = true ->
                is_ancestor_or_self d c = true
  | None => forall d, is_ancestor_or_self d left && is_ancestor_or_self d right = false
  end.
Proof.
  intros Wl Wr. destruct (lowest_common_ancestor left right) as [c|] eqn:E.
  - apply lca_common in E as [Hs Wc]; [|done..].
    destruct (common_segments_prefix (segments left) (segments right)) as (Pl & Pr & _).
    rewrite <- Hs in Pl, Pr. setoid_rewrite is_ancestor_or_self_spec.
    repeat split; try naive_solver.
    rewrite Hs. apply common_segments_greatest; [naive_solver..|].
    match goal with H : is_well_formed d = true /\ _ |- _ => destruct H as [Wd _] end.
    by apply is_well_formed_spec in Wd as [_ ?].
  - apply lca_None in E; [|done..]. intros d. apply not_true_iff_false. intros H. bool_hyps.
    apply is_ancestor_or_self_spec in H as (Wd & _ & Pl).
    apply is_ancestor_or_self_spec in H0 as (_ & _ & Pr).
    apply is_well_formed_spec in Wd as [_ HF].
    pose proof (common_segments_greatest _ _ _ Pl Pr HF) as P. rewrite E in P.
    apply prefix_nil_inv in P. by apply segments_ne in P.
Qed.

Lemma lowest_common_ancestor_meet_witness :
  is_well_formed (str "M.S.2") = true /\ is_well_formed (str "M.S.3.1") = true /\
  lowest_common_ancestor (str "M.S.2") (str "M.S.3.1") = Some (str "M.S") /\
  is_ancestor_or_self (str "M.S") (str "M.S.2") = true.
Proof.
  split; [vm_compute; reflexivity|]. split; [vm_compute; reflexivity|]. split; [vm_compute; reflexivity|].
  exact (proj1 (lowest_common_ancestor_meet (str "M.S.2") (str "M.S.3.1") eq_refl eq_refl)).
Defined.

(** [relationship] classifies every pair of labels. The owner is the
    scope label itself; a descendant (ancestor) sits strictly below (above) it
    by exactly [depth] segments; a cross-branch label is well-formed, comparable
    in neither direction, and carries the common ancestor; everything else, and
    only that, is a malformed label. *)
Theorem relationship_classifies scope actor :
  match relationship scope actor with
  | ScopeOwner => is_well_formed scope = true /\ scope = actor
  | Descendant anc depth =>
      anc = scope /\ is_ancestor scope actor = true /\
      length (segments actor) = length (segments scope) + depth /\ 0 < depth
  | Ancestor depth =>
      is_ancestor actor scope = true /\
      length (segments scope) = length (segments actor) + depth /\ 0 < depth
  | CrossBranch c =>
      is_well_formed scope = true /\ is_well_formed actor = true /\
      is_ancestor_or_self scope actor = false /\ is_ancestor_or_self actor scope = false /\
      c = lowest_common_ancestor scope actor
  | Unrelated => is_well_formed scope && is_well_formed actor = false
  end.
Proof.
  assert (Hdist : forall a b, a <> b -> is_ancestor_or_self a b = true ->
    length (segments b) = length (segments a) + (segment_count b - segment_count a) /\
    0 < segment_count b - segment_count a).
  { intros a b Hne H. apply is_ancestor_or_self_spec in H as (Wa & Wb & [k Hk]).
    rewrite !segment_count_wf, Hk, length_app by done.
    destruct k as [|s k]; [|simpl; lia]. rewrite app_nil_r in Hk. by apply segments_inj in Hk. }
  unfold relationship, ancestry_distance, is_ancestor.
  destruct (is_well_formed scope) eqn:Ws, (is_well_formed actor) eqn:Wa; cbn [negb orb andb]; try done.
  case_decide as Hne; [done|].
  destruct (is_ancestor_or_self scope actor) eqn:A1; cbn [negb orb andb].
  - rewrite bool_decide_false by done. split; [done|]. split; [done|]. by apply Hdist.
  - destruct (is_ancestor_or_self actor scope) eqn:A2; [|by repeat split].
    rewrite bool_decide_false by done. split; [done|]. by apply Hdist.
Qed.
