(* ===== verification/Revision.v ===== *)
(** * [src/src/file_history/revision.rs]: immutable revisions

    Revision records, the generated label and timestamp rules, the canonical
    body that a revision id hashes, and the stored form with its payload. The
    graph over revisions is in [RevisionGraph]. *)

From S2P Require Import Prelude Text Crypto Envelope HistoryCodec.

(** ** Characters

    [char::is_alphanumeric] and [char::is_whitespace] are written out on ASCII;
    beyond ASCII they are the Unicode tables, which are a parameter. *)

Class Unicode := {
  unicode_alphanumeric : bytes -> bool;
  unicode_whitespace : bytes -> bool }.

Definition ascii_alphanumeric (b : byte) : bool :=
  in_range 48 57 b || in_range 65 90 b || in_range 97 122 b.
Definition ascii_whitespace (b : byte) : bool := in_range 9 13 b || bool_decide (b = x20).

Section characters.
Context `{U : Unicode}.

Definition is_alphanumeric (c : bytes) : bool :=
  match c with
  | [b] => if is_ascii b then ascii_alphanumeric b else unicode_alphanumeric c
  | _ => unicode_alphanumeric c
  end.
Definition is_whitespace (c : bytes) : bool :=
  match c with
  | [b] => if is_ascii b then ascii_whitespace b else unicode_whitespace c
  | _ => unicode_whitespace c
  end.
End characters.

(** ** Data *)

Record NewRevision := {
  nr_parent_revision_ids : list bytes;
  nr_user_label : option bytes;
  nr_author_identity : option bytes;
  nr_author_hcp_label : bytes;
  nr_created_at_utc : bytes;
  nr_topology_generation : N;
  nr_policy_hash : bytes }.

Record FileRevision := {
  rv_revision_id : bytes;
  rv_file_id : bytes;
  rv_parent_revision_ids : list bytes;
  rv_content_commitment : bytes;
  rv_generated_label : bytes;
  rv_user_label : option bytes;
  rv_author_identity : option bytes;
  rv_author_hcp_label : bytes;
  rv_created_at_utc : bytes;
  rv_topology_generation : N;
  rv_policy_hash : bytes }.

Record StoredRevision := { sr_revision : FileRevision; sr_payload : option bytes }.

#[global] Instance FileRevision_eq_dec : EqDecision FileRevision.
Proof. solve_decision. Defined.
#[global] Instance StoredRevision_eq_dec : EqDecision StoredRevision.
Proof. solve_decision. Defined.

Definition sr_id (s : StoredRevision) : bytes := rv_revision_id (sr_revision s).
Definition sr_parents (s : StoredRevision) : list bytes := rv_parent_revision_ids (sr_revision s).

Definition REVISION_ID_DOMAIN : bytes := str "KQ-FILE-REVISION-ID-v1".
Definition CONTENT_DOMAIN : bytes := str "KQ-FILE-CONTENT-v1".

(** ** Timestamps *)

(** [whole_seconds]: drop the fraction of a UTC instant. *)
Definition whole_seconds (instant : bytes) : bytes :=
  match find_byte dot instant, strip_suffix (str "Z") instant with
  | Some d, Some _ => take d instant ++ str "Z"
  | _, _ => instant
  end.

Definition digits (s : bytes) (n : nat) : bool := (length s =? n) && forallb is_digit s.

Definition leap (year : N) : bool :=
  (year mod 4 =? 0)%N && (negb (year mod 100 =? 0)%N || (year mod 400 =? 0)%N).

Definition days_in (year month : N) : N :=
  match month with
  | 1 | 3 | 5 | 7 | 8 | 10 | 12 => 31
  | 4 | 6 | 9 | 11 => 30
  | 2 => if leap year then 29 else 28
  | _ => 0
  end%N.

(** [compact_utc]: [2026-10-02T14:32:05.482Z] becomes [20261002T143205.482Z]. *)
Definition compact_utc (value : bytes) : result bytes :=
  '(date, time) ← ok_or (split_once x54 value) InvalidTrackedFile;
  time ← ok_or (strip_suffix (str "Z") time) InvalidTrackedFile;
  let '(clock, fraction) :=
    match split_once dot time with Some (c, f) => (c, Some f) | None => (time, None) end in
  match split hyphen date, split x3a clock with
  | [y; mo; d], [h; mi; s] =>
      let fraction_ok := match fraction with
        | None => true
        | Some f => negb (bool_decide (f = [])) && (length f <=? 9) && forallb is_digit f end in
      if negb (digits y 4 && digits mo 2 && digits d 2
               && digits h 2 && digits mi 2 && digits s 2 && fraction_ok)
      then Err InvalidTrackedFile else
      let year := parse_u32 y in let month := parse_u32 mo in let day := parse_u32 d in
      if (year =? 0)%N || (day =? 0)%N || (days_in year month <? day)%N
         || (23 <? parse_u32 h)%N || (59 <? parse_u32 mi)%N || (59 <? parse_u32 s)%N
      then Err InvalidTrackedFile
      else Ok (y ++ mo ++ d ++ [x54] ++ h ++ mi ++ s
               ++ match fraction with Some f => dot :: f | None => [] end ++ str "Z")
  | _, _ => Err InvalidTrackedFile
  end.

(** ** Labels *)

Section labels.
Context `{U : Unicode}.

(** One step of the loop over [stem.chars()]; a string is the list of its characters. *)
Definition normalize_step (out : list bytes) (c : bytes) : list bytes :=
  if is_alphanumeric c then out ++ [c]
  else if (is_whitespace c || bool_decide (c = [hyphen]) || bool_decide (c = [x5f]))
          && negb (bool_decide (last out = Some [hyphen]))
  then out ++ [[hyphen]] else out.

Fixpoint trim_start (cs : list bytes) : list bytes :=
  match cs with
  | c :: cs' => if decide (c = [hyphen]) then trim_start cs' else cs
  | [] => []
  end.
(** [trim_matches('-')] *)
Definition trim_hyphens (cs : list bytes) : list bytes := reverse (trim_start (reverse (trim_start cs))).

(** The stem: everything before the last dot, unless that dot is the first byte. *)
Definition name_stem (name : bytes) : bytes :=
  match rsplit_once dot name with
  | Some (stem, _) => if decide (stem = []) then name else stem
  | None => name
  end.

Definition normalize_name (name : bytes) : bytes :=
  let out := foldl normalize_step [] (chars_of (name_stem name)) in
  let trimmed := trim_hyphens out in
  if decide (trimmed = []) then str "file" else mjoin trimmed.

Definition generated_label (logical_name created_at_utc hcp_label : bytes) : result bytes :=
  if decide (hcp_label = []) then Err InvalidTrackedFile else
  stamp ← compact_utc created_at_utc;
  Ok (str "R" ++ normalize_name logical_name ++ [hyphen] ++ stamp ++ [hyphen] ++ hcp_label).

Definition generated_label_is_consistent (r : FileRevision) : bool :=
  match compact_utc (rv_created_at_utc r) with
  | Err _ => false
  | Ok stamp =>
      let suffix := [hyphen] ++ stamp ++ [hyphen] ++ rv_author_hcp_label r in
      negb (bool_decide (rv_author_hcp_label r = []))
      && match rest ← strip_prefix (str "R") (rv_generated_label r); strip_suffix suffix rest with
         | Some name => negb (bool_decide (name = [])) && bool_decide (normalize_name name = name)
         | None => false
         end
  end.
End labels.

(** ** Encoding *)

(** [FileRevision::body]: every field except the id. *)
Definition revision_body (r : FileRevision) : result bytes :=
  parents ← try_u16 (length (rv_parent_revision_ids r));
  generated ← push_str (rv_generated_label r);
  user ← push_opt_str (rv_user_label r);
  author ← push_str (rv_author_hcp_label r);
  created ← push_str (rv_created_at_utc r);
  Ok (rv_file_id r ++ be_bytes 2 parents ++ mjoin (rv_parent_revision_ids r)
      ++ rv_content_commitment r ++ generated ++ user
      ++ push_opt_array (rv_author_identity r) ++ author ++ created
      ++ push_u64 (rv_topology_generation r) ++ rv_policy_hash r).

Definition revision_encode (r : FileRevision) : result bytes :=
  b ← revision_body r; Ok (b ++ rv_revision_id r).

Definition revision_decode : parser FileRevision :=
  file_id ← take_fixed 16;
  parents ← take_fixed 2;
  parent_revision_ids ← repeat_parser (N.to_nat (of_be parents)) (take_fixed 32);
  content_commitment ← take_fixed 32;
  generated_label ← take_str;
  user_label ← take_opt_str;
  author_identity ← take_opt_array 16;
  author_hcp_label ← take_str;
  created_at_utc ← take_str;
  topology_generation ← take_u64;
  policy_hash ← take_fixed 32;
  revision_id ← take_fixed 32;
  mret {| rv_revision_id := revision_id; rv_file_id := file_id;
          rv_parent_revision_ids := parent_revision_ids;
          rv_content_commitment := content_commitment; rv_generated_label := generated_label;
          rv_user_label := user_label; rv_author_identity := author_identity;
          rv_author_hcp_label := author_hcp_label; rv_created_at_utc := created_at_utc;
          rv_topology_generation := topology_generation; rv_policy_hash := policy_hash |}.

(** [StoredRevision::encode] *)
Definition stored_encode (s : StoredRevision) : result bytes :=
  r ← revision_encode (sr_revision s);
  match sr_payload s with
  | Some payload => p ← push_len_prefixed_u32 payload; Ok (r ++ [x01] ++ p)
  | None => Ok (r ++ [x00])
  end.

(** [StoredRevision::decode]: before version 5 the payload is always present. *)
Definition stored_decode (version : N) : parser StoredRevision :=
  revision ← revision_decode;
  present ← (if (version <? 5)%N then mret true else
             flag ← take_fixed 1;
             match flag with
             | [x00] => mret false
             | [x01] => mret true
             | _ => fail InvalidTrackedFile
             end);
  payload ← (if (present : bool) then p ← bad take_len_prefixed_u32; mret (Some p) else mret None);
  mret {| sr_revision := revision; sr_payload := payload |}.

(** [StoredRevision::content] *)
Definition content (s : StoredRevision) : option bytes := sr_payload s.

Section hashing.
Context `{C : Crypto} `{U : Unicode}.

Definition content_commitment (file_id payload : bytes) : bytes :=
  sha256 (CONTENT_DOMAIN ++ file_id ++ payload).

Definition compute_id (r : FileRevision) : result bytes :=
  b ← revision_body r; Ok (sha256 (REVISION_ID_DOMAIN ++ b)).

Definition set_revision_id (id : bytes) (r : FileRevision) : FileRevision :=
  {| rv_revision_id := id; rv_file_id := rv_file_id r;
     rv_parent_revision_ids := rv_parent_revision_ids r;
     rv_content_commitment := rv_content_commitment r;
     rv_generated_label := rv_generated_label r; rv_user_label := rv_user_label r;
     rv_author_identity := rv_author_identity r; rv_author_hcp_label := rv_author_hcp_label r;
     rv_created_at_utc := rv_created_at_utc r;
     rv_topology_generation := rv_topology_generation r; rv_policy_hash := rv_policy_hash r |}.

(** [FileRevision::create] *)
Definition revision_create (file_id logical_name payload : bytes) (new : NewRevision) : result FileRevision :=
  generated ← generated_label logical_name (nr_created_at_utc new) (nr_author_hcp_label new);
  let revision :=
    {| rv_revision_id := replicate 32 x00; rv_file_id := file_id;
       rv_parent_revision_ids := nr_parent_revision_ids new;
       rv_content_commitment := content_commitment file_id payload;
       rv_generated_label := generated; rv_user_label := nr_user_label new;
       rv_author_identity := nr_author_identity new;
       rv_author_hcp_label := nr_author_hcp_label new;
       rv_created_at_utc := nr_created_at_utc new;
       rv_topology_generation := nr_topology_generation new;
       rv_policy_hash := nr_policy_hash new |} in
  id ← compute_id revision; Ok (set_revision_id id revision).
End hashing.

(** ** Name normalisation is idempotent *)

Section normalize.
Context `{U : Unicode}.

Fixpoint no_adjacent_hyphens (cs : list bytes) : Prop :=
  match cs with
  | a :: ((b :: _) as r) => ~ (a = [hyphen] /\ b = [hyphen]) /\ no_adjacent_hyphens r
  | _ => True
  end.

(** A character the normaliser keeps as it is. *)
Definition kept (c : bytes) : Prop :=
  (utf8_char c /\ c <> []) /\ (is_alphanumeric c = true \/ c = [hyphen]).

Lemma hyphen_not_alphanumeric : is_alphanumeric [hyphen] = false.
Proof. reflexivity. Qed.

Lemma kept_no_dot c : kept c -> dot ∉ c.
Proof.
  intros [[Hu _] Ha] Hd. assert (c = [dot]) as -> by (by apply utf8_char_ascii_inv).
  destruct Ha as [Ha|Ha]; done.
Qed.

Lemma kept_hyphen : kept [hyphen].
Proof. split; [by split|by right]. Qed.

Lemma no_adjacent_snoc cs c :
  no_adjacent_hyphens cs -> ~ (last cs = Some [hyphen] /\ c = [hyphen]) -> no_adjacent_hyphens (cs ++ [c]).
Proof.
  induction cs as [|a cs IH]; [done|]. destruct cs as [|b cs].
  - simpl. intros _ H. naive_solver.
  - intros [H1 H2] H. change (no_adjacent_hyphens (a :: ((b :: cs) ++ [c]))).
    split; [done|]. apply IH; [done|]. intros [? ?]. apply H. by rewrite last_cons_cons.
Qed.

Lemma no_adjacent_app l k : no_adjacent_hyphens (l ++ k) -> no_adjacent_hyphens l /\ no_adjacent_hyphens k.
Proof.
  induction l as [|a l IH]; [done|]. destruct l as [|b l]; simpl.
  - destruct k; naive_solver.
  - intros [? H]. destruct (IH H). naive_solver.
Qed.

Lemma normalize_step_good out c :
  utf8_char c /\ c <> [] -> Forall kept out /\ no_adjacent_hyphens out ->
  Forall kept (normalize_step out c) /\ no_adjacent_hyphens (normalize_step out c).
Proof.
  intros Hc [HF HA]. unfold normalize_step. destruct (is_alphanumeric c) eqn:A.
  - split; [apply Forall_app; split; [done|]; constructor; [|done]; by split; [|left]|].
    apply no_adjacent_snoc; [done|]. intros [_ ->]. done.
  - destruct (_ && _) eqn:B; [|done]. bool_hyps. split.
    + apply Forall_app; split; [done|]. constructor; [apply kept_hyphen|done].
    + apply no_adjacent_snoc; [done|]. naive_solver.
Qed.

Lemma normalize_fold_good cs out :
  Forall (fun c => utf8_char c /\ c <> []) cs -> Forall kept out /\ no_adjacent_hyphens out ->
  Forall kept (foldl normalize_step out cs) /\ no_adjacent_hyphens (foldl normalize_step out cs).
Proof.
  intros HF; revert out; induction HF as [|c cs Hc HF IH]; intros out G; [done|]. simpl.
  apply IH, normalize_step_good; done.
Qed.

(** Characters already in normal form pass through unchanged. *)
Lemma normalize_fold_id cs out :
  Forall kept cs -> no_adjacent_hyphens (out ++ cs) -> foldl normalize_step out cs = out ++ cs.
Proof.
  intros HF; revert out; induction HF as [|c cs [_ Hc] HF IH]; intros out HA; simpl; [by rewrite app_nil_r|].
  assert (normalize_step out c = out ++ [c]) as ->.
  { unfold normalize_step. destruct (is_alphanumeric c) eqn:A; [done|].
    destruct Hc as [Hc|Hc]; [congruence|]. subst c.
    rewrite (bool_decide_true ([hyphen] = [hyphen])) by done. rewrite orb_true_r. cbn [orb andb].
    rewrite bool_decide_false; [done|]. intros L.
    destruct out as [|a out _] using rev_ind; [done|]. rewrite last_snoc in L. injection L as ->.
    rewrite <- app_assoc in HA. apply no_adjacent_app in HA as [_ HA]. simpl in HA. naive_solver. }
  rewrite IH by (by rewrite <- app_assoc). by rewrite <- app_assoc.
Qed.

Lemma trim_start_suffix cs : exists k, cs = replicate k [hyphen] ++ trim_start cs.
Proof.
  induction cs as [|c cs [k IH]]; [by exists 0|]. simpl. case_decide as E; [|by exists 0].
  exists (S k). simpl. by rewrite <- IH, E.
Qed.

Lemma trim_start_head cs : head (trim_start cs) <> Some [hyphen].
Proof. induction cs as [|c cs IH]; [done|]. simpl. case_decide; [done|]. simpl. congruence. Qed.

Lemma trim_start_id cs : head cs <> Some [hyphen] -> trim_start cs = cs.
Proof. destruct cs; [done|]. simpl. intros H. case_decide; naive_solver. Qed.

Lemma trim_hyphens_infix cs : exists a b, cs = a ++ trim_hyphens cs ++ b.
Proof.
  unfold trim_hyphens. destruct (trim_start_suffix cs) as [k Hk].
  destruct (trim_start_suffix (reverse (trim_start cs))) as [k' Hk'].
  exists (replicate k [hyphen]), (reverse (replicate k' [hyphen])).
  rewrite <- reverse_app, <- Hk', reverse_involutive. done.
Qed.

Lemma trim_hyphens_idem cs : trim_hyphens (trim_hyphens cs) = trim_hyphens cs.
Proof.
  unfold trim_hyphens at 1. rewrite (trim_start_id (trim_hyphens cs)).
  - unfold trim_hyphens. rewrite reverse_involutive, (trim_start_id (trim_start (reverse _))); [done|].
    apply trim_start_head.
  - intros H. unfold trim_hyphens in H.
    destruct (trim_start_suffix (reverse (trim_start cs))) as [k Hk].
    apply (f_equal reverse) in Hk. rewrite reverse_involutive, reverse_app in Hk.
    apply (trim_start_head cs). rewrite Hk.
    destruct (reverse (trim_start (reverse (trim_start cs)))); done.
Qed.

Lemma chars_of_good l : Forall (fun c => utf8_char c /\ c <> []) (chars_of l).
Proof.
  unfold chars_of. destruct (chars l) as [cs|] eqn:E; simpl; [|done]. by apply chars_spec in E as [_ ?].
Qed.

Lemma normalize_trimmed_good name :
  let t := trim_hyphens (foldl normalize_step [] (chars_of (name_stem name))) in
  Forall kept t /\ no_adjacent_hyphens t.
Proof.
  destruct (normalize_fold_good (chars_of (name_stem name)) []) as [HF HA];
    [apply chars_of_good|done|].
  destruct (trim_hyphens_infix (foldl normalize_step [] (chars_of (name_stem name)))) as (a & b & E).
  rewrite E in HF, HA. apply Forall_app in HF as [_ HF]. apply Forall_app in HF as [HF _].
  apply no_adjacent_app in HA as [_ HA]. apply no_adjacent_app in HA as [HA _]. done.
Qed.

Lemma normalize_name_normal cs :
  Forall kept cs -> no_adjacent_hyphens cs -> trim_hyphens cs = cs -> cs <> [] ->
  normalize_name (mjoin cs) = mjoin cs.
Proof.
  intros HF HA HT Hne. unfold normalize_name. assert (name_stem (mjoin cs) = mjoin cs) as ->.
  { unfold name_stem. assert (rsplit_once dot (mjoin cs) = None) as ->; [|done].
    apply rsplit_once_None. rewrite list_elem_of_join. intros (c & Hd & Hc).
    rewrite Forall_forall in HF. by apply (kept_no_dot c); [apply HF|]. }
  assert (chars_of (mjoin cs) = cs) as ->.
  { unfold chars_of. rewrite chars_concat; [done|]. eapply Forall_impl; [done|]. by intros c []. }
  rewrite normalize_fold_id, app_nil_l, HT by done. by rewrite decide_False.
Qed.

Lemma normalize_name_idem name : normalize_name (normalize_name name) = normalize_name name.
Proof.
  unfold normalize_name at 2 3. cbv zeta. case_decide as E; [reflexivity|].
  destruct (normalize_trimmed_good name) as [HF HA].
  by apply normalize_name_normal; [| |apply trim_hyphens_idem|].
Qed.

Lemma mjoin_kept_ne cs : Forall kept cs -> cs <> [] -> mjoin cs <> [].
Proof.
  intros HF Hne. destruct HF as [|c cs [[_ Hc] _] _]; [done|]. destruct c; done.
Qed.

Lemma normalize_name_ne name : normalize_name name <> [].
Proof.
  unfold normalize_name. cbv zeta. case_decide; [done|]. apply mjoin_kept_ne; [|done].
  apply normalize_trimmed_good.
Qed.

Lemma normalize_name_utf8 name : is_utf8 (normalize_name name) = true.
Proof.
  unfold normalize_name. cbv zeta. case_decide; [reflexivity|]. apply is_utf8_mjoin.
  destruct (normalize_trimmed_good name) as [HF _]. eapply Forall_impl; [done|]. by intros c [].
Qed.
End normalize.

(** ** Well-formedness and codec laws *)

Record revision_wf (r : FileRevision) : Prop := {
  rwf_id : fixed 32 (rv_revision_id r);
  rwf_file : fixed 16 (rv_file_id r);
  rwf_parents : Forall (fixed 32) (rv_parent_revision_ids r);
  rwf_commitment : fixed 32 (rv_content_commitment r);
  rwf_generated : text (rv_generated_label r);
  rwf_user : opt text (rv_user_label r);
  rwf_author : opt (fixed 16) (rv_author_identity r);
  rwf_label : text (rv_author_hcp_label r);
  rwf_created : text (rv_created_at_utc r);
  rwf_generation : u64 (rv_topology_generation r);
  rwf_policy : fixed 32 (rv_policy_hash r) }.

Record new_revision_wf (n : NewRevision) : Prop := {
  nrwf_parents : Forall (fixed 32) (nr_parent_revision_ids n);
  nrwf_user : opt text (nr_user_label n);
  nrwf_author : opt (fixed 16) (nr_author_identity n);
  nrwf_label : text (nr_author_hcp_label n);
  nrwf_created : text (nr_created_at_utc n);
  nrwf_generation : u64 (nr_topology_generation n);
  nrwf_policy : fixed 32 (nr_policy_hash n) }.

Definition stored_wf (s : StoredRevision) : Prop := revision_wf (sr_revision s).

Lemma encode_all_Ok (l : list bytes) : encode_all Ok l = Ok (mjoin l).
Proof. induction l as [|b l IH]; simpl; [done|]. by rewrite IH. Qed.

Lemma rt_parents l rest :
  Forall (fixed 32) l -> repeat_parser (length l) (take_fixed 32) (mjoin l ++ rest) = Ok (l, rest).
Proof. intros H. by apply (codec_repeat_roundtrip (fixed_codec 32)); [|apply encode_all_Ok]. Qed.

Lemma revision_codec : codec_ok revision_wf revision_encode revision_decode.
Proof.
  split.
  - intros r b rest [] E. unfold revision_encode, revision_body in E. inv_ok; subst.
    unfold revision_decode. enc_dec. rewrite u16_count_back by done.
    erewrite parser_bind_eq by (by apply rt_parents). enc_dec. by destruct r.
  - intros data r rest E. unfold revision_decode in E. inv_parser. dec_enc. subst.
    match goal with H : repeat_parser _ _ _ = Ok _ |- _ =>
      apply (codec_repeat_canonical (fixed_codec 32)) in H; destruct H as (Hl & Hp & ? & Ep & ->) end.
    rewrite encode_all_Ok in Ep. apply Ok_inj in Ep; subst. dec_enc. split; [by split|].
    unfold revision_encode, revision_body; simpl.
    match goal with H : fixed 2 _ |- _ => destruct (u16_count_forth _ _ H Hl) as [Hc Hb] end.
    run_enc. rewrite Hb. close_enc.
Qed.

Lemma rt_revision r b rest :
  revision_wf r -> revision_encode r = Ok b -> revision_decode (b ++ rest) = Ok (r, rest).
Proof. apply (codec_roundtrip _ _ _ revision_codec). Qed.

Lemma stored_codec version : (5 <= version)%N -> codec_ok stored_wf stored_encode (stored_decode version).
Proof.
  intros Hv. assert ((version <? 5)%N = false) as HV by (apply N.ltb_ge; lia).
  unfold stored_decode. rewrite HV. split.
  - intros [r p] b rest W E. unfold stored_encode in E; simpl in *. inv_ok.
    destruct p as [p|]; inv_ok; subst; rewrite <- ?app_assoc;
      erewrite parser_bind_eq by (by apply rt_revision); [|done].
    change ([x01] ++ x0 ++ rest) with (x01 :: x0 ++ rest).
    erewrite parser_bind_eq by done. cbn [mret].
    erewrite parser_bind_eq; [reflexivity|].
    erewrite parser_bind_eq; [reflexivity|]. apply bad_Ok. by apply take_len_prefixed_u32_push.
  - intros data s rest E. inv_parser. subst.
    apply (codec_canonical _ _ _ revision_codec) in H as (W & b & Hb & ->).
    split; [done|]. unfold stored_encode; simpl. rewrite Hb. cbn [mbind result_bind].
    dec_enc. destruct v2 as [|f []]; try done; destruct f; inv_parser; subst; inv_parser; subst.
    + close_enc.
    + match goal with H : bad _ _ = Ok _ |- _ =>
        rewrite bad_Ok in H; apply take_len_prefixed_u32_canonical in H as (e & He & ->) end.
      rewrite He. cbn [mbind result_bind]. close_enc.
Qed.

(** ** What [revision_create] builds *)

Lemma digits_ascii s n : digits s n = true -> forallb is_ascii s = true.
Proof.
  unfold digits. intros H. bool_hyps. rewrite forallb_forall in *. intros b Hb.
  specialize (H0 b Hb). unfold is_digit, in_range, is_ascii in *. bool_hyps.
  apply N.ltb_lt. apply N.leb_le in H1. lia.
Qed.

Lemma forallb_digit_ascii s : forallb is_digit s = true -> forallb is_ascii s = true.
Proof. intros H. apply (digits_ascii s (length s)). unfold digits. by rewrite Nat.eqb_refl. Qed.

Lemma compact_utc_ascii v s : compact_utc v = Ok s -> forallb is_ascii s = true.
Proof.
  unfold compact_utc. intros E. apply bind_Ok in E as ([date time] & _ & E).
  apply bind_Ok in E as (time' & _ & E).
  destruct (match split_once dot time' with Some (c, f) => (c, Some f) | None => (time', None) end)
    as [clock fraction].
  destruct (split hyphen date) as [|y [|mo [|d []]]]; try done.
  destruct (split x3a clock) as [|h [|mi [|sec []]]]; try done.
  destruct (negb _) eqn:B; [done|]. destruct (_ || _) in E; [done|]. inv_ok; subst.
  bool_hyps. rewrite !forallb_app.
  repeat match goal with H : digits _ _ = true |- _ => apply digits_ascii in H; rewrite H end.
  cbn [andb]. destruct fraction as [f|]; [|done]. bool_hyps. cbn [forallb app].
  by rewrite forallb_digit_ascii.
Qed.

Lemma generated_label_consistent `{U : Unicode} r name :
  generated_label name (rv_created_at_utc r) (rv_author_hcp_label r) = Ok (rv_generated_label r) ->
  generated_label_is_consistent r = true.
Proof.
  unfold generated_label, generated_label_is_consistent. case_decide as Hl; [done|]. intros E.
  inv_ok. rewrite H, <- E. rewrite bool_decide_false by done. cbn [negb andb].
  change (strip_prefix (str "R") ?l) with (strip_prefix (str "R") l).
  rewrite (proj2 (strip_prefix_Some (str "R") _ _) eq_refl). cbn [mbind option_bind].
  rewrite (proj2 (strip_suffix_Some _ _ (normalize_name name)) eq_refl).
  rewrite bool_decide_false by apply normalize_name_ne. rewrite normalize_name_idem.
  by rewrite bool_decide_true.
Qed.

Section create.
Context `{C : Crypto} `{U : Unicode}.

Lemma revision_create_fields f name p n r :
  revision_create f name p n = Ok r ->
  rv_file_id r = f /\ rv_parent_revision_ids r = nr_parent_revision_ids n /\
  rv_content_commitment r = content_commitment f p /\
  rv_author_hcp_label r = nr_author_hcp_label n /\ rv_author_identity r = nr_author_identity n /\
  rv_topology_generation r = nr_topology_generation n /\ rv_policy_hash r = nr_policy_hash n.
Proof. unfold revision_create. intros E. inv_ok. by subst r. Qed.

Lemma revision_create_id f name p n r :
  revision_create f name p n = Ok r -> compute_id r = Ok (rv_revision_id r).
Proof. unfold revision_create. intros E. inv_ok. subst r. exact H0. Qed.

Lemma revision_create_label f name p n r :
  revision_create f name p n = Ok r -> generated_label_is_consistent r = true.
Proof.
  unfold revision_create. intros E. inv_ok. apply (generated_label_consistent r name). by subst r.
Qed.

Lemma revision_create_wf `{!CryptoLaws C} f name p n r :
  fixed 16 f -> new_revision_wf n -> revision_create f name p n = Ok r -> revision_wf r.
Proof.
  intros Hf [] E. unfold revision_create in E. inv_ok. subst r.
  unfold compute_id in H0. inv_ok. subst.
  split; simpl; try done; try apply sha256_length.
  unfold generated_label in H. case_decide; [done|]. inv_ok. subst x.
  apply is_utf8_app; [reflexivity|]. apply is_utf8_app; [apply normalize_name_utf8|].
  apply is_utf8_app; [reflexivity|]. apply is_utf8_app; [by eapply is_utf8_ascii, compact_utc_ascii|].
  by apply is_utf8_app.
Qed.
End create.
