(* ===== verification/RevisionGraph.v ===== *)
(** * [src/src/file_history/revision.rs], [RevisionGraph]: the revision DAG

    The queries over the stored revisions (lookup, heads, ancestry, nearest
    common ancestor, head comparison) as the loops of the source, with fuel
    that is proved to be enough, and their meaning as reachability over parent
    links. *)

From stdpp Require Export gmap.
From S2P Require Import Prelude Text Revision.

Implicit Types (g : list StoredRevision) (id : bytes).

Definition graph_get g id : option StoredRevision := snd <$> list_find (fun s => sr_id s = id) g.

Definition all_parents g : list bytes := s ← g; sr_parents s.

Definition heads g : list bytes := filter (fun id => id ∉ all_parents g) (map sr_id g).

Definition has_fork g : bool := 1 <? length (heads g).

(** [index_of]: a map collected in storage order, so a later duplicate id would win. *)
Definition index_of g : gmap bytes nat :=
  foldl (fun m p => <[p.2 := p.1]> m) ∅ (imap (fun i s => (i, sr_id s)) g).

Definition parents_at g (i : nat) : list bytes := from_option sr_parents [] (g !! i).

(** Enough iterations for a depth-first walk: every stored parent link is pushed at most once. *)
Definition walk_fuel g : nat := 2 + sum_list_with (fun s => length (sr_parents s)) g.

(** The [while let Some(id) = stack.pop()] loop of [is_ancestor_or_self];
    the top of the stack is the head of the list. [None]: out of fuel. *)
Fixpoint ancestor_loop (fuel : nat) g (index : gmap bytes nat) (ancestor : bytes)
    (seen : gset bytes) (stack : list bytes) : option bool :=
  match fuel with
  | O => None
  | S fuel =>
      match stack with
      | [] => Some false
      | id :: stack =>
          if decide (id = ancestor) then Some true
          else if decide (id ∈ seen) then ancestor_loop fuel g index ancestor seen stack
          else
            let stack := match index !! id with
                         | Some i => reverse (parents_at g i) ++ stack
                         | None => stack end in
            ancestor_loop fuel g index ancestor ({[id]} ∪ seen) stack
      end
  end.

Definition is_ancestor_or_self g (ancestor descendant : bytes) : bool :=
  let index := index_of g in
  if decide (index !! ancestor = None) then false
  else default false (ancestor_loop (walk_fuel g) g index ancestor ∅ [descendant]).

(** The loop of [mark_ancestors]. *)
Fixpoint mark_loop (fuel : nat) g (index : gmap bytes nat) (marked : list bool) (stack : list bytes)
    : option (list bool) :=
  match fuel with
  | O => None
  | S fuel =>
      match stack with
      | [] => Some marked
      | next :: stack =>
          match index !! next with
          | Some i =>
              if decide (marked !! i = Some true) then mark_loop fuel g index marked stack
              else mark_loop fuel g index (<[i := true]> marked) (reverse (parents_at g i) ++ stack)
          | None => mark_loop fuel g index marked stack
          end
      end
  end.

Definition mark_ancestors g (index : gmap bytes nat) id : list bool :=
  default [] (mark_loop (walk_fuel g) g index (replicate (length g) false) [id]).

Definition ancestor_set g id : gset bytes :=
  list_to_set (map (fun p => sr_id p.1)
    (filter (fun p => p.2 = true) (zip g (mark_ancestors g (index_of g) id)))).

Inductive MergeBase := Unique (id : bytes) | Ambiguous | NoBase.

(** [covered[p] = true] for every known parent. *)
Definition cover_parents (index : gmap bytes nat) (parents : list bytes) (covered : list bool) : list bool :=
  foldl (fun cov p => match index !! p with Some i => <[i := true]> cov | None => cov end) covered parents.

(** The reverse pass of [merge_base], from index [i - 1] down. *)
Fixpoint merge_base_loop g (index : gmap bytes nat) (from_a from_b : list bool) (i : nat)
    (covered : list bool) (nearest : list bytes) : list bytes :=
  match i with
  | O => nearest
  | S i =>
      let common := bool_decide (from_a !! i = Some true) && bool_decide (from_b !! i = Some true) in
      let cov := bool_decide (covered !! i = Some true) in
      let nearest := if common && negb cov then nearest ++ from_option (fun s => [sr_id s]) [] (g !! i) else nearest in
      let covered := if common || cov then cover_parents index (parents_at g i) covered else covered in
      merge_base_loop g index from_a from_b i covered nearest
  end.

Definition merge_base g (a b : bytes) : MergeBase :=
  let index := index_of g in
  match merge_base_loop g index (mark_ancestors g index a) (mark_ancestors g index b)
          (length g) (replicate (length g) false) [] with
  | [] => NoBase
  | [only] => Unique only
  | _ => Ambiguous
  end.

Inductive HeadRelation := Equal | IncomingAhead | IncomingBehind | Diverged.
#[global] Instance HeadRelation_eq_dec : EqDecision HeadRelation.
Proof. solve_decision. Defined.

Definition compare g (local incoming : bytes) : result HeadRelation :=
  if bool_decide (graph_get g local = None) || bool_decide (graph_get g incoming = None)
  then Err InvalidTrackedFile
  else Ok (if decide (local = incoming) then Equal
           else if is_ancestor_or_self g local incoming then IncomingAhead
           else if is_ancestor_or_self g incoming local then IncomingBehind
           else Diverged).

(** ** Lookup by id *)

Lemma graph_get_Some g id s : graph_get g id = Some s -> s ∈ g /\ sr_id s = id.
Proof.
  unfold graph_get. rewrite fmap_Some. intros ([i x] & E & ->).
  apply list_find_Some in E as (E & H & _). split; [by eapply list_elem_of_lookup_2|done].
Qed.

Lemma graph_get_None g id : graph_get g id = None <-> id ∉ map sr_id g.
Proof.
  unfold graph_get. rewrite fmap_None, list_find_None, list_elem_of_fmap, Forall_forall. naive_solver.
Qed.

Lemma graph_get_is_Some g id : is_Some (graph_get g id) <-> id ∈ map sr_id g.
Proof.
  rewrite <- not_eq_None_Some, graph_get_None. split; [apply dec_stable|tauto].
Qed.

Lemma graph_get_unique g s : NoDup (map sr_id g) -> s ∈ g -> graph_get g (sr_id s) = Some s.
Proof.
  intros HN Hs. destruct (graph_get g (sr_id s)) as [s'|] eqn:E.
  - apply graph_get_Some in E as [Hs' E].
    apply list_elem_of_lookup in Hs as [i Hi]. apply list_elem_of_lookup in Hs' as [j Hj].
    assert (i = j) as ->; [|congruence].
    eapply NoDup_lookup; [done|..]; [by rewrite list_lookup_fmap, Hi|by rewrite list_lookup_fmap, Hj, <- E].
  - apply graph_get_None in E. exfalso. apply E, list_elem_of_fmap. eauto.
Qed.

Lemma graph_get_app_l g g' id s : graph_get g id = Some s -> graph_get (g ++ g') id = Some s.
Proof.
  unfold graph_get. rewrite !fmap_Some. intros ([i x] & E & ->). exists (i, x). split; [|done].
  by apply list_find_app_l.
Qed.

(** ** The index *)

Lemma index_of_snoc g s : index_of (g ++ [s]) = <[sr_id s := length g]> (index_of g).
Proof. unfold index_of. rewrite imap_app, foldl_app. simpl. by rewrite Nat.add_0_r. Qed.

Lemma index_of_Some g id i : index_of g !! id = Some i -> exists s, g !! i = Some s /\ sr_id s = id.
Proof.
  induction g as [|s g IH] using rev_ind; [done|]. rewrite index_of_snoc, lookup_insert.
  case_decide as E.
  - intros [= <-]. exists s. split; [|done]. by rewrite lookup_app_r, Nat.sub_diag by lia.
  - intros (s' & H & <-)%IH. exists s'. split; [|done]. by apply lookup_app_l_Some.
Qed.

Lemma index_of_None g id : index_of g !! id = None <-> id ∉ map sr_id g.
Proof.
  induction g as [|s g IH] using rev_ind; [split; [intros _; apply not_elem_of_nil|done]|].
  rewrite index_of_snoc, lookup_insert, map_app, not_elem_of_app. case_decide as E.
  - split; [done|]. intros [_ H]. set_solver.
  - rewrite IH. set_solver.
Qed.

Lemma index_of_unique g i s : NoDup (map sr_id g) -> g !! i = Some s -> index_of g !! sr_id s = Some i.
Proof.
  intros HN Hi. destruct (index_of g !! sr_id s) as [j|] eqn:E.
  - apply index_of_Some in E as (s' & Hj & Eid). f_equal.
    eapply NoDup_lookup; [done|..]; [by rewrite list_lookup_fmap, Hj; simpl; rewrite Eid|by rewrite list_lookup_fmap, Hi].
  - apply index_of_None in E. exfalso. apply E, list_elem_of_fmap. exists s. split; [done|].
    by eapply list_elem_of_lookup_2.
Qed.

Lemma index_of_lt g id i : index_of g !! id = Some i -> i < length g.
Proof. intros (s & H & _)%index_of_Some. by eapply lookup_lt_Some. Qed.

(** ** Parent links as a relation on storage indices *)

Definition edge g (i j : nat) : Prop := exists p, p ∈ parents_at g i /\ index_of g !! p = Some j.

(** [i] is a stored revision reachable from revision [id] through parent links. *)
Definition reaches g id (i : nat) : Prop := exists k, index_of g !! id = Some k /\ rtc (edge g) k i.

Lemma reaches_index g id i : index_of g !! id = Some i -> reaches g id i.
Proof. intros. by exists i. Qed.

Lemma reaches_parent g id i p j :
  index_of g !! id = Some i -> p ∈ parents_at g i -> reaches g p j -> reaches g id j.
Proof.
  intros Hi Hp (k & Hk & Hr). exists i. split; [done|]. eapply rtc_l; [|done]. by exists p.
Qed.

(** A set of indices that contains [id]'s and is closed under parents contains all it reaches. *)
Lemma reaches_closed g id (P : nat -> Prop) i :
  (forall k, index_of g !! id = Some k -> P k) -> (forall k j, P k -> edge g k j -> P j) ->
  reaches g id i -> P i.
Proof. intros H0 HS (k & Hk & Hr). apply H0 in Hk. induction Hr; eauto. Qed.

(** ** [mark_ancestors] *)

Definition unmarked_links g (marked : list bool) : nat :=
  sum_list (zip_with (fun s (m : bool) => if m then 0 else length (sr_parents s)) g marked).

Lemma unmarked_links_insert g marked i s :
  g !! i = Some s -> marked !! i = Some false ->
  unmarked_links g marked = unmarked_links g (<[i := true]> marked) + length (sr_parents s).
Proof.
  unfold unmarked_links. revert g i; induction marked as [|m marked IH]; intros [|s' g] [|i] Hg Hm; simplify_eq/=.
  - lia.
  - rewrite (IH g i) by done. lia.
Qed.

Lemma unmarked_links_init g :
  unmarked_links g (replicate (length g) false) = sum_list_with (fun s => length (sr_parents s)) g.
Proof. unfold unmarked_links. induction g as [|s g IH]; simpl; [done|]. by rewrite IH. Qed.

Lemma parents_at_lookup g i s : g !! i = Some s -> parents_at g i = sr_parents s.
Proof. intros E. unfold parents_at. by rewrite E. Qed.

(** The state of the walk: every parent of a marked revision is marked or
    waits on the stack ([walk_closed]); what the finished walk will have
    marked is what is marked now or reachable from the stack ([walk_covers]). *)
Definition walk_closed g (marked : list bool) (stack : list bytes) : Prop :=
  forall i j, marked !! i = Some true -> edge g i j ->
    marked !! j = Some true \/ exists p, p ∈ stack /\ index_of g !! p = Some j.

Definition walk_covers g (marked : list bool) (stack : list bytes) (i : nat) : Prop :=
  marked !! i = Some true \/ exists p, p ∈ stack /\ reaches g p i.

Lemma walk_covers_edge g marked stack i j :
  walk_closed g marked stack -> walk_covers g marked stack i -> edge g i j -> walk_covers g marked stack j.
Proof.
  intros HC [Hi|(p & Hp & k & Hk & Hr)] He.
  - destruct (HC i j Hi He) as [?|(p & Hp & Hj)]; [by left|right]. exists p. eauto using reaches_index.
  - right. exists p. split; [done|]. exists k. split; [done|]. by eapply rtc_r.
Qed.

(** Popping an id that is unknown or already marked changes nothing. *)
Lemma walk_skip g marked next stack :
  (forall k, index_of g !! next = Some k -> marked !! k = Some true) ->
  walk_closed g marked (next :: stack) ->
  walk_closed g marked stack /\ forall i, walk_covers g marked stack i <-> walk_covers g marked (next :: stack) i.
Proof.
  intros Hn HC. assert (walk_closed g marked stack) as HC'.
  { intros i j Hi He. destruct (HC i j Hi He) as [?|(p & [->|Hp]%elem_of_cons & Hj)]; eauto. }
  split; [done|]. intros i. split.
  - intros [?|(p & ? & ?)]; [by left|right]. exists p. set_solver.
  - intros [?|(p & [->|Hp]%elem_of_cons & Hr)]; [by left| |by right; eauto].
    eapply (reaches_closed g next); [|intros; by eapply walk_covers_edge|done].
    intros k Hk. left. auto.
Qed.

Lemma lookup_mark (marked : list bool) k i :
  k < length marked -> <[k := true]> marked !! i = Some true <-> i = k \/ marked !! i = Some true.
Proof.
  intros HL. destruct (decide (i = k)) as [->|Hne].
  - rewrite list_lookup_insert_eq by done. tauto.
  - rewrite list_lookup_insert_ne by done. naive_solver.
Qed.

(** Popping a known id marks it and pushes its parents. *)
Lemma walk_push g marked next k stack :
  length marked = length g -> index_of g !! next = Some k -> walk_closed g marked (next :: stack) ->
  let marked' := <[k := true]> marked in let stack' := reverse (parents_at g k) ++ stack in
  walk_closed g marked' stack' /\
  forall i, walk_covers g marked' stack' i <-> walk_covers g marked (next :: stack) i.
Proof.
  intros HL Hk HC. assert (k < length marked) as Hlt by (rewrite HL; by eapply index_of_lt).
  simpl. unfold walk_closed, walk_covers. setoid_rewrite (lookup_mark _ _ _ Hlt).
  setoid_rewrite elem_of_app. setoid_rewrite elem_of_reverse. split.
  - intros i j [->|Hi] He.
    + destruct He as (p & Hp & Hj). right. eauto.
    + destruct (HC i j Hi He) as [?|(p & [->|Hp]%elem_of_cons & Hj)]; [by auto| |by right; eauto].
      left; left. congruence.
  - intros i. split.
    + intros [[->|Hi]|(p & [Hp|Hp] & Hr)].
      * right. exists next. split; [set_solver|]. by apply reaches_index.
      * by left.
      * right. exists next. split; [set_solver|]. by eapply reaches_parent.
      * right. exists p. set_solver.
    + intros [Hi|(p & [->|Hp]%elem_of_cons & Hr)]; [by auto| |by right; eauto].
      destruct Hr as (k' & Hk' & Hr). assert (k' = k) as -> by congruence.
      inversion Hr as [|? j ? (p & Hp & Hj) Hr']; subst; [by auto|].
      right. exists p. split; [by left|]. by exists j.
Qed.

(** The walk finishes within [1 + length stack + unmarked_links] steps and marks exactly [walk_covers]. *)
Lemma mark_loop_spec fuel g marked stack :
  length marked = length g ->
  1 + length stack + unmarked_links g marked <= fuel ->
  walk_closed g marked stack ->
  exists marked',
    mark_loop fuel g (index_of g) marked stack = Some marked' /\ length marked' = length g /\
    (forall i, marked' !! i = Some true <-> walk_covers g marked stack i).
Proof.
  revert marked stack; induction fuel as [|fuel IH]; intros marked stack HL HF HC; [lia|].
  destruct stack as [|next stack]; simpl.
  { exists marked. split; [done|]. split; [done|]. intros i. split; [by left|].
    intros [?|(p & Hp & _)]; [done|]. by apply not_elem_of_nil in Hp. }
  simpl in HF. destruct (index_of g !! next) as [k|] eqn:E; [case_decide as Hm|].
  2: { destruct (index_of_Some _ _ _ E) as (s & Hs & _).
       assert (marked !! k = Some false) as Hk.
       { destruct (lookup_lt_is_Some_2 marked k) as [[] ?]; [rewrite HL; by eapply index_of_lt|done|done]. }
       pose proof (unmarked_links_insert g marked k s Hs Hk) as Hu.
       destruct (walk_push g marked next k stack HL E HC) as [HC' Hcov].
       destruct (IH (<[k:=true]> marked) (reverse (parents_at g k) ++ stack)) as (m & Em & Lm & Sm); [..|done|].
       - by rewrite length_insert.
       - rewrite length_app, length_reverse, (parents_at_lookup _ _ _ Hs). lia.
       - exists m. setoid_rewrite Sm. auto. }
  all: destruct (walk_skip g marked next stack) as [HC' Hcov]; [congruence|done|];
    destruct (IH marked stack) as (m & Em & Lm & Sm); [done|lia|done|];
    exists m; setoid_rewrite Sm; auto.
Qed.

Lemma replicate_false_not_true n i : replicate n false !! i <> Some true.
Proof. intros [H _]%lookup_replicate. done. Qed.

Lemma mark_ancestors_spec g id :
  length (mark_ancestors g (index_of g) id) = length g /\
  forall i, mark_ancestors g (index_of g) id !! i = Some true <-> reaches g id i.
Proof.
  unfold mark_ancestors.
  destruct (mark_loop_spec (walk_fuel g) g (replicate (length g) false) [id]) as (m & -> & L & S).
  - by rewrite length_replicate.
  - rewrite unmarked_links_init. unfold walk_fuel. simpl. lia.
  - intros i j Hi. by apply replicate_false_not_true in Hi.
  - simpl. split; [done|]. intros i. rewrite S. unfold walk_covers. split.
    + intros [Hi|(p & Hp & Hr)]; [by apply replicate_false_not_true in Hi|]. set_solver.
    + intros Hr. right. exists id. set_solver.
Qed.

(** ** [is_ancestor_or_self] *)

(** One parent link, between ids: the parent need not be stored. *)
Definition id_link g (child parent : bytes) : Prop :=
  exists i, index_of g !! child = Some i /\ parent ∈ parents_at g i.

Definition unseen_links g (seen : gset bytes) : nat :=
  sum_list_with (fun s => if decide (sr_id s ∈ seen) then 0 else length (sr_parents s)) g.

Lemma unseen_links_mono g seen id : unseen_links g ({[id]} ∪ seen) <= unseen_links g seen.
Proof.
  unfold unseen_links. induction g as [|s g IH]; simpl; [lia|]. repeat case_decide; set_solver by lia.
Qed.

Lemma unseen_links_add g seen id i s :
  g !! i = Some s -> sr_id s = id -> id ∉ seen ->
  unseen_links g ({[id]} ∪ seen) + length (sr_parents s) <= unseen_links g seen.
Proof.
  intros Hi E Hn. revert i Hi; induction g as [|s' g IH]; intros [|i] Hi; simplify_eq/=.
  - pose proof (unseen_links_mono g seen (sr_id s)). unfold unseen_links in *. simpl.
    repeat case_decide; set_solver by lia.
  - specialize (IH i Hi). unfold unseen_links in *. simpl. repeat case_decide; set_solver by lia.
Qed.

Lemma unseen_links_init g : unseen_links g ∅ <= sum_list_with (fun s => length (sr_parents s)) g.
Proof.
  unfold unseen_links. induction g as [|s g IH]; [done|]. cbn [sum_list_with]. case_decide; lia.
Qed.

(** A walk that leaves the seen ids does so through the stack. *)
Lemma seen_exit g (seen : gset bytes) (stack : list bytes) x a :
  (forall c p, c ∈ seen -> id_link g c p -> p ∈ seen \/ p ∈ stack) ->
  a ∉ seen -> rtc (id_link g) x a -> x ∈ seen -> exists p, p ∈ stack /\ rtc (id_link g) p a.
Proof.
  intros HC Ha Hr. induction Hr as [x|x y z Hxy Hr IH]; intros Hx; [done|].
  destruct (HC x y Hx Hxy) as [Hy|Hy]; eauto.
Qed.

Lemma ancestor_loop_spec fuel g a seen stack :
  1 + length stack + unseen_links g seen <= fuel ->
  a ∉ seen -> (forall c p, c ∈ seen -> id_link g c p -> p ∈ seen \/ p ∈ stack) ->
  exists b, ancestor_loop fuel g (index_of g) a seen stack = Some b /\
    (b = true <-> exists p, p ∈ stack /\ rtc (id_link g) p a).
Proof.
  revert seen stack; induction fuel as [|fuel IH]; intros seen stack HF Ha HC; [lia|].
  destruct stack as [|id stack]; simpl.
  { exists false. split; [done|]. split; [done|]. intros (p & Hp & _). by apply not_elem_of_nil in Hp. }
  simpl in HF. case_decide as Ea.
  { exists true. split; [done|]. split; [|done]. intros _. exists id. subst. set_solver. }
  case_decide as Es.
  { destruct (IH seen stack) as (b & -> & Hb); [lia|done|set_solver|].
    exists b. split; [done|]. rewrite Hb. split; [set_solver|].
    intros (p & [->|Hp]%elem_of_cons & Hr); [|eauto]. eapply seen_exit; [|done..|done]. set_solver. }
  set (stack' := match index_of g !! id with Some i => _ | None => _ end).
  assert (forall p, p ∈ stack' <-> id_link g id p \/ p ∈ stack) as Hstack.
  { intros p. unfold stack', id_link. destruct (index_of g !! id) as [i|] eqn:Ei.
    - rewrite elem_of_app, elem_of_reverse. naive_solver.
    - naive_solver. }
  destruct (IH ({[id]} ∪ seen) stack') as (b & -> & Hb).
  - unfold stack'. pose proof (unseen_links_mono g seen id). destruct (index_of g !! id) as [i|] eqn:Ei; [|lia].
    apply index_of_Some in Ei as (s & Hs & Eid). rewrite length_app, length_reverse, (parents_at_lookup _ _ _ Hs).
    pose proof (unseen_links_add g seen id i s Hs Eid Es). lia.
  - set_solver.
  - set_solver.
  - exists b. split; [done|]. rewrite Hb. setoid_rewrite Hstack. split.
    + intros (p & [Hl|Hp] & Hr); [|set_solver]. exists id. split; [set_solver|]. by eapply rtc_l.
    + intros (p & [->|Hp]%elem_of_cons & Hr); [|eauto].
      inversion Hr as [|? y ? Hl Hr']; subst; [done|]. eauto.
Qed.

Lemma index_of_inj g x y i : index_of g !! x = Some i -> index_of g !! y = Some i -> x = y.
Proof. intros (s & Hs & <-)%index_of_Some (s' & Hs' & <-)%index_of_Some. congruence. Qed.

Lemma rtc_id_link_reaches g d a j :
  index_of g !! a = Some j -> rtc (id_link g) d a <-> reaches g d j.
Proof.
  intros Ha. split.
  - intros Hr. induction Hr as [x|x y z (i & Hi & Hy) Hr IH]; [by apply reaches_index|].
    eapply reaches_parent; eauto.
  - intros (k & Hk & Hr). revert d Hk. induction Hr as [j|k l j (p & Hp & Hl) Hr IH]; intros d Hk.
    + by rewrite (index_of_inj g d a j).
    + eapply rtc_l; [|by apply IH]. by exists k.
Qed.

Lemma is_ancestor_or_self_reaches g a d :
  is_ancestor_or_self g a d = true <-> exists j, index_of g !! a = Some j /\ reaches g d j.
Proof.
  unfold is_ancestor_or_self. case_decide as E; [naive_solver congruence|].
  destruct (index_of g !! a) as [j|] eqn:Ej; [|done].
  destruct (ancestor_loop_spec (walk_fuel g) g a ∅ [d]) as (b & -> & Hb).
  - pose proof (unseen_links_init g). unfold walk_fuel. simpl. lia.
  - set_solver.
  - set_solver.
  - simpl. rewrite Hb. split.
    + intros (p & ->%list_elem_of_singleton & Hr). exists j. split; [done|]. by eapply rtc_id_link_reaches.
    + intros (j' & [= <-] & Hr). exists d. split; [set_solver|]. by eapply rtc_id_link_reaches.
Qed.

Lemma reaches_lt g d j : reaches g d j -> exists x, index_of g !! x = Some j.
Proof.
  intros (k & Hk & Hr). revert d Hk. induction Hr as [j|k l j (p & _ & Hl) _ IH]; intros d Hk; eauto.
Qed.

Lemma ancestor_set_reaches g a d :
  a ∈ ancestor_set g d <-> exists j, index_of g !! a = Some j /\ reaches g d j.
Proof.
  unfold ancestor_set.
  destruct (mark_ancestors_spec g d) as [L S].
  rewrite elem_of_list_to_set, list_elem_of_fmap. setoid_rewrite list_elem_of_filter.
  setoid_rewrite list_elem_of_lookup. split.
  - intros ([s m] & -> & Hm & i & Hi). simpl in *. subst m.
    apply lookup_zip_Some in Hi as [Hs Hm]. simpl in *. apply S in Hm. exists i. split; [|done].
    destruct (reaches_lt _ _ _ Hm) as (x & Hx). destruct (index_of_Some _ _ _ Hx) as (s' & ? & ?). congruence.
  - intros (j & Hj & Hr). destruct (index_of_Some _ _ _ Hj) as (s & Hs & <-).
    exists (s, true). split; [done|]. split; [done|]. exists j. apply lookup_zip_Some. by split; [|apply S].
Qed.

(** The two ways the code answers "is [a] an ancestor of [d]" agree on
    every graph, cyclic or with unknown parents included: the early-exit walk
    of [is_ancestor_or_self] and the set that [ancestor_set] computes once. *)
Theorem ancestor_set_agrees g a d : a ∈ ancestor_set g d <-> is_ancestor_or_self g a d = true.
Proof. by rewrite is_ancestor_or_self_reaches, ancestor_set_reaches. Qed.

(** ** [merge_base] *)

(** Storage order lists every known parent before its child. *)
Definition parents_first g : Prop := forall i j, edge g i j -> j < i.

Definition common_at g a b (i : nat) : Prop := reaches g a i /\ reaches g b i.

(** A common ancestor no other common ancestor descends to. *)
Definition nearest_at g a b (i : nat) : Prop :=
  common_at g a b i /\ forall j, common_at g a b j -> ~ edge g j i.

Lemma common_at_edge g a b i j : common_at g a b i -> edge g i j -> common_at g a b j.
Proof.
  intros [(k & ? & ?) (k' & ? & ?)] He.
  split; [exists k|exists k']; (split; [done|by eapply rtc_r]).
Qed.

Lemma cover_parents_spec g parents covered i :
  length covered = length g ->
  length (cover_parents (index_of g) parents covered) = length g /\
  (cover_parents (index_of g) parents covered !! i = Some true <->
   covered !! i = Some true \/ exists p, p ∈ parents /\ index_of g !! p = Some i).
Proof.
  revert covered; induction parents as [|p ps IH]; intros covered HL; simpl.
  { split; [done|]. set_solver. }
  destruct (index_of g !! p) as [k|] eqn:E.
  - destruct (IH (<[k := true]> covered)) as [L ->]; [by rewrite length_insert|]. split; [done|].
    rewrite lookup_mark by (rewrite HL; by eapply index_of_lt). set_solver.
  - destruct (IH covered HL) as [L ->]. split; [done|]. set_solver.
Qed.

Section merge_base.
Context (g : list StoredRevision) (a b : bytes).
Hypothesis HP : parents_first g.

(** The reverse pass before index [k - 1]: [covered] holds the parents of the
    common ancestors at or above [k]. *)
Definition covered_from (k : nat) (covered : list bool) : Prop :=
  length covered = length g /\
  forall j, covered !! j = Some true <-> exists i, k <= i /\ common_at g a b i /\ edge g i j.

Definition common_bool (k : nat) : bool :=
  bool_decide (mark_ancestors g (index_of g) a !! k = Some true) &&
  bool_decide (mark_ancestors g (index_of g) b !! k = Some true).

Lemma common_bool_spec k : common_bool k = true <-> common_at g a b k.
Proof.
  unfold common_bool, common_at.
  by rewrite andb_true_iff, !bool_decide_eq_true, (proj2 (mark_ancestors_spec g a)), (proj2 (mark_ancestors_spec g b)).
Qed.

Lemma covered_at k covered :
  covered_from (S k) covered ->
  covered !! k = Some true <-> exists i, common_at g a b i /\ edge g i k.
Proof.
  intros [_ ->]. split; [naive_solver|]. intros (i & ? & He). exists i. split; [by apply HP in He|done].
Qed.

(** A covered revision is itself a common ancestor: the source's
    [common || covered[i]] is [common]. *)
Lemma covered_common k covered :
  covered_from (S k) covered ->
  common_bool k || bool_decide (covered !! k = Some true) = common_bool k.
Proof.
  intros HC. apply bool_eq_iff. rewrite orb_true_iff, bool_decide_eq_true, common_bool_spec, (covered_at _ _ HC).
  split; [|by left]. intros [?|(i & ? & ?)]; [done|]. by eapply common_at_edge.
Qed.

Lemma nearest_bool_spec k covered :
  covered_from (S k) covered ->
  common_bool k && negb (bool_decide (covered !! k = Some true)) = true <-> nearest_at g a b k.
Proof.
  intros HC. unfold nearest_at.
  rewrite andb_true_iff, negb_true_iff, bool_decide_eq_false, common_bool_spec, (covered_at _ _ HC). naive_solver.
Qed.

Lemma covered_from_step k covered :
  covered_from (S k) covered ->
  covered_from k (if common_bool k then cover_parents (index_of g) (parents_at g k) covered else covered).
Proof.
  intros [HL HC]. split.
  { destruct (common_bool k); [|done]. by apply (cover_parents_spec g _ covered 0). }
  intros j. transitivity (covered !! j = Some true \/ (common_at g a b k /\ edge g k j)).
  - rewrite <- common_bool_spec. destruct (common_bool k); [|naive_solver].
    destruct (cover_parents_spec g (parents_at g k) covered j HL) as [_ ->]. unfold edge. naive_solver.
  - rewrite HC. split.
    + intros [(i & ? & ?)|[Hc He]]; [exists i; split; [lia|done]|]. by exists k.
    + intros (i & Hi & Hc & He). destruct (decide (i = k)) as [->|]; [by right|].
      left. exists i. split; [lia|done].
Qed.

Lemma merge_base_loop_spec k covered nearest :
  k <= length g -> covered_from k covered ->
  exists found,
    merge_base_loop g (index_of g) (mark_ancestors g (index_of g) a) (mark_ancestors g (index_of g) b)
      k covered nearest = nearest ++ found /\
    (forall x, x ∈ found <-> exists i, i < k /\ nearest_at g a b i /\ index_of g !! x = Some i) /\
    NoDup found.
Proof.
  revert covered nearest; induction k as [|k IH]; intros covered nearest Hk HC.
  { exists []. rewrite app_nil_r. split; [done|]. split; [|constructor]. intros x.
    split; [set_solver|]. intros (i & ? & _). lia. }
  simpl. fold (common_bool k). rewrite (covered_common _ _ HC).
  match goal with |- context [merge_base_loop _ _ _ _ k ?c ?n] =>
    destruct (IH c n) as (found & -> & Hf & Hn); [lia|by apply covered_from_step|] end.
  destruct (lookup_lt_is_Some_2 g k) as [s Hs]; [lia|]. rewrite Hs. simpl.
  pose proof (nearest_bool_spec _ _ HC) as Hnear.
  destruct (common_bool k && _).
  - destruct Hnear as [Hnear _]. specialize (Hnear eq_refl).
    assert (index_of g !! sr_id s = Some k) as Ek.
    { destruct (reaches_lt g a k) as (x & Hx); [apply Hnear|].
      destruct (index_of_Some _ _ _ Hx) as (s' & ? & ?). congruence. }
    exists (sr_id s :: found). rewrite <- app_assoc. split; [done|]. split.
    + intros x. rewrite elem_of_cons, Hf. split.
      * intros [->|(i & ? & ? & ?)]; [by exists k; split; [lia|]|]. exists i. split; [lia|done].
      * intros (i & ? & ? & Hx). destruct (decide (i = k)) as [->|].
        -- left. by eapply index_of_inj.
        -- right. exists i. split; [lia|done].
    + constructor; [|done]. rewrite Hf. intros (i & Hi & _ & E). assert (i = k) by congruence. lia.
  - exists found. split; [done|]. split; [|done]. intros x. rewrite Hf. split.
    + intros (i & ? & ? & ?). exists i. split; [lia|done].
    + intros (i & ? & Hi & ?). exists i. split; [|done].
      assert (i <> k); [|lia]. intros ->. by apply Hnear in Hi.
Qed.

Lemma edge_lt i j : edge g i j -> i < length g.
Proof.
  intros (p & Hp & _). unfold parents_at in Hp. destruct (g !! i) eqn:E; [by eapply lookup_lt_Some|].
  by apply not_elem_of_nil in Hp.
Qed.

(** Every common ancestor is an ancestor of a nearest one. *)
Lemma nearest_above i : common_at g a b i -> exists n, nearest_at g a b n /\ rtc (edge g) n i.
Proof.
  remember (length g - i) as m eqn:Em. revert i Em. induction (lt_wf m) as [m _ IH]. intros i -> Hi.
  destruct (decide (Exists (fun j => common_bool j = true /\ i ∈ omap (index_of g !!.) (parents_at g j)) (seq 0 (length g))))
    as [(j & Hj%elem_of_seq & Hc & He)%Exists_exists|Hn].
  - apply common_bool_spec in Hc. assert (edge g j i) as He' by (by apply list_elem_of_omap in He).
    pose proof (HP _ _ He'). destruct (IH (length g - j)) with (i := j) as (n & Hn & Hr); [lia|done|done|].
    exists n. split; [done|]. by eapply rtc_r.
  - exists i. split; [|done]. split; [done|]. intros j Hj He. apply Hn, Exists_exists. exists j.
    pose proof (edge_lt _ _ He). split; [apply elem_of_seq; lia|].
    rewrite common_bool_spec. split; [done|]. by apply list_elem_of_omap.
Qed.

(** The ids that the pass collects, and that no two of them are related. *)
Lemma merge_base_found :
  exists found, merge_base g a b = match found with [] => NoBase | [m] => Unique m | _ => Ambiguous end /\
    (forall x, x ∈ found <-> exists i, nearest_at g a b i /\ index_of g !! x = Some i) /\ NoDup found.
Proof.
  unfold merge_base.
  destruct (merge_base_loop_spec (length g) (replicate (length g) false) []) as (found & -> & Hf & Hn); [done| |].
  { split; [apply length_replicate|]. intros j. split.
    - intros H. by apply replicate_false_not_true in H.
    - intros (i & Hi & Hc & He). pose proof (edge_lt _ _ He). lia. }
  exists found. split; [by destruct found|]. split; [|done]. intros x. rewrite Hf. split; [naive_solver|].
  intros (i & Hi & Hx). exists i. split; [by eapply index_of_lt|done].
Qed.

Lemma nearest_unrelated i j :
  nearest_at g a b i -> nearest_at g a b j -> rtc (edge g) i j -> i = j.
Proof.
  intros [Hi _] [Hj Hmax] Hr. apply rtc_inv_r in Hr as [->|(k & Hr & He)]; [done|].
  exfalso. eapply Hmax; [|done]. clear -Hi Hr. induction Hr; eauto using common_at_edge.
Qed.
End merge_base.

(** [x] is an ancestor-or-self of both [a] and [b], as the code's own query has it. *)
Definition common_ancestor g a b x : Prop :=
  is_ancestor_or_self g x a = true /\ is_ancestor_or_self g x b = true.

Lemma common_ancestor_at g a b x : common_ancestor g a b x <-> exists i, index_of g !! x = Some i /\ common_at g a b i.
Proof.
  unfold common_ancestor, common_at. rewrite !is_ancestor_or_self_reaches. split; [|naive_solver].
  intros [(i & Hi & Ha) (j & Hj & Hb)]. assert (i = j) as -> by congruence. eauto.
Qed.

Definition graph_parents_first g : bool :=
  bool_decide (Forall (fun i => Forall (fun j => j < i) (omap (index_of g !!.) (parents_at g i))) (seq 0 (length g))).

Lemma graph_parents_first_spec g : graph_parents_first g = true -> parents_first g.
Proof.
  unfold graph_parents_first. rewrite bool_decide_eq_true, Forall_forall. intros H i j (p & Hp & Hj).
  assert (i < length g) as Hi.
  { unfold parents_at in Hp. destruct (g !! i) eqn:E; [by eapply lookup_lt_Some|]. by apply not_elem_of_nil in Hp. }
  specialize (H i). rewrite Forall_forall in H. apply H; [apply elem_of_seq; lia|].
  apply list_elem_of_omap. eauto.
Qed.

(** What each answer of [merge_base] says. *)
Lemma merge_base_answer g a b :
  parents_first g ->
  match merge_base g a b with
  | Unique m => common_ancestor g a b m /\
      forall x, common_ancestor g a b x -> is_ancestor_or_self g x m = true
  | NoBase => forall x, ~ common_ancestor g a b x
  | Ambiguous => exists m n, common_ancestor g a b m /\ common_ancestor g a b n /\
      is_ancestor_or_self g m n = false /\ is_ancestor_or_self g n m = false
  end.
Proof.
  intros HP. destruct (merge_base_found g a b HP) as (found & -> & Hf & Hn).
  assert (forall i, nearest_at g a b i -> exists x, x ∈ found /\ index_of g !! x = Some i) as Hin.
  { intros i Hi. destruct (reaches_lt g a i) as (x & Hx); [apply Hi|]. exists x. split; [|done]. apply Hf. eauto. }
  destruct found as [|m [|n found]].
  - intros x (i & Hx & Hc)%common_ancestor_at. destruct (nearest_above g a b HP i Hc) as (k & Hk & _).
    destruct (Hin k Hk) as (y & Hy & _). by apply not_elem_of_nil in Hy.
  - split.
    + destruct (Hf m) as [(i & Hi & Hm) _]; [set_solver|]. apply common_ancestor_at. exists i. split; [done|apply Hi].
    + intros x (i & Hx & Hc)%common_ancestor_at. destruct (nearest_above g a b HP i Hc) as (k & Hk & Hr).
      destruct (Hin k Hk) as (y & ->%list_elem_of_singleton & Hy).
      apply is_ancestor_or_self_reaches. exists i. split; [done|]. by exists k.
  - destruct (Hf m) as [(i & Hi & Hm) _]; [set_solver|]. destruct (Hf n) as [(j & Hj & Hn') _]; [set_solver|].
    assert (i <> j) as Hij.
    { intros ->. apply NoDup_cons in Hn as [Hn _]. apply Hn. rewrite (index_of_inj g m n j) by done. set_solver. }
    exists m, n. rewrite !common_ancestor_at, <- !not_true_iff_false, !is_ancestor_or_self_reaches.
    split; [exists i; split; [done|apply Hi]|]. split; [exists j; split; [done|apply Hj]|].
    split; intros (k & Hk & l & Hl & Hr); simplify_eq; apply Hij; [symmetry|]; by eapply nearest_unrelated.
Qed.

(** [merge_base] finds the nearest common ancestor: with parents stored
    before children, [Unique m] means that [m] is a common ancestor and every
    common ancestor is an ancestor of [m]; [NoBase] means there is none; and
    [Ambiguous] means that two different common ancestors exist of which
    neither is the other's ancestor, so there is no single nearest one. *)
Theorem merge_base_correct g a b :
  parents_first g ->
  match merge_base g a b with
  | Unique m => common_ancestor g a b m /\
      forall x, common_ancestor g a b x -> is_ancestor_or_self g x m = true
  | NoBase => forall x, ~ common_ancestor g a b x
  | Ambiguous => exists m n, common_ancestor g a b m /\ common_ancestor g a b n /\
      is_ancestor_or_self g m n = false /\ is_ancestor_or_self g n m = false
  end.
Proof. apply merge_base_answer. Qed.

(** ** [compare] *)

Lemma edge_rtc_le g i j : parents_first g -> rtc (edge g) i j -> j <= i.
Proof. intros HP Hr. induction Hr as [|i k j He _ IH]; [done|]. apply HP in He. lia. Qed.

Lemma is_ancestor_or_self_antisym g a b :
  parents_first g -> is_ancestor_or_self g a b = true -> is_ancestor_or_self g b a = true -> a = b.
Proof.
  intros HP (j & Hj & k & Hk & Hr)%is_ancestor_or_self_reaches
    (k' & Hk' & j' & Hj' & Hr')%is_ancestor_or_self_reaches. simplify_eq.
  apply edge_rtc_le in Hr; [|done]. apply edge_rtc_le in Hr'; [|done].
  assert (j = k) as -> by lia. by eapply index_of_inj.
Qed.

(** The relation seen from the other side. *)
Definition flip_relation (r : HeadRelation) : HeadRelation :=
  match r with
  | IncomingAhead => IncomingBehind
  | IncomingBehind => IncomingAhead
  | Equal => Equal
  | Diverged => Diverged
  end.

(** Comparing heads is consistent between the two peers: on a graph with
    parents stored before children, exchanging the local and the incoming head
    exchanges "ahead" and "behind" and keeps "equal", "diverged" and the
    refusal of an unknown head, so two peers never both fast-forward. *)
Theorem compare_flip g local incoming :
  parents_first g -> compare g incoming local = flip_relation <$> compare g local incoming.
Proof.
  intros HP. unfold compare. rewrite orb_comm. destruct (_ || _); [done|]. simpl.
  repeat case_decide; subst; try done.
  destruct (is_ancestor_or_self g local incoming) eqn:E, (is_ancestor_or_self g incoming local) eqn:E'; try done.
  by destruct (is_ancestor_or_self_antisym g local incoming).
Qed.

Module GraphDemo.
Definition node (id : bytes) (parents : list bytes) : StoredRevision :=
  {| sr_revision := {| rv_revision_id := id; rv_file_id := []; rv_parent_revision_ids := parents;
       rv_content_commitment := []; rv_generated_label := []; rv_user_label := None;
       rv_author_identity := None; rv_author_hcp_label := []; rv_created_at_utc := [];
       rv_topology_generation := 0; rv_policy_hash := [] |};
     sr_payload := None |}.
Definition r := str "r".
Definition a := str "a".
Definition b := str "b".
Definition m := str "m".
Definition n := str "n".

(** A root and two edits of it; then two merges of the same two edits. *)
Definition fork : list StoredRevision := [node r []; node a [r]; node b [r]].
Definition criss_cross : list StoredRevision := fork ++ [node m [a; b]; node n [b; a]].

Example fork_base : merge_base fork a b = Unique r /\ merge_base criss_cross m n = Ambiguous.
Proof. vm_compute. done. Qed.
End GraphDemo.

Lemma merge_base_correct_witness :
  merge_base GraphDemo.fork GraphDemo.a GraphDemo.b = Unique GraphDemo.r /\
  common_ancestor GraphDemo.fork GraphDemo.a GraphDemo.b GraphDemo.r.
Proof.
  assert (merge_base GraphDemo.fork GraphDemo.a GraphDemo.b = Unique GraphDemo.r) as E by (vm_compute; reflexivity).
  split; [exact E|].
  pose proof (merge_base_correct GraphDemo.fork GraphDemo.a GraphDemo.b
    (graph_parents_first_spec GraphDemo.fork ltac:(vm_compute; reflexivity))) as H.
  rewrite E in H. exact (proj1 H).
Defined.

Lemma compare_flip_witness :
  compare GraphDemo.criss_cross GraphDemo.a GraphDemo.m = Ok IncomingAhead /\
  compare GraphDemo.criss_cross GraphDemo.m GraphDemo.a =
    flip_relation <$> compare GraphDemo.criss_cross GraphDemo.a GraphDemo.m.
Proof.
  split; [vm_compute; reflexivity|].
  apply (compare_flip GraphDemo.criss_cross GraphDemo.a GraphDemo.m).
  apply graph_parents_first_spec. vm_compute. reflexivity.
Defined.
