(* ===== verification/Signing.v ===== *)
(** * [src/src/signing.rs]: signatures and the digests they cover

    A [*_preimage] function of the source hashes a domain string and its
    fields. Each is split here into the bytes fed to the hasher ([*_message])
    and their SHA-256, so that what a digest binds can be stated of the bytes. *)

From S2P Require Import Prelude Text Crypto Envelope HistoryCodec Authority.

Definition SALT_LEN : nat := 16.
Definition ARTIFACT_MAGIC : bytes := str "KQBS".
Definition ARTIFACT_VERSION : byte := x01.
Definition SIGN_DOMAIN : bytes := str "KQBRIDGE-SIGN-v1".
Definition FILE_REVISION_DOMAIN : bytes := str "KQ-FILE-REVISION-v1".
Definition FILE_COUNTERSIGN_DOMAIN : bytes := str "KQ-FILE-COUNTERSIGN-v1".
Definition FILE_FINALIZE_DOMAIN : bytes := str "KQ-FILE-FINALIZE-v1".
Definition FILE_COAUTHOR_DOMAIN : bytes := str "KQ-FILE-COAUTHOR-v1".
Definition FILE_HISTORY_EVENT_DOMAIN : bytes := str "KQ-FILE-HISTORY-EVENT-v1".
Definition FILE_BRIDGE_APPROVAL_DOMAIN : bytes := str "KQ-FILE-BRIDGE-APPROVAL-v1".
Definition RELAY_AUDIT_ANCHOR_DOMAIN : bytes := str "KQ-RELAY-AUDIT-ANCHOR-v1".
Definition RELAY_AUDIT_CHECKPOINT_DOMAIN : bytes := str "KQ-RELAY-AUDIT-CHECKPOINT-v1".
Definition RELAY_API_KEY_ISSUE_DOMAIN : bytes := str "KQ-RELAY-API-KEY-ISSUE-v1".
Definition RELAY_BACKUP_DOMAIN : bytes := str "KQ-RELAY-BACKUP-v1".
Definition RELAY_SETUP_MANIFEST_DOMAIN : bytes := str "KQ-RELAY-SETUP-MANIFEST-v1".
Definition PROVIDER_RECOVERY_DOMAIN : bytes := str "KQ-PROVIDER-RECOVERY-v1".
Definition ERROR_REPORT_DOMAIN : bytes := str "KQ-ERROR-REPORT-v1".
Definition ACCOUNT_BRIDGE_DOMAIN : bytes := str "KQ-ACCOUNT-BRIDGE-v1".

Definition u64_be (v : N) : bytes := be_bytes 8 v.
Definition u32_be (v : N) : bytes := be_bytes 4 v.

Inductive AccountBridgeRole := Request | Accept.
Definition account_bridge_role_code (r : AccountBridgeRole) : byte :=
  match r with Request => x01 | Accept => x02 end.

(** ** Messages *)

Definition account_bridge_message (role : AccountBridgeRole) (from to signer bridge_nonce : bytes) : result bytes :=
  f ← hash_len_prefixed from;
  t ← hash_len_prefixed to;
  s ← hash_len_prefixed signer;
  Ok (ACCOUNT_BRIDGE_DOMAIN ++ account_bridge_role_code role :: f ++ t ++ s ++ bridge_nonce).

Definition bridge_sign_message (uid : bytes) (generation : N)
    (bridge_salt signature_salt signer_label signer_public_key message : bytes) : bytes :=
  SIGN_DOMAIN ++ uid ++ u32_be generation ++ bridge_salt ++ signature_salt ++ signer_label ++
  signer_public_key ++ message.

Definition file_revision_message (file_id revision_id content_commitment signer_identity : bytes)
    (topology_generation : N) (policy_hash : bytes) : bytes :=
  FILE_REVISION_DOMAIN ++ file_id ++ revision_id ++ content_commitment ++ signer_identity ++
  u64_be topology_generation ++ policy_hash.

Definition file_countersign_message (file_id revision_id author author_signature_hash supervisor
    supervisor_label : bytes) (topology_generation : N) (policy_hash : bytes) : result bytes :=
  label ← hash_len_prefixed supervisor_label;
  Ok (FILE_COUNTERSIGN_DOMAIN ++ file_id ++ revision_id ++ author ++ author_signature_hash ++ supervisor ++
      label ++ u64_be topology_generation ++ policy_hash).

Definition file_coauthor_message (file_id revision_id author author_signature_hash coauthor
    coauthor_label : bytes) (topology_generation : N) (policy_hash : bytes) : result bytes :=
  label ← hash_len_prefixed coauthor_label;
  Ok (FILE_COAUTHOR_DOMAIN ++ file_id ++ revision_id ++ author ++ author_signature_hash ++ coauthor ++
      label ++ u64_be topology_generation ++ policy_hash).

Definition file_finalize_message (file_id revision_id finalizer finalizer_label : bytes)
    (topology_generation : N) (policy_hash : bytes) : result bytes :=
  label ← hash_len_prefixed finalizer_label;
  Ok (FILE_FINALIZE_DOMAIN ++ file_id ++ revision_id ++ finalizer ++ label ++
      u64_be topology_generation ++ policy_hash).

Definition file_bridge_approval_message (file_id revision_id author_label scope_root : bytes)
    (topology_generation : N) (policy_hash : bytes) : result bytes :=
  author ← hash_len_prefixed author_label;
  scope ← hash_len_prefixed scope_root;
  Ok (FILE_BRIDGE_APPROVAL_DOMAIN ++ file_id ++ revision_id ++ author ++ scope ++
      u64_be topology_generation ++ policy_hash).

Definition file_history_event_message (file_id : bytes) (revision_id : option bytes) (sequence : N)
    (previous_event_hash event_hash : bytes) : bytes :=
  FILE_HISTORY_EVENT_DOMAIN ++ file_id ++
  match revision_id with Some id => x01 :: id | None => [x00] end ++
  u64_be sequence ++ previous_event_hash ++ event_hash.

(** ** Digests and signatures *)

Section signing.
Context `{C : Crypto}.

Definition verify_signature (public_key message signature : bytes) : result unit :=
  if negb (ed25519_key_ok public_key) then Err InvalidPublicKey
  else if ed25519_verify_strict public_key message signature then Ok tt
  else Err SignatureVerificationFailed.

Definition sign (private_key message : bytes) : bytes := ed25519_sign private_key message.
Definition public_key (private_key : bytes) : bytes := ed25519_public private_key.

Definition account_bridge_preimage role from to signer nonce : result bytes :=
  sha256 <$> account_bridge_message role from to signer nonce.
Definition bridge_sign_preimage uid generation bridge_salt signature_salt signer_label signer_public_key
    message : bytes :=
  sha256 (bridge_sign_message uid generation bridge_salt signature_salt signer_label signer_public_key message).
Definition file_revision_preimage f r commitment signer generation policy : bytes :=
  sha256 (file_revision_message f r commitment signer generation policy).
Definition file_countersign_preimage f r author hash supervisor label generation policy : result bytes :=
  sha256 <$> file_countersign_message f r author hash supervisor label generation policy.
Definition file_coauthor_preimage f r author hash coauthor label generation policy : result bytes :=
  sha256 <$> file_coauthor_message f r author hash coauthor label generation policy.
Definition file_finalize_preimage f r finalizer label generation policy : result bytes :=
  sha256 <$> file_finalize_message f r finalizer label generation policy.
Definition file_bridge_approval_preimage f r author scope generation policy : result bytes :=
  sha256 <$> file_bridge_approval_message f r author scope generation policy.
Definition file_history_event_preimage f r sequence previous hash : bytes :=
  sha256 (file_history_event_message f r sequence previous hash).

Definition relay_audit_anchor_preimage (table : bytes) (row_count : N) (head_hash signed_at certificate : bytes)
    : result bytes :=
  t ← hash_len_prefixed table;
  at_ ← hash_len_prefixed signed_at;
  Ok (sha256 (RELAY_AUDIT_ANCHOR_DOMAIN ++ t ++ u64_be row_count ++ head_hash ++ at_ ++ sha256 certificate)).

Definition relay_setup_manifest_preimage (body : bytes) : bytes := sha256 (RELAY_SETUP_MANIFEST_DOMAIN ++ body).
Definition provider_recovery_preimage (context : bytes) : bytes := sha256 (PROVIDER_RECOVERY_DOMAIN ++ context).
Definition error_report_preimage (body : bytes) : bytes := sha256 (ERROR_REPORT_DOMAIN ++ body).
Definition relay_backup_manifest_preimage (body : bytes) : bytes := sha256 (RELAY_BACKUP_DOMAIN ++ body).

Definition hash_optional (field : option bytes) : result bytes :=
  match field with
  | Some b => f ← hash_len_prefixed b; Ok (x01 :: f)
  | None => Ok [x00]
  end.

Definition relay_key_issue_message (recipient_public_key relay_url : bytes) (key_id : Z)
    (scope token issued_at : bytes) (expires_at device_id : option bytes) (certificate : bytes)
    (licence : option bytes) : result bytes :=
  url ← hash_len_prefixed relay_url;
  sc ← hash_len_prefixed scope;
  tok ← hash_len_prefixed token;
  issued ← hash_len_prefixed issued_at;
  expires ← hash_optional expires_at;
  device ← hash_optional device_id;
  lic ← hash_optional licence;
  Ok (RELAY_API_KEY_ISSUE_DOMAIN ++ recipient_public_key ++ url ++ i64_be key_id ++ sc ++ tok ++ issued ++
      expires ++ device ++ sha256 certificate ++ lic).

Definition relay_key_issue_preimage recipient url key_id scope token issued expires device certificate licence :=
  sha256 <$> relay_key_issue_message recipient url key_id scope token issued expires device certificate licence.

Definition relay_audit_checkpoint_preimage (heads : list (bytes * N * bytes)) (taken_at certificate : bytes)
    : result bytes :=
  count ← try_u32 (length heads);
  rows ← encode_all (fun '(table, row_count, head_hash) =>
    t ← hash_len_prefixed table; Ok (t ++ u64_be row_count ++ head_hash)) heads;
  taken ← hash_len_prefixed taken_at;
  Ok (sha256 (RELAY_AUDIT_CHECKPOINT_DOMAIN ++ u32_be count ++ rows ++ taken ++ sha256 certificate)).

(** ** Private-bridge artifacts *)

Record BridgeSignature := {
  bs_uid : bytes;
  bs_generation : N;
  bs_bridge_salt : bytes;
  bs_signature_salt : bytes;
  bs_signer_label : bytes;
  bs_signer_public_key : bytes;
  bs_bridge_signature : bytes;
  bs_personal_signature : bytes }.

(** [signature_salt] is the random salt the source draws. *)
Definition sign_with_bridge (signature_salt uid : bytes) (generation : N)
    (bridge_salt signer_label bridge_private_key personal_private_key message : bytes) : BridgeSignature :=
  let signer_public_key := ed25519_public personal_private_key in
  let preimage := bridge_sign_preimage uid generation bridge_salt signature_salt signer_label
                    signer_public_key message in
  {| bs_uid := uid; bs_generation := generation; bs_bridge_salt := bridge_salt;
     bs_signature_salt := signature_salt; bs_signer_label := signer_label;
     bs_signer_public_key := signer_public_key;
     bs_bridge_signature := sign bridge_private_key preimage;
     bs_personal_signature := sign personal_private_key preimage |}.

Definition verify_bridge_signature (artifact : BridgeSignature)
    (bridge_public_key signer_public_key message : bytes) : result unit :=
  if negb (bool_decide (bs_signer_public_key artifact = signer_public_key)) then Err SignatureVerificationFailed else
  let preimage := bridge_sign_preimage (bs_uid artifact) (bs_generation artifact) (bs_bridge_salt artifact)
                    (bs_signature_salt artifact) (bs_signer_label artifact) signer_public_key message in
  _ ← verify_signature bridge_public_key preimage (bs_bridge_signature artifact);
  verify_signature signer_public_key preimage (bs_personal_signature artifact).
End signing.

Definition encode_bridge_signature (a : BridgeSignature) : result bytes :=
  uid ← push_len_prefixed (bs_uid a);
  label ← push_len_prefixed (bs_signer_label a);
  Ok (ARTIFACT_MAGIC ++ [ARTIFACT_VERSION] ++ uid ++ u32_be (bs_generation a) ++ bs_bridge_salt a ++
      bs_signature_salt a ++ label ++ bs_signer_public_key a ++ bs_bridge_signature a ++
      bs_personal_signature a).

(** [utf8(take_len_prefixed(data)?)?], with the envelope's own error. *)
Definition take_label : parser bytes := b ← take_len_prefixed; lift (utf8 b).

Definition take_bridge_signature : parser BridgeSignature :=
  m ← take_n 4;
  if negb (bool_decide (m = ARTIFACT_MAGIC)) then fail InvalidBridgePackage else
  v ← take_u8;
  if negb (bool_decide (v = ARTIFACT_VERSION)) then fail InvalidBridgePackage else
  uid ← take_label;
  generation ← take_u32;
  bridge_salt ← take_array SALT_LEN;
  signature_salt ← take_array SALT_LEN;
  signer_label ← take_label;
  signer_public_key ← take_array 32;
  bridge_signature ← take_array 64;
  personal_signature ← take_array 64;
  mret {| bs_uid := uid; bs_generation := generation; bs_bridge_salt := bridge_salt;
          bs_signature_salt := signature_salt; bs_signer_label := signer_label;
          bs_signer_public_key := signer_public_key; bs_bridge_signature := bridge_signature;
          bs_personal_signature := personal_signature |}.

Definition decode_bridge_signature (data : bytes) : result BridgeSignature :=
  '(a, rest) ← take_bridge_signature data;
  if negb (bool_decide (rest = [])) then Err InvalidBridgePackage else Ok a.

(** ** Facts *)

Lemma verify_signature_Ok `{Crypto} pk m s :
  verify_signature pk m s = Ok tt <-> ed25519_key_ok pk = true /\ ed25519_verify_strict pk m s = true.
Proof. unfold verify_signature. destruct (ed25519_key_ok pk), (ed25519_verify_strict pk m s); naive_solver. Qed.

Lemma verify_sign `{C : Crypto} `{!CryptoLaws C} sk m : verify_signature (public_key sk) m (sign sk m) = Ok tt.
Proof. apply verify_signature_Ok. split; [apply ed25519_public_ok|apply ed25519_verify_sign]. Qed.

(** Two concatenations whose first fields have one length agree field by field. *)
Lemma field_inj (a a' r r' : bytes) : length a = length a' -> a ++ r = a' ++ r' -> a = a' /\ r = r'.
Proof. intros L E. by apply app_inj_1. Qed.

Lemma label_field_inj (a a' e e' r r' : bytes) :
  hash_len_prefixed a = Ok e -> hash_len_prefixed a' = Ok e' -> e ++ r = e' ++ r' -> a = a' /\ r = r'.
Proof.
  intros Ea Ea' E. pose proof (take_len_prefixed_push a e r Ea) as D.
  rewrite E, (take_len_prefixed_push a' e' r' Ea') in D. naive_solver.
Qed.

Lemma u64_be_inj v v' : u64 v -> u64 v' -> u64_be v = u64_be v' -> v = v'.
Proof. unfold u64, u64_be. rewrite u64_width. apply be_bytes_inj. Qed.

(** Take a message apart into its fields; the widths are hypotheses. *)
Ltac split_fields :=
  repeat match goal with
  | H : ?e ++ _ = ?e' ++ _, He : hash_len_prefixed _ = Ok ?e, He' : hash_len_prefixed _ = Ok ?e' |- _ =>
      apply (label_field_inj _ _ _ _ _ _ He He') in H; destruct H as [? H]
  | H : ?a ++ _ = ?a ++ _ |- _ => apply app_inv_head in H
  | H : _ ++ _ = _ ++ _ |- _ =>
      apply field_inj in H; [destruct H as [? H]|unfold u64_be; rewrite ?length_be_bytes; congruence]
  | H : u64_be _ = u64_be _ |- _ => apply u64_be_inj in H; [|assumption..]
  end.

Record bridge_signature_wf (a : BridgeSignature) : Prop := {
  bswf_uid : text (bs_uid a);
  bswf_generation : (bs_generation a < u32_max)%N;
  bswf_bridge_salt : fixed SALT_LEN (bs_bridge_salt a);
  bswf_signature_salt : fixed SALT_LEN (bs_signature_salt a);
  bswf_label : text (bs_signer_label a);
  bswf_pk : fixed 32 (bs_signer_public_key a);
  bswf_bridge : fixed 64 (bs_bridge_signature a);
  bswf_personal : fixed 64 (bs_personal_signature a) }.

Lemma label_codec : codec_ok text push_len_prefixed take_label.
Proof.
  split.
  - intros s e rest Hs E. unfold take_label. erewrite parser_bind_eq by (by apply take_len_prefixed_push).
    apply lift_Ok. unfold utf8. by rewrite Hs.
  - intros data s rest E. unfold take_label in E. inv_parser. apply lift_Ok in E as [E ->].
    unfold utf8 in E. destruct (is_utf8 v) eqn:U; [|done]. inv_ok; subst.
    split; [done|]. by apply take_len_prefixed_canonical.
Qed.

Lemma rt_label s e rest : text s -> push_len_prefixed s = Ok e -> take_label (e ++ rest) = Ok (s, rest).
Proof. apply (codec_roundtrip _ _ _ label_codec). Qed.
Lemma rt_array n b rest : fixed n b -> take_array n (b ++ rest) = Ok (b, rest).
Proof. intros. by apply take_n_Ok. Qed.
Lemma rt_take_u32 v rest : (v < u32_max)%N -> take_u32 (u32_be v ++ rest) = Ok (v, rest).
Proof. apply take_u32_bytes. Qed.
#[export] Hint Resolve rt_label rt_array rt_take_u32 : kq.

Lemma bridge_signature_codec : codec_ok bridge_signature_wf encode_bridge_signature take_bridge_signature.
Proof.
  split.
  - intros a b rest [] E. unfold encode_bridge_signature in E. inv_ok; subst.
    unfold take_bridge_signature. rewrite <- app_assoc.
    erewrite parser_bind_eq by (by apply take_n_app). rewrite bool_decide_true by done. cbn [negb app].
    erewrite parser_bind_eq by done. rewrite bool_decide_true by done. cbn [negb].
    enc_dec. by destruct a.
  - intros data a rest E. unfold take_bridge_signature in E. inv_parser.
    case_bool_decide as Em; [|by inv_parser]. cbn [negb] in E. inv_parser.
    case_bool_decide as Ev; [|by inv_parser]. cbn [negb] in E. inv_parser. subst.
    repeat match goal with
    | H : take_n _ _ = Ok _ |- _ => apply take_n_Ok in H; destruct H as [-> ?]
    | H : take_array _ _ = Ok _ |- _ => apply take_n_Ok in H; destruct H as [-> ?]
    | H : take_u8 _ = Ok _ |- _ => apply take_u8_Ok in H; subst
    | H : take_u32 _ = Ok _ |- _ => apply take_u32_Ok in H; destruct H as [? ->]
    | H : take_label _ = Ok _ |- _ => canon H label_codec
    end.
    split; [by split|]. unfold encode_bridge_signature; simpl. run_enc. close_enc.
Qed.

(** A private-bridge artifact survives its encoding and verifies: what
    [sign_with_bridge] makes with a bridge key and a personal key decodes back
    from its own bytes, and the decoded artifact passes
    [verify_bridge_signature] under the two public keys. *)
Theorem bridge_artifact_roundtrip `{C : Crypto} `{!CryptoLaws C} salt uid generation bridge_salt label bridge_sk personal_sk m b :
  fixed 16 salt -> text uid -> (generation < u32_max)%N -> fixed 16 bridge_salt -> text label ->
  fixed 32 (public_key personal_sk) ->
  let a := sign_with_bridge salt uid generation bridge_salt label bridge_sk personal_sk m in
  encode_bridge_signature a = Ok b ->
  decode_bridge_signature b = Ok a /\
  verify_bridge_signature a (public_key bridge_sk) (public_key personal_sk) m = Ok tt.
Proof.
  intros Hs Hu Hg Hb Hl Hp a E. split.
  - unfold decode_bridge_signature. rewrite <- (app_nil_r b).
    rewrite (codec_roundtrip _ _ _ bridge_signature_codec a b []); [done| |done].
    split; try done; apply ed25519_sign_length.
  - unfold verify_bridge_signature. simpl. rewrite bool_decide_true by done. cbn [negb].
    by rewrite !verify_sign.
Qed.

(** The bytes a private-bridge signature covers do not determine its
    fields: [signer_label] is hashed with no length before it, so for every
    label, key and message the last byte of the label can equally be read as
    the first byte of the signer's key, with the key and the message shifted
    by one byte; both readings have a key of the same width and one digest. *)
Theorem bridge_sign_message_shift uid g bridge_salt signature_salt label c pk x m :
  length (c :: pk) = length (pk ++ [x]) /\
  bridge_sign_message uid g bridge_salt signature_salt label (c :: pk) (x :: m) =
  bridge_sign_message uid g bridge_salt signature_salt (label ++ [c]) (pk ++ [x]) m.
Proof.
  split; [rewrite length_app; simpl; lia|]. unfold bridge_sign_message. by rewrite <- !app_assoc.
Qed.

Module SigningDemo.
Import Toy.
Definition key : bytes := replicate 32 x41.
Definition salt : bytes := replicate 16 x01.
Definition artifact : BridgeSignature := sign_with_bridge salt (str "u") 3 salt (str "0.1") key key (str "hi").
Definition encoded : bytes := match encode_bridge_signature artifact with Ok b => b | Err _ => [] end.
Lemma salt_ok : fixed 16 salt. Proof. reflexivity. Defined.
Lemma encoded_ok : encode_bridge_signature artifact = Ok encoded. Proof. vm_compute. reflexivity. Defined.
End SigningDemo.

Lemma bridge_artifact_roundtrip_witness :
  decode_bridge_signature SigningDemo.encoded = Ok SigningDemo.artifact /\
  verify_bridge_signature (C := Toy.toy) SigningDemo.artifact SigningDemo.key SigningDemo.key (str "hi") = Ok tt.
Proof.
  exact (bridge_artifact_roundtrip (C := Toy.toy) (CryptoLaws0 := Toy.toy_laws) SigningDemo.salt (str "u") 3 SigningDemo.salt (str "0.1")
    SigningDemo.key SigningDemo.key (str "hi") SigningDemo.encoded SigningDemo.salt_ok eq_refl eq_refl
    SigningDemo.salt_ok eq_refl eq_refl SigningDemo.encoded_ok).
Defined.
