(* ===== verification/BridgeProof.v ===== *)
(** * [src/src/bridge_proof.rs]: proofs of bridge membership

    What signing and verifying with a private bridge decide, with the facts about
    the bridge passed in. The closures of the source only read, so they are the
    results they give. *)

From S2P Require Import Prelude Text Crypto Envelope Signing.

(** One member of the roster; supervisors never prove or verify. *)
Record MemberFact := { mf_label : bytes; mf_signing_public : option bytes }.

Record BridgeFacts := {
  bf_uid : bytes;
  bf_generation : N;
  bf_salt : bytes;
  bf_bridge_public : bytes;
  bf_destroyed : bool;
  bf_members : list MemberFact;
}.

Record LocalMember := { lm_encryption_public : bytes; lm_holds_sealed_key : bool }.
Record SealedBridgeKey := { sb_sealed : bytes; sb_wrap_salt : bytes }.

Definition SEALED_BRIDGE_KEY_LEN : nat := SALT_LEN + 32 + SEALBYTES.

Definition find_member (facts : BridgeFacts) (label : bytes) : option MemberFact :=
  snd <$> list_find (fun m => mf_label m = label) (bf_members facts).

Section proofs.
Context `{C : Crypto}.

Definition unseal_bridge_secret (sealed wrap_salt encryption_sk : bytes) : result bytes :=
  if negb (length sealed =? SEALED_BRIDGE_KEY_LEN) then Err IntegrityCheckFailed else
  plain ← ok_or (box_unseal encryption_sk sealed) IntegrityCheckFailed;
  if negb (length plain =? SALT_LEN + 32) || negb (bool_decide (take SALT_LEN plain = wrap_salt)) then Err IntegrityCheckFailed
  else Ok (drop SALT_LEN plain).

Definition seal_bridge_secret (rnd recipient_pub wrap_salt secret : bytes) : result bytes :=
  if is_weak_x25519_public_key recipient_pub then Err InvalidPublicKey
  else Ok (box_seal rnd recipient_pub (wrap_salt ++ secret)).

(** [signature_salt] is the salt [sign_with_bridge] draws. *)
Definition prove_with (signature_salt : bytes) (facts : BridgeFacts) (local_label : bytes) (local : LocalMember)
    (encryption_sk signing_sk challenge : bytes) (local_registry_check : bytes -> bytes -> result unit)
    (load_sealed : result SealedBridgeKey) : result BridgeSignature :=
  if bf_destroyed facts then Err BridgeDestroyed else
  roster ← ok_or (find_member facts local_label) NotBridgeMember;
  if negb (lm_holds_sealed_key local) then Err SealedKeyNotHeld else
  if negb (bool_decide (box_public encryption_sk = lm_encryption_public local)) then Err IntegrityCheckFailed else
  roster_signing ← ok_or (mf_signing_public roster) InvalidBridge;
  if negb (bool_decide (public_key signing_sk = roster_signing)) then Err IntegrityCheckFailed else
  _ ← local_registry_check local_label roster_signing;
  held ← load_sealed;
  bridge_sk ← unseal_bridge_secret (sb_sealed held) (sb_wrap_salt held) encryption_sk;
  if negb (bool_decide (public_key bridge_sk = bf_bridge_public facts)) then Err IntegrityCheckFailed else
  Ok (sign_with_bridge signature_salt (bf_uid facts) (bf_generation facts) (bf_salt facts) local_label bridge_sk signing_sk challenge).

Definition prove (signature_salt : bytes) (facts : BridgeFacts) (local_label : bytes) (local : LocalMember) (sealed : SealedBridgeKey)
    (encryption_sk signing_sk challenge : bytes) : result BridgeSignature :=
  prove_with signature_salt facts local_label local encryption_sk signing_sk challenge (fun _ _ => Ok tt) (Ok sealed).

Definition verify_with (facts : BridgeFacts) (verifier_label challenge : bytes) (artifact : BridgeSignature)
    (signer_registry_check : bytes -> bytes -> result unit) : result unit :=
  if bf_destroyed facts then Err BridgeDestroyed else
  if negb (bool_decide (bs_uid artifact = bf_uid facts)) || negb (bool_decide (bs_generation artifact = bf_generation facts))
     || negb (bool_decide (bs_bridge_salt artifact = bf_salt facts)) then Err BridgeGenerationMismatch else
  signer ← ok_or (find_member facts (bs_signer_label artifact)) NotBridgeMember;
  if bool_decide (find_member facts verifier_label = None) then Err NotBridgeMember else
  roster_signing ← ok_or (mf_signing_public signer) InvalidBridge;
  _ ← signer_registry_check (bs_signer_label artifact) roster_signing;
  verify_bridge_signature artifact (bf_bridge_public facts) roster_signing challenge.

Definition verify (facts : BridgeFacts) (verifier_label challenge : bytes) (artifact : BridgeSignature) : result unit :=
  verify_with facts verifier_label challenge artifact (fun _ _ => Ok tt).

(** ** Facts *)

Lemma verify_with_Ok facts verifier challenge artifact check :
  verify_with facts verifier challenge artifact check = Ok tt <->
  bf_destroyed facts = false /\ bs_uid artifact = bf_uid facts /\ bs_generation artifact = bf_generation facts /\
  bs_bridge_salt artifact = bf_salt facts /\ is_Some (find_member facts verifier) /\
  exists signer roster, find_member facts (bs_signer_label artifact) = Some signer /\ mf_signing_public signer = Some roster /\
    check (bs_signer_label artifact) roster = Ok tt /\ verify_bridge_signature artifact (bf_bridge_public facts) roster challenge = Ok tt.
Proof.
  unfold verify_with. destruct (bf_destroyed facts); [naive_solver|].
  destruct (decide (bs_uid artifact = bf_uid facts)) as [->|], (decide (bs_generation artifact = bf_generation facts)) as [->|],
    (decide (bs_bridge_salt artifact = bf_salt facts)) as [->|];
    rewrite ?(bool_decide_true (_ = _)), ?(bool_decide_false (_ = _)) by done; simpl; try naive_solver.
  destruct (find_member facts (bs_signer_label artifact)) as [signer|]; simpl; [|naive_solver].
  destruct (find_member facts verifier) as [v|]; simpl; [|split; [done|]; intros (_ & _ & _ & _ & [? ?] & _); done].
  destruct (mf_signing_public signer) as [roster|] eqn:Er; simpl; [|naive_solver].
  destruct (check _ roster) as [[]|e] eqn:Ec; simpl; split.
  - intros E. do 4 (split; [done|]). split; [eauto|]. by exists signer, roster.
  - intros (_ & _ & _ & _ & _ & s & r & [= <-] & E & _ & HV). rewrite Er in E. injection E as <-. done.
  - done.
  - intros (_ & _ & _ & _ & _ & s & r & [= <-] & E & HC & HV). rewrite Er in E. injection E as <-. congruence.
Qed.

Context `{!CryptoLaws C}.

Lemma unseal_seal_bridge rnd sk wrap_salt secret sealed :
  length wrap_salt = SALT_LEN -> length secret = 32 ->
  seal_bridge_secret rnd (box_public sk) wrap_salt secret = Ok sealed -> unseal_bridge_secret sealed wrap_salt sk = Ok secret.
Proof.
  intros Hw Hs. unfold seal_bridge_secret, unseal_bridge_secret. destruct (is_weak_x25519_public_key _); [done|]. intros [= <-].
  assert (length (wrap_salt ++ secret) = SALT_LEN + 32) as Hl by (rewrite length_app; congruence).
  rewrite box_seal_length, Hl, (proj2 (Nat.eqb_eq (SALT_LEN + 32 + SEALBYTES) _)) by done. cbn [negb].
  rewrite box_unseal_seal. cbn [ok_or mbind result_bind]. rewrite Hl, (proj2 (Nat.eqb_eq (SALT_LEN + 32) _)) by done.
  rewrite <- Hw, take_app_length, drop_app_length. by rewrite bool_decide_true by done.
Qed.

(** What a proof shows of the prover. *)
Lemma prove_with_Ok signature_salt facts label local encryption_sk signing_sk challenge check load artifact :
  prove_with signature_salt facts label local encryption_sk signing_sk challenge check load = Ok artifact ->
  bf_destroyed facts = false /\ box_public encryption_sk = lm_encryption_public local /\
  check label (public_key signing_sk) = Ok tt /\
  exists signer bridge_sk, find_member facts label = Some signer /\ mf_signing_public signer = Some (public_key signing_sk) /\
    public_key bridge_sk = bf_bridge_public facts /\
    artifact = sign_with_bridge signature_salt (bf_uid facts) (bf_generation facts) (bf_salt facts) label bridge_sk signing_sk challenge.
Proof.
  unfold prove_with. destruct (bf_destroyed facts); [done|]. intros (signer & Es%ok_or_Ok & H)%bind_Ok. destruct (negb (lm_holds_sealed_key local)); [done|].
  case_bool_decide as Ee; [|done]. simpl in H. apply bind_Ok in H as (roster & Er%ok_or_Ok & H). case_bool_decide as Ep; [|done]. simpl in H.
  apply bind_Ok in H as ([] & Ec & H). apply bind_Ok in H as (held & _ & H). apply bind_Ok in H as (bsk & _ & H).
  case_bool_decide as Eb; [|done]. injection H as <-. subst roster. split_and!; [done..|]. by exists signer, bsk.
Qed.

Lemma sign_with_bridge_verifies salt uid generation bridge_salt label bridge_sk signing_sk message :
  verify_bridge_signature (sign_with_bridge salt uid generation bridge_salt label bridge_sk signing_sk message)
    (public_key bridge_sk) (public_key signing_sk) message = Ok tt.
Proof.
  unfold verify_bridge_signature, sign_with_bridge. simpl. fold (public_key signing_sk). rewrite bool_decide_true by done. cbn [negb]. by rewrite !verify_sign.
Qed.

(** A proof made by a member of a live bridge is accepted by every store
    that has the bridge at the same generation, salt and key, with the signer's
    key on its roster and the verifier a member; at any other generation, or once
    the bridge is destroyed, it is refused. *)
Lemma prove_verifies signature_salt facts label local encryption_sk signing_sk challenge check load artifact facts' verifier check' :
  prove_with signature_salt facts label local encryption_sk signing_sk challenge check load = Ok artifact ->
  bf_uid facts' = bf_uid facts -> bf_salt facts' = bf_salt facts -> bf_bridge_public facts' = bf_bridge_public facts ->
  (exists m, find_member facts' label = Some m /\ mf_signing_public m = Some (public_key signing_sk)) ->
  is_Some (find_member facts' verifier) -> check' label (public_key signing_sk) = Ok tt ->
  verify_with facts' verifier challenge artifact check' =
    if bf_destroyed facts' then Err BridgeDestroyed
    else if decide (bf_generation facts' = bf_generation facts) then Ok tt else Err BridgeGenerationMismatch.
Proof.
  intros (_ & _ & _ & signer & bsk & _ & _ & Hb & ->)%prove_with_Ok Eu Es Ep (m & Hm & Hsig) Hv Hc.
  destruct (bf_destroyed facts') eqn:Ed; [unfold verify_with; by rewrite Ed|]. case_decide as Eg.
  - apply verify_with_Ok. cbn [bs_uid bs_generation bs_bridge_salt bs_signer_label sign_with_bridge]. split_and!; try done.
    exists m, (public_key signing_sk). split_and!; try done. rewrite Ep, <- Hb. apply sign_with_bridge_verifies.
  - unfold verify_with. rewrite Ed. cbn [bs_uid bs_generation bs_bridge_salt sign_with_bridge].
    rewrite (bool_decide_true (bf_uid facts = _)), (bool_decide_false (bf_generation facts = _)) by congruence. done.
Qed.
End proofs.
