(* ===== verification/Policy.v ===== *)
(** * [src/src/file_history/policy.rs], first half: the per-file policy

    [Requirement], [FilePolicy], its codec, its hash, and which rule applies to
    which author. *)

From S2P Require Import Prelude Text Crypto Envelope HistoryCodec Event Authority Revision Signing.

Definition POLICY_DOMAIN : bytes := str "KQ-FILE-POLICY-v1".

Inductive Requirement :=
| Forbidden
| AuthorSign
| AuthorSignDirectParent
| AuthorSignBridgeOrOwner
| AuthorSignBridgeAndOwner.
#[global] Instance Requirement_eq_dec : EqDecision Requirement.
Proof. solve_decision. Defined.

Definition requirement_code (r : Requirement) : byte :=
  match r with
  | Forbidden => x00 | AuthorSign => x01 | AuthorSignDirectParent => x02
  | AuthorSignBridgeOrOwner => x03 | AuthorSignBridgeAndOwner => x04
  end.

Definition requirement_from_u8 (value : byte) : result Requirement :=
  match value with
  | x00 => Ok Forbidden | x01 => Ok AuthorSign | x02 => Ok AuthorSignDirectParent
  | x03 => Ok AuthorSignBridgeOrOwner | x04 => Ok AuthorSignBridgeAndOwner
  | _ => Err InvalidTrackedFile
  end.

Definition keyword (r : Requirement) : bytes :=
  match r with
  | Forbidden => str "forbidden"
  | AuthorSign => str "author"
  | AuthorSignDirectParent => str "author+parent"
  | AuthorSignBridgeOrOwner => str "author+bridge-or-owner"
  | AuthorSignBridgeAndOwner => str "author+bridge+owner"
  end.

Definition from_keyword (word : bytes) : option Requirement :=
  snd <$> list_find (fun rule => keyword rule = word)
    [Forbidden; AuthorSign; AuthorSignDirectParent; AuthorSignBridgeOrOwner; AuthorSignBridgeAndOwner].

Record FilePolicy := {
  fp_scope_root : bytes;
  fp_scope_owner : Requirement;
  fp_descendants : Requirement;
  fp_ancestors : Requirement;
  fp_cross_branch : Requirement;
  fp_auto_merge : bool }.
#[global] Instance FilePolicy_eq_dec : EqDecision FilePolicy.
Proof. solve_decision. Defined.

Definition standard (scope_root : bytes) : FilePolicy :=
  {| fp_scope_root := scope_root; fp_scope_owner := AuthorSign;
     fp_descendants := AuthorSignDirectParent; fp_ancestors := AuthorSign;
     fp_cross_branch := AuthorSignBridgeOrOwner; fp_auto_merge := true |}.

Definition needs_parent (rule : Requirement) : bool := bool_decide (rule = AuthorSignDirectParent).
Definition bridge_rule (rule : Requirement) : bool :=
  match rule with AuthorSignBridgeOrOwner | AuthorSignBridgeAndOwner => true | _ => false end.

(** The four rules in the order owner, descendants, ancestors, cross-branch. *)
Definition with_rules (scope_root : bytes)
    (owner descendants ancestors cross_branch : option Requirement) (auto_merge : bool) : result FilePolicy :=
  let base := standard scope_root in
  let policy := {| fp_scope_root := scope_root;
    fp_scope_owner := default (fp_scope_owner base) owner;
    fp_descendants := default (fp_descendants base) descendants;
    fp_ancestors := default (fp_ancestors base) ancestors;
    fp_cross_branch := default (fp_cross_branch base) cross_branch;
    fp_auto_merge := auto_merge |} in
  let has_parent := bool_decide (is_Some (parent_node_label scope_root)) in
  let root_is_ancestor := has_parent in
  let is_bad := bool_decide (fp_scope_owner policy = Forbidden)
    || (needs_parent (fp_ancestors policy) && root_is_ancestor)
    || bridge_rule (fp_scope_owner policy)
    || bridge_rule (fp_descendants policy)
    || bridge_rule (fp_ancestors policy)
    || (needs_parent (fp_scope_owner policy) && negb has_parent)
    || needs_parent (fp_cross_branch policy) in
  if is_bad then Err InvalidTrackedFile else Ok policy.

Definition policy_bytes (p : FilePolicy) : result bytes :=
  root ← push_len_prefixed (fp_scope_root p);
  Ok (root ++ [requirement_code (fp_scope_owner p); requirement_code (fp_descendants p);
               requirement_code (fp_ancestors p); requirement_code (fp_cross_branch p);
               if fp_auto_merge p then x01 else x00]).

Definition policy_encode (p : FilePolicy) : result bytes := policy_bytes p.

Definition bool_from_u8 (value : byte) : result bool :=
  match value with x00 => Ok false | x01 => Ok true | _ => Err InvalidTrackedFile end.

(** Field order of the checks as in the source: [take_fixed::<5>] first. *)
Definition policy_decode : parser FilePolicy :=
  scope_root ← take_str;
  b ← take_fixed 5;
  match b with
  | [owner; descendants; ancestors; cross_branch; auto_merge] =>
      o ← lift (requirement_from_u8 owner);
      d ← lift (requirement_from_u8 descendants);
      a ← lift (requirement_from_u8 ancestors);
      c ← lift (requirement_from_u8 cross_branch);
      m ← lift (bool_from_u8 auto_merge);
      mret {| fp_scope_root := scope_root; fp_scope_owner := o; fp_descendants := d;
              fp_ancestors := a; fp_cross_branch := c; fp_auto_merge := m |}
  | _ => fail InvalidTrackedFile
  end.

Definition policy_hash `{Crypto} (p : FilePolicy) : result bytes :=
  b ← policy_bytes p; Ok (sha256 (POLICY_DOMAIN ++ b)).

Definition requirement_for (p : FilePolicy) (author_label : bytes) : option Requirement :=
  match relationship (fp_scope_root p) author_label with
  | ScopeOwner => Some (fp_scope_owner p)
  | Descendant _ _ => Some (fp_descendants p)
  | Ancestor _ => Some (fp_ancestors p)
  | CrossBranch (Some _) => Some (fp_cross_branch p)
  | CrossBranch None | Unrelated => None
  end.

Definition may_author (p : FilePolicy) (label : bytes) : bool :=
  match requirement_for p label with
  | Some requirement => negb (bool_decide (requirement = Forbidden))
  | None => false
  end.

(** ** Facts *)

Definition policy_wf (p : FilePolicy) : Prop := text (fp_scope_root p).

Lemma requirement_roundtrip r : requirement_from_u8 (requirement_code r) = Ok r.
Proof. by destruct r. Qed.
Lemma requirement_canonical b r : requirement_from_u8 b = Ok r -> requirement_code r = b.
Proof. destruct b; try discriminate; by intros [= <-]. Qed.
Lemma bool_canonical b v : bool_from_u8 b = Ok v -> (if v then x01 else x00) = b.
Proof. destruct b; try discriminate; by intros [= <-]. Qed.

Lemma keyword_roundtrip r : from_keyword (keyword r) = Some r.
Proof. destruct r; vm_compute; reflexivity. Qed.

Lemma policy_codec : codec_ok policy_wf policy_encode policy_decode.
Proof.
  split.
  - intros p b rest W E. unfold policy_encode, policy_bytes in E. inv_ok; subst.
    unfold policy_decode. rewrite <- app_assoc. erewrite parser_bind_eq by (by eapply rt_str).
    erewrite parser_bind_eq by (by apply rt_fixed). cbv beta iota.
    do 4 (erewrite parser_bind_eq by (apply lift_Ok; split; [apply requirement_roundtrip|done])).
    destruct p as [? ? ? ? ? []]; reflexivity.
  - intros data p rest E. unfold policy_decode in E. inv_parser.
    destruct v0 as [|o [|d [|a [|c [|m []]]]]]; try (by inv_parser). inv_parser. dec_enc. subst.
    repeat match goal with H : lift _ _ = Ok _ |- _ => apply lift_Ok in H; destruct H as [H ->] end.
    split; [done|]. unfold policy_encode, policy_bytes; simpl.
    repeat match goal with H : requirement_from_u8 _ = Ok _ |- _ => apply requirement_canonical in H; subst end.
    match goal with H : bool_from_u8 _ = Ok _ |- _ => apply bool_canonical in H; subst end.
    unfold push_str in *. run_enc. close_enc.
Qed.

(** Different policies have different bytes, so a policy hash pins the rules or exhibits a collision. *)
Lemma policy_hash_binds `{Crypto} p q h :
  policy_wf p -> policy_wf q -> policy_hash p = Ok h -> policy_hash q = Ok h -> p = q \/ collision.
Proof.
  intros Wp Wq Hp Hq. unfold policy_hash in *.
  apply bind_Ok in Hp as (b & Ep & <-%Ok_inj). apply bind_Ok in Hq as (b' & Eq & Hq%Ok_inj).
  destruct (sha256_inj_or_collision _ _ Hq) as [E%app_inv_head|?]; [left|by right]. subst b'.
  eapply (codec_prefix_free policy_codec p q) with (r := []) (r' := []); eauto.
Qed.

(** A label strictly below another has a parent. *)
Lemma below_has_parent a b : is_ancestor_or_self a b = true -> a <> b -> is_Some (parent_node_label b).
Proof.
  rewrite is_ancestor_or_self_spec. intros (_ & _ & k & E) Hne.
  destruct k as [|s k _] using rev_ind; [rewrite app_nil_r in E; by apply segments_inj in E|].
  rewrite app_assoc in E. exists (join dot (segments a ++ k)). apply parent_node_label_Some. exists s. rewrite E. f_equal.
  symmetry. apply segments_join.
  - intros [HN _]%app_eq_nil. by apply (segments_ne a).
  - pose proof (segments_no_dot b) as HF. rewrite E in HF. by apply Forall_app in HF as [? _].
Qed.

Lemma relationship_below scope actor :
  match relationship scope actor with
  | ScopeOwner => scope = actor
  | Descendant _ _ => is_ancestor_or_self scope actor = true /\ scope <> actor
  | Ancestor _ => is_ancestor_or_self actor scope = true /\ actor <> scope
  | _ => True
  end.
Proof.
  unfold relationship, ancestry_distance. destruct (negb _ || negb _); [done|]. case_decide; [done|].
  destruct (is_well_formed scope), (is_well_formed actor); simpl; try done.
  by destruct (is_ancestor_or_self scope actor) eqn:E, (is_ancestor_or_self actor scope) eqn:E'.
Qed.

(** A policy [with_rules] accepts can be met by whoever it addresses: the
    scope owner is not forbidden; only cross-branch authors are asked for a
    bridge; and wherever a rule demands the direct parent's countersignature,
    every author it applies to has a parent label to give it. *)
Theorem with_rules_satisfiable scope_root owner descendants ancestors cross_branch auto_merge p author :
  with_rules scope_root owner descendants ancestors cross_branch auto_merge = Ok p ->
  is_well_formed scope_root = true ->
  fp_scope_root p = scope_root /\ fp_auto_merge p = auto_merge /\
  requirement_for p scope_root <> Some Forbidden /\
  (requirement_for p author = Some AuthorSignDirectParent -> is_Some (parent_node_label author)) /\
  (forall r, requirement_for p author = Some r -> bridge_rule r = true ->
     exists c, relationship scope_root author = CrossBranch (Some c)).
Proof.
  unfold with_rules. intros E W. destruct (bool_decide (_ = Forbidden) || _ || _ || _ || _ || _ || _) eqn:B; [done|].
  inv_ok. bool_hyps. subst p. unfold requirement_for; simpl in *.
  split; [done|]. split; [done|]. split; [|split].
  - unfold relationship. rewrite W. cbn [negb orb]. rewrite decide_True by done. congruence.
  - pose proof (relationship_below scope_root author) as HR.
    destruct (relationship scope_root author) as [|anc depth|depth|[c|]|]; intros [= Hr]; simplify_eq/=.
    + rewrite Hr in *. unfold needs_parent in *. rewrite bool_decide_true in * by done.
      apply dec_stable. intros Hn. by rewrite (bool_decide_false _ Hn) in *.
    + destruct HR. by eapply below_has_parent.
    + destruct HR as [HA Hne]. pose proof (below_has_parent _ _ HA Hne) as Hp.
      rewrite (bool_decide_true _ Hp), Hr in *. done.
    + rewrite Hr in *. done.
  - pose proof (relationship_below scope_root author) as HR.
    destruct (relationship scope_root author) as [|anc depth|depth|[c|]|]; intros r [= <-] Hb; try congruence. eauto.
Qed.

Lemma with_rules_satisfiable_witness :
  is_Some (parent_node_label (str "M.S.2")) /\ requirement_for (standard (str "M.S")) (str "M.S.2") = Some AuthorSignDirectParent.
Proof.
  split; [|vm_compute; reflexivity].
  apply (with_rules_satisfiable (str "M.S") None None None None true (standard (str "M.S")) (str "M.S.2"));
    vm_compute; reflexivity.
Defined.

(** * [src/src/file_history/proof.rs], the proofs themselves

    Revision and event proofs, their codecs, the digest each signs, and the
    signature check of [policy.rs] ([check_signature], [proof_verifies]) with the
    [TrustContext] trait it reads keys from. The operations that add proofs to a
    file are in [Container]. *)

Definition MAX_PROOFS_PER_SLOT : nat := 8.

Inductive ProofKind := Content | Countersignature | Finalization | CoAuthor.
#[global] Instance ProofKind_eq_dec : EqDecision ProofKind.
Proof. solve_decision. Defined.

Definition proof_kind_code (k : ProofKind) : byte :=
  match k with Content => x01 | Countersignature => x02 | Finalization => x03 | CoAuthor => x04 end.

Definition proof_kind_from_u8 (value : byte) : result ProofKind :=
  match value with
  | x01 => Ok Content | x02 => Ok Countersignature | x03 => Ok Finalization | x04 => Ok CoAuthor
  | _ => Err InvalidTrackedFile
  end.

Record RevisionProof := {
  pf_revision_id : bytes;
  pf_kind : ProofKind;
  pf_signer_identity : bytes;
  pf_signer_label : bytes;
  pf_author_signature_hash : option bytes;
  pf_topology_generation : N;
  pf_policy_hash : bytes;
  pf_signature : bytes }.
#[global] Instance RevisionProof_eq_dec : EqDecision RevisionProof.
Proof. solve_decision. Defined.

Definition same_slot (p q : RevisionProof) : bool :=
  bool_decide (pf_revision_id p = pf_revision_id q) && bool_decide (pf_kind p = pf_kind q)
  && bool_decide (pf_signer_label p = pf_signer_label q).

Definition proof_encode (p : RevisionProof) : result bytes :=
  label ← push_str (pf_signer_label p);
  Ok (pf_revision_id p ++ [proof_kind_code (pf_kind p)] ++ pf_signer_identity p ++ label ++
      push_opt_array (pf_author_signature_hash p) ++ push_u64 (pf_topology_generation p) ++
      pf_policy_hash p ++ pf_signature p).

Definition proof_decode : parser RevisionProof :=
  revision_id ← take_fixed 32;
  kind ← take_code proof_kind_from_u8;
  signer_identity ← take_fixed 16;
  signer_label ← take_str;
  author_signature_hash ← take_opt_array 32;
  topology_generation ← take_u64;
  policy_hash ← take_fixed 32;
  signature ← take_fixed 64;
  mret {| pf_revision_id := revision_id; pf_kind := kind; pf_signer_identity := signer_identity;
          pf_signer_label := signer_label; pf_author_signature_hash := author_signature_hash;
          pf_topology_generation := topology_generation; pf_policy_hash := policy_hash;
          pf_signature := signature |}.

Record EventProof := {
  ep_sequence : N;
  ep_signer_identity : bytes;
  ep_signer_label : bytes;
  ep_signature : bytes }.
#[global] Instance EventProof_eq_dec : EqDecision EventProof.
Proof. solve_decision. Defined.

Definition event_proof_encode (p : EventProof) : result bytes :=
  label ← push_str (ep_signer_label p);
  Ok (push_u64 (ep_sequence p) ++ ep_signer_identity p ++ label ++ ep_signature p).

Definition event_proof_decode : parser EventProof :=
  sequence ← take_u64;
  signer_identity ← take_fixed 16;
  signer_label ← take_str;
  signature ← take_fixed 64;
  mret {| ep_sequence := sequence; ep_signer_identity := signer_identity;
          ep_signer_label := signer_label; ep_signature := signature |}.

(** The bytes whose digest a revision proof's signature covers. *)
Definition proof_message (p : RevisionProof) (r : FileRevision) : result bytes :=
  match pf_kind p, pf_author_signature_hash p, rv_author_identity r with
  | Content, None, _ =>
      Ok (file_revision_message (rv_file_id r) (rv_revision_id r) (rv_content_commitment r)
            (pf_signer_identity p) (pf_topology_generation p) (pf_policy_hash p))
  | Countersignature, Some author_hash, Some author =>
      file_countersign_message (rv_file_id r) (rv_revision_id r) author author_hash
        (pf_signer_identity p) (pf_signer_label p) (pf_topology_generation p) (pf_policy_hash p)
  | CoAuthor, Some author_hash, Some author =>
      file_coauthor_message (rv_file_id r) (rv_revision_id r) author author_hash
        (pf_signer_identity p) (pf_signer_label p) (pf_topology_generation p) (pf_policy_hash p)
  | Finalization, None, _ =>
      file_finalize_message (rv_file_id r) (rv_revision_id r)
        (pf_signer_identity p) (pf_signer_label p) (pf_topology_generation p) (pf_policy_hash p)
  | _, _, _ => Err InvalidTrackedFile
  end.

(** ** The keys and evidence a store supplies *)

Inductive BridgeEvidence := NoBridge | NonPrivateAuthorized | PrivateAuthorized.
#[global] Instance BridgeEvidence_eq_dec : EqDecision BridgeEvidence.
Proof. solve_decision. Defined.

Inductive GenerationEvidence := CurrentGeneration | RecordedGeneration | UnavailableGeneration.
#[global] Instance GenerationEvidence_eq_dec : EqDecision GenerationEvidence.
Proof. solve_decision. Defined.

(** The trait's methods; a store is any value of this type. *)
Record TrustContext := {
  signing_public : bytes -> bytes -> option bytes;
  historical_signing_publics : bytes -> bytes -> N -> list bytes;
  bridge_evidence : bytes -> BridgeEvidence;
  revision_bridge_evidence : FileRevision -> bytes -> BridgeEvidence;
  bridge_between : bytes -> bytes -> BridgeEvidence;
  generation_evidence : bytes -> N -> GenerationEvidence }.

(** The trait's default methods, given the two required ones. *)
Definition default_context (public : bytes -> bytes -> option bytes) (bridge : bytes -> BridgeEvidence)
    : TrustContext :=
  {| signing_public := public;
     historical_signing_publics _ _ _ := [];
     bridge_evidence := bridge;
     revision_bridge_evidence r _ := bridge (rv_revision_id r);
     bridge_between _ _ := NoBridge;
     generation_evidence _ _ := CurrentGeneration |}.

(** [countersign_revision]'s local [NoKeys]. *)
Definition NoKeys : TrustContext := default_context (fun _ _ => None) (fun _ => NoBridge).

Section checks.
Context `{C : Crypto}.

Definition signature_hash (p : RevisionProof) : bytes := sha256 (pf_signature p).

Definition preimage (p : RevisionProof) (r : FileRevision) : result bytes := sha256 <$> proof_message p r.

Definition event_preimage (file_id : bytes) (e : HistoryEvent) : bytes :=
  file_history_event_preimage file_id (ev_revision_id e) (ev_sequence e)
    (ev_previous_event_hash e) (ev_event_hash e).

Definition candidate_keys (ctx : TrustContext) (identity label : bytes) (generation : N) : list bytes :=
  let current := signing_public ctx identity label in
  option_list current ++
  filter (fun key => Some key <> current) (historical_signing_publics ctx identity label generation).

(** [None]: no key is known. *)
Definition check_signature (r : FileRevision) (p : RevisionProof) (ctx : TrustContext) : option bool :=
  let candidates := candidate_keys ctx (pf_signer_identity p) (pf_signer_label p) (rv_topology_generation r) in
  if decide (candidates = []) then None
  else Some (match preimage p r with
             | Ok digest => existsb (fun public => is_ok (verify_signature public digest (pf_signature p))) candidates
             | Err _ => false
             end).

Definition bound_to (r : FileRevision) (p : RevisionProof) : bool :=
  bool_decide (pf_topology_generation p = rv_topology_generation r)
  && bool_decide (pf_policy_hash p = rv_policy_hash r).

Definition proof_verifies (r : FileRevision) (p : RevisionProof) (ctx : TrustContext) : bool :=
  bound_to r p && bool_decide (check_signature r p ctx = Some true).
End checks.

(** ** Codec laws *)

Record proof_wf (p : RevisionProof) : Prop := {
  pwf_revision : fixed 32 (pf_revision_id p);
  pwf_signer : fixed 16 (pf_signer_identity p);
  pwf_label : text (pf_signer_label p);
  pwf_author_hash : opt (fixed 32) (pf_author_signature_hash p);
  pwf_generation : u64 (pf_topology_generation p);
  pwf_policy : fixed 32 (pf_policy_hash p);
  pwf_signature : fixed 64 (pf_signature p) }.

Record event_proof_wf (p : EventProof) : Prop := {
  epwf_sequence : u64 (ep_sequence p);
  epwf_signer : fixed 16 (ep_signer_identity p);
  epwf_label : text (ep_signer_label p);
  epwf_signature : fixed 64 (ep_signature p) }.

Lemma proof_kind_roundtrip k : proof_kind_from_u8 (proof_kind_code k) = Ok k.
Proof. by destruct k. Qed.
Lemma proof_kind_canonical b k : proof_kind_from_u8 b = Ok k -> proof_kind_code k = b.
Proof. destruct b; try discriminate; by intros [= <-]. Qed.

Lemma rt_proof_kind k rest : take_code proof_kind_from_u8 (proof_kind_code k :: rest) = Ok (k, rest).
Proof. apply take_code_roundtrip, proof_kind_roundtrip. Qed.
#[export] Hint Resolve rt_proof_kind : kq.

Lemma proof_codec : codec_ok proof_wf proof_encode proof_decode.
Proof.
  split.
  - intros p b rest [] E. unfold proof_encode in E. inv_ok; subst. unfold proof_decode. enc_dec. by destruct p.
  - intros data p rest E. unfold proof_decode in E. inv_parser. dec_enc. subst.
    match goal with H : take_code _ _ = Ok _ |- _ => apply take_code_Ok in H as (k & -> & Hk) end.
    apply proof_kind_canonical in Hk. subst k. dec_enc. split; [by split|].
    unfold proof_encode; simpl. run_enc. close_enc.
Qed.

Lemma event_proof_codec : codec_ok event_proof_wf event_proof_encode event_proof_decode.
Proof.
  split.
  - intros p b rest [] E. unfold event_proof_encode in E. inv_ok; subst. unfold event_proof_decode. enc_dec. by destruct p.
  - intros data p rest E. unfold event_proof_decode in E. inv_parser. dec_enc. subst. dec_enc. split; [by split|].
    unfold event_proof_encode; simpl. run_enc. close_enc.
Qed.

(** ** What a proof's digest binds *)

(** Two texts that differ within their common length start no common byte string. *)
Lemma domain_clash (d d' r r' : bytes) :
  take (min (length d) (length d')) d <> take (min (length d) (length d')) d' -> d ++ r <> d' ++ r'.
Proof.
  intros Hne E. apply Hne. apply (f_equal (take (min (length d) (length d')))) in E.
  by rewrite !take_app_le in E by lia.
Qed.

Ltac domain_contradiction :=
  match goal with H : _ ++ _ = _ ++ _ |- _ => exfalso; revert H; apply domain_clash; vm_compute; discriminate end.

(** What a revision proof signs determines what it says. If two proofs
    (over any two revisions) have the same message, they are of the same kind,
    over the same file and revision, by the same identity, at the same
    generation and policy, backing the same author signature; a content proof
    also fixes the content, and every other kind fixes the signer's label. So
    no signature can be replayed as another kind or for another revision. *)
Theorem proof_message_binds p p' r r' m :
  proof_wf p -> proof_wf p' -> revision_wf r -> revision_wf r' ->
  proof_message p r = Ok m -> proof_message p' r' = Ok m ->
  pf_kind p = pf_kind p' /\ rv_file_id r = rv_file_id r' /\ rv_revision_id r = rv_revision_id r' /\
  pf_signer_identity p = pf_signer_identity p' /\
  pf_topology_generation p = pf_topology_generation p' /\ pf_policy_hash p = pf_policy_hash p' /\
  pf_author_signature_hash p = pf_author_signature_hash p' /\
  (pf_kind p = Content -> rv_content_commitment r = rv_content_commitment r') /\
  (pf_kind p <> Content -> pf_signer_label p = pf_signer_label p').
Proof.
  intros [] [] [] [] E E'. unfold proof_message in *.
  destruct (pf_kind p), (pf_author_signature_hash p), (rv_author_identity r); try discriminate E;
    destruct (pf_kind p'), (pf_author_signature_hash p'), (rv_author_identity r'); try discriminate E';
    unfold file_revision_message, file_countersign_message, file_coauthor_message, file_finalize_message in *;
    inv_ok; subst m;
    match goal with H : ?a ++ _ = ?a ++ _ |- _ => idtac | _ => domain_contradiction end;
    unfold fixed, opt in *; split_fields; repeat split; intros; congruence.
Qed.

Module ProofDemo.
Definition author : bytes := replicate 16 x07.
Definition revision : FileRevision :=
  {| rv_revision_id := replicate 32 x03; rv_file_id := replicate 16 x01; rv_parent_revision_ids := [];
     rv_content_commitment := replicate 32 x04; rv_generated_label := str "R"; rv_user_label := None;
     rv_author_identity := Some author; rv_author_hcp_label := str "M.S";
     rv_created_at_utc := str "2026-10-02T14:32:05Z"; rv_topology_generation := 3; rv_policy_hash := replicate 32 x05 |}.
Definition finalization : RevisionProof :=
  {| pf_revision_id := rv_revision_id revision; pf_kind := Finalization; pf_signer_identity := author;
     pf_signer_label := str "M"; pf_author_signature_hash := None; pf_topology_generation := 3;
     pf_policy_hash := replicate 32 x05; pf_signature := replicate 64 x09 |}.
Definition message : bytes := match proof_message finalization revision with Ok m => m | Err _ => [] end.
Lemma revision_ok : revision_wf revision.
Proof. split; repeat constructor; vm_compute; reflexivity. Defined.
Lemma finalization_ok : proof_wf finalization.
Proof. split; repeat constructor; vm_compute; reflexivity. Defined.
Lemma message_ok : proof_message finalization revision = Ok message.
Proof. vm_compute. reflexivity. Defined.
End ProofDemo.

Lemma proof_message_binds_witness :
  proof_message ProofDemo.finalization ProofDemo.revision = Ok ProofDemo.message /\
  pf_kind ProofDemo.finalization = pf_kind ProofDemo.finalization.
Proof.
  split; [exact ProofDemo.message_ok|].
  exact (proj1 (proof_message_binds _ _ _ _ _ ProofDemo.finalization_ok ProofDemo.finalization_ok
    ProofDemo.revision_ok ProofDemo.revision_ok ProofDemo.message_ok ProofDemo.message_ok)).
Defined.
