(* ===== verification/Container.v ===== *)
(** * [src/src/file_history/container.rs] and [verify.rs]: the tracked file

    The [KQTF] container, its structural verification, check-in, append, and
    the encoding. A method that takes [&mut self] is a computation in [fileM]:
    it returns its [Result] together with the file as it leaves it, on success
    and on error alike. [fresh n] is the random id drawn for the event that
    becomes number [n] of the chain. *)

From S2P Require Import Prelude Text Crypto Envelope HistoryCodec Event Revision RevisionGraph Policy.

Record TrackedFile := {
  tf_file_id : bytes;
  tf_logical_name : bytes;
  tf_revisions : list StoredRevision;
  tf_proofs : list RevisionProof;
  tf_events : list HistoryEvent;
  tf_event_proofs : list EventProof;
  tf_policy : option FilePolicy }.
#[global] Instance TrackedFile_eq_dec : EqDecision TrackedFile.
Proof. solve_decision. Defined.

Definition set_revisions (l : list StoredRevision) (f : TrackedFile) : TrackedFile :=
  {| tf_file_id := tf_file_id f; tf_logical_name := tf_logical_name f; tf_revisions := l;
     tf_proofs := tf_proofs f; tf_events := tf_events f; tf_event_proofs := tf_event_proofs f;
     tf_policy := tf_policy f |}.
Definition set_proofs (l : list RevisionProof) (f : TrackedFile) : TrackedFile :=
  {| tf_file_id := tf_file_id f; tf_logical_name := tf_logical_name f; tf_revisions := tf_revisions f;
     tf_proofs := l; tf_events := tf_events f; tf_event_proofs := tf_event_proofs f;
     tf_policy := tf_policy f |}.
Definition set_events (l : list HistoryEvent) (f : TrackedFile) : TrackedFile :=
  {| tf_file_id := tf_file_id f; tf_logical_name := tf_logical_name f; tf_revisions := tf_revisions f;
     tf_proofs := tf_proofs f; tf_events := l; tf_event_proofs := tf_event_proofs f;
     tf_policy := tf_policy f |}.
Definition set_event_proofs (l : list EventProof) (f : TrackedFile) : TrackedFile :=
  {| tf_file_id := tf_file_id f; tf_logical_name := tf_logical_name f; tf_revisions := tf_revisions f;
     tf_proofs := tf_proofs f; tf_events := tf_events f; tf_event_proofs := l;
     tf_policy := tf_policy f |}.

(** ** Methods on [&mut TrackedFile] *)

Definition fileM (A : Type) : Type := TrackedFile -> result A * TrackedFile.
#[global] Instance fileM_ret : MRet fileM := fun _ a f => (Ok a, f).
#[global] Instance fileM_bind : MBind fileM := fun _ _ k m f =>
  match m f with (Ok a, f') => k a f' | (Err e, f') => (Err e, f') end.

Definition get_file : fileM TrackedFile := fun f => (Ok f, f).
Definition update_file (g : TrackedFile -> TrackedFile) : fileM unit := fun f => (Ok tt, g f).
(** [r?] *)
Definition try {A} (r : result A) : fileM A := fun f => (r, f).
Definition throw {A} (e : error) : fileM A := fun f => (Err e, f).

(** ** Construction and simple queries *)

Definition new_file (file_id logical_name : bytes) : TrackedFile :=
  {| tf_file_id := file_id; tf_logical_name := logical_name; tf_revisions := []; tf_proofs := [];
     tf_events := []; tf_event_proofs := []; tf_policy := None |}.

Definition with_policy (file_id logical_name : bytes) (policy : FilePolicy) : TrackedFile :=
  {| tf_file_id := file_id; tf_logical_name := logical_name; tf_revisions := []; tf_proofs := [];
     tf_events := []; tf_event_proofs := []; tf_policy := Some policy |}.

Definition graph (f : TrackedFile) : list StoredRevision := tf_revisions f.

Definition destroys_this_content (e : HistoryEvent) : bool :=
  bool_decide (ev_event_type e = E.ContentDestroyed)
  && negb (existsb (fun kv => bool_decide (kv.1 = str "gate")) (ev_details e)).

(** [stored.payload.is_some()] *)
Definition has_payload (s : StoredRevision) : bool := if sr_payload s then true else false.

Definition is_destroyed (f : TrackedFile) : bool := existsb destroys_this_content (tf_events f).

Definition proofs_for (f : TrackedFile) (revision_id : bytes) (kind : ProofKind) : list RevisionProof :=
  filter (fun p => pf_revision_id p = revision_id /\ pf_kind p = kind) (tf_proofs f).

Section container.
Context `{C : Crypto} `{U : Unicode}.

Definition history_root (f : TrackedFile) : bytes :=
  from_option ev_event_hash (genesis_hash (tf_file_id f)) (last (tf_events f)).

Definition passes_through (f : TrackedFile) (root : bytes) : bool :=
  bool_decide (root = genesis_hash (tf_file_id f))
  || existsb (fun e => bool_decide (ev_event_hash e = root)) (tf_events f).

(** [!parents[..i].contains(parent)] for every [i]. *)
Fixpoint distinct_from (before parents : list bytes) : bool :=
  match parents with
  | [] => true
  | p :: parents => negb (bool_decide (p ∈ before)) && distinct_from (before ++ [p]) parents
  end.

Definition check_in (new : NewRevision) (payload : bytes) : fileM bytes :=
  f ← get_file;
  if is_destroyed f then throw FileExpired else
  let parents := nr_parent_revision_ids new in
  let known := forallb (fun parent => bool_decide (is_Some (graph_get (graph f) parent))) parents in
  let distinct := distinct_from [] parents in
  if negb (Bool.eqb (bool_decide (parents = [])) (bool_decide (tf_revisions f = []))) || negb known || negb distinct
  then throw InvalidTrackedFile else
  revision ← try (revision_create (tf_file_id f) (tf_logical_name f) payload new);
  let id := rv_revision_id revision in
  if bool_decide (is_Some (graph_get (graph f) id)) then throw InvalidTrackedFile else
  _ ← update_file (set_revisions (tf_revisions f ++ [{| sr_revision := revision; sr_payload := Some payload |}]));
  mret id.

Definition append (fresh : nat -> bytes) (new : NewEvent) : fileM HistoryEvent :=
  f ← get_file;
  _ ← try (verify_chain (tf_file_id f) (tf_events f));
  if bool_decide (is_Some (unsafe_key (ne_details new))) then throw InvalidTrackedFile else
  if match ne_revision_id new with Some id => bool_decide (graph_get (graph f) id = None) | None => false end
  then throw InvalidTrackedFile else
  event ← try (event_seal (fresh (length (tf_events f))) (N.of_nat (length (tf_events f)))
                 (tf_file_id f) (history_root f) new);
  _ ← update_file (set_events (tf_events f ++ [event]));
  mret event.

(** ** [verify_structure] *)

Definition revision_check (file_id : bytes) (seen : gset bytes) (index : nat) (s : StoredRevision) : result bool :=
  let r := sr_revision s in
  let parents := rv_parent_revision_ids r in
  if negb (bool_decide (rv_file_id r = file_id)) then Ok false else
  id ← compute_id r;
  Ok (bool_decide (id = rv_revision_id r)
      && generated_label_is_consistent r
      && negb (bool_decide (rv_revision_id r ∈ seen))
      && forallb (fun parent => bool_decide (parent ∈ seen)) parents
      && bool_decide (size (list_to_set parents : gset bytes) = length parents)
      && Bool.eqb (index =? 0) (bool_decide (parents = []))
      && match sr_payload s with
         | Some payload => bool_decide (rv_content_commitment r = content_commitment file_id payload)
         | None => true
         end).

Fixpoint verify_revisions (file_id : bytes) (seen : gset bytes) (index : nat) (l : list StoredRevision)
    : result (gset bytes) :=
  match l with
  | [] => Ok seen
  | s :: l =>
      ok ← revision_check file_id seen index s;
      if negb ok then Err InvalidTrackedFile
      else verify_revisions file_id ({[sr_id s]} ∪ seen) (S index) l
  end.

Definition well_formed_for (p : RevisionProof) (r : FileRevision) : bool :=
  match pf_kind p with
  | Content =>
      bool_decide (pf_author_signature_hash p = None)
      && bool_decide (pf_signer_label p = rv_author_hcp_label r)
      && bool_decide (Some (pf_signer_identity p) = rv_author_identity r)
  | Countersignature => bool_decide (is_Some (pf_author_signature_hash p))
  | Finalization => bool_decide (pf_author_signature_hash p = None)
  | CoAuthor =>
      bool_decide (is_Some (pf_author_signature_hash p))
      && negb (bool_decide (pf_signer_label p = rv_author_hcp_label r))
      && negb (bool_decide (Some (pf_signer_identity p) = rv_author_identity r))
  end.

Definition slot_key (p : RevisionProof) : bytes * byte * bytes :=
  (pf_revision_id p, proof_kind_code (pf_kind p), pf_signer_label p).

Fixpoint verify_proofs (revisions : list StoredRevision) (by_id : gmap bytes nat)
    (slots : gmap (bytes * byte * bytes) (list bytes)) (l : list RevisionProof) : result unit :=
  match l with
  | [] => Ok tt
  | p :: l =>
      stored ← ok_or (position ← by_id !! pf_revision_id p; revisions !! position) InvalidTrackedFile;
      let earlier := default [] (slots !! slot_key p) in
      let duplicate := bool_decide (pf_signature p ∈ earlier) in
      if negb (well_formed_for p (sr_revision stored)) || duplicate || (MAX_PROOFS_PER_SLOT <=? length earlier)
      then Err InvalidTrackedFile
      else verify_proofs revisions by_id (<[slot_key p := earlier ++ [pf_signature p]]> slots) l
  end.

Fixpoint verify_event_proofs (events : list HistoryEvent) (signed : gset (N * bytes)) (l : list EventProof)
    : result unit :=
  match l with
  | [] => Ok tt
  | p :: l =>
      let ok := match events !! N.to_nat (ep_sequence p) with
                | Some e => bool_decide (ev_actor_label e = Some (ep_signer_label p))
                            && bool_decide (ev_actor_identity e = Some (ep_signer_identity p))
                | None => false
                end && negb (bool_decide ((ep_sequence p, ep_signer_label p) ∈ signed)) in
      if negb ok then Err InvalidTrackedFile
      else verify_event_proofs events ({[(ep_sequence p, ep_signer_label p)]} ∪ signed) l
  end.

Definition verify_structure (f : TrackedFile) : result bytes :=
  seen ← verify_revisions (tf_file_id f) ∅ 0 (tf_revisions f);
  _ ← verify_proofs (tf_revisions f) (index_of (tf_revisions f)) ∅ (tf_proofs f);
  let destroyed := is_destroyed f in
  let any_payload := existsb has_payload (tf_revisions f) in
  let all_payloads := forallb has_payload (tf_revisions f) in
  if (destroyed && any_payload) || (negb destroyed && negb all_payloads) then Err InvalidTrackedFile else
  if existsb (fun id => negb (bool_decide (id ∈ seen))) (omap ev_revision_id (tf_events f))
  then Err InvalidTrackedFile else
  _ ← verify_event_proofs (tf_events f) ∅ (tf_event_proofs f);
  verify_chain (tf_file_id f) (tf_events f).

(** ** The encoding *)

Definition CONTAINER_MAGIC : bytes := str "KQTF".
Definition CONTAINER_VERSION : N := 8.

Definition has_kind (kind : ProofKind) (proofs : list RevisionProof) : bool :=
  existsb (fun p => bool_decide (pf_kind p = kind)) proofs.

Definition container_version (f : TrackedFile) : N :=
  match has_kind CoAuthor (tf_proofs f), bool_decide (tf_event_proofs f = []), has_kind Finalization (tf_proofs f) with
  | true, _, _ => 8
  | false, false, _ => 7
  | false, true, true => 6
  | false, true, false => 5
  end.

Definition encode_unchecked (f : TrackedFile) : result bytes :=
  count ← try_u32 (length (tf_events f));
  let version := container_version f in
  name ← push_len_prefixed (tf_logical_name f);
  policy ← match tf_policy f with Some p => b ← policy_encode p; Ok (x01 :: b) | None => Ok [x00] end;
  revision_count ← try_u32 (length (tf_revisions f));
  revisions ← encode_all stored_encode (tf_revisions f);
  proof_count ← try_u32 (length (tf_proofs f));
  proofs ← encode_all proof_encode (tf_proofs f);
  events ← encode_all event_encode (tf_events f);
  event_proofs ← (if (7 <=? version)%N
                  then n ← try_u32 (length (tf_event_proofs f));
                       b ← encode_all event_proof_encode (tf_event_proofs f);
                       Ok (be_bytes 4 n ++ b)
                  else Ok []);
  Ok (CONTAINER_MAGIC ++ [byte_of_N version] ++ tf_file_id f ++ name ++ history_root f ++ policy ++
      be_bytes 4 revision_count ++ revisions ++ be_bytes 4 proof_count ++ proofs ++
      be_bytes 4 count ++ events ++ event_proofs).

Definition file_encode (f : TrackedFile) : result bytes :=
  _ ← verify_structure f; encode_unchecked f.

(** [for _ in 0..count { v.push(decode(data)?) }] after [bad(take_u32(data))]. *)
Definition take_counted {A} (p : parser A) : parser (list A) :=
  n ← bad take_u32; repeat_parser (N.to_nat n) p.

Definition take_policy : parser (option FilePolicy) :=
  flag ← take_byte;
  match flag with
  | x00 => mret None
  | x01 => p ← policy_decode; mret (Some p)
  | _ => fail InvalidTrackedFile
  end.

(** The body after the magic: the version, the stored root and the file. *)
Definition take_container : parser (bytes * TrackedFile) :=
  magic ← take_fixed 4;
  if negb (bool_decide (magic = CONTAINER_MAGIC)) then fail InvalidTrackedFile else
  v ← take_byte;
  let version := Byte.to_N v in
  if negb ((4 <=? version) && (version <=? CONTAINER_VERSION))%N then fail InvalidTrackedFile else
  file_id ← take_fixed 16;
  logical_name ← take_str;
  stored_root ← take_fixed 32;
  policy ← take_policy;
  revisions ← take_counted (stored_decode version);
  proofs ← take_counted proof_decode;
  if (version <? 6)%N && has_kind Finalization proofs then fail InvalidTrackedFile else
  if negb (Bool.eqb (has_kind CoAuthor proofs) (version =? 8)%N) then fail InvalidTrackedFile else
  events ← take_counted event_decode;
  event_proofs ← (if (7 <=? version)%N
                  then n ← bad take_u32;
                       if (n =? 0)%N && (version =? 7)%N then fail InvalidTrackedFile
                       else repeat_parser (N.to_nat n) event_proof_decode
                  else mret []);
  mret (stored_root, {| tf_file_id := file_id; tf_logical_name := logical_name; tf_revisions := revisions;
    tf_proofs := proofs; tf_events := events; tf_event_proofs := event_proofs; tf_policy := policy |}).

Definition file_decode (data : bytes) : result TrackedFile :=
  '(stored_root, file, rest) ← take_container data;
  if negb (bool_decide (rest = [])) then Err InvalidTrackedFile else
  root ← verify_structure file;
  if negb (bool_decide (root = stored_root)) then Err InvalidTrackedFile else Ok file.
End container.

(** * What [verify_structure] establishes

    The verifier of [Container] as a declarative predicate on the file, and the
    proof that the two agree. Every theorem about operations on tracked files
    goes through this predicate. *)

Definition ids (l : list StoredRevision) : list bytes := map sr_id l.

Section structure.
Context `{C : Crypto} `{U : Unicode}.

(** A revision that may follow [before] in the file [file_id]. *)
Record revision_ok (file_id : bytes) (before : list StoredRevision) (s : StoredRevision) : Prop := {
  ro_file : rv_file_id (sr_revision s) = file_id;
  ro_id : compute_id (sr_revision s) = Ok (sr_id s);
  ro_label : generated_label_is_consistent (sr_revision s) = true;
  ro_new : sr_id s ∉ ids before;
  ro_parents : sr_parents s ⊆ ids before;
  ro_distinct : NoDup (sr_parents s);
  ro_root : before = [] <-> sr_parents s = [];
  ro_payload payload : sr_payload s = Some payload ->
    rv_content_commitment (sr_revision s) = content_commitment file_id payload }.

(** The signatures [before] holds in [p]'s slot. *)
Definition slot_signatures (before : list RevisionProof) (p : RevisionProof) : list bytes :=
  map pf_signature (filter (fun q => slot_key q = slot_key p) before).

Record proof_ok (revisions : list StoredRevision) (before : list RevisionProof) (p : RevisionProof) : Prop := {
  po_revision : exists s, graph_get revisions (pf_revision_id p) = Some s /\ well_formed_for p (sr_revision s) = true;
  po_fresh : pf_signature p ∉ slot_signatures before p;
  po_room : length (slot_signatures before p) < MAX_PROOFS_PER_SLOT }.

Record event_proof_ok (events : list HistoryEvent) (before : list EventProof) (p : EventProof) : Prop := {
  epo_event : exists e, events !! N.to_nat (ep_sequence p) = Some e /\
    ev_actor_label e = Some (ep_signer_label p) /\ ev_actor_identity e = Some (ep_signer_identity p);
  epo_once : Forall (fun q => (ep_sequence q, ep_signer_label q) <> (ep_sequence p, ep_signer_label p)) before }.

Record structure_ok (f : TrackedFile) : Prop := {
  so_revisions : each_after (revision_ok (tf_file_id f)) [] (tf_revisions f);
  so_proofs : each_after (proof_ok (tf_revisions f)) [] (tf_proofs f);
  so_payloads s : s ∈ tf_revisions f -> (sr_payload s = None <-> is_destroyed f = true);
  so_events e id : e ∈ tf_events f -> ev_revision_id e = Some id -> id ∈ ids (tf_revisions f);
  so_event_proofs : each_after (event_proof_ok (tf_events f)) [] (tf_event_proofs f);
  so_chain : verify_chain (tf_file_id f) (tf_events f) = Ok (history_root f) }.

(** ** Revisions *)

Lemma size_set_le (l : list bytes) : size (list_to_set l : gset bytes) <= length l.
Proof.
  induction l as [|x l IH]; simpl; [done|].
  pose proof (size_union_alt {[x]} (list_to_set l : gset bytes)) as E. rewrite size_singleton in E.
  assert (size ((list_to_set l : gset bytes) ∖ {[x]}) <= size (list_to_set l : gset bytes)); [|lia].
  apply subseteq_size. set_solver.
Qed.

(** The source tests for duplicates by collecting into a set. *)
Lemma distinct_size (l : list bytes) : size (list_to_set l : gset bytes) = length l <-> NoDup l.
Proof.
  split; [|by apply size_list_to_set].
  induction l as [|x l IH]; simpl; [constructor|]. intros H. pose proof (size_set_le l).
  destruct (decide (x ∈ l)) as [Hx|Hx].
  - assert ({[x]} ∪ list_to_set l = (list_to_set l : gset bytes)) as E by set_solver. rewrite E in H. lia.
  - rewrite size_union, size_singleton in H by set_solver. constructor; [done|]. apply IH. lia.
Qed.

Lemma forallb_subset (l : list bytes) (X : gset bytes) :
  forallb (fun x => bool_decide (x ∈ X)) l = true <-> forall x, x ∈ l -> x ∈ X.
Proof.
  rewrite forallb_forall. setoid_rewrite bool_decide_eq_true. setoid_rewrite list_elem_of_In. done.
Qed.

Lemma eqb_decide (P Q : Prop) `{Decision P, Decision Q} : Bool.eqb (bool_decide P) (bool_decide Q) = true <-> (P <-> Q).
Proof. rewrite eqb_true_iff. repeat case_bool_decide; naive_solver. Qed.

Lemma revision_check_true file_id before index s :
  (index =? 0) = bool_decide (before = []) ->
  revision_check file_id (list_to_set (ids before)) index s = Ok true <-> revision_ok file_id before s.
Proof.
  intros Hi. unfold revision_check. rewrite Hi.
  transitivity (rv_file_id (sr_revision s) = file_id /\ compute_id (sr_revision s) = Ok (sr_id s) /\
    generated_label_is_consistent (sr_revision s) = true /\ sr_id s ∉ ids before /\ sr_parents s ⊆ ids before /\
    NoDup (sr_parents s) /\ (before = [] <-> sr_parents s = []) /\
    match sr_payload s with
    | Some payload => rv_content_commitment (sr_revision s) = content_commitment file_id payload
    | None => True end).
  - destruct (decide (rv_file_id (sr_revision s) = file_id)) as [Hf|Hf];
      [rewrite (bool_decide_true _ Hf)|rewrite (bool_decide_false _ Hf); by split; [|intros (? & _)]]. cbn [negb]. fold (sr_parents s) (sr_id s).
    destruct (compute_id (sr_revision s)) as [id|]; cbn [mbind result_bind]; [|by split; [|intros (_ & ? & _)]].
    transitivity (bool_decide (id = sr_id s) && generated_label_is_consistent (sr_revision s) &&
      negb (bool_decide (sr_id s ∈ (list_to_set (ids before) : gset bytes))) &&
      forallb (fun parent => bool_decide (parent ∈ (list_to_set (ids before) : gset bytes))) (sr_parents s) &&
      bool_decide (size (list_to_set (sr_parents s) : gset bytes) = length (sr_parents s)) &&
      Bool.eqb (bool_decide (before = [])) (bool_decide (sr_parents s = [])) &&
      match sr_payload s with
      | Some payload => bool_decide (rv_content_commitment (sr_revision s) = content_commitment file_id payload)
      | None => true end = true); [split; [apply Ok_inj|by intros ->]|].
    rewrite !andb_true_iff, negb_true_iff, forallb_subset, eqb_decide, bool_decide_eq_false,
      !bool_decide_eq_true, distinct_size, elem_of_list_to_set. setoid_rewrite elem_of_list_to_set.
    destruct (sr_payload s); rewrite ?bool_decide_eq_true; naive_solver.
  - split; [intros (?&?&?&?&?&?&?&Hp); split; try done; intros payload E; by rewrite E in Hp|].
    intros []. repeat (split; [done|]). destruct (sr_payload s); auto.
Qed.

Lemma index_zero (before : list StoredRevision) : (length before =? 0) = bool_decide (before = []).
Proof. by destruct before. Qed.

Lemma verify_revisions_Ok file_id before l seen :
  verify_revisions file_id (list_to_set (ids before)) (length before) l = Ok seen <->
  each_after (revision_ok file_id) before l /\ seen = list_to_set (ids (before ++ l)).
Proof.
  revert before; induction l as [|s l IH]; intros before; simpl.
  { rewrite app_nil_r. split; [intros E; by inv_ok|by intros [_ ->]]. }
  assert ({[sr_id s]} ∪ list_to_set (ids before) = (list_to_set (ids (before ++ [s])) : gset bytes)) as ->.
  { unfold ids. rewrite map_app, list_to_set_app_L. simpl. set_solver. }
  replace (S (length before)) with (length (before ++ [s])) by (rewrite length_app; simpl; lia).
  pose proof (revision_check_true file_id before (length before) s (index_zero before)) as HR.
  destruct (revision_check file_id (list_to_set (ids before)) (length before) s) as [[]|e];
    cbn [mbind result_bind negb].
  - rewrite IH, <- app_assoc. simpl. naive_solver.
  - split; [done|]. intros [[H _] _]. by apply HR in H.
  - split; [done|]. intros [[H _] _]. by apply HR in H.
Qed.

(** ** Proofs *)

(** The slot table after [before]. *)
Definition slots_of (before : list RevisionProof) (slots : gmap (bytes * byte * bytes) (list bytes)) : Prop :=
  forall p, default [] (slots !! slot_key p) = slot_signatures before p.

Lemma slots_of_step before slots p :
  slots_of before slots ->
  slots_of (before ++ [p]) (<[slot_key p := default [] (slots !! slot_key p) ++ [pf_signature p]]> slots).
Proof.
  intros HS q. unfold slot_signatures. rewrite filter_app, map_app, filter_cons, filter_nil.
  destruct (decide (slot_key p = slot_key q)) as [E|E].
  - rewrite E, lookup_insert_eq. simpl. by rewrite HS.
  - rewrite lookup_insert_ne by done. simpl. rewrite app_nil_r. apply HS.
Qed.

Lemma graph_get_index g id s :
  NoDup (ids g) -> (position ← index_of g !! id; g !! position) = Some s <-> graph_get g id = Some s.
Proof.
  intros HN. split.
  - destruct (index_of g !! id) as [i|] eqn:E; [|done]. simpl. intros Hi.
    apply index_of_Some in E as (s' & Hs' & <-). simplify_eq. apply graph_get_unique; [done|].
    by eapply list_elem_of_lookup_2.
  - intros [Hs <-]%graph_get_Some. apply list_elem_of_lookup in Hs as [i Hi].
    by rewrite (index_of_unique g i s).
Qed.

Lemma verify_proofs_Ok g before slots l :
  NoDup (ids g) -> slots_of before slots ->
  verify_proofs g (index_of g) slots l = Ok tt <-> each_after (proof_ok g) before l.
Proof.
  intros HN. revert before slots; induction l as [|p l IH]; intros before slots HS; [done|].
  cbn [verify_proofs each_after]. rewrite bind_Ok. rewrite (HS p).
  transitivity (exists s, graph_get g (pf_revision_id p) = Some s /\ well_formed_for p (sr_revision s) = true /\
    pf_signature p ∉ slot_signatures before p /\ length (slot_signatures before p) < MAX_PROOFS_PER_SLOT /\
    each_after (proof_ok g) (before ++ [p]) l).
  - apply exist_proper. intros s. rewrite ok_or_Ok, (graph_get_index g) by done.
    pose proof (slots_of_step before slots p HS) as HS'. rewrite (HS p) in HS'.
    rewrite <- (IH _ _ HS').
    destruct (well_formed_for p (sr_revision s)); cbn [negb orb]; [|naive_solver].
    case_bool_decide; cbn [orb]; [naive_solver|].
    destruct (Nat.leb_spec MAX_PROOFS_PER_SLOT (length (slot_signatures before p))); naive_solver lia.
  - split; [intros (s & ? & ? & ? & ? & ?); split; [split; eauto|done]|].
    intros [[(s & ? & ?)] ?]. eauto 10.
Qed.

(** ** Event proofs *)

Definition event_proof_key (p : EventProof) : N * bytes := (ep_sequence p, ep_signer_label p).

Lemma verify_event_proofs_Ok events before l :
  verify_event_proofs events (list_to_set (map event_proof_key before)) l = Ok tt <->
  each_after (event_proof_ok events) before l.
Proof.
  revert before; induction l as [|p l IH]; intros before; [done|].
  cbn [verify_event_proofs each_after].
  assert ({[(ep_sequence p, ep_signer_label p)]} ∪ list_to_set (map event_proof_key before) =
    (list_to_set (map event_proof_key (before ++ [p])) : gset (N * bytes))) as ->.
  { rewrite map_app, list_to_set_app_L. simpl. set_solver. }
  match goal with |- context [negb ?b] => destruct b eqn:B end; cbn [negb].
  - rewrite IH. split; [|by intros []]. intros H. split; [|done]. bool_hyps.
    destruct (events !! N.to_nat (ep_sequence p)) as [e|] eqn:E; [|done]. bool_hyps.
    split; [by exists e|]. apply Forall_forall. intros q Hq Eq. apply H1. apply elem_of_list_to_set, list_elem_of_fmap. by exists q.
  - split; [done|]. intros [[(e & E & El & Ei) HF] _]. rewrite E, !bool_decide_true in B by done. simpl in B.
    apply negb_false_iff, bool_decide_eq_true in B. apply elem_of_list_to_set, list_elem_of_fmap in B as (q & Eq & Hq).
    rewrite Forall_forall in HF. exfalso. by apply (HF q).
Qed.

(** ** The whole verifier *)

Lemma ids_app l l' : ids (l ++ l') = ids l ++ ids l'.
Proof. apply map_app. Qed.

Lemma revisions_ok_NoDup file_id before l :
  NoDup (ids before) -> each_after (revision_ok file_id) before l -> NoDup (ids (before ++ l)).
Proof.
  revert before; induction l as [|s l IH]; intros before HN; simpl; [by rewrite app_nil_r|].
  intros [[] H]. rewrite (cons_middle s before l), app_assoc. apply IH; [|done].
  rewrite ids_app. apply NoDup_app. split; [done|]. split; [set_solver|apply NoDup_singleton].
Qed.

Lemma structure_NoDup f : structure_ok f -> NoDup (ids (tf_revisions f)).
Proof. intros []. by eapply (revisions_ok_NoDup _ []); [constructor|]. Qed.

Lemma payload_rule_spec (f : TrackedFile) :
  (is_destroyed f && existsb has_payload (tf_revisions f))
  || (negb (is_destroyed f) && negb (forallb has_payload (tf_revisions f))) = false
  <-> forall s, s ∈ tf_revisions f -> (sr_payload s = None <-> is_destroyed f = true).
Proof.
  destruct (is_destroyed f); cbn [negb andb orb].
  - rewrite orb_false_r, <- not_true_iff_false, existsb_exists.
    setoid_rewrite <- list_elem_of_In. unfold has_payload. split.
    + intros H s Hs. split; [done|]. intros _. destruct (sr_payload s) eqn:E; [|done].
      exfalso. apply H. exists s. by rewrite E.
    + intros H (s & Hs & Hp). apply H in Hs as [_ Hs]. by rewrite Hs in Hp.
  - rewrite negb_false_iff, forallb_forall. setoid_rewrite <- list_elem_of_In. unfold has_payload. split.
    + intros H s Hs. apply H in Hs. by destruct (sr_payload s).
    + intros H s Hs. apply H in Hs. destruct (sr_payload s); [done|]. naive_solver.
Qed.

Lemma event_ids_spec (f : TrackedFile) (seen : gset bytes) :
  existsb (fun id => negb (bool_decide (id ∈ seen))) (omap ev_revision_id (tf_events f)) = false <->
  forall e id, e ∈ tf_events f -> ev_revision_id e = Some id -> id ∈ seen.
Proof.
  rewrite <- not_true_iff_false, existsb_exists. setoid_rewrite negb_true_iff.
  setoid_rewrite bool_decide_eq_false. setoid_rewrite <- list_elem_of_In. setoid_rewrite list_elem_of_omap. split.
  - intros H e id He Hid. apply dec_stable. intros Hn. apply H. exists id. eauto.
  - intros H (id & (e & He & Hid) & Hn). eauto.
Qed.

Lemma verify_structure_Ok f r : verify_structure f = Ok r <-> structure_ok f /\ r = history_root f.
Proof.
  unfold verify_structure. rewrite bind_Ok.
  transitivity (structure_ok f /\ verify_chain (tf_file_id f) (tf_events f) = Ok r).
  2: { split; intros [H E]; (split; [done|]); [by apply verify_chain_root in E|].
       subst. apply H. }
  setoid_rewrite (verify_revisions_Ok (tf_file_id f) []). setoid_rewrite bind_Ok.
  split.
  - intros (seen & [HR ->] & [] & HP & E).
    rewrite app_nil_l in *. pose proof (revisions_ok_NoDup _ [] _ ltac:(constructor) HR) as HN. rewrite app_nil_l in HN.
    apply (verify_proofs_Ok _ []) in HP; [|done|intros p; by rewrite lookup_empty].
    destruct (_ || _) eqn:B in E; [done|]. pose proof (proj1 (payload_rule_spec f) B).
    destruct (existsb _ _) eqn:B' in E; [done|]. rewrite event_ids_spec in B'. setoid_rewrite elem_of_list_to_set in B'.
    apply bind_Ok in E as ([] & HE & E). apply (verify_event_proofs_Ok _ []) in HE.
    split; [|done]. split; try done. rewrite E. f_equal. by apply verify_chain_root in E.
  - intros [H E]. pose proof (structure_NoDup f H) as HN. destruct H as [HR HP HB HE HEP HC].
    exists (list_to_set (ids (tf_revisions f))). split; [done|]. exists tt. split.
    { apply (verify_proofs_Ok _ []); [done|intros p; by rewrite lookup_empty|done]. }
    rewrite (proj2 (payload_rule_spec f) HB). rewrite (proj2 (event_ids_spec f _));
      [|by setoid_rewrite elem_of_list_to_set].
    apply bind_Ok. exists tt. split; [by apply (verify_event_proofs_Ok _ [])|done].
Qed.

Lemma verify_structure_iff f : is_ok (verify_structure f) = true <-> structure_ok f.
Proof.
  split.
  - destruct (verify_structure f) as [r|] eqn:E; [|done]. intros _. by apply verify_structure_Ok in E as [? _].
  - intros H. by rewrite (proj2 (verify_structure_Ok f (history_root f)) (conj H eq_refl)).
Qed.

(** A verified file's revision graph lists parents first, so it has no cycle. *)
Lemma structure_parents_first f : structure_ok f -> parents_first (tf_revisions f).
Proof.
  intros H i j (p & Hp & Hj). pose proof (structure_NoDup f H) as HN. destruct H as [HR _ _ _ _ _].
  unfold parents_at in Hp. destruct (tf_revisions f !! i) as [s|] eqn:Hi; [|by apply not_elem_of_nil in Hp].
  pose proof (each_after_lookup _ _ _ _ HR Hi) as []. apply ro_parents0 in Hp.
  apply list_elem_of_fmap in Hp as (q & -> & Hq). apply list_elem_of_lookup in Hq as (k & Hk).
  apply lookup_take_Some in Hk as [Hk Hlt]. rewrite (index_of_unique _ k q HN Hk) in Hj. by simplify_eq.
Qed.
End structure.
