(* ===== verification/ContainerCodec.v ===== *)
(** * The [KQTF] encoding of [container.rs]

    Round trip, and which byte strings decode to a given file. *)

From S2P Require Import Prelude Text Crypto Envelope HistoryCodec Event Revision RevisionGraph Policy Container.

(** ** Counted lists *)

Lemma try_u32_small n : (N.of_nat n < u32_max)%N -> try_u32 n = Ok (N.of_nat n).
Proof. intros H. by apply try_u32_Ok. Qed.

Section counted.
Context {A : Type} {wf : A -> Prop} {enc : A -> result bytes} {dec : parser A}.
Hypothesis L : codec_ok wf enc dec.

Lemma rt_counted l b rest :
  Forall wf l -> (N.of_nat (length l) < u32_max)%N -> encode_all enc l = Ok b ->
  take_counted dec (be_bytes 4 (N.of_nat (length l)) ++ b ++ rest) = Ok (l, rest).
Proof.
  intros W Hn E. unfold take_counted. erewrite parser_bind_eq by (by apply rt_u32).
  rewrite Nat2N.id. by apply (codec_repeat_roundtrip L).
Qed.

Lemma take_counted_canonical data l rest :
  take_counted dec data = Ok (l, rest) ->
  Forall wf l /\ exists n b, try_u32 (length l) = Ok n /\ encode_all enc l = Ok b /\ data = be_bytes 4 n ++ b ++ rest.
Proof.
  unfold take_counted. intros E. inv_parser. rewrite bad_Ok in H. apply take_u32_Ok in H as [Hv ->].
  apply (codec_repeat_canonical L) in E as (Hl & W & b & Eb & ->). split; [done|]. exists v, b.
  split; [|done]. apply try_u32_Ok. rewrite Hl, N2Nat.id. done.
Qed.
End counted.

(** ** The policy field *)

Definition opt_policy_encode (p : option FilePolicy) : result bytes :=
  match p with Some p => b ← policy_encode p; Ok (x01 :: b) | None => Ok [x00] end.

Lemma opt_policy_codec : codec_ok (opt policy_wf) opt_policy_encode take_policy.
Proof.
  split.
  - intros [p|] b rest W E; unfold take_policy, opt_policy_encode in *; inv_ok; subst; [|done].
    cbn [app]. erewrite parser_bind_eq by apply rt_byte. cbv beta iota.
    erewrite parser_bind_eq by (by eapply (codec_roundtrip _ _ _ policy_codec)). done.
  - intros data p rest E. unfold take_policy in E. inv_parser. apply take_byte_Ok in H as ->.
    destruct v; inv_parser; subst; [by split; [|eexists]|].
    apply (codec_canonical _ _ _ policy_codec) in H as (W & b & Hb & ->). split; [done|].
    exists (x01 :: b). unfold opt_policy_encode. by rewrite Hb.
Qed.

(** ** The file *)

Record file_wf (f : TrackedFile) : Prop := {
  fwf_id : fixed 16 (tf_file_id f);
  fwf_name : text (tf_logical_name f);
  fwf_policy : opt policy_wf (tf_policy f);
  fwf_revisions : Forall stored_wf (tf_revisions f);
  fwf_proofs : Forall proof_wf (tf_proofs f);
  fwf_events : Forall event_wf (tf_events f);
  fwf_event_proofs : Forall event_proof_wf (tf_event_proofs f) }.

Section codec.
Context `{C : Crypto} `{!CryptoLaws C} `{U : Unicode}.

Lemma history_root_fixed f : file_wf f -> fixed 32 (history_root f).
Proof.
  intros []. unfold history_root. destruct (last (tf_events f)) as [e|] eqn:E; simpl.
  - apply last_Some in E as [l E]. rewrite E, Forall_app, Forall_singleton in fwf_events0.
    by destruct fwf_events0 as [_ []].
  - apply sha256_length.
Qed.

Lemma container_version_range f : (5 <= container_version f <= 8)%N.
Proof. unfold container_version. destruct (has_kind CoAuthor (tf_proofs f)), (bool_decide (tf_event_proofs f = [])), (has_kind Finalization (tf_proofs f)); lia. Qed.

Lemma to_N_version f : Byte.to_N (byte_of_N (container_version f)) = container_version f.
Proof. rewrite to_N_byte_of_N. apply N.mod_small. pose proof (container_version_range f). lia. Qed.

Definition event_proofs_encode (version : N) (l : list EventProof) : result bytes :=
  if (7 <=? version)%N
  then n ← try_u32 (length l); b ← encode_all event_proof_encode l; Ok (be_bytes 4 n ++ b)
  else Ok [].

Definition take_event_proofs (version : N) : parser (list EventProof) :=
  if (7 <=? version)%N
  then n ← bad take_u32;
       if (n =? 0)%N && (version =? 7)%N then fail InvalidTrackedFile
       else repeat_parser (N.to_nat n) event_proof_decode
  else mret [].

Lemma rt_event_proofs f b rest :
  Forall event_proof_wf (tf_event_proofs f) ->
  event_proofs_encode (container_version f) (tf_event_proofs f) = Ok b ->
  take_event_proofs (container_version f) (b ++ rest) = Ok (tf_event_proofs f, rest).
Proof.
  intros W. unfold event_proofs_encode, take_event_proofs.
  destruct (N.leb_spec 7 (container_version f)) as [Hv|Hv]; intros E.
  - inv_ok. subst. rewrite <- app_assoc. erewrite parser_bind_eq by (by apply rt_u32).
    assert ((N.of_nat (length (tf_event_proofs f)) =? 0)%N && (container_version f =? 7)%N = false) as ->.
    { apply andb_false_iff. unfold container_version in *. destruct (has_kind CoAuthor (tf_proofs f)); [by right|].
      case_bool_decide as Hn; [destruct (has_kind Finalization (tf_proofs f)); lia|]. left. apply N.eqb_neq.
      destruct (tf_event_proofs f); [done|]. simpl. lia. }
    rewrite Nat2N.id. by apply (codec_repeat_roundtrip event_proof_codec).
  - inv_ok. subst. unfold container_version in *.
    destruct (has_kind CoAuthor (tf_proofs f)); [lia|]. case_bool_decide as Hn; [|lia]. by rewrite Hn.
Qed.

Lemma version_flags f :
  ((container_version f <? 6)%N && has_kind Finalization (tf_proofs f)) = false /\
  Bool.eqb (has_kind CoAuthor (tf_proofs f)) (container_version f =? 8)%N = true.
Proof.
  unfold container_version.
  destruct (has_kind CoAuthor (tf_proofs f)), (bool_decide (tf_event_proofs f = [])), (has_kind Finalization (tf_proofs f)); done.
Qed.

(** The bytes of a file under version byte [v], given the encodings of its fields. *)
Definition container_bytes (v : byte) (f : TrackedFile) (name policy revisions proofs events event_proofs : bytes) : bytes :=
  CONTAINER_MAGIC ++ [v] ++ tf_file_id f ++ name ++ history_root f ++ policy ++
  be_bytes 4 (N.of_nat (length (tf_revisions f))) ++ revisions ++
  be_bytes 4 (N.of_nat (length (tf_proofs f))) ++ proofs ++
  be_bytes 4 (N.of_nat (length (tf_events f))) ++ events ++ event_proofs.

Record field_encodings (f : TrackedFile) (name policy revisions proofs events : bytes) : Prop := {
  fe_name : push_len_prefixed (tf_logical_name f) = Ok name;
  fe_policy : opt_policy_encode (tf_policy f) = Ok policy;
  fe_revisions : encode_all stored_encode (tf_revisions f) = Ok revisions;
  fe_proofs : encode_all proof_encode (tf_proofs f) = Ok proofs;
  fe_events : encode_all event_encode (tf_events f) = Ok events;
  fe_nrevisions : (N.of_nat (length (tf_revisions f)) < u32_max)%N;
  fe_nproofs : (N.of_nat (length (tf_proofs f)) < u32_max)%N;
  fe_nevents : (N.of_nat (length (tf_events f)) < u32_max)%N }.

Lemma encode_unchecked_Ok f b :
  encode_unchecked f = Ok b <->
  exists name policy revisions proofs events event_proofs,
    field_encodings f name policy revisions proofs events /\
    event_proofs_encode (container_version f) (tf_event_proofs f) = Ok event_proofs /\
    b = container_bytes (byte_of_N (container_version f)) f name policy revisions proofs events event_proofs.
Proof.
  unfold encode_unchecked. fold (opt_policy_encode (tf_policy f)).
  fold (event_proofs_encode (container_version f) (tf_event_proofs f)). split.
  - intros E. inv_ok. subst. do 6 eexists. split; [by split|]. split; [done|]. reflexivity.
  - intros (name & policy & revisions & proofs & events & event_proofs & [] & E & ->).
    rewrite !try_u32_small by done. run_enc. reflexivity.
Qed.

Lemma take_container_bytes f v name policy revisions proofs events event_proofs :
  file_wf f -> field_encodings f name policy revisions proofs events ->
  (5 <= Byte.to_N v <= 8)%N ->
  ((Byte.to_N v <? 6)%N && has_kind Finalization (tf_proofs f)) = false ->
  Bool.eqb (has_kind CoAuthor (tf_proofs f)) (Byte.to_N v =? 8)%N = true ->
  take_event_proofs (Byte.to_N v) event_proofs = Ok (tf_event_proofs f, []) ->
  take_container (container_bytes v f name policy revisions proofs events event_proofs) =
    Ok ((history_root f, f), []).
Proof.
  intros W [] Hv Hf Hc He. pose proof (history_root_fixed f W) as HR. destruct W.
  unfold take_container, container_bytes. erewrite parser_bind_eq by (by apply rt_fixed).
  rewrite bool_decide_true by done. cbn [negb app]. erewrite parser_bind_eq by apply rt_byte. cbv zeta.
  rewrite (proj2 (N.leb_le 4 _)), (proj2 (N.leb_le _ CONTAINER_VERSION)) by (unfold CONTAINER_VERSION; lia).
  cbn [negb andb].
  erewrite parser_bind_eq by (by apply rt_fixed). erewrite parser_bind_eq by (by eapply rt_str).
  erewrite parser_bind_eq by (by apply rt_fixed).
  erewrite parser_bind_eq by (by eapply (codec_roundtrip _ _ _ opt_policy_codec)).
  erewrite parser_bind_eq by (eapply (rt_counted (stored_codec (Byte.to_N v) ltac:(lia))); done).
  erewrite parser_bind_eq by (by eapply (rt_counted proof_codec)).
  rewrite Hf, Hc. cbn [negb].
  erewrite parser_bind_eq by (by eapply (rt_counted event_codec)).
  fold (take_event_proofs (Byte.to_N v)). erewrite parser_bind_eq by exact He. by destruct f.
Qed.

Lemma take_container_encode f b :
  file_wf f -> encode_unchecked f = Ok b -> take_container b = Ok ((history_root f, f), []).
Proof.
  intros W (name & policy & revisions & proofs & events & event_proofs & F & E & ->)%encode_unchecked_Ok.
  destruct (version_flags f) as [Hf Hc].
  apply take_container_bytes; rewrite ?to_N_version; try done; [apply container_version_range|].
  rewrite <- (app_nil_r event_proofs). apply rt_event_proofs; [apply W|done].
Qed.

Lemma file_decode_Ok data f :
  file_decode data = Ok f <-> take_container data = Ok ((history_root f, f), []) /\ structure_ok f.
Proof.
  unfold file_decode. rewrite bind_Ok. split.
  - intros ([[root f'] rest] & E & H). case_bool_decide as Hr; [|done]. cbn [negb] in H. apply bind_Ok in H as (r & Hv & H).
    case_bool_decide as Hroot; [|done]. subst. apply verify_structure_Ok in Hv as [? Hroot]. subst. cbn [negb] in H. by apply Ok_inj in H as ->.
  - intros [E S]. exists (history_root f, f, []). split; [done|]. rewrite bool_decide_true by done. cbn [negb].
    rewrite (proj2 (verify_structure_Ok f (history_root f)) (conj S eq_refl)). cbn [mbind result_bind].
    by rewrite bool_decide_true.
Qed.
End codec.

(** C36: Encoding a tracked file and decoding the bytes gives the same file
    back, whichever of the container versions 5 to 8 its contents call for. *)
Theorem file_roundtrip `{C : Crypto} `{!CryptoLaws C} `{U : Unicode} f b :
  file_wf f -> file_encode f = Ok b -> file_decode b = Ok f.
Proof.
  intros W E. unfold file_encode in E. apply bind_Ok in E as (r & Hr & E).
  apply verify_structure_Ok in Hr as [S _]. apply file_decode_Ok. split; [|done]. by apply take_container_encode.
Qed.

Section canonical.
Context `{C : Crypto} `{!CryptoLaws C} `{U : Unicode}.

Lemma take_event_proofs_canonical v data l rest :
  take_event_proofs v data = Ok (l, rest) ->
  Forall event_proof_wf l /\ ((v < 7)%N -> l = []) /\ ((v = 7)%N -> l <> []) /\
  exists b, event_proofs_encode v l = Ok b /\ data = b ++ rest.
Proof.
  unfold take_event_proofs, event_proofs_encode. destruct (N.leb_spec 7 v) as [Hv|Hv]; intros E.
  - inv_parser. rewrite bad_Ok in H. apply take_u32_Ok in H as [Hn ->].
    destruct (_ && _) eqn:B in E; [done|].
    apply (codec_repeat_canonical event_proof_codec) in E as (Hl & W & b & Eb & ->).
    split; [done|]. split; [lia|]. split.
    { intros ->. rewrite andb_true_r in B. apply N.eqb_neq in B. intros ->. simpl in Hl. lia. }
    rewrite try_u32_small by (rewrite Hl, N2Nat.id; done). run_enc. rewrite Hl, N2Nat.id. close_enc.
  - inv_parser. subst. split; [constructor|]. split; [done|]. split; [lia|]. by exists [].
Qed.

(** What a successful parse read, for versions from 5 on. *)
Lemma take_container_canonical data root f :
  take_container data = Ok ((root, f), []) ->
  exists v, data !! 4 = Some v /\ (4 <= Byte.to_N v <= 8)%N /\
    ((Byte.to_N v < 6)%N -> has_kind Finalization (tf_proofs f) = false) /\
    (has_kind CoAuthor (tf_proofs f) = true <-> Byte.to_N v = 8%N) /\
    ((Byte.to_N v < 7)%N -> tf_event_proofs f = []) /\ (Byte.to_N v = 7%N -> tf_event_proofs f <> []) /\
    ((5 <= Byte.to_N v)%N -> file_wf f /\ (root = history_root f ->
      exists name policy revisions proofs events event_proofs,
        field_encodings f name policy revisions proofs events /\
        event_proofs_encode (Byte.to_N v) (tf_event_proofs f) = Ok event_proofs /\
        data = container_bytes v f name policy revisions proofs events event_proofs)).
Proof.
  unfold take_container. intros E. inv_parser. case_bool_decide as Hm; [|by inv_parser]. cbn [negb] in E.
  inv_parser. subst. cbv zeta in E. destruct (negb (_ && _)) eqn:Hv in E; [by inv_parser|].
  apply negb_false_iff, andb_true_iff in Hv as [H4%N.leb_le H8%N.leb_le]. unfold CONTAINER_VERSION in H8. inv_parser.
  destruct (_ && _) eqn:Hfin in E; [by inv_parser|]. destruct (negb _) eqn:Hco in E; [by inv_parser|].
  inv_parser. fold (take_event_proofs (Byte.to_N v0)) in *. subst.
  apply take_event_proofs_canonical in H10 as (Wep & Hlow & H7ne & bep & Eep & ->).
  apply (take_counted_canonical event_codec) in H9 as (We & ne & be & ?%try_u32_Ok & Ee & ->).
  apply (take_counted_canonical proof_codec) in H7 as (Wp & np & bp & ?%try_u32_Ok & Ep & ->).
  apply (codec_canonical _ _ _ opt_policy_codec) in H5 as (Wpol & bpol & Epol & ->).
  dec_enc. exists v0. split; [done|]. split; [lia|].
  split; [intros Hlt%N.ltb_lt; rewrite Hlt in Hfin; exact Hfin|].
  split.
  { apply negb_false_iff, eqb_prop in Hco. simpl. rewrite Hco. apply N.eqb_eq. }
  split; [exact Hlow|]. split; [exact H7ne|]. intros H5'.
  apply (take_counted_canonical (stored_codec _ H5')) in H6 as (Ws & ns & bs & ?%try_u32_Ok & Es & ->).
  destruct_and?. subst. split; [by split|]. simpl. intros ->.
  do 6 eexists. split; [by split|]. split; [exact Eep|]. rewrite app_nil_r. reflexivity.
Qed.
End canonical.

(** Decoding is canonical up to the version byte: a byte string that
    decodes is the encoding of the file it decodes to, unless it is marked with
    the legacy version 4, or with version 6 although no finalization is held. *)
Theorem file_decode_canonical `{C : Crypto} `{!CryptoLaws C} `{U : Unicode} data f :
  file_decode data = Ok f ->
  structure_ok f /\ exists v, data !! 4 = Some v /\
    ((file_wf f /\ file_encode f = Ok data) \/ v = x04 \/ (v = x06 /\ has_kind Finalization (tf_proofs f) = false)).
Proof.
  intros [E S]%file_decode_Ok. split; [done|].
  destruct (take_container_canonical data _ f E) as (v & Hv & Hr & Hfin & Hco & Hlow & H7 & HW).
  exists v. split; [done|]. destruct (decide (Byte.to_N v = 4%N)) as [E4|N4].
  { right; left. by apply byte_to_N_inj. }
  destruct HW as [W HW]; [lia|]. specialize (HW eq_refl).
  destruct (decide (Byte.to_N v = 6%N /\ has_kind Finalization (tf_proofs f) = false)) as [[E6 HF]|N6].
  { right; right. split; [by apply byte_to_N_inj|done]. }
  left. split; [done|]. assert (Byte.to_N v = container_version f) as Ev.
  { unfold container_version. destruct (has_kind CoAuthor (tf_proofs f)) eqn:HC; [by apply Hco|].
    assert (Byte.to_N v <> 8%N) by (intros H8; apply Hco in H8; congruence).
    case_bool_decide as Hep.
    - assert (Byte.to_N v <> 7%N) by (intros ?; by apply H7).
      destruct (has_kind Finalization (tf_proofs f)) eqn:HF.
      + assert (~ (Byte.to_N v < 6)%N) by (intros ?; by apply Hfin in H1). lia.
      + assert (Byte.to_N v <> 6%N) by (intros ?; by apply N6). lia.
    - assert (~ (Byte.to_N v < 7)%N) by (intros ?; by apply Hep, Hlow). lia. }
  unfold file_encode. rewrite (proj2 (verify_structure_Ok f (history_root f)) (conj S eq_refl)).
  cbn [mbind result_bind]. apply encode_unchecked_Ok. rewrite <- Ev, byte_of_to_N. exact HW.
Qed.

(** A container has a second encoding: for every file without
    finalization, co-author and event proofs (which is written as version 5),
    the same bytes marked as version 6 decode to the same file. *)
Theorem second_encoding `{C : Crypto} `{!CryptoLaws C} `{U : Unicode} f b :
  file_wf f -> container_version f = 5%N -> file_encode f = Ok b ->
  file_decode (<[4 := x06]> b) = Ok f /\ <[4 := x06]> b <> b.
Proof.
  intros W Hv E. unfold file_encode in E. apply bind_Ok in E as (r & Hr & E).
  apply verify_structure_Ok in Hr as [S _].
  apply encode_unchecked_Ok in E as (name & policy & revisions & proofs & events & event_proofs & F & Eep & ->).
  assert (has_kind CoAuthor (tf_proofs f) = false /\ tf_event_proofs f = []) as [HC Hn].
  { unfold container_version in Hv. destruct (has_kind CoAuthor (tf_proofs f)); [done|].
    case_bool_decide; [done|]. by destruct (has_kind Finalization (tf_proofs f)). }
  rewrite Hv in *.
  injection Eep as <-.
  change (<[4:=x06]> (container_bytes ?v f name policy revisions proofs events []))
    with (container_bytes x06 f name policy revisions proofs events []).
  split.
  - apply file_decode_Ok. split; [|done]. apply take_container_bytes; try done; [by rewrite HC|by rewrite Hn].
  - intros H. apply (f_equal (lookup 4)) in H. vm_compute in H. done.
Qed.

(** ** A concrete file: one revision by a scope owner, one event *)

Module FileDemo.
Import Toy.
#[export] Instance ascii_only : Unicode := {| unicode_alphanumeric _ := false; unicode_whitespace _ := false |}.

Definition file_id : bytes := replicate 16 x01.
Definition author : bytes := replicate 16 x07.
Definition policy : FilePolicy := standard (str "M.S").
Definition hash : bytes := match policy_hash policy with Ok h => h | Err _ => [] end.
Definition fresh (n : nat) : bytes := be_bytes 16 (N.of_nat n).
Definition revision (parents : list bytes) (label at_ : bytes) : NewRevision :=
  {| nr_parent_revision_ids := parents; nr_user_label := None; nr_author_identity := Some author;
     nr_author_hcp_label := label; nr_created_at_utc := at_; nr_topology_generation := 3; nr_policy_hash := hash |}.
Definition event (id : option bytes) (type : E.HistoryEventType) : NewEvent :=
  {| ne_revision_id := id; ne_occurred_at := str "2026-10-02T14:32:05Z"; ne_actor_identity := Some author;
     ne_actor_label := Some (str "M.S"); ne_topology_generation := Some 3%N; ne_event_type := type;
     ne_outcome := Success; ne_details := [] |}.

Definition build : fileM bytes :=
  id ← check_in (revision [] (str "M.S") (str "2026-10-02T14:32:05Z")) (str "hello");
  _ ← append fresh (event (Some id) E.TrackingStarted);
  mret id.
Definition built := build (with_policy file_id (str "notes.txt") policy).
Definition file : TrackedFile := Eval vm_compute in built.2.
Definition root_id : bytes := Eval vm_compute in match built.1 with Ok id => id | Err _ => [] end.
Definition encoded : bytes := Eval vm_compute in match file_encode file with Ok b => b | Err _ => [] end.

Lemma demo_file_wf : file_wf file.
Proof. split; repeat constructor; vm_compute; reflexivity. Defined.
Lemma file_encodes : file_encode file = Ok encoded.
Proof. vm_compute. reflexivity. Defined.
Lemma file_decodes : file_decode encoded = Ok file.
Proof. vm_compute. reflexivity. Defined.
Lemma built_ok : built = (Ok root_id, file).
Proof. vm_compute. reflexivity. Defined.
Lemma file_structure : structure_ok file.
Proof. apply verify_structure_iff. vm_compute. reflexivity. Defined.
End FileDemo.

Lemma file_roundtrip_witness : file_decode (C := Toy.toy) (U := FileDemo.ascii_only) FileDemo.encoded = Ok FileDemo.file.
Proof.
  exact (file_roundtrip (C := Toy.toy) (U := FileDemo.ascii_only) (CryptoLaws0 := Toy.toy_laws) FileDemo.file FileDemo.encoded
    FileDemo.demo_file_wf FileDemo.file_encodes).
Defined.

Lemma file_decode_canonical_witness :
  FileDemo.encoded !! 4 = Some x05 /\ structure_ok (C := Toy.toy) (U := FileDemo.ascii_only) FileDemo.file.
Proof.
  split; [vm_compute; reflexivity|].
  exact (proj1 (file_decode_canonical (C := Toy.toy) (U := FileDemo.ascii_only) (CryptoLaws0 := Toy.toy_laws) FileDemo.encoded FileDemo.file
    FileDemo.file_decodes)).
Defined.

Lemma second_encoding_witness :
  file_decode (C := Toy.toy) (U := FileDemo.ascii_only) (<[4 := x06]> FileDemo.encoded) = Ok FileDemo.file /\
  <[4 := x06]> FileDemo.encoded <> FileDemo.encoded.
Proof.
  exact (second_encoding (C := Toy.toy) (U := FileDemo.ascii_only) (CryptoLaws0 := Toy.toy_laws) FileDemo.file FileDemo.encoded
    FileDemo.demo_file_wf eq_refl FileDemo.file_encodes).
Defined.
