(* ===== verification/FileOps.v ===== *)
(** * [src/src/file_history/proof.rs], the operations on a file

    Adding proofs and event proofs, and that every operation so far keeps a
    verified file verified. *)

From S2P Require Import Prelude Text Crypto Envelope HistoryCodec Signing Event Revision RevisionGraph Policy Container.

(** [self.proofs.remove(position(in_slot))] *)
Definition remove_oldest (p : RevisionProof) (proofs : list RevisionProof) : list RevisionProof :=
  match list_find (fun q => same_slot q p = true) proofs with
  | Some (i, _) => delete i proofs
  | None => proofs
  end.

(** The [while] loop of [add_proof]; every round removes a proof, so the number of proofs bounds the rounds. *)
Fixpoint make_room (fuel : nat) (p : RevisionProof) (proofs : list RevisionProof) : list RevisionProof :=
  match fuel with
  | O => proofs
  | S fuel =>
      if MAX_PROOFS_PER_SLOT <=? length (filter (fun q => same_slot q p = true) proofs)
      then make_room fuel p (remove_oldest p proofs)
      else proofs
  end.

Definition add_proof (p : RevisionProof) : fileM bool :=
  f ← get_file;
  if existsb (fun mine => same_slot mine p && bool_decide (pf_signature mine = pf_signature p)) (tf_proofs f)
  then mret false
  else
    _ ← update_file (set_proofs (make_room (length (tf_proofs f)) p (tf_proofs f) ++ [p]));
    mret true.

Section operations.
Context `{C : Crypto} `{U : Unicode}.

Definition sign_event (sequence : N) (signer_identity signer_label secret : bytes) : fileM unit :=
  f ← get_file;
  event ← try (ok_or (tf_events f !! N.to_nat sequence) InvalidTrackedFile);
  if negb (bool_decide (ev_actor_label event = Some signer_label))
     || negb (bool_decide (ev_actor_identity event = Some signer_identity))
     || existsb (fun p => bool_decide (ep_sequence p = sequence) && bool_decide (ep_signer_label p = signer_label))
          (tf_event_proofs f)
  then throw InvalidTrackedFile else
  let signature := sign secret (event_preimage (tf_file_id f) event) in
  update_file (set_event_proofs (tf_event_proofs f ++
    [{| ep_sequence := sequence; ep_signer_identity := signer_identity; ep_signer_label := signer_label;
        ep_signature := signature |}])).

(** The proof the signing methods build for [r] before they sign it. *)
Definition unsigned_proof (r : FileRevision) (kind : ProofKind) (identity label : bytes)
    (author_hash : option bytes) (signature : bytes) : RevisionProof :=
  {| pf_revision_id := rv_revision_id r; pf_kind := kind; pf_signer_identity := identity;
     pf_signer_label := label; pf_author_signature_hash := author_hash;
     pf_topology_generation := rv_topology_generation r; pf_policy_hash := rv_policy_hash r;
     pf_signature := signature |}.

(** [proof.signature = sign(secret, preimage)?; if self.add_proof(proof) { Ok(()) } else { Err }] *)
Definition sign_and_add (r : FileRevision) (kind : ProofKind) (identity label : bytes)
    (author_hash : option bytes) (secret : bytes) : fileM unit :=
  digest ← try (preimage (unsigned_proof r kind identity label author_hash (replicate 64 x00)) r);
  added ← add_proof (unsigned_proof r kind identity label author_hash (sign secret digest));
  if (added : bool) then mret tt else throw InvalidTrackedFile.

Definition sign_revision (revision_id signer_identity signer_label secret : bytes) : fileM unit :=
  f ← get_file;
  stored ← try (ok_or (graph_get (graph f) revision_id) InvalidTrackedFile);
  let revision := sr_revision stored in
  if negb (bool_decide (rv_author_identity revision = Some signer_identity))
     || negb (bool_decide (rv_author_hcp_label revision = signer_label))
  then throw InvalidTrackedFile
  else sign_and_add revision Content signer_identity signer_label None secret.

Definition finalize_revision (revision_id signer_identity signer_label secret : bytes) : fileM unit :=
  f ← get_file;
  stored ← try (ok_or (graph_get (graph f) revision_id) InvalidTrackedFile);
  sign_and_add (sr_revision stored) Finalization signer_identity signer_label None secret.

(** The author proof a countersignature or co-signature backs: one that
    verifies under [ctx], else the first. *)
Definition backed_author_hash (f : TrackedFile) (revision : FileRevision) (revision_id : bytes) (ctx : TrustContext)
    : result bytes :=
  let content := proofs_for f revision_id Content in
  let verified := snd <$> list_find (fun p => proof_verifies revision p ctx = true) content in
  signature_hash <$> ok_or (match verified with Some p => Some p | None => head content end) InvalidTrackedFile.

Definition countersign_revision_checked (revision_id supervisor_identity supervisor_label secret : bytes)
    (ctx : TrustContext) : fileM unit :=
  f ← get_file;
  stored ← try (ok_or (graph_get (graph f) revision_id) InvalidTrackedFile);
  let revision := sr_revision stored in
  author_hash ← try (backed_author_hash f revision revision_id ctx);
  sign_and_add revision Countersignature supervisor_identity supervisor_label (Some author_hash) secret.

Definition countersign_revision (revision_id supervisor_identity supervisor_label secret : bytes) : fileM unit :=
  countersign_revision_checked revision_id supervisor_identity supervisor_label secret NoKeys.

Definition coauthor_revision (revision_id coauthor_identity coauthor_label secret : bytes) (ctx : TrustContext)
    : fileM unit :=
  f ← get_file;
  stored ← try (ok_or (graph_get (graph f) revision_id) InvalidTrackedFile);
  let revision := sr_revision stored in
  if bool_decide (rv_author_hcp_label revision = coauthor_label)
     || bool_decide (rv_author_identity revision = Some coauthor_identity)
  then throw InvalidTrackedFile else
  author_hash ← try (backed_author_hash f revision revision_id ctx);
  sign_and_add revision CoAuthor coauthor_identity coauthor_label (Some author_hash) secret.

Definition attach_coauthor_signature (revision_id author_signature_hash coauthor_identity coauthor_label
    signature : bytes) : fileM unit :=
  f ← get_file;
  stored ← try (ok_or (graph_get (graph f) revision_id) InvalidTrackedFile);
  let revision := sr_revision stored in
  if bool_decide (rv_author_hcp_label revision = coauthor_label)
     || bool_decide (rv_author_identity revision = Some coauthor_identity)
     || negb (existsb (fun p => bool_decide (signature_hash p = author_signature_hash))
                (proofs_for f revision_id Content))
  then throw InvalidTrackedFile else
  _ ← add_proof (unsigned_proof revision CoAuthor coauthor_identity coauthor_label
                   (Some author_signature_hash) signature);
  mret tt.
End operations.

(** ** How a verified file may grow *)

Lemma filter_sublist_mono {A} (P : A -> Prop) `{!forall x, Decision (P x)} (l l' : list A) :
  l' `sublist_of` l -> filter P l' `sublist_of` filter P l.
Proof.
  induction 1 as [|x l l' Hs IH|x l l' Hs IH]; [done|..]; rewrite !filter_cons; case_decide; try done.
  - by apply sublist_skip.
  - by apply sublist_cons.
Qed.

Section growth.
Context `{C : Crypto} `{U : Unicode}.

Lemma proof_ok_more revisions revisions' before p :
  proof_ok revisions before p -> proof_ok (revisions ++ revisions') before p.
Proof. intros [(s & Hs & Hw) ? ?]. split; [exists s; split; [by apply graph_get_app_l|done]|done..]. Qed.

Lemma structure_add_revision f s :
  structure_ok f -> is_destroyed f = false -> is_Some (sr_payload s) ->
  revision_ok (tf_file_id f) (tf_revisions f) s ->
  structure_ok (set_revisions (tf_revisions f ++ [s]) f).
Proof.
  intros [HR HP HB HE HEP HC] Hd [payload Hp] Hs.
  split; simpl; try done.
  - by apply each_after_snoc.
  - eapply each_after_impl; [|done]. intros b x _. apply proof_ok_more.
  - intros s' [Hs'| ->%list_elem_of_singleton]%elem_of_app; [by apply HB|].
    change (is_destroyed (set_revisions _ f)) with (is_destroyed f). rewrite Hp, Hd. done.
  - intros e id He Hid. rewrite ids_app. apply elem_of_app. left. by eapply HE.
Qed.

Lemma is_destroyed_snoc f e :
  is_destroyed (set_events (tf_events f ++ [e]) f) = is_destroyed f || destroys_this_content e.
Proof. unfold is_destroyed; simpl. rewrite existsb_app. simpl. by rewrite orb_false_r. Qed.

Lemma event_proof_ok_more events events' before p :
  event_proof_ok events before p -> event_proof_ok (events ++ events') before p.
Proof. intros [(e & He & ?) ?]. split; [exists e; split; [by apply lookup_app_l_Some|done]|done]. Qed.

Lemma structure_add_event f e :
  structure_ok f -> link_ok (tf_file_id f) (length (tf_events f)) (history_root f) e ->
  opt (fun id => id ∈ ids (tf_revisions f)) (ev_revision_id e) ->
  (destroys_this_content e = true -> forall s, s ∈ tf_revisions f -> sr_payload s = None) ->
  structure_ok (set_events (tf_events f ++ [e]) f).
Proof.
  intros [HR HP HB HE HEP HC] HL Hid Hd. split; simpl; try done.
  - intros s Hs. rewrite is_destroyed_snoc, (HB s Hs), orb_true_iff. split; [by left|].
    intros [?|He]; [done|]. rewrite <- (HB s Hs). by apply Hd.
  - intros e' id [He| ->%list_elem_of_singleton]%elem_of_app Eid; [by eapply HE|]. by rewrite Eid in Hid.
  - eapply each_after_impl; [|done]. intros b x _. apply event_proof_ok_more.
  - apply verify_chain_snoc. exists (history_root f). split; [done|]. split; [done|].
    unfold history_root; simpl. by rewrite last_snoc.
Qed.

Lemma slot_signatures_sublist before before' p :
  before' `sublist_of` before -> slot_signatures before' p `sublist_of` slot_signatures before p.
Proof. intros H. unfold slot_signatures. by apply fmap_sublist, filter_sublist_mono. Qed.

Lemma proof_ok_sublist revisions before before' p :
  before' `sublist_of` before -> proof_ok revisions before p -> proof_ok revisions before' p.
Proof.
  intros H%(fun H => slot_signatures_sublist _ _ p H) [Hr Hf Hn]. split; [done|..].
  - intros Hin. apply Hf. by eapply elem_of_sublist.
  - apply sublist_length in H. lia.
Qed.

Lemma structure_add_proof f proofs p :
  structure_ok f -> proofs `sublist_of` tf_proofs f -> proof_ok (tf_revisions f) proofs p ->
  structure_ok (set_proofs (proofs ++ [p]) f).
Proof.
  intros [HR HP HB HE HEP HC] Hsub Hp. split; simpl; try done.
  apply each_after_snoc. split; [|done].
  eapply each_after_sublist; [|done|done|done]. intros b b' x ? _. by apply proof_ok_sublist.
Qed.

Lemma structure_add_event_proof f p :
  structure_ok f -> event_proof_ok (tf_events f) (tf_event_proofs f) p ->
  structure_ok (set_event_proofs (tf_event_proofs f ++ [p]) f).
Proof. intros [HR HP HB HE HEP HC] Hp. split; simpl; try done. by apply each_after_snoc. Qed.
End growth.

(** ** What each operation does, on every branch *)

(** Run a method on a file, one [?] at a time. *)
Ltac run_file H :=
  repeat (unfold mbind, fileM_bind, get_file, try, throw, update_file, mret, fileM_ret in H; cbv beta iota zeta in H).

Lemma fileM_bind_Ok {A B} (m : fileM A) (k : A -> fileM B) f b f' :
  (a ← m; k a) f = (Ok b, f') -> exists a f1, m f = (Ok a, f1) /\ k a f1 = (Ok b, f').
Proof. unfold mbind, fileM_bind. destruct (m f) as [[a|e] f1]; [|done]. eauto. Qed.

Lemma try_Ok {A} (r : result A) f a f' : try r f = (Ok a, f') -> r = Ok a /\ f' = f.
Proof. unfold try. by intros [= -> ->]. Qed.

Lemma slot_key_eq p q : slot_key p = slot_key q <-> same_slot p q = true.
Proof.
  unfold slot_key, same_slot. rewrite !andb_true_iff, !bool_decide_eq_true, !pair_equal_spec.
  assert (proof_kind_code (pf_kind p) = proof_kind_code (pf_kind q) <-> pf_kind p = pf_kind q) as ->; [|done].
  split; [|by intros ->]. by destruct (pf_kind p), (pf_kind q).
Qed.

Lemma distinct_from_spec before l : distinct_from before l = true -> NoDup l /\ forall x, x ∈ l -> x ∉ before.
Proof.
  revert before; induction l as [|x l IH]; intros before; simpl; [intros _; split; [constructor|set_solver]|].
  rewrite andb_true_iff, negb_true_iff, bool_decide_eq_false. intros [Hx H%IH]. destruct H as [HN HF]. split.
  - constructor; [|done]. intros Hin. apply (HF x Hin). set_solver.
  - intros y [->|Hy]%elem_of_cons; [done|]. intros Hb. apply (HF y Hy). set_solver.
Qed.

Section effects.
Context `{C : Crypto} `{U : Unicode}.

Lemma check_in_spec new payload f r f' :
  check_in new payload f = (r, f') ->
  match r with
  | Err _ => f' = f
  | Ok id => exists s, f' = set_revisions (tf_revisions f ++ [s]) f /\ sr_id s = id /\
      sr_payload s = Some payload /\ sr_parents s = nr_parent_revision_ids new /\
      revision_create (tf_file_id f) (tf_logical_name f) payload new = Ok (sr_revision s) /\
      is_destroyed f = false /\ revision_ok (tf_file_id f) (tf_revisions f) s
  end.
Proof.
  unfold check_in. intros H. run_file H. destruct (is_destroyed f); [by simplify_eq|].
  destruct (negb _ || _ || _) eqn:B; [by simplify_eq|]. bool_hyps.
  destruct (revision_create _ _ _ _) as [rev|e] eqn:E; [|by simplify_eq].
  case_bool_decide as Hg; [by simplify_eq|]. simplify_eq.
  exists {| sr_revision := rev; sr_payload := Some payload |}.
  destruct (revision_create_fields _ _ _ _ _ E) as (Hf & Hp & Hc & _).
  repeat (split; [done|]). apply distinct_from_spec in H1 as [HN _].
  apply eqb_decide in H0 as Hroot. rename H2 into Hknown. split; simpl.
  - done.
  - by eapply revision_create_id.
  - by eapply revision_create_label.
  - apply graph_get_None. by apply eq_None_not_Some.
  - unfold sr_parents; simpl. rewrite Hp. intros x Hx. rewrite forallb_forall in Hknown.
    apply graph_get_is_Some. specialize (Hknown x (proj1 (list_elem_of_In _ _) Hx)). by apply bool_decide_eq_true in Hknown.
  - unfold sr_parents; simpl. by rewrite Hp.
  - unfold sr_parents; simpl. rewrite Hp. tauto.
  - intros p [= <-]. by rewrite Hc.
Qed.

Lemma append_spec fresh new f r f' :
  append fresh new f = (r, f') ->
  match r with
  | Err _ => f' = f
  | Ok e => f' = set_events (tf_events f ++ [e]) f /\
      event_seal (fresh (length (tf_events f))) (N.of_nat (length (tf_events f))) (tf_file_id f)
        (history_root f) new = Ok e /\
      link_ok (tf_file_id f) (length (tf_events f)) (history_root f) e /\
      unsafe_key (ne_details new) = None /\
      opt (fun id => id ∈ ids (tf_revisions f)) (ev_revision_id e)
  end.
Proof.
  unfold append. intros H. run_file H. destruct (verify_chain _ _) as [root|] eqn:V; [|by simplify_eq].
  case_bool_decide as Hk; [by simplify_eq|].
  destruct (match ne_revision_id new with Some _ => _ | None => _ end) eqn:Hid; [by simplify_eq|].
  destruct (event_seal _ _ _ _ _) as [e|] eqn:E; [|by simplify_eq]. simplify_eq.
  split; [done|]. split; [done|]. split; [by eapply event_seal_link|]. split; [by apply eq_None_not_Some|].
  destruct (event_seal_fields _ _ _ _ _ _ E) as (-> & _). destruct (ne_revision_id new) as [id|]; [|done].
  simpl. apply bool_decide_eq_false in Hid. apply graph_get_is_Some. by apply not_eq_None_Some.
Qed.

(** [append] fails only for a broken chain, an unsafe detail, an unknown revision or an oversized field. *)
Lemma append_total fresh new f root :
  verify_chain (tf_file_id f) (tf_events f) = Ok root -> unsafe_key (ne_details new) = None ->
  opt (fun id => id ∈ ids (tf_revisions f)) (ne_revision_id new) ->
  append fresh new f =
    match event_seal (fresh (length (tf_events f))) (N.of_nat (length (tf_events f))) (tf_file_id f) (history_root f) new with
    | Ok e => (Ok e, set_events (tf_events f ++ [e]) f)
    | Err err => (Err err, f)
    end.
Proof.
  intros HV HU HI. unfold append, mbind, fileM_bind, get_file, try. rewrite HV, HU. cbv beta iota zeta.
  rewrite bool_decide_false by (by intros [? ?]).
  assert (match ne_revision_id new with Some id => bool_decide (graph_get (graph f) id = None) | None => false end = false) as ->.
  { destruct (ne_revision_id new) as [id|]; [|done]. apply bool_decide_eq_false, not_eq_None_Some.
    by apply graph_get_is_Some. }
  by destruct (event_seal _ _ _ _ _).
Qed.
End effects.

Section add_proof.

Lemma remove_oldest_spec p l : 
  0 < length (filter (fun q => same_slot q p = true) l) ->
  remove_oldest p l `sublist_of` l /\
  S (length (remove_oldest p l)) = length l /\
  S (length (filter (fun q => same_slot q p = true) (remove_oldest p l))) = length (filter (fun q => same_slot q p = true) l) /\
  filter (fun q => same_slot q p <> true) (remove_oldest p l) = filter (fun q => same_slot q p <> true) l.
Proof.
  intros Hpos. unfold remove_oldest. destruct (list_find _ l) as [[i q]|] eqn:E.
  - apply list_find_Some in E as (Hi & Hq & _). split; [apply sublist_delete|].
    assert (exists a b, l = a ++ q :: b /\ delete i l = a ++ b) as (a & b & Hl & ->).
    { exists (take i l), (drop (S i) l). rewrite delete_take_drop. by rewrite take_drop_middle. }
    subst l. rewrite !filter_app, !filter_cons, !length_app.
    rewrite (decide_True (P := same_slot q p = true)) by done.
    rewrite (decide_False (P := same_slot q p <> true)) by (intros Hn; by apply Hn).
    simpl. split; [lia|]. split; [lia|done].
  - apply list_find_None in E. exfalso.
    destruct (filter (fun q => same_slot q p = true) l) as [|q l'] eqn:F; [simpl in Hpos; lia|].
    assert (q ∈ filter (fun q => same_slot q p = true) l) as [Hq Hin]%list_elem_of_filter by (rewrite F; left).
    rewrite Forall_forall in E. by apply (E q).
Qed.

Lemma make_room_spec fuel p l :
  length l <= fuel ->
  make_room fuel p l `sublist_of` l /\
  length (filter (fun q => same_slot q p = true) (make_room fuel p l)) < MAX_PROOFS_PER_SLOT /\
  filter (fun q => same_slot q p <> true) (make_room fuel p l) = filter (fun q => same_slot q p <> true) l.
Proof.
  revert l; induction fuel as [|fuel IH]; intros l HF; cbn [make_room].
  { destruct l; [|simpl in HF; lia]. split; [done|]. split; [unfold MAX_PROOFS_PER_SLOT; simpl; lia|done]. }
  destruct (Nat.leb_spec MAX_PROOFS_PER_SLOT (length (filter (fun q => same_slot q p = true) l))) as [HM|HM];
    [|split; [reflexivity|]; split; [exact HM|reflexivity]].
  destruct (remove_oldest_spec p l) as (Hs & HL & Hc & Ho); [unfold MAX_PROOFS_PER_SLOT in *; lia|].
  destruct (IH (remove_oldest p l)) as (Hs' & Hc' & Ho'); [lia|].
  split; [by etrans|]. split; [done|]. by rewrite Ho', Ho.
Qed.
End add_proof.

Section preservation.
Context `{C : Crypto} `{U : Unicode}.

Lemma slot_signatures_same_slot l p :
  slot_signatures l p = map pf_signature (filter (fun q => same_slot q p = true) l).
Proof. unfold slot_signatures. f_equal. apply list_filter_iff. intros q. apply slot_key_eq. Qed.

(** [add_proof] keeps everything but, when the slot is full, its oldest proofs, and never overfills a slot. *)
Lemma add_proof_spec p f r f' :
  add_proof p f = (r, f') ->
  (r = Ok false /\ f' = f /\ pf_signature p ∈ slot_signatures (tf_proofs f) p) \/
  (r = Ok true /\ pf_signature p ∉ slot_signatures (tf_proofs f) p /\
   exists kept, f' = set_proofs (kept ++ [p]) f /\ kept `sublist_of` tf_proofs f /\
     length (slot_signatures kept p) < MAX_PROOFS_PER_SLOT /\
     filter (fun q => same_slot q p <> true) kept = filter (fun q => same_slot q p <> true) (tf_proofs f)).
Proof.
  unfold add_proof. intros H. run_file H.
  assert (existsb (fun mine => same_slot mine p && bool_decide (pf_signature mine = pf_signature p)) (tf_proofs f) = true
    <-> pf_signature p ∈ slot_signatures (tf_proofs f) p) as HE.
  { rewrite slot_signatures_same_slot, existsb_exists, list_elem_of_fmap. split.
    - intros (q & Hq%list_elem_of_In & [Hs He%bool_decide_eq_true]%andb_true_iff). exists q.
      rewrite list_elem_of_filter. auto.
    - intros (q & He & [Hs Hq]%list_elem_of_filter). exists q. rewrite Hs, He, bool_decide_true by done.
      split; [by apply list_elem_of_In|done]. }
  destruct (existsb _ _) eqn:E.
  - left. simplify_eq. tauto.
  - right. simplify_eq. split; [done|]. split; [rewrite <- HE; done|].
    destruct (make_room_spec (length (tf_proofs f)) p (tf_proofs f)) as (Hs & Hc & Ho); [done|].
    eexists. split; [done|]. split; [done|]. rewrite slot_signatures_same_slot, length_fmap. done.
Qed.

Lemma add_proof_ok p f r f' s :
  structure_ok f -> graph_get (tf_revisions f) (pf_revision_id p) = Some s ->
  well_formed_for p (sr_revision s) = true -> add_proof p f = (r, f') -> structure_ok f'.
Proof.
  intros S Hg Hw [(_ & -> & _)|(_ & Hn & kept & -> & Hs & Hc & _)]%add_proof_spec; [done|].
  apply structure_add_proof; [done|done|]. split; [eauto| |done].
  intros Hin. apply Hn. eapply elem_of_sublist; [done|]. by apply slot_signatures_sublist.
Qed.

(** A run that keeps the file verified, and on an error leaves it as it was. *)
Definition safe_run {A} (f : TrackedFile) (run : result A * TrackedFile) : Prop :=
  structure_ok run.2 /\ match run.1 with Ok _ => True | Err _ => run.2 = f end.

Lemma safe_run_same {A} f (r : result A) : structure_ok f -> safe_run f (r, f).
Proof. intros S. split; [done|]. by destruct r. Qed.

Lemma sign_and_add_safe r kind identity label author_hash secret f s :
  structure_ok f -> graph_get (tf_revisions f) (rv_revision_id r) = Some s -> sr_revision s = r ->
  (forall signature, well_formed_for (unsigned_proof r kind identity label author_hash signature) r = true) ->
  safe_run f (sign_and_add r kind identity label author_hash secret f).
Proof.
  intros S Hg Hs Hw. unfold sign_and_add, mbind, fileM_bind, try.
  destruct (preimage _ _) as [digest|e]; [|by apply safe_run_same].
  destruct (add_proof _ f) as [[added|e] f'] eqn:E.
  - assert (structure_ok f') as S'.
    { eapply (add_proof_ok (unsigned_proof r kind identity label author_hash (sign secret digest)));
        [done|exact Hg| |exact E]. rewrite Hs. apply Hw. }
    apply add_proof_spec in E as [([= ->] & -> & _)|([= ->] & _)]; [by apply safe_run_same|]. by split.
  - apply add_proof_spec in E as [(? & _)|(? & _)]; done.
Qed.

Lemma sign_event_safe sequence identity label secret f :
  structure_ok f -> safe_run f (sign_event sequence identity label secret f).
Proof.
  intros S. unfold sign_event, mbind, fileM_bind, get_file, try.
  destruct (tf_events f !! N.to_nat sequence) as [event|] eqn:E; simpl; [|by apply safe_run_same].
  destruct (_ || _ || _) eqn:B; [by apply safe_run_same|]. bool_hyps. split; [|done].
  apply structure_add_event_proof; [done|]. split; [exists event; split; [done|by split]|].
  apply Forall_forall. intros q Hq Eq. simpl in Eq. apply pair_equal_spec in Eq as [E1 E2].
  match goal with H : existsb _ _ = false |- _ => rewrite <- not_true_iff_false in H; apply H end.
  apply existsb_exists. exists q. rewrite E1, E2, !bool_decide_true by done. by rewrite <- list_elem_of_In.
Qed.

(** Looking a revision up by id gives the stored revision of that id. *)
Lemma with_revision_safe {A} id f (k : StoredRevision -> fileM A) :
  structure_ok f ->
  (forall s, graph_get (tf_revisions f) id = Some s -> graph_get (tf_revisions f) (sr_id s) = Some s ->
     safe_run f (k s f)) ->
  safe_run f ((stored ← try (ok_or (graph_get (graph f) id) InvalidTrackedFile); k stored) f).
Proof.
  intros S Hk. unfold mbind, fileM_bind, try, graph.
  destruct (graph_get (tf_revisions f) id) as [s|] eqn:E; simpl; [|by apply safe_run_same].
  apply Hk; [done|]. by destruct (graph_get_Some _ _ _ E) as [_ ->].
Qed.

Lemma sign_revision_safe id identity label secret f :
  structure_ok f -> safe_run f (sign_revision id identity label secret f).
Proof.
  intros S. apply (with_revision_safe id f); [done|]. intros s _ Hg.
  destruct (_ || _) eqn:B; [by apply safe_run_same|]. bool_hyps.
  eapply sign_and_add_safe; [done..|]. intros sig. unfold well_formed_for; simpl.
  rewrite !bool_decide_true by congruence. done.
Qed.

Lemma finalize_revision_safe id identity label secret f :
  structure_ok f -> safe_run f (finalize_revision id identity label secret f).
Proof.
  intros S. apply (with_revision_safe id f); [done|]. intros s _ Hg.
  eapply sign_and_add_safe; [done..|]. by intros sig.
Qed.

Lemma countersign_revision_checked_safe id identity label secret ctx f :
  structure_ok f -> safe_run f (countersign_revision_checked id identity label secret ctx f).
Proof.
  intros S. apply (with_revision_safe id f); [done|]. intros s _ Hg.
  unfold mbind, fileM_bind, try. destruct (backed_author_hash _ _ _ _) as [h|]; [|by apply safe_run_same].
  eapply sign_and_add_safe; [done..|]. by intros sig.
Qed.

Lemma coauthor_well_formed r identity label h sig :
  rv_author_hcp_label r <> label -> rv_author_identity r <> Some identity ->
  well_formed_for (unsigned_proof r CoAuthor identity label (Some h) sig) r = true.
Proof.
  intros Hl Hi. unfold well_formed_for. cbn [pf_kind unsigned_proof]. rewrite !andb_true_iff, !negb_true_iff.
  rewrite bool_decide_eq_true, !bool_decide_eq_false. simpl. split; [split|]; [done|congruence..].
Qed.

Lemma coauthor_revision_safe id identity label secret ctx f :
  structure_ok f -> safe_run f (coauthor_revision id identity label secret ctx f).
Proof.
  intros S. apply (with_revision_safe id f); [done|]. intros s _ Hg.
  destruct (_ || _) eqn:B; [by apply safe_run_same|]. bool_hyps.
  unfold mbind, fileM_bind, try. destruct (backed_author_hash _ _ _ _) as [h|]; [|by apply safe_run_same].
  eapply sign_and_add_safe; [done..|]. intros sig. by apply coauthor_well_formed.
Qed.

Lemma attach_coauthor_signature_safe id h identity label sig f :
  structure_ok f -> safe_run f (attach_coauthor_signature id h identity label sig f).
Proof.
  intros S. apply (with_revision_safe id f); [done|]. intros s _ Hg.
  destruct (_ || _ || _) eqn:B; [by apply safe_run_same|]. bool_hyps.
  unfold mbind, fileM_bind, mret, fileM_ret. destruct (add_proof _ f) as [[b|e] f'] eqn:E.
  - split; [|done]. eapply add_proof_ok; [done| |by eapply coauthor_well_formed|done]. done.
  - apply add_proof_spec in E as [(? & _)|(? & _)]; done.
Qed.

Lemma check_in_safe new payload f : structure_ok f -> safe_run f (check_in new payload f).
Proof.
  intros S. destruct (check_in new payload f) as [r f'] eqn:E. apply check_in_spec in E.
  destruct r as [id|e]; [|subst; by apply safe_run_same].
  destruct E as (s & -> & _ & Hp & _ & _ & Hd & Hs). split; [|done].
  apply structure_add_revision; try done; by rewrite Hp.
Qed.

Lemma append_safe fresh new f :
  structure_ok f ->
  (ne_event_type new = E.ContentDestroyed -> (exists v, (str "gate", v) ∈ ne_details new) \/
     forall s, s ∈ tf_revisions f -> sr_payload s = None) ->
  safe_run f (append fresh new f).
Proof.
  intros S Hd. destruct (append fresh new f) as [r f'] eqn:E. apply append_spec in E.
  destruct r as [e|err]; [|subst; by apply safe_run_same].
  destruct E as (-> & Hs & HL & _ & Hid). split; [|done]. apply structure_add_event; try done.
  destruct (event_seal_fields _ _ _ _ _ _ Hs) as (_ & Ht & _ & Hdet & _).
  unfold destroys_this_content. rewrite andb_true_iff, bool_decide_eq_true, negb_true_iff, Ht, Hdet.
  intros [Htype Hgate]. destruct (Hd Htype) as [(v & Hv)|?]; [|done]. exfalso.
  rewrite <- not_true_iff_false in Hgate. apply Hgate, existsb_exists. exists (str "gate", v).
  split; [by apply list_elem_of_In|]. by apply bool_decide_eq_true.
Qed.
End preservation.
