(* ===== verification/Trust.v ===== *)
(** * [src/src/file_history/policy.rs], second half: trust and delivery

    Whether a revision is trusted under the file's policy, which revision may
    be delivered, finalization and readiness. Everything is judged against the
    keys of a [TrustContext], never taken from the container. *)

From S2P Require Import Prelude Text Crypto Envelope HistoryCodec Authority Signing Event Revision RevisionGraph Policy Container FileOps ContainerCodec.

Inductive TrustReason :=
| PolicyHashMismatch
| UnrelatedActor
| RoleForbidden
| MissingContentSignature
| GenerationMismatch
| UnknownSigner
| InvalidContentSignature
| MissingCountersignature
| InvalidCountersignature
| MissingBridgeOrOwnerApproval
| MissingBridgeApproval
| MissingScopeOwnerApproval
| MissingTopologyEvidence.
#[global] Instance TrustReason_eq_dec : EqDecision TrustReason.
Proof. solve_decision. Defined.

Inductive TrustState := Trusted | Pending (r : TrustReason) | TrustDenied (r : TrustReason).
#[global] Instance TrustState_eq_dec : EqDecision TrustState.
Proof. solve_decision. Defined.

Inductive DeliveryDecisionKind :=
| CurrentTrustedRevision
| LastTrustedRevision
| RequesterAlreadyCurrent
| DeniedNoTrustedRevision
| DeniedPolicy.
#[global] Instance DeliveryDecisionKind_eq_dec : EqDecision DeliveryDecisionKind.
Proof. solve_decision. Defined.

Definition decision_code (k : DeliveryDecisionKind) : byte :=
  match k with
  | CurrentTrustedRevision => x01 | LastTrustedRevision => x02 | RequesterAlreadyCurrent => x03
  | DeniedNoTrustedRevision => x04 | DeniedPolicy => x05
  end.

Definition decision_from_code (code : byte) : option DeliveryDecisionKind :=
  match code with
  | x01 => Some CurrentTrustedRevision | x02 => Some LastTrustedRevision | x03 => Some RequesterAlreadyCurrent
  | x04 => Some DeniedNoTrustedRevision | x05 => Some DeniedPolicy
  | _ => None
  end.

Record DeliveryDecision := {
  dd_candidate_revision : bytes;
  dd_delivered_revision : option bytes;
  dd_decision : DeliveryDecisionKind;
  dd_content_proof : option bytes }.

Record DeliveryReadiness := {
  dr_forked : bool;
  dr_author_signed : bool;
  dr_trusted : bool;
  dr_coauthored : bool }.

Definition THRESHOLD : nat := 3.
Definition potential (r : DeliveryReadiness) : nat :=
  Nat.b2n (dr_author_signed r) + Nat.b2n (dr_trusted r) + Nat.b2n (dr_coauthored r).
Definition ready (r : DeliveryReadiness) : bool := negb (dr_forked r) && (THRESHOLD <=? potential r).

Definition current_revision (f : TrackedFile) : option bytes :=
  match heads (graph f) with [only] => Some only | _ => None end.

(** [iter().find(|x| p(x))] *)
Definition find_first {A} (p : A -> bool) (l : list A) : option A := snd <$> list_find (fun x => p x = true) l.

Section trust.
Context `{C : Crypto}.

(** The content proofs that count: only the author's own. *)
Definition author_proofs (f : TrackedFile) (revision : FileRevision) (revision_id : bytes) : list RevisionProof :=
  filter (fun p => pf_signer_label p = rv_author_hcp_label revision /\
                   Some (pf_signer_identity p) = rv_author_identity revision)
    (proofs_for f revision_id Content).

(** The supervisor label that may back a revision, or the outcome already reached. *)
Definition supervisor_for (requirement : Requirement) (revision : FileRevision) (policy : FilePolicy)
    (ctx : TrustContext) : (option bytes * TrustReason) + TrustState :=
  match requirement with
  | AuthorSign | Forbidden => inr Trusted
  | AuthorSignDirectParent => inl (parent_node_label (rv_author_hcp_label revision), MissingCountersignature)
  | AuthorSignBridgeOrOwner =>
      if negb (bool_decide (revision_bridge_evidence ctx revision (fp_scope_root policy) = NoBridge)) then inr Trusted
      else inl (Some (fp_scope_root policy), MissingBridgeOrOwnerApproval)
  | AuthorSignBridgeAndOwner =>
      if bool_decide (revision_bridge_evidence ctx revision (fp_scope_root policy) = NoBridge)
      then inr (Pending MissingBridgeApproval)
      else inl (Some (fp_scope_root policy), MissingScopeOwnerApproval)
  end.

Definition counter_proofs (f : TrackedFile) (revision_id : bytes) (supervisor : option bytes) : list RevisionProof :=
  match supervisor with
  | Some label => filter (fun p => pf_signer_label p = label) (proofs_for f revision_id Countersignature)
  | None => []
  end.

Definition evaluate_revision_trust (f : TrackedFile) (revision_id : bytes) (policy : FilePolicy) (ctx : TrustContext)
    : result TrustState :=
  stored ← ok_or (graph_get (graph f) revision_id) InvalidTrackedFile;
  let revision := sr_revision stored in
  hash ← policy_hash policy;
  if negb (bool_decide (rv_policy_hash revision = hash)) then Ok (TrustDenied PolicyHashMismatch) else
  match requirement_for policy (rv_author_hcp_label revision) with
  | None => Ok (TrustDenied UnrelatedActor)
  | Some requirement =>
      if bool_decide (requirement = Forbidden) then Ok (TrustDenied RoleForbidden) else
      if bool_decide (generation_evidence ctx (fp_scope_root policy) (rv_topology_generation revision) = UnavailableGeneration)
      then Ok (Pending MissingTopologyEvidence) else
      match author_proofs f revision revision_id with
      | [] => Ok (Pending MissingContentSignature)
      | first :: rest =>
          match find_first (fun p => proof_verifies revision p ctx) (first :: rest) with
          | None =>
              if negb (bound_to revision first) then Ok (TrustDenied GenerationMismatch)
              else Ok (match check_signature revision first ctx with
                       | None => TrustDenied UnknownSigner
                       | _ => TrustDenied InvalidContentSignature
                       end)
          | Some content =>
              match supervisor_for requirement revision policy ctx with
              | inr outcome => Ok outcome
              | inl (supervisor, missing) =>
                  match counter_proofs f revision_id supervisor with
                  | [] => Ok (Pending missing)
                  | (first :: _) as counters =>
                      let author_hash := signature_hash content in
                      if existsb (fun p => bool_decide (pf_author_signature_hash p = Some author_hash)
                                           && proof_verifies revision p ctx) counters
                      then Ok Trusted
                      else Ok (TrustDenied
                        (if negb (bound_to revision first) then GenerationMismatch
                         else if negb (bool_decide (pf_author_signature_hash first = Some author_hash))
                         then InvalidCountersignature
                         else if bool_decide (check_signature revision first ctx = None) then UnknownSigner
                         else InvalidCountersignature))
                  end
              end
          end
      end
  end.

Definition is_trusted (f : TrackedFile) (policy : FilePolicy) (ctx : TrustContext) (id : bytes) : bool :=
  bool_decide (evaluate_revision_trust f id policy ctx = Ok Trusted).

Definition proof_descriptor_row (p : RevisionProof) : result bytes :=
  label ← hash_len_prefixed (pf_signer_label p);
  Ok ([proof_kind_code (pf_kind p)] ++ pf_signer_identity p ++ label ++
      match pf_author_signature_hash p with Some hash => x01 :: hash | None => [x00] end ++
      u64_be (pf_topology_generation p) ++ pf_policy_hash p ++ pf_signature p).

Definition proof_descriptor (f : TrackedFile) (revision : bytes) : result bytes :=
  rows ← encode_all proof_descriptor_row (filter (fun p => pf_revision_id p = revision) (tf_proofs f));
  Ok (sha256 (str "KQ-FILE-PROOF-DESCRIPTOR-v1" ++ revision ++ rows)).

Definition event_attested (f : TrackedFile) (sequence : N) (ctx : TrustContext) : option bytes :=
  event ← tf_events f !! N.to_nat sequence;
  let digest := event_preimage (tf_file_id f) event in
  let attests p :=
    let current := signing_public ctx (ep_signer_identity p) (ep_signer_label p) in
    let historical := match ev_topology_generation event with
                      | Some generation => historical_signing_publics ctx (ep_signer_identity p) (ep_signer_label p) generation
                      | None => []
                      end in
    existsb (fun public => is_ok (verify_signature public digest (ep_signature p))) (option_list current ++ historical) in
  ep_signer_label <$> find_first attests (filter (fun p => ep_sequence p = sequence) (tf_event_proofs f)).

Definition latest_trusted_revision_where (f : TrackedFile) (policy : FilePolicy) (ctx : TrustContext)
    (accept : bytes -> bool) : option bytes :=
  find_first (is_trusted f policy ctx) (filter (fun id => accept id = true) (map sr_id (reverse (tf_revisions f)))).

Definition latest_trusted_revision (f : TrackedFile) (policy : FilePolicy) (ctx : TrustContext) : option bytes :=
  latest_trusted_revision_where f policy ctx (fun _ => true).

(** The author's first content proof that verifies. *)
Definition verified_content (f : TrackedFile) (revision : FileRevision) (revision_id : bytes) (ctx : TrustContext)
    : option RevisionProof :=
  find_first (fun p => proof_verifies revision p ctx) (author_proofs f revision revision_id).

Definition delivery_readiness (f : TrackedFile) (revision_id recipient_identity recipient_label : bytes)
    (policy : FilePolicy) (ctx : TrustContext) : result DeliveryReadiness :=
  stored ← ok_or (graph_get (graph f) revision_id) InvalidTrackedFile;
  let revision := sr_revision stored in
  let forked := bool_decide (current_revision f = None) in
  let content := verified_content f revision revision_id ctx in
  state ← evaluate_revision_trust f revision_id policy ctx;
  let coauthored := match content with
    | Some content =>
        let author_hash := signature_hash content in
        existsb (fun p => proof_verifies revision p ctx)
          (filter (fun p => pf_signer_label p = recipient_label /\ pf_signer_identity p = recipient_identity /\
                            pf_author_signature_hash p = Some author_hash)
             (proofs_for f revision_id CoAuthor))
    | None => false
    end in
  Ok {| dr_forked := forked; dr_author_signed := bool_decide (is_Some content);
        dr_trusted := bool_decide (state = Trusted); dr_coauthored := coauthored |}.

Definition supervisor_permits (f : TrackedFile) (revision_id : bytes) (ctx : TrustContext) : bool :=
  match graph_get (graph f) revision_id, tf_policy f with
  | Some stored, Some policy =>
      let revision := sr_revision stored in
      match verified_content f revision revision_id ctx with
      | None => false
      | Some content =>
          existsb (fun p => Authority.is_ancestor_or_self (pf_signer_label p) (fp_scope_root policy)
                            && bool_decide (pf_author_signature_hash p = Some (signature_hash content))
                            && proof_verifies revision p ctx)
            (proofs_for f revision_id Countersignature)
      end
  | _, _ => false
  end.

Definition is_finalized (f : TrackedFile) (revision_id : bytes) (policy : FilePolicy) (ctx : TrustContext) : bool :=
  match graph_get (graph f) revision_id with
  | None => false
  | Some stored =>
      if negb (is_trusted f policy ctx revision_id) then false
      else existsb (fun p => Authority.is_ancestor_or_self (pf_signer_label p) (fp_scope_root policy)
                             && proof_verifies (sr_revision stored) p ctx)
             (proofs_for f revision_id Finalization)
  end.

Definition latest_finalized_ancestor (f : TrackedFile) (head : bytes) (policy : FilePolicy) (ctx : TrustContext)
    : option bytes :=
  let ancestors := ancestor_set (graph f) head in
  find_first (fun id => bool_decide (id ∈ ancestors) && is_finalized f id policy ctx)
    (map sr_id (reverse (tf_revisions f))).

Definition finalized_checkpoints (f : TrackedFile) (policy : FilePolicy) (ctx : TrustContext)
    : list (bytes * option bytes) :=
  map (fun head => (head, latest_finalized_ancestor f head policy ctx)) (heads (graph f)).

Definition select_shareable_revision (f : TrackedFile) (candidate : bytes) (requester_has : option bytes)
    (policy : FilePolicy) (ctx : TrustContext) : result DeliveryDecision :=
  _ ← ok_or (graph_get (graph f) candidate) InvalidTrackedFile;
  let '(delivered, kind) :=
    if is_trusted f policy ctx candidate then (Some candidate, CurrentTrustedRevision)
    else
      let ancestors := ancestor_set (graph f) candidate in
      match find_first (fun id => negb (bool_decide (id = candidate)) && bool_decide (id ∈ ancestors)
                                  && is_trusted f policy ctx id)
              (map sr_id (reverse (tf_revisions f))) with
      | Some id => (Some id, LastTrustedRevision)
      | None =>
          let refused := match evaluate_revision_trust f candidate policy ctx with
                         | Ok (TrustDenied _) => true | _ => false end in
          (None, if refused then DeniedPolicy else DeniedNoTrustedRevision)
      end in
  let kind := match delivered, requester_has with
              | Some id, Some held => if decide (id = held) then RequesterAlreadyCurrent else kind
              | _, _ => kind
              end in
  content_proof ← match delivered with Some id => Some <$> proof_descriptor f id | None => Ok None end;
  Ok {| dd_candidate_revision := candidate; dd_delivered_revision := delivered; dd_decision := kind;
        dd_content_proof := content_proof |}.
End trust.

(** ** First match *)

Section find_first.
Context {A : Type}.
Implicit Types (p : A -> bool) (l : list A).

Lemma find_first_Some p l x :
  find_first p l = Some x -> x ∈ l /\ p x = true /\ exists before after, l = before ++ x :: after /\ forallb (fun y => negb (p y)) before = true.
Proof.
  unfold find_first. rewrite fmap_Some. intros ([i y] & E & ->). apply list_find_Some in E as (Hi & Hp & Hb).
  split; [by eapply list_elem_of_lookup_2|]. split; [done|]. exists (take i l), (drop (S i) l).
  split; [by rewrite take_drop_middle|]. apply forallb_forall. intros z Hz%list_elem_of_In.
  apply list_elem_of_lookup in Hz as (j & Hj). apply lookup_take_Some in Hj as [Hj Hlt].
  apply negb_true_iff, not_true_iff_false. by eapply Hb.
Qed.

Lemma find_first_None p l : find_first p l = None <-> forall x, x ∈ l -> p x = false.
Proof.
  unfold find_first. rewrite fmap_None, list_find_None, Forall_forall.
  setoid_rewrite not_true_iff_false. done.
Qed.

Lemma find_first_app p l l' x : find_first p l = Some x -> find_first p (l ++ l') = Some x.
Proof.
  unfold find_first. rewrite !fmap_Some. intros ([i y] & E & ->). exists (i, y). split; [|done].
  by apply list_find_app_l.
Qed.

Lemma find_first_complete p l x : x ∈ l -> p x = true -> exists y, find_first p l = Some y.
Proof.
  intros Hx Hp. destruct (find_first p l) eqn:E; [eauto|]. exfalso. rewrite find_first_None in E.
  apply E in Hx. congruence.
Qed.
End find_first.

(** ** What trust means *)

Section meaning.
Context `{C : Crypto}.

(** A countersignature by [label] that backs the author signature [content]. *)
Definition countersigned (f : TrackedFile) (r : FileRevision) (ctx : TrustContext) (content : RevisionProof)
    (label : bytes) : Prop :=
  exists p, p ∈ proofs_for f (rv_revision_id r) Countersignature /\ pf_signer_label p = label /\
    pf_author_signature_hash p = Some (signature_hash content) /\ proof_verifies r p ctx = true.

(** What the rule asks for beyond the author's own signature. *)
Definition approved (f : TrackedFile) (r : FileRevision) (policy : FilePolicy) (ctx : TrustContext)
    (content : RevisionProof) (rule : Requirement) : Prop :=
  let bridged := revision_bridge_evidence ctx r (fp_scope_root policy) <> NoBridge in
  match rule with
  | Forbidden => False
  | AuthorSign => True
  | AuthorSignDirectParent =>
      exists parent, parent_node_label (rv_author_hcp_label r) = Some parent /\ countersigned f r ctx content parent
  | AuthorSignBridgeOrOwner => bridged \/ countersigned f r ctx content (fp_scope_root policy)
  | AuthorSignBridgeAndOwner => bridged /\ countersigned f r ctx content (fp_scope_root policy)
  end.

Lemma existsb_counters f r ctx content label :
  existsb (fun p => bool_decide (pf_author_signature_hash p = Some (signature_hash content)) && proof_verifies r p ctx)
    (counter_proofs f (rv_revision_id r) (Some label)) = true <-> countersigned f r ctx content label.
Proof.
  rewrite existsb_exists. unfold countersigned, counter_proofs. split.
  - intros (p & [Hl Hp]%list_elem_of_In%list_elem_of_filter & [Ha Hv]%andb_true_iff).
    apply bool_decide_eq_true in Ha. exists p. auto.
  - intros (p & Hp & Hl & Ha & Hv). exists p. split.
    + by apply list_elem_of_In, list_elem_of_filter.
    + by rewrite Hv, bool_decide_true.
Qed.

(** The countersignature step of the evaluation. *)
Lemma counters_Trusted f r ctx content supervisor missing (reason : RevisionProof -> TrustReason) :
  match counter_proofs f (rv_revision_id r) supervisor with
  | [] => Ok (Pending missing)
  | (first :: _) as counters =>
      if existsb (fun p => bool_decide (pf_author_signature_hash p = Some (signature_hash content))
                           && proof_verifies r p ctx) counters
      then Ok Trusted else Ok (TrustDenied (reason first))
  end = Ok Trusted <-> exists label, supervisor = Some label /\ countersigned f r ctx content label.
Proof.
  destruct supervisor as [label|]; [|simpl; naive_solver].
  pose proof (existsb_counters f r ctx content label) as HE.
  destruct (counter_proofs f (rv_revision_id r) (Some label)) as [|p l].
  - split; [done|]. intros (? & [= <-] & H). apply HE in H. done.
  - revert HE. generalize (existsb (fun p => bool_decide (pf_author_signature_hash p = Some (signature_hash content))
      && proof_verifies r p ctx) (p :: l)). intros b HE. destruct b; split; try done.
    + intros _. exists label. split; [done|]. by apply HE.
    + intros (? & [= <-] & H). by apply HE in H.
Qed.

(** The supervision step: what [supervisor_for] leads to is what [approved] asks. *)
Lemma supervised f r policy ctx content rule (reason : RevisionProof -> TrustReason) :
  rule <> Forbidden ->
  match supervisor_for rule r policy ctx with
  | inr outcome => Ok outcome
  | inl (supervisor, missing) =>
      match counter_proofs f (rv_revision_id r) supervisor with
      | [] => Ok (Pending missing)
      | (first :: _) as counters =>
          if existsb (fun p => bool_decide (pf_author_signature_hash p = Some (signature_hash content))
                               && proof_verifies r p ctx) counters
          then Ok Trusted else Ok (TrustDenied (reason first))
      end
  end = Ok Trusted <-> approved f r policy ctx content rule.
Proof.
  intros Hr. unfold supervisor_for, approved. destruct rule; try done.
  - apply counters_Trusted.
  - case_bool_decide as Hb; cbn [negb].
    + rewrite counters_Trusted. naive_solver.
    + naive_solver.
  - case_bool_decide as Hb.
    + naive_solver.
    + rewrite counters_Trusted. naive_solver.
Qed.
End meaning.

(** A branch that does not answer [Trusted], against a justification that says it must. *)
Ltac not_trusted :=
  split; [discriminate|]; intros (s' & rule' & content' & Hs & Hhash & Hrule' & Hgen & Hcontent & Happ);
  unfold verified_content in *; simplify_eq;
  try match goal with H : author_proofs _ _ _ = _ |- _ => rewrite H in Hcontent end;
  try congruence; try contradiction; try discriminate Hcontent.

Lemma evaluate_trusted_iff `{C : Crypto} f id policy ctx :
  evaluate_revision_trust f id policy ctx = Ok Trusted <->
  exists s rule content,
    graph_get (tf_revisions f) id = Some s /\
    policy_hash policy = Ok (rv_policy_hash (sr_revision s)) /\
    requirement_for policy (rv_author_hcp_label (sr_revision s)) = Some rule /\
    generation_evidence ctx (fp_scope_root policy) (rv_topology_generation (sr_revision s)) <> UnavailableGeneration /\
    verified_content f (sr_revision s) id ctx = Some content /\
    approved f (sr_revision s) policy ctx content rule.
Proof.
  unfold evaluate_revision_trust, graph.
  destruct (graph_get (tf_revisions f) id) as [s|] eqn:G; cbn [ok_or mbind result_bind]; [|not_trusted].
  destruct (graph_get_Some _ _ _ G) as [_ <-]. unfold sr_id.
  destruct (policy_hash policy) as [hash|e]; cbn [mbind result_bind]; [|not_trusted].
  destruct (decide (rv_policy_hash (sr_revision s) = hash)) as [Hh|Hh];
    [rewrite (bool_decide_true _ Hh)|rewrite (bool_decide_false _ Hh); not_trusted]. cbn [negb].
  destruct (requirement_for policy (rv_author_hcp_label (sr_revision s))) as [rule|] eqn:Hrule; [|not_trusted].
  destruct (decide (rule = Forbidden)) as [->|Hforb];
    [rewrite bool_decide_true by done; not_trusted|rewrite (bool_decide_false _ Hforb)].
  destruct (decide (generation_evidence ctx (fp_scope_root policy) (rv_topology_generation (sr_revision s)) = UnavailableGeneration)) as [Hg|Hg];
    [rewrite (bool_decide_true _ Hg); not_trusted|rewrite (bool_decide_false _ Hg)].
  unfold verified_content. destruct (author_proofs f (sr_revision s) (rv_revision_id (sr_revision s))) as [|first rest] eqn:Ha; [not_trusted|].
  destruct (find_first _ (first :: rest)) as [content|] eqn:Hc.
  - rewrite (supervised f (sr_revision s) policy ctx content rule
      (fun first => if negb (bound_to (sr_revision s) first) then GenerationMismatch
        else if negb (bool_decide (pf_author_signature_hash first = Some (signature_hash content))) then InvalidCountersignature
        else if bool_decide (check_signature (sr_revision s) first ctx = None) then UnknownSigner else InvalidCountersignature)) by done.
    split.
    + intros H. exists s, rule, content. rewrite Ha. split_and!; try done. by rewrite Hh.
    + intros (s' & rule' & content' & Hs & _ & Hr' & _ & Hc' & H). simplify_eq. rewrite Ha in Hc'. congruence.
  - destruct (bound_to (sr_revision s) first), (check_signature (sr_revision s) first ctx); not_trusted.
Qed.

Section authenticity.
Context `{C : Crypto}.

(** The digest a content signature on [r] by [identity] covers. *)
Definition content_digest (r : FileRevision) (identity : bytes) : bytes :=
  file_revision_preimage (rv_file_id r) (rv_revision_id r) (rv_content_commitment r) identity
    (rv_topology_generation r) (rv_policy_hash r).

Lemma proof_verifies_key r p ctx :
  proof_verifies r p ctx = true ->
  exists digest key, preimage p r = Ok digest /\
    key ∈ candidate_keys ctx (pf_signer_identity p) (pf_signer_label p) (rv_topology_generation r) /\
    verify_signature key digest (pf_signature p) = Ok tt /\
    pf_topology_generation p = rv_topology_generation r /\ pf_policy_hash p = rv_policy_hash r.
Proof.
  unfold proof_verifies, bound_to, check_signature. intros H. bool_hyps. case_decide; [done|].
  destruct (preimage p r) as [digest|]; [|done]. injection H0 as H0.
  apply existsb_exists in H0 as (key & Hk%list_elem_of_In & Hv). exists digest, key.
  split; [done|]. split; [done|]. split; [|done].
  by destruct (verify_signature key digest (pf_signature p)) as [[]|].
Qed.

Lemma verified_content_Some f r id ctx content :
  verified_content f r id ctx = Some content ->
  content ∈ tf_proofs f /\ pf_revision_id content = id /\ pf_kind content = Content /\
  pf_signer_label content = rv_author_hcp_label r /\ Some (pf_signer_identity content) = rv_author_identity r /\
  proof_verifies r content ctx = true.
Proof.
  unfold verified_content, author_proofs, proofs_for. intros (Hin & Hv & _)%find_first_Some.
  rewrite !list_elem_of_filter in Hin. naive_solver.
Qed.

Lemma content_authentic f r id ctx content :
  verified_content f r id ctx = Some content ->
  exists key, key ∈ candidate_keys ctx (pf_signer_identity content) (rv_author_hcp_label r) (rv_topology_generation r) /\
    rv_author_identity r = Some (pf_signer_identity content) /\
    verify_signature key (content_digest r (pf_signer_identity content)) (pf_signature content) = Ok tt.
Proof.
  intros (_ & _ & Hk & Hl & Hi & Hv)%verified_content_Some.
  apply proof_verifies_key in Hv as (digest & key & Hd & Hkey & Hs & Hg & Hp).
  exists key. rewrite Hl in Hkey. split; [done|]. split; [done|].
  unfold preimage, proof_message in Hd. rewrite Hk in Hd.
  destruct (pf_author_signature_hash content); [done|]. simpl in Hd. injection Hd as <-.
  unfold content_digest, file_revision_preimage. by rewrite <- Hg, <- Hp.
Qed.
End authenticity.

(** C2: Trust is exactly what the policy says. [evaluate_revision_trust]
    answers [Trusted] if and only if the revision is stored, was made under
    this policy (its hash), by an author whose role the policy does not forbid,
    under a topology generation the store has, with a content signature
    over exactly this file, revision, content, generation and policy that
    verifies under a key the store holds for the author's identity and label, and with the
    approval the role's rule asks for: nothing more, the direct parent's
    countersignature over that very author signature, a bridge's approval or
    the scope owner's countersignature, or both. *)
Theorem trust_characterised `{C : Crypto} f id policy ctx :
  evaluate_revision_trust f id policy ctx = Ok Trusted <->
  exists s rule content,
    let r := sr_revision s in
    graph_get (tf_revisions f) id = Some s /\
    policy_hash policy = Ok (rv_policy_hash r) /\
    requirement_for policy (rv_author_hcp_label r) = Some rule /\
    generation_evidence ctx (fp_scope_root policy) (rv_topology_generation r) <> UnavailableGeneration /\
    verified_content f r id ctx = Some content /\
    (exists key, key ∈ candidate_keys ctx (pf_signer_identity content) (rv_author_hcp_label r) (rv_topology_generation r) /\
       rv_author_identity r = Some (pf_signer_identity content) /\
       verify_signature key (content_digest r (pf_signer_identity content)) (pf_signature content) = Ok tt) /\
    approved f r policy ctx content rule.
Proof.
  rewrite evaluate_trusted_iff. split.
  - intros (s & rule & content & ? & ? & ? & ? & Hc & ?). exists s, rule, content.
    pose proof (content_authentic _ _ _ _ _ Hc). by split_and!.
  - intros (s & rule & content & ? & ? & ? & ? & ? & _ & ?). exists s, rule, content. by split_and!.
Qed.

(** ** Delivery *)

Lemma stored_ancestor_refl g id : is_Some (graph_get g id) -> RevisionGraph.is_ancestor_or_self g id id = true.
Proof.
  intros H%graph_get_is_Some. apply is_ancestor_or_self_reaches.
  destruct (index_of g !! id) as [i|] eqn:E; [|by apply index_of_None in E].
  exists i. split; [done|]. by apply reaches_index.
Qed.

Lemma find_first_rev {A} (p : A -> bool) (l : list A) x :
  find_first p (reverse l) = Some x ->
  exists before after, l = before ++ x :: after /\ p x = true /\ forall y, y ∈ after -> p y = false.
Proof.
  intros (_ & Hp & b & a & E & Hb)%find_first_Some. exists (reverse a), (reverse b). split; [|split; [done|]].
  - apply (f_equal reverse) in E. rewrite reverse_involutive, reverse_app, reverse_cons in E.
    by rewrite <- app_assoc in E.
  - intros y Hy. rewrite elem_of_reverse in Hy. rewrite forallb_forall in Hb. apply negb_true_iff, Hb. by apply (proj1 (list_elem_of_In _ _)).
Qed.

Section delivery.
Context `{C : Crypto}.

Definition trusted_ancestor (f : TrackedFile) (policy : FilePolicy) (ctx : TrustContext) (candidate x : bytes) : Prop :=
  RevisionGraph.is_ancestor_or_self (tf_revisions f) x candidate = true /\ is_trusted f policy ctx x = true.

Lemma fallback_spec f policy ctx candidate x :
  (negb (bool_decide (x = candidate)) && bool_decide (x ∈ ancestor_set (graph f) candidate) && is_trusted f policy ctx x) = true
  <-> x <> candidate /\ trusted_ancestor f policy ctx candidate x.
Proof.
  unfold trusted_ancestor. rewrite !andb_true_iff, negb_true_iff, bool_decide_eq_false, bool_decide_eq_true.
  unfold graph. rewrite ancestor_set_reaches, <- is_ancestor_or_self_reaches. tauto.
Qed.

(** The choice [select_shareable_revision] makes before the descriptor is computed. *)
Lemma select_shareable_Ok f candidate held policy ctx d :
  select_shareable_revision f candidate held policy ctx = Ok d ->
  is_Some (graph_get (tf_revisions f) candidate) /\ dd_candidate_revision d = candidate /\
  ((dd_delivered_revision d = Some candidate /\ is_trusted f policy ctx candidate = true /\
    (dd_decision d = CurrentTrustedRevision \/ (dd_decision d = RequesterAlreadyCurrent /\ held = Some candidate)))
   \/ (exists id, dd_delivered_revision d = Some id /\ is_trusted f policy ctx candidate = false /\
       find_first (fun id => negb (bool_decide (id = candidate)) && bool_decide (id ∈ ancestor_set (graph f) candidate)
                             && is_trusted f policy ctx id) (map sr_id (reverse (tf_revisions f))) = Some id /\
       (dd_decision d = LastTrustedRevision \/ (dd_decision d = RequesterAlreadyCurrent /\ held = Some id)))
   \/ (dd_delivered_revision d = None /\ is_trusted f policy ctx candidate = false /\
       find_first (fun id => negb (bool_decide (id = candidate)) && bool_decide (id ∈ ancestor_set (graph f) candidate)
                             && is_trusted f policy ctx id) (map sr_id (reverse (tf_revisions f))) = None /\
       dd_decision d = match evaluate_revision_trust f candidate policy ctx with
                       | Ok (TrustDenied _) => DeniedPolicy | _ => DeniedNoTrustedRevision end)).
Proof.
  unfold select_shareable_revision, graph. intros E. apply bind_Ok in E as (s & Hs%ok_or_Ok & E).
  split; [by rewrite Hs|]. destruct (is_trusted f policy ctx candidate) eqn:T.
  - apply bind_Ok in E as (proof & _ & E%Ok_inj). subst d. simpl. split; [done|]. left.
    split; [done|]. split; [done|]. destruct held as [h|]; [|by left]. case_decide; [subst; by right|by left].
  - destruct (find_first _ _) as [id|] eqn:F; apply bind_Ok in E as (proof & _ & E%Ok_inj); subst d; simpl; (split; [done|]); right.
    + left. exists id. split; [done|]. split; [done|]. split; [done|].
      destruct held as [h|]; [|by left]. case_decide; [subst; by right|by left].
    + right. split; [done|]. split; [done|]. split; [done|].
      destruct (evaluate_revision_trust f candidate policy ctx) as [[]|]; by destruct held.
Qed.

Lemma map_reverse {A B} (g : A -> B) (l : list A) : map g (reverse l) = reverse (map g l).
Proof. induction l as [|x l IH]; [done|]. cbn [map]. by rewrite !reverse_cons, map_app, IH. Qed.

Lemma is_trusted_stored f policy ctx x : is_trusted f policy ctx x = true -> is_Some (graph_get (tf_revisions f) x).
Proof.
  unfold is_trusted. rewrite bool_decide_eq_true, evaluate_trusted_iff. intros (s & _ & _ & E & _). by rewrite E.
Qed.
End delivery.

(** C3: Newer is not trusted. What [select_shareable_revision] delivers is
    always trusted under the policy, and is the candidate or an ancestor of it;
    the candidate itself whenever it is trusted, and otherwise the trusted
    ancestor stored last. When nothing is delivered, no ancestor of the
    candidate is trusted, and the decision tells a refusal by the policy from
    evidence that is still missing. *)
Theorem shareable_revision_trusted `{C : Crypto} f candidate held policy ctx d :
  select_shareable_revision f candidate held policy ctx = Ok d ->
  match dd_delivered_revision d with
  | Some id =>
      trusted_ancestor f policy ctx candidate id /\
      (is_trusted f policy ctx candidate = true -> id = candidate) /\
      (id <> candidate -> exists before after, map sr_id (tf_revisions f) = before ++ id :: after /\
         forall x, x ∈ after -> ~ trusted_ancestor f policy ctx candidate x) /\
      (dd_decision d = RequesterAlreadyCurrent -> held = Some id)
  | None =>
      (forall x, ~ trusted_ancestor f policy ctx candidate x) /\
      (dd_decision d = DeniedPolicy <->
         exists reason, evaluate_revision_trust f candidate policy ctx = Ok (TrustDenied reason))
  end.
Proof.
  intros (Hs & _ & [(-> & HT & HD)|[(id & -> & HT & HF & HD)|(-> & HT & HF & HD)]])%select_shareable_Ok.
  - split; [split; [by apply stored_ancestor_refl|done]|]. split; [done|]. split; [done|].
    destruct HD as [->|[_ ?]]; done.
  - rewrite map_reverse in HF. apply find_first_rev in HF as (before & after & E & [Hne HA]%fallback_spec & Hafter).
    split; [done|]. split; [congruence|]. split; [|destruct HD as [->|[_ ?]]; done].
    intros _. exists before, after. split; [done|]. intros x Hx Hx'. pose proof Hx' as [_ Ht].
    apply Hafter in Hx. apply not_true_iff_false in Hx. apply Hx, fallback_spec. split; [congruence|done].
  - split.
    + intros x Hx. pose proof Hx as [_ Ht]. destruct (decide (x = candidate)) as [->|Hne]; [congruence|].
      rewrite find_first_None in HF.
      assert (x ∈ map sr_id (reverse (tf_revisions f))) as Hin.
      { rewrite map_reverse. apply elem_of_reverse, graph_get_is_Some. by eapply is_trusted_stored. }
      apply HF in Hin. apply not_true_iff_false in Hin. by apply Hin, fallback_spec.
    + rewrite HD. destruct (evaluate_revision_trust f candidate policy ctx) as [[]|]; naive_solver.
Qed.

(** ** Proofs can be added without revoking trust *)

Section more_proofs.
Context `{C : Crypto}.

Lemma proofs_for_more f extra id kind :
  proofs_for (set_proofs (tf_proofs f ++ extra) f) id kind =
  proofs_for f id kind ++ filter (fun p => pf_revision_id p = id /\ pf_kind p = kind) extra.
Proof. unfold proofs_for. simpl. apply filter_app. Qed.

Lemma verified_content_more f extra r id ctx content :
  verified_content f r id ctx = Some content ->
  verified_content (set_proofs (tf_proofs f ++ extra) f) r id ctx = Some content.
Proof.
  unfold verified_content, author_proofs. rewrite proofs_for_more, filter_app. apply find_first_app.
Qed.

Lemma approved_more f extra r policy ctx content rule :
  approved f r policy ctx content rule ->
  approved (set_proofs (tf_proofs f ++ extra) f) r policy ctx content rule.
Proof.
  assert (forall label, countersigned f r ctx content label ->
    countersigned (set_proofs (tf_proofs f ++ extra) f) r ctx content label) as HC.
  { intros label (p & Hp & H). exists p. split; [|done]. rewrite proofs_for_more. apply elem_of_app. by left. }
  unfold approved. destruct rule; try done.
  - intros (parent & ? & ?). exists parent. auto.
  - intros [?|?]; [by left|right; auto].
  - intros [? ?]. split; auto.
Qed.
End more_proofs.

(** A competing proof never revokes trust: whatever proofs an import adds
    after the ones held (forged, unverifiable or by other signers), a revision
    that was trusted stays trusted. *)
Theorem trust_survives_more_proofs `{C : Crypto} f extra id policy ctx :
  evaluate_revision_trust f id policy ctx = Ok Trusted ->
  evaluate_revision_trust (set_proofs (tf_proofs f ++ extra) f) id policy ctx = Ok Trusted.
Proof.
  rewrite !evaluate_trusted_iff. intros (s & rule & content & ? & ? & ? & ? & Hc & Ha).
  exists s, rule, content. split_and!; try done; [by apply verified_content_more|by apply approved_more].
Qed.

(** ** Signing leads to trust *)

Section signing.
Context `{C : Crypto} `{!CryptoLaws C}.

Lemma sign_and_add_Ok r kind identity label author_hash secret f f' :
  sign_and_add r kind identity label author_hash secret f = (Ok tt, f') ->
  exists digest kept, preimage (unsigned_proof r kind identity label author_hash (replicate 64 x00)) r = Ok digest /\
    kept `sublist_of` tf_proofs f /\
    f' = set_proofs (kept ++ [unsigned_proof r kind identity label author_hash (sign secret digest)]) f.
Proof.
  unfold sign_and_add, mbind, fileM_bind, try. destruct (preimage _ _) as [digest|] eqn:P; [|done].
  destruct (add_proof _ f) as [[b|e] f''] eqn:A; [|done].
  apply add_proof_spec in A as [([= ->] & _)|([= ->] & _ & kept & -> & Hs & _)]; [done|].
  intros H. injection H as <-. exists digest, kept. auto.
Qed.

(** The signature field does not enter the preimage. *)
Lemma preimage_signature r kind identity label author_hash sig sig' :
  preimage (unsigned_proof r kind identity label author_hash sig) r =
  preimage (unsigned_proof r kind identity label author_hash sig') r.
Proof. done. Qed.

Lemma candidate_keys_current ctx identity label generation key :
  signing_public ctx identity label = Some key -> key ∈ candidate_keys ctx identity label generation.
Proof. intros E. unfold candidate_keys. rewrite E. simpl. left. Qed.

Lemma signed_proof_verifies r kind identity label author_hash secret digest ctx :
  preimage (unsigned_proof r kind identity label author_hash (replicate 64 x00)) r = Ok digest ->
  signing_public ctx identity label = Some (public_key secret) ->
  proof_verifies r (unsigned_proof r kind identity label author_hash (sign secret digest)) ctx = true.
Proof.
  intros P K. unfold proof_verifies, bound_to. simpl. rewrite !bool_decide_true by done. cbn [andb].
  apply bool_decide_eq_true. unfold check_signature. simpl.
  pose proof (candidate_keys_current ctx identity label (rv_topology_generation r) _ K) as Hk.
  case_decide as E; [rewrite E in Hk; by apply not_elem_of_nil in Hk|]. f_equal.
  rewrite (preimage_signature _ _ _ _ _ _ (replicate 64 x00)), P. apply existsb_exists.
  exists (public_key secret). split; [by apply list_elem_of_In|]. by rewrite verify_sign.
Qed.
End signing.

(** Signing leads to trust. When the policy asks only for the author's own
    signature, a revision that its author signs with [sign_revision] is trusted
    by every store that registers the author's key, has the generation, and
    holds the same policy. *)
Theorem sign_revision_trusted `{C : Crypto} `{!CryptoLaws C} f f' id identity label secret s policy ctx :
  sign_revision id identity label secret f = (Ok tt, f') ->
  graph_get (tf_revisions f) id = Some s ->
  policy_hash policy = Ok (rv_policy_hash (sr_revision s)) ->
  requirement_for policy label = Some AuthorSign ->
  generation_evidence ctx (fp_scope_root policy) (rv_topology_generation (sr_revision s)) <> UnavailableGeneration ->
  signing_public ctx identity label = Some (public_key secret) ->
  evaluate_revision_trust f' id policy ctx = Ok Trusted.
Proof.
  intros E G HP HR HG HK. destruct (graph_get_Some _ _ _ G) as [_ Hid].
  unfold sign_revision, mbind, fileM_bind, get_file, try, graph in E. rewrite G in E. simpl in E.
  destruct (_ || _) eqn:B in E; [done|]. bool_hyps.
  apply sign_and_add_Ok in E as (digest & kept & P & _ & ->).
  set (p := unsigned_proof _ _ _ _ _ _).
  assert (proof_verifies (sr_revision s) p ctx = true) as HV by (by apply signed_proof_verifies).
  destruct (find_first_complete (fun p => proof_verifies (sr_revision s) p ctx)
    (author_proofs (set_proofs (kept ++ [p]) f) (sr_revision s) id) p) as [content Hc].
  { unfold author_proofs, proofs_for. rewrite !list_elem_of_filter. simpl. split; [done|]. split; [done|]. set_solver. }
  { done. }
  apply evaluate_trusted_iff. exists s, AuthorSign, content. split_and!; try done. congruence.
Qed.

(** A co-signed delivery is released exactly when it should be: readiness
    reaches the threshold if and only if the file has a single head, the
    revision is trusted under the policy, and the recipient's own co-author
    proof over the author's verified signature verifies. *)
Theorem ready_iff `{C : Crypto} f id identity label policy ctx r :
  delivery_readiness f id identity label policy ctx = Ok r ->
  ready r = true <->
  (exists h, heads (tf_revisions f) = [h]) /\
  evaluate_revision_trust f id policy ctx = Ok Trusted /\
  exists s content p, graph_get (tf_revisions f) id = Some s /\
    verified_content f (sr_revision s) id ctx = Some content /\
    p ∈ proofs_for f id CoAuthor /\ pf_signer_label p = label /\ pf_signer_identity p = identity /\
    pf_author_signature_hash p = Some (signature_hash content) /\ proof_verifies (sr_revision s) p ctx = true.
Proof.
  unfold delivery_readiness, graph. intros E. apply bind_Ok in E as (s & Hs%ok_or_Ok & E).
  apply bind_Ok in E as (state & Ht & E%Ok_inj). rewrite Hs, Ht.
  assert (ready r = true <-> dr_forked r = false /\ dr_author_signed r = true /\ dr_trusted r = true /\ dr_coauthored r = true) as ->.
  { unfold ready, potential, THRESHOLD. rewrite andb_true_iff, negb_true_iff.
    destruct (dr_forked r), (dr_author_signed r), (dr_trusted r), (dr_coauthored r); naive_solver. }
  subst r. cbn [dr_forked dr_author_signed dr_trusted dr_coauthored].
  rewrite bool_decide_eq_false, !bool_decide_eq_true.
  assert (current_revision f <> None <-> exists h, heads (tf_revisions f) = [h]) as ->.
  { unfold current_revision, graph. destruct (heads (tf_revisions f)) as [|h []]; naive_solver. }
  split.
  - intros (Hh & [content Hc] & -> & Hco). rewrite Hc in Hco. split; [done|]. split; [done|].
    apply existsb_exists in Hco as (p & Hp%list_elem_of_In & Hv). apply list_elem_of_filter in Hp as [(? & ? & ?) Hp].
    exists s, content, p. auto 10.
  - intros (Hh & [= ->] & s' & content & p & [= <-] & Hc & Hp & ? & ? & ? & Hv). rewrite Hc.
    split; [done|]. split; [done|]. split; [done|]. apply existsb_exists. exists p. split; [|done].
    apply list_elem_of_In, list_elem_of_filter. auto.
Qed.

Module TrustDemo.
Import Toy FileDemo.
Definition secret : bytes := replicate 32 x55.
Definition other : bytes := replicate 16 x09.
(** A store that registers one key for everyone. *)
Definition ctx : TrustContext := default_context (fun _ _ => Some (public_key secret)) (fun _ => NoBridge).

Definition signed : TrackedFile := Eval vm_compute in (sign_revision root_id author (str "M.S") secret file).2.
Definition cosigned : TrackedFile :=
  Eval vm_compute in (coauthor_revision root_id other (str "M.S.2") secret ctx signed).2.
Definition stored : StoredRevision :=
  Eval vm_compute in match graph_get (tf_revisions file) root_id with Some s => s | None => GraphDemo.node [] [] end.
Definition decision : DeliveryDecision :=
  Eval vm_compute in match select_shareable_revision signed root_id None policy ctx with
                     | Ok d => d
                     | Err _ => {| dd_candidate_revision := []; dd_delivered_revision := None;
                                   dd_decision := DeniedPolicy; dd_content_proof := None |} end.
Definition readiness : DeliveryReadiness :=
  {| dr_forked := false; dr_author_signed := true; dr_trusted := true; dr_coauthored := true |}.

Lemma signed_ok : sign_revision root_id author (str "M.S") secret file = (Ok tt, signed).
Proof. vm_compute. reflexivity. Defined.
Lemma stored_ok : graph_get (tf_revisions file) root_id = Some stored.
Proof. vm_compute. reflexivity. Defined.
Lemma hash_ok : policy_hash policy = Ok (rv_policy_hash (sr_revision stored)).
Proof. vm_compute. reflexivity. Defined.
Lemma trusted_ok : evaluate_revision_trust signed root_id policy ctx = Ok Trusted.
Proof. vm_compute. reflexivity. Defined.
Lemma decision_ok : select_shareable_revision signed root_id None policy ctx = Ok decision.
Proof. vm_compute. reflexivity. Defined.
Lemma readiness_ok : delivery_readiness cosigned root_id other (str "M.S.2") policy ctx = Ok readiness.
Proof. vm_compute. reflexivity. Defined.
End TrustDemo.

Lemma shareable_revision_trusted_witness :
  dd_delivered_revision TrustDemo.decision = Some FileDemo.root_id /\
  trusted_ancestor (C := Toy.toy) TrustDemo.signed FileDemo.policy TrustDemo.ctx FileDemo.root_id FileDemo.root_id.
Proof.
  split; [vm_compute; reflexivity|].
  exact (proj1 (shareable_revision_trusted (C := Toy.toy) TrustDemo.signed FileDemo.root_id None
    FileDemo.policy TrustDemo.ctx TrustDemo.decision TrustDemo.decision_ok)).
Defined.

Lemma trust_survives_more_proofs_witness :
  evaluate_revision_trust (C := Toy.toy)
    (set_proofs (tf_proofs TrustDemo.signed ++ [ProofDemo.finalization]) TrustDemo.signed)
    FileDemo.root_id FileDemo.policy TrustDemo.ctx = Ok Trusted.
Proof.
  exact (trust_survives_more_proofs (C := Toy.toy) TrustDemo.signed [ProofDemo.finalization] FileDemo.root_id
    FileDemo.policy TrustDemo.ctx TrustDemo.trusted_ok).
Defined.

Lemma sign_revision_trusted_witness :
  evaluate_revision_trust (C := Toy.toy) TrustDemo.signed FileDemo.root_id FileDemo.policy TrustDemo.ctx = Ok Trusted.
Proof.
  refine (sign_revision_trusted (C := Toy.toy) (CryptoLaws0 := Toy.toy_laws)
    FileDemo.file TrustDemo.signed FileDemo.root_id
    FileDemo.author (str "M.S") TrustDemo.secret TrustDemo.stored FileDemo.policy TrustDemo.ctx
    TrustDemo.signed_ok TrustDemo.stored_ok TrustDemo.hash_ok _ _ _); [vm_compute; reflexivity| |reflexivity].
  discriminate.
Defined.

Lemma ready_iff_witness :
  ready TrustDemo.readiness = true /\ exists h, heads (tf_revisions TrustDemo.cosigned) = [h].
Proof.
  split; [reflexivity|].
  exact (proj1 (proj1 (ready_iff (C := Toy.toy) TrustDemo.cosigned FileDemo.root_id TrustDemo.other
    (str "M.S.2") FileDemo.policy TrustDemo.ctx TrustDemo.readiness TrustDemo.readiness_ok) eq_refl)).
Defined.
