(* ===== verification/Diff.v ===== *)
(** * [src/src/file_history/merge.rs], the line matcher and the diff

    [matches] (longest common subsequence with common prefix and suffix
    trimmed), [hunks], [diff_hunks] and [apply_hunks]. A line is a byte string;
    the flat table of the source is a list of rows. *)

From S2P Require Import Prelude Text.

Definition MAX_DIFF_CELLS : N := 4000000.

(** [l[i..j]]; the source never takes it with [i > j] or [j > len], which is part of what is proved. *)
Definition slice {A} (i j : nat) (l : list A) : list A := take (j - i) (drop i l).

Fixpoint common_prefix (a b : list bytes) : nat :=
  match a, b with
  | x :: a, y :: b => if decide (x = y) then S (common_prefix a b) else 0
  | _, _ => 0
  end.

(** Row [i] of the table from row [i + 1]: cell [j] from its right neighbour and the two cells below. *)
Fixpoint lcs_row (x : bytes) (mb : list bytes) (below : list nat) : list nat :=
  match mb, below with
  | y :: mb, b :: below =>
      let rest := lcs_row x mb below in
      (if decide (x = y) then hd 0 below + 1 else Nat.max b (hd 0 rest)) :: rest
  | _, _ => [0]
  end.

Fixpoint lcs_table (ma mb : list bytes) : list (list nat) :=
  match ma with
  | [] => [replicate (S (length mb)) 0]
  | x :: ma => let table := lcs_table ma mb in lcs_row x mb (hd [] table) :: table
  end.

Definition cell (table : list (list nat)) (i j : nat) : nat := default 0 (row ← table !! i; row !! j).

(** The [while i < na && j < nb] loop; each round advances [i] or [j], so [na + nb] rounds are enough. *)
Fixpoint walk (fuel : nat) (ma mb : list bytes) (table : list (list nat)) (prefix i j : nat) : list (nat * nat) :=
  match fuel with
  | O => []
  | S fuel =>
      match ma !! i, mb !! j with
      | Some x, Some y =>
          if decide (x = y) then (prefix + i, prefix + j) :: walk fuel ma mb table prefix (S i) (S j)
          else if cell table i (S j) <=? cell table (S i) j then walk fuel ma mb table prefix (S i) j
          else walk fuel ma mb table prefix i (S j)
      | _, _ => []
      end
  end.

Definition matches (a b : list bytes) : option (list (nat * nat)) :=
  let prefix := common_prefix a b in
  let suffix := common_prefix (reverse (drop prefix a)) (reverse (drop prefix b)) in
  let ma := slice prefix (length a - suffix) a in
  let mb := slice prefix (length b - suffix) b in
  if (MAX_DIFF_CELLS <? N.of_nat (S (length ma)) * N.of_nat (S (length mb)))%N then None
  else
    Some (map (fun i => (i, i)) (seq 0 prefix) ++
          walk (length ma + length mb) ma mb (lcs_table ma mb) prefix 0 0 ++
          map (fun k => (length a - suffix + k, length b - suffix + k)) (seq 0 suffix)).

(** [Hunk] and [DiffHunk]: base lines [start..end] become [lines]. *)
Record Hunk := { h_start : nat; h_end : nat; h_lines : list bytes }.
#[global] Instance Hunk_eq_dec : EqDecision Hunk.
Proof. solve_decision. Defined.

Definition is_insertion (h : Hunk) : bool := h_start h =? h_end h.

(** The loop of [hunks] over the matches and the final sentinel. *)
Fixpoint hunks_from (other : list bytes) (bi oi : nat) (found : list (nat * nat)) : list Hunk :=
  match found with
  | [] => []
  | (mb, mo) :: found =>
      (if (bi <? mb) || (oi <? mo)
       then [{| h_start := bi; h_end := mb; h_lines := slice oi mo other |}] else [])
      ++ hunks_from other (S mb) (S mo) found
  end.

Definition hunks (base other : list bytes) : option (list Hunk) :=
  found ← matches base other;
  Some (hunks_from other 0 0 (found ++ [(length base, length other)])).

Definition overlaps (a b : Hunk) : bool :=
  ((h_start a <? h_end b) && (h_start b <? h_end a))
  || (is_insertion a && is_insertion b && (h_start a =? h_start b)).

Definition diff_hunks (old new : bytes) : option (list Hunk) :=
  hunks (split_inclusive newline old) (split_inclusive newline new).

(** [sort_by_key] is stable: an element goes before the first that is not smaller. *)
Fixpoint insert_sorted {A} (le : A -> A -> bool) (x : A) (l : list A) : list A :=
  match l with
  | [] => [x]
  | y :: l => if le x y then x :: y :: l else y :: insert_sorted le x l
  end.
Definition stable_sort {A} (le : A -> A -> bool) (l : list A) : list A := foldr (insert_sorted le) [] l.

Definition hunk_le (a b : Hunk) : bool :=
  (h_start a <? h_start b) || ((h_start a =? h_start b) && (h_end a <=? h_end b)).

(** The loop of [apply_hunks], from base position [at_] and the hunk before. *)
Fixpoint apply_loop (base_lines : list bytes) (at_ : nat) (previous : option Hunk) (ordered : list Hunk) : option bytes :=
  match ordered with
  | [] => Some (mjoin (drop at_ base_lines))
  | hunk :: ordered =>
      let clash := match previous with
        | Some prior =>
            let both_insertions := is_insertion prior && is_insertion hunk in
            (h_start hunk <? h_end prior) || (both_insertions && (h_start hunk =? h_start prior))
        | None => false
        end in
      if clash then None else
      if (length base_lines <? h_end hunk) || (h_start hunk <? at_) then None else
      rest ← apply_loop base_lines (h_end hunk) (Some hunk) ordered;
      Some (mjoin (slice at_ (h_start hunk) base_lines) ++ mjoin (h_lines hunk) ++ rest)
  end.

Definition apply_hunks (base : bytes) (chosen : list Hunk) : option bytes :=
  apply_loop (split_inclusive newline base) 0 None (stable_sort hunk_le chosen).

(** ** Longest common subsequence *)

(** Reference definition. *)
Fixpoint lcs (a : list bytes) : list bytes -> nat :=
  match a with
  | [] => fun _ => 0
  | x :: a =>
      fix inner b :=
        match b with
        | [] => 0
        | y :: b' => if decide (x = y) then S (lcs a b') else Nat.max (lcs a b) (inner b')
        end
  end.

Lemma lcs_nil_r a : lcs a [] = 0.
Proof. by destruct a. Qed.

Lemma lcs_cons x a y b :
  lcs (x :: a) (y :: b) = if decide (x = y) then S (lcs a b) else Nat.max (lcs a (y :: b)) (lcs (x :: a) b).
Proof. reflexivity. Qed.

Lemma tail_sublist {A} (c : list A) x l : c `sublist_of` x :: l -> tail c `sublist_of` l.
Proof.
  intros H. apply sublist_cons_r in H as [H|(c' & -> & H)]; [|done].
  etrans; [|done]. destruct c; [done|]. by apply sublist_cons.
Qed.

Lemma lcs_upper c a b : c `sublist_of` a -> c `sublist_of` b -> length c <= lcs a b.
Proof.
  revert b c; induction a as [|x a IHa]; intros b c Ha Hb; [apply sublist_nil_r in Ha as ->; simpl; lia|].
  revert c Ha Hb; induction b as [|y b IHb]; intros c Ha Hb; [apply sublist_nil_r in Hb as ->; simpl; lia|].
  rewrite lcs_cons. case_decide as E.
  - apply tail_sublist in Ha, Hb. specialize (IHa b (tail c) Ha Hb). destruct c; simpl in *; lia.
  - pose proof Ha as Ha'. apply sublist_cons_r in Ha as [Ha|(c' & -> & Ha)].
    + specialize (IHa (y :: b) c Ha Hb). lia.
    + apply sublist_cons_r in Hb as [Hb|(c'' & [= -> _] & _)]; [|done]. specialize (IHb _ Ha' Hb). lia.
Qed.

Definition lcs_cells (a mb : list bytes) : list nat := map (fun j => lcs a (drop j mb)) (seq 0 (S (length mb))).

Lemma lcs_cells_cons a y mb : lcs_cells a (y :: mb) = lcs a (y :: mb) :: lcs_cells a mb.
Proof.
  unfold lcs_cells. cbn [length]. change (seq 0 (S (S (length mb)))) with (0 :: seq 1 (S (length mb))).
  rewrite <- seq_shift. cbn [map drop]. by rewrite map_map.
Qed.

Lemma lcs_row_spec x a mb : lcs_row x mb (lcs_cells a mb) = lcs_cells (x :: a) mb.
Proof.
  induction mb as [|y mb IH]; [done|]. rewrite !lcs_cells_cons. cbn [lcs_row]. rewrite IH, lcs_cons. f_equal.
  assert (forall c, hd 0 (lcs_cells c mb) = lcs c mb) as Hd by done. rewrite !Hd. case_decide; [lia|done].
Qed.

Lemma lcs_cells_nil mb : lcs_cells [] mb = replicate (S (length mb)) 0.
Proof.
  unfold lcs_cells. rewrite <- (length_seq (S (length mb)) 0) at 2.
  induction (seq 0 (S (length mb))) as [|j l IH]; [done|]. simpl. f_equal. exact IH.
Qed.

Lemma lcs_table_spec ma mb i : i <= length ma -> lcs_table ma mb !! i = Some (lcs_cells (drop i ma) mb).
Proof.
  revert i; induction ma as [|x ma IH]; intros i Hi.
  - assert (i = 0) as -> by (simpl in Hi; lia). cbn [lcs_table drop]. by rewrite lcs_cells_nil.
  - cbn [lcs_table]. destruct i as [|i]; [|apply IH; simpl in Hi; lia].
    specialize (IH 0 ltac:(lia)). assert (hd [] (lcs_table ma mb) = lcs_cells ma mb) as E.
    { destruct (lcs_table ma mb) as [|row t]; [done|]. by injection IH. }
    rewrite E, lcs_row_spec. done.
Qed.

Lemma cell_spec ma mb i j :
  i <= length ma -> j <= length mb -> cell (lcs_table ma mb) i j = lcs (drop i ma) (drop j mb).
Proof.
  intros Hi Hj. unfold cell. rewrite (lcs_table_spec _ _ _ Hi). simpl. unfold lcs_cells.
  change (map ?f ?l) with (f <$> l). rewrite list_lookup_fmap, lookup_seq_lt by lia. done.
Qed.

(** ** The walk *)

(** Strictly increasing pairs from [(bi, oi)] on, each a line the two texts share. *)
Fixpoint common_pairs (base other : list bytes) (bi oi : nat) (pairs : list (nat * nat)) : Prop :=
  match pairs with
  | [] => True
  | (mb, mo) :: pairs =>
      bi <= mb /\ oi <= mo /\ (exists x, base !! mb = Some x /\ other !! mo = Some x) /\
      common_pairs base other (S mb) (S mo) pairs
  end.

Lemma common_pairs_weaken base other bi oi bi' oi' pairs :
  bi' <= bi -> oi' <= oi -> common_pairs base other bi oi pairs -> common_pairs base other bi' oi' pairs.
Proof. destruct pairs as [|[mb mo] pairs]; simpl; [done|]. intros ? ? (? & ? & ? & ?). split_and!; [lia|lia|done|done]. Qed.

Lemma walk_spec fuel a b ma mb prefix i j :
  (forall k x, ma !! k = Some x -> a !! (prefix + k) = Some x) ->
  (forall k x, mb !! k = Some x -> b !! (prefix + k) = Some x) ->
  i <= length ma -> j <= length mb -> (length ma - i) + (length mb - j) <= fuel ->
  let w := walk fuel ma mb (lcs_table ma mb) prefix i j in
  common_pairs a b (prefix + i) (prefix + j) w /\ length w = lcs (drop i ma) (drop j mb) /\
  Forall (fun p => p.1 < prefix + length ma /\ p.2 < prefix + length mb) w.
Proof.
  intros Ha Hb. revert i j; induction fuel as [|fuel IH]; intros i j Hi Hj HF; simpl.
  - rewrite (drop_ge ma i) by lia. done.
  - destruct (ma !! i) as [x|] eqn:Ex; [|apply lookup_ge_None in Ex; rewrite (drop_ge ma i) by lia; done].
    destruct (mb !! j) as [y|] eqn:Ey;
      [|apply lookup_ge_None in Ey; rewrite (drop_ge mb j), lcs_nil_r by lia; done].
    pose proof (lookup_lt_Some _ _ _ Ex). pose proof (lookup_lt_Some _ _ _ Ey).
    rewrite (drop_S ma x i Ex), (drop_S mb y j Ey), lcs_cons. case_decide as E.
    + destruct (IH (S i) (S j)) as (HP & HL & HB); [lia..|]. split_and!.
      * simpl. rewrite <- !Nat.add_succ_r. split_and!; [lia|lia| |done]. exists x. subst y. auto.
      * simpl. by rewrite HL.
      * constructor; [simpl; lia|done].
    + rewrite !cell_spec by lia. rewrite <- (drop_S mb y j Ey), <- (drop_S ma x i Ex).
      destruct (Nat.leb_spec (lcs (drop i ma) (drop (S j) mb)) (lcs (drop (S i) ma) (drop j mb))).
      * destruct (IH (S i) j) as (HP & HL & HB); [lia..|]. split_and!; [|lia|done].
        eapply common_pairs_weaken; [| |done]; lia.
      * destruct (IH i (S j)) as (HP & HL & HB); [lia..|]. split_and!; [|lia|done].
        eapply common_pairs_weaken; [| |done]; lia.
Qed.

(** ** [matches] *)

Lemma common_pairs_app base other bi oi bi' oi' p q :
  bi <= bi' -> oi <= oi' -> common_pairs base other bi oi p ->
  Forall (fun m => m.1 < bi' /\ m.2 < oi') p -> common_pairs base other bi' oi' q ->
  common_pairs base other bi oi (p ++ q).
Proof.
  intros Hb Ho Hp HF Hq. revert bi oi Hb Ho Hp; induction HF as [|[mb mo] p [? ?] HF IH]; intros bi oi Hb Ho Hp; simpl in *.
  - by eapply common_pairs_weaken.
  - destruct Hp as (? & ? & ? & Hp). split_and!; try done. apply IH; [lia|lia|done].
Qed.

(** A run of [n] lines at [i] in one text and at [j] in the other. *)
Lemma common_pairs_run base other i j n :
  (forall k, k < n -> exists x, base !! (i + k) = Some x /\ other !! (j + k) = Some x) ->
  common_pairs base other i j (map (fun k => (i + k, j + k)) (seq 0 n)).
Proof.
  revert i j; induction n as [|n IH]; intros i j H; [done|].
  change (seq 0 (S n)) with (0 :: seq 1 n). rewrite <- seq_shift. cbn [map]. rewrite map_map. simpl.
  split_and!; [lia|lia|by apply H; lia|].
  rewrite !Nat.add_0_r. erewrite map_ext; [apply (IH (S i) (S j))|intros k; simpl; f_equal; lia].
  intros k Hk. rewrite !Nat.add_succ_comm. apply H. lia.
Qed.

Lemma common_prefix_spec a b :
  exists p a' b', a = p ++ a' /\ b = p ++ b' /\ length p = common_prefix a b.
Proof.
  revert b; induction a as [|x a IH]; intros [|y b]; simpl.
  - exists [], [], []. done.
  - exists [], [], (y :: b). done.
  - exists [], (x :: a), []. done.
  - case_decide as E; [|by exists [], (x :: a), (y :: b)]. destruct (IH b) as (p & a' & b' & -> & -> & Hp).
    exists (x :: p), a', b'. subst y. simpl. by rewrite Hp.
Qed.

(** The three parts [matches] splits its inputs into. *)
Lemma matches_parts a b :
  let prefix := common_prefix a b in
  let suffix := common_prefix (reverse (drop prefix a)) (reverse (drop prefix b)) in
  let ma := slice prefix (length a - suffix) a in
  let mb := slice prefix (length b - suffix) b in
  exists p s, a = p ++ ma ++ s /\ b = p ++ mb ++ s /\ length p = prefix /\ length s = suffix.
Proof.
  destruct (common_prefix_spec a b) as (p & a' & b' & Ea & Eb & Hp). cbv zeta. rewrite <- Hp.
  assert (drop (length p) a = a') as Ha' by (rewrite Ea; apply drop_app_length).
  assert (drop (length p) b = b') as Hb' by (rewrite Eb; apply drop_app_length).
  rewrite Ha', Hb'. destruct (common_prefix_spec (reverse a') (reverse b')) as (s & ra & rb & Era & Erb & Hs).
  rewrite <- Hs. apply (f_equal reverse) in Era, Erb. rewrite reverse_involutive, reverse_app in Era, Erb.
  assert (forall c c' rc, c = p ++ c' -> c' = reverse rc ++ reverse s ->
    slice (length p) (length c - length s) c = reverse rc) as Hslice.
  { intros c c' rc -> ->. unfold slice. rewrite drop_app_length, !length_app, !length_reverse.
    replace (length p + (length rc + length s) - length s - length p) with (length (reverse rc)) by (rewrite length_reverse; lia).
    apply take_app_length. }
  rewrite (Hslice a a' ra), (Hslice b b' rb) by done. exists p, (reverse s).
  rewrite length_reverse. split_and!; congruence.
Qed.

Lemma drop_sublist_app {A} (p l c : list A) : c `sublist_of` p ++ l -> drop (length p) c `sublist_of` l.
Proof.
  revert c; induction p as [|x p IH]; intros c H; [by rewrite drop_0|].
  apply tail_sublist in H. apply IH in H. by destruct c; [rewrite drop_nil in *|].
Qed.

Lemma sublist_rev {A} (c l : list A) : c `sublist_of` l -> reverse c `sublist_of` reverse l.
Proof. induction 1; rewrite ?reverse_nil, ?reverse_cons; [done|by apply sublist_app|by apply sublist_inserts_r]. Qed.

Lemma common_subsequence_bound p s ma mb (c : list bytes) :
  c `sublist_of` p ++ ma ++ s -> c `sublist_of` p ++ mb ++ s -> length c <= length p + lcs ma mb + length s.
Proof.
  intros Ha%drop_sublist_app Hb%drop_sublist_app.
  assert (forall l, drop (length p) c `sublist_of` l ++ s ->
    reverse (drop (length s) (reverse (drop (length p) c))) `sublist_of` l) as Hcut.
  { intros l H. apply sublist_rev in H. rewrite reverse_app in H. apply drop_sublist_app in H.
    rewrite length_reverse in H. apply sublist_rev in H. by rewrite reverse_involutive in H. }
  apply Hcut in Ha, Hb. pose proof (lcs_upper _ _ _ Ha Hb) as HL.
  rewrite length_reverse, length_drop, length_reverse, length_drop in HL. lia.
Qed.

Lemma middle_offset i j k : i + j + k - i - j = k.
Proof. lia. Qed.

Lemma lookup_middle (p l s : list bytes) k x : l !! k = Some x -> (p ++ l ++ s) !! (length p + k) = Some x.
Proof.
  intros Hx. rewrite lookup_app_r by lia. replace (length p + k - length p) with k by lia.
  rewrite lookup_app_l; [done|]. by eapply lookup_lt_Some.
Qed.

Definition in_texts (a b : list bytes) (m : list (nat * nat)) : Prop := Forall (fun p => p.1 < length a /\ p.2 < length b) m.

Lemma matches_sound a b m :
  matches a b = Some m ->
  common_pairs a b 0 0 m /\ in_texts a b m /\
  (forall c, c `sublist_of` a -> c `sublist_of` b -> length c <= length m).
Proof.
  unfold matches. destruct (matches_parts a b) as (p & s & Ea & Eb & Hp & Hs). revert Ea Eb Hp Hs.
  set (prefix := common_prefix a b). set (suffix := common_prefix _ _).
  set (ma := slice prefix _ a). set (mb := slice prefix _ b). clearbody prefix suffix ma mb.
  intros -> -> <- <-. case_match; [done|]. intros [= <-].
  set (a := p ++ ma ++ s). set (b := p ++ mb ++ s).
  assert (length a - length s = length p + length ma) as Ea by (unfold a; rewrite !length_app; lia).
  assert (length b - length s = length p + length mb) as Eb by (unfold b; rewrite !length_app; lia).
  rewrite Ea, Eb.
  destruct (walk_spec (length ma + length mb) a b ma mb (length p) 0 0) as (HW & HL & HB);
    [apply lookup_middle..|lia|lia|lia|].
  rewrite !Nat.add_0_r in HW. unfold in_texts. split_and!.
  - eapply (common_pairs_app _ _ _ _ (length p) (length p)); [lia|lia| | |].
    + apply (common_pairs_run a b 0 0). intros k Hk. destruct (lookup_lt_is_Some_2 p k Hk) as [x Hx].
      exists x. unfold a, b. by rewrite !lookup_app_l by lia.
    + apply Forall_fmap, Forall_forall. intros k Hk. apply elem_of_seq in Hk. simpl. lia.
    + eapply common_pairs_app; [| |done|exact HB|]; [lia|lia|]. apply common_pairs_run.
      intros k Hk. destruct (lookup_lt_is_Some_2 s k Hk) as [x Hx]. exists x. unfold a, b.
      rewrite !lookup_app_r by lia. by rewrite !middle_offset.
  - rewrite !Forall_app. split_and!.
    + apply Forall_fmap, Forall_forall. intros k Hk. apply elem_of_seq in Hk.
      unfold a, b. rewrite !length_app. simpl. lia.
    + eapply Forall_impl; [exact HB|]. unfold a, b. rewrite !length_app. simpl. intros ? [? ?]. lia.
    + apply Forall_fmap, Forall_forall. intros k Hk. apply elem_of_seq in Hk.
      unfold a, b. rewrite !length_app. simpl. lia.
  - intros c Ha Hb. pose proof (common_subsequence_bound _ _ _ _ _ Ha Hb) as HC.
    rewrite !length_app, !length_map, !length_seq, HL, !drop_0. lia.
Qed.

(** The lines that the pairs name in the first text. *)
Definition shared_lines (a : list bytes) (m : list (nat * nat)) : list bytes := omap (fun p => a !! p.1) m.

Lemma sublist_drop_cons {A} (l c : list A) i k x :
  i <= k -> l !! k = Some x -> c `sublist_of` drop (S k) l -> x :: c `sublist_of` drop i l.
Proof.
  intros Hi Hx Hc. replace (drop i l) with (take (k - i) (drop i l) ++ drop k l).
  - rewrite (drop_S l x k Hx). apply sublist_inserts_l. by apply sublist_skip.
  - rewrite <- (take_drop (k - i) (drop i l)) at 2. rewrite drop_drop. do 2 f_equal. lia.
Qed.

Lemma shared_lines_sublist a b bi oi m :
  common_pairs a b bi oi m ->
  shared_lines a m `sublist_of` drop bi a /\ shared_lines a m `sublist_of` drop oi b /\
  length (shared_lines a m) = length m.
Proof.
  revert bi oi; induction m as [|[mb mo] m IH]; intros bi oi; simpl.
  - intros _. split_and!; [apply sublist_nil_l..|done].
  - intros (? & ? & (x & Hb & Ho) & H). rewrite Hb. apply IH in H as (Ha & Hb' & HL).
    split_and!; [by eapply sublist_drop_cons..|simpl; by rewrite HL].
Qed.

(** the matcher returns a longest common subsequence of the two lists of
    lines: the lines its pairs name form a common subsequence, and no common
    subsequence is longer. This covers the trimmed prefix and suffix, the table
    and the walk over it. *)
Theorem matches_longest a b m :
  matches a b = Some m ->
  shared_lines a m `sublist_of` a /\ shared_lines a m `sublist_of` b /\
  length (shared_lines a m) = length m /\
  forall c, c `sublist_of` a -> c `sublist_of` b -> length c <= length m.
Proof. intros (HC & _ & HL)%matches_sound. apply shared_lines_sublist in HC as (? & ? & ?). by split_and!. Qed.

(** ** Hunks *)

(** Hunks in order inside a text of [n] lines, each starting past the end of the one before. *)
Fixpoint spaced (n lo : nat) (hs : list Hunk) : Prop :=
  match hs with
  | [] => True
  | h :: hs => lo <= h_start h /\ h_start h <= h_end h /\ h_end h <= n /\ spaced n (S (h_end h)) hs
  end.

(** The text that a list of ordered hunks makes of [base] from line [at_] on. *)
Fixpoint apply_from (base : list bytes) (at_ : nat) (hs : list Hunk) : list bytes :=
  match hs with
  | [] => drop at_ base
  | h :: hs => slice at_ (h_start h) base ++ h_lines h ++ apply_from base (h_end h) hs
  end.

Lemma spaced_weaken n lo lo' hs : lo' <= lo -> spaced n lo hs -> spaced n lo' hs.
Proof. destruct hs; simpl; [done|]. intros ? (? & ?). split; [lia|done]. Qed.

Lemma slice_empty {A} i (l : list A) : slice i i l = [].
Proof. unfold slice. by rewrite Nat.sub_diag. Qed.

Lemma slice_drop {A} i j (l : list A) : i <= j -> slice i j l ++ drop j l = drop i l.
Proof.
  intros H. unfold slice. rewrite <- (take_drop (j - i) (drop i l)) at 2. rewrite drop_drop. do 2 f_equal. lia.
Qed.

Lemma slice_cons {A} i j (l : list A) x : l !! i = Some x -> i < j -> slice i j l = x :: slice (S i) j l.
Proof. intros Hx H. unfold slice. rewrite (drop_S l x i Hx). by replace (j - i) with (S (j - S i)) by lia. Qed.

Lemma apply_from_skip n base at_ x hs :
  spaced n (S at_) hs -> base !! at_ = Some x -> apply_from base at_ hs = x :: apply_from base (S at_) hs.
Proof.
  destruct hs as [|h hs]; simpl; intros HS Hx; [by apply drop_S|].
  rewrite (slice_cons at_ (h_start h) base x) by (done || lia). done.
Qed.

Lemma hunks_from_sound base other bi oi found :
  common_pairs base other bi oi found -> in_texts base other found -> bi <= length base -> oi <= length other ->
  let hs := hunks_from other bi oi (found ++ [(length base, length other)]) in
  spaced (length base) bi hs /\ apply_from base bi hs = drop oi other.
Proof.
  revert bi oi; induction found as [|[mb mo] found IH]; intros bi oi HC HT Hb Ho.
  - simpl. destruct (Nat.ltb_spec bi (length base)), (Nat.ltb_spec oi (length other)); simpl;
      rewrite ?slice_empty, ?(drop_ge base (length base)), ?app_nil_r by lia; unfold slice;
      (split; [first [lia | done]|]); rewrite ?take_ge by (rewrite length_drop; lia);
      rewrite ?(drop_ge base bi), ?(drop_ge other oi) by lia; done.
  - destruct HC as (? & ? & (x & Hx & Hy) & HC). apply Forall_cons in HT as [[? ?] HT].
    simpl in *. destruct (IH (S mb) (S mo)) as [HS HA]; [done..|lia|lia|].
    pose proof (apply_from_skip _ _ _ _ _ HS Hx) as HK. rewrite HA, <- (drop_S other x mo Hy) in HK.
    destruct (Nat.ltb_spec bi mb), (Nat.ltb_spec oi mo); simpl;
      try (split; [split_and!; (lia || done)|rewrite slice_empty, HK; apply slice_drop; lia]).
    assert (bi = mb) as -> by lia. assert (oi = mo) as -> by lia. split; [|done]. eapply spaced_weaken; [|done]. lia.
Qed.

Lemma hunks_sound base other hs :
  hunks base other = Some hs -> spaced (length base) 0 hs /\ apply_from base 0 hs = other.
Proof.
  unfold hunks. destruct (matches base other) as [m|] eqn:E; [|done]. intros [= <-].
  apply matches_sound in E as (HC & HT & _). apply hunks_from_sound; auto with lia.
Qed.

(** ** Sorting *)

Section sorting.
Context {A : Type} (le : A -> A -> bool).
Context (le_trans : forall x y z, le x y = true -> le y z = true -> le x z = true).
Context (le_total : forall x y, le x y = false -> le y x = true).

Local Notation sorted := (StronglySorted (fun x y => le x y = true)).

Lemma insert_sorted_perm x l : insert_sorted le x l ≡ₚ x :: l.
Proof. induction l as [|y l IH]; simpl; [done|]. case_match; [done|]. rewrite IH. apply Permutation_swap. Qed.

Lemma stable_sort_perm l : stable_sort le l ≡ₚ l.
Proof. unfold stable_sort. induction l as [|x l IH]; simpl; [done|]. by rewrite insert_sorted_perm, IH. Qed.

Lemma insert_sorted_sorted x l : sorted l -> sorted (insert_sorted le x l).
Proof.
  induction 1 as [|y l HS IH HF]; simpl; [repeat constructor|]. case_match eqn:E.
  - constructor; [by constructor|]. constructor; [done|]. eapply Forall_impl; [exact HF|]. eauto.
  - constructor; [done|]. rewrite insert_sorted_perm. constructor; [by apply le_total|done].
Qed.

Lemma stable_sort_sorted l : sorted (stable_sort le l).
Proof. unfold stable_sort. induction l; simpl; [constructor|]. by apply insert_sorted_sorted. Qed.

Lemma sorted_unique l strict :
  StronglySorted (fun x y => le y x = false) strict -> sorted l -> l ≡ₚ strict -> l = strict.
Proof.
  intros HS. revert l. induction HS as [|h hs HS IH HF]; intros l Hl HP; [by apply Permutation_nil_r in HP|].
  destruct l as [|x l]; [by apply Permutation_nil_l in HP|]. inversion_clear Hl as [|? ? Hl' HFl].
  assert (x ∈ h :: hs) as Hx by (rewrite <- HP; left). assert (h ∈ x :: l) as Hh by (rewrite HP; left).
  apply elem_of_cons in Hx as [->|Hx]; [f_equal; apply IH; [done|]; by apply Permutation_cons_inv in HP|].
  apply elem_of_cons in Hh as [->|Hh]; [f_equal; apply IH; [done|]; by apply Permutation_cons_inv in HP|].
  rewrite Forall_forall in HF, HFl. specialize (HF x Hx). specialize (HFl h Hh). simpl in *. congruence.
Qed.

Lemma stable_sort_strict l strict :
  StronglySorted (fun x y => le y x = false) strict -> l ≡ₚ strict -> stable_sort le l = strict.
Proof.
  intros HS HP. apply sorted_unique; [done|apply stable_sort_sorted|]. by rewrite stable_sort_perm.
Qed.
End sorting.

Lemma hunk_le_iff a b : hunk_le a b = true <-> h_start a < h_start b \/ (h_start a = h_start b /\ h_end a <= h_end b).
Proof. unfold hunk_le. rewrite orb_true_iff, andb_true_iff, Nat.ltb_lt, Nat.eqb_eq, Nat.leb_le. done. Qed.

Lemma hunk_le_trans x y z : hunk_le x y = true -> hunk_le y z = true -> hunk_le x z = true.
Proof. rewrite !hunk_le_iff. lia. Qed.

Lemma hunk_le_total x y : hunk_le x y = false -> hunk_le y x = true.
Proof. rewrite <- not_true_iff_false, !hunk_le_iff. lia. Qed.

(** ** Applying hunks *)

Lemma spaced_strict n lo hs :
  spaced n lo hs ->
  StronglySorted (fun x y => hunk_le y x = false) hs /\ Forall (fun h => lo <= h_start h) hs.
Proof.
  revert lo; induction hs as [|h hs IH]; intros lo; simpl; [by repeat constructor|].
  intros (? & ? & ? & H). apply IH in H as [HS HF]. split; constructor; try done.
  - eapply Forall_impl; [exact HF|]. intros k ?. simpl in *. rewrite <- not_true_iff_false, hunk_le_iff. lia.
  - eapply Forall_impl; [exact HF|]. intros k ?. simpl in *. lia.
Qed.

Lemma spaced_sublist n lo hs hs' : spaced n lo hs -> hs' `sublist_of` hs -> spaced n lo hs'.
Proof.
  intros HS HL. revert lo HS. induction HL as [|h hs' hs HL IH|h hs' hs HL IH]; intros lo; simpl; [done| |].
  - intros (? & ? & ? & ?). split_and!; auto.
  - intros (? & ? & ? & ?). eapply spaced_weaken; [|by apply IH]. lia.
Qed.

Lemma mjoin_app (a b : list bytes) : mjoin (a ++ b) = mjoin a ++ mjoin b.
Proof. apply join_app. Qed.

Lemma apply_loop_spaced lines at_ prior hs :
  spaced (length lines) at_ hs -> from_option (fun p => h_end p < at_) True prior ->
  apply_loop lines (Nat.pred at_) prior hs = Some (mjoin (apply_from lines (Nat.pred at_) hs)).
Proof.
  revert at_ prior; induction hs as [|h hs IH]; intros at_ prior HS HP; simpl; [done|].
  destruct HS as (? & ? & ? & HS). pose proof (IH (S (h_end h)) (Some h) HS) as E. cbn [Nat.pred] in E.
  rewrite E by (simpl; lia). rewrite !mjoin_app.
  replace (match prior with Some p => _ | None => false end) with false; cycle 1.
  { symmetry. destruct prior as [p|]; [|done]. simpl in HP. apply orb_false_iff. unfold is_insertion.
    rewrite Nat.ltb_ge, !andb_false_iff, !Nat.eqb_neq. lia. }
  replace (_ || _) with false; [done|]. symmetry. rewrite orb_false_iff, !Nat.ltb_ge. lia.
Qed.

Lemma apply_hunks_spaced base chosen hs :
  spaced (length (split_inclusive newline base)) 0 hs -> chosen ≡ₚ hs ->
  apply_hunks base chosen = Some (mjoin (apply_from (split_inclusive newline base) 0 hs)).
Proof.
  intros HS HP. unfold apply_hunks.
  rewrite (stable_sort_strict hunk_le hunk_le_trans hunk_le_total chosen hs) by (done || by eapply spaced_strict).
  by apply (apply_loop_spaced _ 0 None).
Qed.

(** applying the hunks of a diff, in whatever order they are given, turns
    the old text into the new one byte for byte. *)
Theorem diff_apply old new hs chosen :
  diff_hunks old new = Some hs -> chosen ≡ₚ hs -> apply_hunks old chosen = Some new.
Proof.
  intros [HS HA]%hunks_sound HP. rewrite (apply_hunks_spaced _ _ _ HS HP), HA. by rewrite mjoin_split_inclusive.
Qed.

(** Any selection of the hunks of one diff, in any order, can be applied
    together: hunks of one diff never clash and never lie past the end. *)
Theorem selection_applies old new hs chosen :
  diff_hunks old new = Some hs -> chosen ⊆+ hs -> exists text, apply_hunks old chosen = Some text.
Proof.
  intros [HS _]%hunks_sound HP.
  assert (exists picked, chosen ≡ₚ picked /\ picked `sublist_of` hs) as (picked & HP' & HL).
  { by apply submseteq_sublist_r in HP. }
  eexists. eapply apply_hunks_spaced; [|done]. by eapply spaced_sublist.
Qed.

Module DiffDemo.
Definition line_a : bytes := str "a" ++ [newline].
Definition line_b : bytes := str "b" ++ [newline].
Definition line_c : bytes := str "c" ++ [newline].
Definition line_d : bytes := str "d" ++ [newline].
Definition old := Eval vm_compute in line_a ++ line_b ++ line_c ++ str "tail".
Definition new := Eval vm_compute in line_b ++ line_a ++ line_c ++ line_d ++ str "tail".
Definition changes := Eval vm_compute in default [] (diff_hunks old new).

Lemma matches_longest_witness :
  shared_lines [line_a; line_b; line_d] [(0, 0); (2, 2)] `sublist_of` [line_a; line_c; line_d] /\
  forall c, c `sublist_of` [line_a; line_b; line_d] -> c `sublist_of` [line_a; line_c; line_d] -> length c <= 2.
Proof.
  split.
  - apply (matches_longest [line_a; line_b; line_d] [line_a; line_c; line_d] [(0, 0); (2, 2)]). vm_compute. reflexivity.
  - apply (matches_longest [line_a; line_b; line_d] [line_a; line_c; line_d] [(0, 0); (2, 2)]). vm_compute. reflexivity.
Defined.

Lemma diff_apply_witness : 1 < length changes /\ apply_hunks old (reverse changes) = Some new.
Proof. split; [vm_compute; lia|]. apply (diff_apply old new changes); [vm_compute; reflexivity|apply reverse_Permutation]. Defined.

Lemma selection_applies_witness : exists text, apply_hunks old (tail changes) = Some text.
Proof.
  apply (selection_applies old new changes); [vm_compute; reflexivity|].
  apply sublist_submseteq. destruct changes; [constructor|]. apply sublist_cons. reflexivity.
Defined.
End DiffDemo.
