(* ===== verification/Merge.v ===== *)
(** * [src/src/file_history/merge.rs], the line changes and the three-way merge

    [diff_text] lists the changed lines of two texts; [merge_text] combines the
    hunks of two sides against their base. *)

From S2P Require Import Prelude Text Diff.

Inductive ChangeKind := Removed | Added.

Record LineChange := {
  lc_kind : ChangeKind;
  lc_line : nat;
  lc_text : bytes;
  lc_hunk : nat;
}.

(** The changes of one hunk; [shift] is an [isize] in the source. *)
Definition hunk_changes (old_lines : list bytes) (index : nat) (shift : Z) (hunk : Hunk) : list LineChange :=
  let new_start := Z.to_nat (Z.of_nat (h_start hunk) + shift) in
  imap (fun offset text => {| lc_kind := Removed; lc_line := h_start hunk + offset + 1; lc_text := text; lc_hunk := index |})
       (slice (h_start hunk) (h_end hunk) old_lines)
  ++ imap (fun offset text => {| lc_kind := Added; lc_line := new_start + offset + 1; lc_text := text; lc_hunk := index |})
       (h_lines hunk).

Definition next_shift (shift : Z) (hunk : Hunk) : Z :=
  shift + (Z.of_nat (length (h_lines hunk)) - Z.of_nat (h_end hunk - h_start hunk)).

Fixpoint diff_loop (old_lines : list bytes) (index : nat) (shift : Z) (hs : list Hunk) : list LineChange :=
  match hs with
  | [] => []
  | hunk :: hs => hunk_changes old_lines index shift hunk ++ diff_loop old_lines (S index) (next_shift shift hunk) hs
  end.

Definition diff_text (old new : bytes) : option (list LineChange) :=
  hs ← diff_hunks old new;
  Some (diff_loop (split_inclusive newline old) 0 0 hs).

Inductive TextMerge :=
  | Clean (text : bytes)
  | Conflict
  | TooLarge.

(** The sort key [(start, end, !is_left)]. *)
Definition merge_le (a b : Hunk * bool) : bool :=
  (h_start a.1 <? h_start b.1)
  || ((h_start a.1 =? h_start b.1)
      && ((h_end a.1 <? h_end b.1) || ((h_end a.1 =? h_end b.1) && (a.2 || negb b.2)))).

Fixpoint merge_loop (b : list bytes) (out : bytes) (position : nat) (last : option Hunk) (all : list (Hunk * bool)) : TextMerge :=
  match all with
  | [] => Clean (out ++ mjoin (drop position b))
  | (hunk, _) :: all =>
      let take_hunk := merge_loop b (out ++ mjoin (slice position (h_start hunk) b) ++ mjoin (h_lines hunk)) (h_end hunk) (Some hunk) all in
      match last with
      | Some previous =>
          if decide (previous = hunk) then merge_loop b out position last all
          else if overlaps previous hunk then Conflict
          else take_hunk
      | None => take_hunk
      end
  end.

Definition merge_text (base left right : bytes) : TextMerge :=
  let b := split_inclusive newline base in
  match hunks b (split_inclusive newline left), hunks b (split_inclusive newline right) with
  | Some left_hunks, Some right_hunks =>
      let all := map (fun h => (h, true)) left_hunks ++ map (fun h => (h, false)) right_hunks in
      merge_loop b [] 0 None (stable_sort merge_le all)
  | _, _ => TooLarge
  end.

(** ** Line changes *)

(** A change shows the line that stands at its number in the old or the new text. *)
Definition shows (old_lines new_lines : list bytes) (c : LineChange) : Prop :=
  1 <= lc_line c /\
  match lc_kind c with
  | Removed => old_lines !! (lc_line c - 1) = Some (lc_text c)
  | Added => new_lines !! (lc_line c - 1) = Some (lc_text c)
  end.

Lemma lookup_slice {A} i j k (l : list A) x : slice i j l !! k = Some x -> l !! (i + k) = Some x /\ k < j - i.
Proof. unfold slice. intros [H ?]%lookup_take_Some. by rewrite lookup_drop in H. Qed.

Lemma hunk_changes_show old_lines new_lines index shift hunk rest :
  drop (Z.to_nat (Z.of_nat (h_start hunk) + shift)) new_lines = h_lines hunk ++ rest ->
  Forall (shows old_lines new_lines) (hunk_changes old_lines index shift hunk).
Proof.
  intros HN. unfold hunk_changes. apply Forall_app; split; apply Forall_forall; intros c Hc;
    apply elem_of_lookup_imap in Hc as (k & x & -> & Hk); split; simpl; try lia; rewrite Nat.add_sub.
  - by apply lookup_slice in Hk as [? _].
  - rewrite <- lookup_drop, HN. by apply lookup_app_l_Some.
Qed.

Lemma length_slice {A} i j (l : list A) : j <= length l -> length (slice i j l) = j - i.
Proof. intros H. unfold slice. rewrite length_take, length_drop. lia. Qed.

Lemma diff_loop_shows old_lines new_lines index shift at_ lo hs :
  spaced (length old_lines) lo hs -> at_ <= lo -> (0 <= Z.of_nat at_ + shift)%Z ->
  drop (Z.to_nat (Z.of_nat at_ + shift)) new_lines = apply_from old_lines at_ hs ->
  Forall (shows old_lines new_lines) (diff_loop old_lines index shift hs).
Proof.
  revert index shift at_ lo; induction hs as [|h hs IH]; intros index shift at_ lo HS Hat H0 HD; simpl; [done|].
  destruct HS as (? & ? & ? & HS).
  assert (drop (Z.to_nat (Z.of_nat (h_start h) + shift)) new_lines = h_lines h ++ apply_from old_lines (h_end h) hs) as HH.
  { replace (Z.to_nat _) with (Z.to_nat (Z.of_nat at_ + shift) + (h_start h - at_)) by lia.
    rewrite <- drop_drop, HD. simpl. rewrite <- (length_slice at_ (h_start h) old_lines) by lia. apply drop_app_length. }
  apply Forall_app; split; [by eapply hunk_changes_show|].
  eapply (IH _ _ (h_end h)); [exact HS|lia|unfold next_shift; lia|]. unfold next_shift.
  replace (Z.to_nat _) with (Z.to_nat (Z.of_nat (h_start h) + shift) + length (h_lines h)) by lia.
  rewrite <- drop_drop, HH. apply drop_app_length.
Qed.

(** Every change [diff_text] reports carries the true line: a removed line
    stands at its 1-based number in the old text, an added one at its number in
    the new text. The running [shift] never drives the number below the text. *)
Theorem diff_text_shows old new changes :
  diff_text old new = Some changes ->
  Forall (shows (split_inclusive newline old) (split_inclusive newline new)) changes.
Proof.
  unfold diff_text, diff_hunks. destruct (hunks _ _) as [hs|] eqn:E; [|done]. intros [= <-].
  apply hunks_sound in E as [HS HA]. eapply (diff_loop_shows _ _ _ _ 0); [done|lia|lia|]. by rewrite HA.
Qed.

(** ** The merge loop *)

(** The hunks the loop applies, [None] when it stops at a conflict. *)
Fixpoint kept (last : option Hunk) (all : list Hunk) : option (list Hunk) :=
  match all with
  | [] => Some []
  | hunk :: all =>
      let take_hunk := cons hunk <$> kept (Some hunk) all in
      match last with
      | Some previous =>
          if decide (previous = hunk) then kept last all
          else if overlaps previous hunk then None else take_hunk
      | None => take_hunk
      end
  end.

Lemma merge_loop_kept b out position last all :
  merge_loop b out position last all =
  match kept last (fst <$> all) with
  | Some used => Clean (out ++ mjoin (apply_from b position used))
  | None => Conflict
  end.
Proof.
  revert out position last; induction all as [|[h side] all IH]; intros out position last; simpl; [done|].
  assert (merge_loop b (out ++ mjoin (slice position (h_start h) b) ++ mjoin (h_lines h)) (h_end h) (Some h) all =
    match cons h <$> kept (Some h) (fst <$> all) with
    | Some used => Clean (out ++ mjoin (apply_from b position used)) | None => Conflict end) as E.
  { rewrite IH. destruct (kept _ _) as [used|]; simpl; [|done]. by rewrite !mjoin_app, <- !(assoc_L (++)). }
  destruct last as [p|]; [|exact E]. case_decide; [apply IH|]. by destruct (overlaps p h).
Qed.

Lemma overlaps_iff a b :
  overlaps a b = true <->
  (h_start a < h_end b /\ h_start b < h_end a) \/ (h_start a = h_end a /\ h_start b = h_end b /\ h_start a = h_start b).
Proof.
  unfold overlaps, is_insertion. rewrite orb_true_iff, !andb_true_iff, !Nat.ltb_lt, !Nat.eqb_eq. tauto.
Qed.

(** [x] ends before [y] starts, and comes before it in the order. *)
Definition ends_before (x y : Hunk) : Prop :=
  h_start x <= h_end x /\ h_end x <= h_start y /\ h_start y <= h_end y /\ hunk_le y x = false.

Lemma ends_before_trans x y z : ends_before x y -> ends_before y z -> ends_before x z.
Proof. unfold ends_before. rewrite <- !not_true_iff_false, !hunk_le_iff. lia. Qed.

Lemma ends_before_apart x y : ends_before x y -> overlaps x y = false /\ overlaps y x = false.
Proof. unfold ends_before. rewrite <- !not_true_iff_false, !overlaps_iff, hunk_le_iff. lia. Qed.

Lemma apart_ends_before x y :
  h_start x <= h_end x -> h_start y <= h_end y -> hunk_le x y = true -> overlaps x y = false -> ends_before x y.
Proof. unfold ends_before. rewrite <- !not_true_iff_false, !overlaps_iff, !hunk_le_iff. lia. Qed.

Lemma overlaps_sym x y : overlaps x y = overlaps y x.
Proof. apply eq_bool_prop_intro. rewrite !Is_true_true, !overlaps_iff. lia. Qed.

Definition proper_hunk (h : Hunk) : Prop := h_start h <= h_end h.

Local Notation in_order := (StronglySorted (fun x y => hunk_le x y = true)).

Lemma kept_some_from p all used :
  in_order (p :: all) -> Forall proper_hunk (p :: all) -> kept (Some p) all = Some used ->
  StronglySorted ends_before (p :: used) /\ (forall x, x ∈ p :: all <-> x ∈ p :: used).
Proof.
  revert p used; induction all as [|h all IH]; intros p used HO HP; simpl.
  { intros [= <-]. split; [by repeat constructor|done]. }
  inversion_clear HO as [|? ? HO' HFO]. inversion_clear HFO as [|? ? Hle HFO'].
  apply Forall_cons in HP as [Hp HP]. case_decide as E.
  - subst h. intros H. destruct (IH p used HO' HP H) as [HS HE]. split; [done|].
    intros x. rewrite <- HE, !elem_of_cons. tauto.
  - destruct (overlaps p h) eqn:EO; [done|]. destruct (kept (Some h) all) as [used'|] eqn:EK; [|done].
    intros [= <-]. destruct (IH h used' HO' HP EK) as [HS HE].
    assert (ends_before p h) as Hph by (apply apart_ends_before; [done|by apply Forall_cons in HP as [? _]|done|done]).
    split; [|intros x; rewrite (elem_of_cons (h :: all)), HE; by rewrite (elem_of_cons (h :: used'))].
    constructor; [done|]. constructor; [done|]. inversion_clear HS as [|? ? _ HF].
    eapply Forall_impl; [exact HF|]. intros x. by apply ends_before_trans.
Qed.

Lemma kept_none_from p all :
  kept (Some p) all = None -> exists x y, x ∈ p :: all /\ y ∈ p :: all /\ x <> y /\ overlaps x y = true.
Proof.
  revert p; induction all as [|h all IH]; intros p; simpl; [done|]. case_decide as E.
  - intros (x & y & Hx & Hy & H)%IH. exists x, y. rewrite !(elem_of_cons (h :: all)), !(elem_of_cons all) in *. tauto.
  - destruct (overlaps p h) eqn:EO.
    + intros _. exists p, h. split_and!; [left|right; left|done|done].
    + destruct (kept (Some h) all) eqn:EK; [done|]. intros _.
      destruct (IH h EK) as (x & y & Hx & Hy & H). exists x, y. split_and!; [by right..|apply H|apply H].
Qed.

Lemma kept_some all used :
  in_order all -> Forall proper_hunk all -> kept None all = Some used ->
  StronglySorted ends_before used /\ (forall x, x ∈ all <-> x ∈ used).
Proof.
  destruct all as [|h all]; simpl; [by intros _ _ [= <-]; split; [constructor|]|].
  destruct (kept (Some h) all) as [used'|] eqn:E; [|done]. intros HO HP [= <-]. by apply kept_some_from.
Qed.

Lemma kept_none all : kept None all = None -> exists x y, x ∈ all /\ y ∈ all /\ x <> y /\ overlaps x y = true.
Proof.
  destruct all as [|h all]; simpl; [done|]. destruct (kept (Some h) all) eqn:E; [done|]. intros _. by apply kept_none_from.
Qed.

Lemma sorted_apart used x y :
  StronglySorted ends_before used -> x ∈ used -> y ∈ used -> x <> y -> overlaps x y = false.
Proof.
  induction 1 as [|h used HS IH HF]; intros Hx Hy Hne; [by apply elem_of_nil in Hx|].
  rewrite Forall_forall in HF. apply elem_of_cons in Hx as [->|Hx], Hy as [->|Hy]; [done|..].
  - by destruct (ends_before_apart h y); [apply HF|].
  - by destruct (ends_before_apart h x); [apply HF|].
  - by apply IH.
Qed.

(** ** [merge_text] *)

Lemma merge_le_iff a b :
  merge_le a b = true <->
  h_start a.1 < h_start b.1 \/
  (h_start a.1 = h_start b.1 /\ (h_end a.1 < h_end b.1 \/ (h_end a.1 = h_end b.1 /\ (a.2 = true \/ b.2 = false)))).
Proof.
  unfold merge_le. rewrite orb_true_iff, andb_true_iff, orb_true_iff, andb_true_iff, orb_true_iff, negb_true_iff.
  by rewrite !Nat.ltb_lt, !Nat.eqb_eq.
Qed.

Lemma merge_le_trans x y z : merge_le x y = true -> merge_le y z = true -> merge_le x z = true.
Proof. rewrite !merge_le_iff. destruct x as [? []], y as [? []], z as [? []]; simpl; intuition (try discriminate; lia). Qed.

Lemma merge_le_total x y : merge_le x y = false -> merge_le y x = true.
Proof. rewrite <- not_true_iff_false, !merge_le_iff. destruct x as [? []], y as [? []]; simpl; lia. Qed.

Definition tag_sides (left_hunks right_hunks : list Hunk) : list (Hunk * bool) :=
  map (fun h => (h, true)) left_hunks ++ map (fun h => (h, false)) right_hunks.

Lemma tag_sides_fst left_hunks right_hunks : fst <$> tag_sides left_hunks right_hunks = left_hunks ++ right_hunks.
Proof.
  unfold tag_sides. rewrite fmap_app. change (map ?f ?l) with (f <$> l).
  by rewrite <- !list_fmap_compose, !(list_fmap_ext _ id), !list_fmap_id.
Qed.

Definition sorted_hunks (left_hunks right_hunks : list Hunk) : list Hunk :=
  fst <$> stable_sort merge_le (tag_sides left_hunks right_hunks).

Lemma sorted_hunks_perm left_hunks right_hunks : sorted_hunks left_hunks right_hunks ≡ₚ left_hunks ++ right_hunks.
Proof. unfold sorted_hunks. by rewrite (stable_sort_perm merge_le), tag_sides_fst. Qed.

Lemma sorted_hunks_in_order left_hunks right_hunks :
  StronglySorted (fun x y => hunk_le x y = true) (sorted_hunks left_hunks right_hunks).
Proof.
  unfold sorted_hunks. generalize (stable_sort_sorted merge_le merge_le_trans merge_le_total (tag_sides left_hunks right_hunks)).
  induction 1 as [|x l HS IH HF]; simpl; constructor; [done|]. apply Forall_fmap. eapply Forall_impl; [exact HF|].
  intros y Hy. simpl in *. apply hunk_le_iff. apply merge_le_iff in Hy. lia.
Qed.

Lemma merge_text_kept base left right left_hunks right_hunks :
  diff_hunks base left = Some left_hunks -> diff_hunks base right = Some right_hunks ->
  merge_text base left right =
  match kept None (sorted_hunks left_hunks right_hunks) with
  | Some used => Clean (mjoin (apply_from (split_inclusive newline base) 0 used))
  | None => Conflict
  end.
Proof. unfold diff_hunks, merge_text. intros -> ->. by rewrite merge_loop_kept. Qed.

Lemma spaced_proper n lo hs : spaced n lo hs -> Forall proper_hunk hs.
Proof. revert lo; induction hs as [|h hs IH]; intros lo; simpl; [done|]. intros (? & ? & ? & ?). constructor; eauto. Qed.

Lemma spaced_ends n lo hs : spaced n lo hs -> Forall (fun h => h_end h <= n) hs.
Proof. revert lo; induction hs as [|h hs IH]; intros lo; simpl; [done|]. intros (? & ? & ? & ?). constructor; eauto. Qed.

Lemma spaced_ends_before n lo hs : spaced n lo hs -> StronglySorted ends_before hs.
Proof.
  revert lo; induction hs as [|h hs IH]; intros lo; simpl; [constructor|]. intros (? & ? & ? & HS).
  constructor; [by eapply IH|]. pose proof (spaced_proper _ _ _ HS) as HP. apply spaced_strict in HS as [_ HF].
  rewrite Forall_forall in *. intros x Hx. specialize (HF x Hx). specialize (HP x Hx). unfold proper_hunk in HP.
  unfold ends_before. rewrite <- not_true_iff_false, hunk_le_iff. lia.
Qed.

Section merging.
Context (base left right : bytes) (left_hunks right_hunks : list Hunk).
Context (HL : diff_hunks base left = Some left_hunks) (HR : diff_hunks base right = Some right_hunks).

Lemma both_proper : Forall proper_hunk (sorted_hunks left_hunks right_hunks).
Proof.
  rewrite sorted_hunks_perm. apply hunks_sound in HL as [HL' _], HR as [HR' _].
  apply Forall_app; split; by eapply spaced_proper.
Qed.

Lemma both_in_range : Forall (fun h => h_end h <= length (split_inclusive newline base)) (left_hunks ++ right_hunks).
Proof. apply hunks_sound in HL as [HL' _], HR as [HR' _]. apply Forall_app; split; by eapply spaced_ends. Qed.

Lemma one_side_apart x y :
  overlaps x y = true -> x <> y -> x ∈ left_hunks ++ right_hunks -> y ∈ left_hunks ++ right_hunks ->
  exists l r, l ∈ left_hunks /\ r ∈ right_hunks /\ l <> r /\ overlaps l r = true.
Proof.
  intros HO Hne Hx Hy. apply hunks_sound in HL as [HL' _], HR as [HR' _].
  apply spaced_ends_before in HL', HR'. apply elem_of_app in Hx as [Hx|Hx], Hy as [Hy|Hy].
  - rewrite (sorted_apart left_hunks x y) in HO by done. done.
  - by exists x, y.
  - exists y, x. rewrite overlaps_sym. by split_and!.
  - rewrite (sorted_apart right_hunks x y) in HO by done. done.
Qed.

Lemma conflict_iff :
  merge_text base left right = Conflict <->
  exists l r, l ∈ left_hunks /\ r ∈ right_hunks /\ l <> r /\ overlaps l r = true.
Proof.
  rewrite (merge_text_kept _ _ _ _ _ HL HR). destruct (kept _ _) as [used|] eqn:E; split; try done.
  - intros (l & r & Hl & Hr & Hne & HO). exfalso.
    apply kept_some in E as [HS HE]; [|apply sorted_hunks_in_order|apply both_proper].
    setoid_rewrite sorted_hunks_perm in HE.
    rewrite (sorted_apart used l r) in HO; [done|done| | |done]; apply HE, elem_of_app; auto.
  - intros _. apply kept_none in E as (x & y & Hx & Hy & Hne & HO).
    rewrite sorted_hunks_perm in Hx, Hy. by eapply one_side_apart.
Qed.
End merging.

Lemma ends_before_irrefl x : ~ ends_before x x.
Proof. unfold ends_before. rewrite <- not_true_iff_false, hunk_le_iff. lia. Qed.

Lemma sorted_NoDup used : StronglySorted ends_before used -> NoDup used.
Proof.
  induction 1 as [|x l HS IH HF]; constructor; [|done]. rewrite Forall_forall in HF.
  intros Hx%HF. by apply ends_before_irrefl in Hx.
Qed.

Lemma sorted_strict used : StronglySorted ends_before used -> StronglySorted (fun x y => hunk_le y x = false) used.
Proof.
  induction 1 as [|x l ? IH HF]; constructor; [done|]. eapply Forall_impl; [exact HF|]. by intros y (_ & _ & _ & ?).
Qed.

Lemma apply_loop_after lines p used :
  StronglySorted ends_before (p :: used) -> Forall (fun h => h_end h <= length lines) used ->
  apply_loop lines (h_end p) (Some p) used = Some (mjoin (apply_from lines (h_end p) used)).
Proof.
  revert p; induction used as [|h used IH]; intros p HS HF; simpl; [done|].
  inversion_clear HS as [|? ? HS' Hp]. apply Forall_cons in Hp as [Hph _]. apply Forall_cons in HF as [Hh HF].
  rewrite (IH h HS' HF). simpl. rewrite !mjoin_app. destruct (ends_before_apart _ _ Hph) as [HA _].
  unfold ends_before in Hph. rewrite <- not_true_iff_false, overlaps_iff in HA.
  replace (_ || _) with false; cycle 1.
  { symmetry. unfold is_insertion. rewrite orb_false_iff, Nat.ltb_ge, !andb_false_iff, !Nat.eqb_neq. lia. }
  replace (_ || _) with false; [done|]. symmetry. rewrite orb_false_iff, !Nat.ltb_ge. lia.
Qed.

Lemma apply_hunks_apart base chosen used :
  StronglySorted ends_before used -> Forall (fun h => h_end h <= length (split_inclusive newline base)) used ->
  chosen ≡ₚ used ->
  apply_hunks base chosen = Some (mjoin (apply_from (split_inclusive newline base) 0 used)).
Proof.
  intros HS HF HP. unfold apply_hunks.
  rewrite (stable_sort_strict hunk_le hunk_le_trans hunk_le_total chosen used) by (done || by apply sorted_strict).
  destruct used as [|h used]; [done|]. apply Forall_cons in HF as [Hh HF]. simpl. rewrite !mjoin_app.
  rewrite apply_loop_after by done. simpl. by replace (length _ <? h_end h) with false by (symmetry; by apply Nat.ltb_ge).
Qed.

(** The changes of either side, each once. *)
Definition union_of_changes (left_hunks right_hunks : list Hunk) : list Hunk := remove_dups (left_hunks ++ right_hunks).

Lemma clean_apply base left right left_hunks right_hunks text :
  diff_hunks base left = Some left_hunks -> diff_hunks base right = Some right_hunks ->
  merge_text base left right = Clean text ->
  forall chosen, NoDup chosen -> (forall h, h ∈ chosen <-> h ∈ left_hunks \/ h ∈ right_hunks) ->
  apply_hunks base chosen = Some text.
Proof.
  intros HL HR HM chosen HND HC. rewrite (merge_text_kept _ _ _ _ _ HL HR) in HM.
  destruct (kept _ _) as [used|] eqn:E; [|done]. injection HM as <-.
  apply kept_some in E as [HS HE]; [|apply sorted_hunks_in_order|by eapply both_proper].
  setoid_rewrite sorted_hunks_perm in HE. setoid_rewrite elem_of_app in HE. apply apply_hunks_apart; [done| |].
  - pose proof (both_in_range _ _ _ _ _ HL HR) as HB. rewrite Forall_forall in *.
    intros h Hh. apply HB, elem_of_app. by apply HE.
  - apply NoDup_Permutation; [done|by apply sorted_NoDup|]. intros h. by rewrite HC, <- HE.
Qed.

(** C37: a three-way merge is conservative and complete. It reports a conflict
    exactly when some change of one side overlaps a different change of the
    other; otherwise its text is the base with every change of either side
    applied once. *)
Theorem merge_text_spec base left right left_hunks right_hunks :
  diff_hunks base left = Some left_hunks -> diff_hunks base right = Some right_hunks ->
  (merge_text base left right = Conflict /\
   exists l r, l ∈ left_hunks /\ r ∈ right_hunks /\ l <> r /\ overlaps l r = true) \/
  (exists text, merge_text base left right = Clean text /\
   apply_hunks base (union_of_changes left_hunks right_hunks) = Some text /\
   forall l r, l ∈ left_hunks -> r ∈ right_hunks -> l = r \/ overlaps l r = false).
Proof.
  intros HL HR. pose proof (conflict_iff _ _ _ _ _ HL HR) as HC.
  destruct (merge_text base left right) as [text| |] eqn:E.
  - right. exists text. split_and!; [done| |].
    + apply (clean_apply _ _ _ _ _ _ HL HR E); [apply NoDup_remove_dups|].
      intros h. unfold union_of_changes. by rewrite elem_of_remove_dups, elem_of_app.
    + intros l r Hl Hr. destruct (decide (l = r)); [by left|right]. apply not_true_iff_false. intros HO.
      assert (Clean text = Conflict); [|done]. apply HC. by exists l, r.
  - left. split; [done|]. by apply HC.
  - unfold diff_hunks, merge_text in *. rewrite HL, HR, merge_loop_kept in E. by destruct (kept _ _).
Qed.

Lemma merge_text_too_large base left right :
  merge_text base left right = TooLarge <-> diff_hunks base left = None \/ diff_hunks base right = None.
Proof.
  unfold merge_text, diff_hunks. destruct (hunks _ (split_inclusive _ left)) eqn:EL; [|by split; [left|]].
  destruct (hunks _ (split_inclusive _ right)) eqn:ER; [|by split; [right|]].
  rewrite merge_loop_kept. destruct (kept _ _); split; (done || by intros [|]).
Qed.

Lemma conflict_flip base left right left_hunks right_hunks :
  diff_hunks base left = Some left_hunks -> diff_hunks base right = Some right_hunks ->
  merge_text base left right = Conflict -> merge_text base right left = Conflict.
Proof.
  intros HL HR. rewrite (conflict_iff _ _ _ _ _ HL HR), (conflict_iff _ _ _ _ _ HR HL).
  intros (l & r & ? & ? & ? & HO). exists r, l. rewrite overlaps_sym. by split_and!.
Qed.

(** the merge does not depend on which side is called left. *)
Theorem merge_text_symmetric base left right : merge_text base left right = merge_text base right left.
Proof.
  destruct (diff_hunks base left) as [hl|] eqn:HL;
    [|rewrite !(proj2 (merge_text_too_large _ _ _)) by auto; done].
  destruct (diff_hunks base right) as [hr|] eqn:HR;
    [|rewrite !(proj2 (merge_text_too_large _ _ _)) by auto; done].
  destruct (merge_text base left right) as [text| |] eqn:E.
  - destruct (merge_text base right left) as [text'| |] eqn:E'.
    + assert (forall h, h ∈ union_of_changes hl hr <-> h ∈ hl \/ h ∈ hr) as Hu.
      { intros h. unfold union_of_changes. by rewrite elem_of_remove_dups, elem_of_app. }
      pose proof (clean_apply _ _ _ _ _ _ HL HR E _ (NoDup_remove_dups _) Hu) as H1.
      pose proof (clean_apply _ _ _ _ _ _ HR HL E' (union_of_changes hl hr) (NoDup_remove_dups _)) as H2.
      assert (Some text = Some text') as [= ->]; [|done]. rewrite <- H1. apply H2. intros h. rewrite Hu. tauto.
    + apply (conflict_flip _ _ _ _ _ HR HL) in E'. congruence.
    + apply merge_text_too_large in E' as [|]; congruence.
  - by rewrite (conflict_flip _ _ _ _ _ HL HR E).
  - apply merge_text_too_large in E as [|]; congruence.
Qed.

Lemma common_prefix_refl a : common_prefix a a = length a.
Proof. induction a as [|x a IH]; simpl; [done|]. by rewrite decide_True, IH. Qed.

Lemma matches_refl a : matches a a = Some (map (fun i => (i, i)) (seq 0 (length a))).
Proof.
  unfold matches. rewrite common_prefix_refl, drop_all, reverse_nil. simpl common_prefix.
  rewrite Nat.sub_0_r, slice_empty. simpl. by rewrite !app_nil_r.
Qed.

Lemma hunks_from_run other bi n :
  hunks_from other bi bi (map (fun i => (i, i)) (seq bi n) ++ [(bi + n, bi + n)]) = [].
Proof.
  revert bi; induction n as [|n IH]; intros bi; simpl; [by rewrite Nat.add_0_r, Nat.ltb_irrefl|].
  rewrite Nat.ltb_irrefl. simpl. rewrite <- Nat.add_succ_comm. apply IH.
Qed.

Lemma diff_hunks_refl text : diff_hunks text text = Some [].
Proof. unfold diff_hunks, hunks. rewrite matches_refl. simpl. by rewrite (hunks_from_run _ 0). Qed.

(** a side that changed nothing yields to the other, and two sides that
    made the same changes agree, whenever the texts are small enough to compare. *)
Theorem merge_text_one_sided base other hs :
  diff_hunks base other = Some hs ->
  merge_text base base other = Clean other /\ merge_text base other base = Clean other /\
  merge_text base other other = Clean other.
Proof.
  intros H. pose proof H as [HS HA]%hunks_sound. pose proof (apply_hunks_spaced _ hs _ HS (Permutation_refl _)) as HP.
  rewrite HA, mjoin_split_inclusive in HP.
  assert (forall l r hl hr, diff_hunks base l = Some hl -> diff_hunks base r = Some hr ->
    (forall h, h ∈ hs <-> h ∈ hl \/ h ∈ hr) -> (forall x y, x ∈ hl -> y ∈ hr -> x = y \/ overlaps x y = false) ->
    merge_text base l r = Clean other) as HG.
  { intros l r hl hr HL HR HE HO. destruct (merge_text base l r) as [t| |] eqn:E.
    - rewrite (clean_apply _ _ _ _ _ _ HL HR E hs) in HP; [congruence| |done]. by eapply sorted_NoDup, spaced_ends_before.
    - apply (conflict_iff _ _ _ _ _ HL HR) in E as (x & y & Hx & Hy & Hne & Hxy).
      by destruct (HO x y Hx Hy) as [|HF]; [|rewrite HF in Hxy].
    - apply merge_text_too_large in E as [|]; congruence. }
  split_and!.
  - eapply HG; [apply diff_hunks_refl|done| |]; [intros h; rewrite elem_of_nil; tauto|by intros x y ?%elem_of_nil].
  - eapply HG; [done|apply diff_hunks_refl| |]; [intros h; rewrite elem_of_nil; tauto|by intros x y _ ?%elem_of_nil].
  - eapply HG; [done|done|tauto|]. intros x y Hx Hy. destruct (decide (x = y)); [by left|right].
    by apply (sorted_apart hs); [eapply spaced_ends_before|..].
Qed.

Module MergeDemo.
Import DiffDemo.
Definition base := Eval vm_compute in line_a ++ line_b ++ line_c.
Definition left := Eval vm_compute in line_d ++ line_b ++ line_c.
Definition right := Eval vm_compute in line_a ++ line_b ++ str "c".
Definition merged := Eval vm_compute in line_d ++ line_b ++ str "c".
Definition hunks_of (other : bytes) : list Hunk := default [] (diff_hunks base other).

Example merge_clean : merge_text base left right = Clean merged.
Proof. vm_compute. reflexivity. Qed.
Example merge_conflict : merge_text base left (line_c ++ line_b) = Conflict.
Proof. vm_compute. reflexivity. Qed.

Lemma diff_text_shows_witness :
  Forall (shows (split_inclusive newline base) (split_inclusive newline merged)) (default [] (diff_text base merged)).
Proof. apply diff_text_shows. vm_compute. reflexivity. Defined.

Lemma merge_text_spec_witness :
  (merge_text base left right = Conflict /\
   exists l r, l ∈ hunks_of left /\ r ∈ hunks_of right /\ l <> r /\ overlaps l r = true) \/
  (exists text, merge_text base left right = Clean text /\
   apply_hunks base (union_of_changes (hunks_of left) (hunks_of right)) = Some text /\
   forall l r, l ∈ hunks_of left -> r ∈ hunks_of right -> l = r \/ overlaps l r = false).
Proof. apply merge_text_spec; vm_compute; reflexivity. Defined.

Lemma merge_text_one_sided_witness :
  merge_text base base left = Clean left /\ merge_text base left base = Clean left /\
  merge_text base left left = Clean left.
Proof. apply (merge_text_one_sided base left (hunks_of left)). vm_compute. reflexivity. Defined.
End MergeDemo.
