(* ===== verification/AutoMerge.v ===== *)
(** * [src/src/file_history/merge.rs], the automatic merge of two heads

    [plan_auto_merge], [atomically], [auto_merge_steps] and [auto_merge]. *)

From S2P Require Import Prelude Text Crypto Envelope HistoryCodec Event Revision RevisionGraph Policy Container FileOps Diff Merge ContainerCodec.

Inductive AutoMergeOutcome :=
  | FastForward
  | AlreadyEquivalent
  | CleanMerge
  | RequiresHuman
  | PolicyBlocked
  | UnsupportedContent.
#[global] Instance AutoMergeOutcome_eq_dec : EqDecision AutoMergeOutcome.
Proof. solve_decision. Defined.

Record AutoMerge := {
  am_outcome : AutoMergeOutcome;
  am_reason : bytes;
  am_merge_base : option bytes;
  am_content : option bytes;
  am_merge_revision : option bytes;
}.

(** [AutoMerge::stop] *)
Definition stop (outcome : AutoMergeOutcome) (reason : bytes) (base : option bytes) : AutoMerge :=
  {| am_outcome := outcome; am_reason := reason; am_merge_base := base; am_content := None; am_merge_revision := None |}.

(** [AutoMerge::with_content] *)
Definition with_content (outcome : AutoMergeOutcome) (reason : bytes) (base : option bytes) (content : bytes) : AutoMerge :=
  {| am_outcome := outcome; am_reason := reason; am_merge_base := base; am_content := Some content; am_merge_revision := None |}.

Definition set_merge_revision (id : bytes) (a : AutoMerge) : AutoMerge :=
  {| am_outcome := am_outcome a; am_reason := am_reason a; am_merge_base := am_merge_base a;
     am_content := am_content a; am_merge_revision := Some id |}.

(** [new.parent_revision_ids = parents] *)
Definition set_parents (parents : list bytes) (new : NewRevision) : NewRevision :=
  {| nr_parent_revision_ids := parents; nr_user_label := nr_user_label new;
     nr_author_identity := nr_author_identity new; nr_author_hcp_label := nr_author_hcp_label new;
     nr_created_at_utc := nr_created_at_utc new; nr_topology_generation := nr_topology_generation new;
     nr_policy_hash := nr_policy_hash new |}.

(** [graph.get(id).and_then(|stored| stored.content())] *)
Definition payload_of (f : TrackedFile) (id : bytes) : option bytes := stored ← graph_get (graph f) id; content stored.

(** [atomically]: run the steps and cut the four lists back to their old lengths on an error. *)
Definition atomically {A} (steps : fileM A) : fileM A := fun f =>
  let '(result, f') := steps f in
  match result with
  | Ok _ => (result, f')
  | Err _ =>
      (result, set_event_proofs (take (length (tf_event_proofs f)) (tf_event_proofs f'))
        (set_events (take (length (tf_events f)) (tf_events f'))
        (set_proofs (take (length (tf_proofs f)) (tf_proofs f'))
        (set_revisions (take (length (tf_revisions f)) (tf_revisions f')) f'))))
  end.

Section auto_merge.
Context `{C : Crypto} `{U : Unicode} `{HX : Hex}.

Definition plan_auto_merge (f : TrackedFile) (left right : bytes) (allowed : bool) : result AutoMerge :=
  let g := graph f in
  match payload_of f left, payload_of f right with
  | Some left_bytes, Some right_bytes =>
      match verify_structure f with
      | Err _ => Ok (stop RequiresHuman (str "VERIFICATION_FAILED") None)
      | Ok _ =>
          relation ← compare g left right;
          match relation with
          | Equal | IncomingBehind =>
              Ok (with_content FastForward (str "ANCESTOR_HEAD")
                    (if decide (left = right) then None else Some right) left_bytes)
          | IncomingAhead => Ok (with_content FastForward (str "ANCESTOR_HEAD") (Some left) right_bytes)
          | Diverged =>
              if negb (bool_decide (left ∈ heads g)) || negb (bool_decide (right ∈ heads g))
              then Err InvalidTrackedFile else
              if negb allowed then Ok (stop PolicyBlocked (str "AUTO_MERGE_DISABLED") None) else
              if decide (left_bytes = right_bytes)
              then Ok (with_content AlreadyEquivalent (str "IDENTICAL_CONTENT") None left_bytes) else
              match merge_base g left right with
              | Ambiguous => Ok (stop RequiresHuman (str "AMBIGUOUS_MERGE_BASE") None)
              | NoBase => Ok (stop RequiresHuman (str "NO_COMMON_ANCESTOR") None)
              | Unique base =>
                  base_bytes ← ok_or (payload_of f base) InvalidTrackedFile;
                  if is_utf8 base_bytes && is_utf8 left_bytes && is_utf8 right_bytes then
                    Ok (match merge_text base_bytes left_bytes right_bytes with
                        | Clean text => with_content CleanMerge (str "THREE_WAY_TEXT") (Some base) text
                        | Conflict => stop RequiresHuman (str "OVERLAPPING_EDIT") (Some base)
                        | TooLarge => stop UnsupportedContent (str "TOO_LARGE") (Some base)
                        end)
                  else Ok (stop UnsupportedContent (str "NOT_UTF8_TEXT") (Some base))
              end
          end
      end
  | _, _ => Err InvalidTrackedFile
  end.

(** The event recorded for an outcome: its kind, the revision it names and how it went. *)
Definition outcome_event (result : AutoMerge) : E.HistoryEventType * option bytes * HistoryOutcome :=
  match am_outcome result with
  | FastForward => (E.AutoMergeFastForward, None, Success)
  | AlreadyEquivalent => (E.AutoMergeEquivalent, am_merge_revision result, Success)
  | CleanMerge => (E.AutoMergeClean, am_merge_revision result, Success)
  | PolicyBlocked | UnsupportedContent => (E.AutoMergeBlocked, None, Denied)
  | RequiresHuman => (E.AutoMergeRequiresHuman, None, Denied)
  end.

(** The actor fields every event of a merge shares, taken from [new]. *)
Definition merge_event (new : NewRevision) (kind : E.HistoryEventType) (revision_id : option bytes)
    (outcome : HistoryOutcome) (details : EventDetails) : NewEvent :=
  {| ne_revision_id := revision_id; ne_occurred_at := whole_seconds (nr_created_at_utc new);
     ne_actor_identity := nr_author_identity new; ne_actor_label := Some (nr_author_hcp_label new);
     ne_topology_generation := Some (nr_topology_generation new); ne_event_type := kind;
     ne_outcome := outcome; ne_details := details |}.

Definition auto_merge_steps (fresh : nat -> bytes) (left right : bytes) (allowed : bool) (new : NewRevision)
    : fileM AutoMerge :=
  f ← get_file;
  planned ← try (plan_auto_merge f left right allowed);
  result ← match am_outcome planned, am_content planned with
           | CleanMerge, Some content | AlreadyEquivalent, Some content =>
               id ← check_in (set_parents [left; right] new) content;
               mret (set_merge_revision id planned)
           | _, _ => mret planned
           end;
  let attempt := with_detail (with_detail [] (str "left") (hex_encode left)) (str "right") (hex_encode right) in
  let attempt := match am_merge_base result with
                 | Some base => with_detail attempt (str "base") (hex_encode base)
                 | None => attempt end in
  _ ← append fresh (merge_event new E.AutoMergeAttempted None Info attempt);
  let '(kind, revision, outcome) := outcome_event result in
  let details := with_detail [] (str "reason") (am_reason result) in
  let details := if revision then with_detail details (str "trust_state") (str "PENDING") else details in
  _ ← append fresh (merge_event new kind revision outcome details);
  mret result.

Definition auto_merge (fresh : nat -> bytes) (left right : bytes) (allowed : bool) (new : NewRevision) : fileM AutoMerge :=
  atomically (auto_merge_steps fresh left right allowed new).

(** ** Runs that only add to a file *)

(** [f'] is [f] with entries added at the end of its lists. *)
Record extends (f f' : TrackedFile) : Prop := {
  ex_file_id : tf_file_id f' = tf_file_id f;
  ex_logical_name : tf_logical_name f' = tf_logical_name f;
  ex_policy : tf_policy f' = tf_policy f;
  ex_revisions : tf_revisions f `prefix_of` tf_revisions f';
  ex_proofs : tf_proofs f `prefix_of` tf_proofs f';
  ex_events : tf_events f `prefix_of` tf_events f';
  ex_event_proofs : tf_event_proofs f `prefix_of` tf_event_proofs f';
}.

#[global] Instance extends_preorder : PreOrder extends.
Proof.
  split.
  - intros f. by split.
  - intros f g h [] []. split; (congruence || (etrans; done)).
Qed.

Lemma extends_destroyed f f' : extends f f' -> is_destroyed f = true -> is_destroyed f' = true.
Proof. intros X. destruct (ex_events _ _ X) as [k E]. unfold is_destroyed. rewrite E, existsb_app. by intros ->. Qed.

(** A step from [f] to [f'] keeps a verified file verified, only adds to it, and adds no
    revision once the content is on record as destroyed. *)
Record added (f f' : TrackedFile) : Prop := {
  ad_structure : structure_ok f -> structure_ok f';
  ad_extends : extends f f';
  ad_destroyed : is_destroyed f = true -> tf_revisions f' = tf_revisions f;
}.

#[global] Instance added_preorder : PreOrder added.
Proof.
  split; [intros f; by split|]. intros f g h [S1 X1 D1] [S2 X2 D2]. split; [auto|by etrans|].
  intros D. rewrite D2 by (by eapply extends_destroyed). auto.
Qed.

Definition adds {A} (m : fileM A) : Prop := forall f, added f (m f).2.

Lemma adds_mret {A} (a : A) : adds (mret a).
Proof. by intros f. Qed.
Lemma adds_try {A} (r : result A) : adds (try r).
Proof. by intros f. Qed.
Lemma adds_throw {A} e : adds (A := A) (throw e).
Proof. by intros f. Qed.
Lemma adds_get_file : adds get_file.
Proof. by intros f. Qed.

Lemma adds_bind {A B} (m : fileM A) (k : A -> fileM B) : adds m -> (forall a, adds (k a)) -> adds (a ← m; k a).
Proof.
  intros Hm Hk f. unfold mbind, fileM_bind. specialize (Hm f). destruct (m f) as [[a|e] f']; [|done]. etrans; [exact Hm|apply Hk].
Qed.

Lemma adds_check_in new payload : adds (check_in new payload).
Proof.
  intros f. split; [intros S; by apply check_in_safe|..]; last (intros D; unfold check_in, mbind, fileM_bind, get_file; by rewrite D).
  destruct (check_in new payload f) as [r f'] eqn:E.
  apply check_in_spec in E. destruct r; [|by subst]. destruct E as (s & -> & _). split; try done. by apply prefix_app_r.
Qed.

Lemma adds_append fresh new : ne_event_type new <> E.ContentDestroyed -> adds (append fresh new).
Proof.
  intros Hne f. split; [intros S; by apply append_safe| |]; destruct (append fresh new f) as [r f'] eqn:E;
    apply append_spec in E; (destruct r; [|by subst]); destruct E as (-> & _); [|done]. split; try done. by apply prefix_app_r.
Qed.

Lemma take_prefix {A} (l l' : list A) : l `prefix_of` l' -> take (length l) l' = l.
Proof. intros [k ->]. apply take_app_length. Qed.

(** Steps that only add are undone exactly. *)
Lemma atomically_undo {A} (m : fileM A) f :
  extends f (m f).2 -> atomically m f = match m f with (Ok a, f') => (Ok a, f') | (Err e, _) => (Err e, f) end.
Proof.
  intros X. unfold atomically. destruct (m f) as [[a|e] f'] eqn:E; [done|]. f_equal.
  destruct X as [? ? ? HR HP HE HEP]. apply take_prefix in HR, HP, HE, HEP. simpl in *.
  unfold set_event_proofs, set_events, set_proofs, set_revisions; simpl. rewrite HR, HP, HE, HEP. destruct f; simpl in *. congruence.
Qed.

Lemma atomically_run {A} (m : fileM A) f :
  adds m -> structure_ok f ->
  safe_run f (atomically m f) /\ extends f (atomically m f).2 /\
  (forall a f', atomically m f = (Ok a, f') <-> m f = (Ok a, f')).
Proof.
  intros Hm S. destruct (Hm f) as [S' X _]. rewrite (atomically_undo m f X). specialize (S' S). by destruct (m f) as [[a|e] f'].
Qed.

Lemma adds_atomically {A} (m : fileM A) : adds m -> adds (atomically m).
Proof. intros Hm f. specialize (Hm f). rewrite (atomically_undo m f) by apply Hm. by destruct (m f) as [[a|e] f']. Qed.
End auto_merge.

Create HintDb adds.
#[export] Hint Resolve adds_mret adds_try adds_throw adds_get_file adds_bind adds_check_in adds_atomically : adds.
#[export] Hint Extern 1 (adds (append _ _)) => (apply adds_append; done) : adds.
#[export] Hint Extern 2 (adds (match ?x with _ => _ end)) => (destruct x) : adds.
#[export] Hint Extern 2 (adds (let _ := _ in _)) => (cbv zeta) : adds.

Section auto_merge_theorems.
Context `{C : Crypto} `{U : Unicode} `{HX : Hex}.

Lemma adds_auto_merge_steps fresh left right allowed new : adds (auto_merge_steps fresh left right allowed new).
Proof.
  unfold auto_merge_steps. apply adds_bind; [auto with adds|intros f]. apply adds_bind; [auto with adds|intros planned].
  apply adds_bind; [destruct (am_outcome planned), (am_content planned); auto with adds|intros result].
  apply adds_bind; [auto with adds|intros _]. unfold outcome_event.
  destruct (am_outcome result); apply adds_bind; intros; auto with adds; by apply adds_append.
Qed.

Lemma append_keeps fresh new f e f' :
  append fresh new f = (Ok e, f') ->
  tf_revisions f' = tf_revisions f /\ tf_proofs f' = tf_proofs f /\ tf_event_proofs f' = tf_event_proofs f.
Proof. intros H%append_spec. destruct H as (-> & _). done. Qed.

Lemma plan_no_revision f left right allowed a : plan_auto_merge f left right allowed = Ok a -> am_merge_revision a = None.
Proof.
  unfold plan_auto_merge. intros H. destruct (payload_of f left), (payload_of f right); try done.
  destruct (verify_structure f); [|by apply Ok_inj in H as <-]. apply bind_Ok in H as (relation & _ & H).
  destruct relation; try by apply Ok_inj in H as <-. destruct (_ || _); [done|].
  destruct allowed; [|by apply Ok_inj in H as <-]. simpl in H. case_decide; [by apply Ok_inj in H as <-|].
  destruct (merge_base _ _ _); try by apply Ok_inj in H as <-. apply bind_Ok in H as (base_bytes & _ & H).
  destruct (_ && _); apply Ok_inj in H as <-; [|done]. by destruct (merge_text _ _ _).
Qed.

(** The payload of a merge is the content the plan chose, under both heads. *)
Lemma auto_merge_steps_revision fresh left right allowed new f a f' :
  auto_merge_steps fresh left right allowed new f = (Ok a, f') ->
  tf_proofs f' = tf_proofs f /\ tf_event_proofs f' = tf_event_proofs f /\
  exists planned, plan_auto_merge f left right allowed = Ok planned /\ am_outcome a = am_outcome planned /\
  am_content a = am_content planned /\ am_merge_base a = am_merge_base planned /\
  match am_merge_revision a with
  | None => tf_revisions f' = tf_revisions f
  | Some id => exists s, tf_revisions f' = tf_revisions f ++ [s] /\ sr_id s = id /\
      sr_parents s = [left; right] /\ sr_payload s = am_content planned /\ revision_ok (tf_file_id f) (tf_revisions f) s
  end.
Proof.
  unfold auto_merge_steps. intros H. run_file H.
  destruct (plan_auto_merge f left right allowed) as [planned|] eqn:EP; [|done].
  set (m := match am_outcome planned with CleanMerge => _ | _ => _ end) in H.
  destruct (m f) as [[result|] f1] eqn:Em; [|done].
  destruct (append fresh _ f1) as [[e1|] f2] eqn:E1; [|done].
  destruct (outcome_event result) as [[kind revision] outcome].
  destruct (append fresh _ f2) as [[e2|] f3] eqn:E2; [|done]. apply pair_equal_spec in H as [[= <-] <-].
  apply append_keeps in E1 as (R1 & P1 & EP1), E2 as (R2 & P2 & EP2). rewrite P2, P1, EP2, EP1, R2, R1.
  assert (am_merge_revision planned = None) as HN.
  { by eapply plan_no_revision. }
  assert (f1 = f /\ result = planned \/
    exists c id, am_content planned = Some c /\ check_in (set_parents [left; right] new) c f = (Ok id, f1) /\
      result = set_merge_revision id planned) as [[-> ->]|(c & id & Hc & EC & ->)].
  { clear -Em. unfold m in Em. destruct (am_outcome planned); try (left; by simplify_eq);
      (destruct (am_content planned) as [c|] eqn:Ec; [|left; by simplify_eq]);
      unfold mbind, fileM_bind, mret, fileM_ret in Em; destruct (check_in _ c f) as [[id|] f''] eqn:EC; try done;
      right; exists c, id; simplify_eq; done. }
  - do 2 (split; [done|]). exists planned. rewrite HN. by split_and!.
  - apply check_in_spec in EC as (s & -> & ? & ? & ? & _ & _ & ?). do 2 (split; [done|]).
    exists planned. split_and!; [done..|]. exists s. split_and!; try done. congruence.
Qed.

Lemma known_proofs f p : structure_ok f -> p ∈ tf_proofs f -> pf_revision_id p ∈ ids (tf_revisions f).
Proof.
  intros S Hp. destruct (each_after_elem _ _ _ (so_proofs f S) Hp) as (before & [(s & Hs & _) _ _]).
  apply graph_get_is_Some. eauto.
Qed.

(** A revision new to a verified file has no proof while the proofs stay the same. *)
Lemma new_revision_unsigned f f' s id :
  structure_ok f -> revision_ok (tf_file_id f) (tf_revisions f) s -> tf_proofs f' = tf_proofs f -> sr_id s = id ->
  forall kind, proofs_for f' id kind = [].
Proof.
  intros S Hok HP <- kind. unfold proofs_for. apply elem_of_nil_inv. intros p [[Hpid _] Hp]%list_elem_of_filter.
  rewrite HP in Hp. apply (known_proofs f p S) in Hp. rewrite Hpid in Hp. by apply (ro_new _ _ _ Hok).
Qed.

(** an automatic merge is all or nothing and starts untrusted. On an error
    the file is exactly what it was. On success the file still verifies, every
    earlier revision and event is kept, no proof of any kind is added, and the
    merge revision, if there is one, is the new last revision with [left] and
    [right] as its parents in that order, the planned content as its payload and
    not a single proof. *)
Theorem auto_merge_atomic fresh left right allowed new f r f' :
  structure_ok f -> auto_merge fresh left right allowed new f = (r, f') ->
  match r with
  | Err _ => f' = f
  | Ok a =>
      structure_ok f' /\ extends f f' /\ tf_proofs f' = tf_proofs f /\ tf_event_proofs f' = tf_event_proofs f /\
      match am_merge_revision a with
      | None => tf_revisions f' = tf_revisions f
      | Some id => exists s, tf_revisions f' = tf_revisions f ++ [s] /\ sr_id s = id /\
          sr_parents s = [left; right] /\ sr_payload s = am_content a /\
          forall kind, proofs_for f' id kind = []
      end
  end.
Proof.
  intros S H. unfold auto_merge in H.
  destruct (atomically_run _ f (adds_auto_merge_steps fresh left right allowed new) S) as ([S' HE] & X & HR).
  rewrite H in S', HE, X. simpl in *. destruct r as [a|e]; [|done].
  apply HR, auto_merge_steps_revision in H as (HP & HEP & planned & _ & _ & HC & _ & HM).
  split_and!; [done..|]. destruct (am_merge_revision a) as [id|]; [|done].
  destruct HM as (s & HRv & Hid & Hpar & Hpay & Hok). exists s. rewrite HC. split_and!; try done.
  by apply (new_revision_unsigned f f' s id).
Qed.

(** a clean merge is justified. It is planned only with the policy's
    consent, for two current heads of which neither descends from the other,
    against their nearest common ancestor, and its text is what [merge_text]
    makes of the three payloads. *)
Theorem plan_clean_justified f left right allowed a :
  plan_auto_merge f left right allowed = Ok a -> am_outcome a = CleanMerge ->
  let g := tf_revisions f in
  allowed = true /\ left ∈ heads g /\ right ∈ heads g /\
  is_ancestor_or_self g left right = false /\ is_ancestor_or_self g right left = false /\
  exists base base_text left_text right_text text,
    am_merge_base a = Some base /\ common_ancestor g left right base /\
    (forall x, common_ancestor g left right x -> is_ancestor_or_self g x base = true) /\
    payload_of f base = Some base_text /\ payload_of f left = Some left_text /\ payload_of f right = Some right_text /\
    merge_text base_text left_text right_text = Clean text /\ am_content a = Some text.
Proof.
  unfold plan_auto_merge. intros H Ho. cbv zeta.
  destruct (payload_of f left) as [lb|] eqn:EL, (payload_of f right) as [rb|] eqn:ER; try done.
  destruct (verify_structure f) as [root|] eqn:EV; [|by apply Ok_inj in H; subst].
  apply verify_structure_Ok in EV as [S _]. pose proof (structure_parents_first f S) as HPF.
  apply bind_Ok in H as (relation & EC & H). destruct relation; try by (apply Ok_inj in H; subst).
  destruct (_ || _) eqn:B; [done|]. bool_hyps. destruct allowed; [|by apply Ok_inj in H; subst]. simpl in H.
  case_decide; [by apply Ok_inj in H; subst|]. pose proof (merge_base_answer (graph f) left right HPF) as HM.
  destruct (merge_base _ _ _) as [base| |]; try by (apply Ok_inj in H; subst).
  apply bind_Ok in H as (bb & EB & H). destruct (_ && _); apply Ok_inj in H; [|by subst].
  destruct (merge_text bb lb rb) as [text| |] eqn:EM; try by subst. subst a.
  unfold compare in EC. destruct (_ || _); [done|]. apply Ok_inj in EC. unfold graph in *.
  case_decide; [done|]. destruct (is_ancestor_or_self _ left right); [done|].
  destruct (is_ancestor_or_self _ right left); [done|]. apply ok_or_Ok in EB.
  split_and!; [done..|]. exists base, bb, lb, rb, text. by destruct HM.
Qed.

(** Planning never gets stuck: for two heads of a verified file whose
    content has not been destroyed, a plan always comes back. *)
Theorem plan_total f left right allowed :
  structure_ok f -> is_destroyed f = false -> left ∈ heads (tf_revisions f) -> right ∈ heads (tf_revisions f) ->
  exists a, plan_auto_merge f left right allowed = Ok a.
Proof.
  intros S HD HL HR.
  assert (forall id, id ∈ ids (tf_revisions f) -> exists b, payload_of f id = Some b) as HP.
  { intros id [s Hs]%graph_get_is_Some. unfold payload_of, graph. rewrite Hs. simpl.
    apply graph_get_Some in Hs as [Hs _]. pose proof (so_payloads f S s Hs) as HPay. unfold content.
    destruct (sr_payload s); [eauto|]. by destruct HPay as [HPay _]; rewrite HPay in HD. }
  assert (forall id, id ∈ heads (tf_revisions f) -> id ∈ ids (tf_revisions f)) as Hh.
  { intros id Hid. by apply list_elem_of_filter in Hid as [_ ?]. }
  unfold plan_auto_merge. destruct (HP left) as [lb ->]; [auto|]. destruct (HP right) as [rb ->]; [auto|].
  destruct (verify_structure f); [|eauto]. unfold compare, graph.
  rewrite !(bool_decide_false (graph_get _ _ = None)) by (rewrite graph_get_None; intros HN; apply HN; by apply Hh).
  simpl. destruct (if decide _ then _ else _); eauto. rewrite !bool_decide_true by done. simpl.
  destruct allowed; [|simpl; eauto]. simpl. case_decide; [eauto|].
  pose proof (merge_base_answer (tf_revisions f) left right (structure_parents_first f S)) as HM.
  destruct (merge_base _ left right) as [base| |]; eauto.
  assert (base ∈ ids (tf_revisions f)) as Hb.
  { destruct HM as [(i & Hi & _)%common_ancestor_at _]. apply index_of_Some in Hi as (s & Hs & <-).
    apply list_elem_of_fmap. exists s. split; [done|]. by eapply list_elem_of_lookup_2. }
  destruct (HP base Hb) as [bb ->]. simpl. destruct (_ && _); eauto.
Qed.
End auto_merge_theorems.

(** ** A forked file: two members edit different lines of the owner's text *)

Module ForkDemo.
Import Toy FileDemo DiffDemo.
#[export] Instance plain_hex : Hex := fun b => b.

Definition fork : fileM (bytes * bytes) :=
  base ← check_in (revision [] (str "M.S") (str "2026-10-02T14:32:05Z")) MergeDemo.base;
  left ← check_in (revision [base] (str "M.S.1") (str "2026-10-02T15:00:00Z")) MergeDemo.left;
  right ← check_in (revision [base] (str "M.S.2") (str "2026-10-02T15:30:00Z")) MergeDemo.right;
  mret (left, right).
Definition forked := Eval vm_compute in fork (with_policy file_id (str "notes.txt") policy).
Definition file : TrackedFile := Eval vm_compute in forked.2.
Definition left : bytes := Eval vm_compute in match forked.1 with Ok (l, _) => l | Err _ => [] end.
Definition right : bytes := Eval vm_compute in match forked.1 with Ok (_, r) => r | Err _ => [] end.
Definition merger : NewRevision := revision [] (str "M.S") (str "2026-10-02T16:00:00.25Z").
Definition merge_result : AutoMerge := Eval vm_compute in
  match (auto_merge fresh left right true merger file).1 with Ok a => a | Err _ => stop FastForward [] None end.
Definition merged_file : TrackedFile := Eval vm_compute in (auto_merge fresh left right true merger file).2.
Definition planned : AutoMerge := Eval vm_compute in
  match plan_auto_merge file left right true with Ok a => a | Err _ => stop FastForward [] None end.

Lemma fork_structure : structure_ok file.
Proof. apply verify_structure_iff. vm_compute. reflexivity. Defined.
Lemma merge_ok : auto_merge fresh left right true merger file = (Ok merge_result, merged_file).
Proof. vm_compute. reflexivity. Defined.
Lemma plan_ok : plan_auto_merge file left right true = Ok planned.
Proof. vm_compute. reflexivity. Defined.
Lemma left_head : left ∈ heads (tf_revisions file).
Proof. apply (bool_decide_unpack _). vm_compute. exact I. Defined.
Lemma right_head : right ∈ heads (tf_revisions file).
Proof. apply (bool_decide_unpack _). vm_compute. exact I. Defined.
End ForkDemo.

Lemma auto_merge_atomic_witness :
  am_content ForkDemo.merge_result = Some MergeDemo.merged /\
  structure_ok (C := Toy.toy) (U := FileDemo.ascii_only) ForkDemo.merged_file.
Proof.
  split; [vm_compute; reflexivity|].
  exact (proj1 (auto_merge_atomic (C := Toy.toy) (U := FileDemo.ascii_only) (HX := ForkDemo.plain_hex) FileDemo.fresh
    ForkDemo.left ForkDemo.right true ForkDemo.merger ForkDemo.file _ _ ForkDemo.fork_structure ForkDemo.merge_ok)).
Defined.

Lemma plan_clean_justified_witness :
  am_outcome ForkDemo.planned = CleanMerge /\
  is_ancestor_or_self (tf_revisions ForkDemo.file) ForkDemo.left ForkDemo.right = false.
Proof.
  split; [vm_compute; reflexivity|].
  pose proof (plan_clean_justified (C := Toy.toy) (U := FileDemo.ascii_only)
    ForkDemo.file ForkDemo.left ForkDemo.right true ForkDemo.planned ForkDemo.plan_ok eq_refl) as (_ & _ & _ & H & _).
  exact H.
Defined.

Lemma plan_total_witness :
  exists a, plan_auto_merge (C := Toy.toy) (U := FileDemo.ascii_only) ForkDemo.file ForkDemo.left ForkDemo.right false = Ok a.
Proof.
  exact (plan_total (C := Toy.toy) (U := FileDemo.ascii_only) ForkDemo.file ForkDemo.left ForkDemo.right false
    ForkDemo.fork_structure eq_refl ForkDemo.left_head ForkDemo.right_head).
Defined.
