(* ===== verification/Expiry.v ===== *)
(** * [src/src/file_history/expiry.rs]: expiry and destruction of the content

    Scheduling, destruction of every payload at once, and the tombstone that
    stays behind. [destroys_this_content] and [is_destroyed] are in
    [Container], where the verifier uses them. *)

From Stdlib Require Import DecimalString.
From S2P Require Import Prelude Text Crypto Envelope HistoryCodec Event Revision RevisionGraph Policy Container FileOps Diff Merge ContainerCodec AutoMerge.

(** [<=] on [str]: lexicographic order of the bytes. *)
Fixpoint str_le (a b : bytes) : bool :=
  match a, b with
  | [], _ => true
  | _ :: _, [] => false
  | x :: a, y :: b =>
      (Byte.to_N x <? Byte.to_N y)%N || ((Byte.to_N x =? Byte.to_N y)%N && str_le a b)
  end.

(** [usize::to_string] *)
Definition usize_to_string (n : nat) : bytes := str (NilZero.string_of_uint (Nat.to_uint n)).

Record ExpiryContext := {
  xc_actor_identity : option bytes;
  xc_actor_label : option bytes;
  xc_occurred_at : bytes;
  xc_topology_generation : option N;
}.

(** [ExpiryContext::event] *)
Definition expiry_event (context : ExpiryContext) (kind : E.HistoryEventType) (outcome : HistoryOutcome)
    (details : EventDetails) : NewEvent :=
  {| ne_revision_id := None; ne_occurred_at := xc_occurred_at context; ne_actor_identity := xc_actor_identity context;
     ne_actor_label := xc_actor_label context; ne_topology_generation := xc_topology_generation context;
     ne_event_type := kind; ne_outcome := outcome; ne_details := details |}.

(** Every slice is taken after the length and digit tests before it in the chain of [&&]. *)
Definition is_instant (value : bytes) : bool :=
  let digits i j := forallb is_digit (slice i j value) in
  let at_ i c := bool_decide (value !! i = Some c) in
  let num i j := N.to_nat (parse_u32 (slice i j value)) in
  (length value =? 20)
  && digits 0 4 && at_ 4 hyphen
  && digits 5 7 && at_ 7 hyphen
  && digits 8 10 && at_ 10 x54
  && digits 11 13 && at_ 13 x3a
  && digits 14 16 && at_ 16 x3a
  && digits 17 19 && at_ 19 x5a
  && ((1 <=? num 5 7) && (num 5 7 <=? 12))
  && ((1 <=? num 8 10) && (num 8 10 <=? 31))
  && (num 11 13 <? 24) && (num 14 16 <? 60) && (num 17 19 <? 60).

Definition expires_at (f : TrackedFile) : option bytes :=
  '(_, event) ← list_find (fun e => ev_event_type e = E.ExpiryScheduled) (reverse (tf_events f));
  '(_, entry) ← list_find (fun kv => kv.1 = str "expires_at") (ev_details event);
  Some entry.2.

Definition is_expired_at (f : TrackedFile) (now : bytes) : bool :=
  match expires_at f with Some at_ => str_le at_ now | None => false end.

(** [stored.payload = payload] *)
Definition set_payload (payload : option bytes) (s : StoredRevision) : StoredRevision :=
  {| sr_revision := sr_revision s; sr_payload := payload |}.

Definition clear_payloads (f : TrackedFile) : TrackedFile := set_revisions (map (set_payload None) (tf_revisions f)) f.

(** [for (stored, payload) in revisions.iter_mut().zip(payloads)] *)
Fixpoint restore_payloads (revisions : list StoredRevision) (payloads : list (option bytes)) : list StoredRevision :=
  match revisions, payloads with
  | s :: revisions, p :: payloads => set_payload p s :: restore_payloads revisions payloads
  | _, _ => revisions
  end.

(** [if let Err(error) = m { handler }] *)
Definition catch {A} (m : fileM A) (handler : error -> fileM A) : fileM A := fun f =>
  match m f with
  | (Err e, f') => handler e f'
  | (Ok a, f') => (Ok a, f')
  end.

(** ** Instants in order *)

Lemma str_le_cons x y a b :
  str_le (x :: a) (y :: b) = true <-> (Byte.to_N x < Byte.to_N y)%N \/ (x = y /\ str_le a b = true).
Proof.
  simpl. rewrite orb_true_iff, andb_true_iff, N.ltb_lt, N.eqb_eq. split; intros [H|[H1 H2]]; auto; right.
  - split; [|done]. apply (f_equal Byte.of_N) in H1. rewrite !Byte.of_to_N in H1. by injection H1.
  - by subst.
Qed.

(** On strings of one length, the order of concatenations is lexicographic by parts. *)
Lemma str_le_app a b a' b' :
  length a = length b ->
  str_le (a ++ a') (b ++ b') = true <-> (a = b /\ str_le a' b' = true) \/ (a <> b /\ str_le a b = true).
Proof.
  revert b; induction a as [|x a IH]; intros [|y b]; try done.
  - intros _. simpl. split; [by left|]. by intros [[_ ?]|[? _]].
  - intros [= HL]. rewrite <- !app_comm_cons, !str_le_cons, IH by done. split.
    + intros [H|[-> [[-> ?]|[? ?]]]]; [right|by left|right].
      * split; [|by left]. intros [= -> _]. lia.
      * split; [|by right]. by intros [= ->].
    + intros [[[= -> ->] ?]|[Hne [?|[-> ?]]]]; [right; auto|by left|right]. split; [done|]. right. split; [|done].
      by intros ->.
Qed.

Lemma parse_u32_acc acc l :
  foldl (fun acc b => acc * 10 + digit_val b)%N acc l = (acc * 10 ^ N.of_nat (length l) + parse_u32 l)%N.
Proof.
  unfold parse_u32. revert acc; induction l as [|x l IH]; intros acc; [simpl; lia|].
  cbn [foldl length]. rewrite (IH (acc * 10 + _)%N), (IH (0 * 10 + _)%N), Nat2N.inj_succ, N.pow_succ_r'. lia.
Qed.

Lemma parse_u32_cons x l : parse_u32 (x :: l) = (digit_val x * 10 ^ N.of_nat (length l) + parse_u32 l)%N.
Proof. unfold parse_u32 at 1. cbn [foldl]. by rewrite parse_u32_acc. Qed.

Lemma is_digit_range x : is_digit x = true -> (48 <= Byte.to_N x <= 57)%N.
Proof. unfold is_digit, in_range. rewrite andb_true_iff, !N.leb_le. done. Qed.

Lemma parse_u32_bound l : forallb is_digit l = true -> (parse_u32 l < 10 ^ N.of_nat (length l))%N.
Proof.
  induction l as [|x l IH]; [done|]. cbn [forallb]. rewrite andb_true_iff. intros [Hx%is_digit_range Hl%IH].
  rewrite parse_u32_cons. cbn [length]. rewrite Nat2N.inj_succ, N.pow_succ_r'. unfold digit_val. nia.
Qed.

(** Digit strings of one length are ordered as their numbers. *)
Lemma str_le_digits a b :
  length a = length b -> forallb is_digit a = true -> forallb is_digit b = true ->
  str_le a b = true <-> (parse_u32 a <= parse_u32 b)%N.
Proof.
  revert b; induction a as [|x a IH]; intros [|y b]; try done. intros [= HL]. cbn [forallb]. rewrite !andb_true_iff.
  intros [Hx%is_digit_range Ha] [Hy%is_digit_range Hb]. rewrite str_le_cons, !parse_u32_cons, IH, HL by done.
  apply parse_u32_bound in Ha, Hb. rewrite HL in Ha. unfold digit_val.
  set (p := (10 ^ N.of_nat (length b))%N) in *. split.
  - intros [?|[-> ?]]; nia.
  - intros H. destruct (decide (x = y)) as [->|Hne]; [right; split; [done|nia]|left].
    assert (Byte.to_N x <> Byte.to_N y); [|nia]. intros E. apply Hne.
    apply (f_equal Byte.of_N) in E. rewrite !Byte.of_to_N in E. by injection E.
Qed.

(** The digits of an instant, from the year down to the second. *)
Definition instant_digits (v : bytes) : bytes :=
  slice 0 4 v ++ slice 5 7 v ++ slice 8 10 v ++ slice 11 13 v ++ slice 14 16 v ++ slice 17 19 v.

Lemma instant_parts v :
  is_instant v = true ->
  exists y mo d h mi s, v = y ++ [hyphen] ++ mo ++ [hyphen] ++ d ++ [x54] ++ h ++ [x3a] ++ mi ++ [x3a] ++ s ++ [x5a] /\
    instant_digits v = y ++ mo ++ d ++ h ++ mi ++ s /\ forallb is_digit (y ++ mo ++ d ++ h ++ mi ++ s) = true /\
    length y = 4 /\ length mo = 2 /\ length d = 2 /\ length h = 2 /\ length mi = 2 /\ length s = 2.
Proof.
  unfold is_instant. intros H. bool_hyps.
  exists (slice 0 4 v), (slice 5 7 v), (slice 8 10 v), (slice 11 13 v), (slice 14 16 v), (slice 17 19 v).
  do 20 (destruct v as [|? v]; [done|]). destruct v; [|done].
  repeat match goal with H : _ !! _ = Some _ |- _ => injection H as -> end.
  split; [reflexivity|]. split; [reflexivity|]. split; [|repeat split].
  rewrite !forallb_app, !andb_true_iff. by split_and!.
Qed.

Lemma str_le_separator p q c a b :
  length p = length q -> str_le (p ++ [c] ++ a) (q ++ [c] ++ b) = str_le (p ++ a) (q ++ b).
Proof.
  intros HL. apply eq_bool_prop_intro. rewrite !Is_true_true, (str_le_app p q), (str_le_app p q a b) by done.
  assert (str_le ([c] ++ a) ([c] ++ b) = true <-> str_le a b = true) as ->; [|done].
  rewrite str_le_app by done. naive_solver.
Qed.

(** The textual order of well-formed instants is the order of time: comparing
    the strings, as [is_expired_at] does, compares year, month, day, hour, minute
    and second, in that weight. *)
Lemma instant_order a b :
  is_instant a = true -> is_instant b = true ->
  str_le a b = true <-> (parse_u32 (instant_digits a) <= parse_u32 (instant_digits b))%N.
Proof.
  intros (y & mo & d & h & mi & s & -> & Ha & HDa & L1 & L2 & L3 & L4 & L5 & L6)%instant_parts
    (y' & mo' & d' & h' & mi' & s' & -> & Hb & HDb & L1' & L2' & L3' & L4' & L5' & L6')%instant_parts.
  rewrite Ha, Hb, <- str_le_digits by (done || (rewrite !length_app; lia)).
  rewrite str_le_separator by lia. rewrite !(assoc_L (++) y), !(assoc_L (++) y').
  rewrite str_le_separator by (rewrite !length_app; lia). rewrite !(assoc_L (++) (y ++ mo)), !(assoc_L (++) (y' ++ mo')).
  rewrite str_le_separator by (rewrite !length_app; lia).
  rewrite !(assoc_L (++) ((y ++ mo) ++ d)), !(assoc_L (++) ((y' ++ mo') ++ d')).
  rewrite str_le_separator by (rewrite !length_app; lia).
  rewrite !(assoc_L (++) (((y ++ mo) ++ d) ++ h)), !(assoc_L (++) (((y' ++ mo') ++ d') ++ h')).
  rewrite str_le_separator by (rewrite !length_app; lia).
  rewrite !(assoc_L (++) ((((y ++ mo) ++ d) ++ h) ++ mi)), !(assoc_L (++) ((((y' ++ mo') ++ d') ++ h') ++ mi')).
  rewrite <- (app_nil_r [x5a]), str_le_separator, !app_nil_r by (rewrite !length_app; lia). done.
Qed.

Section expiry.
Context `{C : Crypto} `{U : Unicode}.

Definition schedule_expiry (fresh : nat -> bytes) (at_ : bytes) (context : ExpiryContext) : fileM unit :=
  f ← get_file;
  if is_destroyed f || negb (is_instant at_) then throw InvalidTrackedFile else
  _ ← append fresh (expiry_event context E.ExpiryScheduled Info (with_detail [] (str "expires_at") at_));
  mret tt.

(** The closure [destroy_content] runs atomically. *)
Definition record_destruction (fresh : nat -> bytes) (reason : bytes) (context : ExpiryContext) (destroyed : nat) : fileM unit :=
  f ← get_file;
  let expired := with_detail [] (str "reason") reason in
  let expired := match expires_at f with Some at_ => with_detail expired (str "expires_at") at_ | None => expired end in
  _ ← append fresh (expiry_event context E.FileExpired Info expired);
  _ ← append fresh (expiry_event context E.ContentDestroyed Success
        (with_detail [] (str "revisions_destroyed") (usize_to_string destroyed)));
  f ← get_file;
  _ ← try (verify_structure f);
  mret tt.

Definition destroy_content (fresh : nat -> bytes) (reason : bytes) (context : ExpiryContext) : fileM nat :=
  f ← get_file;
  if is_destroyed f then throw FileExpired else
  let payloads := map sr_payload (tf_revisions f) in
  let destroyed := length (filter is_Some payloads) in
  _ ← update_file clear_payloads;
  _ ← catch (atomically (record_destruction fresh reason context destroyed)) (fun error =>
        f ← get_file;
        _ ← update_file (set_revisions (restore_payloads (tf_revisions f) payloads));
        throw error);
  mret destroyed.

Definition expire_if_due (fresh : nat -> bytes) (now : bytes) (context : ExpiryContext) : fileM bool :=
  f ← get_file;
  if is_destroyed f || negb (is_expired_at f now) then mret false else
  _ ← destroy_content fresh (str "scheduled expiry passed") context;
  mret true.

Definition record_expired_access (fresh : nat -> bytes) (action : bytes) (context : ExpiryContext) : fileM unit :=
  _ ← append fresh (expiry_event context E.ExpiredAccessAttempt Denied (with_detail [] (str "action") action));
  mret tt.
End expiry.

(** ** Destruction *)

Lemma clear_ids l : ids (map (set_payload None) l) = ids l.
Proof. unfold ids. by rewrite map_map. Qed.

Lemma graph_get_clear l id : graph_get (map (set_payload None) l) id = set_payload None <$> graph_get l id.
Proof.
  unfold graph_get. change (map ?f l) with (f <$> l). rewrite list_find_fmap.
  rewrite (list_find_ext _ (fun s => sr_id s = id)) by done. by destruct (list_find _ l) as [[]|].
Qed.

Lemma restore_clear l : restore_payloads (map (set_payload None) l) (map sr_payload l) = l.
Proof. induction l as [|[r p] l IH]; simpl; [done|]. by rewrite IH. Qed.

Section destruction.
Context `{C : Crypto} `{U : Unicode}.

Lemma revisions_clear file_id before l :
  each_after (revision_ok file_id) before l ->
  each_after (revision_ok file_id) (map (set_payload None) before) (map (set_payload None) l).
Proof.
  revert before; induction l as [|s l IH]; intros before; simpl; [done|]. intros [[] H%IH]. split.
  - assert (map (set_payload None) before = [] <-> before = []) as HN by (by destruct before).
    split; rewrite ?clear_ids, ?HN; done.
  - by rewrite map_app in H.
Qed.

(** A verified file whose payloads are cleared verifies again once the destruction is recorded. *)
Lemma structure_tombstone f e :
  structure_ok f -> link_ok (tf_file_id f) (length (tf_events f)) (history_root f) e ->
  ev_revision_id e = None -> destroys_this_content e = true ->
  structure_ok (set_events (tf_events f ++ [e]) (clear_payloads f)).
Proof.
  intros [HR HP HB HE HEP HC] HL Hid Hd. split; simpl.
  - by apply (revisions_clear _ []).
  - eapply each_after_impl; [|done]. intros b p _ [(s & Hs & Hw) ? ?]. split; [|done..].
    exists (set_payload None s). by rewrite graph_get_clear, Hs.
  - intros s (s' & -> & _)%list_elem_of_fmap. split; [|done]. intros _.
    change (clear_payloads f) with (set_revisions (map (set_payload None) (tf_revisions f)) f).
    unfold is_destroyed; simpl. rewrite existsb_app. simpl. by rewrite Hd, orb_true_r.
  - intros e' id [He| ->%list_elem_of_singleton]%elem_of_app Eid; [|congruence]. rewrite clear_ids. by eapply HE.
  - eapply each_after_impl; [|done]. intros b x _. apply event_proof_ok_more.
  - apply verify_chain_snoc. exists (history_root f). split; [done|]. split; [done|].
    unfold history_root; simpl. by rewrite last_snoc.
Qed.

Lemma append_extends fresh new f : extends f (append fresh new f).2.
Proof.
  destruct (append fresh new f) as [r f'] eqn:E. apply append_spec in E.
  destruct r; [|by subst]. destruct E as (-> & _). split; try done. by apply prefix_app_r.
Qed.

(** The outcome of the recording on a file whose payloads were just cleared. *)
Lemma record_destruction_run fresh reason context n f :
  structure_ok f ->
  extends (clear_payloads f) (record_destruction fresh reason context n (clear_payloads f)).2 /\
  match record_destruction fresh reason context n (clear_payloads f) with
  | (Err e, _) => exists k root new, event_seal (fresh k) (N.of_nat k) (tf_file_id f) root new = Err e
  | (Ok _, f') => structure_ok f' /\ is_destroyed f' = true /\
      exists e1 e2, f' = set_events (tf_events f ++ [e1; e2]) (clear_payloads f) /\
        ev_event_type e1 = E.FileExpired /\ ev_event_type e2 = E.ContentDestroyed
  end.
Proof.
  intros S. set (f0 := clear_payloads f). unfold record_destruction, mbind, fileM_bind, get_file, try, mret, fileM_ret.
  cbv beta iota zeta.
  set (d1 := match expires_at f0 with Some _ => _ | None => _ end).
  set (n1 := expiry_event context E.FileExpired Info d1).
  set (n2 := expiry_event context E.ContentDestroyed Success _).
  assert (unsafe_key d1 = None) as Hk1.
  { apply unsafe_key_None. unfold d1. destruct (expires_at f0); repeat constructor; apply (bool_decide_unpack _); vm_compute; exact I. }
  assert (unsafe_key (ne_details n2) = None) as Hk2.
  { apply unsafe_key_None. repeat constructor; apply (bool_decide_unpack _); vm_compute; exact I. }
  pose proof (append_extends fresh n1 f0) as X1.
  rewrite (append_total fresh n1 f0 (history_root f)) in * by (done || apply S).
  destruct (event_seal _ _ _ _ n1) as [e1|err] eqn:E1; [|split; [done|eauto]].
  set (f1 := set_events (tf_events f0 ++ [e1]) f0) in *.
  destruct (event_seal_fields _ _ _ _ _ _ E1) as (Hid1 & Ht1 & _). pose proof (event_seal_link _ _ _ _ _ _ E1) as HL1.
  assert (structure_ok (set_events (tf_events f ++ [e1]) f)) as S1.
  { apply structure_add_event; [done|done|by rewrite Hid1|]. unfold destroys_this_content. by rewrite Ht1. }
  pose proof (append_extends fresh n2 f1) as X2. assert (extends f0 (append fresh n2 f1).2) as X by (by etrans).
  rewrite (append_total fresh n2 f1 (history_root (set_events (tf_events f ++ [e1]) f))) in * by (done || apply S1).
  destruct (event_seal _ _ _ _ n2) as [e2|err] eqn:E2; [|split; [done|eauto]].
  destruct (event_seal_fields _ _ _ _ _ _ E2) as (Hid2 & Ht2 & _ & Hd2 & _). pose proof (event_seal_link _ _ _ _ _ _ E2) as HL2.
  assert (destroys_this_content e2 = true) as HD by (unfold destroys_this_content; by rewrite Ht2, Hd2).
  pose proof (structure_tombstone _ e2 S1 HL2 Hid2 HD) as S2.
  set (f2 := set_events (tf_events f1 ++ [e2]) f1) in *. change (structure_ok f2) in S2.
  rewrite (proj2 (verify_structure_Ok f2 (history_root f2))) by done.
  split; [done|]. split; [done|]. split.
  - unfold f2. rewrite is_destroyed_snoc, HD. apply orb_true_r.
  - exists e1, e2. split; [|done]. unfold f2, f1, set_events; simpl. by rewrite <- (assoc_L (++)).
Qed.

Lemma live_payloads f :
  structure_ok f -> is_destroyed f = false -> length (filter is_Some (map sr_payload (tf_revisions f))) = length (tf_revisions f).
Proof.
  intros S Hd. pose proof (so_payloads f S) as HP. rewrite Hd in HP.
  induction (tf_revisions f) as [|s l IH]; [done|]. simpl. rewrite filter_cons, decide_True.
  - simpl. rewrite IH; [done|]. intros t Ht. apply HP. by right.
  - apply not_eq_None_Some. intros HN. apply HP in HN; [done|by left].
Qed.

Lemma destroy_content_run fresh reason context f r f' :
  structure_ok f -> destroy_content fresh reason context f = (r, f') ->
  match r with
  | Err e => f' = f /\ ((is_destroyed f = true /\ e = FileExpired) \/
      exists k root new, event_seal (fresh k) (N.of_nat k) (tf_file_id f) root new = Err e)
  | Ok n =>
      structure_ok f' /\ is_destroyed f = false /\ is_destroyed f' = true /\ n = length (tf_revisions f) /\
      exists e1 e2, f' = set_events (tf_events f ++ [e1; e2]) (clear_payloads f) /\
        ev_event_type e1 = E.FileExpired /\ ev_event_type e2 = E.ContentDestroyed
  end.
Proof.
  intros S. unfold destroy_content, mbind, fileM_bind, get_file, update_file, catch, throw, mret, fileM_ret. cbv beta iota zeta.
  destruct (is_destroyed f) eqn:D; [intros [= <- <-]; auto|]. rewrite (live_payloads f S D).
  destruct (record_destruction_run fresh reason context (length (tf_revisions f)) f S) as [X H].
  rewrite (atomically_undo _ _ X). destruct (record_destruction _ _ _ _ _) as [[[]|e] f1].
  - intros E. apply pair_equal_spec in E as [<- <-]. destruct H as (? & ? & ?). by split_and!.
  - intros E. apply pair_equal_spec in E as [<- <-]. split; [|by right]. simpl. rewrite restore_clear. by destruct f.
Qed.

(** destroying the content is all or nothing. On an error the file is exactly
    what it was, and the only errors are that the content is already gone or that
    an event cannot be sealed. On success every payload is gone, every revision,
    proof and earlier event is still there, the two events that say so are the
    last of the chain, and the tombstone verifies. *)
Theorem destroy_content_atomic fresh reason context f r f' :
  structure_ok f -> destroy_content fresh reason context f = (r, f') ->
  match r with
  | Err e => f' = f /\ ((is_destroyed f = true /\ e = FileExpired) \/
      exists k root new, event_seal (fresh k) (N.of_nat k) (tf_file_id f) root new = Err e)
  | Ok n =>
      structure_ok f' /\ is_destroyed f = false /\ is_destroyed f' = true /\ n = length (tf_revisions f) /\
      exists e1 e2, f' = set_events (tf_events f ++ [e1; e2]) (clear_payloads f) /\
        ev_event_type e1 = E.FileExpired /\ ev_event_type e2 = E.ContentDestroyed
  end.
Proof. apply destroy_content_run. Qed.

(** destruction is final. Whatever is added to a destroyed file later, a
    verified file that extends it holds no payload, and every way to put content
    back or to schedule or run another destruction is refused without a trace. *)
Theorem destroyed_is_final fresh f f' :
  structure_ok f' -> extends f f' -> is_destroyed f = true ->
  (forall s, s ∈ tf_revisions f' -> sr_payload s = None) /\
  (forall new payload, check_in new payload f' = (Err FileExpired, f')) /\
  (forall reason context, destroy_content fresh reason context f' = (Err FileExpired, f')) /\
  (forall at_ context, schedule_expiry fresh at_ context f' = (Err InvalidTrackedFile, f')) /\
  (forall now context, expire_if_due fresh now context f' = (Ok false, f')).
Proof.
  intros S X D%(extends_destroyed f f' X). split; [intros s Hs; by apply (so_payloads f' S s Hs)|].
  unfold check_in, destroy_content, schedule_expiry, expire_if_due, mbind, fileM_bind, get_file, throw, mret, fileM_ret.
  cbv beta iota zeta. by rewrite D.
Qed.

Lemma schedule_expiry_run fresh at_ context f f' :
  schedule_expiry fresh at_ context f = (Ok tt, f') ->
  is_destroyed f = false /\ is_instant at_ = true /\
  exists e, f' = set_events (tf_events f ++ [e]) f /\ ev_event_type e = E.ExpiryScheduled /\
    ev_details e = [(str "expires_at", at_)] /\ link_ok (tf_file_id f) (length (tf_events f)) (history_root f) e /\
    ev_revision_id e = None.
Proof.
  unfold schedule_expiry. intros H. run_file H. destruct (is_destroyed f), (is_instant at_); try done. simpl in H.
  destruct (append _ _ f) as [[e|] f1] eqn:E; [|done]. apply pair_equal_spec in H as [_ <-].
  apply append_spec in E as (-> & Hs & HL & _). destruct (event_seal_fields _ _ _ _ _ _ Hs) as (? & ? & _ & ? & _).
  split; [done|]. split; [done|]. by exists e.
Qed.

(** a scheduled expiry takes effect at its time and not before. After
    [schedule_expiry] accepts an instant, that instant is the one in force; while
    it lies in the future [expire_if_due] changes nothing, and from that second on
    it destroys the content or reports that the event could not be sealed. *)
Theorem expiry_on_schedule fresh fresh' at_ now context context' f f' r f'' :
  structure_ok f -> is_instant now = true ->
  schedule_expiry fresh at_ context f = (Ok tt, f') -> expire_if_due fresh' now context' f' = (r, f'') ->
  expires_at f' = Some at_ /\
  if (parse_u32 (instant_digits now) <? parse_u32 (instant_digits at_))%N then r = Ok false /\ f'' = f'
  else (r = Ok true /\ is_destroyed f'' = true /\ structure_ok f'') \/
       (f'' = f' /\ exists e k root new, r = Err e /\ event_seal (fresh' k) (N.of_nat k) (tf_file_id f') root new = Err e).
Proof.
  intros S Hnow (D & Hat & e & -> & Ht & Hde & HL & Hid)%schedule_expiry_run. set (f' := set_events _ f).
  assert (structure_ok f') as S'.
  { apply structure_add_event; [done|done|by rewrite Hid|]. unfold destroys_this_content. by rewrite Ht. }
  assert (expires_at f' = Some at_) as HX.
  { unfold expires_at, f'; simpl. rewrite reverse_snoc. simpl. rewrite decide_True by done. simpl. by rewrite Hde. }
  assert (is_destroyed f' = false) as D'.
  { unfold f'. rewrite is_destroyed_snoc, D. unfold destroys_this_content. by rewrite Ht. }
  intros H. split; [done|]. unfold expire_if_due in H. run_file H. unfold is_expired_at in H. rewrite HX, D' in H. simpl in H.
  pose proof (instant_order at_ now Hat Hnow) as HO. destruct (N.ltb_spec (parse_u32 (instant_digits now)) (parse_u32 (instant_digits at_))).
  - destruct (str_le at_ now); [|by apply pair_equal_spec in H as [<- <-]]. destruct HO as [HO _]. specialize (HO eq_refl). lia.
  - rewrite (proj2 HO) in H by done. simpl in H. destruct (destroy_content _ _ _ f') as [[n|err] f1] eqn:E.
    + apply pair_equal_spec in H as [<- <-]. apply destroy_content_run in E as (? & _ & ? & _); [|done]. by left.
    + apply pair_equal_spec in H as [<- <-]. apply destroy_content_run in E as [-> [[? _]|(k & root & new & ?)]]; [congruence| |done].
      right. split; [done|]. by exists err, k, root, new.
Qed.
End destruction.

Module ExpiryDemo.
Import Toy FileDemo.
Definition context : ExpiryContext :=
  {| xc_actor_identity := None; xc_actor_label := Some (str "M.S"); xc_occurred_at := str "2026-11-01T00:00:00Z";
     xc_topology_generation := None |}.
Definition at_ : bytes := str "2026-12-31T23:59:59Z".
Definition now : bytes := str "2027-01-01T00:00:00Z".
Definition scheduled : TrackedFile := Eval vm_compute in (schedule_expiry fresh at_ context file).2.
Definition tombstone : TrackedFile := Eval vm_compute in (expire_if_due fresh now context scheduled).2.
Definition destroyed : TrackedFile := Eval vm_compute in (destroy_content fresh (str "asked") context file).2.

Lemma scheduled_ok : schedule_expiry fresh at_ context file = (Ok tt, scheduled).
Proof. vm_compute. reflexivity. Defined.
Lemma tombstone_ok : expire_if_due fresh now context scheduled = (Ok true, tombstone).
Proof. vm_compute. reflexivity. Defined.
Lemma destroyed_ok : destroy_content fresh (str "asked") context file = (Ok 1, destroyed).
Proof. vm_compute. reflexivity. Defined.
Lemma tombstone_structure : structure_ok tombstone.
Proof. apply verify_structure_iff. vm_compute. reflexivity. Defined.
End ExpiryDemo.

Lemma destroy_content_atomic_witness :
  structure_ok (C := Toy.toy) (U := FileDemo.ascii_only) ExpiryDemo.destroyed /\ is_destroyed ExpiryDemo.destroyed = true.
Proof.
  pose proof (destroy_content_atomic (C := Toy.toy) (U := FileDemo.ascii_only) FileDemo.fresh (str "asked")
    ExpiryDemo.context FileDemo.file _ _ FileDemo.file_structure ExpiryDemo.destroyed_ok) as (H1 & _ & H2 & _).
  split; [exact H1|exact H2].
Defined.

Lemma destroyed_is_final_witness :
  check_in (C := Toy.toy) (U := FileDemo.ascii_only) (FileDemo.revision [FileDemo.root_id] (str "M.S") ExpiryDemo.now) (str "x")
    ExpiryDemo.tombstone = (Err FileExpired, ExpiryDemo.tombstone).
Proof.
  pose proof (destroyed_is_final (C := Toy.toy) (U := FileDemo.ascii_only) FileDemo.fresh ExpiryDemo.tombstone ExpiryDemo.tombstone
    ExpiryDemo.tombstone_structure (reflexivity _) eq_refl) as (_ & H & _).
  exact (H _ _).
Defined.

Lemma expiry_on_schedule_witness : expires_at ExpiryDemo.scheduled = Some ExpiryDemo.at_.
Proof.
  exact (proj1 (expiry_on_schedule (C := Toy.toy) (U := FileDemo.ascii_only) FileDemo.fresh FileDemo.fresh ExpiryDemo.at_
    ExpiryDemo.now ExpiryDemo.context ExpiryDemo.context FileDemo.file ExpiryDemo.scheduled _ _
    FileDemo.file_structure eq_refl ExpiryDemo.scheduled_ok ExpiryDemo.tombstone_ok)).
Defined.
