(* ===== verification/Resolve.v ===== *)
(** * [src/src/file_history/resolve.rs]: who settles a conflict, and how

    Selecting the reviewer, recording the conflict, deciding it and refusing a
    proposed merge. [Authority.is_ancestor_or_self] is on labels,
    [RevisionGraph.is_ancestor_or_self] on revisions. *)

From S2P Require Import Prelude Text Crypto Envelope HistoryCodec Authority Signing Event Revision RevisionGraph Policy Container FileOps Diff Merge ContainerCodec Trust AutoMerge.

Inductive SelectionRule :=
  | PriorNeutralOwner
  | MostSeniorHistoricalOwner
  | DominantSector
  | LowestCommonSeniorAncestor.

(** [SelectionRule::name] *)
Definition rule_name (r : SelectionRule) : bytes :=
  match r with
  | PriorNeutralOwner => str "PRIOR_NEUTRAL_OWNER"
  | MostSeniorHistoricalOwner => str "MOST_SENIOR_HISTORICAL_OWNER"
  | DominantSector => str "DOMINANT_SECTOR"
  | LowestCommonSeniorAncestor => str "LOWEST_COMMON_SENIOR_ANCESTOR"
  end.

Inductive ResolverSelection :=
  | Assigned (reviewer : bytes) (rule : SelectionRule) (from : list bytes)
  | Unresolved.

Record Divergence := { dv_auto : AutoMerge; dv_selection : option ResolverSelection }.

(** [WithoutBridges]: the trait's other methods keep their defaults. *)
Definition without_bridges (ctx : TrustContext) : TrustContext :=
  {| signing_public := signing_public ctx;
     historical_signing_publics _ _ _ := [];
     bridge_evidence _ := NoBridge;
     revision_bridge_evidence _ _ := NoBridge;
     bridge_between _ _ := NoBridge;
     generation_evidence := generation_evidence ctx |}.

Definition comma : byte := x2c.

Definition depth (label : bytes) : nat := length (Text.split dot label).
Definition sector (label : bytes) : bytes := Text.join dot (take 2 (Text.split dot label)).

Definition distinct (labels : list bytes) : list bytes :=
  foldl (fun out label => if decide (label ∈ out) then out else out ++ [label]) [] labels.

(** [iter().min()] and [iter().max().unwrap_or(0)] *)
Definition minimum (l : list nat) : option nat :=
  match l with [] => None | x :: l => Some (foldl Nat.min x l) end.
Definition maximum (l : list nat) : nat := foldl Nat.max 0 l.

(** The [try_fold] of rule 4; [None] when two labels share no ancestor. *)
Fixpoint fold_ancestor (acc : option bytes) (tied : list bytes) : option (option bytes) :=
  match tied with
  | [] => Some acc
  | label :: tied =>
      match acc with
      | None => fold_ancestor (Some label) tied
      | Some current =>
          match lowest_common_ancestor current label with
          | Some ancestor => fold_ancestor (Some ancestor) tied
          | None => None
          end
      end
  end.

Definition author_of (f : TrackedFile) (id : bytes) : result bytes :=
  (fun s => rv_author_hcp_label (sr_revision s)) <$> ok_or (graph_get (graph f) id) InvalidTrackedFile.

Inductive Resolution := KeepLeft | KeepRight | Edited (content : bytes).

(** [Resolution::name] *)
Definition resolution_name (r : Resolution) : bytes :=
  match r with KeepLeft => str "KEEP_LEFT" | KeepRight => str "KEEP_RIGHT" | Edited _ => str "EDITED" end.

Record OpenConflict := { oc_left : bytes; oc_right : bytes; oc_parents : list bytes }.

Definition is_rejected (f : TrackedFile) (revision : bytes) : bool :=
  existsb (fun e => bool_decide (ev_event_type e = E.MergeRejected) && bool_decide (ev_revision_id e = Some revision))
    (tf_events f).

Definition needs_person (outcome : AutoMergeOutcome) : bool :=
  match outcome with RequiresHuman | UnsupportedContent | PolicyBlocked => true | _ => false end.

Section resolve.
Context `{C : Crypto} `{U : Unicode} `{HX : Hex}.

(** The revisions that are trusted on signatures alone, with their authors, in storage order. *)
Definition trusted_authors (f : TrackedFile) (policy : FilePolicy) (ctx : TrustContext) : list (bytes * bytes) :=
  filter (fun p => evaluate_revision_trust f p.1 policy ctx = Ok Trusted)
    (map (fun s => (sr_id s, rv_author_hcp_label (sr_revision s))) (tf_revisions f)).

(** Rule 4: the nearest ancestor of everything still tied. *)
Definition by_ancestor (eligible : bytes -> bool) (tied : list bytes) : ResolverSelection :=
  match fold_ancestor None tied with
  | Some (Some label) => if eligible label then Assigned label LowestCommonSeniorAncestor tied else Unresolved
  | _ => Unresolved
  end.

(** Rule 3, then rule 4. *)
Definition by_sector (history : list bytes) (eligible : bytes -> bool) (tied : list bytes) : ResolverSelection :=
  let count s := length (filter (fun l => sector l = s) history) in
  let sectors := distinct (map sector tied) in
  let top := maximum (map count sectors) in
  match filter (fun s => count s = top) sectors with
  | [leader] =>
      let tied := filter (fun l => sector l = leader) tied in
      match tied with
      | [only] => Assigned only DominantSector []
      | _ => by_ancestor eligible tied
      end
  | _ => by_ancestor eligible tied
  end.

(** Rules 2 to 4, over the authors known to the history. *)
Definition select_senior (history : list bytes) (eligible : bytes -> bool) : ResolverSelection :=
  let candidates := filter (fun l => eligible l = true) history in
  match minimum (map depth candidates) with
  | None => Unresolved
  | Some shallowest =>
      let tied := filter (fun l => depth l = shallowest) candidates in
      match tied with
      | [only] => Assigned only MostSeniorHistoricalOwner []
      | _ => by_sector history eligible tied
      end
  end.

Definition select_resolver (f : TrackedFile) (left right : bytes) (policy : FilePolicy) (ctx : TrustContext)
    : result ResolverSelection :=
  left_author ← author_of f left;
  right_author ← author_of f right;
  let conflicting := distinct [left_author; right_author] in
  let ctx := without_bridges ctx in
  let trusted := trusted_authors f policy ctx in
  let eligible label := may_author policy label && negb (existsb (fun c => bool_decide (c = label)) conflicting) in
  let of_left := ancestor_set (graph f) left in
  let of_right := ancestor_set (graph f) right in
  match list_find (fun p => p.1 ∈ of_left /\ p.1 ∈ of_right /\ eligible p.2 = true) (reverse trusted) with
  | Some (_, (_, label)) => Ok (Assigned label PriorNeutralOwner [])
  | None => Ok (select_senior (distinct (map snd trusted ++ conflicting)) eligible)
  end.

(** [any] over the pairs [a], [b] with [b] after [a]. *)
Fixpoint any_bridge (ctx : TrustContext) (from : list bytes) : bool :=
  match from with
  | [] => false
  | a :: from => existsb (fun b => bool_decide (bridge_between ctx a b = NonPrivateAuthorized)) from || any_bridge ctx from
  end.

Definition resolve_divergence_steps (fresh : nat -> bytes) (left right : bytes) (allowed : bool) (new : NewRevision)
    (policy : FilePolicy) (ctx : TrustContext) : fileM Divergence :=
  auto ← auto_merge fresh left right allowed new;
  if negb (needs_person (am_outcome auto)) then mret {| dv_auto := auto; dv_selection := None |} else
  f ← get_file;
  relation ← try (compare (graph f) left right);
  if negb (bool_decide (relation = Diverged)) then mret {| dv_auto := auto; dv_selection := None |} else
  selection ← try (select_resolver f left right policy ctx);
  let event kind details outcome := merge_event new kind None outcome details in
  let heads := with_detail (with_detail [] (str "revision_a") (hex_encode left)) (str "revision_b") (hex_encode right) in
  _ ← append fresh (event E.HistoryForkDetected heads Info);
  _ ← append fresh (event E.ContentConflictDetected (with_detail heads (str "reason") (am_reason auto)) Info);
  _ ← match selection with
      | Assigned reviewer LowestCommonSeniorAncestor from =>
          _ ← (if any_bridge ctx from
               then _ ← append fresh (event E.BridgeUsed
                          (with_detail (with_detail [] (str "operation") (str "CONFLICT_ESCALATION"))
                             (str "result") (str "REVIEW_PATH_ESTABLISHED")) Success); mret tt
               else mret tt);
          _ ← append fresh (event E.ConflictReviewEscalated
                (with_detail (with_detail (with_detail [] (str "from") (Text.join comma from)) (str "to") reviewer)
                   (str "selection_rule") (rule_name LowestCommonSeniorAncestor)) Success);
          mret tt
      | Assigned reviewer rule _ =>
          _ ← append fresh (event E.ConflictReviewAssigned
                (with_detail (with_detail [] (str "reviewer") reviewer) (str "selection_rule") (rule_name rule)) Success);
          mret tt
      | Unresolved =>
          _ ← append fresh (event E.ConflictUnresolved
                (with_detail [] (str "reason") (str "NO_AUTHORIZED_RESOLVER")) Denied);
          mret tt
      end;
  mret {| dv_auto := auto; dv_selection := Some selection |}.

Definition resolve_divergence (fresh : nat -> bytes) (left right : bytes) (allowed : bool) (new : NewRevision)
    (policy : FilePolicy) (ctx : TrustContext) : fileM Divergence :=
  atomically (resolve_divergence_steps fresh left right allowed new policy ctx).

Definition open_conflict (f : TrackedFile) (allowed : bool) : result (option OpenConflict) :=
  let g := graph f in
  match heads g with
  | [l; r] =>
      relation ← compare g l r;
      if negb (bool_decide (relation = Diverged)) then Ok None else
      plan ← plan_auto_merge f l r allowed;
      Ok (if needs_person (am_outcome plan)
          then Some {| oc_left := l; oc_right := r; oc_parents := [l; r] |} else None)
  | [head] =>
      if is_rejected f head then
        stored ← ok_or (graph_get g head) InvalidTrackedFile;
        match sr_parents stored with
        | [l; r] => Ok (Some {| oc_left := l; oc_right := r; oc_parents := [head] |})
        | _ => Ok None
        end
      else Ok None
  | _ => Ok None
  end.

Definition may_decide (f : TrackedFile) (left right label : bytes) (policy : FilePolicy) (ctx : TrustContext) : result bool :=
  left_author ← author_of f left;
  if bool_decide (left_author = label) then Ok false else
  right_author ← author_of f right;
  if bool_decide (right_author = label) then Ok false else
  selection ← select_resolver f left right policy ctx;
  Ok (match selection with
      | Assigned reviewer _ _ => Authority.is_ancestor_or_self label reviewer
      | Unresolved => Authority.is_ancestor_or_self label (fp_scope_root policy)
      end).

Definition resolve_conflict_steps (fresh : nat -> bytes) (resolution : Resolution) (new : NewRevision)
    (policy : FilePolicy) (ctx : TrustContext) : fileM bytes :=
  f ← get_file;
  found ← try (open_conflict f (fp_auto_merge policy));
  conflict ← try (ok_or found InvalidTrackedFile);
  let reviewer := nr_author_hcp_label new in
  permitted ← try (may_decide f (oc_left conflict) (oc_right conflict) reviewer policy ctx);
  if negb permitted then throw InvalidTrackedFile else
  content ← match resolution with
            | KeepLeft => try (ok_or (payload_of f (oc_left conflict)) FileExpired)
            | KeepRight => try (ok_or (payload_of f (oc_right conflict)) FileExpired)
            | Edited bytes => mret bytes
            end;
  id ← check_in (set_parents (oc_parents conflict) new) content;
  _ ← append fresh (merge_event new E.ConflictResolved (Some id) Success
        (with_detail (with_detail (with_detail (with_detail (with_detail []
          (str "revision_a") (hex_encode (oc_left conflict)))
          (str "revision_b") (hex_encode (oc_right conflict)))
          (str "resolution") (resolution_name resolution))
          (str "reviewer") reviewer)
          (str "trust_state") (str "PENDING")));
  mret id.

Definition resolve_conflict (fresh : nat -> bytes) (resolution : Resolution) (new : NewRevision)
    (policy : FilePolicy) (ctx : TrustContext) : fileM bytes :=
  atomically (resolve_conflict_steps fresh resolution new policy ctx).

Definition authored (f : TrackedFile) (id label : bytes) : result bool :=
  (fun author => bool_decide (author = label)) <$> author_of f id.

(** [a && b?]: the right operand is evaluated only when the left one holds. *)
Definition and_then (a : result bool) (b : result bool) : result bool := x ← a; if (x : bool) then b else Ok false.

Definition reject_merge (fresh : nat -> bytes) (merge : bytes) (actor : NewEvent) (policy : FilePolicy) (ctx : TrustContext)
    : fileM unit :=
  f ← get_file;
  stored ← try (ok_or (graph_get (graph f) merge) InvalidTrackedFile);
  match sr_parents stored with
  | [l; r] =>
      refused ← (if negb (bool_decide (heads (graph f) = [merge])) || is_rejected f merge then mret true
                 else state ← try (evaluate_revision_trust f merge policy ctx); mret (bool_decide (state = Trusted)));
      if (refused : bool) then throw InvalidTrackedFile else
      label ← try (ok_or (ne_actor_label actor) InvalidTrackedFile);
      owner ← try (and_then (Ok (Authority.is_ancestor_or_self label (fp_scope_root policy)))
                    (and_then (negb <$> authored f l label) (negb <$> authored f r label)));
      permitted ← (if (owner : bool) then mret true else try (may_decide f l r label policy ctx));
      if negb permitted then throw InvalidTrackedFile else
      _ ← append fresh
            {| ne_revision_id := Some merge; ne_occurred_at := ne_occurred_at actor;
               ne_actor_identity := ne_actor_identity actor; ne_actor_label := ne_actor_label actor;
               ne_topology_generation := ne_topology_generation actor; ne_event_type := E.MergeRejected;
               ne_outcome := Denied;
               ne_details := with_detail (with_detail (with_detail [] (str "revision_a") (hex_encode l))
                               (str "revision_b") (hex_encode r)) (str "reviewer") label |};
      mret tt
  | _ => throw InvalidTrackedFile
  end.
End resolve.

(** ** Selecting the reviewer *)

Lemma elem_of_distinct l x : x ∈ distinct l <-> x ∈ l.
Proof.
  unfold distinct. assert (forall out, x ∈ foldl (fun out label => if decide (label ∈ out) then out else out ++ [label]) out l
    <-> x ∈ out \/ x ∈ l) as H; [|rewrite H, elem_of_nil; tauto].
  induction l as [|y l IH]; intros out; simpl; [rewrite elem_of_nil; tauto|].
  rewrite IH, elem_of_cons. case_decide; rewrite ?elem_of_app, ?list_elem_of_singleton; [|tauto].
  split; [tauto|]. intros [?|[->|?]]; auto.
Qed.

Lemma foldl_min_spec x l : (foldl Nat.min x l = x \/ foldl Nat.min x l ∈ l) /\ foldl Nat.min x l <= x /\ Forall (fun y => foldl Nat.min x l <= y) l.
Proof.
  revert x; induction l as [|y l IH]; intros x; simpl; [repeat split; auto|].
  destruct (IH (Nat.min x y)) as (HI & HL & HF). split_and!; [|lia|constructor; [lia|done]].
  rewrite elem_of_cons. destruct HI as [->|?]; [|tauto]. destruct (Nat.min_spec x y) as [[_ ->]|[_ ->]]; tauto.
Qed.

Lemma minimum_spec l m : minimum l = Some m -> m ∈ l /\ Forall (fun y => m <= y) l.
Proof.
  destruct l as [|x l]; [done|]. intros [= <-]. destruct (foldl_min_spec x l) as (HI & HL & HF).
  rewrite elem_of_cons. split; [done|by constructor].
Qed.

Lemma lca_ancestor l r c :
  is_well_formed l = true -> is_well_formed r = true -> lowest_common_ancestor l r = Some c ->
  Authority.is_ancestor_or_self c l = true /\ Authority.is_ancestor_or_self c r = true.
Proof.
  intros Wl Wr [Hs Wc]%lca_common; [|done..]. destruct (common_segments_prefix (segments l) (segments r)) as (Pl & Pr & _).
  rewrite !Authority.is_ancestor_or_self_spec, Hs. done.
Qed.

Lemma fold_ancestor_some current tied r :
  is_well_formed current = true -> Forall (fun l => is_well_formed l = true) tied ->
  fold_ancestor (Some current) tied = Some (Some r) ->
  Authority.is_ancestor_or_self r current = true /\ Forall (fun l => Authority.is_ancestor_or_self r l = true) tied.
Proof.
  intros Hc HF. revert current Hc; induction HF as [|l tied Hl HF IH]; intros current Hc; simpl.
  - intros [= ->]. split; [by apply ancestor_or_self_refl|done].
  - destruct (lowest_common_ancestor current l) as [c|] eqn:E; [|done]. apply lca_ancestor in E as [H1 H2]; [|done..].
    intros [HR HT]%IH; [|by destruct (ancestor_is_well_formed _ _ H1)].
    split; [by eapply ancestor_or_self_trans|]. constructor; [by eapply ancestor_or_self_trans|done].
Qed.

Lemma fold_ancestor_none tied r :
  Forall (fun l => is_well_formed l = true) tied -> fold_ancestor None tied = Some (Some r) ->
  Forall (fun l => Authority.is_ancestor_or_self r l = true) tied.
Proof.
  destruct tied as [|l tied]; simpl; [done|]. intros [Hl HF]%Forall_cons [? ?]%fold_ancestor_some; [by constructor|done..].
Qed.

Lemma may_author_well_formed policy label : may_author policy label = true -> is_well_formed label = true.
Proof.
  unfold may_author, requirement_for, relationship. destruct (is_well_formed label); [done|].
  rewrite ?orb_true_r. simpl. done.
Qed.

(** [l] is an eligible author in [history] and no eligible one is shallower. *)
Definition most_senior (history : list bytes) (eligible : bytes -> bool) (l : bytes) : Prop :=
  l ∈ history /\ eligible l = true /\ forall o, o ∈ history -> eligible o = true -> depth l <= depth o.

Definition rule_sound (history : list bytes) (eligible : bytes -> bool) (s : ResolverSelection) : Prop :=
  match s with
  | Unresolved => True
  | Assigned reviewer rule from =>
      eligible reviewer = true /\
      match rule with
      | PriorNeutralOwner => False
      | MostSeniorHistoricalOwner | DominantSector => most_senior history eligible reviewer
      | LowestCommonSeniorAncestor =>
          Forall (fun l => most_senior history eligible l /\ Authority.is_ancestor_or_self reviewer l = true) from
      end
  end.

Section rules.
Context (history : list bytes) (eligible : bytes -> bool).
Context (eligible_wf : forall l, eligible l = true -> is_well_formed l = true).
Local Notation senior := (Forall (most_senior history eligible)).

Lemma by_ancestor_sound tied : senior tied -> rule_sound history eligible (by_ancestor eligible tied).
Proof.
  intros HS. unfold by_ancestor. destruct (fold_ancestor None tied) as [[label|]|] eqn:E; try done.
  destruct (eligible label) eqn:EL; [|done]. split; [done|]. apply Forall_and. split; [done|].
  apply fold_ancestor_none; [|done]. eapply Forall_impl; [exact HS|]. intros l (_ & ? & _). auto.
Qed.

Lemma only_sound only rest rule :
  rule = MostSeniorHistoricalOwner \/ rule = DominantSector -> senior (only :: rest) ->
  rule_sound history eligible (Assigned only rule []).
Proof. intros HR [HS _]%Forall_cons. pose proof HS as (_ & ? & _). by destruct HR as [->| ->]. Qed.

Lemma by_sector_sound tied : senior tied -> rule_sound history eligible (by_sector history eligible tied).
Proof.
  intros HS. unfold by_sector. cbv zeta. pose proof (by_ancestor_sound _ HS) as HB.
  destruct (filter _ (distinct _)) as [|leader [|? ?]]; [exact HB| |exact HB].
  assert (senior (filter (fun l => sector l = leader) tied)) as HS'.
  { apply Forall_forall. intros l [_ Hl]%list_elem_of_filter. rewrite Forall_forall in HS. auto. }
  pose proof (by_ancestor_sound _ HS') as HB'.
  destruct (filter _ tied) as [|x [|y rest]]; [exact HB'| |exact HB']. eapply only_sound; [by right|done].
Qed.

Lemma select_senior_sound : rule_sound history eligible (select_senior history eligible).
Proof.
  unfold select_senior. destruct (minimum _) as [shallowest|] eqn:EM; [|done]. apply minimum_spec in EM as [_ HF].
  cbv zeta. set (tied := filter (fun l => depth l = shallowest) _). assert (senior tied) as HS.
  { apply Forall_forall. intros l [Hd [He Hl]%list_elem_of_filter]%list_elem_of_filter. split_and!; [done..|].
    intros o Ho Heo. rewrite Hd. rewrite Forall_forall in HF. apply HF. apply list_elem_of_fmap. exists o.
    split; [done|]. by apply list_elem_of_filter. }
  pose proof (by_sector_sound _ HS) as HB.
  destruct tied as [|only [|other rest]]; [exact HB| |exact HB]. eapply only_sound; [by left|done].
Qed.
End rules.

Section selection.
Context `{C : Crypto} `{U : Unicode} `{HX : Hex}.

(** [label] authored a revision of the file that its signatures alone make trusted. *)
Definition owner (f : TrackedFile) (policy : FilePolicy) (ctx : TrustContext) (s : StoredRevision) (label : bytes) : Prop :=
  s ∈ tf_revisions f /\ rv_author_hcp_label (sr_revision s) = label /\
  evaluate_revision_trust f (sr_id s) policy (without_bridges ctx) = Ok Trusted.

Lemma trusted_authors_owner f policy ctx id label :
  (id, label) ∈ trusted_authors f policy (without_bridges ctx) <-> exists s, owner f policy ctx s label /\ sr_id s = id.
Proof.
  unfold trusted_authors, owner. rewrite list_elem_of_filter, list_elem_of_fmap. simpl. split.
  - intros [HT (s & [= -> ->] & Hs)]. by exists s.
  - intros (s & (Hs & <- & HT) & <-). split; [done|]. by exists s.
Qed.

(** Who may review at all: allowed by the policy and neither conflicting author. *)
Definition neutral (policy : FilePolicy) (left_author right_author label : bytes) : Prop :=
  may_author policy label = true /\ label <> left_author /\ label <> right_author.

Definition eligible_for (policy : FilePolicy) (left_author right_author label : bytes) : bool :=
  may_author policy label && negb (existsb (fun c => bool_decide (c = label)) (distinct [left_author; right_author])).

Lemma eligible_neutral policy la ra label :
  eligible_for policy la ra label = true <-> neutral policy la ra label.
Proof.
  unfold neutral, eligible_for. rewrite andb_true_iff, negb_true_iff, <- not_true_iff_false, existsb_exists.
  setoid_rewrite bool_decide_eq_true. setoid_rewrite <- list_elem_of_In. setoid_rewrite elem_of_distinct.
  setoid_rewrite elem_of_cons. setoid_rewrite list_elem_of_singleton. naive_solver.
Qed.

(** the reviewer chosen for a conflict is never one of the two conflicting
    authors, is allowed by the policy, and is justified by the rule that chose
    them. Rule 1: they own a trusted revision that both heads descend from. Rules
    2 and 3: they own a trusted revision and no eligible owner is more senior.
    Rule 4: they stand above every one of the owners still tied, each a most
    senior eligible owner. *)
Theorem resolver_justified f left right policy ctx reviewer rule from :
  select_resolver f left right policy ctx = Ok (Assigned reviewer rule from) ->
  exists left_author right_author,
    author_of f left = Ok left_author /\ author_of f right = Ok right_author /\
    neutral policy left_author right_author reviewer /\
    let senior l := exists s, owner f policy ctx s l /\
      forall s' o, owner f policy ctx s' o -> neutral policy left_author right_author o -> depth l <= depth o in
    match rule with
    | PriorNeutralOwner => exists s, owner f policy ctx s reviewer /\
        is_ancestor_or_self (tf_revisions f) (sr_id s) left = true /\ is_ancestor_or_self (tf_revisions f) (sr_id s) right = true
    | MostSeniorHistoricalOwner | DominantSector => senior reviewer
    | LowestCommonSeniorAncestor => Forall (fun l => senior l /\ Authority.is_ancestor_or_self reviewer l = true) from
    end.
Proof.
  unfold select_resolver. intros H. apply bind_Ok in H as (la & EL & H). apply bind_Ok in H as (ra & ER & H).
  exists la, ra. split; [done|]. split; [done|]. cbv zeta in H.
  change (fun label => may_author policy label && _) with (eligible_for policy la ra) in H.
  destruct (list_find _ _) as [[i [id label]]|] eqn:EF.
  - apply Ok_inj in H as [= -> <- <-].
    apply list_find_Some in EF as (Hi & (HL & HR & HE) & _). simpl in *.
    split; [by apply eligible_neutral|]. apply list_elem_of_lookup_2, elem_of_reverse, trusted_authors_owner in Hi as (s & Ho & <-).
    exists s. unfold graph in *. rewrite !is_ancestor_or_self_reaches, <- !ancestor_set_reaches. done.
  - apply Ok_inj in H. pose proof (select_senior_sound (distinct (map snd (trusted_authors f policy (without_bridges ctx)) ++ distinct [la; ra]))
      (eligible_for policy la ra)) as HS.
    rewrite H in HS. destruct HS as [HE HR]; [by intros l [Hl _]%andb_true_iff; apply may_author_well_formed in Hl|].
    split; [by apply eligible_neutral|].
    assert (forall l, most_senior (distinct (map snd (trusted_authors f policy (without_bridges ctx)) ++ distinct [la; ra]))
      (eligible_for policy la ra) l -> exists s, owner f policy ctx s l /\
      forall s' o, owner f policy ctx s' o -> neutral policy la ra o -> depth l <= depth o) as HM.
    { intros l (Hl & [_ Hn]%eligible_neutral & Hmin). rewrite elem_of_distinct, elem_of_app, elem_of_distinct in Hl. destruct Hl as [Hl|Hl].
      2:{ rewrite elem_of_cons, list_elem_of_singleton in Hl. tauto. }
      apply list_elem_of_fmap in Hl as ([id l'] & -> & (s & Ho & _)%trusted_authors_owner). exists s. split; [done|].
      intros s' o Ho' Hne. apply Hmin; [|by apply eligible_neutral]. apply elem_of_distinct, elem_of_app. left.
      apply list_elem_of_fmap. exists (sr_id s', o). split; [done|]. apply trusted_authors_owner. eauto. }
    destruct rule; [done|by apply HM|by apply HM|]. eapply Forall_impl; [exact HR|]. intros l [? ?]. split; [by apply HM|done].
Qed.
End selection.

(** ** Recording and settling the conflict *)

Section settling.
Context `{C : Crypto} `{U : Unicode} `{HX : Hex}.

Lemma adds_resolve_divergence_steps fresh left right allowed new policy ctx :
  adds (resolve_divergence_steps fresh left right allowed new policy ctx).
Proof.
  unfold resolve_divergence_steps. apply adds_bind; [apply adds_atomically, adds_auto_merge_steps|intros auto].
  destruct (negb _); [auto with adds|]. apply adds_bind; [auto with adds|intros f].
  apply adds_bind; [auto with adds|intros relation]. destruct (negb _); [auto with adds|].
  apply adds_bind; [auto with adds|intros selection]. do 2 (apply adds_bind; [auto with adds|intros _]).
  apply adds_bind; [|auto with adds]. destruct selection as [reviewer [] from|]; auto 6 with adds.
Qed.

Lemma adds_resolve_conflict_steps fresh resolution new policy ctx : adds (resolve_conflict_steps fresh resolution new policy ctx).
Proof.
  unfold resolve_conflict_steps. do 4 (apply adds_bind; [auto with adds|intros ?]). destruct (negb _); [auto with adds|].
  apply adds_bind; [destruct resolution; auto with adds|intros content]. auto 8 with adds.
Qed.

Lemma may_decide_neutral f left right label policy ctx :
  may_decide f left right label policy ctx = Ok true ->
  exists la ra, author_of f left = Ok la /\ author_of f right = Ok ra /\ la <> label /\ ra <> label.
Proof.
  unfold may_decide. intros H. apply bind_Ok in H as (la & EL & H). case_bool_decide; [done|].
  apply bind_Ok in H as (ra & ER & H). case_bool_decide; [done|]. by exists la, ra.
Qed.

(** The content a resolution stands for. *)
Definition resolved_content (f : TrackedFile) (conflict : OpenConflict) (resolution : Resolution) : option bytes :=
  match resolution with
  | KeepLeft => payload_of f (oc_left conflict)
  | KeepRight => payload_of f (oc_right conflict)
  | Edited content => Some content
  end.

Lemma resolve_conflict_steps_run fresh resolution new policy ctx f id f' :
  resolve_conflict_steps fresh resolution new policy ctx f = (Ok id, f') ->
  tf_proofs f' = tf_proofs f /\
  exists conflict s, open_conflict f (fp_auto_merge policy) = Ok (Some conflict) /\
    may_decide f (oc_left conflict) (oc_right conflict) (nr_author_hcp_label new) policy ctx = Ok true /\
    tf_revisions f' = tf_revisions f ++ [s] /\ sr_id s = id /\ sr_parents s = oc_parents conflict /\
    sr_payload s = resolved_content f conflict resolution /\ revision_ok (tf_file_id f) (tf_revisions f) s.
Proof.
  unfold resolve_conflict_steps. intros H. apply fileM_bind_Ok in H as (? & ? & [= <- <-] & H).
  apply fileM_bind_Ok in H as (found & ? & [EO ->]%try_Ok & H).
  apply fileM_bind_Ok in H as (conflict & ? & [->%ok_or_Ok ->]%try_Ok & H).
  apply fileM_bind_Ok in H as (permitted & ? & [EM ->]%try_Ok & H). destruct permitted; [|done]. cbn [negb] in H.
  apply fileM_bind_Ok in H as (content & f1 & EC & H).
  assert (resolved_content f conflict resolution = Some content /\ f1 = f) as [HC ->].
  { destruct resolution; [apply try_Ok in EC as [?%ok_or_Ok ?]; done..|]. by injection EC as <- <-. }
  apply fileM_bind_Ok in H as (id' & f2 & (s & -> & Hid & Hpay & Hpar & _ & _ & Hok)%check_in_spec & H).
  apply fileM_bind_Ok in H as (e & f3 & EA & H). injection H as <- <-. apply append_keeps in EA as (HR & HP & _).
  rewrite HR, HP. split; [done|]. exists conflict, s. split_and!; try done. congruence.
Qed.

(** C40: settling a conflict is all or nothing, and neither conflicting author can
    do it. On an error the file is exactly what it was. On success there was an
    open conflict, the new revision's author is neither head's author, its parents
    are those the conflict names, its content is the chosen head's or the
    reviewer's own, and it carries no proof, so the trust policy still has to
    judge it. *)
Theorem resolve_conflict_sound fresh resolution new policy ctx f r f' :
  structure_ok f -> resolve_conflict fresh resolution new policy ctx f = (r, f') ->
  match r with
  | Err _ => f' = f
  | Ok id =>
      structure_ok f' /\ extends f f' /\ (forall kind, proofs_for f' id kind = []) /\
      exists conflict s left_author right_author,
        open_conflict f (fp_auto_merge policy) = Ok (Some conflict) /\
        author_of f (oc_left conflict) = Ok left_author /\ author_of f (oc_right conflict) = Ok right_author /\
        left_author <> nr_author_hcp_label new /\ right_author <> nr_author_hcp_label new /\
        tf_revisions f' = tf_revisions f ++ [s] /\ sr_id s = id /\ sr_parents s = oc_parents conflict /\
        sr_payload s = resolved_content f conflict resolution
  end.
Proof.
  intros S H. unfold resolve_conflict in H.
  destruct (atomically_run _ f (adds_resolve_conflict_steps fresh resolution new policy ctx) S) as ([S' HE] & X & HR).
  rewrite H in S', HE, X. simpl in *. destruct r as [id|e]; [|done].
  apply HR, resolve_conflict_steps_run in H as (HP & conflict & s & HO & HM & HRv & Hid & Hpar & Hpay & Hok).
  split; [done|]. split; [done|]. split; [eapply new_revision_unsigned; [exact S|exact Hok|by rewrite HP|done]|].
  apply may_decide_neutral in HM as (la & ra & ? & ? & ? & ?). by exists conflict, s, la, ra.
Qed.

(** An append leaves the revisions alone, whether it works or not. *)
Lemma append_revisions fresh new f : tf_revisions (append fresh new f).2 = tf_revisions f.
Proof.
  destruct (append fresh new f) as [[e|e] f'] eqn:E; apply append_spec in E; [|by subst]. by destruct E as (-> & _).
Qed.

(** Steps that leave the revisions alone. *)
Definition same_revisions {A} (m : fileM A) : Prop := forall f, tf_revisions (m f).2 = tf_revisions f.

Lemma same_revisions_bind {A B} (m : fileM A) (k : A -> fileM B) :
  same_revisions m -> (forall a, same_revisions (k a)) -> same_revisions (a ← m; k a).
Proof.
  intros Hm Hk f. unfold mbind, fileM_bind. specialize (Hm f). destruct (m f) as [[a|e] f']; [|done].
  by rewrite (Hk a f').
Qed.

Lemma same_revisions_ret {A} (a : A) : same_revisions (mret a).
Proof. done. Qed.

Lemma auto_merge_none fresh left right allowed new f a f' :
  structure_ok f -> auto_merge fresh left right allowed new f = (Ok a, f') ->
  match am_merge_revision a with None => tf_revisions f' = tf_revisions f | Some _ => needs_person (am_outcome a) = false end.
Proof.
  intros S H. unfold auto_merge in H.
  destruct (atomically_run _ f (adds_auto_merge_steps fresh left right allowed new) S) as (_ & _ & HR).
  apply HR in H. pose proof H as (_ & _ & planned & EP & Ho & _ & _ & HM)%auto_merge_steps_revision.
  destruct (am_merge_revision a) as [id|] eqn:E; [|done]. apply fileM_bind_Ok in H as (? & ? & [= <- <-] & H).
  apply fileM_bind_Ok in H as (planned' & ? & [EP' ->]%try_Ok & H). assert (planned' = planned) as -> by congruence.
  apply fileM_bind_Ok in H as (result & f1 & Em & H). apply fileM_bind_Ok in H as (e1 & f2 & _ & H).
  destruct (outcome_event result) as [[? ?] ?]. apply fileM_bind_Ok in H as (e2 & f3 & _ & H). injection H as -> _.
  rewrite Ho. destruct (am_outcome planned) eqn:EO; try done;
    injection Em as <- _; apply plan_no_revision in EP; congruence.
Qed.

(** handling a divergence is all or nothing, and a conflict never changes the
    revision graph. On an error the file is exactly what it was. On success the
    file still verifies with everything before kept, and if a reviewer was looked
    for, the revisions are the same as before, so both heads stay. *)
Theorem resolve_divergence_atomic fresh left right allowed new policy ctx f r f' :
  structure_ok f -> resolve_divergence fresh left right allowed new policy ctx f = (r, f') ->
  match r with
  | Err _ => f' = f
  | Ok d =>
      structure_ok f' /\ extends f f' /\
      match dv_selection d with
      | Some selection => tf_revisions f' = tf_revisions f /\ needs_person (am_outcome (dv_auto d)) = true /\
          compare (tf_revisions f) left right = Ok Diverged
      | None => True
      end
  end.
Proof.
  intros S H. unfold resolve_divergence in H.
  destruct (atomically_run _ f (adds_resolve_divergence_steps fresh left right allowed new policy ctx) S) as ([S' HE] & X & HR).
  rewrite H in S', HE, X. simpl in *. destruct r as [d|e]; [|done]. split; [done|]. split; [done|]. apply HR in H.
  apply fileM_bind_Ok in H as (auto & f1 & EA & H). apply auto_merge_none in EA; [|done].
  destruct (needs_person (am_outcome auto)) eqn:EN; simpl in H; [|injection H as <- _; done].
  destruct (am_merge_revision auto); [done|]. apply fileM_bind_Ok in H as (? & ? & [= <- <-] & H).
  apply fileM_bind_Ok in H as (relation & ? & [EC ->]%try_Ok & H).
  case_bool_decide as HD; simpl in H; [subst relation|injection H as <- _; done].
  apply fileM_bind_Ok in H as (selection & ? & [_ ->]%try_Ok & H).
  apply fileM_bind_Ok in H as (e1 & f2 & E1 & H). apply fileM_bind_Ok in H as (e2 & f3 & E2 & H).
  apply fileM_bind_Ok in H as ([] & f4 & E3 & H). injection H as <- <-. simpl.
  apply append_keeps in E1 as (R1 & _), E2 as (R2 & _).
  assert (tf_revisions f4 = tf_revisions f3) as R3.
  { match type of E3 with ?m f3 = _ => assert (same_revisions m) as HS end.
    { assert (forall n, same_revisions (append fresh n)) by (intros n f0; apply append_revisions).
      destruct selection as [reviewer [] from|]; [..|destruct (any_bridge ctx from)|];
        auto 7 using @same_revisions_bind, @same_revisions_ret. }
    specialize (HS f3). by rewrite E3 in HS. }
  rewrite R3, R2, R1, EA. split_and!; try done. unfold graph in EC. by rewrite <- EA.
Qed.

(** Steps that change nothing, and steps that change nothing when they fail. *)
Definition reads {A} (m : fileM A) : Prop := forall f, (m f).2 = f.
Definition keeps {A} (m : fileM A) : Prop := forall f e f', m f = (Err e, f') -> f' = f.

Lemma reads_bind {A B} (m : fileM A) (k : A -> fileM B) : reads m -> (forall a, reads (k a)) -> reads (a ← m; k a).
Proof.
  intros Hm Hk f. unfold mbind, fileM_bind. specialize (Hm f). destruct (m f) as [[a|e] f']; simpl in Hm; subst; [|done].
  apply Hk.
Qed.
Lemma reads_then {A B} (m : fileM A) (k : A -> fileM B) : reads m -> (forall a, keeps (k a)) -> keeps (a ← m; k a).
Proof.
  intros Hm Hk f e f'. unfold mbind, fileM_bind. specialize (Hm f). destruct (m f) as [[a|err] f1]; simpl in Hm; subst.
  - apply Hk.
  - by intros [= _ <-].
Qed.
Lemma keeps_throw {A} err : keeps (A := A) (throw err).
Proof. by intros f e f' [= _ <-]. Qed.
Lemma keeps_append fresh new : keeps (_ ← append fresh new; mret tt).
Proof.
  intros f e f'. unfold mbind, fileM_bind, mret, fileM_ret. destruct (append fresh new f) as [[?|?] f1] eqn:E; [done|].
  intros [= _ <-]. by apply append_spec in E.
Qed.

Lemma and_then_true a b : and_then a b = Ok true -> a = Ok true /\ b = Ok true.
Proof. unfold and_then. intros (x & -> & H)%bind_Ok. by destruct x. Qed.

Lemma authored_false f id label : negb <$> authored f id label = Ok true -> exists a, author_of f id = Ok a /\ a <> label.
Proof.
  unfold authored. destruct (author_of f id) as [a|]; simpl; [|done]. intros H%Ok_inj. exists a. split; [done|].
  by case_bool_decide.
Qed.

Lemma reject_merge_keeps fresh merge actor policy ctx : keeps (reject_merge fresh merge actor policy ctx).
Proof.
  unfold reject_merge. apply reads_then; [done|]. intros file. apply reads_then; [done|]. intros s.
  destruct (sr_parents s) as [|l [|rr [|? ?]]]; try apply keeps_throw.
  apply reads_then; [destruct (_ || _); [done|by apply reads_bind]|]. intros refused. destruct refused; [apply keeps_throw|].
  apply reads_then; [done|]. intros label. apply reads_then; [done|]. intros owner.
  apply reads_then; [by destruct owner|]. intros permitted. destruct (negb permitted); [apply keeps_throw|].
  apply keeps_append.
Qed.

(** refusing a proposed merge reopens the conflict it joined. Success needs
    the sole head, not trusted and not refused before, and an actor who is neither
    parent's author; afterwards the file still verifies, the revision is recorded
    as refused and the conflict between its two parents is open again, to be
    settled on top of it. On an error nothing changes. *)
Theorem reject_merge_reopens fresh merge actor policy ctx f r f' :
  structure_ok f -> reject_merge fresh merge actor policy ctx f = (r, f') ->
  match r with
  | Err _ => f' = f
  | Ok _ => structure_ok f' /\ extends f f' /\ evaluate_revision_trust f merge policy ctx <> Ok Trusted /\
      exists s l r label la ra, graph_get (tf_revisions f) merge = Some s /\ sr_parents s = [l; r] /\
        ne_actor_label actor = Some label /\ author_of f l = Ok la /\ author_of f r = Ok ra /\ la <> label /\ ra <> label /\
        is_rejected f merge = false /\ is_rejected f' merge = true /\
        forall allowed, open_conflict f' allowed = Ok (Some {| oc_left := l; oc_right := r; oc_parents := [merge] |})
  end.
Proof.
  intros S H. destruct r as [[]|e].
  - apply fileM_bind_Ok in H as (? & ? & [= <- <-] & H). apply fileM_bind_Ok in H as (s & ? & [Hg%ok_or_Ok ->]%try_Ok & H).
    destruct (sr_parents s) as [|l [|r [|? ?]]] eqn:EP; try done.
    apply fileM_bind_Ok in H as (refused & f1 & ER & H). destruct refused; [done|].
    destruct (negb (bool_decide (heads (graph f) = [merge]))) eqn:EH; [done|]. bool_hyps.
    destruct (is_rejected f merge) eqn:EJ; [done|]. simpl in ER.
    apply fileM_bind_Ok in ER as (state & ? & [ET ->]%try_Ok & ER). injection ER as Hstate <-.
    apply bool_decide_eq_false in Hstate.
    apply fileM_bind_Ok in H as (label & ? & [EL%ok_or_Ok ->]%try_Ok & H).
    apply fileM_bind_Ok in H as (owner & ? & [EO ->]%try_Ok & H).
    apply fileM_bind_Ok in H as (permitted & f2 & EM & H). destruct permitted; [|done]. simpl in H.
    assert (f2 = f /\ exists la ra, author_of f l = Ok la /\ author_of f r = Ok ra /\ la <> label /\ ra <> label) as [-> (la & ra & ? & ? & ? & ?)].
    { destruct owner.
      - injection EM as <-. split; [done|]. apply and_then_true in EO as [_ [(la & ? & ?)%authored_false (ra & ? & ?)%authored_false]%and_then_true].
        by exists la, ra.
      - apply try_Ok in EM as [EM ->]. split; [done|]. by apply may_decide_neutral in EM. }
    apply fileM_bind_Ok in H as (e & f3 & EA & H). injection H as <-.
    match type of EA with append _ ?new _ = _ =>
      destruct (adds_append fresh new ltac:(done) f) as [S' X _]; specialize (S' S) end. rewrite EA in S', X. simpl in S', X.
    apply append_spec in EA as (-> & Hs & _). destruct (event_seal_fields _ _ _ _ _ _ Hs) as (Hid & Ht & _). simpl in Hid, Ht.
    assert (is_rejected (set_events (tf_events f ++ [e]) f) merge = true) as HJ.
    { unfold is_rejected. simpl. rewrite existsb_app. simpl. rewrite Ht, Hid, !bool_decide_true by done. apply orb_true_r. }
    split; [done|]. split; [done|]. split; [rewrite ET; congruence|]. exists s, l, r, label, la, ra. split_and!; try done.
    intros allowed. unfold open_conflict. change (graph (set_events _ f)) with (graph f).
    match goal with E : heads (graph f) = [merge] |- _ => rewrite E end. rewrite HJ, Hg. simpl. by rewrite EP.
  - by eapply reject_merge_keeps.
Qed.
End settling.

(** ** A conflict: two members edit the same line of the owner's signed text *)

Module ConflictDemo.
Import Toy FileDemo DiffDemo TrustDemo ForkDemo.

Definition clash : fileM (bytes * bytes) :=
  base ← check_in (revision [] (str "M.S") (str "2026-10-02T14:32:05Z")) MergeDemo.base;
  _ ← sign_revision base author (str "M.S") secret;
  l ← check_in (revision [base] (str "M.S.1") (str "2026-10-02T15:00:00Z")) (line_d ++ line_b);
  r ← check_in (revision [base] (str "M.S.2") (str "2026-10-02T15:30:00Z")) (line_c ++ line_b);
  mret (l, r).
Definition clashed := Eval vm_compute in clash (with_policy file_id (str "notes.txt") policy).
Definition file : TrackedFile := Eval vm_compute in clashed.2.
Definition left : bytes := Eval vm_compute in match clashed.1 with Ok (l, _) => l | Err _ => [] end.
Definition right : bytes := Eval vm_compute in match clashed.1 with Ok (_, r) => r | Err _ => [] end.
Definition reviewer : NewRevision := revision [] (str "M.S") (str "2026-10-02T17:00:00Z").
Definition settled : TrackedFile := Eval vm_compute in (resolve_conflict fresh KeepRight reviewer policy ctx file).2.
Definition settled_id : bytes := Eval vm_compute in
  match (resolve_conflict fresh KeepRight reviewer policy ctx file).1 with Ok id => id | Err _ => [] end.
Definition divergence : Divergence := Eval vm_compute in
  match (resolve_divergence fresh left right true reviewer policy ctx file).1 with
  | Ok d => d | Err _ => {| dv_auto := stop FastForward [] None; dv_selection := None |} end.
Definition reviewed : TrackedFile := Eval vm_compute in (resolve_divergence fresh left right true reviewer policy ctx file).2.
Definition actor : NewEvent := event None E.MergeRejected.
Definition merge_id : bytes := Eval vm_compute in default [] (am_merge_revision merge_result).
Definition reopened : TrackedFile := Eval vm_compute in (reject_merge fresh merge_id actor policy ctx merged_file).2.

Lemma clash_structure : structure_ok file.
Proof. apply verify_structure_iff. vm_compute. reflexivity. Defined.
Lemma merged_structure : structure_ok merged_file.
Proof. apply verify_structure_iff. vm_compute. reflexivity. Defined.
Lemma resolver_ok : select_resolver file left right policy ctx = Ok (Assigned (str "M.S") PriorNeutralOwner []).
Proof. vm_compute. reflexivity. Defined.
Lemma settled_ok : resolve_conflict fresh KeepRight reviewer policy ctx file = (Ok settled_id, settled).
Proof. vm_compute. reflexivity. Defined.
Lemma divergence_ok : resolve_divergence fresh left right true reviewer policy ctx file = (Ok divergence, reviewed).
Proof. vm_compute. reflexivity. Defined.
Lemma reopened_ok : reject_merge fresh merge_id actor policy ctx merged_file = (Ok tt, reopened).
Proof. vm_compute. reflexivity. Defined.

(** The owner's key was reissued: the store holds another current key and remembers the old one. *)
Definition reissued : TrustContext :=
  {| signing_public _ _ := Some (public_key (replicate 32 x66));
     historical_signing_publics _ _ _ := [public_key secret];
     bridge_evidence _ := NoBridge;
     revision_bridge_evidence _ _ := NoBridge;
     bridge_between _ _ := NoBridge;
     generation_evidence _ _ := CurrentGeneration |}.
End ConflictDemo.

Section witnesses.
#[local] Existing Instance Toy.toy.
#[local] Existing Instance FileDemo.ascii_only.
#[local] Existing Instance ForkDemo.plain_hex.

Lemma resolver_justified_witness :
  exists la ra, author_of ConflictDemo.file ConflictDemo.left = Ok la /\ author_of ConflictDemo.file ConflictDemo.right = Ok ra /\
    neutral FileDemo.policy la ra (str "M.S").
Proof.
  pose proof (resolver_justified _ _ _ _ _ _ _ _ ConflictDemo.resolver_ok) as (la & ra & H1 & H2 & H3 & _).
  exists la, ra. split; [exact H1|]. split; [exact H2|exact H3].
Defined.

Lemma resolve_conflict_sound_witness :
  structure_ok ConflictDemo.settled /\ forall kind, proofs_for ConflictDemo.settled ConflictDemo.settled_id kind = [].
Proof.
  pose proof (resolve_conflict_sound _ _ _ _ _ _ _ _ ConflictDemo.clash_structure ConflictDemo.settled_ok) as (H1 & _ & H2 & _).
  split; [exact H1|exact H2].
Defined.

Lemma resolve_divergence_atomic_witness :
  dv_selection ConflictDemo.divergence = Some (Assigned (str "M.S") PriorNeutralOwner []) /\
  structure_ok ConflictDemo.reviewed.
Proof.
  split; [vm_compute; reflexivity|].
  exact (proj1 (resolve_divergence_atomic _ _ _ _ _ _ _ _ _ _ ConflictDemo.clash_structure ConflictDemo.divergence_ok)).
Defined.

Lemma reject_merge_reopens_witness : structure_ok ConflictDemo.reopened.
Proof.
  exact (proj1 (reject_merge_reopens _ _ _ _ _ _ _ _ ConflictDemo.merged_structure ConflictDemo.reopened_ok)).
Defined.

(** the view that hides bridge evidence also hides the key history. After the
    owner's key is reissued, the owner's signed revision is still trusted, with no
    bridge involved, yet the same evaluation under the view does not trust it; so
    the resolver no longer counts them as an owner and leaves the conflict
    unresolved. *)
Theorem without_bridges_forgets_keys :
  exists id, evaluate_revision_trust ConflictDemo.file id FileDemo.policy ConflictDemo.reissued = Ok Trusted /\
    evaluate_revision_trust ConflictDemo.file id FileDemo.policy (without_bridges ConflictDemo.reissued) <> Ok Trusted /\
    select_resolver ConflictDemo.file ConflictDemo.left ConflictDemo.right FileDemo.policy ConflictDemo.reissued = Ok Unresolved.
Proof.
  exists (default [] (ids (tf_revisions ConflictDemo.file) !! 0)).
  split; [vm_compute; reflexivity|]. split; [vm_compute; discriminate|vm_compute; reflexivity].
Qed.
End witnesses.
