(* ===== verification/Sync.v ===== *)
(** * [src/src/file_history/sync.rs]: copying a history and importing one

    [extract_revision] cuts the copy a sender delivers; [merge_history] brings
    another copy's revisions and proofs into this one. *)

From S2P Require Import Prelude Text Crypto Envelope HistoryCodec Event Revision RevisionGraph Policy Container FileOps Diff Merge ContainerCodec AutoMerge Expiry.

Inductive HistoryRelation := Identical | LocalAhead | RemoteAhead | HistoryDiverged.

(** [format!("{relation:?}")] *)
Definition relation_debug (r : HistoryRelation) : bytes :=
  match r with
  | Identical => str "Identical"
  | LocalAhead => str "LocalAhead"
  | RemoteAhead => str "RemoteAhead"
  | HistoryDiverged => str "Diverged"
  end.

Record HistoryMerge := { hm_relation : HistoryRelation; hm_revisions_added : nat; hm_proofs_added : nat }.

Record ImportContext := {
  ic_actor_identity : option bytes;
  ic_actor_label : bytes;
  ic_occurred_at : bytes;
  ic_topology_generation : N;
}.

Fixpoint take_while {A} (p : A -> bool) (l : list A) : list A :=
  match l with
  | [] => []
  | x :: l => if p x then x :: take_while p l else []
  end.

(** The events that travel with the kept revisions. *)
Definition travels (kept : gset bytes) (e : HistoryEvent) : bool :=
  match ev_revision_id e with
  | Some id => bool_decide (id ∈ kept)
  | None => bool_decide (ev_event_type e = E.FileRenamed)
  end.

(** The pruned copy, before it is verified. *)
Definition pruned_copy (f : TrackedFile) (kept : gset bytes) : TrackedFile :=
  let events := take_while (travels kept) (tf_events f) in
  {| tf_file_id := tf_file_id f; tf_logical_name := tf_logical_name f;
     tf_revisions := filter (fun s => sr_id s ∈ kept) (tf_revisions f);
     tf_proofs := filter (fun p => pf_revision_id p ∈ kept) (tf_proofs f);
     tf_events := events;
     tf_event_proofs := filter (fun p => N.to_nat (ep_sequence p) < length events) (tf_event_proofs f);
     tf_policy := tf_policy f |}.

(** [local.get(id)]: the map collected from the revisions, where a later duplicate would win. *)
Definition stored_by_id (l : list StoredRevision) : gmap bytes StoredRevision :=
  foldl (fun m s => <[sr_id s := s]> m) ∅ l.

(** The pass that collects the incoming revisions. *)
Fixpoint incoming_revisions (local : gmap bytes StoredRevision) (l : list StoredRevision) : result (list StoredRevision) :=
  match l with
  | [] => Ok []
  | stored :: l =>
      match local !! sr_id stored with
      | Some existing => if decide (existing = stored) then incoming_revisions local l else Err InvalidTrackedFile
      | None => rest ← incoming_revisions local l; Ok (stored :: rest)
      end
  end.

Definition hold (held : gmap (bytes * byte * bytes) (list bytes)) (p : RevisionProof) :=
  <[slot_key p := default [] (held !! slot_key p) ++ [pf_signature p]]> held.

(** The proofs of [l] that are pushed, in order. *)
Fixpoint incoming_proofs (held : gmap (bytes * byte * bytes) (list bytes)) (l : list RevisionProof) : list RevisionProof :=
  match l with
  | [] => []
  | p :: l =>
      let signatures := default [] (held !! slot_key p) in
      if negb (bool_decide (pf_signature p ∈ signatures)) && (length signatures <? MAX_PROOFS_PER_SLOT)
      then p :: incoming_proofs (hold held p) l
      else incoming_proofs held l
  end.

Definition history_relation (local_new other_new : nat) : HistoryRelation :=
  match local_new, other_new with
  | 0, 0 => Identical
  | _, 0 => LocalAhead
  | 0, _ => RemoteAhead
  | _, _ => HistoryDiverged
  end.

(** How many of [l] are not among [known]. *)
Definition count_new (known l : list StoredRevision) : nat := length (filter (fun s => sr_id s ∉ ids known) l).

Section sync.
Context `{C : Crypto} `{U : Unicode} `{HX : Hex}.

Definition extract_revision (f : TrackedFile) (revision_id : bytes) : result TrackedFile :=
  if is_destroyed f then Err FileExpired else
  _ ← verify_structure f;
  _ ← ok_or (graph_get (graph f) revision_id) InvalidTrackedFile;
  let pruned := pruned_copy f (ancestor_set (graph f) revision_id) in
  _ ← verify_structure pruned;
  Ok pruned.

Definition import_event (context : ImportContext) (details : EventDetails) : NewEvent :=
  {| ne_revision_id := None; ne_occurred_at := ic_occurred_at context; ne_actor_identity := ic_actor_identity context;
     ne_actor_label := Some (ic_actor_label context); ne_topology_generation := Some (ic_topology_generation context);
     ne_event_type := E.HistoryImported; ne_outcome := Success; ne_details := details |}.

Definition merge_history_steps (fresh : nat -> bytes) (other : TrackedFile) (context : ImportContext) : fileM HistoryMerge :=
  f ← get_file;
  let relation := history_relation (count_new (tf_revisions other) (tf_revisions f)) (count_new (tf_revisions f) (tf_revisions other)) in
  incoming ← try (incoming_revisions (stored_by_id (tf_revisions f)) (tf_revisions other));
  let revisions_added := length incoming in
  _ ← update_file (set_revisions (tf_revisions f ++ incoming));
  let proofs := incoming_proofs (foldl hold ∅ (tf_proofs f)) (tf_proofs other) in
  let proofs_added := length proofs in
  _ ← update_file (fun f => set_proofs (tf_proofs f ++ proofs) f);
  f ← get_file;
  _ ← try (verify_structure f);
  _ ← (if (0 <? revisions_added) || (0 <? proofs_added) then
         _ ← append fresh (import_event context
               (with_detail (with_detail (with_detail (with_detail []
                  (str "from_history_root") (hex_encode (history_root other)))
                  (str "relation") (relation_debug relation))
                  (str "revisions_added") (usize_to_string revisions_added))
                  (str "proofs_added") (usize_to_string proofs_added)));
         mret tt
       else mret tt);
  mret {| hm_relation := relation; hm_revisions_added := revisions_added; hm_proofs_added := proofs_added |}.

Definition merge_history (fresh : nat -> bytes) (other : TrackedFile) (context : ImportContext) : fileM HistoryMerge :=
  f ← get_file;
  if negb (bool_decide (tf_file_id f = tf_file_id other)) || negb (bool_decide (tf_policy f = tf_policy other))
  then throw InvalidTrackedFile else
  if is_destroyed f || is_destroyed other then throw FileExpired else
  _ ← try (verify_structure f);
  _ ← try (verify_structure other);
  atomically (merge_history_steps fresh other context).
End sync.

(** ** Extracting a copy *)

Lemma take_while_prefix {A} (p : A -> bool) l : take_while p l `prefix_of` l.
Proof. induction l as [|x l IH]; simpl; [done|]. destruct (p x); [by apply prefix_cons|apply prefix_nil]. Qed.

Lemma take_while_all {A} (p : A -> bool) l : Forall (fun x => p x = true) (take_while p l).
Proof. induction l as [|x l IH]; simpl; [done|]. by destruct (p x) eqn:E; [constructor|]. Qed.

(** A set of revision ids that is closed under parents in [g]. *)
Definition closed (g : list StoredRevision) (kept : gset bytes) : Prop :=
  forall s p, s ∈ g -> sr_id s ∈ kept -> p ∈ sr_parents s -> p ∈ ids g -> p ∈ kept.

Lemma ancestor_set_self g id : id ∈ ids g -> id ∈ ancestor_set g id.
Proof.
  intros H. apply ancestor_set_reaches. destruct (index_of g !! id) as [i|] eqn:E; [|by apply index_of_None in E].
  exists i. split; [done|]. by apply reaches_index.
Qed.

Lemma ancestor_set_closed g id : NoDup (ids g) -> closed g (ancestor_set g id).
Proof.
  intros HN s p Hs Hk Hp Hg. apply ancestor_set_reaches in Hk as (i & Hi & (k & Hk & Hr)). apply ancestor_set_reaches.
  destruct (index_of g !! p) as [j|] eqn:Ej; [|by apply index_of_None in Ej]. exists j. split; [done|]. exists k.
  split; [done|]. eapply rtc_r; [exact Hr|]. exists p. split; [|done]. apply list_elem_of_lookup in Hs as [n Hn].
  rewrite (index_of_unique g n s HN Hn) in Hi. simplify_eq. unfold parents_at. by rewrite Hn.
Qed.

Lemma graph_get_filter (P : StoredRevision -> Prop) `{!forall s, Decision (P s)} g id s :
  NoDup (ids g) -> graph_get g id = Some s -> P s -> graph_get (filter P g) id = Some s.
Proof.
  intros HN [Hs <-]%graph_get_Some HP. apply graph_get_unique; [|by apply list_elem_of_filter].
  eapply sublist_NoDup; [exact HN|]. apply fmap_sublist, sublist_filter.
Qed.

Section extract.
Context `{C : Crypto} `{U : Unicode} `{HX : Hex}.

Lemma filter_each_after file_id kept before l :
  closed (before ++ l) kept -> each_after (revision_ok file_id) before l ->
  each_after (revision_ok file_id) (filter (fun s => sr_id s ∈ kept) before) (filter (fun s => sr_id s ∈ kept) l).
Proof.
  revert before; induction l as [|s l IH]; intros before HC; [done|]. intros [Hs Hl].
  assert (closed ((before ++ [s]) ++ l) kept) as HC' by (by rewrite <- (assoc_L (++))).
  specialize (IH _ HC' Hl). rewrite filter_app, !filter_cons in *. case_decide as Hk; [|by rewrite filter_nil, app_nil_r in IH].
  split; [|exact IH]. destruct Hs as [H1 H2 H3 H4 H5 H6 H7 H8].
  assert (sr_parents s ⊆ ids (filter (fun s => sr_id s ∈ kept) before)) as HP.
  { intros p Hp. specialize (H5 p Hp). apply list_elem_of_fmap in H5 as (q & -> & Hq). apply list_elem_of_fmap. exists q.
    split; [done|]. apply list_elem_of_filter. split; [|done]. apply (HC s); [set_solver|done|done|].
    apply list_elem_of_fmap. exists q. set_solver. }
  split; try done.
  - intros Hin. apply H4. apply list_elem_of_fmap in Hin as (q & -> & [_ Hq]%list_elem_of_filter).
    apply list_elem_of_fmap. eauto.
  - split; [|by intros HE; apply H7 in HE as ->]. intros HE. destruct (sr_parents s) as [|p ps]; [done|].
    rewrite HE in HP. specialize (HP p ltac:(left)). by apply elem_of_nil in HP.
Qed.

Lemma pruned_structure f kept :
  structure_ok f -> is_destroyed f = false -> closed (tf_revisions f) kept -> structure_ok (pruned_copy f kept).
Proof.
  intros S HD HC. pose proof (structure_NoDup f S) as HN. destruct S as [HR HP HB HE HEP HV].
  destruct (take_while_prefix (travels kept) (tf_events f)) as [rest Hev].
  assert (is_destroyed (pruned_copy f kept) = false) as HD'.
  { unfold is_destroyed in *. simpl. rewrite Hev, existsb_app in HD. by apply orb_false_iff in HD as [? _]. }
  split; simpl.
  - by apply (filter_each_after _ _ []).
  - apply (each_after_impl (proof_ok (tf_revisions f))).
    + intros b p [Hk _]%list_elem_of_filter [(s & Hs & Hw) ? ?]. split; [|done..]. exists s. split; [|done].
      apply graph_get_filter; [done..|]. by destruct (graph_get_Some _ _ _ Hs) as [_ ->].
    + eapply (each_after_sublist _ [] []); [|apply sublist_filter|done|exact HP].
      intros b b' p Hsub _. by apply proof_ok_sublist.
  - intros s [_ Hs]%list_elem_of_filter. by rewrite HD', (HB s Hs), HD.
  - intros e id He Hid. pose proof (take_while_all (travels kept) (tf_events f)) as HA. rewrite Forall_forall in HA.
    specialize (HA e He). unfold travels in HA. rewrite Hid in HA. apply bool_decide_eq_true in HA.
    assert (e ∈ tf_events f) as He' by (rewrite Hev; set_solver). specialize (HE e id He' Hid).
    apply list_elem_of_fmap in HE as (s & -> & Hs). apply list_elem_of_fmap. exists s. split; [done|]. by apply list_elem_of_filter.
  - set (events := take_while _ _) in *.
    apply (each_after_impl (fun b p => N.to_nat (ep_sequence p) < length events -> event_proof_ok events b p)).
    { intros b p [Hp _]%list_elem_of_filter H. auto. }
    eapply (each_after_sublist _ [] []); [|apply sublist_filter|done|].
    + intros b b' p Hsub _ H Hlt. destruct (H Hlt) as [He Ho]. split; [exact He|].
      rewrite Forall_forall in *. intros q Hq. apply Ho. by eapply elem_of_sublist.
    + eapply each_after_impl; [|exact HEP]. intros b p _ [(e & He & Hx) Ho] Hlt. split; [|done]. exists e. split; [|done].
      by rewrite Hev, lookup_app_l in He.
  - rewrite Hev in HV. destruct (verify_chain_prefix _ _ _ _ HV) as [q Hq]. rewrite Hq. f_equal.
    by apply verify_chain_root in Hq.
Qed.

Lemma elem_of_all_parents g p : p ∈ all_parents g <-> exists s, s ∈ g /\ p ∈ sr_parents s.
Proof. unfold all_parents. rewrite list_elem_of_bind. naive_solver. Qed.

(** The copy of a revision and its ancestors has that revision as its only head. *)
Lemma extracted_head f id h :
  structure_ok f -> id ∈ ids (tf_revisions f) ->
  h ∈ heads (filter (fun s => sr_id s ∈ ancestor_set (tf_revisions f) id) (tf_revisions f)) <-> h = id.
Proof.
  intros S Hid. pose proof (structure_NoDup f S) as HN. set (g := tf_revisions f) in *.
  unfold heads. rewrite list_elem_of_filter, list_elem_of_fmap, elem_of_all_parents. split.
  - intros [Hno (s & -> & [Hk Hs]%list_elem_of_filter)]. apply dec_stable. intros Hne. apply Hno.
    apply ancestor_set_reaches in Hk as (i & Hi & k & Hk & Hr). apply rtc_inv_r in Hr as [->|(j & Hkj & p & Hp & Hpi)].
    { apply index_of_Some in Hi as (s1 & H1 & E1), Hk as (s2 & H2 & E2). congruence. }
    assert (p = sr_id s) as -> by (by eapply index_of_inj).
    unfold parents_at in Hp. destruct (g !! j) as [q|] eqn:Hj; [|by apply elem_of_nil in Hp]. exists q. split; [|done].
    apply list_elem_of_filter. split; [|by eapply list_elem_of_lookup_2]. apply ancestor_set_reaches.
    exists j. split; [by apply index_of_unique|]. by exists k.
  - intros ->. apply list_elem_of_fmap in Hid as (t & -> & Ht). split; [|exists t; split; [done|apply list_elem_of_filter; split; [|done]]].
    2:{ apply ancestor_set_self. apply list_elem_of_fmap. eauto. }
    intros (s & [Hk Hs]%list_elem_of_filter & Hp). apply ancestor_set_reaches in Hk as (i & Hi & k & Hk & Hr).
    apply list_elem_of_lookup in Hs as [n Hn]. rewrite (index_of_unique g n s HN Hn) in Hi. injection Hi as ->.
    pose proof (structure_parents_first f S) as HPF. apply (edge_rtc_le g k i HPF) in Hr.
    assert (k < i); [|lia]. apply HPF. exists (sr_id t). split; [|done]. unfold parents_at. fold g. by rewrite Hn.
Qed.

Lemma take_while_stops {A} (p : A -> bool) l rest :
  l = take_while p l ++ rest -> from_option (fun x => p x = false) True (head rest).
Proof.
  revert rest; induction l as [|x l IH]; intros rest; simpl; [by intros <-|]. destruct (p x) eqn:E.
  - intros [= H]. by apply IH.
  - intros H. simpl in H. by rewrite <- H.
Qed.

(** what a sender delivers. For a verified file that still has its content and
    any revision it holds, the copy always comes out and verifies on its own. It
    holds exactly the revision and its ancestors, as they were stored, so the
    revision is the only head of the copy; it carries only their proofs; and its events
    are the longest prefix of the chain that names nothing else, a rename apart. *)
Theorem extract_revision_complete f id :
  structure_ok f -> is_destroyed f = false -> id ∈ ids (tf_revisions f) ->
  exists copy, extract_revision f id = Ok copy /\ structure_ok copy /\ (forall h, h ∈ heads (tf_revisions copy) <-> h = id) /\
    (forall s, s ∈ tf_revisions copy <-> s ∈ tf_revisions f /\ is_ancestor_or_self (tf_revisions f) (sr_id s) id = true) /\
    (forall p, p ∈ tf_proofs copy <-> p ∈ tf_proofs f /\ is_ancestor_or_self (tf_revisions f) (pf_revision_id p) id = true) /\
    exists rest, tf_events f = tf_events copy ++ rest /\
      (forall e, e ∈ tf_events copy ->
         opt (fun r => is_ancestor_or_self (tf_revisions f) r id = true) (ev_revision_id e) /\
         (ev_revision_id e = None -> ev_event_type e = E.FileRenamed)) /\
      from_option (fun e => travels (ancestor_set (tf_revisions f) id) e = false) True (head rest).
Proof.
  intros S HD Hid. pose proof (structure_NoDup f S) as HN. set (kept := ancestor_set (tf_revisions f) id).
  assert (forall x, x ∈ kept <-> is_ancestor_or_self (tf_revisions f) x id = true) as Hkept.
  { intros x. unfold kept. by rewrite is_ancestor_or_self_reaches, ancestor_set_reaches. }
  pose proof (pruned_structure f kept S HD (ancestor_set_closed _ _ HN)) as SP. exists (pruned_copy f kept).
  split; [|split; [done|split; [|split; [|split]]]].
  - unfold extract_revision. rewrite HD, (proj2 (verify_structure_Ok f _) (conj S eq_refl)). simpl.
    destruct (proj2 (graph_get_is_Some _ _) Hid) as [s Hs]. unfold graph. rewrite Hs.
    unfold ok_or, mbind, result_bind. fold kept. by rewrite (proj2 (verify_structure_Ok _ _) (conj SP eq_refl)).
  - intros h. by apply extracted_head.
  - intros s. simpl. rewrite list_elem_of_filter, <- Hkept. tauto.
  - intros p. simpl. rewrite list_elem_of_filter, <- Hkept. tauto.
  - destruct (take_while_prefix (travels kept) (tf_events f)) as [rest Hev]. exists rest. split; [exact Hev|].
    split; [|by eapply take_while_stops]. intros e He. pose proof (take_while_all (travels kept) (tf_events f)) as HA.
    rewrite Forall_forall in HA. specialize (HA e He). unfold travels in HA.
    destruct (ev_revision_id e) as [r|]; simpl; apply bool_decide_eq_true in HA; [|done]. by rewrite <- Hkept.
Qed.
End extract.

(** ** Importing a copy *)

Lemma stored_by_id_Some l id s : stored_by_id l !! id = Some s -> s ∈ l /\ sr_id s = id.
Proof.
  unfold stored_by_id. induction l as [|x l IH] using rev_ind; [done|]. rewrite foldl_app. simpl. rewrite lookup_insert.
  case_decide as E; [intros [= <-]; set_solver|]. intros [? ?]%IH. set_solver.
Qed.

Lemma stored_by_id_None l id : stored_by_id l !! id = None <-> id ∉ ids l.
Proof.
  unfold stored_by_id, ids. induction l as [|x l IH] using rev_ind; [split; [intros _; apply not_elem_of_nil|done]|].
  rewrite foldl_app, map_app, not_elem_of_app. simpl. rewrite lookup_insert, list_elem_of_singleton.
  case_decide as E; [split; [done|]; intros [_ []]; congruence|]. rewrite IH. split; [|tauto]. intros ?. split; [done|congruence].
Qed.

(** No id is stored differently on the two sides. *)
Definition agree (l l' : list StoredRevision) : Prop := forall s t, s ∈ l -> t ∈ l' -> sr_id s = sr_id t -> s = t.

Lemma incoming_revisions_Ok local l :
  NoDup (ids local) ->
  match incoming_revisions (stored_by_id local) l with
  | Ok incoming => agree local l /\ incoming = filter (fun s => sr_id s ∉ ids local) l
  | Err e => ~ agree local l
  end.
Proof.
  intros HN. induction l as [|t l IH]; simpl; [split; [intros s t _ []%elem_of_nil|done]|].
  rewrite filter_cons. destruct (stored_by_id local !! sr_id t) as [s|] eqn:E.
  - apply stored_by_id_Some in E as [Hs Eid].
    rewrite (decide_False (P := sr_id t ∉ ids local)) by (intros Hno; apply Hno; apply list_elem_of_fmap; exists s; done).
    case_decide as Est; [subst s|intros HA; apply Est; apply HA; [done|left|done]].
    destruct (incoming_revisions _ l); [|intros HA; apply IH; intros s u Hs' Hu; apply HA; [done|by right]].
    destruct IH as [HA ->]. split; [|done]. intros s u Hs' [->|Hu]%elem_of_cons Esu; [|by apply HA].
    pose proof (graph_get_unique _ _ HN Hs') as G1. pose proof (graph_get_unique _ _ HN Hs) as G2. congruence.
  - apply stored_by_id_None in E. rewrite decide_True by done.
    destruct (incoming_revisions _ l) as [rest|]; simpl; [|intros HA; apply IH; intros s u Hs' Hu; apply HA; [done|by right]].
    destruct IH as [HA ->]. split; [|done]. intros s u Hs' [->|Hu]%elem_of_cons Esu; [|by apply HA].
    exfalso. apply E. apply list_elem_of_fmap. eauto.
Qed.

Lemma slots_of_hold before held p : slots_of before held -> slots_of (before ++ [p]) (hold held p).
Proof. apply slots_of_step. Qed.

Lemma slots_of_all l : slots_of l (foldl hold ∅ l).
Proof.
  induction l as [|p l IH] using rev_ind; [done|]. rewrite foldl_app. by apply slots_of_hold.
Qed.

(** [p]'s signature is held in its slot among [l], or the slot is full. *)
Definition covered (l : list RevisionProof) (p : RevisionProof) : Prop :=
  pf_signature p ∈ slot_signatures l p \/ MAX_PROOFS_PER_SLOT <= length (slot_signatures l p).

Lemma covered_more l l' p : l `sublist_of` l' -> covered l p -> covered l' p.
Proof.
  intros H%(fun H => slot_signatures_sublist l' l p H) [?|?]; [left; by eapply elem_of_sublist|right].
  apply sublist_length in H. lia.
Qed.

Lemma slot_signatures_snoc l p : pf_signature p ∈ slot_signatures (l ++ [p]) p.
Proof.
  unfold slot_signatures. apply list_elem_of_fmap. exists p. split; [done|]. apply list_elem_of_filter. split; [done|]. set_solver.
Qed.

(** A proof that may be pushed after [before]. *)
Definition pushed (before : list RevisionProof) (p : RevisionProof) : Prop :=
  pf_signature p ∉ slot_signatures before p /\ length (slot_signatures before p) < MAX_PROOFS_PER_SLOT.

Lemma incoming_proofs_spec before held l :
  slots_of before held ->
  let ps := incoming_proofs held l in
  ps `sublist_of` l /\ each_after pushed before ps /\ Forall (covered (before ++ ps)) l.
Proof.
  revert before held; induction l as [|p l IH]; intros before held HS; cbn [incoming_proofs]; [done|]. rewrite HS.
  destruct (_ && _) eqn:B.
  - bool_hyps. destruct (IH _ _ (slots_of_hold _ _ p HS)) as (H1 & H2 & H3). rewrite <- (assoc_L (++)) in H3.
    split; [by apply sublist_skip|]. split; [split; [split; [done|by apply Nat.ltb_lt]|done]|]. constructor; [|done].
    apply (covered_more (before ++ [p])); [|left; apply slot_signatures_snoc].
    apply sublist_app; [done|]. apply sublist_skip, sublist_nil_l.
  - destruct (IH _ _ HS) as (H1 & H2 & H3). split; [by apply sublist_cons|]. split; [done|]. constructor; [|done].
    apply (covered_more before); [by apply sublist_inserts_r|]. unfold covered.
    apply andb_false_iff in B as [B|B]; bool_hyps; [by left|]. apply Nat.ltb_ge in B. by right.
Qed.

Section import.
Context `{C : Crypto} `{U : Unicode} `{HX : Hex}.

(** The file with the incoming revisions and proofs added. *)
Definition union_of (f : TrackedFile) (incoming : list StoredRevision) (proofs : list RevisionProof) : TrackedFile :=
  set_proofs (tf_proofs f ++ proofs) (set_revisions (tf_revisions f ++ incoming) f).

Lemma union_extends f incoming proofs : extends f (union_of f incoming proofs).
Proof. split; simpl; try done; by apply prefix_app_r. Qed.

(** The first revision of each copy is the same, where both have one. *)
Definition same_root (l l' : list StoredRevision) : Prop :=
  forall s t, head l = Some s -> head l' = Some t -> sr_id s = sr_id t.

Lemma ids_filter_union (l l' : list StoredRevision) x :
  x ∈ ids (l ++ filter (fun s => sr_id s ∉ ids l) l') <-> x ∈ ids l \/ x ∈ ids l'.
Proof.
  rewrite ids_app, elem_of_app. split.
  - intros [?|(s & -> & [_ Hs]%list_elem_of_filter)%list_elem_of_fmap]; [by left|right]. apply list_elem_of_fmap. eauto.
  - intros [?|(s & -> & Hs)%list_elem_of_fmap]; [by left|]. destruct (decide (sr_id s ∈ ids l)); [by left|right].
    apply list_elem_of_fmap. exists s. split; [done|]. by apply list_elem_of_filter.
Qed.

(** Another copy's revisions, less those already here, may follow in their order. *)
Lemma union_revisions file_id local before l :
  local <> [] -> (forall s, head (before ++ l) = Some s -> sr_id s ∈ ids local) ->
  each_after (revision_ok file_id) before l ->
  each_after (revision_ok file_id) (local ++ filter (fun s => sr_id s ∉ ids local) before) (filter (fun s => sr_id s ∉ ids local) l).
Proof.
  intros Hne. revert before; induction l as [|s l IH]; intros before Hh; [done|]. intros [Hs Hl].
  specialize (IH (before ++ [s])). rewrite <- (assoc_L (++)) in IH. specialize (IH Hh Hl).
  rewrite filter_app, filter_cons in IH. rewrite filter_cons. case_decide as Hk; [|by rewrite filter_nil, app_nil_r in IH].
  rewrite filter_nil, (assoc_L (++)) in IH. split; [|exact IH]. destruct Hs as [H1 H2 H3 H4 H5 H6 H7 H8].
  assert (before <> []) as Hb by (intros ->; apply Hk; by apply Hh). split; try done.
  - rewrite ids_filter_union. intros [?|?]; done.
  - intros p Hp. apply ids_filter_union. right. by apply H5.
  - split; [by destruct local|]. intros E. by apply H7 in E.
Qed.

Lemma filter_unknown_nil (l : list StoredRevision) : filter (fun s => sr_id s ∉ ids []) l = l.
Proof. induction l as [|s l IH]; [done|]. rewrite filter_cons, decide_True by (by intros ?%elem_of_nil). by rewrite IH. Qed.

Lemma union_revisions_ok file_id local l :
  each_after (revision_ok file_id) [] local -> each_after (revision_ok file_id) [] l -> same_root local l ->
  each_after (revision_ok file_id) [] (local ++ filter (fun s => sr_id s ∉ ids local) l).
Proof.
  intros HL HR Hroot. destruct local as [|r local]; [by rewrite filter_unknown_nil|].
  apply each_after_app. split; [done|]. rewrite (app_nil_l (r :: local)).
  rewrite <- (app_nil_r (r :: local)) at 1. rewrite <- (filter_nil (fun s => sr_id s ∉ ids (r :: local))).
  apply union_revisions; [done| |done]. intros s Hs. rewrite <- (Hroot r s) by done. left.
Qed.

Section union.
Context (f other : TrackedFile).
Context (S : structure_ok f) (SO : structure_ok other) (Hid : tf_file_id f = tf_file_id other).
Context (HD : is_destroyed f = false) (HDO : is_destroyed other = false).
Context (HA : agree (tf_revisions f) (tf_revisions other)).

Lemma elem_of_union s :
  s ∈ tf_revisions f ++ filter (fun s => sr_id s ∉ ids (tf_revisions f)) (tf_revisions other) <->
  s ∈ tf_revisions f \/ s ∈ tf_revisions other.
Proof using HA.
  rewrite elem_of_app, list_elem_of_filter. split; [tauto|]. intros [?|Hs]; [by left|].
  destruct (decide (sr_id s ∈ ids (tf_revisions f))) as [Hin|]; [left|by right].
  apply list_elem_of_fmap in Hin as (t & Et & Ht). by rewrite <- (HA t s).
Qed.

Lemma union_structure :
  same_root (tf_revisions f) (tf_revisions other) ->
  structure_ok (union_of f (filter (fun s => sr_id s ∉ ids (tf_revisions f)) (tf_revisions other))
    (incoming_proofs (foldl hold ∅ (tf_proofs f)) (tf_proofs other))).
Proof using S SO Hid HD HDO HA.
  intros Hroot. pose proof elem_of_union as Hel. set (inc := filter _ _) in *.
  destruct (incoming_proofs_spec _ _ (tf_proofs other) (slots_of_all (tf_proofs f))) as (Hsub & Hpush & _).
  set (ps := incoming_proofs _ _) in *.
  assert (each_after (revision_ok (tf_file_id f)) [] (tf_revisions f ++ inc)) as HR.
  { apply union_revisions_ok; [apply S| |done]. rewrite Hid. apply SO. }
  assert (NoDup (ids (tf_revisions f ++ inc))) as HN by (apply (revisions_ok_NoDup (tf_file_id f) []); [constructor|exact HR]).
  destruct S as [_ HP HB HE HEP HC]. split; simpl; try done.
  - apply each_after_app. split; [eapply each_after_impl; [|exact HP]; intros b x _; apply proof_ok_more|].
    eapply each_after_impl; [|exact Hpush]. intros b p Hp [? ?]. split; [|done..].
    destruct (each_after_elem _ _ _ (so_proofs other SO) (elem_of_sublist _ _ _ Hp Hsub)) as (? & [(t & Ht & Hw) _ _]).
    exists t. split; [|done]. apply graph_get_Some in Ht as [Ht <-]. apply graph_get_unique; [exact HN|]. apply Hel. by right.
  - intros s Hs. change (is_destroyed (union_of f inc ps)) with (is_destroyed f). rewrite HD. split; [|done].
    apply Hel in Hs as [Hs|Hs]; [rewrite (HB s Hs)|rewrite (so_payloads other SO s Hs)]; congruence.
  - intros e id He Eid. rewrite ids_app. apply elem_of_app. left. by eapply HE.
Qed.
End union.

(** The event an import records, when it brought something. *)
Definition import_details (other : TrackedFile) (m : HistoryMerge) : EventDetails :=
  with_detail (with_detail (with_detail (with_detail []
    (str "from_history_root") (hex_encode (history_root other)))
    (str "relation") (relation_debug (hm_relation m)))
    (str "revisions_added") (usize_to_string (hm_revisions_added m)))
    (str "proofs_added") (usize_to_string (hm_proofs_added m)).

Definition brings_nothing (m : HistoryMerge) : Prop := hm_revisions_added m = 0 /\ hm_proofs_added m = 0.

Lemma brought m : (0 <? hm_revisions_added m) || (0 <? hm_proofs_added m) = bool_decide (~ brings_nothing m).
Proof.
  unfold brings_nothing. apply eq_bool_prop_intro. rewrite !Is_true_true, orb_true_iff, !Nat.ltb_lt, bool_decide_eq_true. lia.
Qed.

(** What the steps do on two verified, live copies of one file. *)
Lemma merge_history_steps_run fresh other context f :
  structure_ok f -> structure_ok other ->
  let inc := filter (fun s => sr_id s ∉ ids (tf_revisions f)) (tf_revisions other) in
  let ps := incoming_proofs (foldl hold ∅ (tf_proofs f)) (tf_proofs other) in
  let m := {| hm_relation := history_relation (count_new (tf_revisions other) (tf_revisions f)) (count_new (tf_revisions f) (tf_revisions other));
              hm_revisions_added := length inc; hm_proofs_added := length ps |} in
  extends f (merge_history_steps fresh other context f).2 /\
  (agree (tf_revisions f) (tf_revisions other) -> structure_ok (union_of f inc ps) ->
   merge_history_steps fresh other context f =
     if bool_decide (brings_nothing m) then (Ok m, union_of f inc ps)
     else match append fresh (import_event context (import_details other m)) (union_of f inc ps) with
          | (Ok _, f') => (Ok m, f')
          | (Err e, f') => (Err e, f')
          end) /\
  (forall m' f', merge_history_steps fresh other context f = (Ok m', f') ->
   agree (tf_revisions f) (tf_revisions other) /\ structure_ok (union_of f inc ps)).
Proof.
  intros S SO inc ps m. unfold merge_history_steps, mbind, fileM_bind, get_file, update_file, try, mret, fileM_ret. cbv beta iota.
  pose proof (incoming_revisions_Ok (tf_revisions f) (tf_revisions other) (structure_NoDup f S)) as HI.
  destruct (incoming_revisions _ _) as [inc'|e]; [|done]. destruct HI as [HA ->]. fold inc ps.
  change (set_proofs (tf_proofs (set_revisions (tf_revisions f ++ inc) f) ++ ps) (set_revisions (tf_revisions f ++ inc) f)) with (union_of f inc ps).
  destruct (verify_structure (union_of f inc ps)) as [root|e] eqn:EV.
  - apply verify_structure_Ok in EV as [SU _].
    pose proof (brought m) as HB. simpl in HB. rewrite HB. clear HB. pose proof (union_extends f inc ps) as XU.
    destruct (decide (brings_nothing m)) as [HN|HN].
    + rewrite (bool_decide_true (brings_nothing m)), (bool_decide_false (~ brings_nothing m)) by tauto.
      done.
    + rewrite (bool_decide_false (brings_nothing m)), (bool_decide_true (~ brings_nothing m)) by tauto.
      change (import_event context (with_detail _ _ _)) with (import_event context (import_details other m)).
      pose proof (append_extends fresh (import_event context (import_details other m)) (union_of f inc ps)) as XA.
      destruct (append _ _ _) as [[e|e] f']; (split; [by etrans|]); done.
  - split; [apply union_extends|]. split; [|done]. intros _ SU. apply verify_structure_iff in SU. by rewrite EV in SU.
Qed.

Lemma union_nothing f : union_of f [] [] = f.
Proof. unfold union_of, set_proofs, set_revisions. destruct f; simpl. by rewrite !app_nil_r. Qed.

(** Every outcome of an import into a verified file. *)
Lemma merge_history_outcome fresh other context f r f' :
  structure_ok f -> merge_history fresh other context f = (r, f') ->
  let inc := filter (fun s => sr_id s ∉ ids (tf_revisions f)) (tf_revisions other) in
  let ps := incoming_proofs (foldl hold ∅ (tf_proofs f)) (tf_proofs other) in
  let m := {| hm_relation := history_relation (count_new (tf_revisions other) (tf_revisions f)) (count_new (tf_revisions f) (tf_revisions other));
              hm_revisions_added := length inc; hm_proofs_added := length ps |} in
  match r with
  | Err _ => f' = f
  | Ok m' => m' = m /\ tf_file_id f = tf_file_id other /\ tf_policy f = tf_policy other /\
      is_destroyed f = false /\ is_destroyed other = false /\ structure_ok other /\
      agree (tf_revisions f) (tf_revisions other) /\ structure_ok (union_of f inc ps) /\
      if bool_decide (brings_nothing m) then f' = f
      else exists e, append fresh (import_event context (import_details other m)) (union_of f inc ps) = (Ok e, f')
  end.
Proof.
  intros S. unfold merge_history, mbind, fileM_bind, get_file, try, throw. cbv beta iota zeta.
  destruct (negb _ || negb _) eqn:B1; [by intros [= <- <-]|].
  destruct (is_destroyed f || is_destroyed other) eqn:B2; [by intros [= <- <-]|]. bool_hyps.
  rewrite (proj2 (verify_structure_Ok f _) (conj S eq_refl)). destruct (verify_structure other) as [root|] eqn:EV; [|by intros [= <- <-]].
  apply verify_structure_Ok in EV as [SO _]. destruct (merge_history_steps_run fresh other context f S SO) as (X & HOk & HErr).
  set (inc := filter _ _) in *. set (ps := incoming_proofs _ _) in *. cbv zeta in *. set (m := {| hm_relation := _ |}) in *.
  rewrite (atomically_undo _ _ X). intros E. destruct r as [m'|e]; cycle 1.
  { destruct (merge_history_steps _ _ _ f) as [[?|?] ?]; by simplify_eq. }
  destruct (merge_history_steps fresh other context f) as [[m''|?] f''] eqn:ES; [|done]. simplify_eq.
  destruct (HErr _ _ eq_refl) as [HA SU]. specialize (HOk HA SU).
  case_bool_decide as HN.
  - apply pair_equal_spec in HOk as [[= ->] ->]. do 8 (split; [done|]). destruct HN as [Hi Hp].
    apply length_zero_iff_nil in Hi, Hp. rewrite Hi, Hp. apply union_nothing.
  - destruct (append _ _ _) as [[e|e] f1] eqn:EA; [|done]. apply pair_equal_spec in HOk as [[= ->] ->].
    do 8 (split; [done|]). by exists e.
Qed.

Lemma count_new_zero known l : count_new known l = 0 <-> ids l ⊆ ids known.
Proof.
  unfold count_new. rewrite length_zero_iff_nil. split.
  - intros H x (s & -> & Hs)%list_elem_of_fmap. apply dec_stable. intros Hno.
    assert (s ∈ filter (fun s => sr_id s ∉ ids known) l) as Hin by (by apply list_elem_of_filter). rewrite H in Hin. by apply elem_of_nil in Hin.
  - intros H. apply elem_of_nil_inv. intros s [Hno Hs]%list_elem_of_filter. apply Hno, H, list_elem_of_fmap. eauto.
Qed.

Lemma history_relation_spec local_new other_new :
  match history_relation local_new other_new with
  | Identical => local_new = 0 /\ other_new = 0
  | LocalAhead => local_new <> 0 /\ other_new = 0
  | RemoteAhead => local_new = 0 /\ other_new <> 0
  | HistoryDiverged => local_new <> 0 /\ other_new <> 0
  end.
Proof. by destruct local_new, other_new. Qed.

Lemma merge_history_result fresh other context f r f' :
  structure_ok f -> merge_history fresh other context f = (r, f') ->
  match r with
  | Err _ => f' = f
  | Ok m =>
      structure_ok f' /\ extends f f' /\ structure_ok other /\ tf_file_id f = tf_file_id other /\ tf_policy f = tf_policy other /\
      (forall s, s ∈ tf_revisions f' <-> s ∈ tf_revisions f \/ s ∈ tf_revisions other) /\
      Forall (covered (tf_proofs f')) (tf_proofs other) /\
      match hm_relation m with
      | Identical => ids (tf_revisions f) ⊆ ids (tf_revisions other) /\ ids (tf_revisions other) ⊆ ids (tf_revisions f)
      | LocalAhead => ~ ids (tf_revisions f) ⊆ ids (tf_revisions other) /\ ids (tf_revisions other) ⊆ ids (tf_revisions f)
      | RemoteAhead => ids (tf_revisions f) ⊆ ids (tf_revisions other) /\ ~ ids (tf_revisions other) ⊆ ids (tf_revisions f)
      | HistoryDiverged => ~ ids (tf_revisions f) ⊆ ids (tf_revisions other) /\ ~ ids (tf_revisions other) ⊆ ids (tf_revisions f)
      end /\
      is_destroyed f' = false /\ is_destroyed other = false /\
      (f' = f \/ exists e, tf_events f' = tf_events f ++ [e] /\ ev_event_type e = E.HistoryImported)
  end.
Proof.
  intros S H. apply merge_history_outcome in H; [|done]. destruct r as [m|]; [|done].
  set (inc := filter _ _) in *. set (ps := incoming_proofs _ _) in *. cbv zeta in H. set (m0 := {| hm_relation := _ |}) in *.
  destruct H as (-> & Hid & Hpol & HD & HDO & SO & HA & SU & HF).
  destruct (incoming_proofs_spec _ _ (tf_proofs other) (slots_of_all (tf_proofs f))) as (_ & _ & HC). fold ps in HC.
  assert (exists events, f' = set_events (tf_events f ++ events) (union_of f inc ps) /\ structure_ok f' /\
    (f' = f \/ exists e, events = [e] /\ ev_event_type e = E.HistoryImported)) as (events & -> & S' & HE).
  { case_bool_decide as HN.
    - subst f'. exists []. rewrite app_nil_r. destruct HN as [Hi Hp]. simpl in Hi, Hp. apply length_zero_iff_nil in Hi, Hp.
      rewrite Hi, Hp, union_nothing. split; [by destruct f|]. by split; [|left].
    - destruct HF as (e & EA). exists [e].
      destruct (adds_append fresh (import_event context (import_details other m0)) ltac:(done) (union_of f inc ps)) as [S' _ _]. specialize (S' SU).
      rewrite EA in S'. apply append_spec in EA as (-> & Hs & _). destruct (event_seal_fields _ _ _ _ _ _ Hs) as (_ & Ht & _).
      split; [done|]. split; [done|]. right. by exists e. }
  split; [done|]. split; [split; simpl; try done; by apply prefix_app_r|]. do 3 (split; [done|]).
  split; [intros s; by apply (elem_of_union f other)|]. split; [done|]. split.
  - simpl. pose proof (history_relation_spec (count_new (tf_revisions other) (tf_revisions f)) (count_new (tf_revisions f) (tf_revisions other))) as HR.
    destruct (history_relation _ _); rewrite <- !count_new_zero; tauto.
  - split; [|split; [done|]].
    + unfold is_destroyed in *. simpl. rewrite existsb_app, HD. destruct HE as [HE|(e & -> & Ht)].
      * apply (f_equal tf_events) in HE. simpl in HE. rewrite <- (app_nil_r (tf_events f)) in HE at 2. by apply app_inv_head in HE as ->.
      * simpl. unfold destroys_this_content. by rewrite Ht.
    + destruct HE as [HE|(e & -> & Ht)]; [by left|right]. by exists e.
Qed.

(** C38: importing another copy is all or nothing and takes the union. On an error
    the file is exactly what it was. On success the two copies were the same live
    file under the same policy, both verified; the result verifies and keeps
    everything before; its revisions are those of either copy and no others; every
    proof of the other copy is held unless its slot is full; the relation reported
    is the one between the two sets of revisions; and if the import brought nothing
    new the file is unchanged, otherwise exactly one event says so. *)
Theorem merge_history_union fresh other context f r f' :
  structure_ok f -> merge_history fresh other context f = (r, f') ->
  match r with
  | Err _ => f' = f
  | Ok m =>
      structure_ok f' /\ extends f f' /\ structure_ok other /\ tf_file_id f = tf_file_id other /\ tf_policy f = tf_policy other /\
      (forall s, s ∈ tf_revisions f' <-> s ∈ tf_revisions f \/ s ∈ tf_revisions other) /\
      Forall (covered (tf_proofs f')) (tf_proofs other) /\
      match hm_relation m with
      | Identical => ids (tf_revisions f) ⊆ ids (tf_revisions other) /\ ids (tf_revisions other) ⊆ ids (tf_revisions f)
      | LocalAhead => ~ ids (tf_revisions f) ⊆ ids (tf_revisions other) /\ ids (tf_revisions other) ⊆ ids (tf_revisions f)
      | RemoteAhead => ids (tf_revisions f) ⊆ ids (tf_revisions other) /\ ~ ids (tf_revisions other) ⊆ ids (tf_revisions f)
      | HistoryDiverged => ~ ids (tf_revisions f) ⊆ ids (tf_revisions other) /\ ~ ids (tf_revisions other) ⊆ ids (tf_revisions f)
      end /\
      is_destroyed f' = false /\ is_destroyed other = false /\
      (f' = f \/ exists e, tf_events f' = tf_events f ++ [e] /\ ev_event_type e = E.HistoryImported)
  end.
Proof. apply merge_history_result. Qed.

(** The same, from the guards: when an import goes through. *)
Lemma merge_history_eq fresh other context f :
  structure_ok f -> structure_ok other -> tf_file_id f = tf_file_id other -> tf_policy f = tf_policy other ->
  is_destroyed f = false -> is_destroyed other = false ->
  merge_history fresh other context f = atomically (merge_history_steps fresh other context) f.
Proof.
  intros S SO Hid Hpol HD HDO. unfold merge_history, mbind, fileM_bind, get_file, try, throw. cbv beta iota zeta.
  rewrite !bool_decide_true by done. rewrite HD, HDO.
  by rewrite (proj2 (verify_structure_Ok f _) (conj S eq_refl)), (proj2 (verify_structure_Ok other _) (conj SO eq_refl)).
Qed.

(** two verified live copies of one file under one policy can always be
    joined, whatever each holder added, as long as they start from the same
    revision and store no id in two ways: the import succeeds, or the one event it
    records cannot be sealed. *)
Theorem merge_history_accepts fresh other context f :
  structure_ok f -> structure_ok other -> tf_file_id f = tf_file_id other -> tf_policy f = tf_policy other ->
  is_destroyed f = false -> is_destroyed other = false ->
  agree (tf_revisions f) (tf_revisions other) -> same_root (tf_revisions f) (tf_revisions other) ->
  (exists m f', merge_history fresh other context f = (Ok m, f')) \/
  (exists e k root new, merge_history fresh other context f = (Err e, f) /\
     event_seal (fresh k) (N.of_nat k) (tf_file_id f) root new = Err e).
Proof.
  intros S SO Hid Hpol HD HDO HA Hroot. rewrite (merge_history_eq _ _ _ _ S SO Hid Hpol HD HDO).
  destruct (merge_history_steps_run fresh other context f S SO) as (X & HOk & _). cbv zeta in HOk.
  pose proof (union_structure f other S SO Hid HD HDO HA Hroot) as SU. specialize (HOk HA SU). set (m := {| hm_relation := _ |}) in *.
  rewrite (atomically_undo _ _ X), HOk. clear HOk X. case_bool_decide; [left; eauto|].
  rewrite (append_total fresh (import_event context (import_details other m)) _ _ (so_chain _ SU)); [|reflexivity|done].
  destruct (event_seal _ _ _ _ _) as [e|err] eqn:E; [left; eauto|right]. by exists err, (length (tf_events f)), (history_root f), (import_event context (import_details other m)).
Qed.

Lemma incoming_proofs_covered before held l :
  slots_of before held -> Forall (covered before) l -> incoming_proofs held l = [].
Proof.
  intros HS. induction 1 as [|p l Hp HF IH]; [done|]. cbn [incoming_proofs]. rewrite HS.
  replace (_ && _) with false; [done|]. symmetry. apply andb_false_iff.
  destruct Hp as [?|?]; [left; by apply negb_false_iff, bool_decide_eq_true|right; by apply Nat.ltb_ge].
Qed.

(** an import is idempotent: importing the same copy again finds nothing new
    and leaves the file, its events included, exactly as it is. *)
Theorem merge_history_idempotent fresh fresh' other context context' f m f' :
  structure_ok f -> merge_history fresh other context f = (Ok m, f') ->
  exists relation, merge_history fresh' other context' f' =
    (Ok {| hm_relation := relation; hm_revisions_added := 0; hm_proofs_added := 0 |}, f').
Proof.
  intros S (S' & X & SO & Hid & Hpol & Hel & HC & _ & HD & HDO & _)%merge_history_result; [|done].
  rewrite merge_history_eq; [|done|done|rewrite (ex_file_id _ _ X); done|rewrite (ex_policy _ _ X); done|done|done].
  destruct (merge_history_steps_run fresh' other context' f' S' SO) as (X' & HOk & _). cbv zeta in HOk.
  assert (filter (fun s => sr_id s ∉ ids (tf_revisions f')) (tf_revisions other) = []) as Ei.
  { apply elem_of_nil_inv. intros s [Hno Hs]%list_elem_of_filter. apply Hno, list_elem_of_fmap. exists s. split; [done|]. apply Hel. by right. }
  rewrite (incoming_proofs_covered _ _ _ (slots_of_all (tf_proofs f')) HC), Ei, union_nothing in HOk.
  assert (agree (tf_revisions f') (tf_revisions other)) as HA.
  { intros s t Hs Ht E. pose proof (structure_NoDup f' S') as HN. pose proof (graph_get_unique _ _ HN Hs) as G1.
    pose proof (graph_get_unique _ _ HN (proj2 (Hel t) (or_intror Ht))) as G2. congruence. }
  specialize (HOk HA S'). rewrite bool_decide_true in HOk by done. rewrite (atomically_undo _ _ X'), HOk. eauto.
Qed.
End import.

(** ** Two members' copies of one file, brought back together *)

Module SyncDemo.
Import Toy FileDemo ForkDemo.

Definition copy_of (id : bytes) : TrackedFile := match extract_revision file id with Ok c => c | Err _ => file end.
Definition left_copy : TrackedFile := Eval vm_compute in copy_of left.
Definition right_copy : TrackedFile := Eval vm_compute in copy_of right.
Definition context : ImportContext :=
  {| ic_actor_identity := Some author; ic_actor_label := str "M.S.1"; ic_occurred_at := str "2026-10-03T08:00:00Z";
     ic_topology_generation := 3 |}.
Definition joined : TrackedFile := Eval vm_compute in (merge_history fresh right_copy context left_copy).2.
Definition import : HistoryMerge := {| hm_relation := HistoryDiverged; hm_revisions_added := 1; hm_proofs_added := 0 |}.

Lemma left_structure : structure_ok left_copy.
Proof. apply verify_structure_iff. vm_compute. reflexivity. Defined.
Lemma right_structure : structure_ok right_copy.
Proof. apply verify_structure_iff. vm_compute. reflexivity. Defined.
Lemma joined_ok : merge_history fresh right_copy context left_copy = (Ok import, joined).
Proof. vm_compute. reflexivity. Defined.
Lemma copies_agree : agree (tf_revisions left_copy) (tf_revisions right_copy).
Proof.
  assert (Forall (fun s => Forall (fun t => sr_id s = sr_id t -> s = t) (tf_revisions right_copy)) (tf_revisions left_copy)) as H
    by (apply (bool_decide_unpack _); vm_compute; exact I).
  intros s t Hs Ht. rewrite Forall_forall in H. specialize (H s Hs). rewrite Forall_forall in H. exact (H t Ht).
Defined.
Lemma copies_root : same_root (tf_revisions left_copy) (tf_revisions right_copy).
Proof. intros s t Hs Ht. vm_compute in Hs, Ht. injection Hs as <-. injection Ht as <-. reflexivity. Defined.
Lemma left_known : left ∈ ids (tf_revisions file).
Proof. apply (bool_decide_unpack _). vm_compute. exact I. Defined.
End SyncDemo.

Section witnesses.
#[local] Existing Instance Toy.toy.
#[local] Existing Instance FileDemo.ascii_only.
#[local] Existing Instance ForkDemo.plain_hex.

Lemma extract_revision_complete_witness :
  length (tf_revisions SyncDemo.left_copy) < length (tf_revisions ForkDemo.file) /\
  exists copy, extract_revision ForkDemo.file ForkDemo.left = Ok copy.
Proof.
  split; [vm_compute; lia|].
  destruct (extract_revision_complete ForkDemo.file ForkDemo.left ForkDemo.fork_structure eq_refl SyncDemo.left_known) as (copy & H & _).
  exists copy. exact H.
Defined.

Lemma merge_history_union_witness :
  length (heads (tf_revisions SyncDemo.joined)) = 2 /\ structure_ok SyncDemo.joined.
Proof.
  split; [vm_compute; reflexivity|].
  exact (proj1 (merge_history_union _ _ _ _ _ _ SyncDemo.left_structure SyncDemo.joined_ok)).
Defined.

Lemma merge_history_accepts_witness :
  (exists m f', merge_history FileDemo.fresh SyncDemo.right_copy SyncDemo.context SyncDemo.left_copy = (Ok m, f')) \/
  (exists e k root new, merge_history FileDemo.fresh SyncDemo.right_copy SyncDemo.context SyncDemo.left_copy = (Err e, SyncDemo.left_copy) /\
     event_seal (FileDemo.fresh k) (N.of_nat k) (tf_file_id SyncDemo.left_copy) root new = Err e).
Proof.
  exact (merge_history_accepts FileDemo.fresh SyncDemo.right_copy SyncDemo.context SyncDemo.left_copy SyncDemo.left_structure
    SyncDemo.right_structure eq_refl eq_refl eq_refl eq_refl SyncDemo.copies_agree SyncDemo.copies_root).
Defined.

Lemma merge_history_idempotent_witness :
  exists relation, merge_history FileDemo.fresh SyncDemo.right_copy SyncDemo.context SyncDemo.joined =
    (Ok {| hm_relation := relation; hm_revisions_added := 0; hm_proofs_added := 0 |}, SyncDemo.joined).
Proof.
  exact (merge_history_idempotent FileDemo.fresh FileDemo.fresh SyncDemo.right_copy SyncDemo.context SyncDemo.context
    SyncDemo.left_copy SyncDemo.import SyncDemo.joined SyncDemo.left_structure SyncDemo.joined_ok).
Defined.
End witnesses.
