(* ===== verification/Snapshot.v ===== *)
(** * [src/src/file_history/snapshot.rs]: the portable event history

    [HistorySnapshot], its encoding, and when one is a point another history
    passed through. *)

From S2P Require Import Prelude Text Crypto Envelope HistoryCodec Event Revision RevisionGraph Policy Container FileOps Diff Merge ContainerCodec AutoMerge.

Definition SNAPSHOT_MAGIC : bytes := str "KQHS".
Definition SNAPSHOT_VERSION : byte := x01.

Record HistorySnapshot := { hs_file_id : bytes; hs_history_root : bytes; hs_events : list HistoryEvent }.

Section snapshot.
Context `{C : Crypto} `{U : Unicode}.

Definition history_snapshot (f : TrackedFile) : HistorySnapshot :=
  {| hs_file_id := tf_file_id f; hs_history_root := history_root f; hs_events := tf_events f |}.

Definition snapshot_encode (s : HistorySnapshot) : result bytes :=
  root ← verify_chain (hs_file_id s) (hs_events s);
  if negb (bool_decide (root = hs_history_root s)) then Err InvalidTrackedFile else
  count ← try_u32 (length (hs_events s));
  events ← encode_all event_encode (hs_events s);
  Ok (SNAPSHOT_MAGIC ++ [SNAPSHOT_VERSION] ++ hs_file_id s ++ hs_history_root s ++ be_bytes 4 count ++ events).

(** The fields in order; the version byte is read only after the magic matched. *)
Definition take_snapshot : parser HistorySnapshot :=
  magic ← take_fixed 4;
  if negb (bool_decide (magic = SNAPSHOT_MAGIC)) then fail InvalidTrackedFile else
  version ← take_byte;
  if negb (bool_decide (version = SNAPSHOT_VERSION)) then fail InvalidTrackedFile else
  file_id ← take_fixed 16;
  root ← take_fixed 32;
  events ← take_counted event_decode;
  mret {| hs_file_id := file_id; hs_history_root := root; hs_events := events |}.

Definition snapshot_decode (data : bytes) : result HistorySnapshot :=
  '(s, rest) ← take_snapshot data;
  if negb (bool_decide (rest = [])) then Err InvalidTrackedFile else
  root ← verify_chain (hs_file_id s) (hs_events s);
  if negb (bool_decide (root = hs_history_root s)) then Err InvalidTrackedFile else Ok s.

Definition is_prefix_of_events (s : HistorySnapshot) (id : bytes) (events : list HistoryEvent) : bool :=
  bool_decide (hs_file_id s = id)
  && (length (hs_events s) <=? length events)
  && bool_decide (take (length (hs_events s)) events = hs_events s)
  && ((bool_decide (hs_events s = []) && bool_decide (hs_history_root s = genesis_hash (hs_file_id s)))
      || bool_decide (ev_event_hash <$> last (hs_events s) = Some (hs_history_root s))).

Definition is_prefix_of (s : HistorySnapshot) (f : TrackedFile) : bool := is_prefix_of_events s (tf_file_id f) (tf_events f).

Definition is_prefix_of_snapshot (s later : HistorySnapshot) : bool := is_prefix_of_events s (hs_file_id later) (hs_events later).

Definition from_events (history_id : bytes) (events : list HistoryEvent) : result HistorySnapshot :=
  root ← verify_chain history_id events;
  Ok {| hs_file_id := history_id; hs_history_root := root; hs_events := events |}.

(** ** Facts *)

Record snapshot_wf (s : HistorySnapshot) : Prop := {
  sw_file_id : fixed 16 (hs_file_id s);
  sw_root : fixed 32 (hs_history_root s);
  sw_events : Forall event_wf (hs_events s) }.

(** What it takes for bytes to be the encoding of a snapshot. *)
Lemma snapshot_encode_Ok s b :
  snapshot_encode s = Ok b <->
  verify_chain (hs_file_id s) (hs_events s) = Ok (hs_history_root s) /\
  exists events, encode_all event_encode (hs_events s) = Ok events /\ (N.of_nat (length (hs_events s)) < u32_max)%N /\
    b = SNAPSHOT_MAGIC ++ [SNAPSHOT_VERSION] ++ hs_file_id s ++ hs_history_root s ++ be_bytes 4 (N.of_nat (length (hs_events s))) ++ events.
Proof.
  unfold snapshot_encode. rewrite bind_Ok. split.
  - intros (root & HV & H). case_bool_decide as E; [subst root|done]. cbn [negb] in H.
    split; [done|]. inv_ok. subst. eauto.
  - intros [HV (events & HE & HL & ->)]. exists (hs_history_root s). split; [done|]. rewrite bool_decide_true by done. cbn [negb].
    rewrite try_u32_small by done. run_enc. reflexivity.
Qed.

Lemma snapshot_decode_Ok data s :
  snapshot_decode data = Ok s <->
  take_snapshot data = Ok (s, []) /\ verify_chain (hs_file_id s) (hs_events s) = Ok (hs_history_root s).
Proof.
  unfold snapshot_decode. rewrite bind_Ok. split.
  - intros ([s' rest] & E & H). case_bool_decide as Hr; [subst rest|done]. cbn [negb] in H.
    apply bind_Ok in H as (root & HV & H). case_bool_decide as Hroot; [subst root|done]. cbn [negb] in H. by apply Ok_inj in H as <-.
  - intros [E HV]. exists (s, []). split; [done|]. rewrite bool_decide_true by done. cbn [negb]. rewrite HV. simpl.
    by rewrite bool_decide_true.
Qed.

(** the snapshot encoding is exact. A snapshot that encodes decodes to
    itself, and bytes that decode are the encoding of what they decode to, so a
    history has one snapshot and trailing or altered bytes are refused. *)
Theorem snapshot_codec s data :
  snapshot_wf s /\ snapshot_encode s = Ok data <-> snapshot_decode data = Ok s.
Proof.
  rewrite snapshot_encode_Ok, snapshot_decode_Ok. split.
  - intros [[] [HV (events & HE & HL & ->)]]. split; [|done]. unfold take_snapshot.
    erewrite parser_bind_eq by (by apply rt_fixed). rewrite bool_decide_true by done. cbn [negb app].
    erewrite parser_bind_eq by apply rt_byte. rewrite bool_decide_true by done. cbn [negb].
    erewrite parser_bind_eq by (by apply rt_fixed). erewrite parser_bind_eq by (by apply rt_fixed).
    rewrite <- (app_nil_r events). erewrite parser_bind_eq by (by eapply (rt_counted event_codec)). by destruct s.
  - intros [E HV]. unfold take_snapshot in E. inv_parser. case_bool_decide as Hm; [|by inv_parser]. cbn [negb] in E.
    inv_parser. case_bool_decide as Hv; [|by inv_parser]. cbn [negb] in E. inv_parser. subst.
    apply (take_counted_canonical event_codec) in H3 as (We & ne & be & ?%try_u32_Ok & Ee & ->). dec_enc. destruct_and?. subst.
    split; [by split|]. split; [done|]. exists be. split_and!; try done. by rewrite app_nil_r.
Qed.

Lemma is_prefix_of_events_iff s id events :
  is_prefix_of_events s id events = true <->
  hs_file_id s = id /\ hs_events s `prefix_of` events /\
  hs_history_root s = from_option ev_event_hash (genesis_hash (hs_file_id s)) (last (hs_events s)).
Proof.
  unfold is_prefix_of_events. rewrite !andb_true_iff, orb_true_iff, andb_true_iff, !bool_decide_eq_true, Nat.leb_le.
  assert (hs_events s `prefix_of` events <-> length (hs_events s) <= length events /\ take (length (hs_events s)) events = hs_events s) as ->.
  { split; [intros [k ->]; rewrite length_app, take_app_length; split; [lia|done]|].
    intros [_ E]. rewrite <- E at 1. exists (drop (length (hs_events s)) events). by rewrite take_drop. }
  assert (hs_events s = [] /\ hs_history_root s = genesis_hash (hs_file_id s) \/ ev_event_hash <$> last (hs_events s) = Some (hs_history_root s)
    <-> hs_history_root s = from_option ev_event_hash (genesis_hash (hs_file_id s)) (last (hs_events s))) as ->; [|tauto].
  destruct (hs_events s) as [|e l _] using rev_ind; simpl; [split; [by intros [[_ ?]|?]|by left]|]. rewrite last_snoc. simpl.
  split; [intros [[? _]|?]; [by destruct l|congruence]|]. intros ->. by right.
Qed.

(** a snapshot taken from a file stays a point of its history. It is a prefix of
    every later state of that file, the later file's root chain passes through the
    snapshot's root, and a snapshot that verifies against a verified file is the
    snapshot of a history whose chain itself verifies. *)
Theorem snapshot_prefix f f' s :
  structure_ok f -> structure_ok f' -> extends f f' ->
  is_prefix_of (history_snapshot f) f' = true /\ passes_through f' (history_root f) = true /\
  (is_prefix_of s f' = true ->
     verify_chain (hs_file_id s) (hs_events s) = Ok (hs_history_root s) /\ passes_through f' (hs_history_root s) = true).
Proof.
  intros S S' X. assert (forall t, is_prefix_of t f' = true ->
    verify_chain (hs_file_id t) (hs_events t) = Ok (hs_history_root t) /\ passes_through f' (hs_history_root t) = true) as H.
  { intros t (Hid & [k Hk] & Hr)%is_prefix_of_events_iff. pose proof (so_chain f' S') as HV. rewrite Hk, <- Hid in HV.
    apply verify_chain_prefix in HV as [p HV]. pose proof (verify_chain_root _ _ _ HV) as ->. rewrite <- Hr in HV. split; [done|].
    unfold passes_through. rewrite Hr, <- Hid, Hk, existsb_app. destruct (hs_events t) as [|e l _] using rev_ind; simpl.
    - by rewrite bool_decide_true.
    - rewrite last_snoc, existsb_app. simpl. rewrite (bool_decide_true (ev_event_hash e = ev_event_hash e)) by done.
      by rewrite !orb_true_r. }
  assert (is_prefix_of (history_snapshot f) f' = true) as HP.
  { apply is_prefix_of_events_iff. split; [symmetry; apply X|]. split; [apply X|done]. }
  split; [done|]. split; [by apply (H (history_snapshot f))|apply H].
Qed.
End snapshot.

Module SnapshotDemo.
Import Toy FileDemo ForkDemo.
Definition later : TrackedFile := Eval vm_compute in (append fresh (event None E.FileRenamed) FileDemo.file).2.
Definition data : bytes := Eval vm_compute in match snapshot_encode (history_snapshot FileDemo.file) with Ok b => b | Err _ => [] end.

Example snapshot_decodes : snapshot_decode data = Ok (history_snapshot FileDemo.file).
Proof. vm_compute. reflexivity. Qed.
Lemma later_structure : structure_ok later.
Proof. apply verify_structure_iff. vm_compute. reflexivity. Defined.
Lemma later_extends : extends FileDemo.file later.
Proof.
  split; try reflexivity; simpl; try (exists []; reflexivity). exists (drop 1 (tf_events later)). vm_compute. reflexivity.
Defined.
End SnapshotDemo.

Lemma snapshot_prefix_witness :
  is_prefix_of (C := Toy.toy) (history_snapshot (C := Toy.toy) FileDemo.file) SnapshotDemo.later = true.
Proof.
  exact (proj1 (snapshot_prefix (C := Toy.toy) (U := FileDemo.ascii_only) FileDemo.file SnapshotDemo.later
    (history_snapshot (C := Toy.toy) FileDemo.file) FileDemo.file_structure SnapshotDemo.later_structure SnapshotDemo.later_extends)).
Defined.
