(* ===== verification/Lifecycle.v ===== *)
(** * The life of a tracked file

    Every operation of the library on a tracked file, as one step relation, and
    what holds of every file that can come about: it verifies, unless a caller
    appended the destruction of content that is there, its revision graph and its
    events only ever grow, and its content, once destroyed, is gone. *)

From S2P Require Import Prelude Text Crypto Envelope HistoryCodec Authority Signing Event Revision RevisionGraph Policy Container FileOps Diff Merge ContainerCodec Trust AutoMerge Expiry Resolve Sync.

Section lifecycle.
Context `{C : Crypto} `{U : Unicode} `{HX : Hex}.

(** The event that says the content of this file is gone, and the one that says so of a linked
    gate. The callers in the repository append the second kind only; [append] takes both. *)
Definition truthful (new : NewEvent) : Prop := ne_event_type new = E.ContentDestroyed -> exists v, (str "gate", v) ∈ ne_details new.
Definition anything (new : NewEvent) : Prop := True.

(** The record says the content was destroyed, and some of it is there. *)
Definition false_tombstone (f : TrackedFile) : Prop := is_destroyed f = true /\ exists s, s ∈ tf_revisions f /\ sr_payload s <> None.

(** One call of an operation, whatever it returns. [append] is the public one, with which callers
    record events of their own: those that meet [told]. *)
Inductive step (told : NewEvent -> Prop) (f : TrackedFile) : TrackedFile -> Prop :=
| step_check_in new payload : step told f (check_in new payload f).2
| step_append fresh new : told new -> step told f (append fresh new f).2
| step_sign_event sequence identity label secret : step told f (sign_event sequence identity label secret f).2
| step_sign_revision id identity label secret : step told f (sign_revision id identity label secret f).2
| step_finalize_revision id identity label secret : step told f (finalize_revision id identity label secret f).2
| step_countersign_checked id identity label secret ctx : step told f (countersign_revision_checked id identity label secret ctx f).2
| step_countersign id identity label secret : step told f (countersign_revision id identity label secret f).2
| step_coauthor id identity label secret ctx : step told f (coauthor_revision id identity label secret ctx f).2
| step_attach id hash identity label signature : step told f (attach_coauthor_signature id hash identity label signature f).2
| step_auto_merge fresh left right allowed new : step told f (auto_merge fresh left right allowed new f).2
| step_resolve_divergence fresh left right allowed new policy ctx :
    step told f (resolve_divergence fresh left right allowed new policy ctx f).2
| step_resolve_conflict fresh resolution new policy ctx : step told f (resolve_conflict fresh resolution new policy ctx f).2
| step_reject_merge fresh merge actor policy ctx : step told f (reject_merge fresh merge actor policy ctx f).2
| step_schedule_expiry fresh at_ context : step told f (schedule_expiry fresh at_ context f).2
| step_destroy_content fresh reason context : step told f (destroy_content fresh reason context f).2
| step_expire_if_due fresh now context : step told f (expire_if_due fresh now context f).2
| step_record_access fresh action context : step told f (record_expired_access fresh action context f).2
| step_merge_history fresh other context : step told f (merge_history fresh other context f).2.

(** A file that came about: new, decoded, extracted from one that did, or one step later. *)
Inductive reachable (told : NewEvent -> Prop) : TrackedFile -> Prop :=
| reachable_new file_id name : reachable told (new_file file_id name)
| reachable_with_policy file_id name policy : reachable told (with_policy file_id name policy)
| reachable_decoded data f : file_decode data = Ok f -> reachable told f
| reachable_extracted f id copy : reachable told f -> extract_revision f id = Ok copy -> reachable told copy
| reachable_step f f' : reachable told f -> step told f f' -> reachable told f'.

(** What a step may do to the record: revisions and events are kept in order, and
    payloads are kept or all cleared with the destruction on record. *)
Record kept_record (f f' : TrackedFile) : Prop := {
  kr_file_id : tf_file_id f' = tf_file_id f;
  kr_logical_name : tf_logical_name f' = tf_logical_name f;
  kr_policy : tf_policy f' = tf_policy f;
  kr_revisions : map sr_revision (tf_revisions f) `prefix_of` map sr_revision (tf_revisions f');
  kr_events : tf_events f `prefix_of` tf_events f';
  kr_payloads : tf_revisions f `prefix_of` tf_revisions f' \/ is_destroyed f' = true;
}.

#[global] Instance kept_record_preorder : PreOrder kept_record.
Proof.
  split; [intros f; split; try done; by left|]. intros f g h [] []. split; try congruence; try (by etrans).
  destruct kr_payloads0 as [HP|HD].
  - destruct kr_payloads1 as [HQ|HD]; [left; by etrans|by right].
  - right. destruct kr_events1 as [k E]. unfold is_destroyed in *. rewrite E, existsb_app. by rewrite HD.
Qed.

Lemma extends_kept f f' : extends f f' -> kept_record f f'.
Proof. intros []. split; try done; [|by left]. destruct ex_revisions as [k ->]. rewrite map_app. by apply prefix_app_r. Qed.

(** ** Operations that touch the proofs only *)

Definition only_proofs {A} (m : fileM A) : Prop :=
  forall f, exists proofs event_proofs, (m f).2 = set_event_proofs event_proofs (set_proofs proofs f).

Lemma only_proofs_reads {A} (m : fileM A) : reads m -> only_proofs m.
Proof. intros H f. exists (tf_proofs f), (tf_event_proofs f). rewrite H. by destruct f. Qed.

Lemma only_proofs_bind {A B} (m : fileM A) (k : A -> fileM B) :
  only_proofs m -> (forall a, only_proofs (k a)) -> only_proofs (a ← m; k a).
Proof.
  intros Hm Hk f. unfold mbind, fileM_bind. destruct (Hm f) as (ps & eps & E).
  destruct (m f) as [[a|e] f1]; simpl in E; subst; [|by exists ps, eps].
  destruct (Hk a (set_event_proofs eps (set_proofs ps f))) as (ps' & eps' & E'). exists ps', eps'. by rewrite E'.
Qed.

Lemma only_proofs_add_proof p : only_proofs (add_proof p).
Proof.
  apply only_proofs_bind; [by apply only_proofs_reads|intros f]. destruct (existsb _ _); [by apply only_proofs_reads|].
  apply only_proofs_bind; [|intros _; by apply only_proofs_reads]. intros f'. simpl.
  exists (make_room (length (tf_proofs f)) p (tf_proofs f) ++ [p]), (tf_event_proofs f'). by destruct f'.
Qed.

Lemma only_proofs_kept {A} (m : fileM A) f : only_proofs m -> kept_record f (m f).2.
Proof. intros H. destruct (H f) as (ps & eps & ->). split; try done. by left. Qed.
End lifecycle.

(** Unfold a signing operation down to [add_proof] and the reads around it. *)
Ltac only_proofs_tac :=
  repeat first
    [ apply only_proofs_add_proof
    | apply only_proofs_reads; done
    | apply only_proofs_bind; [|intros ?]
    | match goal with |- only_proofs (if ?b then _ else _) => destruct b end ].

Section steps.
Context `{C : Crypto} `{U : Unicode} `{HX : Hex}.

Lemma sign_event_proofs sequence identity label secret : only_proofs (sign_event sequence identity label secret).
Proof.
  unfold sign_event. apply only_proofs_bind; [by apply only_proofs_reads|intros f]. apply only_proofs_bind; [by apply only_proofs_reads|intros e].
  destruct (_ || _); [by apply only_proofs_reads|]. intros f'. by eexists (tf_proofs f'), _; destruct f'.
Qed.

Lemma sign_revision_proofs id identity label secret : only_proofs (sign_revision id identity label secret).
Proof. unfold sign_revision. only_proofs_tac. Qed.

Lemma finalize_revision_proofs id identity label secret : only_proofs (finalize_revision id identity label secret).
Proof. unfold finalize_revision. only_proofs_tac. Qed.

Lemma countersign_checked_proofs id identity label secret ctx : only_proofs (countersign_revision_checked id identity label secret ctx).
Proof. unfold countersign_revision_checked. only_proofs_tac. Qed.

Lemma coauthor_revision_proofs id identity label secret ctx : only_proofs (coauthor_revision id identity label secret ctx).
Proof. unfold coauthor_revision. only_proofs_tac. Qed.

Lemma attach_coauthor_proofs id hash identity label signature : only_proofs (attach_coauthor_signature id hash identity label signature).
Proof. unfold attach_coauthor_signature. only_proofs_tac. Qed.

Lemma adds_reject_merge fresh merge actor policy ctx : adds (reject_merge fresh merge actor policy ctx).
Proof.
  unfold reject_merge. apply adds_bind; [auto with adds|intros f]. apply adds_bind; [auto with adds|intros s].
  destruct (sr_parents s) as [|l [|r [|? ?]]]; auto with adds.
  apply adds_bind; [destruct (_ || _); auto with adds|intros refused]. destruct refused; [auto with adds|].
  apply adds_bind; [auto with adds|intros label]. apply adds_bind; [auto with adds|intros owner].
  apply adds_bind; [destruct owner; auto with adds|intros permitted]. destruct (negb permitted); auto with adds.
Qed.

Lemma adds_schedule_expiry fresh at_ context : adds (schedule_expiry fresh at_ context).
Proof. unfold schedule_expiry. apply adds_bind; [auto with adds|intros f]. destruct (_ || _); auto with adds. Qed.

Lemma adds_record_expired_access fresh action context : adds (record_expired_access fresh action context).
Proof. unfold record_expired_access. auto with adds. Qed.

(** What every call does but an [append] of the destruction itself. *)
Record moved (f f' : TrackedFile) : Prop := {
  mv_structure : structure_ok f -> structure_ok f';
  mv_kept : structure_ok f \/ is_destroyed f = true -> kept_record f f';
  mv_destroyed : is_destroyed f = true -> tf_revisions f' = tf_revisions f;
}.

Lemma adds_moved {A} (m : fileM A) f : adds m -> moved f (m f).2.
Proof. intros Hm. destruct (Hm f) as [? ?%extends_kept ?]. by split. Qed.

Lemma proofs_moved {A} (m : fileM A) f : (structure_ok f -> safe_run f (m f)) -> only_proofs m -> moved f (m f).2.
Proof.
  intros HS Hp. split; [intros S; by apply HS|intros _; by apply only_proofs_kept|]. by destruct (Hp f) as (ps & eps & ->).
Qed.

(** A call that is refused once the content is gone. *)
Lemma refused_moved {A} (m : fileM A) f : (is_destroyed f = true -> (m f).2 = f) ->
  (structure_ok f -> structure_ok (m f).2 /\ kept_record f (m f).2) -> moved f (m f).2.
Proof.
  intros HD HS. split; [intros S; by apply HS| |intros D; by rewrite HD]. intros [S|D]; [by apply HS|by rewrite HD].
Qed.

Lemma destroy_moved fresh reason context f : moved f (destroy_content fresh reason context f).2.
Proof.
  apply refused_moved; [intros D; unfold destroy_content, mbind, fileM_bind, get_file; by rewrite D|]. intros S.
  destruct (destroy_content fresh reason context f) as [r f'] eqn:E. apply destroy_content_run in E; [|done].
  destruct r; [|by destruct E as [-> _]]. destruct E as (S' & _ & D & _ & e1 & e2 & -> & _). split; [done|].
  split; simpl; try done; [|by apply prefix_app_r|by right]. by rewrite map_map.
Qed.

Lemma expire_moved fresh now context f : moved f (expire_if_due fresh now context f).2.
Proof.
  unfold expire_if_due, mbind, fileM_bind, get_file, mret, fileM_ret. destruct (_ || _); [by split|].
  pose proof (destroy_moved fresh (str "scheduled expiry passed") context f) as H. by destruct (destroy_content _ _ _ f) as [[n|e] f'].
Qed.

Lemma merge_history_moved fresh other context f : moved f (merge_history fresh other context f).2.
Proof.
  apply refused_moved.
  - intros D. unfold merge_history, mbind, fileM_bind, get_file. destruct (_ || _); [done|]. by rewrite D.
  - intros S. destruct (merge_history fresh other context f) as [r f'] eqn:E. apply merge_history_result in E; [|done].
    destruct r; [|by subst]. destruct E as (? & ?%extends_kept & _). done.
Qed.

(** [append] itself: the record grows, and the file verifies or has become a false tombstone. *)
Lemma append_any fresh new f : let f' := (append fresh new f).2 in
  kept_record f f' /\ tf_revisions f' = tf_revisions f /\ (structure_ok f -> structure_ok f' \/ false_tombstone f').
Proof.
  intros f'. split; [apply extends_kept, append_extends|]. unfold f'. destruct (append fresh new f) as [r f1] eqn:E. apply append_spec in E.
  destruct r as [e|]; [|subst; auto]. destruct E as (-> & Hs & HL & _ & Hid). split; [done|]. intros S.
  destruct (decide (Forall (fun s => sr_payload s = None) (tf_revisions f))) as [HN|HN]; cycle 1.
  - apply not_Forall_Exists, Exists_exists in HN as (s & Hin & Hp); [|apply _]. destruct (destroys_this_content e) eqn:Ed.
    + right. split; [|by exists s]. unfold is_destroyed. simpl. rewrite existsb_app. simpl. by rewrite Ed, orb_true_r.
    + left. apply structure_add_event; try done. by rewrite Ed.
  - left. apply structure_add_event; try done. intros _ s Hin. by apply (proj1 (Forall_forall _ _) HN).
Qed.

Lemma append_truthful fresh new f : truthful new -> moved f (append fresh new f).2.
Proof.
  intros Ht. destruct (append_any fresh new f) as (HK & HR & _). split; [|done..]. intros S. apply append_safe; auto.
Qed.

(** Every call is of one kind or the other. *)
Lemma step_cases told f f' : step told f f' -> moved f f' \/ exists fresh new, told new /\ f' = (append fresh new f).2.
Proof.
  intros []; eauto 6 using merge_history_moved, destroy_moved, expire_moved, adds_moved, adds_check_in, adds_reject_merge,
    adds_schedule_expiry, adds_record_expired_access, adds_atomically, adds_auto_merge_steps,
    adds_resolve_divergence_steps, adds_resolve_conflict_steps, proofs_moved, sign_event_safe, sign_event_proofs,
    sign_revision_safe, sign_revision_proofs, finalize_revision_safe, finalize_revision_proofs,
    countersign_revision_checked_safe, countersign_checked_proofs, coauthor_revision_safe, coauthor_revision_proofs,
    attach_coauthor_signature_safe, attach_coauthor_proofs.
Qed.

Lemma kept_destroyed f f' : kept_record f f' -> is_destroyed f = true -> is_destroyed f' = true.
Proof. intros K D. destruct (kr_events _ _ K) as [k E]. unfold is_destroyed in *. by rewrite E, existsb_app, D. Qed.

Definition sound (f : TrackedFile) : Prop := structure_ok f \/ false_tombstone f.

Lemma step_sound told f f' : sound f -> step told f f' ->
  sound f' /\ kept_record f f' /\ (is_destroyed f = true -> tf_revisions f' = tf_revisions f).
Proof.
  intros HS Hs. assert (kept_record f f' /\ (is_destroyed f = true -> tf_revisions f' = tf_revisions f) /\ (structure_ok f -> sound f')) as (HK & HR & HF).
  { apply step_cases in Hs as [[H1 H2 H3]|(fresh & new & _ & ->)].
    - split; [apply H2; destruct HS as [?|[? _]]; auto|]. split; [done|]. intros S. left. auto.
    - destruct (append_any fresh new f) as (? & HR & ?). split_and!; [done|by rewrite HR|done]. }
  split_and!; [|done..]. destruct HS as [S|[D (s & Hs' & Hp)]]; [auto|]. right. split; [by eapply kept_destroyed|]. exists s. by rewrite HR.
Qed.

Lemma steps_sound told f f' : sound f -> rtc (step told) f f' ->
  sound f' /\ kept_record f f' /\ (is_destroyed f = true -> tf_revisions f' = tf_revisions f).
Proof.
  intros S H. revert S. induction H as [|f g h Hs _ IH]; intros S; [done|].
  apply step_sound in Hs as (S' & K & R); [|done]. destruct (IH S') as (S'' & K' & R'). split_and!; [done|by etrans|].
  intros D. rewrite R' by (by eapply kept_destroyed). auto.
Qed.

(** Whatever holds of verified files and is kept by steps holds of every reachable file. *)
Lemma reachable_ind_structure told (P : TrackedFile -> Prop) f : (forall f, structure_ok f -> P f) ->
  (forall f f', P f -> step told f f' -> P f') -> reachable told f -> P f.
Proof.
  intros HP Hstep. induction 1 as [file_id name|file_id name policy|data f Hd|f id copy _ _ He|f g _ IH Hs].
  - apply HP. split; try done; [by intros s ?%elem_of_nil|by intros e id ?%elem_of_nil].
  - apply HP. split; try done; [by intros s ?%elem_of_nil|by intros e id ?%elem_of_nil].
  - by apply HP; apply file_decode_Ok in Hd as [_ ?].
  - apply HP. unfold extract_revision in He. destruct (is_destroyed f); [done|]. inv_ok. subst.
    match goal with H : verify_structure (pruned_copy _ _) = Ok _ |- _ => by apply verify_structure_Ok in H as [? _] end.
  - by eapply Hstep.
Qed.

Lemma reachable_sound told f : reachable told f -> sound f.
Proof. apply reachable_ind_structure; [by left|]. intros g h S Hs. by apply (step_sound told g h S Hs). Qed.

Lemma reachable_truthful f : reachable truthful f -> structure_ok f.
Proof.
  apply reachable_ind_structure; [done|]. intros g h S [Hm|(fresh & new & Ht & ->)]%step_cases; [by apply Hm|by apply append_truthful].
Qed.

Lemma structure_verifies f : structure_ok f -> verify_structure f = Ok (history_root f).
Proof. intros S. by apply verify_structure_Ok. Qed.

Lemma false_tombstone_refused f : false_tombstone f -> exists e, verify_structure f = Err e /\ file_encode f = Err e.
Proof.
  intros [D (s & Hs & Hp)]. unfold file_encode. destruct (verify_structure f) as [root|e] eqn:E; [|by exists e].
  apply verify_structure_Ok in E as [S _]. by apply (so_payloads f S s Hs) in D.
Qed.

(** C1: every file that can come about verifies. Whatever sequence of operations,
    successful or failing, made it (check-ins, events, signatures, automatic
    merges, conflict handling, expiry, imports, extraction, decoding), the
    structural verification accepts it, as long as no caller appends, without naming a gate,
    the destruction of this file's content. [append] does not refuse that event; with it, and
    with nothing else, a file can come about that says its content is destroyed and still
    holds some, and that one neither verifies nor encodes. *)
Theorem reachable_verifies f :
  (reachable truthful f -> verify_structure f = Ok (history_root f)) /\
  (reachable anything f -> verify_structure f = Ok (history_root f) \/
     false_tombstone f /\ exists e, verify_structure f = Err e /\ file_encode f = Err e).
Proof.
  split; [by intros ?%reachable_truthful%structure_verifies|].
  intros [?%structure_verifies|H]%reachable_sound; [by left|right]. by split; [|apply false_tombstone_refused].
Qed.

(** C39: the record is append-only. However long a file lives and whatever events are
    appended to it, its identity, name and policy never change, every revision's
    description and every event stays in place in order, every payload stays as it was
    unless the destruction is on record, and once it is, no revision and no content is
    ever added: a file that verified as destroyed never holds content again. *)
Theorem record_append_only told f f' :
  reachable told f -> rtc (step told) f f' ->
  kept_record f f' /\
  (is_destroyed f = true -> tf_revisions f' = tf_revisions f /\
     (verify_structure f = Ok (history_root f) -> forall s, s ∈ tf_revisions f' -> sr_payload s = None)).
Proof.
  intros S%reachable_sound H. apply steps_sound in H as (_ & K & R); [|done]. split; [done|]. intros D. split; [auto|].
  intros [V _]%verify_structure_Ok s Hs. rewrite R in Hs by done. by apply (so_payloads f V s Hs).
Qed.
End steps.

Module LifecycleDemo.
Import Toy FileDemo ForkDemo.

(** The demonstration file, scheduled, then expired. *)
Lemma tombstone_steps told : rtc (step told) FileDemo.file ExpiryDemo.tombstone.
Proof.
  pose proof (step_schedule_expiry told FileDemo.file fresh ExpiryDemo.at_ ExpiryDemo.context) as H1.
  pose proof (step_expire_if_due told ExpiryDemo.scheduled fresh ExpiryDemo.now ExpiryDemo.context) as H2.
  rewrite ExpiryDemo.scheduled_ok in H1. rewrite ExpiryDemo.tombstone_ok in H2.
  eapply rtc_l; [exact H1|]. eapply rtc_l; [exact H2|]. apply rtc_refl.
Defined.

Lemma reachable_steps told f f' : reachable told f -> rtc (step told) f f' -> reachable told f'.
Proof. intros H HR. induction HR as [|f g h Hs _ IH]; [done|]. apply IH. by eapply reachable_step. Defined.

Lemma tombstone_reachable : reachable truthful ExpiryDemo.tombstone.
Proof. eapply reachable_steps; [exact (reachable_decoded truthful encoded FileDemo.file file_decodes)|apply tombstone_steps]. Defined.

(** A caller appends the destruction of the content that the file holds. *)
Definition denial : NewEvent := expiry_event ExpiryDemo.context E.ContentDestroyed Success [].
Definition denied_file : TrackedFile := Eval vm_compute in (append fresh denial FileDemo.file).2.
Lemma denied_reachable : reachable anything denied_file.
Proof.
  apply (reachable_step anything FileDemo.file); [exact (reachable_decoded anything encoded FileDemo.file file_decodes)|].
  pose proof (step_append anything FileDemo.file fresh denial I) as H. assert ((append fresh denial FileDemo.file).2 = denied_file) as E by (vm_compute; reflexivity).
  rewrite E in H. exact H.
Defined.
End LifecycleDemo.

Section witnesses.
#[local] Existing Instance Toy.toy.
#[local] Existing Instance FileDemo.ascii_only.
#[local] Existing Instance ForkDemo.plain_hex.

Lemma reachable_verifies_witness : verify_structure ExpiryDemo.tombstone = Ok (history_root ExpiryDemo.tombstone) /\
  false_tombstone LifecycleDemo.denied_file /\ exists e, file_encode LifecycleDemo.denied_file = Err e.
Proof.
  split; [exact (proj1 (reachable_verifies ExpiryDemo.tombstone) LifecycleDemo.tombstone_reachable)|].
  destruct (proj2 (reachable_verifies LifecycleDemo.denied_file) LifecycleDemo.denied_reachable) as [E|(H & e & _ & E)].
  - exfalso. vm_compute in E. discriminate E.
  - split; [exact H|]. exists e. exact E.
Defined.

Lemma record_append_only_witness : is_destroyed ExpiryDemo.tombstone = true /\ kept_record FileDemo.file ExpiryDemo.tombstone.
Proof.
  split; [vm_compute; reflexivity|].
  exact (proj1 (record_append_only anything FileDemo.file ExpiryDemo.tombstone (reachable_decoded anything FileDemo.encoded FileDemo.file FileDemo.file_decodes)
    (LifecycleDemo.tombstone_steps anything))).
Defined.
End witnesses.
