(* ===== verification/Pss.v ===== *)
(** * [src/src/pss.rs]: proactive refresh of Shamir shares

    The Shamir scheme itself ([blahaj]) is third-party code: a dealer and a
    recovery function with the laws of polynomial sharing over GF(256). A raw
    share is its x-coordinate followed by one y byte per secret byte. *)

From S2P Require Import Prelude Text.
From stdpp Require Import gmap.

(** [Sharks(t).dealer_rng(secret, rng).take(255)] and [Sharks(t).recover(shares)];
    the first argument of [deal] is the randomness. *)
Class Shamir := {
  deal : nat -> N -> bytes -> list bytes;
  recover : N -> list bytes -> option bytes;
  (** [Share::try_from(bytes).is_ok()] *)
  share_ok : bytes -> bool;
}.

Definition byte_xor (a b : byte) : byte := byte_of_N (N.lxor (Byte.to_N a) (Byte.to_N b)).

(** [a.iter().zip(b).map(|(l, r)| l ^ r)] *)
Definition xor_bytes (a b : bytes) : bytes := zip_with byte_xor a b.

(** The x-coordinate of share number [i] of a dealing. *)
Definition coordinate (i : nat) : byte := byte_of_N (N.of_nat (S i)).

(** Two shares at one x-coordinate, and their sum there. *)
Definition same_point (a b : bytes) : Prop := head a = head b /\ length a = length b.
Definition sum_share (a b : bytes) : bytes :=
  match a, b with x :: a, _ :: b => x :: xor_bytes a b | _, _ => [] end.

Class ShamirLaws (SH : Shamir) : Prop := {
  (** A dealing has one share at each of the 255 non-zero coordinates. *)
  deal_length rnd t secret : (1 <= t)%N -> length (deal rnd t secret) = 255;
  deal_share rnd t secret i share :
    (1 <= t)%N -> deal rnd t secret !! i = Some share -> exists y, share = coordinate i :: y /\ length y = length secret;
  (** A coordinate and at least one byte are a share. *)
  share_ok_long share : 2 <= length share -> share_ok share = true;
  (** Any [t] distinct shares of a dealing give the secret back. *)
  recover_deal rnd t secret picked :
    (1 <= t)%N -> secret <> [] -> NoDup picked -> picked ⊆ deal rnd t secret -> (t <= N.of_nat (length picked))%N ->
    recover t picked = Some secret;
  (** Recovery needs shares of one length, a byte longer than the secret. *)
  recover_length t shares s : recover t shares = Some s -> Forall (fun share => length share = S (length s)) shares;
  (** Recovery is linear: the sum of two sharings shares the sum of the secrets. *)
  recover_sum t a b s z :
    Forall2 same_point a b -> recover t a = Some s -> recover t b = Some z ->
    recover t (zip_with sum_share a b) = Some (xor_bytes s z);
}.

(** ** The operations *)

Fixpoint require_distinct_nonzero (seen : gset byte) (xs : list byte) : result unit :=
  match xs with
  | [] => Ok tt
  | x :: xs =>
      if bool_decide (x = x00) || bool_decide (x ∈ seen) then Err ShareShapeMismatch
      else require_distinct_nonzero ({[x]} ∪ seen) xs
  end.
Definition require_distinct_nonzero_xs (xs : list byte) : result unit := require_distinct_nonzero ∅ xs.

Definition add_shares (a b : bytes) : result bytes :=
  match a, b with
  | xa :: a, xb :: b =>
      if (length (xa :: a) <? 2) || negb (length (xa :: a) =? length (xb :: b)) || negb (bool_decide (xa = xb))
      then Err ShareShapeMismatch
      else Ok (xa :: xor_bytes a b)
  | _, _ => Err ShareShapeMismatch
  end.
Definition apply_deltas (share delta : bytes) : result bytes := add_shares share delta.

Section pss.
Context `{SH : Shamir}.

(** The shares of [all] at the wanted coordinates; a raw share is never empty. *)
Definition pick_wanted (wanted : gset byte) (all : list bytes) : gmap byte bytes :=
  foldl (fun by_x share => match share with
                           | x :: _ => if decide (x ∈ wanted) then <[x := share]> by_x else by_x
                           | [] => by_x
                           end) ∅ all.

Definition generate_zero_deltas (rnd : nat) (threshold : N) (secret_len : nat) (xs : list byte) : result (gmap byte bytes) :=
  if (threshold <? 2)%N || (secret_len =? 0) || bool_decide (xs = []) then Err ShareShapeMismatch else
  _ ← require_distinct_nonzero_xs xs;
  let wanted : gset byte := list_to_set xs in
  let by_x := pick_wanted wanted (deal rnd threshold (replicate secret_len x00)) in
  if negb (size by_x =? size wanted) then Err ShareShapeMismatch else Ok by_x.

(** [for (&x, delta) in &deltas { .. }]: each round touches one key of its own. *)
Fixpoint absorb_deltas (combined : gmap byte bytes) (deltas : list (byte * bytes)) : result (gmap byte bytes) :=
  match deltas with
  | [] => Ok combined
  | (x, delta) :: deltas =>
      acc ← ok_or (combined !! x) ShareShapeMismatch;
      sum ← apply_deltas acc delta;
      absorb_deltas (<[x := sum]> combined) deltas
  end.

Fixpoint combine_rounds (rnd : nat -> nat) (rounds : nat) (threshold : N) (secret_len : nat) (xs : list byte)
    (combined : gmap byte bytes) : result (gmap byte bytes) :=
  match rounds with
  | O => Ok combined
  | S rounds =>
      deltas ← generate_zero_deltas (rnd rounds) threshold secret_len xs;
      combined ← absorb_deltas combined (map_to_list deltas);
      combine_rounds rnd rounds threshold secret_len xs combined
  end.

(** The last loop writes the shares one by one: what it has written stays on an error. *)
Fixpoint write_back (combined : gmap byte bytes) (shares : list bytes) : result unit * list bytes :=
  match shares with
  | [] => (Ok tt, [])
  | share :: shares =>
      match (delta ← ok_or (x ← head share; combined !! x) ShareShapeMismatch; apply_deltas share delta) with
      | Err e => (Err e, share :: shares)
      | Ok share => let '(r, shares) := write_back combined shares in (r, share :: shares)
      end
  end.

(** The coordinates, after every share's length was checked. *)
Fixpoint coordinates (secret_len : nat) (shares : list bytes) : result (list byte) :=
  match shares with
  | [] => Ok []
  | share :: shares =>
      if negb (length share =? secret_len + 1) then Err ShareShapeMismatch else
      xs ← coordinates secret_len shares;
      x ← ok_or (head share) ShareShapeMismatch;
      Ok (x :: xs)
  end.

Definition refresh_plan (rnd : nat -> nat) (shares : list bytes) (threshold : N) : result (gmap byte bytes) :=
  if bool_decide (shares = []) || (N.of_nat (length shares) <? threshold)%N then Err ShareShapeMismatch else
  let secret_len := from_option length 0 (head shares) - 1 in
  if secret_len =? 0 then Err ShareShapeMismatch else
  xs ← coordinates secret_len shares;
  _ ← require_distinct_nonzero_xs xs;
  if (threshold <? 2)%N then Err ShareShapeMismatch else
  let zero : gmap byte bytes := foldl (fun m x => <[x := x :: replicate secret_len x00]> m) ∅ xs in
  combine_rounds rnd (length shares) threshold secret_len xs zero.

Definition refresh_among (rnd : nat -> nat) (shares : list bytes) (threshold : N) : result unit * list bytes :=
  match refresh_plan rnd shares threshold with
  | Err e => (Err e, shares)
  | Ok combined => write_back combined shares
  end.
End pss.

(** ** Exclusive or *)

Lemma byte_xor_assoc a b c : byte_xor a (byte_xor b c) = byte_xor (byte_xor a b) c.
Proof.
  apply byte_to_N_inj. unfold byte_xor. rewrite !to_N_byte_of_N.
  assert (forall n, (n mod 256 = N.land n (N.ones 8))%N) as Hm by (intros n; by rewrite N.land_ones).
  rewrite !Hm. apply N.bits_inj. intros i. rewrite !N.land_spec, !N.lxor_spec, !N.land_spec, !N.lxor_spec.
  destruct (N.testbit (N.ones 8) i); rewrite ?andb_true_r, ?andb_false_r; [|done]. apply xorb_assoc_reverse || by rewrite xorb_assoc.
Qed.

Lemma byte_xor_comm a b : byte_xor a b = byte_xor b a.
Proof. unfold byte_xor. by rewrite N.lxor_comm. Qed.

Lemma byte_xor_0_r a : byte_xor a x00 = a.
Proof. unfold byte_xor. change (Byte.to_N x00) with 0%N. rewrite N.lxor_0_r. apply byte_of_to_N. Qed.

Lemma xor_bytes_assoc a b c : xor_bytes a (xor_bytes b c) = xor_bytes (xor_bytes a b) c.
Proof.
  unfold xor_bytes. revert b c; induction a as [|x a IH]; intros [|y b] [|z c]; simpl; try done. by rewrite byte_xor_assoc, IH.
Qed.

Lemma xor_bytes_zero a n : length a = n -> xor_bytes a (replicate n x00) = a.
Proof. intros <-. induction a as [|x a IH]; [done|]. simpl. unfold xor_bytes in *. simpl. by rewrite byte_xor_0_r, IH. Qed.

Lemma length_xor_bytes a b : length a = length b -> length (xor_bytes a b) = length a.
Proof. intros H. unfold xor_bytes. rewrite length_zip_with. lia. Qed.

(** ** Shares in shape *)

(** A raw share at [x] with [n] bytes of payload. *)
Definition share_at (n : nat) (x : byte) (v : bytes) : Prop := exists y, v = x :: y /\ length y = n.

(** A table with one share of [n] payload bytes at each of [xs], and nothing else. *)
Definition shaped (xs : list byte) (n : nat) (m : gmap byte bytes) : Prop :=
  (forall x v, m !! x = Some v -> x ∈ xs /\ share_at n x v) /\ (forall x, x ∈ xs -> is_Some (m !! x)).

Lemma sum_share_at n x a b : share_at n x a -> share_at n x b -> share_at n x (sum_share a b).
Proof. intros (y & -> & Hy) (z & -> & Hz). exists (xor_bytes y z). split; [done|]. by rewrite length_xor_bytes; lia. Qed.

Lemma sum_share_assoc n x a b c :
  share_at n x a -> share_at n x b -> share_at n x c -> sum_share a (sum_share b c) = sum_share (sum_share a b) c.
Proof. intros (y & -> & _) (z & -> & _) (w & -> & _). simpl. by rewrite xor_bytes_assoc. Qed.

Lemma sum_share_zero n x a : share_at n x a -> sum_share a (x :: replicate n x00) = a.
Proof. intros (y & -> & Hy). simpl. by rewrite xor_bytes_zero. Qed.

Lemma add_shares_at n x a b : n <> 0 -> share_at n x a -> share_at n x b -> add_shares a b = Ok (sum_share a b).
Proof.
  intros Hn (y & -> & Hy) (z & -> & Hz). simpl. rewrite Hy, Hz, Nat.eqb_refl, bool_decide_true by done.
  destruct n; [done|]. done.
Qed.

Lemma require_distinct_spec seen xs :
  require_distinct_nonzero seen xs = Ok tt <-> NoDup xs /\ x00 ∉ xs /\ (forall x, x ∈ xs -> x ∉ seen).
Proof.
  revert seen; induction xs as [|x xs IH]; intros seen; simpl; [split; [intros _; repeat split; [constructor|set_solver..]|done]|].
  destruct (bool_decide (x = x00) || bool_decide (x ∈ seen)) eqn:B.
  - split; [done|]. apply orb_true_iff in B as [B|B]; apply bool_decide_eq_true in B; set_solver.
  - bool_hyps. rewrite IH, NoDup_cons. split.
    + intros (HN & HZ & HS). split_and!; [|done|set_solver..]. intros Hx. apply (HS x Hx). set_solver.
    + intros ([Hx HN] & HZ & HS). split_and!; [done|set_solver|]. intros y Hy. specialize (HS y). set_solver.
Qed.

Lemma require_distinct_Err seen xs e : require_distinct_nonzero seen xs = Err e -> e = ShareShapeMismatch.
Proof. revert seen; induction xs as [|x xs IH]; intros seen; simpl; [done|]. destruct (_ || _); [by intros [= <-]|apply IH]. Qed.

Section dealing.
Context `{SH : Shamir} `{!ShamirLaws SH}.

Lemma coordinate_inj i j : i < 255 -> j < 255 -> coordinate i = coordinate j -> i = j.
Proof.
  intros Hi Hj E. apply (f_equal Byte.to_N) in E. unfold coordinate in E. rewrite !to_N_byte_of_N, !N.mod_small in E by lia. lia.
Qed.

Lemma coordinate_of x : x <> x00 -> exists i, i < 255 /\ coordinate i = x.
Proof.
  intros Hx. pose proof (Byte.to_N_bounded x). assert (Byte.to_N x <> 0%N).
  { intros E. apply Hx. apply byte_to_N_inj. by rewrite E. }
  exists (N.to_nat (Byte.to_N x) - 1). split; [lia|]. unfold coordinate.
  replace (N.of_nat (S _)) with (Byte.to_N x) by lia. apply byte_of_to_N.
Qed.

(** Every share of a dealing is at the coordinate of its place. *)
Lemma deal_at rnd t secret x :
  (1 <= t)%N -> x <> x00 -> exists v, v ∈ deal rnd t secret /\ share_at (length secret) x v.
Proof.
  intros Ht (i & Hi & <-)%coordinate_of. destruct (lookup_lt_is_Some_2 (deal rnd t secret) i) as [v Hv]; [by rewrite deal_length|].
  exists v. split; [by eapply list_elem_of_lookup_2|]. by eapply deal_share.
Qed.

Lemma deal_elem rnd t secret v : (1 <= t)%N -> v ∈ deal rnd t secret -> exists x, share_at (length secret) x v.
Proof. intros Ht [i Hi]%list_elem_of_lookup. exists (coordinate i). by eapply deal_share. Qed.

Lemma pick_wanted_spec wanted all :
  (forall x v, pick_wanted wanted all !! x = Some v -> v ∈ all /\ head v = Some x /\ x ∈ wanted) /\
  (forall x v, v ∈ all -> head v = Some x -> x ∈ wanted -> is_Some (pick_wanted wanted all !! x)).
Proof.
  unfold pick_wanted. induction all as [|share all [IH1 IH2]] using rev_ind; [split; [done|set_solver]|].
  rewrite !foldl_app. simpl. split.
  - intros x v. destruct share as [|y share]; [intros (? & ? & ?)%IH1; set_solver|]. case_decide as Hy; [|intros (? & ? & ?)%IH1; set_solver].
    rewrite lookup_insert. case_decide as E; [intros [= <-]; subst; set_solver|]. intros (? & ? & ?)%IH1. set_solver.
  - intros x v [Hv| ->%list_elem_of_singleton]%elem_of_app Hh Hx.
    + specialize (IH2 x v Hv Hh Hx). destruct share as [|y share]; [done|]. case_decide; [|done].
      rewrite lookup_insert. by case_decide.
    + destruct share as [|y share]; [done|]. injection Hh as ->. rewrite decide_True by done. rewrite lookup_insert_eq. eauto.
Qed.

(** A table of shares of zero at [xs]. *)
Definition zero_sharing (t : N) (n : nat) (xs : list byte) (m : gmap byte bytes) : Prop :=
  shaped xs n m /\ exists rnd, forall x v, m !! x = Some v -> v ∈ deal rnd t (replicate n x00).

(** [generate_zero_deltas] gives a sharing of zero exactly when its inputs are in shape. *)
Lemma generate_zero_deltas_spec rnd t n xs :
  match generate_zero_deltas rnd t n xs with
  | Ok m => zero_sharing t n xs m
  | Err e => e = ShareShapeMismatch /\ ((t < 2)%N \/ n = 0 \/ xs = [] \/ ~ (NoDup xs /\ x00 ∉ xs))
  end.
Proof.
  unfold generate_zero_deltas. destruct (_ || _ || _) eqn:B.
  { split; [done|]. rewrite !orb_true_iff, N.ltb_lt, Nat.eqb_eq, bool_decide_eq_true in B. tauto. }
  bool_hyps. destruct (require_distinct_nonzero_xs xs) as [[]|e] eqn:ER; simpl; cycle 1.
  { split; [by eapply require_distinct_Err|]. right; right; right. intros [HN HZ].
    assert (require_distinct_nonzero ∅ xs = Ok tt) as E by (apply require_distinct_spec; set_solver).
    unfold require_distinct_nonzero_xs in ER. congruence. }
  apply require_distinct_spec in ER as (HN & H00 & _).
  assert (1 <= t)%N as Ht by (match goal with H : (_ <? _)%N = false |- _ => apply N.ltb_ge in H end; lia).
  set (all := deal rnd t (replicate n x00)). destruct (pick_wanted_spec (list_to_set xs) all) as [HP1 HP2].
  assert (shaped xs n (pick_wanted (list_to_set xs) all)) as HS.
  { split.
    - intros x v Hv. apply HP1 in Hv as (Hv & Hh & Hx). apply elem_of_list_to_set in Hx. split; [done|].
      apply deal_elem in Hv as (y & z & -> & Hz); [|done]. injection Hh as ->. rewrite length_replicate in Hz. by exists z.
    - intros x Hx. destruct (deal_at rnd t (replicate n x00) x) as (v & Hv & (z & -> & _)); [done|set_solver|].
      eapply HP2; [exact Hv|done|by apply elem_of_list_to_set]. }
  assert (size (pick_wanted (list_to_set xs) all) = size (list_to_set xs : gset byte)) as ->.
  { rewrite <- size_dom. f_equal. apply set_eq. intros x. rewrite elem_of_dom, elem_of_list_to_set. split; [|apply HS].
    intros [v Hv]. by apply HS in Hv as [? _]. }
  rewrite Nat.eqb_refl. simpl. split; [done|]. exists rnd. intros x v Hv. by apply HP1 in Hv as (? & _).
Qed.

(** The share at [x] of the sharing of [n] zero bytes dealt with the randomness [rnd]. *)
Definition zero_share (rnd : nat) (t : N) (n : nat) (x : byte) : bytes :=
  default [] (deal rnd t (replicate n x00) !! (N.to_nat (Byte.to_N x) - 1)).

(** The share [v] at [x] with [k] sharings of zero added, each dealt with randomness of its own. *)
Fixpoint blinded (rnd : nat -> nat) (t : N) (n : nat) (x : byte) (v : bytes) (k : nat) : bytes :=
  match k with O => v | S k => blinded rnd t n x (sum_share v (zero_share (rnd k) t n x)) k end.
Definition blind (rnd : nat -> nat) (t : N) (k : nat) (share : bytes) : bytes :=
  match share with x :: y => blinded rnd t (length y) x share k | [] => [] end.

Lemma generate_zero_deltas_shares rnd t n xs m x :
  generate_zero_deltas rnd t n xs = Ok m -> x ∈ xs -> m !! x = Some (zero_share rnd t n x).
Proof.
  intros E Hx. pose proof (generate_zero_deltas_spec rnd t n xs) as HG. rewrite E in HG. destruct HG as [HS _].
  destruct (proj2 HS x Hx) as [v Hv]. rewrite Hv. f_equal. unfold generate_zero_deltas in E. destruct (_ || _ || _) eqn:B; [done|].
  bool_hyps. assert (1 <= t)%N as Ht by (match goal with H : (_ <? _)%N = false |- _ => apply N.ltb_ge in H end; lia).
  apply bind_Ok in E as ([] & _ & E). destruct (negb _); [done|]. injection E as <-.
  apply pick_wanted_spec in Hv as ([i Hi]%list_elem_of_lookup & Hh & _). pose proof (lookup_lt_Some _ _ _ Hi) as Hlt. rewrite deal_length in Hlt by done.
  destruct (deal_share _ _ _ _ _ Ht Hi) as (y & -> & _). injection Hh as <-. unfold zero_share, coordinate.
  rewrite to_N_byte_of_N, N.mod_small by lia. replace (N.to_nat (N.of_nat (S i)) - 1) with i by lia. by rewrite Hi.
Qed.

Lemma absorb_deltas_spec xs n combined l :
  n <> 0 -> shaped xs n combined -> NoDup l.*1 -> (forall x d, (x, d) ∈ l -> x ∈ xs /\ share_at n x d) ->
  exists combined', absorb_deltas combined l = Ok combined' /\ shaped xs n combined' /\
    (forall x d v, (x, d) ∈ l -> combined !! x = Some v -> combined' !! x = Some (sum_share v d)) /\
    (forall x, x ∉ l.*1 -> combined' !! x = combined !! x).
Proof.
  intros Hn. revert combined; induction l as [|[x d] l IH]; intros combined HS HN HL; simpl; [by exists combined; set_solver|].
  apply NoDup_cons in HN as [Hx HN]. destruct (HL x d) as [Hin Hd]; [left|].
  destruct (proj2 HS x Hin) as [v Hv]. rewrite Hv. simpl. destruct (proj1 HS x v Hv) as [_ Hva].
  unfold apply_deltas. rewrite (add_shares_at n x v d) by done. simpl.
  destruct (IH (<[x := sum_share v d]> combined)) as (combined' & E & HS' & H1 & H2).
  - split; [|intros y Hy; rewrite lookup_insert; case_decide; [eauto|by apply HS]].
    intros y w. rewrite lookup_insert. case_decide as Ey; [intros [= <-]; subst y; split; [done|by apply sum_share_at]|apply HS].
  - done.
  - intros y e Hy. apply HL. by right.
  - exists combined'. split; [done|]. split; [done|]. split.
    + intros y e w [[= -> ->]|Hy]%elem_of_cons Hw.
      * rewrite H2 by done. rewrite lookup_insert_eq. congruence.
      * apply H1; [done|]. rewrite lookup_insert_ne; [done|]. intros ->. apply Hx. apply list_elem_of_fmap. by exists (y, e).
    + intros y [Hne Hy]%not_elem_of_cons. rewrite H2 by done. by rewrite lookup_insert_ne.
Qed.

(** What [v], the share at [x], becomes when a list of sharings is added to it. *)
Definition refreshed (x : byte) (v : bytes) (rounds : list (gmap byte bytes)) : bytes :=
  foldl (fun v d => sum_share v (default [] (d !! x))) v rounds.

Lemma combine_rounds_spec rnd k t n xs combined :
  (2 <= t)%N -> n <> 0 -> xs <> [] -> NoDup xs -> x00 ∉ xs -> shaped xs n combined ->
  exists combined' rounds, combine_rounds rnd k t n xs combined = Ok combined' /\ shaped xs n combined' /\
    Forall (zero_sharing t n xs) rounds /\ length rounds = k /\ (forall x v, x ∈ xs -> refreshed x v rounds = blinded rnd t n x v k) /\
    forall x v, combined !! x = Some v -> combined' !! x = Some (refreshed x v rounds).
Proof.
  intros Ht Hn Hxs HN HZ. revert combined; induction k as [|k IH]; intros combined HS; simpl; [by exists combined, []|].
  pose proof (generate_zero_deltas_spec (rnd k) t n xs) as HG.
  destruct (generate_zero_deltas (rnd k) t n xs) as [d|e] eqn:EG; simpl; [|destruct HG as [_ [?|[?|[?|[]]]]]; (done || lia)].
  destruct (absorb_deltas_spec xs n combined (map_to_list d)) as (c1 & E & HS1 & HE & _); [done|done|apply NoDup_fst_map_to_list| |].
  { intros x v Hv. apply elem_of_map_to_list in Hv. by apply HG. }
  rewrite E. simpl. destruct (IH c1 HS1) as (c2 & rounds & E2 & HS2 & HF & HL & HB & HR). exists c2, (d :: rounds).
  split; [done|]. split; [done|]. split; [by constructor|]. split; [simpl; lia|].
  split; [intros x v Hx; cbn [refreshed foldl]; rewrite (generate_zero_deltas_shares _ _ _ _ _ _ EG Hx); by apply HB|]. intros x v Hv. simpl.
  destruct (proj1 HS x v Hv) as [Hx _]. destruct (proj2 (proj1 HG) x Hx) as [w Hw]. apply HR. rewrite Hw. simpl.
  apply HE; [by apply elem_of_map_to_list|done].
Qed.

Lemma sum_refreshed n xs x s v rounds t :
  x ∈ xs -> share_at n x s -> share_at n x v -> Forall (zero_sharing t n xs) rounds ->
  sum_share s (refreshed x v rounds) = refreshed x (sum_share s v) rounds.
Proof.
  intros Hx Hs Hv HF. revert v Hv; induction HF as [|d rounds [Hd _] HF IH]; intros v Hv; [done|]. cbn [refreshed foldl].
  destruct (proj2 Hd x Hx) as [w Hw]. rewrite Hw. simpl. destruct (proj1 Hd x w Hw) as [_ Hwa].
  change (sum_share s (refreshed x (sum_share v w) rounds) = refreshed x (sum_share (sum_share s v) w) rounds).
  rewrite IH by (by apply sum_share_at). by rewrite (sum_share_assoc n x).
Qed.

(** Adding sharings of zero leaves what the shares recover to unchanged. *)
Lemma refreshed_recover t n xs rounds picked xs' secret :
  (2 <= t)%N -> n <> 0 -> Forall (zero_sharing t n xs) rounds -> NoDup xs' -> xs' ⊆ xs ->
  Forall2 (share_at n) xs' picked -> (t <= N.of_nat (length picked))%N -> recover t picked = Some secret ->
  recover t (zip_with (fun x v => refreshed x v rounds) xs' picked) = Some secret.
Proof.
  intros Ht Hn HF HN Hsub. revert picked; induction HF as [|d rounds [Hd [rnd Hdeal]] HF IH]; intros picked HP Hlen HR.
  { assert (zip_with (fun x v => refreshed x v []) xs' picked = picked) as ->; [|done].
    clear -HP. induction HP; simpl; [done|]. by f_equal. }
  set (deltas := map (fun x => default [] (d !! x)) xs').
  assert (zip_with sum_share picked deltas = zip_with (fun x v => sum_share v (default [] (d !! x))) xs' picked) as EZ.
  { unfold deltas. clear -HP. induction HP; simpl; [done|]. by f_equal. }
  assert (forall x, x ∈ xs' -> exists w, d !! x = Some w /\ share_at n x w) as Hw.
  { intros x Hx. destruct (proj2 Hd x (Hsub x Hx)) as [w Hw]. exists w. split; [done|]. by apply (proj1 Hd x w). }
  assert (recover t deltas = Some (replicate n x00)) as HZ.
  { apply (recover_deal rnd).
    - lia.
    - by destruct n.
    - unfold deltas. apply NoDup_fmap_2_strong; [|done]. intros x y Hx Hy. destruct (Hw x Hx) as (w & -> & z & -> & _).
      destruct (Hw y Hy) as (w' & -> & z' & -> & _). simpl. congruence.
    - intros v (x & -> & Hx)%list_elem_of_fmap. destruct (Hw x Hx) as (w & E & _). rewrite E. simpl. by apply (Hdeal x).
    - unfold deltas. rewrite length_map. apply Forall2_length in HP. lia. }
  assert (length secret = n) as Hs.
  { apply recover_length in HR. destruct HP as [|x v ? ? (y & -> & Hy)]; [simpl in Hlen; lia|].
    apply Forall_cons in HR as [E _]. simpl in E. lia. }
  pose proof (recover_sum t picked deltas secret (replicate n x00)) as HSum.
  rewrite EZ, xor_bytes_zero in HSum by done. cbn [refreshed foldl].
  assert (zip_with (fun x v => foldl (fun v d => sum_share v (default [] (d !! x))) (sum_share v (default [] (d !! x))) rounds) xs' picked
    = zip_with (fun x v => refreshed x v rounds) xs' (zip_with (fun x v => sum_share v (default [] (d !! x))) xs' picked)) as ->.
  { clear. revert picked; induction xs' as [|x xs' IH]; intros [|v picked]; simpl; try done. by f_equal. }
  apply IH.
  - clear -HP Hw. induction HP as [|x v xs' picked Hv HP IH]; simpl; constructor.
    + destruct (Hw x) as (w & -> & Hwa); [left|]. by apply sum_share_at.
    + apply IH. intros y Hy. apply Hw. by right.
  - rewrite length_zip_with. apply Forall2_length in HP. lia.
  - apply HSum; [|done|done]. unfold deltas. clear -HP Hw. induction HP as [|x v xs' picked (y & -> & Hy) HP IH]; simpl; constructor.
    + destruct (Hw x) as (w & -> & z & -> & Hz); [left|]. split; [done|simpl; lia].
    + apply IH. intros z Hz. apply Hw. by right.
Qed.

Lemma coordinates_spec n shares xs : coordinates n shares = Ok xs <-> Forall2 (share_at n) xs shares.
Proof.
  revert xs; induction shares as [|share shares IH]; intros xs; simpl.
  - split; [by intros [= <-]|by intros ->%Forall2_nil_inv_r].
  - destruct (length share =? n + 1) eqn:El; simpl; cycle 1.
    + split; [done|]. intros (x & xs' & (y & -> & Hy) & _ & _)%Forall2_cons_inv_r. apply Nat.eqb_neq in El. simpl in El. lia.
    + apply Nat.eqb_eq in El. destruct share as [|x y]; [simpl in El; lia|]. simpl in El. split.
      * intros (xs' & Exs & [= <-])%bind_Ok. constructor; [exists y; split; [done|lia]|by apply IH].
      * intros (x' & xs' & (y' & [= <- <-] & Hy) & HF & ->)%Forall2_cons_inv_r. by apply IH in HF as ->.
Qed.

(** Shares a refresh at threshold [t] accepts: enough of them, of one non-empty
    length, at distinct non-zero coordinates [xs]. *)
Definition refreshable (t : N) (n : nat) (xs : list byte) (shares : list bytes) : Prop :=
  (2 <= t <= N.of_nat (length shares))%N /\ n <> 0 /\ Forall2 (share_at n) xs shares /\ NoDup xs /\ x00 ∉ xs.

Definition zero_table (n : nat) (xs : list byte) : gmap byte bytes :=
  foldl (fun m x => <[x := x :: replicate n x00]> m) ∅ xs.

Lemma zero_table_spec n xs :
  shaped xs n (zero_table n xs) /\ forall x, x ∈ xs -> zero_table n xs !! x = Some (x :: replicate n x00).
Proof.
  unfold zero_table. assert (forall x v, foldl (fun m x => <[x := x :: replicate n x00]> m) (∅ : gmap byte bytes) xs !! x = Some v
    <-> x ∈ xs /\ v = x :: replicate n x00) as H.
  { induction xs as [|y xs IH] using rev_ind; intros x v; [simpl; rewrite lookup_empty; set_solver|].
    rewrite foldl_app. simpl. rewrite lookup_insert. case_decide as E; [subst; set_solver|]. rewrite IH. set_solver. }
  split; [split|].
  - intros x v [Hx ->]%H. split; [done|]. exists (replicate n x00). by rewrite length_replicate.
  - intros x Hx. exists (x :: replicate n x00). by apply H.
  - intros x Hx. by apply H.
Qed.

Lemma write_back_spec n xs all combined shares rounds t :
  n <> 0 -> Forall2 (share_at n) xs shares -> xs ⊆ all -> Forall (zero_sharing t n all) rounds ->
  (forall x, x ∈ xs -> combined !! x = Some (refreshed x (x :: replicate n x00) rounds)) ->
  shaped all n combined ->
  write_back combined shares = (Ok tt, zip_with (fun x v => refreshed x v rounds) xs shares).
Proof.
  intros Hn HF Hsub HR HC HS. induction HF as [|x v xs shares Hv HF IH]; simpl; [done|].
  assert (x ∈ all) as Hx by set_solver. assert (combined !! x = Some (refreshed x (x :: replicate n x00) rounds)) as Hc by (apply HC; left).
  assert (head v = Some x) as -> by (by destruct Hv as (y & -> & _)). simpl. rewrite Hc. simpl.
  destruct (proj1 HS x _ Hc) as [_ Hca]. unfold apply_deltas. rewrite (add_shares_at n x) by done.
  rewrite IH by set_solver. rewrite (sum_refreshed n all x _ _ rounds t); [|done|done| |done].
  - by rewrite (sum_share_zero n).
  - exists (replicate n x00). by rewrite length_replicate.
Qed.

(** On shares in shape the refresh succeeds, and adds the same list of sharings
    of zero, one per share, to every share. *)
Lemma refresh_among_Ok rnd shares t n xs :
  refreshable t n xs shares ->
  exists rounds, length rounds = length shares /\ Forall (zero_sharing t n xs) rounds /\
    (forall x v, x ∈ xs -> refreshed x v rounds = blinded rnd t n x v (length shares)) /\
    refresh_among rnd shares t = (Ok tt, zip_with (fun x v => refreshed x v rounds) xs shares).
Proof.
  intros ([Ht Hlen] & Hn & HF & HN & HZ). unfold refresh_among, refresh_plan.
  destruct shares as [|share shares]; [simpl in Hlen; lia|]. set (all := share :: shares) in *.
  rewrite bool_decide_false by done. rewrite (proj2 (N.ltb_ge _ _)) by done. simpl orb. cbv iota.
  assert (from_option length 0 (head all) - 1 = n) as ->.
  { apply Forall2_cons_inv_r in HF as (x & xs' & (y & -> & Hy) & _ & _). simpl. lia. }
  rewrite (proj2 (Nat.eqb_neq _ _)) by done. rewrite (proj2 (coordinates_spec n all xs)) by done. cbn [mbind result_bind].
  rewrite (proj2 (require_distinct_spec ∅ xs) ltac:(set_solver) : require_distinct_nonzero_xs xs = Ok tt). cbn [mbind result_bind].
  rewrite (proj2 (N.ltb_ge _ _)) by done. fold (zero_table n xs). destruct (zero_table_spec n xs) as [HS0 H0].
  assert (xs <> []) as Hxs by (intros ->; by apply Forall2_nil_inv_l in HF).
  destruct (combine_rounds_spec rnd (length all) t n xs (zero_table n xs) Ht Hn Hxs HN HZ HS0) as (c & rounds & E & HSc & HR & HL & HB & HC).
  exists rounds. split; [done|]. split; [done|]. split; [done|]. rewrite E. eapply write_back_spec; [done|done|done|done| |done].
  intros x Hx. by apply HC, H0.
Qed.

(** The three kinds of guards of the refresh, read backwards: what passes them all is in shape. *)
Lemma refresh_cases rnd shares t :
  (exists n xs, refreshable t n xs shares) \/
  (refresh_plan rnd shares t = Err ShareShapeMismatch /\ forall n xs, ~ refreshable t n xs shares).
Proof.
  unfold refresh_plan. destruct (bool_decide (shares = []) || _) eqn:B1.
  { right. split; [done|]. intros n xs ([Ht Hlen] & _). apply orb_true_iff in B1 as [->%bool_decide_eq_true|B1%N.ltb_lt]; simpl in *; lia. }
  bool_hyps. set (n := from_option length 0 (head shares) - 1).
  assert (forall n' xs', refreshable t n' xs' shares -> n' = n) as Hn.
  { intros n' xs' (_ & _ & HF & _). destruct HF as [|x v ? ? (y & -> & Hy)]; [done|]. unfold n. simpl. lia. }
  destruct (n =? 0) eqn:E0.
  { right. split; [done|]. intros n' xs' HR. pose proof (Hn _ _ HR). apply Nat.eqb_eq in E0. destruct HR as (_ & ? & _). lia. }
  destruct (coordinates n shares) as [xs|e] eqn:EC; simpl; cycle 1.
  { right. split.
    - f_equal. clear -EC. revert EC. generalize n. clear n. intros n. revert e; induction shares as [|s shares IH]; intros e; simpl; [done|].
      destruct (negb _) eqn:B; [by intros [= <-]|]. destruct (coordinates n shares) as [xs|e'] eqn:E; simpl; [|intros [= <-]; by apply IH].
      destruct s; simpl; [by intros [= <-]|done].
    - intros n' xs' HR. pose proof (Hn _ _ HR) as ->. destruct HR as (_ & _ & HF & _). apply coordinates_spec in HF. congruence. }
  apply coordinates_spec in EC. assert (forall n' xs', refreshable t n' xs' shares -> xs' = xs) as Hxs.
  { intros n' xs' HR. pose proof (Hn _ _ HR) as ->. destruct HR as (_ & _ & HF & _). apply coordinates_spec in EC, HF. congruence. }
  destruct (require_distinct_nonzero_xs xs) as [[]|e] eqn:ER; simpl; cycle 1.
  { right. split; [by rewrite (require_distinct_Err _ _ _ ER)|]. intros n' xs' HR. pose proof (Hxs _ _ HR) as ->.
    destruct HR as (_ & _ & _ & HN & HZ). unfold require_distinct_nonzero_xs in ER.
    rewrite (proj2 (require_distinct_spec ∅ xs)) in ER; [done|set_solver]. }
  apply require_distinct_spec in ER as (HN & HZ & _). destruct (t <? 2)%N eqn:Et.
  { right. split; [done|]. intros n' xs' ([Ht _] & _). apply N.ltb_lt in Et. lia. }
  left. exists n, xs. split; [|by apply Nat.eqb_neq in E0].
  apply N.ltb_ge in Et. match goal with H : (_ <? t)%N = false |- _ => apply N.ltb_ge in H end. lia.
Qed.

(** A refreshed share is at the same point: same coordinate, same length. *)
Lemma refreshed_at n xs x v rounds t :
  x ∈ xs -> share_at n x v -> Forall (zero_sharing t n xs) rounds -> share_at n x (refreshed x v rounds).
Proof.
  intros Hx Hv HF. revert v Hv; induction HF as [|d rounds [Hd _] HF IH]; intros v Hv; [done|]. apply (IH (sum_share v (default [] (d !! x)))).
  destruct (proj2 Hd x Hx) as [w Hw]. rewrite Hw. apply sum_share_at; [done|]. by apply (proj1 Hd).
Qed.

Lemma refreshed_points n xs xs' shares rounds t :
  Forall2 (share_at n) xs' shares -> xs' ⊆ xs -> Forall (zero_sharing t n xs) rounds ->
  Forall2 same_point shares (zip_with (fun x v => refreshed x v rounds) xs' shares).
Proof.
  intros HF Hsub HR. induction HF as [|x v xs' shares Hv HF IH]; simpl; constructor; [|apply IH; set_solver].
  destruct (refreshed_at n xs x v rounds t) as (z & -> & Hz); [set_solver|done|done|]. destruct Hv as (y & -> & Hy). split; [done|simpl; lia].
Qed.

Lemma blinded_shares rnd t n xs xs' shares rounds k :
  Forall2 (share_at n) xs' shares -> xs' ⊆ xs -> (forall x v, x ∈ xs -> refreshed x v rounds = blinded rnd t n x v k) ->
  zip_with (fun x v => refreshed x v rounds) xs' shares = map (blind rnd t k) shares.
Proof.
  intros HF Hsub HB. induction HF as [|x v xs' shares (y & -> & Hy) HF IH]; [done|]. cbn [zip_with map blind].
  rewrite HB by set_solver. rewrite Hy. f_equal. apply IH. set_solver.
Qed.

(** A successful [refresh_among] adds to every share the shares at its coordinate of as many
    sharings of zero as there are shares, each dealt anew; it leaves every share at its coordinate and
    its length, and any choice of at least [threshold] shares that recovered a
    secret before the refresh recovers the same secret after it. *)
Lemma refresh_preserves_secret rnd shares t shares' :
  refresh_among rnd shares t = (Ok tt, shares') ->
  shares' = map (blind rnd t (length shares)) shares /\ Forall2 same_point shares shares' /\
  forall idx secret, NoDup idx -> Forall (fun i => i < length shares) idx -> (t <= N.of_nat (length idx))%N ->
    recover t (picks shares idx) = Some secret -> recover t (picks shares' idx) = Some secret.
Proof.
  intros E. destruct (refresh_cases rnd shares t) as [(n & xs & HR)|[EP _]]; [|by unfold refresh_among in E; rewrite EP in E].
  destruct (refresh_among_Ok rnd shares t n xs HR) as (rounds & _ & HF & HB & E'). rewrite E' in E. injection E as <-.
  destruct HR as ([Ht _] & Hn & HS & HN & _). split; [by eapply blinded_shares|]. split; [by eapply refreshed_points|].
  intros idx secret HI Hb Hlen Hrec. rewrite picks_zip_with by (by eapply Forall2_length).
  eapply refreshed_recover; [done|done|exact HF|by apply picks_NoDup| |by apply picks_Forall2|by rewrite picks_length|done].
  intros x (i & _ & Hx)%picks_elem. by eapply list_elem_of_lookup_2.
Qed.

(** [refresh_among] succeeds exactly on at least [threshold >= 2] shares of
    one non-empty payload length at distinct non-zero coordinates; on every other
    input it reports [ShareShapeMismatch] and has not written to any share. *)
Theorem refresh_all_or_nothing rnd shares t :
  match refresh_among rnd shares t with
  | (Ok _, _) => exists n xs, refreshable t n xs shares
  | (Err e, shares') => e = ShareShapeMismatch /\ shares' = shares /\ forall n xs, ~ refreshable t n xs shares
  end.
Proof.
  destruct (refresh_cases rnd shares t) as [(n & xs & HR)|[EP HN]].
  - destruct (refresh_among_Ok rnd shares t n xs HR) as (rounds & _ & _ & _ & ->). by exists n, xs.
  - unfold refresh_among. by rewrite EP.
Qed.
End dealing.

(** A scheme with the laws, for concrete runs: constant polynomials. *)
Module ToyShamir.
Definition share_bytes (secret : bytes) : list bytes := map (fun i => coordinate i :: secret) (seq 0 255).

#[export] Instance toy : Shamir := {
  deal _ _ secret := share_bytes secret;
  recover t shares :=
    match shares with
    | (x :: y) :: _ =>
        if forallb (fun share => length share =? S (length y)) shares && (t <=? N.of_nat (length shares))%N then Some y else None
    | _ => None
    end;
  share_ok share := 2 <=? length share;
}.

#[export] Instance toy_laws : ShamirLaws toy.
Proof.
  split; simpl.
  - done.
  - intros _ t secret i share _ Hi. unfold share_bytes in Hi. rewrite list_lookup_fmap in Hi.
    apply fmap_Some in Hi as (j & (-> & _)%lookup_seq & ->). by exists secret.
  - intros share Hs. by destruct share as [|? [|? ?]]; simpl in *; try lia.
  - intros _ t secret picked Ht _ _ Hsub Hlen.
    assert (Forall (fun share => exists x, share = x :: secret) picked) as HF.
    { apply Forall_forall. intros share (i & -> & _)%Hsub%list_elem_of_fmap. by exists (coordinate i). }
    destruct HF as [|share picked [x ->] HF]; [simpl in Hlen; lia|].
    rewrite (proj2 (forallb_forall _ _)); [by rewrite (proj2 (N.leb_le _ _))|].
    intros share [<-|Hs]; [simpl; apply Nat.eqb_refl|]. rewrite Forall_forall in HF.
    destruct (HF share) as [x' ->]; [by apply list_elem_of_In|]. simpl. apply Nat.eqb_refl.
  - intros t [|[|x y] shares] s E; try done. destruct (forallb _ _ && _) eqn:B; [|done]. injection E as <-.
    apply andb_true_iff in B as [B _]. rewrite forallb_forall in B. apply Forall_forall. intros share Hs.
    by apply Nat.eqb_eq, B, list_elem_of_In.
  - intros t a b s z HF Ea Eb. destruct HF as [|[|x y] [|x' y'] a b [Hh Hl] HF]; try done. simpl.
    destruct (forallb _ (_ :: a) && _) eqn:Ba; [|done]. destruct (forallb _ (_ :: b) && _) eqn:Bb; [|done]. simplify_eq.
    apply andb_true_iff in Ba as [Ba La], Bb as [Bb Lb]. simpl in Hl. assert (length (zip_with sum_share a b) = length a) as HL.
    { rewrite length_zip_with. apply Forall2_length in HF. lia. }
    simpl in *. rewrite HL, La, Nat.eqb_refl, andb_true_r. simpl. apply andb_true_iff in Ba as [_ Ba], Bb as [_ Bb].
    rewrite length_xor_bytes by lia. replace (forallb _ (zip_with sum_share a b)) with true; [done|]. clear -HF Ba Hl. symmetry.
    induction HF as [|u v a b [Hh Hl'] HF IH]; [done|]. simpl in *. apply andb_true_iff in Ba as [Bu Ba].
    rewrite IH by done. rewrite andb_true_r. apply Nat.eqb_eq in Bu. apply Nat.eqb_eq.
    destruct u as [|p u], v as [|q v]; simpl in *; try lia. rewrite length_xor_bytes; lia.
Qed.

Definition shares : list bytes := take 3 (share_bytes (str "key")).
End ToyShamir.

(** Two of three shares at one coordinate: refused, and nothing is written. *)
Lemma refresh_all_or_nothing_witness :
  let twice := take 2 ToyShamir.shares ++ take 1 ToyShamir.shares in
  refresh_among (SH := ToyShamir.toy) id twice 2 = (Err ShareShapeMismatch, twice) /\ forall n xs, ~ refreshable 2 n xs twice.
Proof.
  intros twice. pose proof (refresh_all_or_nothing (SH := ToyShamir.toy) (ShamirLaws0 := ToyShamir.toy_laws) id twice 2) as H.
  assert (refresh_among (SH := ToyShamir.toy) id twice 2 = (Err ShareShapeMismatch, twice)) as E by (vm_compute; reflexivity).
  rewrite E in H. destruct H as (_ & _ & H). split; [exact E|exact H].
Defined.
