(* ===== verification/Visibility.v ===== *)
(** * Who sees what of a split tree ([src/src/key_tree.rs], the public tree)

    The published topology of a split tree ([PublicTree]), the set of labels a
    holder is shown ([visible_from_maps] and its three loops) and the slice of
    the tree with those labels. The loops run on fuel; the lemmas of this file
    say what they compute with the fuel given, which includes that they stop. *)

From S2P Require Import Prelude.
From stdpp Require Import gmap.

Record PublicNode := {
  pn_label : bytes;
  parent_label : option bytes;
  pn_threshold : option N;
  pn_is_active : bool;
  encryption_fingerprint : option bytes;
  encryption_public_key : option bytes;
}.
Record PublicEdge := { edge_from : bytes; edge_to : bytes }.
Record PublicTree := {
  pt_label : bytes;
  pt_generation : N;
  pt_nodes : list PublicNode;
  pt_whitelist : list PublicEdge;
  pt_links : list PublicEdge;
}.

#[export] Instance PublicNode_eq_dec : EqDecision PublicNode.
Proof. solve_decision. Defined.
#[export] Instance PublicEdge_eq_dec : EqDecision PublicEdge.
Proof. solve_decision. Defined.
#[export] Instance PublicEdge_countable : Countable PublicEdge.
Proof.
  apply (inj_countable' (fun e => (edge_from e, edge_to e)) (fun p => {| edge_from := p.1; edge_to := p.2 |})). by intros [].
Defined.

(** ** The operations *)

Notation parents := (gmap bytes (option bytes)).
Notation children := (gmap bytes (list bytes)).

(** The loop of [walk_ancestors]: the labels seen in this walk, the visible set
    and whether it grew. *)
Fixpoint walk_loop (fuel : nat) (parent_of : parents) (cur : option bytes) (seen visible : gset bytes) (grew : bool)
    : gset bytes * bool :=
  match fuel, cur with
  | S fuel, Some label =>
      if decide (label ∈ seen) then (visible, grew)
      else walk_loop fuel parent_of (mjoin (parent_of !! label)) ({[label]} ∪ seen) ({[label]} ∪ visible)
             (grew || bool_decide (label ∉ visible))
  | _, _ => (visible, grew)
  end.

(** Every label of the walk but the last is a key of the map. *)
Definition walk_ancestors (parent_of : parents) (start : bytes) (visible : gset bytes) : gset bytes * bool :=
  walk_loop (size parent_of + 2) parent_of (Some start) ∅ visible false.

(** [for child in children { if visible.insert(child) { stack.push(child) } }];
    the top of the stack is the head of the list. *)
Fixpoint push_children (kids : list bytes) (visible : gset bytes) (stack : list bytes) : gset bytes * list bytes :=
  match kids with
  | [] => (visible, stack)
  | child :: kids =>
      if decide (child ∈ visible) then push_children kids visible stack
      else push_children kids ({[child]} ∪ visible) (child :: stack)
  end.

Fixpoint descend (fuel : nat) (children_of : children) (stack : list bytes) (visible : gset bytes) : gset bytes :=
  match fuel, stack with
  | S fuel, label :: stack =>
      match children_of !! label with
      | None => descend fuel children_of stack visible
      | Some kids => let '(visible, stack) := push_children kids visible stack in descend fuel children_of stack visible
      end
  | _, _ => visible
  end.

(** Each label is pushed at most once, and only as somebody's child. *)
Definition all_children (children_of : children) : gset bytes := list_to_set (concat (map snd (map_to_list children_of))).
Definition add_descendants (children_of : children) (start : bytes) (visible : gset bytes) : gset bytes :=
  descend (size (all_children children_of) + 2) children_of [start] visible.

Definition add_siblings (parent_of : parents) (children_of : children) (seed : bytes) (visible : gset bytes) : gset bytes :=
  match mjoin (parent_of !! seed) with
  | Some parent => match children_of !! parent with
                   | Some siblings => list_to_set siblings ∪ visible
                   | None => visible
                   end
  | None => visible
  end.

Definition add_seed (parent_of : parents) (children_of : children) (visible : gset bytes) (seed : bytes) : gset bytes :=
  if decide (is_Some (parent_of !! seed)) then
    let visible := (walk_ancestors parent_of seed visible).1 in
    let visible := add_descendants children_of seed visible in
    add_siblings parent_of children_of seed visible
  else visible.

(** One pass over the links. *)
Fixpoint follow_links (parent_of : parents) (links : list (bytes * bytes)) (visible : gset bytes) (grew : bool)
    : gset bytes * bool :=
  match links with
  | [] => (visible, grew)
  | (a, b) :: links =>
      if eqb (bool_decide (a ∈ visible)) (bool_decide (b ∈ visible)) then follow_links parent_of links visible grew else
      let incoming := if bool_decide (a ∈ visible) then b else a in
      let '(visible, more) := walk_ancestors parent_of incoming visible in
      follow_links parent_of links visible (if more then true else grew)
  end.

(** [while grew { .. }] *)
Fixpoint follow_all (fuel : nat) (parent_of : parents) (links : list (bytes * bytes)) (visible : gset bytes) : gset bytes :=
  match fuel with
  | O => visible
  | S fuel =>
      let '(visible, grew) := follow_links parent_of links visible false in
      if grew then follow_all fuel parent_of links visible else visible
  end.

(** A pass that grows the set makes an end of a link visible. *)
Definition visible_from_maps (parent_of : parents) (children_of : children) (links : list (bytes * bytes))
    (seeds : list bytes) : gset bytes :=
  let visible := foldl (add_seed parent_of children_of) ∅ seeds in
  follow_all (2 * length links + 1) parent_of links visible.

Definition parents_of (nodes : list PublicNode) : parents :=
  foldl (fun m node => <[pn_label node := parent_label node]> m) ∅ nodes.
Definition children_of (nodes : list PublicNode) : children :=
  foldl (fun m node => match parent_label node with
                       | Some parent => <[parent := default [] (m !! parent) ++ [pn_label node]]> m
                       | None => m
                       end) ∅ nodes.

Definition visible_labels_in_public_tree (full : PublicTree) (seeds : list bytes) : gset bytes :=
  visible_from_maps (parents_of (pt_nodes full)) (children_of (pt_nodes full))
    (map (fun edge => (edge_from edge, edge_to edge)) (pt_links full)) seeds.

Definition edge_within (visible : gset bytes) (edge : PublicEdge) : Prop := edge_from edge ∈ visible /\ edge_to edge ∈ visible.
#[export] Instance edge_within_dec visible edge : Decision (edge_within visible edge).
Proof. unfold edge_within. apply _. Defined.

Definition filter_public_tree (full : PublicTree) (visible : gset bytes) : PublicTree := {|
  pt_label := pt_label full;
  pt_generation := pt_generation full;
  pt_nodes := filter (fun node => pn_label node ∈ visible) (pt_nodes full);
  pt_whitelist := filter (edge_within visible) (pt_whitelist full);
  pt_links := filter (edge_within visible) (pt_links full);
|}.

(** ** The walk to the root *)

(** [y] is the parent of [x]; an ancestor is what the reflexive and transitive closure relates. *)
Definition up (parent_of : parents) (x y : bytes) : Prop := parent_of !! x = Some (Some y).
Notation ancestor parent_of := (rtc (up parent_of)).

Lemma up_join parent_of x y : up parent_of x y <-> mjoin (parent_of !! x) = Some y.
Proof. unfold up. destruct (parent_of !! x) as [[z|]|]; simpl; naive_solver. Qed.

(** A set closed under a relation has everything reachable from its elements. *)
Lemma rtc_closed {A} (R : relation A) (P : A -> Prop) x y :
  (forall x y, P x -> R x y -> P y) -> P x -> rtc R x y -> P y.
Proof. intros HP Hx Hxy. induction Hxy; eauto. Qed.

Lemma tc_last {A} (R : relation A) x z : tc R x z -> exists y, rtc R x y /\ R y z.
Proof. induction 1 as [x y Hxy|x y z Hxy _ (u & Hu & Huz)]; [by exists x|]. exists u. split; [by eapply rtc_l|done]. Qed.

Section walk.
Context (parent_of : parents) (start : bytes) (visible0 : gset bytes).

(** Where a walk from [start] is: the labels seen are ancestors, what lies
    above them is seen or comes next, and the visible set has grown by them. *)
Record walking (cur : option bytes) (seen visible : gset bytes) (grew : bool) : Prop := {
  walking_start : start ∈ seen \/ cur = Some start;
  walking_seen x : x ∈ seen -> ancestor parent_of start x;
  walking_cur x : cur = Some x -> ancestor parent_of start x;
  walking_next x y : x ∈ seen -> up parent_of x y -> y ∈ seen \/ cur = Some y;
  walking_visible x : x ∈ visible <-> x ∈ visible0 \/ x ∈ seen;
  walking_grew : grew = true <-> exists x, x ∈ seen /\ x ∉ visible0;
  walking_keys : cur = None \/ seen ⊆ dom parent_of;
}.

(** The walk is over: the labels seen are all the ancestors. *)
Definition walked (r : gset bytes * bool) : Prop :=
  (forall x, x ∈ r.1 <-> x ∈ visible0 \/ ancestor parent_of start x) /\
  (r.2 = true <-> exists x, ancestor parent_of start x /\ x ∉ visible0).

Lemma walking_done cur seen visible grew :
  walking cur seen visible grew -> (forall x, cur = Some x -> x ∈ seen) -> walked (visible, grew).
Proof.
  intros [Hst Hs Hc Hn Hv Hg _] Hcur.
  assert (forall x, ancestor parent_of start x <-> x ∈ seen) as HA.
  { intros x. split; [|apply Hs]. apply (rtc_closed (up parent_of) (fun x => x ∈ seen)); [|destruct Hst; eauto].
    intros y z Hy Hyz. destruct (Hn y z Hy Hyz); eauto. }
  split; simpl; [intros x; rewrite Hv; by rewrite HA|]. rewrite Hg. by setoid_rewrite HA.
Qed.

Lemma walking_step label seen visible grew :
  walking (Some label) seen visible grew -> label ∉ seen ->
  walking (mjoin (parent_of !! label)) ({[label]} ∪ seen) ({[label]} ∪ visible) (grew || bool_decide (label ∉ visible)).
Proof.
  intros [Hst Hs Hc Hn Hv Hg Hk] Hl. split.
  - left. destruct Hst as [?|[= <-]]; set_solver.
  - intros x [->%elem_of_singleton|Hx]%elem_of_union; eauto.
  - intros x Hx%up_join. eapply rtc_r; eauto.
  - intros x y [->%elem_of_singleton|Hx]%elem_of_union Hxy; [right; by apply up_join|].
    destruct (Hn x y Hx Hxy) as [?|[= ->]]; set_solver.
  - intros x. rewrite elem_of_union, Hv. set_solver.
  - rewrite orb_true_iff, Hg, bool_decide_eq_true, Hv. split.
    + intros [(x & ? & ?)|H]; [exists x|exists label]; set_solver.
    + intros (x & [->%elem_of_singleton|Hx]%elem_of_union & Hx0); [right; tauto|left; eauto].
  - destruct Hk as [|Hk]; [done|]. destruct (parent_of !! label) as [p|] eqn:E; [|by left]. right.
    assert (label ∈ dom parent_of) by (apply elem_of_dom; eauto). set_solver.
Qed.

Lemma walk_loop_spec fuel cur seen visible grew :
  walking cur seen visible grew -> size parent_of + 2 <= fuel + size seen -> walked (walk_loop fuel parent_of cur seen visible grew).
Proof.
  revert cur seen visible grew; induction fuel as [|fuel IH]; intros cur seen visible grew HW Hf.
  - destruct cur as [label|]; [|by eapply walking_done]. destruct (walking_keys _ _ _ _ HW) as [|Hk]; [done|].
    apply subseteq_size in Hk. rewrite size_dom in Hk. lia.
  - destruct cur as [label|]; simpl; [|by eapply walking_done].
    case_decide as Hl; [eapply walking_done; [done|naive_solver]|]. apply IH; [by apply walking_step|].
    rewrite size_union, size_singleton by set_solver. lia.
Qed.

(** [walk_ancestors] adds exactly the ancestors of its start (itself among
    them), and reports whether one of them was new; cycles do not matter. *)
Lemma walk_ancestors_spec : walked (walk_ancestors parent_of start visible0).
Proof.
  apply walk_loop_spec; [|rewrite size_empty; lia].
  split; set_solver.
Qed.
End walk.

(** ** The walk down *)

(** [y] is a child of [x] that was not visible before. *)
Definition down (kids_of : children) (V : gset bytes) (x y : bytes) : Prop :=
  exists kids, kids_of !! x = Some kids /\ y ∈ kids /\ y ∉ V.

Lemma push_children_spec kids visible stack :
  let '(visible', stack') := push_children kids visible stack in
  visible' = visible ∪ list_to_set kids /\
  exists new, stack' = new ++ stack /\ NoDup new /\ (forall x, x ∈ new <-> x ∈ kids /\ x ∉ visible).
Proof.
  revert visible stack; induction kids as [|child kids IH]; intros visible stack; simpl.
  { split; [set_solver|]. exists []. split; [done|]. split; [constructor|set_solver]. }
  case_decide as Hc.
  - specialize (IH visible stack). destruct (push_children kids visible stack) as [visible' stack'].
    destruct IH as (-> & new & -> & HN & Hnew). split; [set_solver|]. exists new. split; [done|]. split; [done|].
    intros x. rewrite Hnew. set_solver.
  - specialize (IH ({[child]} ∪ visible) (child :: stack)). destruct (push_children _ _ _) as [visible' stack'].
    destruct IH as (-> & new & -> & HN & Hnew). split; [set_solver|]. exists (new ++ [child]). split; [by rewrite <- app_assoc|].
    split; [|intros x; rewrite elem_of_app, Hnew, list_elem_of_singleton; destruct (decide (x = child)); set_solver].
    apply NoDup_app. split; [done|]. split; [set_solver|apply NoDup_singleton].
Qed.

Lemma all_children_elem (kids_of : children) x kids y : kids_of !! x = Some kids -> y ∈ kids -> y ∈ all_children kids_of.
Proof.
  intros Hx Hy. unfold all_children. apply elem_of_list_to_set, list_elem_of_In, in_concat. exists kids.
  split; [|by apply list_elem_of_In]. apply in_map_iff. exists (x, kids). split; [done|]. by apply list_elem_of_In, elem_of_map_to_list.
Qed.

Section descend.
Context (kids_of : children) (start : bytes) (V : gset bytes).

Record descending (stack : list bytes) (visible : gset bytes) : Prop := {
  descending_old : V ⊆ visible;
  descending_new x : x ∈ visible -> x ∈ V \/ tc (down kids_of V) start x;
  descending_stack x : x ∈ stack -> rtc (down kids_of V) start x;
  descending_next x y : x = start \/ (x ∈ visible /\ x ∉ V) -> x ∈ stack \/ (down kids_of V x y -> y ∈ visible);
}.

Lemma descending_step label stack visible kids :
  descending (label :: stack) visible -> kids_of !! label = Some kids ->
  let '(visible', stack') := push_children kids visible stack in
  descending stack' visible' /\
  length stack' + size (all_children kids_of ∖ visible') <= length stack + size (all_children kids_of ∖ visible).
Proof.
  intros [Ho Hn Hs Hx] EK. pose proof (push_children_spec kids visible stack) as HP.
  destruct (push_children kids visible stack) as [visible' stack']. destruct HP as (-> & new & -> & HN & Hnew).
  assert (forall y, y ∈ kids -> y ∉ visible -> down kids_of V label y) as HD by (intros y Hy Hv; exists kids; set_solver).
  assert (rtc (down kids_of V) start label) as HL by (apply Hs; left). split; [split|].
  - set_solver.
  - intros x [Hx'|Hx'%elem_of_list_to_set]%elem_of_union; [by apply Hn|]. destruct (decide (x ∈ visible)); [by apply Hn|].
    right. eapply tc_rtc_l; [exact HL|]. apply tc_once, HD; done.
  - intros x [[Hk Hv]%Hnew|Hx']%elem_of_app; [eapply rtc_r; [exact HL|by apply HD]|apply Hs; by right].
  - intros x y Hxv. destruct (decide (x ∈ new)) as [|Hx']; [left; set_solver|]. rewrite Hnew in Hx'.
    destruct (Hx x y) as [[->|Hst]%elem_of_cons|HD'].
    + destruct Hxv as [|[[?|?%elem_of_list_to_set]%elem_of_union ?]]; [by left|by right|right]. destruct (decide (x ∈ visible)); tauto.
    + right. intros (kids' & E & Hy & _). simplify_eq. set_solver.
    + left. set_solver.
    + right. set_solver.
  - rewrite length_app. assert (size (all_children kids_of ∖ (visible ∪ list_to_set kids)) + length new <= size (all_children kids_of ∖ visible)); [|lia].
    rewrite <- (size_list_to_set (C := gset bytes) new) by done. rewrite <- size_union by set_solver.
    apply subseteq_size. intros x [Hx'|Hx']%elem_of_union; [set_solver|].
    apply elem_of_list_to_set, Hnew in Hx' as [Hk Hv]. apply elem_of_difference. split; [by eapply all_children_elem|done].
Qed.

Lemma descend_spec fuel stack visible :
  descending stack visible -> length stack + size (all_children kids_of ∖ visible) < fuel ->
  forall x, x ∈ descend fuel kids_of stack visible <-> x ∈ V \/ tc (down kids_of V) start x.
Proof.
  revert stack visible; induction fuel as [|fuel IH]; intros stack visible HD Hf x; [lia|].
  destruct stack as [|label stack]; simpl.
  - destruct HD as [Ho Hn _ Hx]. split; [apply Hn|]. intros [|HT]; [set_solver|].
    assert (forall y, rtc (down kids_of V) start y -> y = start \/ (y ∈ visible /\ y ∉ V)) as HC.
    { intros y. apply (rtc_closed _ (fun y => y = start \/ (y ∈ visible /\ y ∉ V))); [|by left].
      intros u z Hu Huz. right. destruct (Hx u z Hu) as [?|Hz]; [set_solver|]. split; [by apply Hz|]. by destruct Huz as (? & _ & _ & ?). }
    apply tc_last in HT as (y & Hy%HC & Hyx).
    destruct (Hx y x Hy) as [?|Hz]; [set_solver|by apply Hz].
  - destruct (kids_of !! label) as [kids|] eqn:EK.
    + pose proof (descending_step label stack visible kids HD EK) as HS.
      destruct (push_children kids visible stack) as [visible' stack']. destruct HS as [HD' Hm]. apply IH; [done|]. simpl in Hf. lia.
    + apply IH; [|simpl in Hf; lia]. destruct HD as [Ho Hn Hs Hx]. split; [done|done|intros y Hy; apply Hs; by right|].
      intros y z Hy. destruct (Hx y z Hy) as [[->|?]%elem_of_cons|?]; [|by left|by right].
      right. intros (kids & E & _). congruence.
Qed.

(** [add_descendants] adds exactly what can be reached from its start by going
    to children that were not visible before the call. *)
Lemma add_descendants_spec x : x ∈ add_descendants kids_of start V <-> x ∈ V \/ tc (down kids_of V) start x.
Proof.
  apply descend_spec; [|simpl; assert (size (all_children kids_of ∖ V) <= size (all_children kids_of)) by (apply subseteq_size; set_solver); lia].
  split; [done|by left|intros y ->%list_elem_of_singleton; apply rtc_refl|]. intros y z [->|[? ?]]; [left; set_solver|done].
Qed.
End descend.

(** ** Across the bridges *)

Definition linked (links : list (bytes * bytes)) (a b : bytes) : Prop := (a, b) ∈ links \/ (b, a) ∈ links.

(** What is visible from [V]: [V] itself, and the peers across established
    links of what is visible, with their ancestors. *)
Inductive sees (parent_of : parents) (links : list (bytes * bytes)) (V : gset bytes) : bytes -> Prop :=
| sees_base x : x ∈ V -> sees parent_of links V x
| sees_peer a b y : sees parent_of links V a -> linked links a b -> ancestor parent_of b y -> sees parent_of links V y.

Definition up_closed (parent_of : parents) (V : gset bytes) : Prop := forall x y, x ∈ V -> up parent_of x y -> y ∈ V.

Lemma up_closed_ancestor parent_of V x y : up_closed parent_of V -> x ∈ V -> ancestor parent_of x y -> y ∈ V.
Proof. intros HU. apply (rtc_closed (up parent_of) (fun x => x ∈ V)). exact HU. Qed.

Lemma up_closed_walk parent_of V start : up_closed parent_of V -> up_closed parent_of (walk_ancestors parent_of start V).1.
Proof.
  intros HU x y. destruct (walk_ancestors_spec parent_of start V) as [HW _]. rewrite !HW.
  intros [Hx|Hx] Hxy; [left; by eapply HU|right; by eapply rtc_r].
Qed.

(** The ends of the links. *)
Definition ends (links : list (bytes * bytes)) : list bytes := links.*1 ++ links.*2.

Lemma linked_ends links a b : linked links a b -> b ∈ ends links.
Proof. intros [H|H]; apply elem_of_app; [right|left]; apply list_elem_of_fmap; by eexists (_, _). Qed.

Section follow.
Context (parent_of : parents) (links0 : list (bytes * bytes)) (V : gset bytes).

Definition follows (visible : gset bytes) : Prop :=
  V ⊆ visible /\ up_closed parent_of visible /\ forall x, x ∈ visible -> sees parent_of links0 V x.

Lemma follow_links_spec links visible grew :
  links ⊆ links0 -> follows visible ->
  let '(visible', grew') := follow_links parent_of links visible grew in
  follows visible' /\ visible ⊆ visible' /\
  ((grew' = grew /\ visible' = visible /\ forall a b, (a, b) ∈ links -> a ∈ visible <-> b ∈ visible) \/
   (grew' = true /\ exists e, e ∈ ends links0 /\ e ∈ visible' /\ e ∉ visible)).
Proof.
  revert visible grew; induction links as [|[a b] links IH]; intros visible grew Hsub HF; simpl; [split; [done|]; split; [done|left; set_solver]|].
  destruct (eqb _ _) eqn:B.
  - apply eqb_prop in B. specialize (IH visible grew ltac:(set_solver) HF). destruct (follow_links _ _ _ _) as [visible' grew'].
    destruct IH as (HF' & Hv & Hc). split; [done|]. split; [done|]. destruct Hc as [(-> & -> & Hc)|Hc]; [left|by right].
    split; [done|]. split; [done|]. intros x y [[= -> ->]|Hxy]%elem_of_cons; [|by apply Hc].
    rewrite <- (bool_decide_eq_true (a ∈ visible)), B. apply bool_decide_eq_true.
  - apply eqb_false_iff in B. set (incoming := if bool_decide (a ∈ visible) then b else a).
    assert (incoming ∉ visible /\ exists peer, peer ∈ visible /\ linked links0 peer incoming) as (Hi & peer & Hp & Hl).
    { unfold incoming, linked. destruct (bool_decide_reflect (a ∈ visible)), (bool_decide_reflect (b ∈ visible)); try done;
        (split; [done|]); [exists a|exists b]; set_solver. }
    destruct (walk_ancestors_spec parent_of incoming visible) as [HW HG].
    pose proof (up_closed_walk parent_of visible incoming (proj1 (proj2 HF))) as HU.
    destruct (walk_ancestors parent_of incoming visible) as [visible1 more]. simpl in HW, HG, HU.
    assert (more = true) as -> by (apply HG; exists incoming; split; [apply rtc_refl|done]).
    assert (visible ⊆ visible1) as Hv1 by (intros x Hx; apply HW; by left).
    specialize (IH visible1 true ltac:(set_solver)). destruct (follow_links _ _ _ _) as [visible' grew']. destruct IH as (HF' & Hv & Hc).
    { split; [exact (transitivity (proj1 HF) Hv1)|]. split; [done|]. intros x [Hx|Hx]%HW; [by apply HF|]. eapply sees_peer; [by apply HF|exact Hl|done]. }
    split; [done|]. split; [exact (transitivity Hv1 Hv)|]. right. split; [by destruct Hc as [(-> & _)|(-> & _)]|]. exists incoming.
    split; [by eapply linked_ends|]. split; [|done]. apply Hv, HW. right. apply rtc_refl.
Qed.

(** Enough passes make the visible set exactly what [V] sees. *)
Lemma follow_all_spec fuel visible :
  follows visible -> size (list_to_set (ends links0) ∖ visible) < fuel ->
  forall x, x ∈ follow_all fuel parent_of links0 visible <-> sees parent_of links0 V x.
Proof.
  revert visible; induction fuel as [|fuel IH]; intros visible HF Hf x; [lia|]. simpl.
  pose proof (follow_links_spec links0 visible false ltac:(done) HF) as HL.
  destruct (follow_links parent_of links0 visible false) as [visible' grew]. destruct HL as (HF' & Hv & [(-> & -> & Hc)|(-> & e & He & Hev & Hen)]).
  - destruct HF as (HV & HU & HS). split; [apply HS|]. intros Hx. induction Hx as [x Hx|a b y _ Ha Hab Hy]; [by apply HV|].
    eapply up_closed_ancestor; [done| |done]. destruct Hab as [H|H]; apply Hc in H; tauto.
  - apply IH; [done|]. eapply Nat.lt_le_trans; [|apply Nat.lt_succ_r; exact Hf]. apply subset_size.
    split; [set_solver|]. intros HC. assert (e ∈ list_to_set (ends links0) ∖ visible) as H%HC; [|set_solver].
    apply elem_of_difference. by rewrite elem_of_list_to_set.
Qed.
End follow.

Lemma follow_all_sees parent_of links V x :
  up_closed parent_of V -> x ∈ follow_all (2 * length links + 1) parent_of links V <-> sees parent_of links V x.
Proof.
  intros HU. apply follow_all_spec; [split; [done|]; split; [done|apply sees_base]|].
  assert (size (list_to_set (ends links) ∖ V : gset bytes) <= length (ends links)) as Hs.
  { transitivity (size (list_to_set (ends links) : gset bytes)); [apply subseteq_size; set_solver|].
    induction (ends links) as [|e l IH]; simpl; [done|]. rewrite size_union_alt, size_singleton.
    assert (size (list_to_set l ∖ {[e]} : gset bytes) <= size (list_to_set l : gset bytes)) by (apply subseteq_size; set_solver). lia. }
  unfold ends in Hs at 2. rewrite length_app, !length_fmap in Hs. lia.
Qed.

Lemma sees_up_closed parent_of links V x y :
  up_closed parent_of V -> sees parent_of links V x -> up parent_of x y -> sees parent_of links V y.
Proof.
  intros HU Hx Hxy. destruct Hx as [x Hx|a b x Ha Hab Hx]; [apply sees_base; by eapply HU|].
  eapply sees_peer; [done|done|]. by eapply rtc_r.
Qed.

(** ** The maps of a tree *)

Lemma parents_of_lookup nodes l p :
  NoDup (map pn_label nodes) ->
  parents_of nodes !! l = Some p <-> exists node, node ∈ nodes /\ pn_label node = l /\ parent_label node = p.
Proof.
  unfold parents_of. induction nodes as [|node nodes IH] using rev_ind; intros HN; [simpl; rewrite lookup_empty; set_solver|].
  rewrite map_app in HN. apply NoDup_app in HN as (HN & Hd & _). rewrite foldl_app. simpl. rewrite lookup_insert.
  case_decide as E.
  - subst l. split; [intros [= <-]; exists node; set_solver|]. intros (n & [Hn|Hn%list_elem_of_singleton]%elem_of_app & El & <-).
    + exfalso. apply (Hd (pn_label node)); [|set_solver]. rewrite <- El. by apply list_elem_of_fmap_2.
    + by subst.
  - rewrite IH by done. split; [intros (n & ? & ?); exists n; set_solver|].
    intros (n & [Hn|Hn%list_elem_of_singleton]%elem_of_app & ? & ?); [eauto|]. congruence.
Qed.

Lemma children_of_elem nodes x y :
  (exists kids, children_of nodes !! x = Some kids /\ y ∈ kids) <->
  exists node, node ∈ nodes /\ pn_label node = y /\ parent_label node = Some x.
Proof.
  unfold children_of. induction nodes as [|node nodes IH] using rev_ind; [simpl; setoid_rewrite lookup_empty; set_solver|].
  rewrite foldl_app. simpl. set (m := foldl _ _ _) in *.
  assert ((exists n, n ∈ nodes ++ [node] /\ pn_label n = y /\ parent_label n = Some x) <->
    (exists kids, m !! x = Some kids /\ y ∈ kids) \/ (pn_label node = y /\ parent_label node = Some x)) as ->.
  { rewrite IH. setoid_rewrite elem_of_app. setoid_rewrite list_elem_of_singleton. naive_solver. }
  destruct (parent_label node) as [p|]; [|naive_solver]. setoid_rewrite lookup_insert. case_decide as E; cycle 1.
  { split; [by left|]. intros [?|[_ [= ?]]]; [done|congruence]. }
  subst p. split.
  - intros (kids & [= <-] & [Hy|Hy%list_elem_of_singleton]%elem_of_app); [|by right]. left.
    destruct (m !! x) as [k|]; simpl in Hy; [by exists k|set_solver].
  - intros [(kids & -> & Hy)|[Hy _]]; (eexists; split; [reflexivity|]); apply elem_of_app; [left; done|right; set_solver].
Qed.

Section tree.
Context (P : parents) (K : children).
(** The children map is the inverse of the parent map. *)
Context (inverse : forall x y, (exists kids, K !! x = Some kids /\ y ∈ kids) <-> up P y x).

Lemma up_fun x y z : up P x y -> up P x z -> y = z.
Proof. unfold up. congruence. Qed.

Lemma down_up V x y : down K V x y <-> up P y x /\ y ∉ V.
Proof. rewrite <- inverse. unfold down. naive_solver. Qed.

Lemma add_seed_up_closed V seed : up_closed P V -> up_closed P (add_seed P K V seed).
Proof.
  intros HU. unfold add_seed. case_decide as Hs; [|done]. set (V1 := (walk_ancestors P seed V).1).
  assert (up_closed P V1) as HU1 by (by apply up_closed_walk).
  assert (seed ∈ V1) as Hs1 by (apply (walk_ancestors_spec P seed V); right; apply rtc_refl).
  assert (up_closed P (add_descendants K seed V1)) as HU2.
  { intros x y. rewrite !add_descendants_spec. intros [Hx|Hx] Hxy; [left; by eapply HU1|].
    apply tc_last in Hx as (p & Hp & Hpx). apply down_up in Hpx as [Hpx _]. rewrite (up_fun x y p) by done.
    apply rtc_tc in Hp as [<-|Hp]; auto. }
  unfold add_siblings. destruct (mjoin (P !! seed)) as [p|] eqn:Ep; [|done]. destruct (K !! p) as [siblings|] eqn:EK; [|done].
  intros x y [Hx%elem_of_list_to_set|Hx]%elem_of_union Hxy; apply elem_of_union_r; [|by eapply HU2].
  assert (up P x p) as Hxp by (apply inverse; eauto). rewrite (up_fun x y p) by done.
  apply add_descendants_spec. left. eapply HU1; [exact Hs1|by apply up_join].
Qed.

Lemma seeds_up_closed seeds V : up_closed P V -> up_closed P (foldl (add_seed P K) V seeds).
Proof. revert V; induction seeds as [|seed seeds IH]; intros V HV; simpl; [done|]. by apply IH, add_seed_up_closed. Qed.

Lemma add_seed_mono V seed : V ⊆ add_seed P K V seed.
Proof.
  unfold add_seed. case_decide; [|done]. intros x Hx.
  assert (x ∈ add_descendants K seed (walk_ancestors P seed V).1) as H1.
  { apply add_descendants_spec. left. apply (walk_ancestors_spec P seed V). by left. }
  unfold add_siblings. destruct (mjoin (P !! seed)) as [p|]; [|done]. destruct (K !! p); [|done]. by apply elem_of_union_r.
Qed.

Lemma seeds_mono seeds V : V ⊆ foldl (add_seed P K) V seeds.
Proof. revert V; induction seeds as [|seed seeds IH]; intros V; simpl; [done|]. etrans; [apply add_seed_mono|apply IH]. Qed.

Lemma seed_in_add_seed V seed : is_Some (P !! seed) -> seed ∈ add_seed P K V seed.
Proof.
  intros Hs. unfold add_seed. rewrite decide_True by done.
  assert (seed ∈ add_descendants K seed (walk_ancestors P seed V).1) as H1.
  { apply add_descendants_spec. left. apply (walk_ancestors_spec P seed V). right. apply rtc_refl. }
  unfold add_siblings. destruct (mjoin (P !! seed)) as [p|]; [|done]. destruct (K !! p); [|done]. by apply elem_of_union_r.
Qed.

(** What a seed shows of its own tree: what is above it, below it and beside it. *)
Inductive near (seed x : bytes) : Prop :=
| near_above : ancestor P seed x -> near seed x
| near_below : ancestor P x seed -> near seed x
| near_beside p : up P seed p -> up P x p -> near seed x.

Context (acyclic : forall x, ~ tc (up P) x x).

Lemma ancestor_chain x y z : ancestor P x y -> ancestor P x z -> ancestor P y z \/ ancestor P z y.
Proof.
  intros Hxy. revert z; induction Hxy as [x|x u y Hxu Huy IH]; intros z Hxz; [by left|].
  inversion Hxz as [|? u' ? Hxu' Hu'z]; subst; [right; by eapply rtc_l|]. rewrite (up_fun x u' u) in Hu'z by done. by apply IH.
Qed.

Lemma ancestor_antisym x y : ancestor P x y -> ancestor P y x -> x = y.
Proof.
  intros Hxy Hyx. destruct Hxy as [|x u y Hxu Huy]; [done|]. exfalso. apply (acyclic x).
  eapply tc_rtc_r; [by apply tc_once|]. by etrans.
Qed.

(** Nothing that one seed shows lies strictly below another seed incomparable with it. *)
Lemma near_not_below s seed x : ~ ancestor P s seed -> ~ ancestor P seed s -> near s x -> tc (up P) x seed -> False.
Proof.
  intros H1 H2 Hn Hxs. destruct Hn as [Hx|Hx|p Hp Hx].
  - apply H1. etrans; [done|by apply tc_rtc].
  - apply tc_rtc in Hxs. destruct (ancestor_chain x s seed Hx Hxs); done.
  - apply H1. eapply rtc_l; [done|]. inversion Hxs as [? ? H|? p' ? H H']; subst; rewrite (up_fun x p _ Hx H); [done|by apply tc_rtc].
Qed.

Lemma down_below V seed x :
  (forall y, y ∈ V -> ~ tc (up P) y seed) -> tc (down K V) seed x <-> tc (up P) x seed.
Proof.
  intros HV. split.
  - clear HV. induction 1 as [? ? [H _]%down_up|? ? ? [H _]%down_up _ IH]; [by apply tc_once|]. by eapply tc_r.
  - intros Hx. induction Hx as [x seed Hx|x p seed Hx Hp IH].
    + apply tc_once, down_up. split; [done|]. intros HxV. by apply (HV x HxV), tc_once.
    + eapply tc_r; [by apply IH|]. apply down_up. split; [done|]. intros HxV. apply (HV x HxV). by eapply tc_l.
Qed.

Lemma add_seed_near V seed x :
  is_Some (P !! seed) -> (forall y, y ∈ V -> ~ tc (up P) y seed) ->
  x ∈ add_seed P K V seed <-> x ∈ V \/ near seed x.
Proof.
  intros Hs HV. unfold add_seed. rewrite decide_True by done. set (V1 := (walk_ancestors P seed V).1).
  assert (forall y, y ∈ V1 <-> y ∈ V \/ ancestor P seed y) as HV1 by apply (walk_ancestors_spec P seed V).
  assert (forall y, y ∈ add_descendants K seed V1 <-> y ∈ V \/ ancestor P seed y \/ ancestor P y seed) as HV2.
  { intros y. rewrite add_descendants_spec, down_below, HV1.
    - split; [intros [[?|?]|?%tc_rtc]; auto|]. intros [?|[?|[->|?]%rtc_tc]]; auto using rtc_refl.
    - intros z [Hz|Hz]%HV1 Hzs; [by eapply HV|]. apply (acyclic z). eapply tc_rtc_r; done. }
  assert (x ∈ add_siblings P K seed (add_descendants K seed V1) <->
    x ∈ add_descendants K seed V1 \/ exists p, up P seed p /\ up P x p) as ->.
  { unfold add_siblings. setoid_rewrite up_join at 1. destruct (mjoin (P !! seed)) as [p|]; [|naive_solver].
    setoid_rewrite <- inverse. destruct (K !! p) as [kids|] eqn:EK.
    - rewrite elem_of_union, elem_of_list_to_set. naive_solver.
    - naive_solver. }
  rewrite HV2. split.
  - intros [[?|[?|?]]|(p & ? & ?)]; [by left|right..]; [by apply near_above|by apply near_below|by eapply near_beside].
  - intros [?|[?|?|p ? ?]]; eauto.
Qed.

(** Labels no two of which are on one path to the root. *)
Definition antichain (seeds : list bytes) : Prop :=
  NoDup seeds /\ forall s s', s ∈ seeds -> s' ∈ seeds -> ancestor P s s' -> s = s'.

Lemma seeds_near seeds x :
  antichain seeds -> (forall s, s ∈ seeds -> is_Some (P !! s)) ->
  x ∈ foldl (add_seed P K) ∅ seeds <-> exists s, s ∈ seeds /\ near s x.
Proof.
  intros [HN HA] HS. revert x; induction seeds as [|seed seeds IH] using rev_ind; intros x; [simpl; set_solver|].
  apply NoDup_app in HN as (HN & Hd & _). rewrite foldl_app. simpl.
  assert (forall y, y ∈ foldl (add_seed P K) ∅ seeds <-> exists s, s ∈ seeds /\ near s y) as IH'.
  { apply IH; [done|intros; apply HA; set_solver|intros; apply HS; set_solver]. }
  rewrite add_seed_near, IH'.
  - setoid_rewrite elem_of_app. setoid_rewrite list_elem_of_singleton. naive_solver.
  - apply HS. set_solver.
  - intros y (s & Hs & Hy)%IH'. assert (s <> seed) as Hne by (intros ->; apply (Hd seed); set_solver).
    intros Hys. apply (near_not_below s seed y); [intros H; apply Hne, HA; set_solver| |done|done].
    intros H. apply Hne. symmetry. apply HA; set_solver.
Qed.
End tree.

(** ** What a published tree shows *)

Definition link_pairs (full : PublicTree) : list (bytes * bytes) := map (fun edge => (edge_from edge, edge_to edge)) (pt_links full).
Notation parents_in full := (parents_of (pt_nodes full)).

(** A tree with distinct labels and no cycle of parents. *)
Definition proper_tree (full : PublicTree) : Prop :=
  NoDup (map pn_label (pt_nodes full)) /\ forall x, ~ tc (up (parents_in full)) x x.

(** The rule of [visible_labels]: the seeds' lineages, descendants and siblings,
    and the fixpoint of established peers with their ancestors. *)
Inductive shown (full : PublicTree) (seeds : list bytes) : bytes -> Prop :=
| shown_above s x : s ∈ seeds -> ancestor (parents_in full) s x -> shown full seeds x
| shown_below s x : s ∈ seeds -> ancestor (parents_in full) x s -> shown full seeds x
| shown_beside s p x : s ∈ seeds -> up (parents_in full) s p -> up (parents_in full) x p -> shown full seeds x
| shown_peer a b x : shown full seeds a -> linked (link_pairs full) a b -> ancestor (parents_in full) b x -> shown full seeds x.

Lemma inverse_maps nodes x y :
  NoDup (map pn_label nodes) -> (exists kids, children_of nodes !! x = Some kids /\ y ∈ kids) <-> up (parents_of nodes) y x.
Proof. intros HN. unfold up. by rewrite children_of_elem, parents_of_lookup. Qed.

Lemma base_up_closed full seeds :
  NoDup (map pn_label (pt_nodes full)) ->
  up_closed (parents_in full) (foldl (add_seed (parents_in full) (children_of (pt_nodes full))) ∅ seeds).
Proof. intros HN. apply seeds_up_closed; [intros x y; by apply inverse_maps|]. intros x y Hx. set_solver. Qed.

Lemma visible_sees full seeds x :
  NoDup (map pn_label (pt_nodes full)) ->
  x ∈ visible_labels_in_public_tree full seeds <->
  sees (parents_in full) (link_pairs full) (foldl (add_seed (parents_in full) (children_of (pt_nodes full))) ∅ seeds) x.
Proof. intros HN. unfold visible_labels_in_public_tree, visible_from_maps. by apply follow_all_sees, base_up_closed. Qed.

(** Whatever the seeds, the parent of a visible label is visible. *)
Lemma visible_up_closed full seeds :
  NoDup (map pn_label (pt_nodes full)) -> up_closed (parents_in full) (visible_labels_in_public_tree full seeds).
Proof. intros HN x y. rewrite !visible_sees by done. by apply sees_up_closed, base_up_closed. Qed.

(** In a tree with distinct labels and no cycle, for seeds none of which is
    above another, the three loops of [visible_from_maps] stop with exactly the
    labels the visibility rule names: the seeds' ancestors, descendants and
    siblings, closed under established links to a peer and its ancestors. *)
Theorem visible_labels_exact full seeds x :
  proper_tree full -> antichain (parents_in full) seeds -> seeds ⊆ map pn_label (pt_nodes full) ->
  x ∈ visible_labels_in_public_tree full seeds <-> shown full seeds x.
Proof.
  intros [HN HA] HC Hsub. rewrite visible_sees by done.
  assert (forall y, y ∈ foldl (add_seed (parents_in full) (children_of (pt_nodes full))) ∅ seeds <->
    exists s, s ∈ seeds /\ near (parents_in full) s y) as HB.
  { intros y. apply seeds_near; [intros; by apply inverse_maps|done|done|]. intros s (node & -> & Hn)%Hsub%list_elem_of_fmap.
    exists (parent_label node). apply parents_of_lookup; [done|]. by exists node. }
  split.
  - induction 1 as [x (s & Hs & [Hx|Hx|p Hp Hx])%HB|a b x _ IH Hab Hx];
      [by eapply shown_above|by eapply shown_below|by eapply shown_beside|by eapply shown_peer].
  - induction 1 as [s x Hs Hx|s x Hs Hx|s p x Hs Hp Hx|a b x _ IH Hab Hx]; [..|by eapply sees_peer];
      apply sees_base, HB; exists s; (split; [done|]); [by apply near_above|by apply near_below|by eapply near_beside].
Qed.
