(* ===== verification/OrgTree.v ===== *)
(** * The relay's public trees ([src/src/relay/org_tree.rs])

    What the relay accepts as a public tree, the slice a recipient pulls, and
    the merge of a pushed slice into the stored document. The database around
    them (one JSON document per label) is not part of this file. *)

From S2P Require Import Prelude Text Crypto Visibility.
From stdpp Require Import gmap.

Section org_tree.
Context `{HexDecode}.

Definition check_node_keys (node : PublicNode) : result unit :=
  match pn_threshold node, encryption_fingerprint node, encryption_public_key node with
  | Some threshold, None, None => if (0 <? threshold)%N then Ok tt else Err InvalidTreeSpec
  | None, Some _, Some pk =>
      raw ← ok_or (hex_decode pk) InvalidPublicKey;
      if negb (length raw =? 32) then Err InvalidPublicKey else Ok tt
  | _, _, _ => Err InvalidTreeSpec
  end.

(** The first loop: the labels and the number of roots. *)
Fixpoint check_nodes (nodes : list PublicNode) (labels : gset bytes) (roots : nat) : result (gset bytes * nat) :=
  match nodes with
  | [] => Ok (labels, roots)
  | node :: nodes =>
      if bool_decide (pn_label node = []) || bool_decide (pn_label node ∈ labels) then Err DuplicateNodeLabel else
      let roots := if decide (parent_label node = None) then S roots else roots in
      _ ← check_node_keys node;
      check_nodes nodes ({[pn_label node]} ∪ labels) roots
  end.

Definition parent_known (labels : gset bytes) (node : PublicNode) : bool :=
  match parent_label node with Some parent => bool_decide (parent ∈ labels) | None => true end.

Definition edge_bad (labels : gset bytes) (edge : PublicEdge) : bool :=
  bool_decide (edge_from edge = edge_to edge) || negb (bool_decide (edge_from edge ∈ labels)) || negb (bool_decide (edge_to edge ∈ labels)).

Fixpoint check_whitelist (seen : gset PublicEdge) (edges : list PublicEdge) : result unit :=
  match edges with
  | [] => Ok tt
  | edge :: edges => if decide (edge ∈ seen) then Err InvalidBridge else check_whitelist ({[edge]} ∪ seen) edges
  end.

Definition edge_listed (whitelist : list PublicEdge) (edge : PublicEdge) : bool :=
  existsb (fun allowed => (bool_decide (edge_from allowed = edge_from edge) && bool_decide (edge_to allowed = edge_to edge))
                       || (bool_decide (edge_from allowed = edge_to edge) && bool_decide (edge_to allowed = edge_from edge))) whitelist.

Fixpoint check_links (whitelist : list PublicEdge) (seen : gset PublicEdge) (edges : list PublicEdge) : result unit :=
  match edges with
  | [] => Ok tt
  | edge :: edges =>
      if decide (edge ∈ seen) then Err InvalidBridge else
      if negb (edge_listed whitelist edge) then Err InvalidBridge else
      check_links whitelist ({[edge]} ∪ seen) edges
  end.

Fixpoint reach_loop (fuel : nat) (parent_of : gmap bytes (option bytes)) (root : bytes) (cur : option bytes) (seen : gset bytes) : bool :=
  match fuel, cur with
  | S fuel, Some label =>
      if decide (label ∈ seen) then false else
      if decide (label = root) then true else
      reach_loop fuel parent_of root (mjoin (parent_of !! label)) ({[label]} ∪ seen)
  | _, _ => false
  end.
Definition reaches_root (parent_of : gmap bytes (option bytes)) (start root : bytes) : bool :=
  reach_loop (size parent_of + 2) parent_of root (Some start) ∅.

(** [root] is the last node without a parent. *)
Definition last_root (nodes : list PublicNode) : option bytes :=
  foldl (fun root node => if decide (parent_label node = None) then Some (pn_label node) else root) None nodes.

Definition validate_public_tree (tree : PublicTree) : result unit :=
  if bool_decide (pt_label tree = []) || bool_decide (pt_nodes tree = []) then Err InvalidTreeSpec else
  '(labels, roots) ← check_nodes (pt_nodes tree) ∅ 0;
  if negb (roots =? 1) then Err InvalidTreeSpec else
  if negb (forallb (parent_known labels) (pt_nodes tree)) then Err InvalidTreeSpec else
  if existsb (edge_bad labels) (pt_whitelist tree ++ pt_links tree) then Err InvalidBridge else
  _ ← check_whitelist ∅ (pt_whitelist tree);
  _ ← check_links (pt_whitelist tree) ∅ (pt_links tree);
  root ← ok_or (last_root (pt_nodes tree)) InvalidTreeSpec;
  if forallb (fun node => reaches_root (parents_of (pt_nodes tree)) (pn_label node) root) (pt_nodes tree) then Ok tt
  else Err InvalidTreeSpec.

(** The loops over the stored edges: an edge between two incoming labels is the
    sender's to keep or drop; any other stays. *)
Fixpoint keep_edges (incoming_labels : gset bytes) (kept existing : list PublicEdge) : list PublicEdge :=
  match existing with
  | [] => kept
  | edge :: existing =>
      if decide (edge_within incoming_labels edge) then keep_edges incoming_labels kept existing else
      if decide (edge ∈ kept) then keep_edges incoming_labels kept existing
      else keep_edges incoming_labels (kept ++ [edge]) existing
  end.

Definition merge_into_existing (existing incoming : PublicTree) : result PublicTree :=
  let incoming_labels : gset bytes := list_to_set (map pn_label (pt_nodes incoming)) in
  let merged := {|
    pt_label := pt_label incoming;
    pt_generation := pt_generation existing;
    pt_nodes := pt_nodes incoming ++ filter (fun node => pn_label node ∉ incoming_labels) (pt_nodes existing);
    pt_whitelist := keep_edges incoming_labels (pt_whitelist incoming) (pt_whitelist existing);
    pt_links := keep_edges incoming_labels (pt_links incoming) (pt_links existing);
  |} in
  _ ← validate_public_tree merged;
  Ok merged.

Definition slice_for_fingerprint (full : PublicTree) (fingerprint : bytes) : option PublicTree :=
  let seeds := map pn_label (filter (fun node => encryption_fingerprint node = Some fingerprint) (pt_nodes full)) in
  if bool_decide (seeds = []) then None else
  Some (filter_public_tree full (visible_labels_in_public_tree full seeds)).
End org_tree.

(** ** What [validate_public_tree] accepts *)

Definition node_keys_ok `{HexDecode} (node : PublicNode) : Prop :=
  match pn_threshold node, encryption_fingerprint node, encryption_public_key node with
  | Some threshold, None, None => (0 < threshold)%N
  | None, Some _, Some pk => exists raw, hex_decode pk = Some raw /\ length raw = 32
  | _, _, _ => False
  end.

Definition edge_flip (edge : PublicEdge) : PublicEdge := {| edge_from := edge_to edge; edge_to := edge_from edge |}.
Definition has_label (tree : PublicTree) (x : bytes) : Prop := x ∈ map pn_label (pt_nodes tree).

Record valid_tree `{HexDecode} (tree : PublicTree) : Prop := {
  valid_label : pt_label tree <> [];
  valid_labels : NoDup (map pn_label (pt_nodes tree));
  valid_nodes node : node ∈ pt_nodes tree -> pn_label node <> [] /\ node_keys_ok node;
  valid_root : length (filter (fun node => parent_label node = None) (pt_nodes tree)) = 1;
  valid_parents node p : node ∈ pt_nodes tree -> parent_label node = Some p -> has_label tree p;
  valid_edges edge : edge ∈ pt_whitelist tree \/ edge ∈ pt_links tree ->
    edge_from edge <> edge_to edge /\ has_label tree (edge_from edge) /\ has_label tree (edge_to edge);
  valid_whitelist : NoDup (pt_whitelist tree);
  valid_links : NoDup (pt_links tree);
  valid_listed edge : edge ∈ pt_links tree -> edge ∈ pt_whitelist tree \/ edge_flip edge ∈ pt_whitelist tree;
  (** Every node has the root among its ancestors. *)
  valid_reach node : node ∈ pt_nodes tree ->
    exists root, root ∈ pt_nodes tree /\ parent_label root = None /\
      rtc (up (parents_of (pt_nodes tree))) (pn_label node) (pn_label root);
}.

Section validate.
Context `{HexDecode}.

Lemma check_node_keys_Ok node : check_node_keys node = Ok tt <-> node_keys_ok node.
Proof.
  unfold check_node_keys, node_keys_ok. destruct (pn_threshold node) as [n|], (encryption_fingerprint node), (encryption_public_key node) as [pk|]; try done.
  - destruct (0 <? n)%N eqn:B; [apply N.ltb_lt in B|apply N.ltb_ge in B]; split; (done || lia).
  - destruct (hex_decode pk) as [raw|]; simpl; [|naive_solver]. destruct (length raw =? 32) eqn:B; simpl.
    + apply Nat.eqb_eq in B. naive_solver.
    + apply Nat.eqb_neq in B. naive_solver.
Qed.

Lemma check_nodes_Ok nodes labels roots labels' roots' :
  check_nodes nodes labels roots = Ok (labels', roots') <->
  labels' = labels ∪ list_to_set (map pn_label nodes) /\
  roots' = roots + length (filter (fun node => parent_label node = None) nodes) /\
  NoDup (map pn_label nodes) /\ (forall x, x ∈ map pn_label nodes -> x ∉ labels) /\
  Forall (fun node => pn_label node <> [] /\ node_keys_ok node) nodes.
Proof.
  revert labels roots; induction nodes as [|node nodes IH]; intros labels roots; simpl.
  { split; [intros [= <- <-]; split_and!; [set_solver|lia|constructor|set_solver|constructor]|].
    intros (-> & -> & _). f_equal. f_equal; [set_solver|lia]. }
  destruct (_ || _) eqn:B.
  - split; [done|]. intros (_ & _ & _ & Hl & HF%Forall_cons). apply orb_true_iff in B as [B|B]; apply bool_decide_eq_true in B; [tauto|].
    exfalso. apply (Hl (pn_label node)); set_solver.
  - bool_hyps. rewrite NoDup_cons, Forall_cons, <- check_node_keys_Ok. destruct (check_node_keys node) as [[]|e]; simpl; [|naive_solver].
    rewrite IH. rewrite filter_cons. clear IH. split.
    + intros (-> & -> & HN & Hl & HF). split_and!; [set_solver|case_decide; simpl; lia| |done| |done|done|done].
      * intros Hx. apply (Hl _ Hx). set_solver.
      * intros x [->|Hx]%elem_of_cons; [done|]. specialize (Hl x Hx). set_solver.
    + intros (-> & -> & (Hx & HN) & Hl & _ & HF). split_and!; [set_solver|case_decide; simpl; lia|done| |done].
      intros x Hx' [->%elem_of_singleton|Hx'']%elem_of_union; [done|]. apply (Hl x); [by right|done].
Qed.

Lemma check_whitelist_Ok seen edges :
  check_whitelist seen edges = Ok tt <-> NoDup edges /\ forall e, e ∈ edges -> e ∉ seen.
Proof.
  revert seen; induction edges as [|edge edges IH]; intros seen; simpl; [split; [split; [constructor|set_solver]|done]|].
  rewrite NoDup_cons. case_decide as He; [split; [done|]; intros [_ Hs]; exfalso; apply (Hs edge); [left|done]|]. rewrite IH. split.
  - intros [HN Hs]. split_and!; [|done|]; [intros Hx; apply (Hs _ Hx); set_solver|].
    intros e [->|Hx]%elem_of_cons; [done|]. specialize (Hs e Hx). set_solver.
  - intros [[Hx HN] Hs]. split; [done|]. intros e He' [->%elem_of_singleton|He'']%elem_of_union; [done|]. apply (Hs e); [by right|done].
Qed.

Lemma edge_listed_spec whitelist edge : edge_listed whitelist edge = true <-> edge ∈ whitelist \/ edge_flip edge ∈ whitelist.
Proof.
  unfold edge_listed. rewrite existsb_exists. setoid_rewrite orb_true_iff. setoid_rewrite andb_true_iff.
  repeat setoid_rewrite bool_decide_eq_true. setoid_rewrite <- list_elem_of_In. destruct edge as [a b]. unfold edge_flip. simpl. split.
  - intros ([c d] & Hx & [[E1 E2]|[E1 E2]]); simpl in *; subst; auto.
  - intros [Hx|Hx]; eexists; (split; [exact Hx|]); simpl; auto.
Qed.

Lemma check_links_Ok whitelist seen edges :
  check_links whitelist seen edges = Ok tt <->
  check_whitelist seen edges = Ok tt /\ forall e, e ∈ edges -> e ∈ whitelist \/ edge_flip e ∈ whitelist.
Proof.
  revert seen; induction edges as [|edge edges IH]; intros seen; simpl; [set_solver|]. case_decide as He; [naive_solver|].
  destruct (edge_listed whitelist edge) eqn:EL; simpl.
  - rewrite IH. apply edge_listed_spec in EL. setoid_rewrite elem_of_cons. naive_solver.
  - split; [done|]. intros [_ Hl]. assert (edge_listed whitelist edge = true); [apply edge_listed_spec, Hl; left|congruence].
Qed.

(** The walk of [reaches_root] finds exactly the ancestors of its start. *)
Lemma reaches_root_spec (P : gmap bytes (option bytes)) start root : reaches_root P start root = true <-> rtc (up P) start root.
Proof.
  assert (forall fuel cur seen grew, walking P start ∅ cur seen seen grew -> root ∉ seen -> size P + 2 <= fuel + size seen ->
    reach_loop fuel P root cur seen = true <-> rtc (up P) start root) as HL.
  { assert (forall cur seen grew, walking P start ∅ cur seen seen grew -> root ∉ seen -> (forall x, cur = Some x -> x ∈ seen) ->
      ~ rtc (up P) start root) as Hstop.
    { intros cur seen grew HW Hr Hc Hx. destruct (walking_done P start ∅ cur seen seen grew HW Hc) as [HD _]. apply Hr, HD. by right. }
    induction fuel as [|fuel IH]; intros cur seen grew HW Hr Hf; simpl.
    - destruct cur as [label|].
      + destruct (walking_keys _ _ _ _ _ _ _ HW) as [|Hk]; [done|]. apply subseteq_size in Hk. rewrite size_dom in Hk. lia.
      + split; [done|]. intros Hx. by destruct (Hstop None seen grew HW Hr).
    - destruct cur as [label|]; [|split; [done|]; intros Hx; by destruct (Hstop None seen grew HW Hr)].
      case_decide as Hl; [split; [done|]; intros Hx; destruct (Hstop _ seen grew HW Hr); [naive_solver|done]|].
      case_decide as El; [split; [intros _|done]; subst; by apply (walking_cur _ _ _ _ _ _ _ HW)|].
      eapply IH; [apply (walking_step _ _ _ label _ _ grew HW Hl)|set_solver|]. rewrite size_union, size_singleton by set_solver. lia. }
  apply (HL _ _ _ false); [|set_solver|rewrite size_empty; lia]. split; set_solver.
Qed.

Lemma last_root_Some nodes : match last_root nodes with
  | Some l => exists root, root ∈ nodes /\ parent_label root = None /\ pn_label root = l
  | None => forall node, node ∈ nodes -> parent_label node <> None
  end.
Proof.
  unfold last_root. induction nodes as [|node nodes IH] using rev_ind; [set_solver|]. rewrite foldl_app. simpl.
  case_decide as E; [exists node; set_solver|]. destruct (foldl _ None nodes); set_solver.
Qed.

Lemma one_root nodes r r' :
  length (filter (fun node => parent_label node = None) nodes) = 1 ->
  r ∈ nodes -> parent_label r = None -> r' ∈ nodes -> parent_label r' = None -> r = r'.
Proof.
  intros Hl Hr Er Hr' Er'. assert (r ∈ filter (fun node => parent_label node = None) nodes) as H1 by (by apply list_elem_of_filter).
  assert (r' ∈ filter (fun node => parent_label node = None) nodes) as H2 by (by apply list_elem_of_filter).
  destruct (filter _ nodes) as [|x [|y l]]; try done. set_solver.
Qed.

Lemma edge_bad_false labels edge : edge_bad labels edge = false <-> edge_from edge <> edge_to edge /\ edge_within labels edge.
Proof.
  unfold edge_bad, edge_within. rewrite !orb_false_iff, !negb_false_iff, bool_decide_eq_false, !bool_decide_eq_true. tauto.
Qed.

Lemma parent_known_all labels nodes :
  forallb (parent_known labels) nodes = true <-> forall node p, node ∈ nodes -> parent_label node = Some p -> p ∈ labels.
Proof.
  rewrite forallb_forall. setoid_rewrite <- list_elem_of_In. unfold parent_known. split.
  - intros Hn node p Hx E. specialize (Hn node Hx). rewrite E in Hn. by apply bool_decide_eq_true in Hn.
  - intros Hn node Hx. destruct (parent_label node) as [p|] eqn:E; [|done]. apply bool_decide_eq_true. eauto.
Qed.

(** [validate_public_tree] accepts exactly the valid trees. *)
Lemma validate_public_tree_Ok tree : validate_public_tree tree = Ok tt <-> valid_tree tree.
Proof.
  unfold validate_public_tree. split.
  - intros Hv. destruct (_ || _) eqn:B; [done|]. bool_hyps.
    apply bind_Ok in Hv as ([labels roots] & (EL & -> & HN & _ & HF)%check_nodes_Ok & Hv).
    assert (forall x, x ∈ labels <-> has_label tree x) as Hlab by (intros x; unfold has_label; set_solver). clear EL.
    destruct (_ =? 1) eqn:E1; [|done]. apply Nat.eqb_eq in E1. cbn [negb] in Hv.
    destruct (forallb _ _) eqn:EP; [|done]. rewrite parent_known_all in EP. cbn [negb] in Hv.
    destruct (existsb _ _) eqn:EE; [done|]. rewrite existsb_false in EE. cbn [negb] in Hv.
    apply bind_Ok in Hv as ([] & [HW _]%check_whitelist_Ok & Hv).
    apply bind_Ok in Hv as ([] & [[HK _]%check_whitelist_Ok HL]%check_links_Ok & Hv).
    apply bind_Ok in Hv as (root & ER%ok_or_Ok & Hv). destruct (forallb _ _) eqn:EF; [|done]. rewrite forallb_forall in EF.
    pose proof (last_root_Some (pt_nodes tree)) as HR. rewrite ER in HR. destruct HR as (r & Hr & Er & <-).
    split; try done.
    + rewrite Forall_forall in HF. apply HF.
    + intros node p Hn Ep. apply Hlab. by eapply EP.
    + intros edge He. destruct (proj1 (edge_bad_false _ _) (EE edge ltac:(by apply elem_of_app))) as (? & ?%Hlab & ?%Hlab). done.
    + intros node Hn. exists r. split; [done|]. split; [done|]. apply reaches_root_spec, EF. by apply list_elem_of_In.
  - intros [Vl Vn Vk Vr Vp Ve Vw Vlk Vls Vrc]. rewrite bool_decide_false by done.
    rewrite bool_decide_false by (intros E; rewrite E in Vr; done). cbn [orb].
    rewrite (proj2 (check_nodes_Ok (pt_nodes tree) ∅ 0 (list_to_set (map pn_label (pt_nodes tree))) 1)).
    2:{ split_and!; [set_solver|by rewrite Vr|done|set_solver|by apply Forall_forall]. }
    cbn [mbind result_bind]. change (negb (1 =? 1)) with false. cbv iota.
    rewrite (proj2 (parent_known_all _ _)). 2:{ intros node p Hn Ep. apply elem_of_list_to_set. by eapply Vp. } cbn [negb].
    rewrite (proj2 (existsb_false _ _)).
    2:{ intros edge He%elem_of_app. destruct (Ve edge He) as (? & ? & ?). apply edge_bad_false. split; [done|].
        split; by apply elem_of_list_to_set. }
    rewrite (proj2 (check_whitelist_Ok _ _)) by set_solver. cbn [mbind result_bind].
    rewrite (proj2 (check_links_Ok _ _ _)) by (split; [apply check_whitelist_Ok; set_solver|done]). cbn [mbind result_bind].
    pose proof (last_root_Some (pt_nodes tree)) as HR. destruct (last_root (pt_nodes tree)) as [l|]; cycle 1.
    { destruct (filter _ (pt_nodes tree)) as [|r l] eqn:EF; [done|].
      assert (r ∈ filter (fun node => parent_label node = None) (pt_nodes tree)) as [E Hr]%list_elem_of_filter by (rewrite EF; left).
      by destruct (HR r Hr). }
    destruct HR as (r & Hr & Er & <-). cbn [mbind result_bind ok_or].
    rewrite (proj2 (forallb_forall _ _)); [done|]. intros node Hn%list_elem_of_In. apply reaches_root_spec.
    destruct (Vrc node Hn) as (r' & Hr' & Er' & Hreach). by rewrite (one_root _ r r' Vr Hr Er Hr' Er').
Qed.
End validate.

(** ** Slices *)

Section slices.
Context `{HexDecode}.

Lemma up_node tree x y :
  valid_tree tree -> up (parents_of (pt_nodes tree)) x y <-> exists node, node ∈ pt_nodes tree /\ pn_label node = x /\ parent_label node = Some y.
Proof. intros HV. unfold up. by rewrite parents_of_lookup by apply HV. Qed.

Lemma label_node tree x : has_label tree x <-> exists node, node ∈ pt_nodes tree /\ pn_label node = x.
Proof. unfold has_label. rewrite list_elem_of_fmap. naive_solver. Qed.

(** Where every node reaches the root there is no cycle. *)
Lemma valid_acyclic tree x : valid_tree tree -> ~ tc (up (parents_of (pt_nodes tree))) x x.
Proof.
  intros HV Hx. set (P := parents_of (pt_nodes tree)) in *.
  assert (forall y, rtc (up P) x y -> tc (up P) y y) as HC.
  { intros y. apply (rtc_closed (up P) (fun y => tc (up P) y y)); [|done]. intros u v Hu Huv.
    inversion Hu as [? ? Huu|? w ? Huw Hwu]; subst; [rewrite <- (up_fun P u u v) by done; done|].
    rewrite (up_fun P u w v) in Hwu by done. by eapply tc_r. }
  assert (exists y, up P x y) as [y Hxy] by (inversion Hx; eauto).
  apply up_node in Hxy as (node & Hn & <- & _); [|done]. destruct (valid_reach _ HV node Hn) as (root & Hr & Er & Hreach).
  assert (exists z, up P (pn_label root) z) as [z Hz] by (apply HC in Hreach; inversion Hreach; eauto).
  unfold up, P in Hz. assert (parents_of (pt_nodes tree) !! pn_label root = Some None) as E; [|congruence].
  apply parents_of_lookup; [apply HV|]. by exists root.
Qed.

Lemma valid_proper tree : valid_tree tree -> proper_tree tree.
Proof. intros HV. split; [apply HV|]. intros x. by apply valid_acyclic. Qed.

Lemma ancestor_label tree x y :
  valid_tree tree -> has_label tree x -> rtc (up (parents_of (pt_nodes tree))) x y -> has_label tree y.
Proof.
  intros HV. apply (rtc_closed _ (has_label tree)). intros u v _ (node & Hn & <- & Ep)%up_node; [|done]. by eapply valid_parents.
Qed.

Lemma slice_has_label full V x : has_label (filter_public_tree full V) x <-> has_label full x /\ x ∈ V.
Proof. rewrite !label_node. simpl. setoid_rewrite list_elem_of_filter. naive_solver. Qed.

Lemma NoDup_labels_filter (V : gset bytes) nodes :
  NoDup (map pn_label nodes) -> NoDup (map pn_label (filter (fun node => pn_label node ∈ V) nodes)).
Proof. intros HN. eapply sublist_NoDup; [exact HN|]. apply fmap_sublist, sublist_filter. Qed.

Lemma slice_up full V x y :
  valid_tree full -> up (parents_of (pt_nodes (filter_public_tree full V))) x y <-> x ∈ V /\ up (parents_of (pt_nodes full)) x y.
Proof.
  intros HV. simpl. unfold up. rewrite !parents_of_lookup by (try apply NoDup_labels_filter; apply HV).
  setoid_rewrite list_elem_of_filter. naive_solver.
Qed.

(** A slice along a set closed under parents keeps every path to the root. *)
Lemma slice_valid full V :
  valid_tree full -> up_closed (parents_of (pt_nodes full)) V -> (exists x, x ∈ V /\ has_label full x) ->
  valid_tree (filter_public_tree full V).
Proof.
  intros HV HU (x0 & Hx0 & HL0). pose proof HV as [Vl Vn Vk Vr Vp Ve Vw Vlk Vls Vrc].
  assert (forall x, x ∈ V -> forall y, rtc (up (parents_of (pt_nodes full))) x y ->
    rtc (up (parents_of (pt_nodes (filter_public_tree full V)))) x y) as Hpath.
  { intros x Hx y Hxy. induction Hxy as [|x u y Hxu _ IH]; [done|]. eapply rtc_l; [by apply slice_up|]. by eapply IH, HU. }
  split; [done|by apply NoDup_labels_filter| | | | | | | |].
  - intros node [_ Hn]%list_elem_of_filter. by apply Vk.
  - apply label_node in HL0 as (node & Hn & <-). destruct (Vrc node Hn) as (root & Hr & Er & Hreach).
    assert (pn_label root ∈ V) as HrV by (by eapply up_closed_ancestor).
    simpl. rewrite list_filter_filter. destruct (filter (fun node => parent_label node = None) (pt_nodes full)) as [|r [|? ?]] eqn:EF; try done.
    assert (r = root) as ->.
    { assert (root ∈ filter (fun node => parent_label node = None) (pt_nodes full)) as HH by (by apply list_elem_of_filter). rewrite EF in HH. set_solver. }
    rewrite (list_filter_iff _ (fun node => pn_label node ∈ V /\ parent_label node = None)) by tauto.
    rewrite <- list_filter_filter, EF, filter_cons_True by done. done.
  - intros node p [Hn HnV]%list_elem_of_filter Ep. apply slice_has_label. split; [by eapply Vp|].
    eapply HU; [exact Hn|]. apply up_node; [done|]. by exists node.
  - intros edge He. simpl in He. rewrite !list_elem_of_filter in He.
    destruct (Ve edge) as (? & ? & ?); [tauto|]. rewrite !slice_has_label. unfold edge_within in He. tauto.
  - by apply NoDup_filter.
  - by apply NoDup_filter.
  - intros edge [[H1 H2] He]%list_elem_of_filter. simpl. rewrite !list_elem_of_filter. unfold edge_within, edge_flip in *. simpl.
    destruct (Vls edge He); [left|right]; done.
  - intros node [HnV Hn]%list_elem_of_filter. destruct (Vrc node Hn) as (root & Hr & Er & Hreach). exists root.
    split; [apply list_elem_of_filter; split; [by eapply up_closed_ancestor|done]|]. split; [done|]. by apply Hpath.
Qed.

Lemma visible_seed full seeds s :
  NoDup (map pn_label (pt_nodes full)) -> s ∈ seeds -> has_label full s -> s ∈ visible_labels_in_public_tree full seeds.
Proof.
  intros HN Hs HL. rewrite visible_sees by done. apply sees_base.
  assert (is_Some (parents_of (pt_nodes full) !! s)) as Hsome.
  { apply label_node in HL as (node & Hn & <-). exists (parent_label node). apply parents_of_lookup; [done|]. by exists node. }
  clear HL. generalize (∅ : gset bytes). revert Hs. induction seeds as [|seed seeds IH]; intros Hs V; [set_solver|]. simpl.
  apply elem_of_cons in Hs as [<-|Hs]; [|by apply IH]. apply seeds_mono, seed_in_add_seed; done.
Qed.

Lemma slice_seeds full fp s :
  s ∈ map pn_label (filter (fun node => encryption_fingerprint node = Some fp) (pt_nodes full)) -> has_label full s.
Proof. intros (node & -> & [_ Hn]%list_elem_of_filter)%list_elem_of_fmap. apply label_node. eauto. Qed.

Lemma slice_for_fingerprint_Some full fp slice :
  NoDup (map pn_label (pt_nodes full)) -> slice_for_fingerprint full fp = Some slice ->
  exists V, slice = filter_public_tree full V /\ up_closed (parents_of (pt_nodes full)) V /\ exists x, x ∈ V /\ has_label full x.
Proof.
  unfold slice_for_fingerprint. intros HN. case_bool_decide as E; [done|]. intros [= <-].
  eexists. split; [reflexivity|]. split; [by apply visible_up_closed|].
  apply list_eq_nil_elem in E as [s Hs]. pose proof (slice_seeds _ _ _ Hs). exists s. split; [by apply visible_seed|done].
Qed.

(** Whatever a recipient is shown is again a tree the relay would accept:
    the slice of a valid public tree for any fingerprint that occurs in it is a
    valid public tree (one root, every parent present, every node connected to
    the root, every link between two kept labels still whitelisted). *)
Theorem slice_for_fingerprint_valid full fp slice :
  validate_public_tree full = Ok tt -> slice_for_fingerprint full fp = Some slice -> validate_public_tree slice = Ok tt.
Proof.
  intros HV%validate_public_tree_Ok HS. apply validate_public_tree_Ok.
  apply slice_for_fingerprint_Some in HS as (V & -> & HU & HL); [|apply HV]. by apply slice_valid.
Qed.
End slices.

(** ** Merging *)


Lemma keep_edges_elem L kept existing e : e ∈ keep_edges L kept existing <-> e ∈ kept \/ (e ∈ existing /\ ~ edge_within L e).
Proof.
  revert kept; induction existing as [|x existing IH]; intros kept; simpl; [set_solver|].
  case_decide as Hw; [|case_decide as Hk]; rewrite IH, elem_of_cons.
  - split; [naive_solver|]. intros [?|[[->|?] ?]]; [by left|done|by right].
  - split; [naive_solver|]. intros [?|[[->|?] ?]]; [by left|by left|by right].
  - rewrite elem_of_app, list_elem_of_singleton. split; [|naive_solver]. intros [[?| ->]|[? ?]]; auto.
Qed.

Lemma keep_edges_eq L kept existing :
  NoDup existing -> keep_edges L kept existing = kept ++ filter (fun e => ~ edge_within L e /\ e ∉ kept) existing.
Proof.
  intros HN. revert kept; induction HN as [|x existing Hx HN IH]; intros kept; simpl; [by rewrite app_nil_r|]. rewrite filter_cons.
  case_decide as Hw; [rewrite decide_False by tauto; apply IH|]. case_decide as Hk; [rewrite decide_False by tauto; apply IH|].
  rewrite decide_True by done. rewrite IH, <- app_assoc. simpl. do 2 f_equal. apply list_filter_iff_in. intros y Hy.
  rewrite elem_of_app, list_elem_of_singleton. assert (y <> x) by (intros ->; done). tauto.
Qed.

Section merging.
Context `{HexDecode}.

(** Validity does not depend on the order of nodes and edges. *)
Lemma valid_tree_perm t t' :
  valid_tree t -> pt_label t' = pt_label t -> pt_nodes t' ≡ₚ pt_nodes t ->
  pt_whitelist t' ≡ₚ pt_whitelist t -> pt_links t' ≡ₚ pt_links t -> valid_tree t'.
Proof.
  intros [Vl Vn Vk Vr Vp Ve Vw Vlk Vls Vrc] El En Ew Ek.
  assert (map pn_label (pt_nodes t') ≡ₚ map pn_label (pt_nodes t)) as Em by (by apply fmap_Permutation).
  assert (NoDup (map pn_label (pt_nodes t'))) as HN by (by rewrite Em).
  assert (parents_of (pt_nodes t') = parents_of (pt_nodes t)) as EP.
  { apply map_eq. intros l. apply option_eq. intros p. rewrite !parents_of_lookup by done. by setoid_rewrite En. }
  assert (forall x, has_label t' x <-> has_label t x) as EL by (intros x; unfold has_label; by rewrite Em).
  split.
  - by rewrite El.
  - done.
  - intros node Hn. rewrite En in Hn. by apply Vk.
  - by rewrite En.
  - intros node p Hn. rewrite En in Hn. rewrite EL. by apply Vp.
  - intros edge He. rewrite Ew, Ek in He. rewrite !EL. by apply Ve.
  - by rewrite Ew.
  - by rewrite Ek.
  - intros edge He. rewrite Ek in He. rewrite Ew. by apply Vls.
  - intros node Hn. rewrite En in Hn. rewrite EP. setoid_rewrite En. by apply Vrc.
Qed.

(** The stored edges outside a slice, put back after the slice's own. *)
Lemma keep_edges_slice L V edges :
  NoDup edges -> (forall e, e ∈ edges -> edge_within L e <-> edge_within V e) ->
  keep_edges L (filter (edge_within V) edges) edges ≡ₚ edges.
Proof.
  intros HN HL. rewrite keep_edges_eq by done. transitivity (filter (edge_within V) edges ++ filter (fun e => ~ edge_within V e) edges);
    [|apply filter_app_complement]. apply Permutation_app; [done|].
  apply Permutation_refl', list_filter_iff_in. intros e He. rewrite list_elem_of_filter, HL by done. tauto.
Qed.

(** Merging a slice back into the tree it was cut from changes nothing: the
    merge succeeds with the same label and generation and, up to order, the same
    nodes, whitelist and links, so a personal subgraph erases nothing. *)
Theorem merge_slice_identity full fp slice :
  validate_public_tree full = Ok tt -> slice_for_fingerprint full fp = Some slice ->
  exists merged, merge_into_existing full slice = Ok merged /\
    pt_label merged = pt_label full /\ pt_generation merged = pt_generation full /\
    pt_nodes merged ≡ₚ pt_nodes full /\ pt_whitelist merged ≡ₚ pt_whitelist full /\ pt_links merged ≡ₚ pt_links full.
Proof.
  intros HV%validate_public_tree_Ok HS. apply slice_for_fingerprint_Some in HS as (V & -> & _); [|apply HV].
  unfold merge_into_existing. set (L := list_to_set _ : gset bytes).
  assert (forall x, x ∈ L <-> has_label full x /\ x ∈ V) as HL.
  { intros x. unfold L. rewrite elem_of_list_to_set. apply (slice_has_label full V). }
  set (merged := {| pt_label := _ |}).
  assert (forall edges, NoDup edges -> (forall e, e ∈ edges -> has_label full (edge_from e) /\ has_label full (edge_to e)) ->
    keep_edges L (filter (edge_within V) edges) edges ≡ₚ edges) as HE.
  { intros edges HN He. apply keep_edges_slice; [done|]. intros e [? ?]%He. unfold edge_within. rewrite !HL. tauto. }
  assert (pt_nodes merged ≡ₚ pt_nodes full) as En.
  { unfold merged. simpl. rewrite <- (filter_app_complement (fun node => pn_label node ∈ V) (pt_nodes full)) at 3.
    apply Permutation_app; [done|]. apply Permutation_refl'. apply list_filter_iff_in. intros node Hn. rewrite HL.
    assert (has_label full (pn_label node)) by (apply label_node; eauto). tauto. }
  assert (pt_whitelist merged ≡ₚ pt_whitelist full) as Ew.
  { apply HE; [apply HV|]. intros e He. by apply (valid_edges _ HV); left. }
  assert (pt_links merged ≡ₚ pt_links full) as Ek.
  { apply HE; [apply HV|]. intros e He. by apply (valid_edges _ HV); right. }
  exists merged. rewrite (proj2 (validate_public_tree_Ok merged)) by (by eapply valid_tree_perm). done.
Qed.
End merging.

Section merge_frame.
Context `{HexDecode}.

(** A merge that succeeds gives a valid tree with the incoming label and the
    stored generation; its nodes are the incoming ones and the stored ones under
    labels the sender does not mention, and its edges are the incoming ones and
    the stored ones with an end the sender does not mention. *)
Theorem merge_into_existing_frame existing incoming merged :
  merge_into_existing existing incoming = Ok merged ->
  valid_tree merged /\ pt_label merged = pt_label incoming /\ pt_generation merged = pt_generation existing /\
  (forall node, node ∈ pt_nodes merged <->
     node ∈ pt_nodes incoming \/ (node ∈ pt_nodes existing /\ ~ has_label incoming (pn_label node))) /\
  (forall e, e ∈ pt_whitelist merged <-> e ∈ pt_whitelist incoming \/
     (e ∈ pt_whitelist existing /\ ~ (has_label incoming (edge_from e) /\ has_label incoming (edge_to e)))) /\
  (forall e, e ∈ pt_links merged <-> e ∈ pt_links incoming \/
     (e ∈ pt_links existing /\ ~ (has_label incoming (edge_from e) /\ has_label incoming (edge_to e)))).
Proof.
  unfold merge_into_existing. intros ([] & HV%validate_public_tree_Ok & [= <-])%bind_Ok.
  split; [done|]. split; [done|]. split; [done|]. unfold has_label. split; [|split]; intros x; simpl.
  - rewrite elem_of_app, list_elem_of_filter, elem_of_list_to_set. tauto.
  - rewrite keep_edges_elem. unfold edge_within. by rewrite !elem_of_list_to_set.
  - rewrite keep_edges_elem. unfold edge_within. by rewrite !elem_of_list_to_set.
Qed.
End merge_frame.

(** Concrete trees; hexadecimal is read as 32 zero bytes. *)
Module TreeDemo.
#[export] Instance any_hex : HexDecode := fun _ => Some (replicate 32 x00).

Definition split_at (label : bytes) (parent : option bytes) : PublicNode :=
  {| pn_label := label; parent_label := parent; pn_threshold := Some 2%N; pn_is_active := true;
     encryption_fingerprint := None; encryption_public_key := None |}.
Definition leaf_at (label : bytes) (parent : option bytes) (fp : bytes) : PublicNode :=
  {| pn_label := label; parent_label := parent; pn_threshold := None; pn_is_active := true;
     encryption_fingerprint := Some fp; encryption_public_key := Some fp |}.
Definition edge (a b : bytes) : PublicEdge := {| edge_from := a; edge_to := b |}.

(** Two departments under one root, with a link between two of their leaves. *)
Definition org : PublicTree := {|
  pt_label := str "org"; pt_generation := 4;
  pt_nodes := [split_at (str "M") None; split_at (str "M.A") (Some (str "M")); split_at (str "M.S") (Some (str "M"));
               leaf_at (str "M.A.1") (Some (str "M.A")) (str "f1"); leaf_at (str "M.A.2") (Some (str "M.A")) (str "f2");
               leaf_at (str "M.S.1") (Some (str "M.S")) (str "f3"); leaf_at (str "M.S.2") (Some (str "M.S")) (str "f4")];
  pt_whitelist := [edge (str "M.A.2") (str "M.S.1"); edge (str "M.A.1") (str "M.S.2")];
  pt_links := [edge (str "M.S.1") (str "M.A.2")];
|}.

Definition org_slice : PublicTree :=
  Eval vm_compute in match slice_for_fingerprint org (str "f2") with Some t => t | None => org end.

Lemma org_valid : validate_public_tree org = Ok tt.
Proof. vm_compute. reflexivity. Defined.
Lemma org_sliced : slice_for_fingerprint org (str "f2") = Some org_slice.
Proof. vm_compute. reflexivity. Defined.

(** A chain of key holders, and the same nodes with the last one listed first. *)
Definition chain_nodes : list PublicNode :=
  [split_at (str "M") None; leaf_at (str "A") (Some (str "M")) (str "f"); split_at (str "B") (Some (str "A"));
   leaf_at (str "D") (Some (str "B")) (str "g"); split_at (str "C") (Some (str "B")); leaf_at (str "E") (Some (str "C")) (str "f")].
Definition chain_tree (nodes : list PublicNode) : PublicTree :=
  {| pt_label := str "chain"; pt_generation := 1; pt_nodes := nodes; pt_whitelist := []; pt_links := [] |}.
Definition sees_label (label : bytes) (slice : option PublicTree) : bool :=
  match slice with Some t => bool_decide (label ∈ map pn_label (pt_nodes t)) | None => false end.
End TreeDemo.

(** The slice for [f2] of the demonstration tree is a valid tree. *)
Lemma slice_for_fingerprint_valid_witness :
  slice_for_fingerprint TreeDemo.org (str "f2") = Some TreeDemo.org_slice /\
  validate_public_tree (H := TreeDemo.any_hex) TreeDemo.org_slice = Ok tt.
Proof.
  split; [exact TreeDemo.org_sliced|].
  exact (slice_for_fingerprint_valid (H := TreeDemo.any_hex) TreeDemo.org (str "f2") TreeDemo.org_slice TreeDemo.org_valid TreeDemo.org_sliced).
Defined.

(** Merging that slice back gives the tree again. *)
Lemma merge_slice_identity_witness :
  exists merged, merge_into_existing (H := TreeDemo.any_hex) TreeDemo.org TreeDemo.org_slice = Ok merged /\
    pt_nodes merged ≡ₚ pt_nodes TreeDemo.org.
Proof.
  destruct (merge_slice_identity (H := TreeDemo.any_hex) TreeDemo.org (str "f2") TreeDemo.org_slice TreeDemo.org_valid TreeDemo.org_sliced)
    as (merged & E & _ & _ & En & _).
  exists merged. split; [exact E|exact En].
Defined.

(** The merge of the slice succeeds, and keeps a node the slice does not mention. *)
Lemma merge_into_existing_frame_witness :
  exists merged, merge_into_existing (H := TreeDemo.any_hex) TreeDemo.org TreeDemo.org_slice = Ok merged /\
    TreeDemo.leaf_at (str "M.S.2") (Some (str "M.S")) (str "f4") ∈ pt_nodes merged.
Proof.
  destruct (merge_into_existing (H := TreeDemo.any_hex) TreeDemo.org TreeDemo.org_slice) as [merged|e] eqn:E;
    [|vm_compute in E; discriminate].
  exists merged. split; [reflexivity|].
  destruct (merge_into_existing_frame (H := TreeDemo.any_hex) _ _ _ E) as (_ & _ & _ & Hn & _). apply Hn.
  right. split.
  - apply (bool_decide_unpack _). vm_compute. exact I.
  - unfold has_label. apply (bool_decide_unpack _). vm_compute. exact I.
Defined.

(** The visible set depends on the order of the seeds when one seed is above
    another: [add_descendants] does not go below a label that is visible
    already. The same tree with the same fingerprint shows node [D] or hides it,
    depending on the order of the nodes in the document. *)
Theorem slice_depends_on_node_order :
  Permutation TreeDemo.chain_nodes (reverse TreeDemo.chain_nodes) /\
  validate_public_tree (H := TreeDemo.any_hex) (TreeDemo.chain_tree TreeDemo.chain_nodes) = Ok tt /\
  validate_public_tree (H := TreeDemo.any_hex) (TreeDemo.chain_tree (reverse TreeDemo.chain_nodes)) = Ok tt /\
  TreeDemo.sees_label (str "D") (slice_for_fingerprint (TreeDemo.chain_tree TreeDemo.chain_nodes) (str "f")) = true /\
  TreeDemo.sees_label (str "D") (slice_for_fingerprint (TreeDemo.chain_tree (reverse TreeDemo.chain_nodes)) (str "f")) = false.
Proof. split; [symmetry; apply reverse_Permutation|]. vm_compute. repeat split. Qed.

(** The visibility rule at a leaf of the demonstration tree: the leaf across the
    link is shown, and the other leaf of that department is not. *)
Lemma visible_labels_exact_witness :
  shown TreeDemo.org [str "M.A.2"] (str "M.S.1") /\ ~ shown TreeDemo.org [str "M.A.2"] (str "M.S.2").
Proof.
  assert (proper_tree TreeDemo.org) as HP by (apply (valid_proper (H := TreeDemo.any_hex)), validate_public_tree_Ok, TreeDemo.org_valid).
  assert (antichain (parents_of (pt_nodes TreeDemo.org)) [str "M.A.2"]) as HA.
  { split; [apply NoDup_singleton|]. intros s s' ->%list_elem_of_singleton ->%list_elem_of_singleton. reflexivity. }
  assert ([str "M.A.2"] ⊆ map pn_label (pt_nodes TreeDemo.org)) as HS.
  { intros s ->%list_elem_of_singleton. apply (bool_decide_unpack _). vm_compute. exact I. }
  pose proof (visible_labels_exact TreeDemo.org [str "M.A.2"] (str "M.S.1") HP HA HS) as H1.
  pose proof (visible_labels_exact TreeDemo.org [str "M.A.2"] (str "M.S.2") HP HA HS) as H2. split.
  - apply H1. apply (bool_decide_unpack _). vm_compute. exact I.
  - rewrite <- H2. apply (bool_decide_unpack _). vm_compute. exact I.
Defined.
