(* ===== verification/Tables.v ===== *)
(** * The tables of the database ([src/src/db/schema.sql])

    One record per row, and per group of tables. *)

From S2P Require Import Prelude.

(** * The tables of private bridges ([src/src/db/schema.sql])

    [private_bridges], [private_bridge_members], [private_bridge_sealed_keys],
    [bridge_events] and [tracked_bridge_approvals]; a timestamp column is kept only
    as whether it is set. The rows and the operations on them are those of
    [src/src/private_bridge.rs], see [PrivateBridge]. *)

Inductive PartyRole := Member | Supervisor.
#[export] Instance PartyRole_eq_dec : EqDecision PartyRole.
Proof. solve_decision. Defined.

Record BridgeRow := {
  br_id : nat;
  br_uid : bytes;
  br_key_id : option nat;
  br_label : option bytes;
  br_generation : N;
  br_public_key : bytes;
  br_salt : bytes;
  br_destroyed : bool;
}.

Record PartyRow := {
  py_bridge_id : nat;
  py_label : bytes;
  py_encryption : bytes;
  py_signing : option bytes;
  py_role : PartyRole;
  py_is_local : bool;
}.

Record SealedRow := { sl_bridge_id : nat; sl_label : bytes; sl_wrap_salt : bytes; sl_wrapped : bytes }.

(** The values of an event's detail object. *)
Inductive detail_value := DText (t : bytes) | DNumber (n : N) | DList (l : list bytes) | DBool (b : bool).
Record BridgeEventRow := { be_bridge_id : nat; be_event_type : bytes; be_detail : list (bytes * detail_value) }.

Record BridgeTables := {
  tb_bridges : list BridgeRow;
  tb_parties : list PartyRow;
  tb_sealed : list SealedRow;
  tb_events : list BridgeEventRow;
  (** revision id, bridge uid, artifact *)
  tb_approvals : list (bytes * bytes * bytes);
}.

Definition no_bridges : BridgeTables := {| tb_bridges := []; tb_parties := []; tb_sealed := []; tb_events := []; tb_approvals := [] |}.

Definition set_tb_bridges (l : list BridgeRow) (t : BridgeTables) : BridgeTables :=
  {| tb_bridges := l; tb_parties := tb_parties t; tb_sealed := tb_sealed t; tb_events := tb_events t; tb_approvals := tb_approvals t |}.
Definition set_tb_parties (l : list PartyRow) (t : BridgeTables) : BridgeTables :=
  {| tb_bridges := tb_bridges t; tb_parties := l; tb_sealed := tb_sealed t; tb_events := tb_events t; tb_approvals := tb_approvals t |}.
Definition set_tb_sealed (l : list SealedRow) (t : BridgeTables) : BridgeTables :=
  {| tb_bridges := tb_bridges t; tb_parties := tb_parties t; tb_sealed := l; tb_events := tb_events t; tb_approvals := tb_approvals t |}.
Definition set_tb_events (l : list BridgeEventRow) (t : BridgeTables) : BridgeTables :=
  {| tb_bridges := tb_bridges t; tb_parties := tb_parties t; tb_sealed := tb_sealed t; tb_events := l; tb_approvals := tb_approvals t |}.
Definition set_tb_approvals (l : list (bytes * bytes * bytes)) (t : BridgeTables) : BridgeTables :=
  {| tb_bridges := tb_bridges t; tb_parties := tb_parties t; tb_sealed := tb_sealed t; tb_events := tb_events t; tb_approvals := l |}.

(** * The tables of organization updates ([src/src/db/schema.sql])

    [org_updates], the log of what was applied, and [pending_org_actions], the
    restructures that wait for a countersignature. *)

Inductive UpdateKind := KeyReissueKind | TreeKind.
#[export] Instance UpdateKind_eq_dec : EqDecision UpdateKind.
Proof. solve_decision. Defined.

(** [org_updates]; the JSON text of [detail] is the list of its fields. *)
Record UpdateRow := {
  up_id : nat;
  up_kind : UpdateKind;
  up_tree_label : bytes;
  up_subject_label : bytes;
  up_sequence : N;
  up_authorizer_label : bytes;
  up_detail : list (bytes * detail_value);
}.

(** [pending_org_actions] *)
Record PendingRow := {
  pd_id : nat;
  pd_key_id : option nat;
  pd_tree_label : bytes;
  pd_authorizer_label : bytes;
  pd_countersigner_label : bytes;
  pd_generation : N;
  pd_proposal_hash : bytes;
  pd_proposal : bytes;
}.

Record OrgTables := { ot_updates : list UpdateRow; ot_pending : list PendingRow }.
Definition no_updates : OrgTables := {| ot_updates := []; ot_pending := [] |}.
Definition set_ot_updates (l : list UpdateRow) (t : OrgTables) : OrgTables := {| ot_updates := l; ot_pending := ot_pending t |}.
Definition set_ot_pending (l : list PendingRow) (t : OrgTables) : OrgTables := {| ot_updates := ot_updates t; ot_pending := l |}.

(** * The tables of protected files and credentials ([src/src/db/schema.sql])

    [credentials], [password_locked_files], the two share tables, [pins], [files]
    with its [unlock_events], and [label_authority_evidence]. A timestamp column is
    the text SQLite stores; [NULL] is [None]. *)

(** What a PIN can stand before ([src/src/pin.rs]). *)
Inductive ResourceType := Credential | LockedFile | QuorumFile | CredentialShare | FileShare.
#[export] Instance ResourceType_eq_dec : EqDecision ResourceType.
Proof. solve_decision. Defined.

(** [credentials] *)
Record CredentialRow := {
  cr_id : nat;
  cr_label : bytes;
  cr_username : option bytes;
  cr_kdf_salt : bytes;
  cr_nonce : bytes;
  cr_ciphertext : bytes;
}.

(** [password_locked_files] *)
Record LockedRow := {
  lf_id : nat;
  lf_name : bytes;
  lf_encrypted_path : bytes;
  lf_kdf_salt : bytes;
  lf_nonce : bytes;
  lf_expires_at : option bytes;
}.

(** [credential_shares] and [file_shares], which differ in what [resource] refers to. *)
Record ShareRow := {
  sr_id : nat;
  sr_resource : nat;
  sr_token_hash : bytes;
  sr_expires_at : bytes;
  sr_max_uses : option Z;
  sr_use_count : Z;
  sr_revoked_at : option bytes;
}.

(** [pins] *)
Record PinRow := {
  pn_id : nat;
  pn_resource_type : ResourceType;
  pn_resource_id : nat;
  pn_pin_hash : bytes;
  pn_pin_salt : bytes;
  pn_require_every_use : bool;
  pn_ttl_seconds : Z;
  pn_attempt_count : Z;
  pn_locked_at : option bytes;
  pn_unlocked_until : option bytes;
}.

(** [files] *)
Record FileRow := {
  fr_id : nat;
  fr_name : bytes;
  fr_encrypted_path : bytes;
  fr_key_id : nat;
  fr_nonce : bytes;
  fr_created_at : bytes;
  fr_expires_at : option bytes;
}.

(** [unlock_events] *)
Record EventRow := { ue_id : nat; ue_file_id : nat; ue_success : bool; ue_keys_presented : bytes }.

(** [label_authority_evidence] *)
Record EvidenceRow := {
  lv_scope_root : bytes;
  lv_label : bytes;
  lv_identity : bytes;
  lv_signing_public : bytes;
  lv_first_generation : Z;
  lv_last_generation : Z;
}.

Record VaultTables := {
  vt_credentials : list CredentialRow;
  vt_locked : list LockedRow;
  vt_credential_shares : list ShareRow;
  vt_file_shares : list ShareRow;
  vt_pins : list PinRow;
  vt_files : list FileRow;
  vt_events : list EventRow;
  vt_evidence : list EvidenceRow;
}.
Definition no_vault : VaultTables := {| vt_credentials := []; vt_locked := []; vt_credential_shares := []; vt_file_shares := []; vt_pins := []; vt_files := []; vt_events := []; vt_evidence := [] |}.

Definition set_vt_credentials (l : list CredentialRow) (t : VaultTables) : VaultTables :=
  {| vt_credentials := l; vt_locked := vt_locked t; vt_credential_shares := vt_credential_shares t; vt_file_shares := vt_file_shares t; vt_pins := vt_pins t; vt_files := vt_files t; vt_events := vt_events t; vt_evidence := vt_evidence t |}.
Definition set_vt_locked (l : list LockedRow) (t : VaultTables) : VaultTables :=
  {| vt_credentials := vt_credentials t; vt_locked := l; vt_credential_shares := vt_credential_shares t; vt_file_shares := vt_file_shares t; vt_pins := vt_pins t; vt_files := vt_files t; vt_events := vt_events t; vt_evidence := vt_evidence t |}.
Definition set_vt_credential_shares (l : list ShareRow) (t : VaultTables) : VaultTables :=
  {| vt_credentials := vt_credentials t; vt_locked := vt_locked t; vt_credential_shares := l; vt_file_shares := vt_file_shares t; vt_pins := vt_pins t; vt_files := vt_files t; vt_events := vt_events t; vt_evidence := vt_evidence t |}.
Definition set_vt_file_shares (l : list ShareRow) (t : VaultTables) : VaultTables :=
  {| vt_credentials := vt_credentials t; vt_locked := vt_locked t; vt_credential_shares := vt_credential_shares t; vt_file_shares := l; vt_pins := vt_pins t; vt_files := vt_files t; vt_events := vt_events t; vt_evidence := vt_evidence t |}.
Definition set_vt_pins (l : list PinRow) (t : VaultTables) : VaultTables :=
  {| vt_credentials := vt_credentials t; vt_locked := vt_locked t; vt_credential_shares := vt_credential_shares t; vt_file_shares := vt_file_shares t; vt_pins := l; vt_files := vt_files t; vt_events := vt_events t; vt_evidence := vt_evidence t |}.
Definition set_vt_files (l : list FileRow) (t : VaultTables) : VaultTables :=
  {| vt_credentials := vt_credentials t; vt_locked := vt_locked t; vt_credential_shares := vt_credential_shares t; vt_file_shares := vt_file_shares t; vt_pins := vt_pins t; vt_files := l; vt_events := vt_events t; vt_evidence := vt_evidence t |}.
Definition set_vt_events (l : list EventRow) (t : VaultTables) : VaultTables :=
  {| vt_credentials := vt_credentials t; vt_locked := vt_locked t; vt_credential_shares := vt_credential_shares t; vt_file_shares := vt_file_shares t; vt_pins := vt_pins t; vt_files := vt_files t; vt_events := l; vt_evidence := vt_evidence t |}.
Definition set_vt_evidence (l : list EvidenceRow) (t : VaultTables) : VaultTables :=
  {| vt_credentials := vt_credentials t; vt_locked := vt_locked t; vt_credential_shares := vt_credential_shares t; vt_file_shares := vt_file_shares t; vt_pins := vt_pins t; vt_files := vt_files t; vt_events := vt_events t; vt_evidence := l |}.

(** * The tables of rings ([src/src/db/schema.sql])

    The rings and slots of outboxes and inboxes, the refusals, the letters pulled,
    and the timelines. Pointers and slot indexes are natural numbers: a ring has at
    most 1024 slots. *)

(** [outbox_rings] and [inbox_rings]; only the former counts what was sent. *)
Record RingRow := {
  rg_key : bytes;
  rg_capacity : nat;
  rg_read_index : nat;
  rg_write_index : nat;
  rg_size : nat;
  rg_sent_total : N;
}.

(** [outbox_slots]; [claim_token] and [claimed_at] are set and cleared together. *)
Record OutSlot := {
  os_owner : bytes;
  os_index : nat;
  os_kind : byte;
  os_recipient : bytes;
  os_content : bytes;
  os_content_hash : bytes;
  os_queued_at : bytes;
  os_claim : option (bytes * Z);
}.

(** Why the ring turned a letter away ([src/src/outbox.rs]). *)
Inductive Refusal := NoPassport | DeviceLetter | UnrecognisedDestination | OutOfOrder | RingFull | Oversized | Tampered.
#[export] Instance Refusal_eq_dec : EqDecision Refusal.
Proof. solve_decision. Defined.

(** [outbox_refusals] *)
Record RefusalRow := {
  rf_id : nat;
  rf_owner : bytes;
  rf_recipient : bytes;
  rf_kind : option byte;
  rf_step : option bytes;
  rf_rule : Refusal;
  rf_refused_at : bytes;
}.

(** [inbox_slots] and [inbox_letters] *)
Record InSlot := { is_relay : bytes; is_index : nat; is_letter : Z; is_kind : byte; is_content_hash : bytes }.
Record LetterRow := { lt_relay : bytes; lt_id : Z; lt_kind : byte; lt_handled : bool }.

(** [ring_histories] and [ring_events] *)
Record HistoryRow := { hr_id : bytes; hr_kind : bytes; hr_key : bytes; hr_count : N; hr_head : bytes }.
Record RingEvent := { re_history : bytes; re_sequence : N; re_event : bytes }.

Record RingTables := {
  rt_outbox_rings : list RingRow;
  rt_outbox_slots : list OutSlot;
  rt_refusals : list RefusalRow;
  rt_inbox_rings : list RingRow;
  rt_inbox_slots : list InSlot;
  rt_letters : list LetterRow;
  rt_histories : list HistoryRow;
  rt_events : list RingEvent;
}.
Definition no_rings : RingTables := {| rt_outbox_rings := []; rt_outbox_slots := []; rt_refusals := []; rt_inbox_rings := []; rt_inbox_slots := []; rt_letters := []; rt_histories := []; rt_events := [] |}.
Definition set_rt_outbox_rings (l : list RingRow) (t : RingTables) : RingTables :=
  {| rt_outbox_rings := l; rt_outbox_slots := rt_outbox_slots t; rt_refusals := rt_refusals t; rt_inbox_rings := rt_inbox_rings t; rt_inbox_slots := rt_inbox_slots t; rt_letters := rt_letters t; rt_histories := rt_histories t; rt_events := rt_events t |}.
Definition set_rt_outbox_slots (l : list OutSlot) (t : RingTables) : RingTables :=
  {| rt_outbox_rings := rt_outbox_rings t; rt_outbox_slots := l; rt_refusals := rt_refusals t; rt_inbox_rings := rt_inbox_rings t; rt_inbox_slots := rt_inbox_slots t; rt_letters := rt_letters t; rt_histories := rt_histories t; rt_events := rt_events t |}.
Definition set_rt_refusals (l : list RefusalRow) (t : RingTables) : RingTables :=
  {| rt_outbox_rings := rt_outbox_rings t; rt_outbox_slots := rt_outbox_slots t; rt_refusals := l; rt_inbox_rings := rt_inbox_rings t; rt_inbox_slots := rt_inbox_slots t; rt_letters := rt_letters t; rt_histories := rt_histories t; rt_events := rt_events t |}.
Definition set_rt_inbox_rings (l : list RingRow) (t : RingTables) : RingTables :=
  {| rt_outbox_rings := rt_outbox_rings t; rt_outbox_slots := rt_outbox_slots t; rt_refusals := rt_refusals t; rt_inbox_rings := l; rt_inbox_slots := rt_inbox_slots t; rt_letters := rt_letters t; rt_histories := rt_histories t; rt_events := rt_events t |}.
Definition set_rt_inbox_slots (l : list InSlot) (t : RingTables) : RingTables :=
  {| rt_outbox_rings := rt_outbox_rings t; rt_outbox_slots := rt_outbox_slots t; rt_refusals := rt_refusals t; rt_inbox_rings := rt_inbox_rings t; rt_inbox_slots := l; rt_letters := rt_letters t; rt_histories := rt_histories t; rt_events := rt_events t |}.
Definition set_rt_letters (l : list LetterRow) (t : RingTables) : RingTables :=
  {| rt_outbox_rings := rt_outbox_rings t; rt_outbox_slots := rt_outbox_slots t; rt_refusals := rt_refusals t; rt_inbox_rings := rt_inbox_rings t; rt_inbox_slots := rt_inbox_slots t; rt_letters := l; rt_histories := rt_histories t; rt_events := rt_events t |}.
Definition set_rt_histories (l : list HistoryRow) (t : RingTables) : RingTables :=
  {| rt_outbox_rings := rt_outbox_rings t; rt_outbox_slots := rt_outbox_slots t; rt_refusals := rt_refusals t; rt_inbox_rings := rt_inbox_rings t; rt_inbox_slots := rt_inbox_slots t; rt_letters := rt_letters t; rt_histories := l; rt_events := rt_events t |}.
Definition set_rt_events (l : list RingEvent) (t : RingTables) : RingTables :=
  {| rt_outbox_rings := rt_outbox_rings t; rt_outbox_slots := rt_outbox_slots t; rt_refusals := rt_refusals t; rt_inbox_rings := rt_inbox_rings t; rt_inbox_slots := rt_inbox_slots t; rt_letters := rt_letters t; rt_histories := rt_histories t; rt_events := l |}.

(** * The tables of transfers ([src/src/db/schema.sql], [src/src/transfer.rs])

    [key_identities], [key_possession], [key_provenance], [transfer_transactions] and
    [transfer_audit]. A column whose values a [CHECK] lists is a type of its own. *)

Inductive TransferOp := Copy | Move.
#[export] Instance TransferOp_eq_dec : EqDecision TransferOp.
Proof. solve_decision. Defined.

Inductive Possession := Active | Ghost.
#[export] Instance Possession_eq_dec : EqDecision Possession.
Proof. solve_decision. Defined.

Inductive TxRole := SourceRole | DestinationRole.
#[export] Instance TxRole_eq_dec : EqDecision TxRole.
Proof. solve_decision. Defined.

Inductive TxState := Prepared | Transferred | Writing | DestinationCommitted | Acknowledged | SourceFinalized | Completed | Aborted | NeedsAdmin.
#[export] Instance TxState_eq_dec : EqDecision TxState.
Proof. solve_decision. Defined.

(** [key_identities] *)
Record IdentityRow := {
  ir_id : bytes;
  ir_label : bytes;
  ir_parent : option bytes;
  ir_enc_public : bytes;
  ir_sign_public : bytes;
  ir_enc_fingerprint : bytes;
  ir_sign_fingerprint : bytes;
}.

(** [key_possession]: a generation is an [i64] that is never below one. *)
Record PossessionRow := { po_identity : bytes; po_state : Possession; po_generation : N }.

(** [key_provenance] *)
Record ProvenanceRow := { pv_identity : bytes; pv_device : bytes; pv_state : Possession }.

(** [transfer_transactions] *)
Record TxRow := {
  tr_id : bytes;
  tr_operation : TransferOp;
  tr_role : TxRole;
  tr_state : TxState;
  tr_peer : bytes;
  tr_root : bytes;
  tr_mode : bytes;
  tr_hash : bytes;
  tr_detail : bytes;
}.

(** [transfer_audit] *)
Record TransferAudit := {
  ta_id : nat;
  ta_transaction : bytes;
  ta_operation : TransferOp;
  ta_source : bytes;
  ta_destination : bytes;
  ta_key : bytes;
  ta_path : bytes;
  ta_mode : bytes;
  ta_result : bytes;
  ta_detail : bytes;
}.

Record TransferTables := {
  tt_identities : list IdentityRow;
  tt_possession : list PossessionRow;
  tt_provenance : list ProvenanceRow;
  tt_transactions : list TxRow;
  tt_audit : list TransferAudit;
}.
Definition no_transfers : TransferTables := {| tt_identities := []; tt_possession := []; tt_provenance := []; tt_transactions := []; tt_audit := [] |}.
Definition set_tt_identities (l : list IdentityRow) (t : TransferTables) : TransferTables :=
  {| tt_identities := l; tt_possession := tt_possession t; tt_provenance := tt_provenance t; tt_transactions := tt_transactions t; tt_audit := tt_audit t |}.
Definition set_tt_possession (l : list PossessionRow) (t : TransferTables) : TransferTables :=
  {| tt_identities := tt_identities t; tt_possession := l; tt_provenance := tt_provenance t; tt_transactions := tt_transactions t; tt_audit := tt_audit t |}.
Definition set_tt_provenance (l : list ProvenanceRow) (t : TransferTables) : TransferTables :=
  {| tt_identities := tt_identities t; tt_possession := tt_possession t; tt_provenance := l; tt_transactions := tt_transactions t; tt_audit := tt_audit t |}.
Definition set_tt_transactions (l : list TxRow) (t : TransferTables) : TransferTables :=
  {| tt_identities := tt_identities t; tt_possession := tt_possession t; tt_provenance := tt_provenance t; tt_transactions := l; tt_audit := tt_audit t |}.
Definition set_tt_audit (l : list TransferAudit) (t : TransferTables) : TransferTables :=
  {| tt_identities := tt_identities t; tt_possession := tt_possession t; tt_provenance := tt_provenance t; tt_transactions := tt_transactions t; tt_audit := l |}.
