(* ===== verification/KeyStore.v ===== *)
(** * The key registry and the custody rules ([src/src/keys.rs], [src/src/device.rs])

    The tables of [src/src/db/schema.sql] the split trees use are the record
    [Store]; a function that takes a [Connection] is a computation in [dbM], which
    gives back its [Result] and the store as it leaves it. A statement that breaks
    a constraint of the schema is the error [Db]. Row ids are natural numbers and
    a table is a list in the order of its ids; a new row gets the largest id plus
    one, as SQLite does. Then the registry of hardware keys and the grouping of
    the leaves used in an unlock by physical device. *)

From stdpp Require Import gmap.
From S2P Require Import Prelude Text Crypto Authority Tables.

(** ** The tables *)

Inductive KeyType := Encryption | Signing.
#[export] Instance KeyType_eq_dec : EqDecision KeyType.
Proof. solve_decision. Defined.

(** [hardware_keys]; [hk_revoked] says whether [revoked_at] is set. *)
Record HardwareKey := {
  hk_id : nat;
  hk_label : bytes;
  hk_key_type : KeyType;
  hk_fingerprint : bytes;
  hk_public_key : bytes;
  hk_revoked : bool;
}.

Inductive CustodyMode := Hardware | Logical.
Inductive UnlockApproval := NoApproval | Parent.
#[export] Instance CustodyMode_eq_dec : EqDecision CustodyMode.
Proof. solve_decision. Defined.
#[export] Instance UnlockApproval_eq_dec : EqDecision UnlockApproval.
Proof. solve_decision. Defined.

Record CustodyPolicy := { cp_mode : CustodyMode; cp_minimum_physical_devices : N; cp_unlock_approval : UnlockApproval }.

(** [keys] *)
Record KeyRow := { ky_id : nat; ky_label : bytes; ky_generation : N; ky_custody : CustodyPolicy }.

(** [key_nodes] *)
Record NodeRow := {
  nr_id : nat;
  nr_key : nat;
  nr_parent : option nat;
  nr_label : bytes;
  nr_threshold : option N;
  nr_hardware : option nat;
  nr_share : option bytes;
  nr_active : bool;
}.

Record Store := {
  st_hardware : list HardwareKey;
  st_keys : list KeyRow;
  st_nodes : list NodeRow;
  st_bridges : list (nat * bytes);
  st_links : list (nat * nat);
  (** [device_placements]: device id and slot label of a hardware key. *)
  st_placements : gmap nat (bytes * bytes);
  (** [key_identities], [key_possession] and the rest of [src/src/transfer.rs] *)
  st_transfer : TransferTables;
  st_generations : gset (nat * N);
  st_private : BridgeTables;
  st_org : OrgTables;
  st_vault : VaultTables;
  st_rings : RingTables;
}.

Definition set_hardware (l : list HardwareKey) (st : Store) : Store :=
  {| st_hardware := l; st_keys := st_keys st; st_nodes := st_nodes st; st_bridges := st_bridges st; st_links := st_links st;
     st_placements := st_placements st; st_transfer := st_transfer st; st_generations := st_generations st; st_private := st_private st; st_org := st_org st; st_vault := st_vault st; st_rings := st_rings st |}.
Definition set_keys (l : list KeyRow) (st : Store) : Store :=
  {| st_hardware := st_hardware st; st_keys := l; st_nodes := st_nodes st; st_bridges := st_bridges st; st_links := st_links st;
     st_placements := st_placements st; st_transfer := st_transfer st; st_generations := st_generations st; st_private := st_private st; st_org := st_org st; st_vault := st_vault st; st_rings := st_rings st |}.
Definition set_nodes (l : list NodeRow) (st : Store) : Store :=
  {| st_hardware := st_hardware st; st_keys := st_keys st; st_nodes := l; st_bridges := st_bridges st; st_links := st_links st;
     st_placements := st_placements st; st_transfer := st_transfer st; st_generations := st_generations st; st_private := st_private st; st_org := st_org st; st_vault := st_vault st; st_rings := st_rings st |}.
Definition set_bridges (l : list (nat * bytes)) (st : Store) : Store :=
  {| st_hardware := st_hardware st; st_keys := st_keys st; st_nodes := st_nodes st; st_bridges := l; st_links := st_links st;
     st_placements := st_placements st; st_transfer := st_transfer st; st_generations := st_generations st; st_private := st_private st; st_org := st_org st; st_vault := st_vault st; st_rings := st_rings st |}.
Definition set_links (l : list (nat * nat)) (st : Store) : Store :=
  {| st_hardware := st_hardware st; st_keys := st_keys st; st_nodes := st_nodes st; st_bridges := st_bridges st; st_links := l;
     st_placements := st_placements st; st_transfer := st_transfer st; st_generations := st_generations st; st_private := st_private st; st_org := st_org st; st_vault := st_vault st; st_rings := st_rings st |}.
Definition set_placements (m : gmap nat (bytes * bytes)) (st : Store) : Store :=
  {| st_hardware := st_hardware st; st_keys := st_keys st; st_nodes := st_nodes st; st_bridges := st_bridges st; st_links := st_links st;
     st_placements := m; st_transfer := st_transfer st; st_generations := st_generations st; st_private := st_private st; st_org := st_org st; st_vault := st_vault st; st_rings := st_rings st |}.
Definition set_generations (g : gset (nat * N)) (st : Store) : Store :=
  {| st_hardware := st_hardware st; st_keys := st_keys st; st_nodes := st_nodes st; st_bridges := st_bridges st; st_links := st_links st;
     st_placements := st_placements st; st_transfer := st_transfer st; st_generations := g; st_private := st_private st; st_org := st_org st; st_vault := st_vault st; st_rings := st_rings st |}.
Definition set_private (t : BridgeTables) (st : Store) : Store :=
  {| st_hardware := st_hardware st; st_keys := st_keys st; st_nodes := st_nodes st; st_bridges := st_bridges st; st_links := st_links st;
     st_placements := st_placements st; st_transfer := st_transfer st; st_generations := st_generations st; st_private := t; st_org := st_org st; st_vault := st_vault st; st_rings := st_rings st |}.
Definition set_org (t : OrgTables) (st : Store) : Store :=
  {| st_hardware := st_hardware st; st_keys := st_keys st; st_nodes := st_nodes st; st_bridges := st_bridges st; st_links := st_links st;
     st_placements := st_placements st; st_transfer := st_transfer st; st_generations := st_generations st; st_private := st_private st; st_org := t; st_vault := st_vault st; st_rings := st_rings st |}.
Definition set_vault (t : VaultTables) (st : Store) : Store :=
  {| st_hardware := st_hardware st; st_keys := st_keys st; st_nodes := st_nodes st; st_bridges := st_bridges st; st_links := st_links st;
     st_placements := st_placements st; st_transfer := st_transfer st; st_generations := st_generations st; st_private := st_private st; st_org := st_org st; st_vault := t; st_rings := st_rings st |}.
Definition set_rings (t : RingTables) (st : Store) : Store :=
  {| st_hardware := st_hardware st; st_keys := st_keys st; st_nodes := st_nodes st; st_bridges := st_bridges st; st_links := st_links st;
     st_placements := st_placements st; st_transfer := st_transfer st; st_generations := st_generations st; st_private := st_private st; st_org := st_org st; st_vault := st_vault st; st_rings := t |}.
Definition set_transfer (t : TransferTables) (st : Store) : Store :=
  {| st_hardware := st_hardware st; st_keys := st_keys st; st_nodes := st_nodes st; st_bridges := st_bridges st; st_links := st_links st;
     st_placements := st_placements st; st_transfer := t; st_generations := st_generations st; st_private := st_private st; st_org := st_org st; st_vault := st_vault st; st_rings := st_rings st |}.

(** ** Computations on a connection *)

Definition dbM (A : Type) : Type := Store -> result A * Store.
#[global] Instance dbM_ret : MRet dbM := fun _ a st => (Ok a, st).
#[global] Instance dbM_bind : MBind dbM := fun _ _ k m st =>
  match m st with (Ok a, st') => k a st' | (Err e, st') => (Err e, st') end.

Definition query {A} (f : Store -> result A) : dbM A := fun st => (f st, st).
Definition execute (g : Store -> Store) : dbM unit := fun st => (Ok tt, g st).
Definition db_try {A} (r : result A) : dbM A := fun st => (r, st).
(** [conn.transaction()? .. tx.commit()]: dropped without a commit, it rolls back. *)
Definition transaction {A} (m : dbM A) : dbM A := fun st =>
  match m st with (Ok a, st') => (Ok a, st') | (Err e, _) => (Err e, st) end.

Fixpoint db_each {A} (f : A -> dbM unit) (l : list A) : dbM unit :=
  match l with [] => mret tt | a :: l => f a ≫= fun _ => db_each f l end.

(** [last_insert_rowid] of a row appended to a table. *)
Definition next_id {A} (id : A -> nat) (table : list A) : nat := S (max_list (map id table)).
#[global] Arguments next_id : simpl never.

(** The first row, as [query_row] takes it. *)
Definition first_row {A} (P : A -> bool) (table : list A) : option A := head (filter (fun row => P row = true) table).

(** ** Facts about tables and statements *)

Lemma first_row_Some {A} (P : A -> bool) table row : first_row P table = Some row -> row ∈ table /\ P row = true.
Proof. unfold first_row. intros H%head_Some_elem_of. by apply list_elem_of_filter in H as [? ?]. Qed.

Lemma first_row_None {A} (P : A -> bool) table : first_row P table = None <-> forall row, row ∈ table -> P row = false.
Proof.
  unfold first_row. rewrite head_None. split.
  - intros E row Hr. destruct (P row) eqn:EP; [|done]. assert (row ∈ filter (fun r => P r = true) table) as Hin by by apply list_elem_of_filter.
    rewrite E in Hin. by apply elem_of_nil in Hin.
  - intros H. apply list_nil_no_elem. intros row [EP Hr]%list_elem_of_filter. by rewrite H in EP.
Qed.

Lemma first_row_key {A K} `{EqDecision K} (f : A -> K) (table : list A) row :
  NoDup (map f table) -> row ∈ table -> first_row (fun r => bool_decide (f r = f row)) table = Some row.
Proof.
  intros HN Hr. unfold first_row. induction table as [|r table IH]; [set_solver|]. apply NoDup_cons in HN as [Hx HN].
  apply elem_of_cons in Hr as [<-|Hr]; [by rewrite filter_cons_True by (by apply bool_decide_eq_true)|].
  rewrite filter_cons_False; [by apply IH|]. rewrite bool_decide_eq_true. intros E. apply Hx. rewrite E. by apply list_elem_of_fmap_2.
Qed.

Lemma NoDup_map_eq {A K} (f : A -> K) l a b : NoDup (map f l) -> a ∈ l -> b ∈ l -> f a = f b -> a = b.
Proof.
  intros HN [i Hi]%list_elem_of_lookup [j Hj]%list_elem_of_lookup E. assert (i = j) as ->; [|congruence].
  eapply (NoDup_lookup (map f l)); [done|rewrite list_lookup_fmap, Hi; reflexivity|rewrite list_lookup_fmap, Hj; simpl; by rewrite E].
Qed.

Lemma dbM_step {A B} (m : dbM A) (k : A -> dbM B) st a st1 : m st = (Ok a, st1) -> (m ≫= k) st = k a st1.
Proof. intros E. unfold mbind, dbM_bind. by rewrite E. Qed.

Lemma dbM_fail {A B} (m : dbM A) (k : A -> dbM B) st e st1 : m st = (Err e, st1) -> (m ≫= k) st = (Err e, st1).
Proof. intros E. unfold mbind, dbM_bind. by rewrite E. Qed.

Lemma db_each_map {A B} (g : A -> B) (f : B -> dbM unit) l st : db_each (fun a => f (g a)) l st = db_each f (map g l) st.
Proof.
  revert st; induction l as [|a l IH]; intros st; [done|]. simpl. unfold mbind, dbM_bind. destruct (f (g a) st) as [[[]|e] st1]; [|done]. apply IH.
Qed.

Lemma dbM_bind_Ok {A B} (m : dbM A) (k : A -> dbM B) st b st' :
  (a ← m; k a) st = (Ok b, st') -> exists a st1, m st = (Ok a, st1) /\ k a st1 = (Ok b, st').
Proof. unfold mbind, dbM_bind. destruct (m st) as [[a|e] st1]; [|done]. eauto. Qed.

Lemma query_Ok {A} (f : Store -> result A) st a st' : query f st = (Ok a, st') -> f st = Ok a /\ st' = st.
Proof. unfold query. by intros [= -> ->]. Qed.

Lemma db_try_Ok {A} (r : result A) st a st' : db_try r st = (Ok a, st') -> r = Ok a /\ st' = st.
Proof. unfold db_try. by intros [= -> ->]. Qed.

(** ** Hardware keys *)

Section registry.
Context `{C : Crypto} `{HX : Hex}.

Definition fingerprint (public_key : bytes) : bytes := hex_encode (sha256 public_key).

Definition register_key (label : bytes) (key_type : KeyType) (public_key : bytes) : dbM nat :=
  if negb (length public_key =? 32) then db_try (Err InvalidPublicKey) else
  fun st =>
    let id := next_id hk_id (st_hardware st) in
    if bool_decide (fingerprint public_key ∈ map hk_fingerprint (st_hardware st)) then (Err Db, st)
    else (Ok id, set_hardware (st_hardware st ++ [ {| hk_id := id; hk_label := label; hk_key_type := key_type;
            hk_fingerprint := fingerprint public_key; hk_public_key := public_key; hk_revoked := false |} ]) st).

Definition get_key (id : nat) (st : Store) : result HardwareKey :=
  ok_or (first_row (fun k => bool_decide (hk_id k = id)) (st_hardware st)) Db.
Definition get_key_by_public_key (public_key : bytes) (st : Store) : result HardwareKey :=
  ok_or (first_row (fun k => bool_decide (hk_public_key k = public_key)) (st_hardware st)) InvalidPublicKey.
Definition get_key_by_fingerprint (fp : bytes) (st : Store) : result HardwareKey :=
  ok_or (first_row (fun k => bool_decide (hk_fingerprint k = fp)) (st_hardware st)) InvalidPublicKey.

Definition active_for (label : bytes) (key_type : KeyType) (k : HardwareKey) : bool :=
  bool_decide (hk_label k = label) && bool_decide (hk_key_type k = key_type) && negb (hk_revoked k).
Definition active_keys_for (label : bytes) (key_type : KeyType) (st : Store) : list HardwareKey :=
  filter (fun k => active_for label key_type k = true) (st_hardware st).
Definition is_active_key (label : bytes) (key_type : KeyType) (public_key : bytes) (st : Store) : bool :=
  existsb (fun k => bool_decide (hk_public_key k = public_key)) (active_keys_for label key_type st).

Definition get_or_register (label : bytes) (key_type : KeyType) (public_key : bytes) : dbM nat :=
  if negb (length public_key =? 32) then db_try (Err InvalidPublicKey) else
  fun st =>
    match get_key_by_public_key public_key st with
    | Ok existing => if negb (bool_decide (hk_key_type existing = key_type)) then (Err WrongKeyType, st) else (Ok (hk_id existing), st)
    | Err InvalidPublicKey => register_key label key_type public_key st
    | Err e => (Err e, st)
    end.
Definition get_or_register_encryption (label public_key : bytes) : dbM nat := get_or_register label Encryption public_key.

Definition set_revoked (revoked : bool) (k : HardwareKey) : HardwareKey :=
  {| hk_id := hk_id k; hk_label := hk_label k; hk_key_type := hk_key_type k; hk_fingerprint := hk_fingerprint k;
     hk_public_key := hk_public_key k; hk_revoked := revoked |}.
Definition update_keys (P : HardwareKey -> bool) (g : HardwareKey -> HardwareKey) : dbM unit :=
  execute (fun st => set_hardware (map (fun k => if P k then g k else k) (st_hardware st)) st).

Definition revoke_key (id : nat) : dbM unit := update_keys (fun k => bool_decide (hk_id k = id)) (set_revoked true).
Definition revoke_superseded (label : bytes) (key_type : KeyType) (keep_public_key : bytes) : dbM unit :=
  update_keys (fun k => active_for label key_type k && negb (bool_decide (hk_public_key k = keep_public_key))) (set_revoked true).
Definition unrevoke_key (id : nat) : dbM unit := update_keys (fun k => bool_decide (hk_id k = id)) (set_revoked false).

(** Restricted while a node refers to the key; a placement goes with it. *)
Definition remove_key (id : nat) : dbM unit := fun st =>
  if existsb (fun k => bool_decide (hk_id k = id)) (st_hardware st) && existsb (fun row => bool_decide (nr_hardware row = Some id)) (st_nodes st)
  then (Err Db, st)
  else (Ok tt, set_placements (delete id (st_placements st))
                 (set_hardware (filter (fun k => hk_id k <> id) (st_hardware st)) st)).

Definition get_active_encryption_key (id : nat) (st : Store) : result HardwareKey :=
  key ← get_key id st;
  if negb (bool_decide (hk_key_type key = Encryption)) then Err WrongKeyType else
  if hk_revoked key then Err KeyRevoked else Ok key.
End registry.

(** ** Custody *)

Record UsedLeaf := { ul_hardware_key_id : nat; ul_leaf_label : bytes }.
Record PresentedDevice := {
  pd_device_id : bytes;
  pd_slot_label : option bytes;
  pd_hardware_key_ids : list nat;
  pd_leaf_labels : list bytes;
}.

Definition DEVICE_ID_LEN : nat := 16.
Definition SOLO_DOMAIN : bytes := str "KQ-SOLO-DEVICE-v1".

Section custody.
Context `{C : Crypto}.

Definition set_custody_policy (key_id : nat) (policy : CustodyPolicy) : dbM unit :=
  if (cp_minimum_physical_devices policy <? 1)%N then db_try (Err InvalidQuorumThreshold) else fun st =>
  if negb (existsb (fun k => bool_decide (ky_id k = key_id)) (st_keys st)) then (Err TreeNotFound, st) else
  (Ok tt, set_keys (map (fun k => if decide (ky_id k = key_id)
                                  then {| ky_id := ky_id k; ky_label := ky_label k; ky_generation := ky_generation k; ky_custody := policy |}
                                  else k) (st_keys st)) st).

(** The stored minimum is an integer column read into a [u8]. *)
Definition custody_policy (key_id : nat) (st : Store) : result CustodyPolicy :=
  row ← ok_or (first_row (fun k => bool_decide (ky_id k = key_id)) (st_keys st)) TreeNotFound;
  if (cp_minimum_physical_devices (ky_custody row) <? 256)%N then Ok (ky_custody row) else Err InvalidDevice.

Definition solo_device_id (public_key : bytes) : bytes := take DEVICE_ID_LEN (sha256 (SOLO_DOMAIN ++ public_key)).

(** [key_possession] joined with [key_identities]: encryption key and whether the
    state is ghost. *)
Definition st_possession (st : Store) : list (bytes * bool) :=
  omap (fun p => i ← first_row (fun i => bool_decide (ir_id i = po_identity p)) (tt_identities (st_transfer st));
                 Some (ir_enc_public i, bool_decide (po_state p = Ghost))) (tt_possession (st_transfer st)).

Definition leaf_is_ghost (hardware_key_id : nat) (st : Store) : bool :=
  match first_row (fun k => bool_decide (hk_id k = hardware_key_id)) (st_hardware st) with
  | Some key => match first_row (fun p => bool_decide (fst p = hk_public_key key)) (st_possession st) with
                | Some (_, ghost) => ghost
                | None => false
                end
  | None => false
  end.

Definition device_for_key (key : HardwareKey) (st : Store) : result (bytes * option bytes) :=
  match st_placements st !! hk_id key with
  | Some (device_id, slot_label) =>
      if negb (length device_id =? DEVICE_ID_LEN) then Err InvalidDevice else Ok (device_id, Some slot_label)
  | None => Ok (solo_device_id (hk_public_key key), None)
  end.

(** [groups.iter_mut().find(..)], else a new group at the end. *)
Fixpoint add_to_group (device_id : bytes) (slot_label : option bytes) (leaf : UsedLeaf) (groups : list PresentedDevice)
    : list PresentedDevice :=
  match groups with
  | [] => [ {| pd_device_id := device_id; pd_slot_label := slot_label; pd_hardware_key_ids := [ul_hardware_key_id leaf];
               pd_leaf_labels := [ul_leaf_label leaf] |} ]
  | group :: groups =>
      if decide (pd_device_id group = device_id) then
        {| pd_device_id := device_id;
           pd_slot_label := match pd_slot_label group with None => slot_label | some => some end;
           pd_hardware_key_ids := if decide (ul_hardware_key_id leaf ∈ pd_hardware_key_ids group) then pd_hardware_key_ids group
                                  else pd_hardware_key_ids group ++ [ul_hardware_key_id leaf];
           pd_leaf_labels := pd_leaf_labels group ++ [ul_leaf_label leaf] |} :: groups
      else group :: add_to_group device_id slot_label leaf groups
  end.

Fixpoint group_leaves (st : Store) (used : list UsedLeaf) (groups : list PresentedDevice) : result (list PresentedDevice) :=
  match used with
  | [] => Ok groups
  | leaf :: used =>
      if leaf_is_ghost (ul_hardware_key_id leaf) st then Err GhostDenied else
      key ← get_key (ul_hardware_key_id leaf) st;
      '(device_id, slot_label) ← device_for_key key st;
      group_leaves st used (add_to_group device_id slot_label leaf groups)
  end.

Definition one_key (group : PresentedDevice) : bool :=
  negb (1 <? size (list_to_set (pd_hardware_key_ids group) : gset nat)).

Definition classify_devices (st : Store) (key_id : nat) (used : list UsedLeaf) : result (list PresentedDevice) :=
  if bool_decide (used = []) then Err QuorumNotMet else
  policy ← custody_policy key_id st;
  groups ← group_leaves st used [];
  if bool_decide (cp_mode policy = Hardware) && negb (forallb one_key groups) then Err CustodyViolation else Ok groups.

Definition enforce_devices (st : Store) (key_id : nat) (used : list UsedLeaf) : result (list PresentedDevice) :=
  groups ← classify_devices st key_id used;
  policy ← custody_policy key_id st;
  if length groups <? N.to_nat (cp_minimum_physical_devices policy) then Err PhysicalDevicesNotMet else Ok groups.
End custody.

(** ** What the device count counts *)

Section custody_laws.
Context `{C : Crypto}.

(** The device a hardware key is on. *)
Definition device_of (st : Store) (hardware_key_id : nat) : option bytes :=
  match (key ← get_key hardware_key_id st; device_for_key key st) with Ok (device_id, _) => Some device_id | Err _ => None end.

(** [groups] sorts [used] by device: one group per device, with the keys and the
    leaf labels that are on it. *)
Record grouped (st : Store) (used : list UsedLeaf) (groups : list PresentedDevice) : Prop := {
  grouped_distinct : NoDup (map pd_device_id groups);
  grouped_keys g h : g ∈ groups ->
    h ∈ pd_hardware_key_ids g <-> exists leaf, leaf ∈ used /\ ul_hardware_key_id leaf = h /\ device_of st h = Some (pd_device_id g);
  grouped_labels g : g ∈ groups ->
    pd_leaf_labels g = map ul_leaf_label (filter (fun leaf => device_of st (ul_hardware_key_id leaf) = Some (pd_device_id g)) used);
  grouped_all d : d ∈ map pd_device_id groups <-> exists leaf, leaf ∈ used /\ device_of st (ul_hardware_key_id leaf) = Some d;
}.

Lemma add_to_group_ids d slot leaf groups :
  map pd_device_id (add_to_group d slot leaf groups) =
  if decide (d ∈ map pd_device_id groups) then map pd_device_id groups else map pd_device_id groups ++ [d].
Proof.
  induction groups as [|g groups IH]; [done|]. cbn [add_to_group map].
  assert (d ∈ pd_device_id g :: map pd_device_id groups <-> d = pd_device_id g \/ d ∈ map pd_device_id groups) as Hc by apply elem_of_cons.
  destruct (decide (pd_device_id g = d)) as [E|E]; cbn [map pd_device_id].
  - subst. rewrite decide_True by (apply Hc; by left). done.
  - rewrite IH. destruct (decide (d ∈ map pd_device_id groups)).
    + rewrite decide_True by (apply Hc; by right). done.
    + rewrite decide_False by (rewrite Hc; naive_solver). done.
Qed.

(** A group after the call is an old one of another device, or the group of the leaf's device. *)
Lemma add_to_group_elem d slot leaf groups g :
  NoDup (map pd_device_id groups) -> g ∈ add_to_group d slot leaf groups ->
  (g ∈ groups /\ pd_device_id g <> d) \/
  (pd_device_id g = d /\
   ((d ∉ map pd_device_id groups /\ pd_hardware_key_ids g = [ul_hardware_key_id leaf] /\ pd_leaf_labels g = [ul_leaf_label leaf]) \/
    exists g0, g0 ∈ groups /\ pd_device_id g0 = d /\
      (forall h, h ∈ pd_hardware_key_ids g <-> h ∈ pd_hardware_key_ids g0 \/ h = ul_hardware_key_id leaf) /\
      pd_leaf_labels g = pd_leaf_labels g0 ++ [ul_leaf_label leaf])).
Proof.
  induction groups as [|g0 groups IH]; simpl.
  { intros _ ->%list_elem_of_singleton. right. split; [done|]. left. set_solver. }
  intros [Hg0 HN]%NoDup_cons. case_decide as E.
  - intros [->|Hg]%elem_of_cons.
    + right. split; [done|]. right. exists g0. split; [left|]. split; [done|]. simpl. split; [|done]. intros h.
      case_decide; set_solver.
    + left. split; [by right|]. intros Eg. apply Hg0. rewrite E, <- Eg. by apply list_elem_of_fmap_2.
  - intros [->|Hg]%elem_of_cons; [left; split; [left|done]|].
    destruct (IH HN Hg) as [[? ?]|(? & [(? & ? & ?)|(g1 & ? & ?)])]; [left; split; [by right|done]| |].
    + right. split; [done|]. left. split; [set_solver|done].
    + right. split; [done|]. right. exists g1. split; [by right|done].
Qed.

Lemma grouped_add st used groups leaf d slot :
  grouped st used groups -> device_of st (ul_hardware_key_id leaf) = Some d ->
  grouped st (used ++ [leaf]) (add_to_group d slot leaf groups).
Proof.
  intros [Gd Gk Gl Ga] Hd. split.
  - rewrite add_to_group_ids. case_decide as E; [done|]. apply NoDup_app. split; [done|]. split; [set_solver|apply NoDup_singleton].
  - intros g h Hg. apply add_to_group_elem in Hg as [[Hg Hne]|(Eg & Hg)]; [..|done].
    + rewrite Gk by done. setoid_rewrite elem_of_app. setoid_rewrite list_elem_of_singleton. split; [naive_solver|].
      intros (lf & [?| ->] & <- & E); [eauto|]. congruence.
    + setoid_rewrite elem_of_app. setoid_rewrite list_elem_of_singleton. rewrite Eg. destruct Hg as [(Hnd & -> & _)|(g0 & Hg0 & Eg0 & -> & _)].
      * rewrite list_elem_of_singleton. split; [intros ->; eauto|]. intros (lf & [Hlf| ->] & <- & E); [|done].
        destruct Hnd. apply Ga. eauto.
      * rewrite (Gk g0) by done. rewrite Eg0. split; [intros [(lf & ? & ? & ?)| ->]; eauto|].
        intros (lf & [?| ->] & <- & E); [left; eauto|by right].
  - intros g Hg. rewrite filter_app, map_app. apply add_to_group_elem in Hg as [[Hg Hne]|(Eg & Hg)]; [..|done].
    + rewrite (Gl g) by done. rewrite (filter_cons_False _ leaf) by congruence. by rewrite app_nil_r.
    + rewrite (filter_cons_True _ leaf) by congruence. destruct Hg as [(Hnd & _ & ->)|(g0 & Hg0 & Eg0 & _ & ->)].
      * simpl. assert (filter (fun lf => device_of st (ul_hardware_key_id lf) = Some (pd_device_id g)) used = []) as ->; [|done].
        apply list_nil_no_elem. intros lf [E Hlf]%list_elem_of_filter. apply Hnd, Ga. rewrite <- Eg. eauto.
      * rewrite (Gl g0) by done. rewrite Eg, Eg0. done.
  - intros d'. rewrite add_to_group_ids. setoid_rewrite elem_of_app. setoid_rewrite list_elem_of_singleton.
    destruct (decide (d' = d)) as [->|Hne].
    + split; [intros _; exists leaf; auto|]. intros _. case_decide; [done|]. rewrite elem_of_app. right. set_solver.
    + assert (d' ∈ (if decide (d ∈ map pd_device_id groups) then map pd_device_id groups else map pd_device_id groups ++ [d]) <->
        d' ∈ map pd_device_id groups) as -> by (case_decide; set_solver).
      rewrite Ga. split; [naive_solver|]. intros (lf & [?| ->] & E); [eauto|]. congruence.
Qed.

Lemma one_key_spec group : one_key group = true <-> forall h h', h ∈ pd_hardware_key_ids group -> h' ∈ pd_hardware_key_ids group -> h = h'.
Proof.
  unfold one_key. rewrite negb_true_iff, Nat.ltb_ge. set (X := list_to_set (pd_hardware_key_ids group) : gset nat).
  assert (forall h, h ∈ pd_hardware_key_ids group <-> h ∈ X) as HX by (intros h; unfold X; by rewrite elem_of_list_to_set). split.
  - intros Hs h h' Hh Hh'. apply HX in Hh, Hh'. destruct (decide (h = h')) as [|Hne]; [done|].
    assert (size ({[h]} ∪ {[h']} : gset nat) <= size X) as Hle by (apply subseteq_size; set_solver).
    rewrite size_union, !size_singleton in Hle by set_solver. lia.
  - intros Hh. destruct (pd_hardware_key_ids group) as [|h l] eqn:E; [vm_compute; lia|].
    transitivity (size ({[h]} : gset nat)); [|by rewrite size_singleton]. apply subseteq_size. intros x Hx. apply HX in Hx.
    apply elem_of_singleton, Hh; [done|left].
Qed.

Lemma group_leaves_Ok st before used groups groups' :
  grouped st before groups -> group_leaves st used groups = Ok groups' ->
  grouped st (before ++ used) groups' /\ forall leaf, leaf ∈ used -> leaf_is_ghost (ul_hardware_key_id leaf) st = false.
Proof.
  revert before groups; induction used as [|leaf used IH]; intros before groups HG; simpl.
  { intros [= <-]. rewrite app_nil_r. split; [done|set_solver]. }
  destruct (leaf_is_ghost _ st) eqn:EG; [done|]. intros (key & EK & (p & ED & HR)%bind_Ok)%bind_Ok. destruct p as [d slot].
  assert (device_of st (ul_hardware_key_id leaf) = Some d) as Hd by (unfold device_of; rewrite EK; simpl; by rewrite ED).
  destruct (IH (before ++ [leaf]) _ (grouped_add st before groups leaf d slot HG Hd) HR) as [HG' Hn].
  rewrite <- app_assoc in HG'. split; [done|]. intros lf [->|Hlf]%elem_of_cons; auto.
Qed.

Lemma group_leaves_total st used groups :
  (forall leaf, leaf ∈ used -> leaf_is_ghost (ul_hardware_key_id leaf) st = false /\ is_Some (device_of st (ul_hardware_key_id leaf))) ->
  exists groups', group_leaves st used groups = Ok groups'.
Proof.
  revert groups; induction used as [|leaf used IH]; intros groups Hl; simpl; [eauto|].
  destruct (Hl leaf) as [-> [d Hd]]; [left|]. unfold device_of in Hd. destruct (get_key _ st) as [key|]; [|done]. simpl in *.
  destruct (device_for_key key st) as [[d' slot]|]; [|done]. simpl. apply IH. intros lf Hlf. apply Hl. by right.
Qed.

Lemma grouped_nil st : grouped st [] [].
Proof. split; [constructor|set_solver..]. Qed.

(** The number of groups is the number of distinct devices. *)
Lemma grouped_size st used groups : grouped st used groups ->
  length groups = size (list_to_set (omap (fun leaf => device_of st (ul_hardware_key_id leaf)) used) : gset bytes).
Proof.
  intros HG. rewrite <- (length_fmap pd_device_id groups). rewrite <- (size_list_to_set (C := gset bytes)) by apply HG.
  f_equal. apply set_eq. intros d. rewrite !elem_of_list_to_set, list_elem_of_omap. rewrite (grouped_all _ _ _ HG). naive_solver.
Qed.

(** What [enforce_devices] asks of the leaves used, under the policy of the tree. *)
Record custody_met (st : Store) (policy : CustodyPolicy) (used : list UsedLeaf) : Prop := {
  custody_used : used <> [];
  custody_no_ghost leaf : leaf ∈ used -> leaf_is_ghost (ul_hardware_key_id leaf) st = false;
  custody_known leaf : leaf ∈ used -> is_Some (device_of st (ul_hardware_key_id leaf));
  (** In hardware mode no device carries two of the keys used. *)
  custody_hardware leaf leaf' : cp_mode policy = Hardware -> leaf ∈ used -> leaf' ∈ used ->
    device_of st (ul_hardware_key_id leaf) = device_of st (ul_hardware_key_id leaf') -> ul_hardware_key_id leaf = ul_hardware_key_id leaf';
  (** The distinct devices reach the minimum. *)
  custody_minimum : N.to_nat (cp_minimum_physical_devices policy) <=
    size (list_to_set (omap (fun leaf => device_of st (ul_hardware_key_id leaf)) used) : gset bytes);
}.

Lemma classify_devices_Ok st key_id used groups :
  classify_devices st key_id used = Ok groups ->
  used <> [] /\ grouped st used groups /\ (forall leaf, leaf ∈ used -> leaf_is_ghost (ul_hardware_key_id leaf) st = false) /\
  (forall leaf, leaf ∈ used -> is_Some (device_of st (ul_hardware_key_id leaf))) /\
  exists policy, custody_policy key_id st = Ok policy /\
    forall leaf leaf', cp_mode policy = Hardware -> leaf ∈ used -> leaf' ∈ used ->
      device_of st (ul_hardware_key_id leaf) = device_of st (ul_hardware_key_id leaf') -> ul_hardware_key_id leaf = ul_hardware_key_id leaf'.
Proof.
  unfold classify_devices. case_bool_decide as E; [done|]. intros (policy & EP & (gs & EG & Hc)%bind_Ok)%bind_Ok.
  destruct (_ && _) eqn:B; [done|]. injection Hc as <-. destruct (group_leaves_Ok st [] used [] gs (grouped_nil st) EG) as [HG Hn]. simpl in HG.
  assert (forall leaf, leaf ∈ used -> is_Some (device_of st (ul_hardware_key_id leaf))) as Hk.
  { clear -EG. revert EG. generalize (@nil PresentedDevice). induction used as [|lf used IH]; intros gs0; simpl; [set_solver|].
    destruct (leaf_is_ghost _ st); [done|]. intros (key & EK & (p & ED & HR)%bind_Ok)%bind_Ok. destruct p as [d slot].
    intros leaf [->|Hl]%elem_of_cons; [|by eapply IH]. unfold device_of. rewrite EK. simpl. rewrite ED. eauto. }
  split; [done|]. split; [done|]. split; [done|]. split; [done|]. exists policy. split; [done|].
  intros leaf leaf' Hm Hl Hl' Ed. rewrite bool_decide_true in B by done. apply negb_false_iff in B. rewrite forallb_forall in B.
  destruct (Hk leaf Hl) as [d Hd]. assert (d ∈ map pd_device_id gs) as (g & -> & Hg)%list_elem_of_fmap by (apply (grouped_all _ _ _ HG); eauto).
  assert (one_key g = true) as Ho by (by apply B, list_elem_of_In). rewrite one_key_spec in Ho.
  apply Ho; apply (grouped_keys _ _ _ HG); [done| |done|]; [by exists leaf|]. exists leaf'. split_and!; [done|done|congruence].
Qed.

Lemma enforce_devices_Ok st key_id used groups : enforce_devices st key_id used = Ok groups ->
  grouped st used groups /\ exists policy, custody_policy key_id st = Ok policy /\ custody_met st policy used.
Proof.
  unfold enforce_devices. intros (gs & EC & (policy & EP & Hl)%bind_Ok)%bind_Ok.
  apply classify_devices_Ok in EC as (Hu & HG & Hn & Hk & p & EP' & Hh). assert (p = policy) as -> by congruence.
  destruct (_ <? _) eqn:B; [done|]. injection Hl as <-. split; [done|]. exists policy. split; [done|].
  split; try done. rewrite <- (grouped_size _ _ _ HG). by apply Nat.ltb_ge.
Qed.

(** Leaves in order are sorted into groups. *)
Lemma classify_devices_total st key_id used policy :
  custody_policy key_id st = Ok policy -> used <> [] ->
  (forall leaf, leaf ∈ used -> leaf_is_ghost (ul_hardware_key_id leaf) st = false /\ is_Some (device_of st (ul_hardware_key_id leaf))) ->
  (forall leaf leaf', cp_mode policy = Hardware -> leaf ∈ used -> leaf' ∈ used ->
    device_of st (ul_hardware_key_id leaf) = device_of st (ul_hardware_key_id leaf') -> ul_hardware_key_id leaf = ul_hardware_key_id leaf') ->
  exists groups, classify_devices st key_id used = Ok groups /\ grouped st used groups.
Proof.
  intros EP Hu Hl Hh. destruct (group_leaves_total st used [] Hl) as [gs EG].
  destruct (group_leaves_Ok st [] used [] gs (grouped_nil st) EG) as [HG _]. simpl in HG. exists gs. split; [|done].
  unfold classify_devices. rewrite bool_decide_false by done. rewrite EP, EG. cbn [mbind result_bind].
  destruct (bool_decide (cp_mode policy = Hardware) && negb (forallb one_key gs)) eqn:B; [|done].
  apply andb_true_iff in B as [B1%bool_decide_eq_true B2%negb_true_iff]. exfalso.
  assert (forallb one_key gs = true); [|congruence]. apply forallb_forall. intros g Hg%list_elem_of_In. apply one_key_spec.
  intros h h' (l1 & Hl1 & <- & E1)%(grouped_keys _ _ _ HG) (l2 & Hl2 & <- & E2)%(grouped_keys _ _ _ HG); [|done..].
  apply (Hh l1 l2); [done..|congruence].
Qed.

(** [enforce_devices] accepts the leaves used exactly when there are some,
    none is a ghost, every key has a device, in hardware mode no device carries
    two of the keys, and the number of distinct physical devices reaches the
    minimum; it then reports one group per distinct device. *)
Theorem enforce_devices_exact st key_id used policy :
  custody_policy key_id st = Ok policy ->
  (exists groups, enforce_devices st key_id used = Ok groups /\ grouped st used groups) <-> custody_met st policy used.
Proof.
  intros EP. split.
  - intros (groups & (_ & p & EP' & HM)%enforce_devices_Ok & _). by assert (p = policy) as -> by congruence.
  - intros [Hu Hn Hk Hh Hm]. destruct (classify_devices_total st key_id used policy EP Hu) as (gs & EC & HG); [auto|done|].
    exists gs. split; [|done]. unfold enforce_devices. rewrite EC, EP. cbn [mbind result_bind].
    rewrite (proj2 (Nat.ltb_ge _ _)); [done|]. by rewrite <- (grouped_size _ _ _ HG) in Hm.
Qed.
End custody_laws.

(** ** A small registry *)

(** Three cards: two in one box, the third on its own. *)
Module CardDemo.
Definition hw (id : nat) (label : bytes) : HardwareKey :=
  {| hk_id := id; hk_label := label; hk_key_type := Encryption; hk_fingerprint := label;
     hk_public_key := repeat x00 31 ++ be_bytes 1 (N.of_nat id); hk_revoked := false |}.
Definition box : bytes := repeat x2a 16.
Definition key (minimum : N) (mode : CustodyMode) : KeyRow :=
  {| ky_id := 1; ky_label := str "k"; ky_generation := 1;
     ky_custody := {| cp_mode := mode; cp_minimum_physical_devices := minimum; cp_unlock_approval := NoApproval |} |}.
Definition store (minimum : N) (mode : CustodyMode) : Store :=
  {| st_hardware := [hw 1 (str "ann"); hw 2 (str "bob"); hw 3 (str "cat")]; st_keys := [key minimum mode]; st_nodes := []; st_bridges := [];
     st_links := []; st_placements := {[1 := (box, str "A"); 2 := (box, str "B"); 3 := (repeat x2b 16, str "C")]}; st_transfer := no_transfers;
     st_generations := ∅; st_private := no_bridges; st_org := no_updates; st_vault := no_vault; st_rings := no_rings |}.
Definition leaf (h : nat) (l : bytes) : UsedLeaf := {| ul_hardware_key_id := h; ul_leaf_label := l |}.
End CardDemo.

(** Two slots of one box and a third card are two devices under logical custody. *)
Lemma enforce_devices_exact_witness :
  let st := CardDemo.store 2 Logical in
  let used := [CardDemo.leaf 1 (str "ann"); CardDemo.leaf 2 (str "bob"); CardDemo.leaf 3 (str "cat")] in
  custody_policy 1 st = Ok (ky_custody (CardDemo.key 2 Logical)) /\ custody_met (C := Toy.toy) st (ky_custody (CardDemo.key 2 Logical)) used.
Proof.
  intros st used. assert (custody_policy 1 st = Ok (ky_custody (CardDemo.key 2 Logical))) as EP by reflexivity. split; [exact EP|].
  apply (enforce_devices_exact (C := Toy.toy) st 1 used _ EP).
  destruct (enforce_devices (C := Toy.toy) st 1 used) as [groups|e] eqn:E; [|vm_compute in E; discriminate].
  exists groups. split; [reflexivity|]. by apply enforce_devices_Ok in E as [? _].
Defined.

(** * What a database computation may change

    A computation [respects] a relation on stores when every run, successful or
    not, is related by it. For a preorder this composes along [dbM], so a frame or
    an invariant of a long operation is proved one statement at a time. *)

Definition respects {A} (R : Store -> Store -> Prop) (m : dbM A) : Prop := forall st r st', m st = (r, st') -> R st st'.

Create HintDb frame discriminated.

Section respects.
Context (R : Store -> Store -> Prop) `{!PreOrder R}.

Lemma respects_ret {A} (a : A) : respects R (mret a).
Proof. intros st r st' [= _ <-]. reflexivity. Qed.
Lemma respects_query {A} (f : Store -> result A) : respects R (query f).
Proof. intros st r st' [= _ <-]. reflexivity. Qed.
Lemma respects_try {A} (r : result A) : respects R (db_try r).
Proof. intros st r' st' [= _ <-]. reflexivity. Qed.
Lemma respects_execute g : (forall st, R st (g st)) -> respects R (execute g).
Proof. intros Hg st r st' [= _ <-]. apply Hg. Qed.
Lemma respects_bind {A B} (m : dbM A) (k : A -> dbM B) : respects R m -> (forall a, respects R (k a)) -> respects R (m ≫= k).
Proof.
  intros Hm Hk st r st'. unfold mbind, dbM_bind. destruct (m st) as [[a|e] st1] eqn:E.
  - intros Ek. etransitivity; [by eapply Hm|by eapply Hk].
  - intros [= _ <-]. by eapply Hm.
Qed.
(** A query hands on only what it found. *)
Lemma respects_found {A B} (f : Store -> result A) (k : A -> dbM B) : (forall st a, f st = Ok a -> respects R (k a)) -> respects R (query f ≫= k).
Proof.
  intros Hk st r st'. unfold query, mbind, dbM_bind. destruct (f st) as [a|e] eqn:E; [by eapply Hk|]. intros [= _ <-]. reflexivity.
Qed.
Lemma respects_tried {A B} (x : result A) (k : A -> dbM B) : (forall a, x = Ok a -> respects R (k a)) -> respects R (db_try x ≫= k).
Proof.
  intros Hk st r st'. unfold db_try, mbind, dbM_bind. destruct x as [a|e] eqn:E; [by eapply Hk|]. intros [= _ <-]. reflexivity.
Qed.
Lemma respects_transaction {A} (m : dbM A) : respects R m -> respects R (transaction m).
Proof.
  intros Hm st r st'. unfold transaction. destruct (m st) as [[a|e] st1] eqn:E; intros [= _ <-]; [by eapply Hm|reflexivity].
Qed.
Lemma respects_each {A} (f : A -> dbM unit) l : (forall a, respects R (f a)) -> respects R (db_each f l).
Proof. intros Hf. induction l as [|a l IH]; [apply respects_ret|]. apply respects_bind; auto. Qed.
Lemma respects_if {A} (b : bool) (m m' : dbM A) : respects R m -> respects R m' -> respects R (if b then m else m').
Proof. by destruct b. Qed.
Lemma respects_decide {A} (P : Prop) `{!Decision P} (m m' : dbM A) : respects R m -> respects R m' -> respects R (if decide P then m else m').
Proof. by destruct (decide P). Qed.
End respects.

#[export] Hint Resolve respects_ret respects_query respects_try : frame.

(** Walk down a computation to its statements, which the hints of [frame] know. *)
Ltac frame :=
  cbv beta zeta;
  match goal with
  | |- respects _ (if decide _ then _ else _) => apply respects_decide; frame
  | |- respects _ (if _ then _ else _) => apply respects_if; frame
  | |- respects _ (match ?x with _ => _ end) => destruct x; frame
  | |- respects _ (_ ≫= _) => apply respects_bind; [apply _|frame|intros ?; frame]
  | |- respects _ (transaction _) => apply respects_transaction; [apply _|frame]
  | |- respects _ (db_each _ _) => first [solve [eauto with frame typeclass_instances] | apply respects_each; [apply _|intros ?; frame]]
  | |- _ => eauto with frame typeclass_instances
  end.

Lemma respects_run {A} (R : Store -> Store -> Prop) (m : dbM A) st r st' : m st = (r, st') -> respects R m -> R st st'.
Proof. intros E H. by eapply H. Qed.

(** A predicate on stores a computation keeps. *)
Definition keeps (P : Store -> Prop) (st st' : Store) : Prop := P st -> P st'.
#[export] Instance keeps_preorder P : PreOrder (keeps P).
Proof. split; unfold keeps; [by intros st|]. intros st1 st2 st3. tauto. Qed.
