(* ===== verification/KeyTree.v ===== *)
(** * Split trees ([src/src/key_tree.rs]): splitting a secret and loading the tree

    A tree specification, its validation, the recursive split of a secret over
    it into rows of [key_nodes], and the arena a tree is loaded into. The Shamir
    scheme is the class of [Pss], sealed boxes those of [Crypto]. The randomness
    of a split is given per row id: [rnd] for the dealer of a split node,
    [entropy] for the box of a leaf. *)

From S2P Require Import Prelude Text Crypto Pss KeyStore.
From stdpp Require Import gmap.

Inductive NodeSpec :=
| Leaf (label : bytes) (hardware_key_id : nat) (allowed_bridges : list bytes)
| Split (label : bytes) (threshold : N) (children : list NodeSpec) (allowed_bridges : list bytes).

Definition spec_label (spec : NodeSpec) : bytes := match spec with Leaf l _ _ => l | Split l _ _ _ => l end.
Definition spec_bridges (spec : NodeSpec) : list bytes := match spec with Leaf _ _ b => b | Split _ _ _ b => b end.

Definition flat_split (root : bytes) (threshold : N) (leaves : list (bytes * nat)) : NodeSpec :=
  Split root threshold (map (fun '(label, hardware_key_id) => Leaf label hardware_key_id []) leaves) [].

(** Induction through the lists of children. *)
Lemma spec_ind (P : NodeSpec -> Prop) :
  (forall label hw bridges, P (Leaf label hw bridges)) ->
  (forall label t children bridges, Forall P children -> P (Split label t children bridges)) -> forall spec, P spec.
Proof.
  intros HL HS. fix IH 1. intros [label hw bridges|label t children bridges]; [apply HL|]. apply HS.
  induction children as [|c children IHc]; constructor; [apply IH|apply IHc].
Qed.

(** A loop over children that carries a state and may fail. *)
Definition fold_children {A B} (f : A -> B -> result B) : list A -> B -> result B :=
  fix go l b := match l with [] => Ok b | a :: l => b ← f a b; go l b end.

(** ** Validation *)

Fixpoint collect_labels (spec : NodeSpec) (seen : gset bytes) : result (gset bytes) :=
  if bool_decide (spec_label spec = []) || bool_decide (spec_label spec ∈ seen) then Err DuplicateNodeLabel else
  let seen := {[spec_label spec]} ∪ seen in
  match spec with
  | Leaf _ _ _ => Ok seen
  | Split _ _ children _ => fold_children collect_labels children seen
  end.

Fixpoint validate_bridges (labels : gset bytes) (spec : NodeSpec) : result unit :=
  if existsb (fun peer => bool_decide (peer = spec_label spec) || negb (bool_decide (peer ∈ labels))) (spec_bridges spec)
  then Err InvalidBridge else
  match spec with
  | Leaf _ _ _ => Ok tt
  | Split _ _ children _ => fold_children (fun child _ => validate_bridges labels child) children tt
  end.

Fixpoint validate_node (st : Store) (spec : NodeSpec) (leaf_count : nat) : result nat :=
  match spec with
  | Leaf _ hardware_key_id _ => _ ← get_active_encryption_key hardware_key_id st; Ok (S leaf_count)
  | Split _ threshold children _ =>
      if bool_decide (children = []) || (threshold =? 0)%N || (length children <? N.to_nat threshold) || (255 <? length children)
      then Err InvalidQuorumThreshold
      else fold_children (validate_node st) children leaf_count
  end.

Definition validate (st : Store) (spec : NodeSpec) : result unit :=
  leaf_count ← validate_node st spec 0;
  if leaf_count =? 0 then Err InvalidQuorumThreshold else
  labels ← collect_labels spec ∅;
  validate_bridges labels spec.

(** ** Rows *)

(** The constraints of [key_nodes]: foreign keys, the check on the two shapes of
    a node and the trigger on the type of a leaf's key. *)
Definition row_allowed (st : Store) (row : NodeRow) : bool :=
  existsb (fun k => bool_decide (ky_id k = nr_key row)) (st_keys st) &&
  match nr_parent row with None => true | Some p => existsb (fun r => bool_decide (nr_id r = p)) (st_nodes st) end &&
  match nr_hardware row with
  | None => true
  | Some hw => existsb (fun k => bool_decide (hk_id k = hw) && bool_decide (hk_key_type k = Encryption)) (st_hardware st)
  end &&
  match nr_threshold row, nr_hardware row, nr_share row with
  | Some t, None, None => (0 <? t)%N
  | None, Some _, _ => true
  | _, _, _ => false
  end.

Definition insert_node (row : nat -> NodeRow) : dbM nat := fun st =>
  let id := next_id nr_id (st_nodes st) in
  if row_allowed st (row id) then (Ok id, set_nodes (st_nodes st ++ [row id]) st) else (Err Db, st).

(** [INSERT INTO key_node_bridges]: the primary key is the pair. *)
Fixpoint insert_allowed_bridges (node_id : nat) (peers : list bytes) : dbM unit :=
  match peers with
  | [] => mret tt
  | peer :: peers => fun st =>
      if bool_decide ((node_id, peer) ∈ st_bridges st) then (Err Db, st)
      else insert_allowed_bridges node_id peers (set_bridges (st_bridges st ++ [(node_id, peer)]) st)
  end.

(** [for (child, share) in children.iter().zip(shares)] *)
Definition db_zip {A B} (f : A -> B -> dbM unit) : list A -> list B -> dbM unit :=
  fix go l k := match l, k with a :: l, b :: k => f a b ≫= fun _ => go l k | _, _ => mret tt end.

Section split.
Context `{C : Crypto} `{SH : Shamir}.
Context (rnd : nat -> nat) (entropy : nat -> bytes).

Definition seal_share (random : bytes) (hardware_key : HardwareKey) (share : bytes) : result bytes :=
  if negb (length (hk_public_key hardware_key) =? 32) then Err InvalidPublicKey
  else Ok (box_seal random (hk_public_key hardware_key) share).

Definition leaf_row (key_id : nat) (parent_id : option nat) (label : bytes) (hw : nat) (share : option bytes) (id : nat) : NodeRow :=
  {| nr_id := id; nr_key := key_id; nr_parent := parent_id; nr_label := label; nr_threshold := None; nr_hardware := Some hw;
     nr_share := share; nr_active := true |}.
Definition split_row (key_id : nat) (parent_id : option nat) (label : bytes) (threshold : N) (id : nat) : NodeRow :=
  {| nr_id := id; nr_key := key_id; nr_parent := parent_id; nr_label := label; nr_threshold := Some threshold; nr_hardware := None;
     nr_share := None; nr_active := true |}.

Fixpoint split_node (key_id : nat) (spec : NodeSpec) (parent_id : option nat) (secret : bytes) : dbM unit :=
  match spec with
  | Leaf label hardware_key_id bridges => fun st =>
      (hardware_key ← query (get_active_encryption_key hardware_key_id);
       wrapped_share ← db_try (seal_share (entropy (next_id nr_id (st_nodes st))) hardware_key secret);
       node_id ← insert_node (leaf_row key_id parent_id label hardware_key_id (Some wrapped_share));
       insert_allowed_bridges node_id bridges) st
  | Split label threshold children bridges =>
      node_id ← insert_node (split_row key_id parent_id label threshold);
      _ ← insert_allowed_bridges node_id bridges;
      let shares := take (length children) (deal (rnd node_id) threshold secret) in
      if negb (length shares =? length children) then db_try (Err InvalidQuorumThreshold) else
      db_zip (fun child raw_share => split_node key_id child (Some node_id) raw_share) children shares
  end.

Definition default_custody : CustodyPolicy := {| cp_mode := Hardware; cp_minimum_physical_devices := 1; cp_unlock_approval := NoApproval |}.

Definition insert_key (label : bytes) : dbM nat := fun st =>
  let id := next_id ky_id (st_keys st) in
  (Ok id, set_keys (st_keys st ++ [ {| ky_id := id; ky_label := label; ky_generation := 1; ky_custody := default_custody |} ]) st).

Definition build_tree (label secret : bytes) (spec : NodeSpec) : dbM nat :=
  _ ← query (fun st => validate st spec);
  key_id ← insert_key label;
  _ ← split_node key_id spec None secret;
  mret key_id.

Definition split (label secret : bytes) (spec : NodeSpec) : dbM nat := transaction (build_tree label secret spec).
End split.

(** ** The arena *)

Record KeyNode := {
  kn_db_id : nat;
  kn_id : bytes;
  kn_parent_idx : option nat;
  kn_children_indices : list nat;
  kn_threshold : option nat;
  kn_is_active : bool;
  kn_hardware_key_id : option nat;
  kn_allowed_bridges : gset bytes;
}.
Record KeyQuorumTree := {
  kt_nodes : list KeyNode;
  kt_root_index : nat;
  kt_id_to_index : gmap bytes nat;
  kt_db_id_to_index : gmap nat nat;
}.

Definition bare_node (row : NodeRow) : KeyNode :=
  {| kn_db_id := nr_id row; kn_id := nr_label row; kn_parent_idx := None; kn_children_indices := [];
     kn_threshold := option_map N.to_nat (nr_threshold row); kn_is_active := nr_active row;
     kn_hardware_key_id := nr_hardware row; kn_allowed_bridges := ∅ |}.
Definition set_parent (p : nat) (n : KeyNode) : KeyNode :=
  {| kn_db_id := kn_db_id n; kn_id := kn_id n; kn_parent_idx := Some p; kn_children_indices := kn_children_indices n;
     kn_threshold := kn_threshold n; kn_is_active := kn_is_active n; kn_hardware_key_id := kn_hardware_key_id n;
     kn_allowed_bridges := kn_allowed_bridges n |}.
Definition push_child (c : nat) (n : KeyNode) : KeyNode :=
  {| kn_db_id := kn_db_id n; kn_id := kn_id n; kn_parent_idx := kn_parent_idx n; kn_children_indices := kn_children_indices n ++ [c];
     kn_threshold := kn_threshold n; kn_is_active := kn_is_active n; kn_hardware_key_id := kn_hardware_key_id n;
     kn_allowed_bridges := kn_allowed_bridges n |}.
Definition allow_peer (peer : bytes) (n : KeyNode) : KeyNode :=
  {| kn_db_id := kn_db_id n; kn_id := kn_id n; kn_parent_idx := kn_parent_idx n; kn_children_indices := kn_children_indices n;
     kn_threshold := kn_threshold n; kn_is_active := kn_is_active n; kn_hardware_key_id := kn_hardware_key_id n;
     kn_allowed_bridges := {[peer]} ∪ kn_allowed_bridges n |}.

(** The first loop of [load]: the two indexes. *)
Fixpoint index_rows (i : nat) (rows : list NodeRow) (by_label : gmap bytes nat) (by_id : gmap nat nat)
    : result (gmap bytes nat * gmap nat nat) :=
  match rows with
  | [] => Ok (by_label, by_id)
  | row :: rows =>
      if bool_decide (is_Some (by_label !! nr_label row)) then Err DuplicateNodeLabel
      else index_rows (S i) rows (<[nr_label row := i]> by_label) (<[nr_id row := i]> by_id)
  end.

(** The second loop: parents and children. *)
Fixpoint link_rows (i : nat) (rows : list NodeRow) (by_id : gmap nat nat) (nodes : list KeyNode) : result (list KeyNode) :=
  match rows with
  | [] => Ok nodes
  | row :: rows =>
      match nr_parent row with
      | None => link_rows (S i) rows by_id nodes
      | Some parent_id =>
          parent_idx ← ok_or (by_id !! parent_id) NodeNotFound;
          link_rows (S i) rows by_id (alter (push_child i) parent_idx (alter (set_parent parent_idx) i nodes))
      end
  end.

Fixpoint load_bridges (bridges : list (nat * bytes)) (by_id : gmap nat nat) (nodes : list KeyNode) : result (list KeyNode) :=
  match bridges with
  | [] => Ok nodes
  | (db_id, peer) :: bridges =>
      idx ← ok_or (by_id !! db_id) NodeNotFound;
      load_bridges bridges by_id (alter (allow_peer peer) idx nodes)
  end.

Definition rows_of (key_id : nat) (st : Store) : list NodeRow := filter (fun row => nr_key row = key_id) (st_nodes st).
Definition bridges_of (key_id : nat) (st : Store) : list (nat * bytes) :=
  filter (fun b => b.1 ∈ map nr_id (rows_of key_id st)) (st_bridges st).

Definition load (key_id : nat) (st : Store) : result KeyQuorumTree :=
  let rows := rows_of key_id st in
  if bool_decide (rows = []) then Err NodeNotFound else
  '(by_label, by_id) ← index_rows 0 rows ∅ ∅;
  nodes ← link_rows 0 rows by_id (map bare_node rows);
  nodes ← load_bridges (bridges_of key_id st) by_id nodes;
  root ← ok_or (list_find (fun n => kn_parent_idx n = None) nodes) NodeNotFound;
  Ok {| kt_nodes := nodes; kt_root_index := root.1; kt_id_to_index := by_label; kt_db_id_to_index := by_id |}.

Definition index_by_label (tree : KeyQuorumTree) (label : bytes) : result nat := ok_or (kt_id_to_index tree !! label) NodeNotFound.
Definition index_by_db_id (tree : KeyQuorumTree) (db_id : nat) : result nat := ok_or (kt_db_id_to_index tree !! db_id) NodeNotFound.

(** ** What [load] builds *)

Lemma alter_lookup {A} (f : A -> A) (l : list A) (i j : nat) : alter f i l !! j = (if decide (i = j) then f else id) <$> l !! j.
Proof. rewrite list_lookup_alter. case_decide; [by subst|]. by rewrite option_fmap_id. Qed.

Section load.
Context (rows0 : list NodeRow).

Lemma index_rows_Ok i rows by_label by_id by_label' by_id' :
  index_rows i rows by_label by_id = Ok (by_label', by_id') ->
  NoDup (map nr_label rows) /\
  (forall l j, by_label' !! l = Some j <-> (by_label !! l = Some j \/ exists k row, rows !! k = Some row /\ nr_label row = l /\ j = i + k)) /\
  (NoDup (map nr_id rows) -> (forall x, x ∈ map nr_id rows -> by_id !! x = None) ->
   forall x j, by_id' !! x = Some j <-> (by_id !! x = Some j \/ exists k row, rows !! k = Some row /\ nr_id row = x /\ j = i + k)) /\
  (forall l, l ∈ map nr_label rows -> by_label !! l = None).
Proof.
  revert i by_label by_id; induction rows as [|row rows IH]; intros i by_label by_id; simpl.
  { intros [= <- <-]. split_and!; [constructor| | |set_solver]; [intros l j|intros _ _ x j]; (split; [by left|]; by intros [?|(k & row & ? & _)]). }
  case_bool_decide as B; [done|]. intros HI. apply eq_None_not_Some in B.
  destruct (IH _ _ _ HI) as (HN & HL & HD & Hnew). clear IH HI.
  assert (forall (P : NodeRow -> Prop) j, (exists k r, (row :: rows) !! k = Some r /\ P r /\ j = i + k) <->
    (P row /\ j = i) \/ exists k r, rows !! k = Some r /\ P r /\ j = S i + k) as Hk.
  { intros P j. split.
    - intros ([|k] & r & E & HP & ->); [injection E as ->; left; split; [done|lia]|]. right. exists k, r. split_and!; [done|done|lia].
    - intros [[HP ->]|(k & r & E & HP & ->)]; [exists 0, row|exists (S k), r]; (split_and!; [done|done|lia]). }
  split_and!.
  - constructor; [|done]. intros Hx. specialize (Hnew _ Hx). by rewrite lookup_insert_eq in Hnew.
  - intros l j. rewrite HL, (Hk (fun r => nr_label r = l)), lookup_insert. case_decide as E; [|naive_solver].
    subst l. split; [naive_solver|]. intros [?|[[_ ->]|?]]; [congruence|by left|by right].
  - intros [Hx HNi]%NoDup_cons Hfree x j. rewrite HD; [|done|].
    + rewrite (Hk (fun r => nr_id r = x)), lookup_insert. assert (by_id !! nr_id row = None) as Hrow by (apply Hfree; left).
      case_decide as E; [|naive_solver]. subst x. split; [naive_solver|]. intros [?|[[_ ->]|?]]; [congruence|by left|by right].
    + intros y Hy. rewrite lookup_insert_ne by (intros <-; done). apply Hfree. by right.
  - intros l [->|Hl]%elem_of_cons; [done|]. specialize (Hnew l Hl). rewrite lookup_insert in Hnew. by case_decide.
Qed.

(** The place of a row's parent. *)
Definition parent_idx (by_id : gmap nat nat) (row : NodeRow) : option nat := nr_parent row ≫= fun p => by_id !! p.

Definition has_parent (by_id : gmap nat nat) (j k : nat) : Prop := (rows0 !! k) ≫= parent_idx by_id = Some j.
#[local] Instance has_parent_dec by_id j k : Decision (has_parent by_id j k).
Proof. unfold has_parent. apply _. Defined.

(** Row [j] in the arena after the first [i] rows were linked. *)
Definition linked_node (by_id : gmap nat nat) (i j : nat) (row : NodeRow) : KeyNode :=
  {| kn_db_id := nr_id row; kn_id := nr_label row; kn_parent_idx := if j <? i then parent_idx by_id row else None;
     kn_children_indices := filter (has_parent by_id j) (seq 0 i);
     kn_threshold := option_map N.to_nat (nr_threshold row); kn_is_active := nr_active row;
     kn_hardware_key_id := nr_hardware row; kn_allowed_bridges := ∅ |}.

Lemma linked_node_skip by_id i j row : rows0 !! i ≫= parent_idx by_id = None -> rows0 !! j = Some row ->
  linked_node by_id (S i) j row = linked_node by_id i j row.
Proof.
  intros Hi Hj. unfold linked_node. f_equal.
  - destruct (Nat.ltb_spec j (S i)), (Nat.ltb_spec j i); try done; [|lia]. replace i with j in * by lia. by rewrite Hj in Hi.
  - rewrite seq_S, filter_app. simpl. rewrite filter_cons_False by (unfold has_parent; congruence). by rewrite app_nil_r.
Qed.

Lemma linked_node_step by_id i j p row ri : rows0 !! i = Some ri -> parent_idx by_id ri = Some p -> rows0 !! j = Some row ->
  linked_node by_id (S i) j row =
  (if decide (j = p) then push_child i else id) ((if decide (j = i) then set_parent p else id) (linked_node by_id i j row)).
Proof.
  intros Hi Hp Hj.
  assert (filter (has_parent by_id j) (seq 0 (S i)) = filter (has_parent by_id j) (seq 0 i) ++ (if decide (j = p) then [i] else [])) as EC.
  { rewrite seq_S, filter_app. f_equal. simpl. case_decide as E; [rewrite filter_cons_True|rewrite filter_cons_False]; try done;
      unfold has_parent; rewrite Hi; simpl; congruence. }
  unfold linked_node, push_child, set_parent. rewrite EC.
  destruct (decide (j = i)) as [->|Hji]; simpl.
  - rewrite (proj2 (Nat.ltb_lt i (S i))) by lia. assert (row = ri) as -> by congruence. rewrite Hp.
    by case_decide; simpl; rewrite ?app_nil_r.
  - assert ((j <? S i) = (j <? i)) as -> by (destruct (Nat.ltb_spec j (S i)), (Nat.ltb_spec j i); (done || lia)).
    by case_decide; simpl; rewrite ?app_nil_r.
Qed.

Lemma link_rows_Ok by_id before rows nodes :
  rows0 = before ++ rows ->
  link_rows (length before) rows by_id (imap (linked_node by_id (length before)) rows0) = Ok nodes ->
  nodes = imap (linked_node by_id (length rows0)) rows0 /\
  forall row p, row ∈ rows -> nr_parent row = Some p -> is_Some (by_id !! p).
Proof.
  revert before; induction rows as [|row rows IH]; intros before E; simpl.
  { intros [= <-]. rewrite app_nil_r in E. subst. split; [done|set_solver]. }
  assert (rows0 !! length before = Some row) as Hrow by (rewrite E; by rewrite list_lookup_middle).
  assert (rows0 = (before ++ [row]) ++ rows) as E' by (by rewrite <- app_assoc).
  specialize (IH _ E'). rewrite length_app in IH. simpl in IH. rewrite Nat.add_1_r in IH.
  destruct (nr_parent row) as [p|] eqn:EP.
  - destruct (by_id !! p) as [pi|] eqn:EI; [|done]. simpl. intros HL.
    assert (parent_idx by_id row = Some pi) as Hpi by (unfold parent_idx; by rewrite EP).
    destruct IH as [HN HP].
    { rewrite <- HL. f_equal. apply list_eq. intros j. rewrite !alter_lookup, !list_lookup_imap.
      destruct (rows0 !! j) as [rj|] eqn:Ej; simpl; [|done]. erewrite linked_node_step by done.
      by repeat case_decide; try congruence. }
    split; [done|]. intros r q [->|Hr]%elem_of_cons; [|by apply HP]. rewrite EP. intros [= <-]. eauto.
  - intros HL. destruct IH as [HN HP].
    { rewrite <- HL. f_equal. apply list_eq. intros j. rewrite !list_lookup_imap. destruct (rows0 !! j) as [rj|] eqn:Ej; [|done]. simpl. f_equal.
      apply linked_node_skip; [|done]. rewrite Hrow. simpl. unfold parent_idx. by rewrite EP. }
    split; [done|]. intros r q [->|Hr]%elem_of_cons; [|by apply HP]. by rewrite EP.
Qed.
End load.

Lemma load_bridges_Ok bridges by_id nodes nodes' :
  load_bridges bridges by_id nodes = Ok nodes' ->
  forall j, nodes' !! j = (fun n => {| kn_db_id := kn_db_id n; kn_id := kn_id n; kn_parent_idx := kn_parent_idx n;
      kn_children_indices := kn_children_indices n; kn_threshold := kn_threshold n; kn_is_active := kn_is_active n;
      kn_hardware_key_id := kn_hardware_key_id n;
      kn_allowed_bridges := list_to_set (map snd (filter (fun b => by_id !! b.1 = Some j) bridges)) ∪ kn_allowed_bridges n |}) <$> nodes !! j.
Proof.
  revert nodes; induction bridges as [|[x peer] bridges IH]; intros nodes; simpl.
  { intros [= <-] j. destruct (nodes !! j) as [n|]; [|done]. simpl. destruct n. by rewrite union_empty_l_L. }
  destruct (by_id !! x) as [idx|] eqn:E; [|done]. simpl. intros HL j. rewrite (IH _ HL), alter_lookup.
  destruct (nodes !! j) as [n|]; [|done]. simpl. f_equal. rewrite filter_cons. simpl. rewrite E.
  destruct (decide (idx = j)) as [->|Hne]; [rewrite decide_True by done|rewrite decide_False by congruence]; simpl; [|done].
  f_equal. set_solver.
Qed.

(** The place of the row with a given id among [rows]. *)
Definition place (rows : list NodeRow) (id : nat) : option nat := fst <$> list_find (fun row => nr_id row = id) rows.
Definition parent_place (rows : list NodeRow) (k : nat) : option nat := row ← rows !! k; p ← nr_parent row; place rows p.
Definition peers_of (st : Store) (id : nat) : gset bytes := list_to_set (map snd (filter (fun b => b.1 = id) (st_bridges st))).

(** The arena of [rows], node by node. *)
Definition arena_node (st : Store) (rows : list NodeRow) (j : nat) (row : NodeRow) : KeyNode :=
  {| kn_db_id := nr_id row; kn_id := nr_label row; kn_parent_idx := parent_place rows j;
     kn_children_indices := filter (fun k => parent_place rows k = Some j) (seq 0 (length rows));
     kn_threshold := option_map N.to_nat (nr_threshold row); kn_is_active := nr_active row;
     kn_hardware_key_id := nr_hardware row; kn_allowed_bridges := peers_of st (nr_id row) |}.

Lemma place_Some rows id j : NoDup (map nr_id rows) -> place rows id = Some j <-> exists row, rows !! j = Some row /\ nr_id row = id.
Proof.
  intros HN. unfold place. rewrite fmap_Some. split.
  - intros ([i row] & (H1 & H2 & _)%list_find_Some & ->). simpl. eauto.
  - intros (row & Hj & Hid). exists (j, row). split; [|done]. apply list_find_Some. split_and!; [done|done|].
    intros k rk Hk Hlt E. assert (k = j); [|lia]. eapply (NoDup_lookup (map nr_id rows)); [done| |].
    + rewrite list_lookup_fmap, Hk. simpl. by rewrite E.
    + rewrite list_lookup_fmap, Hj. simpl. by rewrite Hid.
Qed.

Record loaded (st : Store) (key_id : nat) (tree : KeyQuorumTree) : Prop := {
  loaded_nodes : kt_nodes tree = imap (arena_node st (rows_of key_id st)) (rows_of key_id st);
  loaded_root : exists root, list_find (fun n => kn_parent_idx n = None) (kt_nodes tree) = Some (kt_root_index tree, root);
  loaded_labels : NoDup (map nr_label (rows_of key_id st));
  loaded_label l j : kt_id_to_index tree !! l = Some j <-> exists row, rows_of key_id st !! j = Some row /\ nr_label row = l;
  loaded_id x j : kt_db_id_to_index tree !! x = Some j <-> exists row, rows_of key_id st !! j = Some row /\ nr_id row = x;
  loaded_parents row p : row ∈ rows_of key_id st -> nr_parent row = Some p -> is_Some (place (rows_of key_id st) p);
}.

Lemma load_Ok key_id st tree : NoDup (map nr_id (st_nodes st)) -> load key_id st = Ok tree -> loaded st key_id tree.
Proof.
  intros HN0. unfold load. set (rows := rows_of key_id st).
  assert (NoDup (map nr_id rows)) as HN by (eapply sublist_NoDup; [exact HN0|apply fmap_sublist, sublist_filter]). clear HN0.
  case_bool_decide as E; [done|]. intros ([by_label by_id] & HI & (nodes & HL & (nodes' & HB & ([root rn] & HF%ok_or_Ok & [= <-])%bind_Ok)%bind_Ok)%bind_Ok)%bind_Ok.
  apply index_rows_Ok in HI as (HNL & Hlab & Hid & _). specialize (Hid HN ltac:(set_solver)).
  assert (forall x j, by_id !! x = Some j <-> exists row, rows !! j = Some row /\ nr_id row = x) as Hid'.
  { intros x j. rewrite Hid, lookup_empty. split; [intros [?|(k & row & ? & ? & ->)]; [done|by exists row]|]. intros (row & ? & ?). right. by exists j, row. }
  assert (forall x, by_id !! x = place rows x) as HP.
  { intros x. apply option_eq. intros j. by rewrite Hid', place_Some. }
  destruct (link_rows_Ok rows by_id [] rows nodes eq_refl) as [-> Hpar].
  { rewrite <- HL. f_equal. apply list_eq. intros j. rewrite list_lookup_imap, list_lookup_fmap. by destruct (rows !! j). }
  assert (forall k, rows !! k ≫= parent_idx by_id = parent_place rows k) as HPP.
  { intros k. unfold parent_place, parent_idx. destruct (rows !! k) as [row|]; [|done]. simpl. destruct (nr_parent row); [|done]. simpl. apply HP. }
  split; simpl; fold rows.
  - apply list_eq. intros j. rewrite (load_bridges_Ok _ _ _ _ HB), !list_lookup_imap. destruct (rows !! j) as [row|] eqn:Ej; [|done]. simpl. f_equal.
    unfold linked_node, arena_node. simpl. rewrite (proj2 (Nat.ltb_lt _ _)) by (by eapply lookup_lt_Some). f_equal.
    + rewrite <- HPP, Ej. done.
    + apply list_filter_iff. intros k. unfold has_parent. by rewrite HPP.
    + rewrite union_empty_r_L. unfold peers_of, bridges_of. rewrite list_filter_filter. f_equal. f_equal. apply list_filter_iff. intros b.
      rewrite Hid'. split.
      * intros [(r & Hr & Er) _]. congruence.
      * intros Eb. split; [exists row; done|]. rewrite Eb. apply list_elem_of_fmap_2. by eapply list_elem_of_lookup_2.
  - eauto.
  - done.
  - intros l j. rewrite Hlab, lookup_empty. split; [intros [?|(k & row & ? & ? & ->)]; [done|by exists row]|]. intros (row & ? & ?). right. by exists j, row.
  - done.
  - intros row p Hrow Ep. rewrite <- HP. by eapply Hpar.
Qed.

Lemma index_rows_total i rows by_label by_id :
  NoDup (map nr_label rows) -> (forall l, l ∈ map nr_label rows -> by_label !! l = None) -> exists r, index_rows i rows by_label by_id = Ok r.
Proof.
  revert i by_label by_id; induction rows as [|row rows IH]; intros i by_label by_id HN Hfree; simpl; [eauto|].
  apply NoDup_cons in HN as [Hx HN]. rewrite bool_decide_false by (rewrite Hfree by left; by intros [? ?]).
  apply IH; [done|]. intros l Hl. rewrite lookup_insert_ne by (intros <-; done). apply Hfree. by right.
Qed.

Lemma link_rows_total i rows by_id nodes :
  (forall row p, row ∈ rows -> nr_parent row = Some p -> is_Some (by_id !! p)) -> exists r, link_rows i rows by_id nodes = Ok r.
Proof.
  revert i nodes; induction rows as [|row rows IH]; intros i nodes HP; simpl; [eauto|].
  assert (forall r p, r ∈ rows -> nr_parent r = Some p -> is_Some (by_id !! p)) as HP' by (intros r p Hr; apply HP; by right).
  destruct (nr_parent row) as [p|] eqn:E; [|by apply IH]. destruct (HP row p) as [j ->]; [left|done|]. simpl. by apply IH.
Qed.

Lemma load_bridges_total bridges by_id nodes :
  (forall b, b ∈ bridges -> is_Some (by_id !! b.1)) -> exists r, load_bridges bridges by_id nodes = Ok r.
Proof.
  revert nodes; induction bridges as [|[x peer] bridges IH]; intros nodes HB; simpl; [eauto|].
  destruct (HB (x, peer)) as [j Hj]; [left|]. simpl in Hj. rewrite Hj. simpl. apply IH. intros b Hb. apply HB. by right.
Qed.

(** [load] succeeds on rows with distinct labels, parents among them and a root. *)
Lemma load_total key_id st :
  let rows := rows_of key_id st in
  NoDup (map nr_id (st_nodes st)) -> NoDup (map nr_label rows) ->
  (forall row p, row ∈ rows -> nr_parent row = Some p -> p ∈ map nr_id rows) -> (exists row, row ∈ rows /\ nr_parent row = None) ->
  exists tree, load key_id st = Ok tree.
Proof.
  intros rows HN0 HL HP (root & Hroot & Er). unfold load. fold rows. rewrite bool_decide_false by (intros E; rewrite E in Hroot; set_solver).
  assert (NoDup (map nr_id rows)) as HN by (eapply sublist_NoDup; [exact HN0|apply fmap_sublist, sublist_filter]).
  destruct (index_rows_total 0 rows ∅ ∅ HL) as [[by_label by_id] EI]; [done|]. rewrite EI. cbn [mbind result_bind].
  apply index_rows_Ok in EI as (_ & _ & Hid & _). specialize (Hid HN ltac:(set_solver)).
  assert (forall x, x ∈ map nr_id rows -> is_Some (by_id !! x)) as Hin.
  { intros x (row & -> & [k Hk]%list_elem_of_lookup)%list_elem_of_fmap. exists k. apply Hid. right. by exists k, row. }
  destruct (link_rows_total 0 rows by_id (map bare_node rows)) as [nodes EL]; [intros row p Hr Ep; eapply Hin, HP; done|].
  rewrite EL. cbn [mbind result_bind]. destruct (link_rows_Ok rows by_id [] rows nodes eq_refl) as [-> _].
  { rewrite <- EL. f_equal. apply list_eq. intros j. rewrite list_lookup_imap, list_lookup_fmap. by destruct (rows !! j). }
  destruct (load_bridges_total (bridges_of key_id st) by_id (imap (linked_node rows by_id (length rows)) rows)) as [nodes' EB].
  { intros b [Hb _]%list_elem_of_filter. by apply Hin. }
  rewrite EB. cbn [mbind result_bind]. apply list_elem_of_lookup in Hroot as [k Hk].
  destruct (list_find_elem_of (fun n => kn_parent_idx n = None) nodes'
    (match nodes' !! k with Some n => n | None => bare_node root end)) as [[i n] EF].
  - apply list_elem_of_lookup. exists k. rewrite (load_bridges_Ok _ _ _ _ EB), list_lookup_imap, Hk. done.
  - rewrite (load_bridges_Ok _ _ _ _ EB), list_lookup_imap, Hk. simpl. unfold parent_idx. rewrite Er. by destruct (k <? length rows).
  - rewrite EF. simpl. eauto.
Qed.

(** Unsealing one leaf's share with that leaf's encryption secret. *)
Definition unwrap_leaf_share `{C : Crypto} (st : Store) (node_id : nat) (secret_key : bytes) : result bytes :=
  if negb (length secret_key =? 32) then Err InvalidPublicKey else
  row ← ok_or (first_row (fun r => bool_decide (nr_id r = node_id)) (st_nodes st)) Db;
  hardware_key_id ← ok_or (nr_hardware row) NodeNotFound;
  wrapped ← ok_or (nr_share row) NodeNotFound;
  hardware_key ← get_key hardware_key_id st;
  if negb (bool_decide (hk_public_key hardware_key = box_public secret_key)) then Err IntegrityCheckFailed else
  ok_or (box_unseal secret_key wrapped) IntegrityCheckFailed.
