(* ===== verification/Combinations.v ===== *)
(** * Choosing children ([src/src/key_tree.rs]: [next_combination], [take_indexed])

    The search for a set of children that satisfies a custody policy goes through
    the index combinations in place, and takes the chosen children out of their
    vector from the back. Both are shown equal to the obvious definitions. *)

From S2P Require Import Prelude.

(** The loop of [next_combination]: the last position that can still grow does,
    and the ones after it follow it closely. *)
Fixpoint advance (indexes : list nat) (n k i : nat) : option (list nat) :=
  match i with
  | O => None
  | S i =>
      let limit := n - (k - 1 - i) in
      match indexes !! i with
      | Some x => if x + 1 <? limit then Some (take i indexes ++ seq (x + 1) (k - i)) else advance indexes n k i
      | None => None
      end
  end.

(** [None] is the answer [false]. *)
Definition next_combination (indexes : list nat) (n : nat) : option (list nat) :=
  let k := length indexes in
  if (k =? 0) || (n <? k) then None else advance indexes n k k.

(** [Vec::swap_remove]: the last element fills the gap. *)
Definition swap_remove {A} (l : list A) (i : nat) : option (A * list A) :=
  match l !! i, last l with
  | Some x, Some z => Some (x, take (length l - 1) (<[i := z]> l))
  | _, _ => None
  end.

(** [for index in order.into_iter().rev() { picked.push((index, children.swap_remove(index))) }] *)
Fixpoint pull {A} (order : list nat) (children : list A) : list (nat * A) :=
  match order with
  | [] => []
  | index :: order =>
      match swap_remove children index with
      | Some (child, children) => (index, child) :: pull order children
      | None => []
      end
  end.

(** [picked.sort_by_key(|(index, _)| *index)] *)
Definition index_le {A} (a b : nat * A) : Prop := a.1 <= b.1.
#[export] Instance index_le_dec {A} (a b : nat * A) : Decision (index_le a b).
Proof. unfold index_le. apply _. Defined.

Definition take_indexed {A} (children : list A) (indexes : list nat) : list A :=
  let order := merge_sort le indexes in
  map snd (merge_sort index_le (pull (reverse order) children)).

(** ** The reference enumeration *)

(** The increasing lists of [k] indexes from [lo] on and below [n], in lexicographic order. *)
Fixpoint combinations (lo n k : nat) : list (list nat) :=
  match k with
  | O => [[]]
  | S k => concat (map (fun x => map (cons x) (combinations (S x) n k)) (seq lo (n - lo)))
  end.

(** Every element leads to its right neighbour, and the last one to [z]. *)
Fixpoint chained {A} (next : A -> option A) (l : list A) (z : option A) : Prop :=
  match l with
  | [] => True
  | a :: l => next a = from_option Some z (head l) /\ chained next l z
  end.

Lemma chained_app {A} (next : A -> option A) l k z : chained next l (from_option Some z (head k)) -> chained next k z -> chained next (l ++ k) z.
Proof.
  intros Hl Hk. induction l as [|a l IH]; [done|]. destruct Hl as [Ha Hl]. split; [|by apply IH].
  rewrite Ha. by destruct l.
Qed.

Lemma chained_elem {A} (next : A -> option A) l a b : chained next l None -> a ∈ l -> next a = Some b -> b ∈ l.
Proof.
  induction l as [|x l IH]; [set_solver|]. intros [Hx HC] [->|Ha]%elem_of_cons Hb; [|right; by apply IH].
  rewrite Hb in Hx. destruct l as [|y l]; [done|]. injection Hx as ->. right. left.
Qed.

Lemma combinations_elem lo n k l :
  l ∈ combinations lo n k <-> length l = k /\ (forall i x, l !! i = Some x -> lo <= x < n) /\ Sorted lt l.
Proof.
  revert lo l; induction k as [|k IH]; intros lo l; simpl.
  { rewrite list_elem_of_singleton. split; [intros ->; split_and!; [done|done|constructor]|]. by destruct l; intros (? & _). }
  rewrite list_elem_of_In, in_concat. setoid_rewrite in_map_iff. split.
  - intros (? & (x & <- & Hx%in_seq) & (l' & <- & Hl)%in_map_iff). apply list_elem_of_In, IH in Hl as (Hlen & Hb & HS).
    split_and!; [simpl; lia| |].
    + intros [|i] y; simpl; [intros [= <-]; lia|]. intros Hy. specialize (Hb i y Hy). lia.
    + constructor; [done|]. destruct l' as [|y l']; [constructor|]. constructor. specialize (Hb 0 y eq_refl). lia.
  - intros (Hlen & Hb & HS). destruct l as [|x l]; [done|]. apply Sorted_inv in HS as [HS Hx].
    assert (lo <= x < n) as Hxb by (by apply (Hb 0)). eexists. split; [exists x; split; [reflexivity|apply in_seq; lia]|].
    apply in_map_iff. exists l. split; [done|]. apply list_elem_of_In, IH. split_and!; [simpl in Hlen; lia| |done].
    intros i y Hy. split; [|by apply (Hb (S i))]. assert (StronglySorted lt (x :: l)) as HSS.
    { apply Sorted_StronglySorted; [intros ? ? ?; lia|]. by constructor. }
    apply StronglySorted_inv in HSS as [_ HF]. rewrite Forall_forall in HF. specialize (HF y). apply list_elem_of_lookup_2 in Hy. specialize (HF Hy). lia.
Qed.

(** One index more in front does not change which of the others grows. *)
Lemma advance_cons x l n k i :
  k = length l -> i <= k -> 1 <= i -> S k <= n ->
  advance (x :: l) n (S k) (S i) =
  match advance l n k i with
  | Some l' => Some (x :: l')
  | None => if x + 1 <? n - k then Some (seq (x + 1) (S k)) else None
  end.
Proof.
  intros Hk. induction i as [|i IH]; intros Hi H1 Hn; [lia|].
  cbn [advance]. destruct (lookup_lt_is_Some_2 l i) as [y Hy]; [lia|].
  change ((x :: l) !! S i) with (l !! i). rewrite Hy. replace (S k - 1 - S i) with (k - 1 - i) by lia.
  destruct (y + 1 <? n - (k - 1 - i)) eqn:B; [by replace (S k - S i) with (k - i) by lia|].
  destruct i as [|i].
  - cbn [advance]. simpl. replace (k - 0 - 0) with k by lia. done.
  - rewrite <- IH by lia. done.
Qed.

Lemma next_combination_cons x l n :
  S (length l) <= n ->
  next_combination (x :: l) n =
  match next_combination l n with
  | Some l' => Some (x :: l')
  | None => if x + 1 <? n - length l then Some (seq (x + 1) (S (length l))) else None
  end.
Proof.
  intros Hn. unfold next_combination. cbn [length]. rewrite (proj2 (Nat.ltb_ge n (S (length l)))) by lia.
  rewrite (proj2 (Nat.ltb_ge n (length l))) by lia. simpl (S _ =? 0). cbn [orb].
  destruct (length l) as [|k] eqn:E; cbn [Nat.eqb orb].
  - cbn [advance]. simpl. rewrite Nat.sub_0_r. by apply nil_length_inv in E as ->.
  - rewrite <- E. rewrite advance_cons by lia. by rewrite E.
Qed.

Lemma combinations_nil lo n k : 1 <= k -> n < lo + k -> combinations lo n k = [].
Proof.
  revert lo; induction k as [|k IH]; intros lo Hk Hn; [lia|]. simpl. apply list_nil_no_elem. intros l.
  rewrite list_elem_of_In, in_concat. intros (? & (x & <- & Hx%in_seq)%in_map_iff & Hl). destruct k as [|k]; [lia|].
  rewrite IH in Hl by lia. done.
Qed.

Lemma combinations_step lo n k : lo < n -> combinations lo n (S k) = map (cons lo) (combinations (S lo) n k) ++ combinations (S lo) n (S k).
Proof. intros Hn. simpl. replace (n - lo) with (S (n - S lo)) by lia. done. Qed.

Lemma combinations_head lo n k : lo + k <= n -> head (combinations lo n k) = Some (seq lo k).
Proof.
  revert lo; induction k as [|k IH]; intros lo Hn; [done|]. rewrite combinations_step by lia.
  specialize (IH (S lo) ltac:(lia)). destruct (combinations (S lo) n k) as [|l ls]; [done|]. simpl in *. congruence.
Qed.

Lemma combinations_length lo n k l : l ∈ combinations lo n k -> length l = k.
Proof. intros Hl. by apply combinations_elem in Hl as [? _]. Qed.

(** From every combination [next_combination] leads to the next of the enumeration. *)
Lemma combinations_chained lo n k : chained (fun l => next_combination l n) (combinations lo n k) None.
Proof.
  revert lo; induction k as [|k IHk]; intros lo; [done|].
  remember (n - lo) as d eqn:Hd. revert lo Hd; induction d as [|d IHd]; intros lo Hd; [simpl; by rewrite <- Hd|].
  rewrite combinations_step by lia. apply chained_app; [|apply IHd; lia].
  destruct (decide (S lo + k <= n)) as [Hle|Hgt]; cycle 1.
  { destruct k as [|k]; [lia|]. rewrite (combinations_nil (S lo) n (S k)) by lia. done. }
  assert (from_option Some None (head (combinations (S lo) n (S k))) = if lo + 1 <? n - k then Some (seq (lo + 1) (S k)) else None) as ->.
  { rewrite Nat.add_1_r. destruct (Nat.ltb_spec (S lo) (n - k)); [by rewrite combinations_head by lia|]. by rewrite combinations_nil by lia. }
  pose proof (IHk (S lo)) as HC. assert (forall l, l ∈ combinations (S lo) n k -> length l = k) as HL by apply combinations_length.
  revert HC HL. generalize (combinations (S lo) n k). intros ls. induction ls as [|l ls IH]; intros HC HL; [done|]. destruct HC as [Hn HC].
  assert (length l = k) as El by (apply HL; left). split; [|apply IH; [done|intros l' Hl'; apply HL; by right]].
  rewrite next_combination_cons by lia. rewrite Hn, El. by destruct ls.
Qed.

(** ** Taking children out of their vector *)

Lemma swap_remove_below {A} (l : list A) i x l' :
  swap_remove l i = Some (x, l') -> l !! i = Some x /\ length l' = length l - 1 /\ forall j, j < i -> l' !! j = l !! j.
Proof.
  unfold swap_remove. destruct (l !! i) as [y|] eqn:E; [|done]. destruct (last l) as [z|]; [|done]. intros [= <- <-].
  apply lookup_lt_Some in E as Hi. split; [done|]. split; [rewrite length_take, length_insert; lia|].
  intros j Hj. rewrite lookup_take_lt by lia. by rewrite list_lookup_insert_ne by lia.
Qed.

Lemma swap_remove_total {A} (l : list A) i : i < length l -> is_Some (swap_remove l i).
Proof.
  intros Hi. unfold swap_remove. destruct (lookup_lt_is_Some_2 l i Hi) as [x ->].
  destruct (last l) as [z|] eqn:E; [eauto|]. apply last_None in E. subst. simpl in Hi. lia.
Qed.

(** Going down, every removal leaves the places still to come untouched. *)
Lemma pull_spec {A} (order : list nat) (children l : list A) bound :
  StronglySorted gt order -> Forall (fun i => i < bound) order -> bound <= length children ->
  (forall j, j < bound -> children !! j = l !! j) ->
  pull order children = omap (fun i => pair i <$> l !! i) order.
Proof.
  revert children bound; induction order as [|i order IH]; intros children bound HS HB Hlen Hagree; [done|]. simpl.
  apply StronglySorted_inv in HS as [HS Hlt]. apply Forall_cons in HB as [Hi _].
  destruct (swap_remove_total children i) as [[x rest] E]; [lia|]. rewrite E.
  apply swap_remove_below in E as (Hx & Hl & Hb). rewrite <- Hagree, Hx by done. simpl. f_equal.
  apply (IH rest i); [done|done|lia|]. intros j Hj. rewrite Hb by done. apply Hagree. lia.
Qed.

Lemma StronglySorted_reverse_lt l : StronglySorted lt l -> StronglySorted gt (reverse l).
Proof.
  induction 1 as [|x l HS IH HF]; [constructor|]. rewrite reverse_cons. apply StronglySorted_app. split_and!; [|done|repeat constructor].
  intros y z Hy ->%list_elem_of_singleton. rewrite elem_of_reverse in Hy. rewrite Forall_forall in HF. by apply HF.
Qed.

#[local] Instance index_le_trans {A} : Transitive (index_le (A := A)).
Proof. intros a b c. unfold index_le. lia. Qed.
#[local] Instance index_le_total {A} : Total (index_le (A := A)).
Proof. intros a b. unfold index_le. lia. Qed.

(** [take_indexed] hands out the children at the indexes, in their order. *)
Lemma take_indexed_picks {A} (children : list A) indexes :
  Sorted lt indexes -> Forall (fun i => i < length children) indexes -> take_indexed children indexes = picks children indexes.
Proof.
  intros HS HB. assert (StronglySorted lt indexes) as HSS by (apply Sorted_StronglySorted; [intros ? ? ?; lia|done]).
  unfold take_indexed. assert (merge_sort le indexes = indexes) as ->.
  { apply (Sorted_unique le); [apply (Sorted_merge_sort le)| |apply merge_sort_Permutation].
    apply StronglySorted_Sorted. clear -HSS. induction HSS as [|x l HSS IH HF]; constructor; [done|].
    eapply Forall_impl; [exact HF|]. simpl. lia. }
  rewrite (pull_spec _ _ children (length children)); [|by apply StronglySorted_reverse_lt|by apply Forall_reverse|done|done].
  set (tag := fun i => pair i <$> children !! i).
  assert (omap tag (reverse indexes) ≡ₚ omap tag indexes) as HP by (apply omap_Permutation, reverse_Permutation).
  assert (merge_sort index_le (omap tag (reverse indexes)) = omap tag indexes) as ->.
  { apply (Sorted_unique_strong index_le); [|apply (Sorted_merge_sort index_le)| |by rewrite merge_sort_Permutation].
    - intros a b Ha Hb H1 H2. rewrite merge_sort_Permutation, HP in Ha. unfold index_le in H1, H2.
      apply list_elem_of_omap in Ha as (i & _ & (x & Hx & ->)%fmap_Some), Hb as (j & _ & (y & Hy & ->)%fmap_Some). simpl in *.
      assert (i = j) as -> by lia. congruence.
    - apply StronglySorted_Sorted. clear -HSS HB. induction HSS as [|i l HSS IH HF]; [constructor|]. apply Forall_cons in HB as [Hi HB].
      simpl. unfold tag at 1. destruct (lookup_lt_is_Some_2 children i Hi) as [x ->]. simpl. constructor; [by apply IH|].
      apply Forall_forall. intros b (j & Hj & (y & _ & ->)%fmap_Some)%list_elem_of_omap. rewrite Forall_forall in HF. specialize (HF j Hj).
      unfold index_le. simpl. lia. }
  unfold picks, tag. clear. induction indexes as [|i l IH]; [done|]. simpl. destruct (children !! i); simpl; [by f_equal|done].
Qed.

Lemma Sorted_lt_NoDup (l : list nat) : Sorted lt l -> NoDup l.
Proof.
  intros HS. assert (StronglySorted lt l) as HSS by (apply Sorted_StronglySorted; [intros ? ? ?; lia|done]). clear HS.
  induction HSS as [|x l HSS IH HF]; constructor; [|done]. intros Hx. rewrite Forall_forall in HF. specialize (HF x Hx). lia.
Qed.

Lemma picks_seq {A} (l : list A) n : picks l (seq 0 n) = take n l.
Proof.
  assert (forall pre, picks (pre ++ l) (seq (length pre) n) = take n l) as H; [|apply (H [])].
  revert l; induction n as [|n IH]; intros l pre; [done|]. unfold picks in *. simpl. destruct l as [|x l].
  - rewrite app_nil_r, lookup_ge_None_2 by lia. specialize (IH [] pre). clear IH.
    apply list_nil_no_elem. intros x (i & Hi & E)%list_elem_of_omap. apply elem_of_seq in Hi. apply lookup_lt_Some in E. lia.
  - rewrite list_lookup_middle by done. simpl. f_equal. rewrite <- (IH l (pre ++ [x])). rewrite length_app, <- app_assoc. simpl.
    by rewrite Nat.add_1_r.
Qed.

(** ** The whole run of [next_combination] *)

(** The index lists the search visits from [indexes] on. *)
Fixpoint visited (fuel : nat) (indexes : list nat) (n : nat) : list (list nat) :=
  match fuel with
  | O => []
  | S fuel => indexes :: match next_combination indexes n with Some indexes => visited fuel indexes n | None => [] end
  end.

Fixpoint binomial (n k : nat) : nat :=
  match k, n with
  | O, _ => 1
  | S _, O => 0
  | S k', S n' => binomial n' k' + binomial n' k
  end.

Lemma length_combinations lo n k : lo <= n -> length (combinations lo n k) = binomial (n - lo) k.
Proof.
  intros Hle. remember (n - lo) as d eqn:Hd. revert lo k Hle Hd; induction d as [|d IH]; intros lo k Hle Hd.
  - destruct k; [done|]. simpl. by replace (n - lo) with 0 by lia.
  - destruct k as [|k]; [done|]. rewrite combinations_step by lia. rewrite length_app, length_map, !IH by lia. done.
Qed.

Lemma NoDup_combinations lo n k : NoDup (combinations lo n k).
Proof.
  revert lo; induction k as [|k IHk]; intros lo; [apply NoDup_singleton|].
  remember (n - lo) as d eqn:Hd. revert lo Hd; induction d as [|d IHd]; intros lo Hd; [simpl; rewrite <- Hd; constructor|].
  rewrite combinations_step by lia. apply NoDup_app. split; [apply NoDup_fmap_2; [intros ? ? [=]; done|apply IHk]|]. split; [|apply IHd; lia].
  intros l (l' & -> & _)%list_elem_of_fmap (_ & Hb & _)%combinations_elem. specialize (Hb 0 lo eq_refl). lia.
Qed.

Lemma visited_chained fuel l todo n :
  chained (fun c => next_combination c n) (l :: todo) None -> length (l :: todo) <= fuel -> visited fuel l n = l :: todo.
Proof.
  revert l todo; induction fuel as [|fuel IH]; intros l todo [Hn HC] Hf; [simpl in Hf; lia|]. cbn [visited]. f_equal.
  destruct todo as [|c todo]; simpl in Hn; rewrite Hn; [done|]. apply IH; [done|simpl in *; lia].
Qed.

(** The in-place [next_combination] stops, and visits every choice once:
    from the first combination it goes through the increasing lists of [k]
    indexes below [n] in lexicographic order, without repetition, in exactly
    [binomial n k] steps, and then answers that there is no other. *)
Theorem next_combination_enumerates n k fuel :
  1 <= k <= n -> binomial n k <= fuel ->
  visited fuel (seq 0 k) n = combinations 0 n k /\ length (visited fuel (seq 0 k) n) = binomial n k /\ NoDup (visited fuel (seq 0 k) n) /\
  forall l, l ∈ visited fuel (seq 0 k) n <-> length l = k /\ (forall i x, l !! i = Some x -> x < n) /\ Sorted lt l.
Proof.
  intros Hk Hf. pose proof (length_combinations 0 n k ltac:(lia)) as HL. rewrite Nat.sub_0_r in HL.
  assert (visited fuel (seq 0 k) n = combinations 0 n k) as E.
  { pose proof (combinations_head 0 n k ltac:(lia)) as Hh. pose proof (combinations_chained 0 n k) as HC.
    destruct (combinations 0 n k) as [|l todo]; [done|]. injection Hh as ->. by apply visited_chained; [|rewrite HL]. }
  rewrite E. split_and!; [done|done|apply NoDup_combinations|]. intros l. rewrite combinations_elem.
  split; intros (H1 & H2 & H3); (split_and!; [done| |done]); intros i x Hx; specialize (H2 i x Hx); lia.
Qed.

Lemma next_combination_enumerates_witness :
  length (visited 10 (seq 0 2) 4) = 6 /\ [1; 3] ∈ visited 10 (seq 0 2) 4.
Proof.
  destruct (next_combination_enumerates 4 2 10) as (_ & HL & _ & HE); [lia|vm_compute; lia|].
  split; [exact HL|]. apply HE. split_and!; [reflexivity| |repeat constructor].
  intros [|[|i]] x Hx; simplify_eq/=; lia.
Defined.
