(* ===== verification/Reconstruct.v ===== *)
(** * Reconstruction ([src/src/key_tree.rs])

    Recovering the value of a node from the raw shares presented for its leaves:
    the choice of children under a custody policy, the recursion over the arena,
    the walk from an inner node up to the root, and the device check of the
    result. A recursion over the arena takes fuel; a tree that was split has
    depth at most its number of nodes. *)

From S2P Require Import Prelude Text Crypto Pss KeyStore KeyTree Combinations.
From stdpp Require Import gmap.

Record ResolvedChild := { rc_share : bytes; rc_leaves : list UsedLeaf }.

(** [policy] is the store and the key whose custody policy applies. *)
Notation policy_arg := (option (Store * nat)).

Definition flatten_children (children : list ResolvedChild) : list bytes * list UsedLeaf :=
  (map rc_share children, concat (map rc_leaves children)).

Record Search := { sr_best : option (nat * list nat); sr_saw_custody : bool }.

Section reconstruct.
Context `{C : Crypto} `{SH : Shamir}.

Definition leaves_at (children : list ResolvedChild) (indexes : list nat) : list UsedLeaf :=
  concat (map rc_leaves (picks children indexes)).

(** The loop of [select_child_subset]; the answer is the indexes to take. *)
Fixpoint search (fuel : nat) (st : Store) (key_id minimum : nat) (children : list ResolvedChild) (indexes : list nat) (s : Search)
    : result (list nat) :=
  let finish (s : Search) : result (list nat) :=
    match sr_best s with
    | Some (_, indexes) => Ok indexes
    | None => if sr_saw_custody s then Err CustodyViolation else Err QuorumNotMet
    end in
  match fuel with
  | O => finish s
  | S fuel =>
      let continue (s : Search) :=
        match next_combination indexes (length children) with
        | Some indexes => search fuel st key_id minimum children indexes s
        | None => finish s
        end in
      match classify_devices st key_id (leaves_at children indexes) with
      | Ok groups =>
          if minimum <=? length groups then Ok indexes else
          continue (match sr_best s with
                    | Some (best, _) => if best <? length groups
                                        then {| sr_best := Some (length groups, indexes); sr_saw_custody := sr_saw_custody s |} else s
                    | None => {| sr_best := Some (length groups, indexes); sr_saw_custody := sr_saw_custody s |}
                    end)
      | Err CustodyViolation => continue {| sr_best := sr_best s; sr_saw_custody := true |}
      | Err QuorumNotMet | Err GhostDenied => continue s
      | Err e => Err e
      end
  end.

Definition MAX_EXAMINED : nat := N.to_nat 100000.

Definition select_child_subset (policy : policy_arg) (threshold : nat) (children : list ResolvedChild)
    : result (list bytes * list UsedLeaf) :=
  if (threshold =? 0) || (length children <? threshold) then Err QuorumNotMet else
  match policy with
  | None => Ok (flatten_children (take threshold children))
  | Some (st, key_id) =>
      custody ← custody_policy key_id st;
      indexes ← search MAX_EXAMINED st key_id (N.to_nat (cp_minimum_physical_devices custody)) children (seq 0 threshold)
                  {| sr_best := None; sr_saw_custody := false |};
      Ok (flatten_children (take_indexed children indexes))
  end.

(** The children that resolve to a share, in child order. *)
Definition resolve_children (tree : KeyQuorumTree) (resolve : nat -> result (bytes * list UsedLeaf)) (indices : list nat)
    : list ResolvedChild :=
  omap (fun c => match kt_nodes tree !! c with
                 | Some node =>
                     if negb (kn_is_active node) then None else
                     match resolve c with
                     | Ok (value, used) => if share_ok value then Some {| rc_share := value; rc_leaves := used |} else None
                     | Err _ => None
                     end
                 | None => None
                 end) indices.

(** [Sharks(threshold as u8)] *)
Definition as_u8 (n : nat) : N := (N.of_nat n mod 256)%N.

Fixpoint reconstruct_node (fuel : nat) (tree : KeyQuorumTree) (raw_shares : gmap nat bytes) (policy : policy_arg) (idx : nat)
    : result (bytes * list UsedLeaf) :=
  match fuel with
  | O => Err NodeNotFound
  | S fuel =>
      node ← ok_or (kt_nodes tree !! idx) NodeNotFound;
      if negb (kn_is_active node) then Err QuorumNotMet else
      match kn_hardware_key_id node with
      | Some hardware_key_id =>
          if match policy with Some (st, _) => leaf_is_ghost hardware_key_id st | None => false end then Err GhostDenied else
          share ← ok_or (raw_shares !! kn_db_id node) QuorumNotMet;
          Ok (share, [ {| ul_hardware_key_id := hardware_key_id; ul_leaf_label := kn_id node |} ])
      | None =>
          threshold ← ok_or (kn_threshold node) QuorumNotMet;
          let resolved := resolve_children tree (reconstruct_node fuel tree raw_shares policy) (kn_children_indices node) in
          '(shares, leaves) ← select_child_subset policy threshold resolved;
          value ← ok_or (recover (as_u8 threshold) shares) QuorumNotMet;
          Ok (value, leaves)
      end
  end.

Definition node_fuel (tree : KeyQuorumTree) : nat := S (length (kt_nodes tree)).
Definition reconstruct_from (tree : KeyQuorumTree) (raw_shares : gmap nat bytes) (policy : policy_arg) (idx : nat) :=
  reconstruct_node (node_fuel tree) tree raw_shares policy idx.

(** The tree's own [reconstruct]: no custody policy. *)
Definition tree_reconstruct (tree : KeyQuorumTree) (raw_shares : gmap nat bytes) : result bytes :=
  '(value, _) ← reconstruct_from tree raw_shares None (kt_root_index tree); Ok value.
Definition reconstruct_tracking (tree : KeyQuorumTree) (st : Store) (key_id : nat) (raw_shares : gmap nat bytes) :=
  reconstruct_from tree raw_shares (Some (st, key_id)) (kt_root_index tree).

(** [while let Some(parent_idx) = self.nodes[idx].parent_idx]: [used] are the leaves counted so far. *)
Fixpoint climb (fuel : nat) (tree : KeyQuorumTree) (raw_shares : gmap nat bytes) (policy : policy_arg) (idx : nat)
    (value : bytes) (used : list UsedLeaf) : result (bytes * list UsedLeaf) :=
  match fuel with
  | O => Err NodeNotFound
  | S fuel =>
      match (kt_nodes tree !! idx) ≫= kn_parent_idx with
      | None => Ok (value, used)
      | Some parent_idx =>
          parent ← ok_or (kt_nodes tree !! parent_idx) NodeNotFound;
          threshold ← ok_or (kn_threshold parent) QuorumNotMet;
          let own := if share_ok value then [ {| rc_share := value; rc_leaves := used |} ] else [] in
          let siblings := resolve_children tree (reconstruct_from tree raw_shares policy)
                            (filter (fun sib => sib <> idx) (kn_children_indices parent)) in
          '(shares, leaves) ← select_child_subset policy threshold (own ++ siblings);
          value ← ok_or (recover (as_u8 threshold) shares) QuorumNotMet;
          climb fuel tree raw_shares policy parent_idx value leaves
      end
  end.

Definition reconstruct_up_to_root (tree : KeyQuorumTree) (raw_shares : gmap nat bytes) (policy : policy_arg) (from_idx : nat)
    : result (bytes * list UsedLeaf) :=
  '(value, start_used) ← reconstruct_from tree raw_shares policy from_idx;
  let used := if bool_decide ((kt_nodes tree !! from_idx) ≫= kn_parent_idx = None) || share_ok value then start_used else [] in
  climb (node_fuel tree) tree raw_shares policy from_idx value used.

Record PresentedReconstruction := { pr_secret : bytes; pr_devices : list PresentedDevice; pr_leaves : list UsedLeaf }.

Definition finish_presented (st : Store) (key_id : nat) (secret : bytes) (leaves : list UsedLeaf) : result PresentedReconstruction :=
  devices ← enforce_devices st key_id leaves;
  Ok {| pr_secret := secret; pr_devices := devices; pr_leaves := leaves |}.

Definition reconstruct_presented (st : Store) (key_id : nat) (raw_shares : gmap nat bytes) : result PresentedReconstruction :=
  tree ← load key_id st;
  '(secret, leaves) ← reconstruct_tracking tree st key_id raw_shares;
  finish_presented st key_id secret leaves.

Definition reconstruct (st : Store) (key_id : nat) (raw_shares : gmap nat bytes) : result bytes :=
  p ← reconstruct_presented st key_id raw_shares; Ok (pr_secret p).

Definition reconstruct_from_lca (st : Store) (key_id lca_idx : nat) (raw_shares : gmap nat bytes) : result bytes :=
  tree ← load key_id st;
  '(secret, leaves) ← reconstruct_up_to_root tree raw_shares (Some (st, key_id)) lca_idx;
  p ← finish_presented st key_id secret leaves;
  Ok (pr_secret p).
End reconstruct.

(** ** The search for devices *)

Section search.
Context `{C : Crypto} (st : Store) (key_id minimum : nat) (children : list ResolvedChild).

(** The number of devices behind a choice of children, where its custody is in order. *)
Definition device_count (indexes : list nat) : option nat :=
  match classify_devices st key_id (leaves_at children indexes) with Ok groups => Some (length groups) | Err _ => None end.

(** The errors over which the search goes on. *)
Definition soft (indexes : list nat) : Prop :=
  match classify_devices st key_id (leaves_at children indexes) with
  | Ok _ => True
  | Err e => e = CustodyViolation \/ e = QuorumNotMet \/ e = GhostDenied
  end.

(** The best choice among those visited, none of which reaches the minimum. *)
Definition best_of (visited : list (list nat)) (best : option (nat * list nat)) : Prop :=
  match best with
  | Some (b, c) => c ∈ visited /\ device_count c = Some b /\ forall c' b', c' ∈ visited -> device_count c' = Some b' -> b' <= b
  | None => forall c', c' ∈ visited -> device_count c' = None
  end.

(** The answer for a set of choices: one that reaches the minimum or the best
    there is, and an error only when no choice has its custody in order. *)
Definition answers (all : list (list nat)) (r : result (list nat)) : Prop :=
  match r with
  | Ok c => c ∈ all /\ exists b, device_count c = Some b /\ (minimum <= b \/ forall c' b', c' ∈ all -> device_count c' = Some b' -> b' <= b)
  | Err _ => forall c', c' ∈ all -> device_count c' = None
  end.

Lemma best_of_skip visited best c : best_of visited best -> device_count c = None -> best_of (visited ++ [c]) best.
Proof.
  intros HB Hc. destruct best as [[b c0]|]; simpl in *.
  - destruct HB as (H1 & H2 & H3). split; [set_solver|]. split; [done|].
    intros c' b' [Hc'| ->%list_elem_of_singleton]%elem_of_app; [by apply H3|]. congruence.
  - intros c' [Hc'| ->%list_elem_of_singleton]%elem_of_app; auto.
Qed.

Lemma best_of_add visited best c n : best_of visited best -> device_count c = Some n ->
  best_of (visited ++ [c]) (match best with Some (b, _) => if b <? n then Some (n, c) else best | None => Some (n, c) end).
Proof.
  intros HB Hc. destruct best as [[b c0]|]; simpl in *.
  - destruct HB as (H1 & H2 & H3). destruct (Nat.ltb_spec b n) as [Hlt|Hge]; simpl; (split; [set_solver|]); (split; [done|]);
      intros c' b' [Hc'| ->%list_elem_of_singleton]%elem_of_app Hb'; try (specialize (H3 c' b' Hc' Hb')); rewrite ?Hc in Hb'; simplify_eq; lia.
  - split; [set_solver|]. split; [done|]. intros c' b' [Hc'| ->%list_elem_of_singleton]%elem_of_app Hb'.
    + rewrite HB in Hb' by done. done.
    + rewrite Hc in Hb'. by simplify_eq.
Qed.

Lemma search_answers fuel visited todo c s :
  chained (fun l => next_combination l (length children)) (c :: todo) None -> length (c :: todo) <= fuel ->
  (forall c', c' ∈ c :: todo -> soft c') -> best_of visited (sr_best s) ->
  answers (visited ++ c :: todo) (search fuel st key_id minimum children c s).
Proof.
  revert visited todo c s; induction fuel as [|fuel IH]; intros visited todo c s [Hnext HC] Hf Hsoft HB; [simpl in Hf; lia|].
  assert (forall s', best_of (visited ++ [c]) (sr_best s') -> answers (visited ++ c :: todo)
    (match next_combination c (length children) with
     | Some indexes => search fuel st key_id minimum children indexes s'
     | None => match sr_best s' with Some (_, indexes) => Ok indexes | None => if sr_saw_custody s' then Err CustodyViolation else Err QuorumNotMet end
     end)) as Hgo.
  { intros s' HB'. destruct todo as [|c' todo]; simpl in Hnext; rewrite Hnext.
    - destruct (sr_best s') as [[b cb]|]; simpl in *.
      + destruct HB' as (H1 & H2 & H3). split; [done|]. exists b. split; [done|]. by right.
      + destruct (sr_saw_custody s'); done.
    - replace (visited ++ c :: c' :: todo) with ((visited ++ [c]) ++ c' :: todo) by (by rewrite <- app_assoc).
      apply IH; [done|simpl in *; lia|intros x Hx; apply Hsoft; by right|done]. }
  assert (soft c) as Hsc by (apply Hsoft; left). unfold soft in Hsc. cbn [search].
  destruct (classify_devices st key_id (leaves_at children c)) as [groups|e] eqn:EC.
  - assert (device_count c = Some (length groups)) as Hc by (unfold device_count; by rewrite EC).
    destruct (Nat.leb_spec minimum (length groups)) as [Hm|Hm].
    + simpl. split; [set_solver|]. exists (length groups). split; [done|by left].
    + apply Hgo. pose proof (best_of_add visited (sr_best s) c (length groups) HB Hc) as HA.
      destruct (sr_best s) as [[b cb]|] eqn:Eb; [|done]. destruct (b <? length groups); [done|]. by rewrite Eb.
  - assert (device_count c = None) as Hc by (unfold device_count; by rewrite EC).
    destruct Hsc as [->|[->| ->]]; apply Hgo; simpl; by apply best_of_skip.
Qed.
End search.

Section select.
Context `{C : Crypto}.

Lemma combinations_in_range n k c : c ∈ combinations 0 n k -> Sorted lt c /\ Forall (fun i => i < n) c /\ length c = k.
Proof.
  intros (Hl & Hb & HS)%combinations_elem. split; [done|]. split; [|done]. apply Forall_forall. intros i [j Hj]%list_elem_of_lookup.
  by apply (Hb j).
Qed.

(** Under a custody policy the children are chosen well: as long as there
    are at most 100,000 combinations of [threshold] children, the choice made is
    one of them that reaches the minimum of physical devices, or else one with
    the most devices of all; an error means that no combination has its custody
    in order. *)
Theorem select_child_subset_best st key_id policy threshold children :
  custody_policy key_id st = Ok policy -> 1 <= threshold <= length children ->
  length (combinations 0 (length children) threshold) <= MAX_EXAMINED ->
  (forall c, c ∈ combinations 0 (length children) threshold -> soft st key_id children c) ->
  match select_child_subset (Some (st, key_id)) threshold children with
  | Ok chosen => exists c b, c ∈ combinations 0 (length children) threshold /\ chosen = flatten_children (picks children c) /\
      device_count st key_id children c = Some b /\
      (N.to_nat (cp_minimum_physical_devices policy) <= b \/
       forall c' b', c' ∈ combinations 0 (length children) threshold -> device_count st key_id children c' = Some b' -> b' <= b)
  | Err _ => forall c, c ∈ combinations 0 (length children) threshold -> device_count st key_id children c = None
  end.
Proof.
  intros EP Ht Hmax Hsoft. unfold select_child_subset. revert Hmax. generalize MAX_EXAMINED as fuel. intros fuel Hmax. rewrite EP.
  rewrite (proj2 (Nat.eqb_neq threshold 0)) by lia. rewrite (proj2 (Nat.ltb_ge _ _)) by lia. cbn [orb mbind result_bind].
  pose proof (combinations_head 0 (length children) threshold ltac:(lia)) as Hh. pose proof (combinations_chained 0 (length children) threshold) as HC.
  assert (forall c, c ∈ combinations 0 (length children) threshold -> take_indexed children c = picks children c) as HT.
  { intros c (HS & HF & _)%combinations_in_range. by apply take_indexed_picks. }
  destruct (combinations 0 (length children) threshold) as [|c todo]; [done|]. injection Hh as ->.
  pose proof (search_answers st key_id (N.to_nat (cp_minimum_physical_devices policy)) children fuel [] todo _
    {| sr_best := None; sr_saw_custody := false |} HC Hmax Hsoft ltac:(intros c' Hc'; set_solver)) as HA.
  destruct (search _ _ _ _ _ _ _) as [r|e]; simpl in HA; [|done]. destruct HA as (Hr & b & Hb & Hm).
  exists r, b. split; [done|]. split; [by rewrite HT|]. done.
Qed.
End select.

(** Whatever it answers, the search answers a combination it visits. *)
Lemma search_visits `{C : Crypto} (all : list (list nat)) fuel st key_id minimum children c s r :
  chained (fun l => next_combination l (length children)) all None -> c ∈ all ->
  match sr_best s with Some (_, b) => b ∈ all | None => True end ->
  search fuel st key_id minimum children c s = Ok r -> r ∈ all.
Proof.
  intros HC. revert c s; induction fuel as [|fuel IH]; intros c s Hc Hb.
  { simpl. destruct (sr_best s) as [[n b]|]; [by intros [= <-]|]. by destruct (sr_saw_custody s). }
  assert (forall s', match sr_best s' with Some (_, b) => b ∈ all | None => True end ->
    match next_combination c (length children) with
    | Some indexes => search fuel st key_id minimum children indexes s'
    | None => match sr_best s' with Some (_, indexes) => Ok indexes | None => if sr_saw_custody s' then Err CustodyViolation else Err QuorumNotMet end
    end = Ok r -> r ∈ all) as Hgo.
  { intros s' Hb'. destruct (next_combination c (length children)) as [c'|] eqn:E.
    - apply IH; [|done]. by eapply chained_elem.
    - destruct (sr_best s') as [[n b]|]; [by intros [= <-]|]. by destruct (sr_saw_custody s'). }
  cbn [search]. destruct (classify_devices _ _ _) as [groups|e].
  - destruct (_ <=? _); [by intros [= <-]|]. apply Hgo. destruct (sr_best s) as [[n b]|] eqn:Eb; [|done]. destruct (_ <? _); [done|]. by rewrite Eb.
  - destruct e; try done; by apply Hgo.
Qed.

(** ** Trees that hold a secret *)

Fixpoint spec_depth (spec : NodeSpec) : nat :=
  match spec with Leaf _ _ _ => 1 | Split _ _ children _ => S (max_list (map spec_depth children)) end.

(** Whether the leaves named by [present] meet the thresholds of a specification. *)
Fixpoint quorum (present : bytes -> bool) (spec : NodeSpec) : bool :=
  match spec with
  | Leaf label _ _ => present label
  | Split _ threshold children _ => N.to_nat threshold <=? length (filter (fun b => b = true) (map (quorum present) children))
  end.

Section holds.
Context `{C : Crypto} `{SH : Shamir} `{!ShamirLaws SH}.
Context (tree : KeyQuorumTree) (raw_shares : gmap nat bytes) (present : bytes -> bool).

(** Node [idx] of the arena is the node of [spec] and carries [v]: a leaf whose
    presented share, if any, is [v], or an active split whose children carry the
    shares of a dealing of [v]. *)
Inductive holds : nat -> NodeSpec -> bytes -> Prop :=
| holds_leaf idx node label hw bridges v :
    kt_nodes tree !! idx = Some node -> kn_is_active node = true -> kn_hardware_key_id node = Some hw ->
    (present label = true <-> is_Some (raw_shares !! kn_db_id node)) -> (forall s, raw_shares !! kn_db_id node = Some s -> s = v) ->
    holds idx (Leaf label hw bridges) v
| holds_split idx node label t children bridges v r :
    kt_nodes tree !! idx = Some node -> kn_is_active node = true -> kn_hardware_key_id node = None ->
    kn_threshold node = Some (N.to_nat t) -> 1 <= N.to_nat t <= length children -> length children <= 255 ->
    length (kn_children_indices node) = length children ->
    (forall i c child share, kn_children_indices node !! i = Some c -> children !! i = Some child -> deal r t v !! i = Some share ->
       holds c child share) ->
    holds idx (Split label t children bridges) v.

Lemma holds_active idx spec v : holds idx spec v -> exists node, kt_nodes tree !! idx = Some node /\ kn_is_active node = true.
Proof. destruct 1; eauto. Qed.

Lemma deal_NoDup r t v : (1 <= t)%N -> NoDup (deal r t v).
Proof.
  intros Ht. apply NoDup_alt. intros i j x Hi Hj. pose proof (lookup_lt_Some _ _ _ Hi). pose proof (lookup_lt_Some _ _ _ Hj).
  rewrite deal_length in * by done. destruct (deal_share _ _ _ _ _ Ht Hi) as (y & -> & _), (deal_share _ _ _ _ _ Ht Hj) as (z & E & _).
  injection E as E _. by apply coordinate_inj in E.
Qed.

(** The shares resolved, in child order, are shares of the dealing in its order. *)
Lemma resolved_sublist resolve indices (shares : list bytes) :
  length indices <= length shares ->
  (forall i c share x ls, indices !! i = Some c -> shares !! i = Some share -> resolve c = Ok (x, ls) -> x = share) ->
  map rc_share (resolve_children tree resolve indices) `sublist_of` shares.
Proof.
  revert shares; induction indices as [|c indices IH]; intros shares Hl Hr; [apply sublist_nil_l|].
  destruct shares as [|share shares]; [simpl in Hl; lia|].
  assert (map rc_share (resolve_children tree resolve indices) `sublist_of` shares) as HS.
  { apply IH; [simpl in Hl; lia|]. intros i. apply (Hr (S i)). }
  unfold resolve_children in *. simpl. destruct (kt_nodes tree !! c) as [node|]; [|by apply sublist_cons].
  destruct (negb _); [by apply sublist_cons|]. destruct (resolve c) as [[x ls]|e] eqn:E; [|by apply sublist_cons].
  destruct (share_ok x); [|by apply sublist_cons]. simpl. rewrite (Hr 0 c share x ls eq_refl eq_refl E). by apply sublist_skip.
Qed.

Lemma as_u8_small t : N.to_nat t <= 255 -> as_u8 (N.to_nat t) = t.
Proof. intros Ht. unfold as_u8. rewrite N2Nat.id. apply N.mod_small. lia. Qed.

(** Whatever the policy, the children chosen are [threshold] different ones. *)
Lemma select_sub policy threshold children shares leaves :
  select_child_subset policy threshold children = Ok (shares, leaves) ->
  exists idx, NoDup idx /\ length idx = threshold /\ Forall (fun i => i < length children) idx /\
    (shares, leaves) = flatten_children (picks children idx).
Proof.
  unfold select_child_subset. destruct (_ || _) eqn:B; [done|]. bool_hyps.
  assert (threshold <= length children) as Hle by (match goal with H : (_ <? _) = false |- _ => apply Nat.ltb_ge in H; exact H end).
  destruct policy as [[st key_id]|].
  - generalize MAX_EXAMINED as fuel. intros fuel (custody & _ & (idx & HS & [= Hsh Hlv])%bind_Ok)%bind_Ok.
    assert (idx ∈ combinations 0 (length children) threshold) as Hc.
    { eapply (search_visits (combinations 0 (length children) threshold)) in HS; [exact HS|apply combinations_chained| |done].
      pose proof (combinations_head 0 (length children) threshold ltac:(lia)) as Hh. by apply head_Some_elem_of in Hh. }
    apply combinations_in_range in Hc as (HSd & HF & Hlen). exists idx. split; [|split; [done|split; [done|]]].
    + apply (Sorted_lt_NoDup idx HSd).
    + rewrite <- take_indexed_picks by done. by rewrite <- Hsh, <- Hlv.
  - intros [= <- <-]. exists (seq 0 threshold). split; [apply NoDup_seq|]. split; [apply length_seq|]. split.
    + apply Forall_forall. intros i [? ?]%elem_of_seq. lia.
    + f_equal; by rewrite picks_seq.
Qed.

Lemma sublist_take_deal (shares l : list bytes) n : l `sublist_of` take n shares -> l `sublist_of` shares.
Proof. intros H. etrans; [exact H|]. apply sublist_take. Qed.

(** Any children chosen among shares of a dealing of [v] recover [v]. *)
Lemma chosen_recover policy resolved r t v shares leaves :
  (1 <= t)%N -> N.to_nat t <= 255 -> v <> [] -> map rc_share resolved `sublist_of` deal r t v ->
  select_child_subset policy (N.to_nat t) resolved = Ok (shares, leaves) -> recover (as_u8 (N.to_nat t)) shares = Some v.
Proof.
  intros Ht Hle Hv Hsub (idx & HN & Hlen & HF & E)%select_sub. rewrite as_u8_small by done.
  unfold flatten_children in E. injection E as -> _.
  assert (map rc_share (picks resolved idx) = picks (map rc_share resolved) idx) as ->.
  { unfold picks. clear. induction idx as [|i idx IH]; [done|]. simpl. rewrite list_lookup_fmap. destruct (resolved !! i); simpl; [by f_equal|done]. }
  apply (recover_deal r); [done|done| | |].
  - apply picks_NoDup; [|done]. eapply sublist_NoDup; [|exact Hsub]. by apply deal_NoDup.
  - intros x (i & _ & Hx)%picks_elem. apply list_elem_of_lookup_2 in Hx. by eapply elem_of_sublist.
  - rewrite picks_length; [lia|]. eapply Forall_impl; [exact HF|]. intros i. by rewrite length_map.
Qed.

(** The indices line up with the dealing. *)
Lemma holds_children idx label t children bridges v :
  holds idx (Split label t children bridges) v -> exists node r,
    kt_nodes tree !! idx = Some node /\ kn_is_active node = true /\ kn_hardware_key_id node = None /\
    kn_threshold node = Some (N.to_nat t) /\ 1 <= N.to_nat t <= length children /\ length children <= 255 /\
    length (kn_children_indices node) = length children /\ length (take (length children) (deal r t v)) = length children /\
    forall i c share, kn_children_indices node !! i = Some c -> take (length children) (deal r t v) !! i = Some share ->
      exists child, children !! i = Some child /\ holds c child share /\ (share <> [] /\ (v <> [] -> 2 <= length share)).
Proof.
  inversion 1 as [|? node ? ? ? ? ? r Hn Ha Hh Ht Hb Hc Hl HC]; subst. exists node, r. split_and!; try done; [lia|lia| |].
  { rewrite length_take, deal_length by lia. lia. }
  intros i c share Hi Hs. rewrite lookup_take in Hs. case_decide as Hlt; [|done].
  destruct (lookup_lt_is_Some_2 children i Hlt) as [child Hchild]. exists child. split; [done|]. split; [by eapply HC|].
  destruct (deal_share r t v i share) as (y & -> & Hy); [lia|done|]. split; [done|]. intros Hv. simpl. destruct v; [done|]. simpl in Hy. lia.
Qed.

(** Whatever the policy and the fuel, a value reconstructed is the value held. *)
Lemma holds_sound fuel policy idx spec v x leaves :
  v <> [] -> holds idx spec v -> reconstruct_node fuel tree raw_shares policy idx = Ok (x, leaves) -> x = v.
Proof.
  revert idx spec v x leaves; induction fuel as [|fuel IH]; intros idx spec v x leaves Hv HH; [done|]. cbn [reconstruct_node].
  destruct spec as [label hw bridges|label t children bridges].
  - inversion HH as [? node ? ? ? ? Hn Ha Hh Hp Hs|]; subst. rewrite Hn. simpl. rewrite Ha, Hh. simpl.
    destruct (match policy with Some (st, _) => _ | None => _ end); [done|]. intros (s & Es%ok_or_Ok & [= <- _])%bind_Ok. by apply Hs.
  - apply holds_children in HH as (node & r & Hn & Ha & Hh & Ht & Hb & Hc & Hl & Hlen & HC). rewrite Hn. simpl. rewrite Ha, Hh, Ht. simpl.
    intros ([shares lvs] & HS & (val & HR%ok_or_Ok & [= <- _])%bind_Ok)%bind_Ok.
    set (resolved := resolve_children _ _ _) in HS. rewrite (chosen_recover policy resolved r t v shares lvs) in HR; [by injection HR|lia|lia|done| |done].
    apply (sublist_take_deal _ _ (length children)). apply resolved_sublist; [lia|].
    intros i c share y ls Hi Hsh HR'. destruct (HC i c share Hi Hsh) as (child & _ & Hch & Hne & _). by eapply IH.
Qed.

Lemma quorum_count indices (specs : list NodeSpec) resolve (shares : list bytes) :
  length indices = length specs -> length shares = length specs ->
  (forall i c spec share, indices !! i = Some c -> specs !! i = Some spec -> shares !! i = Some share ->
    (exists node, kt_nodes tree !! c = Some node /\ kn_is_active node = true) /\ 2 <= length share /\
    match resolve c with Ok (x, _) => x = share /\ quorum present spec = true | Err e => quorum present spec = false end) ->
  length (resolve_children tree resolve indices) = length (filter (fun b => b = true) (map (quorum present) specs)).
Proof.
  revert specs shares; induction indices as [|c indices IH]; intros [|spec specs] [|share shares] Hl Hl' HQ; try done.
  assert (length (resolve_children tree resolve indices) = length (filter (fun b => b = true) (map (quorum present) specs))) as IH'.
  { apply (IH specs shares); [simpl in Hl; lia|simpl in Hl'; lia|]. intros i. apply (HQ (S i)). }
  destruct (HQ 0 c spec share eq_refl eq_refl eq_refl) as ((node & Hn & Ha) & H2 & HR). unfold resolve_children in *. simpl.
  rewrite Hn, Ha. simpl. destruct (resolve c) as [[x ls]|e].
  - destruct HR as [-> ->]. rewrite share_ok_long by done. rewrite filter_cons_True by done. simpl. f_equal. exact IH'.
  - rewrite HR. by rewrite filter_cons_False by done.
Qed.

(** Without a policy, reconstruction succeeds exactly when the quorum is met. *)
Lemma holds_exact fuel idx spec v :
  v <> [] -> holds idx spec v -> spec_depth spec <= fuel ->
  match reconstruct_node fuel tree raw_shares None idx with
  | Ok (x, _) => x = v /\ quorum present spec = true
  | Err e => e = QuorumNotMet /\ quorum present spec = false
  end.
Proof.
  revert idx spec v; induction fuel as [|fuel IH]; intros idx spec v Hv HH Hd; [destruct spec; simpl in Hd; lia|]. cbn [reconstruct_node].
  destruct spec as [label hw bridges|label t children bridges].
  - inversion HH as [? node ? ? ? ? Hn Ha Hh Hp Hs|]; subst. rewrite Hn. simpl. rewrite Ha, Hh. simpl.
    destruct (raw_shares !! kn_db_id node) as [s|] eqn:E; simpl.
    + split; [by apply Hs|]. apply Hp. eauto.
    + split; [done|]. destruct (present label); [|done]. by destruct (proj1 Hp eq_refl).
  - apply holds_children in HH as (node & r & Hn & Ha & Hh & Ht & Hb & Hc & Hl & Hlen & HC). rewrite Hn. simpl. rewrite Ha, Hh, Ht. simpl.
    assert (length (resolve_children tree (reconstruct_node fuel tree raw_shares None) (kn_children_indices node)) =
      length (filter (fun b => b = true) (map (quorum present) children))) as HQ.
    { apply (quorum_count _ _ _ (take (length children) (deal r t v))); [done|done|]. intros i c child share Hi Hcd Hs.
      destruct (HC i c share Hi Hs) as (child' & Hcd' & Hch & Hne & H2). assert (child' = child) as -> by congruence.
      split; [by eapply holds_active|]. split; [by apply H2|]. specialize (IH c child share Hne Hch).
      destruct (reconstruct_node fuel tree raw_shares None c) as [[x ls]|e]; [apply IH|destruct IH as [_ ->]; try done];
        simpl in Hd; pose proof (max_list_elem_of_le (spec_depth child) (map spec_depth children)) as Hm;
        (assert (spec_depth child ∈ map spec_depth children) as Hin by (apply list_elem_of_fmap_2; by eapply list_elem_of_lookup_2));
        specialize (Hm Hin); lia. }
    set (resolved := resolve_children _ _ _) in *.
    destruct (select_child_subset None (N.to_nat t) resolved) as [[shares lvs]|e] eqn:ES; simpl.
    + pose proof (chosen_recover None resolved r t v shares lvs) as HR. rewrite HR; [|lia|lia|done| |done].
      * simpl. split; [done|]. rewrite <- HQ. unfold select_child_subset in ES. destruct (_ || _) eqn:B; [done|]. bool_hyps.
        apply Nat.leb_le. by match goal with H : (_ <? _) = false |- _ => apply Nat.ltb_ge in H end.
      * apply (sublist_take_deal _ _ (length children)). apply resolved_sublist; [lia|].
        intros i c share y ls Hi Hsh HR'. destruct (HC i c share Hi Hsh) as (child & _ & Hch & Hne & _). by eapply holds_sound.
    + unfold select_child_subset in ES. destruct (_ || _) eqn:B; [|done]. injection ES as <-. split; [done|]. rewrite <- HQ.
      apply orb_true_iff in B as [B%Nat.eqb_eq|B%Nat.ltb_lt]; [lia|]. by apply Nat.leb_gt.
Qed.
End holds.

(** ** The leaves behind a reconstruction *)

Section leaves.
Context `{C : Crypto} `{SH : Shamir}.
Context (tree : KeyQuorumTree) (raw_shares : gmap nat bytes) (policy : policy_arg).

(** A leaf counted is an active leaf of the tree for which a share was presented. *)
Definition counted (leaf : UsedLeaf) : Prop :=
  exists idx node, kt_nodes tree !! idx = Some node /\ kn_is_active node = true /\
    kn_hardware_key_id node = Some (ul_hardware_key_id leaf) /\ kn_id node = ul_leaf_label leaf /\ is_Some (raw_shares !! kn_db_id node).

Lemma selected_leaves threshold (children : list ResolvedChild) shares leaves leaf :
  select_child_subset policy threshold children = Ok (shares, leaves) -> leaf ∈ leaves ->
  exists child, child ∈ children /\ leaf ∈ rc_leaves child.
Proof.
  intros (idx & _ & _ & _ & [= _ ->])%select_sub Hl. apply list_elem_of_In, in_concat in Hl as (ls & Hls & Hl).
  apply list_elem_of_In, list_elem_of_fmap in Hls as (child & -> & (i & _ & Hc)%picks_elem). apply list_elem_of_lookup_2 in Hc.
  exists child. split; [done|]. by apply list_elem_of_In.
Qed.

Lemma resolved_leaves resolve indices child leaf :
  (forall c value used, resolve c = Ok (value, used) -> Forall counted used) ->
  child ∈ resolve_children tree resolve indices -> leaf ∈ rc_leaves child -> counted leaf.
Proof.
  intros HR (c & _ & E)%list_elem_of_omap Hl. destruct (kt_nodes tree !! c) as [node|]; [|done]. destruct (negb _); [done|].
  destruct (resolve c) as [[value used]|e] eqn:Er; [|done]. destruct (share_ok value); [|done]. injection E as <-.
  specialize (HR _ _ _ Er). rewrite Forall_forall in HR. by apply HR.
Qed.

Lemma reconstruct_node_leaves fuel idx value used :
  reconstruct_node fuel tree raw_shares policy idx = Ok (value, used) -> Forall counted used.
Proof.
  revert idx value used; induction fuel as [|fuel IH]; intros idx value used; [done|]. cbn [reconstruct_node].
  intros (node & Hn%ok_or_Ok & H)%bind_Ok. destruct (kn_is_active node) eqn:Ea; [|done]. simpl in H.
  destruct (kn_hardware_key_id node) as [hw|] eqn:Eh.
  - destruct (match policy with Some (st, _) => _ | None => _ end); [done|]. apply bind_Ok in H as (share & Es%ok_or_Ok & [= <- <-]).
    repeat constructor. exists idx, node. split_and!; eauto.
  - apply bind_Ok in H as (t & _ & ([shares leaves] & HS & (v & _ & [= <- <-])%bind_Ok)%bind_Ok).
    apply Forall_forall. intros leaf Hl. destruct (selected_leaves _ _ _ _ _ HS Hl) as (child & Hc & Hlc).
    by eapply resolved_leaves.
Qed.

Lemma climb_leaves fuel idx value used value' used' :
  climb fuel tree raw_shares policy idx value used = Ok (value', used') -> Forall counted used -> Forall counted used'.
Proof.
  revert idx value used; induction fuel as [|fuel IH]; intros idx value used; [done|]. cbn [climb].
  destruct (kt_nodes tree !! idx ≫= kn_parent_idx) as [p|]; [|by intros [= <- <-]].
  intros (parent & _ & (t & _ & ([shares leaves] & HS & (v & _ & H)%bind_Ok)%bind_Ok)%bind_Ok)%bind_Ok HU. eapply IH; [exact H|].
  apply Forall_forall. intros leaf Hl. destruct (selected_leaves _ _ _ _ _ HS Hl) as (child & [Hc|Hc]%elem_of_app & Hlc).
  - destruct (share_ok value); [|set_solver]. apply list_elem_of_singleton in Hc as ->. simpl in Hlc. rewrite Forall_forall in HU. by apply HU.
  - eapply resolved_leaves; [|exact Hc|exact Hlc]. intros c x ls. apply reconstruct_node_leaves.
Qed.

Lemma up_to_root_leaves from_idx value used :
  reconstruct_up_to_root tree raw_shares policy from_idx = Ok (value, used) -> Forall counted used.
Proof.
  intros ([v start] & HR & HC)%bind_Ok. eapply climb_leaves; [exact HC|]. destruct (_ || _); [|constructor].
  by eapply reconstruct_node_leaves.
Qed.
End leaves.

(** A leaf counted is an active leaf row of the key with a share presented. *)
Lemma counted_row `{C : Crypto} st key_id tree raw_shares leaf :
  loaded st key_id tree -> counted tree raw_shares leaf ->
  exists row, row ∈ rows_of key_id st /\ nr_active row = true /\ nr_hardware row = Some (ul_hardware_key_id leaf) /\
    nr_label row = ul_leaf_label leaf /\ is_Some (raw_shares !! nr_id row).
Proof.
  intros HL (idx & node & Hn & Ha & Hh & Hl & Hr). rewrite (loaded_nodes _ _ _ HL), list_lookup_imap in Hn.
  apply fmap_Some in Hn as (row & Hrow & ->). simpl in *. exists row. split_and!; try done. by eapply list_elem_of_lookup_2.
Qed.

Section custody.
Context `{C : Crypto} `{SH : Shamir}.

(** C5: Whatever is in the database and whatever shares are presented, a secret
    is released by [reconstruct_presented] only within the custody policy of the
    key: the leaves that count are active leaves of that key whose share was
    presented, none is a ghost, in hardware mode no device carries two of their
    keys, and their distinct physical devices reach the minimum; the devices
    reported are those of the leaves. *)
Theorem reconstruct_presented_custody st key_id raw_shares p :
  NoDup (map nr_id (st_nodes st)) -> reconstruct_presented st key_id raw_shares = Ok p ->
  (exists policy, custody_policy key_id st = Ok policy /\ custody_met st policy (pr_leaves p)) /\
  grouped st (pr_leaves p) (pr_devices p) /\
  forall leaf, leaf ∈ pr_leaves p -> exists row, row ∈ rows_of key_id st /\ nr_active row = true /\
    nr_hardware row = Some (ul_hardware_key_id leaf) /\ nr_label row = ul_leaf_label leaf /\ is_Some (raw_shares !! nr_id row).
Proof.
  intros HN (tree & EL & ([secret leaves] & ER & (devices & ED & [= <-])%bind_Ok)%bind_Ok)%bind_Ok.
  apply enforce_devices_Ok in ED as (HG & HP). split; [done|]. split; [done|]. intros leaf Hl. eapply counted_row; [by apply load_Ok|].
  apply reconstruct_node_leaves in ER. rewrite Forall_forall in ER. by apply ER.
Qed.
End custody.

(** ** A policy that leaves the choice alone *)

Lemma MAX_EXAMINED_pos : 0 < MAX_EXAMINED.
Proof. unfold MAX_EXAMINED. lia. Qed.

Lemma resolve_children_ext `{SH : Shamir} tree f g indices :
  (forall c, f c = g c) -> resolve_children tree f indices = resolve_children tree g indices.
Proof.
  intros E. unfold resolve_children. induction indices as [|c indices IH]; [done|]. cbn. cbn in IH. by rewrite IH, E.
Qed.

Section plain.
Context `{C : Crypto} `{SH : Shamir}.
Context (st : Store) (key_id : nat) (policy : CustodyPolicy) (tree : KeyQuorumTree) (raw_shares : gmap nat bytes).

(** No leaf is a ghost, every key has a device and no two keys share one. *)
Record plain_devices : Prop := {
  plain_leaf idx node hw : kt_nodes tree !! idx = Some node -> kn_hardware_key_id node = Some hw ->
    leaf_is_ghost hw st = false /\ is_Some (device_of st hw);
  plain_apart idx idx' node node' hw hw' : kt_nodes tree !! idx = Some node -> kn_hardware_key_id node = Some hw ->
    kt_nodes tree !! idx' = Some node' -> kn_hardware_key_id node' = Some hw' -> device_of st hw = device_of st hw' -> hw = hw';
}.
Context (plain : plain_devices) (EP : custody_policy key_id st = Ok policy) (one_device : (cp_minimum_physical_devices policy <= 1)%N).

Lemma plain_classify used : used <> [] -> Forall (counted tree raw_shares) used ->
  exists groups, classify_devices st key_id used = Ok groups /\ grouped st used groups /\ 1 <= length groups.
Proof.
  intros Hu HF. rewrite Forall_forall in HF.
  destruct (classify_devices_total st key_id used policy EP Hu) as (groups & EC & HG).
  - intros leaf Hl. destruct (HF leaf Hl) as (idx & node & Hn & _ & Hh & _). by eapply plain_leaf.
  - intros leaf leaf' _ Hl Hl' E. destruct (HF leaf Hl) as (i & n & Hn & _ & Hh & _), (HF leaf' Hl') as (i' & n' & Hn' & _ & Hh' & _).
    exact (plain_apart plain i i' n n' _ _ Hn Hh Hn' Hh' E).
  - exists groups. split; [done|]. split; [done|]. destruct used as [|leaf used]; [done|].
    destruct (HF leaf ltac:(left)) as (idx & node & Hn & _ & Hh & _). destruct (plain_leaf plain idx node _ Hn Hh) as [_ [d Hd]].
    assert (d ∈ map pd_device_id groups) as (g & _ & Hg)%list_elem_of_fmap by (apply (grouped_all _ _ _ HG); exists leaf; split; [left|done]).
    destruct groups; [set_solver|]. simpl. lia.
Qed.

(** The first combination of children already satisfies the policy. *)
Lemma plain_select threshold children :
  Forall (fun child => rc_leaves child <> [] /\ Forall (counted tree raw_shares) (rc_leaves child)) children ->
  select_child_subset (Some (st, key_id)) threshold children = select_child_subset None threshold children.
Proof.
  intros HF. unfold select_child_subset. pose proof MAX_EXAMINED_pos as Hmax. revert Hmax. generalize MAX_EXAMINED as max. intros [|fuel] Hmax; [lia|].
  destruct (_ || _) eqn:B; [done|]. apply orb_false_iff in B as [Ht%Nat.eqb_neq Hl%Nat.ltb_ge]. rewrite EP. cbn [mbind result_bind].
  assert (leaves_at children (seq 0 threshold) = concat (map rc_leaves (take threshold children))) as EL
    by (unfold leaves_at; by rewrite picks_seq).
  assert (Forall (fun child => rc_leaves child <> [] /\ Forall (counted tree raw_shares) (rc_leaves child)) (take threshold children)) as HT by by apply Forall_take.
  destruct (plain_classify (leaves_at children (seq 0 threshold))) as (groups & EC & _ & Hg).
  { rewrite EL. destruct threshold as [|n], children as [|c children]; simpl in *; try lia. apply Forall_cons in HT as [[Hc _] _].
    by destruct (rc_leaves c). }
  { rewrite EL. clear -HT. induction HT as [|c l [_ Hc] HT IH]; [constructor|]. simpl. apply Forall_app. done. }
  cbn [search]. rewrite EC. rewrite (proj2 (Nat.leb_le _ _)) by lia. cbn [mbind result_bind]. f_equal. f_equal.
  rewrite take_indexed_picks; [apply picks_seq| |].
  - apply StronglySorted_Sorted. clear. generalize 0 as i. induction threshold as [|n IH]; intros i; constructor; [apply IH|].
    apply Forall_forall. intros x [? ?]%elem_of_seq. lia.
  - apply Forall_forall. intros x [? ?]%elem_of_seq. lia.
Qed.

Lemma plain_reconstruct fuel idx :
  reconstruct_node fuel tree raw_shares (Some (st, key_id)) idx = reconstruct_node fuel tree raw_shares None idx /\
  forall value used, reconstruct_node fuel tree raw_shares None idx = Ok (value, used) -> used <> [].
Proof.
  revert idx; induction fuel as [|fuel IH]; intros idx; [done|]. cbn [reconstruct_node].
  destruct (kt_nodes tree !! idx) as [node|] eqn:Hn; [|done]. simpl. destruct (kn_is_active node); [|done]. simpl.
  destruct (kn_hardware_key_id node) as [hw|] eqn:Hh.
  - destruct (plain_leaf plain idx node hw Hn Hh) as [-> _]. split; [done|]. intros value used. by intros (share & _ & [= <- <-])%bind_Ok.
  - destruct (kn_threshold node) as [t|]; [|done]. simpl.
    assert (resolve_children tree (reconstruct_node fuel tree raw_shares (Some (st, key_id))) (kn_children_indices node) =
      resolve_children tree (reconstruct_node fuel tree raw_shares None) (kn_children_indices node)) as ->.
    { apply resolve_children_ext. intros c. apply IH. }
    set (resolved := resolve_children _ _ _).
    assert (Forall (fun child => rc_leaves child <> [] /\ Forall (counted tree raw_shares) (rc_leaves child)) resolved) as HF.
    { apply Forall_forall. intros child (c & _ & E)%list_elem_of_omap. destruct (kt_nodes tree !! c); [|done]. destruct (negb _); [done|].
      destruct (reconstruct_node fuel tree raw_shares None c) as [[x ls]|] eqn:ER; [|done]. destruct (share_ok x); [|done]. injection E as <-. simpl.
      split; [by apply (IH c) in ER|by eapply reconstruct_node_leaves]. }
    rewrite plain_select by done. split; [done|]. intros value used ([shares leaves] & HS & (v & _ & [= <- <-])%bind_Ok)%bind_Ok.
    unfold select_child_subset in HS. destruct (_ || _) eqn:B; [done|]. apply orb_false_iff in B as [Ht%Nat.eqb_neq Hl%Nat.ltb_ge].
    injection HS as <- <-. destruct t as [|t], resolved as [|c resolved]; simpl in *; try lia. apply Forall_cons in HF as [[Hc _] _].
    by destruct (rc_leaves c).
Qed.

Lemma plain_presented :
  load key_id st = Ok tree -> reconstruct st key_id raw_shares = tree_reconstruct tree raw_shares.
Proof.
  intros EL. unfold reconstruct, reconstruct_presented, reconstruct_tracking, tree_reconstruct, reconstruct_from, finish_presented.
  rewrite EL. cbn [mbind result_bind]. destruct (plain_reconstruct (node_fuel tree) (kt_root_index tree)) as [-> Hne].
  destruct (reconstruct_node _ _ _ None _) as [[value used]|e] eqn:ER; [|done]. cbn [mbind result_bind].
  destruct (plain_classify used) as (groups & EC & _ & Hg); [by eapply Hne|by eapply reconstruct_node_leaves|].
  unfold enforce_devices. rewrite EC, EP. simpl. rewrite (proj2 (Nat.ltb_ge _ _)) by lia. done.
Qed.
End plain.

(** ** Witnesses *)

Module ChoiceDemo.
Definition child (h : nat) (l : bytes) : ResolvedChild := {| rc_share := l; rc_leaves := [CardDemo.leaf h l] |}.
(** The first two children are on one device. *)
Definition children : list ResolvedChild := [child 1 (str "ann"); child 2 (str "bob"); child 3 (str "cat")].
End ChoiceDemo.

(** Two devices are asked for: the search passes over the first pair. *)
Lemma select_child_subset_best_witness :
  let st := CardDemo.store 2 Logical in
  select_child_subset (C := Toy.toy) (Some (st, 1)) 2 ChoiceDemo.children =
    Ok (flatten_children [ChoiceDemo.child 1 (str "ann"); ChoiceDemo.child 3 (str "cat")]) /\
  exists c, c ∈ combinations 0 3 2 /\ device_count (C := Toy.toy) st 1 ChoiceDemo.children c = Some 2.
Proof.
  intros st.
  pose proof (select_child_subset_best (C := Toy.toy) st 1 (ky_custody (CardDemo.key 2 Logical)) 2 ChoiceDemo.children eq_refl) as H.
  assert (select_child_subset (C := Toy.toy) (Some (st, 1)) 2 ChoiceDemo.children =
    Ok (flatten_children [ChoiceDemo.child 1 (str "ann"); ChoiceDemo.child 3 (str "cat")])) as E.
  { unfold select_child_subset. pose proof MAX_EXAMINED_pos as Hp. revert Hp.
    replace MAX_EXAMINED with (S (S (MAX_EXAMINED - 2))) by (unfold MAX_EXAMINED; lia). generalize (MAX_EXAMINED - 2). intros fuel _.
    vm_compute. reflexivity. }
  split; [exact E|]. rewrite E in H. destruct H as (c & b & Hc & _ & Hb & Hm).
  - cbn. lia.
  - change (3 <= MAX_EXAMINED). unfold MAX_EXAMINED. lia.
  - assert (Forall (soft (C := Toy.toy) st 1 ChoiceDemo.children) (combinations 0 3 2)) as HF by (repeat constructor).
    rewrite Forall_forall in HF. exact HF.
  - exists c. split; [exact Hc|]. assert (2 <= b) as H2.
    { destruct Hm as [Hm|Hm]; [exact Hm|]. apply (Hm [0; 2] 2); [right; left|vm_compute; reflexivity]. }
    apply list_elem_of_In in Hc. destruct Hc as [<-|[<-|[<-|[]]]]; vm_compute in Hb; try (injection Hb as <-; lia); vm_compute; reflexivity.
Defined.
