(* ===== verification/SplitTree.v ===== *)
(** * Splitting and reconstructing a secret, end to end

    What the rows written by [split] are, that they load into an arena which
    holds the secret in the sense of [Reconstruct], and the round trip: shares
    unsealed from the rows reconstruct the secret exactly when they meet the
    quorum of the specification. *)

From S2P Require Import Prelude Text Crypto Pss KeyStore KeyTree Combinations Reconstruct.
From stdpp Require Import gmap.

(** The part of the schema's constraints the proofs use. *)
Record store_ok (st : Store) : Prop := {
  ok_node_ids : NoDup (map nr_id (st_nodes st));
  ok_node_keys row : row ∈ st_nodes st -> nr_key row ∈ map ky_id (st_keys st);
  ok_node_parents row p : row ∈ st_nodes st -> nr_parent row = Some p -> p ∈ map nr_id (st_nodes st);
  ok_bridges b : b ∈ st_bridges st -> b.1 ∈ map nr_id (st_nodes st);
}.

(** What [validate_node] asks of a specification. *)
Inductive valid_spec (st : Store) : NodeSpec -> Prop :=
| valid_leaf label hw bridges key : get_active_encryption_key hw st = Ok key -> valid_spec st (Leaf label hw bridges)
| valid_split label t children bridges :
    1 <= N.to_nat t <= length children -> length children <= 255 -> Forall (valid_spec st) children ->
    valid_spec st (Split label t children bridges).

(** Induction through the lists of children. *)
Lemma valid_spec_ind' st (P : NodeSpec -> Prop) :
  (forall label hw bridges key, get_active_encryption_key hw st = Ok key -> P (Leaf label hw bridges)) ->
  (forall label t children bridges, 1 <= N.to_nat t <= length children -> length children <= 255 ->
     Forall (valid_spec st) children -> Forall P children -> P (Split label t children bridges)) ->
  forall spec, valid_spec st spec -> P spec.
Proof.
  intros HL HS. induction spec as [label hw bridges|label t children bridges IH] using spec_ind; inversion 1; subst; [by eapply HL|].
  apply HS; [done|done|done|]. rewrite Forall_forall in *. auto.
Qed.

Lemma fold_children_Ok {A B} (f : A -> B -> result B) (P : A -> Prop) l b b' :
  (forall a b b', a ∈ l -> f a b = Ok b' -> P a) -> fold_children f l b = Ok b' -> Forall P l.
Proof.
  revert b; induction l as [|a l IH]; intros b HP; [constructor|]. simpl. intros (b1 & E & HR)%bind_Ok.
  constructor; [eapply HP; [left|exact E]|]. eapply IH; [|exact HR]. intros a' c c' Ha'. apply HP. by right.
Qed.

Lemma validate_node_Ok st spec n m : validate_node st spec n = Ok m -> valid_spec st spec.
Proof.
  revert n m; induction spec as [label hw bridges|label t children bridges IH] using spec_ind; intros n m; simpl.
  - intros (key & E & _)%bind_Ok. by econstructor.
  - destruct (_ || _) eqn:B; [done|]. rewrite !orb_false_iff, bool_decide_eq_false, N.eqb_neq, !Nat.ltb_ge in B.
    destruct B as (((Hne & H0) & Ht) & Hl). intros HF. constructor; [lia|done|].
    eapply fold_children_Ok; [|exact HF]. intros a b b' Ha. rewrite Forall_forall in IH. by apply (IH a Ha).
Qed.

(** The labels of a specification, parents first. *)
Fixpoint spec_labels (spec : NodeSpec) : list bytes :=
  match spec with
  | Leaf label _ _ => [label]
  | Split label _ children _ => label :: concat (map spec_labels children)
  end.

(** The hardware keys of its leaves. *)
Fixpoint spec_keys (spec : NodeSpec) : list nat :=
  match spec with Leaf _ hw _ => [hw] | Split _ _ children _ => concat (map spec_keys children) end.

Lemma fold_collect_Ok children seen seen' :
  Forall (fun c => forall s s', collect_labels c s = Ok s' ->
    NoDup (spec_labels c) /\ (forall x, x ∈ spec_labels c -> x ∉ s) /\ s' = list_to_set (spec_labels c) ∪ s) children ->
  fold_children collect_labels children seen = Ok seen' ->
  NoDup (concat (map spec_labels children)) /\ (forall x, x ∈ concat (map spec_labels children) -> x ∉ seen) /\
  seen' = list_to_set (concat (map spec_labels children)) ∪ seen.
Proof.
  intros HF. revert seen; induction HF as [|c children Hc HF IH]; intros seen; simpl.
  { intros [= <-]. split_and!; [constructor|set_solver|set_solver]. }
  intros (s1 & E & HR)%bind_Ok. apply Hc in E as (HN & Hd & ->). apply IH in HR as (HN' & Hd' & ->). split_and!.
  - apply NoDup_app. split; [done|]. split; [|done]. intros x Hx Hx'. apply (Hd' x Hx'). set_solver.
  - intros x [Hx|Hx]%elem_of_app; [by apply Hd|]. specialize (Hd' x Hx). set_solver.
  - rewrite list_to_set_app_L. set_solver.
Qed.

Lemma collect_labels_Ok spec seen seen' : collect_labels spec seen = Ok seen' ->
  NoDup (spec_labels spec) /\ (forall x, x ∈ spec_labels spec -> x ∉ seen) /\ seen' = list_to_set (spec_labels spec) ∪ seen.
Proof.
  revert seen seen'; induction spec as [label hw bridges|label t children bridges IH] using spec_ind; intros seen seen'; simpl.
  - destruct (_ || _) eqn:B; [done|]. bool_hyps. intros [= <-]. split_and!; [apply NoDup_singleton|set_solver|set_solver].
  - destruct (_ || _) eqn:B; [done|]. bool_hyps. intros (HN & Hd & ->)%fold_collect_Ok; [|done]. split_and!.
    + constructor; [|done]. intros Hx. apply (Hd _ Hx). set_solver.
    + intros x [->|Hx]%elem_of_cons; [done|]. specialize (Hd x Hx). set_solver.
    + set_solver.
Qed.

(** ** The rows of a split *)

(** The rows of the children, one specification and one share at a time, with consecutive ids. *)
Definition plan_list (f : NodeSpec -> bytes -> nat -> list NodeRow) : list NodeSpec -> list bytes -> nat -> list NodeRow :=
  fix go l k id := match l, k with
                   | a :: l, b :: k => f a b id ++ go l k (id + length (f a b id))
                   | _, _ => []
                   end.

Section plan.
Context `{C : Crypto} `{SH : Shamir}.
Context (rnd : nat -> nat) (entropy : nat -> bytes) (public : nat -> bytes) (key_id : nat).

Fixpoint plan (spec : NodeSpec) (parent : option nat) (v : bytes) (id : nat) : list NodeRow :=
  match spec with
  | Leaf label hw _ => [leaf_row key_id parent label hw (Some (box_seal (entropy id) (public hw) v)) id]
  | Split label t children _ =>
      split_row key_id parent label t id ::
      plan_list (fun child share => plan child (Some id) share) children (take (length children) (deal (rnd id) t v)) (S id)
  end.

Lemma plan_list_ind (P : NodeSpec -> bytes -> nat -> list NodeRow -> Prop) (Q : nat -> list NodeRow -> Prop) f children shares id :
  (forall id, Q id []) -> (forall a b id rows, P a b id (f a b id) -> Q (id + length (f a b id)) rows -> Q id (f a b id ++ rows)) ->
  Forall (fun a => forall b id, P a b id (f a b id)) children -> Q id (plan_list f children shares id).
Proof.
  intros H0 HS HF. revert shares id; induction HF as [|a children Ha HF IH]; intros [|b shares] id; simpl; try apply H0.
  apply HS; [apply Ha|apply IH].
Qed.

(** The ids of a plan are consecutive. *)
Lemma plan_ids spec parent v id : map nr_id (plan spec parent v id) = seq id (length (plan spec parent v id)).
Proof.
  revert parent v id; induction spec as [label hw bridges|label t children bridges IH] using spec_ind; intros parent v id; [done|]. simpl.
  f_equal. apply (plan_list_ind (fun a b id rows => map nr_id rows = seq id (length rows)) (fun id rows => map nr_id rows = seq id (length rows))).
  - done.
  - intros a b i rows Ha Hr. rewrite map_app, Ha, Hr, length_app. by rewrite seq_app.
  - eapply Forall_impl; [exact IH|]. intros a Ha b i. apply Ha.
Qed.

(** A plan starts with its root; every other row has its parent inside the plan. *)
Lemma plan_parents spec parent v id :
  exists root rest, plan spec parent v id = root :: rest /\ nr_parent root = parent /\ nr_label root = spec_label spec /\
    forall row, row ∈ rest -> exists p, nr_parent row = Some p /\ id <= p < id + length (plan spec parent v id).
Proof.
  revert parent v id; induction spec as [label hw bridges|label t children bridges IH] using spec_ind; intros parent v id.
  { eexists _, []. split_and!; [done|done|done|set_solver]. }
  eexists _, _. split; [reflexivity|]. split; [done|]. split; [done|]. intros row Hrow. simpl.
  set (f := fun child share => plan child (Some id) share) in *. set (shares := take _ _) in *.
  assert (forall row, row ∈ plan_list f children shares (S id) -> exists p, nr_parent row = Some p /\
    (p = id \/ S id <= p < S id + length (plan_list f children shares (S id)))) as HP.
  { apply (plan_list_ind (fun a b i rows => forall row, row ∈ rows -> exists p, nr_parent row = Some p /\ (p = id \/ i <= p < i + length rows))
      (fun i rows => forall row, row ∈ rows -> exists p, nr_parent row = Some p /\ (p = id \/ i <= p < i + length rows))).
    - set_solver.
    - intros a b i rows Ha Hr r [Hr'|Hr']%elem_of_app.
      + destruct (Ha r Hr') as (p & ? & ?). exists p. split; [done|]. rewrite length_app. lia.
      + destruct (Hr r Hr') as (p & ? & ?). exists p. split; [done|]. rewrite length_app. lia.
    - eapply Forall_impl; [exact IH|]. intros a Ha b i r Hr. destruct (Ha (Some id) b i) as (root & rest & E & Hp & _ & Hrest).
      unfold f in *. rewrite E in Hr. apply elem_of_cons in Hr as [->|Hr]; [exists id; split; [done|by left]|].
      destruct (Hrest r Hr) as (p & Hpp & Hb). exists p. split; [done|]. right. lia. }
  destruct (HP row Hrow) as (p & Hpp & [->|Hb]); exists p || exists id; split; (done || lia).
Qed.

Lemma plan_key spec parent v id row : row ∈ plan spec parent v id -> nr_key row = key_id.
Proof.
  revert parent v id; induction spec as [label hw bridges|label t children bridges IH] using spec_ind; intros parent v id; simpl; [set_solver|].
  intros [->|Hr]%elem_of_cons; [done|]. revert Hr.
  apply (plan_list_ind (fun a b i rows => row ∈ rows -> nr_key row = key_id) (fun i rows => row ∈ rows -> nr_key row = key_id)).
  - set_solver.
  - intros a b i rows Ha Hr [?|?]%elem_of_app; auto.
  - eapply Forall_impl; [exact IH|]. intros a Ha b i. apply Ha.
Qed.
End plan.

(** ** [split_node] writes the plan *)

Lemma insert_node_Ok row st id st' : insert_node row st = (Ok id, st') ->
  id = next_id nr_id (st_nodes st) /\ st' = set_nodes (st_nodes st ++ [row id]) st /\ row_allowed st (row id) = true.
Proof. unfold insert_node. destruct (row_allowed _ _) eqn:E; [|done]. intros [= <- <-]. done. Qed.

Lemma insert_allowed_bridges_Ok id peers st st' : insert_allowed_bridges id peers st = (Ok tt, st') ->
  st' = set_bridges (st_bridges st ++ map (pair id) peers) st.
Proof.
  revert st; induction peers as [|peer peers IH]; intros st; simpl.
  { intros [= <-]. rewrite app_nil_r. by destruct st. }
  case_bool_decide as E; [done|]. intros ->%IH. simpl. by rewrite <- app_assoc.
Qed.

Lemma max_list_app l k : max_list (l ++ k) = max (max_list l) (max_list k).
Proof. induction l as [|x l IH]; simpl; [done|]. rewrite IH. lia. Qed.

Lemma max_list_seq i n : max_list (seq i (S n)) = i + n.
Proof.
  revert i; induction n as [|n IH]; intros i; [simpl; lia|].
  change (max_list (seq i (S (S n)))) with (Nat.max i (max_list (seq (S i) (S n)))). rewrite IH. lia.
Qed.

Lemma next_id_app l rows : map nr_id rows = seq (next_id nr_id l) (length rows) -> next_id nr_id (l ++ rows) = next_id nr_id l + length rows.
Proof.
  intros E. destruct rows as [|r rows]; [by rewrite app_nil_r, Nat.add_0_r|]. unfold next_id at 1. rewrite map_app, max_list_app, E.
  cbn [length]. rewrite max_list_seq. unfold next_id in *. lia.
Qed.

(** What a split leaves alone. *)
Record same_frame (st st' : Store) : Prop := {
  frame_hardware : st_hardware st' = st_hardware st;
  frame_keys : st_keys st' = st_keys st;
  frame_links : st_links st' = st_links st;
  frame_placements : st_placements st' = st_placements st;
  frame_possession : st_possession st' = st_possession st;
  frame_generations : st_generations st' = st_generations st;
  frame_private : st_private st' = st_private st;
  frame_org : st_org st' = st_org st;
}.
#[local] Instance same_frame_refl : Reflexive same_frame.
Proof. by split. Qed.
#[local] Instance same_frame_trans : Transitive same_frame.
Proof. intros st1 st2 st3 [] []. split; congruence. Qed.

Lemma get_key_frame st st' hw : same_frame st st' -> get_key hw st' = get_key hw st.
Proof. intros HF. unfold get_key. by rewrite (frame_hardware _ _ HF). Qed.
Lemma get_active_frame st st' hw : same_frame st st' -> get_active_encryption_key hw st' = get_active_encryption_key hw st.
Proof. intros HF. unfold get_active_encryption_key. by rewrite (get_key_frame st st'). Qed.

Section split_node.
Context `{C : Crypto} `{SH : Shamir}.
Context (rnd : nat -> nat) (entropy : nat -> bytes) (public : nat -> bytes) (key_id : nat).

(** [public] gives the registered public keys of [st]. *)
Definition registered (st : Store) : Prop := forall hw key, get_active_encryption_key hw st = Ok key -> public hw = hk_public_key key.

Lemma registered_frame st st' : same_frame st st' -> registered st -> registered st'.
Proof. intros HF HR hw key. rewrite (get_active_frame st st') by done. apply HR. Qed.

(** The rows appended, the ids in step with them, and nothing else but bridges written. *)
Definition wrote (st st' : Store) (rows : list NodeRow) : Prop :=
  st_nodes st' = st_nodes st ++ rows /\ same_frame st st' /\
  (forall b, b ∈ st_bridges st' -> b ∈ st_bridges st \/ b.1 ∈ map nr_id rows) /\
  (forall row, row ∈ rows -> forall hw, nr_hardware row = Some hw -> length (public hw) = 32).

Lemma wrote_app st st1 st' rows rows' : wrote st st1 rows -> wrote st1 st' rows' -> wrote st st' (rows ++ rows').
Proof.
  intros (E & HF & HB & HP) (E' & HF' & HB' & HP'). split; [by rewrite E', E, app_assoc|]. split; [by etrans|]. split.
  - intros b [[?|?]%HB|?]%HB'; [by left| |]; right; rewrite map_app; set_solver.
  - intros row [?|?]%elem_of_app; eauto.
Qed.

Lemma split_node_wrote spec parent v st st' :
  registered st -> split_node rnd entropy key_id spec parent v st = (Ok tt, st') ->
  wrote st st' (plan rnd entropy public key_id spec parent v (next_id nr_id (st_nodes st))).
Proof.
  revert parent v st st'; induction spec as [label hw bridges|label t children bridges IH] using spec_ind; intros parent v st st' HR.
  - cbn [split_node plan]. intros H. apply dbM_bind_Ok in H as (key & ? & [EK ->]%query_Ok & H).
    apply dbM_bind_Ok in H as (w & ? & [EW ->]%db_try_Ok & H). apply dbM_bind_Ok in H as (id & ? & (-> & -> & _)%insert_node_Ok & H).
    apply insert_allowed_bridges_Ok in H as ->. unfold seal_share in EW. destruct (negb _) eqn:El; [done|]. injection EW as <-.
    apply negb_false_iff, Nat.eqb_eq in El. rewrite (HR hw key EK). split; [done|]. split; [done|]. split.
    + intros b. simpl. rewrite elem_of_app. intros [?|(p & -> & _)%list_elem_of_fmap]; [by left|]. right. simpl. left.
    + intros row ->%list_elem_of_singleton hw'. simpl. intros [= <-]. by rewrite (HR hw key EK).
  - cbn [split_node plan]. intros H. apply dbM_bind_Ok in H as (id & ? & (-> & -> & _)%insert_node_Ok & H).
    apply dbM_bind_Ok in H as ([] & ? & ->%insert_allowed_bridges_Ok & H). set (id := next_id nr_id (st_nodes st)) in *.
    set (shares := take (length children) (deal (rnd id) t v)) in *. destruct (negb _); [done|].
    set (st1 := set_bridges _ _) in H. set (row := split_row key_id parent label t id) in *.
    assert (wrote st st1 [row]) as HW1.
    { split; [done|]. split; [done|]. split.
      - intros b. simpl. rewrite elem_of_app. intros [?|(p & -> & _)%list_elem_of_fmap]; [by left|]. right. simpl. left.
      - intros r ->%list_elem_of_singleton hw. done. }
    change (row :: plan_list (fun child share => plan rnd entropy public key_id child (Some id) share) children shares (S id))
      with ([row] ++ plan_list (fun child share => plan rnd entropy public key_id child (Some id) share) children shares (S id)).
    eapply wrote_app; [exact HW1|]. assert (next_id nr_id (st_nodes st1) = S id) as Hid.
    { unfold st1. simpl. rewrite next_id_app by done. cbn [length]. unfold id. by rewrite Nat.add_1_r. }
    rewrite <- Hid. assert (registered st1) as HR1 by (eapply registered_frame; [apply HW1|done]). clear HW1 Hid. clearbody st1 shares.
    revert st1 shares HR1 H. induction IH as [|child children Hc _ IHc]; intros st1 shares HR1 H.
    { simpl in H. injection H as <-. split; [by rewrite app_nil_r|]. split; [done|]. split; [by left|set_solver]. }
    destruct shares as [|share shares].
    { simpl in H. injection H as <-. split; [by rewrite app_nil_r|]. split; [done|]. split; [by left|set_solver]. }
    simpl in H. apply dbM_bind_Ok in H as ([] & st2 & H1 & H2). apply Hc in H1 as HW; [|done]. cbn [plan_list]. eapply wrote_app; [exact HW|].
    rewrite <- next_id_app by apply plan_ids. destruct HW as (EN & HF & _). rewrite <- EN. apply IHc; [|done]. by eapply registered_frame.
Qed.
End split_node.

(** ** The plan as an arena *)

Section plan_holds.
Context `{C : Crypto} `{SH : Shamir} `{!ShamirLaws SH}.
Context (rnd : nat -> nat) (entropy : nat -> bytes) (public : nat -> bytes) (key_id : nat).
Context (st : Store) (tree : KeyQuorumTree) (rows : list NodeRow) (id0 : nat) (raw_shares : gmap nat bytes) (present : bytes -> bool).

Context (arena : kt_nodes tree = imap (arena_node st rows) rows).
Context (row_ids : map nr_id rows = seq id0 (length rows)).
Context (row_labels : NoDup (map nr_label rows)).
(** Every share presented is the content of its leaf's sealed box. *)
Context (opened : forall row hw w s, row ∈ rows -> nr_hardware row = Some hw -> nr_share row = Some w -> raw_shares !! nr_id row = Some s ->
  forall e v, w = box_seal e (public hw) v -> s = v).
Context (presented : forall l, present l = true <-> exists row, row ∈ rows /\ nr_label row = l /\ is_Some (raw_shares !! nr_id row)).

#[local] Notation plan := (plan rnd entropy public key_id).

Lemma row_id k row : rows !! k = Some row -> nr_id row = id0 + k.
Proof.
  intros Hk. assert (map nr_id rows !! k = Some (nr_id row)) as E by (rewrite list_lookup_fmap, Hk; done).
  rewrite row_ids in E. apply lookup_seq in E as [-> _]. done.
Qed.

Lemma parent_place_Some k j : parent_place rows k = Some j <->
  j < length rows /\ exists row, rows !! k = Some row /\ nr_parent row = Some (id0 + j).
Proof.
  assert (NoDup (map nr_id rows)) as HN by (rewrite row_ids; apply NoDup_seq).
  unfold parent_place. destruct (rows !! k) as [row|] eqn:Ek; simpl; [|naive_solver].
  destruct (nr_parent row) as [p|] eqn:Ep; simpl; [|naive_solver]. rewrite place_Some by done. split.
  - intros (r & Hr & <-). split; [by eapply lookup_lt_Some|]. exists row. split; [done|]. rewrite Ep. by rewrite (row_id j r).
  - intros (Hj & r & [= <-] & E). apply lookup_lt_is_Some_2 in Hj as [r Hr]. exists r. split; [done|]. rewrite (row_id j r) by done. congruence.
Qed.

(** No row outside the places [o .. o + len) has its parent inside. *)
Definition isolated (o len : nat) : Prop :=
  forall k row p, rows !! k = Some row -> ~ (o <= k < o + len) -> nr_parent row = Some p -> ~ (id0 + o <= p < id0 + o + len).

(** [seg] is at the places from [o] on. *)
Definition segment (o : nat) (seg : list NodeRow) : Prop := forall i row, seg !! i = Some row -> rows !! (o + i) = Some row.

Lemma segment_app o s1 s2 : segment o (s1 ++ s2) -> segment o s1 /\ segment (o + length s1) s2.
Proof.
  intros HS. split.
  - intros i row Hi. apply HS. by apply lookup_app_l_Some.
  - intros i row Hi. replace (o + length s1 + i) with (o + (length s1 + i)) by lia. apply HS.
    rewrite lookup_app_r by lia. by replace (length s1 + i - length s1) with i by lia.
Qed.

Lemma segment_length o seg : segment o seg -> seg <> [] -> o + length seg <= length rows.
Proof.
  intros HS Hne. destruct (last seg) as [z|] eqn:E; [|by apply last_None in E]. rewrite last_lookup in E. apply HS, lookup_lt_Some in E.
  destruct seg; [done|]. simpl in *. lia.
Qed.

Definition held (spec : NodeSpec) : Prop := forall o parent v,
  valid_spec st spec -> segment o (plan spec parent v (id0 + o)) -> isolated o (length (plan spec parent v (id0 + o))) ->
  (forall p, parent = Some p -> p < id0 + o) -> holds tree raw_shares present o spec v.

Definition child_of (j k : nat) : Prop := parent_place rows k = Some j.
#[local] Instance child_of_dec j k : Decision (child_of j k).
Proof. unfold child_of. apply _. Defined.

(** Within the plan of one child only its root is a child of [j]. *)
Lemma plan_segment_children spec j o v :
  j < o -> segment o (plan spec (Some (id0 + j)) v (id0 + o)) ->
  filter (child_of j) (seq o (length (plan spec (Some (id0 + j)) v (id0 + o)))) = [o].
Proof.
  intros Hj HS. destruct (plan_parents rnd entropy public key_id spec (Some (id0 + j)) v (id0 + o)) as (root & rest & E & Hp & _ & Hrest).
  pose proof (segment_length o _ HS) as Hlen. rewrite E in *. specialize (Hlen ltac:(done)). simpl. rewrite filter_cons_True.
  - f_equal. apply list_nil_no_elem. intros k [Hk Hin]%list_elem_of_filter. apply elem_of_seq in Hin.
    apply parent_place_Some in Hk as (_ & row & Hrow & Epar).
    destruct (lookup_lt_is_Some_2 rest (k - S o)) as [r Hr]; [lia|]. assert (rows !! k = Some r) as Hk'.
    { replace k with (o + S (k - S o)) by lia. by apply HS. }
    assert (r = row) as -> by congruence. destruct (Hrest row) as (p & Ep & Hb); [by eapply list_elem_of_lookup_2|]. rewrite Ep in Epar. injection Epar as ->. lia.
  - apply parent_place_Some. split; [simpl in Hlen; lia|]. exists root. split; [|done]. rewrite <- (Nat.add_0_r o). by apply HS.
Qed.

Lemma plan_list_held children shares j o :
  Forall held children -> Forall (valid_spec st) children -> length shares = length children -> j < o ->
  let seg := plan_list (fun child share => plan child (Some (id0 + j)) share) children shares (id0 + o) in
  segment o seg -> isolated o (length seg) ->
  exists starts, filter (child_of j) (seq o (length seg)) = starts /\ length starts = length children /\
    forall i c child share, starts !! i = Some c -> children !! i = Some child -> shares !! i = Some share -> holds tree raw_shares present c child share.
Proof.
  intros HH. revert shares o; induction HH as [|child children Hc HH IH]; intros [|share shares] o HV Hl Hj; try done; simpl.
  { intros _ _. exists []. split_and!; [done|done|]. intros i c x y Hi. by rewrite lookup_nil in Hi. }
  apply Forall_cons in HV as [HVc HV]. set (s1 := plan child (Some (id0 + j)) share (id0 + o)).
  rewrite <- Nat.add_assoc. set (s2 := plan_list _ children shares _). intros HS HI. rewrite length_app in HI.
  destruct (segment_app _ _ _ HS) as [HS1 HS2].
  destruct (plan_parents rnd entropy public key_id child (Some (id0 + j)) share (id0 + o)) as (root & rest & E1 & Hp1 & _ & Hrest1). fold s1 in E1, Hrest1.
  assert (forall row p, row ∈ s1 -> nr_parent row = Some p -> p = id0 + j \/ id0 + o <= p < id0 + o + length s1) as HP1.
  { intros row p. rewrite E1 at 1. intros [->|Hr]%elem_of_cons; [rewrite Hp1; intros [= <-]; by left|].
    destruct (Hrest1 row Hr) as (q & Eq & Hb). rewrite Eq. intros [= <-]. by right. }
  assert (forall row p, row ∈ s2 -> nr_parent row = Some p -> p = id0 + j \/ id0 + (o + length s1) <= p < id0 + (o + length s1) + length s2) as HP2.
  { unfold s2. generalize (id0 + (o + length s1)). clear. intros id.
    apply (plan_list_ind (fun a b i rws => forall row p, row ∈ rws -> nr_parent row = Some p -> p = id0 + j \/ i <= p < i + length rws)
      (fun i rws => forall row p, row ∈ rws -> nr_parent row = Some p -> p = id0 + j \/ i <= p < i + length rws)).
    - set_solver.
    - intros a b i rws Ha Hr row p [H1|H1]%elem_of_app H2; rewrite length_app; [destruct (Ha row p H1 H2)|destruct (Hr row p H1 H2)]; lia.
    - apply Forall_forall. intros a _ b i row p Hr. destruct (plan_parents rnd entropy public key_id a (Some (id0 + j)) b i) as (root & rest & E & Hp & _ & Hrest).
      rewrite E in Hr. apply elem_of_cons in Hr as [->|Hr]; [rewrite Hp; intros [= <-]; by left|].
      destruct (Hrest row Hr) as (q & Eq & Hb). rewrite Eq. intros [= <-]. by right. }
  destruct (IH shares (o + length s1) HV) as (starts & Hst & Hls & Hhold); [simpl in Hl; lia|lia|exact HS2| |].
  { intros k row p Hk Hout Ep Hin. fold s2 in Hout, Hin. destruct (decide (o <= k < o + length s1)) as [Hk1|Hk1].
    - destruct (lookup_lt_is_Some_2 s1 (k - o)) as [r Hr]; [lia|]. assert (rows !! k = Some r) as Hk' by (replace k with (o + (k - o)) by lia; by apply HS1).
      assert (r = row) as -> by congruence. destruct (HP1 row p) as [?|?]; [by eapply list_elem_of_lookup_2|done|lia|lia].
    - apply (HI k row p Hk); [lia|done|lia]. }
  exists (o :: starts). split_and!; [|simpl; lia|].
  - rewrite length_app, seq_app, filter_app. unfold s1 at 1. rewrite plan_segment_children by done. simpl. f_equal. exact Hst.
  - intros [|i] c ch sh; simpl; [intros [= <-] [= <-] [= <-]|apply Hhold]. apply (Hc o (Some (id0 + j)) share HVc HS1); [|intros p [= <-]; lia].
    fold s1. intros k row p Hk Hout Ep Hin. destruct (decide (o + length s1 <= k < o + length s1 + length s2)) as [Hk2|Hk2].
    + destruct (lookup_lt_is_Some_2 s2 (k - (o + length s1))) as [r Hr]; [lia|].
      assert (rows !! k = Some r) as Hk' by (replace k with (o + length s1 + (k - (o + length s1))) by lia; by apply HS2).
      assert (r = row) as -> by congruence. destruct (HP2 row p) as [?|?]; [by eapply list_elem_of_lookup_2|done|lia|lia].
    + apply (HI k row p Hk); [lia|done|lia].
Qed.

Lemma present_row o row : rows !! o = Some row -> present (nr_label row) = true <-> is_Some (raw_shares !! nr_id row).
Proof.
  intros Ho. rewrite presented. split; [|intros Hr; exists row; split_and!; [by eapply list_elem_of_lookup_2|done|done]].
  intros (r & [k Hk]%list_elem_of_lookup & El & Hr). assert (k = o) as ->; [|congruence].
  eapply (NoDup_lookup (map nr_label rows)); [done|rewrite list_lookup_fmap, Hk; simpl; by rewrite El|by rewrite list_lookup_fmap, Ho].
Qed.

(** The places that are children of a split are the roots of its children's plans. *)
Lemma seq_around o len : o + S len <= length rows ->
  seq 0 (length rows) = seq 0 o ++ [o] ++ seq (S o) len ++ seq (S o + len) (length rows - (S o + len)).
Proof.
  intros Hle. replace (length rows) with (o + (1 + (len + (length rows - (S o + len))))) at 1 by lia.
  rewrite !seq_app. simpl. by replace (o + 1) with (S o) by lia.
Qed.

Lemma plan_held spec : held spec.
Proof.
  induction spec as [label hw bridges|label t children bridges IH] using spec_ind; intros o parent v HV HS HI Hp.
  - assert (rows !! o = Some (leaf_row key_id parent label hw (Some (box_seal (entropy (id0 + o)) (public hw) v)) (id0 + o))) as Ho.
    { rewrite <- (Nat.add_0_r o) at 1. by apply HS. }
    eapply holds_leaf.
    + rewrite arena, list_lookup_imap, Ho. reflexivity.
    + done.
    + done.
    + exact (present_row o _ Ho).
    + intros s Hs. eapply (opened _ hw _ s); [by eapply list_elem_of_lookup_2|done|reflexivity|exact Hs|reflexivity].
  - inversion HV as [|? ? ? ? Ht Hc HVc]; subst. cbn [SplitTree.plan] in HS, HI.
    set (shares := take (length children) (deal (rnd (id0 + o)) t v)) in *. set (seg := plan_list _ _ _ _) in *.
    assert (rows !! o = Some (split_row key_id parent label t (id0 + o))) as Ho.
    { rewrite <- (Nat.add_0_r o) at 1. by apply HS. }
    assert (length shares = length children) as Hlen by (unfold shares; rewrite length_take, deal_length by lia; lia).
    destruct (segment_app o [_] seg HS) as [_ HS2]. simpl in HS2. rewrite Nat.add_1_r in HS2.
    pose proof (segment_length o _ HS ltac:(done)) as Hseg. cbn [length] in Hseg, HI.
    destruct (plan_list_held children shares o (S o)) as (starts & Hst & Hls & Hhold); [done|done|done|lia| | |].
    { rewrite Nat.add_succ_r. exact HS2. }
    { rewrite Nat.add_succ_r. fold seg. intros k row p Hk Hout Ep Hin. destruct (decide (k = o)) as [->|Hne].
      - rewrite Ho in Hk. injection Hk as <-. simpl in Ep. apply Hp in Ep. lia.
      - apply (HI k row p Hk); [lia|done|lia]. }
    rewrite Nat.add_succ_r in Hst. fold seg in Hst.
    assert (filter (child_of o) (seq 0 (length rows)) = starts) as Hch.
    { rewrite (seq_around o (length seg)) by lia. rewrite !filter_app, Hst.
      assert (forall l, (forall k, k ∈ l -> ~ (S o <= k < S o + length seg)) -> filter (child_of o) l = []) as Hnone.
      { intros l Hl. apply list_nil_no_elem. intros k [Hk Hin]%list_elem_of_filter. apply parent_place_Some in Hk as (_ & row & Hrow & Ep).
        destruct (decide (k = o)) as [->|Hne]; [rewrite Ho in Hrow; injection Hrow as <-; simpl in Ep; apply Hp in Ep; lia|].
        apply (HI k row (id0 + o) Hrow); [specialize (Hl k Hin); lia|done|lia]. }
      rewrite (Hnone (seq 0 o)) by (intros k Hk%elem_of_seq; lia).
      rewrite (Hnone [o]) by (intros k ->%list_elem_of_singleton; lia).
      rewrite (Hnone (seq (S o + length seg) _)) by (intros k Hk%elem_of_seq; lia). by rewrite app_nil_r. }
    assert (forall row, kn_children_indices (arena_node st rows o row) = starts) as Hci by (intros row; rewrite <- Hch; by apply list_filter_iff).
    eapply (holds_split _ _ _ _ _ _ _ _ _ _ (rnd (id0 + o))).
    + rewrite arena, list_lookup_imap, Ho. reflexivity.
    + done.
    + done.
    + done.
    + lia.
    + lia.
    + rewrite Hci. lia.
    + rewrite Hci. intros i c child share Hi Hcd Hsh.
      apply (Hhold i); [done|done|]. unfold shares. rewrite lookup_take_lt; [done|]. by eapply lookup_lt_Some.
Qed.
End plan_holds.

(** ** The round trip *)

(** The labels of the leaves for which a share is presented. *)
Definition presented_labels (rows : list NodeRow) (raw_shares : gmap nat bytes) (l : bytes) : bool :=
  existsb (fun row => bool_decide (nr_label row = l) && bool_decide (is_Some (raw_shares !! nr_id row))) rows.

Section round_trip.
Context `{C : Crypto} `{SH : Shamir} `{!ShamirLaws SH}.
Context (rnd : nat -> nat) (entropy : nat -> bytes).

Lemma plan_list_concat {A} (g : NodeSpec -> list A) (h : NodeRow -> A) f children shares id :
  length shares = length children -> (forall a b i, a ∈ children -> map h (f a b i) = g a) ->
  map h (plan_list f children shares id) = concat (map g children).
Proof.
  revert shares id; induction children as [|a children IH]; intros [|b shares] id Hl Hf; try done. simpl.
  rewrite map_app, Hf by left. f_equal. apply IH; [simpl in Hl; lia|]. intros a' b' i Ha'. apply Hf. by right.
Qed.

Lemma deal_take_length r t v n : (1 <= t)%N -> n <= 255 -> length (take n (deal r t v)) = n.
Proof. intros Ht Hn. rewrite length_take, deal_length by done. lia. Qed.

Lemma plan_labels public key_id st spec parent v id : valid_spec st spec ->
  map nr_label (plan rnd entropy public key_id spec parent v id) = spec_labels spec.
Proof.
  revert parent v id; induction spec as [label hw bridges|label t children bridges IH] using spec_ind; intros parent v id HV; [done|].
  inversion HV as [|? ? ? ? Ht Hc HVc]; subst. simpl. f_equal. apply plan_list_concat; [apply deal_take_length; lia|].
  intros a b i Ha. rewrite Forall_forall in IH, HVc. by apply IH, HVc.
Qed.

Lemma plan_depth public key_id st spec parent v id : valid_spec st spec -> spec_depth spec <= length (plan rnd entropy public key_id spec parent v id).
Proof.
  revert parent v id; induction spec as [label hw bridges|label t children bridges IH] using spec_ind; intros parent v id HV; [done|].
  inversion HV as [|? ? ? ? Ht Hc HVc]; subst. simpl. apply le_n_S. set (shares := take _ _).
  assert (length shares = length children) as Hl by (apply deal_take_length; lia). clearbody shares. clear -IH HVc Hl. generalize (S id).
  revert shares Hl; induction IH as [|a children Ha IH IHc]; intros [|b shares] Hl i; try done; simpl.
  apply Forall_cons in HVc as [HVa HVc]. rewrite length_app. specialize (Ha (Some id) b i HVa).
  specialize (IHc HVc shares ltac:(simpl in Hl; lia) (i + length (plan rnd entropy public key_id a (Some id) b i))). lia.
Qed.

(** What a successful split leaves behind. *)
Lemma split_Ok label secret spec st key_id st' :
  store_ok st -> KeyTree.split rnd entropy label secret spec st = (Ok key_id, st') ->
  let public hw := match get_key hw st with Ok key => hk_public_key key | Err _ => [] end in
  valid_spec st spec /\ NoDup (spec_labels spec) /\ st_hardware st' = st_hardware st /\
  st_placements st' = st_placements st /\ st_possession st' = st_possession st /\
  custody_policy key_id st' = Ok default_custody /\
  st_nodes st' = st_nodes st ++ plan rnd entropy public key_id spec None secret (next_id nr_id (st_nodes st)) /\
  rows_of key_id st' = plan rnd entropy public key_id spec None secret (next_id nr_id (st_nodes st)).
Proof.
  intros HO HS public. unfold KeyTree.split, transaction in HS. destruct (build_tree rnd entropy label secret spec st) as [[k|e] st1] eqn:EB; [|done].
  injection HS as <- <-. unfold build_tree in EB. apply dbM_bind_Ok in EB as ([] & ? & [EV ->]%query_Ok & EB).
  apply dbM_bind_Ok in EB as (k' & st0 & EK & EB). unfold insert_key in EK. injection EK as <- <-.
  apply dbM_bind_Ok in EB as ([] & st2 & EN & EB). injection EB as <- <-.
  unfold validate in EV. apply bind_Ok in EV as (n & EVn & EV). apply validate_node_Ok in EVn as HV.
  destruct (n =? 0); [done|]. apply bind_Ok in EV as (labels & (HNL & _ & _)%collect_labels_Ok & _).
  set (key_id := next_id ky_id (st_keys st)) in *. set (st0 := set_keys _ st) in *.
  assert (registered public st0) as HR.
  { intros hw key E. unfold public. unfold get_active_encryption_key in E. apply bind_Ok in E as (k & Ek & E).
    assert (get_key hw st = Ok k) as -> by exact Ek. destruct (negb _); [done|]. destruct (hk_revoked k); [done|]. by injection E as ->. }
  clearbody public. pose proof (split_node_wrote rnd entropy public key_id spec None secret st0 st2 HR EN) as (ENodes & HF & _ & _).
  split; [done|]. split; [done|]. split; [apply HF|]. split; [apply HF|]. split; [apply HF|]. split; [|split; [exact ENodes|]].
  - unfold custody_policy. rewrite (frame_keys _ _ HF). unfold st0. simpl. unfold first_row. rewrite filter_app.
    assert (filter (fun row => bool_decide (ky_id row = key_id) = true) (st_keys st) = []) as ->.
    { apply list_nil_no_elem. intros row [E Hrow]%list_elem_of_filter. apply bool_decide_eq_true in E.
      assert (ky_id row <= max_list (map ky_id (st_keys st))) by (by apply max_list_elem_of_le, list_elem_of_fmap_2). unfold key_id, next_id in E. lia. }
    cbn [app]. rewrite filter_cons_True by (by apply bool_decide_eq_true). done.
  - unfold rows_of. rewrite ENodes. unfold st0. simpl. rewrite filter_app.
    assert (filter (fun row => nr_key row = key_id) (st_nodes st) = []) as ->.
    { apply list_nil_no_elem. intros row [E Hrow]%list_elem_of_filter. apply (ok_node_keys _ HO) in Hrow. rewrite E in Hrow.
      apply max_list_elem_of_le in Hrow. unfold key_id, next_id in Hrow. lia. }
    simpl. rewrite (list_filter_iff_in _ (fun _ => True)).
    + clear. induction (plan _ _ _ _ _ _ _ _) as [|r l IH]; [done|]. rewrite filter_cons_True by done. by f_equal.
    + intros row Hrow. apply plan_key in Hrow. done.
Qed.

Lemma presented_labels_spec rows raw_shares l :
  presented_labels rows raw_shares l = true <-> exists row, row ∈ rows /\ nr_label row = l /\ is_Some (raw_shares !! nr_id row).
Proof.
  unfold presented_labels. rewrite existsb_exists. setoid_rewrite <- list_elem_of_In. setoid_rewrite andb_true_iff.
  by repeat setoid_rewrite bool_decide_eq_true.
Qed.

Context `{!CryptoLaws C}.

(** Every share presented was unsealed from its leaf in this store. *)
Definition unsealed (st : Store) (raw_shares : gmap nat bytes) : Prop :=
  forall id s, raw_shares !! id = Some s -> exists secret_key, unwrap_leaf_share st id secret_key = Ok s.

(** Ids stay distinct when a plan is appended. *)
Lemma append_ids l rows : NoDup (map nr_id l) -> map nr_id rows = seq (next_id nr_id l) (length rows) -> NoDup (map nr_id (l ++ rows)).
Proof.
  intros HN E. rewrite map_app, E. apply NoDup_app. split; [done|]. split; [|apply NoDup_seq].
  intros x Hx Hx'%elem_of_seq. apply max_list_elem_of_le in Hx. unfold next_id in Hx'. lia.
Qed.

(** The tree a split leaves behind loads, and its root holds the secret. *)
Lemma split_holds label secret spec st key_id st' raw_shares :
  store_ok st -> KeyTree.split rnd entropy label secret spec st = (Ok key_id, st') -> unsealed st' raw_shares ->
  exists tree, load key_id st' = Ok tree /\ loaded st' key_id tree /\ spec_depth spec <= node_fuel tree /\
    holds tree raw_shares (presented_labels (rows_of key_id st') raw_shares) (kt_root_index tree) spec secret.
Proof.
  intros HO HS HU. destruct (split_Ok _ _ _ _ _ _ HO HS) as (HV & HNL & Hhw & _ & _ & _ & ENodes & ERows).
  set (public := fun hw => _) in *. set (id0 := next_id nr_id (st_nodes st)) in *. set (rows := plan _ _ _ _ _ _ _ _) in *.
  assert (map nr_id rows = seq id0 (length rows)) as Hids by apply plan_ids.
  assert (NoDup (map nr_id (st_nodes st'))) as HN by (rewrite ENodes; apply append_ids; [apply HO|done]).
  destruct (plan_parents rnd entropy public key_id spec None secret id0) as (root & rest & ER & Hroot & _ & Hrest). fold rows in ER, Hrest.
  destruct (load_total key_id st') as [tree EL]; [done| | | |].
  { rewrite ERows. unfold rows. by rewrite (plan_labels public key_id st). }
  { rewrite ERows. intros row p Hrow Ep. rewrite ER in Hrow at 1. apply elem_of_cons in Hrow as [->|Hrow]; [congruence|].
    destruct (Hrest row Hrow) as (q & Eq & Hb). assert (q = p) as -> by congruence. rewrite Hids. apply elem_of_seq. lia. }
  { rewrite ERows. exists root. split; [rewrite ER; left|done]. }
  pose proof (load_Ok _ _ _ HN EL) as HLd. exists tree. split; [done|]. split; [done|].
  pose proof (loaded_nodes _ _ _ HLd) as Hnodes. rewrite ERows in Hnodes.
  assert (length (kt_nodes tree) = length rows) as Hlen by (rewrite Hnodes; apply length_imap). split.
  { unfold node_fuel. rewrite Hlen. pose proof (plan_depth public key_id st spec None secret id0 HV). fold rows in H. lia. }
  assert (kt_root_index tree = 0) as ->.
  { destruct (loaded_root _ _ _ HLd) as [rn HF]. apply list_find_Some in HF as (_ & _ & Hfirst).
    destruct (kt_root_index tree) as [|n]; [done|]. exfalso.
    eapply (Hfirst 0); [by rewrite Hnodes, ER|lia|]. simpl. unfold parent_place. simpl. by rewrite Hroot. }
  rewrite ERows. eapply (plan_held rnd entropy public key_id st' tree rows id0); try done.
  - unfold rows. by rewrite (plan_labels public key_id st).
  - intros row hw w s Hrow Ehw Ew Hs e v ->. destruct (HU _ _ Hs) as [sk HK]. unfold unwrap_leaf_share in HK.
    destruct (negb _); [done|]. assert (row ∈ st_nodes st') as Hin by (rewrite ENodes; apply elem_of_app; by right).
    rewrite (first_row_key nr_id _ _ HN Hin) in HK. simpl in HK. rewrite Ehw, Ew in HK. simpl in HK.
    apply bind_Ok in HK as (key & EK & HK). case_bool_decide as Epk; [|done]. simpl in HK. apply ok_or_Ok in HK.
    unfold public in HK. unfold get_key in EK. rewrite Hhw in EK. fold (get_key hw st) in EK. rewrite EK, Epk, box_unseal_seal in HK. congruence.
  - intros l. apply presented_labels_spec.
  - clear -HV Hhw. induction HV as [? ? ? key E|? ? ? ? Ht Hc HF IH] using valid_spec_ind'.
    + econstructor. unfold get_active_encryption_key, get_key in *. by rewrite Hhw.
    + by constructor.
  - intros i row Hi. by rewrite Nat.add_0_l, <- Hi, Nat.add_0_r.
  - intros k row p Hk Hout. apply lookup_lt_Some in Hk. rewrite Nat.add_0_r in Hout. fold rows in Hout. lia.
  - done.
Qed.

Lemma split_tree_roundtrip label secret spec st key_id st' raw_shares :
  store_ok st -> secret <> [] -> KeyTree.split rnd entropy label secret spec st = (Ok key_id, st') -> unsealed st' raw_shares ->
  exists tree, load key_id st' = Ok tree /\ loaded st' key_id tree /\
    tree_reconstruct tree raw_shares =
      if quorum (presented_labels (rows_of key_id st') raw_shares) spec then Ok secret else Err QuorumNotMet.
Proof.
  intros HO Hne HS HU. destruct (split_holds _ _ _ _ _ _ _ HO HS HU) as (tree & EL & HL & Hd & HH). exists tree. split; [done|]. split; [done|].
  pose proof (holds_exact tree raw_shares _ _ _ _ _ Hne HH Hd) as HE. unfold tree_reconstruct, reconstruct_from.
  destruct (reconstruct_node _ _ _ _ _) as [[x ls]|e]; destruct HE as [-> ->]; done.
Qed.

(** The keys of a specification's leaves are on devices of their own, and none is a ghost. *)
Definition apart (st : Store) (spec : NodeSpec) : Prop :=
  (forall hw, hw ∈ spec_keys spec -> leaf_is_ghost hw st = false /\ is_Some (device_of st hw)) /\
  forall hw hw', hw ∈ spec_keys spec -> hw' ∈ spec_keys spec -> device_of st hw = device_of st hw' -> hw = hw'.

Lemma plan_hardware public key_id spec parent v id row hw :
  row ∈ plan rnd entropy public key_id spec parent v id -> nr_hardware row = Some hw -> hw ∈ spec_keys spec.
Proof.
  revert parent v id; induction spec as [label h bridges|label t children bridges IH] using spec_ind; intros parent v id; simpl.
  { intros ->%list_elem_of_singleton [= <-]. left. }
  intros [->|Hr]%elem_of_cons; [done|]. intros Eh. revert Hr. generalize (S id) as i, (take (length children) (deal (rnd id) t v)) as shares.
  induction IH as [|c children Hc _ IHc]; intros i [|share shares]; simpl; set_solver.
Qed.

(** What the round trip rests on, on [build_tree] as on [split]. *)
Lemma split_reconstructs label secret spec st key_id st' raw_shares :
  store_ok st -> secret <> [] -> KeyTree.split rnd entropy label secret spec st = (Ok key_id, st') -> unsealed st' raw_shares -> apart st spec ->
  reconstruct st' key_id raw_shares =
    if quorum (presented_labels (rows_of key_id st') raw_shares) spec then Ok secret else Err QuorumNotMet.
Proof.
  intros HO Hne HS HU [Hg Ha]. destruct (split_tree_roundtrip _ _ _ _ _ _ _ HO Hne HS HU) as (tree & EL & HL & <-).
  destruct (split_Ok _ _ _ _ _ _ HO HS) as (_ & _ & Hhw & Hpl & Hpo & Hpol & _ & ERows).
  assert (forall hw, leaf_is_ghost hw st' = leaf_is_ghost hw st) as Eg by (intros hw; unfold leaf_is_ghost; by rewrite Hhw, Hpo).
  assert (forall hw, device_of st' hw = device_of st hw) as Ed.
  { intros hw. unfold device_of, get_key. rewrite Hhw. destruct (ok_or _ Db) as [key|]; [|done]. simpl. unfold device_for_key. by rewrite Hpl. }
  assert (forall idx node hw, kt_nodes tree !! idx = Some node -> kn_hardware_key_id node = Some hw -> hw ∈ spec_keys spec) as Hin.
  { intros idx node hw. rewrite (loaded_nodes _ _ _ HL), list_lookup_imap. intros (row & Hrow & ->)%fmap_Some. simpl.
    apply list_elem_of_lookup_2 in Hrow. rewrite ERows in Hrow. intros Eh; by eapply plan_hardware. }
  apply (plain_presented _ _ default_custody); [|done|done|done]. split.
  - intros idx node hw Hn Hh. rewrite Eg, Ed. eauto.
  - intros i i' n n' hw hw' Hn Hh Hn' Hh'. rewrite !Ed. eauto.
Qed.

(** A value that comes back is the secret, whatever devices and policy there are. *)
Lemma reconstructed_secret label secret spec st key_id st' raw_shares now value :
  store_ok st -> secret <> [] -> KeyTree.split rnd entropy label secret spec st = (Ok key_id, st') -> unsealed st' raw_shares ->
  st_nodes now = st_nodes st' -> st_bridges now = st_bridges st' ->
  reconstruct now key_id raw_shares = Ok value -> value = secret.
Proof.
  intros HO Hne HS HU En Eb. destruct (split_holds _ _ _ _ _ _ _ HO HS HU) as (tree & EL & HL & Hd & HH).
  intros (p & (tree' & EL' & ([x leaves] & ER & (devices & _ & [= <-])%bind_Ok)%bind_Ok)%bind_Ok & [= <-])%bind_Ok.
  assert (tree' = tree) as ->.
  { revert EL EL'. unfold load, bridges_of, rows_of. rewrite En, Eb. congruence. }
  simpl. by eapply holds_sound.
Qed.

(** C4: A secret split over any valid specification and reconstructed through
    the database from shares unsealed from the rows written comes back exactly
    when the leaves presented meet the thresholds of the specification at every
    level, and the answer is [QuorumNotMet] otherwise, as long as no leaf is a
    ghost and no two of the keys share a device. *)
Theorem split_reconstruct_roundtrip label secret spec st key_id st' raw_shares :
  store_ok st -> secret <> [] -> KeyTree.split rnd entropy label secret spec st = (Ok key_id, st') -> unsealed st' raw_shares -> apart st spec ->
  reconstruct st' key_id raw_shares =
    if quorum (presented_labels (rows_of key_id st') raw_shares) spec then Ok secret else Err QuorumNotMet.
Proof. apply split_reconstructs. Qed.

(** C6: Reconstruction never gives a wrong secret: whatever custody policy,
    device placements, ghosts and revocations the database has come to hold, as
    long as the rows of the split are in place, a value reconstructed from shares
    unsealed from them is the secret that was split. *)
Theorem reconstruct_never_wrong label secret spec st key_id st' raw_shares now value :
  store_ok st -> secret <> [] -> KeyTree.split rnd entropy label secret spec st = (Ok key_id, st') -> unsealed st' raw_shares ->
  st_nodes now = st_nodes st' -> st_bridges now = st_bridges st' ->
  reconstruct now key_id raw_shares = Ok value -> value = secret.
Proof. apply reconstructed_secret. Qed.
End round_trip.

(** ** A small tree *)

Module SplitDemo.
(** Three cards on devices of their own. *)
Definition store : Store :=
  set_placements {[1 := (repeat x2a 16, str "A"); 2 := (repeat x2b 16, str "B"); 3 := (repeat x2c 16, str "C")]} (CardDemo.store 1 Hardware).
Definition spec : NodeSpec :=
  Split (str "root") 2 [Leaf (str "ann") 1 [str "bob"]; Leaf (str "bob") 2 []; Split (str "team") 1 [Leaf (str "cat") 3 []] []] [].
Definition secret : bytes := str "secret".
Definition run := KeyTree.split (C := Toy.toy) (SH := ToyShamir.toy) id (fun _ => []) (str "vault") secret spec store.
Definition key_id : nat := Eval vm_compute in match run.1 with Ok k => k | Err _ => 0 end.
Definition after : Store := run.2.
Definition share_of (id : nat) : bytes :=
  match first_row (fun r => bool_decide (nr_id r = id)) (st_nodes after) with Some row => drop SEALBYTES (default [] (nr_share row)) | None => [] end.
(** The shares of ann and cat: rows 2 and 5. *)
Definition raw_shares : gmap nat bytes := {[2 := share_of 2; 5 := share_of 5]}.

Lemma run_Ok : run = (Ok key_id, after).
Proof. vm_compute. reflexivity. Defined.
Lemma store_is_ok : store_ok store.
Proof. split; [constructor|intros row H; inversion H|intros row p H; inversion H|intros b H; inversion H]. Defined.
Lemma shares_unsealed : unsealed (C := Toy.toy) after raw_shares.
Proof.
  intros id s Hs. unfold raw_shares in Hs. apply lookup_insert_Some in Hs as [[<- <-]|[_ [<- <-]%lookup_singleton_Some]].
  - exists (hk_public_key (CardDemo.hw 1 [])). vm_compute. reflexivity.
  - exists (hk_public_key (CardDemo.hw 3 [])). vm_compute. reflexivity.
Defined.
Lemma keys_apart : apart (C := Toy.toy) store spec.
Proof.
  assert (Forall (fun hw => leaf_is_ghost hw store = false /\ is_Some (device_of (C := Toy.toy) store hw)) (spec_keys spec)) as HF
    by (repeat constructor; vm_compute; eauto).
  split; [rewrite Forall_forall in HF; exact HF|].
  intros hw hw' Hh Hh'. apply list_elem_of_In in Hh, Hh'. destruct Hh as [<-|[<-|[<-|[]]]], Hh' as [<-|[<-|[<-|[]]]]; vm_compute; congruence.
Defined.
End SplitDemo.

(** Ann's card and the card of the team: a quorum. *)
Lemma split_reconstruct_roundtrip_witness :
  reconstruct (C := Toy.toy) (SH := ToyShamir.toy) SplitDemo.after SplitDemo.key_id SplitDemo.raw_shares = Ok SplitDemo.secret.
Proof.
  rewrite (split_reconstruct_roundtrip (C := Toy.toy) (SH := ToyShamir.toy) (ShamirLaws0 := ToyShamir.toy_laws) (CryptoLaws0 := Toy.toy_laws)
    id (fun _ => []) (str "vault") SplitDemo.secret SplitDemo.spec SplitDemo.store SplitDemo.key_id SplitDemo.after SplitDemo.raw_shares).
  - vm_compute. reflexivity.
  - exact SplitDemo.store_is_ok.
  - discriminate.
  - exact SplitDemo.run_Ok.
  - exact SplitDemo.shares_unsealed.
  - exact SplitDemo.keys_apart.
Defined.

(** Under a policy of two devices, set after the split. *)
Lemma reconstruct_never_wrong_witness :
  exists now value,
    now = (set_custody_policy SplitDemo.key_id {| cp_mode := Hardware; cp_minimum_physical_devices := 2; cp_unlock_approval := NoApproval |} SplitDemo.after).2 /\
    reconstruct (C := Toy.toy) (SH := ToyShamir.toy) now SplitDemo.key_id SplitDemo.raw_shares = Ok value /\ value = SplitDemo.secret.
Proof.
  eexists _, SplitDemo.secret. split; [reflexivity|].
  match goal with |- ?r = Ok _ /\ _ => assert (r = Ok SplitDemo.secret) as E end.
  { unfold reconstruct, reconstruct_presented. vm_compute. reflexivity. }
  split; [exact E|].
  eapply (reconstruct_never_wrong (C := Toy.toy) (SH := ToyShamir.toy) (ShamirLaws0 := ToyShamir.toy_laws) (CryptoLaws0 := Toy.toy_laws)
    id (fun _ => []) (str "vault") SplitDemo.secret SplitDemo.spec SplitDemo.store SplitDemo.key_id SplitDemo.after SplitDemo.raw_shares);
    [exact SplitDemo.store_is_ok|discriminate|exact SplitDemo.run_Ok|exact SplitDemo.shares_unsealed|reflexivity|reflexivity|exact E].
Defined.

Lemma reconstruct_presented_custody_witness :
  exists p, reconstruct_presented (C := Toy.toy) (SH := ToyShamir.toy) SplitDemo.after SplitDemo.key_id SplitDemo.raw_shares = Ok p /\
    custody_met (C := Toy.toy) SplitDemo.after default_custody (pr_leaves p) /\ map ul_leaf_label (pr_leaves p) = [str "ann"; str "cat"].
Proof.
  destruct (reconstruct_presented (C := Toy.toy) (SH := ToyShamir.toy) SplitDemo.after SplitDemo.key_id SplitDemo.raw_shares) as [p|e] eqn:E;
    [|vm_compute in E; discriminate].
  exists p. split; [reflexivity|].
  destruct (reconstruct_presented_custody (C := Toy.toy) (SH := ToyShamir.toy) SplitDemo.after SplitDemo.key_id SplitDemo.raw_shares p) as ((policy & EP & HM) & _).
  - apply (bool_decide_unpack _). vm_compute. exact I.
  - exact E.
  - vm_compute in EP. injection EP as <-. split; [exact HM|]. vm_compute in E. injection E as <-. reflexivity.
Defined.
