(* ===== verification/BridgePackage.v ===== *)
(** * The packages of private bridges ([src/src/private_bridge.rs])

    Rosters, the sealed [KQPB] package every party of a bridge is sent, the
    preimage that authenticates an update, and the packages of a roster change. *)

From S2P Require Import Prelude Text Crypto BTree Envelope HistoryCodec Authority Signing BridgeProof Tables.

Definition KIND_INVITE : byte := x01.
Definition KIND_ROTATE : byte := x02.
Definition KIND_DESTROY : byte := x03.
Definition KIND_SUPERVISOR : byte := x04.

Definition UPDATE_DOMAIN : bytes := str "KQBRIDGE-UPDATE-v1".

Definition role_to_u8 (r : PartyRole) : byte := match r with Member => x01 | Supervisor => x02 end.
Definition role_from_u8 (v : byte) : result PartyRole :=
  match v with x01 => Ok Member | x02 => Ok Supervisor | _ => Err InvalidBridgePackage end.

(** [BTreeSet<String>] collected into a [Vec]: the labels in order, once each. *)
Definition notify_labels (member_labels : list bytes) : list bytes :=
  bt_keys (foldl (fun out label =>
    let out := bt_insert label tt out in
    match parent_node_label label with Some parent => bt_insert parent tt out | None => out end) [] member_labels).

Record MemberKeys := { mk_encryption : bytes; mk_signing : bytes }.
#[export] Instance MemberKeys_eq_dec : EqDecision MemberKeys.
Proof. solve_decision. Defined.

Record DeliveryPackage := {
  dp_label : bytes;
  dp_role : PartyRole;
  dp_recipient_public_key : bytes;
  dp_bytes : bytes;
}.

(** What a package tells its recipient. *)
Record PackageFields := {
  pf_kind : byte;
  pf_uid : bytes;
  pf_generation : N;
  pf_bridge_label : bytes;
  pf_public_key : bytes;
  pf_salt : bytes;
  pf_recipient_label : bytes;
  pf_recipient_public_key : bytes;
  pf_role : PartyRole;
  pf_members : btree MemberKeys;
  pf_supervisors : btree bytes;
  pf_removed_label : bytes;
  pf_wrap_salt : option bytes;
  pf_secret : option bytes;
}.

(** [DecodedPackage]: the fields and the authentication that came with them. *)
Record DecodedPackage := { dc_fields : PackageFields; dc_auth_sig : option bytes }.

Definition push_member (entry : bytes * MemberKeys) : result bytes :=
  label ← push_len_prefixed entry.1; Ok (label ++ mk_encryption entry.2 ++ mk_signing entry.2).
Definition push_party (entry : bytes * bytes) : result bytes :=
  label ← push_len_prefixed entry.1; Ok (label ++ entry.2).

Definition push_member_map (m : btree MemberKeys) : result bytes :=
  n ← try_u16 (length m); body ← encode_all push_member m; Ok (be_bytes 2 n ++ body).
Definition push_party_map (m : btree bytes) : result bytes :=
  n ← try_u16 (length m); body ← encode_all push_party m; Ok (be_bytes 2 n ++ body).

Section codec.
Context `{C : Crypto}.

Definition take_member : parser (bytes * MemberKeys) :=
  label ← take_label;
  encryption ← take_array 32;
  signing ← take_array 32;
  if negb (ed25519_key_ok signing) then fail InvalidBridgePackage
  else mret (label, {| mk_encryption := encryption; mk_signing := signing |}).
Definition take_party : parser (bytes * bytes) := label ← take_label; pk ← take_array 32; mret (label, pk).

Definition take_member_map : parser (btree MemberKeys) :=
  n ← take_array 2; l ← repeat_parser (N.to_nat (of_be n)) take_member; mret (bt_of_list l []).
Definition take_party_map : parser (btree bytes) :=
  n ← take_array 2; l ← repeat_parser (N.to_nat (of_be n)) take_party; mret (bt_of_list l []).

(** What [update_auth_preimage] hashes for one roster entry. *)
Definition hash_entry {V} (enc : V -> bytes) (entry : bytes * V) : result bytes :=
  if bool_decide (entry.1 = []) then Err InvalidBridgePackage else
  label ← hash_len_prefixed entry.1; Ok (label ++ enc entry.2).

Definition update_auth_message (f : PackageFields) : result bytes :=
  uid ← hash_len_prefixed (pf_uid f);
  recipient ← hash_len_prefixed (pf_recipient_label f);
  removed ← hash_len_prefixed (pf_removed_label f);
  members_len ← try_u16 (length (pf_members f));
  members ← encode_all (hash_entry (fun keys => mk_encryption keys ++ mk_signing keys)) (pf_members f);
  supervisors_len ← try_u16 (length (pf_supervisors f));
  supervisors ← encode_all (hash_entry (fun pk => pk)) (pf_supervisors f);
  Ok (UPDATE_DOMAIN ++ uid ++ u32_be (pf_generation f) ++ [pf_kind f] ++ pf_public_key f ++ pf_salt f ++ recipient ++ removed ++
      be_bytes 2 members_len ++ members ++ be_bytes 2 supervisors_len ++ supervisors).
Definition update_auth_preimage (f : PackageFields) : result bytes := m ← update_auth_message f; Ok (sha256 m).

(** The tag and, where both are there, the wrap salt and the secret. *)
Definition push_secret (wrap_salt secret : option bytes) : bytes :=
  match wrap_salt, secret with
  | Some wrap, Some secret => x01 :: wrap ++ secret
  | None, Some _ => [x01]
  | _, None => [x00]
  end.
Definition push_auth (f : PackageFields) (old_signing : option bytes) : result bytes :=
  match old_signing with
  | Some signing_key => preimage ← update_auth_preimage f; Ok (x01 :: sign signing_key preimage)
  | None => Ok [x00]
  end.

Definition encode_payload (f : PackageFields) (old_signing : option bytes) : result bytes :=
  uid ← push_len_prefixed (pf_uid f);
  bridge_label ← push_len_prefixed (pf_bridge_label f);
  recipient ← push_len_prefixed (pf_recipient_label f);
  members ← push_member_map (pf_members f);
  supervisors ← push_party_map (pf_supervisors f);
  removed ← push_len_prefixed (pf_removed_label f);
  auth ← push_auth f old_signing;
  Ok (uid ++ u32_be (pf_generation f) ++ bridge_label ++ pf_public_key f ++ pf_salt f ++ recipient ++ [role_to_u8 (pf_role f)] ++
      members ++ supervisors ++ removed ++ push_secret (pf_wrap_salt f) (pf_secret f) ++ auth).

Definition encode_package (rnd : bytes) (f : PackageFields) (old_signing : option bytes) : result bytes :=
  if is_weak_x25519_public_key (pf_recipient_public_key f) then Err InvalidPublicKey else
  payload ← encode_payload f old_signing;
  seal rnd PACKAGE (pf_kind f) (pf_recipient_public_key f) payload.

Definition take_secret : parser (option bytes * option bytes) :=
  has_secret ← take_u8;
  if bool_decide (has_secret = x00) then mret (None, None)
  else wrap ← take_array SALT_LEN; sk ← take_array 32; mret (Some wrap, Some sk).
Definition take_auth : parser (option bytes) :=
  has_auth ← take_u8;
  if bool_decide (has_auth = x00) then mret None else sig ← take_array 64; mret (Some sig).

Definition take_payload (kind : byte) (recipient_public_key : bytes) : parser DecodedPackage :=
  uid ← take_label;
  generation ← take_u32;
  bridge_label ← take_label;
  public_key ← take_array 32;
  salt ← take_array SALT_LEN;
  recipient_label ← take_label;
  tag ← take_u8;
  role ← lift (role_from_u8 tag);
  members ← take_member_map;
  supervisors ← take_party_map;
  removed_label ← take_label;
  secrets ← take_secret;
  auth_sig ← take_auth;
  mret {| dc_fields := {| pf_kind := kind; pf_uid := uid; pf_generation := generation; pf_bridge_label := bridge_label;
            pf_public_key := public_key; pf_salt := salt; pf_recipient_label := recipient_label;
            pf_recipient_public_key := recipient_public_key; pf_role := role; pf_members := members; pf_supervisors := supervisors;
            pf_removed_label := removed_label; pf_wrap_salt := secrets.1; pf_secret := secrets.2 |};
          dc_auth_sig := auth_sig |}.

Definition decode_package (data recipient_sk : bytes) : result DecodedPackage :=
  '(kind, recipient_public_key, payload) ← open_as PACKAGE data recipient_sk;
  '(decoded, rest) ← take_payload kind recipient_public_key payload;
  if negb (bool_decide (rest = [])) then Err InvalidBridgePackage else Ok decoded.
End codec.

(** ** What a package carries arrives *)

Section roundtrip.
Context `{C : Crypto}.

Definition member_wf (e : bytes * MemberKeys) : Prop :=
  text e.1 /\ fixed 32 (mk_encryption e.2) /\ fixed 32 (mk_signing e.2) /\ ed25519_key_ok (mk_signing e.2) = true.
Definition party_wf (e : bytes * bytes) : Prop := text e.1 /\ fixed 32 e.2.

Lemma member_codec : codec_ok member_wf push_member take_member.
Proof.
  split.
  - intros [label [enc sig]] b rest (Ht & He & Hs & Hk) E. unfold push_member in E. inv_ok; subst. unfold take_member. simpl in *.
    enc_dec. by rewrite Hk.
  - intros data [label [enc sig]] rest E. unfold take_member in E. inv_parser. destruct (ed25519_key_ok v1) eqn:Ek; [|done]. cbn [negb] in E. inv_parser.
    apply take_n_Ok in H0 as [-> He], H1 as [-> Hs]. canon H label_codec. simplify_eq. split; [done|]. unfold push_member. simpl. run_enc. close_enc.
Qed.

Lemma party_codec : codec_ok party_wf push_party take_party.
Proof.
  split.
  - intros [label pk] b rest (Ht & Hp) E. unfold push_party in E. inv_ok; subst. unfold take_party. simpl in *. enc_dec. done.
  - intros data [label pk] rest E. unfold take_party in E. inv_parser. apply take_n_Ok in H0 as [-> Hp]. canon H label_codec. simplify_eq.
    split; [done|]. unfold push_party. simpl. run_enc. close_enc.
Qed.

Lemma rt_count v rest : take_array 2 (be_bytes 2 v ++ rest) = Ok (be_bytes 2 v, rest).
Proof. apply rt_array, length_be_bytes. Qed.
#[local] Hint Resolve rt_count : kq.

Definition roster_wf {V} (wf : bytes * V -> Prop) (m : btree V) : Prop := bt_sorted m /\ Forall wf m.

Lemma rt_member_map m b rest : roster_wf member_wf m -> push_member_map m = Ok b -> take_member_map (b ++ rest) = Ok (m, rest).
Proof.
  intros [HS HF] E. unfold push_member_map in E. inv_ok; subst. unfold take_member_map. enc_dec.
  rewrite u16_count_back by done. erewrite parser_bind_eq by (by eapply (codec_repeat_roundtrip member_codec)). by rewrite bt_of_list_id.
Qed.

Lemma rt_party_map m b rest : roster_wf party_wf m -> push_party_map m = Ok b -> take_party_map (b ++ rest) = Ok (m, rest).
Proof.
  intros [HS HF] E. unfold push_party_map in E. inv_ok; subst. unfold take_party_map. enc_dec.
  rewrite u16_count_back by done. erewrite parser_bind_eq by (by eapply (codec_repeat_roundtrip party_codec)). by rewrite bt_of_list_id.
Qed.

Record package_wf (f : PackageFields) : Prop := {
  pwf_uid : text (pf_uid f);
  pwf_generation : (pf_generation f < u32_max)%N;
  pwf_bridge_label : text (pf_bridge_label f);
  pwf_public_key : fixed 32 (pf_public_key f);
  pwf_salt : fixed SALT_LEN (pf_salt f);
  pwf_recipient : text (pf_recipient_label f);
  pwf_members : roster_wf member_wf (pf_members f);
  pwf_supervisors : roster_wf party_wf (pf_supervisors f);
  pwf_removed : text (pf_removed_label f);
  pwf_secret : match pf_wrap_salt f, pf_secret f with
               | Some w, Some s => fixed SALT_LEN w /\ fixed 32 s
               | None, None => True
               | _, _ => False
               end;
}.

Lemma rt_secret w s rest :
  match w, s with Some w, Some s => fixed SALT_LEN w /\ fixed 32 s | None, None => True | _, _ => False end ->
  take_secret (push_secret w s ++ rest) = Ok ((w, s), rest).
Proof.
  destruct w as [w|], s as [s|]; try done. intros [Hw Hs]. unfold take_secret, push_secret. cbn [app].
  erewrite parser_bind_eq by done. rewrite bool_decide_false by done. enc_dec. done.
Qed.

Context `{!CryptoLaws C}.

(** The authentication a sender with [old_signing] puts on the fields. *)
Definition auth_of (f : PackageFields) (old_signing : option bytes) : option bytes :=
  match old_signing, update_auth_preimage f with Some sk, Ok preimage => Some (sign sk preimage) | _, _ => None end.

Lemma rt_auth f old a rest : push_auth f old = Ok a -> take_auth (a ++ rest) = Ok (auth_of f old, rest).
Proof.
  unfold push_auth, auth_of. destruct old as [sk|]; [|by intros [= <-]]. destruct (update_auth_preimage f) as [p|]; [|done]. intros [= <-].
  unfold take_auth. cbn [app]. erewrite parser_bind_eq by done. rewrite bool_decide_false by done.
  erewrite parser_bind_eq by (apply take_n_app, ed25519_sign_length). done.
Qed.

Lemma rt_role r rest : lift (role_from_u8 (role_to_u8 r)) rest = Ok (r, rest).
Proof. by destruct r. Qed.

Lemma payload_roundtrip f old payload rest :
  package_wf f -> encode_payload f old = Ok payload ->
  take_payload (pf_kind f) (pf_recipient_public_key f) (payload ++ rest) = Ok ({| dc_fields := f; dc_auth_sig := auth_of f old |}, rest).
Proof.
  intros [] E. unfold encode_payload in E. inv_ok; subst. unfold take_payload. enc_dec.
  erewrite parser_bind_eq by done. erewrite parser_bind_eq by apply rt_role.
  erewrite parser_bind_eq by (by apply rt_member_map). erewrite parser_bind_eq by (by apply rt_party_map). enc_dec.
  erewrite parser_bind_eq by (by apply rt_secret). erewrite parser_bind_eq by (by apply rt_auth). by destruct f.
Qed.

(** A package is opened by its recipient, who reads what was put in. *)
Lemma package_roundtrip rnd f old sk data :
  package_wf f -> pf_recipient_public_key f = box_public sk -> length (box_public sk) = 32 -> encode_package rnd f old = Ok data ->
  decode_package data sk = Ok {| dc_fields := f; dc_auth_sig := auth_of f old |}.
Proof.
  intros HW Epk Hl. unfold encode_package. destruct (is_weak_x25519_public_key _); [done|]. intros (payload & EP & ES)%bind_Ok.
  rewrite Epk in ES. unfold decode_package. rewrite (open_seal rnd PACKAGE (pf_kind f) sk payload data) by done. cbn [mbind result_bind].
  rewrite <- Epk, <- (app_nil_r payload). rewrite (payload_roundtrip f old) by done. cbn [mbind result_bind].
  by rewrite bool_decide_true by done.
Qed.
End roundtrip.
