(* ===== verification/PrivateBridge.v ===== *)
(** * [src/src/private_bridge.rs]: private sign bridges over the bridge tables

    Creating a bridge, importing packages, removing a member, the coordinator's
    drop, signing, verifying and approving. A plan is made without writing and
    committed later. The random draws of the source are arguments: [uid_salt],
    [salt] and [secret] of a new bridge, and per recipient [wrap] for the wrap salt
    of a package and [seal_rnd] for its box. *)

From S2P Require Import Prelude Text Crypto BTree Envelope HistoryCodec Authority Signing BridgeProof Tables KeyStore BridgePackage.

(** [..map(f).collect::<Result<Vec<_>>>()] *)
Fixpoint traverse {A B} (f : A -> result B) (l : list A) : result (list B) :=
  match l with [] => Ok [] | a :: l => b ← f a; bs ← traverse f l; Ok (b :: bs) end.

(** ** Summaries *)

Record BridgeParty := {
  bp_label : bytes;
  bp_encryption : bytes;
  bp_signing : option bytes;
  bp_role : PartyRole;
  bp_is_local : bool;
  bp_has_sealed_key : bool;
}.
Record BridgeSummary := {
  bu_uid : bytes;
  bu_key_id : option nat;
  bu_label : option bytes;
  bu_generation : N;
  bu_public_key : bytes;
  bu_salt : bytes;
  bu_destroyed : bool;
  bu_parties : list BridgeParty;
}.

Definition vec_to_32 (b : bytes) : result bytes := if length b =? 32 then Ok b else Err InvalidPublicKey.
Definition vec_to_salt (b : bytes) : result bytes := if length b =? SALT_LEN then Ok b else Err InvalidPublicKey.

(** [ORDER BY m.role, m.node_label] *)
Definition party_le (a b : PartyRow) : Prop :=
  match py_role a, py_role b with
  | Member, Supervisor => True
  | Supervisor, Member => False
  | _, _ => str_lt (py_label b) (py_label a) = false
  end.
#[export] Instance party_le_dec a b : Decision (party_le a b).
Proof. unfold party_le. destruct (py_role a), (py_role b); apply _. Defined.

Definition find_bridge (uid : bytes) (t : BridgeTables) : option BridgeRow :=
  first_row (fun row => bool_decide (br_uid row = uid)) (tb_bridges t).
Definition has_sealed (t : BridgeTables) (id : nat) (label : bytes) : bool :=
  existsb (fun s => bool_decide (sl_bridge_id s = id) && bool_decide (sl_label s = label)) (tb_sealed t).

Definition party_of_row (t : BridgeTables) (row : PartyRow) : result BridgeParty :=
  encryption ← vec_to_32 (py_encryption row);
  signing ← match py_signing row with Some s => s ← vec_to_32 s; Ok (Some s) | None => Ok None end;
  Ok {| bp_label := py_label row; bp_encryption := encryption; bp_signing := signing; bp_role := py_role row;
        bp_is_local := py_is_local row; bp_has_sealed_key := has_sealed t (py_bridge_id row) (py_label row) |}.

Definition parties_of (id : nat) (t : BridgeTables) : list PartyRow :=
  merge_sort party_le (filter (fun row => py_bridge_id row = id) (tb_parties t)).

Definition bridge_get (uid : bytes) (st : Store) : result BridgeSummary :=
  let t := st_private st in
  row ← ok_or (find_bridge uid t) BridgeNotFound;
  parties ← traverse (party_of_row t) (parties_of (br_id row) t);
  if negb (br_generation row <? u32_max)%N then Err InvalidBridgePackage else
  public_key ← vec_to_32 (br_public_key row);
  salt ← vec_to_salt (br_salt row);
  Ok {| bu_uid := uid; bu_key_id := br_key_id row; bu_label := br_label row; bu_generation := br_generation row;
        bu_public_key := public_key; bu_salt := salt; bu_destroyed := br_destroyed row; bu_parties := parties |}.

Definition last_bridge_id (uid : bytes) (st : Store) : result nat :=
  row ← ok_or (find_bridge uid (st_private st)) BridgeNotFound; Ok (br_id row).

(** ** Statements *)

Definition on_private (g : BridgeTables -> BridgeTables) : dbM unit := execute (fun st => set_private (g (st_private st)) st).

(** The constraints of [private_bridges]: unique uid, positive generation, a known key. *)
Definition insert_bridge (row : nat -> BridgeRow) : dbM nat := fun st =>
  let t := st_private st in
  let id := next_id br_id (tb_bridges t) in
  let r := row id in
  if existsb (fun b => bool_decide (br_uid b = br_uid r)) (tb_bridges t) || (br_generation r =? 0)%N
     || match br_key_id r with Some k => negb (existsb (fun key => bool_decide (ky_id key = k)) (st_keys st)) | None => false end
  then (Err Db, st) else (Ok id, set_private (set_tb_bridges (tb_bridges t ++ [r]) t) st).

(** The primary key of [private_bridge_members] and its check on roles. *)
Definition insert_party (row : PartyRow) : dbM unit := fun st =>
  let t := st_private st in
  if existsb (fun p => bool_decide (py_bridge_id p = py_bridge_id row) && bool_decide (py_label p = py_label row)) (tb_parties t)
     || negb match py_role row, py_signing row with Member, Some s => length s =? 32 | Supervisor, None => true | _, _ => false end
     || negb (existsb (fun b => bool_decide (br_id b = py_bridge_id row)) (tb_bridges t))
  then (Err Db, st) else (Ok tt, set_private (set_tb_parties (tb_parties t ++ [row]) t) st).

Definition insert_sealed (row : SealedRow) : dbM unit := fun st =>
  let t := st_private st in
  if has_sealed t (sl_bridge_id row) (sl_label row)
     || negb (existsb (fun p => bool_decide (py_bridge_id p = sl_bridge_id row) && bool_decide (py_label p = sl_label row)) (tb_parties t))
  then (Err Db, st) else (Ok tt, set_private (set_tb_sealed (tb_sealed t ++ [row]) t) st).

Definition insert_event (bridge_id : nat) (event_type : bytes) (detail : list (bytes * detail_value)) : dbM unit := fun st =>
  let t := st_private st in
  if negb (existsb (fun b => bool_decide (br_id b = bridge_id)) (tb_bridges t)) then (Err Db, st)
  else (Ok tt, set_private (set_tb_events (tb_events t ++
         [ {| be_bridge_id := bridge_id; be_event_type := event_type; be_detail := detail |} ]) t) st).

(** A sealed key goes with its party. *)
Definition delete_parties (P : PartyRow -> bool) : dbM unit := on_private (fun t =>
  let gone s := existsb (fun p => P p && bool_decide (py_bridge_id p = sl_bridge_id s) && bool_decide (py_label p = sl_label s)) (tb_parties t) in
  set_tb_sealed (filter (fun s => gone s = false) (tb_sealed t)) (set_tb_parties (filter (fun p => P p = false) (tb_parties t)) t)).
Definition delete_sealed (bridge_id : nat) : dbM unit := on_private (fun t =>
  set_tb_sealed (filter (fun s => sl_bridge_id s <> bridge_id) (tb_sealed t)) t).

(** The number of rows updated. *)
Definition update_bridges (P : BridgeRow -> bool) (g : BridgeRow -> BridgeRow) : dbM nat := fun st =>
  let t := st_private st in
  (Ok (length (filter (fun row => P row = true) (tb_bridges t))),
   set_private (set_tb_bridges (map (fun row => if P row then g row else row) (tb_bridges t)) t) st).

Definition set_destroyed (row : BridgeRow) : BridgeRow :=
  {| br_id := br_id row; br_uid := br_uid row; br_key_id := br_key_id row; br_label := br_label row; br_generation := br_generation row;
     br_public_key := br_public_key row; br_salt := br_salt row; br_destroyed := true |}.
Definition set_standard (generation : N) (public_key salt : bytes) (label : option bytes) (row : BridgeRow) : BridgeRow :=
  {| br_id := br_id row; br_uid := br_uid row; br_key_id := br_key_id row;
     br_label := match label with Some l => Some l | None => br_label row end; br_generation := generation;
     br_public_key := public_key; br_salt := salt; br_destroyed := br_destroyed row |}.
(** [uid = ? AND generation = ? AND destroyed_at IS NULL] *)
Definition live_at (uid : bytes) (generation : N) (row : BridgeRow) : bool :=
  bool_decide (br_uid row = uid) && (br_generation row =? generation)%N && negb (br_destroyed row).

(** ** Rosters *)

Record BridgePartyInput := { bi_label : bytes; bi_encryption : bytes; bi_signing : option bytes }.

Section rosters.
Context `{C : Crypto}.

Fixpoint unique_members_from (parties : list BridgePartyInput) (m : btree MemberKeys) : result (btree MemberKeys) :=
  match parties with
  | [] => Ok m
  | party :: parties =>
      if bool_decide (bi_label party = []) then Err InvalidBridge else
      if is_weak_x25519_public_key (bi_encryption party) then Err InvalidPublicKey else
      signing ← ok_or (bi_signing party) InvalidPublicKey;
      if negb (ed25519_key_ok signing) then Err InvalidPublicKey else
      if bt_contains (bi_label party) m then Err DuplicateNodeLabel
      else unique_members_from parties (bt_insert (bi_label party) {| mk_encryption := bi_encryption party; mk_signing := signing |} m)
  end.
Definition unique_members (parties : list BridgePartyInput) : result (btree MemberKeys) := unique_members_from parties [].

Fixpoint unique_supervisors_from (parties : list BridgePartyInput) (m : btree bytes) : result (btree bytes) :=
  match parties with
  | [] => Ok m
  | party :: parties =>
      if bool_decide (bi_label party = []) then Err InvalidBridge else
      if is_weak_x25519_public_key (bi_encryption party) then Err InvalidPublicKey else
      if bt_contains (bi_label party) m then Err DuplicateNodeLabel
      else unique_supervisors_from parties (bt_insert (bi_label party) (bi_encryption party) m)
  end.
Definition unique_supervisors (parties : list BridgePartyInput) : result (btree bytes) := unique_supervisors_from parties [].
End rosters.

(** A member's parent that is no member itself has to be a supervisor. *)
Definition parent_missing (members : btree MemberKeys) (supervisors : btree bytes) (member : bytes) : bool :=
  match parent_node_label member with
  | Some parent => negb (bt_contains parent members) && negb (bt_contains parent supervisors)
  | None => false
  end.
Definition fill_implied_supervisors (members : btree MemberKeys) (supervisors : btree bytes) : result (btree bytes) :=
  if existsb (parent_missing members supervisors) (bt_keys members) then Err NodeNotFound
  else Ok (filter (fun e => bt_contains e.1 members = false) supervisors).

(** [needed.contains(label)] *)
Definition parent_needed (members : btree MemberKeys) (label : bytes) : bool :=
  existsb (fun member => bool_decide (parent_node_label member = Some label) && negb (bt_contains label members)) (bt_keys members).
Definition supervisor_pubs_for (members : btree MemberKeys) (previous : list BridgeParty) : btree bytes :=
  foldl (fun out party => if parent_needed members (bp_label party) then bt_insert (bp_label party) (bp_encryption party) out else out) [] previous.

Definition is_member (p : BridgeParty) : bool := bool_decide (bp_role p = Member).
Fixpoint remaining_members (parties : list BridgeParty) (removed_label : bytes) (m : btree MemberKeys) : result (btree MemberKeys) :=
  match parties with
  | [] => Ok m
  | party :: parties =>
      if negb (is_member party) || bool_decide (bp_label party = removed_label) then remaining_members parties removed_label m else
      signing ← ok_or (bp_signing party) InvalidBridge;
      remaining_members parties removed_label (bt_insert (bp_label party) {| mk_encryption := bp_encryption party; mk_signing := signing |} m)
  end.

(** ** Plans and their packages *)

(** The standard of a bridge: what every party is told of it. *)
Record Standard := {
  sd_uid : bytes;
  sd_generation : N;
  sd_label : bytes;
  sd_public_key : bytes;
  sd_salt : bytes;
  sd_members : btree MemberKeys;
  sd_supervisors : btree bytes;
}.

Definition fields_for (s : Standard) (kind : byte) (removed_label label pk : bytes) (role : PartyRole) (wrap_salt secret : option bytes)
    : PackageFields :=
  {| pf_kind := kind; pf_uid := sd_uid s; pf_generation := sd_generation s; pf_bridge_label := sd_label s; pf_public_key := sd_public_key s;
     pf_salt := sd_salt s; pf_recipient_label := label; pf_recipient_public_key := pk; pf_role := role; pf_members := sd_members s;
     pf_supervisors := sd_supervisors s; pf_removed_label := removed_label; pf_wrap_salt := wrap_salt; pf_secret := secret |}.

Record CreatedBridge := { cb_uid : bytes; cb_generation : N; cb_public_key : bytes; cb_salt : bytes; cb_packages : list DeliveryPackage }.
Record PlannedCreation := {
  pc_created : CreatedBridge;
  pc_key_id : option nat;
  pc_label : option bytes;
  pc_members : btree MemberKeys;
  pc_supervisors : btree bytes;
  pc_local_label : option bytes;
  pc_secret : bytes;
}.

Record RemoveMemberOutcome := {
  ro_uid : bytes;
  ro_destroyed : bool;
  ro_remaining_members : list bytes;
  ro_packages : list DeliveryPackage;
}.
Inductive PlannedRemovalKind :=
| PlanDestroy (uid : bytes) (bridge_id : nat) (removed_label : bytes) (notify : list bytes) (expected_generation : N)
| PlanRotate (uid : bytes) (bridge_id : nat) (removed_label : bytes) (notify : list bytes) (local_label : bytes)
    (expected_generation new_generation : N) (new_public new_salt : bytes) (members : btree MemberKeys) (supervisors : btree bytes)
    (new_secret : bytes).
Record PlannedRemoval := { pl_outcome : RemoveMemberOutcome; pl_kind : PlannedRemovalKind }.

(** [summary.generation + 1] on [u32]. *)
Definition u32_succ (n : N) : N := ((n + 1) mod u32_max)%N.

Section plans.
Context `{C : Crypto} `{HX : Hex}.
Context (wrap seal_rnd : bytes -> bytes).

Definition package_for (s : Standard) (kind : byte) (removed_label label pk : bytes) (role : PartyRole) (wrap_salt secret old_signing : option bytes)
    : result DeliveryPackage :=
  data ← encode_package (seal_rnd label) (fields_for s kind removed_label label pk role wrap_salt secret) old_signing;
  Ok {| dp_label := label; dp_role := role; dp_recipient_public_key := pk; dp_bytes := data |}.

Definition packages_for_roster (s : Standard) (member_kind supervisor_kind : byte) (removed_label : bytes) (secret old_signing : option bytes)
    : result (list DeliveryPackage) :=
  to_members ← traverse (fun e => package_for s member_kind removed_label e.1 (mk_encryption e.2) Member
                                    (match secret with Some _ => Some (wrap e.1) | None => None end) secret old_signing) (sd_members s);
  to_supervisors ← traverse (fun e => package_for s supervisor_kind removed_label e.1 e.2 Supervisor None None old_signing) (sd_supervisors s);
  Ok (to_members ++ to_supervisors).

Definition destroy_package_for (s : Standard) (removed_label : bytes) (party : BridgeParty) (old_signing : bytes) : result DeliveryPackage :=
  package_for s KIND_DESTROY removed_label (bp_label party) (bp_encryption party) (bp_role party) None None (Some old_signing).

Definition plan_create (uid_salt salt secret : bytes) (key_id : option nat) (label : option bytes) (members supervisors : list BridgePartyInput)
    (local_label : option bytes) : result PlannedCreation :=
  members ← unique_members members;
  if length members <? 2 then Err TooFewBridgeMembers else
  supervisors ← unique_supervisors supervisors;
  supervisors ← fill_implied_supervisors members supervisors;
  if match local_label with Some l => negb (bt_contains l members) && negb (bt_contains l supervisors) | None => false end
  then Err NotBridgeMember else
  let s := {| sd_uid := hex_encode uid_salt; sd_generation := 1; sd_label := default [] label; sd_public_key := public_key secret;
              sd_salt := salt; sd_members := members; sd_supervisors := supervisors |} in
  packages ← packages_for_roster s KIND_INVITE KIND_SUPERVISOR [] (Some secret) None;
  Ok {| pc_created := {| cb_uid := sd_uid s; cb_generation := 1; cb_public_key := sd_public_key s; cb_salt := salt; cb_packages := packages |};
        pc_key_id := key_id; pc_label := label; pc_members := members; pc_supervisors := supervisors; pc_local_label := local_label;
        pc_secret := secret |}.

Definition load_sealed_key (uid local_label : bytes) (st : Store) : result SealedBridgeKey :=
  bridge_id ← last_bridge_id uid st;
  row ← ok_or (first_row (fun s => bool_decide (sl_bridge_id s = bridge_id) && bool_decide (sl_label s = local_label)) (tb_sealed (st_private st))) Db;
  wrap_salt ← vec_to_salt (sl_wrap_salt row);
  Ok {| sb_sealed := sl_wrapped row; sb_wrap_salt := wrap_salt |}.
Definition unseal_local_secret (uid local_label encryption_sk : bytes) (st : Store) : result bytes :=
  held ← load_sealed_key uid local_label st; unseal_bridge_secret (sb_sealed held) (sb_wrap_salt held) encryption_sk.

Definition summary_standard (summary : BridgeSummary) (members : btree MemberKeys) (supervisors : btree bytes) : Standard :=
  {| sd_uid := bu_uid summary; sd_generation := bu_generation summary; sd_label := default [] (bu_label summary);
     sd_public_key := bu_public_key summary; sd_salt := bu_salt summary; sd_members := members; sd_supervisors := supervisors |}.

(** [new_salt], [new_secret]: the fresh salt and signing key of a rotation. *)
Definition plan_remove_member (new_salt new_secret : bytes) (uid removed_label local_label encryption_sk : bytes) (st : Store)
    : result PlannedRemoval :=
  summary ← bridge_get uid st;
  if bu_destroyed summary then Err BridgeDestroyed else
  if bool_decide (local_label = removed_label) then Err InvalidBridge else
  local ← ok_or (snd <$> list_find (fun p => bp_label p = local_label /\ bp_role p = Member /\ bp_has_sealed_key p = true) (bu_parties summary))
            SealedKeyNotHeld;
  if negb (bool_decide (box_public encryption_sk = bp_encryption local)) then Err IntegrityCheckFailed else
  if negb (existsb (fun p => bool_decide (bp_label p = removed_label) && is_member p) (bu_parties summary)) then Err NotBridgeMember else
  secret ← unseal_local_secret uid local_label encryption_sk st;
  members ← remaining_members (bu_parties summary) removed_label [];
  let notify := notify_labels (map bp_label (filter (fun p => is_member p = true) (bu_parties summary))) in
  bridge_id ← last_bridge_id uid st;
  let supervisors := supervisor_pubs_for members (bu_parties summary) in
  let old := summary_standard summary members supervisors in
  if length members <? 2 then
    packages ← traverse (fun party => destroy_package_for old removed_label party secret) (bu_parties summary);
    Ok {| pl_outcome := {| ro_uid := uid; ro_destroyed := true; ro_remaining_members := bt_keys members; ro_packages := packages |};
          pl_kind := PlanDestroy uid bridge_id removed_label notify (bu_generation summary) |}
  else
    let new_public := public_key new_secret in
    let new_generation := u32_succ (bu_generation summary) in
    let new := {| sd_uid := uid; sd_generation := new_generation; sd_label := default [] (bu_label summary); sd_public_key := new_public;
                  sd_salt := new_salt; sd_members := members; sd_supervisors := supervisors |} in
    packages ← packages_for_roster new KIND_ROTATE KIND_SUPERVISOR removed_label (Some new_secret) (Some secret);
    dropped ← traverse (fun party => destroy_package_for old removed_label party secret)
                (filter (fun party => bt_contains (bp_label party) members || bt_contains (bp_label party) supervisors = false) (bu_parties summary));
    Ok {| pl_outcome := {| ro_uid := uid; ro_destroyed := false; ro_remaining_members := bt_keys members; ro_packages := packages ++ dropped |};
          pl_kind := PlanRotate uid bridge_id removed_label notify local_label (bu_generation summary) new_generation new_public new_salt
                       members supervisors new_secret |}.
End plans.

(** ** Writing a roster *)

Section writes.
Context `{C : Crypto} `{HX : Hex}.

Definition insert_member_parties (bridge_id : nat) (members : btree MemberKeys) (local_label : option bytes) : dbM unit :=
  db_each (fun e => insert_party {| py_bridge_id := bridge_id; py_label := e.1; py_encryption := mk_encryption e.2;
                                    py_signing := Some (mk_signing e.2); py_role := Member; py_is_local := bool_decide (local_label = Some e.1) |}) members.
Definition insert_supervisor_parties (bridge_id : nat) (supervisors : btree bytes) (local_label : option bytes) : dbM unit :=
  db_each (fun e => insert_party {| py_bridge_id := bridge_id; py_label := e.1; py_encryption := e.2;
                                    py_signing := None; py_role := Supervisor; py_is_local := bool_decide (local_label = Some e.1) |}) supervisors.

(** The salt and the box of the local copy. *)
Context (wrap_salt local_rnd : bytes).

Definition seal_local_if_member (bridge_id : nat) (local_label : bytes) (members : btree MemberKeys) (secret : bytes) : dbM unit :=
  match bt_get local_label members with
  | None => mret tt
  | Some keys =>
      wrapped ← db_try (seal_bridge_secret local_rnd (mk_encryption keys) wrap_salt secret);
      insert_sealed {| sl_bridge_id := bridge_id; sl_label := local_label; sl_wrap_salt := wrap_salt; sl_wrapped := wrapped |}
  end.

Definition persist_new_bridge (uid : bytes) (key_id : option nat) (label : option bytes) (generation : N) (public_key salt : bytes)
    (members : btree MemberKeys) (supervisors : btree bytes) (local_label : option bytes) (secret : bytes) : dbM unit :=
  bridge_id ← insert_bridge (fun id => {| br_id := id; br_uid := uid; br_key_id := key_id; br_label := label; br_generation := generation;
                                          br_public_key := public_key; br_salt := salt; br_destroyed := false |});
  _ ← insert_member_parties bridge_id members local_label;
  _ ← insert_supervisor_parties bridge_id supervisors local_label;
  seal_local_if_member bridge_id (default [] local_label) members secret.

Definition commit_planned_creation (planned : PlannedCreation) : dbM unit :=
  let created := pc_created planned in
  transaction (
    _ ← persist_new_bridge (cb_uid created) (pc_key_id planned) (pc_label planned) (cb_generation created) (cb_public_key created)
          (cb_salt created) (pc_members planned) (pc_supervisors planned) (pc_local_label planned) (pc_secret planned);
    bridge_id ← query (last_bridge_id (cb_uid created));
    insert_event bridge_id (str "created")
      [(str "uid", DText (cb_uid created)); (str "generation", DNumber (cb_generation created));
       (str "members", DList (bt_keys (pc_members planned))); (str "supervisors", DList (bt_keys (pc_supervisors planned)));
       (str "notify", DList (notify_labels (bt_keys (pc_members planned)))); (str "salt", DText (hex_encode (cb_salt created)))]).

Definition persist_rotation (uid : bytes) (bridge_id : nat) (expected_generation generation : N) (public_key salt : bytes)
    (members : btree MemberKeys) (supervisors : btree bytes) (local_label secret : bytes) : dbM unit :=
  updated ← update_bridges (live_at uid expected_generation) (set_standard generation public_key salt None);
  if negb (updated =? 1) then db_try (Err BridgeGenerationMismatch) else
  if (generation =? 0)%N then db_try (Err Db) else
  _ ← delete_parties (fun p => bool_decide (py_bridge_id p = bridge_id));
  _ ← insert_member_parties bridge_id members (Some local_label);
  _ ← insert_supervisor_parties bridge_id supervisors (Some local_label);
  _ ← delete_sealed bridge_id;
  seal_local_if_member bridge_id local_label members secret.

Definition commit_planned_removal (planned : PlannedRemoval) : dbM unit :=
  match pl_kind planned with
  | PlanDestroy uid bridge_id removed_label notify expected_generation => transaction (
      updated ← update_bridges (live_at uid expected_generation) set_destroyed;
      if negb (updated =? 1) then db_try (Err BridgeGenerationMismatch) else
      _ ← delete_sealed bridge_id;
      insert_event bridge_id (str "destroyed") [(str "uid", DText uid); (str "removed", DText removed_label); (str "notify", DList notify)])
  | PlanRotate uid bridge_id removed_label notify local_label expected_generation new_generation new_public new_salt members supervisors new_secret =>
    transaction (
      _ ← persist_rotation uid bridge_id expected_generation new_generation new_public new_salt members supervisors local_label new_secret;
      _ ← insert_event bridge_id (str "member_removed") [(str "uid", DText uid); (str "removed", DText removed_label); (str "notify", DList notify)];
      insert_event bridge_id (str "rotated")
        [(str "uid", DText uid); (str "generation", DNumber new_generation); (str "members", DList (bt_keys members));
         (str "supervisors", DList (bt_keys supervisors)); (str "salt", DText (hex_encode new_salt))])
  end.
End writes.

(** ** The public operations *)

Definition empty_to_none (s : bytes) : option bytes := if bool_decide (s = []) then None else Some s.
Definition role_as_str (r : PartyRole) : bytes := match r with Member => str "member" | Supervisor => str "supervisor" end.

Section operations.
Context `{C : Crypto} `{HX : Hex}.

Definition bridge_create (wrap seal_rnd : bytes -> bytes) (uid_salt salt secret wrap_salt local_rnd : bytes) (key_id : option nat)
    (label : option bytes) (members supervisors : list BridgePartyInput) (local_label : option bytes) : dbM CreatedBridge :=
  planned ← db_try (plan_create wrap seal_rnd uid_salt salt secret key_id label members supervisors local_label);
  _ ← commit_planned_creation wrap_salt local_rnd planned;
  mret (pc_created planned).

Definition remove_member (wrap seal_rnd : bytes -> bytes) (new_salt new_secret wrap_salt local_rnd : bytes)
    (uid removed_label local_label encryption_sk : bytes) : dbM RemoveMemberOutcome :=
  planned ← query (plan_remove_member wrap seal_rnd new_salt new_secret uid removed_label local_label encryption_sk);
  _ ← commit_planned_removal wrap_salt local_rnd planned;
  mret (pl_outcome planned).

Definition validate_decoded_recipient (f : PackageFields) : result unit :=
  match pf_role f with
  | Member => match bt_get (pf_recipient_label f) (pf_members f) with
              | Some keys => if bool_decide (mk_encryption keys = pf_recipient_public_key f) then Ok tt else Err InvalidBridgePackage
              | None => Err InvalidBridgePackage
              end
  | Supervisor => match bt_get (pf_recipient_label f) (pf_supervisors f) with
                  | Some pk => if bool_decide (pk = pf_recipient_public_key f) then Ok tt else Err InvalidBridgePackage
                  | None => Err InvalidBridgePackage
                  end
  end.

Definition verify_update_auth (decoded : DecodedPackage) (old_public : bytes) : result unit :=
  sig ← ok_or (dc_auth_sig decoded) InvalidBridgePackage;
  preimage ← update_auth_preimage (dc_fields decoded);
  verify_signature old_public preimage sig.

Section import.
Context (local_rnd : bytes).

Definition replace_roster_and_secret (bridge_id : nat) (f : PackageFields) : dbM unit :=
  _ ← insert_member_parties bridge_id (pf_members f) (Some (pf_recipient_label f));
  _ ← insert_supervisor_parties bridge_id (pf_supervisors f) (Some (pf_recipient_label f));
  match pf_wrap_salt f, pf_secret f, pf_role f with
  | Some wrap_salt, Some secret, Member =>
      wrapped ← db_try (seal_bridge_secret local_rnd (pf_recipient_public_key f) wrap_salt secret);
      insert_sealed {| sl_bridge_id := bridge_id; sl_label := pf_recipient_label f; sl_wrap_salt := wrap_salt; sl_wrapped := wrapped |}
  | _, _, _ => mret tt
  end.

Definition insert_from_invite (f : PackageFields) : dbM unit :=
  _ ← db_try (validate_decoded_recipient f);
  known ← query (fun st => Ok (find_bridge (pf_uid f) (st_private st)));
  if bool_decide (is_Some known) then db_try (Err InvalidBridge) else
  transaction (
    bridge_id ← insert_bridge (fun id => {| br_id := id; br_uid := pf_uid f; br_key_id := None; br_label := empty_to_none (pf_bridge_label f);
                                            br_generation := pf_generation f; br_public_key := pf_public_key f; br_salt := pf_salt f;
                                            br_destroyed := false |});
    _ ← replace_roster_and_secret bridge_id f;
    insert_event bridge_id (str "imported")
      [(str "uid", DText (pf_uid f)); (str "role", DText (role_as_str (pf_role f))); (str "node", DText (pf_recipient_label f));
       (str "generation", DNumber (pf_generation f))]).

Definition apply_rotate (decoded : DecodedPackage) : dbM unit :=
  let f := dc_fields decoded in
  _ ← db_try (validate_decoded_recipient f);
  summary ← query (bridge_get (pf_uid f));
  if bu_destroyed summary then db_try (Err BridgeDestroyed) else
  if negb (pf_generation f =? u32_succ (bu_generation summary))%N then db_try (Err BridgeGenerationMismatch) else
  _ ← db_try (verify_update_auth decoded (bu_public_key summary));
  bridge_id ← query (last_bridge_id (pf_uid f));
  transaction (
    updated ← update_bridges (live_at (pf_uid f) (bu_generation summary))
                (set_standard (pf_generation f) (pf_public_key f) (pf_salt f) (empty_to_none (pf_bridge_label f)));
    if negb (updated =? 1) then db_try (Err BridgeGenerationMismatch) else
    if (pf_generation f =? 0)%N then db_try (Err Db) else
    _ ← delete_parties (fun p => bool_decide (py_bridge_id p = bridge_id));
    _ ← delete_sealed bridge_id;
    _ ← replace_roster_and_secret bridge_id f;
    insert_event bridge_id (str "rotated")
      [(str "uid", DText (pf_uid f)); (str "generation", DNumber (pf_generation f)); (str "node", DText (pf_recipient_label f))]).

(** [uid = ? AND destroyed_at IS NULL] *)
Definition live (uid : bytes) (row : BridgeRow) : bool := bool_decide (br_uid row = uid) && negb (br_destroyed row).

Definition apply_destroy (decoded : DecodedPackage) : dbM unit :=
  let f := dc_fields decoded in
  summary ← query (bridge_get (pf_uid f));
  if bu_destroyed summary then mret tt else
  _ ← db_try (verify_update_auth decoded (bu_public_key summary));
  bridge_id ← query (last_bridge_id (pf_uid f));
  transaction (
    _ ← update_bridges (live (pf_uid f)) set_destroyed;
    _ ← delete_sealed bridge_id;
    insert_event bridge_id (str "destroyed") [(str "uid", DText (pf_uid f)); (str "node", DText (pf_recipient_label f))]).

Definition apply_package (decoded : DecodedPackage) : dbM unit :=
  let f := dc_fields decoded in
  if decide (pf_kind f = KIND_INVITE) then insert_from_invite f else
  if decide (pf_kind f = KIND_SUPERVISOR /\ pf_generation f = 1%N /\ dc_auth_sig decoded = None) then insert_from_invite f else
  if decide (pf_kind f = KIND_ROTATE \/ pf_kind f = KIND_SUPERVISOR) then apply_rotate decoded else
  if decide (pf_kind f = KIND_DESTROY) then apply_destroy decoded else db_try (Err InvalidBridgePackage).

Definition import_package (data recipient_secret : bytes) : dbM BridgeSummary :=
  let expected_pub := box_public recipient_secret in
  decoded ← db_try (decode_package data recipient_secret);
  if negb (bool_decide (pf_recipient_public_key (dc_fields decoded) = expected_pub)) then db_try (Err InvalidBridgePackage) else
  _ ← apply_package decoded;
  query (bridge_get (pf_uid (dc_fields decoded))).
End import.

(** ** The coordinator's drop *)

Inductive BridgeChangeKind := NeedsMemberRotate | Destroyed.
Record BridgeChange := {
  bc_uid : bytes;
  bc_removed_member : bytes;
  bc_remaining_members : list bytes;
  bc_notify : list bytes;
  bc_kind : BridgeChangeKind;
  bc_notice : bytes;
}.

Definition NOTICE_MAGIC : bytes := str "KQBN".
Definition NOTICE_VERSION : byte := x02.
Definition encode_notice (uid removed : bytes) (remaining notify : list bytes) (kind : BridgeChangeKind) : result bytes :=
  u ← push_len_prefixed uid;
  r ← push_len_prefixed removed;
  n ← try_u16 (length remaining);
  rs ← encode_all push_len_prefixed remaining;
  m ← try_u16 (length notify);
  ns ← encode_all push_len_prefixed notify;
  Ok (NOTICE_MAGIC ++ [NOTICE_VERSION; match kind with NeedsMemberRotate => x01 | Destroyed => x02 end] ++ u ++ r ++ be_bytes 2 n ++ rs ++
      be_bytes 2 m ++ ns).

Definition drop_member_on_coordinator (uid removed_label : bytes) : dbM (option BridgeChange) :=
  summary ← query (bridge_get uid);
  if bu_destroyed summary then mret None else
  let remaining := map bp_label (filter (fun p => is_member p = true /\ bp_label p <> removed_label) (bu_parties summary)) in
  let notify := notify_labels (map bp_label (filter (fun p => is_member p = true) (bu_parties summary))) in
  bridge_id ← query (last_bridge_id uid);
  let kind := if length remaining <? 2 then Destroyed else NeedsMemberRotate in
  let detail := [(str "uid", DText uid); (str "removed", DText removed_label); (str "notify", DList notify)] in
  _ ← transaction (
    _ ← delete_parties (fun p => bool_decide (py_bridge_id p = bridge_id) && bool_decide (py_label p = removed_label));
    match kind with
    | Destroyed =>
        _ ← update_bridges (fun row => bool_decide (br_uid row = uid)) set_destroyed;
        _ ← delete_sealed bridge_id;
        insert_event bridge_id (str "destroyed") detail
    | NeedsMemberRotate => insert_event bridge_id (str "member_removed") detail
    end);
  notice ← db_try (encode_notice uid removed_label remaining notify kind);
  mret (Some {| bc_uid := uid; bc_removed_member := removed_label; bc_remaining_members := remaining; bc_notify := notify; bc_kind := kind;
                bc_notice := notice |}).

Fixpoint drop_from_bridges (uids : list bytes) (node_label : bytes) : dbM (list BridgeChange) :=
  match uids with
  | [] => mret []
  | uid :: uids =>
      change ← drop_member_on_coordinator uid node_label;
      changes ← drop_from_bridges uids node_label;
      mret (match change with Some change => change :: changes | None => changes end)
  end.

(** The live bridges a label is a member of. *)
Definition member_uids (P : BridgeRow -> bool) (node_label : bytes) (t : BridgeTables) : list bytes :=
  map br_uid (filter (fun row => negb (br_destroyed row) && P row &&
    existsb (fun p => bool_decide (py_bridge_id p = br_id row) && bool_decide (py_label p = node_label) && bool_decide (py_role p = Member)) (tb_parties t)
      = true) (tb_bridges t)).

Definition on_leaf_removed (key_id : nat) (node_label : bytes) : dbM (list BridgeChange) :=
  uids ← query (fun st => Ok (member_uids (fun row => bool_decide (br_key_id row = Some key_id)) node_label (st_private st)));
  drop_from_bridges uids node_label.
Definition on_member_revoked (node_label : bytes) : dbM (list BridgeChange) :=
  uids ← query (fun st => Ok (member_uids (fun _ => true) node_label (st_private st)));
  drop_from_bridges uids node_label.

(** One roster per live bridge that has parties, every party on it. *)
Definition active_rosters (st : Store) : list (list bytes) :=
  let t := st_private st in
  filter (fun l => l <> []) (map (fun row =>
    merge_sort str_order (map py_label (filter (fun p => py_bridge_id p = br_id row) (tb_parties t))))
    (filter (fun row => br_destroyed row = false) (tb_bridges t))).

(** ** Signing with a bridge *)

Definition signing_public_for_label (label : bytes) (st : Store) : result bytes :=
  match active_keys_for label KeyStore.Signing st with
  | [key] => pk ← vec_to_32 (hk_public_key key); if ed25519_key_ok pk then Ok pk else Err InvalidPublicKey
  | [] => Err NodeNotFound
  | _ => Err InvalidBridge
  end.
Definition encryption_public_for_label (key_id : option nat) (label : bytes) (st : Store) : result bytes :=
  let leaf := key_id ≫= fun k =>
    row ← first_row (fun row => bool_decide (nr_key row = k) && bool_decide (nr_label row = label) && nr_active row &&
            match nr_hardware row with
            | Some hw => existsb (fun key => bool_decide (hk_id key = hw) && negb (hk_revoked key)) (st_hardware st)
            | None => false
            end) (st_nodes st);
    hw ← nr_hardware row;
    first_row (fun key => bool_decide (hk_id key = hw)) (st_hardware st) in
  match leaf with
  | Some key => vec_to_32 (hk_public_key key)
  | None =>
      match active_keys_for label Encryption st with
      | [key] => vec_to_32 (hk_public_key key)
      | [] => Err NodeNotFound
      | _ => Err InvalidBridge
      end
  end.

Definition registry_agrees (st : Store) (label roster_signing : bytes) : result unit :=
  match signing_public_for_label label st with
  | Ok local => if bool_decide (local = roster_signing) then Ok tt else Err IntegrityCheckFailed
  | Err NodeNotFound => Ok tt
  | Err e => Err e
  end.

Definition proof_members (summary : BridgeSummary) : list MemberFact :=
  map (fun p => {| mf_label := bp_label p; mf_signing_public := bp_signing p |}) (filter (fun p => is_member p = true) (bu_parties summary)).
Definition proof_facts (summary : BridgeSummary) (uid : bytes) : BridgeFacts :=
  {| bf_uid := uid; bf_generation := bu_generation summary; bf_salt := bu_salt summary; bf_bridge_public := bu_public_key summary;
     bf_destroyed := bu_destroyed summary; bf_members := proof_members summary |}.
Definition local_member (summary : BridgeSummary) (local_label : bytes) : LocalMember :=
  match list_find (fun p => bp_label p = local_label /\ bp_role p = Member) (bu_parties summary) with
  | Some (_, p) => {| lm_encryption_public := bp_encryption p; lm_holds_sealed_key := bp_has_sealed_key p |}
  | None => {| lm_encryption_public := replicate 32 x00; lm_holds_sealed_key := false |}
  end.

Definition sign_message (signature_salt uid local_label encryption_sk signing_sk message : bytes) (st : Store) : result BridgeSignature :=
  summary ← bridge_get uid st;
  prove_with signature_salt (proof_facts summary uid) local_label (local_member summary local_label) encryption_sk signing_sk message
    (registry_agrees st) (load_sealed_key uid local_label st).
Definition verify_message (uid verifier_label message : bytes) (artifact : BridgeSignature) (st : Store) : result unit :=
  summary ← bridge_get uid st;
  verify_with (proof_facts summary uid) verifier_label message artifact (registry_agrees st).

(** The labels the bridge joins: its members. *)
Definition verify_artifact (message : bytes) (artifact : BridgeSignature) (st : Store) : result (list bytes) :=
  summary ← bridge_get (bs_uid artifact) st;
  if bu_destroyed summary then Err BridgeDestroyed else
  if negb (bs_generation artifact =? bu_generation summary)%N || negb (bool_decide (bs_bridge_salt artifact = bu_salt summary))
  then Err BridgeGenerationMismatch else
  '(_, signer) ← ok_or (list_find (fun p => bp_role p = Member /\ bp_label p = bs_signer_label artifact) (bu_parties summary)) NotBridgeMember;
  roster_signing ← ok_or (bp_signing signer) InvalidBridge;
  _ ← registry_agrees st (bs_signer_label artifact) roster_signing;
  _ ← verify_bridge_signature artifact (bu_public_key summary) roster_signing message;
  Ok (map bp_label (filter (fun p => is_member p = true) (bu_parties summary))).

(** [INSERT OR REPLACE]: one artifact per revision and bridge. *)
Definition approve_revision (signature_salt uid local_label encryption_sk signing_sk revision_id message : bytes) : dbM unit :=
  artifact ← query (sign_message signature_salt uid local_label encryption_sk signing_sk message);
  data ← db_try (encode_bridge_signature artifact);
  on_private (fun t => set_tb_approvals (filter (fun a => (a.1.1, a.1.2) <> (revision_id, uid)) (tb_approvals t) ++ [(revision_id, uid, data)]) t).

Definition revision_approved (revision_id message : bytes) (reaches : list bytes -> bool) (st : Store) : bool :=
  existsb (fun a => match (artifact ← decode_bridge_signature a.2; verify_artifact message artifact st) with
                    | Ok parties => reaches parties
                    | Err _ => false
                    end) (filter (fun a => a.1.1 = revision_id) (tb_approvals (st_private st))).
End operations.
