(* ===== verification/BridgeRoster.v ===== *)
(** * Rosters in the bridge tables

    Writing a roster and reading it back: the party rows a roster becomes, that
    [bridge_get] shows them in the order of the roster, and what the statements of
    [PrivateBridge] leave alone. *)

From S2P Require Import Prelude Text Crypto BTree Envelope HistoryCodec Authority Signing BridgeProof Tables KeyStore BridgePackage PrivateBridge.

Definition role_fits (row : PartyRow) : Prop :=
  match py_role row, py_signing row with Member, Some s => length s = 32 | Supervisor, None => True | _, _ => False end.

(** The constraints of the schema: keys of the tables, references and the check on roles. *)
Record tables_ok (t : BridgeTables) : Prop := {
  ok_uids : NoDup (map br_uid (tb_bridges t));
  ok_ids : NoDup (map br_id (tb_bridges t));
  ok_parties p : p ∈ tb_parties t -> py_bridge_id p ∈ map br_id (tb_bridges t);
  ok_party_keys : NoDup (map (fun p => (py_bridge_id p, py_label p)) (tb_parties t));
  ok_roles p : p ∈ tb_parties t -> role_fits p;
  ok_sealed s : s ∈ tb_sealed t -> exists p, p ∈ tb_parties t /\ py_bridge_id p = sl_bridge_id s /\ py_label p = sl_label s;
  ok_sealed_keys : NoDup (map (fun s => (sl_bridge_id s, sl_label s)) (tb_sealed t));
}.

Lemma find_bridge_Some t uid row : find_bridge uid t = Some row -> row ∈ tb_bridges t /\ br_uid row = uid.
Proof. unfold find_bridge. intros [Hr E]%first_row_Some. by apply bool_decide_eq_true in E. Qed.

Lemma find_bridge_elem t row : tables_ok t -> row ∈ tb_bridges t -> find_bridge (br_uid row) t = Some row.
Proof. intros HT Hr. by apply (first_row_key br_uid); [apply HT|]. Qed.

Lemma next_id_fresh {A} (id : A -> nat) (table : list A) row : row ∈ table -> id row <> next_id id table.
Proof.
  intros Hr E. assert (id row <= max_list (map id table)) by by apply max_list_elem_of_le, list_elem_of_fmap_2. unfold next_id in E. lia.
Qed.

Lemma live_at_uid uid generation row : live_at uid generation row = true -> br_uid row = uid.
Proof. unfold live_at. intros [[H%bool_decide_eq_true _]%andb_true_iff _]%andb_true_iff. done. Qed.
Lemma live_uid uid row : live uid row = true -> br_uid row = uid.
Proof. unfold live. intros [H%bool_decide_eq_true _]%andb_true_iff. done. Qed.

(** ** A successful statement *)

Lemma set_private_id st : set_private (st_private st) st = st.
Proof. by destruct st. Qed.
Lemma set_private_twice t t' st : set_private t (set_private t' st) = set_private t st.
Proof. done. Qed.

Lemma insert_parties_Ok (rows : list PartyRow) id st :
  NoDup (map py_label rows) -> Forall (fun r => py_bridge_id r = id /\ role_fits r) rows ->
  (forall p, p ∈ tb_parties (st_private st) -> py_bridge_id p = id -> py_label p ∉ map py_label rows) ->
  id ∈ map br_id (tb_bridges (st_private st)) ->
  db_each insert_party rows st = (Ok tt, set_private (set_tb_parties (tb_parties (st_private st) ++ rows) (st_private st)) st).
Proof.
  intros HN HF. revert st; induction rows as [|row rows IH]; intros st Hfree Hid.
  { simpl. rewrite app_nil_r. by destruct st as [????????[]]. }
  apply NoDup_cons in HN as [Hx HN]. apply Forall_cons in HF as [[Er Hr] HF]. cbn [db_each].
  assert (insert_party row st = (Ok tt, set_private (set_tb_parties (tb_parties (st_private st) ++ [row]) (st_private st)) st)) as E.
  { unfold insert_party. destruct (existsb _ (tb_parties (st_private st))) eqn:B1.
    { apply existsb_exists in B1 as (p & Hp%list_elem_of_In & [B%bool_decide_eq_true B'%bool_decide_eq_true]%andb_true_iff). exfalso.
      eapply (Hfree p Hp); [congruence|]. rewrite B'. simpl. left. }
    destruct (negb match py_role row with Member => _ | Supervisor => _ end) eqn:B2.
    { unfold role_fits in Hr. destruct (py_role row), (py_signing row); try done. rewrite Hr in B2. done. }
    destruct (existsb _ (tb_bridges (st_private st))) eqn:B3; [done|]. exfalso.
    apply list_elem_of_fmap in Hid as (b & Eb & Hb). rewrite existsb_false in B3. specialize (B3 b Hb). simpl in B3.
    rewrite bool_decide_true in B3 by congruence. done. }
  rewrite (dbM_step _ _ _ _ _ E). rewrite IH; [|done|done| |done].
  - cbn [st_private set_private tb_parties set_tb_parties]. by rewrite <- app_assoc.
  - cbn [st_private set_private tb_parties set_tb_parties]. intros p [Hp| ->%list_elem_of_singleton]%elem_of_app Ep.
    + specialize (Hfree p Hp Ep). simpl in Hfree. set_solver.
    + done.
Qed.

(** ** The rows of a roster *)

Definition member_row (id : nat) (local : option bytes) (e : bytes * MemberKeys) : PartyRow :=
  {| py_bridge_id := id; py_label := e.1; py_encryption := mk_encryption e.2; py_signing := Some (mk_signing e.2); py_role := Member;
     py_is_local := bool_decide (local = Some e.1) |}.
Definition supervisor_row (id : nat) (local : option bytes) (e : bytes * bytes) : PartyRow :=
  {| py_bridge_id := id; py_label := e.1; py_encryption := e.2; py_signing := None; py_role := Supervisor;
     py_is_local := bool_decide (local = Some e.1) |}.
Definition roster_rows (id : nat) (local : option bytes) (members : btree MemberKeys) (supervisors : btree bytes) : list PartyRow :=
  map (member_row id local) members ++ map (supervisor_row id local) supervisors.

(** Both lists in order, nobody on both, keys of their width. *)
Record roster_ok (members : btree MemberKeys) (supervisors : btree bytes) : Prop := {
  ro_members : bt_sorted members;
  ro_supervisors : bt_sorted supervisors;
  ro_disjoint k : k ∈ bt_keys members -> k ∉ bt_keys supervisors;
  ro_member_widths e : e ∈ members -> fixed 32 (mk_encryption e.2) /\ fixed 32 (mk_signing e.2);
  ro_supervisor_widths e : e ∈ supervisors -> fixed 32 e.2;
}.

Lemma roster_labels id local members supervisors : map py_label (roster_rows id local members supervisors) = bt_keys members ++ bt_keys supervisors.
Proof. unfold roster_rows, bt_keys. rewrite map_app, !map_map. done. Qed.

Lemma roster_NoDup id local members supervisors : roster_ok members supervisors -> NoDup (map py_label (roster_rows id local members supervisors)).
Proof.
  intros HR. rewrite roster_labels. apply NoDup_app. split; [by apply bt_sorted_keys, HR|]. split; [apply HR|by apply bt_sorted_keys, HR].
Qed.

Lemma roster_row_id id local members supervisors p : p ∈ roster_rows id local members supervisors -> py_bridge_id p = id.
Proof. intros [(e & -> & _)%list_elem_of_fmap|(e & -> & _)%list_elem_of_fmap]%elem_of_app; done. Qed.

Lemma roster_fits id local members supervisors : roster_ok members supervisors ->
  Forall (fun r => py_bridge_id r = id /\ role_fits r) (roster_rows id local members supervisors).
Proof.
  intros HR. apply Forall_forall. intros p [(e & -> & He)%list_elem_of_fmap|(e & -> & He)%list_elem_of_fmap]%elem_of_app; (split; [done|]).
  - by apply (ro_member_widths _ _ HR).
  - done.
Qed.

(** Inserting both lists is inserting the rows. *)
Lemma insert_roster_Ok id local members supervisors st :
  roster_ok members supervisors -> id ∈ map br_id (tb_bridges (st_private st)) ->
  (forall p, p ∈ tb_parties (st_private st) -> py_bridge_id p <> id) ->
  (_ ← insert_member_parties id members local; insert_supervisor_parties id supervisors local) st =
  (Ok tt, set_private (set_tb_parties (tb_parties (st_private st) ++ roster_rows id local members supervisors) (st_private st)) st).
Proof.
  intros HR Hid Hfree. pose proof (roster_NoDup id local _ _ HR) as HN. pose proof (roster_fits id local _ _ HR) as HF.
  unfold roster_rows in *. rewrite map_app in HN. apply NoDup_app in HN as (HN1 & HN12 & HN2). apply Forall_app in HF as [HF1 HF2].
  unfold insert_member_parties, insert_supervisor_parties.
  erewrite dbM_step; cycle 1.
  { etransitivity; [exact (db_each_map (member_row id local) insert_party members st)|].
    eapply insert_parties_Ok; [exact HN1|exact HF1|intros p Hp Ep; by destruct (Hfree p Hp)|done]. }
  etransitivity; [exact (db_each_map (supervisor_row id local) insert_party supervisors _)|].
  erewrite insert_parties_Ok; [|exact HN2|exact HF2| |done].
  - cbn [st_private set_private tb_parties set_tb_parties]. by rewrite <- app_assoc.
  - cbn [st_private set_private tb_parties set_tb_parties]. intros p [Hp|Hp]%elem_of_app Ep; [by destruct (Hfree p Hp)|].
    apply HN12. by apply list_elem_of_fmap_2.
Qed.

(** ** Reading a roster back *)

#[export] Instance party_le_trans : Transitive party_le.
Proof.
  intros a b c. unfold party_le. destruct (py_role a), (py_role b), (py_role c); try done; intros H1 H2;
    (destruct (str_lt (py_label c) (py_label a)) eqn:E; [|done]);
    (destruct (str_lt_total (py_label a) (py_label b)) as [Hab|[Hab|Hab]]; [congruence| |congruence]);
    (pose proof (str_lt_trans _ _ _ E Hab); congruence).
Qed.
#[export] Instance party_le_total : Total party_le.
Proof.
  intros a b. unfold party_le. destruct (py_role a), (py_role b); auto;
    (destruct (str_lt (py_label b) (py_label a)) eqn:E; [right; by apply str_lt_asym|by left]).
Qed.

Lemma StronglySorted_map {A B} (R : A -> A -> Prop) (S : B -> B -> Prop) (f : A -> B) l :
  (forall a b, R a b -> S (f a) (f b)) -> StronglySorted R l -> StronglySorted S (map f l).
Proof.
  intros HRS. induction 1 as [|a l HS IH HF]; constructor; [done|]. apply Forall_forall. intros b (x & -> & Hx)%list_elem_of_fmap.
  rewrite Forall_forall in HF. auto.
Qed.

(** The rows of a roster are in the order of the query. *)
Lemma roster_sorted id local members supervisors : roster_ok members supervisors -> Sorted party_le (roster_rows id local members supervisors).
Proof.
  intros HR. apply StronglySorted_Sorted. unfold roster_rows. apply StronglySorted_app. split_and!.
  - intros a b (e & -> & _)%list_elem_of_fmap (e' & -> & _)%list_elem_of_fmap. done.
  - eapply StronglySorted_map; [|apply HR]. intros a b H. by apply str_lt_asym.
  - eapply StronglySorted_map; [|apply HR]. intros a b H. by apply str_lt_asym.
Qed.

Lemma merge_sort_sorted rows : NoDup (map py_label rows) -> Sorted party_le rows -> merge_sort party_le rows = rows.
Proof.
  intros HN HS. apply (Sorted_unique_strong party_le); [|apply (Sorted_merge_sort party_le)|done|apply merge_sort_Permutation].
  intros a b Ha Hb H1 H2. rewrite merge_sort_Permutation in Ha. apply (NoDup_map_eq py_label rows); [done..|].
  unfold party_le in H1, H2. destruct (py_role a), (py_role b); try done;
    (destruct (str_lt_total (py_label a) (py_label b)) as [?|[?|?]]; [done|congruence|congruence]).
Qed.

Lemma filter_all {A} (P : A -> Prop) `{!forall x, Decision (P x)} l : Forall P l -> filter P l = l.
Proof. induction 1 as [|x l Hx HF IH]; [done|]. rewrite filter_cons_True by done. by rewrite IH. Qed.
Lemma filter_none {A} (P : A -> Prop) `{!forall x, Decision (P x)} l : Forall (fun x => ~ P x) l -> filter P l = [].
Proof. induction 1 as [|x l Hx HF IH]; [done|]. by rewrite filter_cons_False. Qed.

(** A roster written for a bridge without parties is what is read. *)
Lemma parties_of_roster id local members supervisors before t :
  roster_ok members supervisors -> (forall p, p ∈ before -> py_bridge_id p <> id) ->
  tb_parties t = before ++ roster_rows id local members supervisors ->
  parties_of id t = roster_rows id local members supervisors.
Proof.
  intros HR Hb E. unfold parties_of. rewrite E, filter_app, filter_none, filter_all; simpl.
  - apply merge_sort_sorted; [by apply roster_NoDup|by apply roster_sorted].
  - apply Forall_forall. intros p Hp. by eapply roster_row_id.
  - by apply Forall_forall.
Qed.

(** The parties a summary shows for a roster. *)
Definition shown_member (local : option bytes) (sealed : bytes -> bool) (e : bytes * MemberKeys) : BridgeParty :=
  {| bp_label := e.1; bp_encryption := mk_encryption e.2; bp_signing := Some (mk_signing e.2); bp_role := Member;
     bp_is_local := bool_decide (local = Some e.1); bp_has_sealed_key := sealed e.1 |}.
Definition shown_supervisor (local : option bytes) (sealed : bytes -> bool) (e : bytes * bytes) : BridgeParty :=
  {| bp_label := e.1; bp_encryption := e.2; bp_signing := None; bp_role := Supervisor;
     bp_is_local := bool_decide (local = Some e.1); bp_has_sealed_key := sealed e.1 |}.
Definition shown (local : option bytes) (sealed : bytes -> bool) (members : btree MemberKeys) (supervisors : btree bytes) : list BridgeParty :=
  map (shown_member local sealed) members ++ map (shown_supervisor local sealed) supervisors.

Lemma shown_ext local sealed sealed' members supervisors : (forall l, sealed l = sealed' l) ->
  shown local sealed members supervisors = shown local sealed' members supervisors.
Proof. intros E. unfold shown. f_equal; apply map_ext; intros e; unfold shown_member, shown_supervisor; by rewrite E. Qed.

Lemma traverse_map {A B} (f : A -> result B) (g : A -> B) l : (forall a, a ∈ l -> f a = Ok (g a)) -> traverse f l = Ok (map g l).
Proof. induction l as [|a l IH]; intros H; [done|]. simpl. rewrite H by left. simpl. rewrite IH by (intros b Hb; apply H; by right). done. Qed.
Lemma traverse_app {A B} (f : A -> result B) l k : traverse f (l ++ k) = (x ← traverse f l; y ← traverse f k; Ok (x ++ y)).
Proof.
  induction l as [|a l IH]; simpl; [by destruct (traverse f k)|]. destruct (f a); [|done]. simpl. rewrite IH.
  destruct (traverse f l); [|done]. simpl. by destruct (traverse f k).
Qed.
Lemma traverse_Ok {A B} (f : A -> result B) l bs : traverse f l = Ok bs -> Forall2 (fun a b => f a = Ok b) l bs.
Proof.
  revert bs; induction l as [|a l IH]; intros bs; simpl; [intros [= <-]; constructor|].
  intros (b & E & (bs' & E' & [= <-])%bind_Ok)%bind_Ok. constructor; auto.
Qed.

Lemma vec_to_32_Ok b : fixed 32 b -> vec_to_32 b = Ok b.
Proof. intros H. unfold vec_to_32. simpl in H. by rewrite H. Qed.

Lemma roster_shown id local members supervisors t :
  roster_ok members supervisors ->
  traverse (party_of_row t) (roster_rows id local members supervisors) = Ok (shown local (has_sealed t id) members supervisors).
Proof.
  intros HR. unfold roster_rows, shown. rewrite traverse_app.
  assert (forall (A : Type) (row : A -> PartyRow) (g : A -> BridgeParty) l, (forall a, a ∈ l -> party_of_row t (row a) = Ok (g a)) ->
    traverse (party_of_row t) (map row l) = Ok (map g l)) as HT.
  { clear. intros A row g l. induction l as [|a l IH]; intros H; [done|]. simpl. rewrite H by left. simpl. rewrite IH; [done|].
    intros b Hb. apply H. by right. }
  rewrite (HT _ _ (shown_member local (has_sealed t id))), (HT _ _ (shown_supervisor local (has_sealed t id))); [done|..].
  - intros e He. unfold party_of_row. simpl. by rewrite vec_to_32_Ok by by apply (ro_supervisor_widths _ _ HR).
  - intros e He. destruct (ro_member_widths _ _ HR e He) as [H1 H2]. unfold party_of_row. simpl. by rewrite !vec_to_32_Ok by done.
Qed.
