(* ===== verification/BridgeLaws.v ===== *)
(** * Private bridges across stores

    Every party keeps its own database and learns of a bridge from packages. These
    are the first laws of that protocol: what a store knows of a bridge, what the
    plans put into packages, and that creation leaves all parties in step. *)

From S2P Require Import Prelude Text Crypto BTree Envelope HistoryCodec Authority Signing BridgeProof Tables KeyStore BridgePackage PrivateBridge BridgeRoster.

(** ** What a store knows of a bridge *)

Section knowledge.
Context `{C : Crypto} `{HX : Hex}.

Record standard_wf (s : Standard) : Prop := {
  sw_uid : text (sd_uid s);
  sw_positive : (0 < sd_generation s)%N;
  sw_generation : (sd_generation s < u32_max)%N;
  sw_label : text (sd_label s);
  sw_public : fixed 32 (sd_public_key s);
  sw_salt : fixed SALT_LEN (sd_salt s);
  sw_members : roster_wf member_wf (sd_members s);
  sw_supervisors : roster_wf party_wf (sd_supervisors s);
  sw_disjoint k : k ∈ bt_keys (sd_members s) -> k ∉ bt_keys (sd_supervisors s);
}.

Lemma standard_roster s : standard_wf s -> roster_ok (sd_members s) (sd_supervisors s).
Proof.
  intros [? ? ? ? ? ? [HM1 HM2] [HS1 HS2] HD]. split; [done|done|done| |].
  - intros e He. rewrite Forall_forall in HM2. by destruct (HM2 e He) as (_ & ? & ? & _).
  - intros e He. rewrite Forall_forall in HS2. by destruct (HS2 e He) as (_ & ?).
Qed.

(** The store shows the standard, live, as seen by [local]; it holds the bridge
    secret exactly when one is given, and [local]'s key opens it. *)
Record knows (st : Store) (s : Standard) (local pk : bytes) (secret : option bytes) : Prop := {
  kn_row : exists row, find_bridge (sd_uid s) (st_private st) = Some row /\ br_generation row = sd_generation s /\
    br_public_key row = sd_public_key s /\ br_salt row = sd_salt s /\ br_destroyed row = false /\ empty_to_none (sd_label s) = br_label row /\
    parties_of (br_id row) (st_private st) = roster_rows (br_id row) (Some local) (sd_members s) (sd_supervisors s) /\
    forall l, has_sealed (st_private st) (br_id row) l = bool_decide (secret <> None /\ l = local);
  kn_local : (exists keys, (local, keys) ∈ sd_members s /\ mk_encryption keys = pk) \/ (local, pk) ∈ sd_supervisors s;
  kn_secret x : secret = Some x -> forall sk, box_public sk = pk -> unseal_local_secret (sd_uid s) local sk st = Ok x;
}.

(** What [bridge_get] then shows. *)
Lemma knows_get st s local pk secret : standard_wf s -> knows st s local pk secret ->
  exists row, find_bridge (sd_uid s) (st_private st) = Some row /\ bridge_get (sd_uid s) st = Ok {|
    bu_uid := sd_uid s; bu_key_id := br_key_id row; bu_label := empty_to_none (sd_label s); bu_generation := sd_generation s;
    bu_public_key := sd_public_key s; bu_salt := sd_salt s; bu_destroyed := false;
    bu_parties := shown (Some local) (fun l => bool_decide (secret <> None /\ l = local)) (sd_members s) (sd_supervisors s) |}.
Proof.
  intros HW [(row & EF & Eg & Ep & Es & Ed & El & EP & HS) _ _]. exists row. split; [done|]. unfold bridge_get. rewrite EF. cbn [ok_or mbind result_bind].
  rewrite EP, roster_shown by by apply standard_roster. cbn [mbind result_bind].
  rewrite Eg, (proj2 (N.ltb_lt _ _)) by apply HW. cbn [negb]. rewrite Ep, Es, vec_to_32_Ok by apply HW. cbn [mbind result_bind].
  unfold vec_to_salt. rewrite (sw_salt _ HW), Nat.eqb_refl. cbn [mbind result_bind]. rewrite Ed, El. by rewrite (shown_ext _ _ _ _ _ HS).
Qed.

(** ** Installing a roster *)

Lemma find_bridge_map t f uid : (forall row, br_uid (f row) = br_uid row) ->
  find_bridge uid (set_tb_bridges (map f (tb_bridges t)) t) = f <$> find_bridge uid t.
Proof.
  intros Hf. unfold find_bridge, first_row. simpl. induction (tb_bridges t) as [|row l IH]; [done|]. simpl. rewrite !filter_cons, Hf.
  case_decide; [done|]. apply IH.
Qed.

Context `{!CryptoLaws C}.

(** A secret comes with its wrap salt. *)
Definition secret_shape (w secret : option bytes) : Prop :=
  match w, secret with Some w, Some s => fixed SALT_LEN w /\ fixed 32 s | None, None => True | _, _ => False end.

Definition kept (role : PartyRole) (secret : option bytes) : option bytes := match role with Member => secret | Supervisor => None end.

Lemma validate_local s kind removed label pk role w secret :
  validate_decoded_recipient (fields_for s kind removed label pk role w secret) = Ok tt ->
  (exists keys, (label, keys) ∈ sd_members s /\ mk_encryption keys = pk) \/ (label, pk) ∈ sd_supervisors s.
Proof.
  unfold validate_decoded_recipient. simpl. destruct role.
  - destruct (bt_get label (sd_members s)) as [keys|] eqn:E; [|done]. case_bool_decide; [|done]. intros _. left. exists keys.
    split; [by apply bt_get_elem|done].
  - destruct (bt_get label (sd_supervisors s)) as [k|] eqn:E; [|done]. case_bool_decide as Ek; [|done]. intros _. right. subst.
    by apply bt_get_elem.
Qed.

Lemma validate_recipient_member f : validate_decoded_recipient f = Ok tt ->
  pf_recipient_label f ∈ bt_keys (pf_members f) ++ bt_keys (pf_supervisors f).
Proof.
  unfold validate_decoded_recipient. intros H. apply elem_of_app. rewrite <- !bt_get_keys. destruct (pf_role f).
  - destruct (bt_get _ (pf_members f)) eqn:E; [|done]. left. eauto.
  - destruct (bt_get _ (pf_supervisors f)) eqn:E; [|done]. right. eauto.
Qed.

Lemma install_knows rnd s kind removed label pk role w secret st row :
  let f := fields_for s kind removed label pk role w secret in
  standard_wf s -> validate_decoded_recipient f = Ok tt -> secret_shape w secret -> is_weak_x25519_public_key pk = false ->
  find_bridge (sd_uid s) (st_private st) = Some row -> br_generation row = sd_generation s -> br_public_key row = sd_public_key s ->
  br_salt row = sd_salt s -> br_destroyed row = false -> empty_to_none (sd_label s) = br_label row ->
  (forall p, p ∈ tb_parties (st_private st) -> py_bridge_id p <> br_id row) ->
  (forall x, x ∈ tb_sealed (st_private st) -> sl_bridge_id x <> br_id row) ->
  exists st', replace_roster_and_secret rnd (br_id row) f st = (Ok tt, st') /\ knows st' s label pk (kept role secret) /\
    tb_bridges (st_private st') = tb_bridges (st_private st).
Proof.
  intros f HW HV HSh Hweak EF Eg Ep Es Ed El Hfp Hfs. pose proof (standard_roster s HW) as HR. apply validate_local in HV as HLoc.
  apply find_bridge_Some in EF as Hrow. destruct Hrow as [Hrow _].
  set (rows := roster_rows (br_id row) (Some label) (sd_members s) (sd_supervisors s)).
  set (st1 := set_private (set_tb_parties (tb_parties (st_private st) ++ rows) (st_private st)) st).
  assert (forall k : dbM unit, (_ ← insert_member_parties (br_id row) (sd_members s) (Some label);
    _ ← insert_supervisor_parties (br_id row) (sd_supervisors s) (Some label); k) st = k st1) as Hins.
  { intros k. pose proof (insert_roster_Ok (br_id row) (Some label) _ _ st HR) as E.
    specialize (E ltac:(by apply list_elem_of_fmap_2) Hfp). unfold mbind, dbM_bind in *.
    destruct (insert_member_parties _ _ _ st) as [[[]|e] sa]; [|done]. fold rows st1 in E. by rewrite E. }
  assert (parties_of (br_id row) (st_private st1) = rows) as HP.
  { by apply (parties_of_roster _ _ _ _ (tb_parties (st_private st))). }
  unfold replace_roster_and_secret. cbn [pf_members pf_supervisors pf_recipient_label pf_wrap_salt pf_secret pf_role pf_recipient_public_key f fields_for].
  rewrite Hins. destruct role; simpl kept.
  - destruct w as [w|], secret as [x|]; try done; cycle 1.
    { exists st1. split; [done|]. split; [|done]. split; [|done|done]. exists row. split_and!; try done. intros l. rewrite bool_decide_false by naive_solver.
      unfold has_sealed. apply existsb_false. intros sl Hs. rewrite bool_decide_false; [done|]. by apply Hfs. }
    destruct HSh as [Hw Hx]. unfold seal_bridge_secret. rewrite Hweak. set (sealed := box_seal _ _ _).
    set (srow := {| sl_bridge_id := br_id row; sl_label := label; sl_wrap_salt := w; sl_wrapped := sealed |}).
    assert (has_sealed (st_private st1) (br_id row) label = false) as Hns.
    { unfold has_sealed. apply existsb_false. intros sl Hs. rewrite bool_decide_false; [done|]. by apply Hfs. }
    assert (insert_sealed srow st1 = (Ok tt, set_private (set_tb_sealed (tb_sealed (st_private st) ++ [srow]) (st_private st1)) st1)) as EI.
    { unfold insert_sealed. cbn [sl_bridge_id sl_label srow]. rewrite Hns. destruct (existsb _ _) eqn:B; [done|]. exfalso.
      apply validate_recipient_member in HV. unfold f in HV. cbn [pf_recipient_label pf_members pf_supervisors fields_for] in HV.
      rewrite <- (roster_labels (br_id row) (Some label)) in HV. apply list_elem_of_fmap in HV as (p & Elab & Hp).
      rewrite existsb_false in B. specialize (B p). rewrite (roster_row_id _ _ _ _ p Hp), <- Elab in B.
      rewrite !bool_decide_true in B by done. simpl in B. assert (true = false); [|done]. apply B. apply elem_of_app. by right. }
    eexists. split; [exact EI|]. split; [|done]. split; [|done|].
    + exists row. split_and!; try done. intros l. unfold has_sealed. simpl. rewrite existsb_app.
      assert (existsb (fun sl => bool_decide (sl_bridge_id sl = br_id row) && bool_decide (sl_label sl = l)) (tb_sealed (st_private st)) = false) as ->.
      { apply existsb_false. intros sl Hs. rewrite bool_decide_false; [done|]. by apply Hfs. }
      simpl. rewrite bool_decide_true by done. simpl. rewrite orb_false_r. apply bool_decide_ext. split; [intros <-; done|by intros [_ ->]].
    + intros y [= <-] sk Esk. unfold unseal_local_secret, load_sealed_key, last_bridge_id.
      change (find_bridge (sd_uid s) (st_private (set_private (set_tb_sealed (tb_sealed (st_private st) ++ [srow]) (st_private st1)) st1)))
        with (find_bridge (sd_uid s) (st_private st)). rewrite EF. cbn [ok_or mbind result_bind st_private set_private tb_sealed set_tb_sealed].
      unfold first_row. rewrite filter_app, filter_none, filter_cons_True; cycle 1.
      { simpl. rewrite !bool_decide_true by done. done. }
      { apply Forall_forall. intros sl Hs. rewrite bool_decide_false by by apply Hfs. done. }
      cbn [app head ok_or mbind result_bind sl_wrap_salt srow]. unfold vec_to_salt. rewrite Hw, Nat.eqb_refl. cbn [mbind result_bind sb_sealed sb_wrap_salt sl_wrapped].
      apply (unseal_seal_bridge rnd); [done|done|]. unfold seal_bridge_secret. by rewrite Esk, Hweak.
  - assert (match w, secret, Supervisor with Some _, Some _, Member => False | _, _, _ => True end) as _ by by destruct w, secret.
    exists st1. split; [by destruct w, secret|]. split; [|done]. split; [|done|done]. exists row. split_and!; try done. intros l. rewrite bool_decide_false by naive_solver.
    unfold has_sealed. apply existsb_false. intros sl Hs. rewrite bool_decide_false; [done|]. by apply Hfs.
Qed.

(** ** An invite *)

Lemma knows_event st s local pk secret l : knows st s local pk secret ->
  knows (set_private (set_tb_events l (st_private st)) st) s local pk secret.
Proof. intros [H1 H2 H3]. split; [exact H1|exact H2|exact H3]. Qed.

Lemma insert_event_Ok id type detail st : id ∈ map br_id (tb_bridges (st_private st)) ->
  insert_event id type detail st = (Ok tt, set_private (set_tb_events (tb_events (st_private st) ++
    [ {| be_bridge_id := id; be_event_type := type; be_detail := detail |} ]) (st_private st)) st).
Proof.
  intros (b & Eb & Hb)%list_elem_of_fmap. unfold insert_event. destruct (existsb _ _) eqn:B; [done|]. rewrite existsb_false in B.
  specialize (B b Hb). simpl in B. by rewrite bool_decide_true in B by congruence.
Qed.

Lemma find_bridge_None t uid : find_bridge uid t = None -> forall r, r ∈ tb_bridges t -> br_uid r <> uid.
Proof. intros EN r Hr E. unfold find_bridge in EN. rewrite first_row_None in EN. specialize (EN r Hr). simpl in EN. by rewrite bool_decide_true in EN. Qed.

Lemma find_bridge_snoc t uid row : find_bridge uid t = None -> br_uid row = uid -> find_bridge uid (set_tb_bridges (tb_bridges t ++ [row]) t) = Some row.
Proof.
  intros EN E. pose proof (find_bridge_None _ _ EN) as Huid. unfold find_bridge, first_row. simpl. rewrite filter_app, filter_none, filter_cons_True; [done|by rewrite bool_decide_true|].
  apply Forall_forall. intros r Hr. rewrite bool_decide_false by by apply Huid. done.
Qed.

Lemma insert_bridge_Ok mk st : let row := mk (next_id br_id (tb_bridges (st_private st))) in
  find_bridge (br_uid row) (st_private st) = None -> (0 < br_generation row)%N ->
  match br_key_id row with Some k => k ∈ map ky_id (st_keys st) | None => True end ->
  insert_bridge mk st = (Ok (next_id br_id (tb_bridges (st_private st))), set_private (set_tb_bridges (tb_bridges (st_private st) ++ [row]) (st_private st)) st).
Proof.
  intros row EN Hg Hk. pose proof (find_bridge_None _ _ EN) as Huid. unfold insert_bridge. fold row. destruct (existsb _ (tb_bridges (st_private st))) eqn:B.
  { apply existsb_exists in B as (r & Hr%list_elem_of_In & E%bool_decide_eq_true). by destruct (Huid r Hr). }
  rewrite (proj2 (N.eqb_neq _ _)) by lia. simpl. destruct (br_key_id row) as [k|]; [|done].
  apply list_elem_of_fmap in Hk as (key & -> & Hkey). destruct (existsb _ (st_keys st)) eqn:B2; [done|]. rewrite existsb_false in B2.
  specialize (B2 key Hkey). simpl in B2. by rewrite bool_decide_true in B2.
Qed.

(** Nothing is filed under an id not yet given. *)
Lemma fresh_rows t : tables_ok t ->
  (forall p, p ∈ tb_parties t -> py_bridge_id p <> next_id br_id (tb_bridges t)) /\
  (forall x, x ∈ tb_sealed t -> sl_bridge_id x <> next_id br_id (tb_bridges t)).
Proof.
  intros HT. assert (forall p, p ∈ tb_parties t -> py_bridge_id p <> next_id br_id (tb_bridges t)) as HP.
  { intros p Hp E. apply (ok_parties _ HT) in Hp. rewrite E in Hp. apply list_elem_of_fmap in Hp as (r & Er & Hr). by apply (next_id_fresh br_id _ r) in Hr. }
  split; [done|]. intros x Hx E. apply (ok_sealed _ HT) in Hx as (p & Hp & Ep & _). apply (HP p Hp). congruence.
Qed.

Lemma insert_from_invite_knows rnd s kind removed label pk role w secret st :
  let f := fields_for s kind removed label pk role w secret in
  standard_wf s -> validate_decoded_recipient f = Ok tt -> secret_shape w secret -> is_weak_x25519_public_key pk = false ->
  tables_ok (st_private st) -> find_bridge (sd_uid s) (st_private st) = None ->
  exists st', insert_from_invite rnd f st = (Ok tt, st') /\ knows st' s label pk (kept role secret).
Proof.
  intros f HW HV HSh Hweak HT EN. unfold insert_from_invite.
  rewrite (dbM_step _ _ st tt st) by (unfold db_try; by rewrite HV). unfold query at 1. rewrite (dbM_step _ _ st None st) by (cbn; by rewrite EN).
  rewrite bool_decide_false by (by intros [? ?]). unfold transaction. set (t := st_private st).
  set (row := {| br_id := next_id br_id (tb_bridges t); br_uid := sd_uid s; br_key_id := None; br_label := empty_to_none (sd_label s);
    br_generation := sd_generation s; br_public_key := sd_public_key s; br_salt := sd_salt s; br_destroyed := false |}).
  set (st1 := set_private (set_tb_bridges (tb_bridges t ++ [row]) t) st).
  rewrite (dbM_step _ _ st (br_id row) st1) by (etransitivity; [apply insert_bridge_Ok; [done|apply HW|done]|done]).
  destruct (fresh_rows t HT) as [Hfp Hfs].
  destruct (install_knows rnd s kind removed label pk role w secret st1 row) as (st2 & ER & HK & EB); try done; [by apply find_bridge_snoc|].
  rewrite (dbM_step _ _ st1 tt st2) by done. rewrite insert_event_Ok.
  - eexists. split; [done|]. by apply knows_event.
  - rewrite EB. unfold st1. simpl. rewrite map_app. apply elem_of_app. right. left.
Qed.

(** ** The packages of a roster *)

Lemma traverse_elem {A B} (f : A -> result B) l bs b : traverse f l = Ok bs -> b ∈ bs -> exists a, a ∈ l /\ f a = Ok b.
Proof.
  intros HF%traverse_Ok [i Hi]%list_elem_of_lookup. destruct (Forall2_lookup_r _ _ _ _ _ HF Hi) as (a & Ha & E).
  exists a. split; [by eapply list_elem_of_lookup_2|done].
Qed.

Lemma package_for_Ok seal_rnd s kind removed label pk role w secret old pkg :
  package_for seal_rnd s kind removed label pk role w secret old = Ok pkg ->
  dp_label pkg = label /\ dp_role pkg = role /\ dp_recipient_public_key pkg = pk /\ is_weak_x25519_public_key pk = false /\
  encode_package (seal_rnd label) (fields_for s kind removed label pk role w secret) old = Ok (dp_bytes pkg).
Proof.
  unfold package_for. intros (data & E & [= <-])%bind_Ok. simpl. split_and!; try done. unfold encode_package in E.
  change (pf_recipient_public_key _) with pk in E. by destruct (is_weak_x25519_public_key pk).
Qed.

(** The packages of a list of parties carry the labels of the parties. *)
Lemma traverse_labels {A} (f : A -> result DeliveryPackage) (lab : A -> bytes) l packages :
  (forall a pkg, f a = Ok pkg -> dp_label pkg = lab a) -> traverse f l = Ok packages -> map dp_label packages = map lab l.
Proof. intros Hf HF%traverse_Ok. induction HF as [|a pkg l packages E HF IH]; [done|]. simpl. rewrite IH. f_equal. by apply Hf. Qed.

Lemma packages_for_roster_labels wrap seal_rnd s mk sk removed secret old packages :
  packages_for_roster wrap seal_rnd s mk sk removed secret old = Ok packages ->
  map dp_label packages = bt_keys (sd_members s) ++ bt_keys (sd_supervisors s).
Proof.
  unfold packages_for_roster. intros (ms & EM & (ss & ES & [= <-])%bind_Ok)%bind_Ok. rewrite map_app. unfold bt_keys.
  f_equal; (eapply traverse_labels; [|eassumption]); intros a pkg [? _]%package_for_Ok; done.
Qed.

(** The key [label] has on the roster of a standard. *)
Definition party_key (s : Standard) (label pk : bytes) : Prop :=
  (exists keys, (label, keys) ∈ sd_members s /\ mk_encryption keys = pk) \/ (label, pk) ∈ sd_supervisors s.

(** A roster with packages for everyone has no weak key. *)
Lemma packages_not_weak wrap seal_rnd s mk sk removed secret old packages label pk :
  packages_for_roster wrap seal_rnd s mk sk removed secret old = Ok packages -> party_key s label pk -> is_weak_x25519_public_key pk = false.
Proof.
  unfold packages_for_roster. intros (ms & EM%traverse_Ok & (ss & ES%traverse_Ok & _)%bind_Ok)%bind_Ok [(keys & [i Hi]%list_elem_of_lookup & <-)|[i Hi]%list_elem_of_lookup].
  - destruct (Forall2_lookup_l _ _ _ _ _ EM Hi) as (pkg & _ & (_ & _ & _ & Hw & _)%package_for_Ok). done.
  - destruct (Forall2_lookup_l _ _ _ _ _ ES Hi) as (pkg & _ & (_ & _ & _ & Hw & _)%package_for_Ok). done.
Qed.

(** A package to a member or a supervisor of the roster. *)
Lemma packages_for_roster_elem wrap seal_rnd s mk sk removed secret old packages pkg :
  packages_for_roster wrap seal_rnd s mk sk removed secret old = Ok packages -> pkg ∈ packages ->
  exists kind w sec, package_for seal_rnd s kind removed (dp_label pkg) (dp_recipient_public_key pkg) (dp_role pkg) w sec old = Ok pkg /\
    match dp_role pkg with
    | Member => kind = mk /\ sec = secret /\ w = match secret with Some _ => Some (wrap (dp_label pkg)) | None => None end /\
        exists keys, (dp_label pkg, keys) ∈ sd_members s /\ mk_encryption keys = dp_recipient_public_key pkg
    | Supervisor => kind = sk /\ sec = None /\ w = None /\ (dp_label pkg, dp_recipient_public_key pkg) ∈ sd_supervisors s
    end.
Proof.
  unfold packages_for_roster. intros (ms & EM & (ss & ES & [= <-])%bind_Ok)%bind_Ok [Hp|Hp]%elem_of_app.
  - destruct (traverse_elem _ _ _ _ EM Hp) as ([label keys] & He & EP). simpl in EP. apply package_for_Ok in EP as HP.
    destruct HP as (El & Er & Epk & _). exists mk, (match secret with Some _ => Some (wrap label) | None => None end), secret.
    rewrite El, Er, Epk. split; [done|]. split_and!; try done. eauto.
  - destruct (traverse_elem _ _ _ _ ES Hp) as ([label pk] & He & EP). simpl in EP. apply package_for_Ok in EP as HP.
    destruct HP as (El & Er & Epk & _). exists sk, None, None. rewrite El, Er, Epk. done.
Qed.

Lemma fields_wf s kind removed label pk role w secret :
  standard_wf s -> text removed -> text label -> secret_shape w secret -> package_wf (fields_for s kind removed label pk role w secret).
Proof. intros [] Hr Hl HS. by split. Qed.

(** A recipient on the roster under the key of the package is accepted. *)
Lemma validate_member s kind removed label pk keys w secret :
  standard_wf s -> (label, keys) ∈ sd_members s -> mk_encryption keys = pk ->
  validate_decoded_recipient (fields_for s kind removed label pk Member w secret) = Ok tt.
Proof.
  intros HW Hin E. unfold validate_decoded_recipient. simpl. rewrite (bt_sorted_get _ keys) by (apply HW || done). by rewrite bool_decide_true.
Qed.
Lemma validate_supervisor s kind removed label pk w secret :
  standard_wf s -> (label, pk) ∈ sd_supervisors s -> validate_decoded_recipient (fields_for s kind removed label pk Supervisor w secret) = Ok tt.
Proof.
  intros HW Hin. unfold validate_decoded_recipient. simpl. rewrite (bt_sorted_get _ pk) by (apply HW || done). by rewrite bool_decide_true.
Qed.

Lemma member_label_text s label keys : standard_wf s -> (label, keys) ∈ sd_members s -> text label.
Proof. intros HW Hin. destruct (sw_members _ HW) as [_ HF]. rewrite Forall_forall in HF. by destruct (HF _ Hin). Qed.
Lemma supervisor_label_text s label pk : standard_wf s -> (label, pk) ∈ sd_supervisors s -> text label.
Proof. intros HW Hin. destruct (sw_supervisors _ HW) as [_ HF]. rewrite Forall_forall in HF. by destruct (HF _ Hin). Qed.

(** Everything before the change of the tables: the package opens and is its recipient's. *)
Lemma import_opened rnd f old sk data st :
  package_wf f -> pf_recipient_public_key f = box_public sk -> length (box_public sk) = 32 -> encode_package rnd f old = Ok data ->
  forall local_rnd, import_package local_rnd data sk st =
    (_ ← apply_package local_rnd {| dc_fields := f; dc_auth_sig := auth_of f old |}; query (bridge_get (pf_uid f))) st.
Proof.
  intros HW Epk Hl HE local_rnd. unfold import_package. rewrite (dbM_step _ _ st {| dc_fields := f; dc_auth_sig := auth_of f old |} st).
  - cbn [dc_fields]. by rewrite bool_decide_true by done.
  - unfold db_try. by rewrite (package_roundtrip rnd f old sk data).
Qed.

(** ** Creating a bridge *)

Definition input_wf (i : BridgePartyInput) : Prop := text (bi_label i) /\ fixed 32 (bi_encryption i) /\ opt (fixed 32) (bi_signing i).

Lemma bt_insert_Forall {V} (P : bytes * V -> Prop) k v m : P (k, v) -> Forall P m -> Forall P (bt_insert k v m).
Proof. intros Hk HF. rewrite Forall_forall in *. intros x [->|Hx]%bt_insert_elem; auto. Qed.

Lemma unique_members_wf inputs members : Forall input_wf inputs -> unique_members inputs = Ok members -> roster_wf member_wf members.
Proof.
  unfold unique_members. assert (roster_wf member_wf []) as H0 by (split; constructor). revert H0. generalize (@nil (bytes * MemberKeys)) as m.
  intros m Hm HF. revert m Hm; induction HF as [|i inputs (Ht & He & Hs) HF IH]; intros m Hm; simpl; [by intros [= <-]|].
  case_bool_decide; [done|]. destruct (is_weak_x25519_public_key _); [done|]. destruct (bi_signing i) as [sg|]; [|done]. simpl.
  destruct (ed25519_key_ok sg) eqn:Ek; [|done]. simpl. destruct (bt_contains _ m); [done|]. apply IH. destruct Hm as [HS HW].
  split; [by apply bt_insert_sorted|]. by apply bt_insert_Forall.
Qed.

Lemma unique_supervisors_wf inputs supervisors : Forall input_wf inputs -> unique_supervisors inputs = Ok supervisors -> roster_wf party_wf supervisors.
Proof.
  unfold unique_supervisors. assert (roster_wf party_wf []) as H0 by (split; constructor). revert H0. generalize (@nil (bytes * bytes)) as m.
  intros m Hm HF. revert m Hm; induction HF as [|i inputs (Ht & He & Hs) HF IH]; intros m Hm; simpl; [by intros [= <-]|].
  case_bool_decide; [done|]. destruct (is_weak_x25519_public_key _); [done|]. destruct (bt_contains _ m); [done|]. apply IH. destruct Hm as [HS HW].
  split; [by apply bt_insert_sorted|]. by apply bt_insert_Forall.
Qed.

Lemma bt_contains_false {V} k (m : btree V) : bt_contains k m = false -> k ∉ bt_keys m.
Proof. unfold bt_contains. rewrite bool_decide_eq_false, bt_get_keys. done. Qed.

(** The standard a plan of creation hands out. *)
Definition planned_standard (planned : PlannedCreation) : Standard :=
  {| sd_uid := cb_uid (pc_created planned); sd_generation := cb_generation (pc_created planned); sd_label := default [] (pc_label planned);
     sd_public_key := cb_public_key (pc_created planned); sd_salt := cb_salt (pc_created planned); sd_members := pc_members planned;
     sd_supervisors := pc_supervisors planned |}.

Section create.
Context (wrap seal_rnd : bytes -> bytes) (uid_salt salt secret : bytes) (key_id : option nat) (label : option bytes).
Context (members supervisors : list BridgePartyInput) (local_label : option bytes).
(** The widths of the arrays in the source. *)
Record create_wf : Prop := {
  cw_uid : text (hex_encode uid_salt);
  cw_salt : fixed SALT_LEN salt;
  cw_secret : fixed 32 secret;
  cw_public : fixed 32 (public_key secret);
  cw_wrap l : fixed SALT_LEN (wrap l);
  cw_label : text (default [] label);
  cw_members : Forall input_wf members;
  cw_supervisors : Forall input_wf supervisors;
}.

Lemma plan_create_Ok planned :
  create_wf -> plan_create wrap seal_rnd uid_salt salt secret key_id label members supervisors local_label = Ok planned ->
  standard_wf (planned_standard planned) /\ pc_secret planned = secret /\ cb_generation (pc_created planned) = 1%N /\ 2 <= length (pc_members planned) /\
  pc_local_label planned = local_label /\ pc_key_id planned = key_id /\ pc_label planned = label /\
  match local_label with Some l => l ∈ bt_keys (pc_members planned) ++ bt_keys (pc_supervisors planned) | None => True end /\
  packages_for_roster wrap seal_rnd (planned_standard planned) KIND_INVITE KIND_SUPERVISOR [] (Some secret) None = Ok (cb_packages (pc_created planned)).
Proof.
  intros HW. unfold plan_create. intros (ms & EM & H)%bind_Ok. destruct (Nat.ltb_spec (length ms) 2) as [|Hlen]; [done|].
  apply bind_Ok in H as (ss & ES & H). apply bind_Ok in H as (ss' & EF & H). destruct (match local_label with Some _ => _ | None => _ end) eqn:EL; [done|].
  apply bind_Ok in H as (packages & EP & [= <-]). unfold planned_standard. cbn [pc_created pc_label pc_members pc_supervisors cb_uid cb_generation cb_public_key cb_salt cb_packages].
  pose proof (unique_members_wf _ _ (cw_members HW) EM) as HM. pose proof (unique_supervisors_wf _ _ (cw_supervisors HW) ES) as [HS1 HS2].
  unfold fill_implied_supervisors in EF. destruct (existsb _ _); [done|]. injection EF as <-.
  split; [|split_and!; try done].
  - split; try done; try apply HW.
    + split; [by apply bt_filter_sorted|]. apply Forall_forall. intros x [_ Hx]%list_elem_of_filter. rewrite Forall_forall in HS2. by apply HS2.
    + cbn [sd_members sd_supervisors]. intros k Hk ([k' v] & -> & [Hx _]%list_elem_of_filter)%list_elem_of_fmap. by apply bt_contains_false in Hx.
  - destruct local_label as [l|]; [|done]. apply andb_false_iff in EL as [EL%negb_false_iff|EL%negb_false_iff];
      unfold bt_contains in EL; apply bool_decide_eq_true in EL; rewrite bt_get_keys in EL; apply elem_of_app; auto.
Qed.

(** Every package of a new bridge does its work: imported by the person it
    is addressed to, into a store that does not know the bridge, it leaves that
    store with the roster, generation, key and salt the creator planned, and with
    the shared secret exactly when the person is a member, sealed so that their key
    opens it. *)
Lemma invite_imported planned pkg sk local_rnd st :
  create_wf -> plan_create wrap seal_rnd uid_salt salt secret key_id label members supervisors local_label = Ok planned ->
  pkg ∈ cb_packages (pc_created planned) -> box_public sk = dp_recipient_public_key pkg -> length (box_public sk) = 32 ->
  tables_ok (st_private st) -> find_bridge (cb_uid (pc_created planned)) (st_private st) = None ->
  exists summary st', import_package local_rnd (dp_bytes pkg) sk st = (Ok summary, st') /\ bridge_get (cb_uid (pc_created planned)) st' = Ok summary /\
    knows st' (planned_standard planned) (dp_label pkg) (dp_recipient_public_key pkg) (kept (dp_role pkg) (Some secret)).
Proof.
  intros HC EP Hp Esk Hl HT EN. apply plan_create_Ok in EP as (HW & _ & Hg & _ & _ & _ & _ & _ & EPk); [|done].
  destruct (packages_for_roster_elem _ _ _ _ _ _ _ _ _ _ EPk Hp) as (kind & w & sec & EO & HR).
  apply package_for_Ok in EO as (_ & _ & _ & Hweak & EE). set (s := planned_standard planned) in *.
  set (f := fields_for s kind [] (dp_label pkg) (dp_recipient_public_key pkg) (dp_role pkg) w sec) in *.
  assert (validate_decoded_recipient f = Ok tt /\ text (dp_label pkg) /\ secret_shape w sec /\ kept (dp_role pkg) sec = kept (dp_role pkg) (Some secret))
    as (HV & Ht & HSh & Hk).
  { unfold f. destruct (dp_role pkg).
    - destruct HR as (-> & -> & -> & keys & Hin & Ek). split_and!; [by eapply validate_member|by eapply member_label_text| |done].
      split; [apply HC|apply HC].
    - destruct HR as (-> & -> & -> & Hin). split_and!; [by eapply validate_supervisor|by eapply supervisor_label_text|done|done]. }
  destruct (insert_from_invite_knows local_rnd s kind [] (dp_label pkg) (dp_recipient_public_key pkg) (dp_role pkg) w sec st) as (st' & EI & HK); try done.
  assert (apply_package local_rnd {| dc_fields := f; dc_auth_sig := auth_of f None |} st = (Ok tt, st')) as EA.
  { unfold apply_package. cbn [dc_fields dc_auth_sig]. change (pf_kind f) with kind. change (pf_generation f) with (sd_generation s).
    destruct (dp_role pkg); destruct HR as (-> & _).
    - by rewrite decide_True.
    - rewrite decide_False by done. by rewrite decide_True. }
  rewrite (import_opened (seal_rnd (dp_label pkg)) f None); [|by apply fields_wf|done|done|done].
  rewrite (dbM_step _ _ _ _ _ EA). rewrite Hk in HK. destruct (knows_get _ _ _ _ _ HW HK) as (row & _ & EG).
  eexists _, st'. split; [unfold query; change (pf_uid f) with (sd_uid s); rewrite EG; reflexivity|]. split; [exact EG|done].
Qed.

(** The store of the creator, who is a party of the bridge. *)
Lemma creation_committed planned l pk wrap_salt local_rnd st :
  create_wf -> plan_create wrap seal_rnd uid_salt salt secret key_id label members supervisors local_label = Ok planned ->
  local_label = Some l -> party_key (planned_standard planned) l pk ->
  label <> Some [] -> match key_id with Some k => k ∈ map ky_id (st_keys st) | None => True end ->
  fixed SALT_LEN wrap_salt -> tables_ok (st_private st) -> find_bridge (cb_uid (pc_created planned)) (st_private st) = None ->
  exists st', commit_planned_creation wrap_salt local_rnd planned st = (Ok tt, st') /\
    knows st' (planned_standard planned) l pk (if bt_contains l (pc_members planned) then Some secret else None).
Proof.
  intros HC EP EL Hl Hlab Hkey Hws HT EN. apply plan_create_Ok in EP as (HW & Esec & Hg & _ & Eloc & Ekey & Elab & _ & EPk); [|done].
  set (s := planned_standard planned) in *. pose proof (packages_not_weak _ _ _ _ _ _ _ _ _ _ _ EPk Hl) as Hweak.
  unfold commit_planned_creation, transaction, persist_new_bridge. set (t := st_private st).
  set (mk := fun id => {| br_id := id; br_uid := cb_uid (pc_created planned); br_key_id := pc_key_id planned; br_label := pc_label planned;
    br_generation := cb_generation (pc_created planned); br_public_key := cb_public_key (pc_created planned); br_salt := cb_salt (pc_created planned);
    br_destroyed := false |}). set (row := mk (next_id br_id (tb_bridges t))).
  set (st1 := set_private (set_tb_bridges (tb_bridges t ++ [row]) t) st).
  assert (insert_bridge mk st = (Ok (br_id row), st1)) as EI.
  { etransitivity; [apply insert_bridge_Ok; [done|apply HW|]|done]. cbn [br_key_id mk]. by rewrite Ekey. }
  destruct (fresh_rows t HT) as [Hfp Hfs]. set (held := if bt_contains l (pc_members planned) then Some secret else None).
  assert (exists st2, (_ ← insert_member_parties (br_id row) (pc_members planned) (pc_local_label planned);
    _ ← insert_supervisor_parties (br_id row) (pc_supervisors planned) (pc_local_label planned);
    seal_local_if_member wrap_salt local_rnd (br_id row) (default [] (pc_local_label planned)) (pc_members planned) (pc_secret planned)) st1 = (Ok tt, st2) /\
    knows st2 s l pk held /\ tb_bridges (st_private st2) = tb_bridges (st_private st1)) as (st2 & ER & HK & EB).
  { rewrite Eloc, EL, Esec. change (default [] (Some l)) with l. unfold seal_local_if_member, held, bt_contains.
    assert (empty_to_none (sd_label s) = br_label row) as Elabel.
    { unfold s, row, planned_standard, empty_to_none. cbn [sd_label br_label mk]. rewrite Elab. destruct label as [[|b lab]|]; done. }
    destruct (bt_get l (pc_members planned)) as [keys|] eqn:Eget.
    - apply bt_get_elem in Eget as Hin. assert (mk_encryption keys = pk) as Epk.
      { destruct Hl as [(keys' & Hin' & <-)|Hin'].
        - f_equal. apply (bt_sorted_get _ _ _ (proj1 (sw_members _ HW))) in Hin'. cbn [sd_members planned_standard s] in Hin'. congruence.
        - exfalso. eapply (sw_disjoint _ HW l); apply list_elem_of_fmap; [by exists (l, keys)|by exists (l, pk)]. }
      destruct (install_knows local_rnd s KIND_INVITE [] l pk Member (Some wrap_salt) (Some secret) st1 row) as (st2 & ER & HK & EB); try done.
      + by eapply validate_member.
      + split; [done|apply HC].
      + by apply find_bridge_snoc.
      + exists st2. cbv beta iota. rewrite Epk. split; [exact ER|]. split; [|done]. by rewrite bool_decide_true by eauto.
    - destruct Hl as [(keys' & Hin' & _)|Hin'].
      { exfalso. apply (bt_sorted_get _ _ _ (proj1 (sw_members _ HW))) in Hin'. cbn [sd_members planned_standard s] in Hin'. congruence. }
      destruct (install_knows local_rnd s KIND_INVITE [] l pk Supervisor None None st1 row) as (st2 & ER & HK & EB); try done.
      + by eapply validate_supervisor.
      + by apply find_bridge_snoc.
      + exists st2. split; [exact ER|]. split; [|done]. by rewrite bool_decide_false by (by intros [? ?]). }
  destruct (knows_get _ _ _ _ _ HW HK) as (row2 & EF2 & _).
  assert (row2 = row) as ->.
  { unfold find_bridge in EF2. rewrite EB in EF2. change (find_bridge (sd_uid s) (st_private st1) = Some row2) in EF2.
    unfold st1 in EF2. cbn [st_private set_private] in EF2. rewrite (find_bridge_snoc t (sd_uid s) row EN eq_refl) in EF2. by injection EF2. }
  erewrite dbM_step; cycle 1. { rewrite (dbM_step _ _ _ _ _ EI). exact ER. }
  erewrite dbM_step; cycle 1. { unfold query, last_bridge_id. change (cb_uid (pc_created planned)) with (sd_uid s). by rewrite EF2. }
  rewrite insert_event_Ok.
  - eexists. split; [done|]. by apply knows_event.
  - rewrite EB. unfold st1. simpl. rewrite map_app. apply elem_of_app. right. left.
Qed.

(** A new bridge reaches every party in step. Committed by a creator who is a
    party, the plan leaves the creator's store knowing the planned roster,
    generation, key and salt; and every package, imported by the person it is
    addressed to into a store that does not know the bridge, leaves that store
    knowing the same. Each of them holds the shared secret exactly when a member,
    sealed so that their own key opens it. *)
Theorem creation_in_step planned :
  create_wf -> plan_create wrap seal_rnd uid_salt salt secret key_id label members supervisors local_label = Ok planned ->
  (forall l pk wrap_salt local_rnd st, local_label = Some l -> party_key (planned_standard planned) l pk ->
     label <> Some [] -> match key_id with Some k => k ∈ map ky_id (st_keys st) | None => True end ->
     fixed SALT_LEN wrap_salt -> tables_ok (st_private st) -> find_bridge (cb_uid (pc_created planned)) (st_private st) = None ->
     exists st', commit_planned_creation wrap_salt local_rnd planned st = (Ok tt, st') /\
       knows st' (planned_standard planned) l pk (if bt_contains l (pc_members planned) then Some secret else None)) /\
  (forall pkg sk local_rnd st, pkg ∈ cb_packages (pc_created planned) -> box_public sk = dp_recipient_public_key pkg -> length (box_public sk) = 32 ->
     tables_ok (st_private st) -> find_bridge (cb_uid (pc_created planned)) (st_private st) = None ->
     exists summary st', import_package local_rnd (dp_bytes pkg) sk st = (Ok summary, st') /\ bridge_get (cb_uid (pc_created planned)) st' = Ok summary /\
       knows st' (planned_standard planned) (dp_label pkg) (dp_recipient_public_key pkg) (kept (dp_role pkg) (Some secret))).
Proof. intros HC EP. split; [intros; by apply creation_committed|intros; by apply invite_imported]. Qed.
End create.
End knowledge.
