(* ===== verification/BridgeRotation.v ===== *)
(** * Removing a member of a private bridge

    A member's store plans the removal, hands out one package per party and
    commits; the other stores import theirs. The laws here say that all of them
    come out in step. *)

From S2P Require Import Prelude Text Crypto BTree Envelope HistoryCodec Authority Signing BridgeProof Tables KeyStore BridgePackage PrivateBridge BridgeRoster BridgeLaws.

(** ** The roster after a removal *)

Definition members_after (s : Standard) (removed : bytes) : btree MemberKeys := filter (fun e => e.1 <> removed) (sd_members s).

(** Label and key of every party, members first. *)
Definition contacts (s : Standard) : list (bytes * bytes) :=
  map (fun e => (e.1, mk_encryption e.2)) (sd_members s) ++ sd_supervisors s.
Definition supervisors_after (s : Standard) (removed : bytes) : btree bytes :=
  foldl (fun out e => if parent_needed (members_after s removed) e.1 then bt_insert e.1 e.2 out else out) [] (contacts s).

Definition standard_after (s : Standard) (removed new_public new_salt : bytes) : Standard :=
  {| sd_uid := sd_uid s; sd_generation := u32_succ (sd_generation s); sd_label := sd_label s; sd_public_key := new_public; sd_salt := new_salt;
     sd_members := members_after s removed; sd_supervisors := supervisors_after s removed |}.
(** The standard a destroy notice names: the old one with the new roster. *)
Definition standard_dropped (s : Standard) (removed : bytes) : Standard :=
  {| sd_uid := sd_uid s; sd_generation := sd_generation s; sd_label := sd_label s; sd_public_key := sd_public_key s; sd_salt := sd_salt s;
     sd_members := members_after s removed; sd_supervisors := supervisors_after s removed |}.

Lemma shown_contacts local sealed s : map (fun p => (bp_label p, bp_encryption p)) (shown local sealed (sd_members s) (sd_supervisors s)) = contacts s.
Proof. unfold shown, contacts. rewrite map_app, !map_map. f_equal. rewrite <- (map_id (sd_supervisors s)) at 2. apply map_ext. by intros []. Qed.

Lemma supervisor_pubs_shown local sealed s removed :
  supervisor_pubs_for (members_after s removed) (shown local sealed (sd_members s) (sd_supervisors s)) = supervisors_after s removed.
Proof.
  unfold supervisors_after. rewrite <- (shown_contacts local sealed). unfold supervisor_pubs_for. generalize (shown local sealed (sd_members s) (sd_supervisors s)).
  generalize (@nil (bytes * bytes)) as out. intros out l. revert out; induction l as [|p l IH]; intros out; [done|]. simpl. apply IH.
Qed.

Lemma remaining_members_shown local sealed s removed : bt_sorted (sd_members s) ->
  remaining_members (shown local sealed (sd_members s) (sd_supervisors s)) removed [] = Ok (members_after s removed).
Proof.
  intros HS. unfold shown.
  assert (forall ss m, remaining_members (map (shown_supervisor local sealed) ss) removed m = Ok m) as HSup by (clear; intros ss; induction ss as [|e ss IH]; intros m; [done|apply IH]).
  assert (forall ms m, remaining_members (map (shown_member local sealed) ms ++ map (shown_supervisor local sealed) (sd_supervisors s)) removed m =
    Ok (bt_of_list (filter (fun e => e.1 <> removed) ms) m)) as HM.
  { induction ms as [|[k v] ms IH]; intros m; simpl; [apply HSup|]. rewrite filter_cons. destruct (decide (k = removed)) as [->|Hne].
    - rewrite bool_decide_true by done. simpl. rewrite decide_False by (intros H; by apply H). apply IH.
    - rewrite bool_decide_false by done. simpl. rewrite decide_True by done. simpl. rewrite IH. by destruct v. }
  rewrite HM. f_equal. apply bt_of_list_id. by apply bt_filter_sorted.
Qed.

Lemma bt_collect_spec (P : bytes -> bool) (l : list (bytes * bytes)) out :
  bt_sorted out ->
  let r := foldl (fun out e => if P e.1 then bt_insert e.1 e.2 out else out) out l in
  bt_sorted r /\ forall k v, (k, v) ∈ r -> (k, v) ∈ out \/ ((k, v) ∈ l /\ P k = true).
Proof.
  revert out; induction l as [|[k v] l IH]; intros out Ho; simpl; [naive_solver|]. destruct (P k) eqn:E.
  - destruct (IH (bt_insert k v out) (bt_insert_sorted k v out Ho)) as [HS HE]. split; [done|].
    intros k' v' [[[= -> ->]|?]%bt_insert_elem|[? ?]]%HE; [right; split; [left|done]|by left|right; split; [by right|done]].
  - destruct (IH out Ho) as [HS HE]. split; [done|]. intros k' v' [?|[? ?]]%HE; [by left|right; split; [by right|done]].
Qed.

Lemma supervisors_after_spec s removed :
  bt_sorted (supervisors_after s removed) /\
  forall k v, (k, v) ∈ supervisors_after s removed -> (k, v) ∈ contacts s /\ parent_needed (members_after s removed) k = true.
Proof.
  destruct (bt_collect_spec (parent_needed (members_after s removed)) (contacts s) [] ltac:(constructor)) as [HS HE].
  split; [exact HS|]. intros k v [H|H]%HE; [set_solver|done].
Qed.

Lemma parent_needed_fresh members k : parent_needed members k = true -> k ∉ bt_keys members.
Proof.
  unfold parent_needed. intros (m & _ & [_ H%negb_true_iff]%andb_true_iff)%existsb_exists. by apply bt_contains_false.
Qed.

Section rotation.
Context `{C : Crypto} `{HX : Hex}.

Lemma contact_wf s k v : standard_wf s -> (k, v) ∈ contacts s -> text k /\ fixed 32 v.
Proof.
  intros HW [([k' keys] & [= -> ->] & Hin)%list_elem_of_fmap|Hin]%elem_of_app.
  - destruct (sw_members _ HW) as [_ HF]. rewrite Forall_forall in HF. by destruct (HF _ Hin) as (? & ? & _).
  - destruct (sw_supervisors _ HW) as [_ HF]. rewrite Forall_forall in HF. by destruct (HF _ Hin) as (? & ?).
Qed.

Lemma roster_after_wf s removed : standard_wf s ->
  roster_wf member_wf (members_after s removed) /\ roster_wf party_wf (supervisors_after s removed) /\
  forall k, k ∈ bt_keys (members_after s removed) -> k ∉ bt_keys (supervisors_after s removed).
Proof.
  intros HW. destruct (supervisors_after_spec s removed) as [HS HE]. destruct (sw_members _ HW) as [HM HMF]. split_and!.
  - split; [by apply bt_filter_sorted|]. apply Forall_forall. intros x [_ Hx]%list_elem_of_filter. rewrite Forall_forall in HMF. by apply HMF.
  - split; [done|]. apply Forall_forall. intros [k v] Hx. apply HE in Hx as [Hx _]. by apply (contact_wf s).
  - intros k Hk ([k' v] & -> & Hx)%list_elem_of_fmap. apply HE in Hx as [_ Hx]. by apply parent_needed_fresh in Hx.
Qed.

Lemma standard_after_wf s removed new_public new_salt :
  standard_wf s -> (sd_generation s + 1 < u32_max)%N -> fixed 32 new_public -> fixed SALT_LEN new_salt ->
  standard_wf (standard_after s removed new_public new_salt).
Proof.
  intros HW Hg Hp Hs. destruct (roster_after_wf s removed HW) as (HM & HSu & HD). split; try done; try apply HW; simpl; unfold u32_succ;
    rewrite N.mod_small by lia; lia.
Qed.

Lemma standard_dropped_wf s removed : standard_wf s -> standard_wf (standard_dropped s removed).
Proof. intros HW. destruct (roster_after_wf s removed HW) as (HM & HSu & HD). split; try done; apply HW. Qed.

(** ** The plan *)

Section plan.
Context (wrap seal_rnd : bytes -> bytes) (new_salt new_secret : bytes).

(** What a plan consists of, for a store that knows the bridge. *)
Lemma plan_remove_Ok st s local pk secret removed sk planned :
  standard_wf s -> knows st s local pk (Some secret) ->
  plan_remove_member wrap seal_rnd new_salt new_secret (sd_uid s) removed local sk st = Ok planned ->
  let sealed := fun l => bool_decide (Some secret <> None /\ l = local) in
  let parties := shown (Some local) sealed (sd_members s) (sd_supervisors s) in
  box_public sk = pk /\ removed <> local /\ removed ∈ bt_keys (sd_members s) /\ local ∈ bt_keys (members_after s removed) /\
  exists bridge_id row notify, find_bridge (sd_uid s) (st_private st) = Some row /\ bridge_id = br_id row /\
  if length (members_after s removed) <? 2 then
    exists packages, traverse (fun party => destroy_package_for seal_rnd (standard_dropped s removed) removed party secret) parties = Ok packages /\
      planned = {| pl_outcome := {| ro_uid := sd_uid s; ro_destroyed := true; ro_remaining_members := bt_keys (members_after s removed); ro_packages := packages |};
                   pl_kind := PlanDestroy (sd_uid s) bridge_id removed notify (sd_generation s) |}
  else
    exists packages dropped,
      packages_for_roster wrap seal_rnd (standard_after s removed (public_key new_secret) new_salt) KIND_ROTATE KIND_SUPERVISOR removed (Some new_secret) (Some secret)
        = Ok packages /\
      traverse (fun party => destroy_package_for seal_rnd (standard_dropped s removed) removed party secret)
        (filter (fun party => bt_contains (bp_label party) (members_after s removed) || bt_contains (bp_label party) (supervisors_after s removed) = false) parties)
        = Ok dropped /\
      planned = {| pl_outcome := {| ro_uid := sd_uid s; ro_destroyed := false; ro_remaining_members := bt_keys (members_after s removed);
                                    ro_packages := packages ++ dropped |};
                   pl_kind := PlanRotate (sd_uid s) bridge_id removed notify local (sd_generation s) (u32_succ (sd_generation s)) (public_key new_secret) new_salt
                                (members_after s removed) (supervisors_after s removed) new_secret |}.
Proof.
  intros HW HK H sealed parties. destruct (knows_get _ _ _ _ _ HW HK) as (row & EF & EG). unfold plan_remove_member in H. rewrite EG in H.
  cbn [mbind result_bind bu_destroyed bu_parties bu_generation bu_label bu_public_key bu_salt] in H. fold sealed parties in H.
  case_bool_decide as Ene; [done|]. apply bind_Ok in H as (lp & ELp%ok_or_Ok & H). case_bool_decide as Epk; [|done]. simpl in H.
  destruct (existsb _ parties) eqn:ER; [|done]. simpl in H. apply bind_Ok in H as (sec & ES & H).
  pose proof (remaining_members_shown (Some local) sealed s removed (proj1 (sw_members _ HW))) as ERm. fold parties in ERm. rewrite ERm in H.
  pose proof (supervisor_pubs_shown (Some local) sealed s removed) as ESp. fold parties in ESp.
  cbn [mbind result_bind] in H. rewrite ESp in H. unfold last_bridge_id in H. rewrite EF in H. cbn [ok_or mbind result_bind] in H.
  assert (forall p, p ∈ parties -> bp_role p = Member -> exists keys, (bp_label p, keys) ∈ sd_members s /\ bp_encryption p = mk_encryption keys) as HPm.
  { intros p [([k keys] & -> & Hin)%list_elem_of_fmap|(e & -> & _)%list_elem_of_fmap]%elem_of_app; [|done]. simpl. eauto. }
  apply fmap_Some in ELp as ([i lp'] & (Hlp & (Ell & Elr & _) & _)%list_find_Some & ->). apply list_elem_of_lookup_2 in Hlp. simpl in Epk.
  destruct (HPm lp' Hlp Elr) as (keys & Hkeys & Ekeys).
  assert (box_public sk = pk) as Hpk.
  { rewrite Epk, Ekeys. rewrite Ell in Hkeys. destruct (kn_local _ _ _ _ _ HK) as [(keys' & Hin' & <-)|Hin'].
    - f_equal. pose proof (bt_sorted_get _ _ _ (proj1 (sw_members _ HW)) Hkeys). pose proof (bt_sorted_get _ _ _ (proj1 (sw_members _ HW)) Hin'). congruence.
    - exfalso. eapply (sw_disjoint _ HW local); apply list_elem_of_fmap; [by exists (local, keys)|by exists (local, pk)]. }
  assert (sec = secret) as ->.
  { pose proof (kn_secret _ _ _ _ _ HK secret eq_refl sk Hpk) as E. congruence. }
  assert (removed ∈ bt_keys (sd_members s)) as Hrem.
  { apply existsb_exists in ER as (p & Hp%list_elem_of_In & [E1%bool_decide_eq_true E2%bool_decide_eq_true]%andb_true_iff).
    destruct (HPm p Hp E2) as (ks & Hks & _). rewrite E1 in Hks. apply list_elem_of_fmap. by exists (removed, ks). }
  assert (local ∈ bt_keys (members_after s removed)) as Hloc.
  { apply list_elem_of_fmap. exists (local, keys). split; [done|]. apply list_elem_of_filter. split; [done|]. by rewrite <- Ell. }
  split; [done|]. split; [done|]. split; [done|]. split; [done|]. exists (br_id row), row. eexists. split; [done|]. split; [done|].
  unfold summary_standard in H. cbn [bu_uid bu_generation bu_label bu_public_key bu_salt] in H.
  assert (default [] (empty_to_none (sd_label s)) = sd_label s) as EL by (unfold empty_to_none; by case_bool_decide).
  rewrite EL in H. destruct (length (members_after s removed) <? 2).
  - apply bind_Ok in H as (packages & EPk & [= <-]). exists packages. split; [exact EPk|reflexivity].
  - apply bind_Ok in H as (packages & EPk & (dropped & ED & [= <-])%bind_Ok). exists packages, dropped. split; [exact EPk|]. split; [exact ED|reflexivity].
Qed.
End plan.

(** ** Importing at another store *)

Lemma filter_unique {A K} (f : A -> K) (P : A -> Prop) `{!forall x, Decision (P x)} (l : list A) row :
  NoDup (map f l) -> row ∈ l -> P row -> (forall x, x ∈ l -> P x -> f x = f row) -> filter P l = [row].
Proof.
  intros HN Hr HP Hu. induction l as [|x l IH]; [set_solver|]. apply NoDup_cons in HN as [Hx HN]. rewrite filter_cons.
  apply elem_of_cons in Hr as [<-|Hr].
  - rewrite decide_True by done. f_equal. apply filter_none, Forall_forall. intros y Hy HPy. apply Hx. rewrite <- (Hu y); [by apply list_elem_of_fmap_2|by right|done].
  - rewrite decide_False; [apply IH; [done|done|intros y Hy; apply Hu; by right]|]. intros HPx. apply Hx. rewrite (Hu x); [by apply list_elem_of_fmap_2|left|done].
Qed.

Lemma update_one t uid row (P : BridgeRow -> bool) : tables_ok t -> find_bridge uid t = Some row -> P row = true ->
  (forall r, P r = true -> br_uid r = uid) -> filter (fun r => P r = true) (tb_bridges t) = [row].
Proof.
  intros HT EF HP Hu. apply find_bridge_Some in EF as [Hr Eu]. apply (filter_unique br_uid); [apply HT|done|done|].
  intros r _ HPr. rewrite Eu. by apply Hu.
Qed.

(** The row an update of one bridge leaves behind. *)
Lemma find_updated t uid row P g : tables_ok t -> find_bridge uid t = Some row -> P row = true -> (forall r, br_uid (g r) = br_uid r) ->
  find_bridge uid (set_tb_bridges (map (fun r => if P r then g r else r) (tb_bridges t)) t) = Some (g row).
Proof.
  intros HT EF HP Hg. rewrite find_bridge_map, EF; [simpl; by rewrite HP|]. intros r. destruct (P r); [apply Hg|done].
Qed.

Lemma map_updated_ids t (P : BridgeRow -> bool) g : (forall r, br_id (g r) = br_id r) ->
  map br_id (map (fun r => if P r then g r else r) (tb_bridges t)) = map br_id (tb_bridges t).
Proof. intros Hg. rewrite map_map. apply map_ext. intros r. destruct (P r); [apply Hg|done]. Qed.

Context `{!CryptoLaws C}.

Lemma verify_update_auth_Ok f secret preimage pk : update_auth_preimage f = Ok preimage -> public_key secret = pk ->
  verify_update_auth {| dc_fields := f; dc_auth_sig := Some (sign secret preimage) |} pk = Ok tt.
Proof. intros E <-. unfold verify_update_auth. simpl. rewrite E. simpl. apply verify_sign. Qed.

Lemma encoded_auth rnd f old data : encode_package rnd f (Some old) = Ok data ->
  exists preimage, update_auth_preimage f = Ok preimage /\ auth_of f (Some old) = Some (sign old preimage).
Proof.
  unfold encode_package. destruct (is_weak_x25519_public_key _); [done|]. intros (payload & E & _)%bind_Ok. unfold encode_payload in E. inv_ok.
  unfold auth_of. unfold push_auth in *. destruct (update_auth_preimage f) as [p|]; [eauto|done].
Qed.

Lemma apply_rotate_knows rnd s s' kind removed local pk role w sec secret preimage st held :
  let f := fields_for s' kind removed local pk role w sec in
  standard_wf s -> standard_wf s' -> sd_uid s' = sd_uid s -> sd_generation s' = u32_succ (sd_generation s) -> sd_label s' = sd_label s ->
  knows st s local pk held -> tables_ok (st_private st) -> validate_decoded_recipient f = Ok tt -> secret_shape w sec ->
  is_weak_x25519_public_key pk = false -> update_auth_preimage f = Ok preimage -> public_key secret = sd_public_key s ->
  exists st', apply_rotate rnd {| dc_fields := f; dc_auth_sig := Some (sign secret preimage) |} st = (Ok tt, st') /\ knows st' s' local pk (kept role sec).
Proof.
  intros f HW HW' Eu Eg El HK HT HV HSh Hweak Hpre Hpub. destruct (knows_get _ _ _ _ _ HW HK) as (row & EF & EG).
  destruct (kn_row _ _ _ _ _ HK) as (row' & EF' & Erg & _ & _ & Erd & Erl & _). assert (row' = row) as -> by congruence.
  unfold apply_rotate. cbn [dc_fields]. rewrite (dbM_step _ _ st tt st) by (unfold db_try; by rewrite HV).
  change (pf_uid f) with (sd_uid s'). change (pf_generation f) with (sd_generation s'). rewrite Eu.
  erewrite dbM_step by (unfold query; by rewrite EG). cbn [bu_destroyed bu_generation bu_public_key]. rewrite Eg, N.eqb_refl. cbn [negb].
  rewrite (dbM_step _ _ st tt st) by (unfold db_try; by rewrite (verify_update_auth_Ok f secret preimage)).
  rewrite (dbM_step _ _ st (br_id row) st) by (unfold query, last_bridge_id; by rewrite EF). unfold transaction.
  set (g := set_standard _ _ _ _). set (P := live_at (sd_uid s) (sd_generation s)). set (t := st_private st) in *.
  assert (P row = true) as HP.
  { unfold P, live_at. apply find_bridge_Some in EF as [_ ->]. rewrite bool_decide_true, Erg, N.eqb_refl, Erd by done. done. }
  set (st1 := set_private (set_tb_bridges (map (fun r => if P r then g r else r) (tb_bridges t)) t) st).
  rewrite (dbM_step _ _ st 1 st1); cycle 1.
  { unfold update_bridges. fold t. by rewrite (update_one t (sd_uid s) row P HT EF HP (live_at_uid _ _)). }
  rewrite Nat.eqb_refl. cbn [negb]. rewrite (proj2 (N.eqb_neq _ _)) by (rewrite <- Eg; pose proof (sw_positive _ HW'); lia).
  unfold delete_parties at 1, on_private at 1, execute at 1. erewrite dbM_step by reflexivity.
  unfold delete_sealed at 1, on_private at 1, execute at 1. erewrite dbM_step by reflexivity. set (st3 := set_private _ (set_private _ st1)).
  assert (find_bridge (sd_uid s') (st_private st3) = Some (g row)) as EF3.
  { rewrite Eu. change (find_bridge (sd_uid s) (st_private st3)) with (find_bridge (sd_uid s) (st_private st1)). by apply find_updated. }
  destruct (install_knows rnd s' kind removed local pk role w sec st3 (g row)) as (st4 & ER & HK4 & EB); try done.
  - unfold g. cbn [set_standard br_label]. change (pf_bridge_label f) with (sd_label s'). rewrite El, <- Erl. by destruct (empty_to_none (sd_label s)).
  - intros p [Hp _]%list_elem_of_filter. by apply bool_decide_eq_false in Hp.
  - intros x [Hx _]%list_elem_of_filter. done.
  - change (br_id (g row)) with (br_id row) in ER. rewrite (dbM_step _ _ _ _ _ ER). rewrite insert_event_Ok.
    + eexists. split; [done|]. by apply knows_event.
    + rewrite EB. change (tb_bridges (st_private st3)) with (map (fun r => if P r then g r else r) (tb_bridges t)). rewrite map_updated_ids by done.
      apply find_bridge_Some in EF as [? _]. by apply list_elem_of_fmap_2.
Qed.

(** The bridge is destroyed here and its secret is gone. *)
Definition torn_down (st : Store) (uid : bytes) : Prop :=
  exists row, find_bridge uid (st_private st) = Some row /\ br_destroyed row = true /\ forall l, has_sealed (st_private st) (br_id row) l = false.

Lemma apply_destroy_torn_down s s' kind removed named pk role secret preimage st local mine held :
  let f := fields_for s' kind removed named pk role None None in
  standard_wf s -> sd_uid s' = sd_uid s -> knows st s local mine held -> tables_ok (st_private st) ->
  update_auth_preimage f = Ok preimage -> public_key secret = sd_public_key s ->
  exists st', apply_destroy {| dc_fields := f; dc_auth_sig := Some (sign secret preimage) |} st = (Ok tt, st') /\ torn_down st' (sd_uid s) /\
    is_ok (bridge_get (sd_uid s) st') = true.
Proof.
  intros f HW Eu HK HT Hpre Hpub. destruct (knows_get _ _ _ _ _ HW HK) as (row & EF & EG).
  destruct (kn_row _ _ _ _ _ HK) as (row' & EF' & Erg & Erp & Ers & Erd & Erl & EPar & _). assert (row' = row) as -> by congruence.
  unfold apply_destroy. cbn [dc_fields]. change (pf_uid f) with (sd_uid s'). rewrite Eu.
  erewrite dbM_step by (unfold query; by rewrite EG). cbn [bu_destroyed bu_generation bu_public_key].
  rewrite (dbM_step _ _ st tt st) by (unfold db_try; by rewrite (verify_update_auth_Ok f secret preimage)).
  rewrite (dbM_step _ _ st (br_id row) st) by (unfold query, last_bridge_id; by rewrite EF). unfold transaction.
  set (t := st_private st) in *. assert (live (sd_uid s) row = true) as HP.
  { unfold live. apply find_bridge_Some in EF as [_ ->]. by rewrite bool_decide_true, Erd. }
  unfold update_bridges at 1. erewrite dbM_step by reflexivity. unfold delete_sealed at 1, on_private at 1, execute at 1. erewrite dbM_step by reflexivity.
  rewrite insert_event_Ok; cycle 1.
  { cbn [st_private set_private tb_bridges set_tb_bridges set_tb_sealed]. rewrite map_updated_ids by done. apply find_bridge_Some in EF as [? _]. by apply list_elem_of_fmap_2. }
  eexists. split; [done|]. set (t' := set_tb_events _ _). set (st' := set_private t' _).
  assert (find_bridge (sd_uid s) (st_private st') = Some (set_destroyed row)) as EF'' by by apply find_updated.
  split.
  - exists (set_destroyed row). split_and!; [done|done|]. intros l. unfold has_sealed. apply existsb_false. intros x [Hx _]%list_elem_of_filter.
    rewrite bool_decide_false; done.
  - unfold bridge_get. rewrite EF''. cbn [ok_or mbind result_bind].
    change (parties_of (br_id (set_destroyed row)) (st_private st')) with (parties_of (br_id row) t). rewrite EPar.
    rewrite roster_shown by by apply standard_roster. cbn [mbind result_bind set_destroyed br_generation br_public_key br_salt].
    rewrite Erg, (proj2 (N.ltb_lt _ _)) by apply HW. cbn [negb]. rewrite Erp, Ers, vec_to_32_Ok by apply HW. cbn [mbind result_bind].
    unfold vec_to_salt. by rewrite (sw_salt _ HW), Nat.eqb_refl.
Qed.

(** ** All stores in step *)

Lemma contact_labels s : map fst (contacts s) = bt_keys (sd_members s) ++ bt_keys (sd_supervisors s).
Proof. unfold contacts, bt_keys. rewrite map_app, map_map. done. Qed.

Lemma contact_NoDup s : standard_wf s -> NoDup (map fst (contacts s)).
Proof.
  intros HW. rewrite contact_labels. apply NoDup_app. split; [by apply bt_sorted_keys, HW|]. split; [apply HW|by apply bt_sorted_keys, HW].
Qed.

Lemma contact_unique s k v v' : standard_wf s -> (k, v) ∈ contacts s -> (k, v') ∈ contacts s -> v = v'.
Proof. intros HW H1 H2. pose proof (NoDup_map_eq fst _ _ _ (contact_NoDup s HW) H1 H2 eq_refl) as E. by injection E. Qed.

Lemma knows_contact st s local pk secret : knows st s local pk secret -> (local, pk) ∈ contacts s.
Proof.
  intros HK. apply elem_of_app. destruct (kn_local _ _ _ _ _ HK) as [(keys & Hin & <-)|Hin]; [left|by right].
  apply list_elem_of_fmap. by exists (local, keys).
Qed.

Lemma member_contact s removed k keys : (k, keys) ∈ members_after s removed -> (k, mk_encryption keys) ∈ contacts s.
Proof. intros [_ Hin]%list_elem_of_filter. apply elem_of_app. left. apply list_elem_of_fmap. by exists (k, keys). Qed.

Lemma shown_contact local sealed s p : p ∈ shown local sealed (sd_members s) (sd_supervisors s) -> (bp_label p, bp_encryption p) ∈ contacts s.
Proof. intros Hp. rewrite <- (shown_contacts local sealed). apply list_elem_of_fmap. by exists p. Qed.

(** Whether a label is a party of a standard. *)
Definition on_roster (s : Standard) (label : bytes) : bool := bt_contains label (sd_members s) || bt_contains label (sd_supervisors s).

(** The secret a party of a standard holds. *)
Definition secret_of (s : Standard) (label secret : bytes) : option bytes := if bt_contains label (sd_members s) then Some secret else None.

Lemma u32_succ_pos n : (n + 1 < u32_max)%N -> (1 <= n)%N -> u32_succ n <> 1%N.
Proof. intros Hn H1. unfold u32_succ. rewrite N.mod_small by lia. lia. Qed.

(** The fresh values of a rotation have the widths of their arrays. *)
Record fresh_wf (wrap : bytes -> bytes) (new_salt new_secret : bytes) : Prop := {
  fw_salt : fixed SALT_LEN new_salt;
  fw_secret : fixed 32 new_secret;
  fw_public : fixed 32 (public_key new_secret);
  fw_wrap l : fixed SALT_LEN (wrap l);
}.

Section step.
Context (wrap seal_rnd : bytes -> bytes) (new_salt new_secret : bytes) (fresh : fresh_wf wrap new_salt new_secret).
Context (s : Standard) (HW : standard_wf s) (next_generation : (sd_generation s + 1 < u32_max)%N).
Context (secret : bytes) (bridge_key : public_key secret = sd_public_key s) (removed : bytes).
Notation s' := (standard_after s removed (public_key new_secret) new_salt).

Lemma after_wf : standard_wf s'.
Proof. apply standard_after_wf; [done|done|apply fresh|apply fresh]. Qed.

(** A package of the new roster, imported by the party it is for. *)
Lemma rotation_imported packages pkg st b pk held sk local_rnd :
  text removed ->
  packages_for_roster wrap seal_rnd s' KIND_ROTATE KIND_SUPERVISOR removed (Some new_secret) (Some secret) = Ok packages -> pkg ∈ packages ->
  dp_label pkg = b -> knows st s b pk held -> tables_ok (st_private st) -> box_public sk = pk -> length (box_public sk) = 32 ->
  on_roster s' b = true /\ exists summary st', import_package local_rnd (dp_bytes pkg) sk st = (Ok summary, st') /\ knows st' s' b pk (secret_of s' b new_secret).
Proof.
  intros Hrem EP Hp <- HK HT Esk Hl. pose proof after_wf as HW'.
  destruct (packages_for_roster_elem _ _ _ _ _ _ _ _ _ _ EP Hp) as (kind & w & sec & EO & HR).
  apply package_for_Ok in EO as (_ & _ & _ & Hweak & EE). set (pkr := dp_recipient_public_key pkg) in *.
  set (f := fields_for s' kind removed (dp_label pkg) pkr (dp_role pkg) w sec) in *.
  assert ((dp_label pkg, pkr) ∈ contacts s /\ validate_decoded_recipient f = Ok tt /\ text (dp_label pkg) /\ secret_shape w sec /\
    kept (dp_role pkg) sec = secret_of s' (dp_label pkg) new_secret /\ on_roster s' (dp_label pkg) = true) as (Hc & HV & Ht & HSh & Hk & Hon).
  { unfold f, secret_of, on_roster. destruct (dp_role pkg).
    - destruct HR as (-> & -> & -> & keys & Hin & Ek). assert (bt_contains (dp_label pkg) (sd_members s') = true) as ->.
      { unfold bt_contains. apply bool_decide_eq_true, bt_get_keys, list_elem_of_fmap. by exists (dp_label pkg, keys). }
      split_and!; [rewrite <- Ek; exact (member_contact s removed _ _ Hin)|by eapply validate_member|by eapply member_label_text| |done|done]. split; apply fresh.
    - destruct HR as (-> & -> & -> & Hin). destruct (bt_contains (dp_label pkg) (sd_members s')) eqn:Ec.
      { exfalso. unfold bt_contains in Ec. apply bool_decide_eq_true, bt_get_keys in Ec. apply (sw_disjoint _ HW' _ Ec).
        apply list_elem_of_fmap. by exists (dp_label pkg, pkr). }
      assert (bt_contains (dp_label pkg) (sd_supervisors s') = true) as ->.
      { unfold bt_contains. apply bool_decide_eq_true, bt_get_keys, list_elem_of_fmap. by exists (dp_label pkg, pkr). }
      split_and!; [by apply (supervisors_after_spec s removed)|by eapply validate_supervisor|by eapply supervisor_label_text|done|done|done]. }
  assert (pkr = pk) as Epk by (eapply contact_unique; [exact HW|exact Hc|by eapply knows_contact]).
  split; [done|]. destruct (encoded_auth _ _ _ _ EE) as (preimage & Hpre & Hauth).
  rewrite <- Epk in HK, Esk. rewrite <- Epk. clear Epk pk. destruct (apply_rotate_knows local_rnd s s' kind removed (dp_label pkg) pkr (dp_role pkg) w sec secret preimage st held) as (st' & EA & HK'); try done.
  assert (apply_package local_rnd {| dc_fields := f; dc_auth_sig := Some (sign secret preimage) |} st = (Ok tt, st')) as EAp.
  { unfold apply_package. cbn [dc_fields dc_auth_sig]. change (pf_kind f) with kind. change (pf_generation f) with (sd_generation s').
    destruct (dp_role pkg); destruct HR as (-> & _).
    - rewrite decide_False by done. rewrite decide_False by (by intros [? _]). by rewrite decide_True by auto.
    - rewrite decide_False by done. rewrite decide_False by naive_solver. by rewrite decide_True by auto. }
  rewrite (import_opened (seal_rnd (dp_label pkg)) f (Some secret)); [|by apply fields_wf|done|done|done]. rewrite Hauth.
  rewrite (dbM_step _ _ _ _ _ EAp). rewrite Hk in HK'. destruct (knows_get _ _ _ _ _ HW' HK') as (row & _ & EG).
  eexists _, st'. split; [unfold query; change (pf_uid f) with (sd_uid s'); rewrite EG; reflexivity|done].
Qed.

(** A destroy notice, imported by any party that knows the bridge and can open it. *)
Lemma destroy_imported party pkg st b mine held sk local_rnd :
  text removed -> text (bp_label party) ->
  destroy_package_for seal_rnd (standard_dropped s removed) removed party secret = Ok pkg ->
  knows st s b mine held -> tables_ok (st_private st) -> box_public sk = bp_encryption party -> length (box_public sk) = 32 ->
  exists summary st', import_package local_rnd (dp_bytes pkg) sk st = (Ok summary, st') /\ torn_down st' (sd_uid s).
Proof.
  intros Hrem Ht EP HK HT Esk Hl. apply package_for_Ok in EP as (_ & _ & _ & _ & EE).
  set (f := fields_for (standard_dropped s removed) KIND_DESTROY removed (bp_label party) (bp_encryption party) (bp_role party) None None) in *.
  destruct (encoded_auth _ _ _ _ EE) as (preimage & Hpre & Hauth).
  destruct (apply_destroy_torn_down s (standard_dropped s removed) KIND_DESTROY removed (bp_label party) (bp_encryption party) (bp_role party) secret
    preimage st b mine held) as (st' & EA & HD & HG); try done.
  rewrite (import_opened (seal_rnd (bp_label party)) f (Some secret)); [|by apply fields_wf; [apply standard_dropped_wf|..]|done|done|done]. rewrite Hauth.
  rewrite (dbM_step _ _ _ _ _ EA). unfold query. change (pf_uid f) with (sd_uid s).
  destruct (bridge_get (sd_uid s) st') as [summary|e]; [|done]. eauto.
Qed.

Lemma removed_text : removed ∈ bt_keys (sd_members s) -> text removed.
Proof. intros ([k keys] & -> & Hin)%list_elem_of_fmap. by eapply member_label_text. Qed.

(** Committing the plan where it was made. The statements of [persist_rotation]
    come to the same as those of an import after the old rows are gone. *)
Lemma persist_as_replace local_rnd wrap_salt id a keys new_members new_supervisors kind pk st :
  roster_ok new_members new_supervisors -> id ∈ map br_id (tb_bridges (st_private st)) -> bt_get a new_members = Some keys -> mk_encryption keys = pk ->
  (forall p, p ∈ tb_parties (st_private st) -> py_bridge_id p <> id) ->
  sd_members s' = new_members -> sd_supervisors s' = new_supervisors ->
  (_ ← insert_member_parties id new_members (Some a);
   _ ← insert_supervisor_parties id new_supervisors (Some a);
   _ ← delete_sealed id;
   seal_local_if_member wrap_salt local_rnd id a new_members new_secret) st =
  replace_roster_and_secret local_rnd id (fields_for s' kind removed a pk Member (Some wrap_salt) (Some new_secret))
    (set_private (set_tb_sealed (filter (fun x => sl_bridge_id x <> id) (tb_sealed (st_private st))) (st_private st)) st).
Proof.
  intros HR Hid Hget Epk Hfree EM ES. unfold replace_roster_and_secret. cbn [pf_members pf_supervisors pf_recipient_label pf_wrap_salt pf_secret pf_role pf_recipient_public_key fields_for].
  rewrite EM, ES.
  assert (forall (k : dbM unit) st, id ∈ map br_id (tb_bridges (st_private st)) -> (forall p, p ∈ tb_parties (st_private st) -> py_bridge_id p <> id) ->
    (_ ← insert_member_parties id new_members (Some a); _ ← insert_supervisor_parties id new_supervisors (Some a); k) st =
    k (set_private (set_tb_parties (tb_parties (st_private st) ++ roster_rows id (Some a) new_members new_supervisors) (st_private st)) st)) as Hins.
  { clear - HR. intros k st Hid Hfree. pose proof (insert_roster_Ok id (Some a) _ _ st HR Hid Hfree) as E. unfold mbind, dbM_bind in *.
    destruct (insert_member_parties _ _ _ st) as [[[]|e] sa]; [|done]. by rewrite E. }
  rewrite !Hins by done. unfold delete_sealed at 1, on_private, execute. erewrite dbM_step by reflexivity. unfold seal_local_if_member. by rewrite Hget, Epk.
Qed.

Lemma persist_rotation_knows stA a pkA row wrap_salt local_rnd :
  knows stA s a pkA (Some secret) -> tables_ok (st_private stA) -> find_bridge (sd_uid s) (st_private stA) = Some row ->
  a ∈ bt_keys (members_after s removed) -> is_weak_x25519_public_key pkA = false -> fixed SALT_LEN wrap_salt ->
  exists stA', persist_rotation wrap_salt local_rnd (sd_uid s) (br_id row) (sd_generation s) (u32_succ (sd_generation s)) (public_key new_secret) new_salt
      (members_after s removed) (supervisors_after s removed) a new_secret stA = (Ok tt, stA') /\
    knows stA' s' a pkA (Some new_secret) /\ map br_id (tb_bridges (st_private stA')) = map br_id (tb_bridges (st_private stA)).
Proof.
  intros HK HT EF Ha Hweak Hws. destruct (kn_row _ _ _ _ _ HK) as (row' & EF' & Erg & _ & _ & Erd & Erl & _). assert (row' = row) as -> by congruence.
  pose proof after_wf as HW'. unfold persist_rotation.
  set (g := set_standard _ _ _ _). set (P := live_at (sd_uid s) (sd_generation s)). set (t := st_private stA) in *.
  assert (P row = true) as HP.
  { unfold P, live_at. apply find_bridge_Some in EF as [_ ->]. rewrite bool_decide_true, Erg, N.eqb_refl, Erd by done. done. }
  set (st1 := set_private (set_tb_bridges (map (fun r => if P r then g r else r) (tb_bridges t)) t) stA).
  rewrite (dbM_step _ _ stA 1 st1); cycle 1.
  { unfold update_bridges. fold t. by rewrite (update_one t (sd_uid s) row P HT EF HP (live_at_uid _ _)). }
  rewrite Nat.eqb_refl. cbn [negb]. rewrite (proj2 (N.eqb_neq _ _)) by (pose proof (sw_positive _ HW') as H0; cbn [sd_generation standard_after] in H0; lia).
  unfold delete_parties at 1, on_private at 1, execute at 1. erewrite dbM_step by reflexivity. set (st2 := set_private _ st1).
  apply list_elem_of_fmap in Ha as ([a' keys] & -> & Ha). cbn [fst] in *.
  assert (bt_get a' (members_after s removed) = Some keys) as Hget by (apply bt_sorted_get; [apply HW'|done]).
  assert (mk_encryption keys = pkA) as Epk by (eapply contact_unique; [exact HW|by eapply member_contact|by eapply knows_contact]).
  rewrite (persist_as_replace local_rnd wrap_salt (br_id row) a' keys (members_after s removed) (supervisors_after s removed) KIND_ROTATE pkA st2 (standard_roster _ HW')); try done; cycle 1.
  { change (tb_bridges (st_private st2)) with (map (fun r => if P r then g r else r) (tb_bridges t)). rewrite map_updated_ids by done.
    apply find_bridge_Some in EF as [? _]. by apply list_elem_of_fmap_2. }
  { intros p [Hp _]%list_elem_of_filter. by apply bool_decide_eq_false in Hp. }
  set (st3 := set_private _ st2). assert (find_bridge (sd_uid s') (st_private st3) = Some (g row)) as EF3.
  { change (find_bridge (sd_uid s) (st_private st1) = Some (g row)). by apply find_updated. }
  destruct (install_knows local_rnd s' KIND_ROTATE removed a' pkA Member (Some wrap_salt) (Some new_secret) st3 (g row)) as (st4 & ER & HK4 & EB); try done.
  - eapply validate_member; [done|exact Ha|done].
  - split; [done|apply fresh].
  - intros p [Hp _]%list_elem_of_filter. by apply bool_decide_eq_false in Hp.
  - intros x [Hx _]%list_elem_of_filter. done.
  - eexists. split; [exact ER|]. split; [done|]. rewrite EB. change (tb_bridges (st_private st3)) with (map (fun r => if P r then g r else r) (tb_bridges t)).
    by rewrite map_updated_ids.
Qed.

(** The store that made a plan commits it. *)
Lemma commit_removal_knows stA a pkA skA planned wrap_salt local_rnd :
  knows stA s a pkA (Some secret) -> tables_ok (st_private stA) -> fixed SALT_LEN wrap_salt ->
  plan_remove_member wrap seal_rnd new_salt new_secret (sd_uid s) removed a skA stA = Ok planned ->
  exists stA', commit_planned_removal wrap_salt local_rnd planned stA = (Ok tt, stA') /\
    if ro_destroyed (pl_outcome planned) then torn_down stA' (sd_uid s) else knows stA' s' a pkA (Some new_secret).
Proof.
  intros HK HT Hws EP. destruct (plan_remove_Ok wrap seal_rnd new_salt new_secret stA s a pkA secret removed skA planned HW HK EP)
    as (_ & _ & Hrem & Hloc & bridge_id & row & notify & EF & -> & HP). apply find_bridge_Some in EF as Hrow. destruct Hrow as [Hrow _].
  destruct (kn_row _ _ _ _ _ HK) as (row' & EF' & Erg & _ & _ & Erd & _). assert (row' = row) as -> by congruence.
  destruct (length (members_after s removed) <? 2).
  - destruct HP as (packages & _ & ->). unfold commit_planned_removal, pl_kind, transaction. cbn [pl_outcome ro_destroyed].
    set (t := st_private stA) in *. assert (live_at (sd_uid s) (sd_generation s) row = true) as HPr.
    { unfold live_at. apply find_bridge_Some in EF as [_ ->]. rewrite bool_decide_true, Erg, N.eqb_refl, Erd by done. done. }
    set (st1 := set_private (set_tb_bridges (map (fun r => if live_at (sd_uid s) (sd_generation s) r then set_destroyed r else r) (tb_bridges t)) t) stA).
    rewrite (dbM_step _ _ stA 1 st1); cycle 1.
    { unfold update_bridges. fold t. by rewrite (update_one t (sd_uid s) row _ HT EF HPr (live_at_uid _ _)). }
    rewrite Nat.eqb_refl. cbn [negb]. unfold delete_sealed at 1, on_private at 1, execute at 1. erewrite dbM_step by reflexivity. rewrite insert_event_Ok.
    + eexists. split; [done|]. exists (set_destroyed row). split_and!; [by apply find_updated|done|]. intros l. unfold has_sealed. apply existsb_false.
      intros x [Hx _]%list_elem_of_filter. rewrite bool_decide_false; done.
    + simpl. rewrite map_updated_ids by done. by apply list_elem_of_fmap_2.
  - destruct HP as (packages & dropped & EPk & _ & ->). unfold commit_planned_removal, pl_kind, transaction. cbn [pl_outcome ro_destroyed].
    assert (party_key s' a pkA) as Hpk.
    { apply list_elem_of_fmap in Hloc as ([a' keys] & -> & Hin). left. exists keys. split; [done|].
      eapply contact_unique; [exact HW|exact (member_contact s removed _ _ Hin)|by eapply knows_contact]. }
    pose proof (packages_not_weak _ _ _ _ _ _ _ _ _ _ _ EPk Hpk) as Hweak.
    destruct (persist_rotation_knows stA a pkA row wrap_salt local_rnd HK HT EF Hloc Hweak Hws) as (st4 & ER & HK4 & EB).
    rewrite (dbM_step _ _ _ _ _ ER). assert (br_id row ∈ map br_id (tb_bridges (st_private st4))) as Hid by (rewrite EB; by apply list_elem_of_fmap_2).
    erewrite dbM_step by by apply insert_event_Ok. rewrite insert_event_Ok by done.
    eexists. split; [done|]. by apply knows_event, knows_event.
Qed.

(** What a package of a removal does at the store of its party. *)
Lemma removal_delivered stA a pkA skA planned stB b pkB held pkg skB local_rnd :
  knows stA s a pkA (Some secret) ->
  plan_remove_member wrap seal_rnd new_salt new_secret (sd_uid s) removed a skA stA = Ok planned ->
  knows stB s b pkB held -> tables_ok (st_private stB) -> pkg ∈ ro_packages (pl_outcome planned) -> dp_label pkg = b ->
  box_public skB = pkB -> length (box_public skB) = 32 ->
  exists summary stB', import_package local_rnd (dp_bytes pkg) skB stB = (Ok summary, stB') /\
    if negb (ro_destroyed (pl_outcome planned)) && on_roster s' b then knows stB' s' b pkB (secret_of s' b new_secret) else torn_down stB' (sd_uid s).
Proof.
  intros HKA EP HKB HT Hp <- Esk Hl. destruct (plan_remove_Ok wrap seal_rnd new_salt new_secret stA s a pkA secret removed skA planned HW HKA EP)
    as (_ & _ & Hrem & _ & bridge_id & row & notify & _ & _ & HP). apply removed_text in Hrem.
  assert (forall party, party ∈ shown (Some a) (fun l => bool_decide (Some secret <> None /\ l = a)) (sd_members s) (sd_supervisors s) ->
    destroy_package_for seal_rnd (standard_dropped s removed) removed party secret = Ok pkg ->
    exists summary stB', import_package local_rnd (dp_bytes pkg) skB stB = (Ok summary, stB') /\ torn_down stB' (sd_uid s)) as HD.
  { intros party Hparty ED. apply shown_contact in Hparty. apply package_for_Ok in ED as HL. destruct HL as (El & _). rewrite El in HKB.
    assert (bp_encryption party = pkB) as Epk by (eapply contact_unique; [exact HW|exact Hparty|by eapply knows_contact]).
    eapply (destroy_imported party pkg stB (bp_label party) pkB held skB); try done; [by eapply contact_wf|congruence]. }
  destruct (length (members_after s removed) <? 2).
  - destruct HP as (packages & ET & ->). simpl in Hp. destruct (traverse_elem _ _ _ _ ET Hp) as (party & Hparty & ED). cbn. by eapply HD.
  - destruct HP as (packages & dropped & EPk & ET & ->). cbn [pl_outcome ro_packages ro_destroyed negb andb] in *. apply elem_of_app in Hp as [Hp|Hp].
    + destruct (rotation_imported packages pkg stB (dp_label pkg) pkB held skB local_rnd Hrem EPk Hp eq_refl HKB HT Esk Hl) as (-> & summary & st' & E & HK).
      eauto.
    + destruct (traverse_elem _ _ _ _ ET Hp) as (party & [Hout Hparty]%list_elem_of_filter & ED). apply package_for_Ok in ED as HL. destruct HL as (El & _).
      unfold on_roster. cbn [sd_members sd_supervisors standard_after]. rewrite El, Hout. by eapply HD.
Qed.

(** The labels of the packages are those of the old roster, once each. *)
Lemma removal_packages_cover stA a pkA skA planned :
  knows stA s a pkA (Some secret) ->
  plan_remove_member wrap seal_rnd new_salt new_secret (sd_uid s) removed a skA stA = Ok planned ->
  map dp_label (ro_packages (pl_outcome planned)) ≡ₚ bt_keys (sd_members s) ++ bt_keys (sd_supervisors s) /\
  NoDup (map dp_label (ro_packages (pl_outcome planned))).
Proof.
  intros HKA EP. destruct (plan_remove_Ok wrap seal_rnd new_salt new_secret stA s a pkA secret removed skA planned HW HKA EP)
    as (_ & _ & _ & _ & bridge_id & row & notify & _ & _ & HP). set (parties := shown _ _ _ _) in HP.
  assert (map bp_label parties = map fst (contacts s)) as EL.
  { unfold parties. rewrite <- (shown_contacts (Some a) (fun l => bool_decide (Some secret <> None /\ l = a))). by rewrite map_map. }
  pose proof (contact_NoDup s HW) as HN. rewrite <- contact_labels.
  assert (forall l pkgs, traverse (fun party => destroy_package_for seal_rnd (standard_dropped s removed) removed party secret) l = Ok pkgs ->
    map dp_label pkgs = map bp_label l) as HT.
  { intros l pkgs. apply traverse_labels. by intros party pkg [? _]%package_for_Ok. }
  destruct (length (members_after s removed) <? 2).
  - destruct HP as (packages & ET & ->). simpl. rewrite (HT _ _ ET), EL. by split.
  - destruct HP as (packages & dropped & EPk & ET & ->). simpl. rewrite map_app, (HT _ _ ET).
    rewrite (packages_for_roster_labels _ _ _ _ _ _ _ _ _ EPk). cbn [sd_members sd_supervisors standard_after].
    set (new := bt_keys (members_after s removed) ++ bt_keys (supervisors_after s removed)).
    set (out := filter _ parties). destruct (roster_after_wf s removed HW) as ([HM _] & [HS _] & HD).
    assert (forall k, k ∈ map bp_label out <-> k ∈ map bp_label parties /\ k ∉ new) as Hout.
    { intros k. rewrite !list_elem_of_fmap. unfold out. setoid_rewrite list_elem_of_filter. unfold new.
      assert (forall k, bt_contains k (members_after s removed) || bt_contains k (supervisors_after s removed) = false <->
        k ∉ bt_keys (members_after s removed) ++ bt_keys (supervisors_after s removed)) as Hc.
      { intros k'. rewrite orb_false_iff, elem_of_app. unfold bt_contains. rewrite !bool_decide_eq_false, !bt_get_keys. tauto. }
      split; [intros (p & -> & H%Hc & Hp); eauto|]. intros ((p & -> & Hp) & H). exists p. rewrite Hc. done. }
    assert (NoDup (new ++ map bp_label out)) as HNn.
    { apply NoDup_app. split.
      - unfold new. apply NoDup_app. split; [by apply bt_sorted_keys|]. split; [exact HD|by apply bt_sorted_keys].
      - split; [intros k Hk [_ Hk']%Hout; done|]. unfold out. eapply sublist_NoDup; [|apply fmap_sublist, sublist_filter].
        change (NoDup (map bp_label parties)). by rewrite EL. }
    split; [|done]. apply NoDup_Permutation; [done|done|]. intros k. rewrite elem_of_app, Hout, EL. split; [|intros Hk; destruct (decide (k ∈ new)); auto].
    intros [Hk|[Hk _]]; [|done]. unfold new in Hk. apply elem_of_app in Hk as [([k' keys] & -> & Hin)%list_elem_of_fmap|([k' v] & -> & Hin)%list_elem_of_fmap].
    + apply member_contact in Hin. apply list_elem_of_fmap. exists (k', mk_encryption keys). by split.
    + apply supervisors_after_spec in Hin as [Hin _]. apply list_elem_of_fmap. exists (k', v). by split.
Qed.

(** C32: The removal of a member keeps the stores in step. Once a member's store has
    planned it, each party of the bridge is sent exactly one package; the planner's
    store commits without error; and every other store that knows the bridge as it
    was and imports the package with its label comes out, like the planner's,
    knowing the new standard (next generation, new key and salt, the roster without
    the removed member, the new secret for members only), or, if its party is
    dropped or fewer than two members remain, with the bridge destroyed and its
    secret gone. *)
Theorem removal_in_step stA a pkA skA planned :
  knows stA s a pkA (Some secret) -> tables_ok (st_private stA) ->
  plan_remove_member wrap seal_rnd new_salt new_secret (sd_uid s) removed a skA stA = Ok planned ->
  map dp_label (ro_packages (pl_outcome planned)) ≡ₚ bt_keys (sd_members s) ++ bt_keys (sd_supervisors s) /\
  NoDup (map dp_label (ro_packages (pl_outcome planned))) /\
  (forall wrap_salt local_rnd, fixed SALT_LEN wrap_salt -> exists stA', commit_planned_removal wrap_salt local_rnd planned stA = (Ok tt, stA') /\
     if ro_destroyed (pl_outcome planned) then torn_down stA' (sd_uid s) else knows stA' s' a pkA (Some new_secret)) /\
  (forall stB b pkB held pkg skB local_rnd, knows stB s b pkB held -> tables_ok (st_private stB) ->
     pkg ∈ ro_packages (pl_outcome planned) -> dp_label pkg = b -> box_public skB = pkB -> length (box_public skB) = 32 ->
     exists summary stB', import_package local_rnd (dp_bytes pkg) skB stB = (Ok summary, stB') /\
       if negb (ro_destroyed (pl_outcome planned)) && on_roster s' b then knows stB' s' b pkB (secret_of s' b new_secret) else torn_down stB' (sd_uid s)).
Proof.
  intros HK HT EP. destruct (removal_packages_cover stA a pkA skA planned HK EP) as [H1 H2]. split; [done|]. split; [done|].
  split; [intros; by eapply commit_removal_knows|]. intros. by eapply removal_delivered.
Qed.

(** A destroy notice works in a store it was not meant for: the party it is
    addressed to can open it and seal its content again for any other party of the
    bridge, and that party's store, still on the old generation, destroys the
    bridge, although the party is on the new roster. [apply_destroy] checks the
    signature but not, as the other imports do, that the recipient named is its
    own. *)
Theorem destroy_notice_transferable party pkg sk k pk payload rnd data b mine held stB skB local_rnd :
  removed ∈ bt_keys (sd_members s) -> (bp_label party, bp_encryption party) ∈ contacts s ->
  destroy_package_for seal_rnd (standard_dropped s removed) removed party secret = Ok pkg ->
  box_public sk = bp_encryption party -> open_as PACKAGE (dp_bytes pkg) sk = Ok (k, pk, payload) ->
  seal rnd PACKAGE k mine payload = Ok data ->
  knows stB s b mine held -> tables_ok (st_private stB) -> box_public skB = mine -> length (box_public skB) = 32 ->
  exists summary stB', import_package local_rnd data skB stB = (Ok summary, stB') /\ torn_down stB' (sd_uid s).
Proof.
  intros Hrem Hc EP Esk EO ES HK HT EskB Hl. destruct (contact_wf s _ _ HW Hc) as [Ht Hw]. apply removed_text in Hrem.
  set (f := fields_for (standard_dropped s removed) KIND_DESTROY removed (bp_label party) mine (bp_role party) None None).
  assert (k = KIND_DESTROY /\ encode_payload f (Some secret) = Ok payload) as [-> EPl].
  { apply package_for_Ok in EP as (_ & _ & _ & _ & EE). unfold encode_package in EE. destruct (is_weak_x25519_public_key _); [done|].
    apply bind_Ok in EE as (p & EPl & ES'). change (pf_recipient_public_key _) with (bp_encryption party) in ES'. rewrite <- Esk in ES'.
    apply open_seal in ES'; [|done|by rewrite Esk]. rewrite ES' in EO. injection EO as <- _ <-. split; [done|]. exact EPl. }
  set (party' := {| bp_label := bp_label party; bp_encryption := mine; bp_signing := bp_signing party; bp_role := bp_role party;
    bp_is_local := bp_is_local party; bp_has_sealed_key := bp_has_sealed_key party |}).
  assert (exists rnd' , encode_package rnd' f (Some secret) = Ok data) as [rnd' EE].
  { exists rnd. unfold encode_package. change (pf_recipient_public_key f) with mine. destruct (is_weak_x25519_public_key mine) eqn:Ew.
    - unfold seal in ES. by rewrite Ew in ES.
    - rewrite EPl. cbn [mbind result_bind]. exact ES. }
  destruct (encoded_auth _ _ _ _ EE) as (preimage & Hpre & Hauth).
  destruct (apply_destroy_torn_down s (standard_dropped s removed) KIND_DESTROY removed (bp_label party) mine (bp_role party) secret
    preimage stB b mine held) as (st' & EA & HD & HG); try done.
  rewrite (import_opened rnd' f (Some secret)); [|by apply fields_wf; [apply standard_dropped_wf|..]|done|done|done]. rewrite Hauth.
  rewrite (dbM_step _ _ _ _ _ EA). unfold query. change (pf_uid f) with (sd_uid s).
  destruct (bridge_get (sd_uid s) st') as [summary|e]; [|done]. eauto.
Qed.
End step.
End rotation.
