(* ===== verification/BridgeSafety.v ===== *)
(** * Signing with a private bridge across stores

    A member signs over its own store, another member verifies over its own. The
    laws say when the two agree, and what becomes of a signature once the bridge
    has moved on. *)

From S2P Require Import Prelude Text Crypto BTree Envelope HistoryCodec Authority Signing BridgeProof Tables KeyStore BridgePackage PrivateBridge BridgeRoster BridgeLaws BridgeRotation.

Section signing.
Context `{C : Crypto} `{HX : Hex}.

Definition member_fact (label : bytes) (keys : MemberKeys) : MemberFact := {| mf_label := label; mf_signing_public := Some (mk_signing keys) |}.

(** The members of the standard are the members of the facts. *)
Lemma proof_members_shown local sealed s :
  map (fun p => {| mf_label := bp_label p; mf_signing_public := bp_signing p |})
    (filter (fun p => is_member p = true) (shown local sealed (sd_members s) (sd_supervisors s))) = map (fun e => member_fact e.1 e.2) (sd_members s).
Proof.
  unfold shown. rewrite filter_app, filter_all, filter_none, app_nil_r, map_map; [done|..].
  - apply Forall_forall. intros p (e & -> & _)%list_elem_of_fmap. done.
  - apply Forall_forall. intros p (e & -> & _)%list_elem_of_fmap. done.
Qed.

Lemma find_member_list label (ms : btree MemberKeys) :
  snd <$> list_find (fun m => mf_label m = label) (map (fun e => member_fact e.1 e.2) ms) = member_fact label <$> bt_get label ms.
Proof.
  induction ms as [|[k v] ms IH]; [done|]. simpl. destruct (decide (k = label)) as [->|Hne].
  - by rewrite decide_True.
  - rewrite decide_False by congruence. rewrite <- IH. by destruct (list_find _ _) as [[]|].
Qed.

(** What a store that knows a standard has to go on. *)
Definition standard_facts (s : Standard) : BridgeFacts :=
  {| bf_uid := sd_uid s; bf_generation := sd_generation s; bf_salt := sd_salt s; bf_bridge_public := sd_public_key s; bf_destroyed := false;
     bf_members := map (fun e => member_fact e.1 e.2) (sd_members s) |}.

Lemma find_member_facts s label : find_member (standard_facts s) label = member_fact label <$> bt_get label (sd_members s).
Proof. apply find_member_list. Qed.

Lemma knows_facts st s local pk held : standard_wf s -> knows st s local pk held ->
  exists summary, bridge_get (sd_uid s) st = Ok summary /\ proof_facts summary (sd_uid s) = standard_facts s /\
    forall keys, (local, keys) ∈ sd_members s ->
      local_member summary local = {| lm_encryption_public := mk_encryption keys; lm_holds_sealed_key := bool_decide (held <> None /\ local = local) |}.
Proof.
  intros HW HK. destruct (knows_get _ _ _ _ _ HW HK) as (row & _ & EG). eexists. split; [exact EG|]. split.
  - unfold proof_facts, standard_facts, proof_members. cbn [bu_generation bu_salt bu_public_key bu_destroyed bu_parties]. by rewrite proof_members_shown.
  - intros keys Hin. unfold local_member. cbn [bu_parties]. set (P := fun p => _). set (parties := shown _ _ _ _).
    destruct (list_find P parties) as [[i p]|] eqn:EL.
    + apply list_find_Some in EL as (Hp & [El Er] & _). apply list_elem_of_lookup_2, elem_of_app in Hp as [(e & -> & He)%list_elem_of_fmap|(e & -> & He)%list_elem_of_fmap];
        [|done]. destruct e as [l keys']. simpl in El. subst l. pose proof (bt_sorted_get _ _ _ (proj1 (sw_members _ HW)) He) as E1.
      rewrite (bt_sorted_get _ _ _ (proj1 (sw_members _ HW)) Hin) in E1. by injection E1 as ->.
    + exfalso. apply list_find_None in EL. rewrite Forall_forall in EL.
      apply (EL (shown_member (Some local) (fun l => bool_decide (held <> None /\ l = local)) (local, keys))); [|done].
      apply elem_of_app. left. apply list_elem_of_fmap. by exists (local, keys).
Qed.

Context `{!CryptoLaws C}.

(** Bridge signatures carry between the stores of a bridge. A member whose
    store knows the bridge and holds its secret can sign; every other member's
    store in step with it accepts the signature, provided no local registry
    contradicts the roster's signing key; and a store that has moved on to another
    generation refuses it, whatever else it agrees on. *)
Theorem sign_verify_in_step stA s a pkA secret keys skA sgA salt message :
  standard_wf s -> knows stA s a pkA (Some secret) -> public_key secret = sd_public_key s ->
  (a, keys) ∈ sd_members s -> box_public skA = mk_encryption keys -> public_key sgA = mk_signing keys -> registry_agrees stA a (mk_signing keys) = Ok tt ->
  exists artifact, sign_message salt (sd_uid s) a skA sgA message stA = Ok artifact /\
    (forall stB b pkB held, knows stB s b pkB held -> b ∈ bt_keys (sd_members s) -> registry_agrees stB a (mk_signing keys) = Ok tt ->
       verify_message (sd_uid s) b message artifact stB = Ok tt) /\
    (forall stB s' b pkB held, standard_wf s' -> sd_uid s' = sd_uid s -> sd_generation s' <> sd_generation s -> knows stB s' b pkB held ->
       verify_message (sd_uid s) b message artifact stB = Err BridgeGenerationMismatch).
Proof.
  intros HW HK Epub Hin Ebox Esig Hreg. pose proof (bt_sorted_get _ _ _ (proj1 (sw_members _ HW)) Hin) as Hget.
  destruct (knows_facts _ _ _ _ _ HW HK) as (summary & EG & EF & EL).
  assert (pkA = mk_encryption keys) as Epk.
  { eapply contact_unique; [exact HW|by eapply knows_contact|]. apply elem_of_app. left. apply list_elem_of_fmap. by exists (a, keys). }
  pose proof (kn_secret _ _ _ _ _ HK secret eq_refl skA ltac:(congruence)) as EU. unfold unseal_local_secret in EU. apply bind_Ok in EU as (sealed & ES & EU).
  set (artifact := sign_with_bridge salt (sd_uid s) (sd_generation s) (sd_salt s) a secret sgA message). exists artifact. split_and!.
  - unfold sign_message. rewrite EG. cbn [mbind result_bind]. rewrite EF, (EL keys Hin). unfold prove_with. cbn [bf_destroyed standard_facts].
    rewrite find_member_facts, Hget. cbn [fmap option_fmap option_map ok_or mbind result_bind lm_holds_sealed_key lm_encryption_public mf_signing_public member_fact].
    rewrite bool_decide_true by done. cbn [negb]. rewrite (bool_decide_true (box_public skA = _)) by done. cbn [negb].
    rewrite (bool_decide_true (public_key sgA = _)) by done. cbn [negb]. rewrite Hreg. cbn [mbind result_bind]. rewrite ES. cbn [mbind result_bind]. rewrite EU.
    cbn [mbind result_bind]. rewrite bool_decide_true by done. done.
  - intros stB b pkB held HKB Hb HregB. destruct (knows_facts _ _ _ _ _ HW HKB) as (summaryB & EGB & EFB & _).
    unfold verify_message. rewrite EGB. cbn [mbind result_bind]. rewrite EFB. apply verify_with_Ok.
    cbn [bs_uid bs_generation bs_bridge_salt bs_signer_label artifact sign_with_bridge bf_destroyed bf_uid bf_generation bf_salt bf_bridge_public standard_facts].
    split_and!; try done.
    + rewrite find_member_facts. apply fmap_is_Some. by apply bt_get_keys.
    + exists (member_fact a keys), (mk_signing keys). rewrite find_member_facts, Hget. split_and!; try done. rewrite <- Epub, <- Esig. apply sign_with_bridge_verifies.
  - intros stB s' b pkB held HW' Eu Hg HKB. destruct (knows_facts _ _ _ _ _ HW' HKB) as (summaryB & EGB & EFB & _).
    unfold verify_message. rewrite <- Eu, EGB. cbn [mbind result_bind]. rewrite EFB. unfold verify_with.
    cbn [bs_uid bs_generation bs_bridge_salt artifact sign_with_bridge bf_destroyed bf_uid bf_generation bf_salt standard_facts].
    rewrite (bool_decide_false (sd_generation s = _)) by congruence. rewrite orb_true_r. done.
Qed.
End signing.

(** * What importing a package may do to the tables

    A package arrives from outside, so these laws are about any package and any
    store: the constraints of the schema are kept, and a bridge the store already
    has changes only under a signature of its own current key. *)

(** ** The relations *)

Definition keeps_tables : Store -> Store -> Prop := keeps (fun st => tables_ok (st_private st)).
#[export] Instance keeps_tables_preorder : PreOrder keeps_tables.
Proof. apply keeps_preorder. Qed.

Definition parties_at (id : nat) (t : BridgeTables) : list PartyRow := filter (fun p => py_bridge_id p = id) (tb_parties t).
Definition sealed_at (id : nat) (t : BridgeTables) : list SealedRow := filter (fun s => sl_bridge_id s = id) (tb_sealed t).

(** Parties and sealed keys of every other bridge are as before. *)
Definition roster_but (id : nat) (st st' : Store) : Prop := forall other, other <> id ->
  parties_at other (st_private st') = parties_at other (st_private st) /\ sealed_at other (st_private st') = sealed_at other (st_private st).
#[export] Instance roster_but_preorder id : PreOrder (roster_but id).
Proof.
  split; [by intros st other|]. intros st1 st2 st3 H1 H2 other Ho. destruct (H1 other Ho) as [<- <-]. by apply H2.
Qed.

(** The row of every other bridge is still there. *)
Definition rows_but (uid : bytes) (st st' : Store) : Prop := forall row, br_uid row <> uid ->
  row ∈ tb_bridges (st_private st) -> row ∈ tb_bridges (st_private st').
#[export] Instance rows_but_preorder uid : PreOrder (rows_but uid).
Proof. split; [by intros st row|]. intros st1 st2 st3 H1 H2 row Hr H. auto. Qed.

(** ** The statements *)

Lemma filter_absent {A} (P Q : A -> Prop) `{!forall x, Decision (P x), !forall x, Decision (Q x)} (l : list A) :
  (forall x, Q x -> P x) -> filter Q (filter P l) = filter Q l.
Proof.
  intros HQ. rewrite list_filter_filter. apply list_filter_iff. intros x. split; [by intros [? _]|auto].
Qed.

Lemma NoDup_snoc_fresh {A} (l : list A) x : NoDup l -> x ∉ l -> NoDup (l ++ [x]).
Proof. intros HN Hx. apply NoDup_app. split; [done|]. split; [by intros y Hy ->%list_elem_of_singleton|apply NoDup_singleton]. Qed.

Lemma NoDup_map_filter {A B} (f : A -> B) (P : A -> Prop) `{!forall x, Decision (P x)} (l : list A) : NoDup (map f l) -> NoDup (map f (filter P l)).
Proof. intros HN. eapply sublist_NoDup; [exact HN|]. apply fmap_sublist, sublist_filter. Qed.

Lemma insert_bridge_ok row : (forall id, br_id (row id) = id) -> respects keeps_tables (insert_bridge row).
Proof.
  intros Hid st r st'. unfold insert_bridge. set (t := st_private st). set (id := next_id br_id (tb_bridges t)).
  destruct (existsb _ (tb_bridges t)) eqn:B; [intros [= _ <-]; reflexivity|]. simpl. destruct (_ || _); intros [= _ <-]; [reflexivity|].
  intros HT. fold t in HT. cbn [st_private set_private]. destruct HT as [H1 H2 H3 HPK HRo H4 HSK]. split; simpl; try done.
  - rewrite map_app. apply NoDup_snoc_fresh; [done|]. intros (b & Eb & Hb)%list_elem_of_fmap. rewrite existsb_false in B.
    specialize (B b Hb). simpl in B. by rewrite bool_decide_true in B.
  - rewrite map_app. simpl. rewrite Hid. apply NoDup_snoc_fresh; [done|]. intros (b & Eb & Hb)%list_elem_of_fmap. by apply (next_id_fresh br_id _ b) in Hb.
  - intros p Hp. rewrite map_app. apply elem_of_app. left. auto.
Qed.
Lemma insert_bridge_rows uid row : respects (rows_but uid) (insert_bridge row).
Proof.
  intros st r st'. unfold insert_bridge. destruct (_ || _); intros [= _ <-]; [reflexivity|]. intros b _ Hb. simpl. apply elem_of_app. by left.
Qed.
Lemma insert_bridge_roster id row : respects (roster_but id) (insert_bridge row).
Proof. intros st r st'. unfold insert_bridge. destruct (_ || _); intros [= _ <-]; by intros ?. Qed.

Lemma insert_party_ok row : respects keeps_tables (insert_party row).
Proof.
  intros st r st'. unfold insert_party. destruct (existsb _ (tb_parties _)) eqn:B1; [intros [= _ <-]; reflexivity|]. simpl.
  destruct (negb match py_role row with Member => _ | Supervisor => _ end) eqn:B2; [intros [= _ <-]; reflexivity|]. simpl.
  destruct (existsb _ (tb_bridges _)) eqn:B3; intros [= _ <-]; [|reflexivity].
  apply existsb_exists in B3 as (b & Hb%list_elem_of_In & Eb%bool_decide_eq_true). rewrite existsb_false in B1. apply negb_false_iff in B2.
  intros [H1 H2 H3 HPK HRo H4 HSK]. split; simpl; try done.
  - intros p [Hp| ->%list_elem_of_singleton]%elem_of_app; [auto|]. rewrite <- Eb. by apply list_elem_of_fmap_2.
  - rewrite map_app. apply NoDup_snoc_fresh; [done|]. intros (p & [= E1 E2] & Hp)%list_elem_of_fmap. specialize (B1 p Hp). simpl in B1.
    by rewrite !bool_decide_true in B1.
  - intros p [Hp| ->%list_elem_of_singleton]%elem_of_app; [auto|]. unfold role_fits. destruct (py_role row), (py_signing row); try done. by apply Nat.eqb_eq.
  - intros s (p & Hp & E)%H4. exists p. split; [apply elem_of_app; by left|done].
Qed.
Lemma insert_party_rows uid row : respects (rows_but uid) (insert_party row).
Proof. intros st r st'. unfold insert_party. destruct (_ || _); intros [= _ <-]; by intros ?. Qed.
Lemma insert_party_roster id row : py_bridge_id row = id -> respects (roster_but id) (insert_party row).
Proof.
  intros <- st r st'. unfold insert_party. destruct (_ || _); intros [= _ <-]; [reflexivity|]. intros other Ho. unfold parties_at. simpl.
  rewrite filter_app, filter_cons_False by done. by rewrite filter_nil, app_nil_r.
Qed.

Lemma insert_sealed_ok row : respects keeps_tables (insert_sealed row).
Proof.
  intros st r st'. unfold insert_sealed. destruct (_ || _) eqn:B; intros [= _ <-]; [reflexivity|].
  apply orb_false_iff in B as [B (p & Hp%list_elem_of_In & [E1%bool_decide_eq_true E2%bool_decide_eq_true]%andb_true_iff)%negb_false_iff%existsb_exists].
  unfold has_sealed in B. rewrite existsb_false in B. intros [H1 H2 H3 HPK HRo H4 HSK]. split; simpl; try done.
  - intros s [Hs| ->%list_elem_of_singleton]%elem_of_app; [auto|]. by exists p.
  - rewrite map_app. apply NoDup_snoc_fresh; [done|]. intros (s & [= F1 F2] & Hs)%list_elem_of_fmap. specialize (B s Hs). simpl in B.
    by rewrite !bool_decide_true in B.
Qed.
Lemma insert_sealed_rows uid row : respects (rows_but uid) (insert_sealed row).
Proof. intros st r st'. unfold insert_sealed. destruct (_ || _); intros [= _ <-]; by intros ?. Qed.
Lemma insert_sealed_roster id row : sl_bridge_id row = id -> respects (roster_but id) (insert_sealed row).
Proof.
  intros <- st r st'. unfold insert_sealed. destruct (_ || _); intros [= _ <-]; [reflexivity|]. intros other Ho. unfold sealed_at. simpl.
  rewrite filter_app, filter_cons_False by done. by rewrite filter_nil, app_nil_r.
Qed.

Lemma insert_event_ok id type detail : respects keeps_tables (insert_event id type detail).
Proof. intros st r st'. unfold insert_event. destruct (negb _); intros [= _ <-]; [reflexivity|]. intros []. by split. Qed.
Lemma insert_event_rows uid id type detail : respects (rows_but uid) (insert_event id type detail).
Proof. intros st r st'. unfold insert_event. destruct (negb _); intros [= _ <-]; by intros ?. Qed.
Lemma insert_event_roster id id' type detail : respects (roster_but id) (insert_event id' type detail).
Proof. intros st r st'. unfold insert_event. destruct (negb _); intros [= _ <-]; by intros ?. Qed.

Lemma delete_parties_ok P : respects keeps_tables (delete_parties P).
Proof.
  intros st r st' [= _ <-] [H1 H2 H3 HPK HRo H4 HSK]. split; simpl; try done; try by (intros p [_ Hp]%list_elem_of_filter; auto).
  { by apply NoDup_map_filter. }
  2: { by apply NoDup_map_filter. }
  intros s [Hg Hs]%list_elem_of_filter. destruct (H4 s Hs) as (p & Hp & E1 & E2). exists p. split; [|done]. apply list_elem_of_filter. split; [|done].
  rewrite existsb_false in Hg. specialize (Hg p Hp). simpl in Hg. rewrite !bool_decide_true, !andb_true_r in Hg by done. done.
Qed.
Lemma delete_parties_rows uid P : respects (rows_but uid) (delete_parties P).
Proof. intros st r st' [= _ <-]. by intros ?. Qed.
Lemma delete_parties_roster id P : (forall p, P p = true -> py_bridge_id p = id) -> respects (roster_but id) (delete_parties P).
Proof.
  intros HP st r st' [= _ <-] other Ho. unfold parties_at, sealed_at. simpl. split; apply filter_absent.
  - intros p Ep. destruct (P p) eqn:E; [|done]. apply HP in E. congruence.
  - intros s Es. apply existsb_false. intros p _. destruct (P p) eqn:E; [|done]. apply HP in E. rewrite bool_decide_false; [done|]. congruence.
Qed.

Lemma delete_sealed_ok id : respects keeps_tables (delete_sealed id).
Proof.
  intros st r st' [= _ <-] [H1 H2 H3 HPK HRo H4 HSK]. split; simpl; try done; [by intros s [_ Hs]%list_elem_of_filter; auto|by apply NoDup_map_filter].
Qed.
Lemma delete_sealed_rows uid id : respects (rows_but uid) (delete_sealed id).
Proof. intros st r st' [= _ <-]. by intros ?. Qed.
Lemma delete_sealed_roster id : respects (roster_but id) (delete_sealed id).
Proof. intros st r st' [= _ <-] other Ho. unfold sealed_at. simpl. split; [done|]. apply filter_absent. congruence. Qed.

Lemma update_bridges_ok P g : (forall r, br_uid (g r) = br_uid r) -> (forall r, br_id (g r) = br_id r) -> respects keeps_tables (update_bridges P g).
Proof.
  intros Hu Hi st r st' [= _ <-] [H1 H2 H3 HPK HRo H4 HSK].
  assert (forall (A : Type) (f : BridgeRow -> A), (forall r, f (g r) = f r) -> forall l, map f (map (fun r => if P r then g r else r) l) = map f l) as HM.
  { intros A f Hf l. rewrite map_map. apply map_ext. intros b. destruct (P b); [apply Hf|done]. }
  split; simpl; rewrite ?HM by done; done.
Qed.
Lemma update_bridges_rows uid P g : (forall r, P r = true -> br_uid r = uid) -> respects (rows_but uid) (update_bridges P g).
Proof.
  intros HP st r st' [= _ <-] row Hne Hr. simpl. apply list_elem_of_fmap. exists row. split; [|done]. destruct (P row) eqn:E; [by apply HP in E|done].
Qed.
Lemma update_bridges_roster id P g : respects (roster_but id) (update_bridges P g).
Proof. intros st r st' [= _ <-]. by intros ?. Qed.

#[export] Hint Resolve insert_bridge_ok insert_bridge_rows insert_bridge_roster insert_party_ok insert_party_rows insert_party_roster insert_sealed_ok
  insert_sealed_rows insert_sealed_roster insert_event_ok insert_event_rows insert_event_roster delete_parties_ok delete_parties_rows
  delete_parties_roster delete_sealed_ok delete_sealed_rows delete_sealed_roster update_bridges_ok update_bridges_rows update_bridges_roster : frame.

(** ** Importing *)

Section import.
Context `{C : Crypto} `{HX : Hex} (rnd : bytes).

Lemma replace_roster_ok id f : respects keeps_tables (replace_roster_and_secret rnd id f).
Proof. unfold replace_roster_and_secret, insert_member_parties, insert_supervisor_parties. frame. Qed.
Lemma replace_roster_rows uid id f : respects (rows_but uid) (replace_roster_and_secret rnd id f).
Proof. unfold replace_roster_and_secret, insert_member_parties, insert_supervisor_parties. frame. Qed.
Lemma replace_roster_roster id f : respects (roster_but id) (replace_roster_and_secret rnd id f).
Proof. unfold replace_roster_and_secret, insert_member_parties, insert_supervisor_parties. frame. Qed.
Hint Resolve replace_roster_ok replace_roster_rows replace_roster_roster : frame.

(** The row and everything filed under it are as before. *)
Definition untouched (row : BridgeRow) (t t' : BridgeTables) : Prop :=
  row ∈ tb_bridges t' /\ parties_at (br_id row) t' = parties_at (br_id row) t /\ sealed_at (br_id row) t' = sealed_at (br_id row) t.

Lemma untouched_refl row t : row ∈ tb_bridges t -> untouched row t t.
Proof. done. Qed.

Lemma untouched_but uid st st' row own : tables_ok (st_private st) -> find_bridge uid (st_private st) = Some own ->
  rows_but uid st st' -> roster_but (br_id own) st st' -> row ∈ tb_bridges (st_private st) -> br_uid row <> uid ->
  untouched row (st_private st) (st_private st').
Proof.
  intros HT [Ho Eu]%find_bridge_Some HRows HRos Hr Hne. split; [by apply HRows|]. apply HRos. intros E.
  apply Hne. rewrite <- Eu. f_equal. eapply (NoDup_map_eq br_id); [apply HT|done..].
Qed.

(** An invite adds a bridge and touches none. *)
Lemma insert_from_invite_safe f st r st' : tables_ok (st_private st) -> insert_from_invite rnd f st = (r, st') ->
  tables_ok (st_private st') /\ forall row, row ∈ tb_bridges (st_private st) -> untouched row (st_private st) (st_private st').
Proof.
  intros HT E. split.
  { revert HT. change (keeps_tables st st'). eapply respects_run; [exact E|]. unfold insert_from_invite. frame. }
  unfold insert_from_invite in E. destruct (validate_decoded_recipient f) as [[]|e]; [|injection E as <- <-; intros; by apply untouched_refl].
  rewrite (dbM_step _ _ st tt st) in E by done. unfold query at 1 in E. erewrite dbM_step in E by reflexivity.
  case_bool_decide as Hknown; [injection E as <- <-; intros; by apply untouched_refl|]. unfold transaction in E.
  set (mk := fun id => {| br_id := id; br_uid := pf_uid f; br_key_id := None; br_label := empty_to_none (pf_bridge_label f); br_generation := pf_generation f;
    br_public_key := pf_public_key f; br_salt := pf_salt f; br_destroyed := false |}) in E.
  destruct (insert_bridge mk st) as [[id|e] st1] eqn:EI; cycle 1.
  { rewrite (dbM_fail _ _ _ _ _ EI) in E. injection E as <- <-. intros; by apply untouched_refl. }
  rewrite (dbM_step _ _ _ _ _ EI) in E. destruct (_ ≫= _) as [r2 st2] eqn:E2 in E.
  assert (roster_but id st1 st2) as HR2. { eapply respects_run; [exact E2|]. frame. }
  assert (roster_but id st st1) as HR1 by by eapply insert_bridge_roster.
  assert (forall uid, rows_but uid st st2) as HRows.
  { intros uid. etransitivity; [by eapply insert_bridge_rows|]. eapply respects_run; [exact E2|]. frame. }
  assert (id = next_id br_id (tb_bridges (st_private st))) as Eid.
  { unfold insert_bridge in EI. destruct (_ || _); [done|]. by injection EI as <- _. }
  intros row Hr. assert (untouched row (st_private st) (st_private st2)) as HU.
  { split; [apply (HRows (x00 :: br_uid row)); [intros Eu%(f_equal length); simpl in Eu; lia|done]|]. apply (transitivity HR1 HR2). rewrite Eid. by apply next_id_fresh. }
  destruct r2; injection E as <- <-; [done|by apply untouched_refl].
Qed.

(** The package that may change a live bridge: signed with its current key, and
    either the end of the bridge or its next generation. *)
Definition authorised (decoded : DecodedPackage) (row : BridgeRow) : Prop :=
  pf_uid (dc_fields decoded) = br_uid row /\ br_destroyed row = false /\ verify_update_auth decoded (br_public_key row) = Ok tt /\
  (pf_kind (dc_fields decoded) = KIND_DESTROY \/ pf_generation (dc_fields decoded) = u32_succ (br_generation row)).

Lemma bridge_get_row uid st summary : bridge_get uid st = Ok summary -> exists row, find_bridge uid (st_private st) = Some row /\
  bu_destroyed summary = br_destroyed row /\ bu_generation summary = br_generation row /\ bu_public_key summary = br_public_key row.
Proof.
  unfold bridge_get. destruct (find_bridge uid (st_private st)) as [row|]; [|done]. cbn [ok_or mbind result_bind].
  intros (parties & _ & H)%bind_Ok. destruct (negb _); [done|]. apply bind_Ok in H as (pk & EP & (salt & _ & [= <-])%bind_Ok).
  exists row. unfold vec_to_32 in EP. destruct (_ =? _); [|done]. by injection EP as <-.
Qed.

(** Either nothing happened, or one authorised bridge and its roster changed. *)
Definition safe_step (decoded : DecodedPackage) (st st' : Store) : Prop :=
  forall row, row ∈ tb_bridges (st_private st) -> untouched row (st_private st) (st_private st') \/ authorised decoded row.

Lemma changed_safe decoded st st' own : tables_ok (st_private st) -> find_bridge (pf_uid (dc_fields decoded)) (st_private st) = Some own ->
  authorised decoded own -> rows_but (pf_uid (dc_fields decoded)) st st' -> roster_but (br_id own) st st' -> safe_step decoded st st'.
Proof.
  intros HT EF HA HR HO row Hr. destruct (decide (br_uid row = pf_uid (dc_fields decoded))) as [E|Hne].
  - right. rewrite <- E in EF. rewrite (find_bridge_elem _ _ HT Hr) in EF. by injection EF as ->.
  - left. by eapply untouched_but.
Qed.

Lemma last_bridge_id_Ok uid st row : find_bridge uid (st_private st) = Some row -> last_bridge_id uid st = Ok (br_id row).
Proof. unfold last_bridge_id. by intros ->. Qed.

Ltac stopped E := injection E as <- <-; intros ? ?; left; by apply untouched_refl.

Lemma apply_rotate_safe decoded st r st' : tables_ok (st_private st) -> apply_rotate rnd decoded st = (r, st') ->
  tables_ok (st_private st') /\ safe_step decoded st st'.
Proof.
  intros HT E. split.
  { revert HT. change (keeps_tables st st'). eapply respects_run; [exact E|]. unfold apply_rotate. frame. }
  unfold apply_rotate in E. destruct (validate_decoded_recipient (dc_fields decoded)) as [[]|e]; [|stopped E].
  rewrite (dbM_step _ _ st tt st) in E by done. destruct (bridge_get (pf_uid (dc_fields decoded)) st) as [summary|e] eqn:EG.
  2: { rewrite (dbM_fail _ _ st e st) in E by (unfold query; by rewrite EG). stopped E. }
  rewrite (dbM_step _ _ st summary st) in E by (unfold query; by rewrite EG). destruct (bridge_get_row _ _ _ EG) as (own & EF & Ed & Eg & Ep).
  destruct (bu_destroyed summary); [stopped E|]. destruct (N.eqb_spec (pf_generation (dc_fields decoded)) (u32_succ (bu_generation summary))) as [Egen|];
    [|stopped E]. cbn [negb] in E. destruct (verify_update_auth decoded (bu_public_key summary)) as [[]|e] eqn:EV; [|stopped E].
  rewrite (dbM_step _ _ st tt st), (dbM_step _ _ st (br_id own) st) in E by (try done; unfold query; by rewrite (last_bridge_id_Ok _ _ own)).
  eapply changed_safe; [done|exact EF| | |].
  - split_and!; [|done|congruence|right; congruence]. by apply find_bridge_Some in EF as [_ ->].
  - eapply respects_run; [exact E|]. frame. apply update_bridges_rows. intros row. apply live_at_uid.
  - eapply respects_run; [exact E|]. frame. apply delete_parties_roster. intros p Hp. by apply bool_decide_eq_true in Hp.
Qed.

Lemma apply_destroy_safe decoded st r st' : pf_kind (dc_fields decoded) = KIND_DESTROY -> tables_ok (st_private st) -> apply_destroy decoded st = (r, st') ->
  tables_ok (st_private st') /\ safe_step decoded st st'.
Proof.
  intros HK HT E. split.
  { revert HT. change (keeps_tables st st'). eapply respects_run; [exact E|]. unfold apply_destroy. frame. }
  unfold apply_destroy in E. destruct (bridge_get (pf_uid (dc_fields decoded)) st) as [summary|e] eqn:EG.
  2: { rewrite (dbM_fail _ _ st e st) in E by (unfold query; by rewrite EG). stopped E. }
  rewrite (dbM_step _ _ st summary st) in E by (unfold query; by rewrite EG). destruct (bridge_get_row _ _ _ EG) as (own & EF & Ed & Eg & Ep).
  destruct (bu_destroyed summary); [stopped E|]. destruct (verify_update_auth decoded (bu_public_key summary)) as [[]|e] eqn:EV; [|stopped E].
  rewrite (dbM_step _ _ st tt st), (dbM_step _ _ st (br_id own) st) in E by (try done; unfold query; by rewrite (last_bridge_id_Ok _ _ own)).
  eapply changed_safe; [done|exact EF| | |].
  - split_and!; [|done|congruence|by left]. by apply find_bridge_Some in EF as [_ ->].
  - eapply respects_run; [exact E|]. frame. apply update_bridges_rows. intros row. apply live_uid.
  - eapply respects_run; [exact E|]. frame.
Qed.

Lemma import_keeps_tables data sk : respects keeps_tables (import_package rnd data sk).
Proof. unfold import_package, apply_package, insert_from_invite, apply_rotate, apply_destroy. frame. Qed.

(** C33: No import can disturb a bridge without the signature of its key: whatever
    the bytes and whoever opens them, success or not, the constraints of the tables
    hold afterwards, and every bridge of the store is as it was, row, parties and
    sealed keys, unless it is live and the package is for it, is signed with its
    current bridge key, and carries its end or its next generation. *)
Theorem import_authorised data sk st r st' :
  tables_ok (st_private st) -> import_package rnd data sk st = (r, st') ->
  tables_ok (st_private st') /\
  forall row, row ∈ tb_bridges (st_private st) -> untouched row (st_private st) (st_private st') \/
    exists decoded, decode_package data sk = Ok decoded /\ authorised decoded row.
Proof.
  intros HT E. unfold import_package in E. destruct (decode_package data sk) as [decoded|e].
  2: { injection E as <- <-. eauto using untouched_refl. }
  rewrite (dbM_step _ _ st decoded st) in E by done. case_bool_decide; cbn [negb] in E; [|injection E as <- <-; eauto using untouched_refl].
  assert (exists st1 r1, apply_package rnd decoded st = (r1, st1) /\ st' = st1) as (st1 & r1 & EA & ->).
  { destruct (apply_package rnd decoded st) as [[[]|e] st1] eqn:EA; [rewrite (dbM_step _ _ _ _ _ EA) in E|rewrite (dbM_fail _ _ _ _ _ EA) in E];
      injection E as <- <-; eauto. }
  assert (tables_ok (st_private st1) /\ safe_step decoded st st1) as [HT1 HS]; [|split; [done|]; intros row [?|?]%HS; eauto].
  unfold apply_package in EA. repeat case_decide.
  - apply insert_from_invite_safe in EA as [? HU]; [|done]. split; [done|]. intros row Hr. left. auto.
  - apply insert_from_invite_safe in EA as [? HU]; [|done]. split; [done|]. intros row Hr. left. auto.
  - by eapply apply_rotate_safe.
  - by eapply apply_destroy_safe.
  - injection EA as <- <-. split; [done|]. intros row Hr. left. by apply untouched_refl.
Qed.
End import.
