(* ===== verification/BridgeInvariant.v ===== *)
(** * Invariants of the bridge tables

    Whatever sequence of public operations of [private_bridge.rs] runs, successful
    or not, with plans committed late, twice or never, the constraints of the schema
    hold, and no bridge is forgotten, goes back a generation or is revived. *)

From stdpp Require Import relations.
From S2P Require Import Prelude Text Crypto BTree Envelope HistoryCodec Authority Signing BridgeProof Tables KeyStore BridgePackage PrivateBridge BridgeRoster BridgeSafety.

(** ** The constraints of the schema *)

(** [CHECK (generation > 0)] and [key_id REFERENCES keys(id)]. *)
Definition admitted (st : Store) (row : BridgeRow) : Prop :=
  (0 < br_generation row)%N /\ forall k, br_key_id row = Some k -> k ∈ map ky_id (st_keys st).
(** [bridge_id REFERENCES private_bridges(id)] and [CHECK (event_type IN (..))]. *)
Definition event_types : list bytes := [str "created"; str "imported"; str "member_removed"; str "rotated"; str "destroyed"].
Definition event_fits (st : Store) (e : BridgeEventRow) : Prop :=
  be_bridge_id e ∈ map br_id (tb_bridges (st_private st)) /\ be_event_type e ∈ event_types.

Record schema_ok (st : Store) : Prop := {
  sc_tables : tables_ok (st_private st);
  sc_bridges row : row ∈ tb_bridges (st_private st) -> admitted st row;
  sc_events e : e ∈ tb_events (st_private st) -> event_fits st e;
}.

(** ** Moving forward *)

(** A bridge moves forward: same bridge, no older generation, and once destroyed it stays as it is. *)
Definition advance (row row' : BridgeRow) : Prop :=
  br_id row' = br_id row /\ br_uid row' = br_uid row /\ br_key_id row' = br_key_id row /\ (br_generation row <= br_generation row')%N /\
  (br_destroyed row = true -> row' = row).
#[export] Instance advance_preorder : PreOrder advance.
Proof.
  split; [intros row; by split_and!; auto|]. intros r1 r2 r3 (E1 & E2 & E3 & E4 & E5) (F1 & F2 & F3 & F4 & F5). split_and!; try congruence; [lia|].
  intros H. specialize (E5 H) as ->. auto.
Qed.

(** Every bridge of a store is in the later one. *)
Definition advances (st st' : Store) : Prop :=
  forall row, row ∈ tb_bridges (st_private st) -> exists row', row' ∈ tb_bridges (st_private st') /\ advance row row'.
#[export] Instance advances_preorder : PreOrder advances.
Proof.
  split; [intros st row Hr; by exists row|]. intros st1 st2 st3 H1 H2 row Hr. destruct (H1 row Hr) as (r2 & Hr2 & A2). destruct (H2 r2 Hr2) as (r3 & Hr3 & A3).
  exists r3. split; [done|]. by etransitivity.
Qed.

(** What the statements do: bridges advance, and what is new fits the schema. *)
Record moves (st st' : Store) : Prop := {
  mo_keys : st_keys st' = st_keys st;
  mo_forward : advances st st';
  mo_rows row' : row' ∈ tb_bridges (st_private st') -> (exists row, row ∈ tb_bridges (st_private st) /\ advance row row') \/ admitted st' row';
  mo_events e : e ∈ tb_events (st_private st') -> e ∈ tb_events (st_private st) \/ event_fits st' e;
}.

Lemma admitted_advance st st' row row' : st_keys st' = st_keys st -> advance row row' -> admitted st row -> admitted st' row'.
Proof. intros EK (_ & _ & E & Hle & _) [Hg Hk]. split; [lia|]. by rewrite E, EK. Qed.

Lemma event_fits_advances st st' e : advances st st' -> event_fits st e -> event_fits st' e.
Proof.
  intros HA [(row & E & Hr)%list_elem_of_fmap Ht]. split; [|done]. rewrite E. destruct (HA row Hr) as (row' & Hr' & <- & _). by apply list_elem_of_fmap_2.
Qed.

#[export] Instance moves_preorder : PreOrder moves.
Proof.
  split; [intros st; split; [done|reflexivity|intros row Hr; left; by exists row|by left]|]. intros st1 st2 st3 [K1 A1 R1 E1] [K2 A2 R2 E2]. split; [congruence|by transitivity st2|..].
  - intros row [(row2 & H2 & HA)|?]%R2; [|by right]. apply R1 in H2 as [(row1 & H1 & HA1)|H2].
    + left. exists row1. split; [done|]. by etransitivity.
    + right. by eapply admitted_advance.
  - intros e [[?|?]%E1|?]%E2; [by left|right; by eapply event_fits_advances|by right].
Qed.

Lemma moves_schema st st' : schema_ok st -> tables_ok (st_private st') -> moves st st' -> schema_ok st'.
Proof.
  intros [HT HB HE] HT' [K A R E]. split; [done|..].
  - intros row [(row0 & Hr & HA)|?]%R; [|done]. by eapply admitted_advance; [..|apply HB].
  - intros e [He|?]%E; [|done]. by eapply event_fits_advances; [|apply HE].
Qed.

(** ** The statements *)

Lemma private_moves st t : tb_bridges t = tb_bridges (st_private st) ->
  (forall e, e ∈ tb_events t -> e ∈ tb_events (st_private st) \/ event_fits st e) -> moves st (set_private t st).
Proof.
  intros E HE. assert (advances st (set_private t st)) as HA by (intros row Hr; exists row; cbn; by rewrite E). split; [done|done|..]; cbn.
  - intros row. rewrite E. intros Hr. left. by exists row.
  - intros e [?|?]%HE; [by left|right]. by eapply event_fits_advances.
Qed.

Lemma insert_bridge_moves row : respects moves (insert_bridge row).
Proof.
  intros st r st'. unfold insert_bridge. set (id := next_id _ _). destruct (_ || _) eqn:B; intros [= _ <-]; [reflexivity|].
  apply orb_false_iff in B as [[_ Hg%N.eqb_neq]%orb_false_iff Hk]. split; [done|..]; cbn; [|..|by left].
  - intros b Hb. exists b. split; [apply elem_of_app; by left|done].
  - intros b [Hb| ->%list_elem_of_singleton]%elem_of_app; [left; by exists b|right]. split; [lia|]. cbn. intros k Ek. rewrite Ek in Hk.
    apply negb_false_iff, existsb_exists in Hk as (key & Hin%list_elem_of_In & <-%bool_decide_eq_true). by apply list_elem_of_fmap_2.
Qed.
Lemma insert_party_moves row : respects moves (insert_party row).
Proof. intros st r st'. unfold insert_party. destruct (_ || _); intros [= _ <-]; [reflexivity|apply private_moves; auto]. Qed.
Lemma insert_sealed_moves row : respects moves (insert_sealed row).
Proof. intros st r st'. unfold insert_sealed. destruct (_ || _); intros [= _ <-]; [reflexivity|apply private_moves; auto]. Qed.
Lemma insert_event_moves id type detail : type ∈ event_types -> respects moves (insert_event id type detail).
Proof.
  intros Ht st r st'. unfold insert_event. destruct (negb _) eqn:B; intros [= _ <-]; [reflexivity|]. apply private_moves; [done|]. cbn.
  intros e [He| ->%list_elem_of_singleton]%elem_of_app; [by left|right]. split; [cbn|done].
  apply negb_false_iff, existsb_exists in B as (b & Hb%list_elem_of_In & <-%bool_decide_eq_true). by apply list_elem_of_fmap_2.
Qed.
Lemma on_private_moves g : (forall t, tb_bridges (g t) = tb_bridges t) -> (forall t, tb_events (g t) = tb_events t) -> respects moves (on_private g).
Proof. intros Hg He st r st' [= _ <-]. apply private_moves; [done|]. intros e. rewrite He. auto. Qed.
Lemma delete_parties_moves P : respects moves (delete_parties P).
Proof. by apply on_private_moves. Qed.
Lemma delete_sealed_moves id : respects moves (delete_sealed id).
Proof. by apply on_private_moves. Qed.
Lemma update_bridges_moves P g : (forall row, P row = true -> advance row (g row)) -> respects moves (update_bridges P g).
Proof.
  intros Hg st r st' [= _ <-]. assert (forall row, advance row (if P row then g row else row)) as HA.
  { intros row. destruct (P row) eqn:E; [by apply Hg|done]. }
  split; [done|..]; cbn; [|..|by left].
  - intros row Hr. exists (if P row then g row else row). split; [apply list_elem_of_fmap; by exists row|done].
  - intros row' (row & -> & Hr)%list_elem_of_fmap. left. by exists row.
Qed.
#[export] Hint Resolve insert_bridge_moves insert_party_moves insert_sealed_moves insert_event_moves delete_parties_moves
  delete_sealed_moves : frame.
#[export] Hint Extern 1 (_ ∈ event_types) => (apply (bool_decide_unpack _); vm_compute; exact I) : frame.

Lemma set_destroyed_advance row : advance row (set_destroyed row).
Proof. split_and!; try done. destruct row as [? ? ? ? ? ? ? []]; done. Qed.

Lemma set_standard_advance uid generation generation' pk salt label row :
  live_at uid generation row = true -> (generation <= generation')%N -> advance row (set_standard generation' pk salt label row).
Proof.
  unfold live_at. intros [[_ Eg%N.eqb_eq]%andb_true_iff Ed%negb_true_iff]%andb_true_iff Hle. split_and!; try done; [simpl; congruence|]. congruence.
Qed.

(** The next generation is later, or it is the zero the schema refuses. *)
Lemma u32_succ_later n : (n < u32_max)%N -> u32_succ n = 0%N \/ (n <= u32_succ n)%N.
Proof.
  intros H. unfold u32_succ. destruct (N.eq_dec (n + 1)%N u32_max) as [->|]; [left; apply N.Div0.mod_same|right]. rewrite N.mod_small by lia. lia.
Qed.

Section operations.
Context `{C : Crypto} `{HX : Hex}.

(** A computation that always fails changes nothing in a transaction. *)
Definition refuses {A} (m : dbM A) : Prop := forall st, is_ok (m st).1 = false.
Lemma refuses_bind {A B} (m : dbM A) (k : A -> dbM B) : refuses m -> refuses (m ≫= k).
Proof. intros H st. specialize (H st). unfold mbind, dbM_bind. by destruct (m st) as [[]?]. Qed.
Lemma refuses_respects {A} R `{!PreOrder R} (m : dbM A) : refuses m -> respects R (transaction m).
Proof. intros H st r st'. specialize (H st). unfold transaction. destruct (m st) as [[]?]; [done|]. intros [= _ <-]. reflexivity. Qed.

(** [set_standard] under the check on generations. *)
Lemma next_standard uid generation pk salt label (k : dbM unit) : (generation < u32_max)%N -> respects moves k ->
  let m := (updated ← update_bridges (live_at uid generation) (set_standard (u32_succ generation) pk salt label);
    if negb (updated =? 1) then db_try (Err BridgeGenerationMismatch) else
    if (u32_succ generation =? 0)%N then db_try (Err Db) else k) in
  refuses m \/ respects moves m.
Proof.
  intros Hg Hk m. destruct (u32_succ_later generation Hg) as [E|Hle]; [left|right].
  - intros st. unfold m. rewrite E, N.eqb_refl. unfold update_bridges, mbind, dbM_bind. by destruct (_ =? 1).
  - unfold m. frame. apply update_bridges_moves. intros row Hrow. by eapply set_standard_advance.
Qed.

Lemma next_standard_transaction uid generation pk salt label (k : dbM unit) : (generation < u32_max)%N -> respects moves k ->
  respects moves (transaction (updated ← update_bridges (live_at uid generation) (set_standard (u32_succ generation) pk salt label);
    if negb (updated =? 1) then db_try (Err BridgeGenerationMismatch) else
    if (u32_succ generation =? 0)%N then db_try (Err Db) else k)).
Proof.
  intros Hg Hk. destruct (next_standard uid generation pk salt label k Hg Hk) as [HR|HR]; [apply refuses_respects|apply respects_transaction]; first [apply _|exact HR].
Qed.
Lemma next_standard_then {A} uid generation pk salt label (k : dbM unit) (k' : unit -> dbM A) : (generation < u32_max)%N -> respects moves k ->
  (forall x, respects moves (k' x)) ->
  respects moves (transaction ((updated ← update_bridges (live_at uid generation) (set_standard (u32_succ generation) pk salt label);
    if negb (updated =? 1) then db_try (Err BridgeGenerationMismatch) else
    if (u32_succ generation =? 0)%N then db_try (Err Db) else k) ≫= k')).
Proof.
  intros Hg Hk Hk'. destruct (next_standard uid generation pk salt label k Hg Hk) as [HR|HR]; [apply refuses_respects|apply respects_transaction]; try apply _.
  - by apply refuses_bind.
  - by apply respects_bind; [apply _|..].
Qed.

Lemma replace_roster_moves rnd id f : respects moves (replace_roster_and_secret rnd id f).
Proof. unfold replace_roster_and_secret, insert_member_parties, insert_supervisor_parties. frame. Qed.
Hint Resolve replace_roster_moves : frame.

Lemma bridge_get_generation uid st summary : bridge_get uid st = Ok summary -> (bu_generation summary < u32_max)%N.
Proof.
  unfold bridge_get. destruct (find_bridge uid (st_private st)) as [row|]; [|done]. cbn [ok_or mbind result_bind].
  intros (parties & _ & H)%bind_Ok. destruct (N.ltb_spec (br_generation row) u32_max); [|done]. apply bind_Ok in H as (pk & _ & (salt & _ & [= <-])%bind_Ok). done.
Qed.

Lemma apply_rotate_moves rnd decoded : respects moves (apply_rotate rnd decoded).
Proof.
  unfold apply_rotate. cbv zeta. apply respects_bind; [apply _|frame|intros _]. apply respects_found; [apply _|]. intros st summary Hg%bridge_get_generation.
  destruct (bu_destroyed summary); [frame|]. destruct (N.eqb_spec (pf_generation (dc_fields decoded)) (u32_succ (bu_generation summary))) as [->|]; [|cbn [negb]; frame].
  cbn [negb]. apply respects_bind; [apply _|frame|intros _]. apply respects_bind; [apply _|frame|intros bridge_id]. 
  apply next_standard_transaction; [done|]. frame.
Qed.

Lemma apply_package_moves rnd decoded : respects moves (apply_package rnd decoded).
Proof.
  unfold apply_package, insert_from_invite, apply_destroy. pose proof (apply_rotate_moves rnd decoded) as HR. frame;
    apply update_bridges_moves; intros row _; apply set_destroyed_advance.
Qed.

(** A plan to rotate names the generation it found and the next one. *)
Definition plan_ok (planned : PlannedRemoval) : Prop :=
  match pl_kind planned with PlanRotate _ _ _ _ _ g g' _ _ _ _ _ => (g < u32_max)%N /\ g' = u32_succ g | PlanDestroy _ _ _ _ _ => True end.
Lemma plan_generations wrap seal_rnd new_salt new_secret uid removed local sk st planned :
  plan_remove_member wrap seal_rnd new_salt new_secret uid removed local sk st = Ok planned ->
  plan_ok planned.
Proof.
  unfold plan_remove_member. intros (summary & Hg%bridge_get_generation & H)%bind_Ok. destruct (bu_destroyed summary); [done|].
  destruct (bool_decide _); [done|]. apply bind_Ok in H as (lp & _ & H). destruct (negb _); [done|]. destruct (negb _); [done|].
  apply bind_Ok in H as (sec & _ & H). apply bind_Ok in H as (ms & _ & H). apply bind_Ok in H as (id & _ & H). destruct (_ <? 2).
  - by apply bind_Ok in H as (pkgs & _ & [= <-]).
  - by apply bind_Ok in H as (pkgs & _ & (dropped & _ & [= <-])%bind_Ok).
Qed.

Lemma persist_new_bridge_ok ws rnd uid key_id label g pk salt ms ss local secret :
  respects keeps_tables (persist_new_bridge ws rnd uid key_id label g pk salt ms ss local secret) /\
  respects moves (persist_new_bridge ws rnd uid key_id label g pk salt ms ss local secret).
Proof. unfold persist_new_bridge, insert_member_parties, insert_supervisor_parties, seal_local_if_member. split; frame. Qed.

Lemma drop_member_ok uid removed :
  respects keeps_tables (drop_member_on_coordinator uid removed) /\ respects moves (drop_member_on_coordinator uid removed).
Proof.
  unfold drop_member_on_coordinator. split; frame. apply update_bridges_moves. intros row _. apply set_destroyed_advance.
Qed.
Lemma drop_from_bridges_ok uids removed : respects keeps_tables (drop_from_bridges uids removed) /\ respects moves (drop_from_bridges uids removed).
Proof.
  induction uids as [|uid uids [IH1 IH2]]; simpl; [split; frame|]. destruct (drop_member_ok uid removed) as [H1 H2]. split; frame.
Qed.

Lemma commit_removal_moves ws rnd planned :
  plan_ok planned ->
  respects keeps_tables (commit_planned_removal ws rnd planned) /\ respects moves (commit_planned_removal ws rnd planned).
Proof.
  unfold plan_ok. intros EP. split; [unfold commit_planned_removal, persist_rotation, insert_member_parties, insert_supervisor_parties, seal_local_if_member; frame|].
  unfold commit_planned_removal. destruct (pl_kind planned) as [|uid' id removed' notify l g g' pk salt ms ss sec].
  - frame. apply update_bridges_moves. intros row _. apply set_destroyed_advance.
  - destruct EP as [Hg ->]. unfold persist_rotation. apply next_standard_then; [done| |intros _; frame].
    unfold insert_member_parties, insert_supervisor_parties, seal_local_if_member. frame.
Qed.

Lemma commit_creation_moves ws rnd planned :
  respects keeps_tables (commit_planned_creation ws rnd planned) /\ respects moves (commit_planned_creation ws rnd planned).
Proof.
  unfold commit_planned_creation. split; (apply respects_transaction; [apply _|]); (apply respects_bind; [apply _|apply persist_new_bridge_ok|intros _; frame]).
Qed.

(** ** Any run

    The plans made so far are kept beside the store: the packages of a plan are delivered first and
    it is committed later, when other operations may have run, or not at all. *)
Record Desk := { dk_store : Store; dk_creations : list PlannedCreation; dk_removals : list PlannedRemoval }.
Definition at_store (st : Store) (d : Desk) : Desk := {| dk_store := st; dk_creations := dk_creations d; dk_removals := dk_removals d |}.

(** One call of a public operation, whatever its result. *)
Inductive bridge_step (d : Desk) : Desk -> Prop :=
| step_plan_create wrap seal_rnd uid_salt salt secret key_id label members supervisors local planned :
    plan_create wrap seal_rnd uid_salt salt secret key_id label members supervisors local = Ok planned ->
    bridge_step d {| dk_store := dk_store d; dk_creations := planned :: dk_creations d; dk_removals := dk_removals d |}
| step_commit_create ws rnd planned r st' :
    planned ∈ dk_creations d -> commit_planned_creation ws rnd planned (dk_store d) = (r, st') -> bridge_step d (at_store st' d)
| step_plan_remove wrap seal_rnd new_salt new_secret uid removed local sk planned :
    plan_remove_member wrap seal_rnd new_salt new_secret uid removed local sk (dk_store d) = Ok planned ->
    bridge_step d {| dk_store := dk_store d; dk_creations := dk_creations d; dk_removals := planned :: dk_removals d |}
| step_commit_remove ws rnd planned r st' :
    planned ∈ dk_removals d -> commit_planned_removal ws rnd planned (dk_store d) = (r, st') -> bridge_step d (at_store st' d)
| step_create wrap seal_rnd uid_salt salt secret ws rnd key_id label members supervisors local r st' :
    bridge_create wrap seal_rnd uid_salt salt secret ws rnd key_id label members supervisors local (dk_store d) = (r, st') -> bridge_step d (at_store st' d)
| step_remove wrap seal_rnd new_salt new_secret ws rnd uid removed local sk r st' :
    remove_member wrap seal_rnd new_salt new_secret ws rnd uid removed local sk (dk_store d) = (r, st') -> bridge_step d (at_store st' d)
| step_import rnd data sk r st' : import_package rnd data sk (dk_store d) = (r, st') -> bridge_step d (at_store st' d)
| step_leaf_removed key_id label r st' : on_leaf_removed key_id label (dk_store d) = (r, st') -> bridge_step d (at_store st' d)
| step_revoked label r st' : on_member_revoked label (dk_store d) = (r, st') -> bridge_step d (at_store st' d)
| step_approve salt uid local sk ssk revision message r st' :
    approve_revision salt uid local sk ssk revision message (dk_store d) = (r, st') -> bridge_step d (at_store st' d).

(** The plans on the desk are what planning made. *)
Definition desk_ok (d : Desk) : Prop := Forall plan_ok (dk_removals d).

Lemma both_run {A} (m : dbM A) st r st' :
  m st = (r, st') -> respects keeps_tables m /\ respects moves m -> keeps_tables st st' /\ moves st st'.
Proof. intros E [H1 H2]. split; by eapply respects_run. Qed.

Lemma bridge_step_ok d d' : desk_ok d -> bridge_step d d' ->
  desk_ok d' /\ keeps_tables (dk_store d) (dk_store d') /\ moves (dk_store d) (dk_store d').
Proof.
  intros HD. destruct 1 as [wrap seal_rnd uid_salt salt secret key_id label members supervisors local planned E|ws rnd planned r st' Hp E
    |wrap seal_rnd new_salt new_secret uid removed local sk planned E|ws rnd planned r st' Hp E
    |wrap seal_rnd uid_salt salt secret ws rnd key_id label members supervisors local r st' E|wrap seal_rnd new_salt new_secret ws rnd uid removed local sk r st' E
    |rnd data sk r st' E|key_id label r st' E|label r st' E|salt uid local sk ssk revision message r st' E]; cbn.
  - split_and!; [done|reflexivity..].
  - split; [done|]. eapply both_run; [exact E|apply commit_creation_moves].
  - split_and!; [|reflexivity..]. apply Forall_cons. split; [|done]. by apply plan_generations in E.
  - split; [done|]. eapply both_run; [exact E|]. apply commit_removal_moves. by apply (proj1 (Forall_forall _ _) HD).
  - split; [done|]. eapply both_run; [exact E|]. unfold bridge_create.
    split; (apply respects_bind; [apply _|frame|intros planned]); (apply respects_bind; [apply _|apply commit_creation_moves|intros _; frame]).
  - split; [done|]. eapply both_run; [exact E|]. unfold remove_member.
    split; (apply respects_found; [apply _|]); intros st planned EP%plan_generations; (apply respects_bind; [apply _|by apply commit_removal_moves|intros _; frame]).
  - split; [done|]. eapply both_run; [exact E|]. split; [apply import_keeps_tables|]. unfold import_package. pose proof (apply_package_moves rnd). frame.
  - split; [done|]. eapply both_run; [exact E|]. unfold on_leaf_removed.
    split; (apply respects_bind; [apply _|frame|intros uids; apply drop_from_bridges_ok]).
  - split; [done|]. eapply both_run; [exact E|]. unfold on_member_revoked.
    split; (apply respects_bind; [apply _|frame|intros uids; apply drop_from_bridges_ok]).
  - split; [done|]. eapply both_run; [exact E|]. unfold approve_revision.
    split; (apply respects_bind; [apply _|frame|intros a]); (apply respects_bind; [apply _|frame|intros b]).
    + intros st1 r1 st2 [= _ <-] []. by split.
    + by apply on_private_moves.
Qed.

Lemma bridge_steps_ok d d' : desk_ok d -> rtc bridge_step d d' ->
  desk_ok d' /\ keeps_tables (dk_store d) (dk_store d') /\ moves (dk_store d) (dk_store d').
Proof.
  intros HD HR. revert HD. induction HR as [d|d1 d2 d3 HS _ IH]; intros HD; [split_and!; [done|reflexivity..]|].
  apply bridge_step_ok in HS as (H2 & K2 & M2); [|done]. destruct (IH H2) as (H3 & K3 & M3). split_and!; [done|..]; by etransitivity.
Qed.

(** What a plan to remove was made for. *)
Definition plan_target (planned : PlannedRemoval) : bytes * N :=
  match pl_kind planned with PlanDestroy uid _ _ _ g => (uid, g) | PlanRotate uid _ _ _ _ g _ _ _ _ _ _ => (uid, g) end.

(** A plan whose bridge has moved on, or is gone, is refused whole. *)
Lemma stale_refused ws rnd planned st : (forall row, row ∈ tb_bridges (st_private st) -> live_at (plan_target planned).1 (plan_target planned).2 row = false) ->
  commit_planned_removal ws rnd planned st = (Err BridgeGenerationMismatch, st).
Proof.
  intros HL. assert (forall uid g (k : nat -> dbM unit) f, plan_target planned = (uid, g) ->
    transaction (updated ← update_bridges (live_at uid g) f; if negb (updated =? 1) then db_try (Err BridgeGenerationMismatch) else k updated) st
      = (Err BridgeGenerationMismatch, st)) as HT.
  { intros uid g k f E. rewrite E in HL. unfold transaction, update_bridges, mbind, dbM_bind.
    destruct (filter _ _) as [|row rows] eqn:EF; [done|]. assert (row ∈ row :: rows) as Hr by left. rewrite <- EF in Hr.
    apply list_elem_of_filter in Hr as [Hl Hr]. by rewrite HL in Hl. }
  unfold commit_planned_removal, plan_target in *. destruct (pl_kind planned) as [|uid id removed notify l g g' pk salt ms ss sec].
  - by apply (HT _ _ (fun _ => _)).
  - specialize (HT uid g (fun _ => if (g' =? 0)%N then db_try (Err Db) else mret tt) (set_standard g' pk salt None) eq_refl).
    revert HT. unfold persist_rotation, transaction, update_bridges, mbind, dbM_bind.
    destruct (_ =? 1); cbn [negb]; [destruct (g' =? 0)%N; discriminate|done].
Qed.

(** C34: The bridge tables stay sound. Through any sequence of planned and direct creations and
    removals, imports, coordinator drops and approvals of [private_bridge.rs], failed ones
    included, and however late, often or out of order plans are committed,
    the keys, references and checks of the schema hold, and every bridge once in the store is
    still there under its id and uid, at the same or a later generation; a destroyed
    bridge is never touched again. A removal planned at a generation the bridge
    has left, or for a bridge destroyed since, is refused and writes nothing. *)
Theorem bridge_tables_sound st0 d :
  schema_ok st0 -> rtc bridge_step {| dk_store := st0; dk_creations := []; dk_removals := [] |} d ->
  schema_ok (dk_store d) /\ advances st0 (dk_store d) /\
  forall planned ws rnd, planned ∈ dk_removals d ->
    (forall row, row ∈ tb_bridges (st_private (dk_store d)) -> live_at (plan_target planned).1 (plan_target planned).2 row = false) ->
    commit_planned_removal ws rnd planned (dk_store d) = (Err BridgeGenerationMismatch, dk_store d).
Proof.
  intros HT HR. apply bridge_steps_ok in HR as (_ & HK & HM); [|constructor]. cbn in *.
  split; [eapply moves_schema; [done|apply HK, HT|done]|]. split; [apply HM|]. intros planned ws rnd _. apply stale_refused.
Qed.
End operations.
