(* ===== verification/BridgeDemo.v ===== *)
(** * A bridge between two branches

    Ann and Bob under [M.S], Cam under [M.A], with both supervisors. Ann creates the
    bridge, the others import their invites; then Ann removes Bob, and at the end
    Cam. The laws of the bridge are applied along the way. *)

From stdpp Require Import relations.
From S2P Require Import Prelude Text Crypto BTree Envelope HistoryCodec Authority Signing BridgeProof Tables KeyStore BridgePackage PrivateBridge BridgeRoster BridgeLaws BridgeRotation BridgeSafety BridgeInvariant.

Module BridgeDemo.
#[local] Existing Instance Toy.toy.
#[local] Existing Instance Toy.toy_laws.
#[local] Instance plain : Hex := fun b => b.

Definition key (b : byte) : bytes := replicate 32 b.
Definition salt (b : byte) : bytes := replicate SALT_LEN b.
Definition person (label : bytes) (b : byte) : BridgePartyInput := {| bi_label := label; bi_encryption := key b; bi_signing := Some (key b) |}.
Definition ann := str "M.S.2".
Definition bob := str "M.S.3".
Definition cam := str "M.A.2".
Definition members := [person ann x0a; person bob x0b; person cam x0c].
Definition supervisors := [person (str "M.S") x11; person (str "M.A") x12].
Definition wrap (_ : bytes) : bytes := salt x33.
Definition seal_rnd (_ : bytes) : bytes := [].

Definition store : Store :=
  {| st_hardware := []; st_keys := []; st_nodes := []; st_bridges := []; st_links := []; st_placements := ∅; st_transfer := no_transfers; st_generations := ∅;
     st_private := no_bridges; st_org := no_updates; st_vault := no_vault; st_rings := no_rings |}.

Definition plan : result PlannedCreation := plan_create wrap seal_rnd (str "uid") (salt x21) (key x22) None (Some (str "S-A")) members supervisors (Some ann).
Definition planned : PlannedCreation := Eval vm_compute in match plan with Ok p => p | Err _ => Build_PlannedCreation (Build_CreatedBridge [] 0 [] [] []) None None [] [] None [] end.
Definition s : Standard := planned_standard planned.

Lemma plan_planned : plan_create wrap seal_rnd (str "uid") (salt x21) (key x22) None (Some (str "S-A")) members supervisors (Some ann) = Ok planned.
Proof. vm_compute. reflexivity. Defined.

Definition package (label : bytes) (packages : list DeliveryPackage) : DeliveryPackage :=
  match list_find (fun p => dp_label p = label) packages with Some (_, p) => p | None => Build_DeliveryPackage [] Member [] [] end.
Definition invite (label : bytes) : bytes := dp_bytes (package label (cb_packages (pc_created planned))).

Definition st_ann : Store := Eval vm_compute in (commit_planned_creation (salt x33) [] planned store).2.
Definition st_bob : Store := Eval vm_compute in (import_package [] (invite bob) (key x0b) store).2.
Definition st_cam : Store := Eval vm_compute in (import_package [] (invite cam) (key x0c) store).2.

Definition removal : result PlannedRemoval := plan_remove_member wrap seal_rnd (salt x41) (key x42) (sd_uid s) bob ann (key x0a) st_ann.
Definition planned_removal : PlannedRemoval := Eval vm_compute in match removal with Ok p => p | Err _ => Build_PlannedRemoval (Build_RemoveMemberOutcome [] false [] []) (PlanDestroy [] 0 [] [] 0) end.
Lemma removal_planned : plan_remove_member wrap seal_rnd (salt x41) (key x42) (sd_uid s) bob ann (key x0a) st_ann = Ok planned_removal.
Proof. vm_compute. reflexivity. Defined.

Lemma tables_empty : tables_ok no_bridges.
Proof. split; simpl; try constructor; intros ? H; by apply not_elem_of_nil in H. Qed.

Lemma demo_create_wf : create_wf wrap (str "uid") (salt x21) (key x22) (Some (str "S-A")) members supervisors.
Proof.
  assert (forall l b, text l -> input_wf (person l b)) as HI by (intros l b Hl; split; [done|split; reflexivity]).
  split; try (vm_compute; reflexivity); try (intros l; reflexivity).
  - repeat apply Forall_cons_2; [..|apply Forall_nil_2]; apply HI; reflexivity.
  - repeat apply Forall_cons_2; [..|apply Forall_nil_2]; apply HI; reflexivity.
Qed.

Lemma ann_store : commit_planned_creation (salt x33) [] planned store = (Ok tt, st_ann).
Proof. vm_compute. reflexivity. Qed.
Lemma bob_store : exists summary, import_package [] (invite bob) (key x0b) store = (Ok summary, st_bob).
Proof. eexists. vm_compute. reflexivity. Qed.
Lemma cam_store : exists summary, import_package [] (invite cam) (key x0c) store = (Ok summary, st_cam).
Proof. eexists. vm_compute. reflexivity. Qed.

Lemma ann_member : (ann, {| mk_encryption := key x0a; mk_signing := key x0a |}) ∈ sd_members s.
Proof. right; left. Qed.

Lemma ann_knows : knows st_ann s ann (key x0a) (Some (key x22)).
Proof.
  destruct (creation_committed wrap seal_rnd (str "uid") (salt x21) (key x22) None (Some (str "S-A")) members supervisors (Some ann) planned ann (key x0a)
    (salt x33) [] store) as (st & E & HK); try reflexivity; [apply demo_create_wf| |done|apply tables_empty|].
  - left. eexists. split; [apply ann_member|reflexivity].
  - rewrite ann_store in E. injection E as <-. exact HK.
Qed.

Lemma package_elem label packages : dp_label (package label packages) = label -> label <> [] -> package label packages ∈ packages.
Proof.
  unfold package. destruct (list_find _ packages) as [[i p]|] eqn:E; [|done]. intros _ _. apply list_find_Some in E as [H _]. by eapply list_elem_of_lookup_2.
Qed.

Lemma invited label b st : dp_label (package label (cb_packages (pc_created planned))) = label -> label <> [] ->
  dp_recipient_public_key (package label (cb_packages (pc_created planned))) = key b -> dp_role (package label (cb_packages (pc_created planned))) = Member ->
  (exists summary, import_package [] (invite label) (key b) store = (Ok summary, st)) -> knows st s label (key b) (Some (key x22)) /\ tables_ok (st_private st).
Proof.
  intros El Hne Ek Er [summary E]. split; [|exact (respects_run keeps_tables _ _ _ _ E (import_keeps_tables [] (invite label) (key b)) tables_empty)].
  destruct (invite_imported wrap seal_rnd (str "uid") (salt x21) (key x22) None (Some (str "S-A")) members supervisors (Some ann) planned
    (package label (cb_packages (pc_created planned))) (key b) [] store demo_create_wf plan_planned) as (summary' & st' & E' & _ & HK);
    [by apply package_elem|done|done|apply tables_empty|reflexivity|].
  unfold invite in E. rewrite E in E'. injection E' as <- <-. rewrite El, Ek, Er in HK. exact HK.
Qed.
Lemma bob_knows : knows st_bob s bob (key x0b) (Some (key x22)) /\ tables_ok (st_private st_bob).
Proof. apply invited; [reflexivity|done|reflexivity|reflexivity|apply bob_store]. Qed.
Lemma cam_knows : knows st_cam s cam (key x0c) (Some (key x22)) /\ tables_ok (st_private st_cam).
Proof. apply invited; [reflexivity|done|reflexivity|reflexivity|apply cam_store]. Qed.

Lemma ann_tables : tables_ok (st_private st_ann).
Proof.
  assert (commit_planned_creation (salt x33) [] planned store = (Ok tt, st_ann)) as E by (vm_compute; reflexivity).
  exact (proj1 (both_run _ _ _ _ E (commit_creation_moves (salt x33) [] planned)) tables_empty).
Qed.

(** The package of the removal for a label. *)
Definition sent (label : bytes) : DeliveryPackage := package label (ro_packages (pl_outcome planned_removal)).
Lemma sent_cam : sent cam ∈ ro_packages (pl_outcome planned_removal).
Proof. by apply package_elem. Qed.
Lemma sent_bob : sent bob ∈ ro_packages (pl_outcome planned_removal).
Proof. by apply package_elem. Qed.

Lemma demo_standard_wf : standard_wf s.
Proof. destruct (plan_create_Ok _ _ _ _ _ _ _ _ _ _ _ demo_create_wf plan_planned) as [HW _]. exact HW. Qed.
Lemma demo_fresh : fresh_wf wrap (salt x41) (key x42).
Proof. split; reflexivity. Qed.
End BridgeDemo.

Section witnesses.
Import BridgeDemo.
#[local] Existing Instance Toy.toy.
#[local] Existing Instance Toy.toy_laws.
#[local] Existing Instance plain.

(** Ann creates the bridge and Bob imports his invite. *)
Lemma creation_in_step_witness :
  exists st st', commit_planned_creation (salt x33) [] planned store = (Ok tt, st) /\ knows st s ann (key x0a) (Some (key x22)) /\
    (exists summary, import_package [] (invite bob) (key x0b) store = (Ok summary, st')) /\ knows st' s bob (key x0b) (Some (key x22)).
Proof.
  destruct (creation_in_step (C := Toy.toy) (CryptoLaws0 := Toy.toy_laws) wrap seal_rnd (str "uid") (salt x21) (key x22) None (Some (str "S-A")) members supervisors
    (Some ann) planned demo_create_wf plan_planned) as [HC HI].
  destruct (HC ann (key x0a) (salt x33) [] store eq_refl) as (st & E & HK); [left; eexists; split; [apply ann_member|reflexivity]|done|done|done|apply tables_empty|reflexivity|].
  destruct (HI (package bob (cb_packages (pc_created planned))) (key x0b) [] store) as (summary & st' & E' & _ & HK');
    [by apply package_elem|reflexivity|reflexivity|apply tables_empty|reflexivity|].
  exists st, st'. split; [exact E|]. split; [exact HK|]. split; [eexists; exact E'|exact HK'].
Defined.

(** Ann removes Bob: Ann and Cam move on together, Bob's store tears the bridge down. *)
Lemma removal_in_step_witness :
  let s' := standard_after s bob (key x42) (salt x41) in
  (exists st, commit_planned_removal (salt x33) [] planned_removal st_ann = (Ok tt, st) /\ knows st s' ann (key x0a) (Some (key x42))) /\
  (exists summary st, import_package [] (dp_bytes (sent cam)) (key x0c) st_cam = (Ok summary, st) /\
     knows st s' cam (key x0c) (Some (key x42))) /\
  (exists summary st, import_package [] (dp_bytes (sent bob)) (key x0b) st_bob = (Ok summary, st) /\
     torn_down st (sd_uid s)).
Proof.
  intros s'. destruct (removal_in_step (C := Toy.toy) (CryptoLaws0 := Toy.toy_laws) wrap seal_rnd (salt x41) (key x42) demo_fresh s demo_standard_wf ltac:(vm_compute; reflexivity)
    (key x22) eq_refl bob st_ann ann (key x0a) (key x0a) planned_removal ann_knows ann_tables removal_planned) as (_ & _ & HC & HD).
  destruct bob_knows as [HB HBT], cam_knows as [HKC HCT]. split; [|split].
  - exact (HC (salt x33) [] eq_refl).
  - exact (HD st_cam cam (key x0c) (Some (key x22)) (sent cam) (key x0c) [] HKC HCT
      sent_cam eq_refl eq_refl eq_refl).
  - exact (HD st_bob bob (key x0b) (Some (key x22)) (sent bob) (key x0b) [] HB HBT
      sent_bob eq_refl eq_refl eq_refl).
Defined.

(** Ann signs, Cam verifies. *)
Lemma sign_verify_in_step_witness :
  exists artifact, sign_message (salt x51) (sd_uid s) ann (key x0a) (key x0a) (str "hi") st_ann = Ok artifact /\
    verify_message (sd_uid s) cam (str "hi") artifact st_cam = Ok tt.
Proof.
  destruct cam_knows as [HC _].
  destruct (sign_verify_in_step (C := Toy.toy) (CryptoLaws0 := Toy.toy_laws) st_ann s ann (key x0a) (key x22) {| mk_encryption := key x0a; mk_signing := key x0a |}
    (key x0a) (key x0a) (salt x51) (str "hi") demo_standard_wf ann_knows eq_refl ann_member eq_refl eq_refl eq_refl) as (artifact & E & HV & _).
  exists artifact. split; [exact E|]. apply (HV st_cam cam (key x0c) (Some (key x22)) HC); [left|reflexivity].
Defined.

(** Cam's store takes the package for Cam. *)
Lemma import_authorised_witness :
  exists r st', import_package [] (dp_bytes (sent cam)) (key x0c) st_cam = (r, st') /\ tables_ok (st_private st').
Proof.
  destruct cam_knows as [_ HT]. destruct (import_package [] (dp_bytes (sent cam)) (key x0c) st_cam) as [r st'] eqn:E.
  exists r, st'. split; [reflexivity|]. by destruct (import_authorised (C := Toy.toy) [] _ (key x0c) st_cam r st' HT E).
Defined.

(** The tables are empty, and then a bridge is created; Bob's removal is planned, carried out at once
    in a second call, and the plan is then refused. *)
Lemma schema_empty : schema_ok store.
Proof. split; [exact tables_empty|intros ? H; by apply not_elem_of_nil in H..]. Qed.

Definition desk0 : Desk := {| dk_store := store; dk_creations := []; dk_removals := [] |}.
Definition st_moved : Store := Eval vm_compute in (remove_member wrap seal_rnd (salt x51) (key x52) (salt x53) [] (sd_uid s) bob ann (key x0a) st_ann).2.
Definition desk1 : Desk := {| dk_store := st_moved; dk_creations := [planned]; dk_removals := [planned_removal] |}.
Lemma desk_steps : rtc bridge_step desk0 desk1.
Proof.
  eapply rtc_l; [eapply (step_plan_create desk0); exact plan_planned|].
  eapply rtc_l; [eapply (step_commit_create _ (salt x33) [] planned (Ok tt) st_ann); [left|vm_compute; reflexivity]|].
  eapply rtc_l; [eapply step_plan_remove; exact removal_planned|].
  eapply rtc_l; [eapply (step_remove _ wrap seal_rnd (salt x51) (key x52) (salt x53) [] (sd_uid s) bob ann (key x0a) _ st_moved); vm_compute; reflexivity|].
  apply rtc_refl.
Defined.

Lemma bridge_tables_sound_witness : schema_ok st_moved /\ advances store st_moved /\
  commit_planned_removal (salt x33) [] planned_removal st_moved = (Err BridgeGenerationMismatch, st_moved).
Proof.
  destruct (bridge_tables_sound store desk1 schema_empty desk_steps) as (H1 & H2 & H3). split; [exact H1|]. split; [exact H2|].
  apply (H3 planned_removal); [left|]. intros row Hr. apply list_elem_of_In in Hr. simpl in Hr. destruct Hr as [<-|[]]. vm_compute. reflexivity.
Defined.

(** Bob opens the notice that is for him and seals it again for Cam, who is still
    on the bridge; Cam's store destroys it. *)
Definition bob_party : BridgeParty :=
  {| bp_label := bob; bp_encryption := key x0b; bp_signing := Some (key x0b); bp_role := Member; bp_is_local := false; bp_has_sealed_key := false |}.
Definition bob_payload : bytes := Eval vm_compute in
  match open_as PACKAGE (dp_bytes (sent bob)) (key x0b) with Ok (_, _, payload) => payload | Err _ => [] end.
Definition resealed : bytes := Eval vm_compute in match seal [] PACKAGE KIND_DESTROY (key x0c) bob_payload with Ok data => data | Err _ => [] end.

Lemma destroy_notice_transferable_witness :
  exists summary st, import_package [] resealed (key x0c) st_cam = (Ok summary, st) /\ torn_down st (sd_uid s).
Proof.
  destruct cam_knows as [HC HT].
  eapply (destroy_notice_transferable (C := Toy.toy) (CryptoLaws0 := Toy.toy_laws) seal_rnd s demo_standard_wf (key x22) eq_refl bob bob_party
    (sent bob) (key x0b) KIND_DESTROY (key x0b) bob_payload [] resealed cam (key x0c) (Some (key x22)) st_cam (key x0c) []);
    [right; right; left|right; right; left|vm_compute; reflexivity|reflexivity|vm_compute; reflexivity|vm_compute; reflexivity|exact HC|exact HT|reflexivity|reflexivity].
Defined.
End witnesses.

(** The roster of Ann's live bridge names both supervisors, who are no members. *)
Lemma active_rosters_lists_supervisors :
  active_rosters BridgeDemo.st_ann = [[str "M.A"; BridgeDemo.cam; str "M.S"; BridgeDemo.ann; BridgeDemo.bob]] /\
  bt_keys (sd_members BridgeDemo.s) = [BridgeDemo.cam; BridgeDemo.ann; BridgeDemo.bob].
Proof. split; reflexivity. Qed.
