(* ===== verification/TreeOps.v ===== *)
(** * [src/src/key_tree.rs]: changing a stored tree

    Whitelist and pairings, rebinding a leaf to another hardware key, adding a leaf
    with a reshare, and eviction with a proactive refresh. [rnd] stands for the
    random dealing and [entropy] for the randomness of the box sealed for a node. *)

From stdpp Require Import gmap.
From S2P Require Import Prelude Text Crypto BTree Envelope HistoryCodec Authority Signing BridgeProof Pss Tables KeyStore KeyTree Combinations Reconstruct BridgePackage PrivateBridge.

(** ** Whitelist and pairings *)

Definition node_id_for_label (key_id : nat) (label : bytes) (st : Store) : result nat :=
  row ← ok_or (first_row (fun row => bool_decide (nr_key row = key_id) && bool_decide (nr_label row = label)) (st_nodes st)) NodeNotFound;
  Ok (nr_id row).

Definition ordered_pair (a b : nat) : result (nat * nat) :=
  if a =? b then Err InvalidBridge else if a <? b then Ok (a, b) else Ok (b, a).

(** [INSERT OR IGNORE] *)
Definition insert_whitelist (node_id : nat) (peer : bytes) : dbM unit := execute (fun st =>
  if bool_decide ((node_id, peer) ∈ st_bridges st) then st else set_bridges (st_bridges st ++ [(node_id, peer)]) st).
Definition insert_link (link : nat * nat) : dbM unit := execute (fun st =>
  if bool_decide (link ∈ st_links st) then st else set_links (st_links st ++ [link]) st).
Definition delete_whitelist (P : nat * bytes -> bool) : dbM unit := execute (fun st =>
  set_bridges (filter (fun b => P b = false) (st_bridges st)) st).
(** The number of rows deleted. *)
Definition delete_links (P : nat * nat -> bool) : dbM nat := fun st =>
  (Ok (length (filter (fun l => P l = true) (st_links st))), set_links (filter (fun l => P l = false) (st_links st)) st).

Definition allow_bridge (key_id : nat) (node_label peer_label : bytes) : dbM unit :=
  if bool_decide (node_label = peer_label) then db_try (Err InvalidBridge) else
  node_id ← query (node_id_for_label key_id node_label);
  _ ← query (node_id_for_label key_id peer_label);
  insert_whitelist node_id peer_label.

Definition deny_bridge (key_id : nat) (node_label peer_label : bytes) : dbM unit :=
  node_id ← query (node_id_for_label key_id node_label);
  peer_id ← query (node_id_for_label key_id peer_label);
  _ ← delete_whitelist (fun b => bool_decide (b = (node_id, peer_label)) || bool_decide (b = (peer_id, node_label)));
  match ordered_pair node_id peer_id with
  | Ok link => _ ← delete_links (fun l => bool_decide (l = link)); mret tt
  | Err _ => mret tt
  end.

(** [tree.nodes[idx]], an index of the arena. *)
Definition node_at (tree : KeyQuorumTree) (idx : nat) : result KeyNode := ok_or (kt_nodes tree !! idx) NodeNotFound.

Definition add_bridge (key_id : nat) (from_label to_label : bytes) : dbM unit :=
  tree ← query (load key_id);
  idx_a ← db_try (index_by_label tree from_label);
  idx_b ← db_try (index_by_label tree to_label);
  if idx_a =? idx_b then db_try (Err InvalidBridge) else
  a ← db_try (node_at tree idx_a);
  b ← db_try (node_at tree idx_b);
  if negb (bool_decide (to_label ∈ kn_allowed_bridges a) || bool_decide (from_label ∈ kn_allowed_bridges b))
  then db_try (Err BridgeNotWhitelisted) else
  link ← db_try (ordered_pair (kn_db_id a) (kn_db_id b));
  insert_link link.

Definition remove_bridge (key_id : nat) (from_label to_label : bytes) : dbM unit :=
  a ← query (node_id_for_label key_id from_label);
  b ← query (node_id_for_label key_id to_label);
  link ← db_try (ordered_pair a b);
  deleted ← delete_links (fun l => bool_decide (l = link));
  if deleted =? 0 then db_try (Err BridgeNotFound) else mret tt.

Definition bind_pair (key_id : nat) (a_label b_label : bytes) : dbM unit :=
  _ ← allow_bridge key_id a_label b_label;
  _ ← allow_bridge key_id b_label a_label;
  add_bridge key_id a_label b_label.

(** The labels of the active leaves among [indices]. *)
Definition active_leaf_labels (tree : KeyQuorumTree) (indices : list nat) : list bytes :=
  omap (fun c => node ← kt_nodes tree !! c;
                 if kn_is_active node && bool_decide (is_Some (kn_hardware_key_id node)) then Some (kn_id node) else None) indices.

Definition bind_leaf_to_active_siblings (key_id : nat) (leaf_label : bytes) : dbM unit :=
  tree ← query (load key_id);
  idx ← db_try (index_by_label tree leaf_label);
  node ← db_try (node_at tree idx);
  parent_idx ← db_try (ok_or (kn_parent_idx node) InvalidBridge);
  parent ← db_try (node_at tree parent_idx);
  db_each (fun peer => bind_pair key_id leaf_label peer) (active_leaf_labels tree (filter (fun c => c <> idx) (kn_children_indices parent))).

(** [for i in 0..n { for j in (i + 1)..n { (l[i], l[j]) } }] *)
Fixpoint all_pairs {A} (l : list A) : list (A * A) := match l with [] => [] | a :: l => map (pair a) l ++ all_pairs l end.

Definition bind_all_sibling_leaf_pairs (key_id : nat) : dbM unit :=
  tree ← query (load key_id);
  let pairs := concat (map (fun node => match kn_threshold node with
                                         | None => []
                                         | Some _ => all_pairs (active_leaf_labels tree (kn_children_indices node))
                                         end) (kt_nodes tree)) in
  db_each (fun p => bind_pair key_id p.1 p.2) pairs.

(** Label pairs of the established links between nodes that satisfy [P]. *)
Definition link_labels (P : NodeRow -> bool) (st : Store) : list (bytes * bytes) :=
  omap (fun l => a ← first_row (fun row => bool_decide (nr_id row = l.1)) (st_nodes st);
                 b ← first_row (fun row => bool_decide (nr_id row = l.2)) (st_nodes st);
                 if P a && P b then Some (nr_label a, nr_label b) else None) (st_links st).
Definition established_bridge_pairs (st : Store) : list (bytes * bytes) := link_labels nr_active st.

(** ** Leaves *)

Definition set_share (share : option bytes) (row : NodeRow) : NodeRow :=
  {| nr_id := nr_id row; nr_key := nr_key row; nr_parent := nr_parent row; nr_label := nr_label row; nr_threshold := nr_threshold row;
     nr_hardware := nr_hardware row; nr_share := share; nr_active := nr_active row |}.
Definition set_hardware_key (hw : nat) (row : NodeRow) : NodeRow :=
  {| nr_id := nr_id row; nr_key := nr_key row; nr_parent := nr_parent row; nr_label := nr_label row; nr_threshold := nr_threshold row;
     nr_hardware := Some hw; nr_share := nr_share row; nr_active := nr_active row |}.
Definition set_inactive (row : NodeRow) : NodeRow :=
  {| nr_id := nr_id row; nr_key := nr_key row; nr_parent := nr_parent row; nr_label := nr_label row; nr_threshold := nr_threshold row;
     nr_hardware := nr_hardware row; nr_share := nr_share row; nr_active := false |}.

(** An [UPDATE] that leaves the shape of a row alone. *)
Definition update_nodes (P : NodeRow -> bool) (g : NodeRow -> NodeRow) : dbM unit := execute (fun st =>
  set_nodes (map (fun row => if P row then g row else row) (st_nodes st)) st).
(** An [UPDATE] of columns with constraints: the number of rows, or the error. *)
Definition update_nodes_checked (P : NodeRow -> bool) (g : NodeRow -> NodeRow) : dbM nat := fun st =>
  let changed := filter (fun row => P row = true) (st_nodes st) in
  if forallb (fun row => row_allowed st (g row)) changed
  then (Ok (length changed), set_nodes (map (fun row => if P row then g row else row) (st_nodes st)) st)
  else (Err Db, st).

Section leaves.
Context `{C : Crypto} `{SH : Shamir} `{HX : Hex}.
Context (rnd : nat) (rounds : nat -> nat) (entropy : nat -> bytes).

Definition rebind_leaf (key_id : nat) (node_label : bytes) (new_hardware_id : nat) (old_secret : bytes) : dbM unit :=
  tree ← query (load key_id);
  idx ← db_try (index_by_label tree node_label);
  node ← db_try (node_at tree idx);
  if negb (kn_is_active node) || bool_decide (kn_hardware_key_id node = None) then db_try (Err NodeNotFound) else
  share ← query (fun st => unwrap_leaf_share st (kn_db_id node) old_secret);
  new_hw ← query (get_active_encryption_key new_hardware_id);
  wrapped ← db_try (seal_share (entropy (kn_db_id node)) new_hw share);
  updated ← update_nodes_checked (fun row => bool_decide (nr_id row = kn_db_id node) && bool_decide (nr_key row = key_id))
              (fun row => set_share (Some wrapped) (set_hardware_key new_hardware_id row));
  if negb (updated =? 1) then db_try (Err NodeNotFound) else mret tt.

Definition in_scope (scope_key_id : option nat) (row : NodeRow) : bool :=
  match scope_key_id with Some k => bool_decide (nr_key row = k) | None => true end.
Definition adopt_reissued_hardware_key (subject_label : bytes) (scope_key_id : option nat) (new_hardware_id : nat) : dbM unit :=
  _ ← update_nodes (fun row => bool_decide (nr_label row = subject_label) && bool_decide (is_Some (nr_hardware row)) &&
                               negb (bool_decide (nr_hardware row = Some new_hardware_id)) && in_scope scope_key_id row) (set_share None);
  _ ← update_nodes_checked (fun row => bool_decide (nr_label row = subject_label) && bool_decide (is_Some (nr_hardware row)) && in_scope scope_key_id row)
        (set_hardware_key new_hardware_id);
  mret tt.

Definition share_coordinate (raw : bytes) : result byte := ok_or (head raw) ShareShapeMismatch.
Definition require_recoverable_share_coordinates (raw_shares : list bytes) : result unit :=
  xs ← traverse share_coordinate raw_shares; require_distinct_nonzero_xs xs.

Definition recover_secret (threshold : N) (raw_shares : list bytes) : result bytes :=
  _ ← require_recoverable_share_coordinates raw_shares;
  if forallb share_ok raw_shares then ok_or (recover threshold raw_shares) QuorumNotMet else Err QuorumNotMet.

(** The active children of a split, which must all be leaves. *)
Fixpoint active_leaf_children (tree : KeyQuorumTree) (e : error) (children : list nat) : result (list (KeyNode * nat)) :=
  match children with
  | [] => Ok []
  | child :: children =>
      node ← node_at tree child;
      if negb (kn_is_active node) then active_leaf_children tree e children else
      hw ← ok_or (kn_hardware_key_id node) e;
      rest ← active_leaf_children tree e children;
      Ok ((node, hw) :: rest)
  end.

(** Reseal one leaf in place. *)
Definition reseal (node : KeyNode) (hardware_key : HardwareKey) (raw : bytes) : dbM unit :=
  wrapped ← db_try (seal_share (entropy (kn_db_id node)) hardware_key raw);
  update_nodes (fun row => bool_decide (nr_id row = kn_db_id node)) (set_share (Some wrapped)).

Definition add_leaf_and_reshare (key_id : nat) (parent_label new_label : bytes) (new_hardware_id : nat) (presented : gmap nat bytes) : dbM nat :=
  if bool_decide (new_label = []) then db_try (Err DuplicateNodeLabel) else
  transaction (
    tree ← query (load key_id);
    if bool_decide (is_Some (kt_id_to_index tree !! new_label)) then db_try (Err DuplicateNodeLabel) else
    parent_idx ← db_try (index_by_label tree parent_label);
    parent ← db_try (node_at tree parent_idx);
    threshold ← db_try (ok_or (kn_threshold parent) CannotAddLeaf);
    active_leaves ← db_try (active_leaf_children tree CannotAddLeaf (kn_children_indices parent));
    let n := S (length active_leaves) in
    if (255 <? n) || (n <? threshold) then db_try (Err CannotAddLeaf) else
    let raw_for_recover := omap (fun leaf => presented !! kn_db_id leaf.1) active_leaves in
    if length raw_for_recover <? threshold then db_try (Err QuorumNotMet) else
    _ ← db_try (require_recoverable_share_coordinates raw_for_recover);
    parent_secret ← db_try (recover_secret (as_u8 threshold) raw_for_recover);
    _ ← query (get_active_encryption_key new_hardware_id);
    let new_shares := take n (deal rnd (as_u8 threshold) parent_secret) in
    if negb (length new_shares =? n) then db_try (Err InvalidQuorumThreshold) else
    _ ← db_zip (fun leaf raw => hardware_key ← query (get_active_encryption_key leaf.2); reseal leaf.1 hardware_key raw) active_leaves new_shares;
    new_hw ← query (get_active_encryption_key new_hardware_id);
    new_share ← db_try (ok_or (new_shares !! (n - 1)) InvalidQuorumThreshold);
    wrapped ← query (fun st => seal_share (entropy (next_id nr_id (st_nodes st))) new_hw new_share);
    insert_node (leaf_row key_id (Some (kn_db_id parent)) new_label new_hardware_id (Some wrapped))).

(** Links and whitelist rows of a node, and the whitelist rows of its tree that name it. *)
Definition delete_node_bindings (key_id node_id : nat) : dbM unit :=
  row ← query (fun st => ok_or (first_row (fun row => bool_decide (nr_id row = node_id) && bool_decide (nr_key row = key_id)) (st_nodes st)) Db);
  _ ← delete_links (fun l => bool_decide (l.1 = node_id) || bool_decide (l.2 = node_id));
  of_key ← query (fun st => Ok (map nr_id (rows_of key_id st)));
  delete_whitelist (fun b => bool_decide (b.1 = node_id) || (bool_decide (b.2 = nr_label row) && bool_decide (b.1 ∈ of_key))).

Definition survivor (survivor_raw_shares : gmap nat bytes) (st : Store) (leaf : KeyNode * nat) : result (bytes * (KeyNode * HardwareKey)) :=
  raw ← ok_or (survivor_raw_shares !! kn_db_id leaf.1) QuorumNotMet;
  hardware_key ← get_active_encryption_key leaf.2 st;
  Ok (raw, (leaf.1, hardware_key)).

Definition evict_and_refresh (key_id evicted_node_id : nat) (survivor_raw_shares : gmap nat bytes) : dbM (list BridgeChange) := transaction (
  tree ← query (load key_id);
  evicted_idx ← db_try (index_by_db_id tree evicted_node_id);
  evicted ← db_try (node_at tree evicted_idx);
  if negb (kn_is_active evicted) || bool_decide (kn_hardware_key_id evicted = None) then db_try (Err CannotEvict) else
  parent_idx ← db_try (ok_or (kn_parent_idx evicted) CannotEvict);
  parent ← db_try (node_at tree parent_idx);
  threshold ← db_try (ok_or (kn_threshold parent) CannotEvict);
  if threshold <? 2 then db_try (Err CannotEvict) else
  survivors ← db_try (active_leaf_children tree CannotEvict (filter (fun c => c <> evicted_idx) (kn_children_indices parent)));
  if length survivors <? threshold then db_try (Err CannotEvict) else
  shares_meta ← query (fun st => traverse (survivor survivor_raw_shares st) survivors);
  let shares := map fst shares_meta in
  let '(r, new_shares) := refresh_among rounds shares (as_u8 threshold) in
  _ ← db_try r;
  _ ← update_nodes (fun row => bool_decide (nr_id row = evicted_node_id)) set_inactive;
  _ ← delete_node_bindings key_id evicted_node_id;
  bridge_changes ← on_leaf_removed key_id (kn_id evicted);
  _ ← db_zip (fun meta new_share => reseal meta.1 meta.2 new_share) (map snd shares_meta) new_shares;
  mret bridge_changes).

(** Every active leaf sealed to a hardware key, across trees, [ORDER BY key_id, id]. *)
Definition key_order (a b : NodeRow) : Prop := nr_key a <= nr_key b.
#[export] Instance key_order_dec a b : Decision (key_order a b).
Proof. unfold key_order. apply _. Defined.
Definition active_leaves_for_hardware (hardware_key_id : nat) (st : Store) : list NodeRow :=
  merge_sort key_order (filter (fun row => nr_hardware row = Some hardware_key_id /\ nr_active row = true) (st_nodes st)).
Definition drop_bindings_for_hardware (hardware_key_id : nat) : dbM (list NodeRow) :=
  leaves ← query (fun st => Ok (active_leaves_for_hardware hardware_key_id st));
  _ ← db_each (fun leaf => delete_node_bindings (nr_key leaf) (nr_id leaf)) leaves;
  mret leaves.
End leaves.

(** * Pairings of a tree

    The whitelist decides who may be paired, a pairing is one ordered row. *)

(** The row a label stands for in a tree. *)
Definition names (st : Store) (key_id : nat) (label : bytes) (row : NodeRow) : Prop := row ∈ rows_of key_id st /\ nr_label row = label.

(** The two rows are paired. *)
Definition paired (st : Store) (a b : NodeRow) : Prop := (nr_id a, nr_id b) ∈ st_links st \/ (nr_id b, nr_id a) ∈ st_links st.

(** One of the two has the other on its whitelist. *)
Definition whitelisted (st : Store) (a b : NodeRow) : Prop := (nr_id a, nr_label b) ∈ st_bridges st \/ (nr_id b, nr_label a) ∈ st_bridges st.

Lemma node_id_for_label_Ok key_id label st id : node_id_for_label key_id label st = Ok id -> exists row, names st key_id label row /\ nr_id row = id.
Proof.
  unfold node_id_for_label. intros (row & (Hr & [E1%bool_decide_eq_true E2%bool_decide_eq_true]%andb_true_iff)%ok_or_Ok%first_row_Some & [= <-])%bind_Ok.
  exists row. split; [|done]. split; [by apply list_elem_of_filter|done].
Qed.

Lemma names_unique st key_id label r r' : NoDup (map nr_label (rows_of key_id st)) -> names st key_id label r -> names st key_id label r' -> r = r'.
Proof. intros HN [H1 E1] [H2 E2]. apply (NoDup_map_eq nr_label (rows_of key_id st)); [done..|congruence]. Qed.

Lemma ordered_pair_Ok a b p : ordered_pair a b = Ok p -> a <> b /\ (p = (a, b) \/ p = (b, a)) /\ p.1 < p.2.
Proof.
  unfold ordered_pair. destruct (Nat.eqb_spec a b); [done|]. destruct (Nat.ltb_spec a b); intros [= <-]; simpl; split_and!; auto; lia.
Qed.
Lemma ordered_pair_total a b : a <> b -> exists p, ordered_pair a b = Ok p.
Proof. intros H. unfold ordered_pair. rewrite (proj2 (Nat.eqb_neq _ _)) by done. destruct (_ <? _); eauto. Qed.
Lemma ordered_pair_comm a b p : ordered_pair a b = Ok p -> ordered_pair b a = Ok p.
Proof.
  unfold ordered_pair. destruct (Nat.eqb_spec a b), (Nat.eqb_spec b a); try done; try congruence.
  destruct (Nat.ltb_spec a b), (Nat.ltb_spec b a); try done; lia.
Qed.

(** A pairing is made exactly between two different nodes of the tree of which one
    whitelists the other. *)
Lemma add_bridge_spec key_id a b st st' :
  NoDup (map nr_id (st_nodes st)) -> add_bridge key_id a b st = (Ok tt, st') ->
  exists ra rb, names st key_id a ra /\ names st key_id b rb /\ ra <> rb /\ whitelisted st ra rb /\ paired st' ra rb /\
    NoDup (map nr_label (rows_of key_id st)) /\ st' = set_links (st_links st') st /\ forall l, l ∈ st_links st' <-> l ∈ st_links st \/ ordered_pair (nr_id ra) (nr_id rb) = Ok l.
Proof.
  intros HN H. unfold add_bridge in H. apply dbM_bind_Ok in H as (tree & ? & [Et ->]%query_Ok & H).
  apply dbM_bind_Ok in H as (ia & ? & [Ea%ok_or_Ok ->]%db_try_Ok & H). apply dbM_bind_Ok in H as (ib & ? & [Eb%ok_or_Ok ->]%db_try_Ok & H).
  destruct (Nat.eqb_spec ia ib) as [|Hne]; [discriminate|]. apply dbM_bind_Ok in H as (na & ? & [Ena%ok_or_Ok ->]%db_try_Ok & H).
  apply dbM_bind_Ok in H as (nb & ? & [Enb%ok_or_Ok ->]%db_try_Ok & H). destruct (negb _) eqn:BW; [discriminate|]. apply negb_false_iff in BW.
  apply dbM_bind_Ok in H as (p & ? & [Ep ->]%db_try_Ok & [= <-]). destruct (load_Ok key_id st tree HN Et) as [HNodes _ HLab HLabel _ _].
  apply HLabel in Ea as (ra & Ha & Ela), Eb as (rb & Hb & Elb).
  assert (na = arena_node st (rows_of key_id st) ia ra) as -> by (rewrite HNodes, list_lookup_imap, Ha in Ena; by injection Ena).
  assert (nb = arena_node st (rows_of key_id st) ib rb) as -> by (rewrite HNodes, list_lookup_imap, Hb in Enb; by injection Enb).
  cbn [kn_db_id kn_allowed_bridges arena_node] in *. exists ra, rb. pose proof Ep as Ep'. apply ordered_pair_Ok in Ep as (Hids & Hp & _).
  assert (forall id l, l ∈ peers_of st id -> (id, l) ∈ st_bridges st) as Hpeers.
  { intros id l (b' & -> & [E Hb']%list_elem_of_filter)%elem_of_list_to_set%list_elem_of_fmap. destruct b'. simpl in *. by subst. }
  split_and!.
  - split; [by eapply list_elem_of_lookup_2|done].
  - split; [by eapply list_elem_of_lookup_2|done].
  - congruence.
  - unfold whitelisted. apply orb_true_iff in BW as [BW%bool_decide_eq_true|BW%bool_decide_eq_true]; [left|right]; apply Hpeers; congruence.
  - clear BW. assert (p ∈ st_links (if bool_decide (p ∈ st_links st) then st else set_links (st_links st ++ [p]) st)) as Hin.
    { case_bool_decide; [done|]. simpl. set_solver. }
    unfold paired. destruct Hp as [E|E]; [left|right]; by rewrite <- E.
  - done.
  - clear BW. case_bool_decide; [by destruct st|done].
  - clear BW. intros l. rewrite Ep'. case_bool_decide; [naive_solver|]. simpl. rewrite elem_of_app, list_elem_of_singleton. naive_solver.
Qed.

(** The links of a store are ordered pairs, each once. *)
Record links_ok (st : Store) : Prop := { lk_order l : l ∈ st_links st -> l.1 < l.2; lk_unique : NoDup (st_links st) }.

Section bindings.

Definition keeps_links : Store -> Store -> Prop := keeps links_ok.
#[local] Instance keeps_links_preorder : PreOrder keeps_links.
Proof. apply keeps_preorder. Qed.

Lemma insert_link_ok p : p.1 < p.2 -> respects keeps_links (insert_link p).
Proof.
  intros Hp st r st' [= _ <-] [H1 H2]. case_bool_decide; [by split|]. split; simpl.
  - intros l [Hl| ->%list_elem_of_singleton]%elem_of_app; auto.
  - apply NoDup_app. split; [done|]. split; [by intros y Hy ->%list_elem_of_singleton|apply NoDup_singleton].
Qed.
Lemma insert_whitelist_ok id peer : respects keeps_links (insert_whitelist id peer).
Proof. intros st r st' [= _ <-] [H1 H2]. case_bool_decide; by split. Qed.
Lemma delete_whitelist_ok P : respects keeps_links (delete_whitelist P).
Proof. intros st r st' [= _ <-] [H1 H2]. by split. Qed.
Lemma delete_links_ok P : respects keeps_links (delete_links P).
Proof. intros st r st' [= _ <-] [H1 H2]. split; simpl; [by intros l [_ Hl]%list_elem_of_filter; auto|by apply NoDup_filter]. Qed.
#[local] Hint Resolve insert_whitelist_ok delete_whitelist_ok delete_links_ok : frame.

Lemma allow_bridge_links key_id a b : respects keeps_links (allow_bridge key_id a b).
Proof. unfold allow_bridge. frame. Qed.
Lemma deny_bridge_links key_id a b : respects keeps_links (deny_bridge key_id a b).
Proof. unfold deny_bridge. frame. Qed.
Lemma ordered_link_ok a b : respects keeps_links (link ← db_try (ordered_pair a b); insert_link link).
Proof. apply respects_tried; [apply _|]. intros link (_ & _ & Hl)%ordered_pair_Ok. by apply insert_link_ok. Qed.
Lemma add_bridge_links key_id a b : respects keeps_links (add_bridge key_id a b).
Proof. unfold add_bridge. repeat first [apply ordered_link_ok | apply respects_bind; [apply _|frame|intros ?] | apply respects_if; [frame|]]. Qed.
#[local] Hint Resolve allow_bridge_links deny_bridge_links add_bridge_links : frame.
Lemma remove_bridge_links key_id a b : respects keeps_links (remove_bridge key_id a b).
Proof. unfold remove_bridge. frame. Qed.
Lemma bind_pair_links key_id a b : respects keeps_links (bind_pair key_id a b).
Proof. unfold bind_pair. frame. Qed.
#[local] Hint Resolve bind_pair_links : frame.
Lemma bind_leaf_links key_id label : respects keeps_links (bind_leaf_to_active_siblings key_id label).
Proof. unfold bind_leaf_to_active_siblings. frame. Qed.
Lemma bind_all_links key_id : respects keeps_links (bind_all_sibling_leaf_pairs key_id).
Proof. unfold bind_all_sibling_leaf_pairs. frame. Qed.
Lemma delete_bindings_links key_id id : respects keeps_links (delete_node_bindings key_id id).
Proof. unfold delete_node_bindings. frame. Qed.
#[local] Hint Resolve delete_bindings_links : frame.
Lemma drop_bindings_links hw : respects keeps_links (drop_bindings_for_hardware hw).
Proof. unfold drop_bindings_for_hardware. frame. Qed.
End bindings.

(** ** Denying a pairing *)

Lemma NoDup_rows key_id st : NoDup (map nr_id (st_nodes st)) -> NoDup (map nr_id (rows_of key_id st)).
Proof. intros HN. eapply sublist_NoDup; [exact HN|]. apply fmap_sublist, sublist_filter. Qed.

(** What a denial leaves of the two tables. *)
Lemma deny_bridge_Ok key_id a b st st' :
  deny_bridge key_id a b st = (Ok tt, st') ->
  exists ra rb, names st key_id a ra /\ names st key_id b rb /\
    st_bridges st' = filter (fun w => bool_decide (w = (nr_id ra, b)) || bool_decide (w = (nr_id rb, a)) = false) (st_bridges st) /\
    (nr_id ra <> nr_id rb -> forall l, l ∈ st_links st' <-> l ∈ st_links st /\ ordered_pair (nr_id ra) (nr_id rb) <> Ok l) /\
    st_nodes st' = st_nodes st.
Proof.
  unfold deny_bridge. intros (ia & ? & [(ra & Ha & <-)%node_id_for_label_Ok ->]%query_Ok & H)%dbM_bind_Ok.
  apply dbM_bind_Ok in H as (ib & ? & [(rb & Hb & <-)%node_id_for_label_Ok ->]%query_Ok & H). exists ra, rb. split; [done|]. split; [done|].
  apply dbM_bind_Ok in H as ([] & st1 & [= <-] & H). destruct (ordered_pair (nr_id ra) (nr_id rb)) as [p|e] eqn:Ep.
  - injection H as <-. split; [done|]. split; [|done]. intros _ l. simpl. rewrite list_elem_of_filter, bool_decide_eq_false. intuition congruence.
  - injection H as <-. split; [done|]. split; [|done]. intros Hne. destruct (ordered_pair_total _ _ Hne) as [p Hp]. congruence.
Qed.

(** A denial is final until a new allow: the two labels stay unpaired, and no
    [add_bridge] of them succeeds in either direction. *)
Lemma deny_bridge_final key_id a b st st' :
  NoDup (map nr_id (st_nodes st)) -> NoDup (map nr_label (rows_of key_id st)) -> links_ok st -> a <> b -> deny_bridge key_id a b st = (Ok tt, st') ->
  (forall ra rb, names st key_id a ra -> names st key_id b rb -> ~ paired st' ra rb) /\
  (forall st'', add_bridge key_id a b st' <> (Ok tt, st'') /\ add_bridge key_id b a st' <> (Ok tt, st'')).
Proof.
  intros HN HL [HO _] Hab (ra & rb & Ha & Hb & EW & HLk & EN)%deny_bridge_Ok.
  assert (forall r l, names st' key_id l r -> names st key_id l r) as Hnames by (intros r l; unfold names, rows_of; by rewrite EN).
  assert (nr_id ra <> nr_id rb) as Hne.
  { intros E. destruct Ha as [Ha Ea], Hb as [Hb Eb]. apply (NoDup_map_eq nr_id _ _ _ (NoDup_rows _ _ HN) Ha Hb) in E. congruence. }
  assert (~ whitelisted st' ra rb) as HW.
  { unfold whitelisted. rewrite EW, !list_elem_of_filter, !orb_false_iff, !bool_decide_eq_false. destruct Ha as [_ ->], Hb as [_ ->]. tauto. }
  split.
  - intros ra' rb' Ha' Hb'. rewrite (names_unique _ _ _ _ _ HL Ha' Ha), (names_unique _ _ _ _ _ HL Hb' Hb). unfold paired. rewrite !HLk by done.
    unfold ordered_pair. rewrite (proj2 (Nat.eqb_neq _ _)) by done. intros [[Hl%HO E]|[Hl%HO E]]; simpl in Hl; destruct (Nat.ltb_spec (nr_id ra) (nr_id rb)); try lia; done.
  - intros st''. rewrite <- EN in HN.
    split; intros (r1 & r2 & H1%Hnames & H2%Hnames & _ & Hw & _)%add_bridge_spec; try done; apply HW.
    + by rewrite (names_unique _ _ _ _ _ HL Ha H1), (names_unique _ _ _ _ _ HL Hb H2).
    + rewrite (names_unique _ _ _ _ _ HL Ha H2), (names_unique _ _ _ _ _ HL Hb H1). destruct Hw; [by right|by left].
Qed.
