(* ===== verification/TreeLaws.v ===== *)
(** * Evicting, adding and rebinding leaves

    What the operations of [TreeOps] do to the rows of a tree and to the value its
    shares stand for. *)

From stdpp Require Import gmap.
From S2P Require Import Prelude Text Crypto BTree Envelope HistoryCodec Authority Signing BridgeProof Pss Tables KeyStore KeyTree Combinations Reconstruct BridgePackage PrivateBridge BridgeRoster BridgeLaws BridgeSafety SplitTree TreeOps.

(** ** Places and rows *)

Lemma omap_lookup_filter {A} (f : nat -> option A) (P : nat -> Prop) (Q : A -> Prop) `{!forall k, Decision (P k), !forall a, Decision (Q a)} (l : list A) o :
  (forall k, k < length l -> f (o + k) = l !! k) -> (forall k a, l !! k = Some a -> P (o + k) <-> Q a) ->
  omap f (filter P (seq o (length l))) = filter Q l.
Proof.
  revert o; induction l as [|a l IH]; intros o Hf HPQ; [done|]. simpl. rewrite !filter_cons.
  assert (omap f (filter P (seq (S o) (length l))) = filter Q l) as E.
  { apply IH; [intros k Hk; replace (S o + k) with (o + S k) by lia; rewrite Hf by (simpl; lia); done|].
    intros k b Hk. rewrite <- (HPQ (S k) b Hk). by replace (S o + k) with (o + S k) by lia. }
  specialize (HPQ 0 a eq_refl). specialize (Hf 0 ltac:(simpl; lia)). rewrite Nat.add_0_r in HPQ, Hf. destruct (decide (P o)), (decide (Q a)); try tauto.
  change (match f o with Some y => y :: omap f (filter P (seq (S o) (length l))) | None => omap f (filter P (seq (S o) (length l))) end = a :: filter Q l).
  rewrite Hf. simpl. by rewrite E.
Qed.

(** The rows of a tree with a given parent, by place and by id. *)
Lemma child_rows rows j row (Pk : nat -> Prop) (P : NodeRow -> Prop) `{!forall k, Decision (Pk k), !forall r, Decision (P r)} :
  NoDup (map nr_id rows) -> rows !! j = Some row -> (forall k r, rows !! k = Some r -> Pk k <-> P r) ->
  omap (fun k => rows !! k) (filter Pk (filter (fun k => parent_place rows k = Some j) (seq 0 (length rows)))) =
  filter (fun r => P r /\ nr_parent r = Some (nr_id row)) rows.
Proof.
  intros HN Hj HP. rewrite list_filter_filter. apply omap_lookup_filter; [done|]. intros k r Hk. simpl. rewrite (HP k r Hk).
  unfold parent_place. rewrite Hk. simpl. destruct (nr_parent r) as [p|]; simpl; [|naive_solver]. rewrite place_Some by done. split.
  - intros [? (r' & Hr' & <-)]. split; [done|]. congruence.
  - intros [? [= ->]]. split; [done|]. eauto.
Qed.

Definition leaf_ids (leaves : list (KeyNode * nat)) : list (nat * option nat) := map (fun leaf => (kn_db_id leaf.1, Some leaf.2)) leaves.

(** The active children collected are the active rows among them, all leaves. *)
Lemma active_leaf_children_Ok st rows tree e ks leaves :
  kt_nodes tree = imap (arena_node st rows) rows -> active_leaf_children tree e ks = Ok leaves ->
  leaf_ids leaves = map (fun r => (nr_id r, nr_hardware r)) (filter (fun r => nr_active r = true) (omap (fun k => rows !! k) ks)).
Proof.
  intros HN. revert leaves; induction ks as [|k ks IH]; intros leaves; simpl; [by intros [= <-]|].
  unfold node_at. rewrite HN, list_lookup_imap. destruct (rows !! k) as [row|]; simpl; [|done]. rewrite filter_cons.
  destruct (decide (nr_active row = true)) as [Ea|Ea]; [|apply not_true_is_false in Ea; rewrite Ea; simpl; apply IH].
  rewrite Ea. simpl. intros (hw & Eh%ok_or_Ok & (rest & Er & [= <-])%bind_Ok)%bind_Ok. simpl. rewrite (IH rest Er). by rewrite Eh.
Qed.

(** ** Resealing leaves in place *)

Section reseal.
Context `{C : Crypto}.
Context {A B : Type} (f : A -> B -> dbM unit) (id : A -> nat) (hw0 : list HardwareKey) (Q : A -> B -> bytes -> Prop).

(** [f] writes a share allowed by [Q] into one row. *)
Definition reseals : Prop := forall a b st st', st_hardware st = hw0 -> f a b st = (Ok tt, st') ->
  exists w, Q a b w /\ st' = set_nodes (map (fun row => if bool_decide (nr_id row = id a) then set_share (Some w) row else row) (st_nodes st)) st.

(** The rows after a loop of such writes. *)
Definition resealed_rows (l : list A) (ws : list bytes) (nodes nodes' : list NodeRow) : Prop :=
  length nodes' = length nodes /\ forall j row, nodes !! j = Some row -> exists row', nodes' !! j = Some row' /\
    (nr_id row ∉ map id l -> row' = row) /\ forall i a w, l !! i = Some a -> ws !! i = Some w -> nr_id row = id a -> row' = set_share (Some w) row.

Lemma db_zip_reseals l k st st' : reseals -> NoDup (map id l) -> length l = length k -> st_hardware st = hw0 -> db_zip f l k st = (Ok tt, st') ->
  exists ws, Forall2 (fun ab w => Q ab.1 ab.2 w) (zip l k) ws /\ resealed_rows l ws (st_nodes st) (st_nodes st') /\ st' = set_nodes (st_nodes st') st.
Proof.
  intros Hf HN. revert k st; induction l as [|a l IH]; intros [|b k] st Hl Hhw; try done; simpl.
  { intros [= <-]. exists []. split; [constructor|]. split; [|by destruct st]. split; [done|]. intros j row Hj. exists row. split; [done|]. split; [done|].
    intros i x w Hi. by rewrite lookup_nil in Hi. }
  apply NoDup_cons in HN as [Ha HN]. intros ([] & st1 & E1 & E2)%dbM_bind_Ok. destruct (Hf _ _ _ _ Hhw E1) as (w & HQ & Est1).
  destruct (IH HN k st1) as (ws & HF & [HL HR] & Est'); [simpl in Hl; lia|by rewrite Est1|done|]. exists (w :: ws). split; [by constructor|]. split.
  - split; [rewrite HL, Est1; simpl; by rewrite length_map|]. intros j row Hj.
    destruct (HR j (if bool_decide (nr_id row = id a) then set_share (Some w) row else row)) as (row' & Hj' & Hout & Hin).
    { rewrite Est1. simpl. by rewrite list_lookup_fmap, Hj. }
    exists row'. split; [done|]. destruct (decide (nr_id row = id a)) as [E|Hne].
    + rewrite bool_decide_true in Hout, Hin by done. split; [intros Hnot; exfalso; apply Hnot; rewrite E; left|].
      intros [|i] x w' Hi Hw Ex; simpl in *.
      * injection Hi as ->. injection Hw as ->. apply Hout. simpl. by rewrite E.
      * exfalso. apply Ha. rewrite <- E, Ex. apply list_elem_of_fmap_2. by eapply list_elem_of_lookup_2.
    + rewrite bool_decide_false in Hout, Hin by done. split; [intros Hnot; apply Hout; set_solver|].
      intros [|i] x w' Hi Hw Ex; simpl in *; [injection Hi as ->; done|]. by eapply Hin.
  - rewrite Est', Est1. done.
Qed.

Lemma resealed_ids l ws nodes nodes' : length ws = length l -> resealed_rows l ws nodes nodes' -> map nr_id nodes' = map nr_id nodes.
Proof.
  intros Hl [HL HR]. apply list_eq. intros j. rewrite !list_lookup_fmap. destruct (nodes !! j) as [row|] eqn:Ej.
  - destruct (HR j row Ej) as (row' & -> & Hout & Hin). simpl. f_equal. destruct (decide (nr_id row ∈ map id l)) as [(a & Ea & [i Hi]%list_elem_of_lookup)%list_elem_of_fmap|Hn].
    + destruct (lookup_lt_is_Some_2 ws i) as [w Hw]; [rewrite Hl; by eapply lookup_lt_Some|]. by rewrite (Hin i a w Hi Hw Ea).
    + by rewrite (Hout Hn).
  - apply lookup_ge_None in Ej. by rewrite lookup_ge_None_2 by (rewrite HL; done).
Qed.
End reseal.

Lemma db_zip_take {A B} (f : A -> B -> dbM unit) l k st : db_zip f l k st = db_zip f l (take (length l) k) st.
Proof.
  revert k st; induction l as [|a l IH]; intros [|b k] st; try done. simpl. unfold mbind, dbM_bind. destruct (f a b st) as [[]?]; [apply IH|done].
Qed.

(** ** What a change of the bridge tables leaves alone *)

Definition private_only (st st' : Store) : Prop := st' = set_private (st_private st') st.
#[export] Instance private_only_preorder : PreOrder private_only.
Proof. unfold private_only. split; [by intros []|]. intros st1 st2 st3 -> ->. done. Qed.

Lemma private_only_update st t : private_only st (set_private t st).
Proof. done. Qed.
#[local] Hint Resolve private_only_update : core.
Lemma insert_event_private id type detail : respects private_only (insert_event id type detail).
Proof. intros st r st'. unfold insert_event. destruct (negb _); intros [= _ <-]; [reflexivity|done]. Qed.
Lemma on_private_private g : respects private_only (on_private g).
Proof. by intros st r st' [= _ <-]. Qed.
Lemma update_bridges_private P g : respects private_only (update_bridges P g).
Proof. by intros st r st' [= _ <-]. Qed.
#[local] Hint Resolve insert_event_private update_bridges_private on_private_private : frame.

Lemma on_leaf_removed_private key_id label : respects private_only (on_leaf_removed key_id label).
Proof.
  unfold on_leaf_removed. frame. match goal with |- respects _ (drop_from_bridges ?uids _) => induction uids as [|uid uids IH] end; simpl; [frame|].
  unfold drop_member_on_coordinator, delete_parties, delete_sealed. frame.
Qed.

(** ** Eviction *)

(** The rows that stay: the other active children of the same split. *)
Definition survivors_of (key_id : nat) (row : NodeRow) (st : Store) : list NodeRow :=
  filter (fun r => nr_active r = true) (filter (fun r => nr_id r <> nr_id row /\ nr_parent r = nr_parent row) (rows_of key_id st)).

Section laws.
Context `{C : Crypto} `{SH : Shamir} `{HX : Hex} (rnd : nat) (rounds : nat -> nat) (entropy : nat -> bytes).

(** [sk] is the secret of the hardware key the row is sealed to. *)
Definition holder (st : Store) (row : NodeRow) (sk : bytes) : Prop :=
  length sk = 32 /\ exists hw key, nr_hardware row = Some hw /\ get_key hw st = Ok key /\ hk_public_key key = box_public sk.

Lemma get_active_get hw st key : get_active_encryption_key hw st = Ok key -> get_key hw st = Ok key.
Proof. unfold get_active_encryption_key. intros (k & E & H)%bind_Ok. destruct (negb _); [done|]. destruct (hk_revoked k); [done|]. by injection H as ->. Qed.

(** A leaf resealed for its own key opens to the new share. *)
Lemma unwrap_resealed `{!CryptoLaws C} st st' row key hw share sk :
  NoDup (map nr_id (st_nodes st')) -> st_hardware st' = st_hardware st -> nr_hardware row = Some hw -> get_key hw st = Ok key ->
  set_share (Some (box_seal (entropy (nr_id row)) (hk_public_key key) share)) row ∈ st_nodes st' -> holder st row sk ->
  unwrap_leaf_share st' (nr_id row) sk = Ok share.
Proof.
  intros HN Eh Ehw Ek Hr (Hl & hw' & key' & Ehw' & Ek' & Epk). assert (hw' = hw) as -> by congruence. assert (key' = key) as -> by congruence.
  unfold unwrap_leaf_share. rewrite Hl, Nat.eqb_refl. cbn [negb]. set (row' := set_share _ row) in Hr.
  change (nr_id row) with (nr_id row'). rewrite (first_row_key nr_id _ row' HN Hr). cbn [ok_or mbind result_bind].
  change (nr_hardware row') with (nr_hardware row). rewrite Ehw. cbn [ok_or mbind result_bind nr_share row' set_share].
  unfold get_key in *. rewrite Eh, Ek'. cbn [mbind result_bind]. rewrite Epk, bool_decide_true by done. cbn [negb]. by rewrite box_unseal_seal.
Qed.

Lemma reseal_reseals hw0 : reseals (fun (meta : KeyNode * HardwareKey) n => reseal entropy meta.1 meta.2 n) (fun meta => kn_db_id meta.1) hw0
  (fun meta n w => w = box_seal (entropy (kn_db_id meta.1)) (hk_public_key meta.2) n).
Proof.
  intros [node key] b st st' _. unfold reseal. intros (w & st1 & [E ->]%db_try_Ok & [= <-])%dbM_bind_Ok. unfold seal_share in E.
  destruct (negb _); [done|]. injection E as <-. eexists. split; [reflexivity|]. done.
Qed.

Record eviction (key_id : nat) (row : NodeRow) (t : nat) (raws : gmap nat bytes) (old new : list bytes) (st st' : Store) : Prop := {
  ev_row : row ∈ rows_of key_id st;
  ev_threshold : exists parent tn, parent ∈ rows_of key_id st /\ nr_parent row = Some (nr_id parent) /\ nr_threshold parent = Some tn /\ t = N.to_nat tn;
  ev_enough : 2 <= t <= length (survivors_of key_id row st);
  (** the shares presented, and what they became *)
  ev_old : Forall2 (fun r v => raws !! nr_id r = Some v) (survivors_of key_id row st) old;
  ev_fresh : new = map (blind rounds (as_u8 t) (length old)) old;
  ev_points : Forall2 same_point old new;
  ev_secret idx v : NoDup idx -> Forall (fun i => i < length old) idx -> t <= length idx ->
    recover (as_u8 t) (picks old idx) = Some v -> recover (as_u8 t) (picks new idx) = Some v;
  ev_opens i r n sk : survivors_of key_id row st !! i = Some r -> new !! i = Some n -> holder st r sk -> unwrap_leaf_share st' (nr_id r) sk = Ok n;
  (** the rows *)
  ev_inactive : set_inactive row ∈ st_nodes st';
  ev_others r : r ∈ st_nodes st -> nr_id r <> nr_id row -> r ∉ survivors_of key_id row st -> r ∈ st_nodes st';
  (** no binding is left *)
  ev_links l : l ∈ st_links st' -> l.1 <> nr_id row /\ l.2 <> nr_id row;
  ev_whitelist b : b ∈ st_bridges st' -> b.1 <> nr_id row /\ (b.1 ∈ map nr_id (rows_of key_id st) -> b.2 <> nr_label row);
}.
(** What a run that succeeds has found and done. *)
Record evict_run (key_id evicted : nat) (raws : gmap nat bytes) (st st' : Store) (tree : KeyQuorumTree) (idx pidx t : nat) (node parent : KeyNode)
    (leaves : list (KeyNode * nat)) (metas : list (bytes * (KeyNode * HardwareKey))) (new : list bytes) (st2 : Store) : Prop := {
  er_tree : load key_id st = Ok tree;
  er_idx : kt_db_id_to_index tree !! evicted = Some idx;
  er_node : kt_nodes tree !! idx = Some node;
  er_parent_idx : kn_parent_idx node = Some pidx;
  er_parent : kt_nodes tree !! pidx = Some parent;
  er_threshold : kn_threshold parent = Some t;
  er_leaves : active_leaf_children tree CannotEvict (filter (fun c => c <> idx) (kn_children_indices parent)) = Ok leaves;
  er_enough : 2 <= t <= length leaves;
  er_metas : traverse (survivor raws st) leaves = Ok metas;
  er_refresh : refresh_among rounds (map fst metas) (as_u8 t) = (Ok tt, new);
  er_st2 : exists row, row ∈ rows_of key_id st /\ nr_id row = evicted /\
    let st1 := set_nodes (map (fun row => if bool_decide (nr_id row = evicted) then set_inactive row else row) (st_nodes st)) st in
    private_only (set_bridges (filter (fun b => bool_decide (b.1 = evicted) || (bool_decide (b.2 = nr_label row) &&
        bool_decide (b.1 ∈ map nr_id (rows_of key_id st1))) = false) (st_bridges st))
      (set_links (filter (fun l => bool_decide (l.1 = evicted) || bool_decide (l.2 = evicted) = false) (st_links st)) st1)) st2;
  er_reseal : db_zip (fun (meta : KeyNode * HardwareKey) n => reseal entropy meta.1 meta.2 n) (map snd metas) new st2 = (Ok tt, st');
}.

Lemma transaction_Ok {A} (m : dbM A) st a st' : transaction m st = (Ok a, st') -> m st = (Ok a, st').
Proof. unfold transaction. destruct (m st) as [[]?]; [done|discriminate]. Qed.

Lemma transaction_Err {A} (m : dbM A) st e st' : transaction m st = (Err e, st') -> st' = st.
Proof. unfold transaction. destruct (m st) as [[]?]; [discriminate|]. by intros [= _ <-]. Qed.

Lemma evict_run_Ok key_id evicted raws st changes st' :
  evict_and_refresh rounds entropy key_id evicted raws st = (Ok changes, st') ->
  exists tree idx pidx t node parent leaves metas new st2, evict_run key_id evicted raws st st' tree idx pidx t node parent leaves metas new st2.
Proof.
  unfold evict_and_refresh. intros H%transaction_Ok.
  apply dbM_bind_Ok in H as (tree & ? & [Et ->]%query_Ok & H). apply dbM_bind_Ok in H as (idx & ? & [Ei%ok_or_Ok ->]%db_try_Ok & H).
  apply dbM_bind_Ok in H as (node & ? & [En%ok_or_Ok ->]%db_try_Ok & H). destruct (_ || _); [discriminate|].
  apply dbM_bind_Ok in H as (pidx & ? & [Ep%ok_or_Ok ->]%db_try_Ok & H). apply dbM_bind_Ok in H as (parent & ? & [Epn%ok_or_Ok ->]%db_try_Ok & H).
  apply dbM_bind_Ok in H as (t & ? & [Eth%ok_or_Ok ->]%db_try_Ok & H). destruct (Nat.ltb_spec t 2) as [|H2]; [discriminate|].
  apply dbM_bind_Ok in H as (leaves & ? & [El ->]%db_try_Ok & H). destruct (Nat.ltb_spec (length leaves) t) as [|Hle]; [discriminate|].
  apply dbM_bind_Ok in H as (metas & ? & [Em ->]%query_Ok & H). cbv zeta in H. destruct (refresh_among rounds (map fst metas) (as_u8 t)) as [r new] eqn:Er.
  apply dbM_bind_Ok in H as ([] & ? & [-> ->]%db_try_Ok & H). apply dbM_bind_Ok in H as ([] & st1 & [= <-] & H).
  apply dbM_bind_Ok in H as ([] & st1 & HD & H). apply dbM_bind_Ok in H as (chs & st2 & HB%(respects_run private_only) & H); [|apply on_leaf_removed_private].
  apply dbM_bind_Ok in H as ([] & st3 & HZ & [= _ <-]). exists tree, idx, pidx, t, node, parent, leaves, metas, new, st2.
  split; try done. unfold delete_node_bindings in HD. apply dbM_bind_Ok in HD as (row & ? & [Erow%ok_or_Ok ->]%query_Ok & HD).
  apply dbM_bind_Ok in HD as (n & ? & [= _ <-] & HD). apply dbM_bind_Ok in HD as (ids & ? & [[= <-] ->]%query_Ok & [= <-]).
  apply first_row_Some in Erow as [Hrow [Eid%bool_decide_eq_true Ek%bool_decide_eq_true]%andb_true_iff]. simpl in Hrow.
  apply list_elem_of_fmap in Hrow as (row0 & Hr0 & Hrow0).
  assert (nr_id row0 = nr_id row /\ nr_key row0 = nr_key row /\ nr_label row0 = nr_label row) as (F1 & F2 & F3) by (rewrite Hr0; by case_bool_decide).
  exists row0. split; [apply list_elem_of_filter; split; [congruence|done]|]. split; [congruence|]. rewrite F3. exact HB.
Qed.

(** The rows behind the leaves collected, with their shares and keys. *)
Definition meta_of (raws : gmap nat bytes) (st : Store) (r : NodeRow) (m : bytes * (KeyNode * HardwareKey)) : Prop :=
  raws !! nr_id r = Some m.1 /\ kn_db_id m.2.1 = nr_id r /\ exists hw, nr_hardware r = Some hw /\ get_key hw st = Ok m.2.2.

Lemma survivors_metas raws st leaves rows metas : leaf_ids leaves = map (fun r => (nr_id r, nr_hardware r)) rows ->
  traverse (survivor raws st) leaves = Ok metas -> Forall2 (meta_of raws st) rows metas.
Proof.
  intros E HF%traverse_Ok. revert rows E; induction HF as [|leaf m leaves metas HS HF IH]; intros [|r rows] E; try done; constructor.
  - injection E as E1 E2 _. unfold survivor in HS. apply bind_Ok in HS as (raw & ER%ok_or_Ok & (key & EK%get_active_get & [= <-])%bind_Ok).
    split; [simpl; by rewrite <- E1|]. split; [done|]. exists leaf.2. done.
  - apply IH. by injection E.
Qed.

Context `{!CryptoLaws C} `{!ShamirLaws SH}.

Lemma evict_run_eviction key_id evicted raws st st' tree idx pidx t node parent leaves metas new st2 :
  NoDup (map nr_id (st_nodes st)) -> evict_run key_id evicted raws st st' tree idx pidx t node parent leaves metas new st2 ->
  exists row, nr_id row = evicted /\ eviction key_id row t raws (map fst metas) new st st'.
Proof.
  intros HN [Et Ei En Ep Epn Eth El Hen Em Er (row & Hrow & Eid & HP) HZ]. exists row. split; [done|].
  destruct (load_Ok key_id st tree HN Et) as [HNodes _ HLab _ HId _]. set (rows := rows_of key_id st) in *.
  assert (NoDup (map nr_id rows)) as HNr by (eapply sublist_NoDup; [exact HN|apply fmap_sublist, sublist_filter]).
  apply HId in Ei as (row1 & Hi & Eid1). assert (row1 = row) as ->.
  { eapply (NoDup_map_eq nr_id); [exact HNr|by eapply list_elem_of_lookup_2|done|congruence]. }
  assert (node = arena_node st rows idx row) as -> by (rewrite HNodes, list_lookup_imap, Hi in En; by injection En).
  cbn [kn_parent_idx arena_node] in Ep. unfold parent_place in Ep. rewrite Hi in Ep. simpl in Ep. destruct (nr_parent row) as [p|] eqn:Epar; [|done]. simpl in Ep.
  apply place_Some in Ep as (prow & Hpr & Eprow); [|done]. assert (parent = arena_node st rows pidx prow) as ->.
  { rewrite HNodes, list_lookup_imap, Hpr in Epn. by injection Epn. }
  pose proof (active_leaf_children_Ok st rows tree _ _ _ HNodes El) as EL. cbn [kn_children_indices arena_node] in EL.
  rewrite (child_rows rows pidx prow _ (fun r => nr_id r <> nr_id row)) in EL; [|done|done|]; cycle 1.
  { intros k r Hk. split; [|intros Hne ->; congruence]. intros Hk' E'. apply Hk'. eapply (NoDup_lookup (map nr_id rows)); [done|by rewrite list_lookup_fmap, Hk|].
    rewrite list_lookup_fmap, Hi. simpl. by rewrite E'. }
  assert (filter (fun r => nr_active r = true) (filter (fun r => nr_id r <> nr_id row /\ nr_parent r = Some (nr_id prow)) rows) = survivors_of key_id row st) as ES.
  { unfold survivors_of. fold rows. f_equal. apply list_filter_iff. intros r. rewrite Epar, Eprow. done. }
  rewrite ES in EL. pose proof (survivors_metas raws st _ _ _ EL Em) as HM. set (survivors := survivors_of key_id row st) in *.
  assert (forall r, r ∈ survivors -> r ∈ st_nodes st /\ nr_id r <> evicted) as Hsub.
  { intros r Hr. unfold survivors, survivors_of, rows_of in Hr. rewrite !list_elem_of_filter in Hr. rewrite <- Eid. tauto. }
  destruct (refresh_preserves_secret rounds _ _ _ Er) as (Hfresh & Hpts & Hsec). rewrite length_map in Hsec.
  assert (map (fun meta => kn_db_id meta.1) (map snd metas) = map nr_id survivors) as Eids.
  { clear -HM. induction HM as [|r m rs ms (_ & E & _) HM IH]; [done|]. simpl in *. by rewrite E, IH. }
  assert (NoDup (map nr_id survivors)) as HNs.
  { eapply sublist_NoDup; [exact HNr|]. apply fmap_sublist. etrans; apply sublist_filter. }
  cbv zeta in HP. unfold private_only in HP. assert (st_hardware st2 = st_hardware st) as Ehw by (rewrite HP; done).
  destruct (db_zip_reseals _ (fun meta => kn_db_id meta.1) (st_hardware st) _ _ _ _ _ (reseal_reseals (st_hardware st)) ltac:(by rewrite Eids)
    ltac:(by rewrite length_map, <- (Forall2_length _ _ _ Hpts), length_map) Ehw HZ) as (ws & HQ & HR & Est').
  assert (length ws = length (map snd metas)) as Hlw.
  { rewrite <- (Forall2_length _ _ _ HQ), length_zip, length_map. pose proof (Forall2_length _ _ _ Hpts) as El'. rewrite length_map in El'. lia. }
  assert (st_nodes st2 = map (fun r => if bool_decide (nr_id r = evicted) then set_inactive r else r) (st_nodes st)) as En2 by (rewrite HP; done).
  assert (map nr_id (st_nodes st') = map nr_id (st_nodes st)) as Eids'.
  { rewrite (resealed_ids _ _ _ _ _ Hlw HR), En2, map_map. apply map_ext. intros r. by case_bool_decide. }
  (* a row of the old store in the new one *)
  assert (forall r, r ∈ st_nodes st -> nr_id r ∉ map nr_id survivors -> (if bool_decide (nr_id r = evicted) then set_inactive r else r) ∈ st_nodes st') as Hkeep.
  { intros r [j Hj]%list_elem_of_lookup Hn. destruct HR as [_ HR]. destruct (HR j (if bool_decide (nr_id r = evicted) then set_inactive r else r)) as (r' & Hr' & Hout & _).
    - by rewrite En2, list_lookup_fmap, Hj.
    - rewrite Hout in Hr'; [by eapply list_elem_of_lookup_2|]. rewrite Eids. by case_bool_decide. }
  pose proof (Forall2_length _ _ _ HM) as Hlm. pose proof (f_equal length EL) as Hll. unfold leaf_ids in Hll. rewrite !length_map in Hll.
  split.
  - done.
  - cbn [kn_threshold arena_node] in Eth. destruct (nr_threshold prow) as [tn|] eqn:Etn; [|done]. injection Eth as <-.
    exists prow, tn. split_and!; [by eapply list_elem_of_lookup_2|congruence|done|done].
  - fold survivors. lia.
  - fold survivors. clear -HM. induction HM as [|r m rs ms (E & _) HM IH]; constructor; done.
  - done.
  - done.
  - intros ix v HI Hb Hlen. rewrite length_map in Hb. apply Hsec; [done|done|]. unfold as_u8. pose proof (N.Div0.mod_le (N.of_nat t) 256). lia.
  - fold survivors. intros i r n sk Hr Hn HH. destruct (Forall2_lookup_l _ _ _ _ _ HM Hr) as (m & Hm & _ & Eid' & hw & Eh & Ek).
    apply list_elem_of_lookup_2 in Hr as Hrs. destruct (Hsub r Hrs) as [Hrst Hne].
    eapply (unwrap_resealed st st' r m.2.2 hw n sk); [by rewrite Eids'|by rewrite Est'|done|done| |done].
    destruct HR as [_ HR]. apply list_elem_of_lookup in Hrst as [j Hj]. destruct (HR j r) as (r' & Hr' & _ & Hin).
    { rewrite En2, list_lookup_fmap, Hj. simpl. by rewrite bool_decide_false. }
    destruct (Forall2_lookup_l _ _ _ i (m.2, n) HQ) as (w & Hw & ->).
    { apply lookup_zip_Some. split; [by rewrite list_lookup_fmap, Hm|done]. }
    simpl in Hw. rewrite (Hin i m.2 _ ltac:(by rewrite list_lookup_fmap, Hm) Hw (eq_sym Eid')) in Hr'. rewrite Eid' in Hr'. by eapply list_elem_of_lookup_2.
  - assert (row ∈ st_nodes st) as Hrs by (by apply list_elem_of_filter in Hrow as [_ ?]). specialize (Hkeep row Hrs). rewrite bool_decide_true in Hkeep by done.
    apply Hkeep. intros (r & Er' & Hr)%list_elem_of_fmap. apply Hsub in Hr as [_ Hr]. congruence.
  - fold survivors. intros r Hr Hne Hns. specialize (Hkeep r Hr). rewrite bool_decide_false in Hkeep by congruence. apply Hkeep.
    intros (r2 & E2 & Hr2)%list_elem_of_fmap. apply Hns. destruct (Hsub r2 Hr2) as [Hr2' _]. by rewrite (NoDup_map_eq nr_id (st_nodes st) r r2 HN Hr Hr2' E2).
  - intros l Hl. rewrite Est', HP in Hl. simpl in Hl. apply list_elem_of_filter in Hl as [[B1 B2]%orb_false_iff _].
    apply bool_decide_eq_false in B1, B2. by rewrite Eid.
  - intros b Hb. rewrite Est', HP in Hb. simpl in Hb. apply list_elem_of_filter in Hb as [[B1%bool_decide_eq_false B2]%orb_false_iff _]. rewrite Eid. split; [done|].
    intros Hin E. apply andb_false_iff in B2 as [B2%bool_decide_eq_false|B2%bool_decide_eq_false]; [done|]. apply B2. fold rows in Hin.
    apply list_elem_of_fmap in Hin as (r & -> & Hr). apply list_elem_of_filter in Hr as [Ek Hr]. apply list_elem_of_fmap.
    exists (if bool_decide (nr_id r = evicted) then set_inactive r else r). split; [by case_bool_decide|]. apply list_elem_of_filter.
    split; [by case_bool_decide|]. apply list_elem_of_fmap. by exists r.
Qed.

(** C25: Eviction takes a leaf out and keeps the secret. When it succeeds, the leaf
    is inactive and bound to nobody, the other active leaves of its split hold new
    shares at their old coordinates, sealed so that each holder's key opens them:
    to each old share the shares at its coordinate of as many sharings of zero as there
    are survivors are added, each of threshold [t] and dealt with randomness of its own.
    Any [t] of the new shares give the value the old ones gave, and no other row
    has changed; the evicted leaf's share is not refreshed. On failure nothing is written. *)
Theorem evict_keeps_secret key_id evicted raws st :
  NoDup (map nr_id (st_nodes st)) ->
  match evict_and_refresh rounds entropy key_id evicted raws st with
  | (Ok _, st') => exists row t old new, nr_id row = evicted /\ eviction key_id row t raws old new st st'
  | (Err _, st') => st' = st
  end.
Proof.
  intros HN. destruct (evict_and_refresh rounds entropy key_id evicted raws st) as [[changes|e] st'] eqn:E.
  - apply evict_run_Ok in E as (tree & idx & pidx & t & node & parent & leaves & metas & new & st2 & HR).
    destruct (evict_run_eviction _ _ _ _ _ _ _ _ _ _ _ _ _ _ _ HN HR) as (row & Eid & HE). exists row, t, (map fst metas), new. done.
  - by apply transaction_Err in E.
Qed.

(** ** Adding a leaf *)

Definition leaves_of (key_id : nat) (parent : NodeRow) (st : Store) : list NodeRow :=
  filter (fun r => nr_active r = true) (filter (fun r => nr_parent r = Some (nr_id parent)) (rows_of key_id st)).

Record addition (key_id : nat) (parent : NodeRow) (t : nat) (raws : gmap nat bytes) (label : bytes) (hw new_id : nat) (v : bytes) (new : list bytes)
    (st st' : Store) : Prop := {
  ad_parent : parent ∈ rows_of key_id st;
  ad_threshold : exists tn, nr_threshold parent = Some tn /\ t = N.to_nat tn;
  ad_label r : r ∈ rows_of key_id st -> nr_label r <> label;
  (** the value of the shares presented is the value of the new ones *)
  ad_value : recover (as_u8 t) (omap (fun r => raws !! nr_id r) (leaves_of key_id parent st)) = Some v;
  ad_length : length new = S (length (leaves_of key_id parent st));
  ad_secret idx : v <> [] -> 1 <= t -> NoDup idx -> Forall (fun i => i < length new) idx -> t <= length idx -> recover (as_u8 t) (picks new idx) = Some v;
  ad_opens i r n sk : leaves_of key_id parent st !! i = Some r -> new !! i = Some n -> holder st r sk -> unwrap_leaf_share st' (nr_id r) sk = Ok n;
  ad_new : exists row, row ∈ st_nodes st' /\ nr_id row = new_id /\ new_id ∉ map nr_id (st_nodes st) /\ nr_key row = key_id /\ nr_label row = label /\
    nr_parent row = Some (nr_id parent) /\ nr_hardware row = Some hw /\ nr_active row = true /\
    forall n sk, last new = Some n -> holder st row sk -> unwrap_leaf_share st' new_id sk = Ok n;
  ad_others r : r ∈ st_nodes st -> r ∉ leaves_of key_id parent st -> r ∈ st_nodes st';
}.

Lemma reshare_reseals hw0 : reseals (fun (leaf : KeyNode * nat) raw => hardware_key ← query (get_active_encryption_key leaf.2); reseal entropy leaf.1 hardware_key raw)
  (fun leaf => kn_db_id leaf.1) hw0
  (fun leaf raw w => exists key, (forall st, st_hardware st = hw0 -> get_key leaf.2 st = Ok key) /\
     w = box_seal (entropy (kn_db_id leaf.1)) (hk_public_key key) raw).
Proof.
  intros [node hw] raw st st' Hhw. intros (key & st1 & [EK%get_active_get ->]%query_Ok & H)%dbM_bind_Ok.
  destruct (reseal_reseals hw0 (node, key) raw st st' Hhw H) as (w & -> & E). exists (box_seal (entropy (kn_db_id node)) (hk_public_key key) raw). split; [|exact E].
  exists key. split; [|done]. intros st2 E2. unfold get_key in *. simpl. by rewrite E2, <- Hhw.
Qed.

Lemma recover_secret_Ok t raws v : recover_secret t raws = Ok v -> recover t raws = Some v.
Proof. unfold recover_secret. intros ([] & _ & H)%bind_Ok. destruct (forallb _ _); [|done]. by apply ok_or_Ok in H. Qed.

Lemma add_leaf_addition key_id parent_label label hw raws st new_id st' :
  NoDup (map nr_id (st_nodes st)) -> add_leaf_and_reshare rnd entropy key_id parent_label label hw raws st = (Ok new_id, st') ->
  exists parent t v new, nr_label parent = parent_label /\ addition key_id parent t raws label hw new_id v new st st'.
Proof. clear rounds.
  intros HN. unfold add_leaf_and_reshare. case_bool_decide as Elab; [discriminate|]. intros H%transaction_Ok.
  apply dbM_bind_Ok in H as (tree & ? & [Et ->]%query_Ok & H). case_bool_decide as Edup; [discriminate|].
  apply dbM_bind_Ok in H as (pidx & ? & [Ei%ok_or_Ok ->]%db_try_Ok & H). apply dbM_bind_Ok in H as (node & ? & [En%ok_or_Ok ->]%db_try_Ok & H).
  apply dbM_bind_Ok in H as (t & ? & [Eth%ok_or_Ok ->]%db_try_Ok & H). apply dbM_bind_Ok in H as (leaves & ? & [El ->]%db_try_Ok & H). cbv zeta in H.
  set (n := S (length leaves)) in *. destruct ((255 <? n) || (n <? t)) eqn:Bn; [discriminate|]. apply orb_false_iff in Bn as [Bn%Nat.ltb_ge Bt%Nat.ltb_ge].
  set (presented := omap _ leaves) in *. destruct (length presented <? t); [discriminate|].
  apply dbM_bind_Ok in H as ([] & ? & [_ ->]%db_try_Ok & H). apply dbM_bind_Ok in H as (v & ? & [Ev%recover_secret_Ok ->]%db_try_Ok & H).
  apply dbM_bind_Ok in H as (key0 & ? & [_ ->]%query_Ok & H). set (new := take n (deal rnd (as_u8 t) v)) in *.
  destruct (Nat.eqb_spec (length new) n) as [Hnew|]; [|discriminate]. cbn [negb] in H.
  apply dbM_bind_Ok in H as ([] & st1 & HZ & H). apply dbM_bind_Ok in H as (key & ? & [EK%get_active_get ->]%query_Ok & H).
  apply dbM_bind_Ok in H as (share & ? & [Es%ok_or_Ok ->]%db_try_Ok & H). apply dbM_bind_Ok in H as (w & ? & [Ew ->]%query_Ok & H).
  destruct (load_Ok key_id st tree HN Et) as [HNodes _ HLab HLabel HId _]. set (rows := rows_of key_id st) in *.
  assert (NoDup (map nr_id rows)) as HNr by (eapply sublist_NoDup; [exact HN|apply fmap_sublist, sublist_filter]).
  apply HLabel in Ei as (prow & Hpr & Eplab). assert (node = arena_node st rows pidx prow) as -> by (rewrite HNodes, list_lookup_imap, Hpr in En; by injection En).
  pose proof (active_leaf_children_Ok st rows tree _ _ _ HNodes El) as EL. cbn [kn_children_indices arena_node] in EL.
  assert (omap (fun k => rows !! k) (filter (fun k => parent_place rows k = Some pidx) (seq 0 (length rows))) = filter (fun r => nr_parent r = Some (nr_id prow)) rows) as EC.
  { rewrite <- (filter_all (fun _ : nat => True) (filter _ _)) by by apply Forall_forall.
    rewrite (child_rows rows pidx prow (fun _ => True) (fun _ => True)) by done. apply list_filter_iff. tauto. }
  rewrite EC in EL. clear EC. change (filter _ (filter _ rows)) with (leaves_of key_id prow st) in EL. set (lrows := leaves_of key_id prow st) in *.
  assert (Forall2 (fun leaf r => kn_db_id leaf.1 = nr_id r /\ nr_hardware r = Some leaf.2) leaves lrows) as HLR.
  { clearbody lrows. clear -EL. revert lrows EL; induction leaves as [|leaf leaves IH]; intros [|r lrows] E; try done; constructor; [|apply IH; by injection E].
    by injection E. }
  assert (map (fun leaf => kn_db_id leaf.1) leaves = map nr_id lrows) as Eids.
  { clear -HLR. induction HLR as [|leaf r ls rs [E _] _ IH]; [done|]. simpl. by rewrite E, IH. }
  assert (NoDup (map nr_id lrows)) as HNs by (eapply sublist_NoDup; [exact HNr|]; apply fmap_sublist; etrans; apply sublist_filter).
  rewrite db_zip_take in HZ. assert (length leaves = length (take (length leaves) new)) as Hlk by (rewrite length_take, Hnew; unfold n; lia).
  destruct (db_zip_reseals _ (fun leaf => kn_db_id leaf.1) (st_hardware st) _ _ _ _ _ (reshare_reseals (st_hardware st)) ltac:(by rewrite Eids)
    Hlk eq_refl HZ) as (ws & HQ & HR & Est1).
  assert (length ws = length leaves) as Hlw by (rewrite <- (Forall2_length _ _ _ HQ), length_zip, length_take, Hnew; unfold n; lia).
  pose proof (resealed_ids _ _ _ _ _ Hlw HR) as Eids1. apply insert_node_Ok in H as (-> & Est' & _). set (row := leaf_row _ _ _ _ _ _) in Est'.
  assert (map nr_id (st_nodes st') = map nr_id (st_nodes st) ++ [nr_id row]) as Eids' by (rewrite Est'; simpl; by rewrite map_app, Eids1).
  assert (nr_id row ∉ map nr_id (st_nodes st)) as Hfresh.
  { rewrite <- Eids1. intros (r & Er & Hr)%list_elem_of_fmap. by apply (next_id_fresh nr_id) in Hr. }
  assert (NoDup (map nr_id (st_nodes st'))) as HN' by (rewrite Eids'; by apply NoDup_snoc_fresh).
  assert (st_hardware st' = st_hardware st) as Ehw by (rewrite Est', Est1; done).
  assert (forall r, r ∈ lrows -> r ∈ st_nodes st) as Hsub by (intros r Hr; unfold lrows, leaves_of, rows_of in Hr; rewrite !list_elem_of_filter in Hr; tauto).
  exists prow, t, v, new. split; [done|]. split; fold lrows.
  - by eapply list_elem_of_lookup_2.
  - cbn [kn_threshold arena_node] in Eth. destruct (nr_threshold prow) as [tn|]; [|done]. injection Eth as <-. eauto.
  - intros r [k Hk]%list_elem_of_lookup E. apply Edup. exists k. apply HLabel. eauto.
  - rewrite <- Ev. f_equal. unfold presented. clear -HLR. induction HLR as [|leaf r ls rs [E _] _ IH]; [done|]. simpl. rewrite E. destruct (raws !! nr_id r); [by f_equal|done].
  - rewrite Hnew. unfold n. by rewrite (Forall2_length _ _ _ HLR).
  - intros ix Hv Ht HI Hb Hlen. assert (as_u8 t = N.of_nat t) as Eu by (unfold as_u8; apply N.mod_small; lia).
    apply (recover_deal rnd); [rewrite Eu; lia|done| | |].
    + apply picks_NoDup; [|done]. eapply sublist_NoDup; [apply (deal_NoDup rnd (as_u8 t) v); rewrite Eu; lia|]. apply sublist_take.
    + intros x (i & _ & Hx)%picks_elem. apply list_elem_of_lookup_2, elem_of_take in Hx as (k & Hk & _). by eapply list_elem_of_lookup_2.
    + rewrite picks_length by done. rewrite Eu. lia.
  - intros i r share' sk Hr Hn HH. apply Forall2_flip in HLR. destruct (Forall2_lookup_l _ _ _ _ _ HLR Hr) as (leaf & Hleaf & Eid' & Eh).
    destruct (Forall2_lookup_l _ _ _ i (leaf, share') HQ) as (w' & Hw & key' & HK' & ->).
    { apply lookup_zip_Some. split; [done|]. rewrite lookup_take_lt; [done|]. by eapply lookup_lt_Some. }
    apply list_elem_of_lookup_2, Hsub, list_elem_of_lookup in Hr as [j Hj]. destruct HR as [_ HR]. destruct (HR j r Hj) as (r' & Hr' & _ & Hin).
    eapply (unwrap_resealed st st' r key' leaf.2 share' sk); [done|done|done|by apply HK'| |done].
    rewrite (Hin i leaf _ Hleaf Hw (eq_sym Eid')) in Hr'. simpl in Hr'. rewrite Eid' in Hr'. rewrite Est'. simpl. apply elem_of_app. left. by eapply list_elem_of_lookup_2.
  - exists row. split; [rewrite Est'; simpl; apply elem_of_app; right; left|]. split_and!; try done. intros share' sk Hlast HH.
    assert (share' = share) as ->. { rewrite last_lookup, Hnew in Hlast. replace (pred n) with (n - 1) in Hlast by lia. congruence. }
    unfold seal_share in Ew. destruct (negb _); [done|]. injection Ew as <-.
    assert (get_key hw st = Ok key) as EKst by (unfold get_key in *; rewrite Est1 in EK; exact EK).
    apply (unwrap_resealed st st' row key hw share sk HN' Ehw eq_refl EKst); [|exact HH]. rewrite Est'. simpl. apply elem_of_app. right. left.
  - intros r Hr Hnot. apply list_elem_of_lookup in Hr as [j Hj]. destruct HR as [_ HR]. destruct (HR j r Hj) as (r' & Hr' & Hout & _).
    rewrite Est'. simpl. apply elem_of_app. left. rewrite Hout in Hr'; [by eapply list_elem_of_lookup_2|]. rewrite Eids. intros (r2 & E2 & Hr2)%list_elem_of_fmap.
    apply Hnot. apply list_elem_of_lookup_2 in Hj. by rewrite (NoDup_map_eq nr_id (st_nodes st) r r2 HN Hj (Hsub r2 Hr2) E2).
Qed.

(** Adding a leaf keeps the secret. When it succeeds, the presented shares of
    the split recover a value, every active leaf and the new one hold a fresh
    sharing of that value at the same threshold, sealed to their own keys, any [t]
    of the new shares give it back, and no other row has changed. On failure
    nothing is written. *)
Theorem add_leaf_keeps_secret key_id parent_label label hw raws st :
  NoDup (map nr_id (st_nodes st)) ->
  match add_leaf_and_reshare rnd entropy key_id parent_label label hw raws st with
  | (Ok new_id, st') => exists parent t v new, nr_label parent = parent_label /\ addition key_id parent t raws label hw new_id v new st st'
  | (Err _, st') => st' = st
  end.
Proof. clear rounds.
  intros HN. destruct (add_leaf_and_reshare rnd entropy key_id parent_label label hw raws st) as [[new_id|e] st'] eqn:E; [by apply add_leaf_addition|].
  unfold add_leaf_and_reshare in E. case_bool_decide; [by injection E|by apply transaction_Err in E].
Qed.

(** ** Rebinding a leaf *)

(** Rebinding moves a leaf's share to another hardware key and changes nothing
    else: the share the old secret opened is the one the holder of the new key
    opens, in the same row, and every other row is as it was. *)
Theorem rebind_moves_share key_id label new_hw old_secret st st' :
  NoDup (map nr_id (st_nodes st)) -> rebind_leaf entropy key_id label new_hw old_secret st = (Ok tt, st') ->
  exists row share, row ∈ rows_of key_id st /\ nr_label row = label /\ nr_active row = true /\ unwrap_leaf_share st (nr_id row) old_secret = Ok share /\
    map nr_id (st_nodes st') = map nr_id (st_nodes st) /\
    (forall r, r ∈ st_nodes st -> r <> row -> r ∈ st_nodes st') /\
    (forall sk, holder st (set_hardware_key new_hw row) sk -> unwrap_leaf_share st' (nr_id row) sk = Ok share).
Proof.
  intros HN H. unfold rebind_leaf in H. apply dbM_bind_Ok in H as (tree & ? & [Et ->]%query_Ok & H). apply dbM_bind_Ok in H as (idx & ? & [Ei%ok_or_Ok ->]%db_try_Ok & H).
  apply dbM_bind_Ok in H as (node & ? & [En%ok_or_Ok ->]%db_try_Ok & H). destruct (_ || _) eqn:B; [discriminate|]. apply orb_false_iff in B as [Ba%negb_false_iff _].
  apply dbM_bind_Ok in H as (share & ? & [Es ->]%query_Ok & H). apply dbM_bind_Ok in H as (key & ? & [EK%get_active_get ->]%query_Ok & H).
  apply dbM_bind_Ok in H as (w & ? & [Ew ->]%db_try_Ok & H). apply dbM_bind_Ok in H as (n & st1 & HU & H). destruct (negb _); [discriminate|]. injection H as <-.
  destruct (load_Ok key_id st tree HN Et) as [HNodes _ _ HLabel _ _]. set (rows := rows_of key_id st) in *.
  apply HLabel in Ei as (row & Hi & El). assert (node = arena_node st rows idx row) as -> by (rewrite HNodes, list_lookup_imap, Hi in En; by injection En).
  cbn [kn_db_id kn_is_active arena_node] in *. apply list_elem_of_lookup_2 in Hi. apply list_elem_of_filter in Hi as Hi'. destruct Hi' as [Ek Hrow].
  unfold update_nodes_checked in HU. destruct (forallb _ _); [|discriminate]. injection HU as _ <-. set (g := fun r => set_share (Some w) (set_hardware_key new_hw r)) in *.
  assert (forall r, r ∈ st_nodes st -> bool_decide (nr_id r = nr_id row) && bool_decide (nr_key r = key_id) = true -> r = row) as Honly.
  { intros r Hr [E%bool_decide_eq_true _]%andb_true_iff. by apply (NoDup_map_eq nr_id (st_nodes st)). }
  assert (map nr_id (map (fun r => if bool_decide (nr_id r = nr_id row) && bool_decide (nr_key r = key_id) then g r else r) (st_nodes st)) = map nr_id (st_nodes st)) as Eids.
  { rewrite map_map. apply map_ext. intros r. by destruct (_ && _). }
  exists row, share. split_and!; try done.
  - intros r Hr Hne. apply list_elem_of_fmap. exists r. split; [|done]. destruct (_ && _) eqn:B; [|done]. by apply Honly in B.
  - intros sk HH. unfold seal_share in Ew. destruct (negb _); [done|]. injection Ew as <-.
    eapply (unwrap_resealed st _ (set_hardware_key new_hw row) key new_hw share sk); [change (NoDup (map nr_id (map (fun r => if bool_decide (nr_id r = nr_id row) && bool_decide (nr_key r = key_id) then g r else r) (st_nodes st)))); by rewrite Eids|done|done|done| |done].
    apply list_elem_of_fmap. exists row. split; [|done]. by rewrite !bool_decide_true by done.
Qed.
End laws.
