(* ===== verification/TreeSync.v ===== *)
(** * [src/src/key_tree.rs]: publishing a tree and applying a published one

    The export without sealed shares, the view of one label, and the merge of a
    published tree into the store. [with_immediate_transaction] outside of another
    transaction is [transaction]; inside one it only runs its body, which is
    [apply_public_tree_nested]. *)

From stdpp Require Import gmap.
From S2P Require Import Prelude Text Crypto BTree Envelope HistoryCodec Authority Signing BridgeProof Pss Visibility Tables KeyStore KeyTree Combinations Reconstruct BridgePackage PrivateBridge TreeOps.

(** ** Listings *)

Definition label_le (a b : bytes) : Prop := str_lt b a = false.
#[export] Instance label_le_dec a b : Decision (label_le a b).
Proof. unfold label_le. apply _. Defined.
(** [ORDER BY] two columns of text. *)
Definition pair_le (a b : bytes * bytes) : Prop := str_lt a.1 b.1 = true \/ (a.1 = b.1 /\ label_le a.2 b.2).
#[export] Instance pair_le_dec a b : Decision (pair_le a b).
Proof. unfold pair_le. apply _. Defined.

Record BridgeListing := { bl_allowed : list (bytes * bytes); bl_established : list (bytes * bytes) }.

(** The row with an id, as a join finds it. *)
Definition row_by_id (st : Store) (id : nat) : option NodeRow := first_row (fun row => bool_decide (nr_id row = id)) (st_nodes st).

Definition list_bridges (key_id : nat) (st : Store) : BridgeListing := {|
  bl_allowed := merge_sort pair_le (omap (fun b => row ← row_by_id st b.1;
                  if bool_decide (nr_key row = key_id) then Some (nr_label row, b.2) else None) (st_bridges st));
  bl_established := merge_sort pair_le (link_labels (fun row => bool_decide (nr_key row = key_id)) st);
|}.

(** ** Snapshots *)

Definition sorted_labels (labels : gset bytes) : list bytes := merge_sort label_le (elements labels).

(** The recursion follows children; a tree is not deeper than it has nodes. *)
Fixpoint export_node (fuel : nat) (tree : KeyQuorumTree) (idx : nat) : result NodeSpec :=
  match fuel with
  | O => Err InvalidTreeSpec
  | S fuel =>
      node ← node_at tree idx;
      let allowed := sorted_labels (kn_allowed_bridges node) in
      match kn_hardware_key_id node with
      | Some hardware_key_id => Ok (Leaf (kn_id node) hardware_key_id allowed)
      | None =>
          let active := filter (fun c => (kn_is_active <$> kt_nodes tree !! c) = Some true) (kn_children_indices node) in
          children ← traverse (export_node fuel tree) active;
          Ok (Split (kn_id node) (as_u8 (default 1 (kn_threshold node))) children allowed)
      end
  end.
Definition export_spec (key_id : nat) (st : Store) : result NodeSpec :=
  tree ← load key_id st; export_node (node_fuel tree) tree (kt_root_index tree).

(** [u32::try_from(generation).unwrap_or(1)] *)
Definition generation_u32 (generation : N) : N := if (generation <? u32_max)%N then generation else 1%N.

Definition find_tree (key_id : nat) (st : Store) : option KeyRow := first_row (fun k => bool_decide (ky_id k = key_id)) (st_keys st).
Definition tree_by_label (label : bytes) (st : Store) : option (nat * N) :=
  k ← first_row (fun k => bool_decide (ky_label k = label)) (st_keys st); Some (ky_id k, generation_u32 (ky_generation k)).
Definition tree_label (key_id : nat) (st : Store) : result bytes := k ← ok_or (find_tree key_id st) TreeNotFound; Ok (ky_label k).

(** [node.parent_idx.map(|i| tree.nodes[i].id.clone())] *)
Definition parent_name (tree : KeyQuorumTree) (node : KeyNode) : option bytes := i ← kn_parent_idx node; parent ← kt_nodes tree !! i; Some (kn_id parent).

Section export.
Context `{HX : Hex}.

Definition public_node (tree : KeyQuorumTree) (st : Store) (node : KeyNode) : result PublicNode :=
  '(fp, pk) ← match kn_hardware_key_id node with
              | Some id => key ← get_key id st; Ok (Some (hk_fingerprint key), Some (hex_encode (hk_public_key key)))
              | None => Ok (None, None)
              end;
  Ok {| pn_label := kn_id node; parent_label := parent_name tree node; pn_threshold := as_u8 <$> kn_threshold node;
        pn_is_active := kn_is_active node; encryption_fingerprint := fp; encryption_public_key := pk |}.

Definition to_edge (e : bytes * bytes) : PublicEdge := {| edge_from := e.1; edge_to := e.2 |}.

Definition export_public_tree (key_id : nat) (st : Store) : result PublicTree :=
  row ← ok_or (find_tree key_id st) TreeNotFound;
  tree ← load key_id st;
  nodes ← traverse (public_node tree st) (kt_nodes tree);
  let listing := list_bridges key_id st in
  Ok {| pt_label := ky_label row; pt_generation := generation_u32 (ky_generation row); pt_nodes := nodes;
        pt_whitelist := map to_edge (bl_allowed listing); pt_links := map to_edge (bl_established listing) |}.

(** ** What a label sees *)

Definition arena_parents (tree : KeyQuorumTree) : gmap bytes (option bytes) :=
  foldl (fun m node => <[kn_id node := parent_name tree node]> m) ∅ (kt_nodes tree).
Definition arena_children (tree : KeyQuorumTree) : gmap bytes (list bytes) :=
  foldl (fun m node => match parent_name tree node with
                       | Some parent => <[parent := default [] (m !! parent) ++ [kn_id node]]> m
                       | None => m
                       end) ∅ (kt_nodes tree).

Definition visible_labels_for_links (tree : KeyQuorumTree) (links : list (bytes * bytes)) (as_label : bytes) : result (gset bytes) :=
  start ← index_by_label tree as_label;
  node ← node_at tree start;
  Ok (visible_from_maps (arena_parents tree) (arena_children tree) links [kn_id node]).

Definition load_for_visibility (key_id : nat) (st : Store) : result (KeyQuorumTree * list (bytes * bytes)) :=
  tree ← load key_id st; Ok (tree, bl_established (list_bridges key_id st)).
Definition visible_labels (key_id : nat) (as_label : bytes) (st : Store) : result (gset bytes) :=
  '(tree, links) ← load_for_visibility key_id st; visible_labels_for_links tree links as_label.
Definition public_slice_for (key_id : nat) (as_label : bytes) (st : Store) : result PublicTree :=
  full ← export_public_tree key_id st;
  visible ← visible_labels key_id as_label st;
  Ok (filter_public_tree full visible).
End export.

(** ** Generations seen *)

(** [i64::try_from] *)
Definition fits_i64 (n : N) : bool := (n <? 2 ^ 63)%N.
Definition note_generation (key_id : nat) (generation : N) : dbM unit :=
  if fits_i64 generation then fun st =>
    if bool_decide (is_Some (find_tree key_id st)) then (Ok tt, set_generations ({[(key_id, generation)]} ∪ st_generations st) st) else (Err Db, st)
  else db_try (Err InvalidTreeSpec).
Definition generation_seen (key_id : nat) (generation : N) (st : Store) : bool :=
  fits_i64 generation && bool_decide ((key_id, generation) ∈ st_generations st).

(** ** Applying a published tree *)

(** [DELETE FROM key_nodes]: rows below a deleted one go with it, and their bridges
    and links. A chain of parents that does not repeat is no longer than the table. *)
Fixpoint doomed (fuel : nat) (st : Store) (P : NodeRow -> bool) (row : NodeRow) : bool :=
  P row || match fuel with
           | O => false
           | S fuel => match nr_parent row ≫= row_by_id st with Some parent => doomed fuel st P parent | None => false end
           end.
Definition delete_nodes (P : NodeRow -> bool) : dbM unit := execute (fun st =>
  let stays row := doomed (length (st_nodes st)) st P row = false in
  let nodes := filter stays (st_nodes st) in
  let ids := map nr_id nodes in
  set_links (filter (fun l => l.1 ∈ ids /\ l.2 ∈ ids) (st_links st))
    (set_bridges (filter (fun b => b.1 ∈ ids) (st_bridges st)) (set_nodes nodes st))).

Section apply.
Context `{C : Crypto} `{HX : Hex} `{HD : HexDecode}.

(** The key a published node is sealed to, registered if need be. *)
Definition node_hardware (node : PublicNode) : dbM (option nat) :=
  match encryption_public_key node, encryption_fingerprint node with
  | Some hex_pk, expected_fp =>
      pk ← db_try (ok_or (hex_decode hex_pk) InvalidPublicKey);
      id ← get_or_register_encryption (pn_label node) pk;
      match expected_fp with
      | Some expected_fp =>
          key ← query (get_key id);
          if negb (bool_decide (hk_fingerprint key = expected_fp)) then db_try (Err InvalidPublicKey) else mret (Some id)
      | None => mret (Some id)
      end
  | None, Some fp => key ← query (get_key_by_fingerprint fp); mret (Some (hk_id key))
  | None, None => mret None
  end.

(** The [UPDATE]: a share goes when its key changes, and a share keeps its key when
    the published node names none. *)
Definition update_row (parent_id : option nat) (node : PublicNode) (hw : option nat) (row : NodeRow) : NodeRow :=
  {| nr_id := nr_id row; nr_key := nr_key row; nr_parent := parent_id; nr_label := nr_label row; nr_threshold := pn_threshold node;
     nr_hardware := if bool_decide (is_Some (nr_share row)) && bool_decide (hw = None) then nr_hardware row else hw;
     nr_share := if bool_decide (is_Some hw) && negb (bool_decide (hw = nr_hardware row)) then None else nr_share row;
     nr_active := pn_is_active node |}.
Definition new_row (key_id : nat) (parent_id : option nat) (node : PublicNode) (hw : option nat) (id : nat) : NodeRow :=
  {| nr_id := id; nr_key := key_id; nr_parent := parent_id; nr_label := pn_label node; nr_threshold := pn_threshold node;
     nr_hardware := hw; nr_share := None; nr_active := pn_is_active node |}.

Definition apply_public_node (key_id : nat) (node : PublicNode) : dbM unit :=
  parent_id ← match parent_label node with
              | Some label => id ← query (node_id_for_label key_id label); mret (Some id)
              | None => mret None
              end;
  hardware_key_id ← node_hardware node;
  if bool_decide (pn_threshold node = None) && bool_decide (hardware_key_id = None) then db_try (Err InvalidTreeSpec) else
  existing ← query (fun st => Ok (first_row (fun row => bool_decide (nr_key row = key_id) && bool_decide (nr_label row = pn_label node)) (st_nodes st)));
  match existing with
  | Some row => _ ← update_nodes_checked (fun r => bool_decide (nr_id r = nr_id row)) (update_row parent_id node hardware_key_id); mret tt
  | None => _ ← insert_node (new_row key_id parent_id node hardware_key_id); mret tt
  end.

(** One pass over the pending nodes: those whose parent is still to come wait. *)
Fixpoint apply_pass (key_id : nat) (remaining : gset bytes) (pending : list PublicNode) (ready : gset bytes) : dbM (list PublicNode * gset bytes) :=
  match pending with
  | [] => mret ([], ready)
  | node :: pending =>
      if match parent_label node with Some parent => bool_decide (parent ∈ remaining) && negb (bool_decide (parent ∈ ready)) | None => false end
      then '(next, ready) ← apply_pass key_id remaining pending ready; mret (node :: next, ready)
      else _ ← apply_public_node key_id node; apply_pass key_id remaining pending ({[pn_label node]} ∪ ready)
  end.
(** A pass leaves fewer nodes or the loop stops. *)
Fixpoint apply_passes (fuel : nat) (key_id : nat) (remaining : gset bytes) (pending : list PublicNode) (ready : gset bytes) : dbM unit :=
  match pending, fuel with
  | [], _ => mret tt
  | _, O => db_try (Err InvalidTreeSpec)
  | _, S fuel =>
      '(next, ready) ← apply_pass key_id remaining pending ready;
      if length next =? length pending then db_try (Err InvalidTreeSpec) else apply_passes fuel key_id remaining next ready
  end.

Definition target_tree (key_id : option nat) (snapshot : PublicTree) : dbM nat :=
  match key_id with
  | Some id =>
      k ← query (fun st => ok_or (find_tree id st) TreeNotFound);
      if negb (bool_decide (ky_label k = pt_label snapshot)) then db_try (Err InvalidTreeSpec) else mret id
  | None =>
      found ← query (fun st => Ok (tree_by_label (pt_label snapshot) st));
      match found with Some (id, _) => mret id | None => insert_key (pt_label snapshot) end
  end.

Definition set_generation (generation : N) (k : KeyRow) : KeyRow :=
  {| ky_id := ky_id k; ky_label := ky_label k; ky_generation := generation; ky_custody := ky_custody k |}.
(** [CHECK (public_generation > 0)] *)
Definition update_generation (key_id : nat) (generation : N) : dbM unit := fun st =>
  if (generation =? 0)%N && existsb (fun k => bool_decide (ky_id k = key_id)) (st_keys st) then (Err Db, st) else
  (Ok tt, set_keys (map (fun k => if decide (ky_id k = key_id) then set_generation generation k else k) (st_keys st)) st).

Definition apply_public_tree_inner (key_id : option nat) (snapshot : PublicTree) : dbM nat :=
  key_id ← target_tree key_id snapshot;
  stored ← query (fun st => k ← ok_or (find_tree key_id st) Db; Ok (ky_generation k));
  if (pt_generation snapshot <? stored)%N then db_try (Err StalePublicTree) else
  let remaining : gset bytes := list_to_set (map pn_label (pt_nodes snapshot)) in
  if negb (size remaining =? length (pt_nodes snapshot)) then db_try (Err DuplicateNodeLabel) else
  _ ← apply_passes (length (pt_nodes snapshot)) key_id remaining (pt_nodes snapshot) ∅;
  labels ← query (fun st => Ok (map nr_label (rows_of key_id st)));
  _ ← db_each (fun label => if bool_decide (label ∈ remaining) then mret tt
                            else delete_nodes (fun row => bool_decide (nr_key row = key_id) && bool_decide (nr_label row = label))) labels;
  ids ← query (fun st => Ok (map nr_id (rows_of key_id st)));
  labels ← query (fun st => Ok (map nr_label (rows_of key_id st)));
  _ ← delete_whitelist (fun b => bool_decide (b.1 ∈ ids) && bool_decide (b.2 ∈ labels));
  _ ← delete_links (fun l => bool_decide (l.1 ∈ ids) && bool_decide (l.2 ∈ ids));
  _ ← db_each (fun edge => allow_bridge key_id (edge_from edge) (edge_to edge)) (pt_whitelist snapshot);
  _ ← db_each (fun edge => add_bridge key_id (edge_from edge) (edge_to edge)) (pt_links snapshot);
  previous ← query (fun st => Ok (ky_generation <$> find_tree key_id st));
  _ ← match previous with Some previous => note_generation key_id previous | None => mret tt end;
  _ ← update_generation key_id (pt_generation snapshot);
  _ ← note_generation key_id (pt_generation snapshot);
  mret key_id.

Definition apply_public_tree_nested (key_id : option nat) (snapshot : PublicTree) : dbM nat :=
  if bool_decide (pt_nodes snapshot = []) then db_try (Err InvalidTreeSpec) else apply_public_tree_inner key_id snapshot.
Definition apply_public_tree (key_id : option nat) (snapshot : PublicTree) : dbM nat :=
  if bool_decide (pt_nodes snapshot = []) then db_try (Err InvalidTreeSpec) else transaction (apply_public_tree_inner key_id snapshot).

Definition project_local (key_id : nat) (as_label : bytes) : dbM (gset bytes) :=
  visible ← query (visible_labels key_id as_label);
  full ← query (export_public_tree key_id);
  _ ← apply_public_tree (Some key_id) (filter_public_tree full visible);
  mret visible.
End apply.
