(* ===== verification/TreeSyncLaws.v ===== *)
(** * What applying a published tree does

    The tree becomes the published one, row by row; shares stay where their key
    stays, other trees are left alone. *)

From stdpp Require Import gmap.
From S2P Require Import Prelude Text Container Crypto BTree Envelope HistoryCodec Authority Signing BridgeProof Pss Visibility Tables KeyStore KeyTree Combinations Reconstruct BridgePackage PrivateBridge BridgeRoster BridgeLaws BridgeSafety SplitTree TreeOps TreeSync.

(** The rows of all trees: distinct ids, one label once per tree, parents in the same tree. *)
Record forest (st : Store) : Prop := {
  fo_ids : NoDup (map nr_id (st_nodes st));
  fo_labels r r' : r ∈ st_nodes st -> r' ∈ st_nodes st -> nr_key r = nr_key r' -> nr_label r = nr_label r' -> r = r';
  fo_trees : NoDup (map ky_id (st_keys st));
  fo_hardware : NoDup (map hk_id (st_hardware st));
  fo_public_keys : NoDup (map hk_public_key (st_hardware st));
  fo_parents r p : r ∈ st_nodes st -> nr_parent r = Some p -> exists r', r' ∈ st_nodes st /\ nr_id r' = p /\ nr_key r' = nr_key r;
}.

(** The key a published node names. *)
Definition names_key `{HexDecode} (hardware : list HardwareKey) (node : PublicNode) (hw : option nat) : Prop :=
  match encryption_public_key node, encryption_fingerprint node with
  | Some hex_pk, fp => exists key, key ∈ hardware /\ hw = Some (hk_id key) /\ hex_decode hex_pk = Some (hk_public_key key) /\
                         (forall expected, fp = Some expected -> hk_fingerprint key = expected)
  | None, Some fp => exists key, key ∈ hardware /\ hw = Some (hk_id key) /\ hk_fingerprint key = fp
  | None, None => hw = None
  end.

(** The row of a published node: as published, below the row of its parent. *)
Record published `{HexDecode} (st : Store) (key_id : nat) (node : PublicNode) (row : NodeRow) : Prop := {
  pu_row : row ∈ rows_of key_id st;
  pu_label : nr_label row = pn_label node;
  pu_threshold : nr_threshold row = pn_threshold node;
  pu_active : nr_active row = pn_is_active node;
  pu_key : names_key (st_hardware st) node (nr_hardware row);
  pu_parent : match parent_label node with
              | Some l => exists parent, parent ∈ rows_of key_id st /\ nr_label parent = l /\ nr_parent row = Some (nr_id parent)
              | None => nr_parent row = None
              end;
}.

(** Where the share of a row comes from: it stays in its row while the key stays. *)
Definition share_kept (st0 : Store) (key_id : nat) (row : NodeRow) : Prop :=
  match first_row (fun r => bool_decide (nr_key r = key_id) && bool_decide (nr_label r = nr_label row)) (st_nodes st0) with
  | Some row0 => nr_id row = nr_id row0 /\ nr_share row = if decide (nr_hardware row = nr_hardware row0) then nr_share row0 else None
  | None => nr_id row ∉ map nr_id (st_nodes st0) /\ nr_share row = None
  end.

Definition extends {A} (l l' : list A) : Prop := exists k, l' = l ++ k.
#[export] Instance extends_preorder {A} : PreOrder (@extends A).
Proof. split; [intros l; exists []; by rewrite app_nil_r|]. intros l1 l2 l3 [k ->] [k' ->]. exists (k ++ k'). by rewrite app_assoc. Qed.
Lemma extends_elem {A} (l l' : list A) x : extends l l' -> x ∈ l -> x ∈ l'.
Proof. intros [k ->] Hx. apply elem_of_app. by left. Qed.

(** Only rows and hardware keys change. *)
Definition rows_and_keys (st st' : Store) : Prop := st' = set_hardware (st_hardware st') (set_nodes (st_nodes st') st) /\ extends (st_hardware st) (st_hardware st').
#[export] Instance rows_and_keys_preorder : PreOrder rows_and_keys.
Proof.
  split; [intros []; by split|]. intros st1 st2 st3 [E1 H1] [E2 H2]. split; [|by etrans]. rewrite E2, E1. done.
Qed.

Section apply.
Context `{C : Crypto} `{HX : Hex} `{HD : HexDecode}.

Lemma names_key_extends hardware hardware' node hw : extends hardware hardware' -> names_key hardware node hw -> names_key hardware' node hw.
Proof.
  intros HE. unfold names_key. destruct (encryption_public_key node), (encryption_fingerprint node); try done;
    intros (key & Hk & H); exists key; (split; [by eapply extends_elem|done]).
Qed.

(** Keys of the registry have ids and public keys of their own. *)
Definition registry_ok (hardware : list HardwareKey) : Prop := NoDup (map hk_id hardware) /\ NoDup (map hk_public_key hardware).

Lemma get_or_register_Ok label kt pk st id st' : registry_ok (st_hardware st) -> get_or_register label kt pk st = (Ok id, st') ->
  exists key, key ∈ st_hardware st' /\ hk_id key = id /\ hk_public_key key = pk /\ hk_key_type key = kt /\
    st' = set_hardware (st_hardware st') st /\ extends (st_hardware st) (st_hardware st') /\
    registry_ok (st_hardware st').
Proof.
  intros [HN HNp]. unfold get_or_register, get_key_by_public_key, register_key. destruct (negb _); [discriminate|].
  destruct (first_row _ _) as [key|] eqn:E; simpl.
  - case_bool_decide as Ek; [|discriminate]. simpl. intros [= <- <-]. apply first_row_Some in E as [Hk Epk%bool_decide_eq_true]. exists key.
    split_and!; try done. by destruct st.
  - case_bool_decide; [discriminate|]. intros [= <- <-]. eexists. split; [apply elem_of_app; right; left|]. split_and!; try done; [by eexists|].
    unfold registry_ok. simpl. rewrite !map_app. split; apply NoDup_snoc_fresh; [done| |done|].
    + intros (k & Ek & Hk)%list_elem_of_fmap. by apply (next_id_fresh hk_id) in Hk.
    + intros (k & Ek & Hk)%list_elem_of_fmap. simpl in Ek. apply first_row_None with (row := k) in E; [|done]. by rewrite Ek, bool_decide_true in E.
Qed.

Lemma get_key_elem id st key : get_key id st = Ok key -> key ∈ st_hardware st /\ hk_id key = id.
Proof. unfold get_key. intros [Hk E%bool_decide_eq_true]%ok_or_Ok%first_row_Some. done. Qed.

Lemma node_hardware_Ok node st hw st' : registry_ok (st_hardware st) -> node_hardware node st = (Ok hw, st') ->
  st' = set_hardware (st_hardware st') st /\ extends (st_hardware st) (st_hardware st') /\ names_key (st_hardware st') node hw /\ registry_ok (st_hardware st').
Proof.
  intros HN. unfold node_hardware, names_key. destruct (encryption_public_key node) as [hex_pk|], (encryption_fingerprint node) as [fp|].
  - intros (pk & ? & [Epk%ok_or_Ok ->]%db_try_Ok & H)%dbM_bind_Ok. apply dbM_bind_Ok in H as (id & st1 & HG & H).
    apply dbM_bind_Ok in H as (key & ? & [[Hk Ek]%get_key_elem ->]%query_Ok & H). case_bool_decide as Ef; [|discriminate]. injection H as <- <-.
    apply get_or_register_Ok in HG as (key' & Hk' & Eid & Epk' & _ & Est & HE & HN'); [|done]. split; [done|]. split; [done|]. split; [|done].
    assert (key' = key) as -> by (apply (NoDup_map_eq hk_id (st_hardware st1)); [apply HN'|done..|congruence]).
    exists key. split; [done|]. split; [congruence|]. split; [congruence|]. by intros expected [= <-].
  - intros (pk & ? & [Epk%ok_or_Ok ->]%db_try_Ok & H)%dbM_bind_Ok. apply dbM_bind_Ok in H as (id & st1 & HG & [= <- <-]).
    apply get_or_register_Ok in HG as (key & Hk & Eid & Epk' & _ & Est & HE & HN'); [|done]. split; [done|]. split; [done|]. split; [|done].
    exists key. split; [done|]. split; [congruence|]. split; [congruence|done].
  - intros (key & ? & [[Hk E%bool_decide_eq_true]%ok_or_Ok%first_row_Some ->]%query_Ok & [= <- <-])%dbM_bind_Ok.
    split; [by destruct st|]. split; [done|]. split; [|done]. by exists key.
  - intros [= <- <-]. split; [by destruct st|]. done.
Qed.

(** ** One node *)

Definition same_place (r r' : NodeRow) : Prop := nr_id r = nr_id r' /\ nr_key r = nr_key r' /\ nr_label r = nr_label r'.

(** A row is written: [row], in the place of the row with its label or as a new one. *)
Record row_written (key_id : nat) (label : bytes) (row : NodeRow) (nodes nodes' : list NodeRow) : Prop := {
  rw_key : nr_key row = key_id;
  rw_label : nr_label row = label;
  rw_elem r : r ∈ nodes' <-> r = row \/ (r ∈ nodes /\ ~ (nr_key r = key_id /\ nr_label r = label));
  rw_ids : NoDup (map nr_id nodes');
  rw_place r : r ∈ nodes -> nr_key r = key_id -> nr_label r = label -> nr_id row = nr_id r;
  rw_fresh : (forall r, r ∈ nodes -> ~ (nr_key r = key_id /\ nr_label r = label)) -> nr_id row ∉ map nr_id nodes;
}.

(** Every old row has a row in its place. *)
Lemma row_written_place key_id label row nodes nodes' r : row_written key_id label row nodes nodes' -> r ∈ nodes -> exists r', r' ∈ nodes' /\ same_place r' r.
Proof.
  intros [HK HL HE _ HP _] Hr. destruct (decide (nr_key r = key_id /\ nr_label r = label)) as [[Ek El]|Hn].
  - exists row. split; [apply HE; by left|]. split; [by apply HP|]. split; congruence.
  - exists r. split; [apply HE; by right|done].
Qed.

Lemma update_written st key_id label row row' :
  forest st -> row ∈ st_nodes st -> nr_key row = key_id -> nr_label row = label -> same_place row' row ->
  row_written key_id label row' (st_nodes st) (map (fun r => if bool_decide (nr_id r = nr_id row) then row' else r) (st_nodes st)).
Proof.
  intros [HN HL _ _ _ _] Hr Ek El (Eid & Ek' & El').
  assert (forall r, r ∈ st_nodes st -> nr_id r = nr_id row <-> (nr_key r = key_id /\ nr_label r = label)) as Hiff.
  { intros r Hr'. split; [intros E; by rewrite (NoDup_map_eq nr_id _ r row HN Hr' Hr E)|intros [? ?]; f_equal; apply HL; congruence]. }
  split; [congruence|congruence|..].
  - intros r. rewrite list_elem_of_fmap. split.
    + intros (r0 & -> & Hr0). case_bool_decide as E; [by left|right]. split; [done|]. by rewrite <- (Hiff r0 Hr0).
    + intros [->|[Hr' Hn]]; [exists row; rewrite bool_decide_true by done; done|]. exists r. split; [|done]. by rewrite bool_decide_false by (by rewrite Hiff).
  - rewrite map_map. erewrite map_ext; [exact HN|]. intros r. by case_bool_decide; [congruence|].
  - intros r Hr' E1 E2. rewrite Eid. symmetry. by apply Hiff.
  - intros Hno. by destruct (Hno row Hr).
Qed.

Lemma insert_written st key_id label row :
  forest st -> (forall r, r ∈ st_nodes st -> ~ (nr_key r = key_id /\ nr_label r = label)) -> nr_key row = key_id -> nr_label row = label ->
  nr_id row = next_id nr_id (st_nodes st) -> row_written key_id label row (st_nodes st) (st_nodes st ++ [row]).
Proof.
  intros [HN _ _ _ _ _] Hno Ek El Eid. assert (nr_id row ∉ map nr_id (st_nodes st)) as Hf.
  { rewrite Eid. intros (r & Er & Hr)%list_elem_of_fmap. by apply (next_id_fresh nr_id) in Hr. }
  split; [done|done|..].
  - intros r. rewrite elem_of_app, list_elem_of_singleton. split; [intros [?| ->]; [right|by left]; by auto|intros [->|[? _]]; auto].
  - rewrite map_app. by apply NoDup_snoc_fresh.
  - intros r Hr E1 E2. by destruct (Hno r Hr).
  - done.
Qed.

Lemma update_checked_Ok P g st n st' : update_nodes_checked P g st = (Ok n, st') ->
  st' = set_nodes (map (fun row => if P row then g row else row) (st_nodes st)) st /\ forall r, r ∈ st_nodes st -> P r = true -> row_allowed st (g r) = true.
Proof.
  unfold update_nodes_checked. destruct (forallb _ _) eqn:B; [|discriminate]. intros [= _ <-]. split; [done|].
  intros r Hr HP. rewrite forallb_forall in B. apply B, list_elem_of_In, list_elem_of_filter. done.
Qed.

(** What the schema accepts of an updated row. *)
Lemma update_row_columns st parent_id node hw row :
  row_allowed st (update_row parent_id node hw row) = true -> ~ (pn_threshold node = None /\ hw = None) ->
  nr_hardware (update_row parent_id node hw row) = hw /\
  nr_share (update_row parent_id node hw row) = if decide (hw = nr_hardware row) then nr_share row else None.
Proof.
  intros [_ HC]%andb_true_iff Hn. simpl in HC. destruct hw as [h|].
  - clear HC. cbn [update_row nr_hardware nr_share]. rewrite (bool_decide_false (Some h = None)), andb_false_r by done. split; [done|].
    rewrite (bool_decide_true (is_Some (Some h))) by eauto. simpl. case_bool_decide; [by rewrite decide_True|by rewrite decide_False].
  - simpl. destruct (pn_threshold node) as [t|]; [|by destruct Hn]. destruct (nr_share row) as [s|]; simpl in *; [by destruct (nr_hardware row)|].
    split; [done|]. by case_decide.
Qed.

Lemma forest_written st key_id label row nodes' hardware' :
  forest st -> row_written key_id label row (st_nodes st) nodes' -> NoDup (map hk_id hardware') -> NoDup (map hk_public_key hardware') ->
  (forall p, nr_parent row = Some p -> exists r, r ∈ rows_of key_id st /\ nr_id r = p) -> forest (set_hardware hardware' (set_nodes nodes' st)).
Proof.
  intros [HN HL HT HH HPk HP] HW HH' Hpk' Hpar. pose proof (fun r => row_written_place _ _ _ _ _ r HW) as Hpl. destruct HW as [HK Hlab HE HN' _ _].
  split; simpl; [done|..|done|done|done|].
  - intros r r' [->|[Hr Hn]]%HE [->|[Hr' Hn']]%HE Ek El; [done|..]; [destruct Hn'; split; congruence|destruct Hn; split; congruence|by apply HL].
  - intros r p Hr Ep. assert (exists r0, r0 ∈ st_nodes st /\ nr_id r0 = p /\ nr_key r0 = nr_key r) as (r0 & H0 & <- & E0).
    { apply HE in Hr as [->|[Hr _]]; [|by apply HP]. apply Hpar in Ep as (r0 & [? ?]%list_elem_of_filter & ?). exists r0. split_and!; [done..|congruence]. }
    destruct (Hpl r0 H0) as (r1 & H1 & (? & ? & ?)). exists r1. split_and!; [done..|congruence].
Qed.

Lemma parent_query key_id node st parent_id st' :
  (match parent_label node with
   | Some label => id ← query (node_id_for_label key_id label); mret (Some id)
   | None => mret None
   end : dbM (option nat)) st = (Ok parent_id, st') ->
  st' = st /\ match parent_label node with
             | Some l => exists parent, parent ∈ rows_of key_id st /\ nr_label parent = l /\ parent_id = Some (nr_id parent)
             | None => parent_id = None
             end.
Proof.
  destruct (parent_label node) as [l|]; [|by intros [= <- <-]].
  intros (id & ? & [(parent & [Hp El] & <-)%node_id_for_label_Ok ->]%query_Ok & [= <- <-])%dbM_bind_Ok. split; [done|]. by exists parent.
Qed.

Definition label_row (key_id : nat) (label : bytes) (nodes : list NodeRow) : option NodeRow :=
  first_row (fun row => bool_decide (nr_key row = key_id) && bool_decide (nr_label row = label)) nodes.
Lemma label_row_Some key_id label nodes row : label_row key_id label nodes = Some row -> row ∈ nodes /\ nr_key row = key_id /\ nr_label row = label.
Proof. intros [Hr [E1%bool_decide_eq_true E2%bool_decide_eq_true]%andb_true_iff]%first_row_Some. done. Qed.
Lemma label_row_None key_id label nodes : label_row key_id label nodes = None -> forall r, r ∈ nodes -> ~ (nr_key r = key_id /\ nr_label r = label).
Proof. intros H r Hr [E1 E2]. apply first_row_None with (row := r) in H; [|done]. by rewrite E1, E2, !bool_decide_true in H. Qed.

Lemma apply_public_node_Ok key_id node st st' :
  forest st -> apply_public_node key_id node st = (Ok tt, st') ->
  exists row, row_written key_id (pn_label node) row (st_nodes st) (st_nodes st') /\ published st' key_id node row /\ share_kept st key_id row /\
    rows_and_keys st st' /\ forest st'.
Proof.
  intros HF H. unfold apply_public_node in H. apply dbM_bind_Ok in H as (pid & ? & [-> Hpar]%parent_query & H).
  apply dbM_bind_Ok in H as (hw & st1 & (Est1 & HE & HK & HN & HNp)%node_hardware_Ok & H); [|by destruct HF]. destruct (_ && _) eqn:B; [discriminate|].
  assert (~ (pn_threshold node = None /\ hw = None)) as Hn by (apply andb_false_iff in B as [B%bool_decide_eq_false|B%bool_decide_eq_false]; tauto). clear B.
  assert (st_nodes st1 = st_nodes st) as En by (rewrite Est1; done).
  assert (exists row, row_written key_id (pn_label node) row (st_nodes st) (st_nodes st') /\ share_kept st key_id row /\ st' = set_nodes (st_nodes st') st1 /\
    nr_parent row = pid /\ nr_threshold row = pn_threshold node /\ nr_active row = pn_is_active node /\ nr_hardware row = hw) as (row & HW & HS & Est' & Ep & Et & Ea & Eh).
  { apply dbM_bind_Ok in H as (existing & ? & [[= <-] ->]%query_Ok & H). fold (label_row key_id (pn_label node) (st_nodes st1)) in H. rewrite En in H.
    destruct (label_row key_id (pn_label node) (st_nodes st)) as [row0|] eqn:EL.
    - apply dbM_bind_Ok in H as (n & ? & [-> HA]%update_checked_Ok & [= <-]). rewrite En in HA. pose proof EL as (H0 & Ek0 & El0)%label_row_Some.
      destruct (update_row_columns st1 pid node hw row0 (HA row0 H0 (bool_decide_eq_true_2 _ eq_refl)) Hn) as [Eh Es].
      exists (update_row pid node hw row0). split; [|split; [|split; [done|done]]].
      + cbn [set_nodes st_nodes]. rewrite En. erewrite map_ext_in; [apply (update_written st key_id (pn_label node) row0); try done|].
        intros r Hr%list_elem_of_In. simpl. case_bool_decide as E; [|done]. by rewrite (NoDup_map_eq nr_id _ r row0 (fo_ids _ HF) Hr H0 E).
      + unfold share_kept. fold (label_row key_id (nr_label (update_row pid node hw row0)) (st_nodes st)). cbn [nr_label update_row]. rewrite El0, EL.
        split; [done|]. rewrite Es, Eh. by case_decide.
    - apply dbM_bind_Ok in H as (n & ? & (-> & -> & HA)%insert_node_Ok & [= <-]). rewrite En in *.
      pose proof (label_row_None _ _ _ EL) as Hno.
      assert (row_written key_id (pn_label node) (new_row key_id pid node hw (next_id nr_id (st_nodes st))) (st_nodes st)
        (st_nodes st ++ [new_row key_id pid node hw (next_id nr_id (st_nodes st))])) as HW by by apply insert_written.
      exists (new_row key_id pid node hw (next_id nr_id (st_nodes st))). split; [cbn [set_nodes st_nodes]; exact HW|]. split; [|split; [done|done]].
      unfold share_kept. fold (label_row key_id (nr_label (new_row key_id pid node hw (next_id nr_id (st_nodes st)))) (st_nodes st)). cbn [nr_label new_row]. rewrite EL.
      split; [|done]. by apply (rw_fresh _ _ _ _ _ HW). }
  assert (st_hardware st' = st_hardware st1) as Ehw by (rewrite Est'; done).
  assert (st' = set_hardware (st_hardware st1) (set_nodes (st_nodes st') st)) as Est by (rewrite Est' at 1; rewrite Est1 at 1; done).
  assert (forall p, pid = Some p -> exists r, r ∈ rows_of key_id st /\ nr_id r = p) as Hpid.
  { intros p ->. destruct (parent_label node); [|done]. destruct Hpar as (r & Hr & _ & [= ->]). by exists r. }
  exists row. split; [done|]. split; [|split; [done|split]].
  - split.
    + apply list_elem_of_filter. split; [by apply HW|]. by apply HW; left.
    + by apply HW.
    + done.
    + done.
    + rewrite Ehw, Eh. done.
    + rewrite Ep. destruct (parent_label node) as [l|]; [|done]. destruct Hpar as (parent & [Ek Hp]%list_elem_of_filter & El & ->).
      destruct (row_written_place _ _ _ _ _ parent HW Hp) as (parent' & Hp' & (Eid & Ek' & El')). exists parent'. rewrite Eid. split; [|split; [congruence|done]].
      apply list_elem_of_filter. split; [congruence|done].
  - split; [by rewrite Est at 1; rewrite Ehw|by rewrite Ehw].
  - rewrite Est. apply (forest_written st key_id (pn_label node) row); [done|done|done|done|]. by rewrite Ep.
Qed.

(** ** All of them *)

Lemma label_row_eq st key_id label row : forest st -> row ∈ st_nodes st -> nr_key row = key_id -> nr_label row = label -> label_row key_id label (st_nodes st) = Some row.
Proof.
  intros HF Hr Ek El. destruct (label_row key_id label (st_nodes st)) as [r|] eqn:E.
  - apply label_row_Some in E as (H & E1 & E2). f_equal. apply HF; congruence.
  - by destruct (label_row_None _ _ _ E row Hr).
Qed.

(** The nodes of [done] have been applied since [st0]. *)
Record applied (st0 : Store) (key_id : nat) (done : list PublicNode) (st : Store) : Prop := {
  ap_forest : forest st;
  ap_frame : rows_and_keys st0 st;
  ap_done n : n ∈ done -> exists row, published st key_id n row /\ share_kept st0 key_id row;
  ap_rest r : ~ (nr_key r = key_id /\ nr_label r ∈ map pn_label done) -> r ∈ st_nodes st <-> r ∈ st_nodes st0;
  ap_place r : r ∈ st_nodes st0 -> exists r', r' ∈ st_nodes st /\ same_place r' r;
}.

Lemma applied_nil st0 key_id : forest st0 -> applied st0 key_id [] st0.
Proof. intros HF. split; [done|done|intros n Hn; inversion Hn|done|]. intros r Hr. by exists r. Qed.

Lemma published_stable st st' key_id node row label row' :
  published st key_id node row -> row_written key_id label row' (st_nodes st) (st_nodes st') -> extends (st_hardware st) (st_hardware st') ->
  pn_label node <> label -> published st' key_id node row.
Proof.
  intros [[Ek Hr]%list_elem_of_filter El Et Ea HK HP] HW HE Hne. split; [|done|done|done|by eapply names_key_extends|].
  - apply list_elem_of_filter. split; [done|]. apply HW. right. split; [done|]. intros [_ E]. congruence.
  - destruct (parent_label node) as [l|]; [|done]. destruct HP as (p & [Ekp Hp]%list_elem_of_filter & Elp & Eid).
    destruct (row_written_place _ _ _ _ _ p HW Hp) as (p' & Hp' & (E1 & E2 & E3)). exists p'. split; [|split; congruence].
    apply list_elem_of_filter. split; [congruence|done].
Qed.

Lemma share_kept_from st0 st key_id done row :
  forest st0 -> applied st0 key_id done st -> nr_label row ∉ map pn_label done -> share_kept st key_id row -> share_kept st0 key_id row.
Proof.
  intros HF0 [HF _ _ HR HPl] Hn. unfold share_kept. fold (label_row key_id (nr_label row) (st_nodes st)). fold (label_row key_id (nr_label row) (st_nodes st0)).
  destruct (label_row key_id (nr_label row) (st_nodes st0)) as [r0|] eqn:E0.
  - apply label_row_Some in E0 as (H0 & Ek & El). rewrite (label_row_eq st key_id (nr_label row) r0); [done|done| |done|done].
    apply HR; [|done]. by rewrite El; intros [_ ?].
  - destruct (label_row key_id (nr_label row) (st_nodes st)) as [r|] eqn:E.
    + exfalso. apply label_row_Some in E as (H & Ek & El). eapply (label_row_None _ _ _ E0 r); [|done]. apply HR; [|done]. by rewrite El; intros [_ ?].
    + intros [Hf ->]. split; [|done]. intros (r0 & Er & (r' & Hr' & (Eid & _))%HPl)%list_elem_of_fmap. apply Hf. rewrite Er, <- Eid. by apply list_elem_of_fmap_2.
Qed.

Lemma applied_step st0 key_id done st node st' :
  forest st0 -> applied st0 key_id done st -> pn_label node ∉ map pn_label done -> apply_public_node key_id node st = (Ok tt, st') ->
  applied st0 key_id (node :: done) st'.
Proof.
  intros HF0 HA Hn H. pose proof HA as [HF Hfr HDn HR HPl]. apply apply_public_node_Ok in H as (row & HW & HP & HS & Hfr' & HF'); [|done].
  split; [done|by etrans|..].
  - intros n [->|Hin]%elem_of_cons.
    + exists row. split; [done|]. eapply share_kept_from; [done|exact HA| |done]. by rewrite (pu_label _ _ _ _ HP).
    + destruct (HDn n Hin) as (r & Hp & Hs). exists r. split; [|done]. eapply published_stable; [done|done|by apply Hfr'|].
      intros E. apply Hn. rewrite <- E. by apply list_elem_of_fmap_2.
  - intros r Hr. simpl in Hr. rewrite (rw_elem _ _ _ _ _ HW), <- HR by set_solver. split; [|intros ?; right; split; [done|set_solver]].
    intros [->|[? _]]; [|done]. destruct Hr. split; [by apply HW|]. rewrite (rw_label _ _ _ _ _ HW). left.
  - intros r (r1 & Hr1 & (? & ? & ?))%HPl. destruct (row_written_place _ _ _ _ _ r1 HW Hr1) as (r2 & Hr2 & (? & ? & ?)). exists r2. split; [done|]. split_and!; congruence.
Qed.

Lemma apply_pass_Ok st0 key_id remaining pending ready done st next ready' st' :
  forest st0 -> applied st0 key_id done st -> NoDup (map pn_label (done ++ pending)) ->
  apply_pass key_id remaining pending ready st = (Ok (next, ready'), st') ->
  exists now, now ++ next ≡ₚ done ++ pending /\ length next <= length pending /\ applied st0 key_id now st'.
Proof.
  intros HF0. revert ready done st next; induction pending as [|node pending IH]; intros ready done st next HA HN; simpl.
  { intros [= <- <- <-]. exists done. done. }
  match goal with |- context [if ?b then _ else _] => destruct b end.
  - intros ([next1 ready1] & st1 & H1 & [= <- <- <-])%dbM_bind_Ok. eapply IH in H1 as (now & HP & Hl & HA'); [|done|].
    + exists now. split; [|split; [simpl; lia|done]]. by rewrite <- !Permutation_middle, HP.
    + rewrite <- Permutation_middle in HN. by apply NoDup_cons in HN as [_ HN].
  - intros ([] & st1 & H1 & H)%dbM_bind_Ok. rewrite <- Permutation_middle in HN. apply (IH _ (node :: done)) in H as (now & HP & Hl & HA').
    + exists now. split; [|split; [simpl; lia|done]]. rewrite HP. apply Permutation_middle.
    + eapply applied_step; [done|done| |done]. simpl in HN. apply NoDup_cons in HN as [Hn _]. rewrite map_app in Hn. set_solver.
    + done.
Qed.

Lemma apply_passes_Ok st0 key_id remaining fuel pending ready done st st' :
  forest st0 -> applied st0 key_id done st -> NoDup (map pn_label (done ++ pending)) ->
  apply_passes fuel key_id remaining pending ready st = (Ok tt, st') ->
  exists now, now ≡ₚ done ++ pending /\ applied st0 key_id now st'.
Proof.
  intros HF0. revert pending ready done st; induction fuel as [|fuel IH]; intros [|node pending] ready done st HA HN H; cbn [apply_passes] in H; try discriminate.
  1, 2: injection H as <-; exists done; by rewrite app_nil_r.
  apply dbM_bind_Ok in H as ([next ready'] & st1 & H1 & H). destruct (_ =? _); [discriminate|].
  eapply apply_pass_Ok in H1 as (now & HP & _ & HA'); [|done..]. eapply IH in H as (now' & HP' & HA''); [|done|by rewrite HP].
  exists now'. split; [by rewrite HP', HP|done].
Qed.
End apply.

(** ** Deleting the rows that are not published *)

(** Rows that are kept and whose parents are kept are not doomed. *)
Lemma doomed_kept st P (Q : NodeRow -> Prop) fuel row :
  (forall r, Q r -> P r = false) -> (forall r p parent, Q r -> nr_parent r = Some p -> row_by_id st p = Some parent -> Q parent) ->
  Q row -> doomed fuel st P row = false.
Proof.
  intros HP HQ. revert row; induction fuel as [|fuel IH]; intros row Hr; simpl; rewrite (HP row Hr); [done|]. simpl.
  destruct (nr_parent row) as [p|] eqn:Ep; [|done]. simpl. destruct (row_by_id st p) as [parent|] eqn:E; [|done]. apply IH. by eapply HQ.
Qed.

Lemma row_by_id_Some st id row : row_by_id st id = Some row -> row ∈ st_nodes st /\ nr_id row = id.
Proof. intros [Hr E%bool_decide_eq_true]%first_row_Some. done. Qed.

Definition ids_of (st : Store) : list nat := map nr_id (st_nodes st).

(** [gone] are labels that have no row any more; the rows of [Q] are all there. *)
Record pruned (key_id : nat) (Q : NodeRow -> Prop) (gone : list bytes) (st st' : Store) : Prop := {
  pr_frame : st' = set_links (st_links st') (set_bridges (st_bridges st') (set_nodes (st_nodes st') st));
  pr_nodes : st_nodes st' `sublist_of` st_nodes st;
  pr_kept r : r ∈ st_nodes st -> Q r -> r ∈ st_nodes st';
  pr_gone r : r ∈ st_nodes st' -> nr_key r = key_id -> nr_label r ∉ gone;
  pr_bridges : st_bridges st' ⊆ st_bridges st;
  pr_bridge_rows b : b.1 ∈ ids_of st' -> b ∈ st_bridges st -> b ∈ st_bridges st';
  pr_link_rows l : l.1 ∈ ids_of st' -> l.2 ∈ ids_of st' -> l ∈ st_links st -> l ∈ st_links st';
  pr_links : st_links st' ⊆ st_links st;
}.

Lemma pruned_refl key_id Q st : pruned key_id Q [] st st.
Proof. split; try done; [by destruct st|by intros r _ _ Hn%not_elem_of_nil]. Qed.

Lemma pruned_trans key_id Q gone gone' st1 st2 st3 : pruned key_id Q gone st1 st2 -> pruned key_id Q gone' st2 st3 -> pruned key_id Q (gone ++ gone') st1 st3.
Proof.
  intros [E1 N1 K1 G1 B1 R1 L1 S1] [E2 N2 K2 G2 B2 R2 L2 S2].
  assert (ids_of st3 ⊆ ids_of st2) as Hids by (intros x (r & -> & Hr)%list_elem_of_fmap; apply list_elem_of_fmap_2; by eapply elem_of_sublist).
  split.
  - rewrite E2, E1. done.
  - by etrans.
  - auto.
  - intros r Hr Ek [Hg|Hg]%elem_of_app; [|by eapply G2]. eapply G1; [|done|done]. by eapply elem_of_sublist.
  - by etrans.
  - intros b Hb Hin. apply R2; [done|]. apply R1; [by apply Hids|done].
  - intros l Ha Hb Hin. apply L2; [done|done|]. apply L1; [by apply Hids|by apply Hids|done].
  - by etrans.
Qed.

Lemma delete_label_pruned key_id label (Q : NodeRow -> Prop) st r st' :
  (forall r, Q r -> ~ (nr_key r = key_id /\ nr_label r = label)) ->
  (forall r p parent, Q r -> nr_parent r = Some p -> row_by_id st p = Some parent -> Q parent) ->
  delete_nodes (fun row => bool_decide (nr_key row = key_id) && bool_decide (nr_label row = label)) st = (r, st') -> pruned key_id Q [label] st st'.
Proof.
  intros HQ HC [= _ <-]. split.
  - done.
  - apply sublist_filter.
  - intros row Hr Hq. apply list_elem_of_filter. split; [|done]. apply (doomed_kept _ _ Q); [|done|done].
    intros row' Hq'. specialize (HQ row' Hq'). destruct (bool_decide (nr_key row' = key_id)) eqn:E1; [|done]. simpl. apply bool_decide_eq_true in E1.
    apply bool_decide_eq_false. tauto.
  - intros row Hr Ek El%list_elem_of_singleton. apply list_elem_of_filter in Hr as [Hd _].
    destruct (length (st_nodes st)); simpl in Hd; by rewrite Ek, El, !bool_decide_true in Hd.
  - simpl. intros b Hb. by apply list_elem_of_filter in Hb as [_ Hb].
  - intros b Hb Hin. simpl. by apply list_elem_of_filter.
  - intros l Ha Hb Hin. simpl. by apply list_elem_of_filter.
  - simpl. intros l Hl. by apply list_elem_of_filter in Hl as [_ Hl].
Qed.

Lemma delete_labels_pruned (key_id : nat) (remaining : gset bytes) labels st st' :
  let Q (r : NodeRow) := nr_key r <> key_id \/ nr_label r ∈ remaining in
  forest st -> (forall r p parent, r ∈ st_nodes st -> Q r -> nr_parent r = Some p -> parent ∈ st_nodes st -> nr_id parent = p -> Q parent) ->
  db_each (fun label => if bool_decide (label ∈ remaining) then mret tt
                        else delete_nodes (fun row => bool_decide (nr_key row = key_id) && bool_decide (nr_label row = label))) labels st = (Ok tt, st') ->
  pruned key_id (fun r => r ∈ st_nodes st /\ Q r) (filter (fun l => l ∉ remaining) labels) st st'.
Proof.
  intros Q HF HC. pose (K := fun r => r ∈ st_nodes st /\ Q r). fold K.
  assert (forall st1, st_nodes st1 `sublist_of` st_nodes st -> (forall r, r ∈ st_nodes st -> Q r -> r ∈ st_nodes st1) ->
    db_each (fun label => if bool_decide (label ∈ remaining) then mret tt
                        else delete_nodes (fun row => bool_decide (nr_key row = key_id) && bool_decide (nr_label row = label))) labels st1 = (Ok tt, st') ->
    pruned key_id K (filter (fun l => l ∉ remaining) labels) st1 st') as Hgen; [|by apply Hgen].
  induction labels as [|label labels IH]; intros st1 HS HK; simpl.
  { intros [= <-]. apply pruned_refl. }
  intros ([] & st2 & H1 & H2)%dbM_bind_Ok. rewrite filter_cons. case_bool_decide as Hl.
  - injection H1 as <-. rewrite decide_False by tauto. by apply IH.
  - rewrite decide_True by done. assert (pruned key_id K [label] st1 st2) as H12.
    { eapply delete_label_pruned; [..|exact H1].
      - intros r [Hr [Hq|Hq]] [Ek El]; [done|]. by rewrite El in Hq.
      - intros r p parent [Hr Hq] Ep [Hp Eid]%row_by_id_Some. assert (parent ∈ st_nodes st) as Hp' by (by eapply elem_of_sublist).
        split; [done|]. by apply (HC r p parent). }
    change (label :: filter (fun l => l ∉ remaining) labels) with ([label] ++ filter (fun l => l ∉ remaining) labels).
    eapply pruned_trans; [done|]. apply IH; [etrans; [apply (pr_nodes _ _ _ _ _ H12)|done]| |done].
    intros r Hr Hq. apply (pr_kept _ _ _ _ _ H12); [by apply HK|done].
Qed.

(** ** The published pairings *)

Lemma names_fun st key_id label r r' : forest st -> names st key_id label r -> names st key_id label r' -> r = r'.
Proof. intros HF [[Ek Hr]%list_elem_of_filter El] [[Ek' Hr']%list_elem_of_filter El']. apply HF; congruence. Qed.

Lemma allow_bridge_Ok key_id a b st st' : allow_bridge key_id a b st = (Ok tt, st') ->
  exists ra, names st key_id a ra /\ st' = set_bridges (st_bridges st') st /\ forall x, x ∈ st_bridges st' <-> x ∈ st_bridges st \/ x = (nr_id ra, b).
Proof.
  unfold allow_bridge. case_bool_decide; [discriminate|]. intros (ia & ? & [(ra & Ha & <-)%node_id_for_label_Ok ->]%query_Ok & H')%dbM_bind_Ok.
  apply dbM_bind_Ok in H' as (ib & ? & [_ ->]%query_Ok & [= <-]). exists ra. split; [done|]. case_bool_decide.
  - split; [by destruct st|]. naive_solver.
  - split; [done|]. simpl. intros x. by rewrite elem_of_app, list_elem_of_singleton.
Qed.

Lemma allow_edges_Ok key_id edges st st' : forest st ->
  db_each (fun edge => allow_bridge key_id (edge_from edge) (edge_to edge)) edges st = (Ok tt, st') ->
  st' = set_bridges (st_bridges st') st /\
  forall x, x ∈ st_bridges st' <-> x ∈ st_bridges st \/ exists e ra, e ∈ edges /\ names st key_id (edge_from e) ra /\ x = (nr_id ra, edge_to e).
Proof.
  intros HF. assert (forall st1, st_nodes st1 = st_nodes st ->
    db_each (fun edge => allow_bridge key_id (edge_from edge) (edge_to edge)) edges st1 = (Ok tt, st') -> st' = set_bridges (st_bridges st') st1 /\
    forall x, x ∈ st_bridges st' <-> x ∈ st_bridges st1 \/ exists e ra, e ∈ edges /\ names st key_id (edge_from e) ra /\ x = (nr_id ra, edge_to e)) as Hgen; [|by apply Hgen].
  induction edges as [|e edges IH]; intros st1 En; simpl.
  { intros [= <-]. split; [by destruct st1|]. set_solver. }
  intros ([] & st2 & (ra & Ha & E2 & HB)%allow_bridge_Ok & H)%dbM_bind_Ok. apply IH in H as [E' HB']; [|by rewrite E2].
  assert (names st key_id (edge_from e) ra) as Ha' by (unfold names, rows_of in *; by rewrite En in Ha). split; [rewrite E', E2; done|]. intros x. rewrite HB', HB. split.
  - intros [[?| ->]|(e' & r & ? & ? & ?)]; [by left|right; exists e, ra; split; [left|done]|right; exists e', r; split; [by right|done]].
  - intros [?|(e' & r & [->|He]%elem_of_cons & Hn & ->)]; [by do 2 left| |right; by exists e', r]. left; right. by rewrite (names_fun _ _ _ _ _ HF Hn Ha').
Qed.

Lemma add_edges_Ok key_id edges st st' : forest st ->
  db_each (fun edge => add_bridge key_id (edge_from edge) (edge_to edge)) edges st = (Ok tt, st') ->
  st' = set_links (st_links st') st /\
  (forall e ra rb, e ∈ edges -> names st key_id (edge_from e) ra -> names st key_id (edge_to e) rb -> nr_id ra <> nr_id rb) /\
  forall x, x ∈ st_links st' <-> x ∈ st_links st \/
    exists e ra rb, e ∈ edges /\ names st key_id (edge_from e) ra /\ names st key_id (edge_to e) rb /\ ordered_pair (nr_id ra) (nr_id rb) = Ok x.
Proof.
  intros HF. assert (forall st1, st_nodes st1 = st_nodes st ->
    db_each (fun edge => add_bridge key_id (edge_from edge) (edge_to edge)) edges st1 = (Ok tt, st') -> st' = set_links (st_links st') st1 /\
    (forall e ra rb, e ∈ edges -> names st key_id (edge_from e) ra -> names st key_id (edge_to e) rb -> nr_id ra <> nr_id rb) /\
    forall x, x ∈ st_links st' <-> x ∈ st_links st1 \/
      exists e ra rb, e ∈ edges /\ names st key_id (edge_from e) ra /\ names st key_id (edge_to e) rb /\ ordered_pair (nr_id ra) (nr_id rb) = Ok x) as Hgen; [|by apply Hgen].
  induction edges as [|e edges IH]; intros st1 En; simpl.
  { intros [= <-]. split; [by destruct st1|]. set_solver. }
  intros ([] & st2 & H1 & H)%dbM_bind_Ok. apply add_bridge_spec in H1 as (ra & rb & Ha & Hb & Hne & _ & _ & _ & E2 & HL); [|rewrite En; apply HF].
  assert (forall l r, names st1 key_id l r <-> names st key_id l r) as Hn by (intros; unfold names, rows_of; by rewrite En). rewrite Hn in Ha, Hb.
  assert (nr_id ra <> nr_id rb) as Hids.
  { intros E. apply Hne. apply (NoDup_map_eq nr_id (st_nodes st)); [apply HF|..|done]; [destruct Ha as [Hr _]|destruct Hb as [Hr _]]; by apply list_elem_of_filter in Hr as [_ ?]. }
  apply IH in H as (E' & HI & HL'); [|by rewrite E2]. split; [rewrite E', E2; done|]. split.
  - intros e' r r' [->|He]%elem_of_cons Hr Hr'; [|by eapply HI]. by rewrite (names_fun _ _ _ _ _ HF Hr Ha), (names_fun _ _ _ _ _ HF Hr' Hb).
  - intros x. rewrite HL', HL. split.
    + intros [[?|?]|(e' & r & r' & ? & ? & ? & ?)]; [by left|right; exists e, ra, rb; split; [left|done]|right; exists e', r, r'; split; [by right|done]].
    + intros [?|(e' & r & r' & [->|He]%elem_of_cons & Hr & Hr' & Ep)]; [by do 2 left| |right; by exists e', r, r']. left; right.
      by rewrite <- (names_fun _ _ _ _ _ HF Hr Ha), <- (names_fun _ _ _ _ _ HF Hr' Hb).
Qed.

(** ** The whole of it *)

Lemma find_tree_Some key_id st k : find_tree key_id st = Some k -> k ∈ st_keys st /\ ky_id k = key_id.
Proof. intros [Hk E%bool_decide_eq_true]%first_row_Some. done. Qed.

Lemma target_tree_Ok key_id snapshot st k st' : NoDup (map ky_id (st_keys st)) -> target_tree key_id snapshot st = (Ok k, st') ->
  exists tree, find_tree k st' = Some tree /\ ky_label tree = pt_label snapshot /\ st' = set_keys (st_keys st') st /\ NoDup (map ky_id (st_keys st')) /\
    (find_tree k st = Some tree \/ (find_tree k st = None /\ ky_generation tree = 1%N)).
Proof.
  intros HN. unfold target_tree. destruct key_id as [id|].
  - intros (tree & ? & [E%ok_or_Ok ->]%query_Ok & H)%dbM_bind_Ok. case_bool_decide; [|discriminate]. injection H as <- <-. exists tree.
    split_and!; [done|done|by destruct st|done|by left].
  - intros (found & ? & [[= <-] ->]%query_Ok & H)%dbM_bind_Ok. unfold tree_by_label in H. destruct (first_row _ _) as [tree|] eqn:E; simpl in H.
    + injection H as <- <-. apply first_row_Some in E as [Hk El%bool_decide_eq_true]. exists tree.
      assert (find_tree (ky_id tree) st = Some tree) as EF by by apply (first_row_key ky_id).
      split_and!; [done|done|by destruct st|done|by left].
    + injection H as <- <-. set (tree := Build_KeyRow _ _ _ _). assert (ky_id tree ∉ map ky_id (st_keys st)) as Hf.
      { intros (k & Ek & Hk)%list_elem_of_fmap. by apply (next_id_fresh ky_id) in Hk. }
      assert (NoDup (map ky_id (st_keys st ++ [tree]))) as HN' by (rewrite map_app; by apply NoDup_snoc_fresh).
      exists tree. split_and!; [|done|done|done|right; split; [|done]].
      * apply (first_row_key ky_id (st_keys st ++ [tree]) tree HN'). apply elem_of_app. right. left.
      * apply first_row_None. intros k Hk. apply bool_decide_eq_false. intros E'. apply Hf. simpl. rewrite <- E'. by apply list_elem_of_fmap_2.
Qed.

Lemma target_given key_id snapshot st k st' : target_tree key_id snapshot st = (Ok k, st') -> forall id, key_id = Some id -> k = id.
Proof.
  intros H id ->. unfold target_tree in H. apply dbM_bind_Ok in H as (tree & ? & _ & H). case_bool_decide; [by injection H|discriminate].
Qed.

(** The end of the run: the generations are noted and the new one is set. *)
Lemma finish_Ok key_id generation st st' tree :
  NoDup (map ky_id (st_keys st)) -> find_tree key_id st = Some tree ->
  ((previous ← query (fun st => Ok (ky_generation <$> find_tree key_id st));
    _ ← match previous with Some previous => note_generation key_id previous | None => mret tt end;
    _ ← update_generation key_id generation;
    _ ← note_generation key_id generation;
    mret key_id) : dbM nat) st = (Ok key_id, st') ->
  st' = set_generations (st_generations st') (set_keys (st_keys st') st) /\ find_tree key_id st' = Some (set_generation generation tree) /\
  NoDup (map ky_id (st_keys st')) /\ generation_seen key_id (ky_generation tree) st' = true /\ generation_seen key_id generation st' = true.
Proof.
  intros HN EF. intros (previous & ? & [[= <-] ->]%query_Ok & H)%dbM_bind_Ok. rewrite EF in H. simpl in H. unfold note_generation in H.
  apply dbM_bind_Ok in H as ([] & st1 & H1 & H). destruct (fits_i64 (ky_generation tree)) eqn:F1; [|discriminate].
  case_bool_decide; [|discriminate]. injection H1 as <-. apply dbM_bind_Ok in H as ([] & st2 & H2 & H). unfold update_generation in H2.
  destruct (_ && _); [discriminate|]. injection H2 as <-. apply dbM_bind_Ok in H as ([] & st3 & H3 & [= <-]).
  destruct (fits_i64 generation) eqn:F2; [|discriminate]. case_bool_decide; [|discriminate]. injection H3 as <-.
  set (g := fun k => if decide (ky_id k = key_id) then set_generation generation k else k).
  assert (map ky_id (map g (st_keys st)) = map ky_id (st_keys st)) as Eids by (rewrite map_map; apply map_ext; intros k; unfold g; by case_decide).
  apply find_tree_Some in EF as [Ht Eid]. split; [done|]. split; [|split; [|split]].
  - subst key_id. unfold find_tree. cbn [set_generations set_keys st_keys]. apply (first_row_key ky_id (map g (st_keys st)) (set_generation generation tree)); [by rewrite Eids|].
    apply list_elem_of_fmap. exists tree. split; [|done]. unfold g. by rewrite decide_True.
  - cbn [set_generations set_keys st_keys]. fold g. by rewrite Eids.
  - unfold generation_seen. rewrite F1. apply bool_decide_eq_true. simpl. set_solver.
  - unfold generation_seen. rewrite F2. apply bool_decide_eq_true. simpl. set_solver.
Qed.

Definition parent_closed (snapshot : PublicTree) : Prop :=
  forall n l, n ∈ pt_nodes snapshot -> parent_label n = Some l -> l ∈ map pn_label (pt_nodes snapshot).

(** The rows: those of the snapshot, with the shares whose key stayed. *)
Record rows_replaced `{HexDecode} (key_id : nat) (snapshot : PublicTree) (st st' : Store) : Prop := {
  rr_forest : forest st';
  rr_labels : map nr_label (rows_of key_id st') ≡ₚ map pn_label (pt_nodes snapshot);
  rr_nodes n : n ∈ pt_nodes snapshot -> exists row, published st' key_id n row /\ share_kept st key_id row;
  rr_outside r : nr_key r <> key_id -> r ∈ st_nodes st' <-> r ∈ st_nodes st;
  rr_keys : extends (st_hardware st) (st_hardware st');
}.

Section replaced.
Context `{C : Crypto} `{HX : Hex} `{HD : HexDecode}.

Lemma forest_pruned key_id Q gone st st' : forest st -> pruned key_id Q gone st st' ->
  (forall r p parent, r ∈ st_nodes st' -> nr_parent r = Some p -> parent ∈ st_nodes st -> nr_id parent = p -> parent ∈ st_nodes st') -> forest st'.
Proof.
  intros [HN HL HT HH HK HP] HPr HC. assert (forall r, r ∈ st_nodes st' -> r ∈ st_nodes st) as Hsub by (intros r Hr; eapply elem_of_sublist; [exact Hr|apply HPr]).
  split.
  - eapply sublist_NoDup; [exact HN|]. apply fmap_sublist, HPr.
  - intros r r' Hr%Hsub Hr'%Hsub. by apply HL.
  - by rewrite (pr_frame _ _ _ _ _ HPr).
  - by rewrite (pr_frame _ _ _ _ _ HPr).
  - by rewrite (pr_frame _ _ _ _ _ HPr).
  - intros r p Hr Ep. destruct (HP r p (Hsub r Hr) Ep) as (parent & H1 & H2 & H3). exists parent. split_and!; [by eapply HC|done|done].
Qed.

Lemma rows_pruned key_id snapshot st0 st1 st2 now :
  forest st0 -> NoDup (map pn_label (pt_nodes snapshot)) -> parent_closed snapshot -> now ≡ₚ pt_nodes snapshot -> applied st0 key_id now st1 ->
  db_each (fun label => if bool_decide (label ∈ (list_to_set (map pn_label (pt_nodes snapshot)) : gset bytes)) then mret tt
                        else delete_nodes (fun row => bool_decide (nr_key row = key_id) && bool_decide (nr_label row = label))) (map nr_label (rows_of key_id st1)) st1
    = (Ok tt, st2) ->
  rows_replaced key_id snapshot st0 st2 /\
  exists Q gone, pruned key_id Q gone st1 st2.
Proof.
  intros HF0 HN HC HP [HF Hfr HDn HR HPl] HD'. set (remaining := list_to_set (map pn_label (pt_nodes snapshot)) : gset bytes) in *.
  assert (forall l, l ∈ remaining <-> l ∈ map pn_label (pt_nodes snapshot)) as Hrem by (intros l; unfold remaining; by rewrite elem_of_list_to_set).
  assert (forall n, n ∈ pt_nodes snapshot -> exists row, published st1 key_id n row /\ share_kept st0 key_id row) as HDo by (intros n Hn; apply HDn; by rewrite HP).
  (* the row of a label that stays is the published one *)
  assert (forall r, r ∈ st_nodes st1 -> nr_key r = key_id -> nr_label r ∈ remaining -> exists n, n ∈ pt_nodes snapshot /\ pn_label n = nr_label r /\ published st1 key_id n r) as Hpub.
  { intros r Hr Ek (n & En & Hn)%Hrem%list_elem_of_fmap. destruct (HDo n Hn) as (row & Hp & _). exists n. split_and!; [done..|].
    assert (row = r) as <-; [|done]. pose proof (pu_row _ _ _ _ Hp) as [? ?]%list_elem_of_filter. apply HF; [done|done|congruence|]. rewrite (pu_label _ _ _ _ Hp). congruence. }
  assert (forall r p parent, r ∈ st_nodes st1 -> nr_key r <> key_id \/ nr_label r ∈ remaining -> nr_parent r = Some p -> parent ∈ st_nodes st1 -> nr_id parent = p ->
    nr_key parent <> key_id \/ nr_label parent ∈ remaining) as HQ.
  { intros r p parent Hr HQ Ep Hpa Eid. destruct (fo_parents _ HF r p Hr Ep) as (parent' & Hpa' & Eid' & Ek').
    assert (parent' = parent) as -> by (apply (NoDup_map_eq nr_id (st_nodes st1)); [apply HF|done..|congruence]).
    destruct HQ as [Hne|Hin]; [left; congruence|]. destruct (decide (nr_key r = key_id)) as [Ek|]; [|left; congruence]. right.
    destruct (Hpub r Hr Ek Hin) as (n & Hn & _ & Hp). pose proof (pu_parent _ _ _ _ Hp) as Hpp. destruct (parent_label n) as [l|] eqn:El; [|congruence].
    destruct Hpp as (pr & [_ Hpr]%list_elem_of_filter & <- & Ep'). assert (pr = parent) as -> by (apply (NoDup_map_eq nr_id (st_nodes st1)); [apply HF|done..|congruence]).
    apply Hrem. by eapply HC. }
  pose proof (delete_labels_pruned key_id remaining _ st1 st2 HF HQ HD') as HPr. cbv zeta in HPr. split; [|by eauto].
  assert (forall r, r ∈ st_nodes st2 -> r ∈ st_nodes st1) as Hsub by (intros r Hr; eapply elem_of_sublist; [exact Hr|apply HPr]).
  assert (forall r, r ∈ st_nodes st2 -> nr_key r <> key_id \/ nr_label r ∈ remaining) as Hleft.
  { intros r Hr. destruct (decide (nr_key r = key_id)) as [Ek|]; [|by left]. right. destruct (decide (nr_label r ∈ remaining)) as [|Hn]; [done|]. exfalso.
    eapply (pr_gone _ _ _ _ _ HPr r Hr Ek). apply list_elem_of_filter. split; [done|]. apply list_elem_of_fmap_2, list_elem_of_filter. auto. }
  assert (forall r, r ∈ st_nodes st1 -> nr_key r <> key_id \/ nr_label r ∈ remaining -> r ∈ st_nodes st2) as Hkeep by (intros r Hr Hq; by apply (pr_kept _ _ _ _ _ HPr)).
  assert (forest st2) as HF2.
  { eapply forest_pruned; [done|done|]. intros r p parent Hr Ep Hpa Eid. apply Hkeep; [done|]. eapply (HQ r p); [by apply Hsub|by apply Hleft|done..]. }
  assert (forall n row, n ∈ pt_nodes snapshot -> published st1 key_id n row -> published st2 key_id n row) as Hpub2.
  { intros n row Hn [[Ek Hr]%list_elem_of_filter El Et Ea HK HPa].
    assert (forall r, r ∈ st_nodes st1 -> nr_label r ∈ remaining -> nr_key r = key_id -> r ∈ rows_of key_id st2) as Hin by (intros r ? ? ?; apply list_elem_of_filter; auto).
    split; [|done|done|done|by rewrite (pr_frame _ _ _ _ _ HPr)|].
    - apply Hin; [done| |done]. rewrite Hrem, El. by apply list_elem_of_fmap_2.
    - destruct (parent_label n) as [l|] eqn:Epl; [|done]. destruct HPa as (parent & [Ekp Hpa]%list_elem_of_filter & Elp & Eid). exists parent.
      split; [|done]. apply Hin; [done| |done]. rewrite Hrem, Elp. by eapply HC. }
  split; [done|..].
  - apply NoDup_Permutation; [| |intros l].
    + apply NoDup_fmap_2_strong; [|eapply sublist_NoDup; [eapply NoDup_fmap_1, (fo_ids _ HF2)|apply sublist_filter]].
      intros r r' [? ?]%list_elem_of_filter [? ?]%list_elem_of_filter E. apply HF2; congruence.
    + done.
    + rewrite <- Hrem, list_elem_of_fmap. split.
      * intros (r & -> & [Ek Hr]%list_elem_of_filter). by destruct (Hleft r Hr).
      * intros (n & -> & Hn)%Hrem%list_elem_of_fmap. destruct (HDo n Hn) as (row & Hp & _). exists row. split; [symmetry; apply Hp|]. by apply (Hpub2 n).
  - intros n Hn. destruct (HDo n Hn) as (row & Hp & Hs). exists row. split; [by apply Hpub2|done].
  - intros r Hne. rewrite <- (HR r) by tauto. split; [apply Hsub|]. intros Hr. apply Hkeep; [done|by left].
  - rewrite (pr_frame _ _ _ _ _ HPr). apply Hfr.
Qed.

(** The pairings within the tree: those of the snapshot; between other trees: as before. *)
Record edges_replaced (key_id : nat) (snapshot : PublicTree) (st st' : Store) : Prop := {
  er_whitelist a b : a ∈ rows_of key_id st' -> b ∈ rows_of key_id st' ->
    (nr_id a, nr_label b) ∈ st_bridges st' <-> {| edge_from := nr_label a; edge_to := nr_label b |} ∈ pt_whitelist snapshot;
  er_links a b : a ∈ rows_of key_id st' -> b ∈ rows_of key_id st' ->
    paired st' a b <-> {| edge_from := nr_label a; edge_to := nr_label b |} ∈ pt_links snapshot \/ {| edge_from := nr_label b; edge_to := nr_label a |} ∈ pt_links snapshot;
  er_outside_whitelist r peer : r ∈ st_nodes st -> nr_key r <> key_id -> (nr_id r, peer) ∈ st_bridges st' <-> (nr_id r, peer) ∈ st_bridges st;
  er_outside_links r r' : r ∈ st_nodes st -> r' ∈ st_nodes st -> nr_key r <> key_id -> nr_key r' <> key_id ->
    (nr_id r, nr_id r') ∈ st_links st' <-> (nr_id r, nr_id r') ∈ st_links st;
}.

Definition edge_run (key_id : nat) (snapshot : PublicTree) : dbM unit :=
  ids ← query (fun st => Ok (map nr_id (rows_of key_id st)));
  labels ← query (fun st => Ok (map nr_label (rows_of key_id st)));
  _ ← delete_whitelist (fun b => bool_decide (b.1 ∈ ids) && bool_decide (b.2 ∈ labels));
  _ ← delete_links (fun l => bool_decide (l.1 ∈ ids) && bool_decide (l.2 ∈ ids));
  _ ← db_each (fun edge => allow_bridge key_id (edge_from edge) (edge_to edge)) (pt_whitelist snapshot);
  db_each (fun edge => add_bridge key_id (edge_from edge) (edge_to edge)) (pt_links snapshot).

Lemma edge_run_Ok key_id snapshot st st' : forest st -> edge_run key_id snapshot st = (Ok tt, st') ->
  edges_replaced key_id snapshot st st' /\ st' = set_links (st_links st') (set_bridges (st_bridges st') st).
Proof.
  intros HF H. unfold edge_run in H. apply dbM_bind_Ok in H as (ids & ? & [[= <-] ->]%query_Ok & H). apply dbM_bind_Ok in H as (labels & ? & [[= <-] ->]%query_Ok & H).
  apply dbM_bind_Ok in H as ([] & st1 & [= <-] & H). apply dbM_bind_Ok in H as (n & st2 & [= _ <-] & H). apply dbM_bind_Ok in H as ([] & st3 & HA & HL).
  set (st2 := set_links _ _) in HA. assert (st_nodes st2 = st_nodes st) as E2 by done. assert (forest st2) as HF2 by by destruct HF.
  assert (forall l r, names st2 key_id l r <-> names st key_id l r) as Hn2 by done.
  destruct (allow_edges_Ok key_id _ st2 st3 HF2 HA) as [E3 HB]. assert (forest st3) as HF3 by (rewrite E3; by destruct HF2).
  destruct (add_edges_Ok key_id _ st3 st' HF3 HL) as (E' & Hne & HK).
  assert (forall l r, names st3 key_id l r <-> names st key_id l r) as Hn3 by (intros; by rewrite E3).
  assert (st_nodes st' = st_nodes st) as En by (rewrite E', E3; done).
  assert (st_bridges st' = st_bridges st3) as EB by (rewrite E'; done). assert (st_links st3 = st_links st2) as EL by (rewrite E3; done).
  assert (forall r, r ∈ rows_of key_id st' <-> names st key_id (nr_label r) r) as Hrows by (intros r; unfold names, rows_of; rewrite En; naive_solver).
  assert (forall r l a, r ∈ st_nodes st -> nr_key r <> key_id -> names st key_id l a -> nr_id a <> nr_id r) as Hout.
  { intros r l a Hr Hk [[Ek Ha]%list_elem_of_filter _] E. apply Hk. by rewrite <- (NoDup_map_eq nr_id (st_nodes st) a r (fo_ids _ HF) Ha Hr E). }
  assert (forall a b, names st key_id (nr_label a) a -> names st key_id (nr_label b) b -> nr_id a = nr_id b -> a = b) as Hid.
  { intros a b [[_ Ha]%list_elem_of_filter _] [[_ Hb]%list_elem_of_filter _]. apply (NoDup_map_eq nr_id (st_nodes st)); [apply HF|done..]. }
  assert (forall l r, names st key_id l r -> names st key_id (nr_label r) r) as Hself by (intros l r Hr; by rewrite (proj2 Hr)).
  assert (forall r, nr_id r ∈ map nr_id (rows_of key_id st) -> r ∈ st_nodes st -> nr_key r = key_id) as Hin.
  { intros r (a & Ea & [Ek Ha]%list_elem_of_filter)%list_elem_of_fmap Hr. by rewrite (NoDup_map_eq nr_id (st_nodes st) r a (fo_ids _ HF) Hr Ha Ea). }
  split; [split|].
  - intros a b Ha%Hrows Hb%Hrows. rewrite EB, HB. unfold st2. simpl. rewrite list_elem_of_filter. split.
    + intros [[B _]|(e & ra & He & Hra & [= E1 E2'])].
      * exfalso. simpl in B. rewrite !bool_decide_true in B; [done|..]; apply list_elem_of_fmap_2; [apply Hb|apply Ha].
      * apply Hn2 in Hra. assert (a = ra) as -> by by eapply Hid; eauto. rewrite (proj2 Hra), E2'. by destruct e.
    + intros He. right. eexists _, a. split; [exact He|]. done.
  - assert (forall a b, names st key_id (nr_label a) a -> names st key_id (nr_label b) b -> forall x, x = (nr_id a, nr_id b) -> x ∉ st_links st3) as Hno.
    { intros a b Ha Hb x -> Hx. rewrite EL in Hx. unfold st2 in Hx. simpl in Hx. apply list_elem_of_filter in Hx as [B _]. simpl in B.
      rewrite !bool_decide_true in B; [done|..]; apply list_elem_of_fmap_2; [apply Hb|apply Ha]. }
    assert (forall a b, names st key_id (nr_label a) a -> names st key_id (nr_label b) b -> {| edge_from := nr_label a; edge_to := nr_label b |} ∈ pt_links snapshot -> paired st' a b) as Hto.
    { intros a b Ha Hb He. destruct (ordered_pair_total (nr_id a) (nr_id b)) as [x Hx]; [eapply Hne; [exact He|by apply Hn3..]|].
      assert (x ∈ st_links st') as Hin' by (apply HK; right; eexists _, a, b; split; [exact He|]; split_and!; [by apply Hn3|by apply Hn3|done]).
      apply ordered_pair_Ok in Hx as (_ & [->| ->] & _); [by left|by right]. }
    assert (forall a b, names st key_id (nr_label a) a -> names st key_id (nr_label b) b -> (nr_id a, nr_id b) ∈ st_links st' ->
      {| edge_from := nr_label a; edge_to := nr_label b |} ∈ pt_links snapshot \/ {| edge_from := nr_label b; edge_to := nr_label a |} ∈ pt_links snapshot) as Hfrom.
    { intros a b Ha Hb [Hx|(e & ra & rb & He & Hra%Hn3 & Hrb%Hn3 & Ep)]%HK; [by destruct (Hno a b Ha Hb _ eq_refl)|].
      apply ordered_pair_Ok in Ep as (_ & [[= E1 E2']|[= E1 E2']] & _).
      - left. assert (a = ra) as -> by by eapply Hid; eauto. assert (b = rb) as -> by by eapply Hid; eauto. rewrite (proj2 Hra), (proj2 Hrb). by destruct e.
      - right. assert (a = rb) as -> by by eapply Hid; eauto. assert (b = ra) as -> by by eapply Hid; eauto. rewrite (proj2 Hra), (proj2 Hrb). by destruct e. }
    intros a b Ha%Hrows Hb%Hrows. split.
    + intros [Hx|Hx]; [by apply Hfrom|]. apply Hfrom in Hx; [tauto|done|done].
    + intros [He|He]; [by apply Hto|]. apply Hto in He; [|done|done]. destruct He; [by right|by left].
  - intros r peer Hr Hk. rewrite EB, HB. unfold st2. simpl. rewrite list_elem_of_filter. split.
    + intros [[_ ?]|(e & ra & _ & Hra%Hn2 & [= E1 _])]; [done|]. by destruct (Hout r _ ra Hr Hk Hra).
    + intros Hx. left. split; [|done]. simpl. rewrite (bool_decide_false (nr_id r ∈ _)); [done|]. intros Hi. by apply Hk, Hin.
  - intros r r' Hr Hr' Hk Hk'. rewrite HK, EL. unfold st2. simpl. rewrite list_elem_of_filter. split.
    + intros [[_ ?]|(e & ra & rb & _ & Hra%Hn3 & Hrb%Hn3 & Ep)]; [done|]. exfalso. apply ordered_pair_Ok in Ep as (_ & [[= E1 _]|[= E1 _]] & _);
        [by destruct (Hout r _ ra Hr Hk Hra)|by destruct (Hout r _ rb Hr Hk Hrb)].
    + intros Hx. left. split; [|done]. simpl. rewrite (bool_decide_false (nr_id r ∈ _)); [done|]. intros Hi. by apply Hk, Hin.
  - rewrite E', E3. done.
Qed.

Record replaced (key_id : nat) (snapshot : PublicTree) (st st' : Store) : Prop := {
  rp_rows : rows_replaced key_id snapshot st st';
  rp_edges : edges_replaced key_id snapshot st st';
  rp_tree : exists tree, find_tree key_id st' = Some tree /\ ky_label tree = pt_label snapshot /\ ky_generation tree = pt_generation snapshot;
  rp_generation tree : find_tree key_id st = Some tree -> (ky_generation tree <= pt_generation snapshot)%N /\ generation_seen key_id (ky_generation tree) st' = true;
  rp_seen : generation_seen key_id (pt_generation snapshot) st' = true;
}.

Lemma rows_replaced_frame key_id snapshot st st1 st' :
  rows_replaced key_id snapshot st st1 -> st_nodes st' = st_nodes st1 -> st_hardware st' = st_hardware st1 -> NoDup (map ky_id (st_keys st')) ->
  rows_replaced key_id snapshot st st'.
Proof.
  intros [HF HL Hn Ho Hk] En Eh HN. assert (rows_of key_id st' = rows_of key_id st1) as Er by (unfold rows_of; by rewrite En). split.
  - destruct HF. split; rewrite ?En, ?Eh; done.
  - by rewrite Er.
  - intros n Hin. destruct (Hn n Hin) as (row & [] & Hs). exists row. split; [|done]. split; rewrite ?Er, ?Eh; done.
  - intros r. rewrite En. apply Ho.
  - by rewrite Eh.
Qed.

(** The edges of other trees through the deletion of rows. *)
Lemma edges_pruned key_id snapshot Q gone st st1 st2 st' :
  st_bridges st1 = st_bridges st -> st_links st1 = st_links st -> (forall r, nr_key r <> key_id -> r ∈ st_nodes st2 <-> r ∈ st_nodes st) -> pruned key_id Q gone st1 st2 ->
  edges_replaced key_id snapshot st2 st' -> edges_replaced key_id snapshot st st'.
Proof.
  intros EB EL Ho HP [HW HL HoW HoL].
  assert (forall r, r ∈ st_nodes st -> nr_key r <> key_id -> nr_id r ∈ ids_of st2) as Hid by (intros r Hr Hk; apply list_elem_of_fmap_2; by apply Ho).
  split; [done|done|..].
  - intros r peer Hr Hk. rewrite HoW by (done || by apply Ho). rewrite <- EB. split; [apply (pr_bridges _ _ _ _ _ HP)|].
    apply (pr_bridge_rows _ _ _ _ _ HP). simpl. by apply Hid.
  - intros r r' Hr Hr' Hk Hk'. rewrite HoL by (done || by apply Ho). rewrite <- EL. split; [apply (pr_links _ _ _ _ _ HP)|].
    apply (pr_link_rows _ _ _ _ _ HP); simpl; by apply Hid.
Qed.

Lemma apply_inner_replaces key_id snapshot st k st' :
  forest st -> parent_closed snapshot -> apply_public_tree_inner key_id snapshot st = (Ok k, st') ->
  (forall id, key_id = Some id -> k = id) /\ replaced k snapshot st st'.
Proof.
  intros HF HC H. unfold apply_public_tree_inner in H. apply dbM_bind_Ok in H as (k' & st0 & HT & H).
  pose proof (target_given _ _ _ _ _ HT) as Hgiven. apply target_tree_Ok in HT as (tree & EF & El & E0 & HN0 & Hold); [|apply HF]. assert (forest st0) as HF0 by (rewrite E0 in *; by destruct HF).
  apply dbM_bind_Ok in H as (stored & ? & [Es ->]%query_Ok & H). rewrite EF in Es. injection Es as <-.
  destruct (N.ltb_spec (pt_generation snapshot) (ky_generation tree)) as [|Hgen]; [discriminate|]. cbv zeta in H. destruct (negb _) eqn:B; [discriminate|].
  apply negb_false_iff, Nat.eqb_eq in B. rewrite <- (length_map pn_label) in B. apply distinct_size in B as HN.
  apply dbM_bind_Ok in H as ([] & st1 & HA & H). eapply (apply_passes_Ok st0 _ _ _ _ _ []) in HA as (now & HP & HA); [|done|by apply applied_nil|done].
  simpl in HP. apply dbM_bind_Ok in H as (labels & ? & [[= <-] ->]%query_Ok & H). apply dbM_bind_Ok in H as ([] & st2 & HDel & H).
  destruct (rows_pruned k' snapshot st0 st1 st2 now HF0 HN HC HP HA HDel) as [HR (Q & gone & HPr)].
  assert (exists st5, edge_run k' snapshot st2 = (Ok tt, st5) /\
    ((previous ← query (fun st => Ok (ky_generation <$> find_tree k' st));
      _ ← match previous with Some previous => note_generation k' previous | None => mret tt end;
      _ ← update_generation k' (pt_generation snapshot);
      _ ← note_generation k' (pt_generation snapshot);
      mret k') : dbM nat) st5 = (Ok k, st')) as (st5 & HE & Hfin).
  { clear -H. unfold edge_run. apply dbM_bind_Ok in H as (ids & ? & [[= <-] ->]%query_Ok & H). apply dbM_bind_Ok in H as (labels & ? & [[= <-] ->]%query_Ok & H).
    apply dbM_bind_Ok in H as ([] & st1 & HW & H). apply dbM_bind_Ok in H as (n & s2 & HL & H). apply dbM_bind_Ok in H as ([] & s3 & HA & H).
    apply dbM_bind_Ok in H as ([] & st5 & HB & H). exists st5. split; [|exact H].
    unfold query, mbind, dbM_bind. rewrite HW, HL, HA. exact HB. }
  assert (k = k') as ->.
  { apply dbM_bind_Ok in Hfin as (? & ? & _ & Hf). apply dbM_bind_Ok in Hf as (? & ? & _ & Hf). apply dbM_bind_Ok in Hf as (? & ? & _ & Hf).
    apply dbM_bind_Ok in Hf as (? & ? & _ & Hf). by injection Hf. }
  apply edge_run_Ok in HE as [HE E5]; [|apply HR]. assert (st_keys st5 = st_keys st0) as EK.
  { rewrite E5. simpl. rewrite (pr_frame _ _ _ _ _ HPr). simpl. by rewrite (proj1 (ap_frame _ _ _ _ HA)). }
  apply (finish_Ok k' (pt_generation snapshot) st5 st' tree) in Hfin as (E' & EF' & HN' & Hs1 & Hs2); [|by rewrite EK|unfold find_tree in *; by rewrite EK].
  assert (st_nodes st' = st_nodes st2) as En by (rewrite E', E5; done). assert (st_hardware st' = st_hardware st2) as Eh by (rewrite E', E5; done).
  assert (st_nodes st0 = st_nodes st) as En0 by (rewrite E0; done). assert (st_hardware st0 = st_hardware st) as Eh0 by (rewrite E0; done).
  assert (rows_replaced k' snapshot st st2) as HR2.
  { destruct HR as [R1 R2 R3 R4 R5]. split; [done|done|..|by rewrite <- Eh0].
    - intros n Hn. destruct (R3 n Hn) as (row & Hp & Hs). exists row. split; [done|]. unfold share_kept in *. by rewrite En0 in Hs.
    - intros r. rewrite <- En0. apply R4. }
  split; [done|]. split.
  - by apply (rows_replaced_frame _ _ _ st2).
  - assert (edges_replaced k' snapshot st2 st') as HE'.
    { destruct HE as [W1 W2 W3 W4]. assert (forall r, r ∈ rows_of k' st' <-> r ∈ rows_of k' st5) as Er by (intros r; unfold rows_of; by rewrite E').
      assert (st_bridges st' = st_bridges st5) as EB by by rewrite E'. assert (st_links st' = st_links st5) as EL by by rewrite E'.
      split; unfold paired in *; rewrite ?EB, ?EL; try done; intros a b; rewrite !Er; auto. }
    eapply edges_pruned; [..|apply HR2|exact HPr|exact HE']; rewrite (proj1 (ap_frame _ _ _ _ HA)), E0; done.
  - exists (set_generation (pt_generation snapshot) tree). done.
  - intros t Et. destruct Hold as [Hold|[Hold _]]; [|congruence]. assert (t = tree) as -> by congruence. split; [lia|done].
  - done.
Qed.

(** C26: Applying a published tree makes the local tree that tree. When it
    succeeds on a parent-closed snapshot, the tree has exactly the published
    labels, each row has the published threshold, state, key and parent, a sealed
    share stays exactly where the key of its row stayed, the whitelist and the
    pairings between its nodes are the published ones, the generation never goes
    back and both generations are remembered, other trees keep their rows and
    pairings, and distinct ids, unique labels and parents within a tree are kept.
    On failure nothing is written. *)
Theorem apply_public_tree_replaces key_id snapshot st :
  forest st -> parent_closed snapshot ->
  match apply_public_tree key_id snapshot st with
  | (Ok k, st') => (forall id, key_id = Some id -> k = id) /\ replaced k snapshot st st'
  | (Err _, st') => st' = st
  end.
Proof.
  intros HF HC. destruct (apply_public_tree key_id snapshot st) as [[k|e] st'] eqn:E; unfold apply_public_tree in E; case_bool_decide.
  - discriminate.
  - apply (apply_inner_replaces key_id); [done|done|]. unfold transaction in E. destruct (apply_public_tree_inner _ _ _) as [[]?]; [by injection E as <- <-|discriminate].
  - by injection E.
  - unfold transaction in E. destruct (apply_public_tree_inner _ _ _) as [[]?]; [discriminate|by injection E].
Qed.
End replaced.
