(* ===== verification/TreeView.v ===== *)
(** * What a label sees of a stored tree

    The view a store computes is the one the relay computes from the published
    tree, and cutting the store down to it keeps the sealed shares. *)

From stdpp Require Import gmap.
From S2P Require Import Prelude Text Container Crypto BTree Envelope HistoryCodec Authority Signing BridgeProof Pss Visibility Tables KeyStore KeyTree Combinations Reconstruct BridgePackage PrivateBridge BridgeRoster BridgeLaws BridgeSafety SplitTree TreeOps TreeSync TreeSyncLaws.

(** [hex::decode] undoes [hex::encode]. *)
Class HexLaws (HX : Hex) (HD : HexDecode) : Prop := hex_roundtrip b : hex_decode (hex_encode b) = Some b.

Section view.
Context `{HX : Hex}.

(** An exported node of an arena node. *)
Definition exports (st : Store) (tree : KeyQuorumTree) (node : KeyNode) (n : PublicNode) : Prop :=
  pn_label n = kn_id node /\ parent_label n = parent_name tree node /\ pn_threshold n = as_u8 <$> kn_threshold node /\ pn_is_active n = kn_is_active node /\
  match kn_hardware_key_id node with
  | Some id => exists key, key ∈ st_hardware st /\ hk_id key = id /\ encryption_fingerprint n = Some (hk_fingerprint key) /\
                 encryption_public_key n = Some (hex_encode (hk_public_key key))
  | None => encryption_fingerprint n = None /\ encryption_public_key n = None
  end.

Lemma public_node_Ok tree st node n : public_node tree st node = Ok n -> exports st tree node n.
Proof.
  unfold public_node, exports. intros ([fp pk] & E & [= <-])%bind_Ok. simpl. do 4 (split; [done|]). destruct (kn_hardware_key_id node) as [id|].
  - apply bind_Ok in E as (key & [Hk Ei]%get_key_elem & [= <- <-]). by exists key.
  - by injection E as <- <-.
Qed.

Lemma export_Ok key_id st full : export_public_tree key_id st = Ok full ->
  exists tree row, find_tree key_id st = Some row /\ pt_label full = ky_label row /\ load key_id st = Ok tree /\
    Forall2 (exports st tree) (kt_nodes tree) (pt_nodes full) /\ link_pairs full = bl_established (list_bridges key_id st).
Proof.
  unfold export_public_tree. intros (row & Er%ok_or_Ok & (tree & Et & (nodes & En & [= <-])%bind_Ok)%bind_Ok)%bind_Ok. exists tree, row.
  do 3 (split; [done|]). split.
  - simpl. apply traverse_Ok in En. eapply Forall2_impl; [exact En|]. intros node n. apply public_node_Ok.
  - unfold link_pairs. simpl. rewrite map_map. rewrite <- (map_id (merge_sort _ _)) at 2. apply map_ext. by intros [].
Qed.

Lemma exported_parents (st : Store) (tree : KeyQuorumTree) (nodes : list KeyNode) (ns : list PublicNode) (m : gmap bytes (option bytes)) : Forall2 (exports st tree) nodes ns ->
  foldl (fun m node => <[kn_id node := parent_name tree node]> m) m nodes = foldl (fun m n => <[pn_label n := parent_label n]> m) m ns.
Proof. intros HF. revert m; induction HF as [|node n nodes ns (E1 & E2 & _) HF IH]; intros m; [done|]. simpl. by rewrite IH, E1, E2. Qed.

Lemma exported_children (st : Store) (tree : KeyQuorumTree) (nodes : list KeyNode) (ns : list PublicNode) (m : gmap bytes (list bytes)) : Forall2 (exports st tree) nodes ns ->
  foldl (fun m node => match parent_name tree node with Some parent => <[parent := default [] (m !! parent) ++ [kn_id node]]> m | None => m end) m nodes =
  foldl (fun m n => match parent_label n with Some parent => <[parent := default [] (m !! parent) ++ [pn_label n]]> m | None => m end) m ns.
Proof. intros HF. revert m; induction HF as [|node n nodes ns (E1 & E2 & _) HF IH]; intros m; [done|]. simpl. by rewrite IH, E1, E2. Qed.

(** The labels seen, from the export. *)
Lemma visible_labels_export key_id as_label st full :
  NoDup (map nr_id (st_nodes st)) -> export_public_tree key_id st = Ok full ->
  visible_labels key_id as_label st =
  if bool_decide (as_label ∈ map pn_label (pt_nodes full)) then Ok (visible_labels_in_public_tree full [as_label]) else Err NodeNotFound.
Proof.
  intros HN (tree & row & _ & _ & Et & HF & HL)%export_Ok. destruct (load_Ok key_id st tree HN Et) as [HNodes _ _ HLabel _ _].
  unfold visible_labels, load_for_visibility. rewrite Et. cbn [mbind result_bind]. unfold visible_labels_for_links, index_by_label.
  assert (map pn_label (pt_nodes full) = map nr_label (rows_of key_id st)) as EL.
  { transitivity (map kn_id (kt_nodes tree)); [clear -HF; induction HF as [|? ? ? ? (E & _) _ IH]; [done|]; simpl; by rewrite E, IH|].
    rewrite HNodes. apply list_eq. intros i. rewrite !list_lookup_fmap, list_lookup_imap. by destruct (rows_of key_id st !! i). }
  rewrite EL. case_bool_decide as Hin.
  - apply list_elem_of_fmap in Hin as (r & El & [j Hj]%list_elem_of_lookup). assert (kt_id_to_index tree !! as_label = Some j) as Ei by (apply HLabel; eauto).
    rewrite Ei. cbn [ok_or mbind result_bind]. unfold node_at. rewrite HNodes, list_lookup_imap, Hj. cbn [fmap option_fmap option_map ok_or mbind result_bind].
    cbn [arena_node kn_id]. rewrite <- El. unfold visible_labels_in_public_tree. f_equal. fold (link_pairs full). rewrite HL. f_equal.
    + apply (exported_parents st tree), HF.
    + apply (exported_children st tree), HF.
  - destruct (kt_id_to_index tree !! as_label) as [j|] eqn:Ei; [|done]. exfalso. apply HLabel in Ei as (r & Hj & <-). apply Hin, list_elem_of_fmap_2.
    by eapply list_elem_of_lookup_2.
Qed.

(** C27: The rule a store applies to its own tree is the rule the relay applies to
    the tree it publishes: the labels [visible_labels] gives for a label are those
    [visible_labels_in_public_tree] gives on the export for the same seed. *)
Theorem visible_labels_agree key_id as_label st full :
  NoDup (map nr_id (st_nodes st)) -> export_public_tree key_id st = Ok full ->
  visible_labels key_id as_label st =
  if bool_decide (as_label ∈ map pn_label (pt_nodes full)) then Ok (visible_labels_in_public_tree full [as_label]) else Err NodeNotFound.
Proof. apply visible_labels_export. Qed.
End view.

Section project.
Context `{C : Crypto} `{HX : Hex} `{HD : HexDecode} `{!HexLaws HX HD}.

Lemma export_labels key_id st tree full : load key_id st = Ok tree -> NoDup (map nr_id (st_nodes st)) -> Forall2 (exports st tree) (kt_nodes tree) (pt_nodes full) ->
  Forall2 (fun r n => exists j, rows_of key_id st !! j = Some r /\ exports st tree (arena_node st (rows_of key_id st) j r) n) (rows_of key_id st) (pt_nodes full).
Proof.
  intros Et HN HF. rewrite (loaded_nodes _ _ _ (load_Ok _ _ _ HN Et)) in HF. apply Forall2_same_length_lookup_2.
  - apply Forall2_length in HF. by rewrite length_imap in HF.
  - intros i r n Hr Hn. exists i. split; [done|]. eapply (Forall2_lookup_lr _ _ _ i); [exact HF| |done]. by rewrite list_lookup_imap, Hr.
Qed.

(** The name of the parent of a row. *)
Lemma arena_parent_name key_id st tree j r : load key_id st = Ok tree -> NoDup (map nr_id (st_nodes st)) -> rows_of key_id st !! j = Some r ->
  match parent_name tree (arena_node st (rows_of key_id st) j r) with
  | Some l => exists parent, parent ∈ rows_of key_id st /\ nr_label parent = l /\ nr_parent r = Some (nr_id parent)
  | None => nr_parent r = None
  end.
Proof.
  intros Et HN Hj. destruct (load_Ok _ _ _ HN Et) as [HNodes _ _ _ _ HPar]. unfold parent_name. cbn [arena_node kn_parent_idx]. unfold parent_place. rewrite Hj. simpl.
  destruct (nr_parent r) as [p|] eqn:Ep; [|done]. simpl. destruct (HPar r p) as [i Hi]; [by eapply list_elem_of_lookup_2|done|]. rewrite Hi. simpl.
  apply place_Some in Hi as (parent & Hp & <-); [|eapply sublist_NoDup; [exact HN|apply fmap_sublist, sublist_filter]].
  rewrite HNodes, list_lookup_imap, Hp. simpl. exists parent. split; [by eapply list_elem_of_lookup_2|done].
Qed.

(** A row written from its own export is the row it was. *)
Lemma reapplied_row key_id st st' tree r j n row :
  forest st -> load key_id st = Ok tree -> (forall r, r ∈ rows_of key_id st -> forall t, nr_threshold r = Some t -> (t < 256)%N) ->
  (forall r, r ∈ rows_of key_id st' -> share_kept st key_id r) -> forest st' -> extends (st_hardware st) (st_hardware st') ->
  rows_of key_id st !! j = Some r -> exports st tree (arena_node st (rows_of key_id st) j r) n -> published st' key_id n row -> row = r.
Proof.
  intros HF Et Hu8 HS HF' HE Hj (E1 & E2 & E3 & E4 & E5) HP. cbn [arena_node kn_id kn_threshold kn_is_active kn_hardware_key_id] in *.
  apply list_elem_of_lookup_2 in Hj as Hr. apply list_elem_of_filter in Hr as Hr'. destruct Hr' as [Ek Hr'].
  assert (forall x y, x ∈ rows_of key_id st' -> y ∈ rows_of key_id st -> nr_label x = nr_label y -> nr_id x = nr_id y /\
    nr_share x = if decide (nr_hardware x = nr_hardware y) then nr_share y else None) as Hkept.
  { intros x y Hx [Eky Hy]%list_elem_of_filter El. specialize (HS x Hx). unfold share_kept in HS. fold (label_row key_id (nr_label x) (st_nodes st)) in HS.
    by rewrite (label_row_eq st key_id (nr_label x) y) in HS. }
  destruct HP as [Hrow El Eth Ea HK HPa]. destruct (Hkept row r Hrow Hr) as [Eid Esh]; [congruence|].
  assert (nr_hardware row = nr_hardware r) as Eh.
  { destruct (nr_hardware r) as [id|].
    - destruct E5 as (key & Hk & <- & Efp & Epk). unfold names_key in HK. rewrite Epk in HK. destruct HK as (key' & Hk' & -> & Ed & _). rewrite hex_roundtrip in Ed.
      injection Ed as Epk'. by rewrite (NoDup_map_eq hk_public_key (st_hardware st') key key' (fo_public_keys _ HF') (extends_elem _ _ _ HE Hk) Hk' Epk').
    - destruct E5 as [Efp Epk]. unfold names_key in HK. by rewrite Efp, Epk in HK. }
  rewrite decide_True in Esh by done.
  assert (nr_parent row = nr_parent r) as Ep.
  { pose proof (arena_parent_name key_id st tree j r Et (fo_ids _ HF) Hj) as HN. rewrite E2 in HPa. destruct (parent_name _ _) as [l|]; [|congruence].
    destruct HN as (parent & Hp & Elp & ->), HPa as (parent' & Hp' & Elp' & ->). f_equal. apply (Hkept parent' parent); congruence. }
  assert (nr_threshold row = nr_threshold r) as Et'.
  { rewrite Eth, E3. destruct (nr_threshold r) as [t|] eqn:E; [|done]. simpl. f_equal. unfold as_u8. specialize (Hu8 r Hr t E). rewrite N2Nat.id. apply N.mod_small. lia. }
  apply list_elem_of_filter in Hrow as [Ek' _]. destruct row, r; simpl in *. congruence.
Qed.

(** An export, row by row. *)
Record exported (key_id : nat) (st : Store) (full : PublicTree) (tree : KeyQuorumTree) : Prop := {
  ex_load : load key_id st = Ok tree;
  ex_from n : n ∈ pt_nodes full -> exists r j, rows_of key_id st !! j = Some r /\ exports st tree (arena_node st (rows_of key_id st) j r) n;
  ex_to r : r ∈ rows_of key_id st -> exists n j, n ∈ pt_nodes full /\ rows_of key_id st !! j = Some r /\ exports st tree (arena_node st (rows_of key_id st) j r) n;
  ex_labels : NoDup (map pn_label (pt_nodes full));
  ex_closed seeds : parent_closed (filter_public_tree full (visible_labels_in_public_tree full seeds));
}.

Lemma export_exported key_id st full : NoDup (map nr_id (st_nodes st)) -> export_public_tree key_id st = Ok full -> exists tree, exported key_id st full tree.
Proof.
  intros HN Ex. destruct (export_Ok key_id st full Ex) as (tree & row & _ & _ & Et & HX' & _). exists tree. apply (export_labels key_id) in HX'; [|done|done].
  assert (forall n, n ∈ pt_nodes full -> exists r j, rows_of key_id st !! j = Some r /\ exports st tree (arena_node st (rows_of key_id st) j r) n) as Hfrom.
  { intros n [i Hi]%list_elem_of_lookup. destruct (Forall2_lookup_r _ _ _ _ _ HX' Hi) as (r & _ & j & Hj & HE). by exists r, j. }
  assert (forall r, r ∈ rows_of key_id st -> exists n j, n ∈ pt_nodes full /\ rows_of key_id st !! j = Some r /\ exports st tree (arena_node st (rows_of key_id st) j r) n) as Hto.
  { intros r [i Hi]%list_elem_of_lookup. destruct (Forall2_lookup_l _ _ _ _ _ HX' Hi) as (n & Hn & j & Hj & HE). exists n, j. split; [by eapply list_elem_of_lookup_2|done]. }
  assert (NoDup (map pn_label (pt_nodes full))) as HNl.
  { replace (map pn_label (pt_nodes full)) with (map nr_label (rows_of key_id st)); [apply (loaded_labels _ _ _ (load_Ok _ _ _ HN Et))|].
    clear -HX'. induction HX' as [|r n rs ns (j & Hj & E & _) _ IH]; [done|]. simpl. by rewrite E, IH. }
  split; try done. intros seeds n l [HV Hn]%list_elem_of_filter El. destruct (Hfrom n Hn) as (r & j & Hj & HE). pose proof (arena_parent_name key_id st tree j r Et HN Hj) as HP.
  destruct HE as (_ & E2 & _). rewrite <- E2, El in HP. destruct HP as (parent & Hp & <- & _). destruct (Hto parent Hp) as (n' & j' & Hn' & _ & (E1 & _)).
  apply list_elem_of_fmap. exists n'. split; [by rewrite E1|]. apply list_elem_of_filter. split; [|done].
  eapply (visible_up_closed full seeds HNl); [exact HV|]. unfold up. apply parents_of_lookup; [done|]. exists n. split_and!; [done|done|]. by rewrite E1.
Qed.

(** [project_local] cuts a tree down to what a label needs and changes nothing
    else in it: the rows left are exactly the rows whose label is visible, each as
    it was, with its sealed share. *)
Theorem project_local_exact key_id as_label st visible st' :
  forest st -> (forall r, r ∈ rows_of key_id st -> forall t, nr_threshold r = Some t -> (t < 256)%N) ->
  project_local key_id as_label st = (Ok visible, st') ->
  forall r, r ∈ rows_of key_id st' <-> r ∈ rows_of key_id st /\ nr_label r ∈ visible.
Proof.
  intros HF Hu8 H. unfold project_local in H. apply dbM_bind_Ok in H as (V & ? & [EV ->]%query_Ok & H). apply dbM_bind_Ok in H as (full & ? & [Ex ->]%query_Ok & H).
  apply dbM_bind_Ok in H as (k & st1 & HA & [= <- <-]). pose proof (fo_ids _ HF) as HN. rewrite (visible_labels_export key_id as_label st full HN Ex) in EV.
  case_bool_decide as Hin; [|done]. injection EV as <-. destruct (export_exported key_id st full HN Ex) as (tree & [Et Hfrom Hto HNl HC]).
  set (V := visible_labels_in_public_tree full [as_label]) in *. specialize (HC [as_label]). fold V in HC.
  unfold apply_public_tree in HA. case_bool_decide; [discriminate|].
  assert (apply_public_tree_inner (Some key_id) (filter_public_tree full V) st = (Ok k, st1)) as HA'.
  { unfold transaction in HA. destruct (apply_public_tree_inner _ _ _) as [[]?]; [done|discriminate]. }
  apply apply_inner_replaces in HA' as [Ek [HR _ _ _ _]]; [|done|done]. rewrite (Ek key_id eq_refl) in HR. clear HA Ek. destruct HR as [HF' HLab HNo _ HE].
  assert (forall r', r' ∈ rows_of key_id st1 -> exists n, n ∈ pt_nodes (filter_public_tree full V) /\ published st1 key_id n r' /\ share_kept st key_id r') as Hrows.
  { intros r' Hr'. assert (nr_label r' ∈ map pn_label (pt_nodes (filter_public_tree full V))) as (n & El & Hn)%list_elem_of_fmap by (rewrite <- HLab; by apply list_elem_of_fmap_2).
    destruct (HNo n Hn) as (r2 & HP & HS). exists n. split; [done|]. assert (r2 = r') as ->; [|done].
    pose proof (pu_row _ _ _ _ HP) as [? ?]%list_elem_of_filter. apply list_elem_of_filter in Hr' as [? ?]. apply HF'; [done|done|congruence|]. rewrite (pu_label _ _ _ _ HP). done. }
  assert (forall r', r' ∈ rows_of key_id st1 -> share_kept st key_id r') as HSK by (intros r' Hr'; by destruct (Hrows r' Hr') as (? & _ & _ & ?)).
  intros r. split.
  - intros Hr. destruct (Hrows r Hr) as (n & [HV Hn]%list_elem_of_filter & HP & _). destruct (Hfrom n Hn) as (r0 & j & Hj & HX0).
    rewrite (reapplied_row key_id st st1 tree r0 j n r) by done. split; [by eapply list_elem_of_lookup_2|]. destruct HX0 as [E1 _]. simpl in E1. by rewrite <- E1.
  - intros [Hr HV]. destruct (Hto r Hr) as (n & j & Hn & Hj & HX0). destruct (HNo n) as (row' & HP & _).
    { apply list_elem_of_filter. split; [|done]. destruct HX0 as [E1 _]. simpl in E1. by rewrite E1. }
    rewrite <- (reapplied_row key_id st st1 tree r j n row') by done. apply HP.
Qed.
End project.
