(* ===== verification/TreeDemo.v ===== *)
(** * A flat tree, changed

    Two of three leaves open the secret; the witnesses of the theorems on evicting,
    adding and rebinding leaves, on publishing a tree and on applying one. *)

From stdpp Require Import gmap.
From S2P Require Import Prelude Text Crypto BTree Envelope HistoryCodec Authority Signing BridgeProof Pss Tables KeyStore KeyTree Combinations Reconstruct BridgePackage PrivateBridge SplitTree TreeOps TreeLaws Visibility TreeSync TreeSyncLaws TreeView.

Module FlatDemo.
Definition store : Store := set_hardware [CardDemo.hw 1 (str "ann"); CardDemo.hw 2 (str "bob"); CardDemo.hw 3 (str "cat"); CardDemo.hw 4 (str "dan")] SplitDemo.store.
Definition spec : NodeSpec := Split (str "root") 2 [Leaf (str "ann") 1 [str "bob"]; Leaf (str "bob") 2 []; Leaf (str "cat") 3 []] [].
Definition run := KeyTree.split (C := Toy.toy) (SH := ToyShamir.toy) id (fun _ => []) (str "vault") (str "secret") spec store.
Definition key_id : nat := Eval vm_compute in match run.1 with Ok k => k | Err _ => 0 end.
Definition after : Store := Eval vm_compute in run.2.
Definition share_of (id : nat) : bytes :=
  match first_row (fun r => bool_decide (nr_id r = id)) (st_nodes after) with Some row => drop SEALBYTES (default [] (nr_share row)) | None => [] end.
Definition raws : gmap nat bytes := {[2 := share_of 2; 3 := share_of 3; 4 := share_of 4]}.
Lemma ids : NoDup (map nr_id (st_nodes after)).
Proof. apply (bool_decide_unpack _). vm_compute. exact I. Defined.
End FlatDemo.

(** Cat is evicted, ann and bob present their shares. *)
Lemma evict_keeps_secret_witness :
  let '(r, st') := evict_and_refresh (C := Toy.toy) (SH := ToyShamir.toy) id (fun _ => []) FlatDemo.key_id 4 FlatDemo.raws FlatDemo.after in
  (exists changes, r = Ok changes) /\ exists row t old new, nr_id row = 4 /\ eviction (C := Toy.toy) (SH := ToyShamir.toy) id FlatDemo.key_id row t FlatDemo.raws old new FlatDemo.after st'.
Proof.
  pose proof (evict_keeps_secret (C := Toy.toy) (CryptoLaws0 := Toy.toy_laws) (SH := ToyShamir.toy) (ShamirLaws0 := ToyShamir.toy_laws)
    id (fun _ => []) FlatDemo.key_id 4 FlatDemo.raws FlatDemo.after FlatDemo.ids) as H.
  assert (match (evict_and_refresh (C := Toy.toy) (SH := ToyShamir.toy) id (fun _ => []) FlatDemo.key_id 4 FlatDemo.raws FlatDemo.after).1 with Ok _ => True | Err _ => False end) as E
    by (vm_compute; exact I).
  destruct (evict_and_refresh (C := Toy.toy) (SH := ToyShamir.toy) id (fun _ => []) FlatDemo.key_id 4 FlatDemo.raws FlatDemo.after) as [[changes|e] st'].
  - split; [by exists changes|exact H].
  - destruct E.
Defined.

(** Dan joins them, on the fourth card. *)
Lemma add_leaf_keeps_secret_witness :
  let '(r, st') := add_leaf_and_reshare (C := Toy.toy) (SH := ToyShamir.toy) 0 (fun _ => []) FlatDemo.key_id (str "root") (str "dan") 4 FlatDemo.raws FlatDemo.after in
  r = Ok 5 /\ exists parent t v new, nr_label parent = str "root" /\
    addition (C := Toy.toy) (SH := ToyShamir.toy) FlatDemo.key_id parent t FlatDemo.raws (str "dan") 4 5 v new FlatDemo.after st'.
Proof.
  pose proof (add_leaf_keeps_secret (C := Toy.toy) (CryptoLaws0 := Toy.toy_laws) (SH := ToyShamir.toy) (ShamirLaws0 := ToyShamir.toy_laws)
    0 (fun _ => []) FlatDemo.key_id (str "root") (str "dan") 4 FlatDemo.raws FlatDemo.after FlatDemo.ids) as H.
  assert ((add_leaf_and_reshare (C := Toy.toy) (SH := ToyShamir.toy) 0 (fun _ => []) FlatDemo.key_id (str "root") (str "dan") 4 FlatDemo.raws FlatDemo.after).1 = Ok 5) as E
    by (vm_compute; reflexivity).
  destruct (add_leaf_and_reshare (C := Toy.toy) (SH := ToyShamir.toy) 0 (fun _ => []) FlatDemo.key_id (str "root") (str "dan") 4 FlatDemo.raws FlatDemo.after) as [r st'].
  simpl in E. subst r. split; [reflexivity|exact H].
Defined.

(** Bob's share moves to the fourth card. *)
Lemma rebind_moves_share_witness :
  exists st' row share, rebind_leaf (C := Toy.toy) (fun _ => []) FlatDemo.key_id (str "bob") 4 (repeat x00 31 ++ [x02]) FlatDemo.after = (Ok tt, st') /\
    row ∈ rows_of FlatDemo.key_id FlatDemo.after /\ nr_label row = str "bob" /\
    unwrap_leaf_share (C := Toy.toy) FlatDemo.after (nr_id row) (repeat x00 31 ++ [x02]) = Ok share /\
    forall sk, holder (C := Toy.toy) FlatDemo.after (set_hardware_key 4 row) sk -> unwrap_leaf_share (C := Toy.toy) st' (nr_id row) sk = Ok share.
Proof.
  assert ((rebind_leaf (C := Toy.toy) (fun _ => []) FlatDemo.key_id (str "bob") 4 (repeat x00 31 ++ [x02]) FlatDemo.after).1 = Ok tt) as E by (vm_compute; reflexivity).
  destruct (rebind_leaf (C := Toy.toy) (fun _ => []) FlatDemo.key_id (str "bob") 4 (repeat x00 31 ++ [x02]) FlatDemo.after) as [r st'] eqn:ER. simpl in E. subst r.
  destruct (rebind_moves_share (C := Toy.toy) (CryptoLaws0 := Toy.toy_laws) (fun _ => []) _ _ _ _ _ _ FlatDemo.ids ER) as (row & share & H1 & H2 & _ & H3 & _ & _ & H4).
  exists st', row, share. split; [reflexivity|]. split; [exact H1|]. split; [exact H2|]. split; [exact H3|exact H4].
Defined.

(** ** Publishing *)

#[local] Instance plain_hex : Hex := fun b => b.
#[local] Instance plain_unhex : HexDecode := fun b => Some b.
#[local] Instance plain_laws : HexLaws plain_hex plain_unhex.
Proof. intros b. reflexivity. Qed.

Definition parent_there (nodes : list NodeRow) (r : NodeRow) : Prop :=
  match nr_parent r with None => True | Some p => Exists (fun r' => nr_id r' = p /\ nr_key r' = nr_key r) nodes end.
#[local] Instance parent_there_dec nodes r : Decision (parent_there nodes r).
Proof. unfold parent_there. destruct (nr_parent r); apply _. Defined.

Lemma forest_check st :
  NoDup (map nr_id (st_nodes st)) -> NoDup (map (fun r => (nr_key r, nr_label r)) (st_nodes st)) -> NoDup (map ky_id (st_keys st)) ->
  NoDup (map hk_id (st_hardware st)) -> NoDup (map hk_public_key (st_hardware st)) -> Forall (parent_there (st_nodes st)) (st_nodes st) -> forest st.
Proof.
  intros H1 H2 H3 H4 H5 H6. split; try done.
  - intros r r' Hr Hr' Ek El. eapply (NoDup_map_eq (fun r => (nr_key r, nr_label r))); [done..|]. simpl. by rewrite Ek, El.
  - intros r p Hr Ep. rewrite Forall_forall in H6. specialize (H6 r Hr). unfold parent_there in H6. rewrite Ep in H6.
    apply Exists_exists in H6 as (r' & ? & ? & ?). by exists r'.
Qed.

Module SliceDemo.
Definition after : Store := Eval vm_compute in SplitDemo.after.
Lemma after_forest : forest after.
Proof. apply forest_check; apply (bool_decide_unpack _); vm_compute; exact I. Qed.
Definition full : PublicTree := Eval vm_compute in match export_public_tree SplitDemo.key_id after with Ok t => t | Err _ => Build_PublicTree [] 0 [] [] [] end.
Lemma full_Ok : export_public_tree SplitDemo.key_id after = Ok full.
Proof. vm_compute. reflexivity. Qed.
(** A store that knows the keys and has never seen the tree. *)
Definition fresh : Store := set_nodes [] (set_bridges [] (set_links [] (set_keys [] after))).
Lemma fresh_forest : forest fresh.
Proof. apply forest_check; apply (bool_decide_unpack _); vm_compute; exact I. Qed.
Definition closed (snapshot : PublicTree) : Prop :=
  Forall (fun n => match parent_label n with Some l => l ∈ map pn_label (pt_nodes snapshot) | None => True end) (pt_nodes snapshot).
#[export] Instance closed_dec snapshot : Decision (closed snapshot).
Proof. apply Forall_dec. intros n. destruct (parent_label n); apply _. Defined.
End SliceDemo.

(** Cat, below a sibling of ann, is not for ann. *)
Lemma visible_labels_agree_witness :
  visible_labels SplitDemo.key_id (str "ann") SliceDemo.after = Ok (visible_labels_in_public_tree SliceDemo.full [str "ann"]) /\
  str "cat" ∉ visible_labels_in_public_tree SliceDemo.full [str "ann"].
Proof.
  rewrite (visible_labels_agree SplitDemo.key_id (str "ann") SliceDemo.after SliceDemo.full (fo_ids _ SliceDemo.after_forest) SliceDemo.full_Ok).
  split; [rewrite bool_decide_true; [reflexivity|]|]; apply (bool_decide_unpack _); vm_compute; exact I.
Defined.

(** The published tree arrives at a store without one. *)
Lemma apply_public_tree_replaces_witness :
  exists k st', apply_public_tree (C := Toy.toy) None SliceDemo.full SliceDemo.fresh = (Ok k, st') /\ replaced k SliceDemo.full SliceDemo.fresh st'.
Proof.
  assert (parent_closed SliceDemo.full) as HC.
  { assert (SliceDemo.closed SliceDemo.full) as H by (apply (bool_decide_unpack _); vm_compute; exact I). unfold SliceDemo.closed in H. rewrite Forall_forall in H.
    intros n l Hn El. specialize (H n Hn). by rewrite El in H. }
  pose proof (apply_public_tree_replaces (C := Toy.toy) None SliceDemo.full SliceDemo.fresh SliceDemo.fresh_forest HC) as H.
  assert (match (apply_public_tree (C := Toy.toy) None SliceDemo.full SliceDemo.fresh).1 with Ok _ => True | Err _ => False end) as E by (vm_compute; exact I).
  destruct (apply_public_tree (C := Toy.toy) None SliceDemo.full SliceDemo.fresh) as [[k|e] st']; [|destruct E].
  exists k, st'. split; [reflexivity|apply H].
Defined.

(** The store is cut down to what ann needs: four rows of five. *)
Lemma project_local_exact_witness :
  exists visible st', project_local (C := Toy.toy) SplitDemo.key_id (str "ann") SliceDemo.after = (Ok visible, st') /\ length (rows_of SplitDemo.key_id st') = 4 /\
    forall r, r ∈ rows_of SplitDemo.key_id st' <-> r ∈ rows_of SplitDemo.key_id SliceDemo.after /\ nr_label r ∈ visible.
Proof.
  assert (match project_local (C := Toy.toy) SplitDemo.key_id (str "ann") SliceDemo.after with
          | (Ok _, st') => length (rows_of SplitDemo.key_id st') = 4 | (Err _, _) => False end) as E by (vm_compute; reflexivity).
  destruct (project_local (C := Toy.toy) SplitDemo.key_id (str "ann") SliceDemo.after) as [[visible|e] st'] eqn:ER; [|destruct E].
  exists visible, st'. split; [reflexivity|]. split; [exact E|].
  apply (project_local_exact (C := Toy.toy) SplitDemo.key_id (str "ann") SliceDemo.after visible st' SliceDemo.after_forest); [|exact ER].
  assert (Forall (fun r => match nr_threshold r with Some t => (t < 256)%N | None => True end) (rows_of SplitDemo.key_id SliceDemo.after)) as HT
    by (repeat constructor).
  rewrite Forall_forall in HT. intros r Hr t Et. specialize (HT r Hr). by rewrite Et in HT.
Defined.

(** A snapshot that names a node but not its parent: the parent is found locally,
    then deleted as not published, and the published node goes with it. *)
Module OrphanDemo.
Definition snapshot : PublicTree :=
  {| pt_label := pt_label SliceDemo.full; pt_generation := pt_generation SliceDemo.full;
     pt_nodes := filter (fun n => pn_label n = str "ann") (pt_nodes SliceDemo.full); pt_whitelist := []; pt_links := [] |}.
End OrphanDemo.
Lemma apply_orphan_drops_published :
  let '(r, st') := apply_public_tree (C := Toy.toy) None OrphanDemo.snapshot SliceDemo.after in
  r = Ok SplitDemo.key_id /\ map pn_label (pt_nodes OrphanDemo.snapshot) = [str "ann"] /\ rows_of SplitDemo.key_id st' = [].
Proof. vm_compute. auto. Qed.
