(* ===== verification/OrgLetters.v ===== *)
(** * The letters of organization updates ([src/src/org_update.rs])

    A hardware-key reissue and a tree restructure: what is signed, what is sealed,
    what is decoded. A countersigned restructure wraps the bytes of a proposal. *)

From S2P Require Import Prelude Text Crypto Envelope HistoryCodec Authority Signing Policy.

Definition KIND_KEY_REISSUE : byte := x05.
Definition KIND_TREE_UPDATE : byte := x06.
Definition KIND_TREE_PROPOSAL : byte := x07.
Definition KIND_COUNTERSIGNED_TREE : byte := x08.

Definition REISSUE_DOMAIN : bytes := str "KQORG-KEYREISSUE-v1".
Definition TREE_DOMAIN : bytes := str "KQORG-TREEUPDATE-v1".
Definition COUNTERSIGN_DOMAIN : bytes := str "KQORG-COUNTERSIGN-v1".

Definition FLAG_NEW_ENCRYPTION : N := 1.
Definition FLAG_NEW_SIGNING : N := 2.
Definition FLAG_REVOKE_PREVIOUS : N := 4.

(** ** Hardware-key reissue *)

Record ReissueLetter := {
  rl_tree_label : bytes;
  rl_subject_label : bytes;
  rl_sequence : N;
  rl_recipient_label : bytes;
  rl_authorizer_label : bytes;
  rl_new_encryption : option bytes;
  rl_new_signing : option bytes;
  rl_revoke_previous : bool;
  rl_previous_encryption : bytes;
  rl_previous_signing : bytes;
}.

Definition flag (set : bool) (bit : N) : N := if set then bit else 0.
Definition is_some {A} (o : option A) : bool := match o with Some _ => true | None => false end.
Definition flags (l : ReissueLetter) : byte :=
  byte_of_N (N.lor (N.lor (flag (is_some (rl_new_encryption l)) FLAG_NEW_ENCRYPTION) (flag (is_some (rl_new_signing l)) FLAG_NEW_SIGNING))
               (flag (rl_revoke_previous l) FLAG_REVOKE_PREVIOUS)).
(** [flags & bit != 0] *)
Definition has_flag (f : byte) (bit : N) : bool := negb (N.land (Byte.to_N f) bit =? 0)%N.
(** [flags & !(..) != 0] *)
Definition unknown_flags (f : byte) : bool :=
  negb (N.ldiff (Byte.to_N f) (N.lor (N.lor FLAG_NEW_ENCRYPTION FLAG_NEW_SIGNING) FLAG_REVOKE_PREVIOUS) =? 0)%N.

Definition reissue_message (l : ReissueLetter) (recipient_public_key : bytes) : result bytes :=
  tree ← hash_len_prefixed (rl_tree_label l);
  subject ← hash_len_prefixed (rl_subject_label l);
  recipient ← hash_len_prefixed (rl_recipient_label l);
  authorizer ← hash_len_prefixed (rl_authorizer_label l);
  previous_encryption ← hash_len_prefixed (rl_previous_encryption l);
  previous_signing ← hash_len_prefixed (rl_previous_signing l);
  Ok (REISSUE_DOMAIN ++ tree ++ subject ++ u32_be (rl_sequence l) ++ recipient ++ recipient_public_key ++ authorizer ++ [flags l] ++
      default [] (rl_new_encryption l) ++ default [] (rl_new_signing l) ++ previous_encryption ++ previous_signing).

Definition reissue_body (l : ReissueLetter) : result bytes :=
  tree ← push_len_prefixed (rl_tree_label l);
  subject ← push_len_prefixed (rl_subject_label l);
  recipient ← push_len_prefixed (rl_recipient_label l);
  authorizer ← push_len_prefixed (rl_authorizer_label l);
  previous_encryption ← push_len_prefixed (rl_previous_encryption l);
  previous_signing ← push_len_prefixed (rl_previous_signing l);
  Ok (tree ++ subject ++ u32_be (rl_sequence l) ++ recipient ++ authorizer ++ [flags l] ++
      default [] (rl_new_encryption l) ++ default [] (rl_new_signing l) ++ previous_encryption ++ previous_signing).

Definition take_flagged (set : bool) : parser (option bytes) := if set then pk ← take_array 32; mret (Some pk) else mret None.
Definition take_reissue : parser (ReissueLetter * bytes) :=
  tree_label ← take_label;
  subject_label ← take_label;
  sequence ← take_u32;
  recipient_label ← take_label;
  authorizer_label ← take_label;
  flags ← take_u8;
  if unknown_flags flags then fail InvalidUpdatePackage else
  new_encryption ← take_flagged (has_flag flags FLAG_NEW_ENCRYPTION);
  new_signing ← take_flagged (has_flag flags FLAG_NEW_SIGNING);
  previous_encryption ← take_label;
  previous_signing ← take_label;
  auth_sig ← take_array 64;
  mret ({| rl_tree_label := tree_label; rl_subject_label := subject_label; rl_sequence := sequence; rl_recipient_label := recipient_label;
           rl_authorizer_label := authorizer_label; rl_new_encryption := new_encryption; rl_new_signing := new_signing;
           rl_revoke_previous := has_flag flags FLAG_REVOKE_PREVIOUS; rl_previous_encryption := previous_encryption;
           rl_previous_signing := previous_signing |}, auth_sig).

(** [data.is_empty()] after the last field, then the labels and keys that must be there. *)
Definition reissue_decode (payload : bytes) : result (ReissueLetter * bytes) :=
  '((l, auth_sig), rest) ← take_reissue payload;
  if negb (bool_decide (rest = [])) then Err InvalidUpdatePackage else
  if bool_decide (rl_subject_label l = []) || bool_decide (rl_recipient_label l = []) || bool_decide (rl_authorizer_label l = [])
  then Err InvalidUpdatePackage else
  if negb (is_some (rl_new_encryption l)) && negb (is_some (rl_new_signing l)) then Err InvalidUpdatePackage else
  Ok (l, auth_sig).

(** ** Tree restructure *)

Record TreeLetter := {
  tl_tree_label : bytes;
  tl_generation : N;
  tl_recipient_label : bytes;
  tl_authorizer_label : bytes;
  tl_slice_json : bytes;
}.

Definition tree_message (l : TreeLetter) (recipient_public_key : bytes) : result bytes :=
  tree ← hash_len_prefixed (tl_tree_label l);
  recipient ← hash_len_prefixed (tl_recipient_label l);
  authorizer ← hash_len_prefixed (tl_authorizer_label l);
  len ← try_u32 (length (tl_slice_json l));
  Ok (TREE_DOMAIN ++ tree ++ u32_be (tl_generation l) ++ recipient ++ recipient_public_key ++ authorizer ++ be_bytes 4 len ++ tl_slice_json l).

Definition tree_body (l : TreeLetter) : result bytes :=
  tree ← push_len_prefixed (tl_tree_label l);
  recipient ← push_len_prefixed (tl_recipient_label l);
  authorizer ← push_len_prefixed (tl_authorizer_label l);
  slice ← push_len_prefixed_u32 (tl_slice_json l);
  Ok (tree ++ u32_be (tl_generation l) ++ recipient ++ authorizer ++ slice).

Definition take_tree : parser (TreeLetter * bytes) :=
  tree_label ← take_label;
  generation ← take_u32;
  recipient_label ← take_label;
  authorizer_label ← take_label;
  slice_json ← take_len_prefixed_u32;
  auth_sig ← take_array 64;
  mret ({| tl_tree_label := tree_label; tl_generation := generation; tl_recipient_label := recipient_label;
           tl_authorizer_label := authorizer_label; tl_slice_json := slice_json |}, auth_sig).

Definition tree_decode (payload : bytes) : result (TreeLetter * bytes) :=
  '((l, auth_sig), rest) ← take_tree payload;
  if negb (bool_decide (rest = [])) then Err InvalidUpdatePackage else
  if bool_decide (tl_tree_label l = []) || bool_decide (tl_recipient_label l = []) || bool_decide (tl_authorizer_label l = []) || (tl_generation l =? 0)%N
  then Err InvalidUpdatePackage else
  Ok (l, auth_sig).

Section signed.
Context `{C : Crypto}.

Definition reissue_preimage (l : ReissueLetter) (pk : bytes) : result bytes := m ← reissue_message l pk; Ok (sha256 m).
Definition tree_preimage (l : TreeLetter) (pk : bytes) : result bytes := m ← tree_message l pk; Ok (sha256 m).

Definition reissue_payload (l : ReissueLetter) (pk signing_key : bytes) : result bytes :=
  body ← reissue_body l; preimage ← reissue_preimage l pk; Ok (body ++ sign signing_key preimage).
Definition reissue_seal (rnd : bytes) (l : ReissueLetter) (pk signing_key : bytes) : result bytes :=
  payload ← reissue_payload l pk signing_key; seal rnd PACKAGE KIND_KEY_REISSUE pk payload.

Definition tree_encode (l : TreeLetter) (pk signing_key : bytes) : result bytes :=
  body ← tree_body l; preimage ← tree_preimage l pk; Ok (body ++ sign signing_key preimage).

(** ** Countersignatures *)

Definition countersign_message (proposal countersigner_label pk : bytes) : result bytes :=
  label ← hash_len_prefixed countersigner_label; Ok (COUNTERSIGN_DOMAIN ++ sha256 proposal ++ label ++ pk).
Definition countersign_preimage (proposal countersigner_label pk : bytes) : result bytes :=
  m ← countersign_message proposal countersigner_label pk; Ok (sha256 m).
Definition countersigned_payload (proposal countersigner_label signature : bytes) : result bytes :=
  label ← push_len_prefixed countersigner_label; Ok (label ++ signature ++ proposal).
Definition seal_countersigned (rnd proposal countersigner_label signature pk : bytes) : result bytes :=
  payload ← countersigned_payload proposal countersigner_label signature; seal rnd PACKAGE KIND_COUNTERSIGNED_TREE pk payload.
End signed.

Definition decode_countersigned (payload : bytes) : result (bytes * bytes * bytes) :=
  '(countersigner_label, data) ← take_label payload;
  '(signature, data) ← take_array 64 data;
  if bool_decide (countersigner_label = []) || bool_decide (data = []) then Err InvalidUpdatePackage else
  Ok (countersigner_label, signature, data).

(** ** The codecs *)

Record reissue_wf (l : ReissueLetter) : Prop := {
  rw_tree : text (rl_tree_label l); rw_subject : text (rl_subject_label l); rw_recipient : text (rl_recipient_label l);
  rw_authorizer : text (rl_authorizer_label l); rw_prev_enc : text (rl_previous_encryption l); rw_prev_sig : text (rl_previous_signing l);
  rw_sequence : (rl_sequence l < u32_max)%N; rw_enc : opt (fixed 32) (rl_new_encryption l); rw_sig : opt (fixed 32) (rl_new_signing l) }.
Record tree_letter_wf (l : TreeLetter) : Prop := {
  tw_tree : text (tl_tree_label l); tw_recipient : text (tl_recipient_label l); tw_authorizer : text (tl_authorizer_label l);
  tw_generation : (tl_generation l < u32_max)%N }.

(** The flag byte says which of the three are there, and every known flag byte is one of them. *)
Lemma flags_of a b c : let f := byte_of_N (N.lor (N.lor (flag a FLAG_NEW_ENCRYPTION) (flag b FLAG_NEW_SIGNING)) (flag c FLAG_REVOKE_PREVIOUS)) in
  unknown_flags f = false /\ has_flag f FLAG_NEW_ENCRYPTION = a /\ has_flag f FLAG_NEW_SIGNING = b /\ has_flag f FLAG_REVOKE_PREVIOUS = c.
Proof. by destruct a, b, c. Qed.
Lemma flags_canonical f : unknown_flags f = false ->
  f = byte_of_N (N.lor (N.lor (flag (has_flag f FLAG_NEW_ENCRYPTION) FLAG_NEW_ENCRYPTION) (flag (has_flag f FLAG_NEW_SIGNING) FLAG_NEW_SIGNING))
    (flag (has_flag f FLAG_REVOKE_PREVIOUS) FLAG_REVOKE_PREVIOUS)).
Proof. destruct f; by vm_compute. Qed.

Definition keys_of (l : ReissueLetter) : bytes := default [] (rl_new_encryption l) ++ default [] (rl_new_signing l).

(** The labels and keys a decoded letter has. *)
Definition reissue_named (l : ReissueLetter) : Prop :=
  rl_subject_label l <> [] /\ rl_recipient_label l <> [] /\ rl_authorizer_label l <> [] /\ (rl_new_encryption l <> None \/ rl_new_signing l <> None).

Lemma flags_spec l : unknown_flags (flags l) = false /\ has_flag (flags l) FLAG_NEW_ENCRYPTION = is_some (rl_new_encryption l) /\
  has_flag (flags l) FLAG_NEW_SIGNING = is_some (rl_new_signing l) /\ has_flag (flags l) FLAG_REVOKE_PREVIOUS = rl_revoke_previous l.
Proof. apply flags_of. Qed.

Lemma rt_flagged o rest : opt (fixed 32) o -> take_flagged (is_some o) (default [] o ++ rest) = Ok (o, rest).
Proof. destruct o as [pk|]; [|done]. intros H. unfold take_flagged. simpl. erewrite parser_bind_eq by (by apply take_n_app). done. Qed.

Lemma take_flagged_Ok set data o rest : take_flagged set data = Ok (o, rest) -> set = is_some o /\ opt (fixed 32) o /\ data = default [] o ++ rest.
Proof.
  unfold take_flagged. destruct set; [|by intros [= <- <-]]. intros E. inv_parser. apply take_n_Ok in H as [-> Hl]. subst. done.
Qed.

Lemma reissue_take_roundtrip l body sig rest :
  reissue_wf l -> length sig = 64 -> reissue_body l = Ok body -> take_reissue (body ++ sig ++ rest) = Ok ((l, sig), rest).
Proof.
  intros [] Hs E. unfold reissue_body in E. inv_ok; subst. unfold take_reissue. destruct (flags_spec l) as (Hu & He & Hg & Hr). enc_dec.
  erewrite parser_bind_eq by done. rewrite Hu, He, Hg, Hr.
  erewrite parser_bind_eq by (by apply rt_flagged). erewrite parser_bind_eq by (by apply rt_flagged). enc_dec. by destruct l.
Qed.

Lemma take_reissue_Ok data l sig rest : take_reissue data = Ok ((l, sig), rest) ->
  reissue_wf l /\ length sig = 64 /\ exists body, reissue_body l = Ok body /\ data = body ++ sig ++ rest.
Proof.
  intros E. unfold take_reissue in E. inv_parser. destruct (unknown_flags _) eqn:Hu; [done|]. inv_parser.
  repeat match goal with
  | H : take_label _ = Ok _ |- _ => canon H label_codec
  | H : take_u32 _ = Ok _ |- _ => apply take_u32_Ok in H as [? ->]
  | H : take_u8 _ = Ok _ |- _ => apply take_u8_Ok in H as ->
  | H : take_array _ _ = Ok _ |- _ => apply take_n_Ok in H as [-> ?]
  | H : take_flagged _ _ = Ok _ |- _ => apply take_flagged_Ok in H as (? & ? & ->)
  end.
  simplify_eq. split; [by split|]. split; [done|]. unfold reissue_body. simpl. run_enc. eexists. split; [reflexivity|].
  repeat (rewrite <- app_assoc || cbn [app]). repeat f_equal. etransitivity; [by apply flags_canonical|].
  unfold flags. cbn. do 2 f_equal. congruence.
Qed.

Lemma reissue_checks l : (bool_decide (rl_subject_label l = []) || bool_decide (rl_recipient_label l = []) || bool_decide (rl_authorizer_label l = [])) = false /\
  (negb (is_some (rl_new_encryption l)) && negb (is_some (rl_new_signing l))) = false <-> reissue_named l.
Proof.
  unfold reissue_named. rewrite !orb_false_iff, !bool_decide_eq_false, andb_false_iff, !negb_false_iff.
  destruct (rl_new_encryption l), (rl_new_signing l); simpl; naive_solver.
Qed.

(** A letter decodes to what was put in, and only the encoding of a letter decodes to it. *)
Lemma reissue_decode_iff payload l sig : reissue_decode payload = Ok (l, sig) <->
  reissue_wf l /\ reissue_named l /\ length sig = 64 /\ exists body, reissue_body l = Ok body /\ payload = body ++ sig.
Proof.
  unfold reissue_decode. split.
  - intros ([[l' s'] rest] & E & H)%bind_Ok. case_bool_decide as Er; [|done]. subst rest. cbn [negb] in H. apply take_reissue_Ok in E as (HW & HL & body & Eb & ->).
    destruct (_ || _) eqn:E1; [done|]. destruct (_ && _) eqn:E2; [done|]. injection H as -> ->.
    split; [done|]. split; [by apply reissue_checks|]. split; [done|]. exists body. by rewrite app_nil_r.
  - intros (HW & HN & HL & body & Eb & ->). rewrite <- (app_nil_r sig). rewrite (reissue_take_roundtrip l) by done. cbn [mbind result_bind].
    rewrite bool_decide_true by done. cbn [negb]. apply reissue_checks in HN as [-> ->]. by rewrite app_nil_r.
Qed.

Definition tree_named (l : TreeLetter) : Prop :=
  tl_tree_label l <> [] /\ tl_recipient_label l <> [] /\ tl_authorizer_label l <> [] /\ tl_generation l <> 0%N.

Lemma rt_len_u32 b e rest : push_len_prefixed_u32 b = Ok e -> take_len_prefixed_u32 (e ++ rest) = Ok (b, rest).
Proof. apply take_len_prefixed_u32_push. Qed.
#[local] Hint Resolve rt_len_u32 : kq.

Lemma tree_take_roundtrip l body sig rest :
  tree_letter_wf l -> length sig = 64 -> tree_body l = Ok body -> take_tree (body ++ sig ++ rest) = Ok ((l, sig), rest).
Proof. intros [] Hs E. unfold tree_body in E. inv_ok; subst. unfold take_tree. enc_dec. by destruct l. Qed.

Lemma take_tree_Ok data l sig rest : take_tree data = Ok ((l, sig), rest) ->
  tree_letter_wf l /\ length sig = 64 /\ exists body, tree_body l = Ok body /\ data = body ++ sig ++ rest.
Proof.
  intros E. unfold take_tree in E. inv_parser.
  repeat match goal with
  | H : take_label _ = Ok _ |- _ => canon H label_codec
  | H : take_u32 _ = Ok _ |- _ => apply take_u32_Ok in H as [? ->]
  | H : take_array _ _ = Ok _ |- _ => apply take_n_Ok in H as [-> ?]
  | H : take_len_prefixed_u32 _ = Ok _ |- _ => apply take_len_prefixed_u32_canonical in H as (? & ? & ->)
  end.
  simplify_eq. split; [by split|]. split; [done|]. unfold tree_body. simpl. run_enc. close_enc.
Qed.

Lemma tree_checks l : (bool_decide (tl_tree_label l = []) || bool_decide (tl_recipient_label l = []) || bool_decide (tl_authorizer_label l = []) ||
  (tl_generation l =? 0)%N) = false <-> tree_named l.
Proof. unfold tree_named. rewrite !orb_false_iff, !bool_decide_eq_false, N.eqb_neq. naive_solver. Qed.

Lemma tree_decode_iff payload l sig : tree_decode payload = Ok (l, sig) <->
  tree_letter_wf l /\ tree_named l /\ length sig = 64 /\ exists body, tree_body l = Ok body /\ payload = body ++ sig.
Proof.
  unfold tree_decode. split.
  - intros ([[l' s'] rest] & E & H)%bind_Ok. case_bool_decide as Er; [|done]. subst rest. cbn [negb] in H. apply take_tree_Ok in E as (HW & HL & body & Eb & ->).
    destruct (_ || _) eqn:E1; [done|]. injection H as -> ->.
    split; [done|]. split; [by apply tree_checks|]. split; [done|]. exists body. by rewrite app_nil_r.
  - intros (HW & HN & HL & body & Eb & ->). rewrite <- (app_nil_r sig). rewrite (tree_take_roundtrip l) by done. cbn [mbind result_bind].
    rewrite bool_decide_true by done. cbn [negb]. apply tree_checks in HN as ->. by rewrite app_nil_r.
Qed.

Lemma decode_countersigned_iff payload label sig proposal : decode_countersigned payload = Ok (label, sig, proposal) <->
  text label /\ label <> [] /\ proposal <> [] /\ length sig = 64 /\ countersigned_payload proposal label sig = Ok payload.
Proof.
  unfold decode_countersigned, countersigned_payload. split.
  - intros ([v d] & E1 & ([s d'] & E2 & H)%bind_Ok)%bind_Ok. apply take_n_Ok in E2 as [-> Hl]. canon E1 label_codec.
    destruct (_ || _) eqn:E; [done|]. apply orb_false_iff in E as [?%bool_decide_eq_false ?%bool_decide_eq_false].
    injection H as -> -> ->. split; [done|]. split; [done|]. split; [done|]. split; [done|]. by rewrite H1.
  - intros (Ht & Hn & Hp & Hl & (e & Ee & [= <-])%bind_Ok).
    assert (take_label (e ++ sig ++ proposal) = Ok (label, sig ++ proposal)) as -> by (by eapply (codec_roundtrip _ _ _ label_codec)).
    cbn [mbind result_bind]. rewrite take_n_app by done. cbn [mbind result_bind]. by rewrite !bool_decide_false.
Qed.

(** ** What a signature on a letter says *)

Lemma u32_be_inj v v' : (v < u32_max)%N -> (v' < u32_max)%N -> u32_be v = u32_be v' -> v = v'.
Proof. unfold u32_be. rewrite u32_width. apply be_bytes_inj. Qed.

Lemma u32_be_length v : length (u32_be v) = 4.
Proof. apply length_be_bytes. Qed.

Lemma keys_inj (o o' : option bytes) (r r' : bytes) : opt (fixed 32) o -> opt (fixed 32) o' -> is_some o = is_some o' ->
  default [] o ++ r = default [] o' ++ r' -> o = o' /\ r = r'.
Proof.
  destruct o as [a|], o' as [b|]; try done. simpl. unfold fixed. intros Ha Hb _ E. apply field_inj in E as [-> ->]; [done|congruence].
Qed.

Lemma u32_field_inj v v' (r r' : bytes) : (v < u32_max)%N -> (v' < u32_max)%N -> u32_be v ++ r = u32_be v' ++ r' -> v = v' /\ r = r'.
Proof. intros Hv Hv' E. apply field_inj in E as [E ->]; [|by rewrite !u32_be_length]. by apply u32_be_inj in E as ->. Qed.

Lemma label_inj (a a' e : bytes) : hash_len_prefixed a = Ok e -> hash_len_prefixed a' = Ok e -> a = a'.
Proof. intros Ea Ea'. by apply (label_field_inj a a' e e [] [] Ea Ea'). Qed.

(** The message a reissue signs determines the letter and the key it is sealed to. *)
Lemma reissue_message_inj l l' pk pk' m :
  reissue_wf l -> reissue_wf l' -> length pk = 32 -> length pk' = 32 -> reissue_message l pk = Ok m -> reissue_message l' pk' = Ok m -> l = l' /\ pk = pk'.
Proof.
  intros HW HW' Hp Hp' E' E. unfold reissue_message in *. inv_ok; subst m. rename E into F. apply app_inv_head in F. split_fields.
  apply u32_field_inj in F as [Es F]; [|apply HW'|apply HW]. split_fields.
  destruct (flags_spec l) as (_ & F1 & F2 & F3), (flags_spec l') as (_ & G1 & G2 & G3).
  apply field_inj in F as [Ef F]; [|done]. injection Ef as Ef.
  apply keys_inj in F as [Ee F]; [|apply HW'|apply HW|congruence]. apply keys_inj in F as [Eg F]; [|apply HW'|apply HW|congruence].
  split_fields. subst. assert (rl_previous_signing l = rl_previous_signing l') by (by eapply label_inj).
  destruct l, l'; simpl in *. split; congruence.
Qed.

Lemma tree_message_inj l l' pk pk' m :
  tree_letter_wf l -> tree_letter_wf l' -> length pk = 32 -> length pk' = 32 -> tree_message l pk = Ok m -> tree_message l' pk' = Ok m -> l = l' /\ pk = pk'.
Proof.
  intros HW HW' Hp Hp' E' E. unfold tree_message in *. inv_ok; subst m. rename E into F. apply app_inv_head in F. split_fields.
  apply u32_field_inj in F as [Es F]; [|apply HW'|apply HW]. split_fields. destruct l, l'; simpl in *. split; congruence.
Qed.

Lemma countersign_message_inj `{C : Crypto} `{!CryptoLaws C} p p' label label' pk pk' m :
  length pk = 32 -> length pk' = 32 -> countersign_message p label pk = Ok m -> countersign_message p' label' pk' = Ok m ->
  label = label' /\ pk = pk' /\ sha256 p = sha256 p'.
Proof.
  intros Hp Hp' E' E. unfold countersign_message in *. inv_ok; subst m. rename E into F. apply app_inv_head in F.
  apply field_inj in F as [? F]; [|by rewrite !sha256_length]. split_fields. done.
Qed.

(** The three messages never agree. *)
Lemma letter_domains_apart `{C : Crypto} l t p label pk pk' pk'' m :
  (reissue_message l pk = Ok m -> tree_message t pk' = Ok m -> False) /\
  (reissue_message l pk = Ok m -> countersign_message p label pk'' = Ok m -> False) /\
  (tree_message t pk' = Ok m -> countersign_message p label pk'' = Ok m -> False).
Proof.
  unfold reissue_message, tree_message, countersign_message. split_and!; intros E E'; inv_ok; subst m; domain_contradiction.
Qed.

(** A signature on a letter binds all of it. Two reissue letters, two
    restructures or two countersignatures with one signed digest are the same
    letter (the same proposal and countersigner) sealed to the same key, and a
    digest of one kind is never a digest of another, unless SHA-256 collides. So
    no field can be edited and no letter re-targeted under an old signature. *)
Theorem letter_digest_binds `{C : Crypto} `{!CryptoLaws C} l l' t t' p p' c c' pk pk' h :
  reissue_wf l -> reissue_wf l' -> tree_letter_wf t -> tree_letter_wf t' -> length pk = 32 -> length pk' = 32 ->
  (reissue_preimage l pk = Ok h -> reissue_preimage l' pk' = Ok h -> (l = l' /\ pk = pk') \/ collision) /\
  (tree_preimage t pk = Ok h -> tree_preimage t' pk' = Ok h -> (t = t' /\ pk = pk') \/ collision) /\
  (countersign_preimage p c pk = Ok h -> countersign_preimage p' c' pk' = Ok h -> (p = p' /\ c = c' /\ pk = pk') \/ collision) /\
  (reissue_preimage l pk = Ok h -> tree_preimage t pk' = Ok h -> collision) /\
  (reissue_preimage l pk = Ok h -> countersign_preimage p c pk' = Ok h -> collision) /\
  (tree_preimage t pk = Ok h -> countersign_preimage p c pk' = Ok h -> collision).
Proof.
  intros Wl Wl' Wt Wt' Hp Hp'. unfold reissue_preimage, tree_preimage, countersign_preimage.
  split_and!; intros (m & E & [= <-])%bind_Ok (m' & E' & [= Eh])%bind_Ok; apply sha256_inj_or_collision in Eh as [->|]; try (by right || done).
  - left. by eapply reissue_message_inj.
  - left. by eapply tree_message_inj.
  - destruct (countersign_message_inj p p' c c' pk pk' m) as (-> & -> & [->|]%sha256_inj_or_collision); [done..|by left|by right].
  - by destruct (proj1 (letter_domains_apart l t p c pk pk' pk m) E E').
  - by destruct (proj1 (proj2 (letter_domains_apart l t p c pk pk pk' m)) E E').
  - by destruct (proj2 (proj2 (letter_domains_apart l t p c pk pk pk' m)) E E').
Qed.
