(* ===== verification/OrgUpdate.v ===== *)
(** * Organization updates ([src/src/org_update.rs])

    Hardware-key reissues and tree restructures: what an authorizer plans and
    commits, and what a store accepts. [with_immediate_transaction] is
    [transaction]; a call nested in it only runs. The entropy of a sealed envelope
    is a function of the label it is addressed to. *)

From stdpp Require Import gmap.
From S2P Require Import Prelude Text Crypto BTree Envelope HistoryCodec Authority Signing BridgeProof Pss Visibility Tables KeyStore KeyTree Combinations Reconstruct BridgePackage PrivateBridge TreeOps TreeSync OrgLetters.

(** [serde_json] on a [PublicTree]: only that what it writes it reads back is used. *)
Class TreeJson := { json_to_vec : PublicTree -> option bytes; json_from_slice : bytes -> option PublicTree }.
Class TreeJsonLaws (J : TreeJson) : Prop := json_roundtrip t b : json_to_vec t = Some b -> json_from_slice b = Some t.

Inductive AppliedUpdate :=
| KeyReissue (tree_label subject_label recipient_label : bytes) (sequence : N) (encryption_rotated signing_rotated : bool)
| TreeRestructure (tree_label recipient_label : bytes) (key_id : nat) (generation : N) (nodes : nat)
| TreeProposal (tree_label authorizer_label countersigner_label : bytes) (generation : N) (recipients : nat).

Record Addressed := { ad_label : bytes; ad_recipient_public_key : bytes; ad_bytes : bytes }.

Record PlannedKeyReissue := { pr_packages : list Addressed; pr_letter : ReissueLetter }.
Record PlannedTreeRestructure := {
  ptr_packages : list Addressed;
  ptr_skipped : list bytes;
  ptr_tree_label : bytes;
  ptr_generation : N;
  ptr_key_id : nat;
  ptr_previous_generation : N;
  ptr_authorizer_label : bytes;
  ptr_needs_countersign : bool;
  ptr_countersigner_label : option bytes;
  ptr_proposals : list bytes;
}.
Record PlannedCountersign := {
  pc_packages : list Addressed;
  pc_key_id : nat;
  pc_generation : N;
  pc_previous_generation : N;
  pc_tree_label : bytes;
  pc_authorizer_label : bytes;
  pc_countersigner_label : bytes;
}.

Inductive LeafScope := NoTree | Tree (key_id : nat) | NoSuchTree.

(** ** Statements on the two tables *)

Definition on_org (g : OrgTables -> OrgTables) : dbM unit := execute (fun st => set_org (g (st_org st)) st).

Definition logged (kind : UpdateKind) (tree subject : bytes) (row : UpdateRow) : bool :=
  bool_decide (up_kind row = kind) && bool_decide (up_tree_label row = tree) && bool_decide (up_subject_label row = subject).

(** [COALESCE(MAX(sequence), 0)], read into a [u32]. *)
Definition max_N (l : list N) : N := foldr N.max 0%N l.
Definition last_sequence (kind : UpdateKind) (tree subject : bytes) (st : Store) : result N :=
  let max := max_N (map up_sequence (filter (fun row => logged kind tree subject row = true) (ot_updates (st_org st)))) in
  if (max <? u32_max)%N then Ok max else Err StaleUpdate.

(** The [UNIQUE] index and the check on the sequence are a stale update. *)
Definition record_update (kind : UpdateKind) (tree subject : bytes) (sequence : N) (authorizer : bytes) (detail : list (bytes * detail_value)) : dbM unit :=
  fun st =>
    let t := st_org st in
    if (sequence =? 0)%N || existsb (fun row => logged kind tree subject row && (up_sequence row =? sequence)%N) (ot_updates t)
    then (Err StaleUpdate, st)
    else (Ok tt, set_org (set_ot_updates (ot_updates t ++
           [{| up_id := next_id up_id (ot_updates t); up_kind := kind; up_tree_label := tree; up_subject_label := subject;
               up_sequence := sequence; up_authorizer_label := authorizer; up_detail := detail |}]) t) st).

Definition history (since_id : option nat) (st : Store) : list UpdateRow :=
  filter (fun row => default 0 since_id < up_id row) (ot_updates (st_org st)).

Definition load_pending (key_id : nat) (st : Store) : list PendingRow :=
  filter (fun row => pd_key_id row = Some key_id) (ot_pending (st_org st)).
Definition delete_pending (P : PendingRow -> bool) : dbM unit :=
  on_org (fun t => set_ot_pending (filter (fun row => P row = false) (ot_pending t)) t).

(** [UPDATE keys SET public_generation = .. WHERE id = .. AND public_generation = ..], as a count. *)
Definition advance_generation (key_id : nat) (generation previous : N) : dbM nat := fun st =>
  let P k := bool_decide (ky_id k = key_id) && (ky_generation k =? previous)%N in
  if (generation =? 0)%N && existsb P (st_keys st) then (Err Db, st) else
  (Ok (length (filter (fun k => P k = true) (st_keys st))),
   set_keys (map (fun k => if P k then set_generation generation k else k) (st_keys st)) st).

(** [UPDATE private_bridge_members] of one label on the live bridges. *)
Definition on_live_bridge (t : BridgeTables) (p : PartyRow) : bool :=
  existsb (fun b => bool_decide (br_id b = py_bridge_id p) && negb (br_destroyed b)) (tb_bridges t).
Definition update_parties (P : PartyRow -> bool) (g : PartyRow -> PartyRow) : dbM unit :=
  on_private (fun t => set_tb_parties (map (fun p => if P p && on_live_bridge t p then g p else p) (tb_parties t)) t).
Definition set_party_encryption (pk : bytes) (p : PartyRow) : PartyRow :=
  {| py_bridge_id := py_bridge_id p; py_label := py_label p; py_role := py_role p; py_encryption := pk; py_signing := py_signing p; py_is_local := py_is_local p |}.
Definition set_party_signing (pk : bytes) (p : PartyRow) : PartyRow :=
  {| py_bridge_id := py_bridge_id p; py_label := py_label p; py_role := py_role p; py_encryption := py_encryption p; py_signing := Some pk; py_is_local := py_is_local p |}.

(** ** Who is told *)

Section recipients.
Context `{C : Crypto}.

Definition active_encryption_leaves (key_id : nat) (st : Store) : result (list (bytes * bytes)) :=
  let found := omap (fun row =>
    hw ← nr_hardware row;
    h ← first_row (fun h => bool_decide (hk_id h = hw)) (st_hardware st);
    if nr_active row && bool_decide (hk_key_type h = Encryption) && negb (hk_revoked h) then Some (nr_label row, hk_public_key h) else None)
    (rows_of key_id st) in
  traverse (fun entry => pk ← vec_to_32 entry.2; Ok (entry.1, pk)) (merge_sort (fun a b : bytes * bytes => label_le a.1 b.1) found).

(** Distinct pairs in the order of their labels; pairs of one label come in the order of their keys. *)
Definition bridge_notify_targets (node_label : bytes) (st : Store) : result (list (bytes * bytes)) :=
  let t := st_private st in
  let subject (b : BridgeRow) := existsb (fun p => bool_decide (py_bridge_id p = br_id b) && bool_decide (py_label p = node_label)) (tb_parties t) in
  let peers := map (fun p => (py_label p, py_encryption p))
    (filter (fun p => existsb (fun b => bool_decide (br_id b = py_bridge_id p) && negb (br_destroyed b) && subject b) (tb_bridges t) = true) (tb_parties t)) in
  traverse (fun entry => pk ← vec_to_32 entry.2; Ok (entry.1, pk)) (merge_sort pair_le (remove_dups peers)).

(** [found.entry(label).or_insert(pk)] *)
Definition or_insert (found : btree bytes) (label pk : bytes) : btree bytes := if bt_contains label found then found else bt_insert label pk found.
Definition insert_recipient (found : btree bytes) (label pk : bytes) : result (btree bytes) :=
  if is_weak_x25519_public_key pk then Err InvalidPublicKey else Ok (or_insert found label pk).
Fixpoint insert_recipients (found : btree bytes) (l : list (bytes * bytes)) : result (btree bytes) :=
  match l with [] => Ok found | (label, pk) :: l => found ← insert_recipient found label pk; insert_recipients found l end.

Definition tree_recipients (key_id : nat) (st : Store) : result (btree bytes) :=
  leaves ← active_encryption_leaves key_id st; insert_recipients [] leaves.

Fixpoint seeing_recipients (key_id : nat) (subject : bytes) (st : Store) (found : btree bytes) (l : list (bytes * bytes)) : result (btree bytes) :=
  match l with
  | [] => Ok found
  | (label, pk) :: l =>
      visible ← visible_labels key_id label st;
      seeing_recipients key_id subject st (if bool_decide (subject ∈ visible) then or_insert found label pk else found) l
  end.
Definition reissue_recipients (key_id : option nat) (subject : bytes) (st : Store) : result (btree bytes) :=
  found ← match key_id with
          | Some k => leaves ← tree_recipients k st; seeing_recipients k subject st [] leaves
          | None => Ok []
          end;
  targets ← bridge_notify_targets subject st;
  insert_recipients found targets.
End recipients.

Section updates.
Context `{C : Crypto} `{HX : Hex} `{HD : HexDecode} `{J : TreeJson}.

(** ** Shared checks *)

Definition require_addressed_here (recipient_label pk : bytes) (st : Store) : result unit :=
  if is_active_key recipient_label Encryption pk st then Ok tt else Err UpdateRecipientMismatch.

Definition authorizer_signing_key (authorizer_label : bytes) (st : Store) : result bytes :=
  match signing_public_for_label authorizer_label st with
  | Err NodeNotFound | Err InvalidBridge => Err UpdateNotAuthorized
  | r => r
  end.

Definition leaf_scope (tree_label : bytes) (st : Store) : LeafScope :=
  if bool_decide (tree_label = []) then NoTree else
  match tree_by_label tree_label st with Some (key_id, _) => Tree key_id | None => NoSuchTree end.

(** ** Hardware-key reissue *)

(** Empty unless exactly one key is active. *)
Definition current_fingerprint (label : bytes) (key_type : KeyType) (st : Store) : bytes :=
  match active_keys_for label key_type st with [one] => hk_fingerprint one | _ => [] end.

Definition require_previous_matches (label : bytes) (key_type : KeyType) (stated : bytes) (incoming : option bytes) (st : Store) : result unit :=
  let held := current_fingerprint label key_type st in
  if bool_decide (held = []) || bool_decide (stated = []) || bool_decide (held = stated) then Ok tt else
  match incoming with
  | Some pk => if bool_decide (fingerprint pk = held) then Ok tt else Err StaleUpdate
  | None => Err StaleUpdate
  end.

Definition register_reissued_key (label : bytes) (key_type : KeyType) (pk : bytes) : dbM nat :=
  existing ← query (fun st => Ok (get_key_by_public_key pk st));
  _ ← match existing with
      | Ok key =>
          if bool_decide (hk_key_type key = key_type)
          then if negb (bool_decide (hk_label key = label)) then db_try (Err PublicKeyLabelMismatch)
               else if hk_revoked key then unrevoke_key (hk_id key) else mret tt
          else mret tt
      | Err _ => mret tt
      end;
  get_or_register label key_type pk.

Definition apply_new_encryption (l : ReissueLetter) (scope : LeafScope) (pk : bytes) : dbM unit :=
  _ ← (if rl_revoke_previous l then revoke_superseded (rl_subject_label l) Encryption pk else mret tt);
  new_id ← register_reissued_key (rl_subject_label l) Encryption pk;
  _ ← match scope with Tree key_id => adopt_reissued_hardware_key (rl_subject_label l) (Some key_id) new_id | NoTree | NoSuchTree => mret tt end;
  update_parties (fun p => bool_decide (py_label p = rl_subject_label l)) (set_party_encryption pk).

Definition apply_new_signing (l : ReissueLetter) (pk : bytes) : dbM unit :=
  _ ← revoke_superseded (rl_subject_label l) KeyStore.Signing pk;
  _ ← register_reissued_key (rl_subject_label l) KeyStore.Signing pk;
  update_parties (fun p => bool_decide (py_label p = rl_subject_label l) && bool_decide (py_role p = Member)) (set_party_signing pk).

Definition reissue_detail (l : ReissueLetter) : list (bytes * detail_value) :=
  [(str "recipient", DText (rl_recipient_label l)); (str "encryption_rotated", DBool (is_some (rl_new_encryption l)));
   (str "signing_rotated", DBool (is_some (rl_new_signing l))); (str "revoked_previous", DBool (rl_revoke_previous l))].

Definition apply_reissue (l : ReissueLetter) : dbM AppliedUpdate :=
  scope ← query (fun st => Ok (leaf_scope (rl_tree_label l) st));
  _ ← match rl_new_encryption l with Some pk => apply_new_encryption l scope pk | None => mret tt end;
  _ ← match rl_new_signing l with Some pk => apply_new_signing l pk | None => mret tt end;
  _ ← record_update KeyReissueKind (rl_tree_label l) (rl_subject_label l) (rl_sequence l) (rl_authorizer_label l) (reissue_detail l);
  mret (KeyReissue (rl_tree_label l) (rl_subject_label l) (rl_recipient_label l) (rl_sequence l) (is_some (rl_new_encryption l)) (is_some (rl_new_signing l))).

Definition set_recipient (l : ReissueLetter) (label : bytes) : ReissueLetter :=
  {| rl_tree_label := rl_tree_label l; rl_subject_label := rl_subject_label l; rl_sequence := rl_sequence l; rl_recipient_label := label;
     rl_authorizer_label := rl_authorizer_label l; rl_new_encryption := rl_new_encryption l; rl_new_signing := rl_new_signing l;
     rl_revoke_previous := rl_revoke_previous l; rl_previous_encryption := rl_previous_encryption l; rl_previous_signing := rl_previous_signing l |}.
(** The subject reads the letter on the key that replaces the retired one. *)
Definition reissue_address (l : ReissueLetter) (label pk : bytes) : bytes :=
  if bool_decide (label = rl_subject_label l) then default pk (rl_new_encryption l) else pk.
Definition reissue_package (rnd : bytes -> bytes) (l : ReissueLetter) (sk : bytes) (entry : bytes * bytes) : result Addressed :=
  let pk := reissue_address l entry.1 entry.2 in
  data ← reissue_seal (rnd entry.1) (set_recipient l entry.1) pk sk;
  Ok {| ad_label := entry.1; ad_recipient_public_key := pk; ad_bytes := data |}.

Definition plan_key_reissue (rnd : bytes -> bytes) (key_id : option nat) (subject : bytes) (new_enc new_sig : option bytes) (revoke_previous : bool)
    (authorizer sk : bytes) (st : Store) : result PlannedKeyReissue :=
  if bool_decide (subject = []) || bool_decide (authorizer = []) then Err NodeNotFound else
  if negb (is_some new_enc) && negb (is_some new_sig) then Err InvalidUpdatePackage else
  if negb (is_ancestor_or_self authorizer subject) then Err UpdateNotAuthorized else
  if match new_enc with Some pk => is_weak_x25519_public_key pk | None => false end then Err InvalidPublicKey else
  if match new_sig with Some pk => negb (ed25519_key_ok pk) | None => false end then Err InvalidPublicKey else
  registered ← signing_public_for_label authorizer st;
  if negb (bool_decide (registered = public_key sk)) then Err UpdateNotAuthorized else
  tree ← match key_id with Some id => tree_label id st | None => Ok [] end;
  last ← last_sequence KeyReissueKind tree subject st;
  let letter := {| rl_tree_label := tree; rl_subject_label := subject; rl_sequence := u32_succ last; rl_recipient_label := [];
                   rl_authorizer_label := authorizer; rl_new_encryption := new_enc; rl_new_signing := new_sig; rl_revoke_previous := revoke_previous;
                   rl_previous_encryption := current_fingerprint subject Encryption st;
                   rl_previous_signing := current_fingerprint subject KeyStore.Signing st |} in
  recipients ← reissue_recipients key_id subject st;
  packages ← traverse (reissue_package rnd letter sk) recipients;
  Ok {| pr_packages := packages; pr_letter := letter |}.

Definition commit_planned_key_reissue (planned : PlannedKeyReissue) : dbM AppliedUpdate := transaction (apply_reissue (pr_letter planned)).

Definition check_reissue (l : ReissueLetter) (auth_sig pk : bytes) (st : Store) : result unit :=
  _ ← require_addressed_here (rl_recipient_label l) pk st;
  if negb (is_ancestor_or_self (rl_authorizer_label l) (rl_subject_label l)) then Err UpdateNotAuthorized else
  authorizer_public ← authorizer_signing_key (rl_authorizer_label l) st;
  preimage ← reissue_preimage l pk;
  _ ← verify_signature authorizer_public preimage auth_sig;
  last ← last_sequence KeyReissueKind (rl_tree_label l) (rl_subject_label l) st;
  if negb (rl_sequence l =? u32_succ last)%N then Err StaleUpdate else
  _ ← require_previous_matches (rl_subject_label l) Encryption (rl_previous_encryption l) (rl_new_encryption l) st;
  require_previous_matches (rl_subject_label l) KeyStore.Signing (rl_previous_signing l) (rl_new_signing l) st.

Definition import_reissue (payload pk : bytes) : dbM AppliedUpdate :=
  letter ← db_try (reissue_decode payload);
  _ ← query (check_reissue letter.1 letter.2 pk);
  transaction (apply_reissue letter.1).

(** ** Key-tree restructure *)

Definition insert_pending (key_id : option nat) (tree authorizer countersigner : bytes) (generation : N) (proposal : bytes) : dbM unit := fun st =>
  let t := st_org st in
  if (generation =? 0)%N || existsb (fun row => bool_decide (pd_proposal_hash row = sha256 proposal)) (ot_pending t)
     || match key_id with Some k => negb (existsb (fun key => bool_decide (ky_id key = k)) (st_keys st)) | None => false end
  then (Err StaleUpdate, st)
  else (Ok tt, set_org (set_ot_pending (ot_pending t ++
         [{| pd_id := next_id pd_id (ot_pending t); pd_key_id := key_id; pd_tree_label := tree; pd_authorizer_label := authorizer;
             pd_countersigner_label := countersigner; pd_generation := generation; pd_proposal_hash := sha256 proposal; pd_proposal := proposal |}]) t) st).

Definition at_generation (generation : N) (t : PublicTree) : PublicTree :=
  {| pt_label := pt_label t; pt_generation := generation; pt_nodes := pt_nodes t; pt_whitelist := pt_whitelist t; pt_links := pt_links t |}.

Definition slice_letter (full : PublicTree) (tree : KeyQuorumTree) (links : list (bytes * bytes)) (authorizer label : bytes) : result TreeLetter :=
  visible ← visible_labels_for_links tree links label;
  slice_json ← ok_or (json_to_vec (filter_public_tree full visible)) InvalidTreeSpec;
  Ok {| tl_tree_label := pt_label full; tl_generation := pt_generation full; tl_recipient_label := label; tl_authorizer_label := authorizer;
        tl_slice_json := slice_json |}.

(** One leaf: its payload and its envelope. *)
Definition slice_package (rnd : bytes -> bytes) (kind : byte) (full : PublicTree) (tree : KeyQuorumTree) (links : list (bytes * bytes))
    (authorizer sk : bytes) (entry : bytes * bytes) : result (bytes * Addressed) :=
  letter ← slice_letter full tree links authorizer entry.1;
  payload ← tree_encode letter entry.2 sk;
  data ← seal (rnd entry.1) PACKAGE kind entry.2 payload;
  Ok (payload, {| ad_label := entry.1; ad_recipient_public_key := entry.2; ad_bytes := data |}).

Definition has_standing (authorizer : bytes) (entry : bytes * bytes) : bool := is_ancestor_or_self authorizer entry.1.

Definition plan_tree_restructure (rnd : bytes -> bytes) (key_id : nat) (authorizer sk : bytes) (st : Store) : result PlannedTreeRestructure :=
  registered ← signing_public_for_label authorizer st;
  if negb (bool_decide (registered = public_key sk)) then Err UpdateNotAuthorized else
  full ← export_public_tree key_id st;
  let previous := pt_generation full in
  generation ← (if (previous + 1 <? u32_max)%N then Ok (previous + 1)%N else Err StalePublicTree);
  let full := at_generation generation full in
  let countersigner := restructure_countersigner authorizer in
  let kind := if is_some countersigner then KIND_TREE_PROPOSAL else KIND_TREE_UPDATE in
  '(tree, links) ← load_for_visibility key_id st;
  recipients ← tree_recipients key_id st;
  sent ← traverse (slice_package rnd kind full tree links authorizer sk) (filter (fun e => has_standing authorizer e = true) recipients);
  Ok {| ptr_packages := map snd sent; ptr_skipped := map fst (filter (fun e => has_standing authorizer e = false) recipients);
        ptr_tree_label := pt_label full; ptr_generation := generation; ptr_key_id := key_id; ptr_previous_generation := previous;
        ptr_authorizer_label := authorizer; ptr_needs_countersign := is_some countersigner; ptr_countersigner_label := countersigner;
        ptr_proposals := map fst sent |}.

Definition count_nodes (key_id : nat) (st : Store) : nat := length (rows_of key_id st).

Definition commit_planned_tree_restructure (planned : PlannedTreeRestructure) : dbM AppliedUpdate :=
  if ptr_needs_countersign planned then
    countersigner ← db_try (ok_or (ptr_countersigner_label planned) UpdateNotAuthorized);
    transaction (
      _ ← db_each (insert_pending (Some (ptr_key_id planned)) (ptr_tree_label planned) (ptr_authorizer_label planned) countersigner (ptr_generation planned))
            (ptr_proposals planned);
      mret (TreeProposal (ptr_tree_label planned) (ptr_authorizer_label planned) countersigner (ptr_generation planned) (length (ptr_packages planned))))
  else transaction (
    updated ← advance_generation (ptr_key_id planned) (ptr_generation planned) (ptr_previous_generation planned);
    if negb (updated =? 1) then db_try (Err StalePublicTree) else
    nodes ← query (fun st => Ok (count_nodes (ptr_key_id planned) st));
    _ ← record_update TreeKind (ptr_tree_label planned) (ptr_tree_label planned) (ptr_generation planned) (ptr_authorizer_label planned)
          [(str "recipient", DText (ptr_tree_label planned)); (str "recipients", DNumber (N.of_nat (length (ptr_packages planned))));
           (str "skipped", DList (ptr_skipped planned))];
    mret (TreeRestructure (ptr_tree_label planned) (ptr_tree_label planned) (ptr_key_id planned) (ptr_generation planned) nodes)).

Definition verify_tree_letter (l : TreeLetter) (auth_sig pk : bytes) (st : Store) : result unit :=
  _ ← require_addressed_here (tl_recipient_label l) pk st;
  if negb (is_ancestor_or_self (tl_authorizer_label l) (tl_recipient_label l)) then Err UpdateNotAuthorized else
  authorizer_public ← authorizer_signing_key (tl_authorizer_label l) st;
  preimage ← tree_preimage l pk;
  verify_signature authorizer_public preimage auth_sig.

(** The slice a letter carries: of the tree and generation it names, with the recipient under the key addressed. *)
Definition letter_slice (l : TreeLetter) (pk : bytes) : result PublicTree :=
  slice ← ok_or (json_from_slice (tl_slice_json l)) InvalidTreeSpec;
  if negb (bool_decide (pt_label slice = tl_tree_label l)) || negb (pt_generation slice =? tl_generation l)%N then Err InvalidUpdatePackage else
  node ← ok_or (first_row (fun n => bool_decide (pn_label n = tl_recipient_label l)) (pt_nodes slice)) UpdateRecipientMismatch;
  match encryption_public_key node with
  | Some hex_pk => if bool_decide (hex_decode hex_pk = Some pk) then Ok slice else Err UpdateRecipientMismatch
  | None => Err UpdateRecipientMismatch
  end.

(** [Some] id of the tree, if there is one, unless its generation is not older. *)
Definition newer_than_stored (l : TreeLetter) (st : Store) : result (option nat) :=
  match tree_by_label (tl_tree_label l) st with
  | Some (id, stored) => if (tl_generation l <=? stored)%N then Err StaleUpdate else Ok (Some id)
  | None => Ok None
  end.

Definition restructured (l : TreeLetter) (slice : PublicTree) : dbM unit :=
  record_update TreeKind (tl_tree_label l) (tl_tree_label l) (tl_generation l) (tl_authorizer_label l)
    [(str "recipient", DText (tl_recipient_label l)); (str "nodes", DNumber (N.of_nat (length (pt_nodes slice))))].

Definition import_tree_update (payload pk : bytes) : dbM AppliedUpdate :=
  letter ← db_try (tree_decode payload);
  let l := letter.1 in
  _ ← query (verify_tree_letter l letter.2 pk);
  if is_some (restructure_countersigner (tl_authorizer_label l)) then db_try (Err UpdateNotAuthorized) else
  slice ← db_try (letter_slice l pk);
  existing ← query (newer_than_stored l);
  key_id ← transaction (key_id ← apply_public_tree_nested existing slice; _ ← restructured l slice; mret key_id);
  mret (TreeRestructure (tl_tree_label l) (tl_recipient_label l) key_id (tl_generation l) (length (pt_nodes slice))).

Definition import_tree_proposal (payload pk : bytes) : dbM AppliedUpdate :=
  letter ← db_try (tree_decode payload);
  let l := letter.1 in
  _ ← query (verify_tree_letter l letter.2 pk);
  countersigner ← db_try (ok_or (restructure_countersigner (tl_authorizer_label l)) UpdateNotAuthorized);
  existing ← query (newer_than_stored l);
  _ ← insert_pending existing (tl_tree_label l) (tl_authorizer_label l) countersigner (tl_generation l) payload;
  mret (TreeProposal (tl_tree_label l) (tl_authorizer_label l) countersigner (tl_generation l) 1).

Definition apply_tree_letter (l : TreeLetter) (pk proposal : bytes) : dbM AppliedUpdate :=
  slice ← db_try (letter_slice l pk);
  existing ← query (newer_than_stored l);
  key_id ← transaction (
    key_id ← apply_public_tree_nested existing slice;
    _ ← delete_pending (fun row => bool_decide (pd_proposal_hash row = sha256 proposal));
    _ ← restructured l slice;
    mret key_id);
  mret (TreeRestructure (tl_tree_label l) (tl_recipient_label l) key_id (tl_generation l) (length (pt_nodes slice))).

Definition check_countersigned (payload pk : bytes) (st : Store) : result (TreeLetter * bytes) :=
  '(countersigner, countersign_sig, inner) ← decode_countersigned payload;
  preimage ← countersign_preimage inner countersigner pk;
  countersigner_public ← authorizer_signing_key countersigner st;
  _ ← verify_signature countersigner_public preimage countersign_sig;
  letter ← tree_decode inner;
  if negb (bool_decide (restructure_countersigner (tl_authorizer_label letter.1) = Some countersigner)) then Err UpdateNotAuthorized else
  _ ← verify_tree_letter letter.1 letter.2 pk st;
  Ok (letter.1, inner).
Definition import_countersigned_tree (payload pk : bytes) : dbM AppliedUpdate :=
  checked ← query (check_countersigned payload pk);
  apply_tree_letter checked.1 pk checked.2.

Definition countersign_package (rnd : bytes -> bytes) (key_id : nat) (countersigner sk : bytes) (st : Store) (row : PendingRow) : result Addressed :=
  letter ← tree_decode (pd_proposal row);
  pk ← encryption_public_for_label (Some key_id) (tl_recipient_label letter.1) st;
  _ ← verify_tree_letter letter.1 letter.2 pk st;
  preimage ← countersign_preimage (pd_proposal row) countersigner pk;
  data ← seal_countersigned (rnd (tl_recipient_label letter.1)) (pd_proposal row) countersigner (sign sk preimage) pk;
  Ok {| ad_label := tl_recipient_label letter.1; ad_recipient_public_key := pk; ad_bytes := data |}.

Definition odd_one_out (countersigner : bytes) (first row : PendingRow) : bool :=
  negb (bool_decide (pd_countersigner_label row = countersigner)) || negb (pd_generation row =? pd_generation first)%N ||
  negb (bool_decide (pd_tree_label row = pd_tree_label first)) || negb (bool_decide (pd_authorizer_label row = pd_authorizer_label first)).

Definition plan_restructure_countersign (rnd : bytes -> bytes) (key_id : nat) (countersigner sk : bytes) (st : Store) : result PlannedCountersign :=
  registered ← signing_public_for_label countersigner st;
  if negb (bool_decide (registered = public_key sk)) then Err UpdateNotAuthorized else
  let pending := load_pending key_id st in
  first ← ok_or (head pending) ProposalNotFound;
  if existsb (odd_one_out countersigner first) pending then Err UpdateNotAuthorized else
  if negb (bool_decide (restructure_countersigner (pd_authorizer_label first) = Some countersigner)) then Err UpdateNotAuthorized else
  packages ← traverse (countersign_package rnd key_id countersigner sk st) pending;
  generation ← (if (pd_generation first <? u32_max)%N then Ok (pd_generation first) else Err StalePublicTree);
  previous ← (if (generation =? 0)%N then Err StalePublicTree else Ok (generation - 1)%N);
  Ok {| pc_packages := packages; pc_key_id := key_id; pc_generation := generation; pc_previous_generation := previous;
        pc_tree_label := pd_tree_label first; pc_authorizer_label := pd_authorizer_label first; pc_countersigner_label := countersigner |}.

Definition commit_planned_countersign (planned : PlannedCountersign) : dbM AppliedUpdate := transaction (
  updated ← advance_generation (pc_key_id planned) (pc_generation planned) (pc_previous_generation planned);
  if negb (updated =? 1) then db_try (Err StalePublicTree) else
  _ ← delete_pending (fun row => bool_decide (pd_key_id row = Some (pc_key_id planned)));
  nodes ← query (fun st => Ok (count_nodes (pc_key_id planned) st));
  _ ← record_update TreeKind (pc_tree_label planned) (pc_tree_label planned) (pc_generation planned) (pc_countersigner_label planned)
        [(str "authorizer", DText (pc_authorizer_label planned)); (str "countersigner", DText (pc_countersigner_label planned));
         (str "recipients", DNumber (N.of_nat (length (pc_packages planned))))];
  mret (TreeRestructure (pc_tree_label planned) (pc_tree_label planned) (pc_key_id planned) (pc_generation planned) nodes)).

(** ** Import *)

Definition dispatch_update (kind : byte) (payload pk : bytes) : dbM AppliedUpdate :=
  if bool_decide (kind = KIND_KEY_REISSUE) then import_reissue payload pk else
  if bool_decide (kind = KIND_TREE_UPDATE) then import_tree_update payload pk else
  if bool_decide (kind = KIND_TREE_PROPOSAL) then import_tree_proposal payload pk else
  if bool_decide (kind = KIND_COUNTERSIGNED_TREE) then import_countersigned_tree payload pk else
  db_try (Err InvalidUpdatePackage).

Definition import_update (data recipient_secret : bytes) : dbM AppliedUpdate :=
  opened ← db_try (open_as PACKAGE data recipient_secret);
  let '(kind, pk, payload) := opened in
  if negb (bool_decide (pk = box_public recipient_secret)) then db_try (Err UpdateRecipientMismatch) else
  dispatch_update kind payload pk.

Inductive ImportedEnvelope := Bridge (summary : BridgeSummary) | Update (update : AppliedUpdate).
Definition is_update_kind (kind : byte) : bool :=
  bool_decide (kind = KIND_KEY_REISSUE \/ kind = KIND_TREE_UPDATE \/ kind = KIND_TREE_PROPOSAL \/ kind = KIND_COUNTERSIGNED_TREE).

(** Every envelope a mailbox carries. *)
Definition import_any (local_rnd : bytes) (data recipient_secret : bytes) : dbM ImportedEnvelope :=
  k ← db_try (Envelope.kind data);
  if is_update_kind k then update ← import_update data recipient_secret; mret (Update update)
  else summary ← import_package local_rnd data recipient_secret; mret (Bridge summary).
End updates.
