(* ===== verification/OrgUpdateLaws.v ===== *)
(** * What an update may do

    An import writes only what a registered authority signed for this store, in
    order, and a second time never; the log of reissues has no gap. *)

From stdpp Require Import gmap.
From S2P Require Import Prelude Text Crypto BTree Envelope HistoryCodec Authority Signing Policy BridgeProof Pss Visibility Tables KeyStore KeyTree Combinations Reconstruct SplitTree BridgePackage PrivateBridge BridgeRoster BridgeLaws BridgeSafety TreeOps TreeLaws TreeSync TreeSyncLaws TreeView OrgLetters OrgUpdate.

(** ** All or nothing *)

Definition atomic {A} (m : dbM A) : Prop := forall st e st', m st = (Err e, st') -> st' = st.

Lemma atomic_try {A} (r : result A) : atomic (db_try r).
Proof. by intros st e st' [= _ <-]. Qed.
Lemma atomic_query {A} (f : Store -> result A) : atomic (query f).
Proof. by intros st e st' [= _ <-]. Qed.
Lemma atomic_ret {A} (a : A) : atomic (mret a).
Proof. by intros st e st' [= _ <-]. Qed.
Lemma atomic_transaction {A} (m : dbM A) : atomic (transaction m).
Proof. intros st e st'. apply transaction_Err. Qed.
Lemma atomic_try_bind {A B} (r : result A) (k : A -> dbM B) : (forall a, atomic (k a)) -> atomic (db_try r ≫= k).
Proof. intros Hk st e st'. unfold mbind, dbM_bind, db_try. destruct r; [apply Hk|by intros [= _ <-]]. Qed.
Lemma atomic_query_bind {A B} (f : Store -> result A) (k : A -> dbM B) : (forall a, atomic (k a)) -> atomic (query f ≫= k).
Proof. intros Hk st e st'. unfold mbind, dbM_bind, query. destruct (f st); [apply Hk|by intros [= _ <-]]. Qed.
(** The last write, and what is reported. *)
Lemma atomic_last {A B} (m : dbM A) (f : A -> B) : atomic m -> atomic (a ← m; mret (f a)).
Proof. intros Hm st e st'. unfold mbind, dbM_bind. destruct (m st) as [[a|e'] st1] eqn:E; [discriminate|]. intros [= _ <-]. by eapply Hm. Qed.
Lemma atomic_if {A} (b : bool) (m m' : dbM A) : atomic m -> atomic m' -> atomic (if b then m else m').
Proof. by destruct b. Qed.

Create HintDb atomic discriminated.
#[export] Hint Resolve atomic_try atomic_query atomic_ret atomic_transaction : atomic.
Ltac atomic :=
  cbv beta zeta;
  match goal with
  | |- atomic (if _ then _ else _) => apply atomic_if; atomic
  | |- atomic (match ?x with _ => _ end) => destruct x; atomic
  | |- atomic (db_try _ ≫= _) => apply atomic_try_bind; intros ?; atomic
  | |- atomic (query _ ≫= _) => apply atomic_query_bind; intros ?; atomic
  | |- atomic (_ ≫= _) => apply atomic_last; atomic
  | |- _ => eauto with atomic
  end.

(** ** The log *)

(** One row more. *)
Definition grows (st st' : Store) (kind : UpdateKind) (tree subject : bytes) (sequence : N) (authorizer : bytes) : Prop :=
  exists row, ot_updates (st_org st') = ot_updates (st_org st) ++ [row] /\ logged kind tree subject row = true /\ up_sequence row = sequence /\
    up_authorizer_label row = authorizer /\ up_id row = next_id up_id (ot_updates (st_org st)) /\ sequence <> 0%N /\
    forall old, old ∈ ot_updates (st_org st) -> logged kind tree subject old = true -> up_sequence old <> sequence.

Lemma logged_spec kind tree subject row : logged kind tree subject row = true <-> up_kind row = kind /\ up_tree_label row = tree /\ up_subject_label row = subject.
Proof. unfold logged. rewrite !andb_true_iff, !bool_decide_eq_true. tauto. Qed.

Lemma record_update_Ok kind tree subject sequence authorizer detail st st' :
  record_update kind tree subject sequence authorizer detail st = (Ok tt, st') ->
  grows st st' kind tree subject sequence authorizer /\ exists row, st' = set_org (set_ot_updates (ot_updates (st_org st) ++ [row]) (st_org st)) st.
Proof.
  unfold record_update. destruct (_ || _) eqn:E; [discriminate|]. apply orb_false_iff in E as [E0%N.eqb_neq E1]. intros [= <-]. split; [|by eexists].
  eexists. split; [reflexivity|]. split; [by apply logged_spec|]. do 3 (split; [done|]). split; [done|]. intros old Ho Hl Es.
  assert (existsb (fun row => logged kind tree subject row && (up_sequence row =? sequence)%N) (ot_updates (st_org st)) = true) as E; [|congruence].
  apply existsb_exists. exists old. split; [by apply list_elem_of_In|]. by rewrite Hl, Es, N.eqb_refl.
Qed.

(** The log untouched. *)
Definition same_log (st st' : Store) : Prop := ot_updates (st_org st') = ot_updates (st_org st).
#[export] Instance same_log_preorder : PreOrder same_log.
Proof. split; unfold same_log; [by intros st|]. intros ???. congruence. Qed.
Definition same_org (st st' : Store) : Prop := st_org st' = st_org st.
#[export] Instance same_org_preorder : PreOrder same_org.
Proof. split; unfold same_org; [by intros st|]. intros ???. congruence. Qed.

Section frame.
Context `{C : Crypto} `{HX : Hex} `{HD : HexDecode} `{J : TreeJson}.

Lemma org_update_keys P g : respects same_org (update_keys P g).
Proof. by intros st r st' [= _ <-]. Qed.
Lemma org_update_nodes P g : respects same_org (update_nodes P g).
Proof. by intros st r st' [= _ <-]. Qed.
Lemma org_update_nodes_checked P g : respects same_org (update_nodes_checked P g).
Proof. intros st r st'. unfold update_nodes_checked. destruct (forallb _ _); by intros [= _ <-]. Qed.
Lemma org_register label kt pk : respects same_org (register_key label kt pk).
Proof. unfold register_key. frame. intros st r st'. simpl. case_bool_decide; by intros [= _ <-]. Qed.
#[local] Hint Resolve org_update_keys org_update_nodes org_update_nodes_checked org_register : frame.
Lemma org_get_or_register label kt pk : respects same_org (get_or_register label kt pk).
Proof.
  unfold get_or_register. frame. intros st r st'. simpl. destruct (get_key_by_public_key pk st) as [k|e].
  - destruct (negb _); by intros [= _ <-].
  - destruct e; try (by intros [= _ <-]). apply org_register.
Qed.
#[local] Hint Resolve org_get_or_register : frame.
Lemma org_on_private g : respects same_org (on_private g).
Proof. by intros st r st' [= _ <-]. Qed.
#[local] Hint Resolve org_on_private : frame.
Lemma org_register_reissued label kt pk : respects same_org (register_reissued_key label kt pk).
Proof. unfold register_reissued_key, unrevoke_key. frame. Qed.
#[local] Hint Resolve org_register_reissued : frame.
Lemma org_apply_encryption l scope pk : respects same_org (apply_new_encryption l scope pk).
Proof. unfold apply_new_encryption, revoke_superseded, update_parties, adopt_reissued_hardware_key. frame. Qed.
Lemma org_apply_signing l pk : respects same_org (apply_new_signing l pk).
Proof. unfold apply_new_signing, revoke_superseded, update_parties. frame. Qed.

Lemma org_insert_node row : respects same_org (insert_node row).
Proof. intros st r st'. unfold insert_node. repeat case_match; by intros [= _ <-]. Qed.
Lemma org_insert_key label : respects same_org (insert_key label).
Proof. intros st r st'. unfold insert_key. repeat case_match; by intros [= _ <-]. Qed.
Lemma org_delete_nodes P : respects same_org (delete_nodes P).
Proof. by intros st r st' [= _ <-]. Qed.
Lemma org_delete_whitelist P : respects same_org (delete_whitelist P).
Proof. by intros st r st' [= _ <-]. Qed.
Lemma org_delete_links P : respects same_org (delete_links P).
Proof. by intros st r st' [= _ <-]. Qed.
Lemma org_insert_whitelist a b : respects same_org (insert_whitelist a b).
Proof. unfold insert_whitelist. intros st r st' [= _ <-]. unfold same_org. by repeat case_match. Qed.
Lemma org_insert_link l : respects same_org (insert_link l).
Proof. unfold insert_link. intros st r st' [= _ <-]. unfold same_org. by repeat case_match. Qed.
Lemma org_note_generation k g : respects same_org (note_generation k g).
Proof. unfold note_generation. frame. intros st r st'. case_bool_decide; by intros [= _ <-]. Qed.
Lemma org_update_generation k g : respects same_org (update_generation k g).
Proof. intros st r st'. unfold update_generation. destruct (_ && _); by intros [= _ <-]. Qed.
#[local] Hint Resolve org_insert_node org_insert_key org_delete_nodes org_delete_whitelist org_delete_links org_insert_whitelist org_insert_link org_note_generation org_update_generation : frame.
Lemma org_apply_node k n : respects same_org (apply_public_node k n).
Proof. unfold apply_public_node, node_hardware, get_or_register_encryption. frame. Qed.
#[local] Hint Resolve org_apply_node : frame.
Lemma org_apply_pass k remaining pending ready : respects same_org (apply_pass k remaining pending ready).
Proof. revert ready; induction pending as [|n pending IH]; intros ready; simpl; frame. Qed.
#[local] Hint Resolve org_apply_pass : frame.
Lemma org_apply_passes fuel k remaining pending ready : respects same_org (apply_passes fuel k remaining pending ready).
Proof. revert pending ready; induction fuel as [|fuel IH]; intros [|n pending] ready; unfold apply_passes; fold apply_passes; frame. Qed.
#[local] Hint Resolve org_apply_passes : frame.
Lemma org_apply_tree k slice : respects same_org (apply_public_tree_nested k slice).
Proof. unfold apply_public_tree_nested, apply_public_tree_inner, target_tree, allow_bridge, add_bridge. frame. Qed.
End frame.
#[export] Hint Resolve org_apply_encryption org_apply_signing org_apply_tree : frame.

(** ** What is accepted *)

Section accept.
Context `{C : Crypto} `{HX : Hex} `{HD : HexDecode} `{J : TreeJson}.

(** [sig] signs [message] under the one active signing key this store has for [label]. *)
Definition signed (st : Store) (label : bytes) (message : result bytes) (sig : bytes) : Prop :=
  exists key m, active_keys_for label KeyStore.Signing st = [key] /\ message = Ok m /\ ed25519_verify_strict (hk_public_key key) (sha256 m) sig = true.

Record letter_ok (st : Store) (pk recipient authorizer subject : bytes) (message : result bytes) (sig : bytes) : Prop := {
  ok_addressed : is_active_key recipient Encryption pk st = true;
  ok_ancestor : is_ancestor_or_self authorizer subject = true;
  ok_signed : signed st authorizer message sig;
}.

(** A restructure of this letter was applied: in the log, newer than what was there. *)
Record restructure_ok (st st' : Store) (pk : bytes) (l : TreeLetter) (slice : PublicTree) : Prop := {
  ok_slice : letter_slice l pk = Ok slice;
  ok_newer id stored : tree_by_label (tl_tree_label l) st = Some (id, stored) -> (stored < tl_generation l)%N;
  ok_logged : grows st st' TreeKind (tl_tree_label l) (tl_tree_label l) (tl_generation l) (tl_authorizer_label l);
}.

Inductive accepted (st st' : Store) (pk : bytes) : byte -> bytes -> AppliedUpdate -> Prop :=
| accepted_reissue payload l sig last :
    reissue_decode payload = Ok (l, sig) ->
    letter_ok st pk (rl_recipient_label l) (rl_authorizer_label l) (rl_subject_label l) (reissue_message l pk) sig ->
    last_sequence KeyReissueKind (rl_tree_label l) (rl_subject_label l) st = Ok last -> rl_sequence l = (last + 1)%N ->
    grows st st' KeyReissueKind (rl_tree_label l) (rl_subject_label l) (rl_sequence l) (rl_authorizer_label l) ->
    accepted st st' pk KIND_KEY_REISSUE payload
      (KeyReissue (rl_tree_label l) (rl_subject_label l) (rl_recipient_label l) (rl_sequence l) (is_some (rl_new_encryption l)) (is_some (rl_new_signing l)))
| accepted_tree payload l sig slice k :
    tree_decode payload = Ok (l, sig) ->
    letter_ok st pk (tl_recipient_label l) (tl_authorizer_label l) (tl_recipient_label l) (tree_message l pk) sig ->
    (** Only a root restructures alone. *)
    parent_node_label (tl_authorizer_label l) = None ->
    restructure_ok st st' pk l slice ->
    accepted st st' pk KIND_TREE_UPDATE payload (TreeRestructure (tl_tree_label l) (tl_recipient_label l) k (tl_generation l) (length (pt_nodes slice)))
| accepted_proposal payload l sig countersigner row :
    tree_decode payload = Ok (l, sig) ->
    letter_ok st pk (tl_recipient_label l) (tl_authorizer_label l) (tl_recipient_label l) (tree_message l pk) sig ->
    parent_node_label (tl_authorizer_label l) = Some countersigner ->
    pd_proposal row = payload -> pd_countersigner_label row = countersigner ->
    (** It waits; nothing else is written. *)
    st' = set_org (set_ot_pending (ot_pending (st_org st) ++ [row]) (st_org st)) st ->
    accepted st st' pk KIND_TREE_PROPOSAL payload (TreeProposal (tl_tree_label l) (tl_authorizer_label l) countersigner (tl_generation l) 1)
| accepted_countersigned payload countersigner countersig proposal l sig slice k :
    decode_countersigned payload = Ok (countersigner, countersig, proposal) ->
    signed st countersigner (countersign_message proposal countersigner pk) countersig ->
    tree_decode proposal = Ok (l, sig) ->
    letter_ok st pk (tl_recipient_label l) (tl_authorizer_label l) (tl_recipient_label l) (tree_message l pk) sig ->
    parent_node_label (tl_authorizer_label l) = Some countersigner ->
    restructure_ok st st' pk l slice ->
    accepted st st' pk KIND_COUNTERSIGNED_TREE payload (TreeRestructure (tl_tree_label l) (tl_recipient_label l) k (tl_generation l) (length (pt_nodes slice))).

Lemma authorizer_signing_key_Ok label st pk : authorizer_signing_key label st = Ok pk -> exists key, active_keys_for label KeyStore.Signing st = [key] /\ hk_public_key key = pk.
Proof.
  unfold authorizer_signing_key, signing_public_for_label. destruct (active_keys_for _ _ _) as [|key [|]]; [done| |done]. exists key. split; [done|].
  unfold vec_to_32 in H. destruct (_ =? 32); [|done]. simpl in H. destruct (ed25519_key_ok _); [|done]. by injection H.
Qed.

Lemma signed_Ok label st pk (message : result bytes) preimage sig :
  authorizer_signing_key label st = Ok pk -> (m ← message; Ok (sha256 m)) = Ok preimage -> verify_signature pk preimage sig = Ok tt -> signed st label message sig.
Proof.
  intros (key & Ek & <-)%authorizer_signing_key_Ok (m & Em & [= <-])%bind_Ok [_ Hv]%verify_signature_Ok. by exists key, m.
Qed.

Lemma addressed_Ok label pk st u : require_addressed_here label pk st = Ok u -> is_active_key label Encryption pk st = true.
Proof. unfold require_addressed_here. by destruct (is_active_key _ _ _ _). Qed.

Lemma check_reissue_Ok l sig pk st u : check_reissue l sig pk st = Ok u ->
  letter_ok st pk (rl_recipient_label l) (rl_authorizer_label l) (rl_subject_label l) (reissue_message l pk) sig /\
  exists last, last_sequence KeyReissueKind (rl_tree_label l) (rl_subject_label l) st = Ok last /\ rl_sequence l = u32_succ last.
Proof.
  unfold check_reissue. intros (? & Ha%addressed_Ok & H)%bind_Ok. destruct (is_ancestor_or_self _ _) eqn:Ea; [|done]. cbn [negb] in H.
  apply bind_Ok in H as (apk & Ek & (pre & Ep & ([] & Ev & (last & El & H)%bind_Ok)%bind_Ok)%bind_Ok).
  destruct (N.eqb_spec (rl_sequence l) (u32_succ last)) as [Es|]; [|done]. split; [|by exists last]. split; [done|done|]. by eapply signed_Ok.
Qed.

Lemma verify_tree_letter_Ok l sig pk st u : verify_tree_letter l sig pk st = Ok u ->
  letter_ok st pk (tl_recipient_label l) (tl_authorizer_label l) (tl_recipient_label l) (tree_message l pk) sig.
Proof.
  unfold verify_tree_letter. intros (? & Ha%addressed_Ok & H)%bind_Ok. destruct (is_ancestor_or_self _ _) eqn:Ea; [|done]. cbn [negb] in H.
  apply bind_Ok in H as (apk & Ek & (pre & Ep & Ev)%bind_Ok). destruct u. split; [done|done|]. by eapply signed_Ok.
Qed.

Lemma newer_Ok l st o : newer_than_stored l st = Ok o ->
  (o = fst <$> tree_by_label (tl_tree_label l) st) /\ forall id stored, tree_by_label (tl_tree_label l) st = Some (id, stored) -> (stored < tl_generation l)%N.
Proof.
  unfold newer_than_stored. destruct (tree_by_label _ st) as [[id g]|]; [|by intros [= <-]].
  destruct (N.leb_spec (tl_generation l) g); [done|]. intros [= <-]. split; [done|]. by intros ? ? [= <- <-].
Qed.

(** What happens before the log is written does not touch it. *)
Lemma grows_after st st1 st' kind tree subject s a : same_log st st1 -> grows st1 st' kind tree subject s a -> grows st st' kind tree subject s a.
Proof. unfold same_log, grows. intros E. by rewrite E. Qed.

Lemma same_org_log st st' : same_org st st' -> same_log st st'.
Proof. unfold same_org, same_log. congruence. Qed.

Lemma apply_reissue_Ok l st u st' : apply_reissue l st = (Ok u, st') ->
  grows st st' KeyReissueKind (rl_tree_label l) (rl_subject_label l) (rl_sequence l) (rl_authorizer_label l) /\
  u = KeyReissue (rl_tree_label l) (rl_subject_label l) (rl_recipient_label l) (rl_sequence l) (is_some (rl_new_encryption l)) (is_some (rl_new_signing l)).
Proof.
  unfold apply_reissue. intros (scope & ? & [_ ->]%query_Ok & H)%dbM_bind_Ok. apply dbM_bind_Ok in H as ([] & st1 & E1 & H).
  apply dbM_bind_Ok in H as ([] & st2 & E2 & H). apply dbM_bind_Ok in H as ([] & st3 & [HG _]%record_update_Ok & [= <- <-]).
  split; [|done]. eapply grows_after; [|done]. apply same_org_log. transitivity st1.
  - eapply respects_run; [exact E1|]. frame.
  - eapply respects_run; [exact E2|]. frame.
Qed.

Lemma restructured_Ok l slice st st' : restructured l slice st = (Ok tt, st') ->
  grows st st' TreeKind (tl_tree_label l) (tl_tree_label l) (tl_generation l) (tl_authorizer_label l).
Proof. by intros [HG _]%record_update_Ok. Qed.

Lemma import_tree_update_Ok payload pk st u st' : import_tree_update payload pk st = (Ok u, st') ->
  exists l sig slice k existing st1, tree_decode payload = Ok (l, sig) /\ verify_tree_letter l sig pk st = Ok tt /\ restructure_countersigner (tl_authorizer_label l) = None /\
    letter_slice l pk = Ok slice /\ newer_than_stored l st = Ok existing /\ apply_public_tree_nested existing slice st = (Ok k, st1) /\
    restructured l slice st1 = (Ok tt, st') /\ u = TreeRestructure (tl_tree_label l) (tl_recipient_label l) k (tl_generation l) (length (pt_nodes slice)).
Proof.
  unfold import_tree_update. intros ([l sig] & ? & [Ed ->]%db_try_Ok & H)%dbM_bind_Ok. cbv zeta in H. apply dbM_bind_Ok in H as ([] & ? & [Ev ->]%query_Ok & H).
  destruct (restructure_countersigner _) eqn:Ec; [discriminate|]. cbn [is_some] in H. apply dbM_bind_Ok in H as (slice & ? & [Es ->]%db_try_Ok & H).
  apply dbM_bind_Ok in H as (existing & ? & [En ->]%query_Ok & H). apply dbM_bind_Ok in H as (k & st2 & HT%transaction_Ok & [= <- <-]).
  apply dbM_bind_Ok in HT as (k' & st1 & EA & HT). apply dbM_bind_Ok in HT as ([] & st3 & ER & [= -> ->]). by exists l, sig, slice, k, existing, st1.
Qed.

Lemma apply_tree_letter_Ok l pk proposal st u st' : apply_tree_letter l pk proposal st = (Ok u, st') ->
  exists slice k existing st1 st2, letter_slice l pk = Ok slice /\ newer_than_stored l st = Ok existing /\ apply_public_tree_nested existing slice st = (Ok k, st1) /\
    delete_pending (fun row => bool_decide (pd_proposal_hash row = sha256 proposal)) st1 = (Ok tt, st2) /\
    restructured l slice st2 = (Ok tt, st') /\ u = TreeRestructure (tl_tree_label l) (tl_recipient_label l) k (tl_generation l) (length (pt_nodes slice)).
Proof.
  unfold apply_tree_letter. intros (slice & ? & [Es ->]%db_try_Ok & H)%dbM_bind_Ok. apply dbM_bind_Ok in H as (existing & ? & [En ->]%query_Ok & H).
  apply dbM_bind_Ok in H as (k & st2 & HT%transaction_Ok & [= <- <-]).
  apply dbM_bind_Ok in HT as (k' & st1 & EA & HT). apply dbM_bind_Ok in HT as ([] & st3 & ED & HT). apply dbM_bind_Ok in HT as ([] & st4 & ER & [= -> ->]).
  by exists slice, k, existing, st1, st3.
Qed.

Lemma check_countersigned_Ok payload pk st l proposal : check_countersigned payload pk st = Ok (l, proposal) ->
  exists countersigner countersig sig, decode_countersigned payload = Ok (countersigner, countersig, proposal) /\
    signed st countersigner (countersign_message proposal countersigner pk) countersig /\ tree_decode proposal = Ok (l, sig) /\
    restructure_countersigner (tl_authorizer_label l) = Some countersigner /\ verify_tree_letter l sig pk st = Ok tt.
Proof.
  unfold check_countersigned. intros ([[c csig] inner] & Ed & (pre & Ep & (cpk & Ek & ([] & Ev & ([l' sig] & El & H)%bind_Ok)%bind_Ok)%bind_Ok)%bind_Ok)%bind_Ok.
  case_bool_decide as Ec; [|done]. cbn [negb] in H. apply bind_Ok in H as ([] & Hv & [= <- <-]). exists c, csig, sig.
  split; [done|]. split; [by eapply signed_Ok|done].
Qed.

Lemma restructure_applied l pk slice existing st k st1 st2 st' :
  letter_slice l pk = Ok slice -> newer_than_stored l st = Ok existing -> apply_public_tree_nested existing slice st = (Ok k, st1) -> same_log st1 st2 ->
  restructured l slice st2 = (Ok tt, st') -> restructure_ok st st' pk l slice.
Proof.
  intros Es [_ Hn]%newer_Ok EA HL HG%restructured_Ok. split; [done|done|]. eapply grows_after; [|exact HG]. transitivity st1; [|done].
  apply same_org_log. eapply respects_run; [exact EA|]. frame.
Qed.

Lemma insert_pending_Ok key_id tree authorizer countersigner generation proposal st st' :
  insert_pending key_id tree authorizer countersigner generation proposal st = (Ok tt, st') ->
  exists row, pd_proposal row = proposal /\ pd_countersigner_label row = countersigner /\ pd_key_id row = key_id /\
    st' = set_org (set_ot_pending (ot_pending (st_org st) ++ [row]) (st_org st)) st.
Proof. unfold insert_pending. destruct (_ || _); [discriminate|]. intros [= <-]. eexists. split_and!; [..|reflexivity]; done. Qed.

Lemma import_tree_proposal_Ok payload pk st u st' : import_tree_proposal payload pk st = (Ok u, st') -> accepted st st' pk KIND_TREE_PROPOSAL payload u.
Proof.
  unfold import_tree_proposal. intros ([l sig] & ? & [Ed ->]%db_try_Ok & H)%dbM_bind_Ok. cbv zeta in H. apply dbM_bind_Ok in H as ([] & ? & [Ev%verify_tree_letter_Ok ->]%query_Ok & H).
  apply dbM_bind_Ok in H as (c & ? & [Ec%ok_or_Ok ->]%db_try_Ok & H). apply dbM_bind_Ok in H as (existing & ? & [En ->]%query_Ok & H).
  apply dbM_bind_Ok in H as ([] & st2 & (row & Ep & Er & _ & ->)%insert_pending_Ok & [= <- <-]). by eapply accepted_proposal.
Qed.

Lemma u32_succ_unwrapped last : (last < u32_max)%N -> u32_succ last <> 0%N -> u32_succ last = (last + 1)%N.
Proof.
  unfold u32_succ. intros Hl Hn. destruct (decide (last + 1 = u32_max)%N) as [E|E]; [|apply N.mod_small; lia].
  destruct Hn. rewrite E. by apply N.Div0.mod_same.
Qed.

Lemma last_sequence_bound kind tree subject st last : last_sequence kind tree subject st = Ok last -> (last < u32_max)%N.
Proof. unfold last_sequence. destruct (N.ltb_spec (max_N (map up_sequence (filter (fun row => logged kind tree subject row = true) (ot_updates (st_org st))))) u32_max); naive_solver. Qed.

Lemma import_reissue_Ok payload pk st u st' : import_reissue payload pk st = (Ok u, st') ->
  exists l sig, reissue_decode payload = Ok (l, sig) /\ check_reissue l sig pk st = Ok tt /\ apply_reissue l st = (Ok u, st').
Proof.
  unfold import_reissue. intros ([l sig] & ? & [Ed ->]%db_try_Ok & H)%dbM_bind_Ok. apply dbM_bind_Ok in H as ([] & ? & [Ev ->]%query_Ok & H%transaction_Ok).
  by exists l, sig.
Qed.

Lemma dispatch_accepted kind payload pk st u st' : dispatch_update kind payload pk st = (Ok u, st') -> accepted st st' pk kind payload u.
Proof.
  unfold dispatch_update. repeat case_bool_decide; subst; [..|discriminate].
  - intros (l & sig & Ed & (Hl & last & El & Es)%check_reissue_Ok & [HG ->]%apply_reissue_Ok)%import_reissue_Ok.
    eapply accepted_reissue; try done. rewrite Es. apply u32_succ_unwrapped; [by eapply last_sequence_bound|]. rewrite <- Es. by destruct HG as (? & ? & ? & ? & ? & ? & ? & _).
  - intros (l & sig & slice & k & existing & st1 & Ed & Ev%verify_tree_letter_Ok & Ec & Es & En & EA & ER & ->)%import_tree_update_Ok.
    eapply accepted_tree; try done. by eapply restructure_applied.
  - apply import_tree_proposal_Ok.
  - unfold import_countersigned_tree. intros ([l proposal] & ? & [Ec ->]%query_Ok & Hrun)%dbM_bind_Ok. apply check_countersigned_Ok in Ec as (c & csig & sig & Ed & Hs & El & Ec & Ev%verify_tree_letter_Ok).
    apply apply_tree_letter_Ok in Hrun as (slice & k & existing & st1 & st2 & Es & En & EA & ED & ER & ->). eapply accepted_countersigned; try done.
    apply (restructure_applied l pk slice existing st k st1 st2); try done. by revert ED; intros [= <-].
Qed.

Lemma insert_pending_atomic key_id tree authorizer countersigner generation proposal : atomic (insert_pending key_id tree authorizer countersigner generation proposal).
Proof. intros st e st'. unfold insert_pending. destruct (_ || _); [by intros [= _ <-]|discriminate]. Qed.
#[local] Hint Resolve insert_pending_atomic : atomic.

Lemma import_update_atomic data sk : atomic (import_update data sk).
Proof.
  unfold import_update, dispatch_update, import_reissue, import_tree_update, import_tree_proposal, import_countersigned_tree, apply_tree_letter. atomic.
Qed.

Lemma import_update_Ok data sk st u st' : import_update data sk st = (Ok u, st') ->
  exists kind payload, open_as PACKAGE data sk = Ok (kind, box_public sk, payload) /\ accepted st st' (box_public sk) kind payload u.
Proof.
  unfold import_update. intros ([[kind pk] payload] & ? & [Eo ->]%db_try_Ok & H)%dbM_bind_Ok. case_bool_decide as Ep; [|discriminate]. subst pk. cbn [negb] in H.
  exists kind, payload. split; [done|]. by apply dispatch_accepted.
Qed.

(** C28: Nothing an update envelope carries is written unless this store's own
    registry backs it. Whatever the bytes, an import either changes nothing, or
    the envelope was sealed to the importer's key and is one of four letters: a
    reissue signed by the subject or an ancestor of it, exactly one past the last
    reissue logged; a restructure signed by a root; a restructure proposal, which
    only waits; or a proposal countersigned by the parent of its author. In every
    case the recipient named is this store's under the very key addressed, the
    signatures verify under the one active signing key of their label, a
    restructure is newer than the tree stored, and the log grows by that update. *)
Theorem import_update_authorised data sk st :
  match import_update data sk st with
  | (Ok u, st') => exists kind payload, open_as PACKAGE data sk = Ok (kind, box_public sk, payload) /\ accepted st st' (box_public sk) kind payload u
  | (Err _, st') => st' = st
  end.
Proof.
  destruct (import_update data sk st) as [[u|e] st'] eqn:E; [by apply import_update_Ok|by eapply import_update_atomic].
Qed.

(** ** What is planned *)

Record plan_ok (st : Store) (subject : bytes) (new_enc new_sig : option bytes) (authorizer sk : bytes) : Prop := {
  pk_named : subject <> [] /\ authorizer <> [] /\ (new_enc <> None \/ new_sig <> None);
  pk_ancestor : is_ancestor_or_self authorizer subject = true;
  pk_strong pk : new_enc = Some pk -> is_weak_x25519_public_key pk = false;
  pk_point pk : new_sig = Some pk -> ed25519_key_ok pk = true;
  pk_registered : signing_public_for_label authorizer st = Ok (public_key sk);
}.

Lemma plan_key_reissue_Ok rnd key_id subject new_enc new_sig revoke_previous authorizer sk st p :
  plan_key_reissue rnd key_id subject new_enc new_sig revoke_previous authorizer sk st = Ok p ->
  exists tree last recipients, plan_ok st subject new_enc new_sig authorizer sk /\
    match key_id with Some id => tree_label id st | None => Ok [] end = Ok tree /\ last_sequence KeyReissueKind tree subject st = Ok last /\
    pr_letter p = {| rl_tree_label := tree; rl_subject_label := subject; rl_sequence := u32_succ last; rl_recipient_label := [];
                     rl_authorizer_label := authorizer; rl_new_encryption := new_enc; rl_new_signing := new_sig; rl_revoke_previous := revoke_previous;
                     rl_previous_encryption := current_fingerprint subject Encryption st;
                     rl_previous_signing := current_fingerprint subject KeyStore.Signing st |} /\
    reissue_recipients key_id subject st = Ok recipients /\ traverse (reissue_package rnd (pr_letter p) sk) recipients = Ok (pr_packages p).
Proof.
  unfold plan_key_reissue. destruct (_ || _) eqn:B1; [discriminate|]. destruct (negb (is_some _) && _) eqn:B2; [discriminate|].
  destruct (negb (is_ancestor_or_self _ _)) eqn:B3; [discriminate|]. destruct (match new_enc with Some _ => _ | None => _ end) eqn:B4; [discriminate|].
  destruct (match new_sig with Some _ => _ | None => _ end) eqn:B5; [discriminate|]. intros (registered & ER & H)%bind_Ok.
  case_bool_decide as Er; [|discriminate]. subst registered. cbn [negb] in H.
  apply bind_Ok in H as (tree & Et & (last & El & (recipients & Erc & (packages & Ep & [= <-])%bind_Ok)%bind_Ok)%bind_Ok).
  exists tree, last, recipients. split; [|done]. apply orb_false_iff in B1 as [?%bool_decide_eq_false ?%bool_decide_eq_false]. split.
  - split; [done|]. split; [done|]. destruct new_enc, new_sig; simpl in B2; naive_solver.
  - by apply negb_false_iff.
  - by intros pk ->.
  - intros pk ->. by apply negb_false_iff.
  - done.
Qed.
End accept.
