(* ===== verification/OrgLog.v ===== *)
(** * The log of updates over any run

    The log only grows, its reissues are numbered without a gap, and an update
    applied once is never applied again. *)

From stdpp Require Import gmap.
From S2P Require Import Prelude Text Crypto BTree Envelope HistoryCodec Authority Signing Policy BridgeProof Pss Visibility Tables KeyStore KeyTree Combinations Reconstruct SplitTree BridgePackage PrivateBridge BridgeRoster BridgeLaws BridgeSafety TreeOps TreeLaws TreeSync TreeSyncLaws TreeView OrgLetters OrgUpdate OrgUpdateLaws.

Definition log_of (kind : UpdateKind) (tree subject : bytes) (st : Store) : list N :=
  map up_sequence (filter (fun row => logged kind tree subject row = true) (ot_updates (st_org st))).

(** The reissues of one subject under one tree are numbered 1, 2, 3 .. as they were
    applied; no update is there twice; row ids are distinct. *)
Record log_ok (st : Store) : Prop := {
  lo_contiguous tree subject : log_of KeyReissueKind tree subject st = map N.of_nat (seq 1 (length (log_of KeyReissueKind tree subject st)));
  lo_unique kind tree subject : NoDup (log_of kind tree subject st);
  lo_positive kind tree subject : Forall (fun s => s <> 0%N) (log_of kind tree subject st);
  lo_ids : NoDup (map up_id (ot_updates (st_org st)));
}.

Lemma max_N_seq n : max_N (map N.of_nat (seq 1 n)) = N.of_nat n.
Proof.
  induction n as [|n IH]; [done|]. rewrite seq_S, map_app. unfold max_N in *. rewrite foldr_app. simpl.
  assert (forall l m, foldr N.max m l = N.max (foldr N.max 0%N l) m) as Hm.
  { induction l as [|x l IHl]; intros m; simpl; [lia|]. rewrite IHl. lia. }
  rewrite Hm, IH. lia.
Qed.

Lemma last_sequence_log tree subject st last : log_ok st -> last_sequence KeyReissueKind tree subject st = Ok last ->
  last = N.of_nat (length (log_of KeyReissueKind tree subject st)).
Proof.
  intros HL. unfold last_sequence. fold (log_of KeyReissueKind tree subject st).
  assert (max_N (log_of KeyReissueKind tree subject st) = N.of_nat (length (log_of KeyReissueKind tree subject st))) as ->.
  { pose proof (lo_contiguous st HL tree subject) as E. set (n := length (log_of KeyReissueKind tree subject st)) in *. rewrite E. apply max_N_seq. }
  destruct (_ <? _)%N; [|done]. by intros [= <-].
Qed.

Lemma log_of_grows st st' kind tree subject s a kind' tree' subject' : grows st st' kind tree subject s a ->
  log_of kind' tree' subject' st' =
  log_of kind' tree' subject' st ++ (if bool_decide (kind' = kind /\ tree' = tree /\ subject' = subject) then [s] else []).
Proof.
  intros (row & E & HR & <- & _). unfold log_of. rewrite E, filter_app, map_app. f_equal. apply logged_spec in HR as (E1 & E2 & E3).
  case_bool_decide as B.
  - destruct B as (-> & -> & ->). rewrite filter_cons_True; [done|]. by apply logged_spec.
  - rewrite filter_cons_False; [done|]. rewrite logged_spec. naive_solver.
Qed.

Lemma grows_fresh st st' kind tree subject s a : grows st st' kind tree subject s a -> s ∉ log_of kind tree subject st.
Proof.
  intros (row & E & _ & _ & _ & _ & _ & Hf) (old & -> & [Hl Ho]%list_elem_of_filter)%list_elem_of_fmap. by apply (Hf old).
Qed.

Lemma grows_nonzero st st' kind tree subject s a : grows st st' kind tree subject s a -> s <> 0%N.
Proof. by intros (row & _ & _ & _ & _ & _ & ? & _). Qed.

(** A reissue in turn, or an update of another kind, keeps the log in order. *)
Lemma grows_log_ok st st' kind tree subject s a :
  log_ok st -> grows st st' kind tree subject s a -> (kind = KeyReissueKind -> s = N.of_nat (S (length (log_of kind tree subject st)))) -> log_ok st'.
Proof.
  intros [H1 H2 H3 H4] HG Hs. split.
  - intros t sj. rewrite (log_of_grows _ _ _ _ _ _ _ _ t sj HG). case_bool_decide as B; [|rewrite app_nil_r; apply H1].
    destruct B as (<- & -> & ->). rewrite length_app. cbn [length]. rewrite Nat.add_1_r, seq_S, map_app, <- H1. simpl. by rewrite Hs.
  - intros k t sj. rewrite (log_of_grows _ _ _ _ _ _ _ _ _ _ HG). case_bool_decide as B; [|rewrite app_nil_r; apply H2]. destruct B as (-> & -> & ->).
    apply NoDup_app. split; [apply H2|]. split; [|apply NoDup_singleton]. intros x Hx ->%list_elem_of_singleton. by apply grows_fresh in HG.
  - intros k t sj. rewrite (log_of_grows _ _ _ _ _ _ _ _ _ _ HG). apply Forall_app. split; [apply H3|]. case_bool_decide; [|constructor].
    apply Forall_singleton. by apply grows_nonzero in HG.
  - destruct HG as (row & -> & _ & _ & _ & Ei & _). rewrite map_app. apply NoDup_app. split; [done|]. split; [|apply NoDup_singleton].
    intros x Hx ->%list_elem_of_singleton. rewrite Ei in Hx. revert Hx. rewrite list_elem_of_fmap. intros (r & E & Hr). by apply (next_id_fresh up_id) in Hr.
Qed.

Lemma same_log_ok st st' : same_log st st' -> log_ok st -> log_ok st'.
Proof. intros E [H1 H2 H3 H4]. split; unfold log_of in *; by rewrite E. Qed.

(** ** Runs *)

(** A store and the reissues planned on it that were not discarded. *)
Record Sys := { sy_store : Store; sy_planned : list PlannedKeyReissue }.

Section runs.
Context `{C : Crypto} `{HX : Hex} `{HD : HexDecode} `{J : TreeJson}.

Inductive org_step : Sys -> Sys -> Prop :=
| step_import rnd data sk st planned r st' :
    import_any rnd data sk st = (r, st') -> org_step {| sy_store := st; sy_planned := planned |} {| sy_store := st'; sy_planned := planned |}
| step_plan rnd key_id subject new_enc new_sig revoke_previous authorizer sk st planned p :
    plan_key_reissue rnd key_id subject new_enc new_sig revoke_previous authorizer sk st = Ok p ->
    org_step {| sy_store := st; sy_planned := planned |} {| sy_store := st; sy_planned := p :: planned |}
(** A plan may be committed late, twice or never. *)
| step_commit p st planned r st' :
    p ∈ planned -> commit_planned_key_reissue p st = (r, st') -> org_step {| sy_store := st; sy_planned := planned |} {| sy_store := st'; sy_planned := planned |}
| step_restructure p st planned r st' :
    commit_planned_tree_restructure p st = (r, st') -> org_step {| sy_store := st; sy_planned := planned |} {| sy_store := st'; sy_planned := planned |}
| step_countersign p st planned r st' :
    commit_planned_countersign p st = (r, st') -> org_step {| sy_store := st; sy_planned := planned |} {| sy_store := st'; sy_planned := planned |}
(** Everything else the program does to the store. *)
| step_elsewhere st planned st' :
    same_org st st' -> org_step {| sy_store := st; sy_planned := planned |} {| sy_store := st'; sy_planned := planned |}.

Definition log_prefix (st st' : Store) : Prop := ot_updates (st_org st) `prefix_of` ot_updates (st_org st').
#[export] Instance log_prefix_preorder : PreOrder log_prefix.
Proof. split; unfold log_prefix; [by intros st|]. intros ???. apply transitivity. Qed.

Lemma same_log_prefix st st' : same_log st st' -> log_prefix st st'.
Proof. unfold same_log, log_prefix. by intros ->. Qed.
Lemma grows_prefix st st' kind tree subject s a : grows st st' kind tree subject s a -> log_prefix st st'.
Proof. intros (row & E & _). unfold log_prefix. rewrite E. by apply prefix_app_r. Qed.

(** How a step of the program moves the log: not at all, by one reissue in turn, or by one restructure. *)
Inductive log_moves (st st' : Store) : Prop :=
| log_still : same_log st st' -> log_moves st st'
| log_reissue tree subject s a : grows st st' KeyReissueKind tree subject s a ->
    s = N.of_nat (S (length (log_of KeyReissueKind tree subject st))) -> log_moves st st'
| log_tree tree subject s a : grows st st' TreeKind tree subject s a -> log_moves st st'.

Lemma log_moves_ok st st' : log_moves st st' -> log_ok st -> log_ok st' /\ log_prefix st st'.
Proof.
  intros [HS|tree subject s a HG Es|tree subject s a HG] HL.
  - split; [by eapply same_log_ok|by apply same_log_prefix].
  - split; [by eapply grows_log_ok|by eapply grows_prefix].
  - split; [by eapply grows_log_ok|by eapply grows_prefix].
Qed.

Lemma accepted_moves st st' pk kind payload u : log_ok st -> accepted st st' pk kind payload u -> log_moves st st'.
Proof.
  intros HL [? l sig last Ed Hl El Es HG|? ? ? ? ? ? ? ? [_ _ HG]|? ? ? ? ? ? ? ? ? ? ->|? ? ? ? ? ? ? ? ? ? ? ? ? [_ _ HG]].
  - eapply log_reissue; [exact HG|]. rewrite Es, (last_sequence_log _ _ _ _ HL El). lia.
  - by eapply log_tree.
  - by apply log_still.
  - by eapply log_tree.
Qed.

Lemma import_update_moves data sk st r st' : log_ok st -> import_update data sk st = (r, st') -> log_moves st st'.
Proof.
  intros HL E. destruct r as [u|e].
  - apply import_update_Ok in E as (kind & payload & _ & HA). by eapply accepted_moves.
  - apply import_update_atomic in E as ->. by apply log_still.
Qed.

(** Bridge envelopes leave both tables alone. *)
Lemma org_insert_bridge row : respects same_org (insert_bridge row).
Proof. intros st r st'. unfold insert_bridge. destruct (_ || _); by intros [= _ <-]. Qed.
Lemma org_insert_party row : respects same_org (insert_party row).
Proof. intros st r st'. unfold insert_party. destruct (_ || _); by intros [= _ <-]. Qed.
Lemma org_insert_sealed row : respects same_org (insert_sealed row).
Proof. intros st r st'. unfold insert_sealed. destruct (_ || _); by intros [= _ <-]. Qed.
Lemma org_insert_event b e d : respects same_org (insert_event b e d).
Proof. intros st r st'. unfold insert_event. destruct (negb _); by intros [= _ <-]. Qed.
Lemma org_update_bridges P g : respects same_org (update_bridges P g).
Proof. intros st r st'. unfold update_bridges. by intros [= _ <-]. Qed.
#[local] Hint Resolve org_insert_bridge org_insert_party org_insert_sealed org_insert_event org_update_bridges org_on_private : frame.
Lemma org_import_package rnd data sk : respects same_org (import_package rnd data sk).
Proof.
  unfold import_package, apply_package, insert_from_invite, apply_rotate, apply_destroy, replace_roster_and_secret, insert_member_parties, insert_supervisor_parties, delete_parties, delete_sealed.
  frame.
Qed.

Lemma import_any_moves rnd data sk st r st' : log_ok st -> import_any rnd data sk st = (r, st') -> log_moves st st'.
Proof.
  intros HL. unfold import_any, mbind, dbM_bind, db_try. destruct (Envelope.kind data) as [k|e]; [|intros [= _ <-]; by apply log_still].
  destruct (is_update_kind k).
  - destruct (import_update data sk st) as [r' st1] eqn:E. intros HR. assert (st' = st1) as -> by (destruct r'; by injection HR). by eapply import_update_moves.
  - destruct (import_package rnd data sk st) as [r' st1] eqn:E. intros HR. assert (st' = st1) as -> by (destruct r'; by injection HR).
    apply log_still, same_org_log. eapply respects_run; [exact E|]. apply org_import_package.
Qed.

Lemma log_insert_pending key_id tree authorizer countersigner generation proposal :
  respects same_log (insert_pending key_id tree authorizer countersigner generation proposal).
Proof. intros st r st'. unfold insert_pending. destruct (_ || _); by intros [= _ <-]. Qed.
Lemma log_delete_pending P : respects same_log (delete_pending P).
Proof. by intros st r st' [= _ <-]. Qed.
Lemma log_advance key_id generation previous : respects same_log (advance_generation key_id generation previous).
Proof. intros st r st'. unfold advance_generation. destruct (_ && _); by intros [= _ <-]. Qed.

Lemma commit_restructure_moves p st r st' : commit_planned_tree_restructure p st = (r, st') -> log_moves st st'.
Proof.
  unfold commit_planned_tree_restructure. destruct (ptr_needs_countersign p).
  - intros E. apply log_still. eapply respects_run; [exact E|]. apply respects_bind; [apply _|frame|]. intros c.
    apply respects_transaction; [apply _|]. apply respects_bind; [apply _| |frame]. apply respects_each; [apply _|]. intros proposal. apply log_insert_pending.
  - destruct r as [u|e]; [intros H%transaction_Ok|intros ->%transaction_Err; by apply log_still].
    apply dbM_bind_Ok in H as (n & st1 & EA & H). destruct (negb _); [discriminate|]. apply dbM_bind_Ok in H as (nodes & ? & [_ ->]%query_Ok & H).
    apply dbM_bind_Ok in H as ([] & st2 & [HG _]%record_update_Ok & [= <- <-]). eapply log_tree, grows_after; [|exact HG].
    eapply respects_run; [exact EA|]. apply log_advance.
Qed.

Lemma commit_countersign_moves p st r st' : commit_planned_countersign p st = (r, st') -> log_moves st st'.
Proof.
  unfold commit_planned_countersign. destruct r as [u|e]; [intros H%transaction_Ok|intros ->%transaction_Err; by apply log_still].
  apply dbM_bind_Ok in H as (n & st1 & EA & H). destruct (negb _); [discriminate|]. apply dbM_bind_Ok in H as ([] & st2 & ED & H).
  apply dbM_bind_Ok in H as (nodes & ? & [_ ->]%query_Ok & H). apply dbM_bind_Ok in H as ([] & st3 & [HG _]%record_update_Ok & [= <- <-]).
  eapply log_tree, grows_after; [|exact HG]. transitivity st1.
  - eapply respects_run; [exact EA|]. apply log_advance.
  - eapply respects_run; [exact ED|]. apply log_delete_pending.
Qed.

(** A planned reissue is one past some prefix of the log. *)
Definition behind (st : Store) (p : PlannedKeyReissue) : Prop :=
  exists last, rl_sequence (pr_letter p) = u32_succ last /\ (last < u32_max)%N /\
    (last <= N.of_nat (length (log_of KeyReissueKind (rl_tree_label (pr_letter p)) (rl_subject_label (pr_letter p)) st)))%N.

Lemma planned_behind rnd key_id subject new_enc new_sig revoke_previous authorizer sk st p :
  log_ok st -> plan_key_reissue rnd key_id subject new_enc new_sig revoke_previous authorizer sk st = Ok p -> behind st p.
Proof.
  intros HL (tree & last & recipients & _ & _ & El & E & _)%plan_key_reissue_Ok. exists last. rewrite E. simpl.
  split; [done|]. split; [by eapply last_sequence_bound|]. by rewrite (last_sequence_log _ _ _ _ HL El).
Qed.

Lemma log_prefix_of st st' kind tree subject : log_prefix st st' -> log_of kind tree subject st `prefix_of` log_of kind tree subject st'.
Proof. intros [rest E]. unfold log_of. rewrite E, filter_app, map_app. by apply prefix_app_r. Qed.

Lemma behind_later st st' p : log_prefix st st' -> behind st p -> behind st' p.
Proof.
  intros HP (last & Es & Hb & Hl). exists last. split; [done|]. split; [done|]. etransitivity; [exact Hl|].
  apply N.add_le_mono_r with (p := 0%N). pose proof (prefix_length _ _ (log_prefix_of st st' KeyReissueKind (rl_tree_label (pr_letter p)) (rl_subject_label (pr_letter p)) HP)). lia.
Qed.

Lemma commit_reissue_moves p st r st' : log_ok st -> behind st p -> commit_planned_key_reissue p st = (r, st') -> log_moves st st'.
Proof.
  intros HL (last & Es & Hb & Hle) E. unfold commit_planned_key_reissue in E. destruct r as [u|e]; [|apply transaction_Err in E as ->; by apply log_still].
  apply transaction_Ok, apply_reissue_Ok in E as [HG _]. eapply log_reissue; [exact HG|].
  pose proof (grows_nonzero _ _ _ _ _ _ _ HG) as Hn. pose proof (grows_fresh _ _ _ _ _ _ _ HG) as Hf. rewrite Es in *.
  rewrite u32_succ_unwrapped in * by done. set (log := log_of _ _ _ st) in *. destruct (decide (last = N.of_nat (length log))) as [->|Hne]; [lia|]. destruct Hf.
  unfold log. rewrite (lo_contiguous st HL). fold log. apply list_elem_of_fmap. exists (N.to_nat (last + 1)). split; [lia|].
  apply list_elem_of_In, in_seq. lia.
Qed.

Definition sys_ok (s : Sys) : Prop := log_ok (sy_store s) /\ forall p, p ∈ sy_planned s -> behind (sy_store s) p.

Lemma org_step_ok s s' : org_step s s' -> sys_ok s -> sys_ok s' /\ log_prefix (sy_store s) (sy_store s').
Proof.
  assert (forall st st' planned, log_moves st st' -> sys_ok {| sy_store := st; sy_planned := planned |} ->
    sys_ok {| sy_store := st'; sy_planned := planned |} /\ log_prefix st st') as Hmove.
  { intros st st' planned HM [HL HB]. destruct (log_moves_ok st st' HM HL) as [HL' HP]. split; [|done]. split; [done|]. intros p Hp. eapply behind_later; [done|]. by apply HB. }
  intros [rnd data sk st planned r st' E|rnd k sj ne ns rp au sk st planned p E|p st planned r st' Hp E|p st planned r st' E|p st planned r st' E|st planned st' E] HS;
    try (apply Hmove; [|done]); destruct HS as [HL HB].
  - by eapply import_any_moves.
  - split; [|done]. split; [done|]. intros q [->|Hq]%elem_of_cons; [by eapply planned_behind|by apply HB].
  - eapply commit_reissue_moves; [done| |done]. by apply HB.
  - by eapply commit_restructure_moves.
  - by eapply commit_countersign_moves.
  - by apply log_still, same_org_log.
Qed.

Lemma org_run_ok s s' : rtc org_step s s' -> sys_ok s -> sys_ok s' /\ log_prefix (sy_store s) (sy_store s').
Proof.
  induction 1 as [s|s s1 s' HS HR IH]; [done|]. intros HI. destruct (org_step_ok s s1 HS HI) as [HI1 HP]. destruct (IH HI1) as [HI' HP'].
  split; [done|]. by transitivity (sy_store s1).
Qed.

(** C29: The log of updates is append-only and its reissues have no gap and no
    repeat. Over any run of imports (bridge envelopes too), plans, commits (late,
    doubled or abandoned) and other operations, starting from a store with an
    empty log: the reissues of each subject under each tree are numbered 1, 2, 3 ..
    in the order they were applied, no update of either kind is there twice, and
    what was in the log at any earlier point is still its beginning. *)
Theorem update_log_sound st planned s s' :
  ot_updates (st_org st) = [] -> planned = [] -> rtc org_step {| sy_store := st; sy_planned := planned |} s -> rtc org_step s s' ->
  log_ok (sy_store s') /\ log_prefix (sy_store s) (sy_store s').
Proof.
  intros HE -> H1 H2. assert (sys_ok {| sy_store := st; sy_planned := [] |}) as H0.
  { split; [|set_solver]. split; unfold log_of; simpl; rewrite HE; by constructor. }
  apply org_run_ok in H1 as [H1 _]; [|done]. by apply org_run_ok in H2 as [[? _] ?].
Qed.

(** An applied update, as the log names it. *)
Lemma accepted_logs st st' pk kind payload u : accepted st st' pk kind payload u -> (forall t a c g n, u <> TreeProposal t a c g n) ->
  exists k t sj s a, grows st st' k t sj s a /\ forall st2 st2' u2, accepted st2 st2' pk kind payload u2 -> exists a', grows st2 st2' k t sj s a'.
Proof.
  intros [? l sig last Ed Hl El Es HG|? l sig ? k Ed Hl Hp [_ _ HG]|? ? ? ? ? ? ? ? ? ? ->|? c csig prop l sig ? k Ed ? El ? ? [_ _ HG]] Hu.
  - exists KeyReissueKind, (rl_tree_label l), (rl_subject_label l), (rl_sequence l), (rl_authorizer_label l). split; [done|].
    intros st2 st2' u2 HA. inversion HA as [? l' ? ? ? ? ? ? HG'| | |]; subst. assert (l' = l) as -> by congruence. eauto.
  - exists TreeKind, (tl_tree_label l), (tl_tree_label l), (tl_generation l), (tl_authorizer_label l). split; [done|].
    intros st2 st2' u2 HA. inversion HA as [|? l' ? ? ? ? ? ? [_ _ HG']| |]; subst. assert (l' = l) as -> by congruence. eauto.
  - by edestruct Hu.
  - exists TreeKind, (tl_tree_label l), (tl_tree_label l), (tl_generation l), (tl_authorizer_label l). split; [done|].
    intros st2 st2' u2 HA. inversion HA as [| | |? ? ? prop0 l' ? ? ? ? ? ? ? ? [_ _ HG']]; subst. assert (prop0 = prop) as -> by congruence. assert (l' = l) as -> by congruence. eauto.
Qed.

(** C30: An update is applied once. After an envelope was imported and applied,
    importing the same bytes again, at any later point of any run, is refused and
    changes nothing. *)
Theorem replay_refused data sk st u st' planned s :
  import_update data sk st = (Ok u, st') -> (forall t a c g n, u <> TreeProposal t a c g n) -> sys_ok {| sy_store := st'; sy_planned := planned |} ->
  rtc org_step {| sy_store := st'; sy_planned := planned |} s -> exists e, import_update data sk (sy_store s) = (Err e, sy_store s).
Proof.
  intros E Hu HI HR. apply import_update_Ok in E as (kind & payload & Eo & HA). apply accepted_logs in HA as (k & t & sj & q & a & HG & Hagain); [|done].
  destruct (org_run_ok _ _ HR HI) as [_ HP]. simpl in HP. destruct (import_update data sk (sy_store s)) as [[u2|e] st2] eqn:E2.
  - apply import_update_Ok in E2 as (kind2 & payload2 & Eo2 & HA2). assert (kind2 = kind /\ payload2 = payload) as [-> ->] by (rewrite Eo in Eo2; by injection Eo2).
    destruct (Hagain _ _ _ HA2) as [a' HG2%grows_fresh]. destruct HG2. apply (elem_of_prefix (log_of k t sj st')); [|by apply log_prefix_of].
    rewrite (log_of_grows _ _ _ _ _ _ _ k t sj HG). rewrite bool_decide_true by done. apply elem_of_app. right. by apply list_elem_of_singleton.
  - apply import_update_atomic in E2 as ->. by exists e.
Qed.

(** The sequence number never wraps. When the log of a subject holds the last
    number a u32 has, every further reissue of it is refused with nothing written:
    a letter of any sequence, and the commit of a plan made there. *)
Theorem reissue_sequence_bounded tree subject st :
  last_sequence KeyReissueKind tree subject st = Ok (u32_max - 1)%N ->
  (forall payload pk l sig, reissue_decode payload = Ok (l, sig) -> rl_tree_label l = tree -> rl_subject_label l = subject ->
     exists e, import_reissue payload pk st = (Err e, st)) /\
  (forall rnd key_id new_enc new_sig revoke_previous authorizer sk p,
     plan_key_reissue rnd key_id subject new_enc new_sig revoke_previous authorizer sk st = Ok p -> rl_tree_label (pr_letter p) = tree ->
     exists e, commit_planned_key_reissue p st = (Err e, st)).
Proof.
  intros HL. assert (u32_succ (u32_max - 1) = 0%N) as Hw by reflexivity. split.
  - intros payload pk l sig Ed <- <-. destruct (import_reissue payload pk st) as [[u|e] st'] eqn:E.
    + apply import_reissue_Ok in E as (l' & sig' & Ed' & (_ & last & El & Es)%check_reissue_Ok & [HG _]%apply_reissue_Ok). simplify_eq.
      apply grows_nonzero in HG. congruence.
    + exists e. f_equal. revert E. unfold import_reissue. intros E. eapply (atomic_try_bind (reissue_decode payload)); [|exact E]. intros ?. atomic.
  - intros rnd key_id ne ns rp authorizer sk p E Et. destruct (commit_planned_key_reissue p st) as [[u|e] st'] eqn:EC.
    + apply transaction_Ok, apply_reissue_Ok in EC as [HG%grows_nonzero _]. destruct HG. apply plan_key_reissue_Ok in E as (t & last & recipients & _ & _ & El & Ep & _).
      rewrite Ep in *. simpl in *. congruence.
    + exists e. by apply transaction_Err in EC as ->.
Qed.
End runs.
