(* ===== verification/OrgDelivery.v ===== *)
(** * What a reissue leaves in the registry *)

From stdpp Require Import gmap.
From S2P Require Import Prelude Text Crypto BTree Envelope HistoryCodec Authority Signing BridgeProof Policy Pss Visibility Tables KeyStore KeyTree Combinations Reconstruct SplitTree BridgePackage PrivateBridge BridgeRoster BridgeLaws BridgeSafety TreeOps TreeLaws TreeSync TreeSyncLaws TreeView OrgLetters OrgUpdate OrgUpdateLaws.

Lemma filter_map_same {A} (P : A -> Prop) `{!forall x, Decision (P x)} (g : A -> A) (l : list A) :
  (forall x, x ∈ l -> P x -> g x = x) -> (forall x, x ∈ l -> ~ P x -> ~ P (g x)) -> filter P (map g l) = filter P l.
Proof.
  induction l as [|x l IH]; intros H1 H2; [done|]. simpl. rewrite !filter_cons. rewrite <- IH; [|intros; apply H1; [by right|done]|intros; apply H2; [by right|done]].
  destruct (decide (P x)) as [Hx|Hx].
  - rewrite (H1 x) by (done || left). by rewrite decide_True.
  - rewrite decide_False by (apply H2; [left|done]). done.
Qed.

Lemma singleton_by {A K} (f : A -> K) (l : list A) (v : K) :
  NoDup (map f l) -> (forall x, x ∈ l -> f x = v) -> (exists x, x ∈ l) -> exists x, l = [x] /\ f x = v.
Proof.
  intros HN Hv [x Hx]. destruct l as [|y l]; [by apply elem_of_nil in Hx|]. exists y. split; [|apply Hv; left]. f_equal. apply list_nil_no_elem. intros z Hz.
  apply NoDup_cons in HN as [HN _]. apply HN. rewrite (Hv y) by left. rewrite <- (Hv z) by (by right). by apply list_elem_of_fmap_2.
Qed.

Record registry_ok (st : Store) : Prop := {
  ro_ids : NoDup (map hk_id (st_hardware st));
  ro_keys : NoDup (map hk_public_key (st_hardware st));
}.

Definition only_hardware (st st' : Store) : Prop := st' = set_hardware (st_hardware st') st.
#[export] Instance only_hardware_preorder : PreOrder only_hardware.
Proof. split; unfold only_hardware; [by intros []|]. intros st1 st2 st3 E1 E2. rewrite E2, E1. done. Qed.

Lemma update_keys_registry P g st st' : (forall k, hk_id (g k) = hk_id k /\ hk_public_key (g k) = hk_public_key k) ->
  update_keys P g st = (Ok tt, st') -> registry_ok st -> registry_ok st'.
Proof.
  intros Hg [= <-] [H1 H2]. assert (forall {B} (f : HardwareKey -> B), (forall k, f (g k) = f k) ->
    map f (map (fun k => if P k then g k else k) (st_hardware st)) = map f (st_hardware st)) as Hm.
  { intros B f Hf. rewrite map_map. apply map_ext. intros k. by destruct (P k). }
  split; simpl; rewrite Hm; try done; intros k; apply Hg.
Qed.

Section rotate.
Context `{C : Crypto} `{HX : Hex}.

Lemma revoke_superseded_spec label kt pk st st' : revoke_superseded label kt pk st = (Ok tt, st') -> registry_ok st ->
  registry_ok st' /\ only_hardware st st' /\
  (forall k, k ∈ active_keys_for label kt st' <-> k ∈ active_keys_for label kt st /\ hk_public_key k = pk) /\
  (forall label' kt', (label', kt') <> (label, kt) -> active_keys_for label' kt' st' = active_keys_for label' kt' st).
Proof.
  intros E HR. assert (registry_ok st') as HR' by (by eapply update_keys_registry; [|exact E|]). injection E as <-. split; [done|]. split; [done|]. split.
  - intros k. unfold active_keys_for. rewrite !list_elem_of_filter. simpl. rewrite list_elem_of_fmap. split.
    + intros [Ha (k0 & -> & Hk0)]. destruct (active_for label kt k0 && _) eqn:E.
      * unfold active_for in Ha. simpl in Ha. by rewrite andb_false_r in Ha.
      * rewrite Ha in E. simpl in E. apply negb_false_iff, bool_decide_eq_true in E. done.
    + intros [[Ha Hk] Ep]. split; [done|]. exists k. split; [|done]. by rewrite Ha, bool_decide_true.
  - intros label' kt' Hne. unfold active_keys_for. simpl. apply filter_map_same.
    + intros k _ Hk. destruct (active_for label kt k) eqn:E; [|done]. exfalso. apply Hne. unfold active_for in *. bool_hyps. congruence.
    + intros k _ Hk. destruct (_ && _); [|done]. unfold active_for. simpl. by rewrite andb_false_r.
Qed.

(** The key [pk] is active under [label] as [id]; nobody else's active keys moved. *)
Record rotated (label : bytes) (kt : KeyType) (pk : bytes) (id : nat) (st st' : Store) : Prop := {
  rt_registry : registry_ok st';
  rt_only : only_hardware st st';
  rt_active : exists key, key ∈ active_keys_for label kt st' /\ hk_public_key key = pk /\ hk_id key = id;
  rt_old k : k ∈ active_keys_for label kt st' -> hk_public_key k <> pk -> k ∈ active_keys_for label kt st;
  rt_kept k : k ∈ active_keys_for label kt st -> k ∈ active_keys_for label kt st';
  rt_others label' kt' : (label', kt') <> (label, kt) -> active_keys_for label' kt' st' = active_keys_for label' kt' st;
}.

Lemma active_elem label kt st k : k ∈ active_keys_for label kt st <-> k ∈ st_hardware st /\ hk_label k = label /\ hk_key_type k = kt /\ hk_revoked k = false.
Proof.
  unfold active_keys_for. rewrite list_elem_of_filter. unfold active_for. rewrite !andb_true_iff, !bool_decide_eq_true, negb_true_iff. tauto.
Qed.

(** A registered key of the subject, revoked or not, ends active. *)
Lemma reactivate_spec key st : registry_ok st -> key ∈ st_hardware st ->
  rotated (hk_label key) (hk_key_type key) (hk_public_key key) (hk_id key) st
    (set_hardware (map (fun k => if bool_decide (hk_id k = hk_id key) then set_revoked false k else k) (st_hardware st)) st).
Proof.
  intros HR Hk. set (st' := set_hardware _ st). set (key' := set_revoked false key).
  assert (forall k, k ∈ st_hardware st -> hk_id k = hk_id key -> k = key) as Hid by (intros k H1 H2; by eapply (NoDup_map_eq hk_id); [apply HR|..]).
  assert (forall k, k ∈ st_hardware st' <-> k = key' \/ (k ∈ st_hardware st /\ hk_id k <> hk_id key)) as Hin.
  { intros k. simpl. rewrite list_elem_of_fmap. split.
    - intros (k0 & -> & Hk0). case_bool_decide as Ei; [|by right]. left. by rewrite (Hid k0).
    - intros [->|[Hk0 Hne]]; [exists key; by rewrite bool_decide_true|]. exists k. by rewrite bool_decide_false. }
  split.
  - by eapply (update_keys_registry (fun k => bool_decide (hk_id k = hk_id key)) (set_revoked false)).
  - done.
  - exists key'. split; [|done]. apply active_elem. split; [|done]. apply Hin. by left.
  - intros k (Hk' & ? & ? & ?)%active_elem Hne. apply active_elem. apply Hin in Hk' as [->|[Hk0 _]]; [by destruct Hne|done].
  - intros k (Hk0 & ? & ? & Er)%active_elem. apply active_elem. split; [|done]. apply Hin. destruct (decide (hk_id k = hk_id key)) as [Ei|]; [left|by right].
    rewrite (Hid k) in Er |- * by done. unfold key', set_revoked. destruct key; simpl in *. by subst.
  - intros label' kt' Hne. unfold active_keys_for. simpl. apply filter_map_same; intros k Hk0 Ha; (case_bool_decide as Ei; [|done]); rewrite (Hid k) in Ha |- * by done.
    + exfalso. apply Hne. unfold active_for in Ha. apply andb_true_iff in Ha as [[<-%bool_decide_eq_true <-%bool_decide_eq_true]%andb_true_iff _]. done.
    + unfold active_for. simpl. intros [[<-%bool_decide_eq_true <-%bool_decide_eq_true]%andb_true_iff _]%andb_true_iff. done.
Qed.

Lemma ok_or_Err {A} (o : option A) e e' : ok_or o e = Err e' -> o = None /\ e' = e.
Proof. destruct o; [done|]. by intros [= <-]. Qed.

Lemma register_key_spec label kt pk st id st' : registry_ok st -> (forall k, k ∈ st_hardware st -> hk_public_key k <> pk) ->
  register_key label kt pk st = (Ok id, st') -> rotated label kt pk id st st'.
Proof.
  intros [H1 H2] Hfresh E. unfold register_key in E. destruct (negb _); [discriminate|]. case_bool_decide; [discriminate|]. injection E as <- <-. split.
  - split; simpl; rewrite map_app; apply NoDup_app; (split; [done|]); (split; [|apply NoDup_singleton]).
    + intros x (k & -> & Hk)%list_elem_of_fmap E%list_elem_of_singleton. simpl in E. by apply (next_id_fresh hk_id) in Hk.
    + intros x (k & -> & Hk)%list_elem_of_fmap E%list_elem_of_singleton. by apply Hfresh in Hk.
  - done.
  - eexists. split; [apply active_elem; split; [apply elem_of_app; right; by apply list_elem_of_singleton|done]|done].
  - intros k (Hk & ?)%active_elem Hne. apply active_elem. split; [|done]. apply elem_of_app in Hk as [?| ->%list_elem_of_singleton]; [done|by destruct Hne].
  - intros k (Hk & ?)%active_elem. apply active_elem. split; [|done]. apply elem_of_app. by left.
  - intros label' kt' Hne. unfold active_keys_for. simpl. rewrite filter_app. rewrite (filter_cons_False _ _ []); [by rewrite app_nil_r|].
    unfold active_for. simpl. intros [[<-%bool_decide_eq_true <-%bool_decide_eq_true]%andb_true_iff _]%andb_true_iff. done.
Qed.

Lemma register_reissued_spec label kt pk st id st' : register_reissued_key label kt pk st = (Ok id, st') -> registry_ok st -> rotated label kt pk id st st'.
Proof.
  intros H HR. unfold register_reissued_key in H. apply dbM_bind_Ok in H as (existing & ? & [[= <-] ->]%query_Ok & H).
  apply dbM_bind_Ok in H as ([] & st1 & E1 & E2). destruct (get_key_by_public_key pk st) as [key|e] eqn:EG.
  - pose proof EG as [Hk Ep%bool_decide_eq_true]%ok_or_Ok%first_row_Some.
    destruct (bool_decide (hk_key_type key = kt)) eqn:Ekt.
    2:{ injection E1 as <-. unfold get_or_register in E2. destruct (negb _); [discriminate|]. rewrite EG, Ekt in E2. discriminate. }
    apply bool_decide_eq_true in Ekt. case_bool_decide as El; [|discriminate]. cbn [negb] in E1. subst pk kt label. pose proof (reactivate_spec key st HR Hk) as HRt.
    set (st2 := set_hardware _ st) in HRt. assert (st1 = st2) as ->.
    { destruct (hk_revoked key) eqn:Er; [by injection E1|]. injection E1 as <-. unfold st2. destruct st as [hw]; simpl in *. unfold set_hardware. simpl. f_equal.
      rewrite <- (map_id hw) at 1. apply map_ext_in. intros k Hin%list_elem_of_In. case_bool_decide as Ei; [|done].
      assert (k = key) as -> by (by eapply (NoDup_map_eq hk_id); [apply HR|..]). destruct key; simpl in *. by subst. }
    destruct (rt_active _ _ _ _ _ _ HRt) as (key' & Ha & Epk & Eid). apply active_elem in Ha as (Hin & _ & Et' & _).
    assert (get_key_by_public_key (hk_public_key key) st2 = Ok key') as EG1.
    { apply ok_or_Ok. rewrite <- Epk. apply first_row_key; [apply (rt_registry _ _ _ _ _ _ HRt)|done]. }
    unfold get_or_register in E2. destruct (negb _); [discriminate|]. rewrite EG1, bool_decide_true in E2 by done. injection E2 as <- <-. by rewrite Eid.
  - injection E1 as <-. unfold get_or_register in E2. destruct (negb _); [discriminate|]. rewrite EG in E2. apply ok_or_Err in EG as [EN ->].
    apply register_key_spec; [done| |done]. intros k Hk. apply (proj1 (first_row_None _ _) EN) in Hk. by apply bool_decide_eq_false in Hk.
Qed.
End rotate.

(** A leaf of the subject in the named tree points at the new key; its share stays only if it did already. *)
Definition reissued_row (subject : bytes) (key_id id : nat) (row : NodeRow) : NodeRow :=
  if bool_decide (nr_label row = subject /\ is_Some (nr_hardware row) /\ nr_key row = key_id)
  then {| nr_id := nr_id row; nr_key := nr_key row; nr_parent := nr_parent row; nr_label := nr_label row; nr_threshold := nr_threshold row;
          nr_hardware := Some id; nr_share := if bool_decide (nr_hardware row = Some id) then nr_share row else None; nr_active := nr_active row |}
  else row.

(** What the registry says of one purpose after a reissue of it. *)
Record purpose_reissued (subject : bytes) (kt : KeyType) (pk : bytes) (retire : bool) (st st' : Store) : Prop := {
  pp_active : is_active_key subject kt pk st' = true;
  pp_only : retire = true -> exists key, active_keys_for subject kt st' = [key] /\ hk_public_key key = pk;
  pp_beside k : retire = false -> k ∈ active_keys_for subject kt st -> k ∈ active_keys_for subject kt st';
}.

Record reissue_applied (l : ReissueLetter) (st st' : Store) : Prop := {
  ra_registry : registry_ok st';
  ra_encryption pk : rl_new_encryption l = Some pk -> purpose_reissued (rl_subject_label l) Encryption pk (rl_revoke_previous l) st st';
  (** A signing key is an identity: every other one is retired whatever the flag says. *)
  ra_signing pk : rl_new_signing l = Some pk -> purpose_reissued (rl_subject_label l) KeyStore.Signing pk true st st';
  ra_others label kt : label <> rl_subject_label l \/ match kt with Encryption => rl_new_encryption l | KeyStore.Signing => rl_new_signing l end = None ->
    active_keys_for label kt st' = active_keys_for label kt st;
  ra_nodes : match rl_new_encryption l, leaf_scope (rl_tree_label l) st with
             | Some pk, Tree key_id => exists key, key ∈ active_keys_for (rl_subject_label l) Encryption st' /\ hk_public_key key = pk /\
                 st_nodes st' = map (reissued_row (rl_subject_label l) key_id (hk_id key)) (st_nodes st)
             | _, _ => st_nodes st' = st_nodes st
             end;
  ra_rosters p : p ∈ tb_parties (st_private st') -> py_label p = rl_subject_label l -> on_live_bridge (st_private st') p = true ->
    (forall pk, rl_new_encryption l = Some pk -> py_encryption p = pk) /\ (forall pk, rl_new_signing l = Some pk -> py_role p = Member -> py_signing p = Some pk);
}.

Section applied.
Context `{C : Crypto} `{HX : Hex}.

Lemma active_hardware st st' label kt : st_hardware st' = st_hardware st -> active_keys_for label kt st' = active_keys_for label kt st.
Proof. unfold active_keys_for. by intros ->. Qed.
Lemma is_active_elem label kt pk st : is_active_key label kt pk st = true <-> exists key, key ∈ active_keys_for label kt st /\ hk_public_key key = pk.
Proof.
  unfold is_active_key. rewrite existsb_exists. split.
  - intros (key & Hk%list_elem_of_In & E%bool_decide_eq_true). by exists key.
  - intros (key & Hk & <-). exists key. split; [by apply list_elem_of_In|]. by rewrite bool_decide_true.
Qed.
Lemma NoDup_active label kt st : registry_ok st -> NoDup (map hk_public_key (active_keys_for label kt st)).
Proof. intros HR. apply NoDup_map_filter, HR. Qed.

Lemma adopt_spec subject key_id id st st' : adopt_reissued_hardware_key subject (Some key_id) id st = (Ok tt, st') ->
  st' = set_nodes (map (reissued_row subject key_id id) (st_nodes st)) st.
Proof.
  unfold adopt_reissued_hardware_key. intros ([] & st1 & [= <-] & H)%dbM_bind_Ok. apply dbM_bind_Ok in H as (n & st2 & E & [= <-]).
  unfold update_nodes_checked in E. destruct (forallb _ _); [|discriminate]. injection E as _ <-. unfold set_nodes. simpl. f_equal. rewrite map_map. apply map_ext. intros row.
  unfold reissued_row, in_scope. destruct (decide (nr_label row = subject /\ is_Some (nr_hardware row) /\ nr_key row = key_id)) as [(El & Eh & Ek)|B].
  - rewrite (bool_decide_true (_ /\ _)) by done. rewrite (bool_decide_true (nr_label row = subject)), (bool_decide_true (is_Some (nr_hardware row))), (bool_decide_true (nr_key row = key_id)) by done.
    cbn [andb]. destruct (bool_decide (nr_hardware row = Some id)) eqn:Ei; simpl; rewrite !bool_decide_true by done; done.
  - rewrite (bool_decide_false (_ /\ _)) by done. assert (bool_decide (nr_label row = subject) && bool_decide (is_Some (nr_hardware row)) && bool_decide (nr_key row = key_id) = false) as HB.
    { apply not_true_iff_false. rewrite !andb_true_iff, !bool_decide_eq_true. tauto. }
    assert (bool_decide (nr_label row = subject) && bool_decide (is_Some (nr_hardware row)) && negb (bool_decide (nr_hardware row = Some id)) && bool_decide (nr_key row = key_id) = false) as ->; [|by rewrite HB].
    apply not_true_iff_false. rewrite !andb_true_iff, !bool_decide_eq_true. tauto.
Qed.

(** Retire the old keys if asked, then register the new one. *)
Lemma rotate_purpose subject kt pk (retire : bool) st st1 id st2 :
  registry_ok st -> (if retire then revoke_superseded subject kt pk else mret tt) st = (Ok tt, st1) -> register_reissued_key subject kt pk st1 = (Ok id, st2) ->
  registry_ok st2 /\ only_hardware st st2 /\ purpose_reissued subject kt pk retire st st2 /\
  (exists key, key ∈ active_keys_for subject kt st2 /\ hk_public_key key = pk /\ hk_id key = id) /\
  (forall label' kt', (label', kt') <> (subject, kt) -> active_keys_for label' kt' st2 = active_keys_for label' kt' st).
Proof.
  intros HR E1 E2.
  assert (registry_ok st1 /\ only_hardware st st1 /\ (retire = true -> forall k, k ∈ active_keys_for subject kt st1 -> hk_public_key k = pk) /\
    (retire = false -> st1 = st) /\ (forall label' kt', (label', kt') <> (subject, kt) -> active_keys_for label' kt' st1 = active_keys_for label' kt' st)) as (HR1 & HO1 & Hr1 & Hn1 & Ho1).
  { destruct retire; [|by injection E1 as <-]. apply revoke_superseded_spec in E1 as (? & ? & Ha & ?); [|done]. split_and!; try done. intros _ k Hk. by apply Ha in Hk as [_ ?]. }
  destruct (register_reissued_spec _ _ _ _ _ _ E2 HR1) as [HR2 HO2 Hact Hold Hkept Hoth]. split; [done|]. split; [by transitivity st1|]. split.
  - destruct Hact as (key & Hk & Ep & Ei). split.
    + apply is_active_elem. eauto.
    + intros Hr. apply singleton_by; [by apply NoDup_active| |eauto]. intros k Hk'. destruct (decide (hk_public_key k = pk)) as [|Hne]; [done|]. by apply (Hr1 Hr), Hold.
    + intros k Hr. rewrite (Hn1 Hr) in Hkept. apply Hkept.
  - split; [done|]. intros label' kt' Hne. by rewrite Hoth, Ho1.
Qed.

Lemma purpose_hardware subject kt pk retire st st' st2 : st_hardware st2 = st_hardware st' -> purpose_reissued subject kt pk retire st st' -> purpose_reissued subject kt pk retire st st2.
Proof.
  intros E [H1 H2 H3]. assert (active_keys_for subject kt st2 = active_keys_for subject kt st') as Ea by (by apply active_hardware).
  split; [unfold is_active_key in *; by rewrite Ea|by rewrite Ea|by rewrite Ea].
Qed.
Lemma purpose_from subject kt pk retire st0 st st' : active_keys_for subject kt st = active_keys_for subject kt st0 -> purpose_reissued subject kt pk retire st st' -> purpose_reissued subject kt pk retire st0 st'.
Proof. intros E [H1 H2 H3]. split; [done|done|]. by rewrite <- E. Qed.

(** The roster update: the rows of the subject on live bridges have [g]'s fields, the others are as they were. *)
Lemma update_parties_spec P g st st' : (forall p, py_bridge_id (g p) = py_bridge_id p /\ py_label (g p) = py_label p /\ py_role (g p) = py_role p) ->
  (forall p, P (g p) = P p) -> update_parties P g st = (Ok tt, st') ->
  st_hardware st' = st_hardware st /\ st_nodes st' = st_nodes st /\ st_org st' = st_org st /\ st_keys st' = st_keys st /\
  forall p, p ∈ tb_parties (st_private st') -> exists p0, p0 ∈ tb_parties (st_private st) /\ py_label p0 = py_label p /\ py_role p0 = py_role p /\
    on_live_bridge (st_private st') p = on_live_bridge (st_private st) p0 /\ p = if P p && on_live_bridge (st_private st) p0 then g p0 else p0.
Proof.
  intros Hg HP [= <-]. do 4 (split; [done|]). intros p (p0 & -> & Hp)%list_elem_of_fmap. exists p0. destruct (Hg p0) as (G1 & G2 & G3).
  destruct (P p0) eqn:E1; simpl; [|by rewrite E1]. destruct (on_live_bridge (st_private st) p0) eqn:E2; simpl; rewrite ?HP, ?E1; [|done].
  split; [done|]. split; [done|]. split; [done|]. split; [|done]. unfold on_live_bridge in *. simpl. by rewrite G1.
Qed.

Lemma apply_new_encryption_spec l scope pk st st' : registry_ok st -> apply_new_encryption l scope pk st = (Ok tt, st') ->
  registry_ok st' /\ purpose_reissued (rl_subject_label l) Encryption pk (rl_revoke_previous l) st st' /\
  (forall label' kt', (label', kt') <> (rl_subject_label l, Encryption) -> active_keys_for label' kt' st' = active_keys_for label' kt' st) /\
  match scope with
  | Tree key_id => exists key, key ∈ active_keys_for (rl_subject_label l) Encryption st' /\ hk_public_key key = pk /\
      st_nodes st' = map (reissued_row (rl_subject_label l) key_id (hk_id key)) (st_nodes st)
  | _ => st_nodes st' = st_nodes st
  end /\
  (forall p, p ∈ tb_parties (st_private st') -> py_label p = rl_subject_label l -> on_live_bridge (st_private st') p = true -> py_encryption p = pk).
Proof.
  intros HR H. unfold apply_new_encryption in H. apply dbM_bind_Ok in H as ([] & st1 & E1 & H). apply dbM_bind_Ok in H as (id & st2 & E2 & H).
  destruct (rotate_purpose _ _ _ _ _ _ _ _ HR E1 E2) as (HR2 & HO & HP & (key & Hk & Ep & Ei) & Hoth). apply dbM_bind_Ok in H as ([] & st3 & E3 & E4).
  assert (st_hardware st3 = st_hardware st2 /\ st_nodes st3 = match scope with Tree key_id => map (reissued_row (rl_subject_label l) key_id id) (st_nodes st2) | _ => st_nodes st2 end) as [Eh En].
  { destruct scope; [by injection E3 as <-| |by injection E3 as <-]. by apply adopt_spec in E3 as ->. }
  assert (st_nodes st2 = st_nodes st) as En2 by (by rewrite HO).
  apply update_parties_spec in E4 as (Eh4 & En4 & _ & _ & Hp); [|done|done]. assert (st_hardware st' = st_hardware st2) as Eh' by congruence.
  split; [destruct HR2; split; by rewrite Eh'|]. split; [by eapply purpose_hardware|]. split; [intros; by rewrite (active_hardware st2), Hoth|]. split.
  - rewrite En4, En, En2. destruct scope; [done| |done]. exists key. rewrite (active_hardware st2) by done. by rewrite Ei.
  - intros p Hin El Hl. destruct (Hp p Hin) as (p0 & _ & _ & _ & El0 & Epp). rewrite <- El0, Hl, bool_decide_true in Epp by done. by rewrite Epp.
Qed.

Lemma apply_new_signing_spec l pk st st' : registry_ok st -> apply_new_signing l pk st = (Ok tt, st') ->
  registry_ok st' /\ purpose_reissued (rl_subject_label l) KeyStore.Signing pk true st st' /\
  (forall label' kt', (label', kt') <> (rl_subject_label l, KeyStore.Signing) -> active_keys_for label' kt' st' = active_keys_for label' kt' st) /\
  st_nodes st' = st_nodes st /\
  (forall p, p ∈ tb_parties (st_private st') -> exists p0, p0 ∈ tb_parties (st_private st) /\ py_label p0 = py_label p /\ py_encryption p0 = py_encryption p /\
     on_live_bridge (st_private st') p = on_live_bridge (st_private st) p0 /\
     (py_label p = rl_subject_label l -> py_role p = Member -> on_live_bridge (st_private st') p = true -> py_signing p = Some pk)).
Proof.
  intros HR H. unfold apply_new_signing in H. apply dbM_bind_Ok in H as ([] & st1 & E1 & H). apply dbM_bind_Ok in H as (id & st2 & E2 & E4).
  destruct (rotate_purpose _ _ _ true _ _ _ _ HR E1 E2) as (HR2 & HO & HP & _ & Hoth).
  assert (st_nodes st2 = st_nodes st /\ st_private st2 = st_private st) as [En2 Eb2] by (by rewrite HO).
  apply update_parties_spec in E4 as (Eh4 & En4 & _ & _ & Hp); [|done|done].
  split; [destruct HR2; split; by rewrite Eh4|]. split; [by eapply purpose_hardware|]. split; [intros; by rewrite (active_hardware st2), Hoth|]. split; [congruence|].
  intros p Hin. destruct (Hp p Hin) as (p0 & Hp0 & El0 & Er0 & Eo & Epp). rewrite Eb2 in *. exists p0. split; [done|]. split; [done|]. split.
  - rewrite Epp. by destruct (_ && _).
  - split; [done|]. intros El Er Hl. rewrite <- Eo, Hl, !bool_decide_true in Epp by done. by rewrite Epp.
Qed.

(** A reissue does what it says and nothing more. After it is applied the
    announced encryption key is active for the subject, alone if the letter
    retires the previous one; the announced signing key is the only active one
    whatever the letter says; the keys of every other label, and of a purpose not
    reissued, are as they were; the subject's leaves of the named tree point at
    the new key and keep a sealed share only if they already did, and no other
    node moves; and the live bridges list the subject under the new keys. So
    stores that apply the same letter hold the same keys for its subject. *)
Theorem apply_reissue_effect l st u st' : registry_ok st -> apply_reissue l st = (Ok u, st') -> reissue_applied l st st'.
Proof.
  intros HR H. unfold apply_reissue in H. apply dbM_bind_Ok in H as (scope & ? & [[= <-] ->]%query_Ok & H). apply dbM_bind_Ok in H as ([] & st1 & E1 & H).
  apply dbM_bind_Ok in H as ([] & st2 & E2 & H). apply dbM_bind_Ok in H as ([] & st3 & [_ [row E3]]%record_update_Ok & [= _ <-]).
  assert (registry_ok st1 /\ (forall pk, rl_new_encryption l = Some pk -> purpose_reissued (rl_subject_label l) Encryption pk (rl_revoke_previous l) st st1) /\
    (forall label kt, (label, kt) <> (rl_subject_label l, Encryption) \/ rl_new_encryption l = None -> active_keys_for label kt st1 = active_keys_for label kt st) /\
    match rl_new_encryption l, leaf_scope (rl_tree_label l) st with
    | Some pk, Tree key_id => exists key, key ∈ active_keys_for (rl_subject_label l) Encryption st1 /\ hk_public_key key = pk /\
        st_nodes st1 = map (reissued_row (rl_subject_label l) key_id (hk_id key)) (st_nodes st)
    | _, _ => st_nodes st1 = st_nodes st
    end /\ (forall p pk, rl_new_encryption l = Some pk -> p ∈ tb_parties (st_private st1) -> py_label p = rl_subject_label l -> on_live_bridge (st_private st1) p = true -> py_encryption p = pk))
    as (HR1 & HP1 & HO1 & HN1 & HB1).
  { destruct (rl_new_encryption l) as [pk|]; [|by injection E1 as <-]. apply apply_new_encryption_spec in E1 as (? & ? & Ho & ? & ?); [|done].
    split; [done|]. split; [by intros ? [= <-]|]. split; [intros ? ? [?|?]; [by apply Ho|done]|]. split; [done|]. intros p ? [= <-]. auto. }
  assert (registry_ok st2 /\ (forall pk, rl_new_signing l = Some pk -> purpose_reissued (rl_subject_label l) KeyStore.Signing pk true st1 st2) /\
    (forall label kt, (label, kt) <> (rl_subject_label l, KeyStore.Signing) \/ rl_new_signing l = None -> active_keys_for label kt st2 = active_keys_for label kt st1) /\
    st_nodes st2 = st_nodes st1 /\ (forall p, p ∈ tb_parties (st_private st2) -> exists p0, p0 ∈ tb_parties (st_private st1) /\ py_label p0 = py_label p /\ py_encryption p0 = py_encryption p /\
       on_live_bridge (st_private st2) p = on_live_bridge (st_private st1) p0 /\
       (forall pk, rl_new_signing l = Some pk -> py_label p = rl_subject_label l -> py_role p = Member -> on_live_bridge (st_private st2) p = true -> py_signing p = Some pk)))
    as (HR2 & HP2 & HO2 & HN2 & HB2).
  { destruct (rl_new_signing l) as [pk|]; [|injection E2 as <-; naive_solver]. apply apply_new_signing_spec in E2 as (? & ? & Ho & ? & Hb); [|done].
    split; [done|]. split; [by intros ? [= <-]|]. split; [intros ? ? [?|?]; [by apply Ho|done]|]. split; [done|].
    intros p Hp. destruct (Hb p Hp) as (p0 & ? & ? & ? & ? & Hs). exists p0. do 4 (split; [done|]). by intros ? [= <-]. }
  assert (st_hardware st3 = st_hardware st2 /\ st_nodes st3 = st_nodes st2 /\ st_private st3 = st_private st2) as (Eh & En & Eb) by (by rewrite E3).
  assert (forall label kt, active_keys_for label kt st3 = active_keys_for label kt st2) as Ea by (intros; by apply active_hardware).
  assert (active_keys_for (rl_subject_label l) Encryption st2 = active_keys_for (rl_subject_label l) Encryption st1) as Ee by (apply HO2; left; by intros [=]).
  split.
  - destruct HR2. split; by rewrite Eh.
  - intros pk Hpk. destruct (HP1 pk Hpk) as [A1 A2 A3]. split; unfold is_active_key; rewrite Ea, Ee; done.
  - intros pk Hpk. eapply purpose_hardware; [exact Eh|]. eapply purpose_from; [|by apply HP2]. apply HO1. left. by intros [=].
  - intros label kt Hc. rewrite Ea, HO2, HO1; [done|..]; destruct kt, Hc as [Hc|Hc]; first [by right|by left; intros [= ?]].
  - rewrite Ea, Ee, En, HN2. done.
  - intros p. rewrite Eb. intros Hp El Hl. destruct (HB2 p Hp) as (p0 & Hp0 & El0 & Ee0 & Eo & Hs). split; [|intros; by apply Hs].
    intros pk Hpk. rewrite <- Ee0. apply HB1; [done|done|congruence|congruence].
Qed.
End applied.

(** * Planned letters arrive

    What an authorizer plans is what a recipient in step applies. *)

Section delivery.
Context `{C : Crypto} `{!CryptoLaws C} `{HX : Hex} `{HD : HexDecode} `{J : TreeJson}.

Lemma registered_authorizer label st pk : signing_public_for_label label st = Ok pk -> authorizer_signing_key label st = Ok pk.
Proof. unfold authorizer_signing_key. by intros ->. Qed.

(** The envelope goes to its importer, and the dispatch sees its kind. *)
Lemma import_sealed rnd kind payload rsk data st : length (box_public rsk) = 32 -> seal rnd PACKAGE kind (box_public rsk) payload = Ok data ->
  import_update data rsk st = dispatch_update kind payload (box_public rsk) st.
Proof.
  intros Hl ES. unfold import_update. rewrite (dbM_step _ _ _ (kind, box_public rsk, payload) st).
  - by rewrite bool_decide_true.
  - unfold db_try. by rewrite (open_seal rnd PACKAGE kind rsk payload data).
Qed.

(** ** Reissues *)

(** The recipient's store is where the authorizer's was: the same reissues applied, and the subject's keys known alike, not known, or already the new ones. *)
Record in_step (l : ReissueLetter) (st0 st : Store) : Prop := {
  is_sequence : last_sequence KeyReissueKind (rl_tree_label l) (rl_subject_label l) st = last_sequence KeyReissueKind (rl_tree_label l) (rl_subject_label l) st0;
  is_keys kt : let held := current_fingerprint (rl_subject_label l) kt st in
    held = [] \/ held = current_fingerprint (rl_subject_label l) kt st0 \/
    fingerprint <$> (match kt with Encryption => rl_new_encryption l | KeyStore.Signing => rl_new_signing l end) = Some held;
}.

Lemma previous_matches label kt st0 st incoming : let held := current_fingerprint label kt st in
  held = [] \/ held = current_fingerprint label kt st0 \/ fingerprint <$> incoming = Some held ->
  require_previous_matches label kt (current_fingerprint label kt st0) incoming st = Ok tt.
Proof.
  intros held Hh. unfold require_previous_matches. fold held. destruct (_ || _) eqn:B; [done|]. apply orb_false_iff in B as [[B1 B2]%orb_false_iff B3].
  apply bool_decide_eq_false in B1, B3. destruct Hh as [?|[?|E]]; [done|done|]. destruct incoming as [pk|]; [|done]. injection E as E. by rewrite bool_decide_true.
Qed.

(** What the Rust types say of the texts and keys of a plan. *)
Record plan_typed (l : ReissueLetter) : Prop := {
  pt_texts : text (rl_tree_label l) /\ text (rl_subject_label l) /\ text (rl_authorizer_label l) /\ text (rl_previous_encryption l) /\ text (rl_previous_signing l);
  pt_keys : opt (fixed 32) (rl_new_encryption l) /\ opt (fixed 32) (rl_new_signing l);
}.

(** A planned reissue is accepted wherever it belongs. Every envelope of a
    plan, imported with the secret of the key it is addressed to, into a store
    that holds that key under the label, knows the authorizer's signing key, has
    applied the same reissues and does not contradict the subject's keys, passes
    every check: the import is exactly the application of the planned letter. *)
Theorem planned_reissue_accepted rnd key_id subject new_enc new_sig revoke_previous authorizer sk st0 p a rsk st :
  plan_key_reissue rnd key_id subject new_enc new_sig revoke_previous authorizer sk st0 = Ok p -> a ∈ pr_packages p ->
  plan_typed (pr_letter p) -> text (ad_label a) -> ad_label a <> [] -> length (box_public rsk) = 32 ->
  ad_recipient_public_key a = box_public rsk -> is_active_key (ad_label a) Encryption (box_public rsk) st = true ->
  signing_public_for_label authorizer st = Ok (public_key sk) -> in_step (pr_letter p) st0 st ->
  import_update (ad_bytes a) rsk st = transaction (apply_reissue (set_recipient (pr_letter p) (ad_label a))) st.
Proof.
  intros (tree & last & recipients & [(Hsj & Hau & Hk) Hanc _ _ _] & _ & El & Ep & _ & Epk)%plan_key_reissue_Ok Ha [(T1 & T2 & T3 & T4 & T5) [K1 K2]] Tl Hl H32 Ead Hact Hreg [Hseq Hkeys].
  destruct p as [packages letter]. simpl in Ep, Epk, Ha. subst letter. simpl in *.
  destruct (traverse_elem _ _ _ _ Epk Ha) as ([label pk] & _ & HP). unfold reissue_package in HP. apply bind_Ok in HP as (data & ES & [= <-]). simpl in *.
  rewrite Ead in ES. unfold reissue_seal in ES. apply bind_Ok in ES as (payload & EP & ES). rewrite (import_sealed _ _ _ _ _ _ H32 ES).
  unfold dispatch_update. rewrite bool_decide_true by done. unfold reissue_payload in EP. apply bind_Ok in EP as (body & Eb & (preimage & Epre & [= <-])%bind_Ok).
  set (l := set_recipient _ label) in *.
  assert (reissue_decode (body ++ sign sk preimage) = Ok (l, sign sk preimage)) as Ed.
  { apply reissue_decode_iff. split; [|split; [|split; [apply ed25519_sign_length|by exists body]]].
    - split; try done. simpl. unfold u32_succ. by apply N.mod_lt.
    - unfold reissue_named, l. simpl. naive_solver. }
  unfold import_reissue. rewrite (dbM_step _ _ _ (l, sign sk preimage) st) by (unfold db_try; by rewrite Ed). cbn [fst snd].
  rewrite (dbM_step _ _ _ tt st); [done|]. unfold query. f_equal. unfold check_reissue, require_addressed_here. cbn [l set_recipient rl_recipient_label rl_authorizer_label rl_subject_label rl_tree_label rl_sequence rl_previous_encryption rl_previous_signing rl_new_encryption rl_new_signing].
  rewrite Hact. cbn [mbind result_bind]. rewrite Hanc. cbn [negb]. rewrite (registered_authorizer _ _ _ Hreg). cbn [mbind result_bind]. rewrite Epre. cbn [mbind result_bind].
  rewrite verify_sign. cbn [mbind result_bind]. rewrite Hseq, El. cbn [mbind result_bind]. rewrite N.eqb_refl. cbn [negb].
  rewrite (previous_matches subject Encryption st0 st new_enc (Hkeys Encryption)). cbn [mbind result_bind].
  by rewrite (previous_matches subject KeyStore.Signing st0 st new_sig (Hkeys KeyStore.Signing)).
Qed.

(** ** Restructures *)

Lemma insert_recipients_elem found l found' e : insert_recipients found l = Ok found' -> e ∈ found' -> e ∈ found \/ e ∈ l.
Proof.
  revert found; induction l as [|[label pk] l IH]; intros found; simpl; [intros [= <-]; by left|].
  unfold insert_recipient. destruct (is_weak_x25519_public_key pk); [done|]. cbn [mbind result_bind]. intros E He. destruct (IH _ E He) as [H|H]; [|right; by right].
  unfold or_insert in H. destruct (bt_contains label found); [by left|]. apply bt_insert_elem in H as [->|H]; [right; left|by left].
Qed.

(** A recipient is an active leaf under its registered key. *)
Lemma tree_recipients_elem key_id st found label pk : tree_recipients key_id st = Ok found -> (label, pk) ∈ found ->
  exists row hw h, row ∈ rows_of key_id st /\ nr_label row = label /\ nr_hardware row = Some hw /\ get_key hw st = Ok h /\ hk_public_key h = pk.
Proof.
  unfold tree_recipients. intros (leaves & EL & EI)%bind_Ok He. destruct (insert_recipients_elem _ _ _ _ EI He) as [H|H]; [by apply elem_of_nil in H|].
  unfold active_encryption_leaves in EL. destruct (traverse_elem _ _ _ _ EL H) as ([label' pk'] & Hin & (pk2 & E32 & [= <- <-])%bind_Ok). simpl in *.
  assert (pk' = pk2) as -> by (unfold vec_to_32 in E32; destruct (_ =? 32); [by injection E32|done]).
  rewrite (merge_sort_Permutation _ _) in Hin. apply list_elem_of_omap in Hin as (row & Hr & E).
  destruct (nr_hardware row) as [hw|] eqn:Eh; [|done]. simpl in E. destruct (first_row _ (st_hardware st)) as [h|] eqn:Ef; [|done]. simpl in E.
  destruct (_ && _); [|done]. injection E as <- <-. exists row, hw, h. unfold get_key. by rewrite Ef.
Qed.

Lemma seed_visible full label : NoDup (map pn_label (pt_nodes full)) -> label ∈ map pn_label (pt_nodes full) -> label ∈ visible_labels_in_public_tree full [label].
Proof.
  intros HN (n & -> & Hn)%list_elem_of_fmap. apply visible_sees; [done|]. apply sees_base. simpl. apply seed_in_add_seed.
  exists (parent_label n). apply parents_of_lookup; [done|]. by exists n.
Qed.

Lemma first_row_label (nodes : list PublicNode) n (P : PublicNode -> Prop) `{!forall x, Decision (P x)} : NoDup (map pn_label nodes) -> n ∈ nodes -> P n ->
  first_row (fun n' => bool_decide (pn_label n' = pn_label n)) (filter P nodes) = Some n.
Proof. intros HN Hn HP. apply first_row_key; [by apply NoDup_map_filter|]. by apply list_elem_of_filter. Qed.

Context `{!HexLaws HX HD} `{!TreeJsonLaws J}.

(** What a slice letter carries is the recipient's own view, and the recipient finds itself in it under the key addressed. *)
Lemma slice_letter_view key_id st full g tree links authorizer label pk found l :
  forest st -> export_public_tree key_id st = Ok full -> load_for_visibility key_id st = Ok (tree, links) ->
  tree_recipients key_id st = Ok found -> (label, pk) ∈ found -> slice_letter (at_generation g full) tree links authorizer label = Ok l ->
  exists slice, public_slice_for key_id label st = Ok slice /\ letter_slice l pk = Ok (at_generation g slice) /\ parent_closed (at_generation g slice) /\
    tl_tree_label l = pt_label full /\ tl_generation l = g /\ tl_recipient_label l = label /\ tl_authorizer_label l = authorizer.
Proof.
  intros HF Ex EV ER He (V & Ev & (json & Ej%ok_or_Ok & [= <-])%bind_Ok)%bind_Ok. simpl. pose proof (fo_ids _ HF) as HN.
  destruct (tree_recipients_elem _ _ _ _ _ ER He) as (row & hw & h & Hr & El & Eh & Eg & Ep). destruct (export_exported key_id st full HN Ex) as (tr & [Et Hfrom Hto HNl HC]).
  destruct (Hto row Hr) as (n & j & Hn & Hj & (E1 & _ & _ & _ & E5)). cbn [arena_node kn_id kn_hardware_key_id] in E1, E5. rewrite Eh in E5.
  destruct E5 as (key & Hkey & Eid & _ & Epk).
  assert (visible_labels key_id label st = Ok V) as EVis by (unfold visible_labels; by rewrite EV).
  assert (label ∈ map pn_label (pt_nodes full)) as Hlab by (rewrite <- El, <- E1; by apply list_elem_of_fmap_2).
  pose proof EVis as EVis'. rewrite (visible_labels_export key_id label st full HN Ex), bool_decide_true in EVis' by done. injection EVis' as HV.
  exists (filter_public_tree full V). split; [unfold public_slice_for; rewrite Ex; cbn [mbind result_bind]; by rewrite EVis|]. split; [|split; [rewrite <- HV; apply (HC [label])|done]].
  unfold letter_slice. simpl. rewrite (json_roundtrip _ _ Ej). cbn [ok_or mbind result_bind]. rewrite bool_decide_true by done. simpl. rewrite N.eqb_refl. cbn [negb orb].
  rewrite <- El, <- E1. rewrite (first_row_label (pt_nodes full) n) by (done || rewrite E1, El, <- HV; by apply seed_visible). cbn [ok_or mbind result_bind].
  rewrite Epk, bool_decide_true; [done|]. rewrite hex_roundtrip. unfold get_key in Eg. apply ok_or_Ok in Eg. f_equal. rewrite <- Ep. f_equal.
  apply first_row_Some in Eg as [Hh Ehid%bool_decide_eq_true]. eapply (NoDup_map_eq hk_id); [apply HF|done|done|congruence].
Qed.

Lemma plan_tree_restructure_Ok rnd key_id authorizer sk st p : plan_tree_restructure rnd key_id authorizer sk st = Ok p ->
  exists full tree links recipients sent, export_public_tree key_id st = Ok full /\ ptr_generation p = (pt_generation full + 1)%N /\ (ptr_generation p < u32_max)%N /\
    load_for_visibility key_id st = Ok (tree, links) /\ tree_recipients key_id st = Ok recipients /\
    traverse (slice_package rnd (if is_some (restructure_countersigner authorizer) then KIND_TREE_PROPOSAL else KIND_TREE_UPDATE)
      (at_generation (ptr_generation p) full) tree links authorizer sk) (filter (fun e => has_standing authorizer e = true) recipients) = Ok sent /\
    ptr_packages p = map snd sent /\ ptr_proposals p = map fst sent /\ ptr_tree_label p = pt_label full.
Proof.
  unfold plan_tree_restructure. intros (registered & _ & H)%bind_Ok. destruct (negb _); [discriminate|]. apply bind_Ok in H as (full & Ex & H). cbv zeta in H.
  destruct (N.ltb_spec (pt_generation full + 1) u32_max) as [Hb|]; [|discriminate]. cbn [mbind result_bind] in H.
  apply bind_Ok in H as ([tree links] & EV & (recipients & ER & (sent & ES & [= <-])%bind_Ok)%bind_Ok). by exists full, tree, links, recipients, sent.
Qed.

Lemma replaced_org k slice st st1 o : replaced k slice st st1 -> replaced k slice st (set_org o st1).
Proof.
  intros [HR HE HT HG HS]. split; [|by destruct HE|done|done|done]. eapply rows_replaced_frame; [exact HR|done..|]. apply (fo_trees _ (rr_forest _ _ _ _ HR)).
Qed.

(** C31: A root's restructure reaches each leaf as that leaf's own view. Every
    envelope of the plan, imported by a recipient who holds the key it is
    addressed to, knows the root's signing key and stores an older generation or
    none, passes every check; what is applied is exactly the slice the planning
    store computes for that label, at the next generation; and when the write
    succeeds the recipient's tree is that slice. *)
Theorem planned_restructure_delivered rnd key_id authorizer sk st0 p a rsk st :
  forest st0 -> plan_tree_restructure rnd key_id authorizer sk st0 = Ok p -> restructure_countersigner authorizer = None -> a ∈ ptr_packages p ->
  text (ptr_tree_label p) -> ptr_tree_label p <> [] -> text authorizer -> authorizer <> [] -> text (ad_label a) -> ad_label a <> [] ->
  length (box_public rsk) = 32 -> ad_recipient_public_key a = box_public rsk -> is_active_key (ad_label a) Encryption (box_public rsk) st = true ->
  signing_public_for_label authorizer st = Ok (public_key sk) ->
  (forall id stored, tree_by_label (ptr_tree_label p) st = Some (id, stored) -> (stored < ptr_generation p)%N) -> forest st ->
  exists slice l, public_slice_for key_id (ad_label a) st0 = Ok slice /\ tl_tree_label l = ptr_tree_label p /\ tl_generation l = ptr_generation p /\
    import_update (ad_bytes a) rsk st =
      (key_id ← transaction (key_id ← apply_public_tree_nested (fst <$> tree_by_label (ptr_tree_label p) st) (at_generation (ptr_generation p) slice);
                             _ ← restructured l (at_generation (ptr_generation p) slice); mret key_id);
       mret (TreeRestructure (ptr_tree_label p) (ad_label a) key_id (ptr_generation p) (length (pt_nodes slice)))) st /\
    forall u st', import_update (ad_bytes a) rsk st = (Ok u, st') -> exists k, replaced k (at_generation (ptr_generation p) slice) st st'.
Proof.
  intros HF0 (full & tree & links & recipients & sent & Ex & Eg & Hb & EV & ER & ES & Epk & _ & Etl)%plan_tree_restructure_Ok Hroot Ha Tt Ht Ta Hau Tl Hl H32 Ead Hact Hreg Hold HF.
  rewrite Epk in Ha. apply list_elem_of_fmap in Ha as ([payload a'] & Ea & Hs). simpl in Ea. subst a'.
  destruct (traverse_elem _ _ _ _ ES Hs) as ([label pk] & [Hst He]%list_elem_of_filter & HP). rewrite Hroot in HP. cbn [is_some] in HP.
  unfold slice_package in HP. apply bind_Ok in HP as (l & EL & (pl & EP & (data & ESl & [= <- <-])%bind_Ok)%bind_Ok). simpl in *. subst pk.
  destruct (slice_letter_view _ _ _ _ _ _ _ _ _ _ _ HF0 Ex EV ER He EL) as (slice & Esl & Els & Hcl & E1 & E2 & E3 & E4).
  exists slice, l. split; [done|]. split; [congruence|]. split; [done|]. unfold tree_encode in EP. apply bind_Ok in EP as (body & Eb & (preimage & Epre & [= <-])%bind_Ok).
  assert (tree_decode (body ++ sign sk preimage) = Ok (l, sign sk preimage)) as Ed.
  { apply tree_decode_iff. split; [|split; [|split; [apply ed25519_sign_length|by exists body]]].
    - split; [congruence|congruence|congruence|by rewrite E2].
    - unfold tree_named. rewrite E1, E2, E3, E4, <- Etl, Eg. split_and!; try done. lia. }
  assert (newer_than_stored l st = Ok (fst <$> tree_by_label (ptr_tree_label p) st)) as En.
  { unfold newer_than_stored. rewrite E1, <- Etl. destruct (tree_by_label _ st) as [[id g]|] eqn:EB; [|done]. rewrite E2. destruct (N.leb_spec (ptr_generation p) g); [|done].
    specialize (Hold id g eq_refl). lia. }
  assert (verify_tree_letter l (sign sk preimage) (box_public rsk) st = Ok tt) as Ev.
  { unfold verify_tree_letter, require_addressed_here. rewrite E3, E4, Hact. cbn [mbind result_bind]. unfold has_standing in Hst. simpl in Hst. rewrite Hst. cbn [negb].
    rewrite (registered_authorizer _ _ _ Hreg). cbn [mbind result_bind]. rewrite Epre. cbn [mbind result_bind]. apply verify_sign. }
  assert (import_update data rsk st = import_tree_update (body ++ sign sk preimage) (box_public rsk) st) as Ei.
  { rewrite (import_sealed _ _ _ _ _ _ H32 ESl). done. }
  split.
  - rewrite Ei. unfold import_tree_update. rewrite (dbM_step _ _ _ (l, sign sk preimage) st) by (unfold db_try; by rewrite Ed). cbn [fst snd]. cbv zeta.
    rewrite (dbM_step _ _ _ tt st) by (unfold query; by rewrite Ev). rewrite E4, Hroot. cbn [is_some].
    rewrite (dbM_step _ _ _ (at_generation (ptr_generation p) slice) st) by (unfold db_try; by rewrite Els).
    rewrite (dbM_step _ _ _ (fst <$> tree_by_label (ptr_tree_label p) st) st) by (unfold query; by rewrite En). by rewrite E1, E2, E3, <- Etl.
  - intros u st' HI. rewrite Ei in HI. apply import_tree_update_Ok in HI as (l' & sig & slice' & k & existing & st1 & Ed' & _ & _ & Els' & En' & EA & ERs & _).
    rewrite Ed in Ed'. injection Ed' as <- <-. assert (slice' = at_generation (ptr_generation p) slice) as -> by congruence.
    unfold restructured in ERs. apply record_update_Ok in ERs as [_ [row ->]]. exists k. apply replaced_org.
    unfold apply_public_tree_nested in EA. case_bool_decide; [discriminate|]. by apply (apply_inner_replaces existing).
Qed.
End delivery.
