(* ===== verification/OrgDemo.v ===== *)
(** * A small organization

    A root and two leaves, each with a store; the witnesses of the theorems on
    organization updates. *)

From stdpp Require Import gmap.
From S2P Require Import Prelude Text Crypto BTree Envelope HistoryCodec Authority Signing Policy BridgeProof Pss Visibility Tables KeyStore KeyTree Combinations Reconstruct SplitTree BridgePackage PrivateBridge BridgeRoster BridgeLaws BridgeSafety TreeOps TreeLaws TreeSync TreeSyncLaws TreeView TreeDemo OrgLetters OrgUpdate OrgUpdateLaws OrgLog OrgDelivery.

(** Two letters of sixteen for a byte. *)
Module Letters.
Definition letter (n : N) : byte := byte_of_N (97 + n).
Definition digit (b : byte) : N := (Byte.to_N b - 97)%N.
Fixpoint decode (b : bytes) : option bytes :=
  match b with [] => Some [] | hi :: lo :: b => l ← decode b; Some (byte_of_N (digit hi * 16 + digit lo) :: l) | _ => None end.
Definition encode (b : bytes) : bytes := flat_map (fun x => [letter (Byte.to_N x / 16); letter (Byte.to_N x mod 16)]) b.
Lemma pair_back x : byte_of_N (digit (letter (Byte.to_N x / 16)) * 16 + digit (letter (Byte.to_N x mod 16))) = x.
Proof. destruct x; vm_compute; reflexivity. Qed.
End Letters.
#[local] Instance letters : Hex := Letters.encode.
#[local] Instance unletters : HexDecode := Letters.decode.
#[local] Instance letters_laws : HexLaws letters unletters.
Proof.
  intros b. unfold hex_decode, hex_encode, letters, unletters. induction b as [|x b IH]; [reflexivity|]. unfold Letters.encode. cbn [flat_map app Letters.decode].
  fold (Letters.encode b). rewrite IH. cbn [mbind option_bind]. by rewrite Letters.pair_back.
Qed.
#[local] Existing Instance Toy.toy.
#[local] Existing Instance Toy.toy_laws.

Module OrgDemo.
Definition key (b : byte) : bytes := replicate 32 b.
Definition card (id : nat) (label : bytes) (kt : KeyType) (b : byte) : HardwareKey :=
  {| hk_id := id; hk_label := label; hk_key_type := kt; hk_fingerprint := fingerprint (key b); hk_public_key := key b; hk_revoked := false |}.
Definition root := str "M".
Definition ann := str "M.1".
Definition bob := str "M.2".
Definition cards : list HardwareKey :=
  [card 1 ann Encryption x01; card 2 bob Encryption x02; card 3 root KeyStore.Signing x0a; card 4 ann KeyStore.Signing x0b].
Definition store : Store := set_hardware cards SplitDemo.store.
Definition run := KeyTree.split (SH := ToyShamir.toy) id (fun _ => []) (str "vault") (str "secret") (Split root 2 [Leaf ann 1 []; Leaf bob 2 []] []) store.
Definition key_id : nat := Eval vm_compute in match run.1 with Ok k => k | Err _ => 0 end.
(** The root's store, with the tree; bob's, which only knows the cards. *)
Definition st_root : Store := Eval vm_compute in run.2.
Definition st_bob : Store := Eval vm_compute in store.
Definition seal_rnd (_ : bytes) : bytes := [].

(** The root replaces ann's keys. *)
Definition reissue : result PlannedKeyReissue := plan_key_reissue seal_rnd (Some key_id) ann (Some (key x11)) (Some (key x1b)) true root (key x0a) st_root.
Definition planned : PlannedKeyReissue := Eval vm_compute in
  match reissue with Ok p => p | Err _ => Build_PlannedKeyReissue [] (Build_ReissueLetter [] [] 0 [] [] None None false [] []) end.
Lemma reissue_Ok : reissue = Ok planned.
Proof. vm_compute. reflexivity. Qed.
Definition letter_to (label : bytes) : ReissueLetter := set_recipient (pr_letter planned) label.
Definition tree_letter : TreeLetter := {| tl_tree_label := str "vault"; tl_generation := 2; tl_recipient_label := bob; tl_authorizer_label := root; tl_slice_json := [] |}.
Definition to_bob : Addressed := Eval vm_compute in
  match filter (fun a => ad_label a = bob) (pr_packages planned) with a :: _ => a | [] => Build_Addressed [] [] [] end.
End OrgDemo.

Lemma registry_check st : NoDup (map hk_id (st_hardware st)) -> NoDup (map hk_public_key (st_hardware st)) -> registry_ok st.
Proof. by split. Qed.


(** ** Letters *)

(** Ann's letter and bob's have one digest only if SHA-256 collides. *)
Lemma letter_digest_binds_witness :
  let l := OrgDemo.letter_to OrgDemo.ann in let l' := OrgDemo.letter_to OrgDemo.bob in
  collision \/ reissue_preimage l (OrgDemo.key x01) <> reissue_preimage l' (OrgDemo.key x02).
Proof.
  intros l l'. assert (reissue_wf l /\ reissue_wf l') as [W W'] by (split; split; reflexivity).
  assert (tree_letter_wf OrgDemo.tree_letter) as Wt by (split; reflexivity).
  destruct (reissue_preimage l (OrgDemo.key x01)) as [h|e] eqn:Eh; [|vm_compute in Eh; discriminate].
  destruct (reissue_preimage l' (OrgDemo.key x02)) as [h'|e] eqn:Eh'; [|vm_compute in Eh'; discriminate].
  destruct (letter_digest_binds l l' OrgDemo.tree_letter OrgDemo.tree_letter [] [] [] [] (OrgDemo.key x01) (OrgDemo.key x02) h W W' Wt Wt eq_refl eq_refl) as (H & _).
  destruct (decide (h' = h)) as [Eq|Neq]; [|right; congruence]. subst h'. destruct (H Eh Eh') as [[El _]|Hc]; [discriminate|by left].
Defined.

(** ** The log *)

#[local] Instance no_json : TreeJson := {| json_to_vec _ := None; json_from_slice _ := None |}.

(** Bob imports ann's reissue. *)
Module BobDemo.
Definition imported := import_update (ad_bytes OrgDemo.to_bob) (OrgDemo.key x02) OrgDemo.st_bob.
Definition update : AppliedUpdate := Eval vm_compute in match imported.1 with Ok u => u | Err _ => TreeProposal [] [] [] 0 0 end.
Definition after : Store := Eval vm_compute in imported.2.
Lemma imported_Ok : imported = (Ok update, after).
Proof. vm_compute. reflexivity. Qed.
Definition start : Sys := {| sy_store := OrgDemo.st_bob; sy_planned := [] |}.
Definition done : Sys := {| sy_store := after; sy_planned := [] |}.
Lemma step : org_step start done.
Proof. apply (step_import [] (ad_bytes OrgDemo.to_bob) (OrgDemo.key x02) OrgDemo.st_bob [] (Ok (Update update)) after). vm_compute. reflexivity. Qed.
Lemma done_ok : sys_ok done.
Proof.
  apply (org_step_ok start done step). split; [|set_solver]. split; unfold log_of; simpl; by constructor.
Qed.
End BobDemo.

Lemma update_log_sound_witness :
  log_ok (sy_store BobDemo.done) /\ log_of KeyReissueKind (str "vault") OrgDemo.ann (sy_store BobDemo.done) = [1%N].
Proof.
  destruct (update_log_sound OrgDemo.st_bob [] BobDemo.start BobDemo.done eq_refl eq_refl (rtc_refl _ _) (rtc_once _ _ BobDemo.step)) as [H _].
  split; [exact H|vm_compute; reflexivity].
Defined.

Lemma replay_refused_witness : exists e, import_update (ad_bytes OrgDemo.to_bob) (OrgDemo.key x02) BobDemo.after = (Err e, BobDemo.after).
Proof.
  apply (replay_refused (ad_bytes OrgDemo.to_bob) (OrgDemo.key x02) OrgDemo.st_bob BobDemo.update BobDemo.after [] BobDemo.done BobDemo.imported_Ok).
  - discriminate.
  - exact BobDemo.done_ok.
  - apply rtc_refl.
Defined.

(** A log whose last reissue has the largest number. *)
Definition exhausted : Store := set_org (set_ot_updates [{| up_id := 1; up_kind := KeyReissueKind; up_tree_label := str "vault"; up_subject_label := OrgDemo.ann;
  up_sequence := u32_max - 1; up_authorizer_label := OrgDemo.root; up_detail := [] |}] no_updates) OrgDemo.st_root.
Definition wrapped : PlannedKeyReissue := Eval vm_compute in
  match plan_key_reissue OrgDemo.seal_rnd (Some OrgDemo.key_id) OrgDemo.ann (Some (OrgDemo.key x11)) None true OrgDemo.root (OrgDemo.key x0a) exhausted with Ok p => p | Err _ => OrgDemo.planned end.
Lemma reissue_sequence_bounded_witness :
  last_sequence KeyReissueKind (str "vault") OrgDemo.ann exhausted = Ok (u32_max - 1)%N /\ exists e, commit_planned_key_reissue wrapped exhausted = (Err e, exhausted).
Proof.
  assert (last_sequence KeyReissueKind (str "vault") OrgDemo.ann exhausted = Ok (u32_max - 1)%N) as HL by (vm_compute; reflexivity). split; [exact HL|].
  destruct (reissue_sequence_bounded (str "vault") OrgDemo.ann exhausted HL) as [_ H].
  apply (H OrgDemo.seal_rnd (Some OrgDemo.key_id) (Some (OrgDemo.key x11)) None true OrgDemo.root (OrgDemo.key x0a) wrapped); vm_compute; reflexivity.
Defined.

(** ** Reissues *)

Lemma apply_reissue_effect_witness : exists st', commit_planned_key_reissue OrgDemo.planned OrgDemo.st_root = (Ok (KeyReissue (str "vault") OrgDemo.ann [] 1 true true), st') /\
  reissue_applied (pr_letter OrgDemo.planned) OrgDemo.st_root st'.
Proof.
  assert ((apply_reissue (pr_letter OrgDemo.planned) OrgDemo.st_root).1 = Ok (KeyReissue (str "vault") OrgDemo.ann [] 1 true true)) as E by (vm_compute; reflexivity).
  destruct (apply_reissue (pr_letter OrgDemo.planned) OrgDemo.st_root) as [r st'] eqn:ER. simpl in E. subst r. exists st'. split.
  - unfold commit_planned_key_reissue, transaction. rewrite ER. reflexivity.
  - refine (apply_reissue_effect (pr_letter OrgDemo.planned) OrgDemo.st_root _ st' _ ER).
    apply registry_check; apply (bool_decide_unpack _); vm_compute; exact I.
Defined.

Lemma planned_reissue_accepted_witness :
  import_update (ad_bytes OrgDemo.to_bob) (OrgDemo.key x02) OrgDemo.st_bob =
  transaction (apply_reissue (set_recipient (pr_letter OrgDemo.planned) OrgDemo.bob)) OrgDemo.st_bob.
Proof.
  apply (planned_reissue_accepted OrgDemo.seal_rnd (Some OrgDemo.key_id) OrgDemo.ann (Some (OrgDemo.key x11)) (Some (OrgDemo.key x1b)) true OrgDemo.root (OrgDemo.key x0a)
    OrgDemo.st_root OrgDemo.planned OrgDemo.to_bob (OrgDemo.key x02) OrgDemo.st_bob OrgDemo.reissue_Ok).
  - vm_compute. right. left.
  - split; [split_and!; vm_compute; reflexivity|split; reflexivity].
  - vm_compute. reflexivity.
  - discriminate.
  - reflexivity.
  - vm_compute. reflexivity.
  - vm_compute. reflexivity.
  - vm_compute. reflexivity.
  - split; [vm_compute; reflexivity|]. intros [|]; right; left; vm_compute; reflexivity.
Defined.
(** ** Restructures *)

(** One tree is all this organization writes. *)
Module OrgJson.
#[export] Instance PublicNode_eq_dec : EqDecision PublicNode.
Proof. solve_decision. Defined.
#[export] Instance PublicEdge_eq_dec : EqDecision PublicEdge.
Proof. solve_decision. Defined.
#[export] Instance PublicTree_eq_dec : EqDecision PublicTree.
Proof. solve_decision. Defined.
Definition full : PublicTree := Eval vm_compute in
  match export_public_tree OrgDemo.key_id OrgDemo.st_root with Ok t => at_generation 2 t | Err _ => Build_PublicTree [] 0 [] [] [] end.
Definition json : TreeJson := {| json_to_vec t := if decide (t = full) then Some [x01] else None; json_from_slice b := if decide (b = [x01]) then Some full else None |}.
Lemma json_laws : TreeJsonLaws json.
Proof. intros t b. unfold json_to_vec, json_from_slice, json. destruct (decide (t = full)) as [->|]; [|discriminate]. intros [= <-]. reflexivity. Qed.
Definition plan : result PlannedTreeRestructure := plan_tree_restructure (J := json) OrgDemo.seal_rnd OrgDemo.key_id OrgDemo.root (OrgDemo.key x0a) OrgDemo.st_root.
Definition planned : PlannedTreeRestructure := Eval vm_compute in
  match plan with Ok p => p | Err _ => Build_PlannedTreeRestructure [] [] [] 0 0 0 [] true None [] end.
Lemma plan_Ok : plan = Ok planned.
Proof. vm_compute. reflexivity. Qed.
Definition to_bob : Addressed := Eval vm_compute in
  match filter (fun a => ad_label a = OrgDemo.bob) (ptr_packages planned) with a :: _ => a | [] => Build_Addressed [] [] [] end.
Lemma root_forest : forest OrgDemo.st_root.
Proof. apply forest_check; apply (bool_decide_unpack _); vm_compute; exact I. Qed.
Lemma bob_forest : forest OrgDemo.st_bob.
Proof. apply forest_check; apply (bool_decide_unpack _); vm_compute; exact I. Qed.
End OrgJson.

(** Bob, who had no tree, has the root's. *)
Lemma planned_restructure_delivered_witness :
  exists slice u k st', public_slice_for OrgDemo.key_id OrgDemo.bob OrgDemo.st_root = Ok slice /\
    import_update (J := OrgJson.json) (ad_bytes OrgJson.to_bob) (OrgDemo.key x02) OrgDemo.st_bob = (Ok u, st') /\
    replaced k (at_generation 2 slice) OrgDemo.st_bob st'.
Proof.
  assert (match (import_update (J := OrgJson.json) (ad_bytes OrgJson.to_bob) (OrgDemo.key x02) OrgDemo.st_bob).1 with Ok _ => True | Err _ => False end) as E by (vm_compute; exact I).
  destruct (planned_restructure_delivered (J := OrgJson.json) (TreeJsonLaws0 := OrgJson.json_laws) OrgDemo.seal_rnd OrgDemo.key_id OrgDemo.root (OrgDemo.key x0a)
    OrgDemo.st_root OrgJson.planned OrgJson.to_bob (OrgDemo.key x02) OrgDemo.st_bob OrgJson.root_forest OrgJson.plan_Ok) as (slice & l & Hs & _ & _ & _ & H).
  - vm_compute. reflexivity.
  - vm_compute. right. left.
  - vm_compute. reflexivity.
  - discriminate.
  - vm_compute. reflexivity.
  - discriminate.
  - vm_compute. reflexivity.
  - discriminate.
  - reflexivity.
  - reflexivity.
  - vm_compute. reflexivity.
  - vm_compute. reflexivity.
  - intros id stored Hid. vm_compute in Hid. discriminate.
  - exact OrgJson.bob_forest.
  - destruct (import_update (J := OrgJson.json) (ad_bytes OrgJson.to_bob) (OrgDemo.key x02) OrgDemo.st_bob) as [[u|e] st']; [|destruct E].
    destruct (H u st' eq_refl) as [k Hk]. exists slice, u, k, st'. split; [exact Hs|]. split; [reflexivity|exact Hk].
Defined.
