(* ===== verification/Access.v ===== *)
(** * The access policy of account switches ([src/src/access.rs])

    What a switch from one account to another demands: a pure function of the two
    labels, the live bridges and the policy. *)

From S2P Require Import Prelude Text Authority.

Inductive Factor := NoFactor | Password | KqstAndPassword | PasswordAndBridgeKqst | Refused.
#[export] Instance Factor_eq_dec : EqDecision Factor.
Proof. solve_decision. Defined.

Record BridgeFact := { bf_uid : bytes; bf_members : list bytes }.
Record AccessPolicy := { ap_parent_approval : bool }.
Record AccessRequirement := { rq_factor : Factor; rq_bridge_index : option nat; rq_needs_parent_grant : bool }.

Definition plain (factor : Factor) : AccessRequirement := {| rq_factor := factor; rq_bridge_index := None; rq_needs_parent_grant := false |}.
Definition granted (policy : AccessPolicy) (factor : Factor) (bridge_index : option nat) : AccessRequirement :=
  {| rq_factor := factor; rq_bridge_index := bridge_index; rq_needs_parent_grant := ap_parent_approval policy && negb (bool_decide (factor = NoFactor)) |}.

(** Some member before another one, the two connecting the accounts. *)
Fixpoint members_connect (members : list bytes) (current target : bytes) : bool :=
  match members with
  | [] => false
  | x :: rest => existsb (fun y => bridge_connects x y current target) rest || members_connect rest current target
  end.
Fixpoint first_connecting_bridge (bridges : list BridgeFact) (current target : bytes) : option nat :=
  match bridges with
  | [] => None
  | b :: bridges => if members_connect (bf_members b) current target then Some 0 else S <$> first_connecting_bridge bridges current target
  end.

Definition requirement (current target : bytes) (sudo : bool) (bridges : list BridgeFact) (policy : AccessPolicy) : AccessRequirement :=
  if bool_decide (current = []) || bool_decide (target = []) then plain Refused else
  let relation := relationship current target in
  if negb sudo && bool_decide (current = target) && match relation with ScopeOwner => true | _ => false end then plain NoFactor else
  if sudo || bool_decide (target = str "Root") then match relation with Unrelated => plain Refused | _ => plain KqstAndPassword end else
  match relation with
  | ScopeOwner => plain NoFactor
  | Descendant _ _ | Ancestor _ => granted policy Password None
  | CrossBranch _ => match first_connecting_bridge bridges current target with
                     | Some i => granted policy PasswordAndBridgeKqst (Some i)
                     | None => granted policy KqstAndPassword None
                     end
  | Unrelated => plain Refused
  end.

(** ** The rule *)

Section rule.
Context (current target : bytes) (sudo : bool) (bridges : list BridgeFact) (policy : AccessPolicy).

Definition connects (b : BridgeFact) : Prop :=
  exists j k x y, j < k /\ bf_members b !! j = Some x /\ bf_members b !! k = Some y /\ bridge_connects x y current target = true.
Definition one_branch : Prop := is_ancestor_or_self current target = true \/ is_ancestor_or_self target current = true.

(** The rule of the module's documentation, clause by clause. *)
Inductive demands : AccessRequirement -> Prop :=
| demands_refusal : is_well_formed current = false \/ is_well_formed target = false -> demands (plain Refused)
| demands_nothing : is_well_formed current = true -> sudo = false -> current = target -> demands (plain NoFactor)
| demands_root_key : is_well_formed current = true -> is_well_formed target = true -> sudo = true \/ (target = str "Root" /\ current <> target) ->
    demands (plain KqstAndPassword)
| demands_password : sudo = false -> target <> str "Root" -> current <> target -> one_branch -> demands (granted policy Password None)
| demands_bridge i b : is_well_formed current = true -> is_well_formed target = true -> sudo = false -> target <> str "Root" -> ~ one_branch ->
    bridges !! i = Some b -> connects b -> (forall j b', j < i -> bridges !! j = Some b' -> ~ connects b') -> demands (granted policy PasswordAndBridgeKqst (Some i))
| demands_own_token : is_well_formed current = true -> is_well_formed target = true -> sudo = false -> target <> str "Root" -> ~ one_branch ->
    (forall b, b ∈ bridges -> ~ connects b) -> demands (granted policy KqstAndPassword None).

Lemma members_connect_spec members : members_connect members current target = true <->
  exists j k x y, j < k /\ members !! j = Some x /\ members !! k = Some y /\ bridge_connects x y current target = true.
Proof.
  induction members as [|x rest IH]; simpl; [split; [done|]; intros (j & k & x & y & _ & H & _); by destruct j|].
  rewrite orb_true_iff, existsb_exists, IH. split.
  - intros [(y & Hy%list_elem_of_In & E)|(j & k & a & b & Hjk & Ha & Hb & E)].
    + apply list_elem_of_lookup in Hy as [k Hk]. exists 0, (S k), x, y. split_and!; [lia|done..].
    + exists (S j), (S k), a, b. split_and!; [lia|done..].
  - intros (j & k & a & b & Hjk & Ha & Hb & E). destruct k as [|k]; [lia|]. destruct j as [|j].
    + left. exists b. injection Ha as ->. split; [|done]. apply list_elem_of_In. by eapply list_elem_of_lookup_2.
    + right. exists j, k, a, b. split_and!; [lia|done..].
Qed.

Lemma first_connecting_spec : match first_connecting_bridge bridges current target with
  | Some i => exists b, bridges !! i = Some b /\ connects b /\ forall j b', j < i -> bridges !! j = Some b' -> ~ connects b'
  | None => forall b, b ∈ bridges -> ~ connects b
  end.
Proof.
  induction bridges as [|b bs IH]; simpl; [set_solver|]. destruct (members_connect (bf_members b) current target) eqn:E.
  - exists b. split; [done|]. split; [by apply members_connect_spec|]. intros j ? ?. lia.
  - assert (~ connects b) as Hb by (intros H%members_connect_spec; congruence). destruct (first_connecting_bridge bs current target) as [i|]; simpl.
    + destruct IH as (b' & Hi & Hc & Hf). exists b'. split; [done|]. split; [done|]. intros [|j] b2 Hj Hl; [by injection Hl as <-|]. eapply Hf; [|exact Hl]. lia.
    + intros b' [->|Hb']%elem_of_cons; auto.
Qed.
End rule.

Lemma relation_case current target : is_well_formed current = true -> is_well_formed target = true -> current <> target ->
  match relationship current target with
  | Descendant _ _ | Ancestor _ => one_branch current target
  | CrossBranch _ => ~ one_branch current target
  | _ => False
  end.
Proof.
  intros Wc Wt Hne. pose proof (relationship_classifies current target) as H. unfold one_branch, is_ancestor in *. destruct (relationship current target).
  - tauto.
  - left. destruct H as (_ & H & _). by apply andb_true_iff in H as [_ ?].
  - right. destruct H as (H & _). by apply andb_true_iff in H as [_ ?].
  - destruct H as (_ & _ & -> & -> & _). intros [?|?]; done.
  - rewrite Wc, Wt in H. done.
Qed.

Lemma relation_owner c : is_well_formed c = true -> relationship c c = ScopeOwner.
Proof. intros W. unfold relationship. rewrite W. simpl. by rewrite decide_True. Qed.

Lemma relation_malformed c t : is_well_formed c = false \/ is_well_formed t = false -> relationship c t = Unrelated.
Proof. intros H. unfold relationship. destruct H as [-> | ->]; [done|]. by rewrite orb_true_r. Qed.

Lemma well_formed_ne l : is_well_formed l = true -> l <> [].
Proof. intros H. by apply is_well_formed_spec in H as [? _]. Qed.

Lemma one_branch_wf c t : one_branch c t -> is_well_formed c = true /\ is_well_formed t = true.
Proof. intros [H|H]; apply ancestor_is_well_formed in H; tauto. Qed.

Lemma requirement_demands current target sudo bridges policy : demands current target sudo bridges policy (requirement current target sudo bridges policy).
Proof.
  unfold requirement. destruct (is_well_formed current) eqn:Wc; [destruct (is_well_formed target) eqn:Wt|].
  2,3: rewrite (relation_malformed current target) by (rewrite Wc || rewrite Wt; tauto);
    assert (demands current target sudo bridges policy (plain Refused)) as HR by (apply demands_refusal; tauto);
    destruct (_ || _); [done|]; rewrite andb_false_r; destruct (_ || _); done.
  rewrite !bool_decide_false by (by apply well_formed_ne). cbn [orb]. destruct (decide (current = target)) as [->|Hne].
  - rewrite relation_owner by done. rewrite (bool_decide_true (target = target)) by done. destruct sudo; cbn [negb andb orb].
    + apply demands_root_key; [done|done|by left].
    + by apply demands_nothing.
  - rewrite (bool_decide_false (current = target)) by done. rewrite andb_false_r. cbn [andb]. pose proof (relation_case current target Wc Wt Hne) as HC.
    destruct (sudo || bool_decide (target = str "Root")) eqn:B.
    + assert (sudo = true \/ (target = str "Root" /\ current <> target)) as HS by (apply orb_true_iff in B as [?|?%bool_decide_eq_true]; tauto).
      destruct (relationship current target); try done; by apply demands_root_key.
    + apply orb_false_iff in B as [-> B%bool_decide_eq_false]. destruct (relationship current target); try done; try (by apply demands_password).
      pose proof (first_connecting_spec current target bridges) as HF. destruct (first_connecting_bridge bridges current target) as [i|].
      * destruct HF as (b & Hi & Hb & Hf). by eapply demands_bridge.
      * by apply demands_own_token.
Qed.

Lemma demands_requirement current target sudo bridges policy r :
  demands current target sudo bridges policy r -> requirement current target sudo bridges policy = r.
Proof.
  assert (forall c t, is_well_formed c = true -> is_well_formed t = true -> bool_decide (c = []) || bool_decide (t = []) = false) as Hne
    by (intros c t Wc Wt; by rewrite !bool_decide_false by (by apply well_formed_ne)).
  unfold requirement. intros [W|W Es E|W W' S|Es Er Ene Eb|i b W W' Es Er Eb Hi Hc Hf|W W' Es Er Eb Hn].
  - rewrite (relation_malformed current target W). destruct (_ || _); [done|]. rewrite andb_false_r. by destruct (_ || _).
  - subst. rewrite Hne, relation_owner by done. by rewrite (bool_decide_true (target = target)).
  - rewrite Hne by done. destruct (decide (current = target)) as [->|Hct].
    + rewrite relation_owner by done. destruct S as [->|[_ ?]]; done.
    + rewrite (bool_decide_false (current = target)), andb_false_r by done. pose proof (relation_case current target W W' Hct) as HC.
      assert (sudo || bool_decide (target = str "Root") = true) as -> by (destruct S as [->|[-> _]]; [done|by rewrite orb_true_r]).
      by destruct (relationship current target).
  - destruct (one_branch_wf _ _ Eb) as [Wc Wt]. rewrite Hne, Es by done. rewrite !(bool_decide_false (_ = _)) by done. cbn [negb andb orb].
    pose proof (relation_case current target Wc Wt Ene) as HC. by destruct (relationship current target).
  - assert (current <> target) as Ene by (intros ->; apply Eb; left; by apply ancestor_or_self_refl).
    rewrite Hne, Es by done. rewrite !(bool_decide_false (_ = _)) by done. cbn [negb andb orb]. pose proof (relation_case current target W W' Ene) as HC.
    destruct (relationship current target); try done. pose proof (first_connecting_spec current target bridges) as HF.
    destruct (first_connecting_bridge bridges current target) as [j|]; [|exfalso; eapply HF; [|exact Hc]; by eapply list_elem_of_lookup_2].
    destruct HF as (b' & Hj & Hd & Hg). destruct (lt_eq_lt_dec i j) as [[Hlt| ->]|Hlt]; [by destruct (Hg i b Hlt Hi)|done|by destruct (Hf j b' Hlt Hj)].
  - assert (current <> target) as Ene by (intros ->; apply Eb; left; by apply ancestor_or_self_refl).
    rewrite Hne, Es by done. rewrite !(bool_decide_false (_ = _)) by done. cbn [negb andb orb]. pose proof (relation_case current target W W' Ene) as HC.
    destruct (relationship current target); try done. pose proof (first_connecting_spec current target bridges) as HF.
    destruct (first_connecting_bridge bridges current target) as [j|]; [|done]. destruct HF as (b' & Hj & Hd & _). destruct (Hn b'); [|done]. by eapply list_elem_of_lookup_2.
Qed.

(** [requirement] is the documented rule and nothing else: a malformed label
    is refused, the same account needs nothing, [sudo] and any switch to [Root]
    need the target's own token and password, a line of one branch the password,
    another branch the password and a token of the first live bridge that
    connects the two accounts, or the target's own token when none does. *)
Theorem requirement_exact current target sudo bridges policy r :
  demands current target sudo bridges policy r <-> requirement current target sudo bridges policy = r.
Proof. split; [apply demands_requirement|]. intros <-. apply requirement_demands. Qed.

(** The documentation asks for a parent's signature "for any switch that asks for a
    factor at all"; a [sudo], or a switch to [Root], asks for a factor and never for it. *)
Lemma root_switch_skips_grant current target sudo bridges :
  is_well_formed current = true -> is_well_formed target = true -> sudo = true \/ (target = str "Root" /\ current <> target) ->
  let r := requirement current target sudo bridges {| ap_parent_approval := true |} in rq_factor r = KqstAndPassword /\ rq_needs_parent_grant r = false.
Proof. intros Wc Wt HS. by rewrite (demands_requirement _ _ _ _ _ _ (demands_root_key current target sudo bridges {| ap_parent_approval := true |} Wc Wt HS)). Qed.
