(* ===== verification/Aead.v ===== *)
(** * Password hashing and authenticated encryption ([src/src/crypto.rs])

    Argon2id and AES-256-GCM are third-party code: the class [Aead], with what the
    callers rely on. A password or key that is wrong shows only as [None]. *)

From S2P Require Import Prelude Text Crypto Envelope HistoryCodec Signing KeyStore.

Definition NONCE_LEN : nat := 12.
Definition KEY_LEN : nat := 32.
(** The tag AES-GCM appends. *)
Definition TAG_LEN : nat := 16.

Class Aead := {
  argon2id : bytes -> bytes -> option bytes;
  aead_encrypt : bytes -> bytes -> bytes -> bytes;
  aead_decrypt : bytes -> bytes -> bytes -> option bytes;
}.
Class AeadLaws (A : Aead) : Prop := {
  argon2id_length password salt key : argon2id password salt = Some key -> length key = KEY_LEN;
  decrypt_encrypt key nonce m : aead_decrypt key nonce (aead_encrypt key nonce m) = Some m;
  encrypt_length key nonce m : length (aead_encrypt key nonce m) = length m + TAG_LEN;
}.

Definition derive_key `{Aead} (password salt : bytes) : result bytes := ok_or (argon2id password salt) KeyDerivationFailed.

(** An instance that meets the laws: the tag is a digest of key, nonce and message. *)
Module ToyAead.
Definition tag (key nonce m : bytes) : bytes := drop 16 (Toy.digest (key ++ nonce ++ m)).
Definition toy : Aead := {|
  argon2id password salt := Some (Toy.digest (password ++ x00 :: salt));
  aead_encrypt key nonce m := m ++ tag key nonce m;
  aead_decrypt key nonce c :=
    let m := take (length c - TAG_LEN) c in if bool_decide (TAG_LEN <= length c /\ drop (length c - TAG_LEN) c = tag key nonce m) then Some m else None;
|}.
Lemma tag_length key nonce m : length (tag key nonce m) = TAG_LEN.
Proof. unfold tag. by rewrite length_drop, Toy.length_digest. Qed.
Lemma toy_laws : AeadLaws toy.
Proof.
  split.
  - intros password salt key [= <-]. apply Toy.length_digest.
  - intros key nonce m. simpl. rewrite length_app, tag_length, Nat.add_sub, take_app_length, drop_app_length, bool_decide_true; [done|]. split; [lia|done].
  - intros key nonce m. simpl. by rewrite length_app, tag_length.
Qed.
End ToyAead.

(** * Slot tokens ([src/src/slot_token.rs])

    The secret keys of one identity under a passphrase, sealed to the device they
    are for. *)

Definition TOKEN_MAGIC : bytes := str "KQST".
Definition TOKEN_VERSION : byte := x02.
Definition MAX_TOKEN_LEN : nat := 4 + 1 + SALT_LEN + NONCE_LEN + 16 + 2 + N.to_nat (u16_max - 1) + DEVICE_ID_LEN + 32 + 32.

Record SlotSecrets := { ss_label : bytes; ss_encryption_secret : bytes; ss_signing_secret : bytes; ss_encryption_public : bytes; ss_signing_public : bytes }.

Definition encode_token_plain (label device_id encryption signing : bytes) : result bytes :=
  l ← push_len_prefixed label; Ok (l ++ device_id ++ encryption ++ signing).

Definition take_token : parser (bytes * bytes * bytes * bytes) :=
  label ← take_label;
  device_id ← take_array DEVICE_ID_LEN;
  encryption ← take_array 32;
  signing ← take_array 32;
  mret (label, device_id, encryption, signing).
Definition decode_token_plain (data : bytes) : result (bytes * bytes * bytes * bytes) :=
  '(plain, rest) ← take_token data; if negb (bool_decide (rest = [])) then Err InvalidDevice else Ok plain.

Section tokens.
Context `{C : Crypto} `{A : Aead}.

Definition seal_token (salt nonce : bytes) (label device_id encryption_secret signing_secret passphrase : bytes) : result bytes :=
  if bool_decide (passphrase = []) then Err InvalidPassword else
  plain ← encode_token_plain label device_id encryption_secret signing_secret;
  key ← derive_key passphrase salt;
  Ok (TOKEN_MAGIC ++ [TOKEN_VERSION] ++ salt ++ nonce ++ aead_encrypt key nonce plain).

Definition decrypt_token (token passphrase : bytes) : result bytes :=
  if (length token <? 4 + 1 + SALT_LEN + NONCE_LEN + 16) || (MAX_TOKEN_LEN <? length token) || negb (bool_decide (take 4 token = TOKEN_MAGIC))
  then Err InvalidDevice else
  '(version, data) ← take_u8 (drop 4 token);
  if negb (bool_decide (version = TOKEN_VERSION)) then Err InvalidDevice else
  '(salt, data) ← take_array SALT_LEN data;
  '(nonce, data) ← take_array NONCE_LEN data;
  key ← derive_key passphrase salt;
  ok_or (aead_decrypt key nonce data) InvalidPassword.

Definition open_slot_token (token label passphrase expected_device_id expected_signing_public expected_encryption_public : bytes) : result SlotSecrets :=
  plain ← decrypt_token token passphrase;
  '(token_label, token_device, encryption_secret, signing_secret) ← decode_token_plain plain;
  if negb (bool_decide (token_label = label)) || negb (bool_decide (token_device = expected_device_id)) then Err InvalidSlot else
  let encryption_public := box_public encryption_secret in
  let signing_public := public_key signing_secret in
  if negb (bool_decide (encryption_public = expected_encryption_public)) || negb (bool_decide (signing_public = expected_signing_public)) then Err InvalidSlot else
  Ok {| ss_label := label; ss_encryption_secret := encryption_secret; ss_signing_secret := signing_secret;
        ss_encryption_public := encryption_public; ss_signing_public := signing_public |}.
End tokens.

(** ** Laws *)

Lemma token_plain_iff data label device_id encryption signing : decode_token_plain data = Ok (label, device_id, encryption, signing) <->
  text label /\ fixed DEVICE_ID_LEN device_id /\ fixed 32 encryption /\ fixed 32 signing /\ encode_token_plain label device_id encryption signing = Ok data.
Proof.
  unfold decode_token_plain, encode_token_plain. split.
  - intros ([[[[l d] e] s] rest] & E & H)%bind_Ok. case_bool_decide as Er; [|done]. cbn [negb] in H. injection H as -> -> -> ->. subst rest. unfold take_token in E. inv_parser.
    repeat match goal with H : take_array _ _ = Ok _ |- _ => apply take_n_Ok in H as [-> ?] end. canon H label_codec. simplify_eq. do 4 (split; [done|]).
    match goal with E : push_len_prefixed _ = Ok _ |- _ => rewrite E end. cbn [mbind result_bind]. by rewrite app_nil_r.
  - intros (Ht & Hd & He & Hs & (l & El & [= <-])%bind_Ok). rewrite <- (app_nil_r signing) at 1. unfold take_token.
    assert (take_label (l ++ device_id ++ encryption ++ signing ++ []) = Ok (label, device_id ++ encryption ++ signing ++ [])) as E1 by (by eapply (codec_roundtrip _ _ _ label_codec)).
    erewrite parser_bind_eq by exact E1. do 3 (erewrite parser_bind_eq by (by apply take_n_app)). done.
Qed.

Section laws.
Context `{C : Crypto} `{A : Aead} `{!AeadLaws A}.

(** A token is as long as its layout says. *)
Lemma seal_token_length salt nonce label device_id enc sig passphrase token :
  fixed SALT_LEN salt -> fixed NONCE_LEN nonce -> fixed DEVICE_ID_LEN device_id -> fixed 32 enc -> fixed 32 sig ->
  seal_token salt nonce label device_id enc sig passphrase = Ok token ->
  (N.of_nat (length label) < u16_max)%N /\ length token = 4 + 1 + SALT_LEN + NONCE_LEN + 2 + length label + DEVICE_ID_LEN + 32 + 32 + 16.
Proof.
  unfold fixed. intros H1 H2 H3 H4 H5. unfold seal_token. case_bool_decide; [done|]. intros (plain & EP & (key & EK & [= <-])%bind_Ok)%bind_Ok.
  unfold encode_token_plain in EP. inv_ok; subst. unfold push_len_prefixed in *. inv_ok; subst. split; [done|].
  cbn [length]. rewrite !length_app, encrypt_length, !length_app, length_be_bytes, H1, H2, H3, H4, H5. unfold TAG_LEN. lia.
Qed.

(** A sealed slot token opens, for its own label, device and keys under its
    passphrase, to exactly the secrets sealed; its length is within the two limits
    [decrypt_token] puts before any decryption, so no token the program writes is
    refused unread, and the longest label meets the upper limit exactly. *)
Theorem slot_token_roundtrip salt nonce label device_id enc sig passphrase token :
  fixed SALT_LEN salt -> fixed NONCE_LEN nonce -> text label -> fixed DEVICE_ID_LEN device_id -> fixed 32 enc -> fixed 32 sig ->
  seal_token salt nonce label device_id enc sig passphrase = Ok token ->
  4 + 1 + SALT_LEN + NONCE_LEN + 16 <= length token <= MAX_TOKEN_LEN /\ (length label = N.to_nat (u16_max - 1) -> length token = MAX_TOKEN_LEN) /\
  open_slot_token token label passphrase device_id (public_key sig) (box_public enc) =
    Ok {| ss_label := label; ss_encryption_secret := enc; ss_signing_secret := sig; ss_encryption_public := box_public enc; ss_signing_public := public_key sig |}.
Proof.
  intros H1 H2 Ht H3 H4 H5 ES. destruct (seal_token_length _ _ _ _ _ _ _ _ H1 H2 H3 H4 H5 ES) as [Hl EL].
  assert (4 + 1 + SALT_LEN + NONCE_LEN + 16 <= length token <= MAX_TOKEN_LEN) as [Hlo Hhi] by (unfold MAX_TOKEN_LEN; lia).
  split; [done|]. split; [unfold MAX_TOKEN_LEN; lia|]. unfold seal_token in ES. case_bool_decide; [done|]. apply bind_Ok in ES as (plain & EP & (key & EK & Etok)%bind_Ok).
  assert (TOKEN_MAGIC ++ [TOKEN_VERSION] ++ salt ++ nonce ++ aead_encrypt key nonce plain = token) as <- by congruence. unfold open_slot_token, decrypt_token.
  rewrite (proj2 (Nat.ltb_ge _ _) Hlo), (proj2 (Nat.ltb_ge _ _) Hhi). cbn [orb]. rewrite (take_app_length' TOKEN_MAGIC), (drop_app_length' TOKEN_MAGIC) by done.
  rewrite bool_decide_true by done. cbn [negb app take_u8 mbind result_bind]. rewrite bool_decide_true by done. cbn [negb].
  unfold take_array. rewrite take_n_app by done. cbn [mbind result_bind]. rewrite take_n_app by done. cbn [mbind result_bind]. rewrite EK. cbn [mbind result_bind].
  rewrite decrypt_encrypt. cbn [ok_or mbind result_bind]. rewrite (proj2 (token_plain_iff plain label device_id enc sig)) by done. cbn [mbind result_bind].
  by rewrite !bool_decide_true by done.
Qed.

(** Whatever the bytes, an opened token holds the secrets behind the public
    keys the caller expects, for the label and device the caller names. *)
Theorem slot_token_genuine token label passphrase device_id signing_public encryption_public secrets :
  open_slot_token token label passphrase device_id signing_public encryption_public = Ok secrets ->
  ss_label secrets = label /\ box_public (ss_encryption_secret secrets) = encryption_public /\ public_key (ss_signing_secret secrets) = signing_public /\
  ss_encryption_public secrets = encryption_public /\ ss_signing_public secrets = signing_public /\ length token <= MAX_TOKEN_LEN.
Proof.
  unfold open_slot_token. intros (plain & ED & ([[[l d] e] s] & _ & H)%bind_Ok)%bind_Ok. destruct (_ || _); [done|].
  destruct (_ || _) eqn:B; [done|]. injection H as <-. apply orb_false_iff in B as [B1%negb_false_iff%bool_decide_eq_true B2%negb_false_iff%bool_decide_eq_true].
  split_and!; try done. unfold decrypt_token in ED. destruct (_ || _) eqn:B; [done|]. apply orb_false_iff in B as [[_ B]%orb_false_iff _]. by apply Nat.ltb_ge in B.
Qed.
End laws.

Module TokenDemo.
Definition key (b : byte) : bytes := replicate 32 b.
Definition token : bytes := Eval vm_compute in
  match seal_token (A := ToyAead.toy) (replicate 16 x01) (replicate 12 x02) (str "M.1") (replicate 16 x03) (key x04) (key x05) (str "open sesame") with Ok t => t | Err _ => [] end.
Lemma sealed : seal_token (A := ToyAead.toy) (replicate 16 x01) (replicate 12 x02) (str "M.1") (replicate 16 x03) (key x04) (key x05) (str "open sesame") = Ok token.
Proof. vm_compute. reflexivity. Qed.
End TokenDemo.

Lemma slot_token_roundtrip_witness :
  open_slot_token (C := Toy.toy) (A := ToyAead.toy) TokenDemo.token (str "M.1") (str "open sesame") (replicate 16 x03) (TokenDemo.key x05) (TokenDemo.key x04) =
  Ok {| ss_label := str "M.1"; ss_encryption_secret := TokenDemo.key x04; ss_signing_secret := TokenDemo.key x05;
        ss_encryption_public := TokenDemo.key x04; ss_signing_public := TokenDemo.key x05 |}.
Proof.
  exact (proj2 (proj2 (slot_token_roundtrip (C := Toy.toy) (A := ToyAead.toy) (AeadLaws0 := ToyAead.toy_laws) (replicate 16 x01) (replicate 12 x02) (str "M.1") (replicate 16 x03)
    (TokenDemo.key x04) (TokenDemo.key x05) (str "open sesame") TokenDemo.token eq_refl eq_refl eq_refl eq_refl eq_refl eq_refl TokenDemo.sealed))).
Defined.
