(* ===== verification/Clock.v ===== *)
(** * Time as SQLite tells it, and expiry dates

    Every deadline is compared by SQLite's [datetime]. It is a parameter: the class
    [Clock], on whole seconds, where [None] is SQL's [NULL]. The instant of a call,
    [datetime('now')], is an argument [now]. Then [parse_expires_utc] of
    [src/src/locked_files.rs], which checks the dates a caller may give. *)

From S2P Require Import Prelude Text Crypto Authority.

Class Clock := {
  (** [datetime(text)] *)
  datetime : bytes -> option Z;
  (** The text of [datetime('now', '+n seconds')], given the instant it denotes. *)
  datetime_at : Z -> option bytes;
  (** The text of [strftime('%Y-%m-%dT%H:%M:%fZ', 'now')]. *)
  timestamp : Z -> bytes;
  (** The text of [strftime('%Y-%m-%dT%H:%M:%SZ', 'now')]. *)
  timestamp_seconds : Z -> bytes;
}.
Class ClockLaws (CL : Clock) : Prop := {
  datetime_of_at t text : datetime_at t = Some text -> datetime text = Some t;
  timestamp_seconds_utf8 t : is_utf8 (timestamp_seconds t) = true;
}.

(** A comparison that is [NULL] cannot be read into a [bool]. *)
Definition sql_bool (b : option bool) : result bool := ok_or b Db.
(** In a [WHERE] clause, [NULL] does not select the row. *)
Definition sql_where (b : option bool) : bool := default false b.

Section compare.
Context `{CL : Clock}.
(** [datetime(text) > datetime('now')] and [datetime(text) <= datetime('now')] *)
Definition after_now (now : Z) (text : bytes) : option bool := t ← datetime text; Some (now <? t)%Z.
Definition reached (now : Z) (text : bytes) : option bool := t ← datetime text; Some (t <=? now)%Z.
(** [expires_at IS NOT NULL AND datetime(expires_at) <= datetime('now')] *)
Definition past (now : Z) (expires_at : option bytes) : option bool :=
  match expires_at with None => Some false | Some text => reached now text end.
End compare.

(** ** Expiry dates *)

Definition colon : byte := x3a.
Definition space : byte := x20.

Definition parse_fixed_digits (value : bytes) (width : nat) : option N :=
  if negb (length value =? width) || negb (forallb is_digit value) then None
  else Some (parse_u32 value).

Definition is_leap_year (year : N) : bool := ((year mod 4 =? 0) && (negb (year mod 100 =? 0) || (year mod 400 =? 0)))%N.
Definition days_in_month (year month : N) : N :=
  if bool_decide (month ∈ [1; 3; 5; 7; 8; 10; 12])%N then 31
  else if bool_decide (month ∈ [4; 6; 9; 11])%N then 30
  else if (month =? 2)%N then (if is_leap_year year then 29 else 28) else 0.

(** [{n:0w}] *)
Fixpoint pad_digits (width : nat) (n : N) : bytes :=
  match width with
  | 0 => []
  | S width => pad_digits width (n / 10) ++ [default x30 (Byte.of_N (48 + n mod 10))]
  end.

Definition parse_expires_utc (value : bytes) : result bytes :=
  '(date, time) ← ok_or (split_once space value) InvalidExpiresAt;
  match Text.split hyphen date, Text.split colon time with
  | [y; mo; d], h :: mi :: seconds =>
      if 1 <? length seconds then Err InvalidExpiresAt else
      year ← ok_or (parse_fixed_digits y 4) InvalidExpiresAt;
      month ← ok_or (parse_fixed_digits mo 2) InvalidExpiresAt;
      day ← ok_or (parse_fixed_digits d 2) InvalidExpiresAt;
      hour ← ok_or (parse_fixed_digits h 2) InvalidExpiresAt;
      minute ← ok_or (parse_fixed_digits mi 2) InvalidExpiresAt;
      second ← match seconds with s :: _ => ok_or (parse_fixed_digits s 2) InvalidExpiresAt | [] => Ok 0%N end;
      if ((year =? 0) || negb ((1 <=? month) && (month <=? 12)) || negb (hour <=? 23) || negb (minute <=? 59) || negb (second <=? 59))%N
      then Err InvalidExpiresAt else
      if ((day <? 1) || (days_in_month year month <? day))%N then Err InvalidExpiresAt else
      Ok (pad_digits 4 year ++ [hyphen] ++ pad_digits 2 month ++ [hyphen] ++ pad_digits 2 day ++ [space]
          ++ pad_digits 2 hour ++ [colon] ++ pad_digits 2 minute ++ [colon] ++ pad_digits 2 second)
  | _, _ => Err InvalidExpiresAt
  end.

Definition require_future_expires_utc `{Clock} (now : Z) (expires_at : bytes) : result unit :=
  future ← sql_bool (after_now now expires_at); if (future : bool) then Ok tt else Err ExpiresAtInPast.

(** ** Digits *)

Lemma pad_digits_length w n : length (pad_digits w n) = w.
Proof. revert n; induction w as [|w IH]; intros n; [done|]. simpl. rewrite length_app, IH. simpl. lia. Qed.

(** The byte of a decimal digit. *)
Lemma digit_byte d : (d < 10)%N -> exists b, Byte.of_N (48 + d) = Some b /\ is_digit b = true /\ digit_val b = d.
Proof.
  intros H. assert (d = 0 \/ d = 1 \/ d = 2 \/ d = 3 \/ d = 4 \/ d = 5 \/ d = 6 \/ d = 7 \/ d = 8 \/ d = 9)%N as Hd by lia.
  repeat destruct Hd as [->|Hd]; try subst d; by eexists.
Qed.

Lemma digit_of_byte b : is_digit b = true -> (digit_val b < 10)%N /\ Byte.of_N (48 + digit_val b) = Some b.
Proof.
  unfold is_digit, in_range, digit_val. intros [H1%N.leb_le H2%N.leb_le]%andb_true_iff. split; [lia|].
  replace (48 + (Byte.to_N b - 48))%N with (Byte.to_N b) by lia. apply Byte.of_to_N.
Qed.

Lemma pad_digits_utf8 w n : is_utf8 (pad_digits w n) = true.
Proof.
  apply is_utf8_ascii. revert n; induction w as [|w IH]; intros n; [done|]. cbn [pad_digits]. rewrite forallb_app, IH. cbn [andb forallb].
  destruct (digit_byte (n mod 10)) as (b & -> & Hb & _); [apply N.mod_lt; lia|]. cbn [default from_option]. unfold id. rewrite andb_true_r.
  unfold is_digit, in_range in Hb. apply andb_true_iff in Hb as [_ Hb%N.leb_le]. apply N.ltb_lt. lia.
Qed.

Lemma parse_pad w n : (n < 10 ^ N.of_nat w)%N -> parse_fixed_digits (pad_digits w n) w = Some n.
Proof.
  unfold parse_fixed_digits, parse_u32. rewrite pad_digits_length, Nat.eqb_refl. cbn [negb orb]. revert n. induction w as [|w IH]; intros n Hn.
  { simpl in *. f_equal. lia. }
  cbn [pad_digits]. destruct (digit_byte (n mod 10)) as (b & Eb & Hb & Db); [apply N.mod_lt; lia|]. rewrite Eb. cbn [default from_option]. unfold id.
  assert (n / 10 < 10 ^ N.of_nat w)%N as Hq. { apply N.Div0.div_lt_upper_bound. by rewrite Nat2N.inj_succ, N.pow_succ_r' in Hn. }
  specialize (IH _ Hq). rewrite forallb_app, foldl_app. cbn [forallb foldl]. destruct (forallb is_digit (pad_digits w (n / 10))); [|done].
  rewrite Hb. cbn [andb negb] in *. injection IH as ->. rewrite Db. f_equal. pose proof (N.div_mod' n 10). lia.
Qed.

Lemma pad_parse w value n : parse_fixed_digits value w = Some n -> pad_digits w n = value /\ (n < 10 ^ N.of_nat w)%N.
Proof.
  unfold parse_fixed_digits, parse_u32. destruct (length value =? w) eqn:EL; [|done]. apply Nat.eqb_eq in EL. cbn [negb orb].
  revert value n EL. induction w as [|w IH]; intros value n EL.
  { apply nil_length_inv in EL as ->. simpl. intros [= <-]. split; [done|lia]. }
  destruct value as [|b value' _] using rev_ind; [done|]. rewrite length_app in EL. simpl in EL. rewrite forallb_app, foldl_app. cbn [forallb foldl].
  destruct (forallb is_digit value') eqn:EF; [|done]. destruct (is_digit b) eqn:Eb; [|done]. cbn [andb negb]. intros [= <-].
  destruct (digit_of_byte _ Eb) as [Hd Ed]. specialize (IH value' (foldl (fun n b => n * 10 + digit_val b)%N 0%N value') ltac:(lia)). rewrite EF in IH. destruct (IH eq_refl) as [IH1 IH2].
  cbn [pad_digits]. set (q := foldl _ _ value') in *. assert ((q * 10 + digit_val b) / 10 = q)%N as -> by (rewrite N.add_comm, N.div_add by lia; rewrite (N.div_small (digit_val b)) by lia; lia).
  assert ((q * 10 + digit_val b) mod 10 = digit_val b)%N as -> by (rewrite N.add_comm, N.Div0.mod_add; by apply N.mod_small).
  rewrite Ed, IH1. cbn [default from_option]. unfold id. split; [done|]. rewrite Nat2N.inj_succ, N.pow_succ_r'. lia.
Qed.

(** ** What [parse_expires_utc] accepts *)

Lemma split_once_Some c l p s : split_once c l = Some (p, s) <-> l = p ++ c :: s /\ c ∉ p.
Proof.
  split.
  - revert p; induction l as [|b l IH]; intros p; simpl; [done|]. case_decide as E.
    + intros [= <- <-]. subst. split; [done|set_solver].
    + destruct (split_once c l) as [[p' s']|] eqn:ES; [|done]. intros [= <- <-]. destruct (IH p' eq_refl) as [-> Hp]. split; [done|set_solver].
  - intros [-> Hp]. induction p as [|b p IH]; simpl; [by rewrite decide_True|]. rewrite decide_False by set_solver. rewrite IH by set_solver. done.
Qed.

(** A text [parse_expires_utc] accepts is its own canonical form, the seconds
    apart: it is given back as it was, or with [:00] at its end. The canonical
    form is accepted and stays as it is. *)
Theorem parse_expires_canonical value text : parse_expires_utc value = Ok text ->
  (text = value \/ text = value ++ str ":00") /\ length text = 19 /\ parse_expires_utc text = Ok text.
Proof.
  intros E. pose proof E as E0. unfold parse_expires_utc in E. apply bind_Ok in E as ([date time] & ES%ok_or_Ok & E).
  destruct (Text.split hyphen date) as [|y [|mo [|d []]]] eqn:ED; try done. destruct (Text.split colon time) as [|h [|mi seconds]] eqn:ET; try done.
  destruct (1 <? length seconds) eqn:EN; [done|]. apply Nat.ltb_ge in EN.
  apply bind_Ok in E as (year & Py%ok_or_Ok & E). apply bind_Ok in E as (month & Pmo%ok_or_Ok & E). apply bind_Ok in E as (day & Pd%ok_or_Ok & E).
  apply bind_Ok in E as (hour & Ph%ok_or_Ok & E). apply bind_Ok in E as (minute & Pmi%ok_or_Ok & E). apply bind_Ok in E as (second & Ps & E).
  destruct (_ || _)%bool eqn:EB; [done|]. destruct ((day <? 1)%N || _) eqn:EB2; [done|]. apply Ok_inj in E.
  apply split_once_Some in ES as [EV Hsp].
  assert (date = y ++ hyphen :: mo ++ hyphen :: d) as Edate by (by rewrite <- (join_split hyphen date), ED).
  pose proof Py as Qy. pose proof Pmo as Qmo. pose proof Pd as Qd. pose proof Ph as Qh. pose proof Pmi as Qmi.
  apply pad_parse in Qy as [Qy _], Qmo as [Qmo _], Qd as [Qd _], Qh as [Qh _], Qmi as [Qmi _].
  assert (length text = 19) as EL. { rewrite <- E. rewrite !length_app. cbn [length]. rewrite !pad_digits_length. lia. }
  rewrite Qy, Qmo, Qd, Qh, Qmi in E. destruct seconds as [|s []]; simpl in EN; [| |lia].
  - injection Ps as <-. change (pad_digits 2 0) with (str "00") in E.
    assert (time = h ++ colon :: mi) as Etime by (by rewrite <- (join_split colon time), ET).
    assert (text = value ++ str ":00") as ->. { rewrite <- E, EV, Edate, Etime. rewrite <- ?app_assoc. cbn [app]. rewrite <- ?app_assoc. cbn [app]. rewrite <- ?app_assoc. reflexivity. }
    split; [by right|]. split; [done|]. unfold parse_expires_utc.
    assert (split_once space (value ++ str ":00") = Some (date, time ++ colon :: str "00")) as ->. { apply split_once_Some. split; [|done]. rewrite EV. by rewrite <- app_assoc. }
    cbn [ok_or mbind result_bind]. rewrite ED. rewrite Authority.split_app, ET. change (Text.split colon (str "00")) with [str "00"]. cbn [app length Nat.ltb Nat.leb].
    rewrite Py, Pmo, Pd, Ph, Pmi. cbn [ok_or mbind result_bind]. change (parse_fixed_digits (str "00") 2) with (Some 0%N). cbn [ok_or mbind result_bind].
    rewrite EB, EB2. change (pad_digits 2 0) with (str "00"). rewrite Qy, Qmo, Qd, Qh, Qmi. by f_equal.
  - apply ok_or_Ok, pad_parse in Ps as [Qs _]. rewrite Qs in E.
    assert (time = h ++ colon :: mi ++ colon :: s) as Etime by (by rewrite <- (join_split colon time), ET).
    assert (text = value) as ->. { rewrite <- E, EV, Edate, Etime. rewrite <- ?app_assoc. cbn [app]. rewrite <- ?app_assoc. cbn [app]. rewrite <- ?app_assoc. reflexivity. }
    split; [by left|]. done.
Qed.

(** An instance that meets the law: an instant is its ten decimal digits. *)
Module ToyClock.
Definition toy : Clock := {|
  datetime text := Z.of_N <$> parse_fixed_digits text 10;
  datetime_at t := if bool_decide (0 <= t < 10 ^ 10)%Z then Some (pad_digits 10 (Z.to_N t)) else None;
  timestamp t := pad_digits 10 (Z.to_N t);
  timestamp_seconds t := pad_digits 10 (Z.to_N t);
|}.
Lemma clock_toy_laws : ClockLaws toy.
Proof.
  split; [|intros t; apply pad_digits_utf8]. intros t text. cbn [datetime_at datetime toy]. case_bool_decide as H; [|done]. intros [= <-].
  transitivity (Z.of_N <$> parse_fixed_digits (pad_digits 10 (Z.to_N t)) 10); [reflexivity|]. rewrite parse_pad by (change (10 ^ N.of_nat 10)%N with 10000000000%N; lia). cbn. f_equal. lia.
Qed.
End ToyClock.
