(* ===== verification/Pin.v ===== *)
(** * The PIN gate ([src/src/pin.rs])

    A row of [pins] stands before a resource. [set_pin] replaces it, [verify_pin]
    spends an attempt or opens the window, [relock] closes the window. *)

From S2P Require Import Prelude Text Crypto Authority Tables KeyStore Signing BridgePackage PrivateBridge BridgeRoster Aead Clock.
From stdpp Require Import gmap.

Definition MAX_ATTEMPTS : Z := 8.

Definition as_str (t : ResourceType) : bytes :=
  match t with
  | Credential => str "credential"
  | LockedFile => str "locked_file"
  | QuorumFile => str "quorum_file"
  | CredentialShare => str "credential_share"
  | FileShare => str "file_share"
  end.

Definition is_four_digit_pin (pin : bytes) : bool := (length pin =? 4) && forallb is_digit pin.

(** A statement on the protected-file tables. *)
Definition on_vault (g : VaultTables -> VaultTables) : dbM unit := execute (fun st => set_vault (g (st_vault st)) st).
Definition on_pins (g : list PinRow -> list PinRow) : dbM unit := on_vault (fun t => set_vt_pins (g (vt_pins t)) t).
Definition update_where {A} (P : A -> bool) (g : A -> A) (l : list A) : list A := map (fun r => if P r then g r else r) l.

Definition pin_for (rt : ResourceType) (id : nat) (row : PinRow) : bool := bool_decide (pn_resource_type row = rt /\ pn_resource_id row = id).
Definition pin_id_is (id : nat) (row : PinRow) : bool := bool_decide (pn_id row = id).

Definition set_attempts (n : Z) (row : PinRow) : PinRow :=
  {| pn_id := pn_id row; pn_resource_type := pn_resource_type row; pn_resource_id := pn_resource_id row; pn_pin_hash := pn_pin_hash row; pn_pin_salt := pn_pin_salt row;
     pn_require_every_use := pn_require_every_use row; pn_ttl_seconds := pn_ttl_seconds row; pn_attempt_count := n; pn_locked_at := pn_locked_at row; pn_unlocked_until := pn_unlocked_until row |}.
Definition set_locked (at_ : option bytes) (row : PinRow) : PinRow :=
  {| pn_id := pn_id row; pn_resource_type := pn_resource_type row; pn_resource_id := pn_resource_id row; pn_pin_hash := pn_pin_hash row; pn_pin_salt := pn_pin_salt row;
     pn_require_every_use := pn_require_every_use row; pn_ttl_seconds := pn_ttl_seconds row; pn_attempt_count := pn_attempt_count row; pn_locked_at := at_; pn_unlocked_until := pn_unlocked_until row |}.
Definition set_unlocked_until (until : option bytes) (row : PinRow) : PinRow :=
  {| pn_id := pn_id row; pn_resource_type := pn_resource_type row; pn_resource_id := pn_resource_id row; pn_pin_hash := pn_pin_hash row; pn_pin_salt := pn_pin_salt row;
     pn_require_every_use := pn_require_every_use row; pn_ttl_seconds := pn_ttl_seconds row; pn_attempt_count := pn_attempt_count row; pn_locked_at := pn_locked_at row; pn_unlocked_until := until |}.

Section pins.
Context `{A : Aead} `{CL : Clock}.

Definition new_pin (rt : ResourceType) (id : nat) (hash salt : bytes) (require_every_use : bool) (ttl_seconds : Z) (pin_id : nat) : PinRow :=
  {| pn_id := pin_id; pn_resource_type := rt; pn_resource_id := id; pn_pin_hash := hash; pn_pin_salt := salt;
     pn_require_every_use := require_every_use; pn_ttl_seconds := ttl_seconds; pn_attempt_count := 0; pn_locked_at := None; pn_unlocked_until := None |}.
(** [INSERT .. ON CONFLICT (resource_type, resource_id) DO UPDATE]: a replaced row keeps its id. *)
Definition upsert_pin (rt : ResourceType) (id : nat) (row : nat -> PinRow) : dbM unit :=
  on_pins (fun pins => if existsb (pin_for rt id) pins then update_where (pin_for rt id) (fun r => row (pn_id r)) pins else pins ++ [row (next_id pn_id pins)]).

Definition set_pin (salt : bytes) (rt : ResourceType) (id : nat) (pin : bytes) (require_every_use : bool) (ttl_seconds : Z) : dbM unit :=
  if negb (is_four_digit_pin pin) then db_try (Err InvalidPin) else
  hash ← db_try (derive_key pin salt);
  if (ttl_seconds <=? 0)%Z then db_try (Err Db) else
  upsert_pin rt id (new_pin rt id hash salt require_every_use ttl_seconds).

Definition get_pin_row (rt : ResourceType) (id : nat) (st : Store) : result PinRow :=
  ok_or (first_row (pin_for rt id) (vt_pins (st_vault st))) PinNotSet.

Definition has_pin (rt : ResourceType) (id : nat) (st : Store) : result bool :=
  match get_pin_row rt id st with Ok _ => Ok true | Err PinNotSet => Ok false | Err e => Err e end.

Definition verification_required (now : Z) (rt : ResourceType) (id : nat) (st : Store) : result bool :=
  match get_pin_row rt id st with
  | Err PinNotSet => Ok false
  | Err e => Err e
  | Ok row =>
      if pn_require_every_use row || bool_decide (is_Some (pn_locked_at row)) then Ok true else
      match pn_unlocked_until row with None => Ok true | Some until => sql_bool (reached now until) end
  end.

(** The window of a PIN that is not asked for on every use. *)
Definition still_valid (now : Z) (row : PinRow) : result bool :=
  if pn_require_every_use row then Ok false else
  match pn_unlocked_until row with None => Ok false | Some until => sql_bool (after_now now until) end.

Definition verify_pin (now : Z) (rt : ResourceType) (id : nat) (pin : bytes) : dbM unit :=
  row ← query (get_pin_row rt id);
  if bool_decide (is_Some (pn_locked_at row)) then db_try (Err PinLocked) else
  valid ← db_try (still_valid now row);
  if (valid : bool) then mret tt else
  candidate_hash ← db_try (derive_key pin (pn_pin_salt row));
  if negb (bool_decide (candidate_hash = pn_pin_hash row)) then
    on_pins (update_where (pin_id_is (pn_id row)) (fun r => set_attempts (pn_attempt_count r + 1) r)) ≫= fun _ =>
    attempt_count ← query (fun st => ok_or (pn_attempt_count <$> first_row (pin_id_is (pn_id row)) (vt_pins (st_vault st))) Db);
    (if (MAX_ATTEMPTS <=? attempt_count)%Z then on_pins (update_where (pin_id_is (pn_id row)) (set_locked (Some (timestamp now)))) else mret tt) ≫= fun _ =>
    db_try (Err PinMismatch)
  else if pn_require_every_use row then on_pins (update_where (pin_id_is (pn_id row)) (set_attempts 0))
  else on_pins (update_where (pin_id_is (pn_id row)) (fun r => set_unlocked_until (datetime_at (now + pn_ttl_seconds row)) (set_attempts 0 r))).

Definition relock (rt : ResourceType) (id : nat) : dbM unit := on_pins (update_where (pin_for rt id) (set_unlocked_until None)).
End pins.

(** ** The gate as a machine on one row *)

Definition pin_key (row : PinRow) : ResourceType * nat := (pn_resource_type row, pn_resource_id row).

(** The attempts of a row stay within the limit, and below it while it is open. *)
Definition gate_ok (row : PinRow) : Prop := (0 <= pn_attempt_count row <= MAX_ATTEMPTS)%Z /\ (is_Some (pn_locked_at row) \/ pn_attempt_count row < MAX_ATTEMPTS)%Z.

(** Ids and resources are unique, and every gate is sound. *)
Record pins_ok (st : Store) : Prop := {
  pins_ids : NoDup (map pn_id (vt_pins (st_vault st)));
  pins_keys : NoDup (map pin_key (vt_pins (st_vault st)));
  pins_gates : Forall gate_ok (vt_pins (st_vault st));
}.

Definition pin_row (rt : ResourceType) (id : nat) (st : Store) : option PinRow := first_row (pin_for rt id) (vt_pins (st_vault st)).

Section machine.
Context `{A : Aead} `{CL : Clock}.

Definition accept (now : Z) (row : PinRow) : PinRow :=
  if pn_require_every_use row then set_attempts 0 row else set_unlocked_until (datetime_at (now + pn_ttl_seconds row)) (set_attempts 0 row).
Definition refuse (now : Z) (row : PinRow) : PinRow :=
  let row := set_attempts (pn_attempt_count row + 1) row in
  if (MAX_ATTEMPTS <=? pn_attempt_count row)%Z then set_locked (Some (timestamp now)) row else row.
Definition guess (now : Z) (pin : bytes) (row : PinRow) : result unit * PinRow :=
  if bool_decide (is_Some (pn_locked_at row)) then (Err PinLocked, row) else
  match still_valid now row with
  | Err e => (Err e, row)
  | Ok true => (Ok tt, row)
  | Ok false =>
      match derive_key pin (pn_pin_salt row) with
      | Err e => (Err e, row)
      | Ok hash => if bool_decide (hash = pn_pin_hash row) then (Ok tt, accept now row) else (Err PinMismatch, refuse now row)
      end
  end.
End machine.

(** ** Updating one row *)

Lemma update_where_map {B K} (f : B -> K) (P : B -> bool) (g : B -> B) l : (forall r, f (g r) = f r) -> map f (update_where P g l) = map f l.
Proof. intros H. unfold update_where. rewrite map_map. apply map_ext. intros r. by destruct (P r). Qed.
Lemma update_where_comp {B} (P : B -> bool) (g h : B -> B) l : (forall r, P r = true -> P (g r) = true) -> update_where P h (update_where P g l) = update_where P (fun r => h (g r)) l.
Proof. intros H. unfold update_where. rewrite map_map. apply map_ext. intros r. destruct (P r) eqn:E; [by rewrite H|by rewrite E]. Qed.
Lemma update_where_ext {B} (P : B -> bool) (g h : B -> B) l : (forall r, r ∈ l -> P r = true -> g r = h r) -> update_where P g l = update_where P h l.
Proof. intros H. apply map_ext_in. intros r Hr. destruct (P r) eqn:E; [|done]. apply H; [by apply list_elem_of_In|done]. Qed.
Lemma update_where_Forall {B} (Q : B -> Prop) (P : B -> bool) (g : B -> B) l : Forall Q l -> (forall r, r ∈ l -> P r = true -> Q r -> Q (g r)) -> Forall Q (update_where P g l).
Proof.
  rewrite !Forall_forall. intros HF Hg r. unfold update_where. intros (r0 & -> & Hr)%list_elem_of_fmap. destruct (P r0) eqn:E; auto.
Qed.
Lemma first_row_update {B} (P Q : B -> bool) (g : B -> B) l : (forall r, r ∈ l -> P r = true -> Q (g r) = Q r) ->
  first_row Q (update_where P g l) = (fun r => if P r then g r else r) <$> first_row Q l.
Proof.
  unfold first_row. induction l as [|r l IH]; intros H; [done|]. cbn [update_where map].
  assert (Q (if P r then g r else r) = Q r) as E by (destruct (P r) eqn:EP; [apply H; [left|done]|done]). destruct (Q r) eqn:EQ.
  - rewrite !filter_cons_True by (done || by rewrite E). done.
  - rewrite !filter_cons_False by (congruence || by rewrite E). apply IH. intros r' Hr'. apply H. by right.
Qed.

(** A row at the end of a table. *)
Lemma first_row_new {B} (P : B -> bool) l x : (forall r, r ∈ l -> P r = false) -> P x = true -> first_row P (l ++ [x]) = Some x.
Proof.
  intros Hl Hx. unfold first_row. rewrite filter_app, (filter_cons_True _ x) by done.
  assert (filter (fun r => P r = true) l = []) as ->; [|done]. apply list_nil_no_elem. intros r [E Hr]%list_elem_of_filter. by rewrite Hl in E.
Qed.
Lemma first_row_old {B} (P : B -> bool) l x : P x = false -> first_row P (l ++ [x]) = first_row P l.
Proof. intros Hx. unfold first_row. rewrite filter_app, (filter_cons_False _ x), app_nil_r by congruence. done. Qed.

Lemma pin_for_spec rt id row : pin_for rt id row = true <-> pin_key row = (rt, id).
Proof. unfold pin_for, pin_key. rewrite bool_decide_eq_true. split; [intros [-> ->]; done|by intros [= -> ->]]. Qed.

Lemma pin_row_Some rt id st row : pin_row rt id st = Some row -> row ∈ vt_pins (st_vault st) /\ pin_key row = (rt, id).
Proof. intros [? ?%pin_for_spec]%first_row_Some. done. Qed.

(** A statement by the row's id is a statement on that row. *)
Lemma by_id st rt id row r : pins_ok st -> pin_row rt id st = Some row -> r ∈ vt_pins (st_vault st) -> pin_id_is (pn_id row) r = true <-> r = row.
Proof.
  intros [HN _ _] [Hrow _]%pin_row_Some Hr. unfold pin_id_is. rewrite bool_decide_eq_true. split; [|by intros ->]. by apply (NoDup_map_eq pn_id (vt_pins (st_vault st))).
Qed.

(** [g] applied to the row of a resource. *)
Definition at_pin (row : PinRow) (row' : PinRow) (st : Store) : Store :=
  set_vault (set_vt_pins (update_where (pin_id_is (pn_id row)) (fun _ => row') (vt_pins (st_vault st))) (st_vault st)) st.

Lemma set_vt_pins_id t : set_vt_pins (vt_pins t) t = t.
Proof. by destruct t. Qed.
Lemma set_vault_id st : set_vault (st_vault st) st = st.
Proof. by destruct st. Qed.

Lemma update_pin_at st rt id row g : pins_ok st -> pin_row rt id st = Some row -> (forall r, pn_id (g r) = pn_id r) ->
  on_pins (update_where (pin_id_is (pn_id row)) g) st = (Ok tt, at_pin row (g row) st).
Proof.
  intros Hok Hr Hg. unfold on_pins, on_vault, execute, at_pin. do 3 f_equal. apply update_where_ext. intros r Hin Hp. f_equal. by eapply by_id.
Qed.

Lemma at_pin_same st rt id row : pins_ok st -> pin_row rt id st = Some row -> at_pin row row st = st.
Proof.
  intros Hok Hr. unfold at_pin. rewrite (update_where_ext _ _ (fun r => r)) by (intros r Hin Hp; symmetry; by eapply by_id).
  assert (update_where (pin_id_is (pn_id row)) (fun r => r) (vt_pins (st_vault st)) = vt_pins (st_vault st)) as ->.
  { unfold update_where. rewrite <- (map_id (vt_pins (st_vault st))) at 2. apply map_ext. intros r. by destruct (pin_id_is _ r). }
  rewrite set_vt_pins_id. apply set_vault_id.
Qed.

(** Two statements on one row are one. *)
Lemma at_pin_twice row row' row'' st : pn_id row' = pn_id row -> at_pin row' row'' (at_pin row row' st) = at_pin row row'' st.
Proof.
  intros E. transitivity (set_vault (set_vt_pins (update_where (pin_id_is (pn_id row')) (fun _ => row'')
    (update_where (pin_id_is (pn_id row)) (fun _ => row') (vt_pins (st_vault st)))) (st_vault st)) st); [reflexivity|].
  unfold at_pin. rewrite E, update_where_comp; [done|]. intros r _. unfold pin_id_is. by apply bool_decide_eq_true.
Qed.

Lemma at_pin_ok st rt id row row' : pins_ok st -> pin_row rt id st = Some row -> pn_id row' = pn_id row -> pin_key row' = pin_key row -> gate_ok row' -> pins_ok (at_pin row row' st).
Proof.
  intros Hok Hr Hid Hk Hg. pose proof Hok as [HN HK HG].
  assert (forall {K} (f : PinRow -> K), f row' = f row -> map f (vt_pins (st_vault (at_pin row row' st))) = map f (vt_pins (st_vault st))) as Hmap.
  { intros K f Ef. unfold at_pin, update_where. cbn. rewrite map_map. apply map_ext_in. intros r Hin%list_elem_of_In. destruct (pin_id_is (pn_id row) r) eqn:E; [|done].
    eapply by_id in E; [|done..]. by subst. }
  split; [by rewrite Hmap|by rewrite Hmap|]. apply update_where_Forall; [done|]. by intros.
Qed.

(** The row of the resource is the new one; every other resource keeps its own. *)
Lemma at_pin_row st rt id rt' id' row row' : pins_ok st -> pin_row rt id st = Some row -> pin_key row' = pin_key row ->
  pin_row rt' id' (at_pin row row' st) = if decide ((rt', id') = (rt, id)) then Some row' else pin_row rt' id' st.
Proof.
  intros Hok Hr Hk. pose proof (pin_row_Some _ _ _ _ Hr) as [Hin Hkey].
  assert (pin_row rt' id' (at_pin row row' st) = (fun r => if pin_id_is (pn_id row) r then row' else r) <$> pin_row rt' id' st) as ->.
  { unfold pin_row, at_pin. cbn. apply first_row_update. intros r Hr' EP. eapply by_id in EP as ->; [|done..].
    destruct (pin_for rt' id' row) eqn:E; [apply pin_for_spec in E; apply pin_for_spec; congruence|]. apply not_true_is_false. intros E'%pin_for_spec.
    apply not_true_iff_false in E. apply E, pin_for_spec. congruence. }
  case_decide as E; [injection E as -> ->; rewrite Hr; simpl; unfold pin_id_is; by rewrite bool_decide_true|].
  destruct (pin_row rt' id' st) as [r|] eqn:Er; [|done]. simpl. destruct (pin_row_Some _ _ _ _ Er) as [Hin' Hkey'].
  destruct (pin_id_is (pn_id row) r) eqn:EP; [|done]. eapply by_id in EP; [|done..]. congruence.
Qed.

(** ** [verify_pin] is the machine *)

Section verify.
Context `{A : Aead} `{CL : Clock}.

Lemma guess_keeps now pin row : pn_id (guess now pin row).2 = pn_id row /\ pin_key (guess now pin row).2 = pin_key row /\ (gate_ok row -> gate_ok (guess now pin row).2).
Proof.
  unfold guess, accept, refuse. case_bool_decide as B; [done|]. destruct (still_valid now row) as [[]|]; [done| |done].
  destruct (derive_key pin (pn_pin_salt row)) as [hash|]; [|done]. case_bool_decide; cbn [snd].
  - destruct (pn_require_every_use row); split_and!; try done; intros _; (split; [simpl; unfold MAX_ATTEMPTS; lia|right; simpl; unfold MAX_ATTEMPTS; lia]).
  - apply eq_None_not_Some in B. destruct (MAX_ATTEMPTS <=? _)%Z eqn:E; (split; [done|]; split; [done|]); intros [H1 [[? H2]|H2]]; try congruence; simpl in *.
    + split; simpl; [lia|left; by eexists].
    + split; simpl; [lia|right; lia].
Qed.

Lemma verify_pin_guess now rt id pin st row : pins_ok st -> pin_row rt id st = Some row ->
  verify_pin now rt id pin st = ((guess now pin row).1, at_pin row (guess now pin row).2 st).
Proof.
  intros Hok Hr. unfold verify_pin. assert (query (get_pin_row rt id) st = (Ok row, st)) as E.
  { unfold query, get_pin_row. fold (pin_row rt id st). by rewrite Hr. }
  rewrite (dbM_step _ _ _ _ _ E). unfold guess. case_bool_decide as B; [simpl; by erewrite at_pin_same|].
  destruct (still_valid now row) as [valid|e] eqn:EV; [|simpl; by erewrite at_pin_same]. rewrite (dbM_step _ _ st valid st) by done.
  destruct valid; [simpl; by erewrite at_pin_same|].
  destruct (derive_key pin (pn_pin_salt row)) as [hash|e] eqn:EK; [|simpl; by erewrite at_pin_same]. rewrite (dbM_step _ _ st hash st) by done.
  case_bool_decide as BH; cbn [negb].
  - cbn [fst snd]. unfold accept. destruct (pn_require_every_use row); by erewrite update_pin_at.
  - cbn [fst snd]. set (row1 := set_attempts (pn_attempt_count row + 1) row).
    erewrite dbM_step by (by eapply update_pin_at). fold row1.
    assert (pin_row rt id (at_pin row row1 st) = Some row1) as Hr1 by (erewrite at_pin_row by done; by rewrite decide_True).
    assert (first_row (pin_id_is (pn_id row)) (vt_pins (st_vault (at_pin row row1 st))) = Some row1) as Hf.
    { assert (pn_id row1 = pn_id row) as Eid by done. unfold at_pin. cbn. rewrite first_row_update.
      - assert (first_row (pin_id_is (pn_id row)) (vt_pins (st_vault st)) = Some row) as ->.
        { unfold pin_id_is. apply (first_row_key pn_id); [apply Hok|]. by apply pin_row_Some in Hr as []. }
        simpl. unfold pin_id_is. by rewrite bool_decide_true.
      - intros r _ EP. rewrite EP. unfold pin_id_is. by apply bool_decide_eq_true. }
    rewrite (dbM_step _ _ (at_pin row row1 st) (pn_attempt_count row1) (at_pin row row1 st)) by (unfold query; by rewrite Hf).
    unfold refuse. fold row1. destruct (MAX_ATTEMPTS <=? pn_attempt_count row1)%Z eqn:EM; [|done].
    assert (on_pins (update_where (pin_id_is (pn_id row)) (set_locked (Some (timestamp now)))) (at_pin row row1 st) = (Ok tt, at_pin row (set_locked (Some (timestamp now)) row1) st)) as E2.
    { transitivity (@Ok unit tt, set_vault (set_vt_pins (update_where (pin_id_is (pn_id row)) (set_locked (Some (timestamp now)))
        (update_where (pin_id_is (pn_id row)) (fun _ => row1) (vt_pins (st_vault st)))) (st_vault st)) st); [reflexivity|].
      unfold at_pin. rewrite update_where_comp; [done|]. intros r _. unfold pin_id_is. by apply bool_decide_eq_true. }
    by rewrite (dbM_step _ _ _ _ _ E2).
Qed.

Lemma verify_pin_unset now rt id pin st : pin_row rt id st = None -> verify_pin now rt id pin st = (Err PinNotSet, st).
Proof. intros E. unfold verify_pin. erewrite dbM_fail; [done|]. unfold query, get_pin_row. fold (pin_row rt id st). by rewrite E. Qed.
End verify.

(** ** Runs *)

Inductive PinOp :=
| SetPin (salt : bytes) (rt : ResourceType) (id : nat) (pin : bytes) (require_every_use : bool) (ttl_seconds : Z)
| Verify (now : Z) (rt : ResourceType) (id : nat) (pin : bytes)
| Relock (rt : ResourceType) (id : nat).

Section runs.
Context `{A : Aead} `{CL : Clock}.

Definition pin_op (op : PinOp) : dbM unit :=
  match op with
  | SetPin salt rt id pin every ttl => set_pin salt rt id pin every ttl
  | Verify now rt id pin => verify_pin now rt id pin
  | Relock rt id => relock rt id
  end.

(** Each operation with its result, in order. *)
Fixpoint run_pins (ops : list PinOp) (st : Store) : list (PinOp * result unit) * Store :=
  match ops with
  | [] => ([], st)
  | op :: ops => let '(r, st) := pin_op op st in let '(rs, st) := run_pins ops st in ((op, r) :: rs, st)
  end.

Definition sets (rt : ResourceType) (id : nat) (op : PinOp) : bool :=
  match op with SetPin _ rt' id' _ _ _ => bool_decide ((rt', id') = (rt, id)) | _ => false end.
Definition verifies (rt : ResourceType) (id : nat) (op : PinOp) : bool :=
  match op with Verify _ rt' id' _ => bool_decide ((rt', id') = (rt, id)) | _ => false end.
(** Guesses at the PIN of a resource with result [r]. *)
Definition guesses (rt : ResourceType) (id : nat) (r : result unit) (log : list (PinOp * result unit)) : nat :=
  length (filter (fun x => verifies rt id x.1 = true /\ x.2 = r) log).

Lemma upsert_pin_ok rt id hash salt every ttl st x st' : pins_ok st -> upsert_pin rt id (new_pin rt id hash salt every ttl) st = (x, st') ->
  pins_ok st' /\ forall rt' id', (rt', id') <> (rt, id) -> pin_row rt' id' st' = pin_row rt' id' st.
Proof.
  intros Hok. unfold upsert_pin. set (row := new_pin rt id hash salt every ttl).
  unfold on_pins, on_vault, execute. cbv beta. intros [= _ <-]. pose proof Hok as [HN HK HG].
  destruct (existsb (pin_for rt id) (vt_pins (st_vault st))) eqn:EX.
  - assert (forall r, r ∈ vt_pins (st_vault st) -> pin_for rt id r = true -> pin_key (row (pn_id r)) = pin_key r) as Hk by (intros r _ E%pin_for_spec; by rewrite E).
    split; [split; cbn|].
    + by rewrite update_where_map.
    + unfold update_where. rewrite map_map. erewrite map_ext_in; [exact HK|]. intros r Hin%list_elem_of_In. cbv beta. destruct (pin_for rt id r) eqn:E; [by apply Hk|done].
    + apply update_where_Forall; [done|]. intros r _ _ _. split; simpl; [unfold MAX_ATTEMPTS; lia|right; unfold MAX_ATTEMPTS; lia].
    + intros rt' id' Hne. unfold pin_row. cbn. rewrite first_row_update.
      * destruct (first_row (pin_for rt' id') (vt_pins (st_vault st))) as [r|] eqn:E; [|done]. apply first_row_Some in E as [_ E%pin_for_spec]. simpl.
        destruct (pin_for rt id r) eqn:E'; [apply pin_for_spec in E'; congruence|done].
      * intros r Hin E. specialize (Hk r Hin E). destruct (pin_for rt' id' r) eqn:E'; [apply pin_for_spec in E'; apply pin_for_spec; congruence|].
        apply not_true_is_false. intros E2%pin_for_spec. apply not_true_iff_false in E'. apply E', pin_for_spec. congruence.
  - split; [split; cbn|].
    + rewrite map_app. apply NoDup_app. split; [done|]. split; [|apply NoDup_singleton]. intros k Hx ->%list_elem_of_singleton. apply list_elem_of_fmap in Hx as (r0 & E & Hr0). by apply (next_id_fresh pn_id) in Hr0.
    + rewrite map_app. apply NoDup_app. split; [done|]. split; [|apply NoDup_singleton]. intros k Hx ->%list_elem_of_singleton. apply list_elem_of_fmap in Hx as (r & E & Hr).
      apply not_true_iff_false in EX. apply EX, existsb_exists. exists r. split; [by apply list_elem_of_In|]. by apply pin_for_spec.
    + apply Forall_app. split; [done|]. apply Forall_singleton. split; simpl; [unfold MAX_ATTEMPTS; lia|right; unfold MAX_ATTEMPTS; lia].
    + intros rt' id' Hne. unfold pin_row, first_row. cbn. rewrite filter_app, filter_cons_False, app_nil_r; [done|]. intros E%pin_for_spec. cbv in E. congruence.
Qed.

Lemma set_pin_ok salt rt id pin every ttl st x st' : pins_ok st -> set_pin salt rt id pin every ttl st = (x, st') ->
  pins_ok st' /\ forall rt' id', (rt', id') <> (rt, id) -> pin_row rt' id' st' = pin_row rt' id' st.
Proof.
  intros Hok. unfold set_pin. destruct (negb _); [by intros [= _ <-]|]. unfold mbind, dbM_bind, db_try. destruct (derive_key pin salt) as [hash|]; [|by intros [= _ <-]].
  destruct (ttl <=? 0)%Z; [by intros [= _ <-]|]. by apply upsert_pin_ok.
Qed.

Lemma relock_ok rt id st : pins_ok st -> exists st', relock rt id st = (Ok tt, st') /\ pins_ok st' /\
  forall rt' id', pin_row rt' id' st' = (fun r => if pin_for rt id r then set_unlocked_until None r else r) <$> pin_row rt' id' st.
Proof.
  intros [HN HK HG]. eexists. split; [reflexivity|]. split.
  - split; cbn; [by rewrite update_where_map|by rewrite update_where_map|]. by apply update_where_Forall.
  - intros rt' id'. unfold pin_row. cbn. by apply first_row_update.
Qed.

(** What one operation does to the gate of a resource it does not set. *)
Lemma pin_op_gate op rt id st x st' : pins_ok st -> sets rt id op = false -> pin_op op st = (x, st') -> pins_ok st' /\
  forall row, pin_row rt id st = Some row -> exists row', pin_row rt id st' = Some row' /\
    if verifies rt id op then exists now pin, op = Verify now rt id pin /\ (x, row') = guess now pin row
    else pn_attempt_count row' = pn_attempt_count row /\ pn_locked_at row' = pn_locked_at row.
Proof.
  intros Hok Hs. destruct op as [salt rt' id' pin every ttl|now rt' id' pin|rt' id']; cbn [pin_op verifies sets] in *.
  - intros [Hok' Hrow]%set_pin_ok; [|done]. split; [done|]. intros row Hr. exists row. split; [|done]. rewrite Hrow; [done|]. by apply bool_decide_eq_false in Hs.
  - destruct (pin_row rt' id' st) as [row0|] eqn:E0.
    + rewrite (verify_pin_guess _ _ _ _ _ _ Hok E0). intros [= <- <-]. destruct (guess_keeps now pin row0) as (Hi & Hk & Hg). split.
      * eapply at_pin_ok; try done. apply Hg. pose proof (pins_gates _ Hok) as HG. rewrite Forall_forall in HG. apply HG. by apply pin_row_Some in E0 as [].
      * intros row Hr. erewrite at_pin_row by done. case_bool_decide as B.
        -- rewrite decide_True by done. injection B as -> ->. eexists. split; [done|]. exists now, pin. split; [done|]. assert (row0 = row) as -> by congruence. by destruct (guess now pin row).
        -- rewrite decide_False by (intros E; apply B; by rewrite E). by exists row.
    + rewrite verify_pin_unset by done. intros [= <- <-]. split; [done|]. intros row Hr. exists row. split; [done|]. case_bool_decide as B; [|done]. injection B as -> ->. congruence.
  - destruct (relock_ok rt' id' st Hok) as (st1 & E & Hok' & Hrow). rewrite E. intros [= <- <-]. split; [done|]. intros row Hr. rewrite Hrow, Hr. simpl. eexists. split; [done|].
    by destruct (pin_for rt' id' row).
Qed.

(** A guess that is not accepted. *)
Lemma guess_refused now pin row x row' : gate_ok row -> (x, row') = guess now pin row -> x <> Ok tt ->
  (x = Err PinMismatch /\ pn_attempt_count row' = (pn_attempt_count row + 1)%Z /\ pn_locked_at row = None) \/
  (x <> Err PinMismatch /\ pn_attempt_count row' = pn_attempt_count row /\ pn_locked_at row' = pn_locked_at row).
Proof.
  intros _. unfold guess, refuse. case_bool_decide as B; [intros [= -> ->]; by right|]. apply eq_None_not_Some in B.
  destruct (still_valid now row) as [[]|e] eqn:EV; [by intros [= -> _]| |].
  - destruct (derive_key pin (pn_pin_salt row)) as [hash|e] eqn:EK.
    + case_bool_decide; intros [= -> ->]; [done|]. intros _. left. split; [done|]. split; [by destruct (_ <=? _)%Z|done].
    + intros [= -> ->] _. right. split; [|done]. unfold derive_key in EK. destruct (argon2id _ _); [done|]. by injection EK as <-.
  - intros [= -> ->] _. right. split; [|done]. unfold still_valid in EV. destruct (pn_require_every_use row); [done|]. destruct (pn_unlocked_until row); [|done].
    unfold sql_bool in EV. destruct (after_now _ _); [done|]. by injection EV as <-.
Qed.

Lemma pin_run_gate ops rt id st log st' row : pins_ok st -> pin_row rt id st = Some row -> Forall (fun op => sets rt id op = false) ops ->
  run_pins ops st = (log, st') -> guesses rt id (Ok tt) log = 0 ->
  pins_ok st' /\ exists row', pin_row rt id st' = Some row' /\ pn_attempt_count row' = (pn_attempt_count row + Z.of_nat (guesses rt id (Err PinMismatch) log))%Z /\
    (is_Some (pn_locked_at row) -> guesses rt id (Err PinMismatch) log = 0).
Proof.
  revert st log row. induction ops as [|op ops IH]; intros st log row Hok Hr HF; cbn [run_pins].
  { intros [= <- <-] _. split; [done|]. exists row. split; [done|]. split; [unfold guesses; simpl; lia|done]. }
  apply Forall_cons in HF as [Hs HF]. destruct (pin_op op st) as [x st1] eqn:EO. destruct (run_pins ops st1) as [log1 st2] eqn:ER. intros [= <- <-] Hacc.
  destruct (pin_op_gate _ _ _ _ _ _ Hok Hs EO) as [Hok1 Hg]. destruct (Hg row Hr) as (row1 & Hr1 & Hv).
  assert (gate_ok row) as Hgate by (pose proof (pins_gates _ Hok) as HG; rewrite Forall_forall in HG; apply HG; by apply pin_row_Some in Hr as []).
  destruct (verifies rt id op) eqn:EV.
  - destruct Hv as (now & pin & -> & EG). unfold guesses in Hacc. destruct (decide (x = Ok tt)) as [->|Hx]; [rewrite filter_cons_True in Hacc by done; simpl in Hacc; lia|].
    rewrite filter_cons_False in Hacc by (simpl; tauto). destruct (IH st1 log1 row1 Hok1 Hr1 HF ER Hacc) as (Hok2 & row2 & Hr2 & Ec & El). split; [done|].
    exists row2. split; [done|]. destruct (guess_refused _ _ _ _ _ Hgate EG Hx) as [(-> & E1 & E2)|(Hx' & E1 & E2)]; unfold guesses.
    + rewrite filter_cons_True by done. cbn [length]. rewrite Ec, E1. unfold guesses. split; [lia|]. rewrite E2. by intros [].
    + rewrite filter_cons_False by (simpl; tauto). rewrite Ec, E1. split; [done|]. intros Hl. apply El. by rewrite E2.
  - assert (forall r, guesses rt id r ((op, x) :: log1) = guesses rt id r log1) as Hskip by (intros r; unfold guesses; by rewrite filter_cons_False by (simpl; rewrite EV; by intros [])).
    rewrite !Hskip in *. destruct (IH st1 log1 row1 Hok1 Hr1 HF ER Hacc) as (Hok2 & row2 & Hr2 & Ec & El). split; [done|]. exists row2. split; [done|].
    destruct Hv as [<- <-]. done.
Qed.

Lemma pin_run_unset ops rt id st log st' : pins_ok st -> pin_row rt id st = None -> Forall (fun op => sets rt id op = false) ops ->
  run_pins ops st = (log, st') -> guesses rt id (Err PinMismatch) log = 0.
Proof.
  revert st log. induction ops as [|op ops IH]; intros st log Hok Hr HF; cbn [run_pins]; [by intros [= <- _]|].
  apply Forall_cons in HF as [Hs HF]. destruct (pin_op op st) as [x st1] eqn:EO. destruct (run_pins ops st1) as [log1 st2] eqn:ER. intros [= <- <-].
  destruct (pin_op_gate _ _ _ _ _ _ Hok Hs EO) as [Hok1 _].
  assert (pin_row rt id st1 = None /\ (verifies rt id op = true -> x <> Err PinMismatch)) as [Hr1 Hx].
  { destruct op as [salt rt' id' pin every ttl|now rt' id' pin|rt' id']; cbn [pin_op verifies sets] in *.
    - apply set_pin_ok in EO as [_ E]; [|done]. split; [|done]. rewrite E; [done|]. by apply bool_decide_eq_false in Hs.
    - destruct (pin_row rt' id' st) as [row0|] eqn:E0.
      + rewrite (verify_pin_guess _ _ _ _ _ _ Hok E0) in EO. injection EO as <- <-. destruct (guess_keeps now pin row0) as (Hi & Hk & Hg).
        rewrite (at_pin_row _ _ _ _ _ _ _ Hok E0) by done. case_decide as E; [congruence|]. split; [done|]. intros B%bool_decide_eq_true. congruence.
      + rewrite verify_pin_unset in EO by done. injection EO as <- <-. done.
    - destruct (relock_ok rt' id' st Hok) as (st3 & E & _ & Hrow). rewrite E in EO. injection EO as <- <-. rewrite Hrow, Hr. done. }
  unfold guesses. rewrite filter_cons_False by (intros [? ?]; by apply Hx). by apply (IH st1).
Qed.

(** C20: However the operations on PINs are interleaved, and whatever PINs are
    tried at whatever times, between two acceptances at most [MAX_ATTEMPTS] guesses
    at a resource's PIN are compared and refused; after that many the resource is
    locked, and every further guess, the right PIN included, is answered
    [PinLocked] until the PIN is set anew. *)
Theorem pin_lockout ops rt id st log st' : pins_ok st -> Forall (fun op => sets rt id op = false) ops ->
  run_pins ops st = (log, st') -> guesses rt id (Ok tt) log = 0 ->
  (Z.of_nat (guesses rt id (Err PinMismatch) log) <= MAX_ATTEMPTS)%Z /\
  (Z.of_nat (guesses rt id (Err PinMismatch) log) = MAX_ATTEMPTS -> forall now pin, verify_pin now rt id pin st' = (Err PinLocked, st')).
Proof.
  intros Hok HF HR Hacc. destruct (pin_row rt id st) as [row|] eqn:Hr.
  - destruct (pin_run_gate _ _ _ _ _ _ _ Hok Hr HF HR Hacc) as (Hok' & row' & Hr' & Ec & El).
    assert (gate_ok row /\ gate_ok row') as [[G0 _] [G1 G2]].
    { split; [pose proof (pins_gates _ Hok) as HG|pose proof (pins_gates _ Hok') as HG]; rewrite Forall_forall in HG; apply HG; [by apply pin_row_Some in Hr as []|by apply pin_row_Some in Hr' as []]. }
    split; [lia|]. intros E8 now pin. rewrite (verify_pin_guess _ _ _ _ _ _ Hok' Hr'). destruct G2 as [G2|G2]; [|lia].
    unfold guess. rewrite bool_decide_true by done. cbn [fst snd]. by erewrite at_pin_same.
  - rewrite (pin_run_unset _ _ _ _ _ _ Hok Hr HF HR). unfold MAX_ATTEMPTS. split; [lia|]. intros E. lia.
Qed.
End runs.

(** Nine guesses at one PIN. *)
Module PinDemo.
Definition empty : Store :=
  {| st_hardware := []; st_keys := []; st_nodes := []; st_bridges := []; st_links := []; st_placements := ∅; st_transfer := no_transfers; st_generations := ∅;
     st_private := no_bridges; st_org := no_updates; st_vault := no_vault; st_rings := no_rings |}.
Definition ops : list PinOp := map (fun n => Verify (Z.of_nat n) LockedFile 1 (str "0000")) (seq 1 8).
Definition start : Store := Eval vm_compute in (set_pin (A := ToyAead.toy) (replicate 16 x07) LockedFile 1 (str "1234") true 60 empty).2.
Definition run := run_pins (A := ToyAead.toy) (CL := ToyClock.toy) ops start.
Lemma start_ok : pins_ok start.
Proof. split; [by apply NoDup_singleton..|]. apply Forall_singleton. split; simpl; unfold MAX_ATTEMPTS; [lia|right; lia]. Qed.
Lemma all_refused : map snd run.1 = replicate 8 (Err PinMismatch).
Proof. vm_compute. reflexivity. Qed.
End PinDemo.

Lemma pin_lockout_witness : verify_pin (A := ToyAead.toy) (CL := ToyClock.toy) 9 LockedFile 1 (str "1234") PinDemo.run.2 = (Err PinLocked, PinDemo.run.2).
Proof.
  refine (proj2 (pin_lockout (A := ToyAead.toy) (CL := ToyClock.toy) PinDemo.ops LockedFile 1 PinDemo.start PinDemo.run.1 PinDemo.run.2 PinDemo.start_ok _ _ _) _ 9%Z (str "1234")).
  - repeat constructor.
  - apply surjective_pairing.
  - vm_compute. reflexivity.
  - vm_compute. reflexivity.
Defined.
