(* ===== verification/World.v ===== *)
(** * File storage ([src/src/storage.rs])

    Where ciphertext and device files live. The trait is the class [Storage] with
    the laws its clients rely on; [MemoryStorage], which the browser lab and the
    tests use, is modelled whole and meets them. *)

From stdpp Require Import gmap.
From S2P Require Import Prelude Text Crypto BTree Authority Signing Tables KeyStore BridgePackage PrivateBridge BridgeRoster Aead Clock Pin.

(** ** Paths

    [std::path::Path] on Unix: two spellings with the same components are the same
    path. Repeated separators and inner [.] components do not count. *)

Inductive Component := RootDir | CurDir | ParentDir | Normal (name : bytes).
#[export] Instance Component_eq_dec : EqDecision Component.
Proof. solve_decision. Defined.
#[export] Instance Component_countable : Countable Component.
Proof.
  refine (inj_countable' (fun c => match c with RootDir => inl 0 | CurDir => inl 1 | ParentDir => inl 2 | Normal n => inr n end)
    (fun x => match x with inl 0 => RootDir | inl 1 => CurDir | inl _ => ParentDir | inr n => Normal n end) _). by intros [].
Defined.

Definition slash : byte := x2f.
Definition component (piece : bytes) : option Component :=
  if bool_decide (piece = []) || bool_decide (piece = str ".") then None
  else Some (if bool_decide (piece = str "..") then ParentDir else Normal piece).
Definition components (path : bytes) : list Component :=
  match Text.split slash path with
  | first :: rest =>
      (if bool_decide (path <> [] /\ first = []) then [RootDir]
       else if bool_decide (first = str ".") then [CurDir] else option_list (component first)) ++ omap component rest
  | [] => []
  end.

(** [file_name]: the last component, when it is a name. *)
Definition file_name (path : bytes) : option bytes :=
  match last (components path) with Some (Normal name) => Some name | _ => None end.

(** [strip_prefix] *)
Fixpoint strip_components (prefix key : list Component) : option (list Component) :=
  match prefix, key with
  | [], _ => Some key
  | c :: prefix, c' :: key => if decide (c = c') then strip_components prefix key else None
  | _ :: _, [] => None
  end.
Definition path_starts_with (key prefix : list Component) : bool := bool_decide (is_Some (strip_components prefix key)).

(** [Component]'s derived order, and the lexicographic order of paths. *)
Definition component_lt (a b : Component) : bool :=
  match a, b with
  | Normal n, Normal m => str_lt n m
  | RootDir, RootDir => false
  | RootDir, _ => true
  | CurDir, (ParentDir | Normal _) => true
  | ParentDir, Normal _ => true
  | _, _ => false
  end.
Fixpoint path_le (a b : list Component) : bool :=
  match a, b with
  | [], _ => true
  | _ :: _, [] => false
  | x :: a, y :: b => component_lt x y || (bool_decide (x = y) && path_le a b)
  end.

(** ** The trait *)

Class Storage := {
  disk : Type;
  exists_path : disk -> bytes -> bool;
  storage_read : disk -> bytes -> result bytes;
  storage_write_new : disk -> bytes -> bytes -> result unit * disk;
  storage_rename : disk -> bytes -> bytes -> result unit * disk;
  storage_delete : disk -> bytes -> result unit * disk;
  storage_create_dir_all : disk -> bytes -> result unit * disk;
  storage_remove_empty_dir : disk -> bytes -> disk;
}.

(** Two disks with the same files. *)
Definition same_files `{S : Storage} (d d' : disk) : Prop := forall q, storage_read d' q = storage_read d q.

(** A file that a failed call has left: there was none at [path], there may be one now, and the
    storage refuses to delete it. *)
Definition stray `{S : Storage} (path : bytes) (d d' : disk) : Prop :=
  storage_read d path = Err (Io IoNotFound) /\ (forall q, components q <> components path -> storage_read d' q = storage_read d q) /\
  exists e, storage_delete d' path = (Err e, d').

(** What the callers rely on. Two paths are one when their components are. Every call may be
    refused; [write_new] tries to delete the file it could not fill, as [write_owner_only] does,
    and that may be refused too. *)
Class StorageLaws (S : Storage) : Prop := {
  write_new_Ok d path contents d' : storage_write_new d path contents = (Ok tt, d') ->
    storage_read d path = Err (Io IoNotFound) /\ storage_read d' path = Ok contents /\
    forall q, components q <> components path -> storage_read d' q = storage_read d q;
  write_new_Err d path contents e d' : storage_write_new d path contents = (Err e, d') -> same_files d d' \/ stray path d d';
  delete_Ok d path d' : storage_delete d path = (Ok tt, d') ->
    (forall q, components q = components path -> storage_read d' q = Err (Io IoNotFound)) /\
    forall q, components q <> components path -> storage_read d' q = storage_read d q;
  delete_Err d path e d' : storage_delete d path = (Err e, d') -> d' = d;
  delete_missing d path : storage_delete d path = (Err (Io IoNotFound), d) -> forall q, components q = components path -> storage_read d q = Err (Io IoNotFound);
  read_same (d : disk) (p q : bytes) : components p = components q -> storage_read d p = storage_read d q;
  exists_read (d : disk) (path contents : bytes) : storage_read d path = Ok contents -> exists_path d path = true;
  rename_Ok (d : disk) (from to : bytes) (d' : disk) : storage_rename d from to = (Ok tt, d') -> components from <> components to ->
    storage_read d' to = storage_read d from /\ storage_read d' from = Err (Io IoNotFound) /\
    forall q, components q <> components from -> components q <> components to -> storage_read d' q = storage_read d q;
  rename_Err (d : disk) (from to : bytes) e (d' : disk) : storage_rename d from to = (Err e, d') -> d' = d;
  create_dir_reads (d : disk) (path : bytes) r (d' : disk) : storage_create_dir_all d path = (r, d') -> forall q, storage_read d' q = storage_read d q;
  remove_dir_reads (d : disk) (path : bytes) : forall q, storage_read (storage_remove_empty_dir d path) q = storage_read d q;
}.

(** The clean-up of a caller that has to take back what it wrote: the files are as before, or the
    storage refused to delete the new one. *)
Lemma take_back `{S : Storage} `{!StorageLaws S} path contents (d d' : disk) :
  storage_write_new d path contents = (Ok tt, d') -> same_files d (storage_delete d' path).2 \/ stray path d (storage_delete d' path).2.
Proof.
  intros (HN & _ & HO)%write_new_Ok. destruct (storage_delete d' path) as [[[]|e] d2] eqn:ED; cbn.
  - left. apply delete_Ok in ED as [HD HO']. intros q. destruct (decide (components q = components path)) as [E|E].
    + by rewrite HD, (read_same d q path) by done.
    + by rewrite HO', HO by done.
  - right. pose proof (delete_Err _ _ _ _ ED) as ->. split_and!; [done..|]. by exists e.
Qed.

Section defaults.
Context `{S : Storage}.

Definition read_bounded (d : disk) (path : bytes) (max : nat) : result bytes :=
  bytes ← storage_read d path; if max <? length bytes then Err InvalidKqpkg else Ok bytes.
Definition rename_new (d : disk) (from to : bytes) : result unit * disk :=
  if exists_path d to then (Err (Io IoAlreadyExists), d) else storage_rename d from to.
Definition is_file (d : disk) (path : bytes) : bool :=
  exists_path d path && match storage_read d path with Ok _ => true | Err _ => false end.
Definition storage_write (d : disk) (path contents : bytes) : result unit * disk :=
  if exists_path d path then
    match storage_delete d path with (Ok _, d) => storage_write_new d path contents | (Err e, d) => (Err e, d) end
  else storage_write_new d path contents.
End defaults.

(** ** Files in memory *)

Module Memory.
(** [BTreeMap<PathBuf, Vec<u8>>]: keys compare by components, in increasing order. *)
Record MemoryStorage := { files : list (list Component * bytes) }.
Definition empty : MemoryStorage := {| files := [] |}.

Fixpoint get (k : list Component) (m : list (list Component * bytes)) : option bytes :=
  match m with [] => None | (k', v) :: m => if decide (k = k') then Some v else get k m end.
Fixpoint insert (k : list Component) (v : bytes) (m : list (list Component * bytes)) : list (list Component * bytes) :=
  match m with
  | [] => [(k, v)]
  | (k', v') :: m' => if decide (k = k') then (k, v) :: m' else if path_le k k' then (k, v) :: m else (k', v') :: insert k v m'
  end.
Definition remove (k : list Component) (m : list (list Component * bytes)) : list (list Component * bytes) := filter (fun x => x.1 <> k) m.

Definition keys (s : MemoryStorage) : list (list Component) := map fst (files s).

Definition paths_under (s : MemoryStorage) (prefix : bytes) : list (list Component) :=
  filter (fun key => path_starts_with key (components prefix) = true) (keys s).

Definition exists_ (s : MemoryStorage) (path : bytes) : bool :=
  bool_decide (is_Some (get (components path) (files s))) || existsb (fun key => path_starts_with key (components path)) (keys s).
Definition read (s : MemoryStorage) (path : bytes) : result bytes := ok_or (get (components path) (files s)) (Io IoNotFound).
Definition write_new (s : MemoryStorage) (path contents : bytes) : result unit * MemoryStorage :=
  if bool_decide (is_Some (get (components path) (files s))) then (Err (Io IoAlreadyExists), s)
  else (Ok tt, {| files := insert (components path) contents (files s) |}).
Definition rename (s : MemoryStorage) (from to : bytes) : result unit * MemoryStorage :=
  match get (components from) (files s) with
  | Some contents => (Ok tt, {| files := insert (components to) contents (remove (components from) (files s)) |})
  | None => (Err (Io IoNotFound), s)
  end.
Definition delete (s : MemoryStorage) (path : bytes) : result unit * MemoryStorage :=
  match get (components path) (files s) with
  | Some _ => (Ok tt, {| files := remove (components path) (files s) |})
  | None => (Err (Io IoNotFound), s)
  end.

(** [Vec::dedup] *)
Fixpoint dedup (l : list (list Component)) : list (list Component) :=
  match l with
  | a :: ((b :: _) as l') => if decide (a = b) then dedup l' else a :: dedup l'
  | l => l
  end.
(** The children of [path], as the components of [path.join(first)]. *)
Definition list_ (s : MemoryStorage) (path : bytes) : result (list (list Component)) :=
  let children := dedup (omap (fun key => rest ← strip_components (components path) key; first ← head rest; Some (components path ++ [first])) (keys s)) in
  if bool_decide (children = []) && negb (exists_ s path) then Err (Io IoNotFound) else Ok children.

Definition storage : Storage := {|
  disk := MemoryStorage;
  exists_path := exists_;
  storage_read := read;
  storage_write_new := write_new;
  storage_rename := rename;
  storage_delete := delete;
  storage_create_dir_all s _ := (Ok tt, s);
  storage_remove_empty_dir s _ := s;
|}.

Lemma get_None k m : get k m = None <-> forall x, x ∈ m -> x.1 <> k.
Proof.
  induction m as [|[k' v] m IH]; simpl; [split; [intros _ x H; by apply elem_of_nil in H|done]|]. case_decide as E.
  - split; [done|]. intros H. by destruct (H (k', v) ltac:(left)).
  - rewrite IH. setoid_rewrite elem_of_cons. split; [intros H x [->|Hx]; [simpl; congruence|auto]|auto].
Qed.
Lemma get_insert k k' v m : get k' (insert k v m) = if decide (k' = k) then Some v else get k' m.
Proof.
  induction m as [|[k0 v0] m IH]; simpl; [done|]. destruct (decide (k = k0)) as [->|Hne]; simpl; [by destruct (decide (k' = k0))|]. destruct (path_le k k0); simpl; [done|]. rewrite IH.
  destruct (decide (k' = k0)); [by rewrite decide_False by congruence|done].
Qed.
Lemma get_remove k k' m : get k' (remove k m) = if decide (k' = k) then None else get k' m.
Proof.
  unfold remove. destruct (decide (k' = k)) as [->|Hne]; [apply get_None; by intros x [? _]%list_elem_of_filter|]. induction m as [|[k0 v0] m IH]; [done|]. destruct (decide (k0 = k)) as [->|Hk].
  - rewrite filter_cons_False by (cbn; tauto). simpl. by rewrite decide_False.
  - rewrite filter_cons_True by done. simpl. by rewrite IH.
Qed.
Lemma storage_laws : StorageLaws storage.
Proof.
  split; simpl; unfold write_new, delete, read; intros d path.
  - intros contents d'. case_bool_decide as B; intros [= <-]. simpl. apply eq_None_not_Some in B. rewrite B, !get_insert, decide_True by done.
    split_and!; [done..|]. intros q Hq. by rewrite get_insert, decide_False.
  - intros contents e d'. case_bool_decide; intros [= _ <-]. by left.
  - intros d'. destruct (get (components path) (files d)) eqn:E; intros [= <-]. simpl. split; intros q Hq; rewrite get_remove; [by rewrite decide_True|by rewrite decide_False].
  - intros e d'. destruct (get (components path) (files d)); by intros [= _ <-].
  - destruct (get (components path) (files d)) eqn:E; [done|]. intros _ q Hq. by rewrite Hq, E.
  - by intros q ->.
  - unfold exists_. destruct (get (components path) (files d)); [|done]. intros ?. by rewrite bool_decide_true by eauto.
  - intros to d'. unfold rename. destruct (get (components path) (files d)) as [c|] eqn:E; [|done]. intros [= <-] Hne. simpl.
    rewrite !get_insert, !get_remove, decide_True, decide_False, decide_True by done. split_and!; [done..|].
    intros q Hq Hq'. by rewrite get_insert, get_remove, !decide_False by done.
  - intros to e d'. unfold rename. destruct (get (components path) (files d)); by intros [= _ <-].
  - by intros r d' [= _ <-].
  - done.
Qed.
End Memory.

(** * A database and a disk

    The operations on protected files change both. A function that takes a
    [Connection] and a [Storage] is a computation in [ioM]; a transaction covers the
    database and never the disk. Then the credentials of [src/src/vault.rs], which
    need no disk. *)

(** ** Computations on a connection and a storage *)

Record World `{S : Storage} := { w_db : Store; w_disk : disk }.
#[global] Arguments World : clear implicits.
#[global] Arguments World S : rename.
Definition ioM (S : Storage) (A : Type) : Type := World S -> result A * World S.
#[global] Instance ioM_ret S : MRet (ioM S) := fun _ a w => (Ok a, w).
#[global] Instance ioM_bind S : MBind (ioM S) := fun _ _ k m w =>
  match m w with (Ok a, w') => k a w' | (Err e, w') => (Err e, w') end.

Section io.
Context `{S : Storage}.

Definition io_try {A} (r : result A) : ioM S A := fun w => (r, w).
Definition db {A} (m : dbM A) : ioM S A := fun w => let '(r, st) := m (w_db w) in (r, {| w_db := st; w_disk := w_disk w |}).
Definition fs_read (path : bytes) : ioM S bytes := fun w => (storage_read (w_disk w) path, w).
Definition fs_write_new (path contents : bytes) : ioM S unit := fun w =>
  let '(r, d) := storage_write_new (w_disk w) path contents in (r, {| w_db := w_db w; w_disk := d |}).
Definition fs_delete (path : bytes) : ioM S unit := fun w =>
  let '(r, d) := storage_delete (w_disk w) path in (r, {| w_db := w_db w; w_disk := d |}).
(** The [Result] of a call as a value. *)
Definition attempt {A} (m : ioM S A) : ioM S (result A) := fun w => let '(r, w) := m w in (Ok r, w).
(** [let _ = ..] *)
Definition ignore {A} (m : ioM S A) : ioM S unit := fun w => (Ok tt, (m w).2).
Fixpoint io_each {A} (f : A -> ioM S unit) (l : list A) : ioM S unit :=
  match l with [] => mret tt | a :: l => f a ≫= fun _ => io_each f l end.
End io.

Lemma io_step {S A B} (m : ioM S A) (k : A -> ioM S B) w a w1 : m w = (Ok a, w1) -> (m ≫= k) w = k a w1.
Proof. intros E. unfold mbind, ioM_bind. by rewrite E. Qed.
Lemma io_fail {S A B} (m : ioM S A) (k : A -> ioM S B) w e w1 : m w = (Err e, w1) -> (m ≫= k) w = (Err e, w1).
Proof. intros E. unfold mbind, ioM_bind. by rewrite E. Qed.
Lemma io_bind_Ok {S A B} (m : ioM S A) (k : A -> ioM S B) w b w' :
  (a ← m; k a) w = (Ok b, w') -> exists a w1, m w = (Ok a, w1) /\ k a w1 = (Ok b, w').
Proof. unfold mbind, ioM_bind. destruct (m w) as [[a|e] w1]; [|done]. eauto. Qed.
Lemma io_try_Ok {S A} (r : result A) (w : World S) a w' : io_try r w = (Ok a, w') -> r = Ok a /\ w' = w.
Proof. unfold io_try. by intros [= -> ->]. Qed.

Lemma db_query {S A} (f : Store -> result A) (w : World S) : db (query f) w = (f (w_db w), w).
Proof. by destruct w. Qed.

(** ** What a computation may change in the database *)

Definition io_respects {S A} (R : Store -> Store -> Prop) (m : ioM S A) : Prop := forall w r w', m w = (r, w') -> R (w_db w) (w_db w').

Section io_respects.
Context {S : Storage} (R : Store -> Store -> Prop) `{!PreOrder R}.
Lemma io_respects_ret {A} (a : A) : io_respects R (mret a : ioM S A).
Proof. intros w r w' [= _ <-]. reflexivity. Qed.
Lemma io_respects_try {A} (x : result A) : io_respects R (io_try x : ioM S A).
Proof. intros w r w' [= _ <-]. reflexivity. Qed.
Lemma io_respects_db {A} (m : dbM A) : respects R m -> io_respects R (db m : ioM S A).
Proof. intros Hm w r w'. unfold db. destruct (m (w_db w)) as [x st] eqn:E. intros [= _ <-]. by eapply Hm. Qed.
Lemma io_respects_read path : io_respects R (fs_read path : ioM S bytes).
Proof. intros w r w' [= _ <-]. reflexivity. Qed.
Lemma io_respects_write path contents : io_respects R (fs_write_new path contents : ioM S unit).
Proof. intros w r w'. unfold fs_write_new. destruct (storage_write_new _ _ _). intros [= _ <-]. reflexivity. Qed.
Lemma io_respects_delete path : io_respects R (fs_delete path : ioM S unit).
Proof. intros w r w'. unfold fs_delete. destruct (storage_delete _ _). intros [= _ <-]. reflexivity. Qed.
Lemma io_respects_bind {A B} (m : ioM S A) (k : A -> ioM S B) : io_respects R m -> (forall a, io_respects R (k a)) -> io_respects R (m ≫= k).
Proof.
  intros Hm Hk w r w'. unfold mbind, ioM_bind. destruct (m w) as [[a|e] w1] eqn:E.
  - intros Ek. etransitivity; [by eapply Hm|by eapply Hk].
  - intros [= _ <-]. by eapply Hm.
Qed.
Lemma io_respects_attempt {A} (m : ioM S A) : io_respects R m -> io_respects R (attempt m).
Proof. intros Hm w r w'. unfold attempt. destruct (m w) as [x w1] eqn:E. intros [= _ <-]. by eapply Hm. Qed.
Lemma io_respects_ignore {A} (m : ioM S A) : io_respects R m -> io_respects R (ignore m).
Proof. intros Hm w r w' [= _ <-]. destruct (m w) as [x w1] eqn:E. by eapply Hm. Qed.
Lemma io_respects_each {A} (f : A -> ioM S unit) l : (forall a, io_respects R (f a)) -> io_respects R (io_each f l).
Proof. intros Hf. induction l as [|a l IH]; [apply io_respects_ret|]. apply io_respects_bind; auto. Qed.
End io_respects.

#[export] Hint Resolve io_respects_ret io_respects_try io_respects_read io_respects_write io_respects_delete : frame.

(** As [frame], with the disk. *)
Ltac io_frame :=
  cbv beta zeta;
  match goal with
  | |- io_respects _ (if _ then _ else _) => case_match; io_frame
  | |- io_respects _ (match ?x with _ => _ end) => destruct x; io_frame
  | |- io_respects _ (_ ≫= _) => first [solve [eauto with frame typeclass_instances] | apply io_respects_bind; [apply _|io_frame|intros ?; io_frame]]
  | |- io_respects _ (db _) => first [solve [eauto with frame typeclass_instances] | apply io_respects_db; frame]
  | |- io_respects _ (attempt _) => apply io_respects_attempt; io_frame
  | |- io_respects _ (ignore _) => apply io_respects_ignore; io_frame
  | |- io_respects _ (io_each _ _) => apply io_respects_each; [apply _|intros ?; io_frame]
  | |- _ => eauto with frame typeclass_instances
  end.

(** ** Text of a path *)

(** [to_str] *)
Definition path_to_str (path : bytes) : result bytes := if is_utf8 path then Ok path else Err InvalidPath.

(** [to_string_lossy]: each maximal broken sequence becomes U+FFFD. *)
Definition replacement : bytes := [xef; xbf; xbd].
Fixpoint lossy (l : bytes) : bytes :=
  match l with
  | [] => []
  | b :: r =>
      match lead b with
      | Some (1, _) => b :: lossy r
      | Some (2, ok) =>
          match r with
          | c :: r' => if ok c then b :: c :: lossy r' else replacement ++ lossy r
          | [] => replacement
          end
      | Some (3, ok) =>
          match r with
          | c :: r' =>
              if ok c then
                match r' with
                | d :: r'' => if is_cont d then b :: c :: d :: lossy r'' else replacement ++ lossy r'
                | [] => replacement
                end
              else replacement ++ lossy r
          | [] => replacement
          end
      | Some (4, ok) =>
          match r with
          | c :: r' =>
              if ok c then
                match r' with
                | d :: r'' =>
                    if is_cont d then
                      match r'' with
                      | e :: r3 => if is_cont e then b :: c :: d :: e :: lossy r3 else replacement ++ lossy r''
                      | [] => replacement
                      end
                    else replacement ++ lossy r'
                | [] => replacement
                end
              else replacement ++ lossy r
          | [] => replacement
          end
      | _ => replacement ++ lossy r
      end
  end.

(** The name a file is recorded under. *)
Definition recorded_name (source_path : bytes) : bytes := lossy (default [] (file_name source_path)).

(** ** Credentials ([src/src/vault.rs]) *)

Module Vault.
Record Credential := { c_id : nat; c_label : bytes; c_username : option bytes; c_password : bytes }.

Section vault.
Context `{A : Aead}.

Definition insert_credential (mk : nat -> CredentialRow) : dbM nat := fun st =>
  let t := st_vault st in let id := next_id cr_id (vt_credentials t) in
  (Ok id, set_vault (set_vt_credentials (vt_credentials t ++ [mk id]) t) st).

Definition add_credential (salt nonce : bytes) (label : bytes) (username : option bytes) (password master_password : bytes) : dbM nat :=
  key ← db_try (derive_key master_password salt);
  insert_credential (fun id => {| cr_id := id; cr_label := label; cr_username := username; cr_kdf_salt := salt; cr_nonce := nonce;
                                  cr_ciphertext := aead_encrypt key nonce password |}).

Definition get_credential (id : nat) (master_password : bytes) (st : Store) : result Credential :=
  row ← ok_or (first_row (fun r => bool_decide (cr_id r = id)) (vt_credentials (st_vault st))) Db;
  key ← derive_key master_password (cr_kdf_salt row);
  if negb (length (cr_nonce row) =? NONCE_LEN) then Err IntegrityCheckFailed else
  plaintext ← ok_or (aead_decrypt key (cr_nonce row) (cr_ciphertext row)) InvalidPassword;
  if negb (is_utf8 plaintext) then Err IntegrityCheckFailed else
  Ok {| c_id := id; c_label := cr_label row; c_username := cr_username row; c_password := plaintext |}.
End vault.

(** A credential reads back as it was added, and adding one leaves every other as it was. *)
Theorem credential_roundtrip `{A : Aead} `{!AeadLaws A} salt nonce label username password master st id st' :
  length nonce = NONCE_LEN -> is_utf8 password = true -> add_credential salt nonce label username password master st = (Ok id, st') ->
  get_credential id master st' = Ok {| c_id := id; c_label := label; c_username := username; c_password := password |} /\
  forall other m, other <> id -> get_credential other m st' = get_credential other m st.
Proof.
  intros Hn Ht (key & st1 & [EK ->]%db_try_Ok & [= <- <-])%dbM_bind_Ok. unfold get_credential. cbn [st_vault set_vault vt_credentials set_vt_credentials].
  set (rows := vt_credentials (st_vault st)). assert (forall r, r ∈ rows -> cr_id r <> next_id cr_id rows) as Hf by (intros r; apply next_id_fresh). split.
  - rewrite first_row_new; [|intros r Hr; by apply bool_decide_eq_false, Hf|by apply bool_decide_eq_true]. cbn [ok_or mbind result_bind cr_kdf_salt cr_nonce cr_ciphertext cr_label cr_username].
    rewrite EK. cbn [mbind result_bind]. rewrite Hn, Nat.eqb_refl, decrypt_encrypt. cbn [negb ok_or mbind result_bind]. by rewrite Ht.
  - intros other m Ho. rewrite first_row_old; [done|]. apply bool_decide_eq_false. simpl. congruence.
Qed.
End Vault.
