(* ===== verification/Sharing.v ===== *)
(** * Password-locked files ([src/src/locked_files.rs])

    The ciphertext is on the disk, its salt, nonce and expiry are a row of
    [password_locked_files]. *)

From stdpp Require Import gmap.
From S2P Require Import Prelude Text Crypto Authority Signing Tables KeyStore BridgePackage PrivateBridge BridgeRoster BridgeLaws BridgeRotation BridgeSafety Aead Clock Pin World.

Definition locked_is (id : nat) (row : LockedRow) : bool := bool_decide (lf_id row = id).
Definition set_lf_expires (expires_at : option bytes) (row : LockedRow) : LockedRow :=
  {| lf_id := lf_id row; lf_name := lf_name row; lf_encrypted_path := lf_encrypted_path row; lf_kdf_salt := lf_kdf_salt row; lf_nonce := lf_nonce row; lf_expires_at := expires_at |}.

(** [INSERT INTO password_locked_files]; [encrypted_path] is [UNIQUE]. *)
Definition insert_locked (name path salt nonce : bytes) (expires_at : option bytes) : dbM nat := fun st =>
  let t := st_vault st in
  if existsb (fun r => bool_decide (lf_encrypted_path r = path)) (vt_locked t) then (Err Db, st) else
  let id := next_id lf_id (vt_locked t) in
  (Ok id, set_vault (set_vt_locked (vt_locked t ++ [{| lf_id := id; lf_name := name; lf_encrypted_path := path; lf_kdf_salt := salt; lf_nonce := nonce; lf_expires_at := expires_at |}]) t) st).

Section locked.
Context `{A : Aead} `{CL : Clock} `{S : Storage}.

Definition lock_file_until_in (salt nonce : bytes) (source_path encrypted_path password : bytes) (expires_at : option bytes) : ioM S nat :=
  encrypted_path_str ← io_try (path_to_str encrypted_path);
  plaintext ← fs_read source_path;
  key ← io_try (derive_key password salt);
  let ciphertext := aead_encrypt key nonce plaintext in
  let name := recorded_name source_path in
  fs_write_new encrypted_path ciphertext ≫= fun _ =>
  insert ← attempt (db (insert_locked name encrypted_path_str salt nonce expires_at));
  match insert with
  | Ok id => mret id
  | Err e => ignore (fs_delete encrypted_path) ≫= fun _ => io_try (Err e)
  end.

Definition destroy_file (file_id : nat) (encrypted_path : bytes) : ioM S unit :=
  ignore (fs_delete encrypted_path) ≫= fun _ =>
  db (on_vault (fun t => set_vt_pins (filter (fun p =>
        ~ (pn_resource_type p = FileShare /\ pn_resource_id p ∈ map sr_id (filter (fun s => sr_resource s = file_id) (vt_file_shares t)))) (vt_pins t)) t)) ≫= fun _ =>
  db (on_pins (filter (fun p => ~ (pn_resource_type p = LockedFile /\ pn_resource_id p = file_id)))) ≫= fun _ =>
  (* the foreign key of [file_shares] cascades *)
  db (on_vault (fun t => set_vt_file_shares (filter (fun s => sr_resource s <> file_id) (vt_file_shares t))
                           (set_vt_locked (filter (fun r => lf_id r <> file_id) (vt_locked t)) t))).

Definition locked_row (file_id : nat) (st : Store) : option LockedRow := first_row (locked_is file_id) (vt_locked (st_vault st)).

Definition purge_if_expired_in (now : Z) (file_id : nat) : ioM S unit :=
  row ← db (query (fun st => match locked_row file_id st with
                             | None => Ok None
                             | Some r => expired ← sql_bool (past now (lf_expires_at r)); Ok (Some (lf_encrypted_path r, expired))
                             end));
  match row with
  | None | Some (_, false) => mret tt
  | Some (encrypted_path, true) => destroy_file file_id encrypted_path ≫= fun _ => io_try (Err FileExpired)
  end.

Definition unlock_file_in (now : Z) (id : nat) (password : bytes) : ioM S bytes :=
  purge_if_expired_in now id ≫= fun _ =>
  row ← db (query (fun st => ok_or (locked_row id st) Db));
  ciphertext ← fs_read (lf_encrypted_path row);
  key ← io_try (derive_key password (lf_kdf_salt row));
  if negb (length (lf_nonce row) =? NONCE_LEN) then io_try (Err IntegrityCheckFailed) else
  io_try (ok_or (aead_decrypt key (lf_nonce row) ciphertext) InvalidPassword).

Definition set_expires_at (file_id : nat) (expires_at : bytes) : dbM unit :=
  query (fun st => ok_or (locked_row file_id st) Db) ≫= fun _ =>
  on_vault (fun t => set_vt_locked (update_where (locked_is file_id) (set_lf_expires (Some expires_at)) (vt_locked t)) t).

Definition purge_expired_in (now : Z) : ioM S nat :=
  rows ← db (query (fun st => Ok (filter (fun r => sql_where (past now (lf_expires_at r)) = true) (vt_locked (st_vault st)))));
  io_each (fun r => destroy_file (lf_id r) (lf_encrypted_path r)) rows ≫= fun _ =>
  mret (length rows).
End locked.

(** ** Laws *)

(** Ids are unique. *)
Definition locked_ok (st : Store) : Prop := NoDup (map lf_id (vt_locked (st_vault st))).

Lemma locked_row_new st row : first_row (locked_is (next_id lf_id (vt_locked (st_vault st)))) (vt_locked (st_vault st) ++ [row]) =
  if bool_decide (lf_id row = next_id lf_id (vt_locked (st_vault st))) then Some row else None.
Proof.
  assert (forall r, r ∈ vt_locked (st_vault st) -> locked_is (next_id lf_id (vt_locked (st_vault st))) r = false) as Hf.
  { intros r Hr. apply bool_decide_eq_false. by apply next_id_fresh. }
  case_bool_decide as E; [by apply first_row_new; [|apply bool_decide_eq_true]|]. rewrite first_row_old by by apply bool_decide_eq_false. by apply first_row_None.
Qed.

Section laws.
Context `{A : Aead} `{!AeadLaws A} `{CL : Clock} `{S : Storage} `{!StorageLaws S}.

Lemma fs_write_new_Ok path contents (w : World S) x w' : fs_write_new path contents w = (Ok x, w') ->
  w_db w' = w_db w /\ storage_write_new (w_disk w) path contents = (Ok tt, w_disk w').
Proof. unfold fs_write_new. destruct (storage_write_new _ _ _) as [r d] eqn:E. destruct x. intros [= -> <-]. done. Qed.

Lemma lock_file_Ok salt nonce source path password expires (w : World S) id w' : lock_file_until_in salt nonce source path password expires w = (Ok id, w') ->
  exists plaintext key row, storage_read (w_disk w) source = Ok plaintext /\ derive_key password salt = Ok key /\
    storage_write_new (w_disk w) path (aead_encrypt key nonce plaintext) = (Ok tt, w_disk w') /\ locked_row id (w_db w') = Some row /\
    row = {| lf_id := id; lf_name := recorded_name source; lf_encrypted_path := path; lf_kdf_salt := salt; lf_nonce := nonce; lf_expires_at := expires |}.
Proof.
  unfold lock_file_until_in. intros (p & w0 & [Ep ->]%io_try_Ok & H)%io_bind_Ok. apply io_bind_Ok in H as (plaintext & w1 & [= ER <-] & H).
  apply io_bind_Ok in H as (key & w2 & [EK ->]%io_try_Ok & H). apply io_bind_Ok in H as (x & w3 & [Edb EW]%fs_write_new_Ok & H).
  apply io_bind_Ok in H as (ins & w4 & EI & H). unfold attempt, db, insert_locked in EI.
  unfold path_to_str in Ep. destruct (is_utf8 path); [|done]. injection Ep as <-.
  destruct (existsb _ _); injection EI as <- <-.
  { apply io_bind_Ok in H as (? & ? & ? & [? ?]%io_try_Ok). done. }
  injection H as <- <-. exists plaintext, key. eexists. split_and!; try done. unfold locked_row. cbn. rewrite locked_row_new. cbn. by rewrite bool_decide_true.
Qed.

(** What an expired file leaves: every other row, no share of its own and no PIN
    of itself or of such a share. *)
Definition destroyed (file_id : nat) (t t' : VaultTables) : Prop :=
  vt_locked t' = filter (fun r => lf_id r <> file_id) (vt_locked t) /\ vt_file_shares t' = filter (fun s => sr_resource s <> file_id) (vt_file_shares t) /\
  vt_credentials t' = vt_credentials t /\ vt_credential_shares t' = vt_credential_shares t /\ vt_files t' = vt_files t /\ vt_events t' = vt_events t /\
  (forall p, p ∈ vt_pins t' <-> p ∈ vt_pins t /\ ~ (pn_resource_type p = LockedFile /\ pn_resource_id p = file_id) /\
    ~ (pn_resource_type p = FileShare /\ exists s, s ∈ vt_file_shares t /\ sr_resource s = file_id /\ sr_id s = pn_resource_id p)).

Lemma destroy_file_effect id path (w : World S) : exists w', destroy_file id path w = (Ok tt, w') /\ w_disk w' = (storage_delete (w_disk w) path).2 /\
  destroyed id (st_vault (w_db w)) (st_vault (w_db w')) /\ locked_row id (w_db w') = None.
Proof.
  unfold destroy_file. destruct (storage_delete (w_disk w) path) as [x d] eqn:ED. erewrite io_step by (unfold ignore, fs_delete; rewrite ED; reflexivity).
  eexists. split; [reflexivity|]. split; [done|]. split; [split_and!; try done; cbn|].
  - intros p. rewrite !list_elem_of_filter. setoid_rewrite list_elem_of_fmap. setoid_rewrite list_elem_of_filter. naive_solver.
  - apply first_row_None. cbn. intros r [? _]%list_elem_of_filter. by apply bool_decide_eq_false.
Qed.

Lemma purge_live now id (w : World S) : (forall r, locked_row id (w_db w) = Some r -> past now (lf_expires_at r) = Some false) -> purge_if_expired_in now id w = (Ok tt, w).
Proof.
  intros H. unfold purge_if_expired_in. destruct (locked_row id (w_db w)) as [r|] eqn:E.
  - erewrite io_step; [|rewrite db_query, E, (H r eq_refl); reflexivity]. done.
  - erewrite io_step; [|rewrite db_query, E; reflexivity]. done.
Qed.

Lemma purge_expired now id (w : World S) r : locked_row id (w_db w) = Some r -> past now (lf_expires_at r) = Some true ->
  exists w', purge_if_expired_in now id w = (Err FileExpired, w') /\ w_disk w' = (storage_delete (w_disk w) (lf_encrypted_path r)).2 /\
    destroyed id (st_vault (w_db w)) (st_vault (w_db w')) /\ locked_row id (w_db w') = None.
Proof.
  intros E HE. unfold purge_if_expired_in. erewrite io_step; [|rewrite db_query, E, HE; reflexivity].
  destruct (destroy_file_effect id (lf_encrypted_path r) w) as (w' & ED & H). exists w'. erewrite io_step by exact ED. done.
Qed.

(** An unlock that succeeds: the file was live and its ciphertext opened. *)
Lemma unlock_file_Ok now id password (w : World S) plaintext w' : unlock_file_in now id password w = (Ok plaintext, w') -> w' = w /\
  exists r key ciphertext, locked_row id (w_db w) = Some r /\ past now (lf_expires_at r) = Some false /\ storage_read (w_disk w) (lf_encrypted_path r) = Ok ciphertext /\
    derive_key password (lf_kdf_salt r) = Ok key /\ aead_decrypt key (lf_nonce r) ciphertext = Some plaintext.
Proof.
  unfold unlock_file_in. intros ([] & w1 & EP & H)%io_bind_Ok. unfold purge_if_expired_in in EP. apply io_bind_Ok in EP as (x & w0 & EQ & EP). rewrite db_query in EQ. injection EQ as EQ <-.
  destruct (locked_row id (w_db w)) as [r|] eqn:E.
  - apply bind_Ok in EQ as (expired & EX & [= <-]). destruct expired.
    { apply io_bind_Ok in EP as (? & ? & ? & [? ?]%io_try_Ok). done. }
    injection EP as <-. apply io_bind_Ok in H as (r' & w2 & EQ & H). rewrite db_query, E in EQ. injection EQ as <- <-.
    apply io_bind_Ok in H as (c & w3 & [= ER <-] & H). apply io_bind_Ok in H as (key & w4 & [EK ->]%io_try_Ok & H).
    destruct (negb _); [by apply io_try_Ok in H as [? _]|]. apply io_try_Ok in H as [ED%ok_or_Ok ->]. split; [done|]. exists r, key, c. split_and!; try done.
    unfold sql_bool in EX. by apply ok_or_Ok in EX.
  - injection EQ as <-. injection EP as <-. apply io_bind_Ok in H as (r' & w2 & EQ & H). by rewrite db_query, E in EQ.
Qed.

(** A file locked with a password unlocks, before its expiry, to exactly the
    bytes that were locked and leaves everything as it was; at or after its expiry
    never: the attempt is answered [FileExpired], whatever the password, and leaves
    neither the row, its shares and their PINs nor, unless the storage refuses to delete it,
    the ciphertext on the disk. *)
Theorem locked_file_roundtrip salt nonce source path password expires (w : World S) id w' plaintext now :
  length nonce = NONCE_LEN -> storage_read (w_disk w) source = Ok plaintext ->
  lock_file_until_in salt nonce source path password expires w = (Ok id, w') ->
  (past now expires = Some false -> unlock_file_in now id password w' = (Ok plaintext, w')) /\
  (past now expires = Some true -> forall tried, exists w'', unlock_file_in now id tried w' = (Err FileExpired, w'') /\
     locked_row id (w_db w'') = None /\
     (storage_read (w_disk w'') path = Err (Io IoNotFound) \/ exists e, storage_delete (w_disk w') path = (Err e, w_disk w')) /\ destroyed id (st_vault (w_db w')) (st_vault (w_db w''))).
Proof.
  intros Hn HR HL. destruct (lock_file_Ok _ _ _ _ _ _ _ _ _ HL) as (plaintext' & key & row & HR' & EK & EW & Hrow & ->). assert (plaintext' = plaintext) as -> by congruence.
  destruct (write_new_Ok _ _ _ _ EW) as (_ & Hread & _). unfold unlock_file_in. split.
  - intros HE. erewrite io_step by (apply purge_live; intros r Hr; rewrite Hrow in Hr; by injection Hr as <-).
    erewrite io_step by (rewrite db_query, Hrow; reflexivity). cbn [lf_encrypted_path lf_kdf_salt lf_nonce].
    erewrite io_step by (unfold fs_read; by rewrite Hread). erewrite io_step by (unfold io_try; by rewrite EK). rewrite Hn, Nat.eqb_refl. cbn [negb].
    unfold io_try. by rewrite decrypt_encrypt.
  - intros HE tried. destruct (purge_expired now id w' _ Hrow HE) as (w'' & EP & Ed & HD & Hnone). exists w''. erewrite io_fail by exact EP. split; [done|]. split; [done|].
    rewrite Ed. cbn [lf_encrypted_path]. split; [|done]. destruct (storage_delete (w_disk w') path) as [[[]|e] d] eqn:Hdel; cbn [snd].
    + left. by apply (delete_Ok _ _ _ Hdel).
    + right. exists e. by rewrite (delete_Err _ _ _ _ Hdel).
Qed.

(** A lock that fails leaves both the database and the files as they were: ciphertext
    whose row could not be written is removed again, unless the storage refuses that. *)
Theorem lock_file_atomic salt nonce source path password expires (w : World S) e w' :
  lock_file_until_in salt nonce source path password expires w = (Err e, w') ->
  w_db w' = w_db w /\ (same_files (w_disk w) (w_disk w') \/ stray path (w_disk w) (w_disk w')).
Proof.
  unfold lock_file_until_in, path_to_str. unfold mbind, ioM_bind, io_try. destruct (is_utf8 path); [|intros [= _ <-]; split; [done|by left]].
  unfold fs_read. destruct (storage_read (w_disk w) source) as [plaintext|]; [|intros [= _ <-]; split; [done|by left]].
  destruct (derive_key password salt) as [key|]; [|intros [= _ <-]; split; [done|by left]].
  unfold fs_write_new. destruct (storage_write_new _ _ _) as [[[]|e'] d] eqn:EW.
  - unfold attempt, db, insert_locked. cbn [w_db w_disk]. destruct (existsb _ _); [|done]. unfold ignore, fs_delete. cbn [w_db w_disk].
    pose proof (take_back _ _ _ _ EW) as HB. destruct (storage_delete d path) as [x d2]. by intros [= _ <-].
  - intros [= _ <-]. by apply write_new_Err in EW.
Qed.
End laws.

(** * Share links ([src/src/sharing.rs])

    A share is a bearer token whose digest is a row of [credential_shares] or
    [file_shares], with an expiry, an optional limit of uses and a revocation. *)

(** Unpadded URL-safe base64, a third-party codec. *)
Class Base64 := { b64_encode : bytes -> bytes; b64_decode : bytes -> option bytes }.
Class Base64Laws (B : Base64) : Prop := b64_roundtrip b : b64_decode (b64_encode b) = Some b.

Definition TOKEN_LEN : nat := 32.
Record Share := { sh_id : nat; sh_token : bytes; sh_expires_at : bytes }.

Inductive ShareTable := CredentialShares | FileShares.
#[export] Instance ShareTable_eq_dec : EqDecision ShareTable.
Proof. solve_decision. Defined.

Definition shares (T : ShareTable) (t : VaultTables) : list ShareRow := match T with CredentialShares => vt_credential_shares t | FileShares => vt_file_shares t end.
Definition set_shares (T : ShareTable) (l : list ShareRow) (t : VaultTables) : VaultTables :=
  match T with CredentialShares => set_vt_credential_shares l t | FileShares => set_vt_file_shares l t end.
(** The foreign key. *)
Definition resource_exists (T : ShareTable) (id : nat) (t : VaultTables) : bool :=
  match T with
  | CredentialShares => existsb (fun r => bool_decide (cr_id r = id)) (vt_credentials t)
  | FileShares => existsb (fun r => bool_decide (lf_id r = id)) (vt_locked t)
  end.

Definition by_hash (h : bytes) (row : ShareRow) : bool := bool_decide (sr_token_hash row = h).
Definition set_use_count (n : Z) (row : ShareRow) : ShareRow :=
  {| sr_id := sr_id row; sr_resource := sr_resource row; sr_token_hash := sr_token_hash row; sr_expires_at := sr_expires_at row; sr_max_uses := sr_max_uses row;
     sr_use_count := n; sr_revoked_at := sr_revoked_at row |}.
Definition set_share_revoked (at_ : option bytes) (row : ShareRow) : ShareRow :=
  {| sr_id := sr_id row; sr_resource := sr_resource row; sr_token_hash := sr_token_hash row; sr_expires_at := sr_expires_at row; sr_max_uses := sr_max_uses row;
     sr_use_count := sr_use_count row; sr_revoked_at := at_ |}.

Section sharing.
Context `{C : Crypto} `{HX : Hex} `{B : Base64} `{CL : Clock}.

Definition generate_token (raw : bytes) : bytes * bytes := (b64_encode raw, hex_encode (sha256 raw)).
Definition hash_token (token : bytes) : result bytes := raw ← ok_or (b64_decode token) InvalidShareToken; Ok (hex_encode (sha256 raw)).

Definition share_row (T : ShareTable) (h : bytes) (st : Store) : option ShareRow := first_row (by_hash h) (shares T (st_vault st)).

Definition share_id_for_token (T : ShareTable) (token : bytes) (st : Store) : result nat :=
  h ← hash_token token; ok_or (sr_id <$> share_row T h st) InvalidShareToken.

(** [INSERT INTO {table}]: [expires_at] is [NOT NULL], [token_hash] is [UNIQUE], [max_uses] is positive when given. *)
Definition insert_share (T : ShareTable) (resource : nat) (h : bytes) (expires_at : option bytes) (max_uses : option Z) : dbM (nat * bytes) := fun st =>
  let t := st_vault st in
  match expires_at with
  | Some expires =>
      if negb (resource_exists T resource t) || existsb (by_hash h) (shares T t) || match max_uses with Some m => (m <=? 0)%Z | None => false end then (Err Db, st) else
      let id := next_id sr_id (shares T t) in
      (Ok (id, expires), set_vault (set_shares T (shares T t ++ [{| sr_id := id; sr_resource := resource; sr_token_hash := h; sr_expires_at := expires;
                                                                    sr_max_uses := max_uses; sr_use_count := 0; sr_revoked_at := None |}]) t) st)
  | None => (Err Db, st)
  end.

Definition create_share (now : Z) (raw : bytes) (T : ShareTable) (resource : nat) (ttl_seconds : option Z) (expires_at : option bytes) (max_uses : option Z) : dbM Share :=
  let '(token, token_hash) := generate_token raw in
  '(id, expires) ← match ttl_seconds, expires_at with
                   | Some ttl, None => insert_share T resource token_hash (datetime_at (now + ttl)) max_uses
                   | None, Some expires => insert_share T resource token_hash (Some expires) max_uses
                   | _, _ => db_try (Err InvalidExpiresAt)
                   end;
  mret {| sh_id := id; sh_token := token; sh_expires_at := expires |}.

(** The [WHERE] clause of the claiming update. *)
Definition eligible (now : Z) (h : bytes) (row : ShareRow) : bool :=
  by_hash h row && bool_decide (sr_revoked_at row = None) && sql_where (after_now now (sr_expires_at row)) &&
  match sr_max_uses row with None => true | Some m => (sr_use_count row <? m)%Z end.

Definition redeem_share (now : Z) (T : ShareTable) (token : bytes) : dbM nat :=
  token_hash ← db_try (hash_token token);
  claimed ← query (fun st => Ok (length (filter (fun r => eligible now token_hash r = true) (shares T (st_vault st)))));
  on_vault (fun t => set_shares T (update_where (eligible now token_hash) (fun r => set_use_count (sr_use_count r + 1) r) (shares T t)) t) ≫= fun _ =>
  if claimed =? 1 then query (fun st => ok_or (sr_resource <$> share_row T token_hash st) Db) else
  row ← query (fun st => match share_row T token_hash st with
                         | None => Ok None
                         | Some r => expired ← sql_bool (reached now (sr_expires_at r)); Ok (Some (bool_decide (sr_revoked_at r <> None), expired, sr_max_uses r, sr_use_count r))
                         end);
  db_try match row with
         | None => Err InvalidShareToken
         | Some (revoked, expired, max_uses, use_count) => if (revoked : bool) then Err ShareRevoked else if (expired : bool) then Err ShareExpired else Err ShareExhausted
         end.

Definition revoke_share (now : Z) (T : ShareTable) (share_id : nat) : dbM unit :=
  on_vault (fun t => set_shares T (update_where (fun r => bool_decide (sr_id r = share_id)) (set_share_revoked (datetime_at now)) (shares T t)) t).

Definition create_credential_share (now : Z) (raw : bytes) (credential_id : nat) (ttl_seconds : Z) (max_uses : option Z) : dbM Share :=
  create_share now raw CredentialShares credential_id (Some ttl_seconds) None max_uses.
Definition redeem_credential_share (now : Z) (token : bytes) : dbM nat := redeem_share now CredentialShares token.
Definition revoke_credential_share (now : Z) (share_id : nat) : dbM unit := revoke_share now CredentialShares share_id.
Definition create_file_share (now : Z) (raw : bytes) (file_id : nat) (ttl_seconds : Z) (max_uses : option Z) : dbM Share :=
  create_share now raw FileShares file_id (Some ttl_seconds) None max_uses.
Definition create_file_share_until (now : Z) (raw : bytes) (file_id : nat) (expires_at : bytes) (max_uses : option Z) : dbM Share :=
  Sharing.set_expires_at file_id expires_at ≫= fun _ => create_share now raw FileShares file_id None (Some expires_at) max_uses.
Definition revoke_file_share (now : Z) (share_id : nat) : dbM unit := revoke_share now FileShares share_id.

Section files.
Context `{S : Storage}.
Definition purge_expired_file_share_in (now : Z) (token : bytes) : ioM S unit :=
  token_hash ← io_try (hash_token token);
  file_id ← db (query (fun st => Ok (sr_resource <$> share_row FileShares token_hash st)));
  match file_id with None => mret tt | Some id => Sharing.purge_if_expired_in now id end.
Definition redeem_file_share_in (now : Z) (token : bytes) : ioM S nat :=
  purge_expired_file_share_in now token ≫= fun _ => db (redeem_share now FileShares token).
End files.
End sharing.

(** ** What the tables keep *)

(** Digests are unique, and no share was used more often than it may be. *)
Definition uses_ok (row : ShareRow) : Prop := (0 <= sr_use_count row)%Z /\ forall m, sr_max_uses row = Some m -> (sr_use_count row <= m)%Z.
Definition shares_ok (st : Store) : Prop := forall T, NoDup (map sr_token_hash (shares T (st_vault st))) /\ Forall uses_ok (shares T (st_vault st)).

(** One share over time: it can be revoked, and nothing else changes but its count. *)
Record evolves (row row' : ShareRow) : Prop := {
  ev_same_id : sr_id row' = sr_id row;
  ev_same_resource : sr_resource row' = sr_resource row;
  ev_same_hash : sr_token_hash row' = sr_token_hash row;
  ev_same_expiry : sr_expires_at row' = sr_expires_at row;
  ev_same_limit : sr_max_uses row' = sr_max_uses row;
  ev_same_count : sr_use_count row' = sr_use_count row;
  ev_revoked : is_Some (sr_revoked_at row) -> is_Some (sr_revoked_at row');
}.
#[export] Instance evolves_preorder : PreOrder evolves.
Proof. split; [by intros row|]. intros r1 r2 r3 [] []. split; [congruence..|auto]. Qed.

Section frame.
Context `{C : Crypto} `{HX : Hex} `{B : Base64} `{CL : Clock}.

(** The share of a digest is the same share, unused, or is gone. *)
Definition keeps_share (T : ShareTable) (h : bytes) (st st' : Store) : Prop :=
  shares_ok st -> shares_ok st' /\ match share_row T h st with
                                   | None => share_row T h st' = None
                                   | Some row => share_row T h st' = None \/ exists row', share_row T h st' = Some row' /\ evolves row row'
                                   end.
#[export] Instance keeps_share_preorder T h : PreOrder (keeps_share T h).
Proof.
  split.
  - intros st Hok. split; [done|]. destruct (share_row T h st) as [row|]; [|done]. right. by exists row.
  - intros st1 st2 st3 H12 H23 Hok. destruct (H12 Hok) as [Hok2 H]. destruct (H23 Hok2) as [Hok3 H']. split; [done|].
    destruct (share_row T h st1) as [row|]; [|rewrite H in H'; done]. destruct H as [E|(row' & E & Hv)]; rewrite E in H'; [by left|].
    destruct H' as [E'|(row'' & E' & Hv')]; [by left|]. right. exists row''. split; [done|]. by transitivity row'.
Qed.

Lemma shares_set T T' l t : shares T (set_shares T' l t) = if decide (T = T') then l else shares T t.
Proof. by destruct T, T'. Qed.

(** A statement that leaves both share tables alone. *)
Lemma keeps_share_same T h st st' : (forall T', shares T' (st_vault st') = shares T' (st_vault st)) -> keeps_share T h st st'.
Proof.
  intros E Hok. split; [intros T'; rewrite E; apply Hok|]. unfold share_row. rewrite E. destruct (first_row _ _) as [row|]; [|done]. right. by exists row.
Qed.

(** A statement on one table by rows. *)
Lemma keeps_share_update T h T' P g st : (forall r, P r = true -> uses_ok r -> uses_ok (g r) /\ sr_token_hash (g r) = sr_token_hash r) ->
  (forall r, T' = T -> sr_token_hash r = h -> P r = true -> evolves r (g r)) ->
  keeps_share T h st (set_vault (set_shares T' (update_where P g (shares T' (st_vault st))) (st_vault st)) st).
Proof.
  intros Hg He Hok. assert (forall r, r ∈ shares T' (st_vault st) -> P r = true -> uses_ok (g r) /\ sr_token_hash (g r) = sr_token_hash r) as Hg'.
  { intros r Hr HP. apply Hg; [done|]. destruct (Hok T') as [_ HF]. rewrite Forall_forall in HF. by apply HF. }
  split.
  - intros T0. cbn. rewrite shares_set. case_decide as E; [|apply Hok]. subst T0. destruct (Hok T') as [HN HF]. split.
    + unfold update_where. rewrite map_map. erewrite map_ext_in; [exact HN|]. intros r Hr%list_elem_of_In. cbv beta. destruct (P r) eqn:EP; [by apply Hg'|done].
    + apply update_where_Forall; [done|]. intros r Hr HP _. by apply Hg'.
  - unfold share_row. cbn. rewrite shares_set. case_decide as E; [subst T'|destruct (first_row _ _) as [row|]; [right; by exists row|done]].
    rewrite first_row_update; [|intros r Hr HP; unfold by_hash; by rewrite (proj2 (Hg' r Hr HP))].
    destruct (first_row (by_hash h) _) as [row|] eqn:ER; [|done]. right. simpl. eexists. split; [done|]. apply first_row_Some in ER as [_ Eh%bool_decide_eq_true].
    destruct (P row) eqn:EP; [by apply He|done].
Qed.

Lemma keeps_share_delete T h T' (Q : ShareRow -> Prop) `{!forall r, Decision (Q r)} st st' : (forall T0, shares T0 (st_vault st') = if decide (T0 = T') then filter Q (shares T' (st_vault st)) else shares T0 (st_vault st)) ->
  keeps_share T h st st'.
Proof.
  intros E Hok. split.
  - intros T0. rewrite E. case_decide; [subst|apply Hok]. destruct (Hok T') as [HN HF]. split; [by apply BridgeSafety.NoDup_map_filter|]. rewrite Forall_forall in *. intros r [_ Hr]%list_elem_of_filter. auto.
  - unfold share_row. rewrite E. case_decide as ET; [subst T'|destruct (first_row _ _) as [row|]; [right; by exists row|done]].
    destruct (first_row (by_hash h) (shares T (st_vault st))) as [row|] eqn:ER.
    + apply first_row_Some in ER as [Hr Eh]. destruct (decide (Q row)) as [HQ|HQ].
      * right. exists row. split; [|done]. destruct (Hok T) as [HN _]. apply bool_decide_eq_true in Eh. subst h. apply (first_row_key sr_token_hash); [by apply BridgeSafety.NoDup_map_filter|]. by apply list_elem_of_filter.
      * left. apply first_row_None. intros r [HQr Hr']%list_elem_of_filter. destruct (by_hash h r) eqn:Eh'; [|done]. apply bool_decide_eq_true in Eh, Eh'. destruct (Hok T) as [HN _].
        assert (r = row) as -> by (eapply (NoDup_map_eq sr_token_hash); [exact HN|done|done|congruence]). done.
    + apply first_row_None. intros r [_ Hr]%list_elem_of_filter. eapply first_row_None in ER; done.
Qed.

(** ** Each statement *)

Lemma insert_share_keeps T h T' resource h' expires max_uses : (T', h') <> (T, h) -> respects (keeps_share T h) (insert_share T' resource h' expires max_uses).
Proof.
  intros Hne st r st'. unfold insert_share. destruct expires as [expires|]; [|intros [= _ <-]; reflexivity].
  destruct (negb _ || _ || _) eqn:EB; [intros [= _ <-]; reflexivity|]. intros [= _ <-]. apply orb_false_iff in EB as [[_ EU]%orb_false_iff EM].
  set (row := Build_ShareRow _ _ _ _ _ _ _). intros Hok. split.
  - intros T0. cbn. rewrite shares_set. case_decide as E; [subst T0|apply Hok]. destruct (Hok T') as [HN HF]. split.
    + rewrite map_app. apply NoDup_app. split; [done|]. split; [|apply NoDup_singleton]. intros k Hk ->%list_elem_of_singleton. apply list_elem_of_fmap in Hk as (r0 & E & Hr0).
      apply not_true_iff_false in EU. apply EU, existsb_exists. exists r0. split; [by apply list_elem_of_In|]. by apply bool_decide_eq_true.
    + apply Forall_app. split; [done|]. apply Forall_singleton. split; cbn; [lia|]. intros m ->. apply Z.leb_gt in EM. lia.
  - unfold share_row. cbn. rewrite shares_set. case_decide as E; [subst T'|destruct (first_row _ _) as [r0|]; [right; by exists r0|done]].
    rewrite first_row_old by (apply bool_decide_eq_false; cbn; congruence). destruct (first_row _ _) as [r0|]; [right; by exists r0|done].
Qed.

Lemma create_share_keeps T h now raw T' resource ttl expires max_uses : (T', (generate_token raw).2) <> (T, h) ->
  respects (keeps_share T h) (create_share now raw T' resource ttl expires max_uses).
Proof.
  intros Hne. unfold create_share. destruct (generate_token raw) as [token h']. apply respects_bind; [apply _| |intros []; apply respects_ret; apply _].
  destruct ttl, expires; try (apply respects_try; apply _); by apply insert_share_keeps.
Qed.

Lemma revoke_share_keeps T h now T' id : is_Some (datetime_at now) -> respects (keeps_share T h) (revoke_share now T' id).
Proof. intros Hn. apply respects_execute. intros st. by apply keeps_share_update. Qed.

(** A redemption with another digest. *)
Lemma redeem_share_keeps T h now T' token : (forall h', hash_token token = Ok h' -> (T', h') <> (T, h)) -> respects (keeps_share T h) (redeem_share now T' token).
Proof.
  intros Hne. unfold redeem_share. apply respects_tried; [apply _|]. intros h' Eh. specialize (Hne h' Eh). apply respects_bind; [apply _|apply respects_query; apply _|]. intros claimed.
  apply respects_bind; [apply _| |intros _; frame]. apply respects_execute. intros st. apply keeps_share_update.
  - intros r [[[_ _]%andb_true_iff _]%andb_true_iff HM]%andb_true_iff [H1 H2]. split; [|done]. split; cbn; [lia|]. intros m Em. rewrite Em in HM. apply Z.ltb_lt in HM. lia.
  - intros r -> <- [[[Eh'%bool_decide_eq_true _]%andb_true_iff _]%andb_true_iff _]%andb_true_iff. congruence.
Qed.

(** A redemption of the share itself: it is claimed exactly when it is eligible. *)
Lemma redeem_share_own T now token h st x st' : shares_ok st -> hash_token token = Ok h -> redeem_share now T token st = (x, st') -> shares_ok st' /\
  match share_row T h st with
  | None => x = Err InvalidShareToken /\ share_row T h st' = None
  | Some row => if eligible now h row then x = Ok (sr_resource row) /\ share_row T h st' = Some (set_use_count (sr_use_count row + 1) row)
                else (exists e, x = Err e) /\ share_row T h st' = Some row
  end.
Proof.
  intros Hok Eh. unfold redeem_share. rewrite (dbM_step _ _ st h st) by (unfold db_try; by rewrite Eh).
  set (claimed := length (filter (fun r => eligible now h r = true) (shares T (st_vault st)))). rewrite (dbM_step _ _ st claimed st) by done.
  set (st1 := set_vault (set_shares T (update_where (eligible now h) (fun r => set_use_count (sr_use_count r + 1) r) (shares T (st_vault st))) (st_vault st)) st).
  rewrite (dbM_step _ _ st tt st1) by done.
  assert (share_row T h st1 = (fun r => if eligible now h r then set_use_count (sr_use_count r + 1) r else r) <$> share_row T h st) as Erow.
  { unfold share_row, st1. cbn. rewrite shares_set, decide_True by done. by apply first_row_update. }
  assert (shares_ok st1) as Hok1.
  { apply (keeps_share_update (match T with CredentialShares => FileShares | FileShares => CredentialShares end) h T _ _ st); [| |done].
    - intros r [[[_ _]%andb_true_iff _]%andb_true_iff HM]%andb_true_iff [H1 H2]. split; [|done]. split; cbn; [lia|]. intros m Em. rewrite Em in HM. apply Z.ltb_lt in HM. lia.
    - by destruct T. }
  assert (claimed = match share_row T h st with Some row => if eligible now h row then 1 else 0 | None => 0 end) as Ec.
  { unfold claimed, share_row. destruct (Hok T) as [HN _]. clear -HN. induction (shares T (st_vault st)) as [|r l IH]; [done|]. apply NoDup_cons in HN as [Hx HN]. specialize (IH HN).
    unfold first_row in *. destruct (by_hash h r) eqn:Eb.
    - rewrite (filter_cons_True (fun row => by_hash h row = true)) by done. cbn [head].
      assert (filter (fun r => eligible now h r = true) l = []) as E0.
      { apply list_nil_no_elem. intros r' [He Hr']%list_elem_of_filter. unfold eligible in He. apply andb_true_iff in He as [[[Hb _]%andb_true_iff _]%andb_true_iff _].
        apply bool_decide_eq_true in Eb, Hb. apply Hx. rewrite Eb, <- Hb. by apply list_elem_of_fmap_2. }
      destruct (eligible now h r) eqn:Ee; [rewrite filter_cons_True by done|rewrite filter_cons_False by congruence]; by rewrite E0.
    - rewrite (filter_cons_False (fun row => by_hash h row = true)) by congruence. rewrite filter_cons_False; [done|]. unfold eligible. by rewrite Eb. }
  destruct (share_row T h st) as [row|] eqn:ER; [destruct (eligible now h row) eqn:Ee|]; rewrite Ec; cbn [Nat.eqb]; simpl in Erow.
  - unfold query. rewrite Erow. simpl. intros [= <- <-]. rewrite Ee in Erow. by rewrite Erow, Ee.
  - rewrite Ee in Erow. unfold mbind, dbM_bind, query. rewrite Erow. destruct (sql_bool _) as [expired|e]; cbn; intros [= <- <-]; (split; [done|]; split; [|done]); [|by eexists].
    repeat case_match; by eexists.
  - unfold mbind, dbM_bind, query. rewrite Erow. cbn. intros [= <- <-]. done.
Qed.
End frame.

(** ** Runs *)

(** Every operation on shares and on the files they lead to. *)
Inductive ShareOp :=
| CreateShare (now : Z) (raw : bytes) (T : ShareTable) (resource : nat) (ttl_seconds : Z) (max_uses : option Z)
| CreateFileUntil (now : Z) (raw : bytes) (file_id : nat) (expires_at : bytes) (max_uses : option Z)
| RedeemShare (now : Z) (T : ShareTable) (token : bytes)
| RevokeShare (now : Z) (T : ShareTable) (share_id : nat)
| PurgeShare (now : Z) (token : bytes)
| LockFile (now : Z) (salt nonce source path password : bytes) (expires_at : option bytes)
| UnlockFile (now : Z) (id : nat) (password : bytes)
| PurgeExpired (now : Z).
Definition op_now (op : ShareOp) : Z :=
  match op with
  | CreateShare now _ _ _ _ _ | CreateFileUntil now _ _ _ _ | RedeemShare now _ _ | RevokeShare now _ _ | PurgeShare now _ | LockFile now _ _ _ _ _ _ | UnlockFile now _ _ | PurgeExpired now => now
  end.

Section runs.
Context `{C : Crypto} `{HX : Hex} `{B : Base64} `{CL : Clock} `{A : Aead} `{S : Storage}.

(** The result is the resource a redemption hands over. *)
Definition share_op (op : ShareOp) : ioM S (option nat) :=
  match op with
  | CreateShare now raw T resource ttl max_uses => db (create_share now raw T resource (Some ttl) None max_uses) ≫= fun _ => mret None
  | CreateFileUntil now raw file_id expires max_uses => db (create_file_share_until now raw file_id expires max_uses) ≫= fun _ => mret None
  | RedeemShare now CredentialShares token => id ← db (redeem_credential_share now token); mret (Some id)
  | RedeemShare now FileShares token => id ← redeem_file_share_in now token; mret (Some id)
  | RevokeShare now T id => db (revoke_share now T id) ≫= fun _ => mret None
  | PurgeShare now token => purge_expired_file_share_in now token ≫= fun _ => mret None
  | LockFile _ salt nonce source path password expires => lock_file_until_in salt nonce source path password expires ≫= fun _ => mret None
  | UnlockFile now id password => unlock_file_in now id password ≫= fun _ => mret None
  | PurgeExpired now => purge_expired_in now ≫= fun _ => mret None
  end.

Fixpoint run_shares (ops : list ShareOp) (w : World S) : list (ShareOp * result (option nat)) * World S :=
  match ops with
  | [] => ([], w)
  | op :: ops => let '(r, w) := share_op op w in let '(rs, w) := run_shares ops w in ((op, r) :: rs, w)
  end.

Definition creates (T : ShareTable) (h : bytes) (op : ShareOp) : bool :=
  match op with
  | CreateShare _ raw T' _ _ _ => bool_decide ((T', (generate_token raw).2) = (T, h))
  | CreateFileUntil _ raw _ _ _ => bool_decide ((FileShares, (generate_token raw).2) = (T, h))
  | _ => false
  end.
Definition redeems (T : ShareTable) (h : bytes) (op : ShareOp) : bool :=
  match op with RedeemShare _ T' token => bool_decide (T' = T /\ hash_token token = Ok h) | _ => false end.
(** The redemptions of one share that were granted. *)
Definition granted (T : ShareTable) (h : bytes) (log : list (ShareOp * result (option nat))) : list (ShareOp * result (option nat)) :=
  filter (fun x => redeems T h x.1 && is_ok x.2 = true) log.

Lemma destroy_file_keeps T h id path : io_respects (keeps_share T h) (destroy_file id path : ioM S unit).
Proof.
  intros w r w' ED. destruct (destroy_file_effect id path w) as (w1 & E & _ & (HL & HS & HC & HCS & _) & _). rewrite E in ED. injection ED as <- <-.
  apply (keeps_share_delete T h FileShares (fun s => sr_resource s <> id)). intros []; [done|]. by rewrite decide_True.
Qed.
Hint Resolve destroy_file_keeps : frame.
Lemma purge_keeps T h now id : io_respects (keeps_share T h) (purge_if_expired_in now id : ioM S unit).
Proof. unfold purge_if_expired_in. io_frame. Qed.
Hint Resolve purge_keeps : frame.
Lemma purge_share_keeps T h now token : io_respects (keeps_share T h) (purge_expired_file_share_in now token : ioM S unit).
Proof. unfold purge_expired_file_share_in. io_frame. Qed.
Hint Resolve purge_share_keeps : frame.
Lemma locked_statement_keeps T h (g : VaultTables -> VaultTables) : (forall t T', shares T' (g t) = shares T' t) -> respects (keeps_share T h) (on_vault g).
Proof. intros Hg. apply respects_execute. intros st. apply keeps_share_same. intros T'. apply Hg. Qed.
Lemma insert_locked_keeps T h name path salt nonce expires : respects (keeps_share T h) (insert_locked name path salt nonce expires).
Proof.
  intros st r st'. unfold insert_locked. destruct (existsb _ _); intros [= _ <-]; [reflexivity|]. apply keeps_share_same. by intros [].
Qed.
Hint Resolve insert_locked_keeps : frame.

(** Whatever is not a redemption of the share leaves it, or removes it. *)
Lemma share_op_keeps T h op : creates T h op = false -> redeems T h op = false -> is_Some (datetime_at (op_now op)) -> io_respects (keeps_share T h) (share_op op).
Proof.
  intros Hc Hr Hn. destruct op as [now raw T' resource ttl max_uses|now raw file_id expires max_uses|now T' token|now T' id|now token|now salt nonce source path password expires|now id password|now];
    cbn [creates redeems op_now share_op] in *.
  - apply io_respects_bind; [apply _| |intros ?; io_frame]. apply io_respects_db, create_share_keeps. by apply bool_decide_eq_false in Hc.
  - apply io_respects_bind; [apply _| |intros ?; io_frame]. apply io_respects_db. apply respects_bind; [apply _| |intros _; apply create_share_keeps; by apply bool_decide_eq_false in Hc].
    apply respects_bind; [apply _|apply respects_query; apply _|]. intros _. apply locked_statement_keeps. by intros t [].
  - apply bool_decide_eq_false in Hr. assert (respects (keeps_share T h) (redeem_share now T' token)) as HR by (apply redeem_share_keeps; intros h' E [= -> ->]; tauto).
    destruct T'; (apply io_respects_bind; [apply _| |intros ?; io_frame]); [by apply io_respects_db|]. apply io_respects_bind; [apply _|io_frame|]. intros _. by apply io_respects_db.
  - apply io_respects_bind; [apply _| |intros ?; io_frame]. by apply io_respects_db, revoke_share_keeps.
  - io_frame.
  - unfold lock_file_until_in. io_frame.
  - unfold unlock_file_in. io_frame.
  - unfold purge_expired_in. io_frame.
Qed.

Lemma purge_Ok now id (w w' : World S) : purge_if_expired_in now id w = (Ok tt, w') -> w' = w.
Proof.
  unfold purge_if_expired_in. intros (row & w1 & E & H)%io_bind_Ok. rewrite db_query in E. injection E as _ <-.
  destruct row as [[path []]|]; [|by injection H as <-..]. by apply io_bind_Ok in H as (? & ? & ? & [? ?]%io_try_Ok).
Qed.
Lemma purge_share_Ok now token (w w' : World S) : purge_expired_file_share_in now token w = (Ok tt, w') -> w' = w.
Proof.
  unfold purge_expired_file_share_in. intros (h & w1 & [_ ->]%io_try_Ok & H)%io_bind_Ok. apply io_bind_Ok in H as (id & w2 & E & H). rewrite db_query in E. injection E as _ <-.
  destruct id; [by eapply purge_Ok|by injection H as <-].
Qed.

(** A redemption of the share: granted only when the share is there and eligible. *)
Lemma share_op_redeem T h op w x w' : redeems T h op = true -> share_op op w = (x, w') -> shares_ok (w_db w) ->
  match x with
  | Ok r => shares_ok (w_db w') /\ exists row, share_row T h (w_db w) = Some row /\ eligible (op_now op) h row = true /\ r = Some (sr_resource row) /\
              share_row T h (w_db w') = Some (set_use_count (sr_use_count row + 1) row)
  | Err _ => keeps_share T h (w_db w) (w_db w')
  end.
Proof.
  destruct op as [| |now T' token| | | | |]; try done. cbn [redeems op_now]. intros [-> Eh]%bool_decide_eq_true ES Hok.
  assert (forall x st', redeem_share now T token (w_db w) = (x, st') ->
    match x with
    | Ok r => shares_ok st' /\ exists row, share_row T h (w_db w) = Some row /\ eligible now h row = true /\ r = sr_resource row /\ share_row T h st' = Some (set_use_count (sr_use_count row + 1) row)
    | Err _ => keeps_share T h (w_db w) st'
    end) as HR.
  { intros y st' E. destruct (redeem_share_own _ _ _ _ _ _ _ Hok Eh E) as [Hok' H]. destruct (share_row T h (w_db w)) as [row|] eqn:ER.
    - destruct (eligible now h row) eqn:Ee; [destruct H as [-> H]; split; [done|]; by exists row|]. destruct H as [[e ->] H]. intros _. split; [done|]. rewrite ER. right. by exists row.
    - destruct H as [-> H]. intros _. split; [done|]. by rewrite ER. }
  assert (forall w1 y w2, db (redeem_share now T token) w1 = (y, w2) -> w_db w1 = w_db w ->
    match y with
    | Ok r => shares_ok (w_db w2) /\ exists row, share_row T h (w_db w) = Some row /\ eligible now h row = true /\ r = sr_resource row /\ share_row T h (w_db w2) = Some (set_use_count (sr_use_count row + 1) row)
    | Err _ => keeps_share T h (w_db w) (w_db w2)
    end) as HD.
  { intros w1 y w2 E1 E2. unfold db in E1. rewrite E2 in E1. destruct (redeem_share now T token (w_db w)) as [y' st'] eqn:E. injection E1 as <- <-. by apply HR. }
  clear HR. destruct T; cbn [share_op] in ES; unfold mbind at 1, ioM_bind at 1 in ES.
  - unfold redeem_credential_share in ES. destruct (db _ w) as [[r|e] w1] eqn:E; injection ES as <- <-; specialize (HD _ _ _ E eq_refl); [|done].
    destruct HD as (? & row & ? & ? & -> & ?). split; [done|]. by exists row.
  - destruct (redeem_file_share_in now token w) as [[r|e] w1] eqn:E; injection ES as <- <-; unfold redeem_file_share_in in E.
    + apply io_bind_Ok in E as ([] & w0 & ->%purge_share_Ok & E). destruct (HD _ _ _ E eq_refl) as (? & row & ? & ? & -> & ?). split; [done|]. by exists row.
    + unfold mbind, ioM_bind in E. destruct (purge_expired_file_share_in now token w) as [[[]|e'] w0] eqn:EP.
      * apply purge_share_Ok in EP as ->. by apply (HD _ _ _ E eq_refl).
      * injection E as _ <-. by eapply purge_share_keeps.
Qed.

Definition quiet (T : ShareTable) (h : bytes) (op : ShareOp) : Prop := creates T h op = false /\ is_Some (datetime_at (op_now op)).

(** A digest with no share is never granted. *)
Lemma no_share_no_grant T h ops w log w' : shares_ok (w_db w) -> share_row T h (w_db w) = None -> Forall (quiet T h) ops -> run_shares ops w = (log, w') -> granted T h log = [].
Proof.
  revert w log w'; induction ops as [|op ops IH]; intros w log w' Hok Hrow HF; cbn [run_shares]; [by intros [= <- _]|].
  apply Forall_cons in HF as [[Hc Hn] HF]. destruct (share_op op w) as [x w1] eqn:EO. destruct (run_shares ops w1) as [log1 w2] eqn:ER. intros [= <- _].
  destruct (redeems T h op) eqn:Er.
  - pose proof (share_op_redeem _ _ _ _ _ _ Er EO Hok) as H. destruct x as [r|e]; [destruct H as (_ & row & E & _); congruence|]. destruct (H Hok) as [Hok1 Hr1]. rewrite Hrow in Hr1.
    unfold granted. rewrite filter_cons_False by (cbn; by rewrite andb_false_r). by apply (IH w1 log1 w2).
  - destruct (share_op_keeps T h op Hc Er Hn _ _ _ EO Hok) as [Hok1 Hr1]. rewrite Hrow in Hr1. unfold granted. rewrite filter_cons_False by (cbn; by rewrite Er). by apply (IH w1 log1 w2).
Qed.

(** C21: Over any sequence of operations on shares and locked files, a share is
    redeemed at most [max_uses] times in all, every redemption falls before its
    expiry and hands over the resource it was made for, and once it is revoked
    there is none; a removed share is never redeemed. *)
Theorem share_uses_bounded T h ops w log w' row : shares_ok (w_db w) -> share_row T h (w_db w) = Some row -> Forall (quiet T h) ops -> run_shares ops w = (log, w') ->
  (forall m, sr_max_uses row = Some m -> (sr_use_count row + Z.of_nat (length (granted T h log)) <= m)%Z) /\
  (is_Some (sr_revoked_at row) -> granted T h log = []) /\
  (forall op r, (op, r) ∈ granted T h log -> r = Ok (Some (sr_resource row)) /\ after_now (op_now op) (sr_expires_at row) = Some true).
Proof.
  revert w log w' row; induction ops as [|op ops IH]; intros w log w' row Hok Hrow HF; cbn [run_shares].
  { intros [= <- _]. destruct (Hok T) as [_ HU]. rewrite Forall_forall in HU. apply first_row_Some in Hrow as [Hin _]. destruct (HU _ Hin) as [_ Hm].
    split; [intros m Em; specialize (Hm m Em); simpl; lia|]. split; [done|]. intros op r H. by apply elem_of_nil in H. }
  apply Forall_cons in HF as [[Hc Hn] HF]. destruct (share_op op w) as [x w1] eqn:EO. destruct (run_shares ops w1) as [log1 w2] eqn:ER. intros [= <- _].
  match goal with |- ?G => assert (keeps_share T h (w_db w) (w_db w1) -> granted T h ((op, x) :: log1) = granted T h log1 -> G) as Hskip end; [|destruct (redeems T h op) eqn:Er].
  { intros Hk ->. destruct (Hk Hok) as [Hok1 H]. rewrite Hrow in H. destruct H as [E|(row1 & E & [_ E2 _ E4 E5 E6 E7])].
    - rewrite (no_share_no_grant _ _ _ _ _ _ Hok1 E HF ER). destruct (Hok T) as [_ HU]. rewrite Forall_forall in HU. apply first_row_Some in Hrow as [Hin _]. destruct (HU _ Hin) as [_ Hm].
      split; [intros m Em; specialize (Hm m Em); simpl; lia|]. split; [done|]. intros op' r H. by apply elem_of_nil in H.
    - specialize (IH w1 log1 w2 row1 Hok1 E HF ER). rewrite E2, E4, E5, E6 in IH. destruct IH as (I1 & I2 & I3). split_and!; auto. }
  - pose proof (share_op_redeem _ _ _ _ _ _ Er EO Hok) as H. destruct x as [r|e].
    + destruct H as (Hok1 & row' & E & He & -> & E1). assert (row' = row) as -> by congruence. destruct (IH w1 log1 w2 _ Hok1 E1 HF ER) as (I1 & I2 & I3). cbn in I1, I2, I3.
      apply andb_true_iff in He as [[[_ Hv%bool_decide_eq_true]%andb_true_iff Ha]%andb_true_iff _].
      assert (granted T h ((op, Ok (Some (sr_resource row))) :: log1) = (op, Ok (Some (sr_resource row))) :: granted T h log1) as -> by (unfold granted; by rewrite filter_cons_True by (cbn; by rewrite Er)).
      split; [intros m Em; specialize (I1 m Em); cbn [length]; lia|]. split; [rewrite Hv; by intros []|]. intros op' r [[= -> ->]|H]%elem_of_cons; [|auto]. split; [done|].
      destruct (after_now _ _) as [[]|]; done.
    + apply Hskip; [done|]. unfold granted. by rewrite filter_cons_False by (cbn; by rewrite andb_false_r).
  - apply Hskip; [by apply (share_op_keeps T h op Hc Er Hn _ _ _ EO)|]. unfold granted. by rewrite filter_cons_False by (cbn; by rewrite Er).
Qed.
End runs.
