(* ===== verification/Quorum.v ===== *)
(** * Label evidence ([src/src/authority.rs])

    What a store remembers of the signing keys a label has held: a range of tree
    generations for each key, which only ever widens. *)

From stdpp Require Import gmap.
From S2P Require Import Prelude Text Crypto BTree Authority Signing Pss Tables KeyStore KeyTree Combinations Reconstruct BridgePackage PrivateBridge BridgeRoster Aead Clock Pin World.

Definition i64_max : N := 9223372036854775807.
(** [i64::try_from(generation)] *)
Definition stored_generation (generation : N) : result Z := if (generation <=? i64_max)%N then Ok (Z.of_N generation) else Err InvalidTreeSpec.

#[export] Instance EvidenceRow_eq_dec : EqDecision EvidenceRow.
Proof. solve_decision. Defined.

(** The primary key. *)
Definition evidence_key (row : EvidenceRow) : bytes * bytes * bytes * bytes := (lv_scope_root row, lv_label row, lv_identity row, lv_signing_public row).
Definition evidence_is (k : bytes * bytes * bytes * bytes) (row : EvidenceRow) : bool := bool_decide (evidence_key row = k).
Definition widen (g : Z) (row : EvidenceRow) : EvidenceRow :=
  {| lv_scope_root := lv_scope_root row; lv_label := lv_label row; lv_identity := lv_identity row; lv_signing_public := lv_signing_public row;
     lv_first_generation := Z.min (lv_first_generation row) g; lv_last_generation := Z.max (lv_last_generation row) g |}.

Definition record_label_evidence (scope_root label identity public : bytes) (generation : N) : dbM unit :=
  g ← db_try (stored_generation generation);
  if negb (length identity =? 16) || negb (length public =? 32) then db_try (Err Db) else
  on_vault (fun t => set_vt_evidence (
    if existsb (evidence_is (scope_root, label, identity, public)) (vt_evidence t) then update_where (evidence_is (scope_root, label, identity, public)) (widen g) (vt_evidence t)
    else vt_evidence t ++ [{| lv_scope_root := scope_root; lv_label := label; lv_identity := identity; lv_signing_public := public; lv_first_generation := g; lv_last_generation := g |}]) t).

(** [ORDER BY signing_public] *)
Definition historical_signing_publics (label identity : bytes) (generation : N) (st : Store) : result (list bytes) :=
  g ← stored_generation generation;
  Ok (merge_sort str_order (map lv_signing_public (filter (fun row => lv_label row = label /\ lv_identity row = identity /\
        (lv_first_generation row <= g)%Z /\ (g <= lv_last_generation row)%Z) (vt_evidence (st_vault st))))).

(** ** What is remembered *)

(** One observation. *)
Record Seen := { sn_scope : bytes; sn_label : bytes; sn_identity : bytes; sn_public : bytes; sn_generation : N }.
Definition record_seen (s : Seen) : dbM unit := record_label_evidence (sn_scope s) (sn_label s) (sn_identity s) (sn_public s) (sn_generation s).
Definition seen_key (s : Seen) : bytes * bytes * bytes * bytes := (sn_scope s, sn_label s, sn_identity s, sn_public s).

(** The table after the observations [seen]: one row a key, whose range is the
    least that covers the generations the key was seen in. *)
Record evidence_ok (seen : list Seen) (st : Store) : Prop := {
  eo_keys : NoDup (map evidence_key (vt_evidence (st_vault st)));
  eo_rows row : row ∈ vt_evidence (st_vault st) ->
    (exists s, s ∈ seen /\ seen_key s = evidence_key row /\ Z.of_N (sn_generation s) = lv_first_generation row) /\
    (exists s, s ∈ seen /\ seen_key s = evidence_key row /\ Z.of_N (sn_generation s) = lv_last_generation row);
  eo_seen s : s ∈ seen -> exists row, row ∈ vt_evidence (st_vault st) /\ evidence_key row = seen_key s /\
    (lv_first_generation row <= Z.of_N (sn_generation s) <= lv_last_generation row)%Z;
}.

Lemma stored_generation_Ok generation g : stored_generation generation = Ok g -> g = Z.of_N generation.
Proof. unfold stored_generation. destruct (_ <=? _)%N; [by intros [= <-]|done]. Qed.

Lemma record_seen_ok seen s st st' : evidence_ok seen st -> record_seen s st = (Ok tt, st') -> evidence_ok (seen ++ [s]) st'.
Proof.
  intros [HN HR HS]. unfold record_seen, record_label_evidence. intros (g & st1 & [->%stored_generation_Ok ->]%db_try_Ok & H)%dbM_bind_Ok.
  destruct (_ || _); [done|]. unfold on_vault, execute in H. injection H as <-. fold (seen_key s) in *. set (rows := vt_evidence (st_vault st)) in *.
  destruct (existsb (evidence_is (seen_key s)) rows) eqn:EX.
  - apply existsb_exists in EX as (row0 & Hrow0%list_elem_of_In & Ek0%bool_decide_eq_true).
    assert (forall row', row' ∈ update_where (evidence_is (seen_key s)) (widen (Z.of_N (sn_generation s))) rows <-> (row' ∈ rows /\ row' <> row0 \/ row' = widen (Z.of_N (sn_generation s)) row0)) as Hel.
    { intros row'. unfold update_where. rewrite list_elem_of_fmap. split.
      - intros (r & -> & Hr). destruct (evidence_is (seen_key s) r) eqn:E.
        + apply bool_decide_eq_true in E. right. f_equal. eapply (NoDup_map_eq evidence_key rows); [exact HN|done|done|congruence].
        + left. split; [done|]. intros ->. apply bool_decide_eq_false in E. congruence.
      - intros [[Hr Hne]| ->].
        + exists row'. split; [|done]. destruct (evidence_is (seen_key s) row') eqn:E; [|done]. apply bool_decide_eq_true in E. destruct Hne. eapply (NoDup_map_eq evidence_key rows); [exact HN|done|done|congruence].
        + exists row0. split; [|done]. unfold evidence_is. by rewrite bool_decide_true. }
    split; cbn.
    + by rewrite update_where_map.
    + intros row' [[Hr Hne]| ->]%Hel.
      * destruct (HR row' Hr) as [(s1 & ? & ?) (s2 & ? & ?)]. split; [exists s1|exists s2]; rewrite elem_of_app; auto.
      * destruct (HR row0 Hrow0) as [(s1 & H1 & K1 & G1) (s2 & H2 & K2 & G2)]. cbn. split.
        -- destruct (Z.min_spec (lv_first_generation row0) (Z.of_N (sn_generation s))) as [[_ E]|[_ E]]; rewrite E; [exists s1|exists s]; rewrite elem_of_app, list_elem_of_singleton; (split; [auto|]); split; try done; by rewrite <- Ek0.
        -- destruct (Z.max_spec (lv_last_generation row0) (Z.of_N (sn_generation s))) as [[_ E]|[_ E]]; rewrite E; [exists s|exists s2]; rewrite elem_of_app, list_elem_of_singleton; (split; [auto|]); split; try done; by rewrite <- Ek0.
    + intros s' [Hs'| ->%list_elem_of_singleton]%elem_of_app.
      * destruct (HS s' Hs') as (r & Hr & Ek & Hg). destruct (decide (r = row0)) as [->|Hne].
        -- exists (widen (Z.of_N (sn_generation s)) row0). split; [apply Hel; by right|]. split; [done|]. cbn. lia.
        -- exists r. split; [apply Hel; by left|done].
      * exists (widen (Z.of_N (sn_generation s)) row0). split; [apply Hel; by right|]. split; [done|]. cbn. lia.
  - assert (forall row, row ∈ rows -> evidence_key row <> seen_key s) as Hf.
    { intros row Hr E. apply not_true_iff_false in EX. apply EX, existsb_exists. exists row. split; [by apply list_elem_of_In|]. by apply bool_decide_eq_true. }
    split; cbn.
    + rewrite map_app. apply NoDup_app. split; [done|]. split; [|apply NoDup_singleton]. intros k Hk ->%list_elem_of_singleton. apply list_elem_of_fmap in Hk as (r & E & Hr). by apply (Hf r Hr).
    + intros row' [Hr| ->%list_elem_of_singleton]%elem_of_app.
      * destruct (HR row' Hr) as [(s1 & ? & ?) (s2 & ? & ?)]. split; [exists s1|exists s2]; rewrite elem_of_app; auto.
      * split; exists s; rewrite elem_of_app, list_elem_of_singleton; auto.
    + intros s' [Hs'| ->%list_elem_of_singleton]%elem_of_app.
      * destruct (HS s' Hs') as (r & Hr & Ek & Hg). exists r. rewrite elem_of_app. auto.
      * eexists. rewrite elem_of_app, list_elem_of_singleton. split; [by right|]. split; [done|]. cbn. lia.
Qed.

(** A key is named for a generation exactly when it was seen, in one tree, both at
    or before and at or after it: what was never seen is not guessed, and what was
    seen is not forgotten. *)
Theorem historical_exact seen st label identity generation keys : evidence_ok seen st -> historical_signing_publics label identity generation st = Ok keys ->
  forall public, public ∈ keys <-> exists s s', s ∈ seen /\ s' ∈ seen /\ seen_key s = seen_key s' /\ sn_label s = label /\ sn_identity s = identity /\ sn_public s = public /\
    (sn_generation s <= generation <= sn_generation s')%N.
Proof.
  intros [HN HR HS] (g & ->%stored_generation_Ok & [= <-])%bind_Ok public. rewrite merge_sort_Permutation, list_elem_of_fmap. split.
  - intros (row & -> & [(E1 & E2 & H1 & H2) Hr]%list_elem_of_filter). destruct (HR row Hr) as [(s1 & I1 & K1 & G1) (s2 & I2 & K2 & G2)]. exists s1, s2.
    unfold seen_key, evidence_key in K1, K2. injection K1 as ? ? ? ?. injection K2 as ? ? ? ?. split_and!; try done; [unfold seen_key; congruence|congruence..|lia|lia].
  - intros (s & s' & Hs & Hs' & Ek & <- & <- & <- & Hg). destruct (HS s Hs) as (r & Hr & Kr & Gr), (HS s' Hs') as (r' & Hr' & Kr' & Gr').
    assert (r' = r) as -> by (eapply (NoDup_map_eq evidence_key); [exact HN|done|done|congruence]). exists r. unfold seen_key, evidence_key in Kr. injection Kr as ? ? ? ?. split; [done|].
    apply list_elem_of_filter. split; [|done]. split_and!; try done; lia.
Qed.

(** * Quorum-protected files ([src/src/quorum.rs])

    A file is encrypted under a random key that is split over a tree of hardware
    keys. Unlocking it reconstructs the key from shares, checks the approvals the
    tree's policy asks for ([authority::require_unlock_approval]), decrypts and
    writes one audit row. *)

(** ** Approval *)

Record UnlockGrant := { ug_leaf_label : bytes; ug_countersigner_label : bytes; ug_signature : bytes }.

Section approval.
Context `{C : Crypto}.

Definition approve_leaf (st : Store) (file_id key_id : nat) (device_ids : list bytes) (grants : list UnlockGrant) (leaf : UsedLeaf) : result unit :=
  parent ← ok_or (parent_node_label (ul_leaf_label leaf)) UnlockApprovalRequired;
  preimage ← unlock_approval_preimage (Z.of_nat file_id) (Z.of_nat key_id) (ul_leaf_label leaf) parent device_ids;
  grant ← ok_or (head (filter (fun g => ug_leaf_label g = ul_leaf_label leaf /\ ug_countersigner_label g = parent) grants)) UnlockApprovalRequired;
  public ← signing_public_for_label parent st;
  verify_signature public preimage (ug_signature grant).
Fixpoint approve_leaves (st : Store) (file_id key_id : nat) (device_ids : list bytes) (grants : list UnlockGrant) (leaves : list UsedLeaf) : result unit :=
  match leaves with
  | [] => Ok tt
  | leaf :: leaves => approve_leaf st file_id key_id device_ids grants leaf ≫= fun _ => approve_leaves st file_id key_id device_ids grants leaves
  end.
Definition require_unlock_approval (key_id file_id : nat) (leaves : list UsedLeaf) (devices : list PresentedDevice) (grants : list UnlockGrant) (st : Store) : result unit :=
  policy ← custody_policy key_id st;
  if negb (bool_decide (cp_unlock_approval policy = Parent)) then Ok tt else
  approve_leaves st file_id key_id (merge_sort str_order (map pd_device_id devices)) grants leaves.
End approval.

(** [device::format_presentation] *)
Section presentation.
Context `{HX : Hex}.
Definition format_device (device : PresentedDevice) : bytes :=
  let leaves := Text.join x2c (pd_leaf_labels device) in
  match pd_slot_label device with
  | Some slot => str "device " ++ hex_encode (pd_device_id device) ++ str " slot " ++ slot ++ str " (" ++ leaves ++ str ")"
  | None => str "device " ++ hex_encode (pd_device_id device) ++ str " key (" ++ leaves ++ str ")"
  end.
Fixpoint join_str (sep : bytes) (parts : list bytes) : bytes :=
  match parts with [] => [] | [p] => p | p :: parts => p ++ sep ++ join_str sep parts end.
Definition format_presentation (devices : list PresentedDevice) : bytes :=
  if bool_decide (devices = []) then str "no device" else join_str (str "; ") (map format_device devices).
End presentation.

(** ** The files *)

(** The text of an error, [Display for Error]; SQLite's and the system's own texts are part of it. *)
Class ErrorText := error_text : error -> bytes.

Definition file_is (id : nat) (row : FileRow) : bool := bool_decide (fr_id row = id).
Definition file_row (id : nat) (st : Store) : option FileRow := first_row (file_is id) (vt_files (st_vault st)).
Definition set_fr_expires (expires_at : option bytes) (row : FileRow) : FileRow :=
  {| fr_id := fr_id row; fr_name := fr_name row; fr_encrypted_path := fr_encrypted_path row; fr_key_id := fr_key_id row; fr_nonce := fr_nonce row;
     fr_created_at := fr_created_at row; fr_expires_at := expires_at |}.

(** [INSERT INTO files]: [encrypted_path] is [UNIQUE], [key_id] is a foreign key. *)
Definition insert_file (created_at name path : bytes) (key_id : nat) (nonce : bytes) (expires_at : option bytes) : dbM nat := fun st =>
  let t := st_vault st in
  if existsb (fun r => bool_decide (fr_encrypted_path r = path)) (vt_files t) || negb (existsb (fun k => bool_decide (ky_id k = key_id)) (st_keys st)) then (Err Db, st) else
  let id := next_id fr_id (vt_files t) in
  (Ok id, set_vault (set_vt_files (vt_files t ++ [{| fr_id := id; fr_name := name; fr_encrypted_path := path; fr_key_id := key_id; fr_nonce := nonce;
                                                    fr_created_at := created_at; fr_expires_at := expires_at |}]) t) st).

(** [INSERT INTO unlock_events]; [file_id] is a foreign key. *)
Definition insert_unlock_event (file_id : nat) (success : bool) (keys_presented : bytes) : dbM unit := fun st =>
  let t := st_vault st in
  if negb (existsb (file_is file_id) (vt_files t)) then (Err Db, st) else
  (Ok tt, set_vault (set_vt_events (vt_events t ++ [{| ue_id := next_id ue_id (vt_events t); ue_file_id := file_id; ue_success := success; ue_keys_presented := keys_presented |}]) t) st).

(** [DELETE FROM files], which cascades to [unlock_events]. *)
Definition delete_file_row (file_id : nat) : dbM unit :=
  on_vault (fun t => set_vt_events (filter (fun e => ue_file_id e <> file_id) (vt_events t)) (set_vt_files (filter (fun r => fr_id r <> file_id) (vt_files t)) t)).

Definition set_expires_at (file_id : nat) (expires_at : option bytes) : dbM unit :=
  query (fun st => ok_or (file_row file_id st) Db) ≫= fun _ =>
  on_vault (fun t => set_vt_files (update_where (file_is file_id) (set_fr_expires expires_at) (vt_files t)) t).

Section quorum.
Context `{C : Crypto} `{SH : Shamir} `{HX : Hex} `{A : Aead} `{CL : Clock} `{S : Storage} `{ET : ErrorText}.

(** The random choices of one lock: the data key, the nonce, and those of the split. *)
Definition lock_bytes_until_in (rnd : nat -> nat) (entropy : nat -> bytes) (data_key nonce : bytes) (now : Z) (plaintext encrypted_path name : bytes) (tree_spec : NodeSpec) (expires_at : option bytes) : ioM S nat :=
  db (query (fun st => validate st tree_spec)) ≫= fun _ =>
  encrypted_path_str ← io_try (path_to_str encrypted_path);
  let ciphertext := aead_encrypt data_key nonce plaintext in
  fs_write_new encrypted_path ciphertext ≫= fun _ =>
  result ← attempt (db (transaction (
    key_id ← build_tree rnd entropy name data_key tree_spec;
    insert_file (timestamp now) name encrypted_path_str key_id nonce expires_at)));
  match result with
  | Ok file_id => mret file_id
  | Err e => ignore (fs_delete encrypted_path) ≫= fun _ => io_try (Err e)
  end.

Definition lock_file_until_in (rnd : nat -> nat) (entropy : nat -> bytes) (data_key nonce : bytes) (now : Z) (source_path encrypted_path : bytes) (name : option bytes) (tree_spec : NodeSpec) (expires_at : option bytes) : ioM S nat :=
  db (query (fun st => validate st tree_spec)) ≫= fun _ =>
  plaintext ← fs_read source_path;
  lock_bytes_until_in rnd entropy data_key nonce now plaintext encrypted_path (default (recorded_name source_path) name) tree_spec expires_at.

Definition is_expired (now : Z) (file_id : nat) (st : Store) : result bool :=
  row ← ok_or (file_row file_id st) Db; sql_bool (past now (fr_expires_at row)).

(** A missing ciphertext is fine; after any other failure the row is kept. *)
Definition delete_ciphertext (encrypted_path : bytes) : ioM S unit :=
  result ← attempt (fs_delete encrypted_path);
  io_try match result with Err (Io IoNotFound) => Ok tt | other => other end.

Definition purge_if_expired_in (now : Z) (file_id : nat) : ioM S unit :=
  row ← db (query (fun st => match file_row file_id st with
                             | None => Ok None
                             | Some r => expired ← sql_bool (past now (fr_expires_at r)); Ok (Some (fr_encrypted_path r, expired))
                             end));
  match row with
  | None | Some (_, false) => mret tt
  | Some (encrypted_path, true) => delete_ciphertext encrypted_path ≫= fun _ => db (delete_file_row file_id) ≫= fun _ => io_try (Err FileExpired)
  end.

Definition purge_expired_in (now : Z) : ioM S nat :=
  rows ← db (query (fun st => Ok (filter (fun r => sql_where (past now (fr_expires_at r)) = true) (vt_files (st_vault st)))));
  io_each (fun r => delete_ciphertext (fr_encrypted_path r) ≫= fun _ => db (delete_file_row (fr_id r))) rows ≫= fun _ =>
  mret (length rows).

Definition decrypt_presented (now : Z) (file_id : nat) (secret : bytes) (leaves : list UsedLeaf) (devices : list PresentedDevice) (grants : list UnlockGrant) : ioM S bytes :=
  purge_if_expired_in now file_id ≫= fun _ =>
  row ← db (query (fun st => ok_or (file_row file_id st) Db));
  db (query (require_unlock_approval (fr_key_id row) file_id leaves devices grants)) ≫= fun _ =>
  if negb (length secret =? KEY_LEN) then io_try (Err QuorumNotMet) else
  if negb (length (fr_nonce row) =? NONCE_LEN) then io_try (Err IntegrityCheckFailed) else
  ciphertext ← fs_read (fr_encrypted_path row);
  io_try (ok_or (aead_decrypt secret (fr_nonce row) ciphertext) IntegrityCheckFailed).

Definition failed_text (e : error) : bytes := str "failed: " ++ error_text e.
Definition record_unlock_failure (file_id : nat) (e : error) : dbM unit := insert_unlock_event file_id false (failed_text e).

Definition complete_unlock_in (now : Z) (file_id : nat) (presented : PresentedReconstruction) (grants : list UnlockGrant) : ioM S bytes :=
  let audit_devices := format_presentation (pr_devices presented) in
  result ← attempt (decrypt_presented now file_id (pr_secret presented) (pr_leaves presented) (pr_devices presented) grants);
  ignore (db (insert_unlock_event file_id (is_ok result) match result with Ok _ => audit_devices | Err e => failed_text e end)) ≫= fun _ =>
  io_try result.

Definition unlock_file_with_approval (now : Z) (file_id : nat) (raw_shares : gmap nat bytes) (grants : list UnlockGrant) : ioM S bytes :=
  purge_if_expired_in now file_id ≫= fun _ =>
  row ← db (query (fun st => ok_or (file_row file_id st) Db));
  presented ← attempt (db (query (fun st => reconstruct_presented st (fr_key_id row) raw_shares)));
  match presented with
  | Ok presented => complete_unlock_in now file_id presented grants
  | Err e => ignore (db (record_unlock_failure file_id e)) ≫= fun _ => io_try (Err e)
  end.
Definition unlock_file (now : Z) (file_id : nat) (raw_shares : gmap nat bytes) : ioM S bytes := unlock_file_with_approval now file_id raw_shares [].
End quorum.
