(* ===== verification/QuorumLaws.v ===== *)
(** * Laws of quorum-protected files *)

From S2P Require Import Prelude Text Crypto BTree Authority Tables KeyStore Pss KeyTree Combinations Reconstruct SplitTree Signing BridgePackage PrivateBridge BridgeRoster Aead Clock Pin World Sharing Quorum.
From stdpp Require Import gmap.

(** ** What reconstruction reads *)

(** The tables a reconstruction reads. *)
Record same_keys (st st' : Store) : Prop := {
  sk_hardware : st_hardware st' = st_hardware st;
  sk_keys : st_keys st' = st_keys st;
  sk_nodes : st_nodes st' = st_nodes st;
  sk_bridges : st_bridges st' = st_bridges st;
  sk_placements : st_placements st' = st_placements st;
  sk_possession : st_possession st' = st_possession st;
}.
#[export] Instance same_keys_preorder : PreOrder same_keys.
Proof. split; [by intros st|]. intros st1 st2 st3 [] []. split; congruence. Qed.

Section frame.
Context `{C : Crypto} `{SH : Shamir} (st st' : Store) (HK : same_keys st st').

Lemma same_get_key id : get_key id st' = get_key id st.
Proof. unfold get_key. by rewrite (sk_hardware _ _ HK). Qed.
Lemma same_ghost id : leaf_is_ghost id st' = leaf_is_ghost id st.
Proof. unfold leaf_is_ghost. by rewrite (sk_hardware _ _ HK), (sk_possession _ _ HK). Qed.
Lemma same_policy key_id : custody_policy key_id st' = custody_policy key_id st.
Proof. unfold custody_policy. by rewrite (sk_keys _ _ HK). Qed.

Lemma same_groups used groups : group_leaves st' used groups = group_leaves st used groups.
Proof.
  revert groups; induction used as [|leaf used IH]; intros groups; [done|]. cbn [group_leaves]. rewrite same_ghost, same_get_key. destruct (leaf_is_ghost _ _); [done|].
  destruct (get_key _ _) as [key|]; [|done]. cbn [mbind result_bind]. unfold device_for_key. rewrite (sk_placements _ _ HK). destruct (match st_placements st !! _ with Some _ => _ | None => _ end) as [[d s]|]; [|done]. apply IH.
Qed.
Lemma same_classify key_id used : classify_devices st' key_id used = classify_devices st key_id used.
Proof. unfold classify_devices. rewrite same_policy. destruct (bool_decide _); [done|]. destruct (custody_policy key_id st); [|done]. cbn [mbind result_bind]. by rewrite same_groups. Qed.

Lemma same_search fuel key_id minimum children indexes s : search fuel st' key_id minimum children indexes s = search fuel st key_id minimum children indexes s.
Proof.
  revert indexes s; induction fuel as [|fuel IH]; intros indexes s; [done|]. cbn [search]. rewrite same_classify.
  destruct (classify_devices st key_id _) as [groups|e]; [|destruct e; try done; destruct (next_combination _ _); done || apply IH].
  destruct (minimum <=? length groups); [done|]. destruct (next_combination _ _); [apply IH|done].
Qed.

Lemma same_select key_id threshold children : select_child_subset (Some (st', key_id)) threshold children = select_child_subset (Some (st, key_id)) threshold children.
Proof.
  unfold select_child_subset. generalize MAX_EXAMINED as fuel. intros fuel. destruct (_ || _); [done|]. rewrite same_policy. destruct (custody_policy key_id st) as [custody|]; [|done]. cbn [mbind result_bind]. by rewrite same_search.
Qed.

Lemma same_node fuel tree raw_shares key_id idx : reconstruct_node fuel tree raw_shares (Some (st', key_id)) idx = reconstruct_node fuel tree raw_shares (Some (st, key_id)) idx.
Proof.
  revert idx; induction fuel as [|fuel IH]; intros idx; [done|]. cbn [reconstruct_node]. destruct (ok_or _ NodeNotFound) as [node|]; [|done]. cbn [mbind result_bind].
  destruct (negb (kn_is_active node)); [done|]. destruct (kn_hardware_key_id node) as [hw|]; [by rewrite same_ghost|]. destruct (ok_or _ QuorumNotMet) as [threshold|]; [|done]. cbn [mbind result_bind].
  assert (resolve_children tree (reconstruct_node fuel tree raw_shares (Some (st', key_id))) (kn_children_indices node) =
          resolve_children tree (reconstruct_node fuel tree raw_shares (Some (st, key_id))) (kn_children_indices node)) as ->; [|by rewrite same_select].
  unfold resolve_children. clear -IH. induction (kn_children_indices node) as [|c l IHl]; [done|]. cbn [omap list_omap]. by rewrite IH, IHl.
Qed.

Lemma same_presented key_id raw_shares : reconstruct_presented st' key_id raw_shares = reconstruct_presented st key_id raw_shares.
Proof.
  unfold reconstruct_presented, load, bridges_of, rows_of. rewrite (sk_nodes _ _ HK), (sk_bridges _ _ HK).
  match goal with |- ?m ≫= _ = _ => destruct m as [tree|] end; [|done]. cbn [mbind result_bind]. unfold reconstruct_tracking, reconstruct_from. rewrite same_node.
  destruct (reconstruct_node _ _ _ _ _) as [[secret leaves]|]; [|done]. cbn [mbind result_bind]. unfold finish_presented, enforce_devices. by rewrite same_classify, same_policy.
Qed.
End frame.

(** ** Locking *)

Section lock.
Context `{C : Crypto} `{SH : Shamir} `{HX : Hex} `{A : Aead} `{CL : Clock} `{S : Storage} `{!StorageLaws S}.

Lemma build_same_disk {B} (m : dbM B) (w : World S) r w' : db m w = (r, w') -> w_disk w' = w_disk w.
Proof. unfold db. destruct (m (w_db w)) as [x st]. by intros [= _ <-]. Qed.

Lemma lock_bytes_Ok rnd entropy data_key nonce now plaintext path name spec expires (w : World S) id w' :
  lock_bytes_until_in rnd entropy data_key nonce now plaintext path name spec expires w = (Ok id, w') -> exists key_id st1,
    KeyTree.split rnd entropy name data_key spec (w_db w) = (Ok key_id, st1) /\ same_keys st1 (w_db w') /\
    storage_write_new (w_disk w) path (aead_encrypt data_key nonce plaintext) = (Ok tt, w_disk w') /\
    file_row id (w_db w') = Some {| fr_id := id; fr_name := name; fr_encrypted_path := path; fr_key_id := key_id; fr_nonce := nonce; fr_created_at := timestamp now; fr_expires_at := expires |}.
Proof.
  unfold lock_bytes_until_in. intros ([] & w0 & EV & H)%io_bind_Ok. rewrite db_query in EV. injection EV as EV <-.
  apply io_bind_Ok in H as (p & w1 & [Ep ->]%io_try_Ok & H). unfold path_to_str in Ep. destruct (is_utf8 path); [|done]. injection Ep as <-.
  apply io_bind_Ok in H as ([] & w2 & [Edb EW]%fs_write_new_Ok & H). apply io_bind_Ok in H as (res & w3 & EA & H). unfold attempt in EA.
  destruct (db (transaction _) w2) as [x w4] eqn:ED. injection EA as <- <-. destruct x as [file_id|e]; [|by apply io_bind_Ok in H as (? & ? & ? & [? ?]%io_try_Ok)].
  injection H as <- <-. pose proof (build_same_disk _ _ _ _ ED) as Edisk. unfold db in ED. rewrite Edb in ED. unfold transaction at 1 in ED.
  destruct ((key_id ← build_tree rnd entropy name data_key spec; _) (w_db w)) as [[k|e] st2] eqn:EB; [|done]. injection ED as <- <-.
  apply dbM_bind_Ok in EB as (key_id & st1 & EB & EI). exists key_id, st1. unfold KeyTree.split, transaction. rewrite EB. split; [done|].
  unfold insert_file in EI. destruct (_ || _); [done|]. injection EI as <- <-. cbn [w_db w_disk] in *. split; [done|]. split; [done|].
  unfold file_row. cbn. apply first_row_new; [|by apply bool_decide_eq_true]. intros r Hr. apply bool_decide_eq_false. by apply next_id_fresh.
Qed.

(** C9: A quorum lock that fails, at whatever step, leaves the database exactly as it was
    and every file on the disk too: no tree without a file, no file without a tree, and no
    ciphertext that nothing records. There is one exception, which the code does not
    report: when the storage itself refuses to delete a file the call has just created, that file
    stays, at the path where there was none. *)
Theorem quorum_lock_atomic rnd entropy data_key nonce now source path name spec expires (w : World S) e w' :
  lock_file_until_in rnd entropy data_key nonce now source path name spec expires w = (Err e, w') ->
  w_db w' = w_db w /\ (same_files (w_disk w) (w_disk w') \/ stray path (w_disk w) (w_disk w')).
Proof.
  assert (forall plaintext name e w', lock_bytes_until_in rnd entropy data_key nonce now plaintext path name spec expires w = (Err e, w') ->
    w_db w' = w_db w /\ (same_files (w_disk w) (w_disk w') \/ stray path (w_disk w) (w_disk w'))) as HB.
  { clear -StorageLaws0. intros plaintext name e w'. unfold lock_bytes_until_in, mbind, ioM_bind. rewrite db_query.
    destruct (validate _ _); [|intros [= _ <-]; split; [done|by left]]. unfold path_to_str, io_try.
    destruct (is_utf8 path); [|intros [= _ <-]; split; [done|by left]]. unfold fs_write_new. destruct (storage_write_new _ _ _) as [[[]|e'] d] eqn:EW.
    - unfold attempt, db, transaction. cbn [w_db w_disk]. destruct (dbM_bind _ _ _ _ (w_db w)) as [[k|e'] st2]; [done|]. unfold ignore, fs_delete. cbn [w_db w_disk snd].
      pose proof (take_back _ _ _ _ EW) as HB. destruct (storage_delete d path) as [x d2]. by intros [= _ <-].
    - intros [= _ <-]. by apply write_new_Err in EW. }
  unfold lock_file_until_in, mbind, ioM_bind. rewrite db_query. destruct (validate _ _); [|intros [= _ <-]; split; [done|by left]].
  unfold fs_read. destruct (storage_read _ _); [|intros [= _ <-]; split; [done|by left]]. apply HB.
Qed.
End lock.

(** ** Unlocking *)

Section unlock.
Context `{C : Crypto} `{SH : Shamir} `{HX : Hex} `{A : Aead} `{CL : Clock} `{S : Storage} `{ET : ErrorText}.

(** One audit row is added and nothing else changes. *)
Definition audited (file_id : nat) (success : bool) (keys_presented : bytes) (w w' : World S) : Prop :=
  w_disk w' = w_disk w /\ exists id, w_db w' = set_vault (set_vt_events (vt_events (st_vault (w_db w)) ++
    [{| ue_id := id; ue_file_id := file_id; ue_success := success; ue_keys_presented := keys_presented |}]) (st_vault (w_db w))) (w_db w).

Lemma event_audited file_id success text (w : World S) row : file_row file_id (w_db w) = Some row ->
  exists w', ignore (db (insert_unlock_event file_id success text)) w = (Ok tt, w') /\ audited file_id success text w w'.
Proof.
  intros Hr. eexists. split; [reflexivity|]. unfold db, insert_unlock_event.
  assert (existsb (file_is file_id) (vt_files (st_vault (w_db w))) = true) as ->. { apply existsb_exists. exists row. apply first_row_Some in Hr as [? ?]. split; [by apply list_elem_of_In|done]. }
  cbn. split; [done|]. by eexists.
Qed.

Lemma quorum_purge_Ok now id (w w' : World S) : Quorum.purge_if_expired_in now id w = (Ok tt, w') -> w' = w /\ forall row, file_row id (w_db w) = Some row -> past now (fr_expires_at row) = Some false.
Proof.
  unfold Quorum.purge_if_expired_in. intros (x & w1 & E & H)%io_bind_Ok. rewrite db_query in E. injection E as E <-.
  destruct x as [[path []]|].
  - apply io_bind_Ok in H as ([] & ? & ? & H). apply io_bind_Ok in H as ([] & ? & ? & [? ?]%io_try_Ok). done.
  - injection H as <-. split; [done|]. intros row Hr. rewrite Hr in E. apply bind_Ok in E as (b & EB%ok_or_Ok & [= _ ->]). done.
  - injection H as <-. split; [done|]. intros row Hr. rewrite Hr in E. by apply bind_Ok in E as (b & EB%ok_or_Ok & ?).
Qed.
Lemma quorum_purge_live now id (w : World S) row : file_row id (w_db w) = Some row -> past now (fr_expires_at row) = Some false -> Quorum.purge_if_expired_in now id w = (Ok tt, w).
Proof. intros Hr HP. unfold Quorum.purge_if_expired_in. erewrite io_step; [|rewrite db_query, Hr, HP; reflexivity]. done. Qed.

(** Every leaf used has the signature of its parent on this file, tree, leaf and set of devices. *)
Definition approved (st : Store) (file_id key_id : nat) (p : PresentedReconstruction) (grants : list UnlockGrant) : Prop :=
  forall leaf, leaf ∈ pr_leaves p -> exists parent preimage grant public,
    parent_node_label (ul_leaf_label leaf) = Some parent /\
    unlock_approval_preimage (Z.of_nat file_id) (Z.of_nat key_id) (ul_leaf_label leaf) parent (merge_sort str_order (map pd_device_id (pr_devices p))) = Ok preimage /\
    grant ∈ grants /\ ug_leaf_label grant = ul_leaf_label leaf /\ ug_countersigner_label grant = parent /\
    signing_public_for_label parent st = Ok public /\ verify_signature public preimage (ug_signature grant) = Ok tt.

Lemma approve_leaves_Ok st file_id key_id ids grants leaves : approve_leaves st file_id key_id ids grants leaves = Ok tt <-> Forall (fun leaf => approve_leaf st file_id key_id ids grants leaf = Ok tt) leaves.
Proof.
  induction leaves as [|leaf leaves IH]; [split; [constructor|done]|]. cbn [approve_leaves]. rewrite Forall_cons, <- IH. split.
  - by intros ([] & ? & ?)%bind_Ok.
  - intros [-> ->]. done.
Qed.

Lemma require_approval_Ok st key_id file_id p grants : require_unlock_approval key_id file_id (pr_leaves p) (pr_devices p) grants st = Ok tt ->
  exists policy, custody_policy key_id st = Ok policy /\ (cp_unlock_approval policy = Parent -> approved st file_id key_id p grants).
Proof.
  intros (policy & EP & H)%bind_Ok. exists policy. split; [done|]. intros EA. rewrite EA, bool_decide_true in H by done. cbn [negb] in H.
  rewrite approve_leaves_Ok, Forall_forall in H. intros leaf Hl. specialize (H leaf Hl). unfold approve_leaf in H.
  apply bind_Ok in H as (parent & E1%ok_or_Ok & H). apply bind_Ok in H as (preimage & E2 & H). apply bind_Ok in H as (grant & E3%ok_or_Ok & H). apply bind_Ok in H as (public & E4 & H).
  apply head_Some_elem_of, list_elem_of_filter in E3 as [[? ?] ?]. by exists parent, preimage, grant, public.
Qed.

(** C7: Whatever the database, the disk, the shares and the grants, a quorum file
    is handed out only when it exists and has not expired, the leaves presented
    reconstruct the key of its own tree within that tree's custody policy, every
    leaf used carries its parent's signature for exactly this file, tree and set
    of devices where the policy asks for approval, and the stored ciphertext opens
    under the reconstructed key; and then one audit row that names the devices is
    written and nothing else changes. *)
Theorem unlock_authorised now file_id raw_shares grants (w : World S) plaintext w' :
  unlock_file_with_approval now file_id raw_shares grants w = (Ok plaintext, w') -> exists row p policy ciphertext,
    file_row file_id (w_db w) = Some row /\ past now (fr_expires_at row) = Some false /\
    reconstruct_presented (w_db w) (fr_key_id row) raw_shares = Ok p /\ enforce_devices (w_db w) (fr_key_id row) (pr_leaves p) = Ok (pr_devices p) /\
    custody_policy (fr_key_id row) (w_db w) = Ok policy /\ (cp_unlock_approval policy = Parent -> approved (w_db w) file_id (fr_key_id row) p grants) /\
    storage_read (w_disk w) (fr_encrypted_path row) = Ok ciphertext /\ aead_decrypt (pr_secret p) (fr_nonce row) ciphertext = Some plaintext /\
    audited file_id true (format_presentation (pr_devices p)) w w'.
Proof.
  unfold unlock_file_with_approval. intros ([] & w1 & [-> HP]%quorum_purge_Ok & H)%io_bind_Ok. apply io_bind_Ok in H as (row & w1 & E & H). rewrite db_query in E. injection E as E%ok_or_Ok <-.
  apply io_bind_Ok in H as (res & w1 & EA & H). unfold attempt in EA. rewrite db_query in EA. injection EA as <- <-.
  destruct (reconstruct_presented (w_db w) (fr_key_id row) raw_shares) as [p|e] eqn:ER; [|by apply io_bind_Ok in H as (? & ? & ? & [? ?]%io_try_Ok)].
  unfold complete_unlock_in in H. cbv zeta in H. apply io_bind_Ok in H as (res & w1 & EA & H). unfold attempt in EA. destruct (decrypt_presented _ _ _ _ _ _ w) as [x w2] eqn:ED. injection EA as <- <-.
  apply io_bind_Ok in H as ([] & w3 & EE & [-> ->]%io_try_Ok). unfold decrypt_presented in ED. apply io_bind_Ok in ED as ([] & w4 & [-> _]%quorum_purge_Ok & ED).
  apply io_bind_Ok in ED as (row' & w4 & E' & ED). rewrite db_query, E in E'. injection E' as <- <-. apply io_bind_Ok in ED as ([] & w4 & E' & ED). rewrite db_query in E'. injection E' as EP <-.
  destruct (negb _); [by apply io_try_Ok in ED as []|]. destruct (negb _); [by apply io_try_Ok in ED as []|]. apply io_bind_Ok in ED as (ciphertext & w4 & [= EC <-] & [EX%ok_or_Ok ->]%io_try_Ok).
  destruct (require_approval_Ok _ _ _ _ _ EP) as (policy & EPo & HA). destruct (event_audited file_id true (format_presentation (pr_devices p)) w row E) as (w5 & E5 & Haud).
  cbn [is_ok] in EE. rewrite E5 in EE. injection EE as <-. exists row, p, policy, ciphertext. split_and!; try done; [by apply HP|].
  unfold reconstruct_presented in ER. apply bind_Ok in ER as (tree & _ & ER). apply bind_Ok in ER as ([secret leaves] & _ & ER). apply bind_Ok in ER as (devices & EDv & [= <-]). done.
Qed.

(** ** The round trip *)

Context `{!ShamirLaws SH} `{!CryptoLaws C} `{!AeadLaws A} `{!StorageLaws S}.

Lemma same_unsealed st st' raw_shares : same_keys st st' -> unsealed st' raw_shares -> unsealed st raw_shares.
Proof.
  intros HK HU id s Hs. destruct (HU id s Hs) as [k E]. exists k. revert E. unfold unwrap_leaf_share, get_key. by rewrite (sk_nodes _ _ HK), (sk_hardware _ _ HK).
Qed.

(** Without a demand for approval and with the right key, the file opens. *)
Lemma complete_unlock_plain now id (w : World S) row p plaintext : file_row id (w_db w) = Some row -> past now (fr_expires_at row) = Some false ->
  custody_policy (fr_key_id row) (w_db w) = Ok default_custody -> length (pr_secret p) = KEY_LEN -> length (fr_nonce row) = NONCE_LEN ->
  storage_read (w_disk w) (fr_encrypted_path row) = Ok (aead_encrypt (pr_secret p) (fr_nonce row) plaintext) ->
  exists w', complete_unlock_in now id p [] w = (Ok plaintext, w') /\ audited id true (format_presentation (pr_devices p)) w w'.
Proof.
  intros Hr HP HC Hk Hn HR. destruct (event_audited id true (format_presentation (pr_devices p)) w row Hr) as (w' & EE & Haud). exists w'. split; [|done].
  unfold complete_unlock_in. assert (decrypt_presented now id (pr_secret p) (pr_leaves p) (pr_devices p) [] w = (Ok plaintext, w)) as ED.
  { unfold decrypt_presented. erewrite io_step by (by eapply quorum_purge_live). erewrite io_step by (rewrite db_query, Hr; reflexivity).
    erewrite io_step by (rewrite db_query; unfold require_unlock_approval; rewrite HC; reflexivity). rewrite Hk, Hn, !Nat.eqb_refl. cbn [negb].
    erewrite io_step by (unfold fs_read; by rewrite HR). unfold io_try. by rewrite decrypt_encrypt. }
  erewrite io_step by (unfold attempt; rewrite ED; reflexivity). cbn [is_ok]. by erewrite io_step by exact EE.
Qed.

(** C8: A file locked over a valid specification of thresholds opens, before its
    expiry, to exactly the bytes that were locked or not at all; either way one audit row says
    so and nothing else changes. When no key of the specification is a ghost and each is
    on a device of its own, which the custody policy a new tree has asks of the leaves
    used, it opens exactly when the leaves presented meet the
    thresholds at every level, and otherwise the answer is [QuorumNotMet].
    The database may have changed in between, as long as the file's row, the tree and the
    registry did not. *)
Theorem quorum_roundtrip rnd entropy data_key nonce locked_at plaintext path name spec expires (w : World S) id w' (later : World S) now raw_shares :
  store_ok (w_db w) -> length data_key = KEY_LEN -> length nonce = NONCE_LEN ->
  lock_bytes_until_in rnd entropy data_key nonce locked_at plaintext path name spec expires w = (Ok id, w') ->
  same_keys (w_db w') (w_db later) -> file_row id (w_db later) = file_row id (w_db w') -> storage_read (w_disk later) path = storage_read (w_disk w') path ->
  unsealed (w_db later) raw_shares -> past now expires = Some false ->
  exists row r audit after, file_row id (w_db w') = Some row /\
    unlock_file now id raw_shares later = (r, after) /\ audited id (is_ok r) audit later after /\ (forall bytes, r = Ok bytes -> bytes = plaintext) /\
    (apart (w_db w) spec ->
      r = if quorum (presented_labels (rows_of (fr_key_id row) (w_db later)) raw_shares) spec then Ok plaintext else Err QuorumNotMet).
Proof.
  intros HO Hk Hn HL HK Hrow Hdisk HU HP. destruct (lock_bytes_Ok _ _ _ _ _ _ _ _ _ _ _ _ _ HL) as (key_id & st1 & ES & HK1 & EW & Hr). rewrite Hr in Hrow.
  assert (same_keys st1 (w_db later)) as HK2 by (by transitivity (w_db w')). destruct (write_new_Ok _ _ _ _ EW) as (_ & Hread & _).
  assert (data_key <> []) as Hne by (by intros ->). pose proof (same_unsealed _ _ _ HK2 HU) as HU1.
  pose proof (split_reconstructs _ _ _ _ _ _ _ _ _ HO Hne ES HU1) as ERec.
  pose proof (fun v => reconstructed_secret _ _ _ _ _ _ _ _ _ st1 v HO Hne ES HU1 eq_refl eq_refl) as EOnly.
  assert (custody_policy key_id (w_db later) = Ok default_custody) as EC. { rewrite (same_policy _ _ HK2). by apply (split_Ok _ _ _ _ _ _ _ _ HO ES). }
  assert (rows_of key_id (w_db later) = rows_of key_id st1) as ERows by (unfold rows_of; by rewrite (sk_nodes _ _ HK2)).
  match type of Hr with _ = Some ?r => exists r end. unfold unlock_file, unlock_file_with_approval. cbn [fr_key_id]. rewrite ERows. unfold reconstruct in ERec, EOnly.
  rewrite <- (same_presented _ _ HK2) in ERec, EOnly.
  erewrite io_step by (by eapply quorum_purge_live). erewrite io_step by (rewrite db_query, Hrow; reflexivity). cbn [fr_key_id].
  destruct (reconstruct_presented (w_db later) key_id raw_shares) as [p|e] eqn:EP; cbn [mbind result_bind] in ERec, EOnly.
  - pose proof (EOnly _ eq_refl) as Esec.
    destruct (complete_unlock_plain now id later _ p plaintext Hrow HP EC) as (after & EU & Haud); [by rewrite Esec|done|cbn; by rewrite Hdisk, Esec|].
    exists (Ok plaintext), (format_presentation (pr_devices p)), after. split; [exact Hr|].
    split; [erewrite io_step by (unfold attempt; rewrite db_query, EP; reflexivity); exact EU|]. split; [done|]. split; [by intros ? [= <-]|].
    intros HA. specialize (ERec HA). by destruct (quorum _ _).
  - destruct (event_audited id false (failed_text e) later _ Hrow) as (after & EE & Haud). exists (Err e), (failed_text e), after. split; [exact Hr|].
    split; [erewrite io_step by (unfold attempt; rewrite db_query, EP; reflexivity); unfold record_unlock_failure; by rewrite (io_step _ _ _ _ _ EE)|].
    split; [done|]. split; [done|]. intros HA. specialize (ERec HA). destruct (quorum _ _); [done|]. by injection ERec as ->.
Qed.

Lemma delete_ciphertext_cases path (w : World S) :
  (exists d, delete_ciphertext path w = (Ok tt, {| w_db := w_db w; w_disk := d |}) /\ forall q, components q = components path -> storage_read d q = Err (Io IoNotFound)) \/
  (exists e, delete_ciphertext path w = (Err e, w) /\ storage_delete (w_disk w) path = (Err e, w_disk w) /\ e <> Io IoNotFound).
Proof.
  unfold delete_ciphertext, attempt, fs_delete, io_try, mbind, ioM_bind. destruct (storage_delete (w_disk w) path) as [x d] eqn:ED. destruct x as [[]|e].
  - left. exists d. split; [done|]. by apply (delete_Ok _ _ _ ED).
  - pose proof (delete_Err _ _ _ _ ED) as ->. destruct (decide (e = Io IoNotFound)) as [->|Hne].
    + left. exists (w_disk w). split; [done|]. by apply delete_missing.
    + right. exists e. destruct w as [st d']. split; [|done]. destruct e; try done. by destruct kind.
Qed.

(** C10: At or after its expiry a quorum file is never handed out, whatever shares
    and grants come with the attempt: the ciphertext, the row and its audit rows are
    removed and the answer is [FileExpired]. Only when the disk refuses the removal
    is that error the answer, and then everything is kept for a later attempt. *)
Theorem quorum_expiry now file_id raw_shares grants (w : World S) row : file_row file_id (w_db w) = Some row -> past now (fr_expires_at row) = Some true ->
  exists e w', unlock_file_with_approval now file_id raw_shares grants w = (Err e, w') /\
    ((e = FileExpired /\ file_row file_id (w_db w') = None /\ storage_read (w_disk w') (fr_encrypted_path row) = Err (Io IoNotFound) /\
      forall ev, ev ∈ vt_events (st_vault (w_db w')) -> ue_file_id ev <> file_id) \/
     (storage_delete (w_disk w) (fr_encrypted_path row) = (Err e, w_disk w) /\ e <> Io IoNotFound /\ w' = w)).
Proof.
  intros Hr HP. unfold unlock_file_with_approval.
  destruct (delete_ciphertext_cases (fr_encrypted_path row) w) as [(d & ED & Hd)|(e & ED & HE & Hne)].
  - eexists FileExpired, _. split; [|left; split; [done|]].
    + erewrite io_fail; [reflexivity|]. unfold Quorum.purge_if_expired_in. erewrite io_step; [|rewrite db_query, Hr, HP; reflexivity]. cbv iota beta.
      erewrite io_step by exact ED. reflexivity.
    + cbn. split; [|split; [by apply Hd|by intros ev [? _]%list_elem_of_filter]]. apply first_row_None. cbn. intros r [? _]%list_elem_of_filter. by apply bool_decide_eq_false.
  - exists e, w. split; [|by right]. erewrite io_fail; [reflexivity|]. unfold Quorum.purge_if_expired_in. erewrite io_step; [|rewrite db_query, Hr, HP; reflexivity]. cbv iota beta.
    by erewrite io_fail by exact ED.
Qed.
End unlock.
