(* ===== verification/ProtectedDemo.v ===== *)
(** * Protected files on concrete data

    One run of each operation on the in-memory storage, and with it an instance of
    each theorem. *)

From S2P Require Import Prelude Text Crypto BTree Authority Tables KeyStore Pss KeyTree Combinations Reconstruct SplitTree Signing BridgePackage PrivateBridge BridgeRoster Aead Clock Pin World Sharing Quorum QuorumLaws.
From stdpp Require Import gmap.

#[local] Existing Instances Toy.toy ToyAead.toy ToyAead.toy_laws ToyClock.toy ToyShamir.toy Memory.storage Memory.storage_laws.
#[local] Instance text_of_error : ErrorText := fun _ => str "error".
#[local] Instance plain_hex : Hex := fun b => b.
#[local] Instance plain_base64 : Base64 := {| b64_encode b := b; b64_decode b := Some b |}.

Module ProtectedDemo.
(** Two files on the disk. *)
Definition disk0 : Memory.MemoryStorage := Eval vm_compute in (Memory.write_new Memory.empty (str "/home/plan.txt") (str "the plan")).2.
Definition world0 : World Memory.storage := {| w_db := PinDemo.empty; w_disk := disk0 |}.

(** A file locked until the hundredth second. *)
Definition until : bytes := Eval vm_compute in default [] (datetime_at 100).
Definition locked := Sharing.lock_file_until_in (replicate 16 x01) (replicate 12 x02) (str "/home/plan.txt") (str "/home//plan.kq") (str "pass") (Some until) world0.
Definition world1 : World Memory.storage := locked.2.
Lemma locked_is : locked.1 = Ok 1.
Proof. vm_compute. reflexivity. Qed.
Lemma locked_Ok : locked = (Ok 1, world1).
Proof. unfold world1. rewrite <- locked_is. apply surjective_pairing. Qed.
End ProtectedDemo.

Lemma locked_file_roundtrip_witness :
  unlock_file_in 99 1 (str "pass") ProtectedDemo.world1 = (Ok (str "the plan"), ProtectedDemo.world1) /\
  exists w, unlock_file_in 100 1 (str "pass") ProtectedDemo.world1 = (Err FileExpired, w) /\ storage_read (w_disk w) (str "/home/plan.kq") = Err (Io IoNotFound).
Proof.
  split.
  - refine (proj1 (locked_file_roundtrip (replicate 16 x01) (replicate 12 x02) (str "/home/plan.txt") (str "/home//plan.kq") (str "pass") (Some ProtectedDemo.until)
      ProtectedDemo.world0 1 ProtectedDemo.world1 (str "the plan") 99 eq_refl _ ProtectedDemo.locked_Ok) _); vm_compute; reflexivity.
  - destruct (proj2 (locked_file_roundtrip (replicate 16 x01) (replicate 12 x02) (str "/home/plan.txt") (str "/home//plan.kq") (str "pass") (Some ProtectedDemo.until)
      ProtectedDemo.world0 1 ProtectedDemo.world1 (str "the plan") 100 eq_refl ltac:(vm_compute; reflexivity) ProtectedDemo.locked_Ok) ltac:(vm_compute; reflexivity) (str "pass")) as (w & E & _ & H & _).
    exists w. split; [exact E|]. destruct H as [H|[e H]]; [exact H|]. exfalso. apply (f_equal fst) in H. vm_compute in H. discriminate H.
Defined.

(** The row of the first file is still there when its ciphertext is not: the new
    row is refused and the new ciphertext removed again. *)
Module RelockDemo.
Definition world : World Memory.storage := {| w_db := w_db ProtectedDemo.world1; w_disk := ProtectedDemo.disk0 |}.
Definition run := Sharing.lock_file_until_in (replicate 16 x01) (replicate 12 x02) (str "/home/plan.txt") (str "/home//plan.kq") (str "pass") None world.
Lemma refused : run.1 = Err Db.
Proof. vm_compute. reflexivity. Qed.
Lemma refused_run : run = (Err Db, run.2).
Proof. rewrite (surjective_pairing run) at 1. by rewrite refused. Qed.
End RelockDemo.

Lemma lock_file_atomic_witness : w_db RelockDemo.run.2 = w_db RelockDemo.world /\
  (same_files (S := Memory.storage) (w_disk RelockDemo.world) (w_disk RelockDemo.run.2) \/ stray (S := Memory.storage) (str "/home//plan.kq") (w_disk RelockDemo.world) (w_disk RelockDemo.run.2)).
Proof. exact (lock_file_atomic _ _ _ _ _ _ _ _ _ RelockDemo.refused_run). Defined.

(** ** A share of the locked file, for two uses *)

Module ShareDemo.
Definition created := db (create_file_share (B := plain_base64) 10 (str "raw") 1 50 (Some 2%Z)) ProtectedDemo.world1.
Definition world2 : World Memory.storage := created.2.
Definition h : bytes := Eval vm_compute in (generate_token (str "raw")).2.
Definition row : ShareRow := Eval vm_compute in
  default {| sr_id := 0; sr_resource := 0; sr_token_hash := []; sr_expires_at := []; sr_max_uses := None; sr_use_count := 0; sr_revoked_at := None |} (share_row FileShares h (w_db world2)).
Definition ops : list ShareOp := [RedeemShare 20 FileShares (str "raw"); RedeemShare 60 FileShares (str "raw"); RedeemShare 30 FileShares (str "raw"); RedeemShare 31 FileShares (str "raw"); PurgeExpired 40].
Definition run := run_shares ops world2.
(** The second comes too late, the fourth is one too many. *)
Lemma results : map snd run.1 = [Ok (Some 1); Err ShareExpired; Ok (Some 1); Err ShareExhausted; Ok None].
Proof. vm_compute. reflexivity. Qed.
Lemma tables_ok : shares_ok (w_db world2).
Proof.
  intros []; split; vm_compute; try constructor; try set_solver; try constructor; try (split; [discriminate|]); intros m [= <-]; discriminate.
Qed.
End ShareDemo.

Lemma share_uses_bounded_witness : (Z.of_nat (length (granted FileShares ShareDemo.h ShareDemo.run.1)) <= 2)%Z /\ length (granted FileShares ShareDemo.h ShareDemo.run.1) = 2.
Proof.
  split; [|vm_compute; reflexivity].
  destruct (share_uses_bounded FileShares ShareDemo.h ShareDemo.ops ShareDemo.world2 ShareDemo.run.1 ShareDemo.run.2 ShareDemo.row ShareDemo.tables_ok) as (H & _).
  - vm_compute. reflexivity.
  - repeat (constructor; [split; [reflexivity|vm_compute; eauto]|]). constructor.
  - apply surjective_pairing.
  - exact (H 2%Z eq_refl).
Defined.

(** ** A quorum of cards *)

Module QuorumDemo.
Definition world0 : World Memory.storage := {| w_db := SplitDemo.store; w_disk := ProtectedDemo.disk0 |}.
Definition data_key : bytes := replicate 32 x0d.
Definition locked := lock_bytes_until_in id (fun _ => []) data_key (replicate 12 x02) 5 (str "the plan") (str "/vault/plan.kq") (str "plan") SplitDemo.spec (Some ProtectedDemo.until) world0.
Definition world1 : World Memory.storage := locked.2.
Lemma quorum_locked_is : locked.1 = Ok 1.
Proof. vm_compute. reflexivity. Qed.
Lemma quorum_locked_Ok : locked = (Ok 1, world1).
Proof. unfold world1. rewrite <- quorum_locked_is. apply surjective_pairing. Qed.
(** The shares in the rows, by row. *)
Definition share_of (id : nat) : bytes :=
  match first_row (fun r => bool_decide (nr_id r = id)) (st_nodes (w_db world1)) with Some row => drop SEALBYTES (default [] (nr_share row)) | None => [] end.
(** Ann and the team; Ann alone. *)
Definition enough : gmap nat bytes := {[2 := share_of 2; 5 := share_of 5]}.
Definition too_few : gmap nat bytes := {[2 := share_of 2]}.
Lemma enough_unsealed : unsealed (w_db world1) enough.
Proof.
  intros id s Hs. unfold enough in Hs. apply lookup_insert_Some in Hs as [[<- <-]|[_ [<- <-]%lookup_singleton_Some]].
  - exists (hk_public_key (CardDemo.hw 1 [])). vm_compute. reflexivity.
  - exists (hk_public_key (CardDemo.hw 3 [])). vm_compute. reflexivity.
Qed.
Lemma opened_is : (unlock_file 99 1 enough world1).1 = Ok (str "the plan").
Proof. vm_compute. reflexivity. Qed.
Definition opened := unlock_file 99 1 enough world1.
Lemma opened_Ok : unlock_file_with_approval 99 1 enough [] world1 = (Ok (str "the plan"), opened.2).
Proof. rewrite <- opened_is. apply surjective_pairing. Qed.
End QuorumDemo.

Lemma quorum_roundtrip_witness : exists w, unlock_file 99 1 QuorumDemo.enough QuorumDemo.world1 = (Ok (str "the plan"), w).
Proof.
  destruct (quorum_roundtrip (C := Toy.toy) (SH := ToyShamir.toy) (A := ToyAead.toy) (CL := ToyClock.toy) (S := Memory.storage) (ShamirLaws0 := ToyShamir.toy_laws) (CryptoLaws0 := Toy.toy_laws)
    id (fun _ => []) QuorumDemo.data_key (replicate 12 x02) 5 (str "the plan") (str "/vault/plan.kq") (str "plan") SplitDemo.spec (Some ProtectedDemo.until)
    QuorumDemo.world0 1 QuorumDemo.world1 QuorumDemo.world1 99 QuorumDemo.enough SplitDemo.store_is_ok eq_refl eq_refl QuorumDemo.quorum_locked_Ok (reflexivity _) eq_refl eq_refl
    QuorumDemo.enough_unsealed eq_refl) as (row & r & audit & after & Hrow & HU & _ & _ & Hr).
  exists after. rewrite HU, (Hr SplitDemo.keys_apart). assert (fr_key_id <$> file_row 1 (w_db QuorumDemo.world1) = Some 2) as Ek by (vm_compute; reflexivity). rewrite Hrow in Ek. injection Ek as Ek. rewrite Ek.
  assert (quorum (presented_labels (rows_of 2 (w_db QuorumDemo.world1)) QuorumDemo.enough) SplitDemo.spec = true) as -> by (vm_compute; reflexivity). reflexivity.
Defined.

Lemma unlock_authorised_witness : exists row p, file_row 1 (w_db QuorumDemo.world1) = Some row /\ reconstruct_presented (w_db QuorumDemo.world1) (fr_key_id row) QuorumDemo.enough = Ok p /\
  audited 1 true (format_presentation (pr_devices p)) QuorumDemo.world1 QuorumDemo.opened.2.
Proof.
  destruct (unlock_authorised 99 1 QuorumDemo.enough [] QuorumDemo.world1 (str "the plan") QuorumDemo.opened.2 QuorumDemo.opened_Ok) as (row & p & policy & c & H1 & _ & H2 & _ & _ & _ & _ & _ & H3).
  exists row, p. split; [exact H1|]. split; [exact H2|exact H3].
Defined.

Lemma quorum_expiry_witness : exists e w, unlock_file_with_approval 100 1 QuorumDemo.enough [] QuorumDemo.world1 = (Err e, w) /\ e = FileExpired.
Proof.
  destruct (file_row 1 (w_db QuorumDemo.world1)) as [row|] eqn:E; [|vm_compute in E; discriminate].
  assert (fr_encrypted_path <$> file_row 1 (w_db QuorumDemo.world1) = Some (str "/vault/plan.kq")) as Ep by (vm_compute; reflexivity).
  assert (fr_expires_at <$> file_row 1 (w_db QuorumDemo.world1) = Some (Some ProtectedDemo.until)) as Ee by (vm_compute; reflexivity). rewrite E in Ep, Ee. injection Ep as Ep. injection Ee as Ee.
  destruct (quorum_expiry 100 1 QuorumDemo.enough [] QuorumDemo.world1 row E ltac:(rewrite Ee; vm_compute; reflexivity)) as (e & w & EU & [[He _]|(Hd & _)]); exists e, w; (split; [exact EU|]); [exact He|].
  exfalso. rewrite Ep in Hd. apply (f_equal fst) in Hd. vm_compute in Hd. discriminate.
Defined.

Module QuorumRelock.
Definition world : World Memory.storage := {| w_db := w_db QuorumDemo.world1; w_disk := ProtectedDemo.disk0 |}.
Definition run := Quorum.lock_file_until_in id (fun _ => []) QuorumDemo.data_key (replicate 12 x02) 5 (str "/home/plan.txt") (str "/vault/plan.kq") None SplitDemo.spec None world.
Lemma quorum_refused : run.1 = Err Db.
Proof. vm_compute. reflexivity. Qed.
Lemma quorum_refused_run : run = (Err Db, run.2).
Proof. rewrite (surjective_pairing run) at 1. by rewrite quorum_refused. Qed.
End QuorumRelock.

Lemma quorum_lock_atomic_witness : w_db QuorumRelock.run.2 = w_db QuorumRelock.world /\
  (same_files (S := Memory.storage) (w_disk QuorumRelock.world) (w_disk QuorumRelock.run.2) \/ stray (S := Memory.storage) (str "/vault/plan.kq") (w_disk QuorumRelock.world) (w_disk QuorumRelock.run.2)).
Proof. exact (quorum_lock_atomic _ _ _ _ _ _ _ _ _ _ _ _ _ QuorumRelock.quorum_refused_run). Defined.

(** ** A disk that refuses deletions

    It keeps every law of [StorageLaws], and a failed lock leaves its ciphertext on it. *)

Module Stubborn.
Definition storage : Storage := {|
  disk := Memory.MemoryStorage;
  exists_path := Memory.exists_;
  storage_read := Memory.read;
  storage_write_new := Memory.write_new;
  storage_rename := Memory.rename;
  storage_delete s _ := (Err (Io IoOther), s);
  storage_create_dir_all s _ := (Ok tt, s);
  storage_remove_empty_dir s _ := s;
|}.

Lemma stubborn_laws : StorageLaws storage.
Proof.
  pose proof Memory.storage_laws as M. split; try done.
  - apply M.
  - intros d path contents e d' E. left. destruct (write_new_Err (S := Memory.storage) d path contents e d' E) as [H|(_ & _ & e' & H)]; [exact H|].
    revert E. simpl. unfold Memory.write_new. case_bool_decide; by intros [= _ <-].
  - by intros d path e d' [= _ <-].
  - apply M.
  - apply M.
  - apply M.
  - apply M.
  - by intros d path r d' [= _ <-].
Qed.

Definition world : World storage := Build_World storage (w_db QuorumDemo.world1) ProtectedDemo.disk0.
Definition run := Quorum.lock_file_until_in (S := storage) id (fun _ => []) QuorumDemo.data_key (replicate 12 x02) 5 (str "/home/plan.txt") (str "/vault/plan.kq") None SplitDemo.spec None world.
Lemma ciphertext_left : run.1 = Err Db /\ storage_read (w_disk world) (str "/vault/plan.kq") = Err (Io IoNotFound) /\
  exists_path (w_disk run.2) (str "/vault/plan.kq") = true.
Proof. vm_compute. done. Qed.
End Stubborn.
