(* ===== verification/Ring.v ===== *)
(** * Rings of slots ([src/src/ring.rs])

    The pointer arithmetic outbox and inbox share: a capacity, a read pointer, a
    write pointer and the span of slots between them. *)

From S2P Require Import Prelude Text Crypto Authority Tables KeyStore Signing Aead Clock BridgePackage PrivateBridge BridgeRoster Pin.

(** [Table]: which of the two rings. *)
Inductive RingTable := OutboxRing | InboxRing.
#[export] Instance RingTable_eq_dec : EqDecision RingTable.
Proof. solve_decision. Defined.

Definition rings_of (T : RingTable) (t : RingTables) : list RingRow := match T with OutboxRing => rt_outbox_rings t | InboxRing => rt_inbox_rings t end.
Definition with_rings (T : RingTable) (l : list RingRow) (t : RingTables) : RingTables := match T with OutboxRing => set_rt_outbox_rings l t | InboxRing => set_rt_inbox_rings l t end.
Definition out_slot (key : bytes) (index : nat) (s : OutSlot) : bool := bool_decide (os_owner s = key /\ os_index s = index).
Definition in_slot (key : bytes) (index : nat) (s : InSlot) : bool := bool_decide (is_relay s = key /\ is_index s = index).
Definition on_rings (g : RingTables -> RingTables) : dbM unit := execute (fun st => set_rings (g (st_rings st)) st).

Record Pointers := { pt_capacity : nat; pt_read_index : nat; pt_write_index : nat; pt_size : nat }.
Definition is_full (p : Pointers) : bool := pt_capacity p <=? pt_size p.

Definition MAX_CAPACITY : nat := 1024.
(** The [CHECK] constraints of a ring. *)
Definition ring_check (r : RingRow) : bool :=
  (1 <=? rg_capacity r) && (rg_capacity r <=? MAX_CAPACITY) && (rg_read_index r <? rg_capacity r) && (rg_write_index r <? rg_capacity r) && (rg_size r <=? rg_capacity r) &&
  ((rg_read_index r + rg_size r) mod rg_capacity r =? rg_write_index r).

Definition ring_is (key : bytes) (r : RingRow) : bool := bool_decide (rg_key r = key).
Definition ring_row (T : RingTable) (key : bytes) (st : Store) : option RingRow := first_row (ring_is key) (rings_of T (st_rings st)).
Definition pointers (r : RingRow) : Pointers := {| pt_capacity := rg_capacity r; pt_read_index := rg_read_index r; pt_write_index := rg_write_index r; pt_size := rg_size r |}.
Definition ring_load (T : RingTable) (key : bytes) (st : Store) : option Pointers := pointers <$> ring_row T key st.

(** [UPDATE {rings} SET .. WHERE {key} = ?1], with the constraints. *)
Definition update_ring (T : RingTable) (key : bytes) (g : RingRow -> RingRow) : dbM unit := fun st =>
  if existsb (fun r => ring_is key r && negb (ring_check (g r))) (rings_of T (st_rings st)) then (Err Db, st)
  else on_rings (fun t => with_rings T (update_where (ring_is key) g (rings_of T t)) t) st.

(** [INSERT OR IGNORE], which skips a row that breaks a constraint. *)
Definition ensure (T : RingTable) (key : bytes) (slots : nat) : dbM Pointers :=
  on_rings (fun t => if existsb (ring_is key) (rings_of T t) || negb ((1 <=? slots) && (slots <=? MAX_CAPACITY)) then t
                     else with_rings T (rings_of T t ++ [{| rg_key := key; rg_capacity := slots; rg_read_index := 0; rg_write_index := 0; rg_size := 0; rg_sent_total := 0 |}]) t) ≫= fun _ =>
  query (fun st => ok_or (ring_load T key st) IntegrityCheckFailed).

Definition set_pointers (read write n : nat) (r : RingRow) : RingRow :=
  {| rg_key := rg_key r; rg_capacity := rg_capacity r; rg_read_index := read; rg_write_index := write; rg_size := n; rg_sent_total := rg_sent_total r |}.
Definition advance_write (T : RingTable) (key : bytes) : dbM unit :=
  update_ring T key (fun r => set_pointers (rg_read_index r) (S (rg_write_index r) mod rg_capacity r) (S (rg_size r)) r).

Definition slot_held (T : RingTable) (key : bytes) (index : nat) (st : Store) : bool :=
  match T with
  | OutboxRing => existsb (out_slot key index) (rt_outbox_slots (st_rings st))
  | InboxRing => existsb (in_slot key index) (rt_inbox_slots (st_rings st))
  end.

(** The content is overwritten before its row is deleted. *)
Definition wipe (s : OutSlot) : OutSlot :=
  {| os_owner := os_owner s; os_index := os_index s; os_kind := os_kind s; os_recipient := os_recipient s; os_content := replicate (length (os_content s)) x00;
     os_content_hash := os_content_hash s; os_queued_at := os_queued_at s; os_claim := os_claim s |}.
Definition delete_slot (T : RingTable) (key : bytes) (index : nat) : dbM unit :=
  match T with
  | OutboxRing =>
      on_rings (fun t => set_rt_outbox_slots (update_where (out_slot key index) wipe (rt_outbox_slots t)) t) ≫= fun _ =>
      on_rings (fun t => set_rt_outbox_slots (filter (fun s => out_slot key index s = false) (rt_outbox_slots t)) t)
  | InboxRing => on_rings (fun t => set_rt_inbox_slots (filter (fun s => in_slot key index s = false) (rt_inbox_slots t)) t)
  end.

(** [while ring.size > 0 && !slot_held(..)]: the span left, [n] slots from [read] on. *)
Fixpoint skip_released (held_at : nat -> bool) (cap n read : nat) : nat * nat :=
  match n with
  | 0 => (read, 0)
  | S n' => if held_at read then (read, n) else skip_released held_at cap n' (S read mod cap)
  end.

Definition advance_read (T : RingTable) (key : bytes) : dbM unit := fun st =>
  match ring_load T key st with
  | None => (Ok tt, st)
  | Some ring =>
      let '(read, n) := skip_released (fun i => slot_held T key i st) (pt_capacity ring) (pt_size ring) (pt_read_index ring) in
      update_ring T key (fun r => set_pointers read (rg_write_index r) n r) st
  end.
Definition release (T : RingTable) (key : bytes) (index : nat) : dbM unit := delete_slot T key index ≫= fun _ => advance_read T key.

Definition resize (T : RingTable) (key : bytes) (slots : nat) : dbM bool :=
  ring ← ensure T key slots;
  if negb (pt_size ring =? 0) then mret false else
  update_ring T key (fun r => {| rg_key := rg_key r; rg_capacity := slots; rg_read_index := 0; rg_write_index := 0; rg_size := rg_size r; rg_sent_total := rg_sent_total r |}) ≫= fun _ =>
  mret true.

Lemma first_row_filter {A} (P Q : A -> bool) l : (forall a, P a = true -> Q a = false) -> first_row P (filter (fun a => Q a = false) l) = first_row P l.
Proof.
  intros H. unfold first_row. rewrite list_filter_filter_l; [done|]. intros a. exact (H a).
Qed.

(** ** The span *)

(** The slots from the read pointer up to the write pointer. *)
Definition span (cap read n : nat) : list nat := map (fun i => (read + i) mod cap) (seq 0 n).
Definition ring_span (r : RingRow) : list nat := span (rg_capacity r) (rg_read_index r) (rg_size r).

Lemma span_cons cap read n : read < cap -> span cap read (S n) = read :: span cap (S read mod cap) n.
Proof.
  intros H. unfold span. cbn [seq map]. f_equal; [rewrite Nat.add_0_r; by apply Nat.mod_small|]. rewrite <- seq_shift, map_map. apply map_ext. intros i.
  rewrite Nat.Div0.add_mod_idemp_l. f_equal. lia.
Qed.
Lemma span_snoc cap read n : span cap read (S n) = span cap read n ++ [(read + n) mod cap].
Proof. unfold span. by rewrite seq_S, map_app. Qed.

Lemma span_nth cap read n i : i < n -> span cap read n !! i = Some ((read + i) mod cap).
Proof. intros H. unfold span. rewrite list_lookup_fmap, lookup_seq_lt by done. done. Qed.

Lemma span_NoDup cap read n : n <= cap -> NoDup (span cap read n).
Proof.
  intros H. apply NoDup_alt. intros i j x Hi Hj. assert (i < n /\ j < n) as [Li Lj].
  { split; [apply lookup_lt_Some in Hi|apply lookup_lt_Some in Hj]; unfold span in *; by rewrite length_fmap, length_seq in *. }
  rewrite span_nth in Hi, Hj by done. injection Hi as Hi. injection Hj as Hj.
  assert (forall a b, a <= b -> b < n -> (read + a) mod cap = (read + b) mod cap -> a = b) as Hw; [|destruct (Nat.le_ge_cases i j); [apply Hw; lia|symmetry; apply Hw; lia]].
  clear i j x Hi Hj Li Lj. intros a b Hab Hb E. pose proof (Nat.div_mod_eq (read + a) cap). pose proof (Nat.div_mod_eq (read + b) cap).
  destruct (Nat.eq_dec ((read + a) / cap) ((read + b) / cap)) as [Eq|Hne]; [nia|]. exfalso.
  assert ((read + a) / cap <= (read + b) / cap) by (apply Nat.Div0.div_le_mono; lia). nia.
Qed.

(** The slot at the write pointer is free while the ring is not full. *)
Lemma write_free cap read n : n < cap -> (read + n) mod cap ∉ span cap read n.
Proof.
  intros H Hin. pose proof (span_NoDup cap read (S n) ltac:(lia)) as HN. rewrite span_snoc in HN. apply NoDup_app in HN as (_ & HN & _). by apply (HN _ Hin), list_elem_of_singleton.
Qed.

(** The loop of [release] drops the released slots at the head, and only those. *)
Lemma skip_released_spec held_at cap n read read' n' : read < cap -> skip_released held_at cap n read = (read', n') ->
  read' < cap /\ n' <= n /\ (read' + n') mod cap = (read + n) mod cap /\ (exists gone, span cap read n = gone ++ span cap read' n' /\ Forall (fun i => held_at i = false) gone) /\
  (n' = 0 \/ held_at read' = true).
Proof.
  revert read; induction n as [|n IH]; intros read Hr; simpl.
  - intros [= <- <-]. split_and!; try done; [by exists []|by left].
  - destruct (held_at read) eqn:E.
    + intros [= <- <-]. split_and!; try done; [by exists []|by right].
    + intros H. assert (S read mod cap < cap) as Hm by (apply Nat.mod_upper_bound; lia). destruct (IH _ Hm H) as (H1 & H2 & H3 & (gone & H4 & H5) & H6). split_and!; [done|lia| | |done].
      * rewrite H3, Nat.Div0.add_mod_idemp_l. f_equal. lia.
      * exists (read :: gone). rewrite span_cons by done. rewrite H4. by auto using Forall_cons_2.
Qed.

(** ** Well-formed rings *)

Lemma ring_check_spec r : ring_check r = true <-> 1 <= rg_capacity r <= MAX_CAPACITY /\ rg_read_index r < rg_capacity r /\ rg_write_index r < rg_capacity r /\ rg_size r <= rg_capacity r /\
  (rg_read_index r + rg_size r) mod rg_capacity r = rg_write_index r.
Proof. unfold ring_check. rewrite !andb_true_iff, !Nat.leb_le, !Nat.ltb_lt, Nat.eqb_eq. tauto. Qed.

(** The constraints of the tables: keys are unique and the checks are met. *)
Record rows_ok (T : RingTable) (st : Store) : Prop := {
  ro_keys : NoDup (map rg_key (rings_of T (st_rings st)));
  ro_checks : Forall (fun r => ring_check r = true) (rings_of T (st_rings st));
}.
(** What a ring means: a held slot lies in the span of its ring, whose head, if there
    is one, is held. *)
Record ring_ok (T : RingTable) (st : Store) : Prop := {
  ro_rows : rows_ok T st;
  ro_held key i : slot_held T key i st = true -> exists r, ring_row T key st = Some r /\ i ∈ ring_span r;
  ro_head key r : ring_row T key st = Some r -> 0 < rg_size r -> slot_held T key (rg_read_index r) st = true;
}.

Lemma ring_row_check T key st r : rows_ok T st -> ring_row T key st = Some r -> rg_key r = key /\ ring_check r = true.
Proof.
  intros HO [Hin Hk%bool_decide_eq_true]%first_row_Some. split; [done|]. pose proof (ro_checks _ _ HO) as HF. rewrite Forall_forall in HF. by apply HF.
Qed.

Lemma rings_with T T' l t : rings_of T (with_rings T' l t) = if decide (T = T') then l else rings_of T t.
Proof. by destruct T, T'. Qed.
Lemma held_rings T T' key i l t st : slot_held T key i (set_rings (with_rings T' l t) st) = slot_held T key i (set_rings t st).
Proof. by destruct T, T'. Qed.
Lemma set_rings_same st : set_rings (st_rings st) st = st.
Proof. by destruct st. Qed.

Lemma with_rings_same T t : with_rings T (rings_of T t) t = t.
Proof. by destruct T, t. Qed.

(** An update of one ring's row. *)
Lemma update_ring_run T key g st : (forall r, rg_key (g r) = rg_key r) -> (forall r, ring_row T key st = Some r -> ring_check (g r) = true) -> rows_ok T st ->
  exists st', update_ring T key g st = (Ok tt, st') /\ rows_ok T st' /\
    (forall k, ring_row T k st' = if decide (k = key) then g <$> ring_row T k st else ring_row T k st) /\ (forall k i, slot_held T k i st' = slot_held T k i st) /\
    st' = set_rings (with_rings T (update_where (ring_is key) g (rings_of T (st_rings st))) (st_rings st)) st.
Proof.
  intros Hk Hc HO. assert (forall r, r ∈ rings_of T (st_rings st) -> ring_is key r = true -> ring_check (g r) = true) as Hcheck.
  { intros r Hr Ek%bool_decide_eq_true. apply Hc. unfold ring_row, ring_is. rewrite <- Ek. apply (first_row_key rg_key); [apply HO|done]. }
  unfold update_ring. assert (existsb (fun r => ring_is key r && negb (ring_check (g r))) (rings_of T (st_rings st)) = false) as ->.
  { apply not_true_is_false. intros (r & Hr%list_elem_of_In & [Ek En%negb_true_iff]%andb_true_iff)%existsb_exists. by rewrite Hcheck in En. }
  eexists. split; [reflexivity|]. split; [|split; [|split; [|done]]].
  - split; cbn; rewrite rings_with, decide_True by done; [rewrite update_where_map by done; apply HO|]. apply update_where_Forall; [apply HO|]. intros r Hr Ek _. by apply Hcheck.
  - intros k. unfold ring_row. cbn. rewrite rings_with, decide_True by done.
    rewrite first_row_update by (intros r _ _; unfold ring_is; by rewrite Hk). destruct (first_row (ring_is k) (rings_of T (st_rings st))) as [r|] eqn:E; [|by destruct (decide _)]. simpl.
    apply first_row_Some in E as [_ E%bool_decide_eq_true]. unfold ring_is. destruct (decide (k = key)) as [->|Hne]; [by rewrite bool_decide_true|by rewrite bool_decide_false by congruence].
  - intros k i. cbn. rewrite held_rings. by rewrite set_rings_same.
Qed.

(** The ring for [key], which was there or is new and empty. *)
Definition new_ring (key : bytes) (slots : nat) : RingRow := {| rg_key := key; rg_capacity := slots; rg_read_index := 0; rg_write_index := 0; rg_size := 0; rg_sent_total := 0 |}.
Lemma ensure_run T key slots st : 1 <= slots <= MAX_CAPACITY -> ring_ok T st ->
  exists st', let r := default (new_ring key slots) (ring_row T key st) in
    ensure T key slots st = (Ok (pointers r), st') /\ ring_ok T st' /\ ring_row T key st' = Some r /\ (forall k, k <> key -> ring_row T k st' = ring_row T k st) /\
    (forall k i, slot_held T k i st' = slot_held T k i st) /\ exists l, st' = set_rings (with_rings T l (st_rings st)) st.
Proof.
  intros Hs HO. unfold ensure, on_rings, execute. cbv zeta. rewrite (proj2 (andb_true_iff _ _)) by (rewrite !Nat.leb_le; lia). cbn [negb].
  destruct (ring_row T key st) as [r|] eqn:Er; cbn [default from_option]; unfold id.
  - exists st. assert (existsb (ring_is key) (rings_of T (st_rings st)) = true) as EX.
    { apply existsb_exists. apply first_row_Some in Er as [Hin Hk]. exists r. by rewrite <- list_elem_of_In. }
    split; [|split_and!; try done; exists (rings_of T (st_rings st)); by rewrite with_rings_same, set_rings_same].
    rewrite (dbM_step _ _ st tt st) by (cbv beta; rewrite EX; cbn [orb]; by rewrite set_rings_same). unfold query, ring_load. by rewrite Er.
  - set (st1 := set_rings (with_rings T (rings_of T (st_rings st) ++ [new_ring key slots]) (st_rings st)) st). exists st1. unfold ring_row in Er. pose proof (proj1 (first_row_None _ _) Er) as Hno.
    assert (existsb (ring_is key) (rings_of T (st_rings st)) = false) as EX.
    { apply not_true_is_false. intros (r & Hr%list_elem_of_In & E)%existsb_exists. by rewrite Hno in E. }
    assert (forall k, ring_row T k st1 = if decide (k = key) then Some (new_ring key slots) else ring_row T k st) as Hrow.
    { intros k. unfold ring_row, st1. cbn. rewrite rings_with, decide_True by done. destruct (decide (k = key)) as [->|Hne].
      - apply first_row_new; [done|]. unfold ring_is. by rewrite bool_decide_true.
      - apply first_row_old. unfold ring_is. rewrite bool_decide_false; [done|]. simpl. congruence. }
    assert (forall k i, slot_held T k i st1 = slot_held T k i st) as Hh by (intros k i; unfold st1; by rewrite held_rings, set_rings_same).
    split; [|split; [|split; [by rewrite Hrow, decide_True|split; [intros k Hne; by rewrite Hrow, decide_False|split; [done|by eexists]]]]].
    + rewrite (dbM_step _ _ st tt st1) by (cbv beta; by rewrite EX). unfold query, ring_load. by rewrite Hrow, decide_True.
    + split.
      * split; unfold st1; cbn; rewrite rings_with, decide_True by done.
        -- rewrite map_app. apply NoDup_app. split; [apply HO|]. split; [|apply NoDup_singleton]. intros k (r & -> & Hr)%list_elem_of_fmap [Ek|E]%elem_of_cons; [|by apply not_elem_of_nil in E].
           specialize (Hno r Hr). unfold ring_is in Hno. by rewrite bool_decide_true in Hno.
        -- apply Forall_app_2; [apply HO|]. repeat constructor. apply ring_check_spec. cbn. split_and!; try lia. rewrite Nat.Div0.mod_0_l. done.
      * intros k i Hk. rewrite Hh in Hk. apply HO in Hk as (r & Hr & Hi). exists r. split; [|done]. rewrite Hrow. destruct (decide (k = key)) as [->|]; [|done]. unfold ring_row in Hr. congruence.
      * intros k r. rewrite Hrow, Hh. destruct (decide (k = key)); [intros [= <-]; cbn; lia|apply HO].
Qed.

(** A slot taken at the write pointer: the ring of the store before it, with that
    slot held as well. *)
Lemma advance_write_run T key st0 st r : ring_ok T st0 -> rows_ok T st -> (forall k, ring_row T k st = ring_row T k st0) -> ring_row T key st0 = Some r -> rg_size r < rg_capacity r ->
  (forall k i, slot_held T k i st = slot_held T k i st0 || bool_decide (k = key /\ i = rg_write_index r)) ->
  exists st', advance_write T key st = (Ok tt, st') /\ ring_ok T st' /\
    (forall k, ring_row T k st' = if decide (k = key) then Some (set_pointers (rg_read_index r) (S (rg_write_index r) mod rg_capacity r) (S (rg_size r)) r) else ring_row T k st0) /\
    (forall k i, slot_held T k i st' = slot_held T k i st) /\ exists l, st' = set_rings (with_rings T l (st_rings st)) st.
Proof.
  intros HO HR Hrow Hr Hfree Hheld. destruct (ring_row_check _ _ _ _ (ro_rows _ _ HO) Hr) as [Hk (Hc1 & Hc2 & Hc3 & Hc4 & Hc5)%ring_check_spec].
  set (r' := set_pointers (rg_read_index r) (S (rg_write_index r) mod rg_capacity r) (S (rg_size r)) r).
  assert (ring_check r' = true) as Hck.
  { apply ring_check_spec. cbn. split_and!; try lia; [apply Nat.mod_upper_bound; lia|]. rewrite <- Hc5. rewrite Nat.add_succ_r. symmetry. replace (S ((rg_read_index r + rg_size r) mod rg_capacity r)) with (1 + (rg_read_index r + rg_size r) mod rg_capacity r) by lia.
    rewrite Nat.Div0.add_mod_idemp_r. done. }
  destruct (update_ring_run T key (fun r => set_pointers (rg_read_index r) (S (rg_write_index r) mod rg_capacity r) (S (rg_size r)) r) st) as (st' & E & HR' & Hrow' & Hh' & ES).
  { done. } { intros r0 H0. rewrite Hrow, Hr in H0. by injection H0 as <-. } { done. }
  exists st'. split; [exact E|].
  assert (forall k, ring_row T k st' = if decide (k = key) then Some r' else ring_row T k st0) as HrowE.
  { intros k. rewrite Hrow', Hrow. destruct (decide (k = key)) as [->|]; [|done]. by rewrite Hr. }
  split; [|split; [exact HrowE|split; [done|by eexists]]]. split; [done| |].
  - intros k i. rewrite Hh', Hheld, HrowE. intros [H|[-> ->]%bool_decide_eq_true]%orb_true_iff.
    + apply HO in H as (r0 & Hr0 & Hi). destruct (decide (k = key)) as [->|]; [|by exists r0]. exists r'. split; [done|]. rewrite Hr in Hr0. injection Hr0 as <-. unfold ring_span, r'. cbn [rg_capacity rg_read_index rg_size set_pointers].
      rewrite span_snoc. apply elem_of_app. by left.
    + rewrite decide_True by done. exists r'. split; [done|]. unfold ring_span, r'. cbn [rg_capacity rg_read_index rg_size set_pointers]. rewrite span_snoc. apply elem_of_app. right. rewrite <- Hc5. apply list_elem_of_singleton. done.
  - intros k r0. rewrite HrowE. rewrite Hh', Hheld. destruct (decide (k = key)) as [->|Hne].
    + intros [= <-] _. cbn. destruct (decide (rg_size r = 0)) as [Hz|Hz].
      * apply orb_true_iff. right. apply bool_decide_eq_true. split; [done|]. rewrite Hz, Nat.add_0_r, Nat.mod_small in Hc5 by done. done.
      * apply orb_true_iff. left. apply HO; [done|lia].
    + intros H0 Hp. apply orb_true_iff. left. by apply HO.
Qed.

(** The slots without the one at [index]. *)
Definition without_slot (T : RingTable) (key : bytes) (index : nat) (t : RingTables) : RingTables :=
  match T with
  | OutboxRing => set_rt_outbox_slots (filter (fun s => out_slot key index s = false) (rt_outbox_slots t)) t
  | InboxRing => set_rt_inbox_slots (filter (fun s => in_slot key index s = false) (rt_inbox_slots t)) t
  end.

Lemma filter_update {A} (P : A -> bool) (g : A -> A) l : (forall a, P a = true -> P (g a) = true) -> filter (fun a => P a = false) (update_where P g l) = filter (fun a => P a = false) l.
Proof.
  intros H. induction l as [|a l IH]; [done|]. cbn [update_where map]. fold (update_where P g l). destruct (P a) eqn:E.
  - rewrite !filter_cons_False by (rewrite ?H; congruence). done.
  - rewrite !filter_cons_True by done. by f_equal.
Qed.

Lemma delete_slot_run T key index st : delete_slot T key index st = (Ok tt, set_rings (without_slot T key index (st_rings st)) st).
Proof.
  destruct T; [|reflexivity]. unfold delete_slot, on_rings, execute, mbind, dbM_bind. cbn. unfold set_rings, set_rt_outbox_slots. cbn. by rewrite filter_update.
Qed.

Lemma existsb_filter {A} (P Q : A -> bool) l : existsb P (filter (fun a => Q a = false) l) = existsb (fun a => P a && negb (Q a)) l.
Proof.
  induction l as [|a l IH]; [done|]. cbn [existsb]. destruct (Q a) eqn:E.
  - rewrite filter_cons_False by congruence. rewrite andb_false_r. exact IH.
  - rewrite filter_cons_True by done. cbn [existsb negb]. rewrite andb_true_r. by rewrite IH.
Qed.

Lemma held_without T key index k i st : slot_held T k i (set_rings (without_slot T key index (st_rings st)) st) = slot_held T k i st && negb (bool_decide (k = key /\ i = index)).
Proof.
  destruct T; cbn; rewrite existsb_filter; unfold out_slot, in_slot; apply eq_bool_prop_intro; rewrite !Is_true_true, andb_true_iff, negb_true_iff, bool_decide_eq_false, !existsb_exists; setoid_rewrite andb_true_iff; setoid_rewrite negb_true_iff; setoid_rewrite bool_decide_eq_true; setoid_rewrite bool_decide_eq_false; naive_solver.
Qed.

(** Releasing a slot: its row is gone, and the read pointer stands at the first slot
    still held, or at the write pointer. *)
Lemma release_run T key index st : ring_ok T st -> exists st', release T key index st = (Ok tt, st') /\ ring_ok T st' /\
  (forall k, ring_row T k st' = if decide (k = key) then (fun r => let '(read, n) := skip_released (fun i => slot_held T key i st') (rg_capacity r) (rg_size r) (rg_read_index r) in set_pointers read (rg_write_index r) n r) <$> ring_row T k st
                                else ring_row T k st) /\
  (forall k i, slot_held T k i st' = slot_held T k i st && negb (bool_decide (k = key /\ i = index))) /\ exists l, st' = set_rings (with_rings T l (without_slot T key index (st_rings st))) st.
Proof.
  intros HO. unfold release. rewrite (dbM_step _ _ _ _ _ (delete_slot_run T key index st)). set (s1 := set_rings _ st).
  assert (forall k, ring_row T k s1 = ring_row T k st) as Hrow1 by (intros k; unfold s1; by destruct T).
  assert (forall k i, slot_held T k i s1 = slot_held T k i st && negb (bool_decide (k = key /\ i = index))) as Hh1 by (intros k i; apply held_without).
  assert (rows_ok T s1) as HR1 by (destruct (ro_rows _ _ HO); unfold s1; by destruct T; split).
  unfold advance_read, ring_load. rewrite Hrow1. destruct (ring_row T key st) as [r|] eqn:Er; cbn [fmap option_fmap option_map].
  - destruct (ring_row_check _ _ _ _ (ro_rows _ _ HO) Er) as [Hk (Hc1 & Hc2 & Hc3 & Hc4 & Hc5)%ring_check_spec].
    cbn [pointers pt_capacity pt_size pt_read_index]. destruct (skip_released (fun i => slot_held T key i s1) (rg_capacity r) (rg_size r) (rg_read_index r)) as [read n] eqn:ESk.
    destruct (skip_released_spec _ _ _ _ _ _ Hc2 ESk) as (H1 & H2 & H3 & (gone & Hspan & Hgone) & H5).
    destruct (update_ring_run T key (fun r => set_pointers read (rg_write_index r) n r) s1) as (st' & E & HR' & Hrow' & Hh' & ES).
    { done. } { intros r0 H0. rewrite Hrow1, Er in H0. injection H0 as <-. apply ring_check_spec. cbn. split_and!; lia. } { done. }
    assert (skip_released (fun i => slot_held T key i st') (rg_capacity r) (rg_size r) (rg_read_index r) = (read, n)) as ESk'.
    { rewrite <- ESk. clear -Hh'. generalize (rg_size r) as m, (rg_read_index r) as rd. induction m as [|m IH]; intros rd; [done|]. cbn [skip_released]. rewrite Hh'. by rewrite IH. }
    assert (forall k, ring_row T k st' = if decide (k = key) then Some (set_pointers read (rg_write_index r) n r) else ring_row T k st) as HrowE.
    { intros k. rewrite Hrow', Hrow1. destruct (decide (k = key)) as [->|]; [|done]. by rewrite Er. }
    exists st'. split; [exact E|]. split; [|split; [|split; [intros k i; by rewrite Hh', Hh1|rewrite ES; by eexists]]].
    + split; [done| |].
      * intros k i. rewrite Hh'. intros Hh. pose proof Hh as Hh0. rewrite Hh1 in Hh0. apply andb_true_iff in Hh0 as [Hh0 _]. apply HO in Hh0 as (r0 & Hr0 & Hi). rewrite HrowE. destruct (decide (k = key)) as [->|]; [|by exists r0].
        rewrite Er in Hr0. injection Hr0 as <-. eexists. split; [done|]. unfold ring_span in *. cbn. rewrite Hspan in Hi. apply elem_of_app in Hi as [Hi|Hi]; [|done]. rewrite Forall_forall in Hgone. rewrite Hgone in Hh; done.
      * intros k r0. rewrite HrowE, Hh'. destruct (decide (k = key)) as [->|Hne]; [|intros H0 Hp; rewrite Hh1; apply andb_true_iff; split; [by apply HO|apply negb_true_iff, bool_decide_eq_false; naive_solver]].
        intros [= <-]. cbn. intros Hp. destruct H5 as [->|]; [lia|done].
    + intros k. rewrite HrowE. destruct (decide (k = key)) as [->|]; [|done]. rewrite Er. cbn. by rewrite ESk'.
  - exists s1. split; [done|]. split; [|split; [intros k; rewrite Hrow1; by destruct (decide (k = key)) as [->|]; [rewrite Er|]|split; [done|exists (rings_of T (st_rings s1)); unfold s1; cbn; by rewrite with_rings_same]]].
    split; [done| |]; intros k; setoid_rewrite Hrow1; setoid_rewrite Hh1; [intros i [H _]%andb_true_iff; by apply HO|].
    intros r0 Hr0 Hp. apply andb_true_iff. split; [by apply HO|]. apply negb_true_iff, bool_decide_eq_false. intros [-> _]. congruence.
Qed.
