(* ===== verification/RingHistory.v ===== *)
(** * Timelines of rings ([src/src/ring/history.rs])

    When every letter took a slot, left it or was turned away, as a chain of history
    events that starts from the genesis hash of the ring's own id. *)

From S2P Require Import Prelude Text Crypto Envelope HistoryCodec Event Authority Snapshot Tables KeyStore Signing Aead Clock BridgePackage PrivateBridge BridgeRoster BridgeSafety Pin TreeLaws Ring.

Definition ID_DOMAIN : bytes := str "KQ-RING-HISTORY-v1".
Definition i64_max : N := 9223372036854775808.

Inductive Timeline := OutboxLine (owner : bytes) | InboxLine (url : bytes).
Definition timeline_kind (t : Timeline) : bytes := match t with OutboxLine _ => str "outbox" | InboxLine _ => str "inbox" end.
Definition timeline_name (t : Timeline) : bytes := match t with OutboxLine owner => owner | InboxLine url => url end.

Definition history_is (id : bytes) (h : HistoryRow) : bool := bool_decide (hr_id h = id).
Definition event_is (id : bytes) (e : RingEvent) : bool := bool_decide (re_history e = id).

(** [ORDER BY sequence] *)
Definition sequence_le (a b : RingEvent) : Prop := (re_sequence a <= re_sequence b)%N.
#[export] Instance sequence_le_dec : RelDecision sequence_le.
Proof. intros a b. unfold sequence_le. apply _. Defined.
#[export] Instance sequence_le_total : Total sequence_le.
Proof. intros a b. unfold sequence_le. lia. Qed.
#[export] Instance sequence_le_trans : Transitive sequence_le.
Proof. intros a b c. unfold sequence_le. lia. Qed.

(** ** Numbers as text *)

Fixpoint dec_digits (fuel : nat) (n : N) : bytes :=
  match fuel with
  | 0 => []
  | S fuel => (if (n <? 10)%N then [] else dec_digits fuel (n / 10)) ++ [default x30 (Byte.of_N (48 + n mod 10))]
  end.
(** [n.to_string()]: a number has no more decimal digits than binary ones. *)
Definition to_string (n : N) : bytes := dec_digits (S (N.size_nat n)) n.
(** [i64::to_string] *)
Definition to_string_signed (z : Z) : bytes := if (z <? 0)%Z then str "-" ++ to_string (Z.to_N (- z)) else to_string (Z.to_N z).

Lemma dec_digits_ascii fuel n : forallb (fun b => (Byte.to_N b <? 128)%N) (dec_digits fuel n) = true.
Proof.
  revert n; induction fuel as [|fuel IH]; intros n; [done|]. cbn [dec_digits]. rewrite forallb_app. apply andb_true_iff. split; [destruct (n <? 10)%N; [done|apply IH]|]. cbn [forallb].
  destruct (digit_byte (n mod 10)) as (b & -> & Hb & _); [apply N.mod_lt; lia|]. cbn [default from_option]. unfold id. rewrite andb_true_r.
  unfold is_digit, in_range in Hb. apply andb_true_iff in Hb as [_ Hb%N.leb_le]. apply N.ltb_lt. lia.
Qed.
Lemma to_string_text n : text (to_string n).
Proof. apply is_utf8_ascii, dec_digits_ascii. Qed.
Lemma to_string_signed_text z : text (to_string_signed z).
Proof. unfold to_string_signed. destruct (z <? 0)%Z; apply is_utf8_ascii; [rewrite forallb_app; apply andb_true_iff; split; [done|]|]; apply dec_digits_ascii. Qed.

Section history.
Context `{C : Crypto} `{CL : Clock}.

Definition timeline_id (t : Timeline) : bytes := take 16 (sha256 (ID_DOMAIN ++ timeline_kind t ++ [x00] ++ timeline_name t)).

Definition history_row (id : bytes) (st : Store) : option HistoryRow := first_row (history_is id) (rt_histories (st_rings st)).
Definition event_rows (id : bytes) (st : Store) : list RingEvent := filter (fun e => event_is id e = true) (rt_events (st_rings st)).

(** [INSERT OR IGNORE INTO ring_histories]: the id and the ring are both unique. *)
Definition open_history (t : Timeline) : dbM unit := on_rings (fun r =>
  if existsb (fun h => history_is (timeline_id t) h || bool_decide (hr_kind h = timeline_kind t /\ hr_key h = timeline_name t)) (rt_histories r) then r
  else set_rt_histories (rt_histories r ++ [{| hr_id := timeline_id t; hr_kind := timeline_kind t; hr_key := timeline_name t; hr_count := 0; hr_head := genesis_hash (timeline_id t) |}]) r).

Definition insert_event (id : bytes) (count : N) (event : bytes) : dbM unit := fun st =>
  if existsb (fun e => event_is id e && bool_decide (re_sequence e = count)) (rt_events (st_rings st)) then (Err Db, st)
  else on_rings (fun r => set_rt_events (rt_events r ++ [{| re_history := id; re_sequence := count; re_event := event |}]) r) st.

(** The count is checked to be no negative number, which one past the largest is. *)
Definition move_head (id : bytes) (count : N) (head : bytes) : dbM unit :=
  if (i64_max <=? count)%N then db_try (Err Db) else
  on_rings (fun r => set_rt_histories (update_where (history_is id) (fun h => {| hr_id := hr_id h; hr_kind := hr_kind h; hr_key := hr_key h; hr_count := count; hr_head := head |}) (rt_histories r)) r).

Definition ring_event (now : Z) (event_type : E.HistoryEventType) (outcome : HistoryOutcome) (actor : option bytes) (details : EventDetails) : NewEvent :=
  {| ne_revision_id := None; ne_occurred_at := timestamp_seconds now; ne_actor_identity := None; ne_actor_label := actor; ne_topology_generation := None;
     ne_event_type := event_type; ne_outcome := outcome; ne_details := details |}.

(** [event_id] is the random id the new event takes. *)
Definition record (event_id : bytes) (now : Z) (t : Timeline) (event_type : E.HistoryEventType) (outcome : HistoryOutcome) (actor : option bytes) (details : EventDetails) : dbM unit :=
  let id := timeline_id t in
  transaction (
    open_history t ≫= fun _ =>
    row ← query (fun st => ok_or (history_row id st) Db);
    if negb (length (hr_head row) =? 32) then db_try (Err IntegrityCheckFailed) else
    event ← db_try (event_chained event_id id (hr_count row) (hr_head row) (ring_event now event_type outcome actor details));
    data ← db_try (event_encode event);
    insert_event id (hr_count row) data ≫= fun _ =>
    move_head id (hr_count row + 1) (ev_event_hash event)).

Definition snapshot (t : Timeline) (st : Store) : result HistorySnapshot :=
  let id := timeline_id t in
  events ← traverse (fun row => event_from_bytes (re_event row)) (merge_sort sequence_le (event_rows id st));
  match from_events id events with
  | Err _ => Err IntegrityCheckFailed
  | Ok s =>
      let consistent := match history_row id st with
                        | Some row => (hr_count row =? N.of_nat (length (hs_events s)))%N && bool_decide (hr_head row = hs_history_root s)
                        | None => bool_decide (hs_events s = [])
                        end in
      if negb consistent then Err IntegrityCheckFailed else Ok s
  end.
End history.

(** ** The chain a timeline holds *)

Section laws.
Context `{C : Crypto} `{CL : Clock} `{!CryptoLaws C} `{!ClockLaws CL}.

(** The rows of timeline [id] are the events [es], in order, and the head is the
    end of their chain. *)
Record chain_of (st : Store) (id : bytes) (es : list HistoryEvent) : Prop := {
  co_rows : Forall2 (fun row e => event_encode e = Ok (re_event row) /\ re_sequence row = ev_sequence e /\ event_wf e) (event_rows id st) es;
  co_head : match history_row id st with
            | Some h => hr_count h = N.of_nat (length es) /\ verify_chain id es = Ok (hr_head h) /\ fixed 32 (hr_head h) /\ (hr_count h < i64_max)%N
            | None => es = []
            end;
}.

Lemma chain_verified st id es : chain_of st id es -> exists root, verify_chain id es = Ok root.
Proof. intros [_ H]. destruct (history_row id st); [naive_solver|]. subst es. by eexists. Qed.

(** A verified chain is in the order of its sequence numbers. *)
Lemma chain_sequence id es root i e : verify_chain id es = Ok root -> es !! i = Some e -> ev_sequence e = N.of_nat i.
Proof.
  revert root i; induction es as [|e' es IH] using rev_ind; intros root i; [done|]. intros (p & HV & (HS & _) & _)%verify_chain_snoc [Hi|[Hi Hs]]%lookup_app_Some; [by eapply IH|].
  destruct (i - length es) eqn:E; [|by destruct n]. simpl in Hs. injection Hs as <-. rewrite HS. f_equal. lia.
Qed.

Lemma sequence_sorted (rows : list RingEvent) k : (forall i row, rows !! i = Some row -> re_sequence row = N.of_nat (k + i)) -> StronglySorted sequence_le rows.
Proof.
  revert k; induction rows as [|row rows IH]; intros k H; constructor.
  - apply (IH (S k)). intros i r Hi. rewrite (H (S i) r Hi). f_equal. lia.
  - apply Forall_forall. intros r [i Hi]%list_elem_of_lookup. unfold sequence_le. rewrite (H (S i) r Hi), (H 0 row eq_refl). lia.
Qed.

Lemma chain_rows_sequence st id es i row : chain_of st id es -> event_rows id st !! i = Some row -> re_sequence row = N.of_nat i.
Proof.
  intros HC Hi. destruct (chain_verified _ _ _ HC) as [root HV]. destruct (Forall2_lookup_l _ _ _ _ _ (co_rows _ _ _ HC) Hi) as (e & He & _ & -> & _). by eapply chain_sequence.
Qed.

Lemma chain_rows_sorted st id es : chain_of st id es -> merge_sort sequence_le (event_rows id st) = event_rows id st.
Proof.
  intros HC. apply (Sorted_unique_strong sequence_le); [|apply (Sorted_merge_sort sequence_le)| |apply merge_sort_Permutation].
  - intros a b Ha Hb H1 H2. rewrite merge_sort_Permutation in Ha. apply list_elem_of_lookup in Ha as [i Hi], Hb as [j Hj]. unfold sequence_le in *.
    pose proof (chain_rows_sequence _ _ _ _ _ HC Hi). pose proof (chain_rows_sequence _ _ _ _ _ HC Hj). assert (i = j) as -> by lia. congruence.
  - apply StronglySorted_Sorted, (sequence_sorted _ 0). intros i row. by apply (chain_rows_sequence st id es).
Qed.

Lemma traverse_all {A B} (f : A -> result B) l bs : Forall2 (fun a b => f a = Ok b) l bs -> traverse f l = Ok bs.
Proof. induction 1 as [|a b l bs E HF IH]; [done|]. simpl. rewrite E. cbn [mbind result_bind]. by rewrite IH. Qed.

Lemma event_from_encode e b : event_wf e -> event_encode e = Ok b -> event_from_bytes b = Ok e.
Proof.
  intros HW HE. destruct event_codec as [H _]. specialize (H e b [] HW HE). rewrite app_nil_r in H. unfold event_from_bytes. by rewrite H.
Qed.

(** A snapshot of the timeline gives back its events. *)
Lemma snapshot_chain st t es : chain_of st (timeline_id t) es ->
  exists root, verify_chain (timeline_id t) es = Ok root /\ snapshot t st = Ok {| hs_file_id := timeline_id t; hs_history_root := root; hs_events := es |}.
Proof.
  intros HC. destruct (chain_verified _ _ _ HC) as [root HV]. exists root. split; [done|]. unfold snapshot. rewrite (chain_rows_sorted _ _ _ HC).
  assert (traverse (fun row => event_from_bytes (re_event row)) (event_rows (timeline_id t) st) = Ok es) as ->.
  { apply traverse_all. eapply Forall2_impl; [apply HC|]. intros row e (HE & _ & HW). by apply event_from_encode. }
  cbn [mbind result_bind]. unfold from_events. rewrite HV. cbn [mbind result_bind hs_events hs_history_root].
  pose proof (co_head _ _ _ HC) as HH. destruct (history_row (timeline_id t) st) as [h|].
  - destruct HH as (-> & HV' & _). rewrite HV in HV'. apply Ok_inj in HV' as ->. rewrite N.eqb_refl, bool_decide_true by done. done.
  - subst es. done.
Qed.

(** ** What recording adds *)

(** The rows of the rings themselves. *)
Definition same_slots (r r' : RingTables) : Prop :=
  rt_outbox_rings r' = rt_outbox_rings r /\ rt_outbox_slots r' = rt_outbox_slots r /\ rt_refusals r' = rt_refusals r /\ rt_inbox_rings r' = rt_inbox_rings r /\ rt_inbox_slots r' = rt_inbox_slots r /\ rt_letters r' = rt_letters r.

Definition rows_same (st st' : Store) : Prop := same_slots (st_rings st) (st_rings st').
#[export] Instance rows_same_preorder : PreOrder rows_same.
Proof. split; [by intros st|]. unfold rows_same, same_slots. intros ? ? ? (? & ? & ? & ? & ? & ?) (? & ? & ? & ? & ? & ?). split_and!; congruence. Qed.

(** Whatever becomes of it, recording leaves the rings alone. *)
Lemma record_rows event_id now t event_type outcome actor details : respects rows_same (record event_id now t event_type outcome actor details).
Proof.
  assert (forall g, (forall r, same_slots r (g r)) -> respects rows_same (on_rings g)) as HR by (intros g Hg; apply respects_execute; intros st; apply Hg).
  assert (forall id n b, respects rows_same (insert_event id n b)) as HI.
  { intros id n b st r st'. unfold insert_event. destruct (existsb _ _); [intros [= _ <-]; reflexivity|]. by apply HR. }
  assert (forall id n b, respects rows_same (move_head id n b)) as HM by (intros; unfold move_head; frame; by apply HR).
  assert (forall t, respects rows_same (open_history t)) as HH by (intros t'; apply HR; intros r; by destruct (existsb _ _)).
  unfold record. cbv zeta. frame.
Qed.

(** Every row is of the ring its id is derived from. *)
Definition histories_ok (st : Store) : Prop := Forall (fun h => exists t, hr_id h = timeline_id t /\ hr_kind h = timeline_kind t /\ hr_key h = timeline_name t) (rt_histories (st_rings st)).

Lemma timeline_eta t t' : timeline_kind t = timeline_kind t' -> timeline_name t = timeline_name t' -> t = t'.
Proof. destruct t, t'; simpl; try done; congruence. Qed.

Lemma open_history_run t st : histories_ok st -> exists st', open_history t st = (Ok tt, st') /\ same_slots (st_rings st) (st_rings st') /\ histories_ok st' /\
  is_Some (history_row (timeline_id t) st') /\ (forall id es, chain_of st id es -> chain_of st' id es) /\ st' = set_rings (st_rings st') st.
Proof.
  intros HO. unfold open_history, on_rings, execute. eexists. split; [reflexivity|]. destruct (existsb _ _) eqn:EX; cbn [st_rings set_rings].
  - assert (set_rings (st_rings st) st = st) as -> by (by destruct st). split; [done|]. split; [done|]. split; [|done].
    apply existsb_exists in EX as (h & Hin%list_elem_of_In & Hh). unfold history_row. destruct (first_row (history_is (timeline_id t)) _) as [|] eqn:EF; [by eexists|]. exfalso.
    rewrite first_row_None in EF. specialize (EF h Hin). rewrite EF in Hh. cbn [orb] in Hh. apply bool_decide_eq_true in Hh as [Hk Hn].
    unfold histories_ok in HO. rewrite Forall_forall in HO. destruct (HO h Hin) as (t' & Hid & Hk' & Hn'). assert (t' = t) as -> by (apply timeline_eta; congruence).
    unfold history_is in EF. by rewrite bool_decide_true in EF.
  - set (row := {| hr_id := _ |}). assert (forall h, h ∈ rt_histories (st_rings st) -> history_is (timeline_id t) h = false) as Hno.
    { intros h Hh. destruct (history_is (timeline_id t) h) eqn:E; [|done]. rewrite <- EX. symmetry. apply existsb_exists. exists h. by rewrite <- list_elem_of_In, E. }
    split; [done|]. split; [apply Forall_app_2; [done|]; repeat constructor; by exists t|]. split.
    { unfold history_row. cbn. rewrite first_row_new; [by eexists|done|]. unfold history_is. by rewrite bool_decide_true. }
    split; [|by destruct st]. intros id es [HR HH]. split; [exact HR|]. unfold history_row in *. cbn.
    destruct (decide (id = timeline_id t)) as [->|Hne].
    + rewrite first_row_new by (done || unfold history_is; by rewrite bool_decide_true). rewrite (proj2 (first_row_None _ _) Hno) in HH. subst es. split_and!; [done|done|apply genesis_hash_length|done].
    + rewrite first_row_old; [done|]. unfold history_is. rewrite bool_decide_false; [done|]. simpl. congruence.
Qed.

(** The event a record puts on the timeline. *)
Definition records (e : HistoryEvent) (event_type : E.HistoryEventType) (outcome : HistoryOutcome) (actor : option bytes) (details : EventDetails) : Prop :=
  ev_event_type e = event_type /\ ev_outcome e = outcome /\ ev_actor_label e = actor /\ ev_details e = details.
Definition recordable (now : Z) (event_type : E.HistoryEventType) (outcome : HistoryOutcome) (actor : option bytes) (details : EventDetails) : Prop :=
  is_ok (event_chained [] [] 0 [] (ring_event now event_type outcome actor details)) = true /\ opt text actor /\ Forall detail_wf details.

(** Whether an event can be sealed does not depend on where it goes. *)
Lemma event_chained_anywhere event_id id n previous new : is_ok (event_chained event_id id n previous new) = is_ok (event_chained [] [] 0 [] new).
Proof.
  unfold event_chained, event_seal, compute_hash, event_body. destruct (_ || _); [done|]. cbn -[push_str push_opt_str try_u16 encode_all].
  repeat (match goal with |- context [@mbind result _ _ _ _ ?x] => destruct x; cbn -[push_str push_opt_str try_u16 encode_all]; [|done] end); done.
Qed.

Lemma insert_event_run id count data st : (forall row, row ∈ event_rows id st -> re_sequence row <> count) ->
  exists st', insert_event id count data st = (Ok tt, st') /\ same_slots (st_rings st) (st_rings st') /\ rt_histories (st_rings st') = rt_histories (st_rings st) /\
    event_rows id st' = event_rows id st ++ [{| re_history := id; re_sequence := count; re_event := data |}] /\ (forall id', id' <> id -> event_rows id' st' = event_rows id' st) /\ st' = set_rings (st_rings st') st.
Proof.
  intros Hno. unfold insert_event. destruct (existsb _ _) eqn:EX.
  { apply existsb_exists in EX as (row & Hin%list_elem_of_In & [Hi Hs%bool_decide_eq_true]%andb_true_iff). exfalso. apply (Hno row); [by apply list_elem_of_filter|done]. }
  eexists. split; [reflexivity|]. split; [done|]. split; [done|]. unfold event_rows. cbn. split; [|split; [|by destruct st]].
  - rewrite filter_app, (filter_cons_True _ _ []); [done|]. unfold event_is. by rewrite bool_decide_true.
  - intros id' Hne. rewrite filter_app, (filter_cons_False _ _ []); [by rewrite app_nil_r|]. unfold event_is. rewrite bool_decide_false; simpl; congruence.
Qed.

(** Recording appends one event to the timeline and leaves everything else as it was,
    or fails and changes nothing. *)
Lemma record_run event_id now t event_type outcome actor details st r st' es :
  record event_id now t event_type outcome actor details st = (r, st') -> histories_ok st -> chain_of st (timeline_id t) es -> fixed 16 event_id -> opt text actor -> Forall detail_wf details ->
  match r with
  | Err _ => st' = st
  | Ok _ => (exists e, records e event_type outcome actor details /\ chain_of st' (timeline_id t) (es ++ [e])) /\ (forall id es, id <> timeline_id t -> chain_of st id es -> chain_of st' id es) /\
      histories_ok st' /\ same_slots (st_rings st) (st_rings st') /\ st' = set_rings (st_rings st') st
  end.
Proof.
  intros E HO HC Hid Ha Hd. destruct r as [u|e]; [|by apply transaction_Err in E]. apply transaction_Ok in E.
  destruct (open_history_run t st HO) as (s1 & E1 & Sl1 & HO1 & [h Hh] & HC1 & ES1). rewrite (dbM_step _ _ _ _ _ E1) in E. clear E1.
  rewrite (dbM_step _ _ s1 h s1) in E by (unfold query; by rewrite Hh). destruct (negb _) eqn:EL; [discriminate|]. clear EL.
  pose proof (HC1 _ _ HC) as [HR HH]. rewrite Hh in HH. destruct HH as (Hcnt & HV & HL & Hmax).
  apply dbM_bind_Ok in E as (e & ? & [Ee ->]%db_try_Ok & E). apply dbM_bind_Ok in E as (data & ? & [Ed ->]%db_try_Ok & E).
  unfold event_chained in Ee. destruct (_ || _); [discriminate|]. rewrite Hcnt in Ee. pose proof (event_seal_link _ _ _ _ _ _ Ee) as HLk. pose proof (event_seal_fields _ _ _ _ _ _ Ee) as HF.
  assert (event_wf e) as HW.
  { eapply event_seal_wf; [..|exact Ee]; [done| |apply length_take_le; rewrite sha256_length; lia|done|].
    - unfold u64. rewrite <- Hcnt. unfold i64_max, u64_max in *. lia.
    - split; simpl; try done. apply timestamp_seconds_utf8. }
  assert (forall row, row ∈ event_rows (timeline_id t) s1 -> re_sequence row <> hr_count h) as Hfresh.
  { intros row [i Hi]%list_elem_of_lookup. rewrite (chain_rows_sequence s1 (timeline_id t) es i row) by auto. apply Forall2_length in HR. apply lookup_lt_Some in Hi. lia. }
  destruct (insert_event_run (timeline_id t) (hr_count h) data s1 Hfresh) as (s2 & E2 & Sl2 & Hh2 & HR2 & HRo & ES2). rewrite (dbM_step _ _ _ _ _ E2) in E. clear E2.
  unfold move_head in E. destruct (i64_max <=? _)%N eqn:Ei; [discriminate|]. apply N.leb_gt in Ei. injection E as _ <-.
  set (g := fun r : HistoryRow => _). assert (forall id, first_row (history_is id) (update_where (history_is (timeline_id t)) g (rt_histories (st_rings s2))) =
    (fun r => if history_is (timeline_id t) r then g r else r) <$> history_row id s1) as Hrow.
  { intros id. rewrite Hh2. apply first_row_update. intros r _ _. done. }
  split; [|split; [|split; [|split]]].
  - exists e. split; [unfold records; naive_solver|]. split.
    + unfold event_rows at 1. cbn. fold (event_rows (timeline_id t) s2). rewrite HR2. apply Forall2_app; [done|]. constructor; [|constructor]. cbn. destruct HLk as (-> & _). by rewrite Hcnt.
    + unfold history_row. cbn. rewrite Hrow, Hh. cbn. apply first_row_Some in Hh as [_ Hk]. rewrite Hk. cbn. rewrite length_app. cbn. split_and!; [lia| |apply HW|lia].
      apply verify_chain_snoc. by exists (hr_head h).
  - intros id es' Hne HC'. apply HC1 in HC' as [HR' HH']. split; [unfold event_rows; cbn; fold (event_rows id s2); by rewrite HRo|]. unfold history_row. cbn. rewrite Hrow.
    destruct (history_row id s1) as [h'|] eqn:Eh'; [|done]. cbn. apply first_row_Some in Eh' as [_ Hk'%bool_decide_eq_true]. unfold history_is. rewrite bool_decide_false by congruence. done.
  - unfold histories_ok. cbn. rewrite Hh2. apply update_where_Forall; [done|]. intros r _ _ (t' & ? & ? & ?). by exists t'.
  - unfold same_slots in *. cbn. naive_solver congruence.
  - rewrite ES2, ES1. by destruct st.
Qed.

(** What can be sealed is recorded, short of [i64::MAX] events. *)
Lemma record_total event_id now t event_type outcome actor details st es : histories_ok st -> chain_of st (timeline_id t) es -> fixed 16 event_id ->
  recordable now event_type outcome actor details -> (N.of_nat (length es) + 1 < i64_max)%N -> exists st', record event_id now t event_type outcome actor details st = (Ok tt, st').
Proof.
  intros HO HC Hid [HS _] Hlen. unfold record, transaction.
  destruct (open_history_run t st HO) as (s1 & E1 & Sl1 & HO1 & [h Hh] & HC1 & ES1). rewrite (dbM_step _ _ _ _ _ E1). clear E1.
  rewrite (dbM_step _ _ s1 h s1) by (unfold query; by rewrite Hh). pose proof (HC1 _ _ HC) as [HR HH]. rewrite Hh in HH. destruct HH as (Hcnt & HV & HL & Hmax).
  rewrite HL. cbn [Nat.eqb negb]. rewrite <- (event_chained_anywhere event_id (timeline_id t) (hr_count h) (hr_head h)) in HS.
  destruct (event_chained _ _ _ _ _) as [e|] eqn:Ee; [|done]. rewrite (dbM_step _ _ s1 e s1) by done.
  assert (exists data, event_encode e = Ok data) as [data Ed].
  { unfold event_chained in Ee. destruct (_ || _); [discriminate|]. rewrite Hcnt in Ee. apply event_seal_link in Ee as (_ & _ & _ & HB). unfold compute_hash in HB. apply bind_Ok in HB as (b & HB & _).
    unfold event_encode. rewrite HB. by eexists. }
  rewrite (dbM_step _ _ s1 data s1) by (by rewrite Ed). edestruct (insert_event_run (timeline_id t) (hr_count h) data s1) as (s2 & E2 & _).
  { intros row [i Hi]%list_elem_of_lookup. rewrite (chain_rows_sequence s1 (timeline_id t) es i row) by auto. apply Forall2_length in HR. apply lookup_lt_Some in Hi. lia. }
  rewrite (dbM_step _ _ _ _ _ E2). unfold move_head. destruct (N.leb_spec i64_max (hr_count h + 1)); [lia|]. by eexists.
Qed.

(** ** Timelines only grow *)

Definition timelines_ok (st : Store) : Prop := histories_ok st /\ forall id, exists es, chain_of st id es.
Definition grows (st st' : Store) : Prop := timelines_ok st -> timelines_ok st' /\ forall id es, chain_of st id es -> exists more, chain_of st' id (es ++ more).

#[export] Instance grows_preorder : PreOrder grows.
Proof.
  split.
  - intros st HO. split; [done|]. intros id es HC. exists []. by rewrite app_nil_r.
  - intros s1 s2 s3 H12 H23 HO. destruct (H12 HO) as [HO2 G1]. destruct (H23 HO2) as [HO3 G2]. split; [done|]. intros id es HC. destruct (G1 _ _ HC) as [m1 HC1].
    destruct (G2 _ _ HC1) as [m2 HC2]. exists (m1 ++ m2). by rewrite app_assoc.
Qed.

Lemma grows_same st st' : rt_histories (st_rings st') = rt_histories (st_rings st) -> rt_events (st_rings st') = rt_events (st_rings st) -> grows st st'.
Proof.
  intros E1 E2. assert (forall id es, chain_of st id es -> chain_of st' id es) as HC.
  { intros id es [HR HH]. split; [unfold event_rows; by rewrite E2|]. unfold history_row. by rewrite E1. }
  intros [HO HX]. split; [split; [unfold histories_ok; by rewrite E1|]|].
  - intros id. destruct (HX id) as [es ?]. exists es. auto.
  - intros id es ?. exists []. rewrite app_nil_r. auto.
Qed.

Lemma record_grows event_id now t event_type outcome actor details : fixed 16 event_id -> opt text actor -> Forall detail_wf details -> respects grows (record event_id now t event_type outcome actor details).
Proof.
  intros Hid Ha Hd st r st' E [HO HX]. destruct (HX (timeline_id t)) as [es HC]. pose proof (record_run _ _ _ _ _ _ _ _ _ _ _ E HO HC Hid Ha Hd) as HR. destruct r as [u|e]; [|subst st'; by apply grows_preorder].
  destruct HR as ((e & _ & HC') & Hoth & HO' & _). split; [split; [done|]|].
  - intros id. destruct (decide (id = timeline_id t)) as [->|Hne]; [by exists (es ++ [e])|]. destruct (HX id) as [es' ?]. exists es'. auto.
  - intros id es' HC1. destruct (decide (id = timeline_id t)) as [->|Hne]; [|exists []; rewrite app_nil_r; auto].
    destruct (snapshot_chain _ _ _ HC) as (r1 & _ & S1). destruct (snapshot_chain _ _ _ HC1) as (r2 & _ & S2). rewrite S1 in S2. apply Ok_inj in S2. injection S2 as _ <-. by exists [e].
Qed.

(** A timeline that has grown passed through every snapshot taken before. *)
Lemma grows_snapshot st st' t : timelines_ok st -> grows st st' ->
  exists s s', snapshot t st = Ok s /\ snapshot t st' = Ok s' /\ is_prefix_of_snapshot s s' = true.
Proof.
  intros HO HG. destruct (HG HO) as [_ G]. destruct (proj2 HO (timeline_id t)) as [es HC]. destruct (G _ _ HC) as [more HC'].
  destruct (snapshot_chain _ _ _ HC) as (root & HV & S). destruct (snapshot_chain _ _ _ HC') as (root' & HV' & S'). exists {| hs_file_id := timeline_id t; hs_history_root := root; hs_events := es |}.
  exists {| hs_file_id := timeline_id t; hs_history_root := root'; hs_events := es ++ more |}. split; [done|]. split; [done|]. unfold is_prefix_of_snapshot, is_prefix_of_events. cbn.
  rewrite bool_decide_true by done. rewrite length_app, take_app_length, (bool_decide_true (es = es)) by done. rewrite (proj2 (Nat.leb_le _ _)) by lia. cbn [andb].
  apply verify_chain_root in HV. destruct es as [|e es'] eqn:Ees; [subst root; apply orb_true_iff; left; apply andb_true_iff; by split; apply bool_decide_eq_true|]. rewrite <- Ees in *. apply orb_true_iff. right. apply bool_decide_eq_true.
  destruct (last es) as [e0|] eqn:EL; [by rewrite HV|]. apply last_None in EL. congruence.
Qed.

Lemma timelines_ok_empty st : rt_histories (st_rings st) = [] -> rt_events (st_rings st) = [] -> timelines_ok st.
Proof.
  intros E1 E2. split; [unfold histories_ok; rewrite E1; constructor|]. intros id. exists []. split; [unfold event_rows; rewrite E2; constructor|]. unfold history_row. by rewrite E1.
Qed.
End laws.
