(* ===== verification/Exchange.v ===== *)
(** * The order of an exchange ([src/src/file_delivery/exchange.rs])

    Which letter about a tracked file may go next to a peer, as the events of the
    sender's own copy show it. *)

From S2P Require Import Prelude Text Crypto Envelope HistoryCodec Event Revision RevisionGraph Policy Container.

Definition KIND_FILE_HISTORY : byte := x0f.
Definition KIND_FILE_HISTORY_ACK : byte := x10.
Definition KIND_FILE_HISTORY_SNAPSHOT : byte := x11.
Definition KIND_FILE_REQUEST : byte := x12.
Definition KIND_FILE_REQUEST_ANSWER : byte := x13.

Inductive Step := RequestStep | AnswerStep | FileStep | ReceiptStep | SnapshotStep.
#[export] Instance Step_eq_dec : EqDecision Step.
Proof. solve_decision. Defined.
Inductive Visa := Required | IfRequested.
#[export] Instance Visa_eq_dec : EqDecision Visa.
Proof. solve_decision. Defined.

Definition for_kind (kind : byte) : option Step :=
  if bool_decide (kind = KIND_FILE_REQUEST) then Some RequestStep
  else if bool_decide (kind = KIND_FILE_REQUEST_ANSWER) then Some AnswerStep
  else if bool_decide (kind = KIND_FILE_HISTORY) then Some FileStep
  else if bool_decide (kind = KIND_FILE_HISTORY_ACK) then Some ReceiptStep
  else if bool_decide (kind = KIND_FILE_HISTORY_SNAPSHOT) then Some SnapshotStep
  else None.

Definition step_name (s : Step) : bytes :=
  match s with
  | RequestStep => str "request" | AnswerStep => str "answer" | FileStep => str "tracked file" | ReceiptStep => str "receipt" | SnapshotStep => str "history snapshot"
  end.

Definition REQUEST_EVENTS : list E.HistoryEventType := [E.FileRequested; E.ChangeRequested].

(** [event.details.get(key) == Some(value)] *)
Definition detail_is (key value : bytes) (e : HistoryEvent) : bool := bool_decide (details_get (ev_details e) key = Some value).
Definition acted_by (e : HistoryEvent) (label : bytes) : bool := bool_decide (ev_actor_label e = Some label).
Definition event_type_is (t : E.HistoryEventType) (e : HistoryEvent) : bool := bool_decide (ev_event_type e = t).

Definition request_event (f : TrackedFile) (kinds : list E.HistoryEventType) (request_id : bytes) : option HistoryEvent :=
  snd <$> list_find (fun e => bool_decide (ev_event_type e ∈ kinds) && detail_is (str "request_id") request_id e = true) (tf_events f).

(** A request [peer] made of [owner], and [owner]'s answer to request [id]. *)
Definition asks (kinds : list E.HistoryEventType) (owner peer : bytes) (e : HistoryEvent) : bool :=
  bool_decide (ev_event_type e ∈ kinds) && acted_by e peer && detail_is (str "to") owner e.
Definition answers (owner id : bytes) (e : HistoryEvent) : bool := event_type_is E.RequestAnswered e && acted_by e owner && detail_is (str "request_id") id e.

Definition answered_requests (f : TrackedFile) (owner peer : bytes) : list (HistoryEvent * nat * bytes) :=
  omap (fun request =>
    id ← details_get (ev_details request) (str "request_id");
    '(at_, answer) ← list_find (fun e => answers owner id e = true) (tf_events f);
    decision ← details_get (ev_details answer) (str "decision");
    Some (request, at_, decision)) (filter (fun e => asks REQUEST_EVENTS owner peer e = true) (tf_events f)).

Definition shared_with (e : HistoryEvent) (owner peer : bytes) : bool :=
  event_type_is E.ShareAttempted e && negb (bool_decide (ev_outcome e = Denied)) && acted_by e owner && detail_is (str "to") peer e &&
  bool_decide (is_Some (details_get (ev_details e) (str "delivery_id"))).
Definition received_from (e : HistoryEvent) (peer : bytes) : bool := event_type_is E.ShareDelivered e && detail_is (str "from") peer e.
Definition accepted_by (e : HistoryEvent) (peer : bytes) : bool := event_type_is E.ShareDelivered e && detail_is (str "by") peer e && detail_is (str "result") (str "accepted") e.

(** [find_map]: the first result. *)
Definition find_map {A B} (f : A -> option B) (l : list A) : option B := head (omap f l).

Definition latest_file_request (f : TrackedFile) (owner peer : bytes) : option (HistoryEvent * option bytes) :=
  '(_, request) ← list_find (fun e => asks [E.FileRequested] owner peer e = true) (reverse (tf_events f));
  let id := details_get (ev_details request) (str "request_id") in
  let decision := find_map (fun e =>
    if event_type_is E.RequestAnswered e && acted_by e owner && bool_decide (is_Some id) && bool_decide (details_get (ev_details e) (str "request_id") = id)
    then details_get (ev_details e) (str "decision") else None) (tf_events f) in
  Some (request, decision).

Definition step_ok (f : TrackedFile) (owner peer : bytes) (step : Step) (visa : Visa) : bool :=
  match step with
  | RequestStep => true
  | AnswerStep => negb (bool_decide (answered_requests f owner peer = []))
  | FileStep =>
      if bool_decide (visa = IfRequested) then
        match latest_file_request f owner peer with None => true | Some (_, decision) => bool_decide (decision = Some (str "accepted")) end
      else existsb (fun '(request, at_, decision) =>
             event_type_is E.FileRequested request && bool_decide (decision = str "accepted") && existsb (fun e => shared_with e owner peer) (drop at_ (tf_events f)))
           (answered_requests f owner peer)
  | ReceiptStep => existsb (fun e => received_from e peer) (tf_events f)
  | SnapshotStep => existsb (fun e => received_from e peer || accepted_by e peer) (tf_events f)
  end.

(** What is missing; a request needs nothing before it. *)
Definition missing_before (step : Step) (visa : Visa) (peer : bytes) : bytes :=
  match step with
  | RequestStep => []
  | AnswerStep => str "a request from " ++ peer ++ str " that you have answered"
  | FileStep =>
      if bool_decide (visa = IfRequested) then peer ++ str " asked for this file: accept their latest request before sending it"
      else str "a file request from " ++ peer ++ str " that you accepted, followed by `file share` to " ++ peer
  | ReceiptStep => str "a tracked file received from " ++ peer
  | SnapshotStep => str "a completed delivery between you and " ++ peer
  end.

Definition require_step (f : TrackedFile) (owner peer : bytes) (step : Step) (visa : Visa) : result unit :=
  if step_ok f owner peer step visa then Ok tt else Err (ExchangeOutOfOrder (missing_before step visa peer)).

(** ** What each step needs, as the events of the copy *)

(** The first answer of [owner] to request [id] is at position [i]. *)
Definition first_answer (f : TrackedFile) (owner id : bytes) (i : nat) (a : HistoryEvent) : Prop :=
  tf_events f !! i = Some a /\ answers owner id a = true /\ forall j e, j < i -> tf_events f !! j = Some e -> answers owner id e = false.
(** [peer]'s request [r] is answered at [i] with [decision]. *)
Definition answered (f : TrackedFile) (owner peer : bytes) (r : HistoryEvent) (i : nat) (decision : bytes) : Prop :=
  r ∈ tf_events f /\ asks REQUEST_EVENTS owner peer r = true /\
  exists id a, details_get (ev_details r) (str "request_id") = Some id /\ first_answer f owner id i a /\ details_get (ev_details a) (str "decision") = Some decision.

Definition step_met (f : TrackedFile) (owner peer : bytes) (step : Step) (visa : Visa) : Prop :=
  match step, visa with
  | RequestStep, _ => True
  | AnswerStep, _ => exists r i decision, answered f owner peer r i decision
  | FileStep, Required =>
      exists r i j s, answered f owner peer r i (str "accepted") /\ ev_event_type r = E.FileRequested /\ i <= j /\ tf_events f !! j = Some s /\ shared_with s owner peer = true
  | FileStep, IfRequested =>
      forall k r, tf_events f !! k = Some r -> asks [E.FileRequested] owner peer r = true ->
      (forall j e, k < j -> tf_events f !! j = Some e -> asks [E.FileRequested] owner peer e = false) ->
      exists id i a, details_get (ev_details r) (str "request_id") = Some id /\ tf_events f !! i = Some a /\ answers owner id a = true /\ details_get (ev_details a) (str "decision") = Some (str "accepted") /\
        forall j e, j < i -> tf_events f !! j = Some e -> answers owner id e = true -> details_get (ev_details e) (str "decision") = None
  | ReceiptStep, _ => exists e, e ∈ tf_events f /\ received_from e peer = true
  | SnapshotStep, _ => exists e, e ∈ tf_events f /\ (received_from e peer = true \/ accepted_by e peer = true)
  end.

Lemma list_find_first {A} (P : A -> bool) l i x : list_find (fun a => P a = true) l = Some (i, x) <-> l !! i = Some x /\ P x = true /\ forall j y, j < i -> l !! j = Some y -> P y = false.
Proof.
  rewrite list_find_Some. split; intros (? & ? & H); (split_and!; [done|done|]); intros j y; [intros Hj Hy; apply not_true_is_false; by eapply H|]. intros Hy Hj. rewrite (H j y) by done. done.
Qed.

Lemma answered_requests_spec f owner peer r i decision : (r, i, decision) ∈ answered_requests f owner peer <-> answered f owner peer r i decision.
Proof.
  unfold answered_requests, answered, first_answer. rewrite list_elem_of_omap. split.
  - intros (r' & [Ha Hr]%list_elem_of_filter & H). destruct (details_get (ev_details r') (str "request_id")) as [id|] eqn:Ei; [|done]. cbn -[str] in H.
    destruct (list_find _ _) as [[i' a]|] eqn:EF; [|done]. cbn -[str] in H. destruct (details_get (ev_details a) _) as [d|] eqn:Ed; [|done]. injection H as -> -> ->. apply list_find_first in EF. split; [done|]. split; [done|]. by exists id, a.
  - intros (Hr & Ha & id & a & Ei & HF & Ed). exists r. split; [by apply list_elem_of_filter|]. rewrite Ei. cbn -[str]. apply list_find_first in HF. rewrite HF. cbn -[str]. by rewrite Ed.
Qed.

Lemma head_omap {A B} (f : A -> option B) l b : head (omap f l) = Some b <-> exists i a, l !! i = Some a /\ f a = Some b /\ forall j x, j < i -> l !! j = Some x -> f x = None.
Proof.
  induction l as [|a l IH]; cbn; [naive_solver|]. destruct (f a) as [b'|] eqn:E.
  - cbn. split; [intros [= ->]; exists 0, a; split_and!; [done|done|lia]|]. intros ([|i] & a' & Hi & Hf & Hj); [injection Hi as <-; congruence|]. specialize (Hj 0 a ltac:(lia) eq_refl). congruence.
  - rewrite IH. split.
    + intros (i & a' & Hi & Hf & Hj). exists (S i), a'. split_and!; [done|done|]. intros [|j] x Hlt Hx; [injection Hx as <-; done|]. apply (Hj j); [lia|done].
    + intros ([|i] & a' & Hi & Hf & Hj); [injection Hi as <-; congruence|]. exists i, a'. split_and!; [done|done|]. intros j x Hlt Hx. apply (Hj (S j)); [lia|done].
Qed.

Lemma latest_met f owner peer :
  match latest_file_request f owner peer with None => true | Some (_, decision) => bool_decide (decision = Some (str "accepted")) end = true <-> step_met f owner peer FileStep IfRequested.
Proof.
  cbn [step_met]. unfold latest_file_request. destruct (list_find _ _) as [[n r]|] eqn:EL; cbn [mbind option_bind].
  - apply list_find_first in EL as (Hn & Ha & Hl). pose proof (lookup_lt_Some _ _ _ Hn) as Hlt. rewrite length_reverse in Hlt. rewrite reverse_lookup in Hn by done.
    set (k := length (tf_events f) - S n) in *. assert (forall j e, k < j -> tf_events f !! j = Some e -> asks [E.FileRequested] owner peer e = false) as Hlast.
    { intros j e Hj He. pose proof (lookup_lt_Some _ _ _ He). apply (Hl (length (tf_events f) - S j)); [lia|]. rewrite reverse_lookup by lia. rewrite <- He. f_equal. lia. }
    rewrite bool_decide_eq_true. unfold find_map. rewrite head_omap. set (oid := details_get (ev_details r) (str "request_id")). split.
    + intros (i & a & Hi & HA & Hb). intros k' r' Hk' Ha' Hl'. assert (k' = k) as ->.
      { destruct (Nat.lt_trichotomy k' k) as [Hlt'|[?|Hlt']]; [|done|]; [specialize (Hl' k r Hlt' Hn); congruence|specialize (Hlast k' r' Hlt' Hk'); congruence]. }
      assert (r' = r) as -> by congruence. fold oid. destruct (_ && _) eqn:EB in HA; [|done]. apply andb_true_iff in EB as [[EB Hsome%bool_decide_eq_true]%andb_true_iff Hsame%bool_decide_eq_true]. destruct oid as [id|] eqn:Eid; [|by apply is_Some_None in Hsome].
      exists id, i, a. split; [done|]. split; [done|]. unfold answers, detail_is. split; [by rewrite EB, bool_decide_true|]. split; [done|].
      intros j e Hj He HA'. specialize (Hb j e Hj He). apply andb_true_iff in HA' as [HA' Hd%bool_decide_eq_true]. rewrite HA' in Hb. cbn [andb] in Hb. by rewrite !bool_decide_true in Hb.
    + intros H. destruct (H k r Hn Ha Hlast) as (id' & i & a & Eid & Hi & HA & Hd & Hb). exists i, a. fold oid in Eid. rewrite Eid. split; [done|]. unfold answers, detail_is in *. rewrite (bool_decide_true (is_Some _)) by done.
      rewrite andb_true_r, HA. split; [done|]. intros j e Hj He. rewrite andb_true_r. match goal with |- (if ?b then _ else _) = _ => destruct b eqn:EB end; [|done]. by eapply Hb.
  - split; [|done]. intros _ k r Hk Ha _. exfalso. apply list_find_None in EL. rewrite Forall_forall in EL. apply (EL r); [|done]. apply elem_of_reverse. by eapply list_elem_of_lookup_2.
Qed.

Lemma existsb_elem {A} (P : A -> bool) l : existsb P l = true <-> exists a, a ∈ l /\ P a = true.
Proof. rewrite existsb_exists. by setoid_rewrite list_elem_of_In. Qed.

Lemma step_ok_spec f owner peer step visa : step_ok f owner peer step visa = true <-> step_met f owner peer step visa.
Proof.
  destruct step; cbn [step_ok]; [done| | | |].
  - rewrite negb_true_iff, bool_decide_eq_false. transitivity (exists r i decision, (r, i, decision) ∈ answered_requests f owner peer).
    + split; [|intros (r & i & d & H) E; rewrite E in H; by apply not_elem_of_nil in H]. destruct (answered_requests f owner peer) as [|[[r i] d] l]; [done|]. intros _. exists r, i, d. left.
    + cbn [step_met]. by setoid_rewrite answered_requests_spec.
  - destruct visa; [|rewrite bool_decide_true by done; apply latest_met]. rewrite bool_decide_false by done. rewrite existsb_elem. cbn [step_met]. split.
    + intros ([[r i] d] & HA%answered_requests_spec & HB). rewrite !andb_true_iff, bool_decide_eq_true, existsb_elem in HB. destruct HB as [[Ht%bool_decide_eq_true ->] (s & Hs & HS)].
      apply list_elem_of_lookup in Hs as [k Hk]. rewrite lookup_drop in Hk. exists r, i, (i + k), s. split_and!; try done. lia.
    + intros (r & i & j & s & HA & Ht & Hj & Hs & HS). exists (r, i, str "accepted"). split; [by apply answered_requests_spec|]. rewrite !andb_true_iff, bool_decide_eq_true, existsb_elem.
      split; [split; [by apply bool_decide_eq_true|done]|]. exists s. split; [|done]. apply list_elem_of_lookup. exists (j - i). rewrite lookup_drop. by replace (i + (j - i)) with j by lia.
  - rewrite existsb_elem. by destruct visa.
  - rewrite existsb_elem. setoid_rewrite orb_true_iff. by destruct visa.
Qed.

(** a letter about a tracked file may go to a peer exactly when the sender's copy
    shows the step before it: an answer needs a request of that peer that was
    answered; a file that needs a visa an accepted file request and, from the answer
    on, a share to that peer; a file that needs one only when asked that the first
    decision on the latest file request, if there is one, accepts it; a receipt a
    file received from them; a snapshot a delivery either way. Refused, it says what
    is missing. *)
Theorem exchange_order f owner peer step visa :
  (step_met f owner peer step visa <-> require_step f owner peer step visa = Ok tt) /\
  (~ step_met f owner peer step visa -> require_step f owner peer step visa = Err (ExchangeOutOfOrder (missing_before step visa peer))).
Proof.
  unfold require_step. rewrite <- step_ok_spec. destruct (step_ok f owner peer step visa); split; try done.
Qed.

(** A step that may go stays open as the copy's history grows, save a file that goes
    unasked: a new request holds it. *)
Lemma require_step_grows f f' owner peer step visa : tf_events f `prefix_of` tf_events f' -> (step = FileStep -> visa = Required) ->
  require_step f owner peer step visa = Ok tt -> require_step f' owner peer step visa = Ok tt.
Proof.
  intros [more E] Hv. unfold require_step. destruct (step_ok f owner peer step visa) eqn:ES; [|done]. intros _. enough (step_ok f' owner peer step visa = true) as -> by done.
  apply step_ok_spec. apply step_ok_spec in ES.
  assert (forall i e, tf_events f !! i = Some e -> tf_events f' !! i = Some e) as Hl by (intros i e; rewrite E; apply lookup_app_l_Some).
  assert (forall e, e ∈ tf_events f -> e ∈ tf_events f') as Hin by (intros e He; rewrite E; apply elem_of_app; by left).
  assert (forall r i d, answered f owner peer r i d -> answered f' owner peer r i d) as HA.
  { intros r i d (Hr & Ha & id & a & Hid & (Hi & HA & Hb) & Hd). split; [by apply Hin|]. split; [done|]. exists id, a. split; [done|]. split; [|done]. split; [by apply Hl|]. split; [done|].
    intros j e Hj He. apply (Hb j e Hj). rewrite E in He. by rewrite lookup_app_l in He by (apply lookup_lt_Some in Hi; lia). }
  destruct step; cbn [step_met] in *.
  - done.
  - destruct visa; naive_solver.
  - rewrite Hv in * by done. destruct ES as (r & i & j & s & ? & ? & ? & ? & ?). exists r, i, j, s. auto 10.
  - destruct visa; naive_solver.
  - destruct visa; naive_solver.
Qed.
