(* ===== verification/Outbox.v ===== *)
(** * Each person's outbox ([src/src/outbox.rs])

    The ring of sealed letters a person has queued: the checks a letter meets, the
    slot it takes, the claim a send holds on the oldest one while it delivers, and
    the refusals kept. [event_id] is the random id of the event an operation records,
    [nonce] the random claim of a send, and [now] the instant of the call. *)

From S2P Require Import Prelude Text Crypto Envelope HistoryCodec Event Revision RevisionGraph Policy Container Authority Snapshot Exchange.
From S2P Require Import Tables KeyStore Signing Aead Clock BridgePackage PrivateBridge BridgeRoster Pin TreeLaws Ring RingHistory.

Definition DEFAULT_CAPACITY : nat := 32.
Definition MAX_ITEM_BYTES : N := 16 * 1024 * 1024.
Definition MAX_REFUSALS_KEPT : nat := 256.
Definition CLAIM_LEASE_SECS : Z := 120.
#[global] Arguments MAX_REFUSALS_KEPT : simpl never.

Definition refusal_name (r : Refusal) : bytes :=
  match r with
  | NoPassport => str "no_passport" | DeviceLetter => str "device_letter" | UnrecognisedDestination => str "unrecognised_destination" | OutOfOrder => str "out_of_order"
  | RingFull => str "ring_full" | Oversized => str "oversized" | Tampered => str "tampered"
  end.
Definition refusal_error (r : Refusal) (step : option bytes) : error :=
  match r with
  | NoPassport | DeviceLetter => OutboxItemRefused
  | UnrecognisedDestination => UntrustedRecipient
  | OutOfOrder => ExchangeOutOfOrder (default [] step)
  | RingFull => OutboxFull
  | Oversized => BundleFieldTooLarge
  | Tampered => IntegrityCheckFailed
  end.

Inductive RingState := Empty | Partial | Full.
#[export] Instance RingState_eq_dec : EqDecision RingState.
Proof. solve_decision. Defined.
Definition ring_state (r : RingRow) : RingState := if rg_size r =? 0 then Empty else if rg_capacity r <=? rg_size r then Full else Partial.
Definition ring_free (r : RingRow) : nat := rg_capacity r - rg_size r.
Definition unused (owner : bytes) : RingRow := {| rg_key := owner; rg_capacity := DEFAULT_CAPACITY; rg_read_index := 0; rg_write_index := 0; rg_size := 0; rg_sent_total := 0 |}.

Record QueuedItem := { qi_index : nat; qi_kind : byte; qi_recipient : bytes; qi_content_hash : bytes; qi_len : nat; qi_queued_at : bytes }.
(** [Denied] *)
Record DeniedLetter := { dl_refusal : Refusal; dl_kind : option byte; dl_step : option bytes }.
Definition denied_new (r : Refusal) (kind : option byte) : DeniedLetter := {| dl_refusal := r; dl_kind := kind; dl_step := None |}.
(** [Claimed] *)
Inductive Claimed := Respect | TakeOver.
#[export] Instance Claimed_eq_dec : EqDecision Claimed.
Proof. solve_decision. Defined.

Definition load_ring (owner : bytes) (st : Store) : option RingRow := ring_row OutboxRing owner st.
Definition ring (owner : bytes) (st : Store) : RingRow := default (unused owner) (load_ring owner st).
Definition ensure_ring (owner : bytes) : dbM RingRow :=
  ensure OutboxRing owner DEFAULT_CAPACITY ≫= fun _ => query (fun st => ok_or (load_ring owner st) IntegrityCheckFailed).

Definition require_owner (owner : bytes) (st : Store) : result unit :=
  if negb (bool_decide (active_keys_for owner Encryption st = [])) || negb (bool_decide (active_keys_for owner Signing st = [])) then Ok tt else Err NodeNotFound.

Definition passport (data : bytes) : byte * bytes + Refusal :=
  match parse_outer data with
  | Err _ => inr NoPassport
  | Ok (kind, sealed_to, _) => if is_device_workflow_kind kind then inr DeviceLetter else inl (kind, sealed_to)
  end.
Definition is_trusted (recipient sealed_to : bytes) (st : Store) : bool := is_active_key recipient Encryption sealed_to st.

Definition slot_at (owner : bytes) (index : nat) (st : Store) : option OutSlot := first_row (out_slot owner index) (rt_outbox_slots (st_rings st)).
Definition item_of (s : OutSlot) : QueuedItem :=
  {| qi_index := os_index s; qi_kind := os_kind s; qi_recipient := os_recipient s; qi_content_hash := os_content_hash s; qi_len := length (os_content s); qi_queued_at := os_queued_at s |}.
Definition item_at (owner : bytes) (index : nat) (st : Store) : option QueuedItem := item_of <$> slot_at owner index st.

(** Every check a letter meets before it may be queued. *)
Definition departure_check (owner recipient data : bytes) (copy : option (TrackedFile * Visa)) (st : Store) : byte + DeniedLetter :=
  if (MAX_ITEM_BYTES <? N.of_nat (length data))%N then inr (denied_new Oversized None) else
  match passport data with
  | inr refusal => inr (denied_new refusal (match parse_outer data with Ok (kind, _, _) => Some kind | Err _ => None end))
  | inl (kind, sealed_to) =>
      if negb (is_trusted recipient sealed_to st) then inr (denied_new UnrecognisedDestination (Some kind)) else
      let missing :=
        match for_kind kind, copy with
        | None, _ | Some RequestStep, _ => None
        | Some step, Some (copy, visa) => match require_step copy owner recipient step visa with Err (ExchangeOutOfOrder missing) => Some missing | _ => None end
        | Some step, None => Some (str "a " ++ step_name step ++ str " needs your copy of the file it concerns, so its order can be checked")
        end in
      match missing with Some missing => inr {| dl_refusal := OutOfOrder; dl_kind := Some kind; dl_step := Some missing |} | None => inl kind end
  end.

Definition list_items (owner : bytes) (st : Store) : result (list QueuedItem) :=
  traverse (fun index => ok_or (item_at owner index st) IntegrityCheckFailed) (ring_span (ring owner st)).

Definition freshly_claimed (now : Z) (owner : bytes) (index : nat) (st : Store) : bool :=
  match slot_at owner index st with
  | Some s => match os_claim s with Some (_, claimed_at) => (now - CLAIM_LEASE_SECS <? claimed_at)%Z | None => false end
  | None => false
  end.

Section outbox.
Context `{C : Crypto} `{CL : Clock} `{HX : Hex}.

Definition timeline (event_id : bytes) (now : Z) (owner : bytes) (event_type : E.HistoryEventType) (outcome : HistoryOutcome) (details : EventDetails) : dbM unit :=
  record event_id now (OutboxLine owner) event_type outcome (Some owner) details.
Definition slot_details (item : QueuedItem) : EventDetails :=
  with_detail (with_detail (with_detail [] (str "slot") (to_string (N.of_nat (qi_index item)))) (str "to") (qi_recipient item)) (str "kind") (to_string (Byte.to_N (qi_kind item))).

(** ** Refusals *)

(** The newest [limit] refusals of [owner]: [ORDER BY id DESC LIMIT]. *)
Definition newer (a b : RefusalRow) : Prop := rf_id b <= rf_id a.
#[local] Instance newer_dec : RelDecision newer.
Proof. intros a b. unfold newer. apply _. Defined.
Definition newest (owner : bytes) (limit : nat) (rows : list RefusalRow) : list RefusalRow :=
  take limit (merge_sort newer (filter (fun r => rf_owner r = owner) rows)).

Definition insert_refusal (now : Z) (owner recipient : bytes) (d : DeniedLetter) : dbM unit :=
  on_rings (fun t => set_rt_refusals (rt_refusals t ++ [{| rf_id := next_id rf_id (rt_refusals t); rf_owner := owner; rf_recipient := recipient; rf_kind := dl_kind d; rf_step := dl_step d;
                                                           rf_rule := dl_refusal d; rf_refused_at := timestamp now |}]) t).
Definition prune_refusals (owner : bytes) : dbM unit :=
  on_rings (fun t => set_rt_refusals (filter (fun r => rf_owner r <> owner \/ rf_id r ∈ map rf_id (newest owner MAX_REFUSALS_KEPT (rt_refusals t))) (rt_refusals t)) t).
Definition refusal_details (recipient : bytes) (d : DeniedLetter) : EventDetails :=
  let details := with_detail [] (str "to") recipient in
  let details := match dl_kind d with Some kind => with_detail details (str "kind") (to_string (Byte.to_N kind)) | None => details end in
  with_detail details (str "reason") (refusal_name (dl_refusal d)).
Definition write_refusal (event_id : bytes) (now : Z) (owner recipient : bytes) (d : DeniedLetter) : dbM unit :=
  timeline event_id now owner E.LetterRefused Denied (refusal_details recipient d) ≫= fun _ =>
  insert_refusal now owner recipient d ≫= fun _ =>
  prune_refusals owner.
Definition record_refusal (event_id : bytes) (now : Z) (owner recipient : bytes) (d : DeniedLetter) : dbM unit := transaction (write_refusal event_id now owner recipient d).
Definition refusals (owner : bytes) (limit : nat) (st : Store) : list RefusalRow := newest owner limit (rt_refusals (st_rings st)).

(** [Err(denied.record(..))]: the error of the refusal, or that it could not be recorded. *)
Definition deny {A} (event_id : bytes) (now : Z) (owner recipient : bytes) (d : DeniedLetter) : dbM A := fun st =>
  match record_refusal event_id now owner recipient d st with
  | (Ok _, st') => (Err (refusal_error (dl_refusal d) (dl_step d)), st')
  | (Err _, st') => (Err Usage, st')
  end.

(** ** Queueing *)

Definition set_capacity (owner : bytes) (slots : nat) : dbM RingRow :=
  if (slots =? 0) || (MAX_CAPACITY <? slots) then db_try (Err InvalidSlot) else
  query (require_owner owner) ≫= fun _ =>
  transaction (
    resized ← resize OutboxRing owner slots;
    if negb resized then db_try (Err OutboxNotEmpty) else
    query (fun st => ok_or (load_ring owner st) IntegrityCheckFailed)).

Definition insert_slot (s : OutSlot) : dbM unit := fun st =>
  if slot_held OutboxRing (os_owner s) (os_index s) st then (Err Db, st)
  else on_rings (fun t => set_rt_outbox_slots (rt_outbox_slots t ++ [s]) t) st.
Definition new_slot (now : Z) (owner recipient data : bytes) (kind : byte) (index : nat) : OutSlot :=
  {| os_owner := owner; os_index := index; os_kind := kind; os_recipient := recipient; os_content := data; os_content_hash := hex_encode (sha256 data); os_queued_at := timestamp now; os_claim := None |}.

Definition queue (event_id : bytes) (now : Z) (owner recipient data : bytes) (kind : byte) : dbM QueuedItem :=
  transaction (
    r ← ensure_ring owner;
    if bool_decide (ring_state r = Full) then db_try (Err OutboxFull) else
    insert_slot (new_slot now owner recipient data kind (rg_write_index r)) ≫= fun _ =>
    advance_write OutboxRing owner ≫= fun _ =>
    item ← query (fun st => ok_or (item_at owner (rg_write_index r) st) IntegrityCheckFailed);
    timeline event_id now owner E.LetterQueued Success (slot_details item) ≫= fun _ =>
    mret item).

Definition queue_or_deny (event_id : bytes) (now : Z) (owner recipient data : bytes) (kind : byte) : dbM QueuedItem := fun st =>
  match queue event_id now owner recipient data kind st with
  | (Err OutboxFull, st') => deny event_id now owner recipient (denied_new RingFull (Some kind)) st'
  | out => out
  end.

Definition push (event_id : bytes) (now : Z) (owner recipient data : bytes) (copy : option (TrackedFile * Visa)) : dbM QueuedItem :=
  query (require_owner owner) ≫= fun _ =>
  verdict ← query (fun st => Ok (departure_check owner recipient data copy st));
  match verdict with
  | inl kind => queue_or_deny event_id now owner recipient data kind
  | inr denied => deny event_id now owner recipient denied
  end.

(** ** Sending *)

Definition count_sent (owner : bytes) : dbM unit :=
  on_rings (fun t => set_rt_outbox_rings (update_where (ring_is owner) (fun r => {| rg_key := rg_key r; rg_capacity := rg_capacity r; rg_read_index := rg_read_index r;
    rg_write_index := rg_write_index r; rg_size := rg_size r; rg_sent_total := rg_sent_total r + 1 |}) (rt_outbox_rings t)) t).
Definition release_head (owner : bytes) (index : nat) (sent : bool) : dbM unit :=
  release OutboxRing owner index ≫= fun _ => if sent then count_sent owner else mret tt.

Definition set_claim (claim : option (bytes * Z)) (s : OutSlot) : OutSlot :=
  {| os_owner := os_owner s; os_index := os_index s; os_kind := os_kind s; os_recipient := os_recipient s; os_content := os_content s; os_content_hash := os_content_hash s;
     os_queued_at := os_queued_at s; os_claim := claim |}.
Definition claim_is (owner token : bytes) (s : OutSlot) : bool := bool_decide (os_owner s = owner) && match os_claim s with Some (t, _) => bool_decide (t = token) | None => false end.

(** Checked again at the gate: what was queued, still a passport, still recognised. *)
Definition gate_verdict (s : OutSlot) (st : Store) : option Refusal :=
  if negb (bool_decide (hex_encode (sha256 (os_content s)) = os_content_hash s)) then Some Tampered else
  match passport (os_content s) with
  | inr refusal => Some refusal
  | inl (_, sealed_to) => if negb (is_trusted (os_recipient s) sealed_to st) then Some UnrecognisedDestination else None
  end.

(** The first transaction of a send. A letter turned away at the gate leaves with the
    refusal to record: nothing is written before, so nothing is left to roll back. *)
Definition claim_head (token : bytes) (now : Z) (owner : bytes) (mode : Claimed) : dbM (option (QueuedItem * bytes) + bytes * DeniedLetter) :=
  transaction (
    r ← query (fun st => Ok (ring owner st));
    if bool_decide (ring_state r = Empty) then mret (inl None) else
    fresh ← query (fun st => Ok (freshly_claimed now owner (rg_read_index r) st));
    if bool_decide (mode = Respect) && fresh then db_try (Err Usage) else
    s ← query (fun st => ok_or (slot_at owner (rg_read_index r) st) IntegrityCheckFailed);
    verdict ← query (fun st => Ok (gate_verdict s st));
    match verdict with
    | Some refusal => mret (inr (os_recipient s, denied_new refusal (Some (os_kind s))))
    | None =>
        on_rings (fun t => set_rt_outbox_slots (update_where (out_slot owner (rg_read_index r)) (set_claim (Some (token, now))) (rt_outbox_slots t)) t) ≫= fun _ =>
        mret (inl (Some (item_of s, os_content s)))
    end).

Definition unclaim (owner token : bytes) : dbM unit :=
  transaction (on_rings (fun t => set_rt_outbox_slots (update_where (claim_is owner token) (set_claim None) (rt_outbox_slots t)) t)).

(** The last transaction of a send: the slot is freed only if the head still carries its claim. *)
Definition still_ours (owner token : bytes) (st : Store) : bool :=
  let r := ring owner st in
  negb (bool_decide (ring_state r = Empty)) && match slot_at owner (rg_read_index r) st with Some s => claim_is owner token s | None => false end.
Definition finish_head (event_id token : bytes) (now : Z) (owner : bytes) (item : QueuedItem) : dbM unit :=
  transaction (
    r ← query (fun st => Ok (ring owner st));
    ours ← query (fun st => Ok (still_ours owner token st));
    if (ours : bool) then
      release_head owner (rg_read_index r) true ≫= fun _ =>
      timeline event_id now owner E.LetterSent Success (slot_details item)
    else mret tt).

(** [m.map_err(unclaim)?] *)
Definition or_unclaim {A} (owner token : bytes) (m : dbM A) : dbM A := fun st =>
  match m st with
  | (Ok a, st') => (Ok a, st')
  | (Err e, st') => match unclaim owner token st' with (Ok _, st'') => (Err e, st'') | (Err _, st'') => (Err Usage, st'') end
  end.

(** [deliver] runs with no transaction open: as a computation on the store, it is
    also whatever others do to it meanwhile. *)
Definition send_head (event_id nonce : bytes) (claimed_at sent_at : Z) (owner : bytes) (mode : Claimed) (deliver : QueuedItem -> bytes -> dbM unit) : dbM (option QueuedItem) :=
  let token := hex_encode nonce in
  claimed ← claim_head token claimed_at owner mode;
  match claimed with
  | inr (recipient, denied) => deny event_id claimed_at owner recipient denied
  | inl None => mret None
  | inl (Some (item, data)) =>
      or_unclaim owner token (deliver item data) ≫= fun _ =>
      or_unclaim owner token (finish_head event_id token sent_at owner item) ≫= fun _ =>
      mret (Some item)
  end.
Definition send_next (event_id nonce : bytes) (claimed_at sent_at : Z) (owner : bytes) := send_head event_id nonce claimed_at sent_at owner Respect.
Definition send_next_taking_over (event_id nonce : bytes) (claimed_at sent_at : Z) (owner : bytes) := send_head event_id nonce claimed_at sent_at owner TakeOver.

Definition drop_head (event_id : bytes) (now : Z) (owner : bytes) (mode : Claimed) : dbM (option QueuedItem) :=
  transaction (
    r ← query (fun st => Ok (ring owner st));
    if bool_decide (ring_state r = Empty) then mret None else
    fresh ← query (fun st => Ok (freshly_claimed now owner (rg_read_index r) st));
    if bool_decide (mode = Respect) && fresh then db_try (Err Usage) else
    item ← query (fun st => ok_or (item_at owner (rg_read_index r) st) IntegrityCheckFailed);
    release_head owner (rg_read_index r) false ≫= fun _ =>
    timeline event_id now owner E.LetterDropped Info (slot_details item) ≫= fun _ =>
    mret (Some item)).
Definition drop_next (event_id : bytes) (now : Z) (owner : bytes) := drop_head event_id now owner Respect.
Definition drop_next_taking_over (event_id : bytes) (now : Z) (owner : bytes) := drop_head event_id now owner TakeOver.
End outbox.
