(* ===== verification/OutboxLaws.v ===== *)
(** * The outbox as a bounded queue ([src/src/outbox.rs])

    The rows of an owner's ring stand for a queue: its capacity, the letters it holds
    from the oldest on, and how many were sent. Every operation acts on that queue. *)

From S2P Require Import Prelude Text Crypto Envelope HistoryCodec Event Revision RevisionGraph Policy Container Authority Snapshot Exchange.
From S2P Require Import Tables KeyStore Signing Aead Clock BridgePackage PrivateBridge BridgeRoster BridgeSafety Pin TreeLaws Ring RingHistory Outbox.

Record Queue := { q_capacity : nat; q_letters : list OutSlot; q_sent : N }.

(** The queue the rows of [owner] stand for. *)
Record queue_is (owner : bytes) (st : Store) (q : Queue) : Prop := {
  qi_capacity : rg_capacity (ring owner st) = q_capacity q;
  qi_slots : Forall2 (fun i s => slot_at owner i st = Some s) (ring_span (ring owner st)) (q_letters q);
  qi_sent : rg_sent_total (ring owner st) = q_sent q;
}.
Record outbox_ok (st : Store) : Prop := {
  ob_ring : ring_ok OutboxRing st;
  ob_queue owner : exists q, queue_is owner st q;
}.

(** ** Reading the rows *)

Lemma slot_at_held owner i st : slot_held OutboxRing owner i st = bool_decide (is_Some (slot_at owner i st)).
Proof.
  unfold slot_held, slot_at. destruct (first_row (out_slot owner i) _) as [s|] eqn:E.
  - rewrite bool_decide_true by done. apply existsb_exists. apply first_row_Some in E as [Hs Ho]. exists s. by rewrite <- list_elem_of_In.
  - rewrite bool_decide_false by (by intros [? ?]). apply not_true_is_false. intros (s & Hs%list_elem_of_In & Ho)%existsb_exists. rewrite first_row_None in E. by rewrite E in Ho.
Qed.
Lemma slot_at_key owner i st s : slot_at owner i st = Some s -> os_owner s = owner /\ os_index s = i.
Proof. intros [_ H%bool_decide_eq_true]%first_row_Some. done. Qed.

Lemma ring_good owner st : ring_ok OutboxRing st -> ring_check (ring owner st) = true.
Proof.
  intros HO. unfold ring, load_ring. destruct (ring_row OutboxRing owner st) as [r|] eqn:E; cbn [default from_option]; [|done]. unfold id. by eapply ring_row_check; [apply HO|].
Qed.

Lemma queue_length owner st q : queue_is owner st q -> rg_size (ring owner st) = length (q_letters q).
Proof. intros [_ HF _]. apply Forall2_length in HF. rewrite <- HF. unfold ring_span, span. by rewrite length_map, length_seq. Qed.
Lemma queue_bounded owner st q : ring_ok OutboxRing st -> queue_is owner st q -> length (q_letters q) <= q_capacity q <= MAX_CAPACITY.
Proof.
  intros HO HQ. pose proof (ring_good owner st HO) as (? & ? & ? & ? & ?)%ring_check_spec. rewrite <- (queue_length _ _ _ HQ), <- (qi_capacity _ _ _ HQ). lia.
Qed.
Lemma queue_unique owner st q q' : queue_is owner st q -> queue_is owner st q' -> q = q'.
Proof.
  destruct q as [c l n], q' as [c' l' n']. intros [E1 E2 E3] [E1' E2' E3']. cbn in *. f_equal; try congruence. revert l' E2'. induction E2 as [|i s idx l H HF IH]; intros l' HF'.
  - by apply Forall2_nil_inv_l in HF' as ->.
  - apply Forall2_cons_inv_l in HF' as (s' & l1 & Hs' & HF1 & ->). f_equal; [congruence|by apply IH].
Qed.

(** [list] gives the letters oldest first. *)
Lemma list_queue owner st q : queue_is owner st q -> list_items owner st = Ok (map item_of (q_letters q)).
Proof.
  intros [_ HF _]. apply traverse_all. apply Forall2_fmap_r. eapply Forall2_impl; [exact HF|]. intros i s E. unfold item_at. by rewrite E.
Qed.

(** Only the two tables matter. *)
Definition outbox_same (st st' : Store) : Prop := rt_outbox_rings (st_rings st') = rt_outbox_rings (st_rings st) /\ rt_outbox_slots (st_rings st') = rt_outbox_slots (st_rings st).
#[export] Instance outbox_same_preorder : PreOrder outbox_same.
Proof. split; [done|]. intros ? ? ? [] []. split; congruence. Qed.

Lemma outbox_same_queue st st' : outbox_same st st' -> (forall owner q, queue_is owner st q -> queue_is owner st' q) /\ (ring_ok OutboxRing st -> ring_ok OutboxRing st') /\ (forall owner, ring owner st' = ring owner st) /\
  forall owner i, slot_at owner i st' = slot_at owner i st.
Proof.
  intros [E1 E2]. assert (forall owner, ring_row OutboxRing owner st' = ring_row OutboxRing owner st) as Hr by (intros; unfold ring_row; cbn; by rewrite E1).
  assert (forall owner, ring owner st' = ring owner st) as Hg by (intros; unfold ring, load_ring; by rewrite Hr).
  assert (forall owner i, slot_at owner i st' = slot_at owner i st) as Hs by (intros; unfold slot_at; by rewrite E2). split_and!; [| |done|done].
  - intros owner q [H1 H2 H3]. split; rewrite Hg; try done. eapply Forall2_impl; [exact H2|]. intros i s. by rewrite Hs.
  - intros [[H1 H2] H3 H4]. split; [split; cbn in *; by rewrite E1| |]; intros key; setoid_rewrite Hr; cbn; rewrite E2; [apply H3|apply H4].
Qed.

Section frame.
Context `{C : Crypto} `{CL : Clock} `{HX : Hex}.

Lemma on_rings_same g : (forall t, rt_outbox_rings (g t) = rt_outbox_rings t /\ rt_outbox_slots (g t) = rt_outbox_slots t) -> respects outbox_same (on_rings g).
Proof. intros H. apply respects_execute. intros st. apply H. Qed.

Lemma record_same event_id now t event_type outcome actor details : respects outbox_same (record event_id now t event_type outcome actor details).
Proof. intros st r st' E. apply record_rows in E. split; apply E. Qed.

Lemma deny_same {A} event_id now owner recipient d : respects outbox_same (deny (A := A) event_id now owner recipient d).
Proof.
  assert (respects outbox_same (record_refusal event_id now owner recipient d)) as HR.
  { unfold record_refusal, write_refusal. apply respects_transaction; [apply _|]. apply respects_bind; [apply _|apply record_same|]. intros _. apply respects_bind; [apply _|by apply on_rings_same|]. intros _. by apply on_rings_same. }
  intros st r st'. unfold deny. destruct (record_refusal _ _ _ _ _ st) as [[u|e] st1] eqn:E; intros [= _ <-]; by eapply HR.
Qed.
End frame.

Lemma queue_keep owner st st' q : queue_is owner st q -> ring owner st' = ring owner st -> (forall i, i ∈ ring_span (ring owner st) -> slot_at owner i st' = slot_at owner i st) -> queue_is owner st' q.
Proof.
  intros [H1 H2 H3] Hr Hs. split; rewrite Hr; [done| |done].
  pose proof (Forall2_length _ _ _ H2) as HL. apply Forall2_same_length_lookup_2; [done|]. intros k i s Hi Hk. rewrite Hs by (by eapply list_elem_of_lookup_2). by apply (Forall2_lookup_lr _ _ _ _ _ _ H2 Hi Hk).
Qed.

Lemma ring_of_row owner st r : ring_row OutboxRing owner st = Some r -> ring owner st = r.
Proof. intros E. unfold ring, load_ring. by rewrite E. Qed.
Lemma ring_of_rows owner st st' : ring_row OutboxRing owner st' = ring_row OutboxRing owner st -> ring owner st' = ring owner st.
Proof. intros E. unfold ring, load_ring. by rewrite E. Qed.

Section ops.
Context `{C : Crypto} `{CL : Clock} `{HX : Hex}.

(** The ring is there after the first use; its queue was that of an unused ring. *)
Lemma ensure_ring_run owner st : outbox_ok st -> exists st', ensure_ring owner st = (Ok (ring owner st), st') /\ ring_ok OutboxRing st' /\ ring_row OutboxRing owner st' = Some (ring owner st) /\
  (forall k, ring k st' = ring k st) /\ exists l, st' = set_rings (with_rings OutboxRing l (st_rings st)) st.
Proof.
  intros HO. destruct (ensure_run OutboxRing owner DEFAULT_CAPACITY st) as (st' & E & HR & Hr & Hk & _ & ES); [unfold DEFAULT_CAPACITY, MAX_CAPACITY; lia|apply HO|]. fold (ring owner st) in *.
  change (default (new_ring owner DEFAULT_CAPACITY) (ring_row OutboxRing owner st)) with (ring owner st) in *.
  exists st'. split; [|split; [done|split; [done|split; [|done]]]].
  - unfold ensure_ring. rewrite (dbM_step _ _ _ _ _ E). unfold query, load_ring. by rewrite Hr.
  - intros k. destruct (decide (k = owner)) as [->|Hne]; [by apply ring_of_row|by apply ring_of_rows, Hk].
Qed.

Lemma insert_slot_run s st : slot_held OutboxRing (os_owner s) (os_index s) st = false -> exists st', insert_slot s st = (Ok tt, st') /\ (forall k, ring_row OutboxRing k st' = ring_row OutboxRing k st) /\
  (forall k i, slot_at k i st' = if decide (k = os_owner s /\ i = os_index s) then Some s else slot_at k i st) /\ st' = set_rings (set_rt_outbox_slots (rt_outbox_slots (st_rings st) ++ [s]) (st_rings st)) st.
Proof.
  intros Hno. unfold insert_slot. rewrite Hno. eexists. split; [reflexivity|]. split; [done|]. split; [|done]. intros k i. unfold slot_at. cbn. rewrite slot_at_held in Hno. apply bool_decide_eq_false in Hno.
  destruct (decide _) as [[-> ->]|Hne].
  - apply first_row_new; [|unfold out_slot; by rewrite bool_decide_true]. apply first_row_None. unfold slot_at in Hno. by destruct (first_row _ _); [destruct Hno; eexists|].
  - apply first_row_old. unfold out_slot. apply bool_decide_eq_false. naive_solver.
Qed.

Lemma slots_of_rings k i l st : slot_at k i (set_rings (with_rings OutboxRing l (st_rings st)) st) = slot_at k i st.
Proof. done. Qed.

(** Every other owner's queue. *)
Definition others (owner : bytes) (st st' : Store) : Prop := forall other q, other <> owner -> queue_is other st q -> queue_is other st' q.

Lemma outbox_ok_same st st' : outbox_same st st' -> outbox_ok st -> outbox_ok st'.
Proof. intros HS [HR HQ]. destruct (outbox_same_queue _ _ HS) as (H1 & H2 & _). split; [by apply H2|]. intros k. destruct (HQ k) as [q ?]. exists q. by apply H1. Qed.
Lemma others_same owner st st1 st2 : others owner st st1 -> outbox_same st1 st2 -> others owner st st2.
Proof. intros Ho HS k q Hne Hq. apply (proj1 (outbox_same_queue _ _ HS)). by apply Ho. Qed.
Lemma outbox_ok_others owner st st' q : outbox_ok st -> ring_ok OutboxRing st' -> queue_is owner st' q -> others owner st st' -> outbox_ok st'.
Proof.
  intros HO HR HQ Ho. split; [done|]. intros k. destruct (decide (k = owner)) as [->|Hne]; [by eexists|]. destruct (ob_queue _ HO k) as [q' ?]. exists q'. by apply Ho.
Qed.

(** The slot a letter takes, in a ring that is not full. *)
Lemma fill_run {B} now owner recipient data kind st q (K : RingRow -> dbM B) : outbox_ok st -> queue_is owner st q -> length (q_letters q) < q_capacity q ->
  let s := new_slot now owner recipient data kind (rg_write_index (ring owner st)) in
  exists st', (r ← ensure_ring owner; if bool_decide (ring_state r = Full) then db_try (Err OutboxFull) else
      insert_slot (new_slot now owner recipient data kind (rg_write_index r)) ≫= fun _ => advance_write OutboxRing owner ≫= fun _ => K r) st = K (ring owner st) st' /\
    slot_at owner (rg_write_index (ring owner st)) st' = Some s /\ outbox_ok st' /\ others owner st st' /\
    queue_is owner st' {| q_capacity := q_capacity q; q_letters := q_letters q ++ [s]; q_sent := q_sent q |} /\
    rt_histories (st_rings st') = rt_histories (st_rings st) /\ rt_events (st_rings st') = rt_events (st_rings st).
Proof.
  intros HO HQ Hfree. cbv zeta. rewrite <- (queue_length _ _ _ HQ), <- (qi_capacity _ _ _ HQ) in Hfree. pose proof (ring_good owner st (ob_ring _ HO)) as (Hc1 & Hc2 & Hc3 & Hc4 & Hc5)%ring_check_spec.
  destruct (ensure_ring_run owner st HO) as (s1 & E1 & HR1 & Hrow1 & Hrings1 & l1 & ES1). rewrite (dbM_step _ _ _ _ _ E1).
  rewrite bool_decide_false by (unfold ring_state; destruct (_ =? 0); [done|]; by rewrite (proj2 (Nat.leb_gt _ _) Hfree)).
  set (s := new_slot now owner recipient data kind (rg_write_index (ring owner st))) in *. set (w := rg_write_index (ring owner st)) in *.
  assert (w ∉ ring_span (ring owner st)) as Hw by (unfold ring_span; rewrite <- Hc5; by apply write_free).
  assert (slot_held OutboxRing owner w s1 = false) as Hno.
  { apply not_true_is_false. intros Hh. destruct (ro_held _ _ HR1 _ _ Hh) as (r & Hr & Hi). rewrite Hrow1 in Hr. by injection Hr as <-. }
  destruct (insert_slot_run s s1 Hno) as (s2 & E2 & Hrow2 & Hs2 & ES2). rewrite (dbM_step _ _ _ _ _ E2).
  destruct (advance_write_run OutboxRing owner s1 s2 (ring owner st)) as (s3 & E3 & HR3 & Hrow3 & Hh3 & l3 & ES3); [done| |done|done|done| |].
  { destruct (ro_rows _ _ HR1). rewrite ES2. by split. }
  { intros k i. rewrite !slot_at_held, Hs2. fold w. destruct (decide _) as [[-> ->]|Hne]; [rewrite bool_decide_true by done; by rewrite (bool_decide_true (_ /\ _)), orb_true_r|]. rewrite (bool_decide_false (k = owner /\ i = w)) by done. by rewrite orb_false_r. }
  rewrite (dbM_step _ _ _ _ _ E3). exists s3. split; [done|].
  assert (forall k i, slot_at k i s3 = if decide (k = owner /\ i = w) then Some s else slot_at k i st) as Hs3.
  { intros k i. rewrite ES3, slots_of_rings, Hs2. destruct (decide _); [done|]. by rewrite ES1. }
  assert (others owner st s3) as Hother.
  { intros other q' Hne Hq'. apply (queue_keep _ st); [done| |].
    - rewrite <- (Hrings1 other). apply ring_of_rows. by rewrite Hrow3, decide_False.
    - intros i _. rewrite Hs3, decide_False; [done|naive_solver]. }
  assert (queue_is owner s3 {| q_capacity := q_capacity q; q_letters := q_letters q ++ [s]; q_sent := q_sent q |}) as Hmine.
  { destruct HQ as [H1 H2 H3]. assert (ring owner s3 = set_pointers (rg_read_index (ring owner st)) (S w mod rg_capacity (ring owner st)) (S (rg_size (ring owner st))) (ring owner st)) as Hg3.
    { apply ring_of_row. by rewrite Hrow3, decide_True. }
    split; rewrite Hg3; [done| |done]. unfold ring_span. cbn [rg_capacity rg_read_index rg_size set_pointers q_letters]. rewrite span_snoc. apply Forall2_app.
    - pose proof (Forall2_length _ _ _ H2) as HL. apply Forall2_same_length_lookup_2; [done|]. intros k i s' Hi Hk. rewrite Hs3, decide_False; [by apply (Forall2_lookup_lr _ _ _ _ _ _ H2 Hi Hk)|].
      intros [_ ->]. apply Hw. by eapply list_elem_of_lookup_2.
    - constructor; [|constructor]. rewrite Hs3, decide_True; [done|]. by rewrite Hc5. }
  split; [by rewrite Hs3, decide_True|]. split; [by eapply outbox_ok_others|]. split; [done|]. split; [done|]. by rewrite ES3, ES2, ES1.
Qed.

Lemma full_run owner st q : outbox_ok st -> queue_is owner st q -> q_capacity q <= length (q_letters q) ->
  exists st', forall B (K : RingRow -> dbM B), (r ← ensure_ring owner; if bool_decide (ring_state r = Full) then db_try (Err OutboxFull) else K r) st = (Err OutboxFull, st').
Proof.
  intros HO HQ Hfull. rewrite <- (queue_length _ _ _ HQ), <- (qi_capacity _ _ _ HQ) in Hfull. pose proof (ring_good owner st (ob_ring _ HO)) as (Hc1 & _)%ring_check_spec.
  destruct (ensure_ring_run owner st HO) as (s1 & E1 & _). exists s1. intros B K. rewrite (dbM_step _ _ _ _ _ E1). rewrite bool_decide_true; [done|]. unfold ring_state.
  destruct (Nat.eqb_spec (rg_size (ring owner st)) 0); [lia|]. by rewrite (proj2 (Nat.leb_le _ _) Hfull).
Qed.

(** A letter queued is the newest of the queue; a full queue takes none. *)
Lemma queue_run event_id now owner recipient data kind st q r st' : outbox_ok st -> queue_is owner st q -> queue event_id now owner recipient data kind st = (r, st') ->
  match r with
  | Ok item => let s := new_slot now owner recipient data kind (rg_write_index (ring owner st)) in
      item = item_of s /\ length (q_letters q) < q_capacity q /\ outbox_ok st' /\ queue_is owner st' {| q_capacity := q_capacity q; q_letters := q_letters q ++ [s]; q_sent := q_sent q |} /\ others owner st st'
  | Err e => st' = st
  end.
Proof.
  intros HO HQ E. destruct r as [item|e]; [|by apply transaction_Err in E]. apply transaction_Ok in E. cbv zeta. destruct (Nat.lt_ge_cases (length (q_letters q)) (q_capacity q)) as [Hfree|Hfull].
  - destruct (fill_run now owner recipient data kind st q (fun r => item ← query (fun st => ok_or (item_at owner (rg_write_index r) st) IntegrityCheckFailed);
      timeline event_id now owner E.LetterQueued Success (slot_details item) ≫= fun _ => mret item) HO HQ Hfree) as (s3 & E3 & Hs3 & HO3 & Ho3 & HQ3 & _). rewrite E3 in E. clear E3.
    rewrite (dbM_step _ _ s3 (item_of (new_slot now owner recipient data kind (rg_write_index (ring owner st)))) s3) in E by (unfold query, item_at; by rewrite Hs3).
    apply dbM_bind_Ok in E as (u & s4 & E4 & E). injection E as -> ->. apply record_same in E4 as HS. split; [done|]. split; [done|]. split; [by eapply outbox_ok_same|]. split; [|by eapply others_same]. by apply (proj1 (outbox_same_queue _ _ HS)).
  - destruct (full_run owner st q HO HQ Hfull) as (s1 & E1). rewrite E1 in E. discriminate.
Qed.

Definition counted (r : RingRow) : RingRow :=
  {| rg_key := rg_key r; rg_capacity := rg_capacity r; rg_read_index := rg_read_index r; rg_write_index := rg_write_index r; rg_size := rg_size r; rg_sent_total := rg_sent_total r + 1 |}.

Lemma count_sent_run owner st : ring_ok OutboxRing st -> exists st', count_sent owner st = (Ok tt, st') /\ ring_ok OutboxRing st' /\ (forall k i, slot_at k i st' = slot_at k i st) /\
  (forall k, ring_row OutboxRing k st' = if decide (k = owner) then counted <$> ring_row OutboxRing k st else ring_row OutboxRing k st).
Proof.
  intros HO. destruct (update_ring_run OutboxRing owner counted st) as (st' & E & HR & Hrow & Hh & ES); [done| |apply HO|].
  { intros r Hr. destruct (ring_row_check _ _ _ _ (ro_rows _ _ HO) Hr) as [_ Hc]. exact Hc. }
  exists st'. split; [rewrite ES; reflexivity|]. split; [|split; [intros k i; by rewrite ES|done]]. split; [done| |].
  - intros k i. rewrite Hh. intros (r & Hr & Hi)%(ro_held _ _ HO). rewrite Hrow, Hr. destruct (decide _); cbn; by eexists.
  - intros k r. rewrite Hrow, Hh. destruct (decide _); [|apply HO]. destruct (ring_row OutboxRing k st) as [r0|] eqn:E0; [|done]. intros [= <-]. cbn. intros Hp. by apply (ro_head _ _ HO).
Qed.

Lemma release_head_run owner sent st q s rest : outbox_ok st -> queue_is owner st q -> q_letters q = s :: rest ->
  exists st', release_head owner (rg_read_index (ring owner st)) sent st = (Ok tt, st') /\ outbox_ok st' /\
    queue_is owner st' {| q_capacity := q_capacity q; q_letters := rest; q_sent := q_sent q + (if sent then 1 else 0) |} /\ (forall other q', other <> owner -> queue_is other st q' -> queue_is other st' q').
Proof.
  intros HO HQ EQ. set (r := ring owner st). pose proof (ring_good owner st (ob_ring _ HO)) as (Hc1 & Hc2 & Hc3 & Hc4 & Hc5)%ring_check_spec. fold r in Hc1, Hc2, Hc3, Hc4, Hc5.
  pose proof (queue_length _ _ _ HQ) as HL. rewrite EQ in HL. cbn in HL. fold r in HL.
  assert (ring_row OutboxRing owner st = Some r) as Hrow. { unfold r, ring, load_ring in *. destruct (ring_row OutboxRing owner st); [done|]. cbn in HL. discriminate. }
  pose proof (qi_slots _ _ _ HQ) as HS. rewrite EQ in HS. fold r in HS. unfold ring_span in HS. rewrite HL, span_cons in HS by done. apply Forall2_cons in HS as [Hhead HS].
  pose proof (span_NoDup (rg_capacity r) (rg_read_index r) (S (length rest)) ltac:(lia)) as HN. rewrite span_cons in HN by done. apply NoDup_cons in HN as [HN _].
  destruct (release_run OutboxRing owner (rg_read_index r) st (ob_ring _ HO)) as (s1 & E1 & HR1 & Hrow1 & Hh1 & l1 & ES1).
  assert (forall k i, (k, i) <> (owner, rg_read_index r) -> slot_at k i s1 = slot_at k i st) as Hs1.
  { intros k i Hne. rewrite ES1. unfold slot_at. cbn. apply first_row_filter. unfold out_slot. intros a Ha%bool_decide_eq_true. apply bool_decide_eq_false. naive_solver. }
  set (r1 := set_pointers (S (rg_read_index r) mod rg_capacity r) (rg_write_index r) (length rest) r).
  assert (ring_row OutboxRing owner s1 = Some r1) as Hr1.
  { rewrite Hrow1, decide_True, Hrow by done. cbn [fmap option_fmap option_map]. rewrite HL. cbn [skip_released]. rewrite Hh1, (bool_decide_true (_ /\ _)), andb_false_r by done.
    destruct rest as [|s' rest]; [done|]. cbn [length skip_released] in *. rewrite span_cons in HS, HN by (apply Nat.mod_upper_bound; lia). apply Forall2_cons in HS as [Hn _].
    rewrite Hh1, slot_at_held, Hn, bool_decide_true by done. rewrite bool_decide_false by (intros [_ E]; apply HN; rewrite <- E at 1; left). done. }
  assert (forall other q', other <> owner -> queue_is other st q' -> queue_is other s1 q') as Hother1.
  { intros other q' Hne Hq'. apply (queue_keep _ st); [done|apply ring_of_rows; by rewrite Hrow1, decide_False|]. intros i _. apply Hs1. naive_solver. }
  assert (queue_is owner s1 {| q_capacity := q_capacity q; q_letters := rest; q_sent := q_sent q |}) as Hmine1.
  { split; rewrite (ring_of_row _ _ _ Hr1); [exact (qi_capacity _ _ _ HQ)| |exact (qi_sent _ _ _ HQ)]. unfold ring_span. cbn [rg_capacity rg_read_index rg_size r1 set_pointers q_letters].
    apply Forall2_same_length_lookup_2; [by eapply Forall2_length|]. intros k i s' Hi Hk. rewrite Hs1; [by apply (Forall2_lookup_lr _ _ _ _ _ _ HS Hi Hk)|]. intros [= ->]. apply HN. by eapply list_elem_of_lookup_2. }
  assert (outbox_ok s1) as HO1.
  { split; [done|]. intros k. destruct (decide (k = owner)) as [->|Hne]; [by eexists|]. destruct (ob_queue _ HO k) as [q' ?]. exists q'. auto. }
  unfold release_head. rewrite (dbM_step _ _ _ _ _ E1). destruct sent; [|exists s1; rewrite N.add_0_r; done].
  destruct (count_sent_run owner s1 HR1) as (s2 & E2 & HR2 & Hs2 & Hrow2). exists s2. split; [done|].
  assert (queue_is owner s2 {| q_capacity := q_capacity q; q_letters := rest; q_sent := q_sent q + 1 |}) as Hmine2.
  { destruct Hmine1 as [H1 H2 H3]. assert (ring owner s2 = counted (ring owner s1)) as Hg by (rewrite (ring_of_row _ _ _ Hr1); apply ring_of_row; by rewrite Hrow2, decide_True, Hr1).
    split; rewrite Hg; [done| |cbn in *; congruence]. eapply Forall2_impl; [exact H2|]. intros i s'. by rewrite Hs2. }
  assert (forall other q', other <> owner -> queue_is other st q' -> queue_is other s2 q') as Hother2.
  { intros other q' Hne Hq'. apply (queue_keep _ s1); [by apply Hother1|apply ring_of_rows; by rewrite Hrow2, decide_False|]. intros i _. apply Hs2. }
  split; [|by split]. split; [done|]. intros k. destruct (decide (k = owner)) as [->|Hne]; [by eexists|]. destruct (ob_queue _ HO k) as [q' ?]. exists q'. auto.
Qed.

(** An update of slots that leaves their places alone. *)
Definition on_slots (P : OutSlot -> bool) (g : OutSlot -> OutSlot) (st : Store) : Store := set_rings (set_rt_outbox_slots (update_where P g (rt_outbox_slots (st_rings st))) (st_rings st)) st.
Definition upd (P : OutSlot -> bool) (g : OutSlot -> OutSlot) (s : OutSlot) : OutSlot := if P s then g s else s.
Definition upd_queue (P : OutSlot -> bool) (g : OutSlot -> OutSlot) (q : Queue) : Queue := {| q_capacity := q_capacity q; q_letters := map (upd P g) (q_letters q); q_sent := q_sent q |}.

Lemma on_slots_run P g st : (forall s, os_owner (g s) = os_owner s /\ os_index (g s) = os_index s) -> outbox_ok st ->
  outbox_ok (on_slots P g st) /\ (forall owner q, queue_is owner st q -> queue_is owner (on_slots P g st) (upd_queue P g q)) /\ (forall owner, ring owner (on_slots P g st) = ring owner st).
Proof.
  intros Hg HO. set (st' := on_slots P g st).
  assert (forall k i, slot_at k i st' = upd P g <$> slot_at k i st) as Hs.
  { intros k i. unfold slot_at, st', on_slots. cbn. apply first_row_update. intros s _ _. unfold out_slot. destruct (Hg s) as [-> ->]. done. }
  assert (forall k i, slot_held OutboxRing k i st' = slot_held OutboxRing k i st) as Hh.
  { intros k i. rewrite !slot_at_held, Hs. apply bool_decide_ext. by rewrite fmap_is_Some. }
  assert (forall owner q, queue_is owner st q -> queue_is owner st' (upd_queue P g q)) as HQ.
  { intros owner q [H1 H2 H3]. split; [done| |done]. apply Forall2_fmap_r. eapply Forall2_impl; [exact H2|]. intros i s E. cbn. by rewrite Hs, E. }
  split; [split|done].
  - destruct (ob_ring _ HO) as [[H1 H2] H3 H4]. split; [by split| |]; intros key; setoid_rewrite Hh; [apply H3|apply H4].
  - intros owner. destruct (ob_queue _ HO owner) as [q Hq]. eexists. by apply HQ.
Qed.

(** The letters of a queue are the owner's, each at its place. *)
Lemma queue_letter owner st q i s : queue_is owner st q -> q_letters q !! i = Some s -> exists k, ring_span (ring owner st) !! i = Some k /\ slot_at owner k st = Some s /\ os_owner s = owner /\ os_index s = k.
Proof.
  intros HQ Hs. destruct (Forall2_lookup_r _ _ _ _ _ (qi_slots _ _ _ HQ) Hs) as (k & Hk & E). exists k. split; [done|]. split; [done|]. by eapply slot_at_key.
Qed.
Lemma queue_head owner st q s rest : ring_ok OutboxRing st -> queue_is owner st q -> q_letters q = s :: rest ->
  ring_state (ring owner st) <> Empty /\ slot_at owner (rg_read_index (ring owner st)) st = Some s /\ os_index s = rg_read_index (ring owner st) /\ Forall (fun s' => os_owner s' = owner /\ os_index s' <> rg_read_index (ring owner st)) rest.
Proof.
  intros HO HQ EQ. pose proof (queue_length _ _ _ HQ) as HL. rewrite EQ in HL. cbn in HL. pose proof (ring_good owner st HO) as (Hc1 & Hc2 & Hc3 & Hc4 & Hc5)%ring_check_spec.
  assert (forall i s', q_letters q !! i = Some s' -> os_owner s' = owner /\ os_index s' = (rg_read_index (ring owner st) + i) mod rg_capacity (ring owner st) /\ slot_at owner (os_index s') st = Some s') as Hat.
  { intros i s' Hi. destruct (queue_letter _ _ _ _ _ HQ Hi) as (k & Hk & Hs & Ho & Hx). split; [done|]. pose proof (lookup_lt_Some _ _ _ Hk) as Hlt. unfold ring_span in *.
    rewrite span_nth in Hk by (unfold span in Hlt; by rewrite length_map, length_seq in Hlt). injection Hk as Hk. rewrite Hx. by split. }
  split; [unfold ring_state; rewrite HL; cbn [Nat.eqb]; by destruct (_ <=? _)|]. destruct (Hat 0 s) as (Ho & Hx & Hs); [by rewrite EQ|]. rewrite Nat.add_0_r, Nat.mod_small in Hx by done. rewrite Hx in Hs. split; [done|]. split; [done|].
  apply Forall_forall. intros s' [i Hi]%list_elem_of_lookup. destruct (Hat (S i) s') as (Ho' & Hx' & _); [by rewrite EQ|]. split; [done|]. rewrite Hx'. intros E.
  pose proof (span_NoDup (rg_capacity (ring owner st)) (rg_read_index (ring owner st)) (rg_size (ring owner st)) Hc4) as HN. rewrite HL, span_cons in HN by done. apply NoDup_cons in HN as [HN _]. apply HN. rewrite <- E at 1.
  apply lookup_lt_Some in Hi. apply list_elem_of_lookup. exists i. rewrite span_nth by done. f_equal. rewrite Nat.Div0.add_mod_idemp_l. f_equal. lia.
Qed.
Lemma queue_empty owner st q : ring_ok OutboxRing st -> queue_is owner st q -> ring_state (ring owner st) = Empty <-> q_letters q = [].
Proof.
  intros HO HQ. pose proof (queue_length _ _ _ HQ) as HL. pose proof (ring_good owner st HO) as (? & _)%ring_check_spec. unfold ring_state. rewrite HL. destruct (q_letters q); cbn; [done|]. destruct (_ <=? _); done.
Qed.


Lemma map_upd_same P g (l : list OutSlot) : Forall (fun s => P s = false) l -> map (upd P g) l = l.
Proof. induction 1 as [|s l H HF IH]; [done|]. cbn. unfold upd at 1. by rewrite H, IH. Qed.

Lemma upd_others owner P g st st' : (forall s, P s = true -> os_owner s = owner) -> (forall k q, queue_is k st q -> queue_is k st' (upd_queue P g q)) -> others owner st st'.
Proof.
  intros HP HQ other q Hne Hq. specialize (HQ other q Hq). unfold upd_queue in HQ. rewrite map_upd_same in HQ; [by destruct q|]. apply Forall_forall. intros s [i Hi]%list_elem_of_lookup.
  destruct (queue_letter _ _ _ _ _ Hq Hi) as (k & _ & _ & Ho & _). destruct (P s) eqn:E; [|done]. apply HP in E. congruence.
Qed.

(** A claim on the oldest letter, which passed the gate. *)
Lemma claim_head_run token now owner mode st q r st' : outbox_ok st -> queue_is owner st q -> claim_head token now owner mode st = (r, st') ->
  match r with
  | Ok (inl (Some (item, data))) => exists s rest, q_letters q = s :: rest /\ item = item_of s /\ data = os_content s /\ gate_verdict s st = None /\
      (mode = Respect -> match os_claim s with Some (_, t) => (t <= now - CLAIM_LEASE_SECS)%Z | None => True end) /\
      outbox_ok st' /\ queue_is owner st' {| q_capacity := q_capacity q; q_letters := set_claim (Some (token, now)) s :: rest; q_sent := q_sent q |} /\ others owner st st'
  | Ok (inl None) => q_letters q = [] /\ st' = st
  | Ok (inr (recipient, d)) => (exists s rest refusal, q_letters q = s :: rest /\ gate_verdict s st = Some refusal /\ recipient = os_recipient s /\ d = denied_new refusal (Some (os_kind s))) /\ st' = st
  | Err e => st' = st
  end.
Proof.
  intros HO HQ E. destruct r as [out|e]; [|by apply transaction_Err in E]. apply transaction_Ok in E. rewrite (dbM_step _ _ st (ring owner st) st) in E by done.
  case_bool_decide as Hempty; [injection E as <- <-; split; [by apply (queue_empty owner st q (ob_ring _ HO) HQ)|done]|].
  destruct (q_letters q) as [|s rest] eqn:EQ; [by destruct Hempty; apply (queue_empty owner st q (ob_ring _ HO) HQ)|].
  destruct (queue_head _ _ _ _ _ (ob_ring _ HO) HQ EQ) as (_ & Hs & Hx & Hrest). rewrite (dbM_step _ _ st (freshly_claimed now owner (rg_read_index (ring owner st)) st) st) in E by done.
  destruct (_ && _) eqn:EB; [discriminate|]. rewrite (dbM_step _ _ st s st) in E by (unfold query; by rewrite Hs). rewrite (dbM_step _ _ st (gate_verdict s st) st) in E by done.
  destruct (gate_verdict s st) as [refusal|] eqn:EV; [injection E as <- <-; split; [by exists s, rest, refusal|done]|].
  injection E as <- <-. exists s, rest. split_and!; try done.
  { intros ->. rewrite bool_decide_true in EB by done. unfold freshly_claimed in EB. rewrite Hs in EB. cbn [andb] in EB. destruct (os_claim s) as [[t c]|]; [|done]. apply Z.ltb_ge in EB. done. }
  all: destruct (on_slots_run (out_slot owner (rg_read_index (ring owner st))) (set_claim (Some (token, now))) st (fun s => conj eq_refl eq_refl) HO) as (HO' & HQ' & _).
  - exact HO'.
  - specialize (HQ' owner q HQ). unfold upd_queue in HQ'. rewrite EQ in HQ'. cbn [map] in HQ'. rewrite map_upd_same in HQ'.
    + unfold upd in HQ'. apply slot_at_key in Hs as [Ho _]. unfold out_slot in HQ'. by rewrite bool_decide_true in HQ'.
    + eapply Forall_impl; [exact Hrest|]. intros s' [_ Hne]. apply bool_decide_eq_false. naive_solver.
  - eapply upd_others; [|exact HQ']. intros s' H%bool_decide_eq_true. apply H.
Qed.

Lemma unclaim_run owner token st q : outbox_ok st -> queue_is owner st q ->
  exists st', unclaim owner token st = (Ok tt, st') /\ outbox_ok st' /\ queue_is owner st' (upd_queue (claim_is owner token) (set_claim None) q) /\ others owner st st'.
Proof.
  intros HO HQ. destruct (on_slots_run (claim_is owner token) (set_claim None) st (fun s => conj eq_refl eq_refl) HO) as (HO' & HQ' & _). eexists. split; [reflexivity|]. split; [exact HO'|]. split; [by apply HQ'|].
  eapply upd_others; [|exact HQ']. intros s [H%bool_decide_eq_true _]%andb_true_iff. done.
Qed.

(** Whether the oldest letter carries the claim. *)
Definition head_claimed (token : bytes) (q : Queue) : bool := match q_letters q with s :: _ => match os_claim s with Some (t, _) => bool_decide (t = token) | None => false end | [] => false end.

Lemma still_ours_queue owner token st q : ring_ok OutboxRing st -> queue_is owner st q -> still_ours owner token st = head_claimed token q.
Proof.
  intros HO HQ. unfold still_ours, head_claimed. destruct (q_letters q) as [|s rest] eqn:EQ.
  - rewrite bool_decide_true by (by apply (queue_empty owner st q HO HQ)). done.
  - destruct (queue_head _ _ _ _ _ HO HQ EQ) as (He & Hs & _). rewrite bool_decide_false by done. rewrite Hs. unfold claim_is. apply slot_at_key in Hs as [-> _]. by rewrite bool_decide_true.
Qed.

(** The letter leaves the queue and is counted exactly when the claim still stands. *)
Lemma finish_head_run event_id token now owner item st q r st' : outbox_ok st -> queue_is owner st q -> finish_head event_id token now owner item st = (r, st') ->
  match r with
  | Ok _ => outbox_ok st' /\ others owner st st' /\
      queue_is owner st' (if head_claimed token q then {| q_capacity := q_capacity q; q_letters := tail (q_letters q); q_sent := q_sent q + 1 |} else q)
  | Err e => st' = st
  end.
Proof.
  intros HO HQ E. destruct r as [u|e]; [|by apply transaction_Err in E]. apply transaction_Ok in E. rewrite (dbM_step _ _ st (ring owner st) st) in E by done.
  rewrite (dbM_step _ _ st (head_claimed token q) st) in E by (unfold query; by rewrite (still_ours_queue _ _ _ q (ob_ring _ HO) HQ)).
  destruct (head_claimed token q) eqn:EH; [|injection E as _ <-; split; [done|split; [by intros k q' _|done]]]. unfold head_claimed in EH. destruct (q_letters q) as [|s rest] eqn:EQ; [done|].
  destruct (release_head_run owner true st q s rest HO HQ EQ) as (s1 & E1 & HO1 & HQ1 & Hoth). rewrite (dbM_step _ _ _ _ _ E1) in E. apply record_same in E as HS.
  destruct (outbox_same_queue _ _ HS) as (HQ2 & HR2 & _). cbn [tail]. split; [|split; [intros k q' Hne Hq'; by apply HQ2, Hoth|by apply HQ2]].
  split; [apply HR2, HO1|]. intros k. destruct (ob_queue _ HO1 k) as [q' ?]. exists q'. by apply HQ2.
Qed.

Lemma drop_head_run event_id now owner mode st q r st' : outbox_ok st -> queue_is owner st q -> drop_head event_id now owner mode st = (r, st') ->
  match r with
  | Ok (Some item) => exists s rest, q_letters q = s :: rest /\ item = item_of s /\ outbox_ok st' /\ others owner st st' /\ queue_is owner st' {| q_capacity := q_capacity q; q_letters := rest; q_sent := q_sent q |}
  | Ok None => q_letters q = [] /\ st' = st
  | Err e => st' = st
  end.
Proof.
  intros HO HQ E. destruct r as [out|e]; [|by apply transaction_Err in E]. apply transaction_Ok in E. rewrite (dbM_step _ _ st (ring owner st) st) in E by done.
  case_bool_decide as Hempty; [injection E as <- <-; split; [by apply (queue_empty owner st q (ob_ring _ HO) HQ)|done]|].
  destruct (q_letters q) as [|s rest] eqn:EQ; [by destruct Hempty; apply (queue_empty owner st q (ob_ring _ HO) HQ)|].
  destruct (queue_head _ _ _ _ _ (ob_ring _ HO) HQ EQ) as (_ & Hs & Hx & Hrest). rewrite (dbM_step _ _ st (freshly_claimed now owner (rg_read_index (ring owner st)) st) st) in E by done.
  destruct (_ && _) eqn:EB; [discriminate|]. rewrite (dbM_step _ _ st (item_of s) st) in E by (unfold query, item_at; by rewrite Hs).
  destruct (release_head_run owner false st q s rest HO HQ EQ) as (s1 & E1 & HO1 & HQ1 & Hoth). rewrite (dbM_step _ _ _ _ _ E1) in E. rewrite N.add_0_r in HQ1.
  apply dbM_bind_Ok in E as (u & s2 & E2 & E). injection E as <- <-. apply record_same in E2 as HS.
  destruct (outbox_same_queue _ _ HS) as (HQ2 & HR2 & _). exists s, rest. split_and!; try done; [|intros k q' Hne Hq'; by apply HQ2, Hoth|by apply HQ2].
  split; [apply HR2, HO1|]. intros k. destruct (ob_queue _ HO1 k) as [q' ?]. exists q'. by apply HQ2.
Qed.

(** Only an empty queue changes its capacity. *)
Lemma set_capacity_run owner slots st q r st' : outbox_ok st -> queue_is owner st q -> set_capacity owner slots st = (r, st') ->
  match r with
  | Ok _ => q_letters q = [] /\ 1 <= slots <= MAX_CAPACITY /\ outbox_ok st' /\ others owner st st' /\ queue_is owner st' {| q_capacity := slots; q_letters := []; q_sent := q_sent q |}
  | Err e => st' = st
  end.
Proof.
  intros HO HQ. unfold set_capacity. destruct (_ || _) eqn:EG; [unfold db_try; by intros [= <- <-]|]. apply orb_false_iff in EG as [EG1%Nat.eqb_neq EG2%Nat.ltb_ge]. assert (1 <= slots <= MAX_CAPACITY) as Hs by lia. clear EG1 EG2.
  destruct (require_owner owner st) as [[]|e0] eqn:ER; [rewrite (dbM_step _ _ st tt st) by (unfold query; by rewrite ER)|rewrite (dbM_fail _ _ st e0 st) by (unfold query; by rewrite ER); by intros [= <- <-]]. intros E. destruct r as [out|e]; [|by apply transaction_Err in E]. apply transaction_Ok in E.
  unfold resize in E. destruct (ensure_run OutboxRing owner slots st Hs (ob_ring _ HO)) as (s1 & E1 & HR1 & Hrow1 & Hk1 & Hh1 & l1 & ES1). set (r1 := default (new_ring owner slots) (ring_row OutboxRing owner st)) in *.
  apply dbM_bind_Ok in E as (resized & s2 & E2 & E). rewrite (dbM_step _ _ _ _ _ E1) in E2. cbn [pointers pt_size] in E2.
  assert (rg_size r1 = length (q_letters q) /\ rg_sent_total r1 = q_sent q) as [HL Hsent].
  { rewrite <- (queue_length _ _ _ HQ), <- (qi_sent _ _ _ HQ). unfold r1, ring, load_ring. by destruct (ring_row OutboxRing owner st). }
  destruct (negb (rg_size r1 =? 0)) eqn:Ez; [injection E2 as <- <-; discriminate|]. apply negb_false_iff, Nat.eqb_eq in Ez.
  destruct (update_ring_run OutboxRing owner (fun r => {| rg_key := rg_key r; rg_capacity := slots; rg_read_index := 0; rg_write_index := 0; rg_size := rg_size r; rg_sent_total := rg_sent_total r |}) s1) as (s3 & E3 & HR3 & Hrow3 & Hh3 & ES3); [done| |apply HR1|].
  { intros r0 H0. rewrite Hrow1 in H0. injection H0 as <-. apply ring_check_spec. cbn. rewrite Ez. split_and!; try lia. apply Nat.Div0.mod_0_l. }
  rewrite (dbM_step _ _ _ _ _ E3) in E2. injection E2 as <- <-. cbn [negb] in E. apply query_Ok in E as [_ ->].
  assert (q_letters q = []) as EQ by (apply nil_length_inv; lia). split; [done|]. split; [done|].
  assert (others owner st s3) as Hoth.
  { intros k q' Hne Hq'. apply (queue_keep _ st); [done| |intros i _; by rewrite ES3, ES1]. apply ring_of_rows. by rewrite Hrow3, decide_False, Hk1. }
  assert (queue_is owner s3 {| q_capacity := slots; q_letters := []; q_sent := q_sent q |}) as HQ3.
  { assert (ring owner s3 = {| rg_key := rg_key r1; rg_capacity := slots; rg_read_index := 0; rg_write_index := 0; rg_size := rg_size r1; rg_sent_total := rg_sent_total r1 |}) as Hg by (apply ring_of_row; by rewrite Hrow3, decide_True, Hrow1).
    split; rewrite Hg; [done| |done]. unfold ring_span. cbn. rewrite Ez. constructor. }
  split_and!; try done. split; [split; [done| |]|].
  - intros k i. rewrite Hh3. intros Hh. destruct (ro_held _ _ HR1 _ _ Hh) as (r & Hr & Hi). rewrite Hrow3. destruct (decide (k = owner)) as [->|]; [|by exists r]. exfalso. rewrite Hrow1 in Hr. injection Hr as <-.
    unfold ring_span in Hi. rewrite Ez in Hi. by apply not_elem_of_nil in Hi.
  - intros k r. rewrite Hrow3, Hh3. destruct (decide (k = owner)) as [->|]; [|apply HR1]. rewrite Hrow1. intros [= <-]. cbn. lia.
  - intros k. destruct (decide (k = owner)) as [->|Hne]; [by eexists|]. destruct (ob_queue _ HO k) as [q' ?]. exists q'. by apply Hoth.
Qed.

(** A letter pushed passed every check and is the newest of the queue; one turned
    away leaves every queue as it was. *)
Lemma push_run event_id now owner recipient data copy st q r st' : outbox_ok st -> queue_is owner st q -> push event_id now owner recipient data copy st = (r, st') ->
  match r with
  | Ok item => exists kind, let s := new_slot now owner recipient data kind (rg_write_index (ring owner st)) in
      require_owner owner st = Ok tt /\ departure_check owner recipient data copy st = inl kind /\ item = item_of s /\ length (q_letters q) < q_capacity q /\ outbox_ok st' /\
      queue_is owner st' {| q_capacity := q_capacity q; q_letters := q_letters q ++ [s]; q_sent := q_sent q |} /\ others owner st st'
  | Err e => outbox_same st st'
  end.
Proof.
  intros HO HQ E. unfold push in E. destruct (require_owner owner st) as [[]|e0] eqn:ER; [rewrite (dbM_step _ _ st tt st) in E by (unfold query; by rewrite ER)|rewrite (dbM_fail _ _ st e0 st) in E by (unfold query; by rewrite ER); by injection E as <- <-].
  rewrite (dbM_step _ _ st (departure_check owner recipient data copy st) st) in E by done. destruct (departure_check owner recipient data copy st) as [kind|d] eqn:ED.
  - unfold queue_or_deny in E. destruct (queue event_id now owner recipient data kind st) as [rq sq] eqn:EQ. pose proof (queue_run _ _ _ _ _ _ _ _ _ _ HO HQ EQ) as HR. destruct rq as [item|e].
    + injection E as <- <-. exists kind. cbv zeta in *. tauto.
    + subst sq. destruct (decide (e = OutboxFull)) as [->|Hne].
      * pose proof (deny_same _ _ _ _ _ _ _ _ E) as HS. destruct r; [|done]. exfalso. unfold deny in E. destruct (record_refusal _ _ _ _ _ st) as [[]?]; discriminate.
      * assert (r = Err e /\ st' = st) as [-> ->] by (destruct e; first [done|by injection E as <- <-]). reflexivity.
  - pose proof (deny_same _ _ _ _ _ _ _ _ E) as HS. destruct r; [|done]. exfalso. unfold deny in E. destruct (record_refusal _ _ _ _ _ st) as [[]?]; discriminate.
Qed.
End ops.
