(* ===== verification/OutboxMachine.v ===== *)
(** * Sends, drops and pushes in any order ([src/src/outbox.rs])

    A send holds no lock while it delivers: it claims the oldest letter in one
    transaction and frees it in another. The machine below interleaves any number of
    sends with pushes, drops, resizes, failures and crashes on one owner's ring. *)

From S2P Require Import Prelude Text Crypto Envelope HistoryCodec Event Revision RevisionGraph Policy Container Authority Snapshot Exchange.
From S2P Require Import Tables KeyStore Signing Aead Clock BridgePackage PrivateBridge BridgeRoster BridgeSafety Pin TreeLaws Ring RingHistory Outbox OutboxLaws.

(** A send between its two transactions. *)
Record Flight := { fl_token : bytes; fl_item : QueuedItem; fl_data : bytes; fl_delivered : bool }.

(** The store, the sends under way, and what happened so far: the claims drawn, the
    letters queued, the letters that left (with whether as sent) and the deliveries. *)
Record System := {
  sy_store : Store;
  sy_flights : list Flight;
  sy_tokens : list bytes;
  sy_pushed : list OutSlot;
  sy_left : list (OutSlot * bool);
  sy_delivered : list (bytes * bytes);
}.
Definition letter (s : OutSlot) : OutSlot := set_claim None s.
Definition delivered (f : Flight) : Flight := {| fl_token := fl_token f; fl_item := fl_item f; fl_data := fl_data f; fl_delivered := true |}.

Section machine.
Context `{C : Crypto} `{CL : Clock} `{HX : Hex} (owner : bytes).

Definition head_slot (st : Store) : option OutSlot := slot_at owner (rg_read_index (ring owner st)) st.

Inductive step : System -> System -> Prop :=
| step_push event_id now recipient data copy item st st' fs ts ps ls ds s :
    push event_id now owner recipient data copy st = (Ok item, st') -> slot_at owner (qi_index item) st' = Some s ->
    step {| sy_store := st; sy_flights := fs; sy_tokens := ts; sy_pushed := ps; sy_left := ls; sy_delivered := ds |}
         {| sy_store := st'; sy_flights := fs; sy_tokens := ts; sy_pushed := ps ++ [s]; sy_left := ls; sy_delivered := ds |}
| step_refuse event_id now recipient data copy e st st' fs ts ps ls ds :
    push event_id now owner recipient data copy st = (Err e, st') ->
    step {| sy_store := st; sy_flights := fs; sy_tokens := ts; sy_pushed := ps; sy_left := ls; sy_delivered := ds |}
         {| sy_store := st'; sy_flights := fs; sy_tokens := ts; sy_pushed := ps; sy_left := ls; sy_delivered := ds |}
| step_claim token now mode item data st st' fs ts ps ls ds :
    claim_head token now owner mode st = (Ok (inl (Some (item, data))), st') -> token ∉ ts ->
    step {| sy_store := st; sy_flights := fs; sy_tokens := ts; sy_pushed := ps; sy_left := ls; sy_delivered := ds |}
         {| sy_store := st'; sy_flights := fs ++ [{| fl_token := token; fl_item := item; fl_data := data; fl_delivered := false |}]; sy_tokens := token :: ts; sy_pushed := ps; sy_left := ls; sy_delivered := ds |}
| step_gate token now mode event_id recipient d e st st' fs ts ps ls ds :
    claim_head token now owner mode st = (Ok (inr (recipient, d)), st) -> deny (A := unit) event_id now owner recipient d st = (Err e, st') ->
    step {| sy_store := st; sy_flights := fs; sy_tokens := ts; sy_pushed := ps; sy_left := ls; sy_delivered := ds |}
         {| sy_store := st'; sy_flights := fs; sy_tokens := ts; sy_pushed := ps; sy_left := ls; sy_delivered := ds |}
| step_deliver st f before after ts ps ls ds :
    fl_delivered f = false ->
    step {| sy_store := st; sy_flights := before ++ f :: after; sy_tokens := ts; sy_pushed := ps; sy_left := ls; sy_delivered := ds |}
         {| sy_store := st; sy_flights := before ++ delivered f :: after; sy_tokens := ts; sy_pushed := ps; sy_left := ls; sy_delivered := ds ++ [(qi_recipient (fl_item f), fl_data f)] |}
| step_fail st st' f before after ts ps ls ds :
    unclaim owner (fl_token f) st = (Ok tt, st') ->
    step {| sy_store := st; sy_flights := before ++ f :: after; sy_tokens := ts; sy_pushed := ps; sy_left := ls; sy_delivered := ds |}
         {| sy_store := st'; sy_flights := before ++ after; sy_tokens := ts; sy_pushed := ps; sy_left := ls; sy_delivered := ds |}
| step_finish event_id now st st' f before after ts ps ls ds :
    fl_delivered f = true -> finish_head event_id (fl_token f) now owner (fl_item f) st = (Ok tt, st') ->
    step {| sy_store := st; sy_flights := before ++ f :: after; sy_tokens := ts; sy_pushed := ps; sy_left := ls; sy_delivered := ds |}
         {| sy_store := st'; sy_flights := before ++ after; sy_tokens := ts; sy_pushed := ps;
            sy_left := ls ++ (if still_ours owner (fl_token f) st then (fun s => (letter s, true)) <$> option_list (head_slot st) else []); sy_delivered := ds |}
| step_crash st f before after ts ps ls ds :
    step {| sy_store := st; sy_flights := before ++ f :: after; sy_tokens := ts; sy_pushed := ps; sy_left := ls; sy_delivered := ds |}
         {| sy_store := st; sy_flights := before ++ after; sy_tokens := ts; sy_pushed := ps; sy_left := ls; sy_delivered := ds |}
| step_drop event_id now mode item st st' fs ts ps ls ds s :
    drop_head event_id now owner mode st = (Ok (Some item), st') -> head_slot st = Some s ->
    step {| sy_store := st; sy_flights := fs; sy_tokens := ts; sy_pushed := ps; sy_left := ls; sy_delivered := ds |}
         {| sy_store := st'; sy_flights := fs; sy_tokens := ts; sy_pushed := ps; sy_left := ls ++ [(letter s, false)]; sy_delivered := ds |}
| step_resize slots r st st' fs ts ps ls ds :
    set_capacity owner slots st = (Ok r, st') ->
    step {| sy_store := st; sy_flights := fs; sy_tokens := ts; sy_pushed := ps; sy_left := ls; sy_delivered := ds |}
         {| sy_store := st'; sy_flights := fs; sy_tokens := ts; sy_pushed := ps; sy_left := ls; sy_delivered := ds |}
| step_elsewhere st st' fs ts ps ls ds :
    (forall q, queue_is owner st q -> queue_is owner st' q) -> outbox_ok st' ->
    step {| sy_store := st; sy_flights := fs; sy_tokens := ts; sy_pushed := ps; sy_left := ls; sy_delivered := ds |}
         {| sy_store := st'; sy_flights := fs; sy_tokens := ts; sy_pushed := ps; sy_left := ls; sy_delivered := ds |}.

(** The deliveries that left the queue as sent. *)
Definition sent_letters (sys : System) : list OutSlot := fst <$> filter (fun p => p.2 = true) (sy_left sys).
#[local] Arguments sent_letters : simpl never.

(** Only the oldest letter is claimed, by a claim that was drawn; a send under way
    holds the letter its claim is on. *)
Record claims_ok (sys : System) (q : Queue) : Prop := {
  ck_rest : Forall (fun s => os_claim s = None) (tail (q_letters q));
  ck_drawn s t : head (q_letters q) = Some s -> fst <$> os_claim s = Some t -> t ∈ sy_tokens sys;
  ck_flights f : f ∈ sy_flights sys -> fl_token f ∈ sy_tokens sys /\ (fl_delivered f = true -> (qi_recipient (fl_item f), fl_data f) ∈ sy_delivered sys) /\
    forall s, head (q_letters q) = Some s -> fst <$> os_claim s = Some (fl_token f) -> fl_item f = item_of s /\ fl_data f = os_content s;
}.

Record accounted (sent0 : N) (sys : System) (q : Queue) : Prop := {
  ac_fifo : sy_pushed sys = map fst (sy_left sys) ++ map letter (q_letters q);
  ac_sent : q_sent q = (sent0 + N.of_nat (length (sent_letters sys)))%N;
  ac_delivered s : s ∈ sent_letters sys -> (os_recipient s, os_content s) ∈ sy_delivered sys;
}.

Definition sys_ok (sent0 : N) (sys : System) : Prop := outbox_ok (sy_store sys) /\ exists q, queue_is owner (sy_store sys) q /\ claims_ok sys q /\ accounted sent0 sys q.

(** ** Every step keeps the account *)

(** A step that moves neither the letters nor the logs. *)
Lemma sys_still sent0 st st' fs ts ps ls ds : (forall q, queue_is owner st q -> queue_is owner st' q) -> outbox_ok st' ->
  sys_ok sent0 {| sy_store := st; sy_flights := fs; sy_tokens := ts; sy_pushed := ps; sy_left := ls; sy_delivered := ds |} ->
  sys_ok sent0 {| sy_store := st'; sy_flights := fs; sy_tokens := ts; sy_pushed := ps; sy_left := ls; sy_delivered := ds |}.
Proof. intros HQ HO (_ & q & Hq & [H1 H2 H3] & [H4 H5 H6]). split; [done|]. exists q. split; [by apply HQ|]. by split; split. Qed.

Lemma sys_same sent0 st st' fs ts ps ls ds : outbox_same st st' ->
  sys_ok sent0 {| sy_store := st; sy_flights := fs; sy_tokens := ts; sy_pushed := ps; sy_left := ls; sy_delivered := ds |} ->
  sys_ok sent0 {| sy_store := st'; sy_flights := fs; sy_tokens := ts; sy_pushed := ps; sy_left := ls; sy_delivered := ds |}.
Proof. intros HS Hok. pose proof Hok as [HO _]. eapply sys_still; [|by eapply outbox_ok_same|exact Hok]. by apply outbox_same_queue. Qed.

(** Sends under way matter only through what they hold. *)
Lemma sys_fewer sent0 st fs fs' ts ps ls ds : (forall f, f ∈ fs' -> f ∈ fs) ->
  sys_ok sent0 {| sy_store := st; sy_flights := fs; sy_tokens := ts; sy_pushed := ps; sy_left := ls; sy_delivered := ds |} ->
  sys_ok sent0 {| sy_store := st; sy_flights := fs'; sy_tokens := ts; sy_pushed := ps; sy_left := ls; sy_delivered := ds |}.
Proof. intros Hf (HO & q & Hq & [H1 H2 H3] & [H4 H5 H6]). split; [done|]. exists q. split; [done|]. split; [|by split]. split; [done|done|]. intros f Hin. by apply H3, Hf. Qed.

Lemma letter_push (s : OutSlot) l : os_claim s = None -> map letter (l ++ [s]) = map letter l ++ [s].
Proof. intros H. rewrite map_app. cbn. f_equal. f_equal. destruct s. cbn in H. by subst. Qed.

Lemma push_kept sent0 event_id now recipient data copy item st st' fs ts ps ls ds s : push event_id now owner recipient data copy st = (Ok item, st') -> slot_at owner (qi_index item) st' = Some s ->
  sys_ok sent0 {| sy_store := st; sy_flights := fs; sy_tokens := ts; sy_pushed := ps; sy_left := ls; sy_delivered := ds |} ->
  sys_ok sent0 {| sy_store := st'; sy_flights := fs; sy_tokens := ts; sy_pushed := ps ++ [s]; sy_left := ls; sy_delivered := ds |}.
Proof.
  intros E Es (HO & q & Hq & [H1 H2 H3] & [H4 H5 H6]). cbn in *. destruct (push_run _ _ _ _ _ _ _ _ _ _ HO Hq E) as (kind & _ & _ & -> & Hlt & HO' & Hq' & _). set (s0 := new_slot _ _ _ _ _ _) in *.
  assert (s = s0) as ->.
  { destruct (queue_letter _ _ _ (length (q_letters q)) s0 Hq') as (k & _ & Hs & _ & Hx); [cbn; by rewrite lookup_app_r, Nat.sub_diag by lia|]. rewrite <- Hx in Hs. cbn [item_of qi_index] in Es. congruence. }
  assert (forall s, head (q_letters q ++ [s0]) = Some s -> (s = s0 /\ q_letters q = []) \/ head (q_letters q) = Some s) as Hhd.
  { intros s. destruct (q_letters q); cbn; [intros [= <-]; by left|by right]. }
  split; [done|]. eexists. split; [exact Hq'|]. split; [split; cbn|split; cbn].
  - destruct (q_letters q) as [|h rest]; cbn in *; [constructor|]. apply Forall_app_2; [done|]. by repeat constructor.
  - intros s t [[-> _]|Hh]%Hhd; [done|by apply H2].
  - intros f Hf. destruct (H3 f Hf) as (Ht & Hd & Hh). split; [done|]. split; [done|]. intros s [[-> _]|Hs]%Hhd; [done|by apply Hh].
  - rewrite H4, <- app_assoc. f_equal. by rewrite letter_push.
  - exact H5.
  - exact H6.
Qed.

Lemma claim_kept sent0 token now mode item data st st' fs ts ps ls ds : claim_head token now owner mode st = (Ok (inl (Some (item, data))), st') -> token ∉ ts ->
  sys_ok sent0 {| sy_store := st; sy_flights := fs; sy_tokens := ts; sy_pushed := ps; sy_left := ls; sy_delivered := ds |} ->
  sys_ok sent0 {| sy_store := st'; sy_flights := fs ++ [{| fl_token := token; fl_item := item; fl_data := data; fl_delivered := false |}]; sy_tokens := token :: ts; sy_pushed := ps; sy_left := ls; sy_delivered := ds |}.
Proof.
  intros E Hfresh (HO & q & Hq & [H1 H2 H3] & [H4 H5 H6]). cbn in *. destruct (claim_head_run _ _ _ _ _ _ _ _ HO Hq E) as (s & rest & EQ & -> & -> & _ & _ & HO' & Hq' & _). rewrite EQ in *.
  split; [done|]. eexists. split; [exact Hq'|]. split; [split; cbn in *|split; cbn in *].
  - exact H1.
  - intros s' t [= <-]. cbn. intros [= <-]. left.
  - intros f [Hf|Hf%list_elem_of_singleton]%elem_of_app.
    + destruct (H3 f Hf) as (Ht & Hd & _). split; [by right|]. split; [done|]. intros s' [= <-]. cbn. intros [= E']. congruence.
    + subst f. cbn. split; [left|]. split; [done|]. intros s' [= <-] _. done.
  - rewrite H4. done.
  - exact H5.
  - exact H6.
Qed.

Lemma deliver_kept sent0 st f before after ts ps ls ds : sys_ok sent0 {| sy_store := st; sy_flights := before ++ f :: after; sy_tokens := ts; sy_pushed := ps; sy_left := ls; sy_delivered := ds |} ->
  sys_ok sent0 {| sy_store := st; sy_flights := before ++ delivered f :: after; sy_tokens := ts; sy_pushed := ps; sy_left := ls; sy_delivered := ds ++ [(qi_recipient (fl_item f), fl_data f)] |}.
Proof.
  intros (HO & q & Hq & [H1 H2 H3] & [H4 H5 H6]). cbn in *. split; [done|]. exists q. split; [done|]. split; [split; cbn in *; [done|done|]|split; cbn in *; [done|done|]].
  - intros g Hg. assert (g = delivered f \/ g ∈ before ++ f :: after) as [->|Hin] by set_solver.
    + destruct (H3 f ltac:(set_solver)) as (Ht & _ & Hh). cbn. split; [done|]. split; [|done]. intros _. apply elem_of_app. right. by apply list_elem_of_singleton.
    + destruct (H3 g Hin) as (Ht & Hd & Hh). split; [done|]. split; [|done]. intros Hdel. apply elem_of_app. left. auto.
  - intros s Hs. apply elem_of_app. left. by apply H6.
Qed.

Lemma map_letter_upd P l : (map letter (map (upd P (set_claim None)) l)) = map letter l.
Proof. rewrite map_map. apply map_ext. intros s. unfold upd. by destruct (P s). Qed.
Lemma head_upd P l s : head (map (upd P (set_claim None)) l) = Some s -> exists s0, head l = Some s0 /\ s = upd P (set_claim None) s0.
Proof. destruct l; [done|]. cbn. intros [= <-]. by eexists. Qed.

Lemma fail_kept sent0 st st' f before after ts ps ls ds : unclaim owner (fl_token f) st = (Ok tt, st') ->
  sys_ok sent0 {| sy_store := st; sy_flights := before ++ f :: after; sy_tokens := ts; sy_pushed := ps; sy_left := ls; sy_delivered := ds |} ->
  sys_ok sent0 {| sy_store := st'; sy_flights := before ++ after; sy_tokens := ts; sy_pushed := ps; sy_left := ls; sy_delivered := ds |}.
Proof.
  intros E (HO & q & Hq & [H1 H2 H3] & [H4 H5 H6]). destruct (unclaim_run owner (fl_token f) st q HO Hq) as (st1 & E1 & HO1 & Hq1 & _). assert (st1 = st') as -> by congruence. clear E E1. cbn in *.
  assert (forall s s0 t, s = upd (claim_is owner (fl_token f)) (set_claim None) s0 -> fst <$> os_claim s = Some t -> s = s0) as Hsame.
  { intros s s0 t -> . unfold upd. by destruct (claim_is _ _ s0). }
  split; [done|]. eexists. split; [exact Hq1|]. split; [split; cbn in *|split; cbn in *].
  - destruct (q_letters q) as [|h rest]; cbn in *; [constructor|]. apply Forall_fmap. eapply Forall_impl; [exact H1|]. intros s Hs. cbn. unfold upd. by destruct (claim_is _ _ s).
  - intros s t (s0 & Hh & Hs)%head_upd Hc. rewrite (Hsame _ _ _ Hs Hc) in Hc. by apply (H2 s0).
  - intros g Hg. destruct (H3 g) as (Ht & Hd & Hh); [set_solver|]. split; [done|]. split; [done|]. intros s (s0 & Hh0 & Hs)%head_upd Hc. pose proof (Hsame _ _ _ Hs Hc) as ->. by apply Hh.
  - by rewrite map_letter_upd.
  - done.
  - done.
Qed.

Lemma sent_snoc st fs ts ps ls ds p : sent_letters {| sy_store := st; sy_flights := fs; sy_tokens := ts; sy_pushed := ps; sy_left := ls ++ [p]; sy_delivered := ds |} =
  sent_letters {| sy_store := st; sy_flights := fs; sy_tokens := ts; sy_pushed := ps; sy_left := ls; sy_delivered := ds |} ++ (if (p : OutSlot * bool).2 then [p.1] else []).
Proof. unfold sent_letters. cbn. rewrite filter_app, fmap_app. f_equal. destruct p as [s []]; done. Qed.

(** A letter leaves: the oldest one. *)
Lemma left_kept sent0 st st' fs fs' ts ps ls ds q s rest (sent : bool) : outbox_ok st' -> queue_is owner st' {| q_capacity := q_capacity q; q_letters := rest; q_sent := q_sent q + (if sent then 1 else 0) |} ->
  q_letters q = s :: rest -> (sent = true -> (os_recipient s, os_content s) ∈ ds) -> (forall f, f ∈ fs' -> f ∈ fs) ->
  claims_ok {| sy_store := st; sy_flights := fs; sy_tokens := ts; sy_pushed := ps; sy_left := ls; sy_delivered := ds |} q ->
  accounted sent0 {| sy_store := st; sy_flights := fs; sy_tokens := ts; sy_pushed := ps; sy_left := ls; sy_delivered := ds |} q ->
  sys_ok sent0 {| sy_store := st'; sy_flights := fs'; sy_tokens := ts; sy_pushed := ps; sy_left := ls ++ [(letter s, sent)]; sy_delivered := ds |}.
Proof.
  intros HO Hq EQ Hdel Hf [H1 H2 H3] [H4 H5 H6]. rewrite EQ in *. cbn in *. assert (forall s', head rest = Some s' -> os_claim s' = None) as Hno.
  { intros s' Hs'. destruct rest; [done|]. injection Hs' as ->. by apply Forall_cons in H1 as [? _]. }
  split; [done|]. eexists. split; [exact Hq|]. split; [split; cbn|split; cbn].
  - destruct rest; [constructor|]. by apply Forall_cons in H1 as [_ ?].
  - intros s' t Hs'. by rewrite (Hno s' Hs').
  - intros f Hin. destruct (H3 f (Hf f Hin)) as (Ht & Hd & _). split; [done|]. split; [done|]. intros s' Hs'. by rewrite (Hno s' Hs').
  - rewrite H4, map_app, <- app_assoc. done.
  - rewrite sent_snoc. cbn. rewrite length_app, H5. unfold sent_letters. cbn. destruct sent; cbn; lia.
  - intros s'. rewrite sent_snoc. cbn. destruct sent; [|rewrite app_nil_r; apply H6]. intros [Hin|E%list_elem_of_singleton]%elem_of_app; [by apply H6|]. subst s'. by apply Hdel.
Qed.

Lemma head_slot_queue st q : ring_ok OutboxRing st -> queue_is owner st q -> forall s rest, q_letters q = s :: rest -> head_slot st = Some s.
Proof. intros HO HQ s rest EQ. by destruct (queue_head _ _ _ _ _ HO HQ EQ) as (_ & ? & _). Qed.

Lemma finish_kept sent0 event_id now st st' f before after ts ps ls ds : fl_delivered f = true -> finish_head event_id (fl_token f) now owner (fl_item f) st = (Ok tt, st') ->
  sys_ok sent0 {| sy_store := st; sy_flights := before ++ f :: after; sy_tokens := ts; sy_pushed := ps; sy_left := ls; sy_delivered := ds |} ->
  sys_ok sent0 {| sy_store := st'; sy_flights := before ++ after; sy_tokens := ts; sy_pushed := ps;
    sy_left := ls ++ (if still_ours owner (fl_token f) st then (fun s => (letter s, true)) <$> option_list (head_slot st) else []); sy_delivered := ds |}.
Proof.
  intros Hdel E Hok. pose proof Hok as (HO & q & Hq & HC & HA). cbn [sy_store] in *. destruct (finish_head_run _ _ _ _ _ _ _ _ _ HO Hq E) as (HO' & _ & Hq'). rewrite (still_ours_queue _ _ _ q (ob_ring _ HO) Hq).
  assert (forall g, g ∈ before ++ after -> g ∈ before ++ f :: after) as Hsub by set_solver.
  destruct (head_claimed (fl_token f) q) eqn:EH.
  - pose proof EH as EH0. unfold head_claimed in EH0. destruct (q_letters q) as [|s rest] eqn:EQ; [done|]. destruct (os_claim s) as [[t c]|] eqn:Ec; [|done]. apply bool_decide_eq_true in EH0 as ->.
    rewrite (head_slot_queue st q (ob_ring _ HO) Hq s rest EQ). cbn [tail] in Hq'. cbn. eapply (left_kept sent0 st st' _ _ _ _ _ _ q s rest true); [done|done|done| |exact Hsub|exact HC|exact HA].
    intros _. destruct (ck_flights _ _ HC f) as (_ & Hd & Hh); [cbn; set_solver|]. cbn in Hd, Hh. destruct (Hh s) as [Hi Hx]; [by rewrite EQ|by rewrite Ec|]. specialize (Hd Hdel). by rewrite Hi, Hx in Hd.
  - rewrite app_nil_r. eapply sys_fewer; [exact Hsub|]. eapply sys_still; [|done|exact Hok]. intros q0 Hq0. rewrite (queue_unique _ _ _ _ Hq0 Hq). exact Hq'.
Qed.

Lemma drop_kept sent0 event_id now mode item st st' fs ts ps ls ds s : drop_head event_id now owner mode st = (Ok (Some item), st') -> head_slot st = Some s ->
  sys_ok sent0 {| sy_store := st; sy_flights := fs; sy_tokens := ts; sy_pushed := ps; sy_left := ls; sy_delivered := ds |} ->
  sys_ok sent0 {| sy_store := st'; sy_flights := fs; sy_tokens := ts; sy_pushed := ps; sy_left := ls ++ [(letter s, false)]; sy_delivered := ds |}.
Proof.
  intros E Hs (HO & q & Hq & HC & HA). cbn [sy_store] in *. destruct (drop_head_run _ _ _ _ _ _ _ _ HO Hq E) as (s0 & rest & EQ & _ & HO' & _ & Hq').
  rewrite (head_slot_queue st q (ob_ring _ HO) Hq s0 rest EQ) in Hs. injection Hs as ->. eapply (left_kept sent0 st st' fs fs _ _ _ _ q s rest false); [done|by rewrite N.add_0_r|done|done|done|exact HC|exact HA].
Qed.

Lemma resize_kept sent0 slots r st st' fs ts ps ls ds : set_capacity owner slots st = (Ok r, st') ->
  sys_ok sent0 {| sy_store := st; sy_flights := fs; sy_tokens := ts; sy_pushed := ps; sy_left := ls; sy_delivered := ds |} ->
  sys_ok sent0 {| sy_store := st'; sy_flights := fs; sy_tokens := ts; sy_pushed := ps; sy_left := ls; sy_delivered := ds |}.
Proof.
  intros E (HO & q & Hq & [H1 H2 H3] & [H4 H5 H6]). cbn [sy_store] in *. destruct (set_capacity_run _ _ _ _ _ _ HO Hq E) as (EQ & _ & HO' & _ & Hq'). rewrite EQ in *. split; [done|]. eexists. split; [exact Hq'|]. by split; split.
Qed.

Lemma step_kept sent0 sys sys' : step sys sys' -> sys_ok sent0 sys -> sys_ok sent0 sys'.
Proof.
  intros Hstep Hok. destruct Hstep.
  - by eapply push_kept.
  - eapply sys_same; [|exact Hok]. destruct Hok as (HO & q & Hq & _). exact (push_run _ _ _ _ _ _ _ _ _ _ HO Hq H).
  - by eapply claim_kept.
  - eapply sys_same; [|exact Hok]. by eapply deny_same.
  - by apply deliver_kept.
  - by eapply fail_kept.
  - by eapply finish_kept.
  - eapply sys_fewer; [|exact Hok]. set_solver.
  - by eapply drop_kept.
  - by eapply resize_kept.
  - by eapply sys_still.
Qed.

Lemma run_kept sent0 sys sys' : rtc step sys sys' -> sys_ok sent0 sys -> sys_ok sent0 sys'.
Proof. induction 1 as [|a b c Hab Hbc IH]; [done|]. intros Hok. by eapply IH, step_kept. Qed.

(** Nothing queued, sent or claimed yet but what the store holds. *)
Definition initial (st : Store) (q : Queue) : System :=
  {| sy_store := st; sy_flights := []; sy_tokens := omap (fun s => fst <$> os_claim s) (q_letters q); sy_pushed := map letter (q_letters q); sy_left := []; sy_delivered := [] |}.

Lemma initial_ok st q : outbox_ok st -> queue_is owner st q -> Forall (fun s => os_claim s = None) (tail (q_letters q)) -> sys_ok (q_sent q) (initial st q).
Proof.
  intros HO HQ HT. split; [done|]. exists q. split; [done|]. split; [split; cbn|split; cbn]; try done.
  - intros s t Hh Hc. apply list_elem_of_omap. exists s. split; [|done]. destruct (q_letters q); [done|]. injection Hh as ->. left.
  - intros f Hf. by apply not_elem_of_nil in Hf.
  - unfold sent_letters. cbn. lia.
  - intros s Hs. by apply not_elem_of_nil in Hs.
Qed.

(** C22: however sends, taken-over sends, pushes, drops, resizes, failures and crashes
    interleave on a ring, the letters queued are those that left, in order, followed by
    those it still holds: none is lost, none leaves twice and none overtakes another.
    The ring holds no more than its capacity, [sent_total] counts exactly the letters
    that left as sent, and each of those was delivered to its recipient. *)
Theorem outbox_exactly_once st q sys : outbox_ok st -> queue_is owner st q -> Forall (fun s => os_claim s = None) (tail (q_letters q)) -> rtc step (initial st q) sys ->
  exists q', queue_is owner (sy_store sys) q' /\ sy_pushed sys = map fst (sy_left sys) ++ map letter (q_letters q') /\ length (q_letters q') <= q_capacity q' <= MAX_CAPACITY /\
    q_sent q' = (q_sent q + N.of_nat (length (sent_letters sys)))%N /\ (forall s, s ∈ sent_letters sys -> (os_recipient s, os_content s) ∈ sy_delivered sys) /\
    list_items owner (sy_store sys) = Ok (map item_of (q_letters q')).
Proof.
  intros HO HQ HT Hrun. assert (sys_ok (q_sent q) sys) as (HO' & q' & Hq' & _ & [HA1 HA2 HA3]).
  { eapply run_kept; [exact Hrun|]. by apply initial_ok. }
  exists q'. split_and!; try done; [by apply (queue_bounded owner (sy_store sys) q' (ob_ring _ HO') Hq')..|by apply list_queue].
Qed.
End machine.
