(* ===== verification/OutboxClaims.v ===== *)
(** * What the outbox promises ([src/src/outbox.rs])

    Which letters are queued, which are handed to a delivery, what is kept of those
    turned away, and that the owner's timeline records it all. *)

From S2P Require Import Prelude Text Crypto Envelope HistoryCodec Event Revision RevisionGraph Policy Container Authority Snapshot Exchange.
From S2P Require Import Tables KeyStore Signing Aead Clock BridgePackage PrivateBridge BridgeRoster BridgeSafety Pin TreeLaws Ring RingHistory Outbox OutboxLaws.

(** ** Which letters depart *)

(** A letter of [owner] to [recipient] that may depart: no larger than allowed, a whole
    letter between people, sealed to an active key of the recipient, and, for a letter
    about a tracked file, in the order of its exchange. *)
Definition admissible (owner recipient data : bytes) (copy : option (TrackedFile * Visa)) (st : Store) (kind : byte) : Prop :=
  (N.of_nat (length data) <= MAX_ITEM_BYTES)%N /\
  exists sealed_to body, parse_outer data = Ok (kind, sealed_to, body) /\ is_device_workflow_kind kind = false /\
    (exists k, k ∈ st_hardware st /\ hk_label k = recipient /\ hk_key_type k = Encryption /\ hk_revoked k = false /\ hk_public_key k = sealed_to) /\
    match for_kind kind with
    | None | Some RequestStep => True
    | Some step => exists f visa, copy = Some (f, visa) /\ step_met f owner recipient step visa
    end.

Lemma is_trusted_spec recipient sealed_to st : is_trusted recipient sealed_to st = true <->
  exists k, k ∈ st_hardware st /\ hk_label k = recipient /\ hk_key_type k = Encryption /\ hk_revoked k = false /\ hk_public_key k = sealed_to.
Proof.
  unfold is_trusted, is_active_key, active_keys_for. rewrite existsb_elem. split.
  - intros (k & [Ha Hk]%list_elem_of_filter & Hp%bool_decide_eq_true). unfold active_for in Ha. exists k. bool_hyps. naive_solver.
  - intros (k & Hk & H1 & H2 & H3 & H4). exists k. rewrite bool_decide_eq_true. split; [|done]. apply list_elem_of_filter. split; [|done]. unfold active_for. by rewrite !bool_decide_true, H3.
Qed.

Lemma require_step_Err f owner peer step visa e : require_step f owner peer step visa = Err e -> e = ExchangeOutOfOrder (missing_before step visa peer).
Proof. unfold require_step. by destruct (step_ok f owner peer step visa); intros [= <-]. Qed.

Lemma step_met_dec f owner peer step visa : require_step f owner peer step visa = Ok tt <-> step_met f owner peer step visa.
Proof. unfold require_step. rewrite <- step_ok_spec. by destruct (step_ok f owner peer step visa). Qed.

Lemma departure_check_spec owner recipient data copy st kind : departure_check owner recipient data copy st = inl kind <-> admissible owner recipient data copy st kind.
Proof.
  unfold departure_check, admissible, passport. setoid_rewrite <- is_trusted_spec. destruct (N.ltb_spec MAX_ITEM_BYTES (N.of_nat (length data))) as [Hl|Hl]; [split; [done|intros [? _]; lia]|].
  destruct (parse_outer data) as [[[k pk] body]|e] eqn:EP; [|split; [done|]; intros (_ & pk' & body' & E & _); discriminate].
  destruct (is_device_workflow_kind k) eqn:ED; [split; [done|]; intros (_ & pk' & body' & E & Hd & _); injection E as -> _ _; congruence|]. destruct (is_trusted recipient pk st) eqn:ET; [|split; [done|]; intros (_ & pk' & body' & E & _ & Ht & _); injection E as _ -> _; congruence]. cbn [negb].
  assert (forall P Q : Prop, (P <-> Q) -> (P <-> (N.of_nat (length data) <= MAX_ITEM_BYTES)%N /\ Q)) as Hand by tauto. apply Hand. clear Hand.
  transitivity (kind = k /\ match for_kind k with None | Some RequestStep => True | Some step => exists f visa, copy = Some (f, visa) /\ step_met f owner recipient step visa end).
  - destruct (for_kind k) as [step|]; [|naive_solver]. assert (step <> RequestStep ->
      (match match copy with Some (f, visa) => match require_step f owner recipient step visa with Err (ExchangeOutOfOrder missing) => Some missing | _ => None end
             | None => Some (str "a " ++ step_name step ++ str " needs your copy of the file it concerns, so its order can be checked") end
       with Some missing => inr {| dl_refusal := OutOfOrder; dl_kind := Some k; dl_step := Some missing |} | None => inl k end = inl kind) <->
      kind = k /\ exists f visa, copy = Some (f, visa) /\ step_met f owner recipient step visa) as Hs; [|destruct step; [naive_solver|by apply Hs..]].
    intros _. destruct copy as [[f visa]|]; [|naive_solver]. destruct (require_step f owner recipient step visa) as [[]|e] eqn:ER.
    + apply step_met_dec in ER. split; [intros [= <-]; eauto 6|]. by intros [-> _].
    + apply require_step_Err in ER as He. subst e. split; [done|]. intros (_ & f' & visa' & E & HM). injection E as <- <-. apply step_met_dec in HM. congruence.
  - split.
    + intros [-> H]. exists pk, body. done.
    + intros (pk' & body' & E & Hd & Ht & H). injection E as -> -> ->. done.
Qed.

Section claims.
Context `{C : Crypto} `{CL : Clock} `{HX : Hex} `{!CryptoLaws C} `{!ClockLaws CL}.

(** The timeline has room for the event of this letter. *)
Record timeline_room (event_id : bytes) (now : Z) (owner recipient data : bytes) (st : Store) : Prop := {
  tr_ok : timelines_ok st;
  tr_id : fixed 16 event_id;
  tr_length es : chain_of st (timeline_id (OutboxLine owner)) es -> (N.of_nat (length es) + 1 < i64_max)%N;
  tr_fits kind : recordable now E.LetterQueued Success (Some owner) (slot_details (item_of (new_slot now owner recipient data kind (rg_write_index (ring owner st)))));
}.

Lemma chain_of_same st st' id es : rt_histories (st_rings st') = rt_histories (st_rings st) -> rt_events (st_rings st') = rt_events (st_rings st) -> chain_of st id es -> chain_of st' id es.
Proof. intros E1 E2 [HR HH]. split; [unfold event_rows; by rewrite E2|]. unfold history_row. by rewrite E1. Qed.

Lemma queue_total event_id now owner recipient data kind st q : outbox_ok st -> queue_is owner st q -> timeline_room event_id now owner recipient data st -> length (q_letters q) < q_capacity q ->
  exists item st', queue event_id now owner recipient data kind st = (Ok item, st').
Proof.
  intros HO HQ [[HT1 HT2] Hid Hlen Hfit] Hfree. unfold queue, transaction.
  destruct (fill_run now owner recipient data kind st q (fun r => item ← query (fun st => ok_or (item_at owner (rg_write_index r) st) IntegrityCheckFailed);
      timeline event_id now owner E.LetterQueued Success (slot_details item) ≫= fun _ => mret item) HO HQ Hfree) as (s3 & E3 & Hs3 & _ & _ & _ & Eh & Ee). rewrite E3. clear E3.
  set (item := item_of (new_slot now owner recipient data kind (rg_write_index (ring owner st)))). rewrite (dbM_step _ _ s3 item s3) by (unfold query, item_at; by rewrite Hs3).
  destruct (HT2 (timeline_id (OutboxLine owner))) as [es HC]. destruct (record_total event_id now (OutboxLine owner) E.LetterQueued Success (Some owner) (slot_details item) s3 es) as (s4 & E4).
  - unfold histories_ok. by rewrite Eh.
  - by eapply chain_of_same.
  - done.
  - apply Hfit.
  - by apply Hlen.
  - unfold timeline. rewrite (dbM_step _ _ _ _ _ E4). by eexists _, _.
Qed.

(** a letter is queued exactly when its owner is a person the store knows, the
    letter may depart (whole, no device letter, not too large, sealed to an active key
    of the recipient, in the order of its exchange), and the ring has a free slot.
    Queued, it is the newest letter, held byte for byte; otherwise no ring changes. *)
Theorem push_exact event_id now owner recipient data copy st q : outbox_ok st -> queue_is owner st q -> timeline_room event_id now owner recipient data st ->
  let out := push event_id now owner recipient data copy st in
  (is_ok (out.1) = true <-> require_owner owner st = Ok tt /\ (exists kind, admissible owner recipient data copy st kind) /\ length (q_letters q) < q_capacity q) /\
  (is_ok (out.1) = true -> exists s, queue_is owner (out.2) {| q_capacity := q_capacity q; q_letters := q_letters q ++ [s]; q_sent := q_sent q |} /\
     os_owner s = owner /\ os_recipient s = recipient /\ os_content s = data /\ os_claim s = None) /\
  (is_ok (out.1) = false -> outbox_same st (out.2)) /\ others owner st (out.2).
Proof.
  intros HO HQ HT. cbv zeta. destruct (push event_id now owner recipient data copy st) as [r st'] eqn:E. cbn [fst snd]. pose proof (push_run _ _ _ _ _ _ _ _ _ _ HO HQ E) as HR.
  destruct r as [item|e]; cbn [is_ok].
  - destruct HR as (kind & H1 & H2 & -> & Hlt & HO' & HQ' & Hoth). split; [split; [|done]; intros _; split; [done|]; split; [exists kind; by apply departure_check_spec|done]|]. split; [|done]. intros _. eexists. split; [exact HQ'|]. done.
  - split; [|split; [done|split; [done|intros k q' _; by apply (proj1 (outbox_same_queue _ _ HR))]]]. split; [done|]. intros (H1 & (kind & H2%departure_check_spec) & Hlt). exfalso.
    unfold push in E. rewrite (dbM_step _ _ st tt st) in E by (unfold query; by rewrite H1). rewrite (dbM_step _ _ st (inl kind) st) in E by (unfold query; by rewrite H2).
    destruct (queue_total event_id now owner recipient data kind st q HO HQ HT Hlt) as (item & s1 & EQ). unfold queue_or_deny in E. rewrite EQ in E. discriminate.
Qed.

(** ** What a send hands out *)

Lemma claim_refused token now owner mode st q s rest refusal : outbox_ok st -> queue_is owner st q -> q_letters q = s :: rest -> gate_verdict s st = Some refusal ->
  (mode = Respect -> freshly_claimed now owner (rg_read_index (ring owner st)) st = false) -> claim_head token now owner mode st = (Ok (inr (os_recipient s, denied_new refusal (Some (os_kind s)))), st).
Proof.
  intros HO HQ EQ EV HF. destruct (queue_head _ _ _ _ _ (ob_ring _ HO) HQ EQ) as (He & Hs & _). unfold claim_head, transaction. rewrite (dbM_step _ _ st (ring owner st) st) by done. rewrite bool_decide_false by done.
  rewrite (dbM_step _ _ st (freshly_claimed now owner (rg_read_index (ring owner st)) st) st) by done. assert (bool_decide (mode = Respect) && freshly_claimed now owner (rg_read_index (ring owner st)) st = false) as ->.
  { destruct mode; [rewrite HF by done; apply andb_false_r|done]. }
  rewrite (dbM_step _ _ st s st) by (unfold query; by rewrite Hs). rewrite (dbM_step _ _ st (gate_verdict s st) st) by done. by rewrite EV.
Qed.

(** What the gate lets through: the letter that was queued, short of a collision, still
    sealed to an active key of its recipient. *)
Definition passes_gate (s : OutSlot) (st : Store) : Prop :=
  hex_encode (sha256 (os_content s)) = os_content_hash s /\
  exists kind sealed_to body, parse_outer (os_content s) = Ok (kind, sealed_to, body) /\ is_device_workflow_kind kind = false /\ is_trusted (os_recipient s) sealed_to st = true.
Lemma gate_verdict_spec s st : gate_verdict s st = None <-> passes_gate s st.
Proof.
  unfold gate_verdict, passes_gate, passport. case_bool_decide as Hh; cbn [negb]; [|split; [done|intros [? _]; done]]. destruct (parse_outer (os_content s)) as [[[k pk] body]|e]; [|split; [done|intros (_ & ? & ? & ? & ? & _); done]].
  destruct (is_device_workflow_kind k) eqn:ED; [split; [done|]; intros (_ & ? & ? & ? & E & Hd & _); injection E as -> _ _; congruence|]. destruct (is_trusted (os_recipient s) pk st) eqn:ET; cbn [negb].
  - split; [|done]. intros _. split; [done|]. by exists k, pk, body.
  - split; [done|]. intros (_ & ? & ? & ? & E & _ & Ht). injection E as _ -> _. congruence.
Qed.

Lemma unclaim_letters owner token st st1 q : outbox_ok st -> queue_is owner st q -> unclaim owner token st = (Ok tt, st1) ->
  exists q1, queue_is owner st1 q1 /\ q_capacity q1 = q_capacity q /\ q_sent q1 = q_sent q /\ map (set_claim None) (q_letters q1) = map (set_claim None) (q_letters q) /\ head_claimed token q1 = false.
Proof.
  intros HO HQ E. destruct (unclaim_run owner token st q HO HQ) as (st2 & E2 & _ & HQ2 & _). assert (st2 = st1) as -> by congruence. eexists. split; [exact HQ2|]. split; [done|]. split; [done|]. cbn. split.
  - rewrite map_map. apply map_ext. intros s. unfold upd. by destruct (claim_is owner token s).
  - unfold head_claimed. cbn. destruct (q_letters q) as [|s rest] eqn:EQ; [done|]. cbn. unfold upd. destruct (claim_is owner token s) eqn:EC; [done|].
    destruct (queue_letter owner st q 0 s HQ) as (k & _ & _ & Ho & _); [by rewrite EQ|]. unfold claim_is in EC. rewrite bool_decide_true in EC by done. exact EC.
Qed.

(** A failure frees the claim and nothing else. *)
Lemma or_unclaim_Err {A} owner token (m : dbM A) st e st1 q : m st = (Err e, st1) -> outbox_ok st1 -> queue_is owner st1 q ->
  exists st2 q2, or_unclaim owner token m st = (Err e, st2) /\ outbox_ok st2 /\ queue_is owner st2 q2 /\ q_capacity q2 = q_capacity q /\
    map (set_claim None) (q_letters q2) = map (set_claim None) (q_letters q) /\ q_sent q2 = q_sent q /\ head_claimed token q2 = false.
Proof.
  intros E HO HQ. destruct (unclaim_run owner token st1 q HO HQ) as (st2 & E2 & HO2 & _). destruct (unclaim_letters _ _ _ _ _ HO HQ E2) as (q2 & HQ2 & H1 & H2 & H3 & H4).
  exists st2, q2. split; [unfold or_unclaim; by rewrite E, E2|]. by split_and!.
Qed.

(** C23: a send, with nothing else touching the ring meanwhile, hands out the oldest
    letter and no other, and only one that is as it was queued and still sealed to an
    active key of its recipient; it is freed and counted once its delivery succeeded
    and was recorded. A send that is refused or fails keeps every letter, in order, and
    leaves no claim of its own. *)
Theorem send_delivers_oldest event_id nonce claimed_at sent_at owner mode deliver st q r st' : outbox_ok st -> queue_is owner st q ->
  (forall item data, respects outbox_same (deliver item data)) -> head_claimed (hex_encode nonce) q = false -> send_head event_id nonce claimed_at sent_at owner mode deliver st = (r, st') ->
  outbox_ok st' /\ exists q', queue_is owner st' q' /\ q_capacity q' = q_capacity q /\
  match r with
  | Ok (Some item) => exists s rest st1 st2, q_letters q = s :: rest /\ item = item_of s /\ passes_gate s st /\ deliver item (os_content s) st1 = (Ok tt, st2) /\ q_letters q' = rest /\ q_sent q' = (q_sent q + 1)%N
  | Ok None => q_letters q = [] /\ q' = q
  | Err _ => map (set_claim None) (q_letters q') = map (set_claim None) (q_letters q) /\ q_sent q' = q_sent q /\ head_claimed (hex_encode nonce) q' = false
  end.
Proof.
  intros HO HQ Hdel Hno E. unfold send_head in E. cbv zeta in E. set (token := hex_encode nonce) in *. destruct (claim_head token claimed_at owner mode st) as [rc s1] eqn:EC. pose proof (claim_head_run _ _ _ _ _ _ _ _ HO HQ EC) as HC.
  destruct rc as [[[[item data]|]|[recipient d]]|e].
  - destruct HC as (s & rest & EQ & -> & -> & EV & _ & HO1 & HQ1 & _). rewrite (dbM_step _ _ _ _ _ EC) in E. clear EC. cbn beta iota in E.
    destruct (deliver (item_of s) (os_content s) s1) as [[[]|e] s2] eqn:ED; pose proof (Hdel _ _ _ _ _ ED) as HS2.
    + rewrite (dbM_step _ _ s1 tt s2) in E by (unfold or_unclaim; by rewrite ED). assert (outbox_ok s2) as HO2 by (by eapply outbox_ok_same). apply (proj1 (outbox_same_queue _ _ HS2)) in HQ1 as HQ2.
      destruct (finish_head event_id token sent_at owner (item_of s) s2) as [rf s3] eqn:EF. pose proof (finish_head_run _ _ _ _ _ _ _ _ _ HO2 HQ2 EF) as HF. destruct rf as [[]|e].
      * rewrite (dbM_step _ _ s2 tt s3) in E by (unfold or_unclaim; by rewrite EF). injection E as <- <-. destruct HF as (HO3 & _ & HQ3). unfold head_claimed in HQ3. cbn in HQ3. rewrite bool_decide_true in HQ3 by done.
        split; [done|]. eexists. split; [exact HQ3|]. split; [done|]. exists s, rest, s1, s2. split_and!; try done. by apply gate_verdict_spec.
      * subst s3. destruct (or_unclaim_Err owner token _ _ _ _ _ EF HO2 HQ2) as (s4 & q4 & E4 & HO4 & HQ4 & H1 & H2 & H3 & H4). rewrite (dbM_fail _ _ _ _ _ E4) in E. injection E as <- <-.
        split; [done|]. exists q4. rewrite H2, EQ. done.
    + assert (outbox_ok s2) as HO2 by (by eapply outbox_ok_same). apply (proj1 (outbox_same_queue _ _ HS2)) in HQ1 as HQ2.
      destruct (or_unclaim_Err owner token _ _ _ _ _ ED HO2 HQ2) as (s4 & q4 & E4 & HO4 & HQ4 & H1 & H2 & H3 & H4). rewrite (dbM_fail _ _ _ _ _ E4) in E. injection E as <- <-.
      split; [done|]. exists q4. rewrite H2, EQ. done.
  - destruct HC as [EQ ->]. rewrite (dbM_step _ _ _ _ _ EC) in E. injection E as <- <-. split; [done|]. by exists q.
  - destruct HC as [_ ->]. rewrite (dbM_step _ _ _ _ _ EC) in E. cbn beta iota in E. pose proof (deny_same _ _ _ _ _ _ _ _ E) as HS. destruct r as [o|e]; [exfalso; unfold deny in E; destruct (record_refusal _ _ _ _ _ st) as [[]?]; discriminate|].
    split; [by eapply outbox_ok_same|]. exists q. split; [by apply (proj1 (outbox_same_queue _ _ HS))|done].
  - subst s1. rewrite (dbM_fail _ _ _ _ _ EC) in E. injection E as <- <-. split; [done|]. by exists q.
Qed.

(** ** The letters turned away *)

Definition of_owner (owner : bytes) (rows : list RefusalRow) : list RefusalRow := filter (fun r => rf_owner r = owner) rows.
(** Rows are in the order of their ids, and no owner has more than are kept. *)
Record refusals_ok (st : Store) : Prop := {
  rk_order : StronglySorted (fun a b => rf_id a < rf_id b) (rt_refusals (st_rings st));
  rk_bound owner : length (of_owner owner (rt_refusals (st_rings st))) <= MAX_REFUSALS_KEPT;
}.

#[local] Instance newer_total : Total newer.
Proof. intros a b. unfold newer. lia. Qed.
#[local] Instance newer_trans : Transitive newer.
Proof. intros a b c. unfold newer. lia. Qed.

Lemma StronglySorted_filter {A} (R : A -> A -> Prop) (P : A -> Prop) `{!forall x, Decision (P x)} l : StronglySorted R l -> StronglySorted R (filter P l).
Proof.
  induction 1 as [|a l HS IH HF]; [constructor|]. destruct (decide (P a)); [rewrite filter_cons_True by done|by rewrite filter_cons_False]. constructor; [done|]. apply Forall_forall. intros b [_ Hb]%list_elem_of_filter.
  rewrite Forall_forall in HF. by apply HF.
Qed.
Lemma StronglySorted_reverse {A} (R : A -> A -> Prop) l : StronglySorted R l -> StronglySorted (flip R) (reverse l).
Proof.
  induction 1 as [|x l HS IH HF]; [constructor|]. rewrite reverse_cons. apply StronglySorted_app. split_and!; [|done|repeat constructor]. intros a b Ha Hb%list_elem_of_singleton. subst b. rewrite elem_of_reverse in Ha.
  rewrite Forall_forall in HF. unfold flip. by apply HF.
Qed.

Lemma sorted_ids_eq rows a b : StronglySorted (fun a b => rf_id a < rf_id b) rows -> a ∈ rows -> b ∈ rows -> rf_id a = rf_id b -> a = b.
Proof.
  induction 1 as [|x l HS IH HF]; [by intros ?%not_elem_of_nil|]. rewrite Forall_forall in HF. intros [->|Ha]%elem_of_cons [->|Hb]%elem_of_cons E; [done|specialize (HF b Hb); lia|specialize (HF a Ha); lia|by apply IH].
Qed.

(** With rows in order, the newest are the last. *)
Lemma newest_spec owner n rows : StronglySorted (fun a b => rf_id a < rf_id b) rows -> newest owner n rows = take n (reverse (of_owner owner rows)).
Proof.
  intros HS. unfold newest. f_equal. fold (of_owner owner rows). apply (StronglySorted_filter _ (fun r => rf_owner r = owner)) in HS. fold (of_owner owner rows) in HS. apply (Sorted_unique_strong newer).
  - intros a b Ha Hb H1 H2. rewrite merge_sort_Permutation in Ha. rewrite elem_of_reverse in Hb. unfold newer in *. apply (sorted_ids_eq _ _ _ HS); [done|done|lia].
  - apply (Sorted_merge_sort newer).
  - apply StronglySorted_Sorted. apply StronglySorted_reverse in HS. induction HS as [|a l HS IH HF]; constructor; [done|]. eapply Forall_impl; [exact HF|]. intros b Hb. unfold newer, flip in *. lia.
  - by rewrite merge_sort_Permutation, reverse_Permutation.
Qed.

Definition refusal_row (id : nat) (now : Z) (owner recipient : bytes) (d : DeniedLetter) : RefusalRow :=
  {| rf_id := id; rf_owner := owner; rf_recipient := recipient; rf_kind := dl_kind d; rf_step := dl_step d; rf_rule := dl_refusal d; rf_refused_at := timestamp now |}.

(** Keeping the ids of the newest keeps the newest. *)
Lemma keep_newest n (l : list RefusalRow) : StronglySorted (fun a b => rf_id a < rf_id b) l -> reverse (filter (fun r => rf_id r ∈ map rf_id (take n (reverse l))) l) = take n (reverse l).
Proof.
  intros HS. rewrite <- filter_reverse. assert (NoDup (map rf_id (reverse l))) as HN.
  { rewrite (reverse_Permutation l). induction HS as [|a l HS IH HF]; cbn; constructor; [|done]. intros (b & Eb & Hb)%list_elem_of_fmap. rewrite Forall_forall in HF. specialize (HF b Hb). lia. }
  revert HN. generalize (reverse l) as m. clear. intros m HN. revert n. induction m as [|a m IH]; intros n; [by rewrite take_nil|]. cbn in HN. apply NoDup_cons in HN as [Ha HN]. destruct n as [|n].
  - apply list_nil_no_elem. intros r [Hr _]%list_elem_of_filter. by apply not_elem_of_nil in Hr.
  - cbn [take map]. rewrite filter_cons_True by (cbn; left). f_equal. transitivity (filter (fun r => rf_id r ∈ map rf_id (take n m)) m); [|by apply IH]. apply list_filter_iff_in. intros r Hr. cbn. rewrite elem_of_cons. split; [|by right]. intros [E|]; [|done]. destruct Ha. rewrite <- E. by apply list_elem_of_fmap_2.
Qed.

Lemma next_refusal rows r : r ∈ rows -> rf_id r < next_id rf_id rows.
Proof. intros Hr. unfold next_id. apply Nat.lt_succ_r, max_list_elem_of_le. by apply list_elem_of_fmap_2. Qed.

Lemma insert_prune_run now owner recipient d st : refusals_ok st ->
  exists st', (insert_refusal now owner recipient d ≫= fun _ => prune_refusals owner) st = (Ok tt, st') /\ refusals_ok st' /\
    refusals owner MAX_REFUSALS_KEPT st' = take MAX_REFUSALS_KEPT (refusal_row (next_id rf_id (rt_refusals (st_rings st))) now owner recipient d :: refusals owner MAX_REFUSALS_KEPT st) /\
    (forall other, other <> owner -> of_owner other (rt_refusals (st_rings st')) = of_owner other (rt_refusals (st_rings st))).
Proof.
  intros [HS HB]. set (rows := rt_refusals (st_rings st)) in *. set (row := refusal_row (next_id rf_id rows) now owner recipient d). set (rows1 := rows ++ [row]).
  assert (StronglySorted (fun a b => rf_id a < rf_id b) rows1) as HS1.
  { apply StronglySorted_app. split_and!; [|done|repeat constructor]. intros a b Ha Hb%list_elem_of_singleton. subst b. by apply next_refusal. }
  set (kept := filter (fun r => rf_owner r <> owner \/ rf_id r ∈ map rf_id (newest owner MAX_REFUSALS_KEPT rows1)) rows1).
  eexists. split; [reflexivity|]. unfold refusals. cbn [st_rings set_rings rt_refusals set_rt_refusals]. fold rows. fold row. fold rows1. fold kept.
  assert (StronglySorted (fun a b => rf_id a < rf_id b) kept) as HSk by (by apply StronglySorted_filter).
  assert (of_owner owner rows1 = of_owner owner rows ++ [row]) as E1 by (unfold of_owner, rows1; by rewrite filter_app, filter_cons_True).
  assert (reverse (of_owner owner kept) = take MAX_REFUSALS_KEPT (reverse (of_owner owner rows1))) as Ek.
  { rewrite <- (keep_newest MAX_REFUSALS_KEPT (of_owner owner rows1)) by (by apply StronglySorted_filter). f_equal. unfold of_owner, kept. rewrite !list_filter_filter. apply list_filter_iff_in. intros r Hr.
    rewrite newest_spec by done. unfold of_owner. naive_solver. }
  assert (forall other, other <> owner -> of_owner other kept = of_owner other rows) as Ho.
  { intros other Hne. unfold of_owner, kept, rows1. rewrite list_filter_filter, filter_app, (filter_cons_False _ row); [|cbn; naive_solver]. rewrite app_nil_r. apply list_filter_iff_in. naive_solver. }
  split; [|split; [|done]].
  - split; [done|]. intros other. change (length (of_owner other kept) <= MAX_REFUSALS_KEPT). destruct (decide (other = owner)) as [->|Hne]; [|by rewrite Ho]. rewrite <- (length_reverse (of_owner owner kept)), Ek, length_take. lia.
  - transitivity (newest owner MAX_REFUSALS_KEPT kept); [reflexivity|]. rewrite !newest_spec by done. rewrite Ek, E1, reverse_app, take_take, Nat.min_id. cbn [reverse app]. rewrite reverse_singleton. cbn [app].
    rewrite (take_ge (reverse (of_owner owner rows))); [done|]. rewrite length_reverse. apply HB.
Qed.

(** A letter a known owner may not send is turned away with the error of the rule
    it broke, and that refusal, with the recipient, the letter's kind and what was
    missing, is the newest of the owner's refusals, of which the last 256 are kept.
    Only when it cannot be recorded is nothing changed, and the caller is told. *)
Theorem refusal_recorded event_id now owner recipient data copy st d r st' : refusals_ok st -> require_owner owner st = Ok tt -> departure_check owner recipient data copy st = inr d ->
  push event_id now owner recipient data copy st = (r, st') ->
  refusals_ok st' /\ (forall other, other <> owner -> of_owner other (rt_refusals (st_rings st')) = of_owner other (rt_refusals (st_rings st))) /\
  ((r = Err (refusal_error (dl_refusal d) (dl_step d)) /\
    exists row, refusals owner MAX_REFUSALS_KEPT st' = take MAX_REFUSALS_KEPT (row :: refusals owner MAX_REFUSALS_KEPT st) /\
      rf_owner row = owner /\ rf_recipient row = recipient /\ rf_kind row = dl_kind d /\ rf_step row = dl_step d /\ rf_rule row = dl_refusal d) \/
   (r = Err Usage /\ st' = st)).
Proof.
  intros HK HOw HD E. unfold push in E. rewrite (dbM_step _ _ st tt st) in E by (unfold query; by rewrite HOw). rewrite (dbM_step _ _ st (inr d) st) in E by (unfold query; by rewrite HD).
  unfold deny in E. destruct (record_refusal event_id now owner recipient d st) as [[u|e] s1] eqn:ER.
  - injection E as <- <-. apply transaction_Ok in ER. unfold write_refusal in ER. apply dbM_bind_Ok in ER as (u' & s2 & E2 & ER). apply record_rows in E2 as HS. assert (rt_refusals (st_rings s2) = rt_refusals (st_rings st)) as Er by apply HS.
    assert (refusals_ok s2) as HK2 by (destruct HK as [H1 H2]; split; rewrite Er; done). destruct (insert_prune_run now owner recipient d s2 HK2) as (s3 & E3 & HK3 & Hnew & Hoth). rewrite E3 in ER. injection ER as _ <-. rewrite Er in Hnew, Hoth.
    split; [done|]. split; [done|]. left. split; [done|]. exists (refusal_row (next_id rf_id (rt_refusals (st_rings st))) now owner recipient d). split; [|done]. rewrite Hnew. unfold refusals. by rewrite Er.
  - injection E as <- <-. apply transaction_Err in ER as ->. split; [done|]. split; [done|]. by right.
Qed.

(** ** The timeline records it *)

(** Labels are text, as the columns that hold them are. *)
Definition texts (st : Store) : Prop := Forall (fun s => text (os_recipient s)) (rt_outbox_slots (st_rings st)).
Definition logged (st st' : Store) : Prop := timelines_ok st /\ texts st -> texts st' /\ grows st st'.
#[export] Instance logged_preorder : PreOrder logged.
Proof.
  split; [by intros st [_ HT]; split|]. intros s1 s2 s3 H12 H23 [HL HT]. destruct (H12 (conj HL HT)) as [HT2 G1]. destruct (G1 HL) as [HL2 _]. destruct (H23 (conj HL2 HT2)) as [HT3 G2].
  split; [done|]. by etransitivity.
Qed.

Lemma logged_on_rings g : (forall t, rt_histories (g t) = rt_histories t /\ rt_events (g t) = rt_events t) ->
  (forall t, Forall (fun s => text (os_recipient s)) (rt_outbox_slots t) -> Forall (fun s => text (os_recipient s)) (rt_outbox_slots (g t))) -> respects logged (on_rings g).
Proof. intros H1 H2. apply respects_execute. intros st [_ HT]. split; [by apply H2|]. apply grows_same; apply H1. Qed.
Lemma logged_found {A B} (f : Store -> result A) (k : A -> dbM B) : (forall st a, texts st -> f st = Ok a -> respects logged (k a)) -> respects logged (query f ≫= k).
Proof.
  intros Hk st r st'. unfold query, mbind, dbM_bind. destruct (f st) as [a|e] eqn:E; [|intros [= _ <-]; reflexivity]. intros Er HL. by eapply (Hk st a (proj2 HL) E st).
Qed.
Lemma logged_record event_id now t event_type outcome actor details : fixed 16 event_id -> opt text actor -> Forall detail_wf details -> respects logged (record event_id now t event_type outcome actor details).
Proof. intros H1 H2 H3 st r st' E [HL HT]. split; [|by eapply record_grows]. apply record_same in E as [_ E]. unfold texts. by rewrite E. Qed.

Lemma logged_update_ring key g : respects logged (update_ring OutboxRing key g).
Proof. intros st r st'. unfold update_ring. destruct (existsb _ _); [intros [= _ <-]; reflexivity|]. by apply logged_on_rings. Qed.
Lemma logged_ensure key n : respects logged (ensure OutboxRing key n).
Proof. unfold ensure. frame. apply logged_on_rings; intros t; by destruct (_ || _). Qed.
Lemma logged_release key i : respects logged (release OutboxRing key i).
Proof.
  unfold release, delete_slot. apply respects_bind; [apply _| |intros _ st r st'; unfold advance_read; destruct (ring_load _ _ _); [|intros [= _ <-]; reflexivity]; destruct (skip_released _ _ _ _); apply logged_update_ring].
  apply respects_bind; [apply _| |intros _]; apply logged_on_rings; try done; intros t HT; cbn.
  - apply update_where_Forall; [done|]. intros s _ _ Hs. exact Hs.
  - apply Forall_forall. intros s [_ Hs]%list_elem_of_filter. rewrite Forall_forall in HT. by apply HT.
Qed.
Lemma slot_details_wf item : text (qi_recipient item) -> Forall detail_wf (slot_details item).
Proof. intros H. repeat constructor; cbn; try done; apply to_string_text. Qed.
Lemma slot_text owner i st s : texts st -> slot_at owner i st = Some s -> text (os_recipient s).
Proof. intros HT [Hin _]%first_row_Some. unfold texts in HT. rewrite Forall_forall in HT. by apply HT. Qed.

Lemma logged_release_head owner i sent : respects logged (release_head owner i sent).
Proof. unfold release_head. apply respects_bind; [apply _|apply logged_release|intros _]. destruct sent; [by apply logged_on_rings|apply respects_ret; apply _]. Qed.
Lemma logged_timeline event_id now owner event_type outcome item : fixed 16 event_id -> text owner -> text (qi_recipient item) -> respects logged (timeline event_id now owner event_type outcome (slot_details item)).
Proof. intros H1 H2 H3. apply logged_record; [done|done|by apply slot_details_wf]. Qed.

Lemma logged_deny {A} event_id now owner recipient d : fixed 16 event_id -> text owner -> text recipient -> respects logged (deny (A := A) event_id now owner recipient d).
Proof.
  intros H1 H2 H3. assert (respects logged (record_refusal event_id now owner recipient d)) as HR.
  { unfold record_refusal, write_refusal. apply respects_transaction; [apply _|]. apply respects_bind; [apply _| |intros _; apply respects_bind; [apply _| |intros _]; by apply logged_on_rings].
    apply logged_record; [done|done|]. unfold refusal_details, with_detail. destruct (dl_kind d); repeat constructor; cbn; try done; try apply to_string_text; by destruct (dl_refusal d). }
  intros st r st'. unfold deny. destruct (record_refusal _ _ _ _ _ st) as [[u|e] st1] eqn:E; intros [= _ <-]; by eapply HR.
Qed.

Lemma logged_queue event_id now owner recipient data kind : fixed 16 event_id -> text owner -> text recipient -> respects logged (queue event_id now owner recipient data kind).
Proof.
  intros H1 H2 H3. unfold queue. apply respects_transaction; [apply _|]. apply respects_bind; [apply _|unfold ensure_ring; apply respects_bind; [apply _|apply logged_ensure|intros _; apply respects_query; apply _]|].
  intros r. apply respects_if; [apply respects_try; apply _|]. apply respects_bind; [apply _| |intros _; apply respects_bind; [apply _|apply logged_update_ring|intros _]].
  - intros st r0 st'. unfold insert_slot. destruct (slot_held _ _ _ _); [intros [= _ <-]; reflexivity|]. apply logged_on_rings; [done|]. intros t HT. cbn. apply Forall_app_2; [done|]. by repeat constructor.
  - apply logged_found. intros st item HT E%ok_or_Ok. unfold item_at in E. destruct (slot_at owner _ st) as [s|] eqn:Es; [|done]. injection E as <-. apply respects_bind; [apply _|apply logged_timeline; [done|done|by eapply slot_text]|intros _; apply respects_ret; apply _].
Qed.

Lemma logged_push event_id now owner recipient data copy : fixed 16 event_id -> text owner -> text recipient -> respects logged (push event_id now owner recipient data copy).
Proof.
  intros H1 H2 H3. unfold push. apply respects_bind; [apply _|apply respects_query; apply _|intros _]. apply respects_bind; [apply _|apply respects_query; apply _|]. intros [kind|d]; [|by apply logged_deny].
  intros st r st' E. unfold queue_or_deny in E. destruct (queue event_id now owner recipient data kind st) as [rq s1] eqn:EQ. pose proof (logged_queue _ _ _ _ _ _ H1 H2 H3 _ _ _ EQ) as HL.
  destruct rq as [item|e]; [by injection E as _ <-|]. destruct (decide (e = OutboxFull)) as [->|Hne]; [etransitivity; [exact HL|exact (logged_deny _ _ _ _ _ H1 H2 H3 _ _ _ E)]|].
  assert (st' = s1) as -> by (destruct e; first [done|by injection E as _ <-]). done.
Qed.

Lemma logged_drop event_id now owner mode : fixed 16 event_id -> text owner -> respects logged (drop_head event_id now owner mode).
Proof.
  intros H1 H2. unfold drop_head. apply respects_transaction; [apply _|]. apply respects_bind; [apply _|apply respects_query; apply _|]. intros r. apply respects_if; [apply respects_ret; apply _|].
  apply respects_bind; [apply _|apply respects_query; apply _|]. intros fresh. apply respects_if; [apply respects_try; apply _|]. apply logged_found. intros st item HT E%ok_or_Ok. unfold item_at in E.
  destruct (slot_at owner _ st) as [s|] eqn:Es; [|done]. injection E as <-. apply respects_bind; [apply _|apply logged_release_head|intros _]. apply respects_bind; [apply _|apply logged_timeline; [done|done|by eapply slot_text]|intros _; apply respects_ret; apply _].
Qed.

Lemma logged_claim token now owner mode : respects logged (claim_head token now owner mode).
Proof.
  unfold claim_head. apply respects_transaction; [apply _|]. apply respects_bind; [apply _|apply respects_query; apply _|]. intros r. apply respects_if; [apply respects_ret; apply _|].
  apply respects_bind; [apply _|apply respects_query; apply _|]. intros fresh. apply respects_if; [apply respects_try; apply _|]. apply respects_bind; [apply _|apply respects_query; apply _|]. intros s.
  apply respects_bind; [apply _|apply respects_query; apply _|]. intros [refusal|]; [apply respects_ret; apply _|]. apply respects_bind; [apply _| |intros _; apply respects_ret; apply _].
  apply logged_on_rings; [done|]. intros t HT. cbn. apply update_where_Forall; [done|]. by intros.
Qed.
Lemma logged_unclaim owner token : respects logged (unclaim owner token).
Proof. unfold unclaim. apply respects_transaction; [apply _|]. apply logged_on_rings; [done|]. intros t HT. cbn. apply update_where_Forall; [done|]. by intros. Qed.
Lemma logged_or_unclaim {A} owner token (m : dbM A) : respects logged m -> respects logged (or_unclaim owner token m).
Proof.
  intros Hm st r st' E. unfold or_unclaim in E. destruct (m st) as [[a|e] s1] eqn:Em; pose proof (Hm _ _ _ Em) as H1; [by injection E as _ <-|].
  destruct (unclaim owner token s1) as [ru s2] eqn:Eu. pose proof (logged_unclaim _ _ _ _ _ Eu) as H2. assert (st' = s2) as -> by (destruct ru; congruence). by etransitivity.
Qed.

Lemma logged_send event_id nonce claimed_at sent_at owner mode deliver : fixed 16 event_id -> text owner -> (forall item data, respects logged (deliver item data)) ->
  respects logged (send_head event_id nonce claimed_at sent_at owner mode deliver).
Proof.
  intros H1 H2 Hd st r st' E HL. unfold send_head in E. cbv zeta in E. destruct (claim_head (hex_encode nonce) claimed_at owner mode st) as [rc s1] eqn:EC. pose proof (logged_claim _ _ _ _ _ _ _ EC) as HL1.
  assert (forall o, rc = Ok o -> match o with inl (Some (item, _)) => text (qi_recipient item) | inl None => True | inr (recipient, _) => text recipient end) as Htext.
  { intros o ->. apply transaction_Ok in EC. rewrite (dbM_step _ _ st (ring owner st) st) in EC by done. case_bool_decide; [by injection EC as <- _|]. rewrite (dbM_step _ _ st (freshly_claimed claimed_at owner (rg_read_index (ring owner st)) st) st) in EC by done.
    destruct (_ && _); [discriminate|]. apply dbM_bind_Ok in EC as (s & s2 & [Es%ok_or_Ok ->]%query_Ok & EC). rewrite (dbM_step _ _ st (gate_verdict s st) st) in EC by done. apply slot_text in Es; [|apply HL].
    destruct (gate_verdict s st); injection EC as <- _; done. }
  revert HL. change (logged st st'). destruct rc as [o|e]; [|rewrite (dbM_fail _ _ _ _ _ EC) in E; by injection E as _ <-]. rewrite (dbM_step _ _ _ _ _ EC) in E. specialize (Htext o eq_refl). etransitivity; [exact HL1|].
  destruct o as [[[item data]|]|[recipient d]].
  - eapply (respects_run logged); [exact E|]. apply respects_bind; [apply _|apply logged_or_unclaim, Hd|intros _]. apply respects_bind; [apply _|apply logged_or_unclaim|intros _; apply respects_ret; apply _].
    unfold finish_head. apply respects_transaction; [apply _|]. apply respects_bind; [apply _|apply respects_query; apply _|]. intros r0. apply respects_bind; [apply _|apply respects_query; apply _|]. intros ours. apply respects_if; [|apply respects_ret; apply _].
    apply respects_bind; [apply _|apply logged_release_head|intros _; by apply logged_timeline].
  - by injection E as _ <-.
  - exact (logged_deny _ _ _ _ _ H1 H2 Htext _ _ _ E).
Qed.

Lemma logged_set_capacity owner n : respects logged (set_capacity owner n).
Proof.
  unfold set_capacity. apply respects_if; [apply respects_try; apply _|]. apply respects_bind; [apply _|apply respects_query; apply _|intros _]. apply respects_transaction; [apply _|]. apply respects_bind; [apply _| |intros b; frame].
  unfold resize. apply respects_bind; [apply _|apply logged_ensure|]. intros p. apply respects_if; [apply respects_ret; apply _|]. apply respects_bind; [apply _|apply logged_update_ring|intros _; apply respects_ret; apply _].
Qed.

(** ** Any operations, one after another *)

Inductive Operation :=
| PushOp (event_id : bytes) (now : Z) (owner recipient data : bytes) (copy : option (TrackedFile * Visa))
| SendOp (event_id nonce : bytes) (claimed_at sent_at : Z) (owner : bytes) (mode : Claimed) (deliver : QueuedItem -> bytes -> result unit)
| DropOp (event_id : bytes) (now : Z) (owner : bytes) (mode : Claimed)
| ResizeOp (owner : bytes) (slots : nat).
Definition operate (op : Operation) (st : Store) : Store :=
  match op with
  | PushOp event_id now owner recipient data copy => (push event_id now owner recipient data copy st).2
  | SendOp event_id nonce claimed_at sent_at owner mode deliver => (send_head event_id nonce claimed_at sent_at owner mode (fun item data => db_try (deliver item data)) st).2
  | DropOp event_id now owner mode => (drop_head event_id now owner mode st).2
  | ResizeOp owner slots => (set_capacity owner slots st).2
  end.
(** Labels are text, and event ids have the length a random id has. *)
Definition operation_ok (op : Operation) : Prop :=
  match op with
  | PushOp event_id _ owner recipient _ _ => fixed 16 event_id /\ text owner /\ text recipient
  | SendOp event_id _ _ _ owner _ _ | DropOp event_id _ owner _ => fixed 16 event_id /\ text owner
  | ResizeOp owner _ => text owner
  end.
Definition operate_all (ops : list Operation) (st : Store) : Store := foldl (fun st op => operate op st) st ops.

Lemma operate_logged op st : operation_ok op -> logged st (operate op st).
Proof.
  destruct op; cbn [operation_ok operate]; intros Hop;
    match goal with |- logged _ (snd (?m _)) => eapply (respects_run logged m); [apply surjective_pairing|] end.
  - destruct Hop as (H1 & H2 & H3). by apply logged_push.
  - apply logged_send; try apply Hop. intros item data. apply respects_try; apply _.
  - destruct Hop as (H1 & H2). by apply logged_drop.
  - apply logged_set_capacity.
Qed.

(** C24: whatever is pushed, sent, dropped or resized, successfully or not, every
    timeline of the store keeps a verified chain of which any snapshot can be taken,
    and each snapshot is a prefix of every later one: no event is changed or lost. *)
Theorem timeline_append_only ops st t : timelines_ok st -> texts st -> Forall operation_ok ops ->
  exists s s', snapshot t st = Ok s /\ snapshot t (operate_all ops st) = Ok s' /\ is_prefix_of_snapshot s s' = true.
Proof.
  intros HL HT Hops. apply grows_snapshot; [done|]. assert (logged st (operate_all ops st)) as HG; [|by apply HG].
  clear HL HT. revert st. induction Hops as [|op ops Hop Hops IH]; intros st; [reflexivity|]. etransitivity; [by apply operate_logged|apply IH].
Qed.
End claims.
