(* ===== verification/Inbox.v ===== *)
(** * The inbox of a store ([src/src/db/inbox.rs])

    The letters pulled from a relay, whether this store has handled them, and the ring
    that holds the unopened ones. *)

From S2P Require Import Prelude Text Crypto Envelope HistoryCodec Event Authority Snapshot Tables KeyStore Signing Aead Clock BridgePackage PrivateBridge BridgeRoster BridgeSafety Pin TreeLaws Ring RingHistory.

Definition RING_CAPACITY : nat := 256.
Inductive Release := Opened | Dropped.

Definition slot_for (relay : bytes) (letter : Z) (s : InSlot) : bool := bool_decide (is_relay s = relay /\ is_letter s = letter).
Definition letter_for (relay : bytes) (letter : Z) (l : LetterRow) : bool := bool_decide (lt_relay l = relay /\ lt_id l = letter).
Definition find_slot (relay : bytes) (letter : Z) (st : Store) : option InSlot := first_row (slot_for relay letter) (rt_inbox_slots (st_rings st)).
Definition find_letter (relay : bytes) (letter : Z) (st : Store) : option LetterRow := first_row (letter_for relay letter) (rt_letters (st_rings st)).

Definition is_known (relay : bytes) (letter : Z) (st : Store) : bool := bool_decide (is_Some (find_letter relay letter st)).
Definition has_room (relay : bytes) (st : Store) : bool := match ring_load InboxRing relay st with None => true | Some p => negb (is_full p) end.
Definition held (relay : bytes) (letter : Z) (st : Store) : option bytes := is_content_hash <$> find_slot relay letter st.
Definition is_handled (relay : bytes) (letter : Z) (st : Store) : bool := match find_letter relay letter st with Some l => lt_handled l | None => false end.

(** [max(letter_id)] *)
Definition cursor (relay : bytes) (st : Store) : option Z :=
  foldr (fun l acc => Some (match acc with None => lt_id l | Some m => Z.max (lt_id l) m end)) None (filter (fun l => lt_relay l = relay) (rt_letters (st_rings st))).

(** [ORDER BY letter_id] *)
Definition letter_le (a b : LetterRow) : Prop := (lt_id a <= lt_id b)%Z.
#[export] Instance letter_le_dec : RelDecision letter_le.
Proof. intros a b. unfold letter_le. apply _. Defined.
Definition list_letters (relay : bytes) (st : Store) : list LetterRow := merge_sort letter_le (filter (fun l => lt_relay l = relay) (rt_letters (st_rings st))).

Record InboxUsage := { us_held : nat; us_span : nat; us_capacity : nat; us_head : option Z }.
Definition usage (relay : bytes) (st : Store) : InboxUsage :=
  let count := length (filter (fun s => is_relay s = relay) (rt_inbox_slots (st_rings st))) in
  match ring_load InboxRing relay st with
  | None => {| us_held := count; us_span := 0; us_capacity := RING_CAPACITY; us_head := None |}
  | Some p => {| us_held := count; us_span := pt_size p; us_capacity := pt_capacity p; us_head := is_letter <$> first_row (in_slot relay (pt_read_index p)) (rt_inbox_slots (st_rings st)) |}
  end.

(** A letter already known keeps its status. *)
Definition record_letter (relay : bytes) (letter : Z) (kind : byte) : dbM unit :=
  on_rings (fun t => if existsb (letter_for relay letter) (rt_letters t) then t else set_rt_letters (rt_letters t ++ [{| lt_relay := relay; lt_id := letter; lt_kind := kind; lt_handled := false |}]) t).
Definition mark_handled (relay : bytes) (letter : Z) : dbM unit :=
  on_rings (fun t => set_rt_letters (update_where (letter_for relay letter) (fun l => {| lt_relay := lt_relay l; lt_id := lt_id l; lt_kind := lt_kind l; lt_handled := true |}) (rt_letters t)) t).

(** A place and a letter are each held once. *)
Definition insert_in_slot (s : InSlot) : dbM unit := fun st =>
  if existsb (fun s' => in_slot (is_relay s) (is_index s) s' || slot_for (is_relay s) (is_letter s) s') (rt_inbox_slots (st_rings st)) then (Err Db, st)
  else on_rings (fun t => set_rt_inbox_slots (rt_inbox_slots t ++ [s]) t) st.

Section inbox.
Context `{C : Crypto} `{CL : Clock}.

Definition hold (event_id : bytes) (now : Z) (relay : bytes) (letter : Z) (kind : byte) (content_hash : bytes) : dbM unit :=
  transaction (
    ring ← ensure InboxRing relay RING_CAPACITY;
    if is_full ring then db_try (Err OutboxFull) else
    insert_in_slot {| is_relay := relay; is_index := pt_write_index ring; is_letter := letter; is_kind := kind; is_content_hash := content_hash |} ≫= fun _ =>
    advance_write InboxRing relay ≫= fun _ =>
    record_letter relay letter kind ≫= fun _ =>
    record event_id now (InboxLine relay) E.LetterReceived Success None
      (with_detail (with_detail (with_detail [] (str "slot") (to_string (N.of_nat (pt_write_index ring)))) (str "letter_id") (to_string_signed letter)) (str "kind") (to_string (Byte.to_N kind)))).

Definition deliver_details (index : option nat) (letter : Z) (kind : option byte) : EventDetails :=
  let details := match index with Some index => with_detail [] (str "slot") (to_string (N.of_nat index)) | None => [] end in
  let details := with_detail details (str "letter_id") (to_string_signed letter) in
  match kind with Some kind => with_detail details (str "kind") (to_string (Byte.to_N kind)) | None => details end.

Definition deliver (event_id : bytes) (now : Z) (relay : bytes) (letter : Z) (how : Release) : dbM unit :=
  transaction (
    mark_handled relay letter ≫= fun _ =>
    index ← query (fun st => Ok (is_index <$> find_slot relay letter st));
    match index with Some index => release InboxRing relay index | None => mret tt end ≫= fun _ =>
    kind ← query (fun st => Ok (lt_kind <$> find_letter relay letter st));
    let '(event_type, outcome) := match how with Opened => (E.LetterOpened, Success) | Dropped => (E.LetterDropped, Info) end in
    record event_id now (InboxLine relay) event_type outcome None (deliver_details index letter kind)).
End inbox.

(** ** The letters held *)

Definition in_place (s : InSlot) : bytes * nat := (is_relay s, is_index s).
Definition in_letter (s : InSlot) : bytes * Z := (is_relay s, is_letter s).

(** Places and letters are unique, the ring is sound, and every letter held is known. *)
Record inbox_ok (st : Store) : Prop := {
  ib_ring : ring_ok InboxRing st;
  ib_places : NoDup (map in_place (rt_inbox_slots (st_rings st)));
  ib_letters : NoDup (map in_letter (rt_inbox_slots (st_rings st)));
  ib_known s : s ∈ rt_inbox_slots (st_rings st) -> is_known (is_relay s) (is_letter s) st = true;
}.

Lemma in_slot_held relay i st : slot_held InboxRing relay i st = true <-> exists s, s ∈ rt_inbox_slots (st_rings st) /\ is_relay s = relay /\ is_index s = i.
Proof. cbn. rewrite existsb_exists. setoid_rewrite <- list_elem_of_In. unfold in_slot. setoid_rewrite bool_decide_eq_true. done. Qed.

Lemma find_slot_new relay letter rows s : (forall s', s' ∈ rows -> slot_for (is_relay s) (is_letter s) s' = false) ->
  first_row (slot_for relay letter) (rows ++ [s]) = if decide (is_relay s = relay /\ is_letter s = letter) then Some s else first_row (slot_for relay letter) rows.
Proof.
  intros H. destruct (decide _) as [[<- <-]|Hne]; [apply first_row_new; [done|]; unfold slot_for; by rewrite bool_decide_true|]. apply first_row_old. unfold slot_for. by rewrite bool_decide_false.
Qed.

(** Only the tables of the inbox matter. *)
Lemma inbox_same st st' : rows_same st st' -> (inbox_ok st -> inbox_ok st') /\ (forall r l, held r l st' = held r l st) /\ (forall r l, is_handled r l st' = is_handled r l st) /\ (forall r l, is_known r l st' = is_known r l st).
Proof.
  intros (_ & _ & _ & E1 & E2 & E3).
  assert (forall r l, find_letter r l st' = find_letter r l st) as Hl by (intros; unfold find_letter; by rewrite E3).
  assert (forall r l, is_known r l st' = is_known r l st) as Hk by (intros; unfold is_known; by rewrite Hl).
  split; [|split; [intros; unfold held, find_slot; by rewrite E2|split; [intros; unfold is_handled; by rewrite Hl|done]]].
  assert (forall k, ring_row InboxRing k st' = ring_row InboxRing k st) as Hr by (intros; unfold ring_row; cbn; by rewrite E1).
  intros [[[H1 H2] H3 H4] H5 H6 H7]. split; [split; [split; cbn in *; by rewrite E1| |]|by rewrite E2..|].
  - intros key i. cbn. rewrite E2, Hr. apply H3.
  - intros key r. cbn. rewrite E2, Hr. apply H4.
  - intros s. rewrite E2, Hk. apply H7.
Qed.

Lemma in_slots_of_rings l st : rt_inbox_slots (st_rings (set_rings (with_rings InboxRing l (st_rings st)) st)) = rt_inbox_slots (st_rings st).
Proof. done. Qed.

Section laws.
Context `{C : Crypto} `{CL : Clock}.

Lemma insert_in_slot_run s st st' : insert_in_slot s st = (Ok tt, st') -> (forall s', s' ∈ rt_inbox_slots (st_rings st) -> in_place s' <> in_place s /\ in_letter s' <> in_letter s) /\
  st' = set_rings (set_rt_inbox_slots (rt_inbox_slots (st_rings st) ++ [s]) (st_rings st)) st.
Proof.
  unfold insert_in_slot. destruct (existsb _ _) eqn:EX; [discriminate|]. intros [= <-]. split; [|done]. intros s' Hs'. rewrite existsb_false in EX. specialize (EX s' Hs'). apply orb_false_iff in EX as [H1%bool_decide_eq_false H2%bool_decide_eq_false].
  unfold in_place, in_letter. split; intros E; injection E as Ea Eb; tauto.
Qed.

Lemma record_letter_run relay letter kind st : exists st', record_letter relay letter kind st = (Ok tt, st') /\ rt_inbox_rings (st_rings st') = rt_inbox_rings (st_rings st) /\ rt_inbox_slots (st_rings st') = rt_inbox_slots (st_rings st) /\
  is_known relay letter st' = true /\ (forall r l, is_handled r l st' = is_handled r l st) /\ (forall r l, is_known r l st = true -> is_known r l st' = true).
Proof.
  unfold record_letter, on_rings, execute. set (row := {| lt_relay := relay |}). destruct (existsb (letter_for relay letter) (rt_letters (st_rings st))) eqn:EX.
  - exists st. rewrite set_rings_same. split_and!; try done. apply existsb_exists in EX as (x & Hx%list_elem_of_In & Hl). unfold is_known, find_letter. destruct (first_row _ _) as [y|] eqn:Ey; [done|].
    rewrite first_row_None in Ey. by rewrite Ey in Hl.
  - eexists. split; [reflexivity|]. split; [done|]. split; [done|]. rewrite existsb_false in EX. assert (forall r l, first_row (letter_for r l) (rt_letters (st_rings st) ++ [row]) = if decide (r = relay /\ l = letter) then Some row else first_row (letter_for r l) (rt_letters (st_rings st))) as Hrow.
    { intros r l. destruct (decide _) as [[-> ->]|Hne]; [apply first_row_new; [done|]; unfold letter_for; by rewrite bool_decide_true|]. apply first_row_old. apply bool_decide_eq_false. cbn. naive_solver. }
    unfold is_known, is_handled, find_letter. cbn. split; [by rewrite Hrow, decide_True|]. split; intros r l; rewrite Hrow; destruct (decide _) as [[-> ->]|]; try done. by rewrite (proj2 (first_row_None _ _) EX).
Qed.

(** A slot more, in a ring with room. *)
Lemma take_in_slot relay s st s1 s2 row : inbox_ok st -> ring_ok InboxRing s1 -> (exists l, s1 = set_rings (with_rings InboxRing l (st_rings st)) st) -> ring_row InboxRing relay s1 = Some row ->
  rg_size row < rg_capacity row -> is_relay s = relay -> is_index s = rg_write_index row -> insert_in_slot s s1 = (Ok tt, s2) ->
  exists s3, advance_write InboxRing relay s2 = (Ok tt, s3) /\ ring_ok InboxRing s3 /\ rt_inbox_slots (st_rings s3) = rt_inbox_slots (st_rings st) ++ [s] /\ rt_letters (st_rings s3) = rt_letters (st_rings st) /\
    (forall s', s' ∈ rt_inbox_slots (st_rings st) -> in_place s' <> in_place s /\ in_letter s' <> in_letter s).
Proof.
  intros HO HR1 [l1 ES1] Hrow Hfree Hs1 Hs2 [Hfresh ES2]%insert_in_slot_run. rewrite ES1, in_slots_of_rings in Hfresh.
  destruct (advance_write_run InboxRing relay s1 s2 row) as (s3 & E3 & HR3 & Hrow3 & Hh3 & l3 & ES3); [done| |by rewrite ES2|done|done| |].
  { destruct (ro_rows _ _ HR1). rewrite ES2. by split. }
  { intros k i. rewrite ES2. cbn. rewrite existsb_app. f_equal. cbn. rewrite orb_false_r. unfold in_slot. apply bool_decide_ext. rewrite Hs1, Hs2. naive_solver. }
  exists s3. split; [done|]. split; [done|]. split; [rewrite ES3, ES2, ES1; done|]. split; [rewrite ES3, ES2, ES1; done|done].
Qed.

Lemma NoDup_map_snoc {A K} (f : A -> K) l x : NoDup (map f l) -> (forall y, y ∈ l -> f y <> f x) -> NoDup (map f (l ++ [x])).
Proof. intros HN Hx. rewrite map_app. apply NoDup_app. split; [done|]. split; [|apply NoDup_singleton]. intros k (y & -> & Hy)%list_elem_of_fmap E%list_elem_of_singleton. by apply (Hx y). Qed.

Lemma hold_run event_id now relay letter kind hash st r st' : inbox_ok st -> hold event_id now relay letter kind hash st = (r, st') ->
  match r with
  | Ok _ => has_room relay st = true /\ held relay letter st = None /\ inbox_ok st' /\ held relay letter st' = Some hash /\ is_known relay letter st' = true /\
      (forall r l, (r, l) <> (relay, letter) -> held r l st' = held r l st) /\ (forall r l, is_handled r l st' = is_handled r l st)
  | Err e => st' = st
  end.
Proof.
  intros HO E. destruct r as [[]|e]; [|by apply transaction_Err in E]. apply transaction_Ok in E.
  destruct (ensure_run InboxRing relay RING_CAPACITY st) as (s1 & E1 & HR1 & Hrow1 & _ & _ & ES1); [unfold RING_CAPACITY, MAX_CAPACITY; lia|apply HO|]. rewrite (dbM_step _ _ _ _ _ E1) in E. clear E1.
  destruct (is_full _) eqn:EF in E; [discriminate|]. assert (has_room relay st = true) as Hroom. { unfold has_room, ring_load. destruct (ring_row InboxRing relay st); [|done]. cbn in *. by rewrite EF. }
  set (row := default (new_ring relay RING_CAPACITY) (ring_row InboxRing relay st)) in *. unfold is_full in EF. apply Nat.leb_gt in EF. cbn [pointers pt_capacity pt_size] in EF.
  set (s := {| is_relay := relay; is_letter := letter |}) in *. apply dbM_bind_Ok in E as ([] & s2 & E2 & E).
  destruct (take_in_slot relay s st s1 s2 row HO HR1 ES1 Hrow1 EF eq_refl eq_refl E2) as (s3 & E3 & HR3 & Es3 & El3 & Hfresh). rewrite (dbM_step _ _ _ _ _ E3) in E. clear E3.
  destruct (record_letter_run relay letter kind s3) as (s4 & E4 & Er4 & Es4 & Hknown & Hhandled & Hkeeps). rewrite (dbM_step _ _ _ _ _ E4) in E. clear E4. apply record_rows in E as HS. rewrite Es3 in Es4.
  assert (forall r l, is_handled r l s3 = is_handled r l st /\ is_known r l s3 = is_known r l st) as H3 by (intros; unfold is_handled, is_known, find_letter; by rewrite El3).
  assert (forall r l, held r l s4 = if decide (relay = r /\ letter = l) then Some hash else held r l st) as Hheld.
  { intros r l. unfold held, find_slot. rewrite Es4, find_slot_new; [by destruct (decide _)|]. intros s' Hs'. apply bool_decide_eq_false. intros [H1 H2]. apply (Hfresh s' Hs'). unfold in_letter. by rewrite H1, H2. }
  assert (held relay letter st = None) as Hnone.
  { unfold held. destruct (find_slot relay letter st) as [s'|] eqn:Ef; [|done]. exfalso. apply first_row_Some in Ef as [Hin [H1 H2]%bool_decide_eq_true]. apply (Hfresh s' Hin). unfold in_letter. by rewrite H1, H2. }
  assert (inbox_ok s4) as HO4.
  { split.
    - destruct HR3 as [[H1 H2] H3' H4]. split; [split; cbn in *; by rewrite Er4| |]; intros key; unfold ring_row in *; cbn in *; rewrite Er4, Es4; [intros i|intros r]; rewrite <- Es3; [apply H3'|apply H4].
    - rewrite Es4. apply NoDup_map_snoc; [apply HO|]. intros y Hy. by apply Hfresh.
    - rewrite Es4. apply NoDup_map_snoc; [apply HO|]. intros y Hy. by apply Hfresh.
    - intros s'. rewrite Es4. intros [Hs'|Hs'%list_elem_of_singleton]%elem_of_app; [|by subst s']. apply Hkeeps. rewrite (proj2 (H3 _ _)). by apply HO. }
  destruct (inbox_same _ _ HS) as (HI & HH & HD & HK). split_and!; try done.
  - by apply HI.
  - by rewrite HH, Hheld, decide_True.
  - by rewrite HK.
  - intros r l Hne. rewrite HH, Hheld, decide_False; [done|]. intros [-> ->]. done.
  - intros r l. rewrite HD, Hhandled. apply H3.
Qed.

Lemma mark_handled_run relay letter st : exists st', mark_handled relay letter st = (Ok tt, st') /\ rt_inbox_rings (st_rings st') = rt_inbox_rings (st_rings st) /\ rt_inbox_slots (st_rings st') = rt_inbox_slots (st_rings st) /\
  (forall r l, is_known r l st' = is_known r l st) /\ (forall r l, is_handled r l st' = if decide (r = relay /\ l = letter) then is_known r l st else is_handled r l st).
Proof.
  eexists. split; [reflexivity|]. split; [done|]. split; [done|]. unfold is_known, is_handled, find_letter. cbn. set (g := fun l : LetterRow => _).
  assert (forall r l, first_row (letter_for r l) (update_where (letter_for relay letter) g (rt_letters (st_rings st))) = (fun x => if letter_for relay letter x then g x else x) <$> first_row (letter_for r l) (rt_letters (st_rings st))) as Hrow by (intros; by apply first_row_update).
  split; intros r l; rewrite Hrow; destruct (first_row (letter_for r l) (rt_letters (st_rings st))) as [x|] eqn:Ex; cbn; try done; [|by destruct (decide _)].
  apply first_row_Some in Ex as [_ [H1 H2]%bool_decide_eq_true]. unfold letter_for. destruct (decide _) as [[-> ->]|Hne]; [by rewrite bool_decide_true|]. rewrite bool_decide_false; [done|]. rewrite H1, H2. naive_solver.
Qed.

(** The slot of a letter is found by its place as by its letter. *)
Lemma place_of_letter st s s' : inbox_ok st -> s ∈ rt_inbox_slots (st_rings st) -> s' ∈ rt_inbox_slots (st_rings st) -> in_slot (is_relay s) (is_index s) s' = slot_for (is_relay s) (is_letter s) s'.
Proof.
  intros HO Hs Hs'. unfold in_slot, slot_for. apply bool_decide_ext. split; intros [H1 H2].
  - assert (s' = s) as -> by (apply (NoDup_map_eq in_place _ _ _ (ib_places _ HO) Hs' Hs); unfold in_place; congruence). done.
  - assert (s' = s) as -> by (apply (NoDup_map_eq in_letter _ _ _ (ib_letters _ HO) Hs' Hs); unfold in_letter; congruence). done.
Qed.

Lemma first_row_remove {A} (P Q : A -> bool) l : (forall a, a ∈ l -> P a = true -> Q a = true) -> first_row P (filter (fun a => Q a = false) l) = None.
Proof. intros H. apply first_row_None. intros a [Hq Ha]%list_elem_of_filter. destruct (P a) eqn:E; [|done]. rewrite (H a Ha E) in Hq. done. Qed.

(** The slot of a letter released. *)
Lemma release_letter relay letter st s : inbox_ok st -> find_slot relay letter st = Some s ->
  exists st', release InboxRing relay (is_index s) st = (Ok tt, st') /\ inbox_ok st' /\ held relay letter st' = None /\ (forall r l, (r, l) <> (relay, letter) -> held r l st' = held r l st) /\
    (forall r l, is_known r l st' = is_known r l st /\ is_handled r l st' = is_handled r l st).
Proof.
  intros HO Hs. destruct (release_run InboxRing relay (is_index s) st (ib_ring _ HO)) as (st' & E & HR & _ & _ & l0 & ES). pose proof (first_row_Some _ _ _ Hs) as [Hin [Hr Hl]%bool_decide_eq_true].
  set (rows := rt_inbox_slots (st_rings st)) in *. assert (rt_inbox_slots (st_rings st') = filter (fun x => in_slot relay (is_index s) x = false) rows) as Es by (by rewrite ES).
  assert (forall r l, find_letter r l st' = find_letter r l st) as Hlet by (intros; by rewrite ES).
  assert (forall x, x ∈ rows -> in_slot relay (is_index s) x = slot_for relay letter x) as Hplace by (intros x Hx; rewrite <- Hr, <- Hl; by apply (place_of_letter st)).
  exists st'. split; [done|]. split_and!.
  - split; [done|rewrite Es; by apply NoDup_map_filter, HO|rewrite Es; by apply NoDup_map_filter, HO|]. intros x. rewrite Es. intros [_ Hx]%list_elem_of_filter. unfold is_known. rewrite Hlet. by apply HO.
  - unfold held, find_slot. rewrite Es, first_row_remove; [done|]. intros x Hx Hfor. by rewrite Hplace.
  - intros r l Hne. unfold held, find_slot. fold rows. rewrite Es. rewrite (list_filter_iff_in _ (fun x => slot_for relay letter x = false)); [|intros x Hx; by rewrite Hplace].
    rewrite first_row_filter; [done|]. intros x Hx%bool_decide_eq_true. apply bool_decide_eq_false. intros [H1 H2]. apply Hne. destruct Hx. congruence.
  - intros r l. unfold is_known, is_handled. by rewrite Hlet.
Qed.

Lemma deliver_run event_id now relay letter how st r st' : inbox_ok st -> deliver event_id now relay letter how st = (r, st') ->
  match r with
  | Ok _ => inbox_ok st' /\ held relay letter st' = None /\ is_handled relay letter st' = is_known relay letter st /\
      (forall r l, (r, l) <> (relay, letter) -> held r l st' = held r l st /\ is_handled r l st' = is_handled r l st)
  | Err e => st' = st
  end.
Proof.
  intros HO E. destruct r as [[]|e]; [|by apply transaction_Err in E]. apply transaction_Ok in E.
  destruct (mark_handled_run relay letter st) as (s1 & E1 & Er1 & Es1 & Hk1 & Hh1). rewrite (dbM_step _ _ _ _ _ E1) in E. clear E1.
  assert (inbox_ok s1) as HO1.
  { destruct HO as [[[H1 H2] H3 H4] H5 H6 H7]. split; [split; [split; cbn in *; by rewrite Er1| |]|by rewrite Es1..|]; [intros key|intros key|intros x; rewrite Es1, Hk1; apply H7]; unfold ring_row in *; cbn in *; rewrite Er1, Es1; [apply H3|apply H4]. }
  assert (forall r l, held r l s1 = held r l st) as Hheld1 by (intros; unfold held, find_slot; by rewrite Es1).
  rewrite (dbM_step _ _ s1 (is_index <$> find_slot relay letter s1) s1) in E by done.
  assert (exists s2, (match is_index <$> find_slot relay letter s1 with Some index => release InboxRing relay index | None => mret tt end) s1 = (Ok tt, s2) /\ inbox_ok s2 /\ held relay letter s2 = None /\
    (forall r l, (r, l) <> (relay, letter) -> held r l s2 = held r l s1) /\ (forall r l, is_known r l s2 = is_known r l s1 /\ is_handled r l s2 = is_handled r l s1)) as (s2 & E2 & HO2 & Hn2 & Hh2 & Hk2).
  { destruct (find_slot relay letter s1) as [s|] eqn:Ef; [by apply (release_letter relay letter s1 s)|]. exists s1. split_and!; try done. unfold held. by rewrite Ef. }
  rewrite (dbM_step _ _ _ _ _ E2) in E. clear E2. rewrite (dbM_step _ _ s2 (lt_kind <$> find_letter relay letter s2) s2) in E by done.
  assert (rows_same s2 st') as HS by (destruct how; by apply record_rows in E). destruct (inbox_same _ _ HS) as (HI & HH & HD & _). split_and!.
  - by apply HI.
  - by rewrite HH.
  - by rewrite HD, (proj2 (Hk2 _ _)), Hh1, decide_True.
  - intros r l Hne. rewrite HH, HD, Hh2, Hheld1 by done. rewrite (proj2 (Hk2 _ _)), Hh1, decide_False; [done|]. intros [-> ->]. done.
Qed.

(** ** Any operations, one after another *)

Inductive InboxOp :=
| HoldOp (event_id : bytes) (now : Z) (relay : bytes) (letter : Z) (kind : byte) (content_hash : bytes)
| DeliverOp (event_id : bytes) (now : Z) (relay : bytes) (letter : Z) (how : Release).
Definition receive (op : InboxOp) (st : Store) : Store :=
  match op with
  | HoldOp event_id now relay letter kind hash => (hold event_id now relay letter kind hash st).2
  | DeliverOp event_id now relay letter how => (deliver event_id now relay letter how st).2
  end.
Definition receive_all (ops : list InboxOp) (st : Store) : Store := foldl (fun st op => receive op st) st ops.

Lemma usage_bounds relay st : inbox_ok st -> us_held (usage relay st) <= us_span (usage relay st) <= us_capacity (usage relay st) /\ us_capacity (usage relay st) <= MAX_CAPACITY /\
  (0 < us_span (usage relay st) -> exists l, us_head (usage relay st) = Some l /\ is_Some (held relay l st)).
Proof.
  intros HO. set (mine := filter (fun s => is_relay s = relay) (rt_inbox_slots (st_rings st))).
  assert (forall s, s ∈ mine -> exists r, ring_row InboxRing relay st = Some r /\ is_index s ∈ ring_span r) as Hspan.
  { intros s [Hr Hs]%list_elem_of_filter. apply (ro_held _ _ (ib_ring _ HO)). apply in_slot_held. by exists s. }
  assert (NoDup (map is_index mine)) as HN.
  { pose proof (ib_places _ HO) as HN. apply (NoDup_map_filter _ (fun s => is_relay s = relay)) in HN. fold mine in HN. unfold mine in *. clear -HN. induction (rt_inbox_slots (st_rings st)) as [|s l IH]; [constructor|].
    destruct (decide (is_relay s = relay)) as [E|E]; [rewrite filter_cons_True in * by done|rewrite filter_cons_False in * by done; by apply IH]. cbn in *. apply NoDup_cons in HN as [Hs HN]. constructor; [|by apply IH].
    intros (s' & Ei & [Er Hs']%list_elem_of_filter)%list_elem_of_fmap. apply Hs. apply list_elem_of_fmap. exists s'. split; [unfold in_place; congruence|by apply list_elem_of_filter]. }
  unfold usage, ring_load. fold mine. destruct (ring_row InboxRing relay st) as [r|] eqn:Er; cbn.
  - destruct (ring_row_check _ _ _ _ (ro_rows _ _ (ib_ring _ HO)) Er) as [_ (Hc1 & Hc2 & Hc3 & Hc4 & Hc5)%ring_check_spec]. split; [split; [|done]|split; [lia|]].
    + rewrite <- (length_map is_index mine). transitivity (length (ring_span r)); [|unfold ring_span, span; by rewrite length_map, length_seq]. apply submseteq_length, NoDup_submseteq; [done|].
      intros i (s & -> & Hs)%list_elem_of_fmap. destruct (Hspan s Hs) as (r' & Hr' & Hi). by injection Hr' as <-.
    + intros Hp. pose proof (ro_head _ _ (ib_ring _ HO) _ _ Er Hp) as (s & Hs & H1 & H2)%in_slot_held. destruct (first_row (in_slot relay (rg_read_index r)) _) as [s'|] eqn:Ef.
      * exists (is_letter s'). split; [done|]. apply first_row_Some in Ef as [Hin [H3 H4]%bool_decide_eq_true]. unfold held, find_slot. apply fmap_is_Some. destruct (first_row (slot_for relay (is_letter s')) _) eqn:E'; [by eexists|].
        rewrite first_row_None in E'. specialize (E' s' Hin). unfold slot_for in E'. by rewrite bool_decide_true in E'.
      * rewrite first_row_None in Ef. specialize (Ef s Hs). unfold in_slot in Ef. by rewrite bool_decide_true in Ef.
  - assert (mine = []) as ->; [|cbn; unfold RING_CAPACITY, MAX_CAPACITY; lia]. apply list_nil_no_elem. intros s Hs. destruct (Hspan s Hs) as (r' & Hr' & _). done.
Qed.

Lemma receive_kept op st : inbox_ok st -> inbox_ok (receive op st) /\
  forall relay letter hash, held relay letter st = Some hash -> match op with DeliverOp _ _ r l _ => (r, l) <> (relay, letter) | HoldOp _ _ _ _ _ _ => True end -> held relay letter (receive op st) = Some hash.
Proof.
  intros HO. destruct op as [event_id now relay letter kind hash|event_id now relay letter how]; cbn [receive].
  - destruct (hold event_id now relay letter kind hash st) as [r st'] eqn:E. cbn [snd]. pose proof (hold_run _ _ _ _ _ _ _ _ _ HO E) as HR. destruct r; [|subst st'; by split]. destruct HR as (_ & Hno & HO' & _ & _ & Hoth & _).
    split; [done|]. intros r l h Hh _. rewrite Hoth; [done|]. intros [= -> ->]. congruence.
  - destruct (deliver event_id now relay letter how st) as [r st'] eqn:E. cbn [snd]. pose proof (deliver_run _ _ _ _ _ _ _ _ HO E) as HR. destruct r; [|subst st'; by split]. destruct HR as (HO' & _ & _ & Hoth).
    split; [done|]. intros r l h Hh Hne. by rewrite (proj1 (Hoth _ _ (not_eq_sym Hne))).
Qed.

(** a letter taken into the inbox is held, with the hash it was pulled with, until
    it is opened or dropped, whatever else is pulled, opened or dropped meanwhile. At
    every moment the letters held fit in the span of the ring and the span in its
    capacity, and while the span is not empty its oldest slot is a held letter, so
    opening that one frees room. *)
Theorem inbox_keeps_letters ops st relay letter hash : inbox_ok st -> held relay letter st = Some hash -> (forall event_id now how, DeliverOp event_id now relay letter how ∉ ops) ->
  let st' := receive_all ops st in
  inbox_ok st' /\ held relay letter st' = Some hash /\ is_known relay letter st' = true /\
  forall r, us_held (usage r st') <= us_span (usage r st') <= us_capacity (usage r st') /\ us_capacity (usage r st') <= MAX_CAPACITY /\
    (0 < us_span (usage r st') -> exists l, us_head (usage r st') = Some l /\ is_Some (held r l st')).
Proof.
  intros HO Hh Hops. cbv zeta. assert (inbox_ok (receive_all ops st) /\ held relay letter (receive_all ops st) = Some hash) as [HO' Hh'].
  { revert st HO Hh. induction ops as [|op ops IH]; intros st HO Hh; [done|]. destruct (receive_kept op st HO) as [HO1 Hk]. apply IH; [|done|].
    - intros e n h Hin. apply (Hops e n h). by right.
    - apply Hk; [done|]. destruct op as [|e n r l how]; [done|]. intros [= -> ->]. apply (Hops e n how). left. }
  split; [done|]. split; [done|]. split; [|intros r; by apply usage_bounds]. unfold held in Hh'. destruct (find_slot relay letter _) as [s|] eqn:Ef; [|done]. apply first_row_Some in Ef as [Hin [<- <-]%bool_decide_eq_true]. by apply HO'.
Qed.
End laws.
