(* ===== verification/RingDemo.v ===== *)
(** * Rings on a small store

    Alice's store knows Bob's key: a letter is queued, sent and refused, an exchange
    takes its steps, and letters arrive, which are the inputs the theorems on rings
    are applied to. *)

From S2P Require Import Prelude Text Crypto Envelope HistoryCodec Event Revision RevisionGraph Policy Container Authority Snapshot Exchange.
From S2P Require Import Tables KeyStore Signing Aead Clock BridgePackage PrivateBridge BridgeRoster BridgeSafety Pin TreeLaws Ring RingHistory Outbox OutboxLaws OutboxMachine OutboxClaims Inbox.

(** A store whose rings were never used. *)
Lemma ring_ok_empty T st : rings_of T (st_rings st) = [] -> (forall key i, slot_held T key i st = false) -> ring_ok T st.
Proof.
  intros E H. split; [split; rewrite E; constructor| |]; intros key; [intros i; by rewrite H|]. intros r. unfold ring_row. by rewrite E.
Qed.
Lemma outbox_empty st owner : rt_outbox_rings (st_rings st) = [] -> rt_outbox_slots (st_rings st) = [] -> queue_is owner st {| q_capacity := DEFAULT_CAPACITY; q_letters := []; q_sent := 0 |}.
Proof. intros E1 E2. assert (ring owner st = unused owner) as E by (unfold ring, load_ring, ring_row; cbn; by rewrite E1). split; rewrite E; [done|constructor|done]. Qed.
Lemma outbox_ok_empty st : rt_outbox_rings (st_rings st) = [] -> rt_outbox_slots (st_rings st) = [] -> outbox_ok st.
Proof. intros E1 E2. split; [apply ring_ok_empty; [done|]; intros; cbn; by rewrite E2|]. intros owner. eexists. by apply outbox_empty. Qed.

Module RingDemo.
Definition alice : bytes := str "alice".
Definition bob : bytes := str "bob".
Definition hex (b : bytes) : bytes := b.
#[local] Instance hex_toy : Hex := hex.
#[local] Instance crypto_toy : Crypto := Toy.toy.
#[local] Instance clock_toy : Clock := ToyClock.toy.

Definition key (id : nat) (label : bytes) (t : KeyType) (b : byte) : HardwareKey :=
  {| hk_id := id; hk_label := label; hk_key_type := t; hk_fingerprint := label; hk_public_key := replicate 32 b; hk_revoked := false |}.
Definition st0 : Store := set_hardware [key 1 alice Signing x01; key 2 bob Encryption x02] PinDemo.empty.
Definition letter_of (kind b : byte) : bytes := str "KQPB" ++ [x02; kind] ++ replicate 32 b ++ be_bytes 4 3 ++ str "abc".
Definition data : bytes := letter_of x0d x02.
Definition eid : bytes := replicate 16 x07.
Definition nonce : bytes := str "nonce".

Definition st1 : Store := Eval vm_compute in (push eid 100 alice bob data None st0).2.
Definition item : QueuedItem := Eval vm_compute in item_of (new_slot 100 alice bob data x0d 0).
Definition slot : OutSlot := Eval vm_compute in new_slot 100 alice bob data x0d 0.
Definition st2 : Store := Eval vm_compute in (claim_head nonce 200 alice Respect st1).2.
Definition st3 : Store := Eval vm_compute in (finish_head eid nonce 201 alice item st2).2.

Definition q0 : Queue := {| q_capacity := DEFAULT_CAPACITY; q_letters := []; q_sent := 0 |}.
Definition flight (d : bool) : Flight := {| fl_token := nonce; fl_item := item; fl_data := data; fl_delivered := d |}.
Definition final : System := {| sy_store := st3; sy_flights := []; sy_tokens := [nonce]; sy_pushed := [slot]; sy_left := [(slot, true)]; sy_delivered := [(bob, data)] |}.

Lemma st0_ok : outbox_ok st0. Proof. by apply outbox_ok_empty. Qed.
Lemma q0_is owner : queue_is owner st0 q0. Proof. by apply outbox_empty. Qed.
Lemma lines_ok : timelines_ok st0. Proof. by apply timelines_ok_empty. Qed.

(** Pushed, claimed, delivered, freed. *)
Lemma run : rtc (step alice) (initial st0 q0) final.
Proof.
  eapply rtc_l; [apply (step_push alice eid 100 bob data None item st0 st1 [] [] [] [] [] slot); vm_compute; reflexivity|].
  eapply rtc_l; [apply (step_claim alice nonce 200 Respect item data st1 st2 [] [] [slot] [] []); [vm_compute; reflexivity|by apply not_elem_of_nil]|].
  eapply rtc_l; [apply (step_deliver alice st2 (flight false) [] [] [nonce] [slot] [] []); reflexivity|].
  eapply rtc_l; [apply (step_finish alice eid 201 st2 st3 (flight true) [] [] [nonce] [slot] [] [(bob, data)]); [reflexivity|vm_compute; reflexivity]|].
  match goal with |- rtc _ ?a ?b => replace a with b; [constructor|] end. vm_compute. reflexivity.
Qed.
End RingDemo.

Lemma outbox_exactly_once_witness : exists q', queue_is RingDemo.alice (sy_store RingDemo.final) q' /\ sy_pushed RingDemo.final = map fst (sy_left RingDemo.final) ++ map letter (q_letters q') /\
  q_sent q' = 1%N.
Proof.
  destruct (outbox_exactly_once (C := Toy.toy) (CL := ToyClock.toy) (HX := RingDemo.hex) RingDemo.alice RingDemo.st0 RingDemo.q0 RingDemo.final RingDemo.st0_ok (RingDemo.q0_is _) ltac:(constructor) RingDemo.run) as (q' & H1 & H2 & _ & H3 & _).
  exists q'. split; [exact H1|]. split; [exact H2|]. rewrite H3. vm_compute. reflexivity.
Defined.

Module RingDemo2.
Import RingDemo.
#[local] Existing Instances hex_toy crypto_toy clock_toy.
#[local] Existing Instances Toy.toy_laws ToyClock.clock_toy_laws.

Lemma room : timeline_room eid 100 alice bob data st0.
Proof.
  split; [apply lines_ok|done| |].
  - intros es [HR _]. apply Forall2_nil_inv_l in HR as ->. done.
  - intros kind. split; [|split; [done|by apply slot_details_wf]]. destruct kind; vm_compute; reflexivity.
Qed.

Definition q1 : Queue := {| q_capacity := DEFAULT_CAPACITY; q_letters := [slot]; q_sent := 0 |}.
Lemma q1_is : queue_is alice st1 q1.
Proof. split; [reflexivity| |reflexivity]. change (ring_span (ring alice st1)) with [0]. constructor; [reflexivity|constructor]. Qed.
Lemma st1_ok : outbox_ok st1.
Proof.
  assert (push eid 100 alice bob data None st0 = (Ok item, st1)) as E by (vm_compute; reflexivity). destruct (push_run _ _ _ _ _ _ _ _ _ _ st0_ok (q0_is alice) E) as (kind & _ & _ & _ & _ & HO & _). exact HO.
Qed.
Definition deliver_ok (item : QueuedItem) (data : bytes) : dbM unit := db_try (Ok tt).
Definition sent : result (option QueuedItem) * Store := send_head eid nonce 200 201 alice Respect deliver_ok st1.
Lemma sent_Ok : sent.1 = Ok (Some item).
Proof. vm_compute. reflexivity. Qed.

(** Sealed to a key the store does not hold for Bob. *)
Definition stray : bytes := letter_of x0d x03.
Lemma stray_refused : departure_check alice bob stray None st0 = inr (denied_new UnrecognisedDestination (Some x0d)).
Proof. vm_compute. reflexivity. Qed.
Lemma refusals_none : refusals_ok st0.
Proof. split; [constructor|]. intros owner. cbn. lia. Qed.

Definition ops : list Operation := [PushOp eid 100 alice bob data None; PushOp eid 101 alice bob stray None; SendOp eid nonce 200 201 alice Respect (fun _ _ => Ok tt); DropOp eid 300 alice TakeOver].

Definition relay : bytes := str "relay".
Definition hash : bytes := str "hash".
Definition in1 : Store := Eval vm_compute in (hold eid 100 relay 7 x0d hash st0).2.
Definition in_ops : list InboxOp := [HoldOp eid 101 relay 8 x0d hash; DeliverOp eid 102 relay 8 Opened].
Lemma inbox_start : inbox_ok st0.
Proof. split; [by apply ring_ok_empty|constructor|constructor|]. intros s Hs. by apply not_elem_of_nil in Hs. Qed.
Lemma in1_ok : inbox_ok in1.
Proof. assert (hold eid 100 relay 7 x0d hash st0 = (Ok tt, in1)) as E by (vm_compute; reflexivity). destruct (hold_run _ _ _ _ _ _ _ _ _ inbox_start E) as (_ & _ & HO & _). exact HO. Qed.
Lemma not_delivered : forall event_id now how, DeliverOp event_id now relay 7 how ∉ in_ops.
Proof. intros e n h [E|[E|E]%elem_of_cons]%elem_of_cons; [discriminate E|discriminate E|by apply not_elem_of_nil in E]. Qed.
End RingDemo2.

Lemma push_exact_witness : is_ok ((push (C := Toy.toy) (CL := ToyClock.toy) (HX := RingDemo.hex) RingDemo.eid 100 RingDemo.alice RingDemo.bob RingDemo.data None RingDemo.st0).1) = true /\
  exists kind, admissible RingDemo.alice RingDemo.bob RingDemo.data None RingDemo.st0 kind.
Proof.
  destruct (push_exact (C := Toy.toy) (CL := ToyClock.toy) (HX := RingDemo.hex) (CryptoLaws0 := Toy.toy_laws) RingDemo.eid 100 RingDemo.alice RingDemo.bob RingDemo.data None RingDemo.st0 RingDemo.q0
    RingDemo.st0_ok (RingDemo.q0_is _) RingDemo2.room) as [[H _] _]. assert (is_ok ((push (C := Toy.toy) (CL := ToyClock.toy) (HX := RingDemo.hex) RingDemo.eid 100 RingDemo.alice RingDemo.bob RingDemo.data None RingDemo.st0).1) = true) as E by (vm_compute; reflexivity).
  split; [exact E|]. apply (H E).
Defined.

Lemma send_delivers_oldest_witness : exists q', queue_is RingDemo.alice (RingDemo2.sent.2) q' /\ q_letters q' = [] /\ q_sent q' = 1%N.
Proof.
  destruct (send_delivers_oldest (C := Toy.toy) (CL := ToyClock.toy) (HX := RingDemo.hex) RingDemo.eid RingDemo.nonce 200 201 RingDemo.alice Respect RingDemo2.deliver_ok RingDemo.st1 RingDemo2.q1
    (Ok (Some RingDemo.item)) (RingDemo2.sent.2) RingDemo2.st1_ok RingDemo2.q1_is (fun _ _ => respects_try _ _) eq_refl) as (_ & q' & H1 & _ & s & rest & ? & ? & H2 & _ & _ & _ & H3 & H4).
  - rewrite <- RingDemo2.sent_Ok. apply surjective_pairing.
  - exists q'. split; [exact H1|]. injection H2 as _ <-. split; [exact H3|exact H4].
Defined.

Lemma refusal_recorded_witness : let out := push (C := Toy.toy) (CL := ToyClock.toy) (HX := RingDemo.hex) RingDemo.eid 100 RingDemo.alice RingDemo.bob RingDemo2.stray None RingDemo.st0 in
  refusals_ok (out.2) /\ out.1 = Err UntrustedRecipient.
Proof.
  cbv zeta. split; [|vm_compute; reflexivity].
  apply (refusal_recorded (C := Toy.toy) (CL := ToyClock.toy) (HX := RingDemo.hex) RingDemo.eid 100 RingDemo.alice RingDemo.bob RingDemo2.stray None RingDemo.st0 (denied_new UnrecognisedDestination (Some x0d)) _ _
    RingDemo2.refusals_none eq_refl RingDemo2.stray_refused (surjective_pairing _)).
Defined.

Lemma timeline_append_only_witness : exists s s', snapshot (C := Toy.toy) (OutboxLine RingDemo.alice) RingDemo.st0 = Ok s /\
  snapshot (C := Toy.toy) (OutboxLine RingDemo.alice) (operate_all (C := Toy.toy) (CL := ToyClock.toy) (HX := RingDemo.hex) RingDemo2.ops RingDemo.st0) = Ok s' /\ is_prefix_of_snapshot (C := Toy.toy) s s' = true.
Proof.
  apply (timeline_append_only (C := Toy.toy) (CL := ToyClock.toy) (HX := RingDemo.hex) (CryptoLaws0 := Toy.toy_laws) (ClockLaws0 := ToyClock.clock_toy_laws) RingDemo2.ops RingDemo.st0 (OutboxLine RingDemo.alice)
    RingDemo.lines_ok ltac:(constructor)). repeat constructor.
Defined.

Lemma inbox_keeps_letters_witness : held RingDemo2.relay 7 (receive_all (C := Toy.toy) (CL := ToyClock.toy) RingDemo2.in_ops RingDemo2.in1) = Some RingDemo2.hash.
Proof.
  apply (inbox_keeps_letters (C := Toy.toy) (CL := ToyClock.toy) RingDemo2.in_ops RingDemo2.in1 RingDemo2.relay 7 RingDemo2.hash RingDemo2.in1_ok eq_refl RingDemo2.not_delivered).
Defined.
