(* ===== verification/Device.v ===== *)
(** * Device containers ([src/src/device.rs])

    A directory that holds slot tokens ([Aead]) and a signed descriptor of them.
    A function that takes a [Storage] and a [&mut Container] is a computation on
    both; what it has changed stays changed when it fails, in memory and on disk.
    New keys, salts and nonces are arguments. *)

From stdpp Require Import gmap.
From S2P Require Import Prelude Text Crypto Envelope HistoryCodec Event Authority Signing Tables KeyStore Aead World.

(** ** Computations on a state *)

Definition stM (Σ A : Type) : Type := Σ -> result A * Σ.
#[global] Instance stM_ret Σ : MRet (stM Σ) := fun _ a s => (Ok a, s).
#[global] Instance stM_bind Σ : MBind (stM Σ) := fun _ _ k m s =>
  match m s with (Ok a, s') => k a s' | (Err e, s') => (Err e, s') end.
Definition st_try {Σ A} (r : result A) : stM Σ A := fun s => (r, s).
(** [let _ = ..] *)
Definition st_ignore {Σ A} (m : stM Σ A) : stM Σ unit := fun s => (Ok tt, (m s).2).
(** The [Result] of a call as a value. *)
Definition st_attempt {Σ A} (m : stM Σ A) : stM Σ (result A) := fun s => let '(r, s) := m s in (Ok r, s).
Fixpoint st_each {Σ A} (f : A -> stM Σ unit) (l : list A) : stM Σ unit :=
  match l with [] => mret tt | a :: l => f a ≫= fun _ => st_each f l end.
(** A computation on a part of the state. *)
Definition zoom {Σ T A} (get : Σ -> T) (put : T -> Σ -> Σ) (m : stM T A) : stM Σ A := fun s =>
  let '(r, t) := m (get s) in (r, put t s).

(** ** Containers *)

Definition DEVICE_MAGIC : bytes := str "KQDV".
Definition DEVICE_VERSION : byte := x02.
Definition DESC_DOMAIN : bytes := str "KQ-DEVICE-DESC-v2".

Record SlotRecord := { sl_label : bytes; sl_encryption_public : bytes; sl_signing_public : bytes }.
Record Container := { ct_path : bytes; ct_device_id : bytes; ct_verify_key : bytes; ct_slots : list SlotRecord }.
Definition set_slots (l : list SlotRecord) (c : Container) : Container :=
  {| ct_path := ct_path c; ct_device_id := ct_device_id c; ct_verify_key := ct_verify_key c; ct_slots := l |}.

Definition slot_is (label : bytes) (s : SlotRecord) : bool := bool_decide (sl_label s = label).
Definition slot (c : Container) (label : bytes) : option SlotRecord := first_row (slot_is label) (ct_slots c).

Record ProvisionedSlot := {
  prov_label : bytes; prov_encryption_public : bytes; prov_signing_public : bytes; prov_encryption_secret : bytes; prov_signing_secret : bytes }.

Definition verification_container (device_id verify_key : bytes) : Container :=
  {| ct_path := []; ct_device_id := device_id; ct_verify_key := verify_key; ct_slots := [] |}.

(** [label.contains("..")] *)
Fixpoint has_dotdot (l : bytes) : bool :=
  match l with
  | a :: ((b :: _) as r) => bool_decide (a = dot /\ b = dot) || has_dotdot r
  | _ => false
  end.
(** [is_ascii_alphanumeric], or one of [.], [-] and [_]. *)
Definition slot_char (b : byte) : bool :=
  let n := Byte.to_N b in
  ((48 <=? n)%N && (n <=? 57)%N) || ((65 <=? n)%N && (n <=? 90)%N) || ((97 <=? n)%N && (n <=? 122)%N) || bool_decide (b ∈ str ".-_").
Definition validate_slot_label (label : bytes) : result unit :=
  if bool_decide (label = []) || (128 <? length label) || has_dotdot label || negb (forallb slot_char label) then Err InvalidSlot else Ok tt.

(** [Path::join] with a relative name. *)
Definition path_join (path name : bytes) : bytes :=
  if bool_decide (path = []) then name
  else if bool_decide (last path = Some slash) then path ++ name else path ++ slash :: name.

(** The directory of a token is the [parent()] of its path. *)
Definition token_dir (c : Container) (label : bytes) : bytes := path_join (path_join (ct_path c) (str "vault")) (str "slot-" ++ label).
Definition token_path (c : Container) (label : bytes) : result bytes :=
  validate_slot_label label ≫= fun _ => Ok (path_join (token_dir c label) (str "token.kqst")).
Definition descriptor_path (c : Container) : bytes := path_join (ct_path c) (str "device.kq").
Definition descriptor_tmp (c : Container) : bytes := path_join (ct_path c) (str ".device.kq.tmp").
Definition skey_path (c : Container) : bytes := path_join (ct_path c) (str "device.skey").

(** ** The descriptor *)

Definition push_slot (s : SlotRecord) : result bytes :=
  label ← push_len_prefixed (sl_label s); Ok (label ++ sl_encryption_public s ++ sl_signing_public s).

Definition descriptor_preimage (device_id verify_key : bytes) (slots : list SlotRecord) : result bytes :=
  count ← map_err InvalidDevice (try_u16 (length slots));
  body ← encode_all push_slot slots;
  Ok (DESC_DOMAIN ++ device_id ++ verify_key ++ be_bytes 2 count ++ body).

Definition encode_descriptor (device_id verify_key signature : bytes) (slots : list SlotRecord) : result bytes :=
  count ← map_err InvalidDevice (try_u16 (length slots));
  body ← encode_all push_slot slots;
  Ok (DEVICE_MAGIC ++ [DEVICE_VERSION] ++ device_id ++ verify_key ++ signature ++ be_bytes 2 count ++ body).

Definition take_slot : parser SlotRecord :=
  label ← take_label;
  lift (validate_slot_label label) ≫= fun _ =>
  encryption_public ← take_array 32;
  signing_public ← take_array 32;
  mret {| sl_label := label; sl_encryption_public := encryption_public; sl_signing_public := signing_public |}.
Definition take_descriptor : parser (bytes * bytes * bytes * list SlotRecord) :=
  device_id ← take_array DEVICE_ID_LEN;
  verify_key ← take_array 32;
  signature ← take_array 64;
  count ← take_array 2;
  slots ← repeat_parser (N.to_nat (of_be count)) take_slot;
  mret (device_id, verify_key, signature, slots).

Section descriptor.
Context `{C : Crypto}.
Definition decode_descriptor (bytes : bytes) : result (Prelude.bytes * Prelude.bytes * list SlotRecord) :=
  if (length bytes <? 4 + 1 + DEVICE_ID_LEN + 32 + 64 + 2) || negb (bool_decide (take 4 bytes = DEVICE_MAGIC)) then Err InvalidDevice else
  '(version, data) ← take_u8 (drop 4 bytes);
  if negb (bool_decide (version = DEVICE_VERSION)) then Err InvalidDevice else
  '(fields, data) ← take_descriptor data;
  let '(device_id, verify_key, signature, slots) := fields in
  if negb (bool_decide (data = [])) then Err InvalidDevice else
  preimage ← descriptor_preimage device_id verify_key slots;
  verify_signature verify_key preimage signature ≫= fun _ => Ok (device_id, verify_key, slots).
End descriptor.

(** ** Operations *)

Record Dev `{S : Storage} := { dv_disk : disk; dv_box : Container }.
#[global] Arguments Dev : clear implicits.
#[global] Arguments Dev S : rename.
Definition devM (S : Storage) (A : Type) : Type := stM (Dev S) A.

Section device.
Context `{S : Storage} `{C : Crypto} `{A : Aead}.
Notation devM := (stM (Dev S)).

Definition box : devM Container := fun d => (Ok (dv_box d), d).
Definition with_box (f : Container -> Container) : devM unit := fun d => (Ok tt, {| dv_disk := dv_disk d; dv_box := f (dv_box d) |}).
Definition on_disk {B} (f : disk -> result B * disk) : devM B := fun d => let '(r, k) := f (dv_disk d) in (r, {| dv_disk := k; dv_box := dv_box d |}).
Definition read_file (path : bytes) : devM bytes := on_disk (fun k => (storage_read k path, k)).
Definition file_exists (path : bytes) : devM bool := on_disk (fun k => (Ok (exists_path k path), k)).
Definition delete_file (path : bytes) : devM unit := on_disk (fun k => storage_delete k path).
Definition write_file (path contents : bytes) : devM unit := on_disk (fun k => storage_write_new k path contents).
Definition remove_empty_dir (path : bytes) : devM unit := on_disk (fun k => (Ok tt, storage_remove_empty_dir k path)).

Definition device_signing_secret_in : devM bytes :=
  c ← box; bytes ← read_file (skey_path c); if length bytes =? 32 then mret bytes else st_try (Err InvalidDevice).

Definition store_descriptor : devM unit :=
  secret ← device_signing_secret_in;
  c ← box;
  preimage ← st_try (descriptor_preimage (ct_device_id c) (ct_verify_key c) (ct_slots c));
  let signature := sign secret preimage in
  bytes ← st_try (encode_descriptor (ct_device_id c) (ct_verify_key c) signature (ct_slots c));
  there ← file_exists (descriptor_tmp c);
  (if (there : bool) then delete_file (descriptor_tmp c) else mret tt) ≫= fun _ =>
  write_file (descriptor_tmp c) bytes ≫= fun _ =>
  on_disk (fun k => storage_rename k (descriptor_tmp c) (descriptor_path c)).

Definition write_token (salt nonce label passphrase encryption_secret signing_secret : bytes) : devM unit :=
  c ← box;
  path ← st_try (token_path c label);
  on_disk (fun k => storage_create_dir_all k (token_dir c label)) ≫= fun _ =>
  bytes ← st_try (seal_token salt nonce label (ct_device_id c) encryption_secret signing_secret passphrase);
  write_file path bytes.

(** [device_id] and [secret] are the id and the signing key drawn. *)
Definition init_in (device_id secret path : bytes) : stM disk Container := fun k =>
  match storage_create_dir_all k path with
  | (Err e, k) => (Err e, k)
  | (Ok _, k) =>
  match storage_create_dir_all k (path_join path (str "vault")) with
  | (Err e, k) => (Err e, k)
  | (Ok _, k) =>
  let container := {| ct_path := path; ct_device_id := device_id; ct_verify_key := public_key secret; ct_slots := [] |} in
  if exists_path k (descriptor_path container) then (Err InvalidDevice, k) else
  let '(r, d) := (write_file (skey_path container) secret ≫= fun _ => store_descriptor ≫= fun _ => box) {| dv_disk := k; dv_box := container |} in
  (r, dv_disk d)
  end end.

Definition open_in (k : disk) (path : bytes) : result Container :=
  bytes ← storage_read k (path_join path (str "device.kq"));
  '(device_id, verify_key, slots) ← decode_descriptor bytes;
  Ok {| ct_path := path; ct_device_id := device_id; ct_verify_key := verify_key; ct_slots := slots |}.

Definition add_slot (s : SlotRecord) : devM unit := with_box (fun c => set_slots (ct_slots c ++ [s]) c).

Definition provision_in (encryption_secret signing_secret salt nonce label passphrase : bytes) : devM ProvisionedSlot :=
  st_try (validate_slot_label label) ≫= fun _ =>
  if bool_decide (passphrase = []) then st_try (Err InvalidPassword) else
  c ← box;
  if bool_decide (is_Some (slot c label)) then st_try (Err InvalidSlot) else
  write_token salt nonce label passphrase encryption_secret signing_secret ≫= fun _ =>
  add_slot {| sl_label := label; sl_encryption_public := box_public encryption_secret; sl_signing_public := public_key signing_secret |} ≫= fun _ =>
  store_descriptor ≫= fun _ =>
  mret {| prov_label := label; prov_encryption_public := box_public encryption_secret; prov_signing_public := public_key signing_secret;
          prov_encryption_secret := encryption_secret; prov_signing_secret := signing_secret |}.

Definition open_slot_in (label passphrase : bytes) (d : Dev S) : result SlotSecrets :=
  record ← ok_or (slot (dv_box d) label) InvalidSlot;
  path ← token_path (dv_box d) label;
  bytes ← storage_read (dv_disk d) path;
  open_slot_token bytes label passphrase (ct_device_id (dv_box d)) (sl_signing_public record) (sl_encryption_public record).

Definition install_slot_in (salt nonce label passphrase encryption_secret signing_secret : bytes) : devM SlotRecord :=
  st_try (validate_slot_label label) ≫= fun _ =>
  if bool_decide (passphrase = []) then st_try (Err InvalidPassword) else
  c ← box;
  if bool_decide (is_Some (slot c label)) then st_try (Err InvalidSlot) else
  write_token salt nonce label passphrase encryption_secret signing_secret ≫= fun _ =>
  let record := {| sl_label := label; sl_encryption_public := box_public encryption_secret; sl_signing_public := public_key signing_secret |} in
  add_slot record ≫= fun _ =>
  store_descriptor ≫= fun _ => mret record.

Definition slot_matches (c : Container) (label encryption_secret signing_secret : bytes) : result bool :=
  match slot c label with
  | None => Ok false
  | Some record =>
      if negb (bool_decide (sl_encryption_public record = box_public encryption_secret)) || negb (bool_decide (sl_signing_public record = public_key signing_secret))
      then Err InvalidSlot else Ok true
  end.

(** [retain(|slot| slot.label != label)] *)
Definition drop_slot (label : bytes) (c : Container) : Container := set_slots (filter (fun s => sl_label s <> label) (ct_slots c)) c.

Definition remove_slot_in (label : bytes) : devM unit :=
  c ← box;
  source ← st_try (token_path c label);
  there ← file_exists source;
  (if (there : bool) then delete_file source else mret tt) ≫= fun _ =>
  remove_empty_dir (token_dir c label) ≫= fun _ =>
  with_box (drop_slot label) ≫= fun _ =>
  c' ← box;
  still ← file_exists source;
  if (length (ct_slots c') =? length (ct_slots c)) && negb still then st_try (Err InvalidSlot) else store_descriptor.

(** Two containers on one storage. *)
Record Two := { tw_disk : disk; tw_from : Container; tw_to : Container }.
Definition in_from {B} : stM (Dev S) B -> stM Two B :=
  zoom (fun t => {| dv_disk := tw_disk t; dv_box := tw_from t |}) (fun d t => {| tw_disk := dv_disk d; tw_from := dv_box d; tw_to := tw_to t |}).
Definition in_to {B} : stM (Dev S) B -> stM Two B :=
  zoom (fun t => {| dv_disk := tw_disk t; dv_box := tw_to t |}) (fun d t => {| tw_disk := dv_disk d; tw_from := tw_from t; tw_to := dv_box d |}).

Definition relocate_slot_in (salt nonce label passphrase : bytes) : stM Two unit :=
  from ← in_from box;
  to ← in_to box;
  if bool_decide (ct_device_id from = ct_device_id to) then st_try (Err InvalidDevice) else
  if bool_decide (is_Some (slot to label)) then st_try (Err InvalidSlot) else
  secrets ← in_from (fun d => (open_slot_in label passphrase d, d));
  in_to (
    write_token salt nonce label passphrase (ss_encryption_secret secrets) (ss_signing_secret secrets) ≫= fun _ =>
    add_slot {| sl_label := label; sl_encryption_public := ss_encryption_public secrets; sl_signing_public := ss_signing_public secrets |} ≫= fun _ =>
    store_descriptor) ≫= fun _ =>
  source ← st_try (token_path from label);
  in_from (
    delete_file source ≫= fun _ =>
    remove_empty_dir (token_dir from label) ≫= fun _ =>
    with_box (drop_slot label) ≫= fun _ =>
    store_descriptor).

Definition upsert_placement (hardware_key_id : nat) (device_id slot_label : bytes) : dbM unit :=
  execute (fun st => set_placements (<[hardware_key_id := (device_id, slot_label)]> (st_placements st)) st).

Definition bind_slot_in (slot_label passphrase : bytes) (d : Dev S) : dbM unit :=
  let c := dv_box d in
  secrets ← db_try (open_slot_in slot_label passphrase d);
  record ← db_try (ok_or (slot c slot_label) InvalidSlot);
  if negb (bool_decide (ss_encryption_public secrets = sl_encryption_public record)) then db_try (Err InvalidSlot) else
  encryption ← query (get_key_by_public_key (sl_encryption_public record));
  if negb (bool_decide (hk_key_type encryption = Encryption)) then db_try (Err WrongKeyType) else
  upsert_placement (hk_id encryption) (ct_device_id c) slot_label ≫= fun _ =>
  signing ← query (fun st => Ok (get_key_by_public_key (sl_signing_public record) st));
  match signing with
  | Ok signing =>
      if negb (bool_decide (hk_key_type signing = Signing)) then db_try (Err WrongKeyType) else
      upsert_placement (hk_id signing) (ct_device_id c) slot_label
  | Err _ => mret tt
  end.
End device.
