(* ===== verification/DeviceLaws.v ===== *)
(** * Laws of device containers

    What the operations of [Device] read and write, the descriptor's codec, and that a
    container implements a finite map from labels to secrets under passphrases. *)

From stdpp Require Import gmap.
From S2P Require Import Prelude Text Crypto Envelope HistoryCodec Event Authority Signing Tables KeyStore Aead World Device.

(** ** Computations on a state *)

Lemma st_step {Σ A B} (m : stM Σ A) (k : A -> stM Σ B) s a s1 : m s = (Ok a, s1) -> (m ≫= k) s = k a s1.
Proof. intros E. unfold mbind, stM_bind. by rewrite E. Qed.
Lemma st_fail {Σ A B} (m : stM Σ A) (k : A -> stM Σ B) s e s1 : m s = (Err e, s1) -> (m ≫= k) s = (Err e, s1).
Proof. intros E. unfold mbind, stM_bind. by rewrite E. Qed.
Lemma st_bind_Ok {Σ A B} (m : stM Σ A) (k : A -> stM Σ B) s b s' :
  (m ≫= k) s = (Ok b, s') -> exists a s1, m s = (Ok a, s1) /\ k a s1 = (Ok b, s').
Proof. unfold mbind, stM_bind. destruct (m s) as [[a|e] s1]; [|done]. eauto. Qed.
Lemma st_try_Ok {Σ A} (r : result A) (s : Σ) a s' : st_try r s = (Ok a, s') -> r = Ok a /\ s' = s.
Proof. unfold st_try. by intros [= -> ->]. Qed.

(** A relation between the state before and after, whatever the result. *)
Definition st_respects {Σ A} (R : Σ -> Σ -> Prop) (m : stM Σ A) : Prop := forall s r s', m s = (r, s') -> R s s'.

Section st_respects.
Context {Σ : Type} (R : Σ -> Σ -> Prop) `{!PreOrder R}.
Lemma st_respects_ret {A} (a : A) : st_respects R (mret a : stM Σ A).
Proof. intros s r s' [= _ <-]. reflexivity. Qed.
Lemma st_respects_try {A} (x : result A) : st_respects R (st_try x : stM Σ A).
Proof. intros s r s' [= _ <-]. reflexivity. Qed.
Lemma st_respects_bind {A B} (m : stM Σ A) (k : A -> stM Σ B) : st_respects R m -> (forall a, st_respects R (k a)) -> st_respects R (m ≫= k).
Proof.
  intros Hm Hk s r s'. unfold mbind, stM_bind. destruct (m s) as [[a|e] s1] eqn:E.
  - intros Ek. etransitivity; [by eapply Hm|by eapply Hk].
  - intros [= _ <-]. by eapply Hm.
Qed.
(** As above, where the rest runs in the states the first part leaves. *)
Lemma st_respects_bind_in {A B} (m : stM Σ A) (k : A -> stM Σ B) s r s' :
  (m ≫= k) s = (r, s') -> (forall x s1, m s = (x, s1) -> R s s1) -> (forall a s1, m s = (Ok a, s1) -> forall y s2, k a s1 = (y, s2) -> R s1 s2) -> R s s'.
Proof.
  unfold mbind, stM_bind. destruct (m s) as [[a|e] s1] eqn:E; intros H Hm Hk.
  - etransitivity; [by eapply Hm|by eapply Hk].
  - injection H as _ <-. by eapply Hm.
Qed.
Lemma st_respects_ignore {A} (m : stM Σ A) : st_respects R m -> st_respects R (st_ignore m).
Proof. intros Hm s r s' [= _ <-]. destruct (m s) as [x s1] eqn:E. by eapply Hm. Qed.
Lemma st_respects_each {A} (f : A -> stM Σ unit) l : (forall a, st_respects R (f a)) -> st_respects R (st_each f l).
Proof. intros Hf. induction l as [|a l IH]; [apply st_respects_ret|]. apply st_respects_bind; auto. Qed.
End st_respects.
Lemma st_respects_zoom {Σ T A} (R : Σ -> Σ -> Prop) (Q : T -> T -> Prop) (get : Σ -> T) put (m : stM T A) :
  st_respects Q m -> (forall s t, Q (get s) t -> R s (put t s)) -> st_respects R (zoom get put m).
Proof. intros Hm HR s r s'. unfold zoom. destruct (m (get s)) as [x t] eqn:E. intros [= _ <-]. apply HR. by eapply Hm. Qed.
#[export] Hint Resolve st_respects_ret st_respects_try : frame.

(** ** Paths *)

Definition plain (name : bytes) : Prop := name <> [] /\ slash ∉ name /\ name <> str "." /\ name <> str "..".

#[export] Instance plain_dec name : Decision (plain name).
Proof. unfold plain. apply _. Defined.

Lemma split_snoc c p n : c ∉ n -> split c (p ++ c :: n) = split c p ++ [n].
Proof.
  intros Hn. induction p as [|b p IH]; simpl; [rewrite decide_True by done; by rewrite split_no_sep_single|].
  case_decide; [by rewrite IH|]. rewrite IH. destruct (split c p) as [|q qs] eqn:E; [|done]. by apply split_ne in E.
Qed.

Lemma component_plain n : plain n -> component n = Some (Normal n).
Proof. intros (H1 & _ & H2 & H3). unfold component. by rewrite !bool_decide_false by done. Qed.

Lemma first_component (p q f : bytes) : p <> [] -> q <> [] ->
  (if bool_decide (p <> [] /\ f = []) then [RootDir] else if bool_decide (f = str ".") then [CurDir] else option_list (component f)) =
  (if bool_decide (q <> [] /\ f = []) then [RootDir] else if bool_decide (f = str ".") then [CurDir] else option_list (component f)).
Proof. intros Hp Hq. by rewrite (bool_decide_ext (p <> [] /\ f = []) (q <> [] /\ f = [])) by tauto. Qed.

Lemma components_snoc p n : p <> [] -> plain n -> components (p ++ slash :: n) = components p ++ [Normal n].
Proof.
  intros Hp Hn. pose proof Hn as (_ & Hs & _). unfold components. rewrite split_snoc by done. destruct (split slash p) as [|f r] eqn:E; [by apply split_ne in E|].
  cbn [app]. rewrite omap_app. cbn [omap list_omap].
  rewrite (component_plain n) by done. rewrite app_assoc. f_equal. f_equal.
  apply first_component; [by destruct p|done].
Qed.

Lemma components_join path name : plain name -> components (path_join path name) = components path ++ [Normal name].
Proof.
  intros Hn. unfold path_join. case_bool_decide as E.
  - subst. pose proof Hn as (H1 & Hs & H2 & _). unfold components. rewrite split_no_sep_single by done. simpl. rewrite bool_decide_false by naive_solver.
    by rewrite bool_decide_false, component_plain by done.
  - case_bool_decide as El; [|by apply components_snoc]. apply last_Some in El as [l ->]. rewrite <- app_assoc. cbn [app].
    destruct (decide (l = [])) as [->|Hl].
    { pose proof Hn as (H1 & Hs & H2 & _). unfold components. cbn [app Text.split].
      rewrite !decide_True by done. rewrite split_no_sep_single by done.
      rewrite !bool_decide_true by done. cbn [omap list_omap]. by rewrite (component_plain name). }
    rewrite components_snoc by done. f_equal. unfold components. rewrite split_snoc by apply not_elem_of_nil. destruct (split slash l) as [|f r] eqn:Ef; [by apply split_ne in Ef|].
    cbn [app]. rewrite omap_app. cbn. rewrite app_nil_r. f_equal.
    apply first_component; [by destruct l|done].
Qed.

(** ** Labels and the paths of a container *)

Lemma validate_slot_label_Ok label : validate_slot_label label = Ok tt <->
  label <> [] /\ length label <= 128 /\ has_dotdot label = false /\ forallb slot_char label = true.
Proof.
  unfold validate_slot_label. split.
  - destruct (_ || _) eqn:E; [done|]. intros _. bool_hyps. by rewrite <- Nat.ltb_ge.
  - intros (H1 & H2 & H3 & H4). rewrite bool_decide_false, (proj2 (Nat.ltb_ge _ _) H2), H3, H4 by done. done.
Qed.

Lemma slot_char_ascii b : slot_char b = true -> (Byte.to_N b < 128)%N /\ b <> slash /\ b <> x2c /\ b <> x3b /\ b <> x3d.
Proof. destruct b; vm_compute; intros; try done; split_and!; done. Qed.

Lemma slot_char_in label b : validate_slot_label label = Ok tt -> b ∈ label -> slot_char b = true.
Proof. intros (_ & _ & _ & HF)%validate_slot_label_Ok Hb. rewrite forallb_forall in HF. apply HF. by apply list_elem_of_In. Qed.

Definition name_desc : bytes := str "device.kq".
Definition name_tmp : bytes := str ".device.kq.tmp".
Definition name_skey : bytes := str "device.skey".
Definition token_name (label : bytes) : list Component := [Normal (str "vault"); Normal (str "slot-" ++ label); Normal (str "token.kqst")].

Lemma slot_name_plain label : validate_slot_label label = Ok tt -> plain (str "slot-" ++ label).
Proof.
  intros H. split; [done|]. split; [|done]. rewrite elem_of_app. intros [Hs|Hs].
  - revert Hs. by apply (bool_decide_eq_true_1 (slash ∉ str "slot-")).
  - apply (slot_char_in _ _ H), slot_char_ascii in Hs. naive_solver.
Qed.

Lemma token_components c label path : token_path c label = Ok path ->
  validate_slot_label label = Ok tt /\ components path = components (ct_path c) ++ token_name label.
Proof.
  unfold token_path, token_dir. intros ([] & EV & E)%bind_Ok. split; [done|]. injection E as <-.
  assert (plain (str "vault") /\ plain (str "token.kqst")) as [Hv Ht] by (split; by eapply bool_decide_eq_true_1).
  by rewrite !components_join, <- !app_assoc by (done || by apply slot_name_plain).
Qed.
Lemma token_path_ok c label : validate_slot_label label = Ok tt -> exists path, token_path c label = Ok path.
Proof. intros E. unfold token_path. rewrite E. cbn. eauto. Qed.
Lemma desc_components c : components (descriptor_path c) = components (ct_path c) ++ [Normal name_desc].
Proof. apply components_join; by eapply bool_decide_eq_true_1. Qed.
Lemma tmp_components c : components (descriptor_tmp c) = components (ct_path c) ++ [Normal name_tmp].
Proof. apply components_join; by eapply bool_decide_eq_true_1. Qed.
Lemma skey_components c : components (skey_path c) = components (ct_path c) ++ [Normal name_skey].
Proof. apply components_join; by eapply bool_decide_eq_true_1. Qed.

(** ** What an operation may change *)

Section changes.
Context `{S : Storage} `{!StorageLaws S}.

(** The container at [P] keeps its place and its identity, and only the files
    [names] of its directory may be other ones. *)
Definition kept (P : bytes) (names : list (list Component)) (d d' : Dev S) : Prop :=
  ct_path (dv_box d) = P ->
  ct_path (dv_box d') = P /\ ct_device_id (dv_box d') = ct_device_id (dv_box d) /\ ct_verify_key (dv_box d') = ct_verify_key (dv_box d) /\
  forall q, (forall n, n ∈ names -> components q <> components P ++ n) -> storage_read (dv_disk d') q = storage_read (dv_disk d) q.
#[export] Instance kept_preorder P names : PreOrder (kept P names).
Proof.
  split; [by intros d|]. intros d1 d2 d3 H12 H23 EP. destruct (H12 EP) as (E1 & E2 & E3 & E4), (H23 E1) as (F1 & F2 & F3 & F4).
  split_and!; [congruence..|]. intros q Hq. by rewrite F4, E4.
Qed.
Lemma kept_mono P names names' d d' : (forall n, n ∈ names -> n ∈ names') -> kept P names d d' -> kept P names' d d'.
Proof. intros Hn H EP. destruct (H EP) as (E1 & E2 & E3 & E4). split_and!; [done..|]. intros q Hq. apply E4. eauto. Qed.

Lemma kept_box {B} P names (k : Container -> stM (Dev S) B) :
  (forall c, ct_path c = P -> st_respects (kept P names) (k c)) -> st_respects (kept P names) (box ≫= k).
Proof. intros Hk d r d' E EP. exact (Hk (dv_box d) EP d r d' E EP). Qed.
Lemma kept_try {T B} P names (x : result T) (k : T -> stM (Dev S) B) :
  (forall a, x = Ok a -> st_respects (kept P names) (k a)) -> st_respects (kept P names) (st_try x ≫= k).
Proof. intros Hk d r d'. unfold mbind, stM_bind, st_try. destruct x as [a|e]; [by apply Hk|]. by intros [= _ <-]. Qed.
Lemma kept_with_box P names f :
  (forall c, ct_path (f c) = ct_path c /\ ct_device_id (f c) = ct_device_id c /\ ct_verify_key (f c) = ct_verify_key c) ->
  st_respects (kept P names) (with_box (S := S) f).
Proof. intros Hf d r d' [= _ <-] EP. cbn. destruct (Hf (dv_box d)) as (-> & -> & ->). done. Qed.
Lemma kept_read P names path : st_respects (kept P names) (read_file (S := S) path).
Proof. intros d r d' [= _ <-]. by intros ?. Qed.
Lemma kept_exists P names path : st_respects (kept P names) (file_exists (S := S) path).
Proof. intros d r d' [= _ <-]. by intros ?. Qed.
Lemma kept_create_dir P names path : st_respects (kept P names) (on_disk (S := S) (fun k => storage_create_dir_all k path)).
Proof.
  intros d r d'. unfold on_disk. destruct (storage_create_dir_all _ _) as [x k] eqn:E. intros [= _ <-] EP. split_and!; [done..|].
  intros q _. cbn. by eapply create_dir_reads.
Qed.
Lemma kept_remove_dir P names path : st_respects (kept P names) (remove_empty_dir (S := S) path).
Proof. intros d r d' [= _ <-] EP. split_and!; [done..|]. intros q _. cbn. apply remove_dir_reads. Qed.

Context (P : bytes) (names : list (list Component)) (path : bytes) (n : list Component) (Hpath : components path = components P ++ n) (Hn : n ∈ names).
Lemma kept_delete : st_respects (kept P names) (delete_file (S := S) path).
Proof.
  intros d r d'. unfold delete_file, on_disk. destruct (storage_delete _ _) as [[[]|e] k] eqn:E; intros [= _ <-] EP; cbn.
  - split_and!; [done..|]. intros q Hq. eapply delete_Ok; [done|]. rewrite Hpath. by apply Hq.
  - by apply delete_Err in E as ->.
Qed.
Lemma kept_write contents : st_respects (kept P names) (write_file (S := S) path contents).
Proof.
  intros d r d'. unfold write_file, on_disk. destruct (storage_write_new _ _ _) as [[[]|e] k] eqn:E; intros [= _ <-] EP; cbn.
  - split_and!; [done..|]. intros q Hq. eapply write_new_Ok; [done|]. rewrite Hpath. by apply Hq.
  - split_and!; [done..|]. intros q Hq. apply write_new_Err in E as [HF|(_ & HF & _)]; apply HF. rewrite Hpath. by apply Hq.
Qed.
Lemma kept_rename path' n' : components path' = components P ++ n' -> n' ∈ names -> n <> n' ->
  st_respects (kept P names) (on_disk (S := S) (fun k => storage_rename k path path')).
Proof.
  intros Hpath' Hn' Hne d r d'. unfold on_disk. destruct (storage_rename _ _ _) as [[[]|e] k] eqn:E; intros [= _ <-] EP; cbn.
  - split_and!; [done..|]. intros q Hq. apply rename_Ok in E as (_ & _ & E); [|rewrite Hpath, Hpath'; intros ?%app_inv_head; done].
    apply E; rewrite ?Hpath, ?Hpath'; by apply Hq.
  - by apply rename_Err in E as ->.
Qed.
End changes.
#[export] Hint Resolve kept_read kept_exists kept_create_dir kept_remove_dir : frame.

(** As [frame], on a container. *)
Ltac dev_frame :=
  cbv beta zeta;
  match goal with
  | |- st_respects _ (if _ then _ else _) => case_match; dev_frame
  | |- st_respects (kept _ _) (box ≫= _) => apply kept_box; intros ? ?; dev_frame
  | |- st_respects (kept _ _) (st_try _ ≫= _) => apply kept_try; intros ? ?; dev_frame
  | |- st_respects _ (_ ≫= _) => apply st_respects_bind; [apply _|dev_frame|intros ?; dev_frame]
  | |- _ => eauto with frame typeclass_instances
  end.

(** ** The descriptor's codec *)

Lemma slot_label_text label : validate_slot_label label = Ok tt -> text label.
Proof.
  intros (_ & _ & _ & HF)%validate_slot_label_Ok. apply is_utf8_ascii. rewrite forallb_forall in *. intros b Hb.
  apply N.ltb_lt. by apply slot_char_ascii, HF.
Qed.

Definition slot_wf (s : SlotRecord) : Prop :=
  validate_slot_label (sl_label s) = Ok tt /\ fixed 32 (sl_encryption_public s) /\ fixed 32 (sl_signing_public s).

Lemma slot_codec : codec_ok slot_wf push_slot take_slot.
Proof.
  split.
  - intros [label enc sig] b rest (Hv & He & Hs) E. unfold push_slot in E. inv_ok; subst. unfold take_slot. simpl in *.
    pose proof (slot_label_text _ Hv). enc_dec. erewrite parser_bind_eq by (by apply lift_Ok). enc_dec. done.
  - intros data [label enc sig] rest E. unfold take_slot in E. inv_parser. apply lift_Ok in H0 as [Hv ->]. destruct v0.
    apply take_n_Ok in H1 as [-> He], H2 as [-> Hs]. canon H label_codec. simplify_eq. split; [done|]. unfold push_slot. simpl. run_enc. close_enc.
Qed.

Definition box_wf (c : Container) : Prop := fixed DEVICE_ID_LEN (ct_device_id c) /\ fixed 32 (ct_verify_key c) /\ Forall slot_wf (ct_slots c) /\ NoDup (map sl_label (ct_slots c)).

Section descriptor.
Context `{C : Crypto}.

(** A descriptor is read exactly when it is the encoding of what is read, under a
    signature of the key it names over all of it. *)
Lemma decode_descriptor_iff data id key slots : decode_descriptor data = Ok (id, key, slots) <->
  fixed DEVICE_ID_LEN id /\ fixed 32 key /\ Forall slot_wf slots /\ exists signature preimage, fixed 64 signature /\
  encode_descriptor id key signature slots = Ok data /\ descriptor_preimage id key slots = Ok preimage /\ verify_signature key preimage signature = Ok tt.
Proof.
  unfold decode_descriptor. split.
  - destruct (_ || _) eqn:EG; [done|]. apply orb_false_iff in EG as [_ EM%negb_false_iff%bool_decide_eq_true].
    intros ([v rest] & Ev%take_u8_Ok & H)%bind_Ok. destruct (bool_decide (v = DEVICE_VERSION)) eqn:EV; [|done]. apply bool_decide_eq_true in EV as ->.
    apply bind_Ok in H as ([[[[id' key'] sig] slots'] data'] & ED & H). destruct (bool_decide (data' = [])) eqn:EE; [|done]. apply bool_decide_eq_true in EE as ->.
    apply bind_Ok in H as (preimage & EP & H). apply bind_Ok in H as ([] & EVS & H). injection H as -> -> ->. unfold take_descriptor in ED. inv_parser.
    repeat match goal with H : take_array _ _ = Ok _ |- _ => apply take_n_Ok in H as [-> ?] end.
    match goal with H : repeat_parser _ _ _ = Ok _ |- _ => apply (codec_repeat_canonical slot_codec) in H as (Hlen & HF & b & Eb & ->) end. simplify_eq.
    match goal with H : length ?c = 2 |- _ => destruct (u16_count_forth c _ H Hlen) as [En Ec] end.
    split_and!; [done..|]. eexists _, preimage. split_and!; [|unfold encode_descriptor; rewrite En; cbn; rewrite Eb; cbn; rewrite Ec|done..]; [done|].
    f_equal. rewrite <- (take_drop 4 data), EM, Ev. by rewrite app_nil_r.
  - intros (Hid & Hkey & HF & sig & preimage & Hs & EE & EP & EV). pose proof EE as EE'. unfold encode_descriptor in EE'. inv_ok; subst.
    assert (length (be_bytes 2 (N.of_nat (length slots))) = 2) as Hc by apply length_be_bytes.
    destruct (_ || _) eqn:EG.
    { exfalso. apply orb_true_iff in EG as [EG%Nat.ltb_lt|EG%negb_true_iff%bool_decide_eq_false].
      - unfold fixed in *. rewrite !length_app, Hc, Hid, Hkey, Hs in EG. simpl in EG. lia.
      - by rewrite take_app_length' in EG. }
    rewrite drop_app_length' by done. cbn [app take_u8 mbind result_bind]. rewrite bool_decide_true by done. cbn [negb].
    assert (forall rest, take_descriptor (id ++ key ++ sig ++ be_bytes 2 (N.of_nat (length slots)) ++ x0 ++ rest) = Ok (id, key, sig, slots, rest)) as ET.
    { intros rest. unfold take_descriptor. do 3 (erewrite parser_bind_eq by (by apply take_n_app)). erewrite parser_bind_eq by (by apply take_n_app).
      rewrite u16_count_back by done. erewrite parser_bind_eq by (by eapply (codec_repeat_roundtrip slot_codec)). done. }
    specialize (ET []). rewrite app_nil_r in ET. rewrite ET. cbn [mbind result_bind]. rewrite bool_decide_true by done. cbn [negb]. rewrite EP. cbn [mbind result_bind]. by rewrite EV.
Qed.
End descriptor.

(** ** The operations *)

Definition desc_names : list (list Component) := [[Normal name_tmp]; [Normal name_desc]].

Lemma slot_Some c label record : slot c label = Some record -> record ∈ ct_slots c /\ sl_label record = label.
Proof. intros [Hr E%bool_decide_eq_true]%first_row_Some. done. Qed.
Lemma slot_None c label : slot c label = None <-> label ∉ map sl_label (ct_slots c).
Proof.
  unfold slot. rewrite first_row_None. split.
  - intros H [r [-> Hr]]%list_elem_of_fmap. specialize (H r Hr). by apply bool_decide_eq_false in H.
  - intros H r Hr. apply bool_decide_eq_false. intros <-. apply H, list_elem_of_fmap_2, Hr.
Qed.
Lemma slot_app c s label : slot (set_slots (ct_slots c ++ [s]) c) label =
  match slot c label with Some r => Some r | None => if bool_decide (sl_label s = label) then Some s else None end.
Proof.
  unfold slot, first_row. cbn [ct_slots set_slots]. rewrite filter_app, head_app. destruct (head _); [done|]. rewrite filter_cons, filter_nil.
  unfold slot_is. by destruct (bool_decide _).
Qed.
Lemma slot_drop c gone label : slot (drop_slot gone c) label = if decide (gone = label) then None else slot c label.
Proof.
  case_decide as E.
  - subst. apply slot_None. cbn. intros [r [-> [Hr _]%list_elem_of_filter]]%list_elem_of_fmap. done.
  - unfold slot, first_row, drop_slot. cbn [ct_slots set_slots]. rewrite list_filter_filter. f_equal. apply list_filter_iff_in. intros r _.
    unfold slot_is. rewrite bool_decide_eq_true. naive_solver.
Qed.

Section operations.
Context `{S : Storage} `{!StorageLaws S} `{C : Crypto} `{!CryptoLaws C} `{A : Aead} `{!AeadLaws A}.
Implicit Types (d : Dev S) (P label : bytes).

Lemma store_descriptor_kept P : st_respects (kept P desc_names) (store_descriptor (S := S)).
Proof.
  unfold store_descriptor, device_signing_secret_in. dev_frame.
  - eapply kept_delete; [rewrite tmp_components, H; reflexivity|left].
  - eapply kept_write; [rewrite tmp_components, H; reflexivity|left].
  - eapply kept_rename; [rewrite tmp_components, H; reflexivity|left|rewrite desc_components, H; reflexivity|right; left|done].
Qed.

Lemma write_token_kept P salt nonce label pass enc sig : st_respects (kept P [token_name label]) (write_token (S := S) salt nonce label pass enc sig).
Proof. unfold write_token. dev_frame. eapply kept_write; [rewrite (proj2 (token_components _ _ _ H0)), H; reflexivity|left]. Qed.

Definition slot_names label : list (list Component) := token_name label :: desc_names.
Lemma kept_slot_desc P label (m : stM (Dev S) unit) : st_respects (kept P desc_names) m -> st_respects (kept P (slot_names label)) m.
Proof. intros Hm d r d' E. eapply kept_mono; [|by eapply Hm]. intros n Hn. by right. Qed.
Lemma kept_slot_token P label (m : stM (Dev S) unit) : st_respects (kept P [token_name label]) m -> st_respects (kept P (slot_names label)) m.
Proof. intros Hm d r d' E. eapply kept_mono; [|by eapply Hm]. intros n ->%list_elem_of_singleton. left. Qed.

Lemma install_kept P salt nonce label pass enc sig : st_respects (kept P (slot_names label)) (install_slot_in (S := S) salt nonce label pass enc sig).
Proof.
  unfold install_slot_in, add_slot. dev_frame.
  - apply kept_slot_token, write_token_kept.
  - by apply kept_with_box.
  - apply kept_slot_desc, store_descriptor_kept.
Qed.
Lemma remove_kept P label : st_respects (kept P (slot_names label)) (remove_slot_in (S := S) label).
Proof.
  unfold remove_slot_in. dev_frame.
  - eapply kept_delete; [rewrite (proj2 (token_components _ _ _ H0)), H; reflexivity|left].
  - by apply kept_with_box.
  - apply kept_slot_desc, store_descriptor_kept.
Qed.

Lemma store_descriptor_box d r d' : store_descriptor (S := S) d = (r, d') -> dv_box d' = dv_box d.
Proof.
  revert d r d'. change (st_respects (fun d d' => dv_box d' = dv_box d) (store_descriptor (S := S))).
  assert (PreOrder (fun d d' : Dev S => dv_box d' = dv_box d)) by (split; [done|intros ??? ??; congruence]).
  assert (forall B (f : disk -> result B * disk), st_respects (fun d d' => dv_box d' = dv_box d) (on_disk (S := S) f)) as Hd.
  { intros B f d r d'. unfold on_disk. destruct (f _). by intros [= _ <-]. }
  assert (st_respects (fun d d' : Dev S => dv_box d' = dv_box d) box) as Hb by (intros d r d' [= _ <-]; done).
  unfold store_descriptor, device_signing_secret_in, read_file, file_exists, delete_file, write_file. repeat (apply st_respects_bind; [done|..|intros ?]); eauto with frame.
  - case_match; eauto with frame.
  - case_match; eauto with frame.
Qed.

(** A container whose parts have their sizes, with the signing key of its verify key. *)
Definition sound d : Prop := box_wf (dv_box d) /\ exists secret, storage_read (dv_disk d) (skey_path (dv_box d)) = Ok secret /\ length secret = 32 /\ public_key secret = ct_verify_key (dv_box d).

Lemma skey_outside P label : forall n, n ∈ slot_names label -> components P ++ [Normal name_skey] <> components P ++ n.
Proof. intros n Hn E%app_inv_head. subst. repeat (apply elem_of_cons in Hn as [Hn|Hn]; [done|]). by apply elem_of_nil in Hn. Qed.
Lemma token_outside P label label' : label' <> label -> forall n, n ∈ slot_names label -> components P ++ token_name label' <> components P ++ n.
Proof.
  intros Hne n Hn E%app_inv_head. subst. repeat (apply elem_of_cons in Hn as [Hn|Hn]; [try done|]); [|by apply elem_of_nil in Hn].
  injection Hn as E. by apply Hne, (app_inv_head (str "slot-")).
Qed.

Lemma sound_kept d d' label : kept (ct_path (dv_box d)) (slot_names label) d d' -> sound d -> box_wf (dv_box d') -> sound d'.
Proof.
  intros HK (HW & secret & Er & Hl & Ep) HW'. destruct (HK eq_refl) as (E1 & E2 & E3 & E4). split; [done|]. exists secret. rewrite E3. split_and!; [|done..].
  rewrite <- Er, E4; [apply read_same; by rewrite !skey_components, E1|]. rewrite skey_components, E1. apply skey_outside.
Qed.

(** What opening a slot depends on. *)
Lemma open_slot_same d d' label pass :
  ct_path (dv_box d') = ct_path (dv_box d) -> ct_device_id (dv_box d') = ct_device_id (dv_box d) -> slot (dv_box d') label = slot (dv_box d) label ->
  (forall q, components q = components (ct_path (dv_box d)) ++ token_name label -> storage_read (dv_disk d') q = storage_read (dv_disk d) q) ->
  open_slot_in label pass d' = open_slot_in label pass d.
Proof.
  intros E1 E2 E3 E4. unfold open_slot_in. rewrite E3. destruct (slot (dv_box d) label) as [record|]; [|done]. cbn [ok_or mbind result_bind].
  assert (token_path (dv_box d') label = token_path (dv_box d) label) as -> by (unfold token_path, token_dir; by rewrite E1).
  destruct (token_path (dv_box d) label) as [path|] eqn:ET; [|done]. cbn [mbind result_bind]. rewrite E4, E2; [done|]. by apply token_components in ET as [_ ->].
Qed.

(** After a successful store the descriptor on disk is the container in memory. *)
Lemma store_descriptor_Ok d d' : sound d -> store_descriptor d = (Ok tt, d') -> open_in (dv_disk d') (ct_path (dv_box d)) = Ok (dv_box d).
Proof.
  intros ((Hid & Hk & HF & _) & secret & Er & Hl & Ep) E. unfold store_descriptor, device_signing_secret_in in E.
  apply st_bind_Ok in E as (s0 & d0 & E0 & E). apply st_bind_Ok in E0 as (? & ? & [= <- <-] & E0). apply st_bind_Ok in E0 as (b & ? & [= Eb <-] & E0). cbn in *.
  rewrite Er in Eb. injection Eb as <-. rewrite Hl in E0. injection E0 as <- <-.
  apply st_bind_Ok in E as (? & ? & [= <- <-] & E). cbn [dv_box dv_disk] in E. apply st_bind_Ok in E as (preimage & ? & [EP ->]%st_try_Ok & E). apply st_bind_Ok in E as (bytes & ? & [EB ->]%st_try_Ok & E).
  apply st_bind_Ok in E as (there & d1 & E1 & E). apply st_bind_Ok in E as ([] & d2 & E2 & E). apply st_bind_Ok in E as ([] & d3 & E3 & E).
  unfold write_file, on_disk in E3, E. destruct (storage_write_new _ _ _) as [r3 k3] eqn:EW. injection E3 as -> <-. cbn [dv_disk dv_box] in E.
  destruct (storage_rename _ _ _) as [r k] eqn:ERn. injection E as -> <-. cbn [dv_disk].
  apply rename_Ok in ERn as (ER & _); [|rewrite tmp_components, desc_components; by intros ?%app_inv_head].
  apply write_new_Ok in EW as (_ & EW & _). unfold open_in. fold (descriptor_path (dv_box d)). rewrite ER, EW. cbn [mbind result_bind].
  assert (decode_descriptor bytes = Ok (ct_device_id (dv_box d), ct_verify_key (dv_box d), ct_slots (dv_box d))) as ->.
  { apply decode_descriptor_iff. split_and!; [done..|]. eexists _, preimage. split_and!; [|done..|].
    - apply ed25519_sign_length.
    - rewrite <- Ep. unfold verify_signature, public_key, sign. rewrite ed25519_public_ok. cbn. by rewrite ed25519_verify_sign. }
  cbn. by destruct (dv_box d).
Qed.

(** The common part of [provision_in] and [install_slot_in]. *)
Definition slot_record label enc sig : SlotRecord := {| sl_label := label; sl_encryption_public := box_public enc; sl_signing_public := public_key sig |}.
Definition put_slot salt nonce label pass enc sig : stM (Dev S) unit :=
  write_token salt nonce label pass enc sig ≫= fun _ => add_slot (slot_record label enc sig) ≫= fun _ => store_descriptor.

Definition secrets_of label enc sig : SlotSecrets :=
  {| ss_label := label; ss_encryption_secret := enc; ss_signing_secret := sig; ss_encryption_public := box_public enc; ss_signing_public := public_key sig |}.
Definition draw_wf salt nonce enc sig : Prop :=
  fixed SALT_LEN salt /\ fixed NONCE_LEN nonce /\ fixed 32 enc /\ fixed 32 sig /\ fixed 32 (box_public enc) /\ fixed 32 (public_key sig).

Lemma write_token_Ok salt nonce label pass enc sig d d1 :
  write_token salt nonce label pass enc sig d = (Ok tt, d1) ->
  dv_box d1 = dv_box d /\ validate_slot_label label = Ok tt /\ exists path token, token_path (dv_box d) label = Ok path /\
  seal_token salt nonce label (ct_device_id (dv_box d)) enc sig pass = Ok token /\ storage_read (dv_disk d1) path = Ok token.
Proof.
  unfold write_token. intros E. apply st_bind_Ok in E as (? & ? & [= <- <-] & E). apply st_bind_Ok in E as (path & ? & [EP ->]%st_try_Ok & E).
  apply st_bind_Ok in E as ([] & d2 & E2 & E). unfold on_disk in E2. destruct (storage_create_dir_all _ _) as [r2 k2]. injection E2 as -> <-.
  apply st_bind_Ok in E as (token & ? & [ET ->]%st_try_Ok & E). unfold write_file, on_disk in E. cbn [dv_disk dv_box] in E. destruct (storage_write_new _ _ _) as [r k] eqn:EW. injection E as -> <-.
  split; [done|]. split; [by apply token_components in EP as [? _]|]. exists path, token. split_and!; [done..|]. cbn. by apply write_new_Ok in EW as (_ & ? & _).
Qed.

Lemma put_slot_Ok salt nonce label pass enc sig d d' :
  sound d -> draw_wf salt nonce enc sig -> slot (dv_box d) label = None -> put_slot salt nonce label pass enc sig d = (Ok tt, d') ->
  sound d' /\ dv_box d' = set_slots (ct_slots (dv_box d) ++ [slot_record label enc sig]) (dv_box d) /\ kept (ct_path (dv_box d)) (slot_names label) d d' /\
  open_slot_in label pass d' = Ok (secrets_of label enc sig) /\ (forall l p, l <> label -> open_slot_in l p d' = open_slot_in l p d) /\
  open_in (dv_disk d') (ct_path (dv_box d)) = Ok (dv_box d').
Proof.
  intros HS (W1 & W2 & W3 & W4 & W5 & W6) EN E. unfold put_slot in E. apply st_bind_Ok in E as ([] & d1 & E1 & E). apply st_bind_Ok in E as ([] & d2 & E2 & E).
  pose proof (kept_slot_token _ _ _ (write_token_kept (ct_path (dv_box d)) _ _ _ _ _ _) _ _ _ E1) as K1.
  destruct (write_token_Ok _ _ _ _ _ _ _ _ E1) as (B1 & Hv & path & token & EP & ET & ER). injection E2 as <-. rewrite B1 in E.
  set (d2 := {| dv_disk := dv_disk d1; dv_box := set_slots (ct_slots (dv_box d) ++ [slot_record label enc sig]) (dv_box d) |}) in *.
  assert (kept (ct_path (dv_box d)) (slot_names label) d d2) as K2.
  { intros _. destruct (K1 eq_refl) as (F1 & F2 & F3 & F4). done. }
  pose proof (kept_slot_desc _ label _ (store_descriptor_kept (ct_path (dv_box d))) _ _ _ E) as K3. pose proof (store_descriptor_box _ _ _ E) as B3. cbn in B3.
  pose proof HS as ((Hid & Hk & HF & HN) & _).
  assert (box_wf (dv_box d2)) as HW2.
  { split_and!; cbn; [done..| |].
    - apply Forall_app. split; [done|]. by repeat constructor.
    - rewrite map_app. apply NoDup_app. split_and!; [done| |apply NoDup_singleton]. intros l Hl ->%list_elem_of_singleton. by apply slot_None in EN. }
  pose proof (sound_kept _ _ _ K2 HS HW2) as HS2. assert (sound d') as HS' by (eapply sound_kept; [exact K3|done|by rewrite B3]).
  assert (kept (ct_path (dv_box d)) (slot_names label) d d') as K by (by transitivity d2). destruct (K eq_refl) as (F1 & F2 & F3 & F4).
  split_and!; [done|done|done| | |].
  - unfold open_slot_in. rewrite B3, slot_app, EN, bool_decide_true by done. cbn [ok_or mbind result_bind].
    assert (token_path (set_slots (ct_slots (dv_box d) ++ [slot_record label enc sig]) (dv_box d)) label = Ok path) as -> by (unfold token_path, token_dir in *; done).
    cbn [mbind result_bind]. destruct (store_descriptor_kept (ct_path (dv_box d)) _ _ _ E eq_refl) as (_ & _ & _ & G4).
    assert (storage_read (dv_disk d') path = Ok token) as ->.
    { rewrite G4; [done|]. rewrite (proj2 (token_components _ _ _ EP)). intros n Hn X%app_inv_head. subst. repeat (apply elem_of_cons in Hn as [Hn|Hn]; [done|]). by apply elem_of_nil in Hn. }
    cbn [mbind result_bind]. refine (proj2 (proj2 (slot_token_roundtrip salt nonce label _ enc sig pass token W1 W2 _ Hid W3 W4 ET))). by apply slot_label_text.
  - intros l p Hl. apply open_slot_same; [done..| |].
    + rewrite B3, slot_app. destruct (slot (dv_box d) l); [done|]. by rewrite bool_decide_false by (cbn; congruence).
    + intros q Hq. apply F4. rewrite Hq. by apply token_outside.
  - rewrite B3. change (set_slots _ _) with (dv_box d2). by apply (store_descriptor_Ok d2).
Qed.

Lemma install_Ok salt nonce label pass enc sig record d d' :
  install_slot_in salt nonce label pass enc sig d = (Ok record, d') ->
  slot (dv_box d) label = None /\ record = slot_record label enc sig /\ put_slot salt nonce label pass enc sig d = (Ok tt, d').
Proof.
  unfold install_slot_in. intros E. apply st_bind_Ok in E as ([] & ? & [EV ->]%st_try_Ok & E). case_bool_decide; [done|].
  apply st_bind_Ok in E as (? & ? & [= <- <-] & E). case_bool_decide as EN; [done|]. apply eq_None_not_Some in EN. split; [done|].
  unfold put_slot. apply st_bind_Ok in E as ([] & d1 & E1 & E). erewrite st_step by done. apply st_bind_Ok in E as ([] & d2 & E2 & E). erewrite st_step by done.
  apply st_bind_Ok in E as ([] & d3 & E3 & [= <- <-]). done.
Qed.
Lemma provision_Ok enc sig salt nonce label pass made d d' :
  provision_in enc sig salt nonce label pass d = (Ok made, d') ->
  slot (dv_box d) label = None /\ prov_label made = label /\ prov_encryption_secret made = enc /\ prov_signing_secret made = sig /\
  put_slot salt nonce label pass enc sig d = (Ok tt, d').
Proof.
  unfold provision_in. intros E. apply st_bind_Ok in E as ([] & ? & [EV ->]%st_try_Ok & E). case_bool_decide; [done|].
  apply st_bind_Ok in E as (? & ? & [= <- <-] & E). case_bool_decide as EN; [done|]. apply eq_None_not_Some in EN. split; [done|].
  unfold put_slot. apply st_bind_Ok in E as ([] & d1 & E1 & E). erewrite st_step by done. apply st_bind_Ok in E as ([] & d2 & E2 & E). erewrite st_step by done.
  apply st_bind_Ok in E as ([] & d3 & E3 & [= <- <-]). done.
Qed.

Lemma box_wf_drop label c : box_wf c -> box_wf (drop_slot label c).
Proof.
  intros (H1 & H2 & H3 & H4). split_and!; [done..| |]; cbn.
  - apply Forall_forall. rewrite Forall_forall in H3. intros s [_ Hs]%list_elem_of_filter. auto.
  - eapply sublist_NoDup; [exact H4|]. apply fmap_sublist, sublist_filter.
Qed.

Lemma remove_Ok label d d' :
  sound d -> remove_slot_in label d = (Ok tt, d') ->
  sound d' /\ dv_box d' = drop_slot label (dv_box d) /\ kept (ct_path (dv_box d)) (slot_names label) d d' /\
  (forall path contents, token_path (dv_box d) label = Ok path -> storage_read (dv_disk d') path <> Ok contents) /\
  (forall p, open_slot_in label p d' = Err InvalidSlot) /\ (forall l p, l <> label -> open_slot_in l p d' = open_slot_in l p d) /\
  open_in (dv_disk d') (ct_path (dv_box d)) = Ok (dv_box d').
Proof.
  intros HS ER. pose proof (remove_kept (ct_path (dv_box d)) label _ _ _ ER) as K. destruct (K eq_refl) as (F1 & F2 & F3 & F4). unfold remove_slot_in in ER.
  apply st_bind_Ok in ER as (? & ? & [= <- <-] & E). apply st_bind_Ok in E as (path & ? & [EP ->]%st_try_Ok & E). apply st_bind_Ok in E as (there & ? & [= Eth <-] & E).
  apply st_bind_Ok in E as ([] & d1 & E1 & E). apply st_bind_Ok in E as ([] & d2 & [= <-] & E). apply st_bind_Ok in E as ([] & d3 & [= <-] & E).
  apply st_bind_Ok in E as (? & ? & [= <- <-] & E). apply st_bind_Ok in E as (still & ? & [= _ <-] & E). destruct (_ && _); [done|]. cbn [dv_disk dv_box] in *.
  assert (dv_box d1 = dv_box d /\ forall contents, storage_read (dv_disk d1) path <> Ok contents) as [B1 G1].
  { destruct there.
    - unfold delete_file, on_disk in E1. cbn [dv_disk dv_box] in E1. destruct (storage_delete _ _) as [r k] eqn:ED. injection E1 as -> <-. split; [done|]. cbn. intros contents.
      apply delete_Ok in ED as [ED _]. by rewrite ED.
    - injection E1 as <-. split; [done|]. cbn. intros contents X%exists_read. congruence. }
  rewrite B1 in E.
  set (d3 := {| dv_disk := storage_remove_empty_dir (dv_disk d1) (token_dir (dv_box d) label); dv_box := drop_slot label (dv_box d) |}) in *.
  pose proof (store_descriptor_box _ _ _ E) as B3. cbn in B3. destruct (store_descriptor_kept (ct_path (dv_box d)) _ _ _ E eq_refl) as (_ & _ & _ & G4).
  assert (sound d') as HS' by (eapply sound_kept; [exact K|done|rewrite B3; by apply box_wf_drop, HS]).
  assert (sound d3) as HS3.
  { destruct HS' as (HW & secret & Er & ? & ?). rewrite B3 in *. split; [done|]. exists secret. split_and!; [|done..]. rewrite <- Er, G4; [done|].
    rewrite skey_components. intros n Hn X%app_inv_head. subst. repeat (apply elem_of_cons in Hn as [Hn|Hn]; [done|]). by apply elem_of_nil in Hn. }
  split_and!; [done..| | | |].
  - intros path' contents EP'. assert (path' = path) as -> by congruence. rewrite G4.
    + cbn. rewrite remove_dir_reads. apply G1.
    + rewrite (proj2 (token_components _ _ _ EP)). intros n Hn X%app_inv_head. subst. repeat (apply elem_of_cons in Hn as [Hn|Hn]; [done|]). by apply elem_of_nil in Hn.
  - intros p. unfold open_slot_in. by rewrite B3, slot_drop, decide_True.
  - intros l p Hl. apply open_slot_same; [done..| |].
    + by rewrite B3, slot_drop, decide_False by congruence.
    + intros q Hq. apply F4. rewrite Hq. by apply token_outside.
  - rewrite B3. change (drop_slot label (dv_box d)) with (dv_box d3). by apply (store_descriptor_Ok d3).
Qed.

Lemma init_Ok id secret path k c k' :
  fixed DEVICE_ID_LEN id -> fixed 32 secret -> fixed 32 (public_key secret) -> init_in (S := S) id secret path k = (Ok c, k') ->
  ct_path c = path /\ ct_device_id c = id /\ ct_verify_key c = public_key secret /\ ct_slots c = [] /\
  sound {| dv_disk := k'; dv_box := c |} /\ open_in k' path = Ok c.
Proof.
  intros Hid Hs Hp. unfold init_in. destruct (storage_create_dir_all k path) as [[[]|?] k1]; [|done]. destruct (storage_create_dir_all k1 _) as [[[]|?] k2]; [|done].
  set (c0 := {| ct_path := path |}). destruct (exists_path k2 (descriptor_path c0)); [done|].
  destruct ((write_file _ _ ≫= _) _) as [r d] eqn:E. intros [= -> <-]. apply st_bind_Ok in E as ([] & d1 & E1 & E). apply st_bind_Ok in E as ([] & d2 & E2 & [= <- <-]).
  unfold write_file, on_disk in E1. cbn [dv_disk dv_box] in E1. destruct (storage_write_new _ _ _) as [r1 k3] eqn:EW. injection E1 as -> <-. apply write_new_Ok in EW as (_ & EW & _).
  pose proof (store_descriptor_box _ _ _ E2) as B. cbn in B. rewrite B. do 4 (split; [done|]).
  assert (sound {| dv_disk := k3; dv_box := c0 |}) as HS by (split; [by split_and!; try constructor|by exists secret]).
  split; [|by eapply store_descriptor_Ok in E2].
  assert (kept path (slot_names []) {| dv_disk := k3; dv_box := c0 |} d2) as K by (eapply kept_slot_desc; [apply store_descriptor_kept|exact E2]).
  replace {| dv_disk := dv_disk d2; dv_box := c0 |} with d2 by (destruct d2; cbn in *; by subst).
  eapply (sound_kept _ _ []); [exact K|done|]. rewrite B. by destruct HS.
Qed.
End operations.

(** ** A container is a map from labels to secrets *)

Section vault.
Context `{S : Storage} `{!StorageLaws S} `{C : Crypto} `{!CryptoLaws C} `{A : Aead} `{!AeadLaws A}.

(** Passphrase, encryption secret and signing secret by label. *)
Notation vault := (gmap bytes (bytes * bytes * bytes)).

Inductive DeviceOp :=
| Provision (enc sig salt nonce label pass : bytes)
| Install (salt nonce label pass enc sig : bytes)
| Remove (label : bytes)
(** The container is read again from its directory. *)
| Reopen.
Definition run_op (op : DeviceOp) : stM (Dev S) unit :=
  match op with
  | Provision enc sig salt nonce label pass => provision_in enc sig salt nonce label pass ≫= fun _ => mret tt
  | Install salt nonce label pass enc sig => install_slot_in salt nonce label pass enc sig ≫= fun _ => mret tt
  | Remove label => remove_slot_in label
  | Reopen => fun d => match open_in (dv_disk d) (ct_path (dv_box d)) with Ok c => (Ok tt, {| dv_disk := dv_disk d; dv_box := c |}) | Err e => (Err e, d) end
  end.
Definition op_wf (op : DeviceOp) : Prop :=
  match op with Provision enc sig salt nonce _ _ | Install salt nonce _ _ enc sig => draw_wf salt nonce enc sig | _ => True end.
(** What the operation does to the map; a label is never overwritten. *)
Definition vault_step (op : DeviceOp) (m : vault) : option vault :=
  match op with
  | Provision enc sig _ _ label pass | Install _ _ label pass enc sig => if bool_decide (is_Some (m !! label)) then None else Some (<[label := (pass, enc, sig)]> m)
  | Remove label => Some (delete label m)
  | Reopen => Some m
  end.
Fixpoint vault_run (ops : list DeviceOp) (m : vault) : option vault :=
  match ops with [] => Some m | op :: ops => vault_step op m ≫= vault_run ops end.

Record implements (m : vault) (d : Dev S) : Prop := {
  im_sound : sound d;
  im_disk : open_in (dv_disk d) (ct_path (dv_box d)) = Ok (dv_box d);
  im_slots label : is_Some (slot (dv_box d) label) <-> is_Some (m !! label);
  im_open label pass enc sig : m !! label = Some (pass, enc, sig) -> open_slot_in label pass d = Ok (secrets_of label enc sig);
}.

Lemma put_implements m d d' salt nonce label pass enc sig : implements m d -> draw_wf salt nonce enc sig -> slot (dv_box d) label = None ->
  put_slot salt nonce label pass enc sig d = (Ok tt, d') -> m !! label = None /\ implements (<[label := (pass, enc, sig)]> m) d'.
Proof.
  intros [HS HD HM HO] HW EN E. destruct (put_slot_Ok _ _ _ _ _ _ _ _ HS HW EN E) as (HS' & EB & K & EO & EF & ED).
  split; [apply eq_None_not_Some; intros H%HM; rewrite EN in H; by destruct H|]. split; [done| | |].
  - by rewrite (proj1 (K eq_refl)).
  - intros l. rewrite EB, slot_app. destruct (decide (l = label)) as [->|Hl].
    + rewrite EN, bool_decide_true, lookup_insert_eq by done. split; eauto.
    + rewrite lookup_insert_ne, <- HM by done. destruct (slot (dv_box d) l); [done|]. by rewrite bool_decide_false by (cbn; congruence).
  - intros l p e s. destruct (decide (l = label)) as [->|Hl]; [rewrite lookup_insert_eq; by intros [= <- <- <-]|]. rewrite lookup_insert_ne, EF by done. apply HO.
Qed.

Lemma run_op_implements op m d d' : implements m d -> op_wf op -> run_op op d = (Ok tt, d') -> exists m', vault_step op m = Some m' /\ implements m' d'.
Proof.
  intros HI HW E. destruct op as [enc sig salt nonce label pass|salt nonce label pass enc sig|label|]; simpl in *.
  - apply st_bind_Ok in E as (made & d1 & (EN & _ & _ & _ & E)%provision_Ok & [= <-]). destruct (put_implements _ _ _ _ _ _ _ _ _ HI HW EN E) as [Em HI'].
    rewrite bool_decide_false by (rewrite Em; by intros []). eauto.
  - apply st_bind_Ok in E as (record & d1 & (EN & _ & E)%install_Ok & [= <-]). destruct (put_implements _ _ _ _ _ _ _ _ _ HI HW EN E) as [Em HI'].
    rewrite bool_decide_false by (rewrite Em; by intros []). eauto.
  - destruct HI as [HS HD HM HO]. destruct (remove_Ok _ _ _ HS E) as (HS' & EB & K & _ & _ & EF & ED). eexists; split; [done|]. split; [done| | |].
    + by rewrite (proj1 (K eq_refl)).
    + intros l. rewrite EB, slot_drop. case_decide as El; [subst; rewrite lookup_delete_eq; split; by intros []|]. by rewrite lookup_delete_ne, HM.
    + intros l p e s. destruct (decide (l = label)) as [->|Hl]; [by rewrite lookup_delete_eq|]. rewrite lookup_delete_ne, EF by done. apply HO.
  - rewrite (im_disk _ _ HI) in E. injection E as <-. exists m. split; [done|]. by destruct d.
Qed.

(** C13: A container on a disk is a map from labels to secrets, each under its passphrase.
    After it is created, any sequence of provisioning, installing, removing and reopening
    that succeeds is the same sequence of insertions (never over a label already there) and
    removals on the map: the slots are the map's labels, each opens under its passphrase to
    exactly its secrets, and the descriptor read from the directory is the container in
    memory, however often it is reopened. *)
Theorem container_refines_map id secret path k c k' ops d' :
  fixed DEVICE_ID_LEN id -> fixed 32 secret -> fixed 32 (public_key secret) -> Forall op_wf ops ->
  init_in (S := S) id secret path k = (Ok c, k') ->
  st_each run_op ops {| dv_disk := k'; dv_box := c |} = (Ok tt, d') ->
  exists m, vault_run ops ∅ = Some m /\ implements m d'.
Proof.
  intros Hid Hs Hp HW EI. destruct (init_Ok _ _ _ _ _ _ Hid Hs Hp EI) as (Ep & _ & _ & Esl & HS & HD).
  assert (implements ∅ {| dv_disk := k'; dv_box := c |}) as HI.
  { split; [done|cbn; by rewrite Ep| |intros ????; by rewrite lookup_empty]. intros l. cbn. rewrite lookup_empty. unfold slot. rewrite Esl. by split; intros []. }
  clear EI HS HD Ep Esl. revert HI. generalize {| dv_disk := k'; dv_box := c |} as d. generalize (∅ : vault) as m. induction HW as [|op ops Hop HW IH]; intros m d HI E.
  - injection E as <-. eauto.
  - apply st_bind_Ok in E as ([] & d1 & E1 & E). destruct (run_op_implements _ _ _ _ HI Hop E1) as (m1 & Em & HI1). destruct (IH m1 d1 HI1 E) as (m' & Em' & HI').
    exists m'. split; [|done]. cbn. by rewrite Em.
Qed.
End vault.

(** ** Two containers *)

(** Two directories, neither inside the other. *)
Definition apart (P Q : bytes) : Prop := forall n n', components P ++ n <> components Q ++ n'.

Section two.
Context `{S : Storage} `{!StorageLaws S} `{C : Crypto} `{!CryptoLaws C} `{A : Aead} `{!AeadLaws A}.

(** What happens to one container does not touch the other. *)
Lemma apart_reads P Q names (d d' : Dev S) n q : kept P names d d' -> ct_path (dv_box d) = P -> apart P Q ->
  components q = components Q ++ n -> storage_read (dv_disk d') q = storage_read (dv_disk d) q.
Proof. intros HK EP HA Hq. destruct (HK EP) as (_ & _ & _ & HR). apply HR. rewrite Hq. intros n' _ E. by eapply HA. Qed.
Lemma apart_open P names (d d' : Dev S) c label pass : kept P names d d' -> ct_path (dv_box d) = P -> apart P (ct_path c) ->
  open_slot_in label pass {| dv_disk := dv_disk d'; dv_box := c |} = open_slot_in label pass {| dv_disk := dv_disk d; dv_box := c |}.
Proof. intros HK EP HA. apply open_slot_same; [done..|]. intros q Hq. cbn. by eapply apart_reads. Qed.
Lemma apart_sound P names (d d' : Dev S) c : kept P names d d' -> ct_path (dv_box d) = P -> apart P (ct_path c) ->
  sound {| dv_disk := dv_disk d; dv_box := c |} -> sound {| dv_disk := dv_disk d'; dv_box := c |}.
Proof.
  intros HK EP HA (HW & secret & Er & ? & ?). split; [done|]. exists secret. split_and!; [|done..]. cbn in *. rewrite <- Er. eapply apart_reads; [done..|]. apply skey_components.
Qed.

Implicit Type t : Two (S := S).
Definition from_dev t : Dev S := {| dv_disk := tw_disk t; dv_box := tw_from t |}.
Definition to_dev t : Dev S := {| dv_disk := tw_disk t; dv_box := tw_to t |}.

Lemma in_from_run {B} (m : stM (Dev S) B) t r t' : in_from m t = (r, t') -> m (from_dev t) = (r, from_dev t') /\ tw_to t' = tw_to t.
Proof. unfold in_from, zoom, from_dev. destruct (m _) as [x [k c]]. by intros [= <- <-]. Qed.
Lemma in_to_run {B} (m : stM (Dev S) B) t r t' : in_to m t = (r, t') -> m (to_dev t) = (r, to_dev t') /\ tw_from t' = tw_from t.
Proof. unfold in_to, zoom, to_dev. destruct (m _) as [x [k c]]. by intros [= <- <-]. Qed.

Lemma relocate_drop_kept label P d r d' source : components source = components P ++ token_name label ->
  (delete_file (S := S) source ≫= fun _ => remove_empty_dir (token_dir (dv_box d) label) ≫= fun _ => with_box (drop_slot label) ≫= fun _ => store_descriptor) d = (r, d') ->
  kept P (slot_names label) d d'.
Proof.
  intros Hs E. revert E. generalize (token_dir (dv_box d) label) as dir. intros dir E.
  assert (st_respects (kept P (slot_names label)) (delete_file (S := S) source ≫= fun _ => remove_empty_dir dir ≫= fun _ => with_box (drop_slot label) ≫= fun _ => store_descriptor)) as H; [|by eapply H].
  dev_frame; [eapply kept_delete; [done|left]|by apply kept_with_box|apply kept_slot_desc, store_descriptor_kept].
Qed.

Lemma open_slot_genuine d label pass secrets : sound d -> open_slot_in (S := S) label pass d = Ok secrets ->
  let enc := ss_encryption_secret secrets in let sig := ss_signing_secret secrets in
  secrets = secrets_of label enc sig /\ fixed 32 enc /\ fixed 32 sig /\ fixed 32 (box_public enc) /\ fixed 32 (public_key sig) /\
  slot (dv_box d) label = Some (slot_record label enc sig).
Proof.
  intros ((_ & _ & HF & _) & _) E. unfold open_slot_in in E. apply bind_Ok in E as (record & ES%ok_or_Ok & E). apply bind_Ok in E as (path & EP & E). apply bind_Ok in E as (token & ER & E).
  pose proof (slot_Some _ _ _ ES) as [Hin El]. rewrite Forall_forall in HF. destruct (HF _ Hin) as (_ & Hp & Hq). cbv zeta.
  unfold open_slot_token in E. apply bind_Ok in E as (plain & ED & E). apply bind_Ok in E as ([[[l dev] enc] sig] & (Hl & Hd & He & Hs & _)%token_plain_iff & E).
  destruct (_ || _); [done|]. destruct (_ || _) eqn:B; [done|]. injection E as <-. bool_hyps. cbn. unfold secrets_of, slot_record. rewrite ES. split_and!; try done; [congruence..|].
  destruct record; cbn in *. by subst.
Qed.

Lemma put_slot_kept salt nonce label pass enc sig d r d' : put_slot (S := S) salt nonce label pass enc sig d = (r, d') -> kept (ct_path (dv_box d)) (slot_names label) d d'.
Proof.
  intros E. assert (st_respects (kept (ct_path (dv_box d)) (slot_names label)) (put_slot (S := S) salt nonce label pass enc sig)) as H; [|by eapply H].
  unfold put_slot, add_slot. dev_frame; [apply kept_slot_token, write_token_kept|by apply kept_with_box|apply kept_slot_desc, store_descriptor_kept].
Qed.

Lemma relocate_drop_Ok label source d d' :
  (delete_file (S := S) source ≫= fun _ => remove_empty_dir (token_dir (dv_box d) label) ≫= fun _ => with_box (drop_slot label) ≫= fun _ => store_descriptor) d = (Ok tt, d') ->
  dv_box d' = drop_slot label (dv_box d) /\
  forall P contents, ct_path (dv_box d) = P -> components source = components P ++ token_name label -> storage_read (dv_disk d') source <> Ok contents.
Proof.
  intros E. apply st_bind_Ok in E as ([] & d1 & E1 & E). apply st_bind_Ok in E as ([] & ? & [= <-] & E). apply st_bind_Ok in E as ([] & ? & [= <-] & E). cbn [dv_disk dv_box] in E.
  unfold delete_file, on_disk in E1. destruct (storage_delete _ _) as [x k] eqn:ED. injection E1 as -> <-. cbn [dv_disk dv_box] in E. apply delete_Ok in ED as [ED _].
  split; [by apply store_descriptor_box in E|]. intros P contents EP Hs. destruct (store_descriptor_kept P _ _ _ E EP) as (_ & _ & _ & G). rewrite G.
  - cbn. rewrite remove_dir_reads, ED; done.
  - rewrite Hs. intros n Hn X%app_inv_head. subst. repeat (apply elem_of_cons in Hn as [Hn|Hn]; [done|]). by apply elem_of_nil in Hn.
Qed.

(** C12: Relocating a slot never loses its keys. Whatever fails on the way, the slot still
    opens under its passphrase, to the same secrets, in the container it came from or in the
    one it goes to; and when the relocation succeeds it opens in the second, no passphrase
    opens it in the first, and its token there is gone from the disk. *)
Theorem relocate_never_loses salt nonce label pass secrets t r t' :
  sound (from_dev t) -> sound (to_dev t) -> apart (ct_path (tw_from t)) (ct_path (tw_to t)) -> fixed SALT_LEN salt -> fixed NONCE_LEN nonce ->
  open_slot_in label pass (from_dev t) = Ok secrets -> relocate_slot_in salt nonce label pass t = (r, t') ->
  (open_slot_in label pass (from_dev t') = Ok secrets \/ open_slot_in label pass (to_dev t') = Ok secrets) /\
  (r = Ok tt -> open_slot_in label pass (to_dev t') = Ok secrets /\ (forall p, open_slot_in label p (from_dev t') = Err InvalidSlot) /\
    forall path contents, token_path (tw_from t) label = Ok path -> storage_read (tw_disk t') path <> Ok contents).
Proof.
  intros HF HT HA Hsalt Hnonce EO E. assert (apart (ct_path (tw_to t)) (ct_path (tw_from t))) as HA' by (intros n n' X; by apply (HA n' n)).
  destruct (open_slot_genuine _ _ _ _ HF EO) as (ESec & W1 & W2 & W3 & W4 & ESl).
  unfold relocate_slot_in in E. erewrite st_step in E by (by destruct t). erewrite st_step in E by (by destruct t). cbn [dv_box] in E.
  case_bool_decide; [injection E as <- <-; split; [by left|done]|]. case_bool_decide as EN; [injection E as <- <-; split; [by left|done]|]. apply eq_None_not_Some in EN.
  erewrite st_step in E by (unfold in_from, zoom; cbn; fold (from_dev t); rewrite EO; by destruct t).
  set (enc := ss_encryption_secret secrets) in *. set (sig := ss_signing_secret secrets) in *.
  replace {| sl_label := label; sl_encryption_public := ss_encryption_public secrets; sl_signing_public := ss_signing_public secrets |} with (slot_record label enc sig) in E by (by rewrite ESec).
  fold (put_slot (S := S) salt nonce label pass enc sig) in E. destruct (in_to (put_slot salt nonce label pass enc sig) t) as [[[]|e] t1] eqn:E1; cycle 1.
  { rewrite (st_fail _ _ _ _ _ E1) in E. injection E as <- <-. split; [|done]. left. apply in_to_run in E1 as [E1 EF]. rewrite <- EO.
    unfold from_dev. rewrite EF. exact (apart_open _ _ (to_dev t) (to_dev t1) (tw_from t) label pass (put_slot_kept _ _ _ _ _ _ _ _ _ E1) eq_refl HA'). }
  rewrite (st_step _ _ _ _ _ E1) in E. apply in_to_run in E1 as [E1 EF]. destruct (put_slot_Ok _ _ _ _ _ _ _ _ HT (conj Hsalt (conj Hnonce (conj W1 (conj W2 (conj W3 W4))))) EN E1) as (_ & EB1 & K1 & EO1 & _ & _).
  rewrite <- ESec in EO1. cbn in EB1. destruct (token_path (tw_from t) label) as [source|e] eqn:ETP; cycle 1.
  { erewrite (st_fail (st_try (Err e))) in E by done. injection E as <- <-. split; [by right|done]. }
  erewrite (st_step (st_try (Ok source))) in E by done. apply in_from_run in E as [E ET]. pose proof (proj2 (token_components _ _ _ ETP)) as Hsrc.
  replace (token_dir (tw_from t) label) with (token_dir (dv_box (from_dev t1)) label) in E by (cbn; by rewrite EF).
  assert (ct_path (tw_to t1) = ct_path (tw_to t)) as EPt by (by rewrite EB1).
  assert (open_slot_in label pass (to_dev t') = Ok secrets) as EO'.
  { rewrite <- EO1. unfold to_dev. rewrite ET. eapply (apart_open (ct_path (tw_from t)) _ (from_dev t1) (from_dev t')); [by eapply relocate_drop_kept|cbn; by rewrite EF|by rewrite EPt]. }
  split; [by right|]. intros ->. split; [done|]. destruct (relocate_drop_Ok _ _ _ _ E) as (EBx & EG). cbn in EBx. split.
  - intros p. unfold open_slot_in. cbn. by rewrite EBx, slot_drop, decide_True.
  - intros path contents [= <-]. apply (EG (ct_path (tw_from t))); [|done]. cbn. by rewrite EF.
Qed.
End two.
