(* ===== verification/TransferPackage.v ===== *)
(** * The signed package of a transfer ([src/src/transfer.rs])

    The [KQTX] bundle: what a source device hands to a destination device, signed
    with the source's device key. *)

From stdpp Require Import gmap.
From S2P Require Import Prelude Text Crypto Envelope HistoryCodec Event Authority Signing Tables KeyStore Aead World Device DeviceLaws.

Definition MAGIC : bytes := str "KQTX".
Definition VERSION : byte := x01.
Definition DOMAIN : bytes := str "KQ-TRANSFER-v1".
Definition KIND_SECRET : byte := x01.
Definition KIND_HINT : byte := x02.

Definition op_tag (o : TransferOp) : byte := match o with Copy => x01 | Move => x02 end.
Definition op_from_tag (tag : byte) : result TransferOp :=
  match tag with x01 => Ok Copy | x02 => Ok Move | _ => Err IntegrityCheckFailed end.

Inductive DescendantMode := KeyOnly | DirectChildren | AllDescendants.
#[export] Instance DescendantMode_eq_dec : EqDecision DescendantMode.
Proof. solve_decision. Defined.
Definition mode_as_str (m : DescendantMode) : bytes :=
  match m with KeyOnly => str "key-only" | DirectChildren => str "direct-children" | AllDescendants => str "all-descendants" end.
Definition mode_parse (value : bytes) : result DescendantMode :=
  if bool_decide (value = str "key-only" \/ value = str "key_only") then Ok KeyOnly
  else if bool_decide (value = str "direct-children" \/ value = str "direct_children") then Ok DirectChildren
  else if bool_decide (value = str "all-descendants" \/ value = str "all_descendants") then Ok AllDescendants
  else Err TransferDenied.
Definition mode_tag (m : DescendantMode) : byte := match m with KeyOnly => x01 | DirectChildren => x02 | AllDescendants => x03 end.
Definition mode_from_tag (tag : byte) : result DescendantMode :=
  match tag with x01 => Ok KeyOnly | x02 => Ok DirectChildren | x03 => Ok AllDescendants | _ => Err IntegrityCheckFailed end.

Record BundleEntry := {
  bn_id : bytes;
  bn_generation : N;
  bn_label : bytes;
  bn_parent : option bytes;
  bn_enc_public : bytes;
  bn_sign_public : bytes;
  bn_enc_fingerprint : bytes;
  bn_sign_fingerprint : bytes;
  bn_enc_secret : option bytes;
  bn_sign_secret : option bytes;
}.
Record Bundle := {
  bd_id : bytes;
  bd_operation : TransferOp;
  bd_descendants : DescendantMode;
  bd_source : bytes;
  bd_destination : bytes;
  bd_actor : bytes;
  bd_root : bytes;
  bd_entries : list BundleEntry;
}.

(** [i64::MAX], exclusive. *)
Definition i64_max : N := 2 ^ 63.

Definition utf8_text (b : bytes) : result bytes := if is_utf8 b then Ok b else Err IntegrityCheckFailed.

(** ** Writing *)

Definition secret_entry (e : BundleEntry) : bool := bool_decide (is_Some (bn_enc_secret e)).
Definition push_parent (parent : option bytes) : result bytes :=
  match parent with Some p => b ← push_len_prefixed p; Ok (x01 :: b) | None => Ok [x00] end.
Definition push_secrets (e : BundleEntry) : result bytes :=
  if secret_entry e then
    enc ← ok_or (bn_enc_secret e) IntegrityCheckFailed; sig ← ok_or (bn_sign_secret e) IntegrityCheckFailed; Ok (enc ++ sig)
  else Ok [].
Definition push_entry (e : BundleEntry) : result bytes :=
  label ← push_len_prefixed (bn_label e);
  parent ← push_parent (bn_parent e);
  enc_fp ← push_len_prefixed (bn_enc_fingerprint e);
  sign_fp ← push_len_prefixed (bn_sign_fingerprint e);
  secrets ← push_secrets e;
  Ok ([if secret_entry e then KIND_SECRET else KIND_HINT] ++ bn_id e ++ be_bytes 8 (bn_generation e) ++ label ++ parent ++
      bn_enc_public e ++ bn_sign_public e ++ enc_fp ++ sign_fp ++ secrets).
Definition encode_body (verify_key : bytes) (b : Bundle) : result bytes :=
  actor ← push_len_prefixed (bd_actor b);
  root ← push_len_prefixed (bd_root b);
  count ← map_err IntegrityCheckFailed (try_u16 (length (bd_entries b)));
  entries ← encode_all push_entry (bd_entries b);
  Ok (bd_id b ++ [op_tag (bd_operation b)] ++ [mode_tag (bd_descendants b)] ++ bd_source b ++ bd_destination b ++ verify_key ++
      actor ++ root ++ be_bytes 2 count ++ entries).

Section package.
Context `{C : Crypto} `{HX : Hex}.

Definition encode_bundle `{S : Storage} (source : Dev S) (b : Bundle) : result bytes :=
  body ← encode_body (ct_verify_key (dv_box source)) b;
  secret ← (device_signing_secret_in source).1;
  let signature := sign secret (DOMAIN ++ body) in
  len ← map_err IntegrityCheckFailed (try_u32 (length body));
  Ok (MAGIC ++ [VERSION] ++ be_bytes 4 len ++ body ++ signature).

(** ** Reading *)

Definition split_package (package : bytes) : result (bytes * bytes) :=
  if (length package <? 4 + 1 + 4 + 64) || negb (bool_decide (take 4 package = MAGIC)) then Err IntegrityCheckFailed else
  '(version, cursor) ← take_u8 (drop 4 package);
  if negb (bool_decide (version = VERSION)) then Err IntegrityCheckFailed else
  '(len, cursor) ← take_u32 cursor;
  let body_len := N.to_nat len in
  if negb (length cursor =? body_len + 64) then Err IntegrityCheckFailed else
  Ok (take body_len cursor, drop body_len cursor).

Record AuthenticatedPackage := { ap_id : bytes; ap_source : bytes; ap_destination : bytes; ap_verify_key : bytes }.
Definition take_header : parser AuthenticatedPackage :=
  id ← take_array 16;
  take_u8 ≫= fun _ =>
  take_u8 ≫= fun _ =>
  source ← take_array 16;
  destination ← take_array 16;
  verify_key ← take_array 32;
  mret {| ap_id := id; ap_source := source; ap_destination := destination; ap_verify_key := verify_key |}.
Definition authenticated_package (package : bytes) : result AuthenticatedPackage :=
  '(body, signature) ← split_package package;
  '(header, _) ← take_header body;
  verify_signature (ap_verify_key header) (DOMAIN ++ body) signature ≫= fun _ => Ok header.
Definition authenticated_source (package : bytes) : result (bytes * bytes) :=
  header ← authenticated_package package; Ok (ap_source header, ap_verify_key header).
Definition package_hash (package : bytes) : bytes := sha256 package.

Definition take_text : parser bytes := b ← take_len_prefixed; lift (utf8_text b).
Definition take_slot_label : parser bytes := label ← take_text; lift (validate_slot_label label) ≫= fun _ => mret label.
Definition take_generation : parser N :=
  b ← take_array 8; if (i64_max <=? of_be b)%N || (of_be b <? 1)%N then fail IntegrityCheckFailed else mret (of_be b).
Definition take_parent : parser (option bytes) :=
  flag ← take_u8;
  if bool_decide (flag = x01) then p ← take_slot_label; mret (Some p)
  else if bool_decide (flag = x00) then mret None else fail IntegrityCheckFailed.
Definition take_secrets (kind : byte) (enc_public sign_public : bytes) : parser (option bytes * option bytes) :=
  if bool_decide (kind = KIND_SECRET) then
    enc ← take_array 32; sig ← take_array 32;
    if negb (bool_decide (box_public enc = enc_public)) || negb (bool_decide (public_key sig = sign_public)) then fail IntegrityCheckFailed
    else mret (Some enc, Some sig)
  else if bool_decide (kind = KIND_HINT) then mret (None, None) else fail IntegrityCheckFailed.
Definition take_entry : parser BundleEntry :=
  kind ← take_u8;
  id ← take_array 16;
  generation ← take_generation;
  label ← take_slot_label;
  parent ← take_parent;
  enc_public ← take_array 32;
  sign_public ← take_array 32;
  enc_fingerprint ← take_text;
  sign_fingerprint ← take_text;
  if negb (bool_decide (enc_fingerprint = fingerprint enc_public)) || negb (bool_decide (sign_fingerprint = fingerprint sign_public)) then fail IntegrityCheckFailed else
  '(enc_secret, sign_secret) ← take_secrets kind enc_public sign_public;
  mret {| bn_id := id; bn_generation := generation; bn_label := label; bn_parent := parent; bn_enc_public := enc_public; bn_sign_public := sign_public;
          bn_enc_fingerprint := enc_fingerprint; bn_sign_fingerprint := sign_fingerprint; bn_enc_secret := enc_secret; bn_sign_secret := sign_secret |}.

Definition take_bundle (source dest : Container) : parser Bundle :=
  id ← take_array 16;
  op ← take_u8; operation ← lift (op_from_tag op);
  mode ← take_u8; descendants ← lift (mode_from_tag mode);
  source_id ← take_array 16;
  dest_id ← take_array 16;
  verify_key ← take_array 32;
  if negb (bool_decide (source_id = ct_device_id source)) || negb (bool_decide (dest_id = ct_device_id dest)) || negb (bool_decide (verify_key = ct_verify_key source))
  then fail SignatureVerificationFailed else
  actor ← take_text;
  root ← take_text;
  lift (validate_slot_label actor) ≫= fun _ =>
  lift (validate_slot_label root) ≫= fun _ =>
  count ← take_array 2;
  entries ← repeat_parser (N.to_nat (of_be count)) take_entry;
  mret {| bd_id := id; bd_operation := operation; bd_descendants := descendants; bd_source := source_id; bd_destination := dest_id;
          bd_actor := actor; bd_root := root; bd_entries := entries |}.

(** The framing tests are those of [split_package], written out again in the source. *)
Definition open_bundle (package : bytes) (source dest : Container) : result Bundle :=
  '(body, signature) ← split_package package;
  verify_signature (ct_verify_key source) (DOMAIN ++ body) signature ≫= fun _ =>
  '(bundle, data) ← take_bundle source dest body;
  if negb (bool_decide (data = [])) then Err IntegrityCheckFailed else
  if negb (existsb (fun e => bool_decide (bn_label e = bd_root bundle) && secret_entry e) (bd_entries bundle)) then Err GhostDenied else
  Ok bundle.
End package.

(** ** Laws of the package *)

Section laws.
Context `{C : Crypto} `{HX : Hex}.

Definition entry_wf (e : BundleEntry) : Prop :=
  fixed 16 (bn_id e) /\ (1 <= bn_generation e < i64_max)%N /\ validate_slot_label (bn_label e) = Ok tt /\ option_Forall (fun p => validate_slot_label p = Ok tt) (bn_parent e) /\
  fixed 32 (bn_enc_public e) /\ fixed 32 (bn_sign_public e) /\
  bn_enc_fingerprint e = fingerprint (bn_enc_public e) /\ text (bn_enc_fingerprint e) /\ bn_sign_fingerprint e = fingerprint (bn_sign_public e) /\ text (bn_sign_fingerprint e) /\
  match bn_enc_secret e, bn_sign_secret e with
  | Some enc, Some sig => fixed 32 enc /\ fixed 32 sig /\ box_public enc = bn_enc_public e /\ public_key sig = bn_sign_public e
  | None, None => True
  | _, _ => False
  end.

Lemma text_codec : codec_ok text push_len_prefixed take_text.
Proof.
  split.
  - intros s e rest Hs E. unfold take_text. erewrite parser_bind_eq by (by apply take_len_prefixed_push). apply lift_Ok. unfold utf8_text. by rewrite Hs.
  - intros data s rest E. unfold take_text in E. inv_parser. apply lift_Ok in E as [E ->]. unfold utf8_text in E. destruct (is_utf8 v) eqn:U; [|done]. inv_ok; subst.
    split; [done|]. by apply take_len_prefixed_canonical.
Qed.
Lemma slot_label_codec : codec_ok (fun l => validate_slot_label l = Ok tt) push_len_prefixed take_slot_label.
Proof.
  split.
  - intros s e rest Hs E. unfold take_slot_label. erewrite parser_bind_eq by (eapply (codec_roundtrip _ _ _ text_codec); [by apply slot_label_text|done]).
    erewrite parser_bind_eq by (by apply lift_Ok). done.
  - intros data s rest E. unfold take_slot_label in E. inv_parser. apply lift_Ok in H0 as [Hv ->]. destruct v0. canon H text_codec. simplify_eq. split; [done|]. eauto.
Qed.
Lemma parent_codec : codec_ok (option_Forall (fun p => validate_slot_label p = Ok tt)) push_parent take_parent.
Proof.
  split.
  - intros [p|] b rest Hp E; cbn in E; inv_ok; subst; unfold take_parent; cbn [app]; erewrite parser_bind_eq by done.
    + rewrite bool_decide_true by done. erewrite parser_bind_eq by (eapply (codec_roundtrip _ _ _ slot_label_codec); [by inversion Hp|done]). done.
    + by rewrite bool_decide_false, bool_decide_true by done.
  - intros data p rest E. unfold take_parent in E. inv_parser. apply take_u8_Ok in H as ->. case_bool_decide; subst.
    + inv_parser. canon H slot_label_codec. subst. split; [by constructor|]. cbn. run_enc. eexists; split; [done|]. by subst.
    + case_bool_decide; [|done]. inv_parser. subst. split; [constructor|]. by exists [x00].
Qed.
Lemma generation_codec : codec_ok (fun g => 1 <= g < i64_max)%N (fun g => Ok (be_bytes 8 g)) take_generation.
Proof.
  assert (i64_max < u64_max)%N as Hm by done. split.
  - intros g b rest [H1 H2] [= <-]. unfold take_generation. erewrite parser_bind_eq by (apply take_n_app, length_be_bytes). rewrite of_be_bytes by (rewrite <- u64_width; lia).
    destruct (N.leb_spec i64_max g); [lia|]. destruct (N.ltb_spec g 1); [lia|]. done.
  - intros data g rest E. unfold take_generation in E. inv_parser. destruct (_ || _) eqn:B; [done|]. bool_hyps. apply N.leb_gt in H0. apply N.ltb_ge in H1. inv_parser.
    apply take_n_Ok in H as [-> Hl]. subst. split; [lia|]. eexists; split; [done|]. by rewrite be_bytes_of_be_n.
Qed.

Definition secrets_wf (enc_public sign_public : bytes) (s : option bytes * option bytes) : Prop :=
  match s with
  | (Some enc, Some sig) => fixed 32 enc /\ fixed 32 sig /\ box_public enc = enc_public /\ public_key sig = sign_public
  | (None, None) => True
  | _ => False
  end.
Lemma rt_secrets enc_public sign_public e b rest : secrets_wf enc_public sign_public (bn_enc_secret e, bn_sign_secret e) -> push_secrets e = Ok b ->
  take_secrets (if secret_entry e then KIND_SECRET else KIND_HINT) enc_public sign_public (b ++ rest) = Ok ((bn_enc_secret e, bn_sign_secret e), rest).
Proof.
  unfold push_secrets, secret_entry, take_secrets. destruct (bn_enc_secret e) as [enc|], (bn_sign_secret e) as [sig|]; try done.
  - rewrite bool_decide_true by eauto. intros (He & Hs & <- & <-). cbn. intros [= <-]. rewrite <- app_assoc. rewrite bool_decide_true by done.
    do 2 (erewrite parser_bind_eq by (by apply take_n_app)). by rewrite !bool_decide_true by done.
  - rewrite bool_decide_false by (by intros []). by intros _ [= <-].
Qed.
Lemma take_secrets_Ok kind enc_public sign_public data s rest : take_secrets kind enc_public sign_public data = Ok (s, rest) ->
  secrets_wf enc_public sign_public s /\ kind = (if bool_decide (is_Some s.1) then KIND_SECRET else KIND_HINT) /\ data = default [] s.1 ++ default [] s.2 ++ rest.
Proof.
  unfold take_secrets. intros E. case_bool_decide; [|case_bool_decide; [|done]].
  - inv_parser. destruct (_ || _) eqn:B; [done|]. inv_parser. bool_hyps. subst. apply take_n_Ok in H0 as [-> ?], H1 as [-> ?]. cbn. split_and!; try done.
  - inv_parser. by subst.
Qed.

Lemma entry_codec : codec_ok entry_wf push_entry take_entry.
Proof.
  split.
  - intros e b rest (H1 & H2 & H3 & H4 & H5 & H6 & H7 & H8 & H9 & H10 & H11) E. unfold push_entry in E. inv_ok; subst. unfold take_entry. rewrite <- !app_assoc. cbn [app].
    erewrite parser_bind_eq by done. erewrite parser_bind_eq by (by apply take_n_app). erewrite parser_bind_eq by (by eapply (codec_roundtrip _ _ _ generation_codec)).
    erewrite parser_bind_eq by (by eapply (codec_roundtrip _ _ _ slot_label_codec)). erewrite parser_bind_eq by (by eapply (codec_roundtrip _ _ _ parent_codec)).
    do 2 (erewrite parser_bind_eq by (by apply take_n_app)). rewrite (parser_bind_eq _ _ _ _ _ (codec_roundtrip _ _ _ text_codec _ _ _ H8 H12)).
    rewrite (parser_bind_eq _ _ _ _ _ (codec_roundtrip _ _ _ text_codec _ _ _ H10 H13)).
    rewrite !bool_decide_true by done. cbn [negb orb]. erewrite parser_bind_eq by (by apply rt_secrets). by destruct e.
  - intros data e rest E. unfold take_entry in E. inv_parser. destruct (_ || _) eqn:B; [done|]. inv_parser. destruct v8 as [enc sig]. inv_parser. bool_hyps. subst.
    apply take_u8_Ok in H as ->. apply take_n_Ok in H0 as [-> ?], H4 as [-> ?], H5 as [-> ?]. canon H1 generation_codec. canon H2 slot_label_codec. canon H3 parent_codec.
    canon H6 text_codec. canon H7 text_codec. apply take_secrets_Ok in H8 as (Hw & -> & ->). cbn [fst snd] in *.
    split; [unfold entry_wf; cbn; split_and!; first [done|lia|by destruct enc, sig]|]. unfold push_entry. cbn. run_enc.
    assert (push_secrets {| bn_id := v0; bn_generation := v1; bn_label := v2; bn_parent := v3; bn_enc_public := v4; bn_sign_public := v5; bn_enc_fingerprint := fingerprint v4;
      bn_sign_fingerprint := fingerprint v5; bn_enc_secret := enc; bn_sign_secret := sig |} = Ok (default [] enc ++ default [] sig)) as ->.
    { unfold push_secrets, secret_entry. cbn. by destruct enc, sig. }
    cbn. eexists; split; [done|]. unfold secret_entry. cbn. simplify_eq. by rewrite <- !app_assoc.
Qed.

Definition package_of (body signature : bytes) : bytes := MAGIC ++ [VERSION] ++ be_bytes 4 (N.of_nat (length body)) ++ body ++ signature.

Lemma split_package_iff package body signature : split_package package = Ok (body, signature) <->
  fixed 64 signature /\ (N.of_nat (length body) < u32_max)%N /\ package = package_of body signature.
Proof.
  unfold split_package. split.
  - destruct (_ || _) eqn:EG; [done|]. apply orb_false_iff in EG as [_ EM%negb_false_iff%bool_decide_eq_true].
    intros ([v rest] & Ev%take_u8_Ok & H)%bind_Ok. destruct (bool_decide (v = VERSION)) eqn:EV; [|done]. apply bool_decide_eq_true in EV as ->. cbn [negb] in H.
    apply bind_Ok in H as ([len cursor] & [Hl ->]%take_u32_Ok & H). destruct (Nat.eqb_spec (length cursor) (N.to_nat len + 64)) as [EL|]; [|done]. cbn [negb] in H. injection H as <- <-.
    unfold fixed, package_of. rewrite length_drop, length_take. replace (N.to_nat len `min` length cursor) with (N.to_nat len) by lia. rewrite N2Nat.id. split_and!; [lia|done|].
    rewrite <- (take_drop 4 package), EM, Ev. cbn [app]. by rewrite take_drop.
  - intros (Hs & Hl & ->). unfold package_of. destruct (_ || _) eqn:EG.
    { exfalso. apply orb_true_iff in EG as [EG%Nat.ltb_lt|EG%negb_true_iff%bool_decide_eq_false].
      - unfold fixed in Hs. rewrite !length_app, length_be_bytes, Hs in EG. simpl in EG. lia.
      - by rewrite take_app_length' in EG. }
    rewrite drop_app_length' by done. cbn [app take_u8 mbind result_bind]. rewrite bool_decide_true by done. cbn [negb]. rewrite take_u32_bytes by done. cbn [mbind result_bind].
    rewrite Nat2N.id, length_app, Hs, Nat.eqb_refl. cbn [negb]. by rewrite take_app_length, drop_app_length.
Qed.

Record bundle_wf (source dest : Container) (b : Bundle) : Prop := {
  bw_id : fixed 16 (bd_id b);
  bw_source : bd_source b = ct_device_id source /\ fixed 16 (bd_source b);
  bw_destination : bd_destination b = ct_device_id dest /\ fixed 16 (bd_destination b);
  bw_key : fixed 32 (ct_verify_key source);
  bw_actor : validate_slot_label (bd_actor b) = Ok tt;
  bw_root : validate_slot_label (bd_root b) = Ok tt;
  bw_entries : Forall entry_wf (bd_entries b);
}.

Lemma op_tag_back o : op_from_tag (op_tag o) = Ok o.
Proof. by destruct o. Qed.
Lemma mode_tag_back m : mode_from_tag (mode_tag m) = Ok m.
Proof. by destruct m. Qed.

Lemma take_bundle_iff source dest body b : take_bundle source dest body = Ok (b, []) <-> bundle_wf source dest b /\ encode_body (ct_verify_key source) b = Ok body.
Proof.
  split.
  - intros E. unfold take_bundle in E. inv_parser. destruct (_ || _) eqn:B; [done|]. bool_hyps. inv_parser. subst.
    repeat match goal with
    | H : lift _ _ = Ok _ |- _ => apply lift_Ok in H as [? ->]
    | H : take_array _ _ = Ok _ |- _ => apply take_n_Ok in H as [-> ?]
    | H : take_u8 _ = Ok _ |- _ => apply take_u8_Ok in H as ->
    | H : take_text _ = Ok _ |- _ => canon H text_codec
    | v : unit |- _ => destruct v
    end.
    match goal with H : repeat_parser _ _ _ = Ok _ |- _ => apply (codec_repeat_canonical entry_codec) in H as (Hlen & HF & eb & Eb & ->) end.
    match goal with H : length ?c = 2 |- _ => destruct (u16_count_forth c _ H Hlen) as [En Ec] end.
    split; [by split|]. unfold encode_body. cbn. run_enc. rewrite En. cbn. rewrite ?Eb. cbn. rewrite Ec, app_nil_r.
    repeat match goal with H : op_from_tag ?v = Ok _ |- _ => destruct v; try done; injection H as <- | H : mode_from_tag ?v = Ok _ |- _ => destruct v; try done; injection H as <- end; done.
  - intros [[H1 [H2 H2'] [H3 H3'] H4 H5 H6 H7] E]. unfold encode_body in E. inv_ok; subst. unfold take_bundle.
    assert (forall v rest, take_array 2 (be_bytes 2 v ++ rest) = Ok (be_bytes 2 v, rest)) as Hc by (intros; apply take_n_app, length_be_bytes).
    rewrite <- (app_nil_r x2).
    erewrite parser_bind_eq by (by apply take_n_app). cbn [app]. erewrite parser_bind_eq by done. erewrite parser_bind_eq by (apply lift_Ok; split; [apply op_tag_back|done]).
    erewrite parser_bind_eq by done. erewrite parser_bind_eq by (apply lift_Ok; split; [apply mode_tag_back|done]).
    do 3 (erewrite parser_bind_eq by (by apply take_n_app)). rewrite !bool_decide_true by done. cbn [negb orb].
    rewrite (parser_bind_eq _ _ _ _ _ (codec_roundtrip _ _ _ text_codec _ _ _ (slot_label_text _ H5) H)). rewrite (parser_bind_eq _ _ _ _ _ (codec_roundtrip _ _ _ text_codec _ _ _ (slot_label_text _ H6) H0)).
    do 2 (erewrite parser_bind_eq by (by apply lift_Ok)). erewrite parser_bind_eq by apply Hc. rewrite u16_count_back by done.
    erewrite parser_bind_eq by (by eapply (codec_repeat_roundtrip entry_codec)). by destruct b.
Qed.

Definition has_root (b : Bundle) : Prop := exists e, e ∈ bd_entries b /\ bn_label e = bd_root b /\ secret_entry e = true.

Lemma open_bundle_iff package source dest b : open_bundle package source dest = Ok b <->
  bundle_wf source dest b /\ has_root b /\ exists body signature, encode_body (ct_verify_key source) b = Ok body /\ fixed 64 signature /\ (N.of_nat (length body) < u32_max)%N /\
  package = package_of body signature /\ verify_signature (ct_verify_key source) (DOMAIN ++ body) signature = Ok tt.
Proof.
  unfold open_bundle. split.
  - intros ([body signature] & (Hs & Hl & ->)%split_package_iff & H)%bind_Ok. apply bind_Ok in H as ([] & EV & H). apply bind_Ok in H as ([b' data] & ET & H).
    destruct (bool_decide (data = [])) eqn:ED; [|done]. apply bool_decide_eq_true in ED as ->. destruct (existsb _ _) eqn:EX; [|done]. injection H as ->.
    apply take_bundle_iff in ET as [HW EB]. split; [done|]. split; [|by eexists _, _]. apply existsb_exists in EX as (e & He%list_elem_of_In & [Hl' Hse]%andb_true_iff). apply bool_decide_eq_true in Hl'. by exists e.
  - intros (HW & (e & He & Hl & Hse) & body & signature & EB & Hs & Hlen & -> & EV). rewrite (proj2 (split_package_iff _ _ _)) by done. cbn [mbind result_bind]. rewrite EV. cbn [mbind result_bind].
    rewrite (proj2 (take_bundle_iff _ _ _ _)) by done. cbn [mbind result_bind]. rewrite bool_decide_true by done. cbn [negb].
    assert (existsb (fun e => bool_decide (bn_label e = bd_root b) && secret_entry e) (bd_entries b) = true) as ->; [|done].
    apply existsb_exists. exists e. rewrite <- list_elem_of_In, bool_decide_true, Hse by done. done.
Qed.
End laws.

Section signed.
Context `{C : Crypto} `{!CryptoLaws C} `{HX : Hex} `{S : Storage}.

Lemma take_header_body key b body : fixed 16 (bd_id b) -> fixed 16 (bd_source b) -> fixed 16 (bd_destination b) -> fixed 32 key -> encode_body key b = Ok body ->
  exists rest, take_header body = Ok ({| ap_id := bd_id b; ap_source := bd_source b; ap_destination := bd_destination b; ap_verify_key := key |}, rest).
Proof.
  intros H1 H2 H3 H4 E. unfold encode_body in E. inv_ok; subst. eexists. unfold take_header. erewrite parser_bind_eq by (by apply take_n_app). cbn [app].
  do 2 (erewrite parser_bind_eq by done). do 3 (erewrite parser_bind_eq by (by apply take_n_app)). done.
Qed.

Lemma encode_opens (source : Dev S) dest b package : sound source -> bundle_wf (dv_box source) dest b -> has_root b -> encode_bundle source b = Ok package ->
  open_bundle package (dv_box source) dest = Ok b /\
  authenticated_package package = Ok {| ap_id := bd_id b; ap_source := ct_device_id (dv_box source); ap_destination := ct_device_id dest; ap_verify_key := ct_verify_key (dv_box source) |}.
Proof.
  intros (_ & secret & Er & Hl & Ep) HW HR E. unfold encode_bundle in E. apply bind_Ok in E as (body & EB & E). apply bind_Ok in E as (sk & Esk & E). apply bind_Ok in E as (len & EL & [= <-]).
  apply map_err_Ok, try_u32_Ok in EL as [-> Hlen].
  assert (sk = secret) as ->.
  { unfold device_signing_secret_in, mbind, stM_bind, box, read_file, on_disk in Esk. cbn in Esk. rewrite Er, Hl in Esk. cbn in Esk. congruence. }
  assert (verify_signature (ct_verify_key (dv_box source)) (DOMAIN ++ body) (sign secret (DOMAIN ++ body)) = Ok tt) as EV.
  { rewrite <- Ep. unfold verify_signature, public_key, sign. rewrite ed25519_public_ok. cbn. by rewrite ed25519_verify_sign. }
  split; [apply open_bundle_iff; split_and!; [done..|]; exists body, (sign secret (DOMAIN ++ body)); split_and!; try done; apply ed25519_sign_length|].
  unfold authenticated_package. rewrite (proj2 (split_package_iff _ body (sign secret (DOMAIN ++ body)))) by (split_and!; [apply ed25519_sign_length|done..]). cbn [mbind result_bind].
  destruct HW as [H1 [E2 H2] [E3 H3] H4 _ _ _]. destruct (take_header_body _ _ _ H1 H2 H3 H4 EB) as [rest ->]. cbn [mbind result_bind ap_verify_key]. rewrite EV. cbn. by rewrite E2, E3.
Qed.

(** C14: A transfer package is read exactly as it was written. A source that is in order
    writes every well-formed bundle of at most 2^32 bytes that carries its root's secrets into a package that the named destination
    opens to that very bundle and whose header authenticates to the same ids and key;
    and whatever the bytes, a package that opens is the one encoding of its bundle, signed
    as a whole with the source's device key, with every secret behind its public key and
    every fingerprint that of its key. *)
Theorem package_exact (source : Dev S) dest b :
  (forall package, sound source -> bundle_wf (dv_box source) dest b -> has_root b -> encode_bundle source b = Ok package ->
    open_bundle package (dv_box source) dest = Ok b /\
    authenticated_package package = Ok {| ap_id := bd_id b; ap_source := ct_device_id (dv_box source); ap_destination := ct_device_id dest; ap_verify_key := ct_verify_key (dv_box source) |}) /\
  (forall package, open_bundle package (dv_box source) dest = Ok b ->
    bundle_wf (dv_box source) dest b /\ has_root b /\ exists body signature, encode_body (ct_verify_key (dv_box source)) b = Ok body /\ package = package_of body signature /\
    fixed 64 signature /\ verify_signature (ct_verify_key (dv_box source)) (DOMAIN ++ body) signature = Ok tt).
Proof.
  split; [intros package; apply encode_opens|].
  intros package (HW & HR & body & signature & EB & Hs & _ & -> & EV)%open_bundle_iff. split_and!; [done..|]. by exists body, signature.
Qed.
End signed.
