(* ===== verification/Transfer.v ===== *)
(** * Transfer of key identities ([src/src/transfer.rs])

    Copying and moving identities between two devices: what a store knows of its
    identities, preparing a package, accepting it, finishing and recovering. A
    function that takes a [Connection], a [Storage] and a [&mut Container] is a
    computation on a [Site]; one that sees both devices is a computation on a
    [Duo]. The two sides may share the database or the disk. *)

From stdpp Require Import gmap.
From S2P Require Import Prelude Text Crypto BTree Envelope HistoryCodec Event Authority Signing Tables KeyStore Aead World Pin Device TransferPackage.

Definition op_as_str (o : TransferOp) : bytes := match o with Copy => str "copy" | Move => str "move" end.

Record TransferAuth := {
  self_copy : bool; self_move : bool; descendant_copy : bool; descendant_move : bool; countersign_required : bool; allow_ancestor_import : bool }.
Definition default_auth : TransferAuth :=
  {| self_copy := true; self_move := true; descendant_copy := true; descendant_move := true; countersign_required := false; allow_ancestor_import := false |}.

Record IdentityInfo := {
  ii_id : bytes; ii_label : bytes; ii_parent : option bytes; ii_state : Possession; ii_generation : N; ii_enc_fingerprint : bytes }.
Inductive Recovery := RecFinalized | RecAborted | RecAlreadyComplete | RecNeedsAdmin.

Record PreparedTransfer := {
  pt_id : bytes; pt_operation : TransferOp; pt_descendants : DescendantMode; pt_root : bytes; pt_actor : bytes;
  pt_secret_labels : list bytes; pt_hint_labels : list bytes; pt_package : bytes }.

(** ** Rows *)

Definition on_transfer (g : TransferTables -> TransferTables) : dbM unit := execute (fun st => set_transfer (g (st_transfer st)) st).

Definition identity_by_label (label : bytes) (st : Store) : option IdentityRow :=
  first_row (fun i => bool_decide (ir_label i = label)) (tt_identities (st_transfer st)).
Definition identity_by_id (id : bytes) (st : Store) : option IdentityRow :=
  first_row (fun i => bool_decide (ir_id i = id)) (tt_identities (st_transfer st)).
Definition possession_of (id : bytes) (p : PossessionRow) : bool := bool_decide (po_identity p = id).
Definition possession_row (id : bytes) (st : Store) : option PossessionRow := first_row (possession_of id) (tt_possession (st_transfer st)).
Definition possession (label : bytes) (st : Store) : option Possession :=
  i ← identity_by_label label st; p ← possession_row (ir_id i) st; Some (po_state p).
Definition identity (label : bytes) (st : Store) : result (option IdentityInfo) :=
  match identity_by_label label st with
  | None => Ok None
  | Some row =>
      state ← ok_or (possession label st) IntegrityCheckFailed;
      p ← ok_or (possession_row (ir_id row) st) Db;
      Ok (Some {| ii_id := ir_id row; ii_label := ir_label row; ii_parent := ir_parent row; ii_state := state; ii_generation := po_generation p; ii_enc_fingerprint := ir_enc_fingerprint row |})
  end.

(** [ORDER BY label] *)
Definition identity_le (a b : IdentityRow) : Prop := str_lt (ir_label b) (ir_label a) = false.
#[export] Instance identity_le_dec a b : Decision (identity_le a b).
Proof. unfold identity_le. apply _. Defined.
Definition by_label (st : Store) : list IdentityRow := merge_sort identity_le (tt_identities (st_transfer st)).

Definition list_identities (include_ghosts : bool) (st : Store) : list IdentityInfo :=
  omap (fun i => p ← possession_row (ir_id i) st;
    if bool_decide (po_state p = Ghost) && negb include_ghosts then None
    else Some {| ii_id := ir_id i; ii_label := ir_label i; ii_parent := ir_parent i; ii_state := po_state p; ii_generation := po_generation p; ii_enc_fingerprint := ir_enc_fingerprint i |})
    (by_label st).

Definition generation_of (id : bytes) (st : Store) : result N := ok_or (po_generation <$> possession_row id st) TransferDenied.

Section rows.
Context `{C : Crypto} `{HX : Hex}.
(** The schema makes ids and labels unique and an identity's possession one row. *)
Definition insert_identity (id label : bytes) (parent : option bytes) (enc_public sign_public : bytes) (state : Possession) (generation : N) : dbM unit := fun st =>
  let t := st_transfer st in
  if bool_decide (id ∈ map ir_id (tt_identities t)) || bool_decide (label ∈ map ir_label (tt_identities t)) then (Err Db, st) else
  let st1 := set_transfer (set_tt_identities (tt_identities t ++ [ {| ir_id := id; ir_label := label; ir_parent := parent; ir_enc_public := enc_public; ir_sign_public := sign_public;
    ir_enc_fingerprint := fingerprint enc_public; ir_sign_fingerprint := fingerprint sign_public |} ]) t) st in
  if bool_decide (id ∈ map po_identity (tt_possession t)) then (Err Db, st1) else
  (Ok tt, set_transfer (set_tt_possession (tt_possession t ++ [ {| po_identity := id; po_state := state; po_generation := generation |} ]) (st_transfer st1)) st1).

Definition ensure_hardware (label : bytes) (key_type : KeyType) (public_key : bytes) : dbM nat := fun st =>
  match get_key_by_public_key public_key st with Ok existing => (Ok (hk_id existing), st) | Err _ => register_key label key_type public_key st end.
End rows.

Definition set_possession (id : bytes) (state : Possession) (generation : N) : dbM unit := fun st =>
  match possession_row id st with
  | Some _ => on_transfer (fun t => set_tt_possession (update_where (possession_of id) (fun p => {| po_identity := po_identity p; po_state := state; po_generation := generation |}) (tt_possession t)) t) st
  | None => (Err TransferDenied, st)
  end.
Definition set_generation_at_least (id : bytes) (generation : N) : dbM unit :=
  on_transfer (fun t => set_tt_possession (update_where (fun p => possession_of id p && (po_generation p <? generation)%N)
    (fun p => {| po_identity := po_identity p; po_state := po_state p; po_generation := generation |}) (tt_possession t)) t).

(** [identity_id] references [key_identities]. *)
Definition provenance_of (id device : bytes) (p : ProvenanceRow) : bool := bool_decide (pv_identity p = id /\ pv_device p = device).
Definition upsert_provenance (id device : bytes) (state : Possession) : dbM unit := fun st =>
  match first_row (provenance_of id device) (tt_provenance (st_transfer st)), identity_by_id id st with
  | Some _, _ => on_transfer (fun t => set_tt_provenance (update_where (provenance_of id device) (fun p => {| pv_identity := id; pv_device := device; pv_state := state |}) (tt_provenance t)) t) st
  | None, Some _ => on_transfer (fun t => set_tt_provenance (tt_provenance t ++ [ {| pv_identity := id; pv_device := device; pv_state := state |} ]) t) st
  | None, None => (Err Db, st)
  end.

(** ** Transactions and the audit *)

Definition tx_is (id : bytes) (r : TxRow) : bool := bool_decide (tr_id r = id).
Definition tx_row (id : bytes) (st : Store) : option TxRow := first_row (tx_is id) (tt_transactions (st_transfer st)).
Definition tx_exists (id : bytes) (st : Store) : bool := bool_decide (is_Some (tx_row id st)).
Definition has_transfer (id : bytes) (st : Store) : bool := tx_exists id st.
Definition tx_role (id : bytes) (st : Store) : option TxRole := tr_role <$> tx_row id st.
Definition tx_state (id : bytes) (st : Store) : option TxState := tr_state <$> tx_row id st.
Definition tx_detail (id : bytes) (st : Store) : result bytes := ok_or (tr_detail <$> tx_row id st) TransferIncomplete.
Definition tx_hash (id : bytes) (st : Store) : result bytes := ok_or (tr_hash <$> tx_row id st) TransferIncomplete.
Definition tx_operation (id : bytes) (st : Store) : result TransferOp := ok_or (tr_operation <$> tx_row id st) TransferIncomplete.
Definition tx_root (id : bytes) (st : Store) : result bytes := ok_or (tr_root <$> tx_row id st) TransferIncomplete.
Definition tx_mode (id : bytes) (st : Store) : result DescendantMode := m ← ok_or (tr_mode <$> tx_row id st) TransferIncomplete; mode_parse m.
Definition tx_peer (id : bytes) (st : Store) : result bytes := ok_or (tr_peer <$> tx_row id st) TransferIncomplete.

Definition with_state (s : TxState) (r : TxRow) : TxRow :=
  {| tr_id := tr_id r; tr_operation := tr_operation r; tr_role := tr_role r; tr_state := s; tr_peer := tr_peer r; tr_root := tr_root r; tr_mode := tr_mode r; tr_hash := tr_hash r; tr_detail := tr_detail r |}.
Definition with_tx_detail (d : bytes) (r : TxRow) : TxRow :=
  {| tr_id := tr_id r; tr_operation := tr_operation r; tr_role := tr_role r; tr_state := tr_state r; tr_peer := tr_peer r; tr_root := tr_root r; tr_mode := tr_mode r; tr_hash := tr_hash r; tr_detail := d |}.
Definition on_tx (id : bytes) (g : TxRow -> TxRow) : dbM unit := on_transfer (fun t => set_tt_transactions (update_where (tx_is id) g (tt_transactions t)) t).

Definition set_state (id : bytes) (state : TxState) : dbM unit := fun st =>
  if tx_exists id st then on_tx id (with_state state) st else (Err TransferIncomplete, st).
Definition set_detail (id detail : bytes) : dbM unit := on_tx id (with_tx_detail detail).
Definition insert_tx (row : TxRow) : dbM unit := fun st =>
  if tx_exists (tr_id row) st then (Err Db, st) else on_transfer (fun t => set_tt_transactions (tt_transactions t ++ [row]) t) st.
(** Every column but the operation. *)
Definition update_tx (id : bytes) (role : TxRole) (state : TxState) (peer root mode hash detail : bytes) : dbM unit :=
  on_tx id (fun r => {| tr_id := tr_id r; tr_operation := tr_operation r; tr_role := role; tr_state := state; tr_peer := peer; tr_root := root; tr_mode := mode; tr_hash := hash; tr_detail := detail |}).

Definition write_audit (tx : bytes) (operation : TransferOp) (source destination key path : bytes) (mode : DescendantMode) (result detail : bytes) : dbM unit :=
  on_transfer (fun t => set_tt_audit (tt_audit t ++ [ {| ta_id := next_id ta_id (tt_audit t); ta_transaction := tx; ta_operation := operation; ta_source := source; ta_destination := destination;
    ta_key := key; ta_path := path; ta_mode := mode_as_str mode; ta_result := result; ta_detail := detail |} ]) t).
Definition no_id : bytes := replicate 16 x00.
Definition audit_bundle (b : Bundle) (result detail : bytes) : dbM unit :=
  let root_id := default no_id (bn_id <$> first_row (fun e => bool_decide (bn_label e = bd_root b)) (bd_entries b)) in
  write_audit (bd_id b) (bd_operation b) (bd_source b) (bd_destination b) root_id (bd_root b) (bd_descendants b) result detail.

(** ** The detail column *)

Definition semicolon : byte := x3b.
Definition comma : byte := x2c.
Definition equals : byte := x3d.
Definition format_detail (reason : bytes) (included excluded installed : list bytes) : bytes :=
  str "reason=" ++ reason ++ str ";included=" ++ Text.join comma included ++ str ";excluded=" ++ Text.join comma excluded ++ str ";installed=" ++ Text.join comma installed.
Definition replace_detail_list (detail key : bytes) (values : list bytes) : bytes :=
  let parts := filter (fun part => strip_prefix (key ++ [equals]) part = None) (Text.split semicolon detail) in
  Text.join semicolon (parts ++ [key ++ equals :: Text.join comma values]).
Definition detail_value (key part : bytes) : option (list bytes) :=
  '(found, value) ← split_once equals part;
  if bool_decide (found = key) then Some (if bool_decide (value = []) then [] else Text.split comma value) else None.
Definition detail_list (detail key : bytes) : list bytes := default [] (head (omap (detail_value key) (Text.split semicolon detail))).

(** ** Labels and what may be transferred *)

Definition children_of (label : bytes) (st : Store) : list bytes :=
  map ir_label (filter (fun i => ir_parent i = Some label) (by_label st)).
(** [queue.pop()] takes the last one. *)
Fixpoint descendants_loop (fuel : nat) (st : Store) (queue out : list bytes) : result (list bytes) :=
  match fuel with
  | 0 => Err NoEnd
  | S fuel =>
      match reverse queue with
      | [] => Ok out
      | current :: rest => descendants_loop fuel st (reverse rest ++ children_of current st) (out ++ [current])
      end
  end.
(** A label that is met twice is met again and again: one round per identity is enough. *)
Definition descendants_of (label : bytes) (st : Store) : result (list bytes) :=
  descendants_loop (S (length (tt_identities (st_transfer st)))) st (children_of label st) [].

Fixpoint ancestors_loop (fuel : nat) (label : bytes) : list bytes :=
  match fuel with
  | 0 => []
  | S fuel => match parent_node_label label with Some parent => parent :: ancestors_loop fuel parent | None => [] end
  end.
(** A parent is shorter than its label. *)
Definition ancestor_labels (label : bytes) : list bytes := ancestors_loop (length label) label.

Definition active_labels (st : Store) : list bytes :=
  omap (fun i => p ← possession_row (ir_id i) st; if bool_decide (po_state p = Active) then Some (ir_label i) else None) (tt_identities (st_transfer st)).

Definition is_strict_descendant (label ancestor : bytes) : bool :=
  match strip_prefix ancestor label with Some (b :: rest) => bool_decide (b = dot) && negb (bool_decide (rest = [])) | _ => false end.

Definition require_active (label : bytes) (st : Store) : result unit :=
  match possession label st with Some Active => Ok tt | Some Ghost => Err GhostDenied | None => Err TransferDenied end.

Definition authorize (actor label : bytes) (operation : TransferOp) (descendants : DescendantMode) (auth : TransferAuth) (st : Store) : result unit :=
  if countersign_required auth then Err TransferDenied else
  require_active actor st ≫= fun _ =>
  let self_ok := match operation with Copy => self_copy auth | Move => self_move auth end in
  let descendant_ok := match operation with Copy => descendant_copy auth | Move => descendant_move auth end in
  let allowed :=
    if bool_decide (actor = label) then self_ok && (bool_decide (descendants = KeyOnly) || descendant_ok)
    else if is_strict_descendant label actor then descendant_ok else false in
  if negb allowed then Err TransferDenied else Ok tt.

Definition active_among (labels : list bytes) (st : Store) : list bytes := filter (fun l => possession l st = Some Active) labels.
(** Push what is not in a list yet. *)
Definition push_missing (secrets : list bytes) (hints : list bytes) (node : bytes) : list bytes :=
  if bool_decide (node ∈ secrets) || bool_decide (node ∈ hints) then hints else hints ++ [node].
Definition select_export (label : bytes) (descendants : DescendantMode) (st : Store) : result (list bytes * list bytes) :=
  require_active label st ≫= fun _ =>
  below ← match descendants with
          | KeyOnly => Ok []
          | DirectChildren => Ok (active_among (children_of label st) st)
          | AllDescendants => all ← descendants_of label st; Ok (active_among all st)
          end;
  let secrets := label :: below in
  let ancestors := filter (fun a => is_Some (identity_by_label a st) /\ a ∉ secrets) (ancestor_labels label) in
  all ← descendants_of label st;
  Ok (secrets, foldl (push_missing secrets) ancestors (all ++ [label])).
Definition export_secret_labels (label : bytes) (descendants : DescendantMode) (st : Store) : result (list bytes) := fst <$> select_export label descendants st.

Inductive Incoming := InNewSecret | InHint | InReconcile | InConflict | InReplay.
Definition classify_incoming (e : BundleEntry) (st : Store) : result Incoming :=
  let differs row := negb (bool_decide (ir_enc_public row = bn_enc_public e)) || negb (bool_decide (ir_sign_public row = bn_sign_public e)) in
  if match identity_by_label (bn_label e) st with Some row => negb (bool_decide (ir_id row = bn_id e)) || differs row | None => false end then Ok InConflict else
  match identity_by_id (bn_id e) st with
  | Some row =>
      if negb (bool_decide (ir_label row = bn_label e)) || differs row then Ok InConflict else
      generation ← generation_of (bn_id e) st;
      Ok (if (bn_generation e <? generation)%N then InReplay else InReconcile)
  | None => Ok (if secret_entry e then InNewSecret else InHint)
  end.

Definition may_receive (label : bytes) (allow : bool) (active_before : list bytes) : bool :=
  bool_decide (active_before = []) || existsb (fun ancestor => is_strict_descendant label ancestor) active_before ||
  (allow && existsb (fun descendant => is_strict_descendant descendant label) active_before).
Fixpoint receiver_accepts_with (entries : list BundleEntry) (allow : bool) (active_before : list bytes) (st : Store) : result unit :=
  match entries with
  | [] => Ok tt
  | e :: entries =>
      c ← classify_incoming e st;
      match c with
      | InConflict => Err IdentityConflict
      | InReplay => Err TransferReplay
      | InReconcile | InHint => receiver_accepts_with entries allow active_before st
      | InNewSecret => if may_receive (bn_label e) allow active_before then receiver_accepts_with entries allow active_before st else Err TransferDenied
      end
  end.
Definition receiver_accepts (b : Bundle) (allow : bool) (st : Store) : result unit := receiver_accepts_with (bd_entries b) allow (active_labels st) st.

Definition bundle_labels (b : Bundle) : list bytes * list bytes :=
  (map bn_label (filter (fun e => secret_entry e = true) (bd_entries b)), map bn_label (filter (fun e => secret_entry e = false) (bd_entries b))).

(** ** One device *)

Record Site `{S : Storage} := { si_db : Store; si_dev : Dev S }.
#[global] Arguments Site : clear implicits.
#[global] Arguments Site S : rename.

Section sites.
Context `{S : Storage} `{C : Crypto} `{HX : Hex} `{A : Aead}.
Notation siteM := (stM (Site S)).

Definition on_db {B} (m : dbM B) : siteM B := zoom si_db (fun st s => {| si_db := st; si_dev := si_dev s |}) (m : stM Store B).
Definition on_dev {B} (m : stM (Dev S) B) : siteM B := zoom si_dev (fun d s => {| si_db := si_db s; si_dev := d |}) m.
Definition ask {B} (f : Store -> result B) : siteM B := fun s => (f (si_db s), s).
Definition container : siteM Container := fun s => (Ok (dv_box (si_dev s)), s).
Definition open_slot (label passphrase : bytes) : siteM SlotSecrets := fun s => (open_slot_in label passphrase (si_dev s), s).

(** [id] is the id drawn; [draws] the keys, salt and nonce of a slot provisioned. *)
Definition enroll_in (id : bytes) (enc sig salt nonce : bytes) (label passphrase : bytes) : siteM bytes :=
  st_try (validate_slot_label label) ≫= fun _ =>
  c ← container;
  (if bool_decide (slot c label = None) then on_dev (provision_in enc sig salt nonce label passphrase) ≫= fun _ => mret tt else mret tt) ≫= fun _ =>
  secrets ← open_slot label passphrase;
  existing ← ask (fun st => Ok (identity_by_label label st));
  match existing with
  | Some row =>
      if negb (bool_decide (ir_enc_public row = ss_encryption_public secrets)) || negb (bool_decide (ir_sign_public row = ss_signing_public secrets))
      then st_try (Err IdentityConflict) else mret (ir_id row)
  | None =>
      on_db (ensure_hardware label Encryption (ss_encryption_public secrets)) ≫= fun _ =>
      on_db (ensure_hardware label Signing (ss_signing_public secrets)) ≫= fun _ =>
      on_db (transaction (insert_identity id label (parent_node_label label) (ss_encryption_public secrets) (ss_signing_public secrets) Active 1)) ≫= fun _ =>
      mret id
  end.

Definition sign_active_in (label passphrase message : bytes) : siteM bytes :=
  ask (require_active label) ≫= fun _ =>
  secrets ← open_slot label passphrase;
  mret (sign (ss_signing_secret secrets) message).

(** What [prepare_in] puts in for a label whose secrets go along, and for a hint. *)
Definition entry_of (row : IdentityRow) (generation : N) (label : bytes) (enc sig : option bytes) : BundleEntry :=
  {| bn_id := ir_id row; bn_generation := generation; bn_label := label; bn_parent := ir_parent row; bn_enc_public := ir_enc_public row; bn_sign_public := ir_sign_public row;
     bn_enc_fingerprint := ir_enc_fingerprint row; bn_sign_fingerprint := ir_sign_fingerprint row; bn_enc_secret := enc; bn_sign_secret := sig |}.
Definition export_secret (passphrases : bytes -> option bytes) (s : Site S) (label : bytes) : result BundleEntry :=
  row ← ok_or (identity_by_label label (si_db s)) TransferDenied;
  generation ← generation_of (ir_id row) (si_db s);
  passphrase ← ok_or (passphrases label) InvalidPassword;
  secrets ← open_slot_in label passphrase (si_dev s);
  if negb (bool_decide (ss_encryption_public secrets = ir_enc_public row)) || negb (bool_decide (ss_signing_public secrets = ir_sign_public row)) then Err IdentityConflict else
  Ok (entry_of row generation label (Some (ss_encryption_secret secrets)) (Some (ss_signing_secret secrets))).
Definition export_hint (s : Site S) (label : bytes) : result (option BundleEntry) :=
  match identity_by_label label (si_db s) with
  | None => Ok None
  | Some row => generation ← generation_of (ir_id row) (si_db s); Ok (Some (entry_of row generation label None None))
  end.

Definition denied (tx_id : bytes) (operation : TransferOp) (destination label : bytes) (descendants : DescendantMode) (reason : bytes) : siteM PreparedTransfer :=
  c ← container;
  key_id ← ask (fun st => Ok (default no_id (ir_id <$> identity_by_label label st)));
  st_ignore (on_db (write_audit tx_id operation (ct_device_id c) destination key_id label descendants (str "denied") (str "reason=" ++ reason))) ≫= fun _ =>
  st_try (Err (if bool_decide (reason = str "ghost") then GhostDenied else TransferDenied)).

Definition prepare_in (tx_id destination actor label : bytes) (operation : TransferOp) (descendants : DescendantMode) (passphrases : bytes -> option bytes) (auth : TransferAuth) : siteM PreparedTransfer :=
  let refuse := denied tx_id operation destination label descendants in
  if negb (is_ok (validate_slot_label actor)) || negb (is_ok (validate_slot_label label)) then refuse (str "label") else
  allowed ← ask (fun st => Ok (authorize actor label operation descendants auth st));
  match allowed with
  | Err e => refuse (if bool_decide (e = GhostDenied) then str "ghost" else str "unauthorized")
  | Ok _ =>
      selected ← ask (fun st => Ok (select_export label descendants st));
      match selected with
      | Err NoEnd => st_try (Err NoEnd)
      | Err e => refuse (if bool_decide (e = GhostDenied) then str "ghost" else str "export")
      | Ok (secret_labels, hint_labels) =>
          secrets ← (fun s => (mapM (export_secret passphrases s) secret_labels, s));
          hints ← (fun s => (mapM (export_hint s) hint_labels, s));
          c ← container;
          let bundle := {| bd_id := tx_id; bd_operation := operation; bd_descendants := descendants; bd_source := ct_device_id c; bd_destination := destination;
                           bd_actor := actor; bd_root := label; bd_entries := secrets ++ omap (fun h => h) hints |} in
          package ← (fun s => (encode_bundle (si_dev s) bundle, s));
          let detail := format_detail (str "prepared") secret_labels hint_labels [] in
          root ← ask (fun st => ok_or (identity_by_label label st) TransferDenied);
          on_db (transaction (
            insert_tx {| tr_id := tx_id; tr_operation := operation; tr_role := SourceRole; tr_state := Prepared; tr_peer := destination; tr_root := label;
                         tr_mode := mode_as_str descendants; tr_hash := sha256 package; tr_detail := detail |} ≫= fun _ =>
            write_audit tx_id operation (ct_device_id c) destination (ir_id root) label descendants (str "prepared") detail)) ≫= fun _ =>
          mret {| pt_id := tx_id; pt_operation := operation; pt_descendants := descendants; pt_root := label; pt_actor := actor;
                  pt_secret_labels := secret_labels; pt_hint_labels := hint_labels; pt_package := package |}
      end
  end.

(** *** The destination *)

Definition stage_reason (e : error) : bytes :=
  match e with IdentityConflict => str "reason=identity_conflict" | TransferReplay => str "reason=replay" | _ => str "reason=ancestry" end.
Definition stage_destination (source dest : Container) (package : bytes) (allow : bool) : dbM unit :=
  bundle ← db_try (open_bundle package source dest);
  existing_role ← query (fun st => Ok (tx_role (bd_id bundle) st));
  if bool_decide (existing_role = Some DestinationRole) then
    audit_bundle bundle (str "denied") (str "reason=replay") ≫= fun _ => db_try (Err TransferReplay)
  else
  accepted ← query (fun st => Ok (receiver_accepts bundle allow st));
  match accepted with
  | Err e => audit_bundle bundle (str "denied") (stage_reason e) ≫= fun _ => db_try (Err e)
  | Ok _ =>
      let hash := sha256 package in
      let detail := format_detail (str "transferred") (bundle_labels bundle).1 (bundle_labels bundle).2 [] in
      transaction (
        (if bool_decide (is_Some existing_role) then
           update_tx (bd_id bundle) DestinationRole Transferred (bd_source bundle) (bd_root bundle) (mode_as_str (bd_descendants bundle)) hash detail
         else insert_tx {| tr_id := bd_id bundle; tr_operation := bd_operation bundle; tr_role := DestinationRole; tr_state := Transferred; tr_peer := bd_source bundle;
                           tr_root := bd_root bundle; tr_mode := mode_as_str (bd_descendants bundle); tr_hash := hash; tr_detail := detail |}) ≫= fun _ =>
        audit_bundle bundle (str "transferred") detail)
  end.

(** The loop of [write_destination_slots_in]; [draws] gives the salt and nonce of a
    label's new token. *)
Fixpoint write_slots (draws : bytes -> bytes * bytes) (passphrases : bytes -> option bytes) (limit : option nat) (tx : bytes)
    (entries : list BundleEntry) (installed : list bytes) (written : nat) : siteM unit :=
  match entries with
  | [] => mret tt
  | e :: entries =>
      if match limit with Some limit => limit <=? written | None => false end then mret tt else
      c ← container;
      if bool_decide (is_Some (slot c (bn_label e))) then
        passphrase ← st_try (ok_or (passphrases (bn_label e)) InvalidPassword);
        opened ← open_slot (bn_label e) passphrase;
        if negb (bool_decide (ss_encryption_public opened = bn_enc_public e)) then st_try (Err IdentityConflict)
        else write_slots draws passphrases limit tx entries installed written
      else
        passphrase ← st_try (ok_or (passphrases (bn_label e)) InvalidPassword);
        let recorded := if bool_decide (bn_label e ∈ installed) then installed else installed ++ [bn_label e] in
        (if bool_decide (bn_label e ∈ installed) then mret tt else
           detail ← ask (tx_detail tx);
           on_db (set_detail tx (replace_detail_list detail (str "installed") recorded))) ≫= fun _ =>
        enc ← st_try (ok_or (bn_enc_secret e) IntegrityCheckFailed);
        sig ← st_try (ok_or (bn_sign_secret e) IntegrityCheckFailed);
        on_dev (install_slot_in (draws (bn_label e)).1 (draws (bn_label e)).2 (bn_label e) passphrase enc sig) ≫= fun _ =>
        write_slots draws passphrases limit tx entries recorded (written + 1)
  end.
Definition secret_entries (b : Bundle) : list BundleEntry := filter (fun e => secret_entry e = true) (bd_entries b).
Definition write_destination_slots_in (draws : bytes -> bytes * bytes) (source : Container) (package : bytes) (passphrases : bytes -> option bytes) (limit : option nat) : siteM unit :=
  dest ← container;
  bundle ← st_try (open_bundle package source dest);
  state ← ask (fun st => ok_or (tx_state (bd_id bundle) st) TransferIncomplete);
  if negb (bool_decide (state = Transferred \/ state = Writing)) then st_try (Err TransferReplay) else
  on_db (set_state (bd_id bundle) Writing) ≫= fun _ =>
  detail ← ask (tx_detail (bd_id bundle));
  write_slots draws passphrases limit (bd_id bundle) (secret_entries bundle) (detail_list detail (str "installed")) 0.

Definition held_state (secret : bool) : Possession := if secret then Active else Ghost.
Definition apply_entry (dest : Container) (b : Bundle) (e : BundleEntry) : dbM unit :=
  incoming ← query (classify_incoming e);
  match incoming with
  | InConflict => db_try (Err IdentityConflict)
  | InReplay => db_try (Err TransferReplay)
  | InReconcile => if secret_entry e then set_possession (bn_id e) Active (bn_generation e) else mret tt
  | InHint =>
      missing ← query (fun st => Ok (bool_decide (identity_by_id (bn_id e) st = None)));
      if (missing : bool) then
        ensure_hardware (bn_label e) Encryption (bn_enc_public e) ≫= fun _ =>
        ensure_hardware (bn_label e) Signing (bn_sign_public e) ≫= fun _ =>
        insert_identity (bn_id e) (bn_label e) (bn_parent e) (bn_enc_public e) (bn_sign_public e) Ghost (bn_generation e)
      else mret tt
  | InNewSecret =>
      ensure_hardware (bn_label e) Encryption (bn_enc_public e) ≫= fun _ =>
      ensure_hardware (bn_label e) Signing (bn_sign_public e) ≫= fun _ =>
      insert_identity (bn_id e) (bn_label e) (bn_parent e) (bn_enc_public e) (bn_sign_public e) Active (bn_generation e)
  end ≫= fun _ =>
  state ← query (fun st => Ok (held_state (secret_entry e || bool_decide (possession (bn_label e) st = Some Active))));
  upsert_provenance (bn_id e) (ct_device_id dest) state ≫= fun _ =>
  upsert_provenance (bn_id e) (bd_source b) (held_state (secret_entry e)).

Definition commit_destination_rows (source dest : Container) (package : bytes) (allow : bool) : dbM unit :=
  bundle ← db_try (open_bundle package source dest);
  state ← query (fun st => ok_or (tx_state (bd_id bundle) st) TransferIncomplete);
  if negb (bool_decide (state = Writing)) && negb (bool_decide (state = DestinationCommitted)) then db_try (Err TransferIncomplete) else
  if bool_decide (state = DestinationCommitted) then mret tt else
  if existsb (fun e => bool_decide (slot dest (bn_label e) = None)) (secret_entries bundle) then db_try (Err TransferIncomplete) else
  active_before ← query (fun st => Ok (active_labels st));
  transaction (
    query (receiver_accepts_with (bd_entries bundle) allow active_before) ≫= fun _ =>
    db_each (apply_entry dest bundle) (bd_entries bundle) ≫= fun _ =>
    set_state (bd_id bundle) DestinationCommitted ≫= fun _ =>
    audit_bundle bundle (str "destination_committed") (str "reason=committed")).

Definition acknowledge (tx : bytes) : dbM unit :=
  state ← query (fun st => ok_or (tx_state tx st) TransferIncomplete);
  if bool_decide (state = Acknowledged \/ state = Completed) then mret tt else
  if negb (bool_decide (state = DestinationCommitted)) then db_try (Err TransferIncomplete) else
  set_state tx Acknowledged.

(** Writing the slots, committing and acknowledging, as [accept_package_in] and
    [resume_accept] both do. *)
Definition finish_accept (draws : bytes -> bytes * bytes) (source : Container) (package : bytes) (passphrases : bytes -> option bytes) (allow : bool) (tx : bytes) : siteM bytes :=
  write_destination_slots_in draws source package passphrases None ≫= fun _ =>
  dest ← container;
  on_db (commit_destination_rows source dest package allow) ≫= fun _ =>
  on_db (acknowledge tx) ≫= fun _ => mret tx.
Definition resume_accept (draws : bytes -> bytes * bytes) (source_id source_key package : bytes) (passphrases : bytes -> option bytes) (allow : bool) (tx : bytes) (state : TxState) : siteM bytes :=
  match state with
  | Acknowledged | Completed | SourceFinalized => mret tx
  | DestinationCommitted => on_db (acknowledge tx) ≫= fun _ => mret tx
  | Transferred | Writing => finish_accept draws (verification_container source_id source_key) package passphrases allow tx
  | _ => st_try (Err TransferReplay)
  end.
Definition accept_package_in (draws : bytes -> bytes * bytes) (source_id source_key package : bytes) (passphrases : bytes -> option bytes) (allow : bool) : siteM bytes :=
  header ← st_try (authenticated_package package);
  if negb (bool_decide (ap_source header = source_id)) || negb (bool_decide (ap_verify_key header = source_key)) then st_try (Err SignatureVerificationFailed) else
  dest ← container;
  if negb (bool_decide (ap_destination header = ct_device_id dest)) then st_try (Err SignatureVerificationFailed) else
  known ← ask (fun st => Ok (tx_state (ap_id header) st));
  match known with
  | Some state => resume_accept draws source_id source_key package passphrases allow (ap_id header) state
  | None =>
      let source := verification_container source_id source_key in
      on_db (stage_destination source dest package allow) ≫= fun _ =>
      finish_accept draws source package passphrases allow (ap_id header)
  end.

Definition package_secret_labels (package source_id source_key : bytes) (destination : Container) : result (list bytes) :=
  header ← authenticated_package package;
  if negb (bool_decide (ap_source header = source_id)) || negb (bool_decide (ap_verify_key header = source_key)) then Err SignatureVerificationFailed else
  bundle ← open_bundle package (verification_container source_id source_key) destination;
  Ok (map bn_label (secret_entries bundle)).

(** *** The source gives up what it moved *)

Definition scrub_moved_slots (tx : bytes) : siteM unit :=
  operation ← ask (tx_operation tx);
  if bool_decide (operation <> Move) then mret tt else
  detail ← ask (tx_detail tx);
  st_each (fun label => c ← container; if bool_decide (is_Some (slot c label)) then on_dev (remove_slot_in label) else mret tt) (detail_list detail (str "included")).

Definition saturating_succ (g : N) : N := if (g + 1 <? i64_max)%N then (g + 1)%N else g.
Definition target_generation (operation : TransferOp) (generation : N) : N := match operation with Move => saturating_succ generation | Copy => generation end.
Definition source_state (operation : TransferOp) : Possession := match operation with Move => Ghost | Copy => Active end.

(** One label of the loops of [retire_source_material] and [finalize_after_ack_in]: the
    source's rows, and the identity and generation it ends with. *)
Definition retire_label (own peer : bytes) (operation : TransferOp) (label : bytes) : dbM (bytes * N) :=
  row ← query (fun st => ok_or (identity_by_label label st) TransferDenied);
  generation ← query (generation_of (ir_id row));
  let target := target_generation operation generation in
  (match operation with Move => set_possession (ir_id row) Ghost target | Copy => mret tt end) ≫= fun _ =>
  upsert_provenance (ir_id row) own (source_state operation) ≫= fun _ =>
  upsert_provenance (ir_id row) peer Active ≫= fun _ =>
  mret (ir_id row, target).
Definition finalized_audit (tx own peer root : bytes) (operation : TransferOp) (mode : DescendantMode) (detail : bytes) (labels : list bytes) : dbM unit :=
  set_state tx SourceFinalized ≫= fun _ =>
  key ← query (fun st => Ok (default no_id (ir_id <$> identity_by_label root st)));
  write_audit tx operation own peer key root mode (str "source_finalized")
    (format_detail (match operation with Move => str "ghost" | Copy => str "copied" end) labels (detail_list detail (str "excluded")) []).

Definition finalize_after_ack_in (tx ack_hash : bytes) : siteM unit :=
  state ← ask (fun st => ok_or (tx_state tx st) TransferIncomplete);
  match state with
  | Completed => mret tt
  | SourceFinalized => scrub_moved_slots tx ≫= fun _ => on_db (set_state tx Completed)
  | Prepared =>
      source_hash ← ask (tx_hash tx);
      if negb (bool_decide (source_hash = ack_hash)) then on_db (set_state tx NeedsAdmin) ≫= fun _ => st_try (Err TransferIncomplete) else
      operation ← ask (tx_operation tx);
      detail ← ask (tx_detail tx);
      let labels := detail_list detail (str "included") in
      root ← ask (tx_root tx);
      mode ← ask (tx_mode tx);
      peer ← ask (tx_peer tx);
      scrub_moved_slots tx ≫= fun _ =>
      c ← container;
      on_db (transaction (
        db_each (fun label => retire_label (ct_device_id c) peer operation label ≫= fun _ => mret tt) labels ≫= fun _ =>
        finalized_audit tx (ct_device_id c) peer root operation mode detail labels ≫= fun _ =>
        set_state tx Completed))
  | _ => st_try (Err TransferIncomplete)
  end.
End sites.

(** ** Two devices *)

(** [None]: the destination uses the source's database, or its disk. *)
Record Duo `{S : Storage} := { du_db : Store; du_db' : option Store; du_disk : disk; du_disk' : option disk; du_from : Container; du_to : Container }.
#[global] Arguments Duo : clear implicits.
#[global] Arguments Duo S : rename.

Section duo.
Context `{S : Storage} `{C : Crypto} `{HX : Hex} `{A : Aead}.
Notation duoM := (stM (Duo S)).

Definition source_site (d : Duo S) : Site S := {| si_db := du_db d; si_dev := {| dv_disk := du_disk d; dv_box := du_from d |} |}.
Definition dest_site (d : Duo S) : Site S :=
  {| si_db := default (du_db d) (du_db' d); si_dev := {| dv_disk := default (du_disk d) (du_disk' d); dv_box := du_to d |} |}.
Definition put_source (s : Site S) (d : Duo S) : Duo S :=
  {| du_db := si_db s; du_db' := du_db' d; du_disk := dv_disk (si_dev s); du_disk' := du_disk' d; du_from := dv_box (si_dev s); du_to := du_to d |}.
Definition put_dest (s : Site S) (d : Duo S) : Duo S :=
  {| du_db := match du_db' d with None => si_db s | Some _ => du_db d end; du_db' := match du_db' d with None => None | Some _ => Some (si_db s) end;
     du_disk := match du_disk' d with None => dv_disk (si_dev s) | Some _ => du_disk d end; du_disk' := match du_disk' d with None => None | Some _ => Some (dv_disk (si_dev s)) end;
     du_from := du_from d; du_to := dv_box (si_dev s) |}.
Definition at_source {B} : stM (Site S) B -> duoM B := zoom source_site put_source.
Definition at_dest {B} : stM (Site S) B -> duoM B := zoom dest_site put_dest.

(** [with_immediate_transaction(source_conn, ..)] around statements on both: only the
    source's database is rolled back. *)
Definition set_source_db (st : Store) (d : Duo S) : Duo S :=
  {| du_db := st; du_db' := du_db' d; du_disk := du_disk d; du_disk' := du_disk' d; du_from := du_from d; du_to := du_to d |}.
Definition source_transaction {B} (m : duoM B) : duoM B := fun d =>
  match m d with (Ok b, d') => (Ok b, d') | (Err e, d') => (Err e, set_source_db (du_db d) d') end.

Definition committed_state (s : TxState) : bool :=
  match s with DestinationCommitted | Acknowledged | Completed | SourceFinalized => true | _ => false end.
Definition destination_committed (tx : bytes) (st : Store) : bool := match tx_state tx st with Some s => committed_state s | None => false end.

(** What the destination learns of a label its source retired; errors are ignored. *)
Definition tell_dest (own peer : bytes) (operation : TransferOp) (id : bytes) (target : N) : stM (Site S) unit :=
  st_ignore (on_db (set_generation_at_least id target)) ≫= fun _ =>
  st_ignore (on_db (upsert_provenance id own (source_state operation))) ≫= fun _ =>
  st_ignore (on_db (upsert_provenance id peer Active)).

Definition retire_source_material (tx : bytes) : duoM unit :=
  dest_state ← at_dest (ask (fun st => ok_or (tx_state tx st) TransferIncomplete));
  if negb (committed_state dest_state) then st_try (Err TransferIncomplete) else
  source_hash ← at_source (ask (tx_hash tx));
  dest_hash ← at_dest (ask (tx_hash tx));
  if negb (bool_decide (source_hash = dest_hash)) then
    at_source (on_db (set_state tx NeedsAdmin)) ≫= fun _ =>
    at_dest (on_db (set_state tx NeedsAdmin)) ≫= fun _ => st_try (Err TransferIncomplete)
  else
  operation ← at_source (ask (tx_operation tx));
  detail ← at_source (ask (tx_detail tx));
  let labels := detail_list detail (str "included") in
  root ← at_source (ask (tx_root tx));
  mode ← at_source (ask (tx_mode tx));
  peer ← at_source (ask (tx_peer tx));
  at_source (scrub_moved_slots tx) ≫= fun _ =>
  own ← at_source (c ← container; mret (ct_device_id c));
  source_transaction (
    st_each (fun label =>
      '(id, target) ← at_source (on_db (retire_label own peer operation label));
      at_dest (tell_dest own peer operation id target)) labels ≫= fun _ =>
    at_source (on_db (finalized_audit tx own peer root operation mode detail labels))).

Definition finalize_source_in (tx : bytes) : duoM unit :=
  source_state ← at_source (ask (fun st => ok_or (tx_state tx st) TransferIncomplete));
  if bool_decide (source_state = Completed) then mret tt else
  (if negb (bool_decide (source_state = SourceFinalized)) then retire_source_material tx else at_source (scrub_moved_slots tx)) ≫= fun _ =>
  st_ignore (at_dest (on_db (set_state tx Completed))) ≫= fun _ =>
  at_source (on_db (set_state tx Completed)).

Definition abort_transfer_in (tx : bytes) : duoM unit :=
  committed ← at_dest (ask (fun st => Ok (destination_committed tx st)));
  if (committed : bool) then st_try (Err TransferIncomplete) else
  detail ← at_dest (ask (fun st => Ok (tx_detail tx st)));
  match detail with
  | Ok detail =>
      at_dest (st_each (fun label => c ← container; if bool_decide (is_Some (slot c label)) then on_dev (remove_slot_in label) else mret tt) (detail_list detail (str "installed"))) ≫= fun _ =>
      at_dest (on_db (set_state tx Aborted))
  | Err _ => mret tt
  end ≫= fun _ =>
  there ← at_source (ask (fun st => Ok (tx_exists tx st)));
  if (there : bool) then
    state ← at_source (ask (fun st => Ok (tx_state tx st)));
    if bool_decide (state = Some Prepared \/ state = Some Aborted) then at_source (on_db (set_state tx Aborted)) else mret tt
  else mret tt.

Definition recover_pair_in (tx : bytes) : duoM Recovery :=
  source_state ← at_source (ask (fun st => ok_or (tx_state tx st) TransferIncomplete));
  dest_state ← at_dest (ask (fun st => Ok (tx_state tx st)));
  differ ← match dest_state with
           | Some _ => source_hash ← at_source (ask (tx_hash tx)); dest_hash ← at_dest (ask (tx_hash tx)); mret (negb (bool_decide (source_hash = dest_hash)))
           | None => mret false
           end;
  if (differ : bool) then
    at_source (on_db (set_state tx NeedsAdmin)) ≫= fun _ =>
    at_dest (on_db (set_state tx NeedsAdmin)) ≫= fun _ => mret RecNeedsAdmin
  else
  match source_state with
  | NeedsAdmin => mret RecNeedsAdmin
  | Completed => (match dest_state with Some _ => st_ignore (at_dest (on_db (set_state tx Completed))) | None => mret tt end) ≫= fun _ => mret RecAlreadyComplete
  | SourceFinalized => finalize_source_in tx ≫= fun _ => mret RecAlreadyComplete
  | _ =>
      if match dest_state with Some s => committed_state s | None => false end then finalize_source_in tx ≫= fun _ => mret RecFinalized
      else abort_transfer_in tx ≫= fun _ => mret RecAborted
  end.

(** Everything after the preparation. *)
Definition deliver_transfer (draws : bytes -> bytes * bytes) (passphrases : bytes -> option bytes) (allow : bool) (prepared : PreparedTransfer) : duoM unit :=
  source ← at_source container;
  at_dest (dest ← container; on_db (stage_destination source dest (pt_package prepared) allow)) ≫= fun _ =>
  at_dest (write_destination_slots_in draws source (pt_package prepared) passphrases None) ≫= fun _ =>
  at_dest (dest ← container; on_db (commit_destination_rows source dest (pt_package prepared) allow)) ≫= fun _ =>
  at_dest (on_db (acknowledge (pt_id prepared))) ≫= fun _ =>
  finalize_source_in (pt_id prepared).

Definition transfer (tx_id : bytes) (draws : bytes -> bytes * bytes) (actor label : bytes) (operation : TransferOp) (descendants : DescendantMode)
    (passphrases : bytes -> option bytes) (auth : TransferAuth) : duoM bytes :=
  to ← at_dest container;
  prepared ← at_source (prepare_in tx_id (ct_device_id to) actor label operation descendants passphrases auth);
  committed ← st_attempt (deliver_transfer draws passphrases (allow_ancestor_import auth) prepared);
  match committed with
  | Ok _ => mret (pt_id prepared)
  | Err e =>
      done ← at_dest (ask (fun st => Ok (destination_committed (pt_id prepared) st)));
      (if (done : bool) then mret tt else st_ignore (abort_transfer_in (pt_id prepared))) ≫= fun _ =>
      st_try (Err e)
  end.
End duo.
