(* ===== verification/TransferLaws.v ===== *)
(** * Laws of transfers

    What the operations of [Transfer] change on each side, the detail column, and that
    however a transfer is interrupted, resumed, aborted or recovered, no key is lost. *)

From stdpp Require Import gmap.
From S2P Require Import Prelude Text Crypto BTree Envelope HistoryCodec Event Authority Signing Tables KeyStore Aead World Clock Pin TreeLaws Device DeviceLaws TransferPackage Transfer.

(** ** Statements on the tables *)

(** Nothing changes in who holds what. *)
Definition keys_same (st st' : Store) : Prop :=
  tt_identities (st_transfer st') = tt_identities (st_transfer st) /\ tt_possession (st_transfer st') = tt_possession (st_transfer st).
#[export] Instance keys_same_preorder : PreOrder keys_same.
Proof. split; [by intros st|]. intros ??? [H1 H2] [H3 H4]. split; congruence. Qed.
Lemma keys_same_possession st st' label : keys_same st st' -> possession label st' = possession label st.
Proof. intros [H1 H2]. unfold possession, identity_by_label, possession_row. by rewrite H1, H2. Qed.

Lemma on_transfer_run g st : on_transfer g st = (Ok tt, set_transfer (g (st_transfer st)) st).
Proof. done. Qed.
Lemma keys_on_transfer g : (forall t, tt_identities (g t) = tt_identities t /\ tt_possession (g t) = tt_possession t) -> respects keys_same (on_transfer g).
Proof. intros H st r st' [= _ <-]. apply H. Qed.
Lemma keys_on_tx id g : respects keys_same (on_tx id g).
Proof. by apply keys_on_transfer. Qed.
Lemma keys_set_state id s : respects keys_same (set_state id s).
Proof. intros st r st'. unfold set_state. destruct (tx_exists id st); [apply keys_on_tx|]. by intros [= _ <-]. Qed.
Lemma keys_insert_tx row : respects keys_same (insert_tx row).
Proof. intros st r st'. unfold insert_tx. destruct (tx_exists _ st); [by intros [= _ <-]|]. by apply keys_on_transfer. Qed.
Lemma keys_audit tx o a b c d m x y : respects keys_same (write_audit tx o a b c d m x y).
Proof. by apply keys_on_transfer. Qed.
Lemma keys_update_tx id a b c d e f g : respects keys_same (update_tx id a b c d e f g).
Proof. apply keys_on_tx. Qed.
Lemma keys_provenance id dev s : respects keys_same (upsert_provenance id dev s).
Proof. intros st r st'. unfold upsert_provenance. repeat case_match; try by apply keys_on_transfer. by intros [= _ <-]. Qed.
#[export] Hint Resolve keys_on_tx keys_set_state keys_insert_tx keys_audit keys_update_tx keys_provenance : frame.
Lemma keys_audit_bundle b x y : respects keys_same (audit_bundle b x y).
Proof. apply keys_audit. Qed.
#[export] Hint Resolve keys_audit_bundle : frame.
Lemma keys_acknowledge tx : respects keys_same (acknowledge tx).
Proof. unfold acknowledge. frame. Qed.
Lemma keys_finalized_audit tx own peer root o m d l : respects keys_same (finalized_audit tx own peer root o m d l).
Proof. unfold finalized_audit. frame. Qed.
#[export] Hint Resolve keys_acknowledge keys_finalized_audit : frame.
Lemma keys_stage `{Crypto} `{Hex} source dest package allow : respects keys_same (stage_destination source dest package allow).
Proof. unfold stage_destination. frame. Qed.

(** The row of a transaction, but for what the statements set. *)
Lemma tx_row_update id g st : (forall r, tr_id (g r) = tr_id r) -> tx_row id (on_tx id g st).2 = g <$> tx_row id st.
Proof.
  intros Hg. unfold tx_row. cbn. rewrite (first_row_update (tx_is id) (tx_is id)) by (intros r _ _; unfold tx_is; by rewrite Hg).
  destruct (first_row (tx_is id) _) as [r|] eqn:E; [|done]. cbn. apply first_row_Some in E as [_ ->]. done.
Qed.
Lemma set_state_run id s st r : tx_row id st = Some r -> exists st', set_state id s st = (Ok tt, st') /\ tx_row id st' = Some (with_state s r).
Proof.
  intros E. unfold set_state, tx_exists. rewrite bool_decide_true by (rewrite E; eauto). eexists; split; [done|].
  pose proof (tx_row_update id (with_state s) st ltac:(done)) as H. rewrite E in H. exact H.
Qed.
Lemma set_state_Ok id s st st' : set_state id s st = (Ok tt, st') -> exists r, tx_row id st = Some r /\ tx_row id st' = Some (with_state s r).
Proof.
  unfold set_state, tx_exists. case_bool_decide as B; [|done]. destruct B as [r E]. intros [= <-]. exists r. split; [done|].
  pose proof (tx_row_update id (with_state s) st ltac:(done)) as H. rewrite E in H. exact H.
Qed.
Lemma set_state_cases id s st x st' : set_state id s st = (x, st') -> (tx_row id st = None /\ st' = st) \/ exists r, x = Ok tt /\ tx_row id st = Some r /\ tx_row id st' = Some (with_state s r).
Proof.
  intros E. destruct (tx_row id st) as [r|] eqn:ER.
  - right. destruct (set_state_run id s st r ER) as (st1 & E1 & E2). rewrite E1 in E. injection E as <- <-. eauto.
  - left. unfold set_state, tx_exists in E. rewrite ER, bool_decide_false in E by (by intros []). by injection E as _ <-.
Qed.

(** ** The detail column *)

Definition slot_labels (l : list bytes) : Prop := Forall (fun label => validate_slot_label label = Ok tt) l.

Lemma slot_label_free label : validate_slot_label label = Ok tt -> label <> [] /\ comma ∉ label /\ semicolon ∉ label.
Proof.
  intros H. split; [by apply validate_slot_label_Ok in H as (? & _)|]. split; intros Hin; apply (slot_char_in _ _ H), slot_char_ascii in Hin; naive_solver.
Qed.
Lemma join_free c (l : list bytes) x : x <> c -> Forall (fun p => x ∉ p) l -> x ∉ Text.join c l.
Proof.
  intros Hx. induction 1 as [|p l Hp Hl IH]; [apply not_elem_of_nil|]. destruct l as [|q l]; [done|]. rewrite join_cons by done. rewrite elem_of_app, elem_of_cons. naive_solver.
Qed.
Lemma slot_labels_join l : slot_labels l -> semicolon ∉ Text.join comma l /\ (Text.join comma l = [] -> l = []) /\ (l <> [] -> Text.split comma (Text.join comma l) = l).
Proof.
  intros H. split_and!.
  - apply join_free; [done|]. eapply Forall_impl; [exact H|]. intros p Hp. by apply slot_label_free.
  - destruct H as [|p l Hp H]; [done|]. intros E. exfalso. destruct (slot_label_free _ Hp) as (Hne & _). destruct l; [by cbn in E|]. rewrite join_cons in E by done. by destruct p.
  - intros Hne. apply split_join; [done|]. eapply Forall_impl; [exact H|]. intros p Hp. by apply slot_label_free.
Qed.

Lemma detail_value_other key key' value : equals ∉ key' -> key' <> key -> detail_value key (key' ++ equals :: value) = None.
Proof.
  intros Hk Hne. unfold detail_value. rewrite (proj2 (split_once_Some equals _ key' value)) by done. cbn. by rewrite bool_decide_false.
Qed.
Lemma detail_value_list key l : equals ∉ key -> slot_labels l -> detail_value key (key ++ equals :: Text.join comma l) = Some l.
Proof.
  intros Hk Hl. destruct (slot_labels_join l Hl) as (_ & H1 & H2). unfold detail_value. rewrite (proj2 (split_once_Some equals _ key (Text.join comma l))) by done. cbn. rewrite bool_decide_true by done.
  case_bool_decide as E; [by rewrite (H1 E)|]. rewrite H2; [done|]. by intros ->.
Qed.

(** A part of the column: a key and a list. *)
Definition part (key : bytes) (l : list bytes) : bytes := key ++ equals :: Text.join comma l.
Lemma part_free key l : semicolon ∉ key -> slot_labels l -> semicolon ∉ part key l.
Proof. intros Hk Hl. unfold part. rewrite elem_of_app, elem_of_cons. destruct (slot_labels_join l Hl) as (? & _). intros [?|[?|?]]; done. Qed.

Definition key_included : bytes := str "included".
Definition key_installed : bytes := str "installed".
Definition key_excluded : bytes := str "excluded".
Definition detail_parts (reason : bytes) (included excluded installed : list bytes) : list bytes :=
  [str "reason" ++ equals :: reason; part key_included included; part key_excluded excluded; part key_installed installed].
Lemma format_detail_parts reason included excluded installed : format_detail reason included excluded installed = Text.join semicolon (detail_parts reason included excluded installed).
Proof. unfold format_detail, detail_parts. rewrite !join_cons by done. cbn [Text.join]. unfold part. cbn [str app key_included key_excluded key_installed]. by rewrite <- ?app_assoc. Qed.

Lemma format_detail_split reason included excluded installed : semicolon ∉ reason -> slot_labels included -> slot_labels excluded -> slot_labels installed ->
  Text.split semicolon (format_detail reason included excluded installed) = detail_parts reason included excluded installed.
Proof.
  intros H1 H2 H3 H4. rewrite format_detail_parts. apply split_join; [done|]. unfold detail_parts. repeat constructor.
  - rewrite elem_of_app, elem_of_cons. intros [Hi|[?|?]]; [|done..]. revert Hi. by eapply bool_decide_eq_true_1.
  - apply part_free; [|done]. by eapply bool_decide_eq_true_1.
  - apply part_free; [|done]. by eapply bool_decide_eq_true_1.
  - apply part_free; [|done]. by eapply bool_decide_eq_true_1.
Qed.

(** The lists written into a detail read back. *)
Lemma detail_included reason included excluded installed : semicolon ∉ reason -> slot_labels included -> slot_labels excluded -> slot_labels installed ->
  detail_list (format_detail reason included excluded installed) (str "included") = included.
Proof.
  intros H1 H2 H3 H4. unfold detail_list. rewrite format_detail_split by done. unfold detail_parts. cbn [omap list_omap].
  rewrite detail_value_other; [|by eapply bool_decide_eq_true_1|done]. unfold part. fold key_included. rewrite detail_value_list by (done || by eapply bool_decide_eq_true_1). done.
Qed.

(** ** What an operation on one device leaves alone *)

Section devices.
Context `{S : Storage} `{!StorageLaws S} `{C : Crypto} `{!CryptoLaws C} `{A : Aead} `{!AeadLaws A}.
Implicit Types d : Dev S.

(** The container at [P] keeps its identity, and nothing outside its directory changes. *)
Definition stays (P : bytes) d d' : Prop :=
  ct_path (dv_box d) = P ->
  ct_path (dv_box d') = P /\ ct_device_id (dv_box d') = ct_device_id (dv_box d) /\ ct_verify_key (dv_box d') = ct_verify_key (dv_box d) /\
  forall q, (forall n, components q <> components P ++ n) -> storage_read (dv_disk d') q = storage_read (dv_disk d) q.
#[export] Instance stays_preorder P : PreOrder (stays P).
Proof.
  split; [by intros d|]. intros d1 d2 d3 H12 H23 EP. destruct (H12 EP) as (E1 & E2 & E3 & E4), (H23 E1) as (F1 & F2 & F3 & F4).
  split_and!; [congruence..|]. intros q Hq. by rewrite F4, E4.
Qed.
Lemma kept_stays P names d d' : kept P names d d' -> stays P d d'.
Proof. intros H EP. destruct (H EP) as (E1 & E2 & E3 & E4). split_and!; [done..|]. intros q Hq. apply E4. intros n _. apply Hq. Qed.
Lemma stays_apart_open P d d' c label pass : stays P d d' -> ct_path (dv_box d) = P -> apart P (ct_path c) ->
  open_slot_in label pass {| dv_disk := dv_disk d'; dv_box := c |} = open_slot_in label pass {| dv_disk := dv_disk d; dv_box := c |}.
Proof.
  intros H EP HA. destruct (H EP) as (_ & _ & _ & HR). apply open_slot_same; [done..|]. intros q Hq. cbn in *. apply HR. rewrite Hq. intros n E. by eapply HA.
Qed.
Lemma stays_apart_sound P d d' c : stays P d d' -> ct_path (dv_box d) = P -> apart P (ct_path c) ->
  sound {| dv_disk := dv_disk d; dv_box := c |} -> sound {| dv_disk := dv_disk d'; dv_box := c |}.
Proof.
  intros H EP HA (HW & secret & Er & ? & ?). destruct (H EP) as (_ & _ & _ & HR). split; [done|]. exists secret. split_and!; [|done..]. cbn in *. rewrite <- Er. apply HR.
  rewrite skey_components. intros n E. by eapply HA.
Qed.

Lemma install_stays P salt nonce label pass enc sig : st_respects (stays P) (install_slot_in (S := S) salt nonce label pass enc sig).
Proof. intros d r d' E. eapply kept_stays, install_kept, E. Qed.
Lemma remove_stays P label : st_respects (stays P) (remove_slot_in (S := S) label).
Proof. intros d r d' E. eapply kept_stays, remove_kept, E. Qed.

(** Whatever the result, the container is still in order, and only the slot is touched. *)
Lemma write_token_box salt nonce label pass enc sig d r d' : write_token (S := S) salt nonce label pass enc sig d = (r, d') -> dv_box d' = dv_box d.
Proof.
  revert d r d'. change (st_respects (fun d d' => dv_box d' = dv_box d) (write_token (S := S) salt nonce label pass enc sig)).
  assert (PreOrder (fun d d' : Dev S => dv_box d' = dv_box d)) by (split; [done|intros ??? ??; congruence]).
  assert (forall B (f : disk -> result B * disk), st_respects (fun d d' => dv_box d' = dv_box d) (on_disk (S := S) f)) as Hd.
  { intros B f d r d'. unfold on_disk. destruct (f _). by intros [= _ <-]. }
  unfold write_token, write_file. repeat (apply st_respects_bind; [done|..|intros ?]); eauto with frame. intros d r d' [= _ <-]. done.
Qed.

Lemma install_any salt nonce label pass enc sig d r d' : sound d -> draw_wf salt nonce enc sig -> install_slot_in salt nonce label pass enc sig d = (r, d') ->
  sound d' /\ forall l p, l <> label -> open_slot_in l p d' = open_slot_in l p d.
Proof.
  intros HS HW E. pose proof (install_kept (ct_path (dv_box d)) _ _ _ _ _ _ _ _ _ E) as K. destruct (K eq_refl) as (F1 & F2 & _ & F4).
  assert ((dv_box d' = dv_box d) \/ (slot (dv_box d) label = None /\ validate_slot_label label = Ok tt /\ dv_box d' = set_slots (ct_slots (dv_box d) ++ [slot_record label enc sig]) (dv_box d))) as HB.
  { unfold install_slot_in in E. destruct (validate_slot_label label) as [[]|e] eqn:EV; [|left; by injection E as _ <-]. erewrite (st_step (st_try (Ok tt))) in E by done.
    case_bool_decide; [left; by injection E as _ <-|]. erewrite st_step in E by done. case_bool_decide as EN; [left; by injection E as _ <-|]. apply eq_None_not_Some in EN.
    destruct (write_token salt nonce label pass enc sig d) as [[[]|e] d1] eqn:E1.
    - rewrite (st_step _ _ _ _ _ E1) in E. apply write_token_box in E1. right. split; [done|]. split; [done|]. erewrite st_step in E by done.
      match goal with H : (store_descriptor ≫= _) ?x = _ |- _ => destruct (store_descriptor x) as [[[]|e] d2] eqn:E2 end.
      + rewrite (st_step _ _ _ _ _ E2) in E. injection E as _ <-. apply store_descriptor_box in E2. cbn in E2. by rewrite E2, E1.
      + rewrite (st_fail _ _ _ _ _ E2) in E. injection E as _ <-. apply store_descriptor_box in E2. cbn in E2. by rewrite E2, E1.
    - rewrite (st_fail _ _ _ _ _ E1) in E. injection E as _ <-. apply write_token_box in E1. by left. }
  destruct HB as [HB|(EN & Hv & HB)].
  - split; [eapply sound_kept; [exact K|done|rewrite HB; by destruct HS]|]. intros l p Hl. apply open_slot_same; [done..|by rewrite HB|]. intros q Hq. apply F4. rewrite Hq. by apply token_outside.
  - destruct HW as (W1 & W2 & W3 & W4 & W5 & W6). pose proof HS as ((Hid & Hk & HF & HN) & _). split.
    + eapply sound_kept; [exact K|done|]. rewrite HB. split_and!; cbn; [done..| |].
      * apply Forall_app. split; [done|]. by repeat constructor.
      * rewrite map_app. apply NoDup_app. split_and!; [done| |apply NoDup_singleton]. intros l Hl ->%list_elem_of_singleton. by apply slot_None in EN.
    + intros l p Hl. apply open_slot_same; [done..| |].
      * rewrite HB, slot_app. destruct (slot (dv_box d) l); [done|]. by rewrite bool_decide_false by (cbn; congruence).
      * intros q Hq. apply F4. rewrite Hq. by apply token_outside.
Qed.

Lemma drop_slot_twice label c : drop_slot label (drop_slot label c) = drop_slot label c.
Proof. unfold drop_slot, set_slots. cbn. f_equal. rewrite list_filter_filter. apply list_filter_iff_in. naive_solver. Qed.
Definition dropped label d d' : Prop := dv_box d' = dv_box d \/ dv_box d' = drop_slot label (dv_box d).
#[export] Instance dropped_preorder label : PreOrder (dropped label).
Proof. split; [by left|]. intros d1 d2 d3 [H1|H1] [H2|H2]; rewrite H1 in H2; [by left|by right..|right; by rewrite H2, drop_slot_twice]. Qed.
Lemma remove_dropped label : st_respects (dropped label) (remove_slot_in (S := S) label).
Proof.
  assert (forall B (f : disk -> result B * disk), st_respects (dropped label) (on_disk (S := S) f)) as Hd.
  { intros B f d r d'. unfold on_disk. destruct (f _). intros [= _ <-]. by left. }
  assert (st_respects (dropped label) (box (S := S))) as Hb by (intros d r d' [= _ <-]; by left).
  assert (st_respects (dropped label) (store_descriptor (S := S))) as Hs by (intros d r d' E%store_descriptor_box; by left).
  assert (st_respects (dropped label) (with_box (S := S) (drop_slot label))) as Hw by (intros d r d' [= _ <-]; by right).
  unfold remove_slot_in, file_exists, delete_file, remove_empty_dir. repeat (apply st_respects_bind; [apply _|..|intros ?]); eauto with frame typeclass_instances.
  - case_match; eauto with frame typeclass_instances.
  - case_match; eauto with frame typeclass_instances.
Qed.
Lemma remove_any label d r d' : sound d -> remove_slot_in label d = (r, d') -> sound d' /\ forall l p, l <> label -> open_slot_in l p d' = open_slot_in l p d.
Proof.
  intros HS E. pose proof (remove_kept (ct_path (dv_box d)) _ _ _ _ E) as K. destruct (K eq_refl) as (F1 & F2 & _ & F4). pose proof (remove_dropped _ _ _ _ E) as HB.
  split; [eapply sound_kept; [exact K|done|]; destruct HB as [->| ->]; [by destruct HS|apply box_wf_drop; by destruct HS]|].
  intros l p Hl. apply open_slot_same; [done..| |].
  - destruct HB as [->| ->]; [done|]. by rewrite slot_drop, decide_False by congruence.
  - intros q Hq. apply F4. rewrite Hq. by apply token_outside.
Qed.
Lemma remove_Ok_slot label d d' : remove_slot_in (S := S) label d = (Ok tt, d') -> slot (dv_box d') label = None.
Proof.
  intros E. unfold remove_slot_in in E. apply st_bind_Ok in E as (? & ? & [= <- <-] & E). apply st_bind_Ok in E as (path & ? & [EP ->]%st_try_Ok & E). apply st_bind_Ok in E as (there & ? & [= Eth <-] & E).
  apply st_bind_Ok in E as ([] & d1 & E1 & E). apply st_bind_Ok in E as ([] & d2 & [= <-] & E). apply st_bind_Ok in E as ([] & d3 & [= <-] & E).
  apply st_bind_Ok in E as (? & ? & [= <- <-] & E). apply st_bind_Ok in E as (still & ? & [= _ <-] & E). destruct (_ && _); [done|]. apply store_descriptor_box in E. rewrite E. cbn.
  by rewrite slot_drop, decide_True.
Qed.
Lemma remove_slots_same label l d r d' : remove_slot_in (S := S) label d = (r, d') -> slot (dv_box d) l = None -> slot (dv_box d') l = None.
Proof. intros [->| ->]%remove_dropped; [done|]. rewrite slot_drop. by case_decide. Qed.
End devices.

(** Statements that leave the transactions alone. *)
Lemma tx_row_transfer tx g st : (forall t, tt_transactions (g t) = tt_transactions t) -> tx_row tx (on_transfer g st).2 = tx_row tx st.
Proof. intros H. unfold tx_row. cbn. by rewrite H. Qed.
Definition tx_same (st st' : Store) : Prop := tt_transactions (st_transfer st') = tt_transactions (st_transfer st).
#[export] Instance tx_same_preorder : PreOrder tx_same.
Proof. split; [by intros st|]. intros ??? H1 H2. unfold tx_same in *. congruence. Qed.
Lemma tx_same_row tx st st' : tx_same st st' -> tx_row tx st' = tx_row tx st.
Proof. unfold tx_row. by intros ->. Qed.
Lemma tx_same_possession id x g : respects tx_same (set_possession id x g).
Proof. intros st r st'. unfold set_possession. destruct (possession_row id st); by intros [= _ <-]. Qed.
Lemma tx_same_provenance id d x : respects tx_same (upsert_provenance id d x).
Proof. intros st r st'. unfold upsert_provenance. repeat case_match; by intros [= _ <-]. Qed.
Lemma tx_same_generation id g : respects tx_same (set_generation_at_least id g).
Proof. by intros st r st' [= _ <-]. Qed.
Lemma tx_same_audit tx o a b c d m x y : respects tx_same (write_audit tx o a b c d m x y).
Proof. by intros st r st' [= _ <-]. Qed.
#[export] Hint Resolve tx_same_possession tx_same_provenance tx_same_generation tx_same_audit : frame.

(** ** Who is active *)

Lemma first_row_snoc {B} (P : B -> bool) l x : first_row P (l ++ [x]) = match first_row P l with Some r => Some r | None => if P x then Some x else None end.
Proof.
  unfold first_row. rewrite filter_app, head_app. destruct (head _); [done|]. rewrite filter_cons, filter_nil. by destruct (P x).
Qed.

Definition active_kept (st st' : Store) : Prop := forall l, possession l st = Some Active -> possession l st' = Some Active.
#[export] Instance active_kept_preorder : PreOrder active_kept.
Proof. split; [by intros st l|]. intros st1 st2 st3 H1 H2 l H. auto. Qed.
Lemma keys_active st st' : keys_same st st' -> active_kept st st'.
Proof. intros H l. by rewrite (keys_same_possession _ _ l H). Qed.
Lemma respects_keys_active {B} (m : dbM B) : respects keys_same m -> respects active_kept m.
Proof. intros H st r st' E. eapply keys_active, H, E. Qed.

(** One row of possession is set; identities stay. *)
Lemma possession_update (P : PossessionRow -> bool) (g : PossessionRow -> PossessionRow) st l :
  (forall p, po_identity (g p) = po_identity p) ->
  possession l (set_transfer (set_tt_possession (update_where P g (tt_possession (st_transfer st))) (st_transfer st)) st) =
  i ← identity_by_label l st; p ← possession_row (ir_id i) st; Some (po_state (if P p then g p else p)).
Proof.
  intros Hg. unfold possession, identity_by_label, possession_row. cbn. destruct (first_row _ (tt_identities _)) as [i|]; [|done]. cbn.
  rewrite (first_row_update P (possession_of (ir_id i))) by (intros r _ _; unfold possession_of; by rewrite Hg). by destruct (first_row (possession_of (ir_id i)) _).
Qed.

Lemma set_possession_active id g : respects active_kept (set_possession id Active g).
Proof.
  intros st r st'. unfold set_possession. destruct (possession_row id st); [|by intros [= _ <-]]. intros [= _ <-] l H. rewrite possession_update by done.
  unfold possession in H. destruct (identity_by_label l st) as [i|]; [|done]. cbn in *. destruct (possession_row (ir_id i) st) as [q|]; [|done]. cbn in *. by destruct (possession_of id q).
Qed.
Lemma set_generation_active id g : respects active_kept (set_generation_at_least id g).
Proof.
  intros st r st' [= _ <-] l H. rewrite possession_update by done. unfold possession in H. destruct (identity_by_label l st) as [i|]; [|done]. cbn in *.
  destruct (possession_row (ir_id i) st) as [q|]; [|done]. cbn in *. by destruct (_ && _).
Qed.
Section identities.
Context `{C : Crypto} `{HX : Hex}.
Lemma insert_identity_active id label parent enc sig s g : respects active_kept (insert_identity id label parent enc sig s g).
Proof.
  intros st r st'. unfold insert_identity. destruct (_ || _); [by intros [= _ <-]|]. set (row := {| ir_id := id |}).
  assert (forall l i, identity_by_label l st = Some i -> first_row (fun i => bool_decide (ir_label i = l)) (tt_identities (st_transfer st) ++ [row]) = Some i) as Hi.
  { intros l i. unfold identity_by_label. rewrite first_row_snoc. by intros ->. }
  case_bool_decide; intros [= _ <-] l Hl; unfold possession in *; destruct (identity_by_label l st) as [i|] eqn:Ei; try done; cbn in *; unfold identity_by_label; cbn; rewrite (Hi _ _ Ei); cbn.
  - by unfold possession_row in *.
  - unfold possession_row in *. cbn. rewrite first_row_snoc. by destruct (first_row _ (tt_possession _)).
Qed.
Lemma ensure_hardware_keys label kt pk : respects keys_same (ensure_hardware label kt pk).
Proof.
  intros st r st'. unfold ensure_hardware. destruct (get_key_by_public_key pk st); [by intros [= _ <-]|]. unfold register_key. case_match; [by intros [= _ <-]|].
  case_bool_decide; by intros [= _ <-].
Qed.
Lemma apply_entry_active dest b e : respects active_kept (apply_entry dest b e).
Proof.
  pose proof set_possession_active. pose proof insert_identity_active. pose proof (fun l k p => respects_keys_active _ (ensure_hardware_keys l k p)).
  pose proof (fun i d s => respects_keys_active _ (keys_provenance i d s)). unfold apply_entry. frame.
Qed.

Lemma insert_identity_Ok id label parent enc sig s g st st' : insert_identity id label parent enc sig s g st = (Ok tt, st') -> possession label st' = Some s.
Proof.
  unfold insert_identity. cbv zeta. destruct (_ || _) eqn:B; [done|]. bool_hyps. case_bool_decide as Hp; [done|].
  intros [= <-]. unfold possession, identity_by_label. cbn.
  rewrite first_row_new; [| |by apply bool_decide_eq_true]; cbn.
  - unfold possession_row. cbn. rewrite first_row_new; [done| |by apply bool_decide_eq_true]. intros p Hin. apply bool_decide_eq_false. intros <-. apply Hp. by apply list_elem_of_fmap_2.
  - intros i Hin. apply bool_decide_eq_false. intros <-. match goal with H : ir_label i ∉ _ |- _ => apply H end. by apply list_elem_of_fmap_2.
Qed.

Lemma first_row_exists {B} (P : B -> bool) l x : x ∈ l -> P x = true -> is_Some (first_row P l).
Proof. intros Hx HP. destruct (first_row P l) eqn:E; [eauto|]. rewrite first_row_None in E. by rewrite (E x Hx) in HP. Qed.

Lemma reconcile_Ok e st : classify_incoming e st = Ok InReconcile -> exists i, identity_by_label (bn_label e) st = Some i /\ ir_id i = bn_id e.
Proof.
  unfold classify_incoming. cbv zeta. intros E. destruct (identity_by_label (bn_label e) st) as [row|] eqn:EL.
  - destruct (bool_decide (ir_id row = bn_id e)) eqn:EI; [|done]. apply bool_decide_eq_true in EI. eauto.
  - exfalso. destruct (identity_by_id (bn_id e) st) as [row|] eqn:EI; [|by destruct (secret_entry e)].
    destruct (bool_decide (ir_label row = bn_label e)) eqn:Eb; [|done]. apply bool_decide_eq_true in Eb. apply first_row_Some in EI as [Hin _].
    destruct (first_row_exists (fun i => bool_decide (ir_label i = bn_label e)) _ row Hin) as [i Hi]; [by apply bool_decide_eq_true|]. unfold identity_by_label in EL. by rewrite EL in Hi.
Qed.

Lemma hint_Ok e st : classify_incoming e st = Ok InHint -> secret_entry e = false.
Proof.
  unfold classify_incoming. cbv zeta. intros E. case_match; [done|]. destruct (identity_by_id (bn_id e) st) as [row|]; [|by destruct (secret_entry e)].
  case_match; [done|]. destruct (generation_of (bn_id e) st); [|done]. cbn in E. by destruct (_ <? _)%N.
Qed.

Lemma set_possession_Ok id s g st st' l i : set_possession id s g st = (Ok tt, st') -> identity_by_label l st = Some i -> ir_id i = id -> possession l st' = Some s.
Proof.
  unfold set_possession. intros E Ei <-. destruct (possession_row (ir_id i) st) as [p|] eqn:EP; [|done]. injection E as <-. rewrite possession_update by done. rewrite Ei. cbn. rewrite EP. cbn.
  apply first_row_Some in EP as [_ ->]. done.
Qed.

Lemma apply_entry_Ok dest b e st st' : apply_entry dest b e st = (Ok tt, st') -> secret_entry e = true -> possession (bn_label e) st' = Some Active.
Proof.
  intros E HS. unfold apply_entry in E. apply dbM_bind_Ok in E as (x & st1 & [Ex ->]%query_Ok & E). apply dbM_bind_Ok in E as ([] & st2 & E2 & E).
  assert (possession (bn_label e) st2 = Some Active) as H2.
  { rewrite HS in E2. destruct x; try done.
    - apply dbM_bind_Ok in E2 as (? & st3 & _ & E2). apply dbM_bind_Ok in E2 as (? & st4 & _ & E2). by apply insert_identity_Ok in E2.
    - by rewrite (hint_Ok _ _ Ex) in HS.
    - destruct (reconcile_Ok _ _ Ex) as (i & Ei & Eid). by eapply set_possession_Ok. }
  apply dbM_bind_Ok in E as (s & st3 & [_ ->]%query_Ok & E). apply dbM_bind_Ok in E as ([] & st4 & E4 & E).
  eapply (respects_keys_active _ (keys_provenance _ _ _)); [exact E|]. by eapply (respects_keys_active _ (keys_provenance _ _ _)); [exact E4|].
Qed.

Lemma apply_entries_Ok dest b l st st' : db_each (apply_entry dest b) l st = (Ok tt, st') -> forall e, e ∈ l -> secret_entry e = true -> possession (bn_label e) st' = Some Active.
Proof.
  revert st; induction l as [|x l IH]; intros st E e He HS; [by apply elem_of_nil in He|]. cbn in E. apply dbM_bind_Ok in E as ([] & st1 & E1 & E). apply elem_of_cons in He as [->|He]; [|eauto].
  apply apply_entry_Ok in E1; [|done]. eapply (respects_each _ _ _ (apply_entry_active dest b)); [exact E|done].
Qed.

(** A commit is all or nothing; after it the transaction is committed and every secret
    label active. *)
Lemma commit_Ok source dest package allow st st' b : commit_destination_rows source dest package allow st = (Ok tt, st') -> open_bundle package source dest = Ok b ->
  (st' = st /\ tx_state (bd_id b) st = Some DestinationCommitted) \/
  (tx_state (bd_id b) st = Some Writing /\ tx_state (bd_id b) st' = Some DestinationCommitted /\ active_kept st st' /\
   (forall e, e ∈ secret_entries b -> is_Some (slot dest (bn_label e)) /\ possession (bn_label e) st' = Some Active)).
Proof.
  intros E EO. unfold commit_destination_rows in E. rewrite EO in E. erewrite dbM_step in E by done. apply dbM_bind_Ok in E as (s & ? & [Es%ok_or_Ok ->]%query_Ok & E).
  destruct (decide (s = DestinationCommitted)) as [->|Hs].
  { rewrite (bool_decide_true (DestinationCommitted = DestinationCommitted)) in E by done. rewrite andb_comm in E. cbn in E. injection E as <-. by left. }
  right. destruct (bool_decide (s = Writing)) eqn:EW; [|by rewrite bool_decide_false in E]. apply bool_decide_eq_true in EW as ->. cbn [negb andb] in E. rewrite bool_decide_false in E by done.
  destruct (existsb _ _) eqn:EX; [done|]. apply dbM_bind_Ok in E as (act & ? & [_ ->]%query_Ok & E). apply transaction_Ok in E.
  apply dbM_bind_Ok in E as (? & ? & [_ ->]%query_Ok & E). apply dbM_bind_Ok in E as ([] & st1 & E1 & E). apply dbM_bind_Ok in E as ([] & st2 & E2 & E).
  pose proof (set_state_Ok _ _ _ _ E2) as (r & _ & Er). assert (keys_same st2 st') as K by by eapply keys_audit_bundle. split; [done|].
  assert (tx_row (bd_id b) st' = tx_row (bd_id b) st2) as ER by (injection E as <-; done).
  split; [unfold tx_state; by rewrite ER, Er|]. assert (active_kept st1 st') as HA by (etransitivity; [eapply keys_active, keys_set_state, E2|by apply keys_active]).
  split; [etransitivity; [eapply (respects_each _ _ _ (apply_entry_active dest b)), E1|done]|].
  intros e [He Hin]%list_elem_of_filter. split.
  - apply not_eq_None_Some. assert (bool_decide (slot dest (bn_label e) = None) = false) as X by (apply (proj1 (existsb_false _ _) EX e); by apply list_elem_of_filter). by apply bool_decide_eq_false in X.
  - apply HA. eapply apply_entries_Ok; [exact E1|done|done].
Qed.
Lemma tx_same_ensure label kt pk : respects tx_same (ensure_hardware label kt pk).
Proof.
  intros st r st'. unfold ensure_hardware. destruct (get_key_by_public_key pk st); [by intros [= _ <-]|]. unfold register_key. case_match; [by intros [= _ <-]|].
  case_bool_decide; by intros [= _ <-].
Qed.
Lemma tx_same_identity id label parent enc sig s g : respects tx_same (insert_identity id label parent enc sig s g).
Proof. intros st r st'. unfold insert_identity. cbv zeta. destruct (_ || _); [by intros [= _ <-]|]. destruct (bool_decide _); by intros [= _ <-]. Qed.
Lemma apply_entry_tx dest b e : respects tx_same (apply_entry dest b e).
Proof. pose proof tx_same_ensure. pose proof tx_same_identity. unfold apply_entry. frame. Qed.
Lemma commit_keeps_hash source dest package allow st st' b : commit_destination_rows source dest package allow st = (Ok tt, st') -> open_bundle package source dest = Ok b ->
  (fun r => (tr_hash r, tr_role r)) <$> tx_row (bd_id b) st' = (fun r => (tr_hash r, tr_role r)) <$> tx_row (bd_id b) st.
Proof.
  intros E EO. unfold commit_destination_rows in E. rewrite EO in E. erewrite dbM_step in E by done. apply dbM_bind_Ok in E as (s & ? & [_ ->]%query_Ok & E).
  destruct (negb (bool_decide (s = Writing)) && negb (bool_decide (s = DestinationCommitted))); [done|]. destruct (bool_decide (s = DestinationCommitted)); [by injection E as <-|]. destruct (existsb _ _); [done|].
  apply dbM_bind_Ok in E as (act & ? & [_ ->]%query_Ok & E). apply transaction_Ok in E.
  apply dbM_bind_Ok in E as (? & ? & [_ ->]%query_Ok & E). apply dbM_bind_Ok in E as ([] & st1 & E1 & E). apply dbM_bind_Ok in E as ([] & st2 & E2 & E).
  assert (tx_row (bd_id b) st' = tx_row (bd_id b) st2) as -> by (injection E as <-; done). destruct (set_state_Ok _ _ _ _ E2) as (r & R1 & ->).
  rewrite <- (tx_same_row (bd_id b) st st1), R1; [done|]. exact (respects_each _ _ _ (apply_entry_tx dest b) _ _ _ E1).
Qed.
Lemma commit_Err source dest package allow st e st' : commit_destination_rows source dest package allow st = (Err e, st') -> st' = st.
Proof.
  unfold commit_destination_rows. intros E. destruct (open_bundle package source dest) as [b|x]; [|by injection E as _ <-]. erewrite dbM_step in E by done.
  destruct (tx_state (bd_id b) st) as [s|] eqn:ES; [|erewrite dbM_fail in E by (unfold query; by rewrite ES); by injection E as _ <-]. erewrite dbM_step in E by (unfold query; by rewrite ES).
  repeat (case_match; try by injection E as _ <-). erewrite dbM_step in E by done. by apply transaction_Err in E.
Qed.
End identities.

(** ** The destination *)

Section destination.
Context `{S : Storage} `{!StorageLaws S} `{C : Crypto} `{!CryptoLaws C} `{HX : Hex} `{A : Aead} `{!AeadLaws A}.
Implicit Types (s t : Site S) (e : BundleEntry).

Lemma on_db_run {B} (m : dbM B) s r s' : on_db (S := S) m s = (r, s') -> m (si_db s) = (r, si_db s') /\ si_dev s' = si_dev s.
Proof. unfold on_db, zoom. destruct (m (si_db s)) as [x st]. by intros [= <- <-]. Qed.
Lemma on_dev_run {B} (m : stM (Dev S) B) s r s' : on_dev m s = (r, s') -> m (si_dev s) = (r, si_dev s') /\ si_db s' = si_db s.
Proof. unfold on_dev, zoom. destruct (m (si_dev s)) as [x d]. by intros [= <- <-]. Qed.
Lemma ask_run {B} (f : Store -> result B) s r s' : ask (S := S) f s = (r, s') -> r = f (si_db s) /\ s' = s.
Proof. by intros [= <- <-]. Qed.

Definition open_mono (d d' : Dev S) : Prop := forall l p x, open_slot_in l p d = Ok x -> open_slot_in l p d' = Ok x.
Definition row_key (r : TxRow) : TxState * bytes * TxRole := (tr_state r, tr_hash r, tr_role r).

(** What writing the slots leaves as it was. *)
Definition writes Q tx s s' : Prop :=
  keys_same (si_db s) (si_db s') /\ stays Q (si_dev s) (si_dev s') /\ (sound (si_dev s) -> sound (si_dev s') /\ open_mono (si_dev s) (si_dev s')) /\
  row_key <$> tx_row tx (si_db s') = row_key <$> tx_row tx (si_db s).
#[export] Instance writes_preorder Q tx : PreOrder (writes Q tx).
Proof.
  split; [intros s; split_and!; try reflexivity; intros H; split; [done|by intros l p x]|].
  intros s1 s2 s3 (H1 & H2 & H3 & H4) (G1 & G2 & G3 & G4). split_and!; [by etransitivity..| |congruence]. intros H. destruct (H3 H) as [H5 H6], (G3 H5) as [G5 G6]. split; [done|]. intros l p x X. auto.
Qed.

Definition draws_wf (draws : bytes -> bytes * bytes) : Prop := forall l, fixed SALT_LEN (draws l).1 /\ fixed NONCE_LEN (draws l).2.

Lemma writes_set_detail Q tx detail : st_respects (writes Q tx) (on_db (S := S) (set_detail tx detail)).
Proof.
  intros s r s' [E ED]%on_db_run. assert (keys_same (si_db s) (si_db s')) as K by by eapply keys_on_tx. split_and!; [done|rewrite ED; reflexivity|rewrite ED; intros H; split; [done|by intros l p x]|].
  pose proof (tx_row_update tx (with_tx_detail detail) (si_db s) ltac:(done)) as X. unfold set_detail in E. rewrite E in X. cbn [snd] in X. rewrite X. by destruct (tx_row tx (si_db s)).
Qed.
Lemma writes_install Q tx salt nonce e pass enc sig : fixed SALT_LEN salt -> fixed NONCE_LEN nonce -> entry_wf e -> bn_enc_secret e = Some enc -> bn_sign_secret e = Some sig ->
  st_respects (writes Q tx) (on_dev (install_slot_in (S := S) salt nonce (bn_label e) pass enc sig)).
Proof.
  intros Hs Hn (_ & _ & _ & _ & Hp & Hq & _ & _ & _ & _ & HW) Ee Es s r s' [E ED]%on_dev_run. rewrite Ee, Es in HW. destruct HW as (W1 & W2 & W3 & W4). unfold writes. rewrite ED. split_and!; [reflexivity|by eapply install_stays| |done].
  intros HS. assert (draw_wf salt nonce enc sig) as HD by (split_and!; [done..|by rewrite W3|by rewrite W4]). destruct (install_any _ _ _ _ _ _ _ _ _ HS HD E) as [HS' HO]. split; [done|].
  intros l p x EX. destruct (decide (l = bn_label e)) as [->|Hl]; [|by rewrite HO].
  destruct r as [record|err].
  - apply install_Ok in E as (EN & _). unfold open_slot_in in EX. by rewrite EN in EX.
  - destruct (slot (dv_box (si_dev s)) (bn_label e)) as [rec|] eqn:ES; [|unfold open_slot_in in EX; by rewrite ES in EX].
    assert (si_dev s' = si_dev s) as ->; [|done]. unfold install_slot_in in E. destruct (validate_slot_label (bn_label e)) as [[]|]; [|by injection E as _ <-]. erewrite (st_step (st_try (Ok tt))) in E by done.
    case_bool_decide; [by injection E as _ <-|]. erewrite st_step in E by done. rewrite ES, bool_decide_true in E by eauto. by injection E as _ <-.
Qed.

Lemma writes_bind_in {B D} Q tx (m : stM (Site S) B) (k : B -> stM (Site S) D) : st_respects (writes Q tx) m -> (forall b, st_respects (writes Q tx) (k b)) -> st_respects (writes Q tx) (m ≫= k).
Proof. apply st_respects_bind, _. Qed.
Lemma writes_read {B} Q tx (f : Site S -> result B) : st_respects (writes Q tx) (fun s => (f s, s)).
Proof. intros s r s' [= _ <-]. reflexivity. Qed.

Lemma write_slots_writes Q tx draws passphrases limit entries installed written : draws_wf draws -> Forall entry_wf entries ->
  st_respects (writes Q tx) (write_slots (S := S) draws passphrases limit tx entries installed written).
Proof.
  intros HD HF. revert installed written. induction HF as [|e entries He HF IH]; intros installed written; [apply st_respects_ret, _|]. cbn.
  match goal with |- st_respects _ (if ?b then _ else _) => destruct b end; [apply st_respects_ret, _|]. apply writes_bind_in; [apply writes_read|]. intros c.
  case_bool_decide.
  - apply writes_bind_in; [apply st_respects_try, _|]. intros pass. apply writes_bind_in; [apply writes_read|]. intros opened. case_match; [apply st_respects_try, _|done].
  - apply writes_bind_in; [apply st_respects_try, _|]. intros pass. apply writes_bind_in.
    { case_bool_decide; [apply st_respects_ret, _|]. apply writes_bind_in; [apply writes_read|]. intros detail. apply writes_set_detail. }
    intros _. destruct (bn_enc_secret e) as [enc|] eqn:E1; cbn; [|intros s r s' [= _ <-]; reflexivity]. destruct (bn_sign_secret e) as [sig|] eqn:E2; cbn; [|intros s r s' [= _ <-]; reflexivity].
    intros s r s' E. revert s r s' E. change (st_respects (writes Q tx) (st_try (Ok enc) ≫= fun enc => st_try (Ok sig) ≫= fun sig => on_dev (install_slot_in (draws (bn_label e)).1 (draws (bn_label e)).2 (bn_label e) pass enc sig) ≫= fun _ =>
      write_slots draws passphrases limit tx entries (if bool_decide (bn_label e ∈ installed) then installed else installed ++ [bn_label e]) (written + 1))).
    intros s r s' E. erewrite (st_step (st_try (Ok enc))) in E by done. erewrite (st_step (st_try (Ok sig))) in E by done. revert s r s' E.
    apply writes_bind_in; [destruct (HD (bn_label e)); by apply writes_install|]. intros _. apply IH.
Qed.

(** The slot of an entry opens here, under its passphrase, to the entry's encryption key. *)
Definition slot_opens (passphrases : bytes -> option bytes) (d : Dev S) e : Prop :=
  exists pass x, passphrases (bn_label e) = Some pass /\ open_slot_in (bn_label e) pass d = Ok x /\ ss_encryption_public x = bn_enc_public e.
Lemma slot_opens_mono passphrases d d' e : open_mono d d' -> slot_opens passphrases d e -> slot_opens passphrases d' e.
Proof. intros H (pass & x & H1 & H2 & H3). exists pass, x. auto. Qed.

Lemma write_slots_Ok Q tx draws passphrases entries installed written s s' : draws_wf draws -> Forall entry_wf entries -> sound (si_dev s) -> ct_path (dv_box (si_dev s)) = Q ->
  write_slots (S := S) draws passphrases None tx entries installed written s = (Ok tt, s') -> forall e, e ∈ entries -> slot_opens passphrases (si_dev s') e.
Proof.
  intros HD HF. revert s installed written. induction HF as [|x entries Hx HF IH]; intros s installed written HS EQ E e He; [by apply elem_of_nil in He|]. cbn in E.
  erewrite st_step in E by done. destruct (decide (is_Some (slot (dv_box (si_dev s)) (bn_label x)))) as [Hsl|Hsl].
  - rewrite bool_decide_true in E by done. apply st_bind_Ok in E as (pass & ? & [EP%ok_or_Ok ->]%st_try_Ok & E). apply st_bind_Ok in E as (opened & ? & [= EO <-] & E). case_bool_decide as Eq; [|done]. cbn [negb] in E.
    apply elem_of_cons in He as [->|He]; [|eauto]. destruct (write_slots_writes Q tx _ _ _ _ _ _ HD HF _ _ _ E) as (_ & _ & HM & _). eapply slot_opens_mono; [by apply HM|]. by exists pass, opened.
  - rewrite bool_decide_false in E by done. apply st_bind_Ok in E as (pass & ? & [EP%ok_or_Ok ->]%st_try_Ok & E). apply st_bind_Ok in E as ([] & s1 & E1 & E).
    assert (writes Q tx s s1) as W1.
    { revert E1. case_bool_decide; [intros [= <-]; reflexivity|]. intros E1. eapply (st_respects_bind (writes Q tx)) in E1; [exact E1|apply writes_read|]. intros detail. apply writes_set_detail. }
    apply st_bind_Ok in E as (enc & ? & [EE%ok_or_Ok ->]%st_try_Ok & E). apply st_bind_Ok in E as (sig & ? & [ES%ok_or_Ok ->]%st_try_Ok & E). apply st_bind_Ok in E as (record & s2 & E2 & E).
    destruct (HD (bn_label x)) as [D1 D2]. pose proof (writes_install Q tx _ _ _ pass _ _ D1 D2 Hx EE ES _ _ _ E2) as W2. pose proof (proj1 (proj1 (proj2 (proj2 W1)) HS)) as HS1. pose proof (proj1 (proj1 (proj2 (proj2 W2)) HS1)) as HS2.
    assert (ct_path (dv_box (si_dev s2)) = Q) as EQ2 by (apply W2, W1, EQ). apply elem_of_cons in He as [->|He]; [|eauto].
    destruct (write_slots_writes Q tx _ _ _ _ _ _ HD HF _ _ _ E) as (_ & _ & HM & _). eapply slot_opens_mono; [by apply HM|].
    apply on_dev_run in E2 as [E2 _]. apply install_Ok in E2 as (EN & _ & E2). destruct Hx as (_ & _ & _ & _ & Hp & Hq & _ & _ & _ & _ & HW). rewrite EE, ES in HW. destruct HW as (V1 & V2 & V3 & V4).
    assert (draw_wf (draws (bn_label x)).1 (draws (bn_label x)).2 enc sig) as HDW by (split_and!; [done..|by rewrite V3|by rewrite V4]).
    destruct (put_slot_Ok _ _ _ _ _ _ _ _ HS1 HDW EN E2) as (_ & _ & _ & EO & _). exists pass, (secrets_of (bn_label x) enc sig). done.
Qed.

Lemma secret_entries_wf source dest package b : open_bundle package source dest = Ok b -> Forall entry_wf (secret_entries b).
Proof. intros (HW & _)%open_bundle_iff. destruct HW as [_ _ _ _ _ _ HF]. apply Forall_forall. rewrite Forall_forall in HF. intros e [_ He]%list_elem_of_filter. auto. Qed.

(** Writing the slots: whatever the result, keys and the package's hash stay, and the
    transaction is in no state but writing or the one it was in. *)
Lemma write_destination_any Q draws source package passphrases limit s r s' b : draws_wf draws -> ct_path (dv_box (si_dev s)) = Q -> sound (si_dev s) -> open_bundle package source (dv_box (si_dev s)) = Ok b ->
  write_destination_slots_in draws source package passphrases limit s = (r, s') ->
  keys_same (si_db s) (si_db s') /\ stays Q (si_dev s) (si_dev s') /\ sound (si_dev s') /\ open_mono (si_dev s) (si_dev s') /\
  (s' = s \/ exists row row', tx_row (bd_id b) (si_db s) = Some row /\ (tr_state row = Transferred \/ tr_state row = Writing) /\ tx_row (bd_id b) (si_db s') = Some row' /\ tr_state row' = Writing /\ tr_hash row' = tr_hash row /\ tr_role row' = tr_role row) /\
  (r = Ok tt -> limit = None -> tx_state (bd_id b) (si_db s') = Some Writing /\ forall e, e ∈ secret_entries b -> slot_opens passphrases (si_dev s') e).
Proof.
  intros HD EQ HS EO E. unfold write_destination_slots_in in E. erewrite st_step in E by done. rewrite EO in E. erewrite (st_step (st_try (Ok b))) in E by done.
  assert (s' = s /\ r <> Ok tt -> keys_same (si_db s) (si_db s') /\ stays Q (si_dev s) (si_dev s') /\ sound (si_dev s') /\ open_mono (si_dev s) (si_dev s') /\
    (s' = s \/ exists row row', tx_row (bd_id b) (si_db s) = Some row /\ (tr_state row = Transferred \/ tr_state row = Writing) /\ tx_row (bd_id b) (si_db s') = Some row' /\ tr_state row' = Writing /\ tr_hash row' = tr_hash row /\ tr_role row' = tr_role row) /\
    (r = Ok tt -> limit = None -> tx_state (bd_id b) (si_db s') = Some Writing /\ forall e, e ∈ secret_entries b -> slot_opens passphrases (si_dev s') e)) as Hno.
  { intros [-> Hr]. split_and!; [reflexivity..|done|by intros l p x|by left|done]. }
  destruct (tx_row (bd_id b) (si_db s)) as [row|] eqn:ER; cycle 1.
  { erewrite st_fail in E by (unfold ask, tx_state; by rewrite ER). apply Hno. by injection E as <- <-. }
  erewrite st_step in E by (unfold ask, tx_state; by rewrite ER). case_bool_decide as Hst; cycle 1.
  { apply Hno. by injection E as <- <-. }
  cbn [negb] in E. clear Hno. destruct (set_state_run (bd_id b) Writing _ _ ER) as (st1 & E1 & ER1). pose proof (keys_set_state _ _ _ _ _ E1) as K1.
  erewrite st_step in E by (unfold on_db, zoom; by rewrite E1). erewrite st_step in E by (unfold ask, tx_detail; cbn; by rewrite ER1).
  pose proof (secret_entries_wf _ _ _ _ EO) as HF. set (s1 := {| si_db := st1; si_dev := si_dev s |}) in *.
  destruct (write_slots_writes Q (bd_id b) _ _ _ _ _ _ HD HF _ _ _ E) as (K2 & H2 & H3 & H4). destruct (H3 HS) as [H5 H6]. cbn in K2, H4. rewrite ER1 in H4.
  destruct (tx_row (bd_id b) (si_db s')) as [row'|] eqn:ER'; [|done]. cbn in H4. assert (tr_state row' = Writing /\ tr_hash row' = tr_hash row /\ tr_role row' = tr_role row) as (G1 & G2 & G3) by (unfold row_key in H4; cbn in H4; by injection H4 as -> -> ->).
  split_and!; [etransitivity; [exact K1|done]|done|done|done|right; exists row, row'|].
  { by split_and!. }
  intros -> ->. split; [unfold tx_state; rewrite ER'; cbn; by rewrite G1|]. exact (write_slots_Ok Q _ _ _ _ _ _ s1 s' HD HF HS EQ E).
Qed.
End destination.

(** ** The source *)

(** Retiring a label never touches the transaction, and for a copy not who holds what. *)
Lemma retire_label_tx own peer o label : respects tx_same (retire_label own peer o label).
Proof. unfold retire_label. frame. Qed.
Lemma retire_label_copy own peer label : respects keys_same (retire_label own peer Copy label).
Proof. unfold retire_label. frame. Qed.

Section source.
Context `{S : Storage} `{!StorageLaws S} `{C : Crypto} `{!CryptoLaws C} `{HX : Hex} `{A : Aead} `{!AeadLaws A}.
Implicit Types s : Site S.

(** What no operation on the source changes in the row of a transaction. *)
Definition row_fixed (r : TxRow) : bytes * TransferOp * bytes := (tr_hash r, tr_operation r, tr_detail r).

Definition remove_if (label : bytes) : stM (Site S) unit := c ← container; if bool_decide (is_Some (slot c label)) then on_dev (remove_slot_in label) else mret tt.

(** Slots are only removed, the database does not change. *)
Definition scrubs P s s' : Prop :=
  si_db s' = si_db s /\ stays P (si_dev s) (si_dev s') /\ (sound (si_dev s) -> sound (si_dev s')) /\
  forall l, slot (dv_box (si_dev s)) l = None -> slot (dv_box (si_dev s')) l = None.
#[export] Instance scrubs_preorder P : PreOrder (scrubs P).
Proof. split; [intros s; by split_and!|]. intros s1 s2 s3 (H1 & H2 & H3 & H4) (G1 & G2 & G3 & G4). split_and!; [congruence|by etransitivity|auto|auto]. Qed.
Lemma remove_if_scrubs P label : st_respects (scrubs P) (remove_if label).
Proof.
  intros s r s' E. unfold remove_if in E. erewrite st_step in E by done. case_bool_decide; [|by injection E as _ <-]. apply on_dev_run in E as [E ED].
  split_and!; [done|by eapply remove_stays|intros HS; by apply (remove_any _ _ _ _ HS E)|]. intros l. by eapply remove_slots_same.
Qed.
Lemma remove_if_Ok label s s' : remove_if label s = (Ok tt, s') -> slot (dv_box (si_dev s')) label = None.
Proof.
  intros E. unfold remove_if in E. erewrite st_step in E by done. case_bool_decide as B; [|injection E as <-; by apply eq_None_not_Some]. apply on_dev_run in E as [E _]. by apply remove_Ok_slot in E.
Qed.
Lemma remove_all_scrubs P l : st_respects (scrubs P) (st_each remove_if l).
Proof. apply st_respects_each; [apply _|]. intros label. apply remove_if_scrubs. Qed.
Lemma remove_all_Ok (P : bytes) l s s' : st_each remove_if l s = (Ok tt, s') -> forall label, label ∈ l -> slot (dv_box (si_dev s')) label = None.
Proof.
  revert s; induction l as [|x l IH]; intros s E label Hl; [by apply elem_of_nil in Hl|]. cbn in E. apply st_bind_Ok in E as ([] & s1 & E1 & E). apply elem_of_cons in Hl as [->|Hl]; [|eauto].
  apply remove_if_Ok in E1. by eapply (remove_all_scrubs P _ _ _ _ E).
Qed.

(** Scrubbing: nothing for a copy; for a move only slots go, and when it succeeds all
    the labels it lists are gone. *)
Lemma scrub_run P tx s r s' row : tx_row tx (si_db s) = Some row -> scrub_moved_slots tx s = (r, s') ->
  match tr_operation row with
  | Copy => s' = s
  | Move => scrubs P s s' /\ (r = Ok tt -> forall label, label ∈ detail_list (tr_detail row) (str "included") -> slot (dv_box (si_dev s')) label = None)
  end.
Proof.
  intros ER E. unfold scrub_moved_slots in E. erewrite st_step in E by (unfold ask, tx_operation; by rewrite ER). destruct (tr_operation row); cbn [bool_decide] in E.
  - rewrite bool_decide_true in E by done. by injection E as _ <-.
  - rewrite bool_decide_false in E by (intros H; by apply H). erewrite st_step in E by (unfold ask, tx_detail; by rewrite ER). fold remove_if in E.
    split; [by eapply (remove_all_scrubs P)|]. intros ->. by eapply (remove_all_Ok P).
Qed.

End source.
