(* ===== verification/TransferSafety.v ===== *)
(** * No transfer loses a key

    The two devices of a transfer as one system: which states staging, writing,
    committing, acknowledging, finishing, aborting and recovering lead to, whatever
    fails between them. *)

From stdpp Require Import gmap.
From S2P Require Import Prelude Text Crypto BTree Envelope HistoryCodec Event Authority Signing Tables KeyStore Aead World Clock Pin TreeLaws Device DeviceLaws TransferPackage Transfer TransferLaws.

(** ** The two sides *)

Section sides.
Context `{S : Storage} `{!StorageLaws S} `{C : Crypto} `{!CryptoLaws C} `{HX : Hex} `{A : Aead} `{!AeadLaws A}.
Implicit Types d : Duo S.

Lemma at_source_run {B} (m : stM (Site S) B) d r d' : at_source m d = (r, d') ->
  m (source_site d) = (r, source_site d') /\ du_db' d' = du_db' d /\ du_disk' d' = du_disk' d /\ du_to d' = du_to d.
Proof. unfold at_source, zoom. destruct (m (source_site d)) as [x [st [k c]]]. by intros [= <- <-]. Qed.
Lemma at_dest_run {B} (m : stM (Site S) B) d r d' : at_dest m d = (r, d') ->
  m (dest_site d) = (r, dest_site d') /\ (is_Some (du_db' d) -> is_Some (du_db' d') /\ du_db d' = du_db d) /\
  (is_Some (du_disk' d') <-> is_Some (du_disk' d)) /\ (is_Some (du_disk' d) -> du_disk d' = du_disk d) /\ du_from d' = du_from d.
Proof.
  unfold at_dest, zoom. destruct (m (dest_site d)) as [x [st [k c]]] eqn:E. intros [= <- <-]. unfold dest_site, put_dest. cbn.
  destruct (du_db' d), (du_disk' d); cbn; split_and!; try done; try (by split; intros []); try (intros []; done); eauto.
Qed.

Lemma st_bind_assoc {Σ B D F} (m : stM Σ B) (k : B -> stM Σ D) (h : D -> stM Σ F) s : ((m ≫= k) ≫= h) s = (m ≫= fun x => k x ≫= h) s.
Proof. unfold mbind, stM_bind. by destruct (m s) as [[x|e] s1]. Qed.
Lemma at_dest_bind {B D} (m : stM (Site S) B) (k : B -> stM (Site S) D) d : at_dest (m ≫= k) d = (at_dest m ≫= fun x => at_dest (k x)) d.
Proof.
  unfold at_dest, zoom, mbind, stM_bind. destruct (m (dest_site d)) as [[x|e] s1]; [|done].
  assert (dest_site (put_dest s1 d) = s1) as -> by (unfold dest_site, put_dest; destruct d as [? [] ? [] ? ?], s1 as [? []]; done).
  destruct (k x s1) as [y s2]. f_equal. unfold put_dest. destruct d as [? [] ? [] ? ?]; done.
Qed.
Lemma at_dest_ext {B} (m m' : stM (Site S) B) d : m (dest_site d) = m' (dest_site d) -> at_dest m d = at_dest m' d.
Proof. unfold at_dest, zoom. by intros ->. Qed.

(** The other side of an operation, when databases are two and directories apart. *)
Lemma at_source_dest {B} P (m : stM (Site S) B) d r d' : at_source m d = (r, d') -> is_Some (du_db' d) -> (du_disk' d = None -> apart P (ct_path (du_to d))) ->
  ct_path (du_from d) = P -> stays P (si_dev (source_site d)) (si_dev (source_site d')) ->
  si_db (dest_site d') = si_db (dest_site d) /\ (forall l p, open_slot_in l p (si_dev (dest_site d')) = open_slot_in l p (si_dev (dest_site d))) /\
  (sound (si_dev (dest_site d)) -> sound (si_dev (dest_site d'))).
Proof.
  intros E Hdb HA EP HS. apply at_source_run in E as (_ & E1 & E2 & E3). unfold dest_site. cbn. rewrite E1, E2, E3. destruct Hdb as [st ->]. split; [done|].
  destruct (du_disk' d) as [k|]; [done|]. specialize (HA eq_refl). cbn.
  split; [intros l p; by apply (stays_apart_open P _ _ (du_to d) l p HS)|]. by apply (stays_apart_sound P _ _ (du_to d) HS).
Qed.
Lemma at_dest_source {B} Q (m : stM (Site S) B) d r d' : at_dest m d = (r, d') -> is_Some (du_db' d) -> (du_disk' d = None -> apart Q (ct_path (du_from d))) ->
  ct_path (du_to d) = Q -> stays Q (si_dev (dest_site d)) (si_dev (dest_site d')) ->
  si_db (source_site d') = si_db (source_site d) /\ (forall l p, open_slot_in l p (si_dev (source_site d')) = open_slot_in l p (si_dev (source_site d))) /\
  (sound (si_dev (source_site d)) -> sound (si_dev (source_site d'))).
Proof.
  intros E Hdb HA EP HS. apply at_dest_run in E as (_ & E1 & E2 & E3 & E4). destruct (E1 Hdb) as [_ E5]. unfold source_site. cbn [si_db si_dev]. rewrite E4, E5. split; [done|].
  destruct (decide (is_Some (du_disk' d))) as [Hk|ED%eq_None_not_Some]; [rewrite E3 by done; done|]. assert (du_disk' d' = None) as ED' by (apply eq_None_not_Some; intros X%E2; rewrite ED in X; by destruct X).
  specialize (HA ED). unfold dest_site in HS. cbn [si_dev] in HS. rewrite ED, ED' in HS. cbn in HS.
  split; [intros l p; by apply (stays_apart_open Q _ _ (du_from d) l p HS)|]. by apply (stays_apart_sound Q _ _ (du_from d) HS).
Qed.
End sides.

(** ** The state of a transfer *)

Section safety.
Context `{S : Storage} `{!StorageLaws S} `{C : Crypto} `{!CryptoLaws C} `{HX : Hex} `{A : Aead} `{!AeadLaws A}.
(** The directories and identities of the two devices, and the package between them. *)
Context (P Q source_id source_key dest_id package : bytes) (b : Bundle) (passphrases : bytes -> option bytes).
Implicit Types d : Duo S.

Notation tx := (bd_id b).
Notation secrets := (secret_entries b).
Definition dev_from d : Dev S := si_dev (source_site d).
Definition dev_to d : Dev S := si_dev (dest_site d).
Definition committed d : Prop := destination_committed tx (si_db (dest_site d)) = true.

Record placed d : Prop := {
  pl_db : is_Some (du_db' d);
  pl_from : ct_path (du_from d) = P /\ ct_device_id (du_from d) = source_id /\ ct_verify_key (du_from d) = source_key;
  pl_to : ct_path (du_to d) = Q /\ ct_device_id (du_to d) = dest_id;
  pl_disk : du_disk' d = None -> apart P Q;
  pl_sound_from : sound (dev_from d);
  pl_sound_to : sound (dev_to d);
}.

(** The row of the transfer on the source: its operation, package and labels. *)
Definition source_row (committed : Prop) (st : Store) : Prop := exists r,
  tx_row tx st = Some r /\ tr_hash r = sha256 package /\ tr_operation r = bd_operation b /\ detail_list (tr_detail r) (str "included") = map bn_label secrets /\
  (tr_state r = SourceFinalized \/ tr_state r = Completed -> committed).
Definition dest_row (st : Store) : Prop := forall r, tx_row tx st = Some r -> tr_hash r = sha256 package /\ tr_role r = DestinationRole.

Record safe d : Prop := {
  sf_placed : placed d;
  sf_source_row : source_row (committed d) (si_db (source_site d));
  sf_dest_row : dest_row (si_db (dest_site d));
  sf_dest : committed d -> forall e, e ∈ secrets -> slot_opens passphrases (dev_to d) e /\ possession (bn_label e) (si_db (dest_site d)) = Some Active;
  sf_source : ~ committed d \/ bd_operation b = Copy -> forall e, e ∈ secrets -> slot_opens passphrases (dev_from d) e;
  sf_active e : e ∈ secrets -> possession (bn_label e) (si_db (source_site d)) = Some Active \/
    (bd_operation b = Move /\ committed d /\ slot (du_from d) (bn_label e) = None);
}.

Lemma slot_opens_ext (k1 k2 : Dev S) e : (forall l p, open_slot_in l p k2 = open_slot_in l p k1) -> slot_opens passphrases k1 e -> slot_opens passphrases k2 e.
Proof. intros H (pass & x & H1 & H2 & H3). exists pass, x. by rewrite H. Qed.

Lemma apart_sym (X Y : bytes) : apart X Y -> apart Y X.
Proof. intros H n n' E. by apply (H n' n). Qed.

(** An operation on the destination. *)
Lemma dest_step {B} (m : stM (Site S) B) d r d' : safe d -> at_dest m d = (r, d') ->
  stays Q (dev_to d) (dev_to d') -> sound (dev_to d') -> dest_row (si_db (dest_site d')) -> (committed d -> committed d') ->
  (committed d' -> forall e, e ∈ secrets -> slot_opens passphrases (dev_to d') e /\ possession (bn_label e) (si_db (dest_site d')) = Some Active) -> safe d'.
Proof.
  intros [[Hdb (HP & Hi & Hk) [HQ Hj] HA HSf HSt] HR HD Hd Hs Ha] E HT HSt' HD' HC Hd'.
  destruct (at_dest_source Q m d r d' E Hdb ltac:(intros X; apply apart_sym; rewrite HP; auto) HQ HT) as (Edb & Eop & Eso). pose proof E as E'. apply at_dest_run in E' as (_ & Hdb' & Hdk & _ & Ef). destruct (Hdb' Hdb) as [Hdb1 _].
  destruct (HT HQ) as (F1 & F2 & _). split.
  - split; [done|by rewrite Ef| |intros X; apply HA; apply eq_None_not_Some; intros Y; apply Hdk in Y; rewrite X in Y; by destruct Y|by apply Eso|done]. by split; [exact F1|rewrite <- Hj; exact F2].
  - rewrite Edb. destruct HR as (row & R1 & R2 & R3 & R4 & R5). exists row. split_and!; auto.
  - done.
  - done.
  - intros HN e He. eapply slot_opens_ext; [exact Eop|]. apply Hs; [|done]. destruct HN as [HN|HN]; [left; auto|by right].
  - intros e He. rewrite Edb, Ef. destruct (Ha e He) as [?|(? & ? & ?)]; [by left|right; auto].
Qed.

(** An operation on the source. *)
Lemma source_step {B} (m : stM (Site S) B) d r d' : safe d -> at_source m d = (r, d') ->
  stays P (dev_from d) (dev_from d') -> sound (dev_from d') -> source_row (committed d) (si_db (source_site d')) ->
  (~ committed d \/ bd_operation b = Copy -> forall e, e ∈ secrets -> slot_opens passphrases (dev_from d') e) ->
  (forall e, e ∈ secrets -> possession (bn_label e) (si_db (source_site d')) = Some Active \/ (bd_operation b = Move /\ committed d /\ slot (du_from d') (bn_label e) = None)) ->
  safe d' /\ (committed d' <-> committed d).
Proof.
  intros [[Hdb (HP & Hi & Hk) [HQ Hj] HA HSf HSt] HR HD Hd Hs Ha] E HT HSf' HR' Hs' Ha'.
  destruct (at_source_dest P m d r d' E Hdb ltac:(intros X; rewrite HQ; auto) HP HT) as (Edb & Eop & Eso). pose proof E as E'. apply at_source_run in E' as (_ & Hdb' & Hdk & Et).
  destruct (HT HP) as (F1 & F2 & F3 & _). assert (committed d' <-> committed d) as HC by (unfold committed; by rewrite Edb). split; [|done]. split.
  - split; [by rewrite Hdb'| |by rewrite Et|by rewrite Hdk|done|by apply Eso]. split; [exact F1|]. split; [rewrite <- Hi; exact F2|rewrite <- Hk; exact F3].
  - destruct HR' as (row & R1 & R2 & R3 & R4 & R5). exists row. split_and!; auto. intros X. apply HC. auto.
  - by rewrite Edb.
  - intros X e He. rewrite Edb. destruct (Hd (proj1 HC X) e He) as [? ?]. split; [|done]. by eapply slot_opens_ext.
  - intros HN. apply Hs'. by rewrite <- HC.
  - intros e He. destruct (Ha' e He) as [?|(? & ? & ?)]; [by left|right; by rewrite HC].
Qed.

(** *** Staging, writing, committing and acknowledging *)

Context (Hopen : forall c c', ct_device_id c = source_id -> ct_verify_key c = source_key -> ct_device_id c' = dest_id -> open_bundle package c c' = Ok b).

Lemma committed_row st r : tx_row tx st = Some r -> destination_committed tx st = committed_state (tr_state r).
Proof. intros E. unfold destination_committed, tx_state. by rewrite E. Qed.
Lemma committed_Some st : destination_committed tx st = true -> exists r, tx_row tx st = Some r /\ committed_state (tr_state r) = true.
Proof. unfold destination_committed, tx_state. destruct (tx_row tx st) as [r|]; [|done]. cbn. eauto. Qed.

(** A statement on the destination that keeps who holds what, and the commitment. *)
Lemma dest_db_step {B} (m : dbM B) d r d' : safe d -> at_dest (on_db m) d = (r, d') -> active_kept (si_db (dest_site d)) (si_db (dest_site d')) ->
  dest_row (si_db (dest_site d')) -> (destination_committed tx (si_db (dest_site d')) = destination_committed tx (si_db (dest_site d))) -> safe d'.
Proof.
  intros HS E HA HD HC. pose proof E as E'. apply at_dest_run in E' as (E' & _). apply on_db_run in E' as [_ Edev]. fold (dev_to d) (dev_to d') in Edev.
  eapply dest_step; [done|done|rewrite Edev; reflexivity|rewrite Edev; apply HS|done|unfold committed; by rewrite HC|].
  unfold committed. rewrite HC, Edev. intros X e He. destruct (sf_dest _ HS X e He) as [? ?]. auto.
Qed.

Lemma stage_safe source allow d r d' : ct_device_id source = source_id -> ct_verify_key source = source_key ->
  safe d -> at_dest (dest ← container; on_db (stage_destination source dest package allow)) d = (r, d') -> safe d'.
Proof.
  intros Hi Hk HS E. pose proof (pl_to _ (sf_placed _ HS)) as [_ Ht]. change (at_dest (dest ← container; on_db (stage_destination source dest package allow)) d) with (at_dest (on_db (stage_destination source (du_to d) package allow)) d) in E.
  pose proof E as E'. apply at_dest_run in E' as (E' & _). apply on_db_run in E' as [E' _]. pose proof (keys_active _ _ (keys_stage _ _ _ _ _ _ _ E')) as HA. pose proof (sf_dest_row _ HS) as HD.
  assert (dest_row (si_db (dest_site d')) /\ destination_committed tx (si_db (dest_site d')) = destination_committed tx (si_db (dest_site d))) as [H1 H2]; [|by eapply dest_db_step].
  clear E HA. revert E' HD. generalize (si_db (dest_site d')) as st'. generalize (si_db (dest_site d)) as st. intros st st' E HD. unfold stage_destination in E. rewrite Hopen in E by done. erewrite dbM_step in E by done. erewrite dbM_step in E by done.
  assert (forall x y st', audit_bundle b x y st = (Ok tt, st') -> tx_row tx st' = tx_row tx st) as HAu by (intros x y st1 [= <-]; done).
  destruct (tx_row tx st) as [row|] eqn:ER.
  - destruct (HD row ER) as [Hh Hr]. unfold tx_role in E. rewrite ER in E. cbn [fmap option_fmap option_map] in E. rewrite Hr, bool_decide_true in E by done.
    erewrite dbM_step in E by done. injection E as _ <-. unfold destination_committed, tx_state, dest_row. unfold tx_row in *. cbn. rewrite ER. split; [by intros ? [= <-]|done].
  - unfold tx_role in E. rewrite ER in E. cbn [fmap option_fmap option_map] in E. rewrite bool_decide_false in E by done. erewrite dbM_step in E by done. destruct (receiver_accepts b allow st) as [[]|e].
    + rewrite bool_decide_false in E by (by intros []). destruct r as [[]|e]; [|apply transaction_Err in E as ->; unfold dest_row; rewrite ER; done]. apply transaction_Ok in E. apply dbM_bind_Ok in E as ([] & st1 & E1 & E).
      unfold insert_tx, tx_exists in E1. cbn [tr_id] in E1. rewrite ER, bool_decide_false in E1 by (by intros []). injection E1 as <-. injection E as <-.
      unfold dest_row, destination_committed, tx_state. unfold tx_row in *. cbn. rewrite first_row_snoc, ER. unfold tx_is. cbn. rewrite bool_decide_true by done. cbn. split; [by intros ? [= <-]|done].
    + erewrite dbM_step in E by done. injection E as _ <-. unfold destination_committed, tx_state, dest_row. unfold tx_row in *. cbn. rewrite ER. done.
Qed.

Lemma write_safe draws source limit d r d' : draws_wf draws -> ct_device_id source = source_id -> ct_verify_key source = source_key ->
  safe d -> at_dest (write_destination_slots_in draws source package passphrases limit) d = (r, d') ->
  safe d' /\ (r = Ok tt -> limit = None -> tx_state tx (si_db (dest_site d')) = Some Writing /\ forall e, e ∈ secrets -> slot_opens passphrases (dev_to d') e).
Proof.
  intros Hdraws Hi Hk HS E. pose proof (sf_placed _ HS) as [_ _ [HQ Ht] _ _ HSt]. pose proof E as E'. apply at_dest_run in E' as (E' & _).
  destruct (write_destination_any Q draws source package passphrases limit (dest_site d) _ _ b Hdraws HQ HSt ltac:(by apply Hopen) E') as (K & HT & HSt' & HM & HR & HO). split; [|done].
  assert (dest_row (si_db (dest_site d')) /\ destination_committed tx (si_db (dest_site d')) = destination_committed tx (si_db (dest_site d))) as [H1 H2].
  { destruct HR as [->|(row & row' & R1 & R2 & R3 & R4 & R5 & R6)]; [split; [apply HS|done]|]. destruct (sf_dest_row _ HS row R1) as [Hh Hr]. split; [|rewrite (committed_row _ _ R1), (committed_row _ _ R3), R4; by destruct R2 as [->| ->]].
    intros x Hx. rewrite R3 in Hx. injection Hx as <-. by rewrite R5, R6. }
  eapply dest_step; [done|done|exact HT|exact HSt'|done|unfold committed; by rewrite H2|].
  unfold committed. rewrite H2. intros X e He. destruct (sf_dest _ HS X e He) as [Y Z]. split; [by eapply slot_opens_mono|]. by rewrite (keys_same_possession _ _ _ K).
Qed.

Lemma commit_safe source allow d r d' : ct_device_id source = source_id -> ct_verify_key source = source_key ->
  safe d -> (committed d \/ forall e, e ∈ secrets -> slot_opens passphrases (dev_to d) e) ->
  at_dest (dest ← container; on_db (commit_destination_rows source dest package allow)) d = (r, d') ->
  safe d' /\ (r = Ok tt -> committed d').
Proof.
  intros Hi Hk HS HO E. pose proof (pl_to _ (sf_placed _ HS)) as [_ Ht]. change (at_dest (dest ← container; on_db (commit_destination_rows source dest package allow)) d) with (at_dest (on_db (commit_destination_rows source (du_to d) package allow)) d) in E.
  pose proof E as E'. apply at_dest_run in E' as (E' & _). apply on_db_run in E' as [E' Edev]. fold (dev_to d) (dev_to d') in Edev. destruct r as [[]|e]; cycle 1.
  { apply commit_Err in E'. split; [|done]. eapply dest_db_step; [done|done|by rewrite E'|rewrite E'; apply HS|by rewrite E']. }
  pose proof (commit_keeps_hash _ _ _ _ _ _ _ E' (Hopen _ _ Hi Hk Ht)) as HH.
  destruct (commit_Ok _ _ _ _ _ _ b E' (Hopen _ _ Hi Hk Ht)) as [[Eq Est]|(Ew & Ec & HA & HP)].
  { assert (committed d) as Hc by (unfold committed, destination_committed; by rewrite Est). split; [|intros _; unfold committed; by rewrite Eq]. eapply dest_db_step; [done|done|by rewrite Eq|rewrite Eq; apply HS|by rewrite Eq]. }
  assert (committed d') as Hc' by (unfold committed, destination_committed; by rewrite Ec). split; [|done].
  assert (~ committed d) as Hn by (unfold committed, destination_committed; by rewrite Ew). destruct HO as [?|HO]; [done|].
  eapply dest_step; [done|done|rewrite Edev; reflexivity|rewrite Edev; apply HS| |done|].
  - intros x Hx. rewrite Hx in HH. destruct (tx_row tx (si_db (dest_site d))) as [y|] eqn:EY; [|done]. cbn in HH. injection HH as E1 E2. rewrite E1, E2. by apply HS.
  - intros _ e He. rewrite Edev. split; [auto|]. by apply HP.
Qed.

Lemma acknowledge_cases st r st' : acknowledge tx st = (r, st') ->
  st' = st \/ exists row, tx_row tx st = Some row /\ tr_state row = DestinationCommitted /\ tx_row tx st' = Some (with_state Acknowledged row).
Proof.
  unfold acknowledge. intros E. destruct (tx_row tx st) as [row|] eqn:ER; cycle 1.
  { erewrite dbM_fail in E by (unfold query, tx_state; by rewrite ER). injection E as _ <-. by left. }
  erewrite dbM_step in E by (unfold query, tx_state; by rewrite ER). destruct (bool_decide (_ \/ _)); [injection E as _ <-; by left|]. case_bool_decide as Ec; cbn [negb] in E; [|injection E as _ <-; by left].
  right. exists row. split_and!; [done..|]. apply set_state_cases in E as [[? _]|(r0 & _ & R1 & R2)]; [congruence|]. congruence.
Qed.
Lemma acknowledge_safe d r d' : safe d -> at_dest (on_db (acknowledge tx)) d = (r, d') -> safe d'.
Proof.
  intros HS E. pose proof E as E'. apply at_dest_run in E' as (E' & _). apply on_db_run in E' as [E' _].
  destruct (acknowledge_cases _ _ _ E') as [Eq|(row & R1 & R2 & R3)]; [eapply dest_db_step; [done|done|by rewrite Eq|rewrite Eq; apply HS|by rewrite Eq]|].
  eapply dest_db_step; [done|done|eapply keys_active, keys_acknowledge, E'| |by rewrite (committed_row _ _ R1), (committed_row _ _ R3), R2].
  intros x Hx. rewrite R3 in Hx. injection Hx as <-. cbn. by apply HS.
Qed.

(** Computations on the destination that keep the transfer safe. *)
Definition dest_safe {B} (m : stM (Site S) B) : Prop := forall d r d', safe d -> at_dest m d = (r, d') -> safe d'.
Lemma dest_safe_bind {B D} (m : stM (Site S) B) (k : B -> stM (Site S) D) : dest_safe m -> (forall x, dest_safe (k x)) -> dest_safe (m ≫= k).
Proof.
  intros Hm Hk d r d' HS. rewrite at_dest_bind. unfold mbind, stM_bind. destruct (at_dest m d) as [[x|e] d1] eqn:E; [intros E'; eapply Hk; [|exact E']; by eapply Hm|]. intros [= _ <-]. by eapply Hm.
Qed.
Lemma dest_safe_read {B} (f : Site S -> result B) : dest_safe (fun s => (f s, s)).
Proof.
  intros d r d' HS E. enough (d' = d) as -> by done. unfold at_dest, zoom in E. injection E as _ <-. unfold put_dest, dest_site. by destruct d as [? [] ? [] ? ?].
Qed.

Definition write_commit draws source allow : stM (Site S) unit :=
  write_destination_slots_in draws source package passphrases None ≫= fun _ => dest ← container; on_db (commit_destination_rows source dest package allow).
Lemma write_commit_safe draws source allow : draws_wf draws -> ct_device_id source = source_id -> ct_verify_key source = source_key -> dest_safe (write_commit draws source allow).
Proof.
  intros Hdraws Hi Hk d r d' HS. unfold write_commit. rewrite at_dest_bind. unfold mbind at 1, stM_bind at 1. destruct (at_dest (write_destination_slots_in _ _ _ _ _) d) as [[[]|e] d1] eqn:E.
  - destruct (write_safe _ _ _ _ _ _ Hdraws Hi Hk HS E) as [HS1 HO]. intros E'. eapply (commit_safe source allow d1); [done..| |exact E']. right. by apply HO.
  - intros [= _ <-]. by destruct (write_safe _ _ _ _ _ _ Hdraws Hi Hk HS E).
Qed.
Lemma finish_accept_safe draws source allow : draws_wf draws -> ct_device_id source = source_id -> ct_verify_key source = source_key -> dest_safe (finish_accept draws source package passphrases allow tx).
Proof.
  intros Hdraws Hi Hk d r d' HS E. assert (dest_safe (write_commit draws source allow ≫= fun _ => on_db (acknowledge tx) ≫= fun _ => mret tx)) as H.
  { apply dest_safe_bind; [by apply write_commit_safe|]. intros _. apply dest_safe_bind; [intros d1 r1 d1'; apply acknowledge_safe|]. intros _. apply (dest_safe_read (fun _ => Ok tx)). }
  eapply H; [exact HS|]. rewrite <- E. apply at_dest_ext. unfold finish_accept, write_commit. rewrite !st_bind_assoc. unfold mbind, stM_bind. by destruct (write_destination_slots_in _ _ _ _ _ _) as [[]].
Qed.

Lemma resume_accept_safe draws allow state : draws_wf draws -> dest_safe (resume_accept draws source_id source_key package passphrases allow tx state).
Proof.
  intros Hdraws. unfold resume_accept. destruct state; try apply (dest_safe_read (fun _ => Ok tx)); try apply (dest_safe_read (fun _ => Err TransferReplay)).
  - by apply finish_accept_safe.
  - by apply finish_accept_safe.
  - apply dest_safe_bind; [intros d1 r1 d1'; apply acknowledge_safe|]. intros _. apply (dest_safe_read (fun _ => Ok tx)).
Qed.
(** The header a package authenticates to is that of the bundle it opens to. *)
Lemma header_id source dest header : ct_device_id source = source_id -> ct_verify_key source = source_key -> ct_device_id dest = dest_id -> authenticated_package package = Ok header -> ap_id header = tx.
Proof.
  intros H1 H2 H3 E. pose proof (Hopen _ _ H1 H2 H3) as ([W1 [_ W2] [_ W3] W4 _ _ _] & _ & body & sig & EB & Hs & Hl & EP & EV)%open_bundle_iff.
  unfold authenticated_package in E. rewrite (proj2 (split_package_iff package body sig)) in E by done. cbn [mbind result_bind] in E.
  destruct (take_header_body _ _ _ W1 W2 W3 W4 EB) as [rest EH]. rewrite EH in E. cbn [mbind result_bind] in E. by apply bind_Ok in E as (? & _ & [= <-]).
Qed.
Lemma accept_safe draws allow : draws_wf draws -> dest_safe (accept_package_in draws source_id source_key package passphrases allow).
Proof.
  intros Hdraws d r d' HS E. pose proof (pl_to _ (sf_placed _ HS)) as [_ Ht].
  assert (exists m : stM (Site S) bytes, dest_safe m /\ accept_package_in draws source_id source_key package passphrases allow (dest_site d) = m (dest_site d)) as (m & Hm & EQ); [|eapply Hm; [exact HS|]; by rewrite <- (at_dest_ext _ m d EQ)].
  unfold accept_package_in. destruct (authenticated_package package) as [header|e] eqn:EA; [|exists (fun s => (Err e, s)); split; [apply (dest_safe_read (fun _ => Err e))|done]].
  pose proof (header_id (verification_container source_id source_key) (du_to d) header eq_refl eq_refl Ht EA) as Eid. erewrite (st_step (st_try (Ok header))) by done. rewrite Eid.
  destruct (_ || _); [exists (fun s => (Err SignatureVerificationFailed, s)); split; [apply (dest_safe_read (fun _ => Err _))|done]|]. erewrite st_step by done.
  destruct (negb _); [exists (fun s => (Err SignatureVerificationFailed, s)); split; [apply (dest_safe_read (fun _ => Err _))|done]|]. erewrite st_step by done.
  destruct (tx_state tx (si_db (dest_site d))) as [state|]; [eexists; split; [by apply resume_accept_safe|done]|].
  exists ((dest ← container; on_db (stage_destination (verification_container source_id source_key) dest package allow)) ≫= fun _ => finish_accept draws (verification_container source_id source_key) package passphrases allow tx).
  split; [|done]. apply dest_safe_bind; [intros d1 r1 d1'; by apply stage_safe|]. intros _. by apply finish_accept_safe.
Qed.

(** *** Giving up the source's copy *)

Lemma at_source_ask {B} (f : Store -> result B) d : at_source (ask f) d = (f (si_db (source_site d)), d).
Proof. unfold at_source, zoom, ask. by destruct d. Qed.
Lemma at_dest_ask {B} (f : Store -> result B) d : at_dest (ask f) d = (f (si_db (dest_site d)), d).
Proof. unfold at_dest, zoom, ask, put_dest, dest_site. by destruct d as [? [] ? [] ? ?]. Qed.

(** Computations on both sides that keep a predicate, whatever they return. *)
Definition keeps {B} (R : Duo S -> Prop) (m : stM (Duo S) B) : Prop := forall d r d', R d -> m d = (r, d') -> R d'.
Lemma keeps_bind {B D} R (m : stM (Duo S) B) (k : B -> stM (Duo S) D) : keeps R m -> (forall x, keeps R (k x)) -> keeps R (m ≫= k).
Proof.
  intros Hm Hk d r d' HR. unfold mbind, stM_bind. destruct (m d) as [[x|e] d1] eqn:E; [intros E'; eapply Hk; [|exact E']; by eapply Hm|]. intros [= _ <-]. by eapply Hm.
Qed.
Lemma keeps_read {B} R (f : Duo S -> result B) : keeps R (fun d => (f d, d)).
Proof. by intros d r d' HR [= _ <-]. Qed.
Lemma keeps_ask_source {B} R (f : Store -> result B) : keeps R (at_source (ask f)).
Proof. intros d r d' HR. rewrite at_source_ask. by intros [= _ <-]. Qed.
Lemma keeps_ask_dest {B} R (f : Store -> result B) : keeps R (at_dest (ask f)).
Proof. intros d r d' HR. rewrite at_dest_ask. by intros [= _ <-]. Qed.
Lemma keeps_ignore {B} R (m : stM (Duo S) B) : keeps R m -> keeps R (st_ignore m).
Proof. intros H d r d' HR. unfold st_ignore. destruct (m d) as [x d1] eqn:E. intros [= _ <-]. by eapply H. Qed.
Lemma keeps_each {B} R (f : B -> stM (Duo S) unit) l : (forall x, keeps R (f x)) -> keeps R (st_each f l).
Proof. intros H. induction l as [|x l IH]; [apply (keeps_read R (fun _ => Ok tt))|]. apply keeps_bind; [apply H|]. by intros _. Qed.

Definition done_safe d : Prop := safe d /\ committed d.
(** The source's slots are gone, if they are to go. *)
Definition retiring d : Prop := done_safe d /\ (bd_operation b = Move -> forall e, e ∈ secrets -> slot (du_from d) (bn_label e) = None).

(** A statement on the source. *)
Lemma source_db_step {B} (m : dbM B) d r d' : safe d -> at_source (on_db m) d = (r, d') -> source_row (committed d) (si_db (source_site d')) ->
  (forall e, e ∈ secrets -> possession (bn_label e) (si_db (source_site d')) = Some Active \/ (bd_operation b = Move /\ committed d /\ slot (du_from d) (bn_label e) = None)) ->
  safe d' /\ (committed d' <-> committed d) /\ du_from d' = du_from d.
Proof.
  intros HS E HR HA. pose proof E as E'. apply at_source_run in E' as (E' & _). apply on_db_run in E' as [_ Edev]. fold (dev_from d) (dev_from d') in Edev.
  assert (du_from d' = du_from d) as Ef by (by injection Edev). cut (safe d' /\ (committed d' <-> committed d)); [tauto|].
  eapply source_step; [done|done|rewrite Edev; reflexivity|rewrite Edev; apply HS|done|rewrite Edev; apply HS|by rewrite Ef].
Qed.
Lemma source_row_mono (X Y : Prop) st : (X -> Y) -> source_row X st -> source_row Y st.
Proof. intros H (row & R1 & R2 & R3 & R4 & R5). exists row. split_and!; auto. Qed.
Lemma source_keys_step {B} (m : dbM B) d r d' : safe d -> at_source (on_db m) d = (r, d') -> source_row (committed d) (si_db (source_site d')) -> keys_same (si_db (source_site d)) (si_db (source_site d')) ->
  safe d' /\ (committed d' <-> committed d) /\ du_from d' = du_from d.
Proof.
  intros HS E HR HK. eapply source_db_step; [done|done|done|]. intros e He. rewrite (keys_same_possession _ _ _ HK). by apply HS.
Qed.
Lemma source_set_state s st r st' X : set_state tx s st = (r, st') -> source_row X st -> (s = SourceFinalized \/ s = Completed -> X) -> source_row X st'.
Proof.
  intros E (row & R1 & R2 & R3 & R4 & R5) Hx. apply set_state_cases in E as [[? _]|(r0 & _ & E0 & E1)]; [congruence|]. exists (with_state s row). replace r0 with row in E1 by congruence. by split_and!.
Qed.

Lemma scrub_safe d r d' : done_safe d -> at_source (scrub_moved_slots tx) d = (r, d') -> done_safe d' /\ (r = Ok tt -> retiring d').
Proof.
  intros [HS HC] E. pose proof (sf_source_row _ HS) as (row & R1 & R2 & R3 & R4 & R5). pose proof E as E'. apply at_source_run in E' as (E' & _).
  pose proof (scrub_run P tx _ _ _ _ R1 E') as X. rewrite R3 in X. destruct (bd_operation b) eqn:EO.
  - assert (safe d' /\ (committed d' <-> committed d)) as [H1 H2].
    { eapply source_step; [done|done|..]; unfold dev_from; rewrite X; [reflexivity|apply HS|by exists row; rewrite R3, EO|intros _; apply HS; by right|]. intros e He. left. destruct (sf_active _ HS e He) as [?|[? _]]; [done|congruence]. }
    split; [by split; [|apply H2]|]. intros _. split; [by split; [|apply H2]|congruence].
  - destruct X as [(X1 & X2 & X3 & X4) X5]. assert (safe d' /\ (committed d' <-> committed d)) as [H1 H2].
    { eapply source_step; [done|done|exact X2|apply X3, HS|rewrite X1; by exists row; rewrite R3, EO|intros [?|?]; [done|congruence]|]. intros e He. rewrite X1. destruct (sf_active _ HS e He) as [?|(? & ? & HN)]; [by left|right; split_and!; [done..|]]. by apply X4. }
    split; [by split; [|apply H2]|]. intros ->. split; [by split; [|apply H2]|]. intros _ e He. apply X5; [done|]. rewrite R4. by apply list_elem_of_fmap_2.
Qed.

Lemma retire_label_keeps own peer label : keeps retiring (at_source (on_db (retire_label own peer (bd_operation b) label))).
Proof.
  intros d r d' [[HS HC] HN] E. pose proof E as E'. apply at_source_run in E' as (E' & _). apply on_db_run in E' as [E' _].
  destruct (source_db_step _ _ _ _ HS E) as (H1 & H2 & H3).
  - pose proof (retire_label_tx _ _ _ _ _ _ _ E') as X. destruct (sf_source_row _ HS) as (row & R). exists row. by rewrite (tx_same_row _ _ _ X).
  - intros e He. destruct (bd_operation b) eqn:EO; [|right; auto]. left. rewrite (keys_same_possession _ _ _ (retire_label_copy _ _ _ _ _ _ E')). destruct (sf_active _ HS e He) as [?|[? _]]; [done|congruence].
  - split; [by split; [|apply H2]|]. intros X e He. rewrite H3. auto.
Qed.

(** What the destination is told leaves its slots, transactions and active keys. *)
Definition told (s s' : Site S) : Prop := si_dev s' = si_dev s /\ active_kept (si_db s) (si_db s') /\ tx_same (si_db s) (si_db s').
#[local] Instance told_preorder : PreOrder told.
Proof. split; [by intros s|]. intros s1 s2 s3 (H1 & H2 & H3) (G1 & G2 & G3). split_and!; [congruence|by etransitivity..]. Qed.
Lemma told_db {B} (m : dbM B) : respects active_kept m -> respects tx_same m -> st_respects told (on_db m).
Proof. intros H1 H2 s r s' [E ED]%on_db_run. split_and!; [done|by eapply H1|by eapply H2]. Qed.
Lemma tell_dest_told own peer o id target : st_respects told (tell_dest own peer o id target).
Proof.
  assert (forall i x y, st_respects told (on_db (upsert_provenance i x y))) as H by (intros; apply told_db; [apply respects_keys_active, keys_provenance|apply tx_same_provenance]).
  unfold tell_dest. apply st_respects_bind; [apply _|apply st_respects_ignore, told_db; [apply set_generation_active|apply tx_same_generation]|]. intros _.
  apply st_respects_bind; [apply _|by apply st_respects_ignore|]. intros _. by apply st_respects_ignore.
Qed.
Lemma told_keeps {B} (m : stM (Site S) B) : st_respects told m -> keeps retiring (at_dest m).
Proof.
  intros Hm d r d' [[HS HC] HN] E. pose proof E as E'. apply at_dest_run in E' as (E' & _ & _ & _ & Ef). destruct (Hm _ _ _ E') as (ED & HA & HT). fold (dev_to d) (dev_to d') in ED.
  assert (committed d') as HC' by (unfold committed, destination_committed, tx_state; by rewrite (tx_same_row _ _ _ HT)). split; [split; [|done]|by rewrite Ef].
  eapply dest_step; [done|done|rewrite ED; reflexivity|rewrite ED; apply HS|intros x; rewrite (tx_same_row _ _ _ HT); apply HS|done|].
  intros _ e He. rewrite ED. destruct (sf_dest _ HS HC e He) as [? ?]. auto.
Qed.

Lemma finalized_audit_keeps own peer root o mode detail labels : keeps retiring (at_source (on_db (finalized_audit tx own peer root o mode detail labels))).
Proof.
  intros d r d' [[HS HC] HN] E. pose proof E as E'. apply at_source_run in E' as (E' & _). apply on_db_run in E' as [E' _].
  destruct (source_keys_step _ _ _ _ HS E) as (H1 & H2 & H3); [|eapply keys_finalized_audit, E'|split; [by split; [|apply H2]|by rewrite H3]].
  unfold finalized_audit in E'. destruct (set_state tx SourceFinalized (si_db (source_site d))) as [[[]|x] st1] eqn:E1; cycle 1.
  { rewrite (dbM_fail _ _ _ _ _ E1) in E'. injection E' as _ E'. unfold source_site; cbn [si_db]; rewrite <- E'. by eapply source_set_state; [exact E1|apply HS|]. }
  rewrite (dbM_step _ _ _ _ _ E1) in E'. erewrite dbM_step in E' by done. injection E' as _ E'. unfold source_site; cbn [si_db]; rewrite <- E'.
  pose proof (source_set_state _ _ _ _ (committed d) E1 (sf_source_row _ HS) ltac:(done)) as (row & R). by exists row.
Qed.
Lemma source_transaction_keeps {B} (m : stM (Duo S) B) : keeps retiring m -> keeps retiring (source_transaction m).
Proof.
  intros Hm d r d' HR. unfold source_transaction. destruct (m d) as [[x|e] d1] eqn:E; intros [= _ <-]; [by eapply Hm|]. destruct (Hm _ _ _ HR E) as [[HS1 HC1] HN1], HR as [[HS HC] _].
  destruct (source_db_step (fun _ => (Ok tt, du_db d)) d1 (Ok tt) (set_source_db (du_db d) d1) HS1 eq_refl) as (H1 & H2 & H3).
  - eapply source_row_mono; [|apply (sf_source_row _ HS)]. done.
  - intros e' He'. destruct (sf_active _ HS e' He') as [?|(? & ? & ?)]; [by left|right; auto].
  - split; [by split; [|apply H2]|]. by rewrite H3.
Qed.

Lemma retire_safe d r d' : safe d -> retire_source_material tx d = (r, d') -> safe d' /\ (r = Ok tt -> done_safe d').
Proof.
  intros HS E. unfold retire_source_material in E. destruct (sf_source_row _ HS) as (row & R1 & R2 & R3 & R4 & R5).
  destruct (tx_row tx (si_db (dest_site d))) as [row'|] eqn:ED; [|erewrite st_fail in E by (rewrite at_dest_ask; unfold tx_state; by rewrite ED); by injection E as <- <-].
  erewrite st_step in E by (rewrite at_dest_ask; unfold tx_state; by rewrite ED). destruct (committed_state (tr_state row')) eqn:EC; cbn [negb] in E; [|by injection E as <- <-].
  assert (committed d) as HC by (unfold committed; by rewrite (committed_row _ _ ED)). destruct (sf_dest_row _ HS row' ED) as [Hh _].
  erewrite st_step in E by (rewrite at_source_ask; unfold tx_hash; by rewrite R1). erewrite st_step in E by (rewrite at_dest_ask; unfold tx_hash; by rewrite ED). rewrite bool_decide_true in E by congruence. cbn [negb] in E.
  erewrite st_step in E by (rewrite at_source_ask; unfold tx_operation; by rewrite R1). erewrite st_step in E by (rewrite at_source_ask; unfold tx_detail; by rewrite R1). erewrite st_step in E by (rewrite at_source_ask; unfold tx_root; by rewrite R1).
  rewrite R3 in E.
  assert (forall f : DescendantMode -> stM (Duo S) unit, (forall m, keeps done_safe (f m)) -> (at_source (ask (tx_mode tx)) ≫= f) d = (r, d') -> done_safe d') as Hmode.
  { intros f Hf X. eapply (keeps_bind done_safe); [apply keeps_ask_source|exact Hf|by split|exact X]. }
  enough (done_safe d') by (split; [by apply H|done]). eapply Hmode; [|exact E]. intros mode. apply keeps_bind; [apply keeps_ask_source|]. intros peer d1 r1 d1' H1 E1.
  destruct (at_source (scrub_moved_slots tx) d1) as [[[]|x] d2] eqn:E2; [|rewrite (st_fail _ _ _ _ _ E2) in E1; injection E1 as _ <-; exact (proj1 (scrub_safe _ _ _ H1 E2))]. rewrite (st_step _ _ _ _ _ E2) in E1.
  destruct (scrub_safe _ _ _ H1 E2) as [_ H2]. eapply (keeps_bind retiring) in E1; [apply E1| | |by apply H2].
  - intros d3 r3 d3' H3 E3. unfold at_source, zoom in E3. by destruct d3; injection E3 as _ <-.
  - intros own. apply source_transaction_keeps, keeps_bind; [|intros _; apply finalized_audit_keeps]. apply keeps_each. intros label. apply keeps_bind; [apply retire_label_keeps|]. intros [id target]. apply told_keeps, tell_dest_told.
Qed.

(** *** Finishing, aborting and recovering *)

(** Once the transfer is committed on the destination, a state that says so may be set on either side. *)
Lemma set_dest_keeps s : committed_state s = true -> keeps done_safe (at_dest (on_db (set_state tx s))).
Proof.
  intros Hs d r d' [HS HC] E. pose proof E as E'. apply at_dest_run in E' as (E' & _). apply on_db_run in E' as [E' _]. pose proof (keys_set_state _ _ _ _ _ E') as HK.
  destruct (committed_Some _ HC) as (row & R1 & R2). apply set_state_cases in E' as [[? _]|(r0 & _ & E0 & E1)]; [congruence|]. replace r0 with row in * by congruence.
  assert (committed d') as HC' by (unfold committed; by rewrite (committed_row _ _ E1)). split; [|done].
  eapply dest_db_step; [done|done|by apply keys_active|intros x Hx; rewrite E1 in Hx; injection Hx as <-; cbn; by apply HS|]. unfold committed in *. congruence.
Qed.
Lemma set_source_keeps s : keeps done_safe (at_source (on_db (set_state tx s))).
Proof.
  intros d r d' [HS HC] E. pose proof E as E'. apply at_source_run in E' as (E' & _). apply on_db_run in E' as [E' _].
  destruct (source_keys_step _ _ _ _ HS E) as (H1 & H2 & _); [by eapply source_set_state; [exact E'|apply HS|]|by eapply keys_set_state|]. split; [done|by apply H2].
Qed.

Lemma completed_committed d s : safe d -> tx_state tx (si_db (source_site d)) = Some s -> s = SourceFinalized \/ s = Completed -> committed d.
Proof. intros HS E Hs. destruct (sf_source_row _ HS) as (row & R1 & _ & _ & _ & R5). unfold tx_state in E. rewrite R1 in E. injection E as <-. auto. Qed.
Lemma source_state_Some d : safe d -> exists s, tx_state tx (si_db (source_site d)) = Some s.
Proof. intros HS. destruct (sf_source_row _ HS) as (row & R1 & _). unfold tx_state. rewrite R1. by eexists. Qed.

Lemma finalize_safe : keeps safe (finalize_source_in tx).
Proof.
  intros d r d' HS E. unfold finalize_source_in in E. destruct (source_state_Some d HS) as [s Es]. erewrite st_step in E by (rewrite at_source_ask; by rewrite Es).
  case_bool_decide as Hc; [by injection E as _ <-|].
  assert (keeps done_safe (st_ignore (at_dest (on_db (set_state tx Completed))) ≫= fun _ => at_source (on_db (set_state tx Completed)))) as Hend.
  { apply keeps_bind; [by apply keeps_ignore, set_dest_keeps|]. intros _. apply set_source_keeps. }
  assert (forall m : stM (Duo S) unit, (forall x d1, m d = (x, d1) -> safe d1 /\ (x = Ok tt -> done_safe d1)) ->
    (m ≫= fun _ => st_ignore (at_dest (on_db (set_state tx Completed))) ≫= fun _ => at_source (on_db (set_state tx Completed))) d = (r, d') -> safe d') as H.
  { intros m Hm X. destruct (m d) as [[[]|x] d1] eqn:E1; destruct (Hm _ _ eq_refl) as [H1 H2]; [|rewrite (st_fail _ _ _ _ _ E1) in X; by injection X as _ <-]. rewrite (st_step _ _ _ _ _ E1) in X. eapply Hend; [|exact X]. auto. }
  eapply H; [|exact E]. intros x d1 E1. case_bool_decide as Hf; cbn [negb] in E1; [|exact (retire_safe _ _ _ HS E1)].
  destruct (scrub_safe d x d1) as [[H1 H1'] _]; [split; [done|by eapply completed_committed; [done|exact Es|left]]|done|by split].
Qed.

(** Aborting touches the destination only while nothing is committed there. *)
Lemma remove_installed_safe l : keeps (fun d => safe d /\ ~ committed d) (at_dest (st_each remove_if l)).
Proof.
  intros d r d' [HS HC] E. pose proof E as E'. apply at_dest_run in E' as (E' & _). destruct (remove_all_scrubs Q _ _ _ _ E') as (X1 & X2 & X3 & _).
  assert (committed d' <-> committed d) as H by (unfold committed; by rewrite X1). split; [|by rewrite H].
  eapply dest_step; [done|done|exact X2|apply X3, HS|rewrite X1; apply HS|by rewrite H|by rewrite H].
Qed.
Lemma abort_dest_safe : keeps (fun d => safe d /\ ~ committed d) (at_dest (on_db (set_state tx Aborted))).
Proof.
  intros d r d' [HS HC] E. pose proof E as E'. apply at_dest_run in E' as (E' & _). apply on_db_run in E' as [E' _]. pose proof (keys_set_state _ _ _ _ _ E') as HK.
  assert (dest_row (si_db (dest_site d')) /\ destination_committed tx (si_db (dest_site d')) = false) as [H1 H2].
  { apply set_state_cases in E' as [[_ ->]|(row & _ & E0 & E1)]; [split; [apply HS|by apply not_true_is_false]|]. split; [intros x Hx; rewrite E1 in Hx; injection Hx as <-; cbn; by apply HS|by rewrite (committed_row _ _ E1)]. }
  split; [|unfold committed; by rewrite H2]. eapply dest_db_step; [done|done|by apply keys_active|done|]. rewrite H2. symmetry. by apply not_true_is_false.
Qed.
Lemma abort_source_safe : keeps (fun d => safe d /\ ~ committed d) (at_source (on_db (set_state tx Aborted))).
Proof.
  intros d r d' [HS HC] E. pose proof E as E'. apply at_source_run in E' as (E' & _). apply on_db_run in E' as [E' _].
  destruct (source_keys_step _ _ _ _ HS E) as (H1 & H2 & _); [eapply source_set_state; [exact E'|apply HS|by intros [|]]|by eapply keys_set_state|]. split; [done|by rewrite H2].
Qed.
Lemma abort_safe : keeps safe (abort_transfer_in tx).
Proof.
  intros d r d' HS E. unfold abort_transfer_in in E. erewrite st_step in E by (by rewrite at_dest_ask). destruct (destination_committed tx (si_db (dest_site d))) eqn:EC; [by injection E as _ <-|].
  assert (safe d /\ ~ committed d) as H by (split; [done|unfold committed; by rewrite EC]). clear HS EC. cut (safe d' /\ ~ committed d'); [by intros []|]. revert d r d' H E. fold remove_if.
  match goal with |- forall d r d', _ -> ?m d = _ -> _ => change (keeps (fun d => safe d /\ ~ committed d) m) end.
  apply keeps_bind; [apply keeps_ask_dest|]. intros detail. apply keeps_bind.
  - destruct detail as [detail|]; [|apply (keeps_read _ (fun _ => Ok tt))]. apply keeps_bind; [apply remove_installed_safe|]. intros _. apply abort_dest_safe.
  - intros _. apply keeps_bind; [apply keeps_ask_source|]. intros []; [|apply (keeps_read _ (fun _ => Ok tt))]. apply keeps_bind; [apply keeps_ask_source|]. intros state.
    case_bool_decide; [apply abort_source_safe|apply (keeps_read _ (fun _ => Ok tt))].
Qed.

Lemma recover_safe : keeps safe (recover_pair_in tx).
Proof.
  intros d r d' HS E. unfold recover_pair_in in E. destruct (sf_source_row _ HS) as (row & R1 & R2 & _ & _ & R5).
  erewrite st_step in E by (rewrite at_source_ask; unfold tx_state; by rewrite R1). erewrite st_step in E by (by rewrite at_dest_ask).
  assert (forall k : bool -> stM (Duo S) Recovery, (match tx_state tx (si_db (dest_site d)) with
    | Some _ => source_hash ← at_source (ask (tx_hash tx)); dest_hash ← at_dest (ask (tx_hash tx)); mret (negb (bool_decide (source_hash = dest_hash))) | None => mret false end ≫= k) d = k false d) as Hsame.
  { intros k. unfold tx_state. destruct (tx_row tx (si_db (dest_site d))) as [row'|] eqn:ED; [|done]. cbn [fmap option_fmap option_map]. apply st_step. erewrite st_step by (rewrite at_source_ask; unfold tx_hash; by rewrite R1).
    erewrite st_step by (rewrite at_dest_ask; unfold tx_hash; by rewrite ED). destruct (sf_dest_row _ HS row' ED) as [Hh _]. cbn. by rewrite R2, Hh, bool_decide_true by done. }
  rewrite Hsame in E. assert (forall x : Recovery, keeps safe (finalize_source_in tx ≫= fun _ => mret x)) as HF by (intros x; apply keeps_bind; [apply finalize_safe|]; intros _; apply (keeps_read _ (fun _ => Ok x))).
  assert (keeps safe (if match tx_state tx (si_db (dest_site d)) with Some s => committed_state s | None => false end then finalize_source_in tx ≫= fun _ => mret RecFinalized else abort_transfer_in tx ≫= fun _ => mret RecAborted)) as HO.
  { generalize (match tx_state tx (si_db (dest_site d)) with Some s => committed_state s | None => false end). intros []; [apply HF|]. apply keeps_bind; [apply abort_safe|]. intros _. apply (keeps_read _ (fun _ => Ok RecAborted)). }
  destruct (tr_state row) eqn:ES; try (by eapply HO); try (by eapply HF).
  - (* Completed *) assert (committed d) as HC by auto. eapply (keeps_bind done_safe) in E; [apply E| |intros _; apply (keeps_read _ (fun _ => Ok RecAlreadyComplete))|by split]. destruct (tx_state tx (si_db (dest_site d))); [by apply keeps_ignore, set_dest_keeps|apply (keeps_read _ (fun _ => Ok tt))].
  - by injection E as _ <-.
Qed.

(** *** Finishing on the destination's word *)

Lemma at_source_bind {B D} (m : stM (Site S) B) (k : B -> stM (Site S) D) d : at_source (m ≫= k) d = (at_source m ≫= fun x => at_source (k x)) d.
Proof.
  unfold at_source, zoom, mbind, stM_bind. destruct (m (source_site d)) as [[x|e] [st [dk c]]]; [|done]. by destruct (k x _) as [y s2].
Qed.
Lemma keeps_source_bind {B D} R (m : stM (Site S) B) (k : B -> stM (Site S) D) : keeps R (at_source m) -> (forall x, keeps R (at_source (k x))) -> keeps R (at_source (m ≫= k)).
Proof. intros Hm Hk d r d' HR. rewrite at_source_bind. by apply (keeps_bind R _ _ Hm Hk). Qed.
Lemma keeps_source_read {B} R (f : Site S -> result B) : keeps R (at_source (fun s => (f s, s))).
Proof. intros d r d' HR E. unfold at_source, zoom in E. destruct d. by injection E as _ <-. Qed.

Definition retires (st st' : Store) : Prop := (source_row True st -> source_row True st') /\ (bd_operation b = Copy -> keys_same st st').
#[local] Instance retires_preorder : PreOrder retires.
Proof. split; [by intros st|]. intros st1 st2 st3 [H1 H2] [G1 G2]. split; [auto|]. intros X. etransitivity; auto. Qed.
Lemma retires_state s : respects retires (set_state tx s).
Proof. intros st r st' E. split; [intros H; by eapply source_set_state|intros _; by eapply keys_set_state]. Qed.
Lemma retires_label own peer label : respects retires (retire_label own peer (bd_operation b) label).
Proof.
  intros st r st' E. split; [intros (row & R); exists row; by rewrite (tx_same_row _ _ _ (retire_label_tx _ _ _ _ _ _ _ E))|]. intros X. rewrite X in E. by eapply retire_label_copy.
Qed.
Lemma retires_audit t o x y k p m z w : respects retires (write_audit t o x y k p m z w).
Proof. intros st r st' E. split; [|intros _; by eapply keys_audit]. intros (row & R). exists row. by rewrite (tx_same_row _ _ _ (tx_same_audit _ _ _ _ _ _ _ _ _ _ _ _ E)). Qed.
Lemma retires_finalized own peer root o mode detail labels : respects retires (finalized_audit tx own peer root o mode detail labels).
Proof. pose proof retires_state. pose proof retires_audit. unfold finalized_audit. frame. Qed.
Lemma retires_keeps {B} (m : dbM B) : respects retires m -> keeps retiring (at_source (on_db (transaction m))).
Proof.
  intros Hm d r d' [[HS HC] HN] E. pose proof E as E'. apply at_source_run in E' as (E' & _). apply on_db_run in E' as [E' _].
  assert (retires (si_db (source_site d)) (si_db (source_site d'))) as [H1 H2] by (destruct r as [x|e]; [apply transaction_Ok in E'; by eapply Hm|apply transaction_Err in E'; by rewrite E']).
  destruct (source_db_step _ _ _ _ HS E) as (G1 & G2 & G3).
  - eapply source_row_mono; [|apply H1; eapply source_row_mono; [|apply (sf_source_row _ HS)]]; done.
  - intros e He. destruct (bd_operation b) eqn:EO; [|right; auto]. left. rewrite (keys_same_possession _ _ _ (H2 eq_refl)). destruct (sf_active _ HS e He) as [?|[? _]]; [done|congruence].
  - split; [by split; [|apply G2]|]. by rewrite G3.
Qed.

Lemma scrub_keeps : keeps done_safe (at_source (scrub_moved_slots tx)).
Proof. intros d r d' H E. exact (proj1 (scrub_safe _ _ _ H E)). Qed.
Lemma after_ack_safe ack : keeps done_safe (at_source (finalize_after_ack_in tx ack)).
Proof.
  intros d r d' H E. pose proof H as [HS _]. destruct (sf_source_row _ HS) as (row & R1 & R2 & R3 & R4 & _).
  assert (exists m : stM (Site S) unit, keeps done_safe (at_source m) /\ finalize_after_ack_in tx ack (source_site d) = m (source_site d)) as (m & Hm & EQ); [|eapply Hm; [exact H|]; unfold at_source, zoom in *; by rewrite <- EQ].
  unfold finalize_after_ack_in. erewrite st_step by (unfold ask, tx_state; by rewrite R1).
  destruct (tr_state row); try (exists (fun s => (Err TransferIncomplete, s)); split; [apply (keeps_source_read _ (fun _ => Err _))|done]).
  - erewrite st_step by (unfold ask, tx_hash; by rewrite R1). case_bool_decide; cbn [negb]; cycle 1.
    { eexists; split; [|done]. apply keeps_source_bind; [apply set_source_keeps|]. intros _. apply (keeps_source_read _ (fun _ => Err _)). }
    erewrite st_step by (unfold ask, tx_operation; by rewrite R1). erewrite st_step by (unfold ask, tx_detail; by rewrite R1). rewrite R3. eexists; split; [|done].
    do 3 (apply keeps_source_bind; [apply keeps_ask_source|]; intros ?). intros d1 r1 d1' H1. rewrite at_source_bind. unfold mbind at 1, stM_bind at 1.
    destruct (at_source (scrub_moved_slots tx) d1) as [[[]|e] d2] eqn:E2; destruct (scrub_safe _ _ _ H1 E2) as [G1 G2]; [|by intros [= _ <-]]. specialize (G2 eq_refl). intros E1.
    eapply (keeps_source_bind retiring) in E1; [apply E1|apply (keeps_source_read _ (fun s => Ok _))| |exact G2]. intros c. apply retires_keeps. pose proof retires_state. pose proof retires_label. pose proof retires_finalized.
    apply respects_bind; [apply _|apply respects_each; [apply _|]; intros label; apply respects_bind; [apply _|done|]; intros; apply respects_ret, _|]. intros _. apply respects_bind; [apply _|done|]. by intros _.
  - eexists; split; [|done]. apply keeps_source_bind; [apply scrub_keeps|]. intros _. apply set_source_keeps.
  - exists (fun s => (Ok tt, s)). split; [apply (keeps_source_read _ (fun _ => Ok tt))|done].
Qed.
End safety.

(** ** Preparing a transfer *)

Lemma mapM_Ok {B D} (f : B -> result D) l k : mapM f l = Ok k -> Forall2 (fun x y => f x = Ok y) l k.
Proof.
  revert k; induction l as [|x l IH]; intros k E; cbn in E; [by injection E as <-|]. apply bind_Ok in E as (y & Ey & E). apply bind_Ok in E as (k' & Ek & [= <-]). constructor; auto.
Qed.

(** The labels a store knows. *)
Definition known (st : Store) : list bytes := map ir_label (tt_identities (st_transfer st)).
Lemma children_known label st l : l ∈ children_of label st -> l ∈ known st.
Proof.
  unfold children_of, known. intros (i & -> & [_ Hi]%list_elem_of_filter)%list_elem_of_fmap_1. apply list_elem_of_fmap_2. unfold by_label in Hi. by rewrite merge_sort_Permutation in Hi.
Qed.
Lemma descendants_known fuel st queue out all : descendants_loop fuel st queue out = Ok all -> Forall (fun l => l ∈ known st) queue -> Forall (fun l => l ∈ known st) out -> Forall (fun l => l ∈ known st) all.
Proof.
  revert queue out; induction fuel as [|fuel IH]; intros queue out E Hq Ho; [done|]. cbn in E. destruct (reverse queue) as [|x rest] eqn:ER; [by injection E as <-|].
  assert (Forall (fun l => l ∈ known st) (x :: rest)) as Hr by (rewrite <- ER; by apply Forall_reverse). apply Forall_cons_1 in Hr as [Hx Hr].
  apply (IH _ _ E); apply Forall_app; split; try done; [by apply Forall_reverse|apply Forall_forall; intros l; apply children_known|by constructor].
Qed.
Lemma descendants_of_known label st all : descendants_of label st = Ok all -> Forall (fun l => l ∈ known st) all.
Proof. intros E. eapply descendants_known; [exact E| |constructor]. apply Forall_forall. intros l. apply children_known. Qed.

(** A row names its parent. *)
Definition child (st : Store) (p c : bytes) : Prop := exists i, i ∈ tt_identities (st_transfer st) /\ ir_label i = c /\ ir_parent i = Some p.
Lemma children_child label st c : c ∈ children_of label st <-> child st label c.
Proof.
  unfold children_of, child, by_label. rewrite list_elem_of_fmap. setoid_rewrite list_elem_of_filter. setoid_rewrite merge_sort_Permutation. naive_solver.
Qed.
(** Labels are unique, and a parent's label is shorter than its child's. *)
Definition tree_wf (st : Store) : Prop := NoDup (known st) /\ forall p c, child st p c -> length p < length c.
Lemma children_NoDup label st : NoDup (known st) -> NoDup (children_of label st).
Proof.
  intros H. unfold children_of. change (NoDup (ir_label <$> filter (fun i => ir_parent i = Some label) (by_label st))). eapply sublist_NoDup; [|apply fmap_sublist, sublist_filter].
  unfold by_label. by rewrite merge_sort_Permutation.
Qed.
Lemma child_unique st p q c : NoDup (known st) -> child st p c -> child st q c -> p = q.
Proof.
  intros HN (i & Hi & Ei & Pi) (j & Hj & Ej & Pj). assert (i = j) as ->; [|congruence]. apply list_elem_of_lookup in Hi as [n Hn], Hj as [m Hm].
  assert (n = m) as ->; [|congruence]. eapply NoDup_lookup; [exact HN| |]; unfold known; change (map ir_label) with (fmap (M := list) ir_label); rewrite list_lookup_fmap, ?Hn, ?Hm; cbn; by rewrite ?Ei, ?Ej.
Qed.

(** The loop's invariant: what is queued or out descends from the root, once, and
    the children of what is out are queued or out. *)
Record descent (st : Store) (root : bytes) (queue out : list bytes) : Prop := {
  wk_once : NoDup (out ++ queue);
  wk_below l : l ∈ out ++ queue -> tc (child st) root l;
  wk_from l : l ∈ out ++ queue -> exists p, child st p l /\ (p = root \/ p ∈ out);
  wk_children p c : child st p c -> p = root \/ p ∈ out -> c ∈ out ++ queue;
}.
Lemma tc_longer st p c : tree_wf st -> tc (child st) p c -> length p < length c.
Proof. intros [_ H]. induction 1 as [p c Hc|p q c Hc _ IH]; apply H in Hc; lia. Qed.
Lemma descent_step st root front x out : tree_wf st -> descent st root (front ++ [x]) out -> descent st root (front ++ children_of x st) (out ++ [x]).
Proof.
  intros HT [H1 H2 H3 H4]. pose proof HT as [HN HL].
  assert (forall l, l ∈ (out ++ [x]) ++ front ++ children_of x st <-> l ∈ out ++ front ++ [x] \/ child st x l) as HI by (intros l; rewrite <- children_child; set_solver).
  assert (tc (child st) root x) as Hx by (apply H2; set_solver). split.
  - rewrite app_assoc. apply NoDup_app. split_and!; [|intros l Hl Hc%children_child|by apply children_NoDup].
    + by rewrite <- app_assoc, (Permutation_app_comm [x] front).
    + assert (l ∈ out ++ front ++ [x]) as Hl' by set_solver. destruct (H3 _ Hl') as (p & Hp & Hor). rewrite (child_unique _ _ _ _ HN Hp Hc) in Hor. destruct Hor as [->|Hout].
      * apply (tc_longer _ _ _ HT) in Hx. lia.
      * apply NoDup_app in H1 as (_ & H1 & _). apply (H1 _ Hout). set_solver.
  - intros l [Hl|Hl]%HI; [auto|]. by eapply tc_r.
  - intros l [Hl|Hl]%HI; [destruct (H3 _ Hl) as (p & Hp & [?|?]); exists p; split; set_solver|]. exists x. split; [done|set_solver].
  - intros p c Hc Hp. apply HI. destruct (decide (p = x)) as [->|Hne]; [by right|]. left. apply (H4 p); [done|]. set_solver.
Qed.
Lemma descent_ends st root fuel queue out : tree_wf st -> descent st root queue out -> S (length (known st)) = fuel + length out ->
  exists all, descendants_loop fuel st queue out = Ok all /\ descent st root [] all.
Proof.
  intros HT. revert queue out; induction fuel as [|fuel IH]; intros queue out HW Hf.
  - exfalso. assert (length out <= length (known st)); [|cbn in Hf; lia]. destruct HW as [H1 _ H3 _]. apply submseteq_length, NoDup_submseteq; [by apply NoDup_app in H1 as [? _]|].
    intros l Hl. destruct (H3 l) as (p & Hc & _); [set_solver|]. apply children_child in Hc. by eapply children_known.
  - cbn. destruct (reverse queue) as [|x rest] eqn:ER; [assert (queue = []) as -> by (by apply (f_equal reverse) in ER; rewrite reverse_involutive in ER); eauto|].
    assert (queue = reverse rest ++ [x]) as -> by (apply (f_equal reverse) in ER; by rewrite reverse_involutive, reverse_cons in ER). apply IH; [by apply descent_step|]. rewrite length_app. cbn. lia.
Qed.

(** C15: Collecting the descendants of a key ends, and lists every label below it once and
    nothing else, whenever labels are unique and a parent's label is shorter than its
    child's, as enrolment leaves them; the source's loop has no bound of its own. *)
Theorem descendants_exact label st : tree_wf st ->
  exists all, descendants_of label st = Ok all /\ NoDup all /\ forall l, l ∈ all <-> tc (child st) label l.
Proof.
  intros HT. destruct (descent_ends st label (S (length (tt_identities (st_transfer st)))) (children_of label st) []) as (all & E & [H1 H2 _ H4]); [done| |unfold known; rewrite length_map; cbn; lia|].
  { split; cbn; [apply children_NoDup, HT|intros l Hl%children_child; by apply tc_once|intros l Hl%children_child; eauto|intros p c Hc [->|?]; [by apply children_child|set_solver]]. }
  exists all. rewrite app_nil_r in H1. split_and!; [done..|]. intros l. split; [intros Hl; apply H2; by rewrite app_nil_r|]. intros Hl.
  revert l Hl. apply tc_ind_r; [intros c Hc|intros p c _ Hc IH]; specialize (H4 _ _ Hc); rewrite app_nil_r in H4; auto.
Qed.

Lemma identity_known label st row : identity_by_label label st = Some row -> row ∈ tt_identities (st_transfer st) /\ ir_label row = label.
Proof. intros E. unfold identity_by_label in E. apply first_row_Some in E as [H1 H2]. split; [done|]. by apply bool_decide_eq_true in H2. Qed.
Lemma possession_known label st x : possession label st = Some x -> label ∈ known st.
Proof. unfold possession. destruct (identity_by_label label st) as [row|] eqn:E; [|done]. intros _. apply identity_known in E as [H <-]. by apply list_elem_of_fmap_2. Qed.

(** What is exported: active keys, the root among them; and hints of known labels. *)
Lemma push_missing_known st secrets l hints : Forall (fun l => l ∈ known st) l -> Forall (fun l => l ∈ known st) hints -> Forall (fun l => l ∈ known st) (foldl (push_missing secrets) hints l).
Proof.
  intros Hl. revert hints. induction Hl as [|x l Hx Hl IH]; intros hints Hh; [done|]. cbn. apply IH. unfold push_missing. case_match; [done|]. apply Forall_app; split; [done|]. by constructor.
Qed.
Lemma select_export_Ok label mode st secrets hints : select_export label mode st = Ok (secrets, hints) ->
  label ∈ secrets /\ Forall (fun l => possession l st = Some Active) secrets /\ Forall (fun l => l ∈ known st) hints.
Proof.
  unfold select_export. intros E. apply bind_Ok in E as ([] & EA & E). apply bind_Ok in E as (below & EB & E). apply bind_Ok in E as (all & ED & [= <- <-]).
  assert (possession label st = Some Active) as Ha by (unfold require_active in EA; by destruct (possession label st) as [[]|]). split_and!; [by constructor| |].
  - constructor; [done|]. assert (forall l, Forall (fun l => possession l st = Some Active) (active_among l st)) as H by (intros l; apply Forall_forall; by intros x [? _]%list_elem_of_filter).
    destruct mode; [injection EB as <-; constructor|injection EB as <-; apply H|]. apply bind_Ok in EB as (? & _ & [= <-]). apply H.
  - apply push_missing_known.
    + apply Forall_app; split; [by eapply descendants_of_known|]. constructor; [by eapply possession_known|constructor].
    + apply Forall_forall. intros a [[[row Hrow] _] _]%list_elem_of_filter. apply identity_known in Hrow as [Hrow <-]. by apply list_elem_of_fmap_2.
Qed.

(** The identities of a store as the schema and the operations leave them. *)
Definition identity_wf `{Crypto} `{Hex} (i : IdentityRow) : Prop :=
  fixed 16 (ir_id i) /\ validate_slot_label (ir_label i) = Ok tt /\ option_Forall (fun p => validate_slot_label p = Ok tt) (ir_parent i) /\ fixed 32 (ir_enc_public i) /\ fixed 32 (ir_sign_public i) /\
  ir_enc_fingerprint i = fingerprint (ir_enc_public i) /\ text (ir_enc_fingerprint i) /\ ir_sign_fingerprint i = fingerprint (ir_sign_public i) /\ text (ir_sign_fingerprint i).
Definition catalog_wf `{Crypto} `{Hex} (st : Store) : Prop :=
  Forall identity_wf (tt_identities (st_transfer st)) /\ Forall (fun p => (1 <= po_generation p < i64_max)%N) (tt_possession (st_transfer st)).

Section prepare.
Context `{S : Storage} `{!StorageLaws S} `{C : Crypto} `{!CryptoLaws C} `{HX : Hex} `{A : Aead} `{!AeadLaws A}.
Implicit Types s : Site S.

Lemma catalog_row st label row : catalog_wf st -> identity_by_label label st = Some row -> identity_wf row /\ ir_label row = label.
Proof. intros [H _] [Hi El]%identity_known. rewrite Forall_forall in H. auto. Qed.
Lemma catalog_generation st id g : catalog_wf st -> generation_of id st = Ok g -> (1 <= g < i64_max)%N.
Proof.
  intros [_ H] E. unfold generation_of in E. apply ok_or_Ok in E. destruct (possession_row id st) as [p|] eqn:EP; [|done]. injection E as <-. apply first_row_Some in EP as [Hp _]. rewrite Forall_forall in H. auto.
Qed.
Lemma known_label st label : catalog_wf st -> label ∈ known st -> validate_slot_label label = Ok tt.
Proof. intros [H _] (i & -> & Hi)%list_elem_of_fmap_1. rewrite Forall_forall in H. by apply H. Qed.

Lemma export_secret_Ok passphrases s label e : catalog_wf (si_db s) -> sound (si_dev s) -> export_secret passphrases s label = Ok e ->
  entry_wf e /\ bn_label e = label /\ secret_entry e = true /\ slot_opens passphrases (si_dev s) e.
Proof.
  intros HC HS E. unfold export_secret in E. apply bind_Ok in E as (row & ER%ok_or_Ok & E). apply bind_Ok in E as (g & EG & E). apply bind_Ok in E as (pass & EP%ok_or_Ok & E). apply bind_Ok in E as (x & EO & E).
  destruct (_ || _) eqn:EB; [done|]. bool_hyps. injection E as <-. destruct (catalog_row _ _ _ HC ER) as [(I1 & I2 & I3 & I4 & I5 & I6 & I7 & I8 & I9) El]. pose proof (catalog_generation _ _ _ HC EG) as Hg.
  destruct (open_slot_genuine _ _ _ _ HS EO) as (Ex & G1 & G2 & _). pose proof (f_equal ss_encryption_public Ex) as Ex1. pose proof (f_equal ss_signing_public Ex) as Ex2. cbn in Ex1, Ex2.
  split_and!; [|done..|exists pass, x; by split_and!]. unfold entry_wf. cbn. subst label. split_and!; try done; try congruence; lia.
Qed.
Lemma export_hint_Ok s label e : catalog_wf (si_db s) -> export_hint s label = Ok (Some e) -> entry_wf e /\ secret_entry e = false.
Proof.
  intros HC E. unfold export_hint in E. destruct (identity_by_label label (si_db s)) as [row|] eqn:ER; [|done]. apply bind_Ok in E as (g & EG & [= <-]).
  destruct (catalog_row _ _ _ HC ER) as [(I1 & I2 & I3 & I4 & I5 & I6 & I7 & I8 & I9) El]. pose proof (catalog_generation _ _ _ HC EG) as Hg. split; [|done]. unfold entry_wf. cbn. subst label. split_and!; try done; lia.
Qed.

(** A transfer that is prepared: its package carries the slots of active keys. *)
Lemma denied_not_Ok tx o dest label mode reason s p s' : denied (S := S) tx o dest label mode reason s <> (Ok p, s').
Proof. unfold denied. erewrite st_step by done. erewrite st_step by done. erewrite st_step by done. done. Qed.
Lemma prepare_Ok tx dest actor label o mode passphrases auth s p s' : prepare_in tx dest actor label o mode passphrases auth s = (Ok p, s') ->
  validate_slot_label actor = Ok tt /\ validate_slot_label label = Ok tt /\ authorize actor label o mode auth (si_db s) = Ok tt /\ exists secrets hints,
  select_export label mode (si_db s) = Ok (pt_secret_labels p, pt_hint_labels p) /\ mapM (export_secret passphrases s) (pt_secret_labels p) = Ok secrets /\ mapM (export_hint s) (pt_hint_labels p) = Ok hints /\
  encode_bundle (si_dev s) {| bd_id := tx; bd_operation := o; bd_descendants := mode; bd_source := ct_device_id (dv_box (si_dev s)); bd_destination := dest; bd_actor := actor; bd_root := label;
    bd_entries := secrets ++ omap (fun h => h) hints |} = Ok (pt_package p) /\
  pt_id p = tx /\ si_dev s' = si_dev s /\ keys_same (si_db s) (si_db s') /\
  exists row, tx_row tx (si_db s') = Some row /\ tr_hash row = sha256 (pt_package p) /\ tr_operation row = o /\ tr_state row = Prepared /\
  tr_detail row = format_detail (str "prepared") (pt_secret_labels p) (pt_hint_labels p) [].
Proof.
  intros E. unfold prepare_in in E. destruct (validate_slot_label actor) as [[]|] eqn:E1; [|by apply denied_not_Ok in E]. destruct (validate_slot_label label) as [[]|] eqn:E2; [|by apply denied_not_Ok in E]. cbn [is_ok negb orb] in E.
  erewrite st_step in E by done. destruct (authorize actor label o mode auth (si_db s)) as [[]|] eqn:E3; [|by apply denied_not_Ok in E]. erewrite st_step in E by done.
  destruct (select_export label mode (si_db s)) as [[secret_labels hint_labels]|e] eqn:E4; [|destruct e; by (apply denied_not_Ok in E || injection E)].
  apply st_bind_Ok in E as (secrets & ? & [= E5 <-] & E). apply st_bind_Ok in E as (hints & ? & [= E6 <-] & E). erewrite st_step in E by done. apply st_bind_Ok in E as (package & ? & [= E7 <-] & E).
  apply st_bind_Ok in E as (root & ? & [= _ <-] & E). apply st_bind_Ok in E as ([] & s1 & [ET ED]%on_db_run & [= <- <-]). cbn [pt_secret_labels pt_hint_labels pt_package pt_id]. split_and!; [done..|]. exists secrets, hints. split_and!; [done..| |].
  - eapply (respects_transaction keys_same) in ET; [exact ET|frame].
  - apply transaction_Ok in ET. apply dbM_bind_Ok in ET as ([] & st1 & E8 & E9). unfold insert_tx, tx_exists in E8. cbn [tr_id] in E8. case_bool_decide as HN; [done|]. apply eq_None_not_Some in HN.
    pose proof (tx_same_audit _ _ _ _ _ _ _ _ _ _ _ _ E9) as HT. rewrite (tx_same_row _ _ _ HT). injection E8 as <-. eexists. split; [unfold tx_row in *; cbn; rewrite first_row_snoc, HN; unfold tx_is; cbn; by rewrite bool_decide_true|]. by split_and!.
Qed.

Lemma filter_bool_all {B} (f : B -> bool) (l : list B) : Forall (fun x => f x = true) l -> filter (fun x => f x = true) l = l.
Proof. induction 1 as [|x l Hx Hl IH]; [done|]. by rewrite filter_cons, decide_True, IH by done. Qed.
Lemma filter_bool_none {B} (f : B -> bool) (l : list B) : Forall (fun x => f x = false) l -> filter (fun x => f x = true) l = [].
Proof. induction 1 as [|x l Hx Hl IH]; [done|]. by rewrite filter_cons, decide_False, IH by congruence. Qed.

(** The entries of a prepared package. *)
Lemma exported_entries passphrases s secret_labels hint_labels secrets hints : catalog_wf (si_db s) -> sound (si_dev s) ->
  mapM (export_secret passphrases s) secret_labels = Ok secrets -> mapM (export_hint s) hint_labels = Ok hints ->
  Forall entry_wf (secrets ++ omap (fun h => h) hints) /\ filter (fun e => secret_entry e = true) (secrets ++ omap (fun h => h) hints) = secrets /\
  map bn_label secrets = secret_labels /\ Forall (slot_opens passphrases (si_dev s)) secrets /\ Forall (fun e => secret_entry e = true) secrets.
Proof.
  intros HC HS E1%mapM_Ok E2%mapM_Ok.
  assert (Forall (fun e => entry_wf e /\ secret_entry e = true /\ slot_opens passphrases (si_dev s) e) secrets /\ map bn_label secrets = secret_labels) as [H1 H2].
  { induction E1 as [|l e ls es E E1 [IH1 IH2]]; [done|]. destruct (export_secret_Ok _ _ _ _ HC HS E) as (X1 & X2 & X3 & X4). split; [by constructor|]. cbn. by rewrite X2, IH2. }
  assert (Forall (fun e => entry_wf e /\ secret_entry e = false) (omap (fun h => h) hints)) as H3.
  { clear -E2 HC. induction E2 as [|l [e|] ls es E E2 IH]; cbn; [constructor| |done]. constructor; [by eapply export_hint_Ok|done]. }
  assert (Forall (fun e => secret_entry e = true) secrets) as H4 by (eapply Forall_impl; [exact H1|]; naive_solver).
  split_and!; [apply Forall_app; split; eapply Forall_impl; [exact H1| |exact H3|]; naive_solver| |done|eapply Forall_impl; [exact H1|]; naive_solver|done].
  rewrite filter_app, filter_bool_all, filter_bool_none, app_nil_r; [done| |done]. eapply Forall_impl; [exact H3|]. naive_solver.
Qed.

Lemma prepare_safe P Q (d : Duo S) tx actor label o mode passphrases auth p d' :
  is_Some (du_db' d) -> sound (si_dev (source_site d)) -> sound (si_dev (dest_site d)) -> ct_path (du_from d) = P -> ct_path (du_to d) = Q -> (du_disk' d = None -> apart P Q) ->
  catalog_wf (du_db d) -> fixed 16 tx -> tx_row tx (si_db (dest_site d)) = None ->
  at_source (prepare_in tx (ct_device_id (du_to d)) actor label o mode passphrases auth) d = (Ok p, d') ->
  exists b, (forall c c', ct_device_id c = ct_device_id (du_from d) -> ct_verify_key c = ct_verify_key (du_from d) -> ct_device_id c' = ct_device_id (du_to d) -> open_bundle (pt_package p) c c' = Ok b) /\
  bd_id b = tx /\ bd_operation b = o /\ map bn_label (secret_entries b) = pt_secret_labels p /\ Forall (slot_opens passphrases (si_dev (source_site d))) (secret_entries b) /\
  safe P Q (ct_device_id (du_from d)) (ct_verify_key (du_from d)) (ct_device_id (du_to d)) (pt_package p) b passphrases d'.
Proof.
  intros Hdb HSf HSt HP HQ HA HC Htx HN E. pose proof E as E0. apply at_source_run in E as (E & F1 & F2 & F3).
  apply prepare_Ok in E as (Va & Vl & _ & secrets & hints & ES & EM & EH & EP & Eid & Edev & HK & row & R1 & R2 & R3 & R4 & R5).
  destruct (exported_entries _ (source_site d) _ _ _ _ HC HSf EM EH) as (W1 & W2 & W3 & W4 & W5). destruct (select_export_Ok _ _ _ _ _ ES) as (Hroot & Hact & Hknown).
  set (b := {| bd_id := tx; bd_operation := o; bd_descendants := mode; bd_source := _; bd_destination := _; bd_actor := actor; bd_root := label; bd_entries := _ |}) in EP.
  assert (secret_entries b = secrets) as Ese by exact W2. exists b.
  assert (forall c c', ct_device_id c = ct_device_id (du_from d) -> ct_verify_key c = ct_verify_key (du_from d) -> ct_device_id c' = ct_device_id (du_to d) -> open_bundle (pt_package p) c c' = Ok b) as Hopen.
  { assert (open_bundle (pt_package p) (du_from d) (du_to d) = Ok b) as (HW & HR & body & sig & X)%open_bundle_iff.
    - apply (encode_opens (si_dev (source_site d)) (du_to d) b (pt_package p) HSf); [|rewrite <- W3 in Hroot; apply list_elem_of_fmap_1 in Hroot as (e & El & He)|exact EP].
      + destruct HSf as [(B1 & B2 & _) _], HSt as [(B3 & _) _]. by split.
      + exists e. split_and!; [cbn; apply elem_of_app; by left|done|rewrite Forall_forall in W5; auto].
    - intros c c' H1 H2 H3. apply open_bundle_iff. destruct HW as [? [? ?] [? ?] ? ? ? ?]. split; [|split; [done|]; exists body, sig; by rewrite H2]. split; cbn in *; rewrite ?H1, ?H2, ?H3; done. }
  assert (si_db (dest_site d') = si_db (dest_site d)) as Ed by (unfold dest_site; cbn; rewrite F1; by destruct Hdb as [? ->]).
  assert (dev_to d' = dev_to d) as Et by (unfold dev_to, dest_site; cbn; rewrite F2, F3; pose proof (f_equal dv_disk Edev) as Ek; cbn in Ek; by rewrite Ek).
  assert (du_from d' = du_from d) as Ef by (by injection Edev).
  assert (~ committed b d') as HNC by (unfold committed, destination_committed, tx_state; rewrite Ed; cbn [bd_id b]; by rewrite HN).
  split_and!; [done..|by rewrite Ese|by rewrite Ese|]. split.
  - split; [by rewrite F1|by rewrite Ef|by rewrite F3|by rewrite F2|unfold dev_from; by rewrite Edev|unfold dev_to in *; by rewrite Et].
  - exists row. split_and!; [done..| |rewrite R4; by intros [|]]. rewrite R5, Ese, W3. apply detail_included; [by eapply bool_decide_eq_true_1|apply Forall_forall; intros l Hl|apply Forall_forall; intros l Hl|constructor].
    + rewrite Forall_forall in Hact. eapply known_label; [done|]. eapply possession_known, Hact, Hl.
    + rewrite Forall_forall in Hknown. eapply known_label; [done|auto].
  - intros r. rewrite Ed. cbn [bd_id b]. by rewrite HN.
  - done.
  - intros _ e. rewrite Ese. unfold dev_from. rewrite Edev. rewrite Forall_forall in W4. apply W4.
  - intros e He. left. rewrite (keys_same_possession _ _ _ HK). rewrite Forall_forall in Hact. apply Hact. rewrite Ese in He. rewrite <- W3. by apply list_elem_of_fmap_2.
Qed.
End prepare.

(** ** Every interleaving *)

Section crash.
Context `{S : Storage} `{C : Crypto} `{HX : Hex} `{A : Aead}.

(** What may happen to a prepared transfer, in any order and any number of times: each
    call may fail half way, and a run that stops between two calls is one that makes
    no further step. Writing stops after any number of slots; scrubbing the
    source and finishing on its receipt come after the destination has committed. *)
Inductive transfer_step (tx source_id source_key package : bytes) (passphrases : bytes -> option bytes) : Duo S -> Duo S -> Prop :=
| step_stage allow r d d' : at_dest (dest ← container; on_db (stage_destination (du_from d) dest package allow)) d = (r, d') -> transfer_step tx source_id source_key package passphrases d d'
| step_write draws limit r d d' : draws_wf draws -> at_dest (write_destination_slots_in draws (du_from d) package passphrases limit) d = (r, d') -> transfer_step tx source_id source_key package passphrases d d'
| step_finish_accept draws allow r d d' : draws_wf draws -> at_dest (finish_accept draws (du_from d) package passphrases allow tx) d = (r, d') -> transfer_step tx source_id source_key package passphrases d d'
| step_accept draws allow r d d' : draws_wf draws -> at_dest (accept_package_in draws source_id source_key package passphrases allow) d = (r, d') -> transfer_step tx source_id source_key package passphrases d d'
| step_acknowledge r d d' : at_dest (on_db (acknowledge tx)) d = (r, d') -> transfer_step tx source_id source_key package passphrases d d'
| step_scrub r d d' : destination_committed tx (si_db (dest_site d)) = true -> at_source (scrub_moved_slots tx) d = (r, d') -> transfer_step tx source_id source_key package passphrases d d'
| step_after_ack ack r d d' : destination_committed tx (si_db (dest_site d)) = true -> at_source (finalize_after_ack_in tx ack) d = (r, d') -> transfer_step tx source_id source_key package passphrases d d'
| step_finalize r d d' : finalize_source_in tx d = (r, d') -> transfer_step tx source_id source_key package passphrases d d'
| step_abort r d d' : abort_transfer_in tx d = (r, d') -> transfer_step tx source_id source_key package passphrases d d'
| step_recover r d d' : recover_pair_in tx d = (r, d') -> transfer_step tx source_id source_key package passphrases d d'.

Context `{!StorageLaws S} `{!CryptoLaws C} `{!AeadLaws A}.

Lemma step_safe P Q source_id source_key dest_id package b passphrases d d' :
  (forall c c', ct_device_id c = source_id -> ct_verify_key c = source_key -> ct_device_id c' = dest_id -> open_bundle package c c' = Ok b) ->
  safe P Q source_id source_key dest_id package b passphrases d -> transfer_step (bd_id b) source_id source_key package passphrases d d' -> safe P Q source_id source_key dest_id package b passphrases d'.
Proof.
  intros Hopen HS Hstep. pose proof (pl_from _ _ _ _ _ _ (sf_placed _ _ _ _ _ _ _ _ _ HS)) as (_ & Hi & Hk). destruct Hstep as [allow r d d' E|draws limit r d d' HD E|draws allow r d d' HD E|draws allow r d d' HD E|r d d' E|r d d' HC E|ack r d d' HC E|r d d' E|r d d' E|r d d' E].
  - exact (stage_safe _ _ _ _ _ _ _ _ Hopen _ _ _ _ _ Hi Hk HS E).
  - exact (proj1 (write_safe _ _ _ _ _ _ _ _ Hopen _ _ _ _ _ _ HD Hi Hk HS E)).
  - exact (finish_accept_safe _ _ _ _ _ _ _ _ Hopen _ _ _ HD Hi Hk _ _ _ HS E).
  - exact (accept_safe _ _ _ _ _ _ _ _ Hopen _ _ HD _ _ _ HS E).
  - exact (acknowledge_safe _ _ _ _ _ _ _ _ _ _ _ HS E).
  - exact (proj1 (scrub_keeps _ _ _ _ _ _ _ _ _ _ _ (conj HS HC) E)).
  - exact (proj1 (after_ack_safe _ _ _ _ _ _ _ _ _ _ _ _ (conj HS HC) E)).
  - exact (finalize_safe _ _ _ _ _ _ _ _ _ _ _ HS E).
  - exact (abort_safe _ _ _ _ _ _ _ _ _ _ _ HS E).
  - exact (recover_safe _ _ _ _ _ _ _ _ _ _ _ HS E).
Qed.

(** A site holds a key: its slot opens under the passphrase to the secret of that
    public key, and the store has the identity active. *)
Definition holds (s : Site S) (label pass public : bytes) : Prop :=
  (exists x, open_slot_in label pass (si_dev s) = Ok x /\ ss_encryption_public x = public) /\ possession label (si_db s) = Some Active.

(** C11: No transfer loses a key. Between devices with databases of their own, after a
    preparation that succeeded and whatever sequence of staging, writing (of any number
    of slots), accepting, acknowledging, scrubbing, finishing, aborting and recovering
    follows, each of them failing or not: while the destination has not committed, and
    always for a copy, the source holds every key of the package, open under its
    passphrase and active; once it has committed, the destination does; and the source
    has stopped being active for a key only by a move that the destination has
    committed, after the slot on the source is gone. *)
Theorem transfer_crash_safe (d0 d1 d : Duo S) tx actor label operation descendants passphrases auth prepared :
  is_Some (du_db' d0) -> (du_disk' d0 = None -> apart (ct_path (du_from d0)) (ct_path (du_to d0))) ->
  sound (si_dev (source_site d0)) -> sound (si_dev (dest_site d0)) -> catalog_wf (du_db d0) -> fixed 16 tx -> tx_row tx (si_db (dest_site d0)) = None ->
  at_source (prepare_in tx (ct_device_id (du_to d0)) actor label operation descendants passphrases auth) d0 = (Ok prepared, d1) ->
  rtc (transfer_step tx (ct_device_id (du_from d0)) (ct_verify_key (du_from d0)) (pt_package prepared) passphrases) d1 d ->
  forall l, l ∈ pt_secret_labels prepared -> exists pass x, passphrases l = Some pass /\ open_slot_in l pass (si_dev (source_site d0)) = Ok x /\
  (destination_committed tx (si_db (dest_site d)) = false \/ operation = Copy -> holds (source_site d) l pass (ss_encryption_public x)) /\
  (destination_committed tx (si_db (dest_site d)) = true -> holds (dest_site d) l pass (ss_encryption_public x)) /\
  (possession l (si_db (source_site d)) <> Some Active -> operation = Move /\ destination_committed tx (si_db (dest_site d)) = true /\ slot (du_from d) l = None).
Proof.
  intros Hdb HA HSf HSt HC Htx HN E Hsteps l Hl. destruct (prepare_safe _ _ _ _ _ _ _ _ _ _ _ _ Hdb HSf HSt eq_refl eq_refl HA HC Htx HN E) as (b & Hopen & <- & <- & Elabels & Hopens & HS).
  assert (safe (ct_path (du_from d0)) (ct_path (du_to d0)) (ct_device_id (du_from d0)) (ct_verify_key (du_from d0)) (ct_device_id (du_to d0)) (pt_package prepared) b passphrases d) as [_ _ _ Hd Hs Ha].
  { clear E. induction Hsteps as [|d1 d2 d3 H1 _ IH]; [done|]. apply IH. by eapply step_safe. }
  rewrite <- Elabels in Hl. apply list_elem_of_fmap_1 in Hl as (e & -> & He). rewrite Forall_forall in Hopens. destruct (Hopens e He) as (pass & x & X1 & X2 & X3). exists pass, x. rewrite X3.
  assert (forall (k : Dev S), slot_opens passphrases k e -> exists y, open_slot_in (bn_label e) pass k = Ok y /\ ss_encryption_public y = bn_enc_public e) as Hs' by (intros k (pass' & y & Y1 & Y2 & Y3); exists y; split; [congruence|done]).
  split_and!; [done..| | |].
  - intros X. assert (~ committed b d \/ bd_operation b = Copy) as X' by (destruct X as [X|X]; [left; unfold committed; by rewrite X|by right]). split; [apply Hs', Hs; done|]. destruct (Ha e He) as [?|(? & ? & _)]; [done|]. destruct X'; [done|congruence].
  - intros X. destruct (Hd X e He) as [? ?]. split; [by apply Hs'|done].
  - intros X. by destruct (Ha e He).
Qed.
End crash.
