(* ===== verification/Delivery.v ===== *)
(** * Letters between devices, enrollment and set-up manifests
    ([src/src/device_relay.rs], [src/src/enrollment.rs], [src/src/setup_manifest.rs])

    The sealed letters that carry a transfer or a relocated slot and its receipt
    through the relay, the signed request of a client that has no key yet, and the
    rules for the steps of a set-up manifest. Random bytes are arguments. *)

From stdpp Require Import gmap.
From S2P Require Import Prelude Text Crypto BTree Envelope HistoryCodec Event Authority Signing Tables KeyStore Aead World Device DeviceLaws TransferPackage RingHistory.

(** ** Letters of a transfer and of a relocation *)

Definition ACK_DOMAIN : bytes := str "KQ-DEVICE-ACK-v1".
Definition RELOCATE_DOMAIN : bytes := str "KQ-DEVICE-RELOCATE-v1".
Definition RELOCATE_ACK_DOMAIN : bytes := str "KQ-DEVICE-RELOCATE-ACK-v1".

Record SealedTransfer := { sx_return_public : bytes; sx_package : bytes }.
Record TransferAck := { tk_tx_id : bytes; tk_package_hash : bytes; tk_destination : bytes }.
Record SealedRelocate := { sr_relocate_id : bytes; sr_bytes : bytes }.
Record RelocateLetter := {
  rl_relocate_id : bytes; rl_label : bytes; rl_source : bytes; rl_destination : bytes; rl_return_public : bytes; rl_source_verify_key : bytes;
  rl_encryption_secret : bytes; rl_signing_secret : bytes }.
Record RelocateAck := { rk_relocate_id : bytes; rk_label : bytes; rk_source : bytes; rk_destination : bytes }.

Definition ack_message (tx_id package_hash destination : bytes) : bytes := ACK_DOMAIN ++ tx_id ++ package_hash ++ destination.

(** What a relocation signs and carries, and its receipt. *)
Definition relocate_body (l : RelocateLetter) : result bytes :=
  label ← push_len_prefixed (rl_label l);
  Ok (rl_relocate_id l ++ rl_source l ++ rl_destination l ++ rl_return_public l ++ rl_source_verify_key l ++ label ++ rl_encryption_secret l ++ rl_signing_secret l).
Definition relocate_ack_body (k : RelocateAck) : result bytes :=
  label ← push_len_prefixed (rk_label k);
  Ok (rk_relocate_id k ++ label ++ rk_source k ++ rk_destination k).

(** [envelope::utf8], then [validate_slot_label]. *)
Definition take_label : parser bytes :=
  b ← take_len_prefixed; label ← lift (utf8 b); lift (validate_slot_label label) ≫= fun _ => mret label.
Definition take_relocate : parser RelocateLetter :=
  relocate_id ← take_array 16;
  source ← take_array 16;
  destination ← take_array 16;
  return_public ← take_array 32;
  source_verify_key ← take_array 32;
  label ← take_label;
  encryption_secret ← take_array 32;
  signing_secret ← take_array 32;
  mret {| rl_relocate_id := relocate_id; rl_label := label; rl_source := source; rl_destination := destination; rl_return_public := return_public;
          rl_source_verify_key := source_verify_key; rl_encryption_secret := encryption_secret; rl_signing_secret := signing_secret |}.
Definition take_relocate_ack : parser RelocateAck :=
  relocate_id ← take_array 16;
  label ← take_label;
  source ← take_array 16;
  destination ← take_array 16;
  mret {| rk_relocate_id := relocate_id; rk_label := label; rk_source := source; rk_destination := destination |}.

Section letters.
Context `{S : Storage} `{C : Crypto} `{HX : Hex} `{A : Aead}.

Definition seal_transfer (rnd recipient_public return_public package : bytes) : result bytes :=
  authenticated_package package ≫= fun _ =>
  seal rnd PACKAGE KIND_DEVICE_TRANSFER recipient_public (return_public ++ package).
Definition open_transfer (recipient_secret data : bytes) : result SealedTransfer :=
  '(kind, _, payload) ← open_as PACKAGE data recipient_secret;
  if negb (bool_decide (kind = KIND_DEVICE_TRANSFER)) || (length payload <? 32 + 4) then Err InvalidBridgePackage else
  let package := drop 32 payload in
  authenticated_package package ≫= fun _ =>
  Ok {| sx_return_public := take 32 payload; sx_package := package |}.

Definition seal_transfer_ack_in (rnd : bytes) (destination : Dev S) (return_public : bytes) (header : AuthenticatedPackage) (package_hash : bytes) : result bytes :=
  if negb (bool_decide (ct_device_id (dv_box destination) = ap_destination header)) then Err InvalidDevice else
  secret ← (device_signing_secret_in destination).1;
  let signature := sign secret (ack_message (ap_id header) package_hash (ap_destination header)) in
  seal rnd PACKAGE KIND_DEVICE_TRANSFER_ACK return_public (ap_id header ++ package_hash ++ ap_destination header ++ signature).
Definition open_transfer_ack (return_secret data destination_verify_key : bytes) : result TransferAck :=
  '(kind, _, payload) ← open_as PACKAGE data return_secret;
  if negb (bool_decide (kind = KIND_DEVICE_TRANSFER_ACK)) || negb (length payload =? 16 + 32 + 16 + 64) then Err InvalidBridgePackage else
  let tx_id := take 16 payload in
  let package_hash := take 32 (drop 16 payload) in
  let destination := take 16 (drop 48 payload) in
  verify_signature destination_verify_key (ack_message tx_id package_hash destination) (drop 64 payload) ≫= fun _ =>
  Ok {| tk_tx_id := tx_id; tk_package_hash := package_hash; tk_destination := destination |}.

Definition seal_relocate_in (relocate_id rnd recipient_public : bytes) (source : Dev S) (label destination passphrase : bytes) : result SealedRelocate :=
  if bool_decide (ct_device_id (dv_box source) = destination) then Err InvalidDevice else
  secrets ← open_slot_in label passphrase source;
  body ← relocate_body {| rl_relocate_id := relocate_id; rl_label := label; rl_source := ct_device_id (dv_box source); rl_destination := destination;
    rl_return_public := ss_encryption_public secrets; rl_source_verify_key := ct_verify_key (dv_box source);
    rl_encryption_secret := ss_encryption_secret secrets; rl_signing_secret := ss_signing_secret secrets |};
  secret ← (device_signing_secret_in source).1;
  data ← seal rnd PACKAGE KIND_DEVICE_RELOCATE recipient_public (body ++ sign secret (RELOCATE_DOMAIN ++ body));
  Ok {| sr_relocate_id := relocate_id; sr_bytes := data |}.
Definition open_relocate (recipient_secret data : bytes) : result RelocateLetter :=
  '(kind, _, payload) ← open_as PACKAGE data recipient_secret;
  if negb (bool_decide (kind = KIND_DEVICE_RELOCATE)) then Err InvalidBridgePackage else
  '(letter, rest) ← take_relocate payload;
  if negb (length rest =? 64) then Err InvalidBridgePackage else
  '(signature, _) ← take_array 64 rest;
  verify_signature (rl_source_verify_key letter) (RELOCATE_DOMAIN ++ take (length payload - 64) payload) signature ≫= fun _ =>
  if negb (bool_decide (box_public (rl_encryption_secret letter) = rl_return_public letter)) then Err IntegrityCheckFailed else Ok letter.

Definition seal_relocate_ack_in (rnd : bytes) (letter : RelocateLetter) (destination : Dev S) : result bytes :=
  if negb (bool_decide (ct_device_id (dv_box destination) = rl_destination letter)) then Err InvalidDevice else
  body ← relocate_ack_body {| rk_relocate_id := rl_relocate_id letter; rk_label := rl_label letter; rk_source := rl_source letter; rk_destination := rl_destination letter |};
  secret ← (device_signing_secret_in destination).1;
  seal rnd PACKAGE KIND_DEVICE_RELOCATE_ACK (rl_return_public letter) (body ++ sign secret (RELOCATE_ACK_DOMAIN ++ body)).
Definition open_relocate_ack (return_secret data destination_verify_key : bytes) : result RelocateAck :=
  '(kind, _, payload) ← open_as PACKAGE data return_secret;
  if negb (bool_decide (kind = KIND_DEVICE_RELOCATE_ACK)) then Err InvalidBridgePackage else
  '(ack, rest) ← take_relocate_ack payload;
  if negb (length rest =? 64) then Err InvalidBridgePackage else
  '(signature, _) ← take_array 64 rest;
  verify_signature destination_verify_key (RELOCATE_ACK_DOMAIN ++ take (length payload - 64) payload) signature ≫= fun _ => Ok ack.
End letters.

(** ** Enrollment requests *)

Module Enrollment.
Definition MAGIC : bytes := str "KQRQ".
Definition VERSION : byte := x01.
Definition DOMAIN : bytes := str "KQ-ENROLLMENT-v1".
Definition MAX_REQUEST_BYTES : nat := 1024.
Definition MAX_LABEL_BYTES : nat := 128.

Record Request := { rq_device_id : bytes; rq_created_at : N; rq_label : bytes; rq_encryption_public : bytes; rq_signing_public : bytes }.

Section requests.
Context `{C : Crypto} `{HX : Hex}.
Definition signed_message (body : bytes) : bytes := DOMAIN ++ sha256 body.
Definition body_of (r : Request) : result bytes :=
  if bool_decide (rq_label r = []) || (MAX_LABEL_BYTES <? length (rq_label r)) then Err InvalidEnrollment else
  label ← map_err InvalidEnrollment (push_len_prefixed (rq_label r));
  Ok (MAGIC ++ [VERSION] ++ rq_device_id r ++ be_bytes 8 (rq_created_at r) ++ label ++ rq_encryption_public r ++ rq_signing_public r).
Definition encode (r : Request) (signing_secret : bytes) : result bytes :=
  if negb (bool_decide (public_key signing_secret = rq_signing_public r)) then Err InvalidEnrollment else
  body ← body_of r;
  Ok (body ++ sign signing_secret (signed_message body)).

(** The body's fields; every failure is the one error of the caller. *)
Definition take_request : parser Request :=
  magic ← take_array 4;
  if negb (bool_decide (magic = MAGIC)) then fail InvalidEnrollment else
  version ← take_u8;
  if negb (bool_decide (version = VERSION)) then fail InvalidEnrollment else
  device_id ← take_array 16;
  created_at ← take_array 8;
  b ← take_len_prefixed;
  label ← lift (utf8 b);
  encryption_public ← take_array 32;
  signing_public ← take_array 32;
  mret {| rq_device_id := device_id; rq_created_at := of_be created_at; rq_label := label; rq_encryption_public := encryption_public; rq_signing_public := signing_public |}.
Definition decode (data : bytes) : result Request :=
  if (MAX_REQUEST_BYTES <? length data) || (length data <=? 64) then Err InvalidEnrollment else
  let body := take (length data - 64) data in
  let signature := drop (length data - 64) data in
  '(r, rest) ← map_err InvalidEnrollment (take_request body);
  if negb (bool_decide (rest = [])) || bool_decide (rq_label r = []) || (MAX_LABEL_BYTES <? length (rq_label r)) then Err InvalidEnrollment else
  if is_weak_x25519_public_key (rq_encryption_public r) then Err InvalidEnrollment else
  map_err InvalidEnrollment (verify_signature (rq_signing_public r) (signed_message body) signature) ≫= fun _ => Ok r.


(** [char::is_whitespace], in the encoding of the characters. *)
Fixpoint without_spaces (b : bytes) : bytes :=
  match b with
  | (x09 | x0a | x0b | x0c | x0d | x20) :: r => without_spaces r
  | xc2 :: (x85 | xa0) :: r => without_spaces r
  | xe1 :: x9a :: x80 :: r => without_spaces r
  | xe2 :: x80 :: (x80 | x81 | x82 | x83 | x84 | x85 | x86 | x87 | x88 | x89 | x8a | xa8 | xa9 | xaf) :: r => without_spaces r
  | xe2 :: x81 :: x9f :: r => without_spaces r
  | xe3 :: x80 :: x80 :: r => without_spaces r
  | c :: r => c :: without_spaces r
  | [] => []
  end.
(** [to_ascii_lowercase] *)
Definition lower (b : byte) : byte := if (65 <=? Byte.to_N b)%N && (Byte.to_N b <=? 90)%N then byte_of_N (Byte.to_N b + 32) else b.

(** [chunks(8)] and [join(" ")] *)
Fixpoint chunks (fuel : nat) (b : bytes) : list bytes :=
  match fuel, b with
  | S fuel, _ :: _ => take 8 b :: chunks fuel (drop 8 b)
  | _, _ => []
  end.
Definition fingerprint (r : Request) : result bytes :=
  body ← body_of r;
  let hash := hex_encode (sha256 body) in
  Ok (Text.join x20 (chunks (length hash) hash)).
Definition confirm_fingerprint (r : Request) (typed : bytes) : result unit :=
  body ← body_of r;
  if bool_decide (map lower (without_spaces typed) = hex_encode (sha256 body)) then Ok tt else Err EnrollmentFingerprintMismatch.
End requests.
End Enrollment.

(** ** Laws of the letters *)

Lemma relay_label_codec : codec_ok (fun l => validate_slot_label l = Ok tt) push_len_prefixed take_label.
Proof.
  split.
  - intros s e rest Hs E. unfold take_label. erewrite parser_bind_eq by (by apply take_len_prefixed_push). erewrite parser_bind_eq by (apply lift_Ok; split; [unfold utf8; by rewrite (slot_label_text _ Hs)|done]).
    by erewrite parser_bind_eq by (by apply lift_Ok).
  - intros data s rest E. unfold take_label in E. inv_parser. apply lift_Ok in H0 as [Hu ->], H1 as [Hv ->]. destruct v1. unfold utf8 in Hu. destruct (is_utf8 v) eqn:U; [|done]. injection Hu as ->. subst. split; [done|]. by apply take_len_prefixed_canonical.
Qed.

Definition relocate_wf (l : RelocateLetter) : Prop :=
  fixed 16 (rl_relocate_id l) /\ fixed 16 (rl_source l) /\ fixed 16 (rl_destination l) /\ fixed 32 (rl_return_public l) /\ fixed 32 (rl_source_verify_key l) /\
  validate_slot_label (rl_label l) = Ok tt /\ fixed 32 (rl_encryption_secret l) /\ fixed 32 (rl_signing_secret l).
Lemma relocate_codec : codec_ok relocate_wf relocate_body take_relocate.
Proof.
  split.
  - intros l b rest (H1 & H2 & H3 & H4 & H5 & H6 & H7 & H8) E. unfold relocate_body in E. inv_ok; subst. unfold take_relocate. rewrite <- !app_assoc.
    do 5 (erewrite parser_bind_eq by (by apply take_n_app)). erewrite parser_bind_eq by (by eapply (codec_roundtrip _ _ _ relay_label_codec)). do 2 (erewrite parser_bind_eq by (by apply take_n_app)). by destruct l.
  - intros data l rest E. unfold take_relocate in E. inv_parser. repeat match goal with H : take_array _ _ = Ok _ |- _ => apply take_n_Ok in H as [-> ?] end.
    match goal with H : take_label _ = Ok _ |- _ => canon H relay_label_codec end. subst. split; [by split_and!|]. unfold relocate_body. cbn. run_enc. eexists; split; [done|]. simplify_eq. by rewrite <- !app_assoc.
Qed.
Definition relocate_ack_wf (k : RelocateAck) : Prop := fixed 16 (rk_relocate_id k) /\ validate_slot_label (rk_label k) = Ok tt /\ fixed 16 (rk_source k) /\ fixed 16 (rk_destination k).
Lemma relocate_ack_codec : codec_ok relocate_ack_wf relocate_ack_body take_relocate_ack.
Proof.
  split.
  - intros k b rest (H1 & H2 & H3 & H4) E. unfold relocate_ack_body in E. inv_ok; subst. unfold take_relocate_ack. rewrite <- !app_assoc.
    erewrite parser_bind_eq by (by apply take_n_app). erewrite parser_bind_eq by (by eapply (codec_roundtrip _ _ _ relay_label_codec)). do 2 (erewrite parser_bind_eq by (by apply take_n_app)). by destruct k.
  - intros data k rest E. unfold take_relocate_ack in E. inv_parser. repeat match goal with H : take_array _ _ = Ok _ |- _ => apply take_n_Ok in H as [-> ?] end.
    match goal with H : take_label _ = Ok _ |- _ => canon H relay_label_codec end. subst. split; [by split_and!|]. unfold relocate_ack_body. cbn. run_enc. eexists; split; [done|]. simplify_eq. by rewrite <- !app_assoc.
Qed.

Section letter_laws.
Context `{S : Storage} `{!StorageLaws S} `{C : Crypto} `{!CryptoLaws C} `{HX : Hex} `{A : Aead} `{!AeadLaws A}.

Lemma device_key_signs (d : Dev S) secret message : sound d -> (device_signing_secret_in d).1 = Ok secret -> verify_signature (ct_verify_key (dv_box d)) message (sign secret message) = Ok tt.
Proof.
  intros (_ & sk & Er & Hl & Ep) E. assert (secret = sk) as ->.
  { unfold device_signing_secret_in, mbind, stM_bind, box, read_file, on_disk in E. cbn in E. rewrite Er, Hl in E. cbn in E. congruence. }
  rewrite <- Ep. unfold verify_signature, public_key, sign. rewrite ed25519_public_ok. cbn. by rewrite ed25519_verify_sign.
Qed.
Lemma open_sealed rnd k sk payload data : fixed 32 (box_public sk) -> seal rnd PACKAGE k (box_public sk) payload = Ok data -> open_as PACKAGE data sk = Ok (k, box_public sk, payload).
Proof. intros H. by apply open_seal. Qed.
Lemma tail_of (body signature : bytes) : length signature = 64 -> take (length (body ++ signature) - 64) (body ++ signature) = body.
Proof. intros H. rewrite length_app, H. replace (length body + 64 - 64) with (length body) by lia. by rewrite take_app_length. Qed.

Lemma transfer_letter rnd sk return_public package data : fixed 32 (box_public sk) -> fixed 32 return_public -> seal_transfer rnd (box_public sk) return_public package = Ok data ->
  open_transfer sk data = Ok {| sx_return_public := return_public; sx_package := package |}.
Proof.
  intros Hs Hr E. unfold seal_transfer in E. apply bind_Ok in E as (header & EA & E). unfold open_transfer. rewrite (open_sealed _ _ _ _ _ Hs E). cbn [mbind result_bind]. rewrite bool_decide_true by done. cbn [negb orb].
  assert (36 <= length (return_public ++ package)) as HL.
  { unfold authenticated_package in EA. apply bind_Ok in EA as ([body sig] & (_ & _ & ->)%split_package_iff & _). rewrite length_app, Hr. unfold package_of. rewrite length_app. cbn. lia. }
  destruct (Nat.ltb_spec (length (return_public ++ package)) (32 + 4)); [lia|]. rewrite drop_app_length', take_app_length' by done. by rewrite EA.
Qed.
Lemma transfer_receipt rnd sk (destination : Dev S) header hash data : fixed 32 (box_public sk) -> sound destination -> fixed 16 (ap_id header) -> fixed 32 hash ->
  seal_transfer_ack_in rnd destination (box_public sk) header hash = Ok data ->
  open_transfer_ack sk data (ct_verify_key (dv_box destination)) = Ok {| tk_tx_id := ap_id header; tk_package_hash := hash; tk_destination := ct_device_id (dv_box destination) |}.
Proof.
  intros Hs HD Hi Hh E. unfold seal_transfer_ack_in in E. case_bool_decide as Ed; [|done]. cbn [negb] in E. apply bind_Ok in E as (secret & EK & E). rewrite <- Ed in E. pose proof HD as ((Hid & _) & _).
  unfold open_transfer_ack. rewrite (open_sealed _ _ _ _ _ Hs E). cbn [mbind result_bind]. rewrite bool_decide_true by done. cbn [negb orb]. set (signature := sign secret _) in *.
  assert (length signature = 64) as Hsig by apply ed25519_sign_length. set (id := ct_device_id (dv_box destination)) in *. change (length id = 16) in Hid. unfold fixed in *.
  rewrite !length_app, Hi, Hh, Hid, Hsig. cbn [Nat.eqb Nat.add negb].
  assert (drop 16 (ap_id header ++ hash ++ id ++ signature) = hash ++ id ++ signature) as -> by (by rewrite drop_app_length').
  assert (drop 48 (ap_id header ++ hash ++ id ++ signature) = id ++ signature) as -> by (rewrite app_assoc, drop_app_length'; [done|rewrite length_app, Hi, Hh; done]).
  assert (drop 64 (ap_id header ++ hash ++ id ++ signature) = signature) as -> by (rewrite !app_assoc, drop_app_length'; [done|rewrite !length_app, Hi, Hh, Hid; done]).
  rewrite !take_app_length' by done. unfold signature. by rewrite (device_key_signs _ _ _ HD EK).
Qed.

Lemma relocate_letter id rnd sk (source : Dev S) label destination pass secrets letter : fixed 32 (box_public sk) -> fixed 16 id -> fixed 16 destination -> sound source ->
  open_slot_in label pass source = Ok secrets -> seal_relocate_in id rnd (box_public sk) source label destination pass = Ok letter ->
  sr_relocate_id letter = id /\ open_relocate sk (sr_bytes letter) = Ok {| rl_relocate_id := id; rl_label := label; rl_source := ct_device_id (dv_box source); rl_destination := destination;
    rl_return_public := ss_encryption_public secrets; rl_source_verify_key := ct_verify_key (dv_box source); rl_encryption_secret := ss_encryption_secret secrets; rl_signing_secret := ss_signing_secret secrets |}.
Proof.
  intros Hs Hid Hd HS EO E. unfold seal_relocate_in in E. case_bool_decide; [done|]. rewrite EO in E. cbn [mbind result_bind] in E. apply bind_Ok in E as (body & EB & E). apply bind_Ok in E as (secret & EK & E). apply bind_Ok in E as (data & ES & [= <-]).
  split; [done|]. cbn [sr_bytes]. unfold open_relocate. rewrite (open_sealed _ _ _ _ _ Hs ES). cbn [mbind result_bind]. rewrite bool_decide_true by done. cbn [negb].
  destruct (open_slot_genuine _ _ _ _ HS EO) as (Ex & W1 & W2 & W3 & W4 & ESl). pose proof HS as ((B1 & B2 & B3 & _) & _). pose proof (slot_Some _ _ _ ESl) as [Hin _]. rewrite Forall_forall in B3. destruct (B3 _ Hin) as (V & _).
  pose proof (f_equal ss_encryption_public Ex) as Ep. cbn in Ep.
  match type of EB with relocate_body ?x = _ => set (l := x) in * end. assert (relocate_wf l) as HW by (split_and!; cbn; try done; by rewrite Ep).
  pose proof (codec_roundtrip _ _ _ relocate_codec l body (sign secret (RELOCATE_DOMAIN ++ body)) HW EB) as ET. rewrite ET. cbn [mbind result_bind].
  pose proof (ed25519_sign_length secret (RELOCATE_DOMAIN ++ body)) as Hl. change (length (sign secret (RELOCATE_DOMAIN ++ body)) = 64) in Hl. rewrite Hl. cbn [Nat.eqb negb].
  unfold take_array. pose proof (take_n_app 64 (sign secret (RELOCATE_DOMAIN ++ body)) [] Hl) as EN. rewrite app_nil_r in EN. rewrite EN. cbn [mbind result_bind]. rewrite tail_of by done.
  cbn [rl_source_verify_key l]. rewrite (device_key_signs _ _ _ HS EK). cbn [mbind result_bind]. by rewrite bool_decide_true by (cbn; by rewrite Ep).
Qed.
Lemma relocate_receipt rnd sk letter (destination : Dev S) data : fixed 32 (box_public sk) -> relocate_wf letter -> rl_return_public letter = box_public sk -> sound destination ->
  seal_relocate_ack_in rnd letter destination = Ok data ->
  open_relocate_ack sk data (ct_verify_key (dv_box destination)) = Ok {| rk_relocate_id := rl_relocate_id letter; rk_label := rl_label letter; rk_source := rl_source letter; rk_destination := rl_destination letter |}.
Proof.
  intros Hs (H1 & H2 & H3 & _ & _ & H6 & _) Er HS E. unfold seal_relocate_ack_in in E. case_bool_decide; [|done]. cbn [negb] in E. apply bind_Ok in E as (body & EB & E). apply bind_Ok in E as (secret & EK & E). rewrite Er in E.
  unfold open_relocate_ack. rewrite (open_sealed _ _ _ _ _ Hs E). cbn [mbind result_bind]. rewrite bool_decide_true by done. cbn [negb].
  match type of EB with relocate_ack_body ?x = _ => assert (relocate_ack_wf x) as HW by done end.
  rewrite (codec_roundtrip _ _ _ relocate_ack_codec _ body (sign secret (RELOCATE_ACK_DOMAIN ++ body)) HW EB). cbn [mbind result_bind].
  pose proof (ed25519_sign_length secret (RELOCATE_ACK_DOMAIN ++ body)) as Hl. change (length (sign secret (RELOCATE_ACK_DOMAIN ++ body)) = 64) in Hl. rewrite Hl. cbn [Nat.eqb negb].
  unfold take_array. pose proof (take_n_app 64 (sign secret (RELOCATE_ACK_DOMAIN ++ body)) [] Hl) as EN. rewrite app_nil_r in EN. rewrite EN. cbn [mbind result_bind]. rewrite tail_of by done. by rewrite (device_key_signs _ _ _ HS EK).
Qed.

(** C16: A slot goes through the relay whole. What the source seals of a slot it opens, the
    destination named reads with its key: installing what it reads gives a slot that opens
    there under the passphrase chosen, to the secrets of the source; and the receipt it
    seals back opens at the source, with the slot's own key and the destination's device
    key, to the id, label and devices of the letter sent. *)
Theorem relayed_relocation id rnd rnd' sk salt nonce label pass pass' (source dest dest' : Dev S) secrets letter opened record receipt :
  fixed 32 (box_public sk) -> fixed 16 id -> sound source -> sound dest -> fixed SALT_LEN salt -> fixed NONCE_LEN nonce ->
  open_slot_in label pass source = Ok secrets -> seal_relocate_in id rnd (box_public sk) source label (ct_device_id (dv_box dest)) pass = Ok letter ->
  open_relocate sk (sr_bytes letter) = Ok opened ->
  install_slot_in salt nonce (rl_label opened) pass' (rl_encryption_secret opened) (rl_signing_secret opened) dest = (Ok record, dest') ->
  seal_relocate_ack_in rnd' opened dest' = Ok receipt ->
  open_slot_in label pass' dest' = Ok secrets /\
  open_relocate_ack (ss_encryption_secret secrets) receipt (ct_verify_key (dv_box dest)) =
    Ok {| rk_relocate_id := sr_relocate_id letter; rk_label := label; rk_source := ct_device_id (dv_box source); rk_destination := ct_device_id (dv_box dest) |}.
Proof.
  intros Hs Hid HF HD Hsalt Hnonce EO EL EOp EI EA. assert (fixed 16 (ct_device_id (dv_box dest))) as Hdid by (by destruct HD as ((? & _) & _)).
  destruct (relocate_letter _ _ _ _ _ _ _ _ _ Hs Hid Hdid HF EO EL) as [Er EOp']. rewrite EOp' in EOp. injection EOp as <-. cbn [rl_label rl_encryption_secret rl_signing_secret] in EI.
  destruct (open_slot_genuine _ _ _ _ HF EO) as (Ex & W1 & W2 & W3 & W4 & ESl). pose proof HF as ((B1 & B2 & B3 & _) & _). pose proof (slot_Some _ _ _ ESl) as [Hin _]. rewrite Forall_forall in B3. destruct (B3 _ Hin) as (V & _).
  pose proof (f_equal ss_encryption_public Ex) as Ep. cbn in Ep.
  apply install_Ok in EI as (EN & _ & EP). destruct (put_slot_Ok _ _ _ _ _ _ _ _ HD (conj Hsalt (conj Hnonce (conj W1 (conj W2 (conj W3 W4))))) EN EP) as (HD' & EB & _ & EO' & _).
  split; [by rewrite EO', <- Ex|]. assert (ct_verify_key (dv_box dest') = ct_verify_key (dv_box dest)) as <- by (by rewrite EB). rewrite Er.
  eapply relocate_receipt in EA; [exact EA|done| |cbn; by rewrite Ep|done]. split_and!; cbn; try done; by rewrite Ep.
Qed.
End letter_laws.

(** ** Laws of enrollment *)

Module EnrollmentLaws.
Import Enrollment.

Definition request_fields (r : Request) : Prop :=
  fixed 16 (rq_device_id r) /\ (rq_created_at r < u64_max)%N /\ text (rq_label r) /\ fixed 32 (rq_encryption_public r) /\ fixed 32 (rq_signing_public r).
(** The body without the tests on the label. *)
Definition raw_body (r : Request) : result bytes :=
  label ← push_len_prefixed (rq_label r);
  Ok (MAGIC ++ [VERSION] ++ rq_device_id r ++ be_bytes 8 (rq_created_at r) ++ label ++ rq_encryption_public r ++ rq_signing_public r).
Lemma request_codec : codec_ok request_fields raw_body take_request.
Proof.
  split.
  - intros r b rest (H1 & H2 & H3 & H4 & H5) E. unfold raw_body in E. inv_ok; subst. unfold take_request. rewrite <- !app_assoc.
    erewrite parser_bind_eq by (by apply take_n_app). rewrite bool_decide_true by done. cbn [negb app]. erewrite parser_bind_eq by done. rewrite bool_decide_true by done. cbn [negb].
    erewrite parser_bind_eq by (by apply take_n_app). erewrite parser_bind_eq by (apply take_n_app, length_be_bytes). erewrite parser_bind_eq by (by apply take_len_prefixed_push).
    erewrite parser_bind_eq by (apply lift_Ok; split; [unfold utf8; by rewrite H3|done]). do 2 (erewrite parser_bind_eq by (by apply take_n_app)). rewrite of_be_bytes by (by rewrite <- u64_width). by destruct r.
  - intros data r rest E. unfold take_request in E. inv_parser. case_bool_decide; [|done]. cbn [negb] in E. inv_parser. case_bool_decide; [|done]. cbn [negb] in E. inv_parser.
    repeat match goal with H : take_array _ _ = Ok _ |- _ => apply take_n_Ok in H as [-> ?] | H : take_u8 _ = Ok _ |- _ => apply take_u8_Ok in H as -> | H : lift _ _ = Ok _ |- _ => apply lift_Ok in H as [? ->] end.
    match goal with H : utf8 _ = Ok _ |- _ => unfold utf8 in H; destruct (is_utf8 _) eqn:U; [|done]; injection H as -> end.
    match goal with H : take_len_prefixed _ = Ok _ |- _ => apply take_len_prefixed_canonical in H as (e & Ee & ->) end. subst.
    split; [split_and!; cbn; try done; rewrite u64_width; match goal with H : length ?v = 8 |- _ => rewrite <- H end; apply of_be_bound|]. unfold raw_body. cbn. rewrite Ee. cbn. eexists; split; [done|].
    rewrite be_bytes_of_be_n by done. cbn [app]. by rewrite <- ?app_assoc.
Qed.

(** The fingerprint read out and typed back. *)
Definition hex_digit (b : byte) : Prop := b ∈ str "0123456789abcdef".
Lemma hex_kept c r : hex_digit c -> without_spaces (c :: r) = c :: without_spaces r /\ lower c = c.
Proof. unfold hex_digit. intros H. repeat (apply elem_of_cons in H as [->|H]; [done|]). by apply elem_of_nil in H. Qed.
Lemma hex_kept_app p r : Forall hex_digit p -> without_spaces (p ++ r) = p ++ without_spaces r.
Proof. induction 1 as [|c p Hc Hp IH]; [done|]. cbn [app]. by rewrite (proj1 (hex_kept _ _ Hc)), IH. Qed.
Lemma joined_kept l : Forall (Forall hex_digit) l -> without_spaces (Text.join x20 l) = mjoin l.
Proof.
  induction 1 as [|p l Hp Hl IH]; [done|]. destruct l as [|q l]; [cbn; rewrite <- (app_nil_r p) at 1; by rewrite hex_kept_app|]. rewrite join_cons by done. rewrite hex_kept_app by done. cbn [mjoin list_join]. f_equal. exact IH.
Qed.
Lemma chunks_join fuel b : length b <= fuel -> mjoin (chunks fuel b) = b /\ (Forall hex_digit b -> Forall (Forall hex_digit) (chunks fuel b)).
Proof.
  revert b; induction fuel as [|fuel IH]; intros [|x b] H; cbn in H; try (by split; [|constructor]); [lia|]. cbn [chunks]. destruct (IH (drop 8 (x :: b))) as [E1 E2]; [rewrite length_drop; cbn; lia|].
  split; [change (take 8 (x :: b) ++ mjoin (chunks fuel (drop 8 (x :: b))) = x :: b); by rewrite E1, take_drop|]. intros Hx. constructor; [by apply Forall_take|]. apply E2. by apply Forall_drop.
Qed.

Section enrollment_laws.
Context `{C : Crypto} `{!CryptoLaws C} `{HX : Hex}.

Definition label_bounds (r : Request) : Prop := rq_label r <> [] /\ length (rq_label r) <= MAX_LABEL_BYTES.
Lemma body_of_iff r body : body_of r = Ok body <-> label_bounds r /\ raw_body r = Ok body.
Proof.
  unfold body_of, raw_body, label_bounds. case_bool_decide as E1; [naive_solver|]. cbn [orb]. destruct (Nat.ltb_spec MAX_LABEL_BYTES (length (rq_label r))) as [L|L]; [naive_solver lia|].
  destruct (push_len_prefixed (rq_label r)); cbn; naive_solver.
Qed.
Lemma body_length r body : request_fields r -> body_of r = Ok body -> length body + 64 <= MAX_REQUEST_BYTES /\ 0 < length body.
Proof.
  intros (H1 & _ & _ & H4 & H5) [[_ HL] E]%body_of_iff. unfold raw_body in E. apply bind_Ok in E as (e & Ee & [= <-]). unfold push_len_prefixed in Ee. apply bind_Ok in Ee as (n & _ & [= <-]).
  unfold fixed in *. cbn [length]. rewrite !length_app, !length_be_bytes, H1, H4, H5. unfold MAX_LABEL_BYTES, MAX_REQUEST_BYTES in *. lia.
Qed.

(** C19: An enrollment request is accepted exactly when it is the body of one request with
    a signature of the key it names over that body: nothing may be missing, added or
    changed, the label is within bounds and the encryption key not weak. So what a
    client writes with the key it names is read back as it was, and the fingerprint
    it reads out, in any spacing, is the one the provider's check accepts. *)
Theorem enrollment_exact (Hhex : forall b, Forall hex_digit (hex_encode b)) data r :
  (decode data = Ok r <-> request_fields r /\ label_bounds r /\ is_weak_x25519_public_key (rq_encryption_public r) = false /\
    exists body signature, body_of r = Ok body /\ fixed 64 signature /\ data = body ++ signature /\ verify_signature (rq_signing_public r) (signed_message body) signature = Ok tt) /\
  (forall secret, request_fields r -> is_weak_x25519_public_key (rq_encryption_public r) = false -> encode r secret = Ok data -> decode data = Ok r) /\
  (forall words, fingerprint r = Ok words -> confirm_fingerprint r words = Ok tt).
Proof.
  assert (decode data = Ok r <-> request_fields r /\ label_bounds r /\ is_weak_x25519_public_key (rq_encryption_public r) = false /\
    exists body signature, body_of r = Ok body /\ fixed 64 signature /\ data = body ++ signature /\ verify_signature (rq_signing_public r) (signed_message body) signature = Ok tt) as H.
  { unfold decode. split.
    - destruct (_ || _) eqn:EG; [done|]. apply orb_false_iff in EG as [_ L%Nat.leb_gt]. intros ([r' rest] & (Hf & body & Eb & Ed)%map_err_Ok%(codec_canonical _ _ _ request_codec) & E)%bind_Ok.
      destruct (_ || _) eqn:EG; [done|]. apply orb_false_iff in EG as [[Er%negb_false_iff%bool_decide_eq_true El%bool_decide_eq_false]%orb_false_iff EL%Nat.ltb_ge]. destruct (is_weak_x25519_public_key _) eqn:EW; [done|].
      apply bind_Ok in E as ([] & EV%map_err_Ok & [= ->]). subst rest. rewrite app_nil_r in Ed. split_and!; [done..|]. exists body, (drop (length data - 64) data).
      split_and!; [by apply body_of_iff|unfold fixed; rewrite length_drop; lia|by rewrite <- Ed, take_drop|by rewrite <- Ed].
    - intros (Hf & HL & HW & body & sig & Eb & Hs & -> & EV). destruct (body_length _ _ Hf Eb) as [B1 B2]. unfold fixed in Hs. rewrite length_app, Hs.
      destruct (Nat.ltb_spec MAX_REQUEST_BYTES (length body + 64)); [lia|]. destruct (Nat.leb_spec (length body + 64) 64); [lia|]. cbn [orb]. replace (length body + 64 - 64) with (length body) by lia. rewrite take_app_length, drop_app_length.
      pose proof (codec_roundtrip _ _ _ request_codec r body [] Hf (proj2 (proj1 (body_of_iff _ _) Eb))) as ET. rewrite app_nil_r in ET. rewrite ET. cbn [map_err mbind result_bind].
      destruct HL as [HL1 HL2]. rewrite bool_decide_true, bool_decide_false by done. cbn [negb orb]. destruct (Nat.ltb_spec MAX_LABEL_BYTES (length (rq_label r))); [lia|]. rewrite HW, EV. done. }
  split; [done|]. split.
  - intros secret Hf HW E. unfold encode in E. case_bool_decide as EK; [|done]. cbn [negb] in E. apply bind_Ok in E as (body & EB & [= <-]). apply H. split_and!; [done|exact (proj1 (proj1 (body_of_iff _ _) EB))|done|]. exists body, (sign secret (signed_message body)).
    split_and!; [done|apply ed25519_sign_length|done|]. rewrite <- EK. unfold verify_signature, public_key, sign. rewrite ed25519_public_ok. cbn. by rewrite ed25519_verify_sign.
  - intros words E. unfold fingerprint in E. apply bind_Ok in E as (body & EB & [= <-]). unfold confirm_fingerprint. rewrite EB. cbn [mbind result_bind]. set (hash := hex_encode (sha256 body)).
    destruct (chunks_join (length hash) hash) as [E1 E2]; [done|]. rewrite joined_kept by (apply E2, Hhex). rewrite E1. rewrite bool_decide_true; [done|].
    assert (Forall hex_digit hash) as HF by apply Hhex. clear -HF. induction HF as [|c l Hc Hl IH]; [done|]. cbn. by rewrite (proj2 (hex_kept c l Hc)), IH.
Qed.
End enrollment_laws.
End EnrollmentLaws.

(** ** Provider certificates ([src/src/provider.rs]) *)

Definition CERT_MAGIC : bytes := str "KQPC".
Definition KRL_MAGIC : bytes := str "KQRL".
Definition FORMAT_VERSION : byte := x01.
Definition CERT_DOMAIN : bytes := str "KQPROVIDER-CERT-v1".
Definition CHALLENGE_DOMAIN : bytes := str "KQPROVIDER-CHALLENGE-v1".
Definition KRL_DOMAIN : bytes := str "KQPROVIDER-KRL-v1".
Definition CHALLENGE_LEN : nat := 32.
Definition CAP_RELAY : N := 1.
Definition CAP_MAILBOX : N := 2.
Definition CAP_API_ADMIN : N := 4.
Definition CAP_PROVIDER : N := N.lor (N.lor CAP_RELAY CAP_MAILBOX) CAP_API_ADMIN.

(** [Certificate], and [NewCertificate], which has its fields. *)
Record Certificate := {
  ce_provider_id : bytes; ce_serial : bytes; ce_relay_public_key : bytes; ce_issued_at : bytes; ce_expires_at : bytes; ce_capabilities : N; ce_issuer_id : bytes }.

Definition put_str (value : bytes) : result bytes :=
  if negb (forallb is_ascii value) || bool_decide (value = []) then Err InvalidProviderCertificate else
  len ← try_u16 (length value); Ok (be_bytes 2 len ++ value).
(** [body.get(offset..offset + n)] *)
Definition get_n (n : nat) : parser bytes := fun data => map_err InvalidProviderCertificate (take_n n data).
Definition take_str : parser bytes :=
  len ← get_n 2;
  b ← get_n (N.to_nat (of_be len));
  if negb (is_utf8 b) || negb (forallb is_ascii b) || bool_decide (b = []) then fail InvalidProviderCertificate else mret b.

Definition encode_cert_body (c : Certificate) : result bytes :=
  provider_id ← put_str (ce_provider_id c);
  serial ← put_str (ce_serial c);
  issued_at ← put_str (ce_issued_at c);
  expires_at ← put_str (ce_expires_at c);
  issuer_id ← put_str (ce_issuer_id c);
  Ok (provider_id ++ serial ++ ce_relay_public_key c ++ issued_at ++ expires_at ++ be_bytes 4 (ce_capabilities c) ++ issuer_id).
Definition take_cert_body : parser Certificate :=
  provider_id ← take_str;
  serial ← take_str;
  relay_public_key ← get_n 32;
  issued_at ← take_str;
  expires_at ← take_str;
  capabilities ← get_n 4;
  issuer_id ← take_str;
  mret {| ce_provider_id := provider_id; ce_serial := serial; ce_relay_public_key := relay_public_key; ce_issued_at := issued_at; ce_expires_at := expires_at;
          ce_capabilities := of_be capabilities; ce_issuer_id := issuer_id |}.
Definition parse_certificate_body (data : bytes) : result (Certificate * bytes) :=
  if (length data <? 4 + 1 + 32 + 64) || negb (bool_decide (take 4 data = CERT_MAGIC)) then Err InvalidProviderCertificate else
  if negb (bool_decide (data !! 4 = Some FORMAT_VERSION)) then Err InvalidProviderCertificate else
  let body := take (length data - 64 - 5) (drop 5 data) in
  '(cert, rest) ← take_cert_body body;
  if negb (bool_decide (rest = [])) then Err InvalidProviderCertificate else Ok (cert, body).
Definition parse_certificate (data : bytes) : result Certificate := fst <$> parse_certificate_body data.

Definition encode_krl_body (issued_at : bytes) (serials : list bytes) : result bytes :=
  issued ← put_str issued_at;
  count ← try_u16 (length serials);
  all ← encode_all put_str serials;
  Ok (issued ++ be_bytes 2 count ++ all).
Definition decode_krl_serials (body : bytes) : result (gset bytes) :=
  '(serials, rest) ← (take_str ≫= fun _ => count ← get_n 2; repeat_parser (N.to_nat (of_be count)) take_str) body;
  if negb (bool_decide (rest = [])) then Err InvalidProviderCertificate else Ok (list_to_set serials).

Section provider.
Context `{C : Crypto}.
Definition cert_preimage (body : bytes) : bytes := sha256 (CERT_DOMAIN ++ body).
Definition challenge_preimage (challenge : bytes) : bytes := sha256 (CHALLENGE_DOMAIN ++ challenge).
Definition krl_preimage (body : bytes) : bytes := sha256 (KRL_DOMAIN ++ body).

Definition issue_certificate (root_private_key : bytes) (c : Certificate) : result bytes :=
  body ← encode_cert_body c;
  Ok (CERT_MAGIC ++ [FORMAT_VERSION] ++ body ++ sign root_private_key (cert_preimage body)).
Definition verify_certificate (root_public_key data now_utc : bytes) (revoked : gset bytes) : result Certificate :=
  '(cert, body) ← parse_certificate_body data;
  map_err InvalidProviderCertificate (verify_signature root_public_key (cert_preimage body) (drop (length data - 64) data)) ≫= fun _ =>
  if bool_decide (ce_serial cert ∈ revoked) then Err ProviderCertificateRevoked else
  if negb (str_lt now_utc (ce_expires_at cert)) then Err ProviderCertificateExpired else
  if negb (N.land (ce_capabilities cert) CAP_PROVIDER =? CAP_PROVIDER)%N then Err ProviderCapabilityDenied else
  Ok cert.
Definition self_check (root_public_key certificate relay_private_key now_utc : bytes) (revoked : gset bytes) : result Certificate :=
  cert ← verify_certificate root_public_key certificate now_utc revoked;
  if negb (bool_decide (public_key relay_private_key = ce_relay_public_key cert)) then Err RelayIdentityMismatch else Ok cert.

Definition sign_challenge (relay_private_key challenge : bytes) : result bytes :=
  if negb (length challenge =? CHALLENGE_LEN) then Err InvalidProviderChallenge else Ok (sign relay_private_key (challenge_preimage challenge)).
Definition verify_challenge (cert : Certificate) (challenge signature : bytes) : result unit :=
  if negb (length challenge =? CHALLENGE_LEN) then Err InvalidProviderChallenge else
  map_err UntrustedRelay (verify_signature (ce_relay_public_key cert) (challenge_preimage challenge) signature).

Definition issue_revocation_list (root_private_key issued_at : bytes) (serials : list bytes) : result bytes :=
  body ← encode_krl_body issued_at serials;
  Ok (KRL_MAGIC ++ [FORMAT_VERSION] ++ body ++ sign root_private_key (krl_preimage body)).
Definition verify_revocation_list (root_public_key data : bytes) : result (gset bytes) :=
  if (length data <? 4 + 1 + 64) || negb (bool_decide (take 4 data = KRL_MAGIC)) then Err InvalidProviderCertificate else
  if negb (bool_decide (data !! 4 = Some FORMAT_VERSION)) then Err InvalidProviderCertificate else
  let body := take (length data - 64 - 5) (drop 5 data) in
  map_err InvalidProviderCertificate (verify_signature root_public_key (krl_preimage body) (drop (length data - 64) data)) ≫= fun _ =>
  decode_krl_serials body.
End provider.

(** ** Packages ([src/src/package.rs]) *)

Module Package.
Definition MAGIC : bytes := str "KQPK".
Definition VERSION : byte := x01.
Definition DOMAIN : bytes := str "KQ-PACKAGE-v1".
Definition MAX_PACKAGE_BYTES : N := 16 * 1024 * 1024.
Definition MAX_COMPONENTS : nat := 16.
Definition MAX_COMPONENT_BYTES : N := 8 * 1024 * 1024.

Inductive Purpose := ClientSetup | ClientUpdate | ProviderInfo | ProviderRecovery.
#[export] Instance Purpose_eq_dec : EqDecision Purpose.
Proof. solve_decision. Defined.
Definition purpose_tag (p : Purpose) : byte := match p with ClientSetup => x01 | ClientUpdate => x02 | ProviderInfo => x03 | ProviderRecovery => x04 end.
Definition purpose_from_tag (b : byte) : result Purpose :=
  match b with x01 => Ok ClientSetup | x02 => Ok ClientUpdate | x03 => Ok ProviderInfo | x04 => Ok ProviderRecovery | _ => Err InvalidKqpkg end.
Definition is_client (p : Purpose) : bool := match p with ClientSetup | ClientUpdate => true | _ => false end.
Definition purpose_name (p : Purpose) : bytes :=
  match p with ClientSetup => str "client_setup" | ClientUpdate => str "client_update" | ProviderInfo => str "provider_info" | ProviderRecovery => str "provider_recovery" end.

Inductive ComponentKind := Certificate_ | RevocationList | Policy | ApiKeyBundle | ApiKeyLetter | SetupManifest | RecoveryPayload.
#[export] Instance ComponentKind_eq_dec : EqDecision ComponentKind.
Proof. solve_decision. Defined.
Definition max_bytes (k : ComponentKind) : N :=
  match k with
  | Certificate_ => 16 * 1024 | RevocationList => 1024 * 1024 | Policy => 256 * 1024 | ApiKeyBundle | ApiKeyLetter => 128 * 1024
  | SetupManifest => 256 * 1024 | RecoveryPayload => 64 * 1024
  end.
Definition kind_tag (k : ComponentKind) : byte :=
  match k with Certificate_ => x01 | RevocationList => x02 | Policy => x03 | ApiKeyBundle => x04 | ApiKeyLetter => x05 | SetupManifest => x06 | RecoveryPayload => x07 end.
Definition kind_from_tag (b : byte) : result ComponentKind :=
  match b with
  | x01 => Ok Certificate_ | x02 => Ok RevocationList | x03 => Ok Policy | x04 => Ok ApiKeyBundle | x05 => Ok ApiKeyLetter | x06 => Ok SetupManifest | x07 => Ok RecoveryPayload
  | _ => Err KqpkgComponentRejected
  end.
Definition carries_key (k : ComponentKind) : bool := match k with ApiKeyBundle | ApiKeyLetter => true | _ => false end.
Definition allowed_in (k : ComponentKind) (p : Purpose) : bool :=
  match k with
  | Certificate_ => true
  | RevocationList | Policy => bool_decide (p = ProviderInfo)
  | ApiKeyBundle | ApiKeyLetter | SetupManifest => is_client p
  | RecoveryPayload => bool_decide (p = ProviderRecovery)
  end.

Record Component := { co_kind : ComponentKind; co_bytes : bytes }.
Record Pkg := { pk_purpose : Purpose; pk_id : bytes; pk_issued_at : N; pk_expires_at : N; pk_issuer : bytes; pk_components : list Component }.

Definition POLICY_MAGIC : bytes := str "KQPL".
Definition KIND_API_KEY_ISSUE : byte := x14.
Definition BUNDLE_TYPE_API_KEY : byte := x04.
Definition BUNDLE_TYPE_PROVIDER_RECOVERY : byte := x05.
Definition BUNDLE_TYPE_SETUP_MANIFEST : byte := x06.
Definition classify (data : bytes) : result ComponentKind :=
  if length data <? 4 then Err KqpkgComponentRejected else
  let magic := take 4 data in
  if bool_decide (magic = CERT_MAGIC) then Ok Certificate_ else
  if bool_decide (magic = KRL_MAGIC) then Ok RevocationList else
  if bool_decide (magic = POLICY_MAGIC) then Ok Policy else
  match format_of data with
  | Some format =>
      if bool_decide (format = PACKAGE) then
        '(kind, _, _) ← map_err KqpkgComponentRejected (parse_outer data);
        if bool_decide (kind = KIND_API_KEY_ISSUE) then Ok ApiKeyLetter else Err KqpkgComponentRejected
      else if bool_decide (format = EXPORT_BUNDLE) then
        '(kind, _, _) ← map_err KqpkgComponentRejected (parse_outer_as format data);
        if bool_decide (kind = BUNDLE_TYPE_API_KEY) then Ok ApiKeyBundle
        else if bool_decide (kind = BUNDLE_TYPE_SETUP_MANIFEST) then Ok SetupManifest
        else if bool_decide (kind = BUNDLE_TYPE_PROVIDER_RECOVERY) then Ok RecoveryPayload
        else Err KqpkgComponentRejected
      else Err KqpkgComponentRejected
  | None => Err KqpkgComponentRejected
  end.

Definition size (b : bytes) : N := N.of_nat (length b).
(** The loop of [check_components]: the kinds seen, and how many keys. *)
Fixpoint scan_components (p : Purpose) (l : list Component) (seen : list ComponentKind) (keys : nat) : result (list ComponentKind * nat) :=
  match l with
  | [] => Ok (seen, keys)
  | c :: l =>
      if (MAX_COMPONENT_BYTES <? size (co_bytes c))%N || (max_bytes (co_kind c) <? size (co_bytes c))%N then Err InvalidKqpkg else
      kind ← classify (co_bytes c);
      if negb (bool_decide (kind = co_kind c)) || negb (allowed_in (co_kind c) p) then Err KqpkgComponentRejected else
      if carries_key (co_kind c) then scan_components p l seen (keys + 1)
      else if bool_decide (co_kind c ∈ seen) then Err KqpkgComponentRejected
      else scan_components p l (seen ++ [co_kind c]) keys
  end.
Definition check_components (p : Purpose) (l : list Component) : result unit :=
  if MAX_COMPONENTS <? length l then Err InvalidKqpkg else
  '(seen, keys) ← scan_components p l [] 0;
  if negb (bool_decide (Certificate_ ∈ seen)) then Err KqpkgComponentRejected else
  if is_client p && (keys =? 0) then Err KqpkgComponentRejected else
  if bool_decide (p = ProviderRecovery) && negb (bool_decide (RecoveryPayload ∈ seen)) then Err KqpkgComponentRejected else Ok tt.

Section packages.
Context `{C : Crypto}.
Definition signed_message (body : bytes) : bytes := DOMAIN ++ sha256 body.
Definition push_component (c : Component) : result bytes :=
  b ← map_err InvalidKqpkg (push_len_prefixed_u32 (co_bytes c));
  Ok ([kind_tag (co_kind c)] ++ sha256 (co_bytes c) ++ b).
Definition package_body (p : Pkg) : result bytes :=
  count ← map_err InvalidKqpkg (try_u16 (length (pk_components p)));
  components ← encode_all push_component (pk_components p);
  Ok (MAGIC ++ [VERSION] ++ [purpose_tag (pk_purpose p)] ++ pk_id p ++ be_bytes 8 (pk_issued_at p) ++ be_bytes 8 (pk_expires_at p) ++ pk_issuer p ++ be_bytes 2 count ++ components).
Definition encode (p : Pkg) (issuer_private_key : bytes) : result bytes :=
  if negb (bool_decide (public_key issuer_private_key = pk_issuer p)) || (pk_expires_at p <=? pk_issued_at p)%N then Err InvalidKqpkg else
  check_components (pk_purpose p) (pk_components p) ≫= fun _ =>
  body ← package_body p;
  let out := body ++ sign issuer_private_key (signed_message body) in
  if (MAX_PACKAGE_BYTES <? size out)%N then Err InvalidKqpkg else Ok out.

(** [.map_err(malformed)] on a step of the parse. *)
Definition malformed {B} (p : parser B) : parser B := fun data => map_err InvalidKqpkg (p data).
Definition take_component : parser Component :=
  tag ← malformed take_u8;
  kind ← lift (kind_from_tag tag);
  hash ← malformed (take_array 32);
  b ← malformed take_len_prefixed_u32;
  if (MAX_COMPONENT_BYTES <? size b)%N || (max_bytes kind <? size b)%N || negb (bool_decide (sha256 b = hash)) then fail InvalidKqpkg else
  mret {| co_kind := kind; co_bytes := b |}.
Definition take_package : parser Pkg :=
  magic ← malformed (take_n 4);
  if negb (bool_decide (magic = MAGIC)) then fail InvalidKqpkg else
  version ← malformed take_u8;
  if negb (bool_decide (version = VERSION)) then fail InvalidKqpkg else
  tag ← malformed take_u8;
  purpose ← lift (purpose_from_tag tag);
  id ← malformed (take_array 16);
  issued_at ← malformed (take_array 8);
  expires_at ← malformed (take_array 8);
  issuer ← malformed (take_array 32);
  count ← malformed (take_array 2);
  if MAX_COMPONENTS <? N.to_nat (of_be count) then fail InvalidKqpkg else
  components ← repeat_parser (N.to_nat (of_be count)) take_component;
  mret {| pk_purpose := purpose; pk_id := id; pk_issued_at := of_be issued_at; pk_expires_at := of_be expires_at; pk_issuer := issuer; pk_components := components |}.
Definition decode (data : bytes) : result Pkg :=
  if (MAX_PACKAGE_BYTES <? size data)%N || (length data <? 64) then Err InvalidKqpkg else
  let body := take (length data - 64) data in
  '(p, rest) ← take_package body;
  if negb (bool_decide (rest = [])) then Err InvalidKqpkg else
  map_err InvalidKqpkg (verify_signature (pk_issuer p) (signed_message body) (drop (length data - 64) data)) ≫= fun _ =>
  if (pk_expires_at p <=? pk_issued_at p)%N then Err InvalidKqpkg else
  check_components (pk_purpose p) (pk_components p) ≫= fun _ => Ok p.

Definition check_valid_at (p : Pkg) (now : N) : result unit :=
  if (now <? pk_issued_at p)%N || (pk_expires_at p <=? now)%N then Err KqpkgExpired else Ok tt.
Definition verify_issuer (p : Pkg) (root_public_key now_utc : bytes) (revoked : gset bytes) : result unit :=
  if bool_decide (pk_purpose p = ProviderRecovery) then (if bool_decide (pk_issuer p = root_public_key) then Ok tt else Err KqpkgIssuerUntrusted) else
  certificate ← ok_or (first_row (fun c => bool_decide (co_kind c = Certificate_)) (pk_components p)) KqpkgComponentRejected;
  verified ← verify_certificate root_public_key (co_bytes certificate) now_utc revoked;
  if negb (bool_decide (ce_relay_public_key verified = pk_issuer p)) then Err KqpkgIssuerUntrusted else Ok tt.
End packages.
End Package.

(** ** Laws of certificates and packages *)

Definition cert_text (v : bytes) : Prop := forallb is_ascii v = true /\ v <> [].
Lemma get_n_app n b rest : length b = n -> get_n n (b ++ rest) = Ok (b, rest).
Proof. intros H. unfold get_n. by rewrite take_n_app. Qed.
Lemma get_n_Ok n data b rest : get_n n data = Ok (b, rest) -> data = b ++ rest /\ length b = n.
Proof. unfold get_n. intros E%map_err_Ok. by apply take_n_Ok. Qed.
Lemma cert_str_codec : codec_ok cert_text put_str take_str.
Proof.
  split.
  - intros v b rest [Ha Hn] E. unfold put_str in E. rewrite Ha, bool_decide_false in E by done. cbn [negb orb] in E. inv_ok; subst. unfold take_str. rewrite <- app_assoc.
    erewrite parser_bind_eq by (apply get_n_app, length_be_bytes). rewrite of_be_bytes, Nat2N.id by (by rewrite <- u16_width). erewrite parser_bind_eq by (by apply get_n_app).
    rewrite (is_utf8_ascii _ Ha), Ha, bool_decide_false by done. done.
  - intros data v rest E. unfold take_str in E. inv_parser. destruct (_ || _) eqn:B; [done|]. inv_parser. bool_hyps. apply get_n_Ok in H as [-> Hl], H0 as [-> Hl']. subst. split; [done|].
    unfold put_str. rewrite H5, bool_decide_false by done. cbn [negb orb]. exists (v0 ++ v). rewrite app_assoc. split; [|done].
    assert (N.of_nat (length v) = of_be v0) as EL by (rewrite Hl'; apply N2Nat.id). unfold try_u16. rewrite EL. pose proof (of_be_bound v0) as Hb. rewrite Hl, <- u16_width in Hb. apply N.ltb_lt in Hb. rewrite Hb. cbn. by rewrite be_bytes_of_be_n.
Qed.
Definition cert_wf (c : Certificate) : Prop :=
  cert_text (ce_provider_id c) /\ cert_text (ce_serial c) /\ fixed 32 (ce_relay_public_key c) /\ cert_text (ce_issued_at c) /\ cert_text (ce_expires_at c) /\ (ce_capabilities c < u32_max)%N /\ cert_text (ce_issuer_id c).
Lemma cert_codec : codec_ok cert_wf encode_cert_body take_cert_body.
Proof.
  split.
  - intros c b rest (H1 & H2 & H3 & H4 & H5 & H6 & H7) E. unfold encode_cert_body in E. inv_ok; subst. unfold take_cert_body. rewrite <- !app_assoc.
    rewrite (parser_bind_eq _ _ _ _ _ (codec_roundtrip _ _ _ cert_str_codec _ _ _ H1 H)). rewrite (parser_bind_eq _ _ _ _ _ (codec_roundtrip _ _ _ cert_str_codec _ _ _ H2 H0)). erewrite parser_bind_eq by (by apply get_n_app).
    rewrite (parser_bind_eq _ _ _ _ _ (codec_roundtrip _ _ _ cert_str_codec _ _ _ H4 H8)). rewrite (parser_bind_eq _ _ _ _ _ (codec_roundtrip _ _ _ cert_str_codec _ _ _ H5 H9)). erewrite parser_bind_eq by (apply get_n_app, length_be_bytes). rewrite (parser_bind_eq _ _ _ _ _ (codec_roundtrip _ _ _ cert_str_codec _ _ _ H7 H10)). rewrite of_be_bytes by (by rewrite <- u32_width). by destruct c.
  - intros data c rest E. unfold take_cert_body in E. inv_parser. repeat match goal with H : get_n _ _ = Ok _ |- _ => apply get_n_Ok in H as [-> ?] | H : take_str _ = Ok _ |- _ => canon H cert_str_codec end. subst.
    match goal with H : length ?v = 4 |- _ => pose proof (of_be_bound v) as Hb; rewrite H, <- u32_width in Hb end.
    split; [by split_and!|]. unfold encode_cert_body. cbn. run_enc. eexists; split; [done|]. rewrite be_bytes_of_be_n by done. simplify_eq. by rewrite <- !app_assoc.
Qed.

Section cert_laws.
Context `{C : Crypto} `{!CryptoLaws C}.

Definition cert_of (body signature : bytes) : bytes := CERT_MAGIC ++ [FORMAT_VERSION] ++ body ++ signature.
(** A certificate parses when it is one body, framed, before a signature. *)
Lemma parse_certificate_iff data cert body : parse_certificate_body data = Ok (cert, body) <->
  cert_wf cert /\ encode_cert_body cert = Ok body /\ exists signature, fixed 64 signature /\ data = cert_of body signature.
Proof.
  unfold parse_certificate_body. split.
  - destruct (_ || _) eqn:EG; [done|]. apply orb_false_iff in EG as [L%Nat.ltb_ge EM%negb_false_iff%bool_decide_eq_true]. case_bool_decide as EV; [|done]. cbn [negb].
    intros ([cert' rest] & (HW & b & Eb & Ed)%(codec_canonical _ _ _ cert_codec) & E)%bind_Ok. case_bool_decide as ER; [|done]. injection E as -> <-. subst rest. rewrite app_nil_r in Ed.
    split; [done|]. split; [by rewrite Ed|]. exists (drop (length data - 64) data). split; [unfold fixed; rewrite length_drop; lia|]. unfold cert_of.
    rewrite <- (take_drop 4 data) at 1. rewrite EM. f_equal. rewrite <- (take_drop 1 (drop 4 data)). rewrite drop_drop. cbn [Nat.add]. f_equal.
    + destruct (drop 4 data) as [|x l] eqn:ED; [apply (f_equal length) in ED; rewrite length_drop in ED; cbn in ED; lia|]. cbn. assert (data !! 4 = Some x) as EX by (rewrite <- (Nat.add_0_r 4), <- lookup_drop, ED; done). rewrite EV in EX. by injection EX as ->.
    + rewrite <- (take_drop (length data - 64 - 5) (drop 5 data)) at 1. f_equal. rewrite drop_drop. f_equal. lia.
  - intros (HW & Eb & sig & Hs & ->). unfold cert_of, fixed in *. set (all := CERT_MAGIC ++ [FORMAT_VERSION] ++ body ++ sig).
    assert (length all = length body + 69) as HL by (unfold all; rewrite !length_app, Hs; cbn; lia).
    assert (32 <= length body) as HB. { destruct HW as (_ & _ & H3 & _). unfold encode_cert_body in Eb. inv_ok; subst. rewrite !length_app, H3. lia. }
    destruct (Nat.ltb_spec (length all) (4 + 1 + 32 + 64)); [lia|]. replace (take 4 all) with CERT_MAGIC by done. rewrite bool_decide_true by done. cbn [negb orb]. replace (all !! 4) with (Some FORMAT_VERSION) by done. rewrite bool_decide_true by done. cbn [negb].
    replace (drop 5 all) with (body ++ sig) by done. rewrite HL. replace (length body + 69 - 64 - 5) with (length body) by lia. rewrite take_app_length.
    pose proof (codec_roundtrip _ _ _ cert_codec cert body [] HW Eb) as ET. rewrite app_nil_r in ET. rewrite ET. cbn [mbind result_bind]. by rewrite bool_decide_true.
Qed.
Lemma cert_tail body signature : length signature = 64 -> drop (length (cert_of body signature) - 64) (cert_of body signature) = signature.
Proof. intros H. unfold cert_of. rewrite !app_assoc, length_app, H, Nat.add_sub. by rewrite drop_app_length. Qed.

(** What a client may conclude from a certificate it accepts. *)
Definition certified (root now_utc : bytes) (revoked : gset bytes) (data : bytes) (cert : Certificate) : Prop :=
  cert_wf cert /\ (exists body signature, encode_cert_body cert = Ok body /\ data = cert_of body signature /\ fixed 64 signature /\ verify_signature root (cert_preimage body) signature = Ok tt) /\
  ce_serial cert ∉ revoked /\ str_lt now_utc (ce_expires_at cert) = true /\ N.land (ce_capabilities cert) CAP_PROVIDER = CAP_PROVIDER.
Lemma verify_certificate_iff root data now revoked cert : verify_certificate root data now revoked = Ok cert <-> certified root now revoked data cert.
Proof.
  unfold verify_certificate, certified. split.
  - intros ([cert' body] & (HW & Eb & sig & Hs & ->)%parse_certificate_iff & E)%bind_Ok. rewrite cert_tail in E by done. apply bind_Ok in E as ([] & EV%map_err_Ok & E). case_bool_decide; [done|].
    destruct (str_lt now _) eqn:EL; [|done]. cbn [negb] in E. destruct (N.eqb_spec (N.land (ce_capabilities cert') CAP_PROVIDER) CAP_PROVIDER); [|done]. injection E as ->. split_and!; try done. by exists body, sig.
  - intros (HW & (body & sig & Eb & -> & Hs & EV) & HR & HT & HC). rewrite (proj2 (parse_certificate_iff _ cert body)) by (split_and!; [done..|]; by exists sig). cbn [mbind result_bind].
    rewrite cert_tail by done. rewrite EV. cbn [map_err mbind result_bind]. rewrite bool_decide_false by done. rewrite HT. cbn [negb]. by rewrite HC, N.eqb_refl.
Qed.
End cert_laws.

Module PackageLaws.
Import Package.

Definition component_fits (c : Component) : Prop := (size (co_bytes c) <= MAX_COMPONENT_BYTES)%N /\ (size (co_bytes c) <= max_bytes (co_kind c))%N.
Definition package_fits (p : Pkg) : Prop :=
  fixed 16 (pk_id p) /\ (pk_issued_at p < u64_max)%N /\ (pk_expires_at p < u64_max)%N /\ fixed 32 (pk_issuer p) /\ length (pk_components p) <= MAX_COMPONENTS /\ Forall component_fits (pk_components p).

Lemma malformed_app {B} (p : parser B) data x rest : p data = Ok (x, rest) -> malformed p data = Ok (x, rest).
Proof. unfold malformed. by intros ->. Qed.
Lemma malformed_Ok {B} (p : parser B) data x rest : malformed p data = Ok (x, rest) -> p data = Ok (x, rest).
Proof. unfold malformed. apply map_err_Ok. Qed.
Lemma kind_tag_back k : kind_from_tag (kind_tag k) = Ok k.
Proof. by destruct k. Qed.
Lemma kind_tag_forth b k : kind_from_tag b = Ok k -> b = kind_tag k.
Proof. destruct b; cbn; intros E; try discriminate E; by injection E as <-. Qed.
Lemma purpose_tag_back p : purpose_from_tag (purpose_tag p) = Ok p.
Proof. by destruct p. Qed.
Lemma purpose_tag_forth b p : purpose_from_tag b = Ok p -> b = purpose_tag p.
Proof. destruct b; cbn; intros E; try discriminate E; by injection E as <-. Qed.

(** What the scan of the components leaves. *)
Lemma scan_Ok p l seen keys seen' keys' : scan_components p l seen keys = Ok (seen', keys') -> NoDup seen ->
  Forall (fun c => component_fits c /\ classify (co_bytes c) = Ok (co_kind c) /\ allowed_in (co_kind c) p = true) l /\
  NoDup seen' /\ seen' = seen ++ map co_kind (filter (fun c => carries_key (co_kind c) = false) l) /\ keys' = keys + length (filter (fun c => carries_key (co_kind c) = true) l).
Proof.
  revert seen keys; induction l as [|c l IH]; intros seen keys E HN; cbn in E.
  - injection E as <- <-. cbn. rewrite app_nil_r, Nat.add_0_r. by split_and!.
  - destruct (_ || _) eqn:EB; [done|]. apply orb_false_iff in EB as [B1%N.ltb_ge B2%N.ltb_ge]. apply bind_Ok in E as (kind & EK & E). destruct (_ || _) eqn:EB; [done|]. apply orb_false_iff in EB as [->%negb_false_iff%bool_decide_eq_true B3%negb_false_iff].
    rewrite !filter_cons. destruct (carries_key (co_kind c)) eqn:ECK.
    + rewrite decide_False, decide_True by done. destruct (IH _ _ E HN) as (H1 & H2 & H3 & H4). split_and!; [by constructor|done..|cbn; lia].
    + rewrite decide_True, decide_False by done. case_bool_decide as EM; [done|]. destruct (IH _ _ E) as (H1 & H2 & H3 & H4).
      { apply NoDup_app. split_and!; [done| |apply NoDup_singleton]. intros x Hx ->%list_elem_of_singleton. done. }
      split_and!; [by constructor|done| |done]. cbn. by rewrite <- app_assoc in H3.
Qed.
(** What a package's components are, for its purpose. *)
Record components_ok (p : Purpose) (l : list Component) : Prop := {
  ck_few : length l <= MAX_COMPONENTS;
  ck_each : Forall (fun c => component_fits c /\ classify (co_bytes c) = Ok (co_kind c) /\ allowed_in (co_kind c) p = true) l;
  ck_once : NoDup (map co_kind (filter (fun c => carries_key (co_kind c) = false) l));
  ck_certificate : exists c, c ∈ l /\ co_kind c = Certificate_;
  ck_key : is_client p = true -> exists c, c ∈ l /\ carries_key (co_kind c) = true;
  ck_recovery : p = ProviderRecovery -> exists c, c ∈ l /\ co_kind c = RecoveryPayload;
}.
Lemma check_components_Ok p l : check_components p l = Ok tt -> components_ok p l.
Proof.
  unfold check_components. destruct (Nat.ltb_spec MAX_COMPONENTS (length l)) as [|L]; [done|]. intros ([seen keys] & ES & E)%bind_Ok. destruct (scan_Ok _ _ _ _ _ _ ES (NoDup_nil_2)) as (H1 & H2 & -> & ->). cbn [app] in *.
  assert (forall k, k ∈ map co_kind (filter (fun c => carries_key (co_kind c) = false) l) -> exists c, c ∈ l /\ co_kind c = k) as Hk by (intros k (c & -> & [_ Hc]%list_elem_of_filter)%list_elem_of_fmap_1; eauto).
  case_bool_decide as EC; [|done]. cbn [negb] in E. destruct (is_client p && _) eqn:EK; [done|]. destruct (bool_decide (p = ProviderRecovery) && _) eqn:ER; [done|]. split; [done..|by apply Hk| |].
  - intros Hp. rewrite Hp in EK. cbn in EK. destruct (filter (fun c => carries_key (co_kind c) = true) l) as [|c k] eqn:EF; [done|]. exists c. assert (c ∈ filter (fun c => carries_key (co_kind c) = true) l) as [? ?]%list_elem_of_filter by (rewrite EF; by constructor). done.
  - intros ->. cbn in ER. apply Hk. by apply negb_false_iff, bool_decide_eq_true in ER.
Qed.

Section package_laws.
Context `{C : Crypto} `{!CryptoLaws C}.

Lemma component_codec : codec_ok component_fits push_component take_component.
Proof.
  split.
  - intros c b rest [H1 H2] E. unfold push_component in E. apply bind_Ok in E as (e & Ee%map_err_Ok & [= <-]). unfold take_component. cbn [app]. rewrite <- ?app_assoc.
    erewrite parser_bind_eq by (by apply malformed_app). erewrite parser_bind_eq by (apply lift_Ok; split; [apply kind_tag_back|done]). erewrite parser_bind_eq by (apply malformed_app, take_n_app, sha256_length).
    erewrite parser_bind_eq by (by apply malformed_app, take_len_prefixed_u32_push). apply N.ltb_ge in H1, H2. rewrite H1, H2, bool_decide_true by done. by destruct c.
  - intros data c rest E. unfold take_component in E. inv_parser. destruct (_ || _) eqn:B; [done|]. inv_parser. subst. apply orb_false_iff in B as [[B1%N.ltb_ge B2%N.ltb_ge]%orb_false_iff <-%negb_false_iff%bool_decide_eq_true].
    apply malformed_Ok, take_u8_Ok in H as ->. apply lift_Ok in H0 as [->%kind_tag_forth <-]. apply malformed_Ok, take_n_Ok in H1 as [-> _]. apply malformed_Ok, take_len_prefixed_u32_canonical in H2 as (e & Ee & ->).
    split; [done|]. unfold push_component. cbn. rewrite Ee. cbn. eexists; split; [done|]. cbn. by rewrite <- app_assoc.
Qed.
Lemma package_codec : codec_ok package_fits package_body take_package.
Proof.
  split.
  - intros p b rest (H1 & H2 & H3 & H4 & H5 & H6) E. unfold package_body in E. apply bind_Ok in E as (n & [-> Hn]%map_err_Ok%try_u16_Ok & E). apply bind_Ok in E as (all & Eall & E). apply Ok_inj in E as <-. unfold take_package. rewrite <- !app_assoc.
    erewrite parser_bind_eq by (by apply malformed_app, take_n_app). rewrite bool_decide_true by done. cbn [negb app]. erewrite parser_bind_eq by (by apply malformed_app). rewrite bool_decide_true by done. cbn [negb].
    erewrite parser_bind_eq by (by apply malformed_app). erewrite parser_bind_eq by (apply lift_Ok; split; [apply purpose_tag_back|done]). erewrite parser_bind_eq by (by apply malformed_app, take_n_app).
    do 2 (erewrite parser_bind_eq by (apply malformed_app, take_n_app, length_be_bytes)). erewrite parser_bind_eq by (by apply malformed_app, take_n_app). erewrite parser_bind_eq by (apply malformed_app, take_n_app, length_be_bytes).
    rewrite u16_count_back by done. destruct (Nat.ltb_spec MAX_COMPONENTS (length (pk_components p))); [lia|]. erewrite parser_bind_eq by (by eapply (codec_repeat_roundtrip component_codec)).
    rewrite !of_be_bytes by (by rewrite <- u64_width). by destruct p.
  - intros data p rest E. unfold take_package in E. inv_parser. case_bool_decide; [|done]. cbn [negb] in E. inv_parser. case_bool_decide; [|done]. cbn [negb] in E. inv_parser.
    destruct (Nat.ltb_spec MAX_COMPONENTS (N.to_nat (of_be v7))) as [|L]; [done|]. inv_parser.
    repeat match goal with H : malformed _ _ = Ok _ |- _ => apply malformed_Ok in H end. repeat match goal with H : take_array _ _ = Ok _ |- _ => apply take_n_Ok in H as [-> ?] | H : take_n _ _ = Ok _ |- _ => apply take_n_Ok in H as [-> ?]
      | H : take_u8 _ = Ok _ |- _ => apply take_u8_Ok in H as -> | H : lift _ _ = Ok _ |- _ => apply lift_Ok in H as [->%purpose_tag_forth ->] end.
    match goal with H : repeat_parser _ _ _ = Ok _ |- _ => apply (codec_repeat_canonical component_codec) in H as (Hlen & HF & eb & Eb & ->) end. subst.
    match goal with H : length ?c = 2 |- _ => destruct (u16_count_forth c _ H Hlen) as [En Ec] end.
    split; [split_and!; cbn; try done; try lia; rewrite u64_width; match goal with |- (of_be ?v < _)%N => replace 8 with (length v) by done; apply of_be_bound end|].
    unfold package_body. cbn. rewrite En. cbn. rewrite Eb. cbn. eexists; split; [done|]. rewrite !be_bytes_of_be_n by done. cbn [app]. by rewrite <- !app_assoc.
Qed.

Lemma decode_iff data p : decode data = Ok p <->
  package_fits p /\ (pk_issued_at p < pk_expires_at p)%N /\ check_components (pk_purpose p) (pk_components p) = Ok tt /\ (size data <= MAX_PACKAGE_BYTES)%N /\
  exists body signature, package_body p = Ok body /\ fixed 64 signature /\ data = body ++ signature /\ verify_signature (pk_issuer p) (signed_message body) signature = Ok tt.
Proof.
  unfold decode. split.
  - destruct (_ || _) eqn:EG; [done|]. apply orb_false_iff in EG as [L1%N.ltb_ge L2%Nat.ltb_ge]. intros ([p' rest] & (HW & body & Eb & Ed)%(codec_canonical _ _ _ package_codec) & E)%bind_Ok.
    case_bool_decide as ER; [|done]. subst rest. rewrite app_nil_r in Ed. cbn [negb] in E. apply bind_Ok in E as ([] & EV%map_err_Ok & E). destruct (N.leb_spec (pk_expires_at p') (pk_issued_at p')) as [|HT]; [done|]. apply bind_Ok in E as ([] & EC & [= ->]).
    split_and!; [done..|]. exists body, (drop (length data - 64) data). split_and!; [done|unfold fixed; rewrite length_drop; lia|by rewrite <- Ed, take_drop|by rewrite <- Ed].
  - intros (HW & HT & HC & HL & body & sig & Eb & Hs & -> & EV). unfold fixed in Hs. apply N.ltb_ge in HL. rewrite HL. cbn [orb]. rewrite length_app, Hs. destruct (Nat.ltb_spec (length body + 64) 64); [lia|].
    replace (length body + 64 - 64) with (length body) by lia. rewrite take_app_length, drop_app_length. pose proof (codec_roundtrip _ _ _ package_codec p body [] HW Eb) as ET. rewrite app_nil_r in ET. rewrite ET. cbn [mbind result_bind].
    rewrite bool_decide_true by done. cbn [negb]. rewrite EV. cbn [map_err mbind result_bind]. destruct (N.leb_spec (pk_expires_at p) (pk_issued_at p)); [lia|]. by rewrite HC.
Qed.

(** C17: A package is trusted for what it is. Whatever the bytes, a package that decodes,
    is within its time and has its issuer verified against the pinned root is the one encoding of
    its fields, signed as a whole by its issuer; it has at most sixteen components, each
    within its size, of the kind its own bytes say and allowed for the purpose, no kind twice but keys, one of them a
    certificate, and a key if it is for a client; and its issuer is the root, for a recovery, or
    else the relay key of that certificate, which the root signed, which is not
    revoked, has not expired and grants every capability of a provider. And what an
    issuer encodes with its key decodes to what it was. *)
Theorem package_trusted data p root now_utc now revoked :
  (decode data = Ok p -> check_valid_at p now = Ok tt -> verify_issuer p root now_utc revoked = Ok tt ->
    package_fits p /\ (pk_issued_at p <= now < pk_expires_at p)%N /\ components_ok (pk_purpose p) (pk_components p) /\
    (exists body signature, package_body p = Ok body /\ data = body ++ signature /\ fixed 64 signature /\ verify_signature (pk_issuer p) (signed_message body) signature = Ok tt) /\
    (if decide (pk_purpose p = ProviderRecovery) then pk_issuer p = root
     else exists c cert, c ∈ pk_components p /\ co_kind c = Certificate_ /\ certified root now_utc revoked (co_bytes c) cert /\ ce_relay_public_key cert = pk_issuer p)) /\
  (forall secret, package_fits p -> encode p secret = Ok data -> decode data = Ok p).
Proof.
  split.
  - intros (HW & HT & HC & HL & body & sig & Eb & Hs & -> & EV)%decode_iff EN EI. unfold check_valid_at in EN. destruct (_ || _) eqn:EB in EN; [done|]. apply orb_false_iff in EB as [B1%N.ltb_ge B2%N.leb_gt].
    split_and!; [done..|by apply check_components_Ok|by exists body, sig|]. unfold verify_issuer in EI. case_decide as EP; [rewrite bool_decide_true in EI by done; by case_bool_decide|]. rewrite bool_decide_false in EI by done.
    apply bind_Ok in EI as (c & [Hc Hk%bool_decide_eq_true]%ok_or_Ok%first_row_Some & EI). apply bind_Ok in EI as (cert & EC%verify_certificate_iff & EI). case_bool_decide as Ek; [|done]. by exists c, cert.
  - intros secret HW E. unfold encode in E. destruct (_ || _) eqn:EB; [done|]. apply orb_false_iff in EB as [EK%negb_false_iff%bool_decide_eq_true HT%N.leb_gt]. apply bind_Ok in E as ([] & EC & E). apply bind_Ok in E as (body & Eb & E).
    destruct (N.ltb_spec MAX_PACKAGE_BYTES (size (body ++ sign secret (signed_message body)))) as [|HL]; [done|]. injection E as <-. apply decode_iff. split_and!; [done..|]. exists body, (sign secret (signed_message body)).
    split_and!; [done|apply ed25519_sign_length|done|]. rewrite <- EK. unfold verify_signature, public_key, sign. rewrite ed25519_public_ok. cbn. by rewrite ed25519_verify_sign.
Qed.
End package_laws.
End PackageLaws.

(** ** Set-up manifests ([src/src/setup_manifest.rs]) *)

Module Manifest.
Import Package.
Definition VERSION : N := 2.
Definition MAX_OPERATIONS : nat := 32.

Inductive Operation :=
| EnsureIdentity (id : bytes) (needs : list bytes)
| InstallCertificate (id : bytes) (needs : list bytes) (component : bytes)
| InstallKey (id : bytes) (needs : list bytes) (component : bytes)
| UseRelay (id : bytes) (needs : list bytes) (key : bytes).
Definition op_id (o : Operation) : bytes := match o with EnsureIdentity id _ | InstallCertificate id _ _ | InstallKey id _ _ | UseRelay id _ _ => id end.
Definition op_needs (o : Operation) : list bytes := match o with EnsureIdentity _ n | InstallCertificate _ n _ | InstallKey _ n _ | UseRelay _ n _ => n end.
Definition op_component (o : Operation) : option bytes := match o with EnsureIdentity _ _ => None | InstallCertificate _ _ c | InstallKey _ _ c | UseRelay _ _ c => Some c end.
Definition is_use_relay (o : Operation) : bool := match o with UseRelay _ _ _ => true | _ => false end.

Record Body := {
  by_version : N; by_package_id : bytes; by_purpose : bytes; by_recipient : bytes; by_device_id : option bytes; by_expires_at : N; by_generation : N;
  by_certificate_sha256 : bytes; by_operations : list Operation }.

Definition is_hex (s : bytes) (len : nat) : bool := (length s =? len) && forallb (fun b => bool_decide (b ∈ str "0123456789abcdef")) s.
Definition step_id_ok (id : bytes) : bool :=
  negb (bool_decide (id = [])) && (length id <=? 32) && forallb (fun b => bool_decide (b ∈ str "abcdefghijklmnopqrstuvwxyz0123456789_-")) id.

Section manifests.
Context `{C : Crypto} `{HX : Hex}.
Definition hash_of (b : bytes) : bytes := hex_encode (sha256 b).

(** [format!("key-{}", index + 1)] *)
Fixpoint key_steps (index : nat) (hashes : list bytes) : list Operation :=
  match hashes with
  | [] => []
  | h :: hashes => InstallKey (str "key-" ++ to_string (N.of_nat (index + 1))) [str "certificate"] h :: key_steps (index + 1) hashes
  end.
Definition standard_operations (certificate_hash : bytes) (key_hashes : list bytes) : list Operation :=
  [EnsureIdentity (str "identity") []; InstallCertificate (str "certificate") [str "identity"] certificate_hash] ++ key_steps 0 key_hashes ++
  match key_hashes with first :: _ => [UseRelay (str "relay") [str "key-1"] first] | [] => [] end.

(** What the loop of [validate] remembers: the place of each step, the certificate's step,
    and the step of each key. *)
Record Scan := { sc_seen : gmap bytes nat; sc_certificate : option bytes; sc_keys : gmap bytes bytes }.
Definition step_scan (first_id : bytes) (index : nat) (o : Operation) (s : Scan) : result Scan :=
  let id := op_id o in
  if negb (step_id_ok id) || bool_decide (is_Some (sc_seen s !! id)) then Err InvalidSetupManifest else
  let seen := <[id := index]> (sc_seen s) in
  if negb (forallb (fun need => match seen !! need with Some at_ => at_ <? index | None => false end) (op_needs o)) then Err InvalidSetupManifest else
  if match op_component o with Some hash => negb (is_hex hash 64) | None => false end then Err InvalidSetupManifest else
  match o with
  | EnsureIdentity _ needs =>
      if negb (index =? 0) || negb (bool_decide (needs = [])) then Err InvalidSetupManifest
      else Ok {| sc_seen := seen; sc_certificate := sc_certificate s; sc_keys := sc_keys s |}
  | InstallCertificate _ needs _ =>
      if (index =? 0) || bool_decide (is_Some (sc_certificate s)) || negb (bool_decide (first_id ∈ needs)) then Err InvalidSetupManifest
      else Ok {| sc_seen := seen; sc_certificate := Some id; sc_keys := sc_keys s |}
  | InstallKey _ needs component =>
      if negb match sc_certificate s with Some c => bool_decide (c ∈ needs) | None => false end || bool_decide (is_Some (sc_keys s !! component)) then Err InvalidSetupManifest
      else Ok {| sc_seen := seen; sc_certificate := sc_certificate s; sc_keys := <[component := id]> (sc_keys s) |}
  | UseRelay _ needs key =>
      if negb match sc_keys s !! key with Some step => bool_decide (step ∈ needs) | None => false end then Err InvalidSetupManifest
      else Ok {| sc_seen := seen; sc_certificate := sc_certificate s; sc_keys := sc_keys s |}
  end.
Fixpoint scan_steps (first_id : bytes) (index : nat) (l : list Operation) (s : Scan) : result Scan :=
  match l with [] => Ok s | o :: l => s' ← step_scan first_id index o s; scan_steps first_id (index + 1) l s' end.

Definition validate (b : Body) : result unit :=
  if negb (by_version b =? VERSION)%N || negb (is_hex (by_package_id b) 32) || negb (is_hex (by_recipient b) 64)
    || negb (bool_decide (by_purpose b = str "client_setup" \/ by_purpose b = str "client_update"))
    || match by_device_id b with Some d => negb (is_hex d 32) | None => false end
    || (by_generation b =? 0)%N || negb (is_hex (by_certificate_sha256 b) 64)
    || bool_decide (by_operations b = []) || (MAX_OPERATIONS <? length (by_operations b)) then Err InvalidSetupManifest else
  scan_steps (default [] (op_id <$> head (by_operations b))) 0 (by_operations b) {| sc_seen := ∅; sc_certificate := None; sc_keys := ∅ |} ≫= fun _ =>
  if negb match head (by_operations b) with Some (EnsureIdentity _ _) => true | _ => false end then Err InvalidSetupManifest else
  if 1 <? length (filter (fun o => is_use_relay o = true) (by_operations b)) then Err InvalidSetupManifest else Ok tt.

Definition parts_of (p : Pkg) (manifest_at : nat) : gmap bytes ComponentKind :=
  list_to_map (reverse (map (fun c => (hash_of (co_bytes c), co_kind c)) (take manifest_at (pk_components p) ++ drop (S manifest_at) (pk_components p)))).
Definition wanted (o : Operation) : list ComponentKind := match o with InstallCertificate _ _ _ => [Certificate_] | _ => [ApiKeyBundle; ApiKeyLetter] end.
Fixpoint use_parts (parts : gmap bytes ComponentKind) (l : list Operation) (used : gset bytes) : result (gset bytes) :=
  match l with
  | [] => Ok used
  | o :: l =>
      match op_component o with
      | None => use_parts parts l used
      | Some hash =>
          if negb match parts !! hash with Some kind => bool_decide (kind ∈ wanted o) | None => false end then Err KqpkgComponentRejected else
          if is_use_relay o then use_parts parts l used
          else if bool_decide (hash ∈ used) then Err KqpkgComponentRejected else use_parts parts l ({[ hash ]} ∪ used)
      end
  end.
Definition check_against (b : Body) (p : Pkg) (manifest_at : nat) (recipient_public_key device_id : bytes) (now_unix : N) : result unit :=
  if negb (bool_decide (by_package_id b = hex_encode (pk_id p))) || negb (bool_decide (by_purpose b = purpose_name (pk_purpose p)))
    || negb (bool_decide (by_recipient b = hex_encode recipient_public_key)) || match by_device_id b with Some d => negb (bool_decide (d = hex_encode device_id)) | None => false end
    || (by_expires_at b <=? now_unix)%N || (pk_expires_at p <? by_expires_at b)%N
    || negb (existsb (fun c => bool_decide (co_kind c = Certificate_) && bool_decide (hash_of (co_bytes c) = by_certificate_sha256 b)) (pk_components p)) then Err InvalidSetupManifest else
  used ← use_parts (parts_of p manifest_at) (by_operations b) ∅;
  if negb (base.size used =? base.size (parts_of p manifest_at)) then Err KqpkgComponentRejected else Ok tt.
End manifests.
End Manifest.

Module ManifestLaws.
Import Package Manifest.

(** Where a step may stand: after the steps it needs, under a name of its own; the identity
    first; one certificate; a key once, after the certificate; a relay after its key. *)
Definition may_stand (before : list Operation) (o : Operation) : Prop :=
  op_id o ∉ map op_id before /\ Forall (fun need => need ∈ map op_id before) (op_needs o) /\
  match o with
  | EnsureIdentity _ needs => before = [] /\ needs = []
  | InstallCertificate _ _ _ => before <> [] /\ forall id needs c, InstallCertificate id needs c ∉ before
  | InstallKey _ needs component => (exists id n c, InstallCertificate id n c ∈ before /\ id ∈ needs) /\ forall id n, InstallKey id n component ∉ before
  | UseRelay _ needs key => exists id n, InstallKey id n key ∈ before /\ id ∈ needs
  end.

Record scanned (before : list Operation) (s : Scan) : Prop := {
  sn_seen id : is_Some (sc_seen s !! id) <-> id ∈ map op_id before;
  sn_place id j : sc_seen s !! id = Some j -> j < length before;
  sn_certificate c : sc_certificate s = Some c -> exists n h, InstallCertificate c n h ∈ before;
  sn_no_certificate : sc_certificate s = None -> forall id n h, InstallCertificate id n h ∉ before;
  sn_key h id : sc_keys s !! h = Some id -> exists n, InstallKey id n h ∈ before;
  sn_no_key h : sc_keys s !! h = None -> forall id n, InstallKey id n h ∉ before;
}.
Lemma snoc_old {B} (l : list B) x y : x ∈ l -> x ∈ l ++ [y].
Proof. rewrite elem_of_app. by left. Qed.
Lemma snoc_new {B} (l : list B) y : y ∈ l ++ [y].
Proof. rewrite elem_of_app. right. by constructor. Qed.
Lemma snoc_inv {B} (l : list B) x y : x ∈ l ++ [y] -> x <> y -> x ∈ l.
Proof. rewrite elem_of_app, list_elem_of_singleton. tauto. Qed.
#[local] Hint Resolve snoc_old snoc_new : core.
Lemma step_scan_Ok first_id before o s s' : scanned before s -> step_scan first_id (length before) o s = Ok s' -> may_stand before o /\ scanned (before ++ [o]) s'.
Proof.
  intros [H1 H2 H3 H4 H5 H6] E. unfold step_scan in E. destruct (_ || _) eqn:EI; [done|]. apply orb_false_iff in EI as [_ EN%bool_decide_eq_false]. destruct (forallb _ _) eqn:EF; [|done]. cbn [negb] in E. destruct (match op_component o with Some hash => negb (is_hex hash 64) | None => false end); [done|].
  assert (op_id o ∉ map op_id before) as Hid by (by rewrite <- H1). set (seen := <[op_id o := length before]> (sc_seen s)) in *.
  assert (Forall (fun need => need ∈ map op_id before) (op_needs o)) as Hneeds.
  { apply Forall_forall. intros need Hn. assert (match seen !! need with Some at_ => at_ <? length before | None => false end = true) as X by exact (proj1 (forallb_forall _ _) EF need (proj1 (list_elem_of_In _ _) Hn)).
    destruct (decide (need = op_id o)) as [->|Hne]; [unfold seen in X; rewrite lookup_insert_eq in X; apply Nat.ltb_lt in X; lia|]. unfold seen in X. rewrite lookup_insert_ne in X by done. apply H1. by destruct (sc_seen s !! need). }
  assert (forall id, is_Some (seen !! id) <-> id ∈ map op_id (before ++ [o])) as G1.
  { intros id. rewrite map_app, elem_of_app, <- H1. unfold seen. destruct (decide (id = op_id o)) as [->|Hne]; [rewrite lookup_insert_eq; cbn; split; [intros _; right; by constructor|by eexists]|]. rewrite lookup_insert_ne by done. cbn. rewrite list_elem_of_singleton. naive_solver. }
  assert (forall id j, seen !! id = Some j -> j < length (before ++ [o])) as G2.
  { intros id j. rewrite length_app. cbn. unfold seen. destruct (decide (id = op_id o)) as [->|Hne]; [rewrite lookup_insert_eq; intros [= <-]; lia|]. rewrite lookup_insert_ne by done. intros ?%H2. lia. }
  destruct o as [id needs|id needs h|id needs h|id needs h]; cbn [op_id op_needs] in *.
  - destruct (_ || _) eqn:EB; [done|]. injection E as <-. apply orb_false_iff in EB as [E0%negb_false_iff%Nat.eqb_eq EE%negb_false_iff%bool_decide_eq_true]. apply length_zero_iff_nil in E0. subst. split; [by split_and!|].
    split; cbn [sc_seen sc_certificate sc_keys]; [done..|intros c Hc; apply H3 in Hc as (? & ? & []%elem_of_nil)|intros _ x n h Hx; by eapply elem_of_nil, snoc_inv|intros k x Hk; apply H5 in Hk as (? & []%elem_of_nil)|intros k _ x n Hx; by eapply elem_of_nil, snoc_inv].
  - destruct (_ || _) eqn:EB; [done|]. injection E as <-. apply orb_false_iff in EB as [[E0%Nat.eqb_neq EC%bool_decide_eq_false]%orb_false_iff _]. apply eq_None_not_Some in EC.
    split; [split_and!; [done..|by intros ->|by apply H4]|]. split; cbn [sc_seen sc_certificate sc_keys]; [done..| | | |].
    + intros c [= <-]. eauto.
    + done.
    + intros k x Hk. destruct (H5 _ _ Hk) as [n Hn]. eauto.
    + intros k Hk x n Hx. apply (H6 k Hk x n). by eapply snoc_inv.
  - destruct (_ || _) eqn:EB; [done|]. injection E as <-. apply orb_false_iff in EB as [EC%negb_false_iff EK%bool_decide_eq_false]. apply eq_None_not_Some in EK. destruct (sc_certificate s) as [c|] eqn:ES; [|done]. apply bool_decide_eq_true in EC.
    destruct (H3 c eq_refl) as (n & hc & Hc). split; [split_and!; [done..|by exists c, n, hc|by apply H6]|]. split; cbn [sc_seen sc_certificate sc_keys]; [done..| | | |].
    + intros c' [= <-]. eauto.
    + done.
    + intros k x. destruct (decide (k = h)) as [->|Hne]; [rewrite lookup_insert_eq; intros [= <-]; eauto|]. rewrite lookup_insert_ne by done. intros Hk. destruct (H5 _ _ Hk) as [n' Hn]. eauto.
    + intros k. destruct (decide (k = h)) as [->|Hne]; [by rewrite lookup_insert_eq|]. rewrite lookup_insert_ne by done. intros Hk x n' Hx. apply (H6 k Hk x n'). eapply snoc_inv; [exact Hx|congruence].
  - destruct (negb _) eqn:EB; [done|]. injection E as <-. apply negb_false_iff in EB. destruct (sc_keys s !! h) as [step|] eqn:ES; [|done]. apply bool_decide_eq_true in EB. destruct (H5 _ _ ES) as [n Hn].
    split; [split_and!; [done..|by exists step, n]|]. split; cbn [sc_seen sc_certificate sc_keys]; [done..| | | |].
    + intros c Hc. destruct (H3 c Hc) as (n' & hc & Hx). eauto.
    + intros Hc x n' hc Hx. apply (H4 Hc x n' hc). by eapply snoc_inv.
    + intros k x Hk. destruct (H5 _ _ Hk) as [n' Hn']. eauto.
    + intros k Hk x n' Hx. apply (H6 k Hk x n'). by eapply snoc_inv.
Qed.
Lemma scan_steps_Ok first_id before l s s' : scanned before s -> scan_steps first_id (length before) l s = Ok s' ->
  forall mid o post, l = mid ++ o :: post -> may_stand (before ++ mid) o.
Proof.
  revert before s; induction l as [|x l IH]; intros before s HS E mid o post EL; [by destruct mid|]. cbn in E. apply bind_Ok in E as (s1 & E1 & E). destruct (step_scan_Ok _ _ _ _ _ HS E1) as [Hx HS1].
  destruct mid as [|y mid]; cbn in EL; injection EL as -> ->; [by rewrite app_nil_r|]. replace (length before + 1) with (length (before ++ [y])) in E by (by rewrite length_app).
  rewrite (app_assoc before [y] mid : before ++ y :: mid = (before ++ [y]) ++ mid). by eapply IH.
Qed.
Definition well_ordered (l : list Operation) : Prop := forall before o after, l = before ++ o :: after -> may_stand before o.

(** The parts that the steps install: each of them once. *)
Definition installs (l : list Operation) : list bytes := omap (fun o => if is_use_relay o then None else op_component o) l.
Lemma use_parts_Ok parts l used used' : use_parts parts l used = Ok used' -> 
  used' = used ∪ list_to_set (installs l) /\ NoDup (installs l) /\ (forall h, h ∈ installs l -> h ∉ used) /\
  forall o h, o ∈ l -> op_component o = Some h -> exists kind, parts !! h = Some kind /\ kind ∈ wanted o.
Proof.
  revert used; induction l as [|o l IH]; intros used E; cbn in E.
  - injection E as <-. split_and!; [cbn; set_solver|constructor|by intros h []%elem_of_nil|by intros o h []%elem_of_nil].
  - unfold installs. cbn [omap list_omap]. fold (installs l). destruct (op_component o) as [h|] eqn:EO; cycle 1.
    { destruct (IH _ E) as (H1 & H2 & H3 & H4). replace (if is_use_relay o then None else (None : option bytes)) with (None : option bytes) by (by destruct (is_use_relay o)). split_and!; [done..|]. intros o' h [->|Ho]%elem_of_cons; [congruence|eauto]. }
    destruct (negb _) eqn:EW; [done|]. apply negb_false_iff in EW. destruct (parts !! h) as [kind|] eqn:EP; [|done]. apply bool_decide_eq_true in EW.
    assert (forall l', (forall o h, o ∈ l' -> op_component o = Some h -> exists kind, parts !! h = Some kind /\ kind ∈ wanted o) -> forall o' h', o' ∈ o :: l' -> op_component o' = Some h' -> exists kind, parts !! h' = Some kind /\ kind ∈ wanted o') as Hw.
    { intros l' Hl o' h' [->|Ho]%elem_of_cons Eh; [|eauto]. replace h' with h by congruence. eauto. }
    destruct (is_use_relay o); [destruct (IH _ E) as (H1 & H2 & H3 & H4); split_and!; [done..|by apply Hw]|]. case_bool_decide as EU; [done|]. destruct (IH _ E) as (H1 & H2 & H3 & H4). split_and!.
    + rewrite H1. cbn. set_solver.
    + constructor; [|done]. intros Hin. apply (H3 h Hin). set_solver.
    + intros h' [->|Hin]%elem_of_cons; [done|]. specialize (H3 h' Hin). set_solver.
    + by apply Hw.
Qed.

Section manifest_laws.
Context `{C : Crypto} `{HX : Hex}.
(** The parts of a package: every component but the manifest, by its hash. *)
Definition others (p : Pkg) (manifest_at : nat) : list Component := take manifest_at (pk_components p) ++ drop (S manifest_at) (pk_components p).
Lemma others_iff p at_ c : c ∈ others p at_ <-> exists i, i <> at_ /\ pk_components p !! i = Some c.
Proof.
  unfold others. rewrite elem_of_app, !list_elem_of_lookup. split.
  - intros [[i Hi]|[i Hi]]; [apply lookup_take_Some in Hi as [Hi Hl]; exists i; split; [lia|done]|]. rewrite lookup_drop in Hi. exists (S at_ + i). split; [lia|done].
  - intros (i & Hne & Hi). destruct (decide (i < at_)); [left; exists i; by rewrite lookup_take_lt|]. right. exists (i - S at_). rewrite lookup_drop. by replace (S at_ + (i - S at_)) with i by lia.
Qed.
Lemma parts_Some p at_ h kind : parts_of p at_ !! h = Some kind -> exists c, c ∈ others p at_ /\ hash_of (co_bytes c) = h /\ co_kind c = kind.
Proof. intros E%elem_of_list_to_map_2. rewrite elem_of_reverse in E. apply list_elem_of_fmap_1 in E as (c & [= -> ->] & Hc). by exists c. Qed.
Lemma parts_is_Some p at_ h : is_Some (parts_of p at_ !! h) <-> exists c, c ∈ others p at_ /\ hash_of (co_bytes c) = h.
Proof.
  split; [intros [kind E]; destruct (parts_Some _ _ _ _ E) as (c & ? & ? & _); eauto|]. intros (c & Hc & <-). destruct (parts_of p at_ !! hash_of (co_bytes c)) eqn:E; [by eexists|]. exfalso.
  apply not_elem_of_list_to_map_2 in E. apply E. rewrite fmap_reverse, elem_of_reverse. apply list_elem_of_fmap. exists (hash_of (co_bytes c), co_kind c). split; [done|]. apply (list_elem_of_fmap_2 (fun c => (hash_of (co_bytes c), co_kind c))). exact Hc.
Qed.
Lemma validate_Ok b : validate b = Ok tt -> well_ordered (by_operations b) /\ length (by_operations b) <= MAX_OPERATIONS /\ (by_generation b <> 0)%N /\
  (exists id rest, by_operations b = EnsureIdentity id [] :: rest) /\ length (filter (fun o => is_use_relay o = true) (by_operations b)) <= 1.
Proof.
  unfold validate. destruct (_ || _) eqn:EB; [done|]. repeat match goal with H : _ || _ = false |- _ => apply orb_false_iff in H as [H ?] end.
  intros (s & ES & E)%bind_Ok. destruct (head (by_operations b)) as [[id needs| | |]|] eqn:EH; try done. cbn [negb] in E. destruct (Nat.ltb_spec 1 (length (filter (fun o => is_use_relay o = true) (by_operations b)))) as [|HL]; [done|].
  assert (well_ordered (by_operations b)) as HO.
  { intros before o after EL. eapply (scan_steps_Ok _ [] _ _ _) in ES; [exact ES| |exact EL]. split; cbn; try done; try (by intros; rewrite lookup_empty in *); try (by intros ? ? ? ? []%elem_of_nil); try (by intros ? ? ? []%elem_of_nil).
    intros id'. rewrite lookup_empty. by split; [intros []|intros []%elem_of_nil]. }
  split_and!; [done|by apply Nat.ltb_ge|by apply N.eqb_neq| |done]. destruct (by_operations b) as [|o rest] eqn:EO; [done|]. cbn in EH. injection EH as ->. destruct (HO [] (EnsureIdentity id needs) rest eq_refl) as (_ & _ & _ & ->). eauto.
Qed.

(** C18: A set-up manifest that is accepted for a package is a plan that can be run from top to
    bottom: steps have names of their own and need earlier steps only, the identity comes
    first, one certificate before every key, a relay is used after its key is
    installed; it is for this package, purpose, recipient and device, within its own and the
    package's time; and its installing steps name every part of the package but the
    manifest exactly once, each of a kind the step can install, so that nothing rides along
    unseen. *)
Theorem manifest_runs b p manifest_at recipient device now : validate b = Ok tt -> check_against b p manifest_at recipient device now = Ok tt ->
  well_ordered (by_operations b) /\ (exists id rest, by_operations b = EnsureIdentity id [] :: rest) /\
  by_package_id b = hex_encode (pk_id p) /\ by_purpose b = purpose_name (pk_purpose p) /\ by_recipient b = hex_encode recipient /\ (forall d, by_device_id b = Some d -> d = hex_encode device) /\
  (now < by_expires_at b <= pk_expires_at p)%N /\
  NoDup (installs (by_operations b)) /\ (forall h, h ∈ installs (by_operations b) <-> exists i c, i <> manifest_at /\ pk_components p !! i = Some c /\ hash_of (co_bytes c) = h) /\
  (forall o h, o ∈ by_operations b -> op_component o = Some h -> exists c, c ∈ pk_components p /\ hash_of (co_bytes c) = h /\ co_kind c ∈ wanted o).
Proof.
  intros (HO & _ & _ & HF & _)%validate_Ok E. unfold check_against in E. destruct (_ || _) eqn:EB; [done|]. repeat match goal with H : _ || _ = false |- _ => apply orb_false_iff in H as [H ?] end.
  repeat match goal with H : negb _ = false |- _ => apply negb_false_iff in H end. repeat match goal with H : bool_decide _ = true |- _ => apply bool_decide_eq_true in H end.
  apply bind_Ok in E as (used & EU & E). apply use_parts_Ok in EU as (Eu & HN & _ & HK). rewrite union_empty_l_L in Eu. destruct (Nat.eqb_spec (base.size used) (base.size (parts_of p manifest_at))) as [ES|]; [|done]. clear E.
  assert (used ⊆ dom (parts_of p manifest_at)) as Hsub.
  { intros h Hh. rewrite Eu, elem_of_list_to_set in Hh. apply list_elem_of_omap in Hh as (o & Ho & Eo). destruct (is_use_relay o); [done|]. destruct (HK o h Ho Eo) as (kind & Hk & _). apply elem_of_dom. eauto. }
  assert (used = dom (parts_of p manifest_at)) as Hdom by (apply set_subseteq_size_eq; [done|rewrite size_dom; lia]).
  split_and!; try done; [by intros d Ed; match goal with H : match by_device_id b with _ => _ end = false |- _ => rewrite Ed in H; apply negb_false_iff, bool_decide_eq_true in H end|by apply N.leb_gt|by apply N.ltb_ge| |].
  - intros h. rewrite <- (elem_of_list_to_set (C := gset bytes)), <- Eu, Hdom, elem_of_dom, parts_is_Some. setoid_rewrite others_iff. naive_solver.
  - intros o h Ho Eo. destruct (HK o h Ho Eo) as (kind & Hk & Hw). destruct (parts_Some _ _ _ _ Hk) as (c & Hc & Hh & <-). exists c. apply others_iff in Hc as (i & _ & Hi). split_and!; [by eapply list_elem_of_lookup_2|done..].
Qed.
End manifest_laws.
End ManifestLaws.
