(* ===== verification/TransferDemo.v ===== *)
(** * Two devices on concrete data

    A source and a destination device, a transfer between them, and the witnesses of
    the theorems on devices and transfers. *)

From stdpp Require Import gmap.
From S2P Require Import Prelude Text Crypto BTree Envelope HistoryCodec Event Authority Signing Tables KeyStore Aead World Pin Device DeviceLaws TransferPackage Transfer TransferLaws TransferSafety Delivery.

Module TransferDemo.
#[local] Existing Instances Toy.toy ToyAead.toy Memory.storage.
(** [hex::encode] *)
Definition digit (n : N) : byte := byte_of_N (if (n <? 10)%N then 48 + n else 87 + n)%N.
Definition hex_of : Hex := fun b => mjoin (map (fun x => [digit (Byte.to_N x / 16); digit (Byte.to_N x mod 16)]) b).
#[local] Existing Instance hex_of.

Definition key (b : byte) : bytes := replicate 32 b.
Definition salt : bytes := replicate 16 x11.
Definition nonce : bytes := replicate 12 x12.
Definition pass : bytes := str "correct horse".
Definition from_path : bytes := str "/usb/a".
Definition to_path : bytes := str "/usb/b".

Definition made (id secret path : bytes) : Dev Memory.storage :=
  match init_in (S := Memory.storage) id secret path Memory.empty with
  | (Ok c, k) => {| dv_disk := k; dv_box := c |}
  | (Err _, k) => {| dv_disk := k; dv_box := verification_container [] [] |}
  end.
Definition dev_a : Dev Memory.storage := Eval vm_compute in made (replicate 16 x0a) (key x0a) from_path.
Definition dev_b : Dev Memory.storage := Eval vm_compute in made (replicate 16 x0b) (key x0b) to_path.

Definition id_ma : bytes := replicate 16 x01.
Definition site_a0 : Site Memory.storage := {| si_db := PinDemo.empty; si_dev := dev_a |}.
Definition site_a := (enroll_in (S := Memory.storage) id_ma (key x21) (key x22) salt nonce (str "M.A") pass site_a0).2.
Definition tx : bytes := replicate 16 x77.
Definition draws (label : bytes) : bytes * bytes := (salt, nonce).
Definition passes (label : bytes) : option bytes := Some pass.
Definition apart_duo : Duo Memory.storage :=
  {| du_db := si_db site_a; du_db' := Some PinDemo.empty; du_disk := dv_disk (si_dev site_a); du_disk' := Some (dv_disk dev_b); du_from := dv_box (si_dev site_a); du_to := dv_box dev_b |}.
Definition shared_duo : Duo Memory.storage :=
  {| du_db := si_db site_a; du_db' := None; du_disk := dv_disk (si_dev site_a); du_disk' := Some (dv_disk dev_b); du_from := dv_box (si_dev site_a); du_to := dv_box dev_b |}.
Definition moved (d : Duo Memory.storage) := transfer tx draws (str "M.A") (str "M.A") Move KeyOnly passes default_auth d.
Definition site_of (d : Duo Memory.storage) : option (Possession * option Possession) := p ← possession (str "M.A") (si_db (source_site d)); Some (p, possession (str "M.A") (si_db (dest_site d))).

(** The move of a key between two stores: its source has a ghost, its destination the key. *)
Example moves : let '(r, d) := moved apart_duo in
  r = Ok tx /\ site_of d = Some (Ghost, Some Active) /\ map sl_label (ct_slots (du_from d)) = [] /\ is_ok (open_slot_in (str "M.A") pass (si_dev (dest_site d))) = true.
Proof. by vm_compute. Qed.

(** When both devices are registered in one store, the same move leaves its one row a
    ghost, though the key is there: the row of the transaction has taken the
    destination's part, and finishing retires the identity all the same. *)
Example moves_in_one_store : let '(r, d) := moved shared_duo in
  r = Ok tx /\ site_of d = Some (Ghost, Some Ghost) /\ is_ok (open_slot_in (str "M.A") pass (si_dev (dest_site d))) = true.
Proof. by vm_compute. Qed.

(** A row that is its own grandparent: the labels below it are never all collected. *)
Definition row (n : byte) (label parent : bytes) : IdentityRow :=
  {| ir_id := replicate 16 n; ir_label := label; ir_parent := Some parent; ir_enc_public := key n; ir_sign_public := key n; ir_enc_fingerprint := []; ir_sign_fingerprint := [] |}.
Definition knot : Store := set_transfer (set_tt_identities [row x01 (str "A") (str "B"); row x02 (str "B") (str "A")] no_transfers) PinDemo.empty.
Example knot_never_ends : descendants_of (str "A") knot = Err NoEnd.
Proof. by vm_compute. Qed.

(** ** Devices *)

(** Provision, install, reopen, remove. *)
Definition steps : list DeviceOp :=
  [Provision (key x21) (key x22) salt nonce (str "M.A") pass; Install salt nonce (str "M.B") pass (key x23) (key x24); Reopen; Remove (str "M.A")].
#[local] Notation made_a := (init_in (S := Memory.storage) (replicate 16 x0a) (key x0a) from_path Memory.empty).
Definition dev_end : Dev Memory.storage := Eval vm_compute in (st_each run_op steps dev_a).2.
Lemma container_refines_map_witness : exists m, vault_run steps ∅ = Some m /\ implements (S := Memory.storage) (C := Toy.toy) (A := ToyAead.toy) m dev_end.
Proof.
  assert (made_a = (Ok (dv_box dev_a), dv_disk dev_a)) as E1 by (vm_cast_no_check (eq_refl made_a)).
  assert (st_each run_op steps dev_a = (Ok tt, dev_end)) as E2 by (vm_cast_no_check (eq_refl (st_each run_op steps dev_a))).
  assert (Forall op_wf steps) as HF by (repeat constructor; reflexivity).
  exact (container_refines_map (S := Memory.storage) (StorageLaws0 := Memory.storage_laws) (C := Toy.toy) (CryptoLaws0 := Toy.toy_laws) (A := ToyAead.toy) (AeadLaws0 := ToyAead.toy_laws)
    (replicate 16 x0a) (key x0a) from_path Memory.empty (dv_box dev_a) (dv_disk dev_a) steps dev_end eq_refl eq_refl eq_refl HF E1 E2).
Defined.

(** Two containers on one disk. *)
Definition both : Two (S := Memory.storage) := Eval vm_compute in
  let '(_, k) := init_in (S := Memory.storage) (replicate 16 x0b) (key x0b) to_path (dv_disk (si_dev site_a)) in
  {| tw_disk := k; tw_from := dv_box (si_dev site_a); tw_to := dv_box dev_b |}.
Definition relocated := relocate_slot_in (S := Memory.storage) salt nonce (str "M.A") pass both.
Definition secrets_a : SlotSecrets := secrets_of (str "M.A") (key x21) (key x22).
Lemma apart_ab : apart from_path to_path.
Proof. intros n n' E. by vm_compute in E. Qed.
Lemma both_sound : sound (S := Memory.storage) (C := Toy.toy) (from_dev both) /\ sound (S := Memory.storage) (C := Toy.toy) (to_dev both).
Proof.
  split; split; [|exists (key x0a); vm_compute; split_and!; reflexivity| |exists (key x0b); vm_compute; split_and!; reflexivity].
  - split_and!; [vm_compute; reflexivity..|repeat constructor|]. cbn. apply NoDup_singleton.
  - split_and!; [vm_compute; reflexivity..|constructor|constructor].
Qed.
Lemma relocate_never_loses_witness : relocated.1 = Ok tt /\ open_slot_in (S := Memory.storage) (str "M.A") pass (to_dev relocated.2) = Ok secrets_a.
Proof.
  assert (relocated.1 = Ok tt) as E by by vm_compute. split; [done|].
  destruct (relocate_never_loses (S := Memory.storage) (StorageLaws0 := Memory.storage_laws) (C := Toy.toy) (CryptoLaws0 := Toy.toy_laws) (A := ToyAead.toy) (AeadLaws0 := ToyAead.toy_laws)
    salt nonce (str "M.A") pass secrets_a both relocated.1 relocated.2) as [_ H]; [apply both_sound|apply both_sound|apply apart_ab|vm_compute; reflexivity..|exact (surjective_pairing relocated)|].
  exact (proj1 (H E)).
Defined.

(** ** A move, step by step *)

Definition duo0 : Duo Memory.storage := Eval vm_compute in apart_duo.
#[local] Notation prepared_at := (at_source (S := Memory.storage) (prepare_in tx (ct_device_id (du_to duo0)) (str "M.A") (str "M.A") Move KeyOnly passes default_auth) duo0).
Definition prepared : PreparedTransfer := Eval vm_compute in
  match prepared_at with
  | (Ok p, _) => p
  | (Err _, _) => {| pt_id := []; pt_operation := Copy; pt_descendants := KeyOnly; pt_root := []; pt_actor := []; pt_secret_labels := []; pt_hint_labels := []; pt_package := [] |}
  end.
Definition duo1 : Duo Memory.storage := Eval vm_compute in prepared_at.2.
(** One slot is written and the run stops; then the package is accepted, and the pair recovered. *)
#[local] Notation staged := (at_dest (S := Memory.storage) (dest ← container; on_db (stage_destination (du_from duo1) dest (pt_package prepared) false)) duo1).
Definition duo2 : Duo Memory.storage := Eval vm_compute in staged.2.
#[local] Notation written := (at_dest (S := Memory.storage) (write_destination_slots_in draws (du_from duo2) (pt_package prepared) passes (Some 1)) duo2).
Definition duo3 : Duo Memory.storage := Eval vm_compute in written.2.
#[local] Notation accepted := (at_dest (S := Memory.storage) (accept_package_in draws (ct_device_id (du_from duo0)) (ct_verify_key (du_from duo0)) (pt_package prepared) passes false) duo3).
Definition duo4 : Duo Memory.storage := Eval vm_compute in accepted.2.
#[local] Notation recovered := (recover_pair_in (S := Memory.storage) tx duo4).
Definition duo5 : Duo Memory.storage := Eval vm_compute in recovered.2.

Lemma draws_ok : draws_wf draws.
Proof. intros l. by split. Qed.
Lemma duo0_sound : sound (S := Memory.storage) (C := Toy.toy) (si_dev (source_site duo0)) /\ sound (S := Memory.storage) (C := Toy.toy) (si_dev (dest_site duo0)).
Proof.
  split; split; [|exists (key x0a); vm_compute; split_and!; reflexivity| |exists (key x0b); vm_compute; split_and!; reflexivity].
  - split_and!; [vm_compute; reflexivity..|repeat constructor|]. cbn. apply NoDup_singleton.
  - split_and!; [vm_compute; reflexivity..|constructor|constructor].
Qed.
Lemma duo0_catalog : catalog_wf (du_db duo0).
Proof.
  split; repeat constructor; try (vm_compute; reflexivity); by eapply bool_decide_eq_true_1.
Qed.

(** The steps above are steps of the transfer. *)
Lemma duo_steps : rtc (transfer_step (S := Memory.storage) (C := Toy.toy) (HX := hex_of) (A := ToyAead.toy) tx (ct_device_id (du_from duo0)) (ct_verify_key (du_from duo0)) (pt_package prepared) passes) duo1 duo5.
Proof.
  assert (staged = (Ok tt, duo2)) as E1 by (vm_cast_no_check (eq_refl staged)). assert (written = (Ok tt, duo3)) as E2 by (vm_cast_no_check (eq_refl written)).
  assert (accepted = (Ok tx, duo4)) as E3 by (vm_cast_no_check (eq_refl accepted)). assert (recovered = (Ok RecFinalized, duo5)) as E4 by (vm_cast_no_check (eq_refl recovered)).
  eapply rtc_l; [exact (step_stage _ _ _ _ _ false _ _ _ E1)|]. eapply rtc_l; [exact (step_write _ _ _ _ _ draws (Some 1) _ _ _ draws_ok E2)|].
  eapply rtc_l; [exact (step_accept _ _ _ _ _ draws false _ _ _ draws_ok E3)|]. eapply rtc_l; [exact (step_recover _ _ _ _ _ _ _ _ E4)|]. apply rtc_refl.
Qed.
Lemma transfer_crash_safe_witness : destination_committed tx (si_db (dest_site duo5)) = true /\
  exists x, open_slot_in (S := Memory.storage) (C := Toy.toy) (A := ToyAead.toy) (str "M.A") pass (si_dev (source_site duo0)) = Ok x /\
  holds (S := Memory.storage) (C := Toy.toy) (A := ToyAead.toy) (dest_site duo5) (str "M.A") pass (ss_encryption_public x).
Proof.
  assert (destination_committed tx (si_db (dest_site duo5)) = true) as EC by (vm_compute; reflexivity). split; [exact EC|].
  assert (str "M.A" ∈ pt_secret_labels prepared) as Hl by constructor.
  assert (is_Some (du_db' duo0)) as H1 by (eexists; reflexivity). assert (du_disk' duo0 = None -> apart (ct_path (du_from duo0)) (ct_path (du_to duo0))) as H2 by (intros E; discriminate E).
  assert (fixed 16 tx) as H3 by reflexivity. assert (tx_row tx (si_db (dest_site duo0)) = None) as H4 by reflexivity.
  assert (prepared_at = (Ok prepared, duo1)) as H5 by (vm_cast_no_check (eq_refl prepared_at)).
  destruct (transfer_crash_safe (S := Memory.storage) (StorageLaws0 := Memory.storage_laws) (C := Toy.toy) (CryptoLaws0 := Toy.toy_laws) (HX := hex_of) (A := ToyAead.toy) (AeadLaws0 := ToyAead.toy_laws)
    duo0 duo1 duo5 tx (str "M.A") (str "M.A") Move KeyOnly passes default_auth prepared H1 H2 (proj1 duo0_sound) (proj2 duo0_sound) duo0_catalog H3 H4 H5 duo_steps (str "M.A") Hl) as (p & x & E1 & E2 & _ & H6 & _).
  injection E1 as <-. exists x. split; [exact E2|exact (H6 EC)].
Defined.

(** A root, a child and a grandchild. *)
Definition family : Store := set_transfer (set_tt_identities [row x01 (str "M") []; row x02 (str "M.A") (str "M"); row x03 (str "M.A.B") (str "M.A")] no_transfers) PinDemo.empty.
Lemma family_tree : tree_wf family.
Proof.
  split; [by eapply bool_decide_eq_true_1|]. intros p c (i & Hi & <- & Hp). cbn in Hi. repeat (apply elem_of_cons in Hi as [->|Hi]; [injection Hp as <-; cbn; lia|]). by apply elem_of_nil in Hi.
Qed.
Lemma descendants_exact_witness : exists all, descendants_of (str "M") family = Ok all /\ NoDup all /\ forall l, l ∈ all <-> tc (child family) (str "M") l.
Proof. exact (descendants_exact (str "M") family family_tree). Defined.

Lemma package_exact_witness : exists b, open_bundle (C := Toy.toy) (HX := hex_of) (pt_package prepared) (du_from duo0) (du_to duo0) = Ok b /\ bundle_wf (C := Toy.toy) (HX := hex_of) (du_from duo0) (du_to duo0) b.
Proof.
  destruct (open_bundle (C := Toy.toy) (HX := hex_of) (pt_package prepared) (du_from duo0) (du_to duo0)) as [b|e] eqn:E; [|vm_compute in E; discriminate E]. exists b. split; [reflexivity|].
  exact (proj1 (proj2 (package_exact (C := Toy.toy) (CryptoLaws0 := Toy.toy_laws) (HX := hex_of) (S := Memory.storage) (si_dev (source_site duo0)) (du_to duo0) b) (pt_package prepared) E)).
Defined.

(** ** A slot by letter *)

Definition mail_secret : bytes := key x33.
Definition no_secrets : SlotSecrets := secrets_of [] [] [].
Definition site_b0 : Dev Memory.storage := si_dev (dest_site duo0).
#[local] Notation posted := (seal_relocate_in (S := Memory.storage) (replicate 16 x55) (key x44) (box_public mail_secret) (si_dev (source_site duo0)) (str "M.A") (ct_device_id (dv_box site_b0)) pass).
Definition post : SealedRelocate := Eval vm_compute in match posted with Ok l => l | Err _ => {| sr_relocate_id := []; sr_bytes := [] |} end.
#[local] Notation read_post := (open_relocate mail_secret (sr_bytes post)).
Definition post_letter : RelocateLetter := Eval vm_compute in match read_post with Ok l => l
  | Err _ => {| rl_relocate_id := []; rl_label := []; rl_source := []; rl_destination := []; rl_return_public := []; rl_source_verify_key := []; rl_encryption_secret := []; rl_signing_secret := [] |} end.
#[local] Notation put_post := (install_slot_in (S := Memory.storage) salt nonce (rl_label post_letter) (str "other words") (rl_encryption_secret post_letter) (rl_signing_secret post_letter) site_b0).
Definition site_b1 : Dev Memory.storage := Eval vm_compute in put_post.2.
Definition post_record : SlotRecord := slot_record (str "M.A") (key x21) (key x22).
#[local] Notation answered := (seal_relocate_ack_in (S := Memory.storage) (key x45) post_letter site_b1).
Definition answer : bytes := Eval vm_compute in match answered with Ok b => b | Err _ => [] end.

Lemma relayed_relocation_witness : open_slot_in (S := Memory.storage) (C := Toy.toy) (A := ToyAead.toy) (str "M.A") (str "other words") site_b1 = Ok secrets_a.
Proof.
  assert (posted = Ok post) as E1 by (vm_cast_no_check (eq_refl posted)). assert (read_post = Ok post_letter) as E2 by (vm_cast_no_check (eq_refl read_post)).
  assert (put_post = (Ok post_record, site_b1)) as E3 by (vm_cast_no_check (eq_refl put_post)). assert (answered = Ok answer) as E4 by (vm_cast_no_check (eq_refl answered)).
  assert (open_slot_in (S := Memory.storage) (str "M.A") pass (si_dev (source_site duo0)) = Ok secrets_a) as E5 by (vm_cast_no_check (eq_refl (open_slot_in (S := Memory.storage) (str "M.A") pass (si_dev (source_site duo0))))).
  exact (proj1 (relayed_relocation (S := Memory.storage) (StorageLaws0 := Memory.storage_laws) (C := Toy.toy) (CryptoLaws0 := Toy.toy_laws) (A := ToyAead.toy) (AeadLaws0 := ToyAead.toy_laws)
    (replicate 16 x55) (key x44) (key x45) mail_secret salt nonce (str "M.A") pass (str "other words") (si_dev (source_site duo0)) site_b0 site_b1 secrets_a post post_letter post_record answer
    eq_refl eq_refl (proj1 duo0_sound) (proj2 duo0_sound) eq_refl eq_refl E5 E1 E2 E3 E4)).
Defined.

(** ** Enrollment *)

Lemma hex_of_digits b : Forall EnrollmentLaws.hex_digit (hex_of b).
Proof.
  unfold hex_of. induction b as [|x b IH]; [constructor|]. change (Forall EnrollmentLaws.hex_digit ([digit (Byte.to_N x / 16); digit (Byte.to_N x mod 16)] ++ mjoin (map (fun x => [digit (Byte.to_N x / 16); digit (Byte.to_N x mod 16)]) b))).
  apply Forall_app. split; [|exact IH]. assert (bool_decide (digit (Byte.to_N x / 16) ∈ str "0123456789abcdef" /\ digit (Byte.to_N x mod 16) ∈ str "0123456789abcdef") = true) as H by (destruct x; vm_compute; reflexivity).
  apply bool_decide_eq_true in H as [? ?]. constructor; [done|]. by constructor; [|constructor].
Qed.
Definition applicant : Enrollment.Request :=
  {| Enrollment.rq_device_id := replicate 16 x0a; Enrollment.rq_created_at := 1700000000; Enrollment.rq_label := str "M.A"; Enrollment.rq_encryption_public := key x21; Enrollment.rq_signing_public := public_key (key x22) |}.
#[local] Notation applied := (Enrollment.encode applicant (key x22)).
Definition application : bytes := Eval vm_compute in match applied with Ok b => b | Err _ => [] end.
Lemma enrollment_exact_witness : Enrollment.decode (C := Toy.toy) application = Ok applicant.
Proof.
  assert (applied = Ok application) as E by (vm_cast_no_check (eq_refl applied)).
  assert (EnrollmentLaws.request_fields applicant) as HF by (split_and!; vm_compute; reflexivity).
  exact (proj1 (proj2 (EnrollmentLaws.enrollment_exact (C := Toy.toy) (CryptoLaws0 := Toy.toy_laws) (HX := hex_of) hex_of_digits application applicant)) (key x22) HF eq_refl E).
Defined.

(** ** A package for a client *)

Definition root_secret : bytes := key x61.
Definition relay_secret : bytes := key x62.
Definition the_certificate : Certificate :=
  {| ce_provider_id := str "acme"; ce_serial := str "1"; ce_relay_public_key := public_key relay_secret; ce_issued_at := str "2026-01-01 00:00:00"; ce_expires_at := str "2027-01-01 00:00:00";
     ce_capabilities := 7; ce_issuer_id := str "root" |}.
Definition certificate_bytes : bytes := Eval vm_compute in match issue_certificate root_secret the_certificate with Ok b => b | Err _ => [] end.
Definition key_bytes : bytes := Eval vm_compute in match seal (key x44) EXPORT_BUNDLE Package.BUNDLE_TYPE_API_KEY (box_public (key x21)) (str "token") with Ok b => b | Err _ => [] end.
Definition manifest_bytes : bytes := Eval vm_compute in match seal (key x44) EXPORT_BUNDLE Package.BUNDLE_TYPE_SETUP_MANIFEST (box_public (key x21)) (str "steps") with Ok b => b | Err _ => [] end.
Definition client_package : Package.Pkg :=
  {| Package.pk_purpose := Package.ClientSetup; Package.pk_id := replicate 16 x66; Package.pk_issued_at := 1767225600; Package.pk_expires_at := 1767312000; Package.pk_issuer := public_key relay_secret;
     Package.pk_components := [ {| Package.co_kind := Package.Certificate_; Package.co_bytes := certificate_bytes |}; {| Package.co_kind := Package.ApiKeyBundle; Package.co_bytes := key_bytes |};
                               {| Package.co_kind := Package.SetupManifest; Package.co_bytes := manifest_bytes |} ] |}.
#[local] Notation issued := (Package.encode client_package relay_secret).
Definition package_bytes : bytes := Eval vm_compute in match issued with Ok b => b | Err _ => [] end.
Lemma client_package_fits : PackageLaws.package_fits client_package.
Proof.
  split; [reflexivity|]. split; [reflexivity|]. split; [reflexivity|]. split; [reflexivity|]. split; [by apply Nat.leb_le|].
  apply Forall_forall. intros c Hc. do 3 (apply elem_of_cons in Hc as [->|Hc]; [split; vm_compute; intros E; discriminate E|]). by apply elem_of_nil in Hc.
Qed.
Lemma package_trusted_witness : exists c cert, c ∈ Package.pk_components client_package /\ Package.co_kind c = Package.Certificate_ /\
  certified (C := Toy.toy) (public_key root_secret) (str "2026-06-01 00:00:00") ∅ (Package.co_bytes c) cert /\ ce_relay_public_key cert = public_key relay_secret.
Proof.
  assert (issued = Ok package_bytes) as E1 by (vm_cast_no_check (eq_refl issued)).
  destruct (PackageLaws.package_trusted (C := Toy.toy) (CryptoLaws0 := Toy.toy_laws) package_bytes client_package (public_key root_secret) (str "2026-06-01 00:00:00") 1767225700 ∅) as [H1 H2].
  assert (Package.verify_issuer client_package (public_key root_secret) (str "2026-06-01 00:00:00") ∅ = Ok tt) as E2 by (vm_cast_no_check (eq_refl (Ok tt : result unit))).
  exact (proj2 (proj2 (proj2 (proj2 (H1 (H2 relay_secret client_package_fits E1) eq_refl E2))))).
Defined.

Definition plan : Manifest.Body :=
  {| Manifest.by_version := 2; Manifest.by_package_id := hex_encode (replicate 16 x66); Manifest.by_purpose := str "client_setup"; Manifest.by_recipient := hex_encode (box_public (key x21));
     Manifest.by_device_id := None; Manifest.by_expires_at := 1767312000; Manifest.by_generation := 1; Manifest.by_certificate_sha256 := Manifest.hash_of certificate_bytes;
     Manifest.by_operations := Manifest.standard_operations (Manifest.hash_of certificate_bytes) [Manifest.hash_of key_bytes] |}.
(** The steps of a client package, as the relay writes them for it. *)
Lemma manifest_runs_witness : ManifestLaws.well_ordered (Manifest.by_operations plan) /\ NoDup (ManifestLaws.installs (Manifest.by_operations plan)).
Proof.
  assert (Manifest.validate plan = Ok tt) as E1 by (vm_cast_no_check (eq_refl (Ok tt : result unit))).
  assert (Manifest.check_against plan client_package 2 (box_public (key x21)) (replicate 16 x0a) 1767225700 = Ok tt) as E2 by (vm_cast_no_check (eq_refl (Ok tt : result unit))).
  destruct (ManifestLaws.manifest_runs (C := Toy.toy) (HX := hex_of) plan client_package 2 (box_public (key x21)) (replicate 16 x0a) 1767225700 E1 E2) as (H1 & _ & _ & _ & _ & _ & _ & H2 & _).
  exact (conj H1 H2).
Defined.
End TransferDemo.
